(* ===== verification/_CoqProject ===== *)
-Q . S2P
Prelude.v
Array.v
Convert.v
Inet.v
OptionStore.v
OptionParse.v
OptionSafety.v
OptionWire.v
OptionOut.v
OptionOrder.v
OptionLayout.v
OptionPacket.v
Lease.v
LeaseList.v
LeaseChain.v
LeaseHash.v
Billing.v
LeaseDb.v
LeaseDbInv.v
LeaseDbOk.v
LeaseTimer.v
LeaseOps.v
Allocate.v
LeaseSample.v
Packet.v
PacketOk.v
Hash.v
HashOk.v
Dispatch.v
Name.v
NameOk.v
NameMsg.v
NameList.v
Expr.v
Eval.v
EvalType.v
DcList.v
EvalStr.v
EvalRef.v
EvalTotal.v
FailoverQueue.v
FailoverQueueList.v
FailoverQueueOk.v
Failover.v
FailoverOk.v
FailoverPair.v
FailoverBind.v
FailoverBindOk.v
FailoverBindDb.v
FailoverBindSample.v
OmapiBuffer.v
OmapiBufferOk.v
FailoverMsg.v
FailoverMsgOk.v
FailoverLink.v
FailoverLinkOk.v
FailoverLinkSafe.v
FailoverSent.v
