(* ===== verification/Prelude.v ===== *)
(** * ISC DHCP 4.3.6-P1: a verification library

    A model of the parts of the DHCP server under src/dhcp-4.3.6-P1 that carry
    its logic, with the theorems that make them correct.  Paths below are
    relative to that directory.

    ** The program and its parts

    A frame arrives on an interface.  [receive_packet] (common/lpf.c,
    common/packet.c, common/ethernet.c) checks and strips its headers;
    [parse_options] (common/options.c) turns the DHCP packet into an option
    state; the server finds a lease for the client in the lease database
    (server/mdb.c) and moves it to a new state; [cons_options]
    (common/options.c) lays the options of the reply out in a packet, and
    [send_packet] writes it with new headers.  Which classes a packet is in,
    which options it gets and what is done on the way are expressions and
    statements of the configuration, which common/tree.c and common/execute.c
    evaluate; option values that are domain names are packed and unpacked by
    common/ns_name.c.  Two servers that share their pools tell each other about
    their leases and their states (server/failover.c).  The database has a queue of
    leases for each pool and binding state (server/mdb.c,
    server/leasechain.c), tables of leases by client, on top of the hash tables
    of omapip/hash.c, classes that limit the number of leases
    (server/class.c), and a timer for each pool (common/dispatch.c) that
    expires leases.  Address arithmetic is in common/inet.c, the conversion of
    integers in omapip/convert.c.

    ** The files

    - [Prelude]: outcomes of C code, machine integers, arrays, loops, byte
      strings as numbers, byte order, tactics and the hint databases.
    - [Array]: reads and writes at an offset, used for packets and names.
    - [Convert]: omapip/convert.c, every function.
    - [Inet]: common/inet.c, includes/inet.h: addresses, masks, CIDR blocks.
    - Options (common/options.c).  [OptionStore]: buffers, data strings, option
      spaces and states with lookup, save and delete.  [OptionParse]: the parser
      of option buffers and packets, with encapsulated spaces and the FQDN
      option.  [OptionSafety]: the parser is memory safe and returns, the
      [log_fatal] of [cons] apart.
      [OptionWire]: what it reads.  [OptionOut]: [store_options] and
      [cons_options].  [OptionOrder]: the order of options.  [OptionLayout]: the
      contents of the buffer.  [OptionPacket]: the packet and the round trip.
    - Queues.  [Lease]: leases in a store, the interface of queues
      ([LeaseQueueOps], the macros of includes/dhcpd.h, and its laws
      [LeaseQueue]).  [LeaseList] (server/mdb.c) and [LeaseChain]
      (server/leasechain.c) are its two implementations, between which the
      server chooses when it is compiled.
    - The lease database.  [LeaseHash]: the data of a lease and the lists of
      leases by client (server/mdb.c).  [Billing]: [bill_class] and
      [unbill_class] (server/class.c).  [LeaseDb]: pools, state transitions,
      [supersede_lease], [pool_timer], [release_lease], [abandon_lease] and
      startup (server/mdb.c), against [LeaseQueueOps] and against [World], the
      interface to the rest of the server.  [LeaseDbInv] and [LeaseDbOk]: the
      invariant and the operations that keep it.  [LeaseTimer]: expiry.
      [LeaseOps]: the operations as a whole.  [Allocate]: [permitted] and
      [allocate_lease] (server/dhcp.c) and [lease_mine_to_reallocate]
      (server/failover.c), which choose the lease for a new client.
      [LeaseSample]: an instance of the interfaces and a small database.
    - [Packet], [PacketOk]: headers, checksums, [send_packet] and
      [receive_packet] (common/packet.c, common/ethernet.c, common/lpf.c).
    - [Hash], [HashOk]: omapip/hash.c.
    - [Dispatch]: common/dispatch.c.
    - Domain names (common/ns_name.c).  [Name]: every function.  [NameOk]: names
      as lists of labels, text and form on the wire.  [NameMsg]: packing with
      pointers and unpacking.  [NameList]: lists of names.
    - The configuration language.  [Expr]: expressions, statements, values,
      scopes and the state (includes/tree.h, includes/statement.h).  [Eval]: the
      evaluators of common/tree.c, the statements of common/execute.c, classes
      (server/class.c, common/tree.c) and the parts of common/options.c that
      they call.  [EvalType]: types.  [EvalStr] and [EvalRef]: a reference
      semantics.  [EvalTotal]: expressions and statements that are sure to
      return.  [DcList]: [concat_dclists].
    - Failover (server/failover.c).  [FailoverQueue]: the queues of updates that
      are to be sent and of those that are to be acknowledged, linked through
      the leases.  [FailoverQueueList]: the lists that this structure stands
      for.  [FailoverQueueOk]: the specification on two lists and the
      refinement.  [Failover]: the state machine of a peer.  [FailoverOk]: its
      soundness.  [FailoverPair]: two servers and the messages between them.
      [FailoverBind]: load balancing, the updates that are sent for a lease and
      what a server makes of those of its peer and of the answers to its own.
      [FailoverBindOk]: what two servers make of the same client or lease.
      [FailoverBindDb]: the lease database under updates and answers.
      [FailoverBindSample]: a server with a lease.
    - Connections.  [OmapiBuffer]: the chains of ring buffers between a
      connection and its socket, and the integers that go through them
      (omapip/buffer.c, omapip/connection.c).  [OmapiBufferOk]: they are queues
      of bytes.
    - Failover messages on a connection (server/failover.c, server/stables.c).
      [FailoverMsg]: options, messages and how they are sent.  [FailoverMsgOk]:
      the bytes that they are.  [FailoverLink]: how a connection takes messages
      from the stream of bytes.  [FailoverLinkOk]: what was sent is received,
      the connect message included.
      [FailoverLinkSafe]: any contents are read safely.  [FailoverSent]: the
      messages that a server makes, binding updates, and examples.

    ** How C is represented

    A function that can stop the process, leave the bounds of an object or loop
    has a result of type [outcome]; [Fatal] is [log_fatal], [Fault] an access
    out of bounds, [Running] a loop that was cut off.  A theorem that says
    [f x = Done y] therefore says that [f] returns.  Integers are in [Z], with
    their wrap-around written out ([u8], [u16], [u32], [u64], [s16], ...);
    memory is lists of bytes, read and written through [rd], [wr], [rdn] and
    [wrn], and the byte order of the machine is a parameter ([HostOrder]).
    Objects that are shared (leases, classes, buffers) are in stores and named
    by numbers, so that links and aliasing are those of the code.  Reference
    counts, log messages and debugging code are not modelled.  Functions that
    mutate their arguments return the new values.

    ** Loops and fuel

    [for_loop] and [for_each] have a given number of iterations.  [while_loop d]
    makes at most [2 ^ d] turns, so that loops with huge bounds stay executable;
    the theorems show that the chosen bounds are enough.  The loops of the
    option parser and of [store_options] have one turn more than there are
    bytes, since each turn consumes one; the nesting of option spaces is
    bounded by the length of the buffer in the same way.  The evaluators of
    [Eval] take fuel for their recursion; twice the height of an expression is
    enough for it ([EvalRef]).  A state of the failover machine leads to at most
    one more, so that [set_state] has fuel 2; a loop along a failover queue has
    one step for each lease and one more.  [while_loop] has [d]
    = 33 for the digits of a 32-bit number, 160 for the at most [2 ^ 128] blocks
    of a range of addresses, 5 and 8 for loops over the bytes and bits of an
    address, 2 for the carry of the hash functions.  A walk through a queue or a
    table has one step for each lease of the store and one more; a binary
    search has one for each bit of an index.  The loops over the buffers of a
    connection have a turn for each byte that they move, and for each buffer; a
    failover message has as many options as bytes at most, and a connection as
    many messages.  The timer of a pool has [4 * n + 1]
    steps for [n] leases, since a lease enters at most three more states in one
    run.

    ** What the theorems show

    - Options: parsing makes no access out of bounds on any input and
      terminates; it returns unless memory for a pair of a chained space is
      missing, where [cons] calls [log_fatal].  With memory it yields exactly
      the values of the buffer (a text without the NULs at the end of its first
      piece); a packet that [cons_options] built fits the allowed size, its
      parts are well formed, and [parse_options] reads from it the options that
      were put in, if none of them is a space of its own; the in-place loop over
      the priorities computes the intended order; an option state is a finite
      map.
    - Queues: both implementations keep a queue sorted by the time of the next
      event, and remove exactly the given lease.
    - Lease database: every operation returns and keeps the invariant that each
      lease is on exactly the queue its state calls for, that the tables list
      exactly the leases of each client, and that classes are billed for what
      they hold; other leases are untouched.  [supersede_lease] leaves the
      lease in the new state; [pool_timer] terminates, touches only leases that
      are due and, without a failover peer, leaves none of them in a state it
      should have left; loading the leases in any order and state gives a
      database in order.
    - Allocation: the lease that is offered comes from a pool that admits the
      client and is a best one in the order of the code; two failover peers
      that see each other do not offer the same lease.
    - Frames: [receive_packet] is safe on every frame of 1536 bytes at most that
      is not shorter than the hardware header, accepts what [send_packet] wrote
      and gives back data and sender, and refuses a frame with one changed word; [checksum] is the one's complement sum.
    - Hash tables: a map from keys that are not empty to stacks of values; keys
      are compared as the hash function of the table says.
    - Timeouts: one for each function and argument, intervals within bounds,
      due timeouts are run in order until none is left.
    - Addresses and integers: the byte loops compute the arithmetic on numbers;
      [range2cidr] covers a range exactly; readers and writers are inverse.
    - Domain names: every function returns on every message and stays within
      its arguments; packing and unpacking, printing and reading are inverse;
      lists of names without a comma in a label come back from a message.
    - Expressions: typed expressions and statements never call [log_fatal] and
      never meet an operator without a value of the wanted type, and those made
      of total operators return without an access out of bounds; the evaluators
      compute the reference semantics; [concat_dclists] has room enough.
    - Failover: the linked queues do what two lists would do, no update is lost
      before its lease is acknowledged or an update of the peer is thought
      better, and no more are under way than allowed.  The state machine deals
      with its signals, timeouts and reports of the peer's state in every state,
      but for the reports that stop a server in conflict-done; a state is announced only after it is
      written; whether clients are answered depends on the two states alone; two
      servers that lost each other come to normal again in every order of their
      messages, unless one restarts in normal after it heard of a state that
      normal does not go with.  Each client is served by exactly one of two servers; of two
      updates that meet at most one is refused; an update whose
      status is a binding state, or an answer, keeps the lease database in order;
      if it is granted it is installed exactly as it says, and a lease that is in
      use and has time left does not end because the peer says that it is free or
      expired, but that a secondary in normal state believes the primary.
    - Connections: whatever the socket takes and gives, the ring buffers behave
      like two queues of bytes, and no access leaves them.  Failover messages
      arrive as they were sent, from the connect message on, in order and once
      each, however the stream is cut, if the receiver accepts the connection; a message with any contents is read safely if its payload begins
      after the header; a binding update is read as the one that was sent.

    ** Interfaces

    [LeaseQueue] is proved for [LeaseList] and [LeaseChain] and used by the
    database, so the theorems on the database hold for both.  [World] has the
    operations the database calls in other parts: the lease file, DNS updates,
    statements, the failover protocol; [WorldOk] says which fields of leases
    they leave alone.  The finite maps of [LeaseHash] and of the timers of
    [LeaseDb] stand for the hash tables of [Hash] and the timeouts of
    [Dispatch], which [HashOk] and [Dispatch] show to behave like that.  In
    [OptionOut] the evaluation of expressions and the encapsulation of other
    spaces are parameters; in [Dispatch] the functions that are called.
    [Surroundings] has what [Eval] takes from elsewhere: regular expressions,
    the names of hosts, the classes of a collection, the encapsulation of option
    spaces and the decoding of vendor options.  In [FailoverQueue] and [Failover] two oracles say which
    messages can be sent and which commits succeed, and the leases of the pools
    and those that balancing moves are parameters.  [FailoverBind] works on the
    database of [LeaseDb] and reaches the queues of [FailoverQueue] through
    [PeerWorld], of which [PeerWorldOk] says what sending leaves alone.  In
    [FailoverLink] the state machine that takes the messages is a parameter,
    which [handles] and [returns] describe.

    ** Not modelled

    The parser of the configuration language (common/parse.c, common/conflex.c,
    server/confpars.c), the protocol handlers (server/dhcp.c but for the
    allocation, server/bootp.c, server/dhcpv6.c) and the lease database for IPv6
    (server/mdb6.c); of server/failover.c the listener, the dispatch of
    received messages to the functions that are modelled, and the balance of
    pools; dynamic
    DNS (server/ddns.c, common/dns.c), the lease file (server/db.c), the object
    management protocol (omapip but for hash.c, convert.c and buffer.c; dhcpctl),
    the client and the relay agent; system
    calls and the ISC libraries, which are not part of the sources.  Of
    server/mdb.c the host and subnet declarations, of server/class.c the
    declarations, of common/tree.c the constructors and printers of expressions, of
    common/inet.c the printing functions.  The second program under src/,
    kea-1.2.0, is a server of its own, written in C++, and is left aside. *)

From Stdlib Require Import ZArith Lia.
From stdpp Require Import base tactics list numbers option.

#[local] Open Scope Z_scope.

(** ** Outcomes of C code

    A C function either returns a value, stops the process through [log_fatal],
    touches memory outside an object, or (for a loop that is given a bounded
    number of iterations) has not finished.  The last two are never confused
    with a result: a theorem that says [f x = Done y] therefore says that [f]
    terminates, does not call [log_fatal] and makes no access out of bounds. *)
Inductive outcome (A : Type) : Type :=
  | Done (a : A)
  | Fatal
  | Fault
  | Running.
Arguments Done {A} a.
Arguments Fatal {A}.
Arguments Fault {A}.
Arguments Running {A}.

#[export] Instance outcome_ret : MRet outcome := fun A a => Done a.
#[export] Instance outcome_bind : MBind outcome := fun A B f m =>
  match m with
  | Done a => f a
  | Fatal => Fatal
  | Fault => Fault
  | Running => Running
  end.
#[export] Instance outcome_fmap : FMap outcome := fun A B f m =>
  match m with
  | Done a => Done (f a)
  | Fatal => Fatal
  | Fault => Fault
  | Running => Running
  end.

Lemma bind_Done {A B} (m : outcome A) (f : A -> outcome B) a :
  m = Done a -> m ≫= f = f a.
Proof. by intros ->. Qed.

Lemma bind_ret {A B} (a : A) (f : A -> outcome B) : Done a ≫= f = f a.
Proof. done. Qed.

Lemma fmap_ret {A B} (a : A) (f : A -> B) : f <$> Done a = Done (f a).
Proof. done. Qed.

Lemma bind_Done_inv {A B} (m : outcome A) (f : A -> outcome B) b :
  m ≫= f = Done b -> exists a, m = Done a /\ f a = Done b.
Proof. destruct m; simpl; intros; try discriminate; eauto. Qed.

(** [assert_c b]: the C code goes on only when [b] holds, and calls
    [log_fatal] otherwise. *)
Definition assert_c (b : bool) : outcome unit := if b then Done tt else Fatal.

(** ** Machine integers *)
Definition u8 (x : Z) : Z := x mod 2 ^ 8.
Definition u16 (x : Z) : Z := x mod 2 ^ 16.
Definition u32 (x : Z) : Z := x mod 2 ^ 32.
Definition u64 (x : Z) : Z := x mod 2 ^ 64.

Lemma u16_small x : 0 <= x < 65536 -> u16 x = x.
Proof. intros. unfold u16. by apply Z.mod_small. Qed.
Lemma u32_small x : 0 <= x < 2 ^ 32 -> u32 x = x.
Proof. intros. unfold u32. by apply Z.mod_small. Qed.
Lemma u32_add_u32 a b : u32 (u32 a + b) = u32 (a + b).
Proof. unfold u32. by rewrite Z.add_mod_idemp_l. Qed.

(** Two's-complement reading of the low [w] bits. *)
Definition sint (w : Z) (x : Z) : Z :=
  let y := x mod 2 ^ w in if y <? 2 ^ (w - 1) then y else y - 2 ^ w.
Definition s8 := sint 8.
Definition s16 := sint 16.
Definition s32 := sint 32.

Definition byte (b : Z) : Prop := 0 <= b < 256.
Abbreviation bytes := (Forall byte).

#[export] Instance byte_dec b : Decision (byte b).
Proof. unfold byte; apply _. Defined.

(** ** Arrays indexed by C integers *)
Definition zlen {A} (l : list A) : Z := Z.of_nat (length l).

Definition rd {A} (l : list A) (i : Z) : outcome A :=
  if i <? 0 then Fault
  else match l !! Z.to_nat i with Some x => Done x | None => Fault end.

Definition wr {A} (l : list A) (i : Z) (x : A) : outcome (list A) :=
  if (0 <=? i) && (i <? zlen l) then Done (<[Z.to_nat i := x]> l) else Fault.

(** [n] elements from index [i] (the source of a [memcpy]). *)
Definition rdn {A} (l : list A) (i n : Z) : outcome (list A) :=
  if (0 <=? i) && (0 <=? n) && (i + n <=? zlen l)
  then Done (take (Z.to_nat n) (drop (Z.to_nat i) l)) else Fault.

(** Overwriting from index [i] (the destination of a [memcpy]). *)
Definition wrn {A} (l : list A) (i : Z) (src : list A) : outcome (list A) :=
  if (0 <=? i) && (i + zlen src <=? zlen l)
  then Done (take (Z.to_nat i) l ++ src ++ drop (Z.to_nat i + length src) l)
  else Fault.

(** ** Loops

    [for_loop n i body s] runs [body] for [n] consecutive indices from [i];
    [body] either goes on with a new state ([inl]) or leaves the loop
    ([inr]: a [break] or a [return]). *)
Fixpoint for_loop {S R} (n : nat) (i : Z) (body : Z -> S -> outcome (S + R))
    (s : S) : outcome (S + R) :=
  match n with
  | O => Done (inl s)
  | Datatypes.S n' =>
      x ← body i s;
      match x with
      | inl s' => for_loop n' (i + 1) body s'
      | inr r => Done (inr r)
      end
  end.

(** A loop over [n] consecutive indices that is never left early. *)
Fixpoint for_each {S} (n : nat) (i : Z) (body : Z -> S -> outcome S) (s : S) : outcome S :=
  match n with
  | O => Done s
  | Datatypes.S n' => s' ← body i s; for_each n' (i + 1) body s'
  end.

(** [iterate d body s] makes at most [2 ^ d] iterations of [body], which goes
    on ([inl]) or stops ([inr]). *)
Fixpoint iterate {S R} (d : nat) (body : S -> outcome (S + R)) (s : S)
    : outcome (S + R) :=
  match d with
  | O => body s
  | Datatypes.S d' =>
      x ← iterate d' body s;
      match x with
      | inl s' => iterate d' body s'
      | inr r => Done (inr r)
      end
  end.

(** An unbounded [while] loop, cut after [2 ^ d] iterations. *)
Definition while_loop {S R} (d : nat) (body : S -> outcome (S + R)) (s : S)
    : outcome R :=
  x ← iterate d body s;
  match x with inl _ => Running | inr r => Done r end.

#[global] Arguments iterate : simpl never.
#[global] Arguments while_loop : simpl never.

(** Total correctness of [while_loop]: an invariant that every iteration keeps
    while it decreases a measure, or that gives the postcondition on exit. *)
Section while_rule.
Context {S R : Type} (body : S -> outcome (S + R)).
Context (I : S -> Prop) (Q : R -> Prop) (m : S -> Z).

Definition step_ok (s : S) : Prop :=
  (exists s', body s = Done (inl s') /\ I s' /\ 0 <= m s' < m s) \/
  (exists r, body s = Done (inr r) /\ Q r).

Hypothesis step : forall s, I s -> step_ok s.

Lemma iterate_spec d s :
  I s ->
  (exists s', iterate d body s = Done (inl s') /\ I s' /\
              0 <= m s' /\ m s' + 2 ^ Z.of_nat d <= m s) \/
  (exists r, iterate d body s = Done (inr r) /\ Q r).
Proof.
  revert s; induction d as [|d IH]; intros s Hs; cbn [iterate].
  - destruct (step s Hs) as [(s' & E & HI & Hm)|(r & E & HQ)]; [left|right];
      eauto 6 with lia.
  - change (iterate (Datatypes.S d) body s) with
      (iterate d body s ≫= fun x => match x with
         | inl s' => iterate d body s' | inr r => Done (inr r) end).
    destruct (IH s Hs) as [(s1 & E1 & HI1 & Hm1 & Hd1)|(r & E & HQ)].
    + rewrite E1; simpl. destruct (IH s1 HI1) as [(s2 & E2 & HI2 & Hm2 & Hd2)|?].
      * left; exists s2; repeat split; auto.
        replace (Z.of_nat (Datatypes.S d)) with (Z.succ (Z.of_nat d)) by lia.
        rewrite Z.pow_succ_r by lia. lia.
      * by right.
    + right; exists r. by rewrite E.
Qed.

Lemma while_total d s :
  I s -> m s < 2 ^ Z.of_nat d -> exists r, while_loop d body s = Done r /\ Q r.
Proof.
  intros Hs Hd. unfold while_loop.
  destruct (iterate_spec d s Hs) as [(s' & E & HI & H0 & Hm)|(r & E & HQ)].
  - lia.
  - exists r. by rewrite E.
Qed.
End while_rule.

(** Invariant rule of [for_loop]. *)
Lemma for_loop_inv {S R} (I : Z -> S -> Prop) (Q : R -> Prop)
    (body : Z -> S -> outcome (S + R)) n : forall i s,
  I i s ->
  (forall j t, i <= j < i + Z.of_nat n -> I j t ->
     (exists t', body j t = Done (inl t') /\ I (j + 1) t') \/
     (exists r, body j t = Done (inr r) /\ Q r)) ->
  (exists s', for_loop n i body s = Done (inl s') /\ I (i + Z.of_nat n) s') \/
  (exists r, for_loop n i body s = Done (inr r) /\ Q r).
Proof.
  induction n as [|n IH]; intros i s Hs Hstep; simpl.
  - left; exists s. rewrite Z.add_0_r. auto.
  - destruct (Hstep i s) as [(t & E & Ht)|(r & E & HQ)]; [lia|done| |].
    + rewrite E; simpl.
      destruct (IH (i + 1) t Ht) as [(s' & E' & Hs')|?]; [|left; exists s'|by right].
      * intros; apply Hstep; [lia|done].
      * split; [done|]. by replace (i + Z.of_nat (Datatypes.S n)) with (i + 1 + Z.of_nat n) by lia.
    + right; exists r. by rewrite E.
Qed.

Lemma for_each_inv {S} (I : Z -> S -> Prop) (body : Z -> S -> outcome S) n : forall i s,
  I i s ->
  (forall j t, i <= j < i + Z.of_nat n -> I j t -> exists t', body j t = Done t' /\ I (j + 1) t') ->
  exists s', for_each n i body s = Done s' /\ I (i + Z.of_nat n) s'.
Proof.
  induction n as [|n IH]; intros i s Hs Hstep; simpl.
  - exists s. rewrite Z.add_0_r. auto.
  - destruct (Hstep i s) as (t & E & Ht); [lia|done|]. rewrite E; simpl.
    destruct (IH (i + 1) t Ht) as (s' & E' & Hs'); [intros; apply Hstep; [lia|done]|].
    exists s'. split; [done|].
    by replace (i + Z.of_nat (Datatypes.S n)) with (i + 1 + Z.of_nat n) by lia.
Qed.

(** ** Byte strings as numbers *)

(** Network (big-endian) order: the first byte is the most significant one. *)
Fixpoint be_val (l : list Z) : Z :=
  match l with
  | [] => 0
  | b :: l' => b * 2 ^ (8 * zlen l') + be_val l'
  end.

Fixpoint be_bytes (n : nat) (z : Z) : list Z :=
  match n with
  | O => []
  | S n' => (z / 2 ^ (8 * Z.of_nat n')) mod 256 :: be_bytes n' z
  end.

(** Little-endian order. *)
Definition le_val (l : list Z) : Z := be_val (reverse l).
Definition le_bytes (n : nat) (z : Z) : list Z := reverse (be_bytes n z).

(** The byte order of the machine the program runs on. *)
Class HostOrder := host_big : bool.

Definition mem_load `{HostOrder} (l : list Z) : Z :=
  if host_big then be_val l else le_val l.
Definition mem_store `{HostOrder} (n : nat) (z : Z) : list Z :=
  if host_big then be_bytes n z else le_bytes n z.

(** [htonl]/[ntohl] ([n] = 4) and [htons]/[ntohs] ([n] = 2): the byte swap of
    the low [n] bytes on a little-endian host. *)
Definition hton `{HostOrder} (n : nat) (z : Z) : Z :=
  if host_big then z mod 2 ^ (8 * Z.of_nat n) else le_val (be_bytes n z).
Definition htonl `{HostOrder} := hton 4.
Definition htons `{HostOrder} := hton 2.
Definition ntohl `{HostOrder} := hton 4.
Definition ntohs `{HostOrder} := hton 2.

(** ** Lemmas: lengths and indexed access *)
Create HintDb dhcp.
Create Rewrite HintDb dhcp.

Lemma zlen_nil {A} : zlen (@nil A) = 0.
Proof. done. Qed.
Lemma zlen_cons {A} (x : A) l : zlen (x :: l) = zlen l + 1.
Proof. unfold zlen; simpl; lia. Qed.
Lemma zlen_app {A} (l k : list A) : zlen (l ++ k) = zlen l + zlen k.
Proof. unfold zlen; rewrite length_app; lia. Qed.
Lemma zlen_nonneg {A} (l : list A) : 0 <= zlen l.
Proof. unfold zlen; lia. Qed.
Lemma zlen_insert {A} (l : list A) i x : zlen (<[i := x]> l) = zlen l.
Proof. unfold zlen; by rewrite length_insert. Qed.

#[export] Hint Rewrite @zlen_nil @zlen_cons @zlen_app @zlen_insert : dhcp.
#[export] Hint Resolve zlen_nonneg : dhcp.

Lemma rd_Done {A} (l : list A) i x :
  rd l i = Done x <-> 0 <= i /\ l !! Z.to_nat i = Some x.
Proof.
  unfold rd. destruct (Z.ltb_spec i 0) as [Hi|Hi]; [split; [done|lia]|].
  destruct (l !! Z.to_nat i) eqn:E; split; try done.
  - by intros [= ->].
  - by intros [_ [= ->]].
  - by intros [_ ?].
Qed.

Lemma rd_in {A} (l : list A) i :
  0 <= i < zlen l -> exists x, rd l i = Done x /\ l !! Z.to_nat i = Some x.
Proof.
  unfold zlen; intros H.
  destruct (lookup_lt_is_Some_2 l (Z.to_nat i)) as [x Hx]; [lia|].
  exists x; split; [|done]. apply rd_Done; split; [lia|done].
Qed.

Lemma rd_nth {A} (d : A) (l : list A) i :
  0 <= i < zlen l -> rd l i = Done (nth (Z.to_nat i) l d).
Proof.
  intros H. destruct (rd_in l i H) as (x & -> & Hx). f_equal.
  symmetry. by apply nth_lookup_Some.
Qed.

Lemma rd_oob {A} (l : list A) i : ~ (0 <= i < zlen l) -> rd l i = Fault.
Proof.
  unfold rd, zlen; intros H. destruct (Z.ltb_spec i 0); [done|].
  rewrite lookup_ge_None_2; [done|lia].
Qed.

Lemma wr_in {A} (l : list A) i x :
  0 <= i < zlen l -> wr l i x = Done (<[Z.to_nat i := x]> l).
Proof.
  intros H; unfold wr. rewrite (proj2 (Z.leb_le 0 i)) by lia.
  by rewrite (proj2 (Z.ltb_lt i _)) by lia.
Qed.

Lemma wr_Done {A} (l k : list A) i x :
  wr l i x = Done k -> 0 <= i < zlen l /\ k = <[Z.to_nat i := x]> l.
Proof. unfold wr. destruct (Z.leb_spec 0 i), (Z.ltb_spec i (zlen l)); naive_solver. Qed.

Lemma rdn_in {A} (l : list A) i n :
  0 <= i -> 0 <= n -> i + n <= zlen l ->
  rdn l i n = Done (take (Z.to_nat n) (drop (Z.to_nat i) l)).
Proof.
  intros Hi Hn Hl; unfold rdn.
  rewrite (proj2 (Z.leb_le 0 i)), (proj2 (Z.leb_le 0 n)), (proj2 (Z.leb_le _ _)) by lia.
  done.
Qed.

Lemma wrn_in {A} (l : list A) i src :
  0 <= i -> i + zlen src <= zlen l ->
  wrn l i src = Done (take (Z.to_nat i) l ++ src ++ drop (Z.to_nat i + length src) l).
Proof.
  intros Hi Hl; unfold wrn.
  rewrite (proj2 (Z.leb_le 0 i)), (proj2 (Z.leb_le _ _)) by lia. done.
Qed.

Lemma wrn_zlen {A} (l k : list A) i src : wrn l i src = Done k -> zlen k = zlen l.
Proof.
  unfold wrn, zlen. destruct (_ && _) eqn:E; [|done]. intros [= <-].
  rewrite !length_app, length_take, length_drop. lia.
Qed.

Lemma nth_bytes (l : list Z) i : bytes l -> byte (nth i l 0).
Proof.
  intros H. destruct (decide (i < length l)%nat) as [Hi|Hi].
  - rewrite Forall_forall in H. apply H, nth_In. lia.
  - rewrite nth_overflow by lia. unfold byte; lia.
Qed.

(** ** Lemmas: bits *)
Lemma pow2_pos n : 0 <= n -> 0 < 2 ^ n.
Proof. intros; by apply Z.pow_pos_nonneg. Qed.

Lemma testbit_above n x i : 0 <= x < 2 ^ n -> 0 <= n <= i -> Z.testbit x i = false.
Proof.
  intros Hx Hi. rewrite <- (Z.mod_small x (2 ^ n)) by done.
  apply Z.mod_pow2_bits_high. lia.
Qed.

(** Concatenation of a high part and a low part of [n] bits. *)
Lemma testbit_concat a x n i :
  0 <= n -> 0 <= x < 2 ^ n -> 0 <= i ->
  Z.testbit (a * 2 ^ n + x) i = if i <? n then Z.testbit x i else Z.testbit a (i - n).
Proof.
  intros Hn Hx Hi. pose proof (pow2_pos n Hn). destruct (Z.ltb_spec i n).
  - rewrite <- (Z.mod_pow2_bits_low (a * 2 ^ n + x) n i) by lia.
    by rewrite Z.add_comm, Z.mod_add, Z.mod_small by lia.
  - replace i with ((i - n) + n) at 1 by lia.
    rewrite <- Z.div_pow2_bits by lia.
    rewrite Z.div_add_l, (Z.div_small x) by lia. by rewrite Z.add_0_r.
Qed.

Section concat_op.
(** A bitwise operation acts on the two parts of a concatenation. *)
Context (f : Z -> Z -> Z) (g : bool -> bool -> bool).
Hypothesis f_spec : forall a b i, 0 <= i -> Z.testbit (f a b) i = g (Z.testbit a i) (Z.testbit b i).
Hypothesis f_range : forall n a b, 0 <= n -> 0 <= a < 2 ^ n -> 0 <= b < 2 ^ n -> 0 <= f a b < 2 ^ n.

Lemma bitop_concat a x b y n :
  0 <= n -> 0 <= x < 2 ^ n -> 0 <= y < 2 ^ n ->
  f (a * 2 ^ n + x) (b * 2 ^ n + y) = f a b * 2 ^ n + f x y.
Proof.
  intros Hn Hx Hy. apply Z.bits_inj'; intros i Hi.
  rewrite f_spec, !testbit_concat by auto.
  destruct (Z.ltb_spec i n); by rewrite f_spec by lia.
Qed.
End concat_op.

Lemma land_range n a b : 0 <= n -> 0 <= a < 2 ^ n -> 0 <= b < 2 ^ n -> 0 <= Z.land a b < 2 ^ n.
Proof.
  intros Hn Ha Hb. rewrite <- (Z.mod_small b (2 ^ n)) by done.
  rewrite <- Z.land_ones, Z.land_assoc, Z.land_ones by done.
  by apply Z.mod_pos_bound, pow2_pos.
Qed.

Lemma lor_range n a b : 0 <= n -> 0 <= a < 2 ^ n -> 0 <= b < 2 ^ n -> 0 <= Z.lor a b < 2 ^ n.
Proof.
  intros Hn Ha Hb. rewrite <- (Z.mod_small b (2 ^ n)), <- (Z.mod_small a (2 ^ n)) by done.
  rewrite <- !Z.land_ones by done. rewrite <- Z.land_lor_distr_l, Z.land_ones by done.
  by apply Z.mod_pos_bound, pow2_pos.
Qed.

Lemma lxor_range n a b : 0 <= n -> 0 <= a < 2 ^ n -> 0 <= b < 2 ^ n -> 0 <= Z.lxor a b < 2 ^ n.
Proof.
  intros Hn Ha Hb.
  assert (Z.lxor a b = Z.lxor a b mod 2 ^ n) as ->; [|by apply Z.mod_pos_bound, pow2_pos].
  rewrite <- Z.land_ones by done. apply Z.bits_inj'; intros i Hi.
  rewrite Z.land_spec, Z.lxor_spec, Z.testbit_ones_nonneg by lia.
  destruct (Z.ltb_spec i n); [by rewrite andb_true_r|].
  rewrite (testbit_above n a), (testbit_above n b) by lia. done.
Qed.

Lemma byte_land a b : byte a -> byte b -> byte (Z.land a b).
Proof. apply (land_range 8); lia. Qed.
Lemma byte_lor a b : byte a -> byte b -> byte (Z.lor a b).
Proof. apply (lor_range 8); lia. Qed.
Lemma byte_lxor a b : byte a -> byte b -> byte (Z.lxor a b).
Proof. apply (lxor_range 8); lia. Qed.
Lemma byte_u8 x : byte (u8 x).
Proof. unfold byte, u8. change 256 with (2 ^ 8). apply Z.mod_pos_bound. lia. Qed.
Lemma u8_byte x : byte x -> u8 x = x.
Proof. intros; unfold u8. by apply Z.mod_small. Qed.
#[export] Hint Resolve byte_land byte_lor byte_lxor byte_u8 : dhcp.
#[export] Hint Rewrite u8_byte using (auto with dhcp) : dhcp.

(** ** Lemmas: big-endian numbers *)
Lemma be_val_bound l : bytes l -> 0 <= be_val l < 2 ^ (8 * zlen l).
Proof.
  induction 1 as [|b l Hb Hl IH]; [done|]. simpl. rewrite zlen_cons.
  replace (8 * (zlen l + 1)) with (8 + 8 * zlen l) by lia.
  rewrite Z.pow_add_r by (pose proof (zlen_nonneg l); lia).
  unfold byte in Hb. change (2 ^ 8) with 256. nia.
Qed.

Lemma be_val_app l k : be_val (l ++ k) = be_val l * 2 ^ (8 * zlen k) + be_val k.
Proof.
  induction l as [|b l IH]; [done|]. simpl. rewrite IH, zlen_app.
  rewrite Z.mul_add_distr_l, Z.pow_add_r by (pose proof (zlen_nonneg l); pose proof (zlen_nonneg k); lia).
  lia.
Qed.

Lemma length_be_bytes n z : length (be_bytes n z) = n.
Proof. induction n; simpl; auto. Qed.
Lemma zlen_be_bytes n z : zlen (be_bytes n z) = Z.of_nat n.
Proof. unfold zlen. by rewrite length_be_bytes. Qed.
Lemma bytes_be_bytes n z : bytes (be_bytes n z).
Proof. induction n; simpl; constructor; auto. apply Z.mod_pos_bound. lia. Qed.
#[export] Hint Rewrite length_be_bytes zlen_be_bytes : dhcp.
#[export] Hint Resolve bytes_be_bytes : dhcp.

Lemma be_val_be_bytes n z : be_val (be_bytes n z) = z mod 2 ^ (8 * Z.of_nat n).
Proof.
  induction n as [|n IH]; simpl be_val; [by rewrite Z.mod_1_r|].
  rewrite IH, zlen_be_bytes.
  replace (8 * Z.of_nat (S n)) with (8 * Z.of_nat n + 8) by lia.
  pose proof (pow2_pos (8 * Z.of_nat n) ltac:(lia)).
  rewrite Z.pow_add_r by lia. rewrite Z.rem_mul_r by lia. change (2 ^ 8) with 256. ring.
Qed.

Lemma be_val_inj l k : bytes l -> bytes k -> length l = length k -> be_val l = be_val k -> l = k.
Proof.
  intros Hl; revert k; induction Hl as [|b l Hb Hl IH]; intros [|c k] Hk Hlen E; try done.
  apply Forall_cons_iff in Hk as [Hc Hk]. simpl in *.
  assert (zlen l = zlen k) as Ez by (unfold zlen; lia). rewrite Ez in E.
  pose proof (be_val_bound l Hl) as Bl; rewrite Ez in Bl. pose proof (be_val_bound k Hk) as Bk.
  assert (b = c) by nia. subst. f_equal. apply IH; [done|lia|lia].
Qed.

(** The first differing byte decides the order. *)
Lemma be_val_lt_first l k i x y :
  bytes l -> bytes k -> length l = length k -> take i l = take i k ->
  l !! i = Some x -> k !! i = Some y -> x < y -> be_val l < be_val k.
Proof.
  intros Hl Hk Hlen Ht Hx Hy Hlt.
  rewrite <- (take_drop_middle l i x Hx), <- (take_drop_middle k i y Hy), Ht.
  rewrite !be_val_app. cbn [be_val]. rewrite !zlen_cons.
  assert (zlen (drop (S i) l) = zlen (drop (S i) k)) as -> by (unfold zlen; rewrite !length_drop; lia).
  pose proof (be_val_bound (drop (S i) k) ltac:(by apply Forall_drop)).
  pose proof (be_val_bound (drop (S i) l) ltac:(by apply Forall_drop)) as B.
  assert (zlen (drop (S i) l) = zlen (drop (S i) k)) as E by (unfold zlen; rewrite !length_drop; lia).
  rewrite E in B. nia.
Qed.

Lemma be_bytes_be_val l : bytes l -> be_bytes (length l) (be_val l) = l.
Proof.
  intros H. apply be_val_inj; auto with dhcp.
  - by rewrite length_be_bytes.
  - rewrite be_val_be_bytes. apply Z.mod_small. by apply be_val_bound.
Qed.

Lemma be_val_zip (f : Z -> Z -> Z) (g : bool -> bool -> bool) :
  (forall a b i, 0 <= i -> Z.testbit (f a b) i = g (Z.testbit a i) (Z.testbit b i)) ->
  (forall n a b, 0 <= n -> 0 <= a < 2 ^ n -> 0 <= b < 2 ^ n -> 0 <= f a b < 2 ^ n) ->
  forall l k, bytes l -> bytes k -> length l = length k ->
  be_val (zip_with f l k) = f (be_val l) (be_val k).
Proof.
  intros Hs Hr l k Hl; revert k; induction Hl as [|b l Hb Hl IH]; intros [|c k] Hk Hlen; try done.
  - simpl. pose proof (Hr 0 0 0). lia.
  - apply Forall_cons_iff in Hk as [Hc Hk]. simpl in *.
    assert (zlen l = zlen k) as Ez by (unfold zlen; lia).
    assert (zlen (zip_with f l k) = zlen k) as E'.
    { unfold zlen. rewrite length_zip_with. unfold zlen in Ez; lia. }
    rewrite IH, E', Ez by (done || lia).
    rewrite (bitop_concat f g Hs); auto; [pose proof (zlen_nonneg k); lia| |].
    + rewrite <- Ez. by apply be_val_bound.
    + by apply be_val_bound.
Qed.

Lemma be_val_land l k : bytes l -> bytes k -> length l = length k ->
  be_val (zip_with Z.land l k) = Z.land (be_val l) (be_val k).
Proof. apply (be_val_zip _ andb); auto using Z.land_spec, land_range. Qed.
Lemma be_val_lor l k : bytes l -> bytes k -> length l = length k ->
  be_val (zip_with Z.lor l k) = Z.lor (be_val l) (be_val k).
Proof. apply (be_val_zip _ orb); auto using Z.lor_spec, lor_range. Qed.

(** A single byte: its value and the effect of replacing it. *)
Lemma be_val_insert l i old x :
  l !! i = Some old ->
  be_val (<[i := x]> l) = be_val l + (x - old) * 2 ^ (8 * (zlen l - 1 - Z.of_nat i)).
Proof.
  intros H. pose proof (lookup_lt_Some _ _ _ H) as Hi. rewrite insert_take_drop by done.
  pose proof (f_equal be_val (take_drop_middle l i old H)) as E.
  rewrite !be_val_app in *. cbn [be_val] in *. rewrite <- E, !zlen_cons. replace (zlen (drop (S i) l)) with (zlen l - 1 - Z.of_nat i); [lia|].
  unfold zlen. rewrite length_drop. lia.
Qed.

Lemma be_val_lookup l i b :
  bytes l -> l !! i = Some b ->
  b = (be_val l / 2 ^ (8 * (zlen l - 1 - Z.of_nat i))) mod 256.
Proof.
  intros Hb H. pose proof (lookup_lt_Some _ _ _ H) as Hi.
  assert (Hbb : byte b) by (eapply Forall_lookup_1; done).
  pose proof (f_equal be_val (take_drop_middle l i b H)) as V.
  rewrite be_val_app in V. cbn [be_val] in V. rewrite zlen_cons in V. rewrite <- V.
  assert (zlen (drop (S i) l) = zlen l - 1 - Z.of_nat i) as E by (unfold zlen; rewrite length_drop; lia).
  pose proof (be_val_bound (drop (S i) l) ltac:(by apply Forall_drop)) as B.
  rewrite E in *. set (w := 8 * (zlen l - 1 - Z.of_nat i)) in *.
  assert (0 <= w) by (unfold w, zlen; lia). pose proof (pow2_pos w ltac:(done)).
  replace (8 * (zlen l - 1 - Z.of_nat i + 1)) with (8 + w) by (unfold w; lia).
  rewrite Z.pow_add_r by lia. change (2 ^ 8) with 256.
  set (P := be_val (take i l)) in *. set (D := be_val (drop (S i) l)) in *.
  replace (P * (256 * 2 ^ w) + (b * 2 ^ w + D)) with ((P * 256 + b) * 2 ^ w + D) by ring.
  rewrite Z.div_add_l, (Z.div_small D), Z.add_0_r by lia.
  rewrite Z.add_comm, Z_mod_plus_full. symmetry. apply Z.mod_small. exact Hbb.
Qed.

Lemma bytes_zip_with (f : Z -> Z -> Z) l k :
  (forall x y, byte x -> byte y -> byte (f x y)) -> bytes l -> bytes k -> bytes (zip_with f l k).
Proof.
  intros Hf Hl; revert k; induction Hl as [|x l Hx Hl IH]; intros [|y k] Hk; simpl; try constructor.
  - apply Hf; [done|]. by apply Forall_cons_iff in Hk as [? _].
  - apply IH. by apply Forall_cons_iff in Hk as [_ ?].
Qed.

(** One's complement of a byte and of a byte string. *)
Lemma lnot_byte m : byte m -> Z.land (Z.lnot m) 255 = 255 - m.
Proof.
  intros Hm. change 255 with (Z.ones 8). rewrite Z.land_ones by lia.
  unfold Z.lnot, byte in *. rewrite <- (Z_mod_plus_full _ 1 (2 ^ 8)).
  rewrite Z.mod_small; change (Z.ones 8) with 255; change (2 ^ 8) with 256; lia.
Qed.

Lemma land_lnot_byte a m : byte a -> byte m -> Z.land a (Z.lnot m) = Z.land a (255 - m).
Proof.
  intros Ha Hm. rewrite <- lnot_byte by done. rewrite (Z.land_comm (Z.lnot m)), Z.land_assoc.
  f_equal. change 255 with (Z.ones 8). rewrite Z.land_ones by lia.
  symmetry. by apply Z.mod_small.
Qed.

Lemma be_val_complement l :
  be_val ((fun m => 255 - m) <$> l) = 2 ^ (8 * zlen l) - 1 - be_val l.
Proof.
  induction l as [|b l IH]; [done|]. rewrite fmap_cons. cbn [be_val]. rewrite IH, zlen_cons.
  assert (zlen ((fun m => 255 - m) <$> l) = zlen l) as -> by (unfold zlen; by rewrite length_fmap).
  replace (8 * (zlen l + 1)) with (8 + 8 * zlen l) by lia.
  rewrite Z.pow_add_r by (pose proof (zlen_nonneg l); lia). change (2 ^ 8) with 256. lia.
Qed.

Lemma be_val_suffix l n :
  bytes l -> 0 <= n <= zlen l ->
  be_val (drop (Z.to_nat (zlen l - n)) l) = be_val l mod 2 ^ (8 * n).
Proof.
  intros Hb Hn. pose proof (be_val_app (take (Z.to_nat (zlen l - n)) l) (drop (Z.to_nat (zlen l - n)) l)) as E.
  rewrite take_drop in E. rewrite E. assert (zlen (drop (Z.to_nat (zlen l - n)) l) = n) as Hz.
  { unfold zlen in *. rewrite length_drop. lia. }
  rewrite Hz, Z.add_comm, Z_mod_plus_full. symmetry. apply Z.mod_small.
  rewrite <- Hz at 3. apply be_val_bound. by apply Forall_drop.
Qed.

(** ** Lemmas: the host byte order does not show *)
Lemma bytes_reverse l : bytes l -> bytes (reverse l).
Proof. by rewrite Forall_reverse. Qed.

Lemma be_bytes_mod n z : be_bytes n (z mod 2 ^ (8 * Z.of_nat n)) = be_bytes n z.
Proof.
  apply be_val_inj; auto with dhcp; [by rewrite !length_be_bytes|].
  rewrite !be_val_be_bytes, Z.mod_mod; [done|].
  pose proof (pow2_pos (8 * Z.of_nat n) ltac:(lia)). lia.
Qed.

Lemma ntoh_load `{HostOrder} l n : bytes l -> length l = n -> hton n (mem_load l) = be_val l.
Proof.
  intros Hl Hn. unfold hton, mem_load. destruct host_big.
  - apply Z.mod_small. pose proof (be_val_bound l Hl) as B.
    unfold zlen in B. by rewrite Hn in B.
  - unfold le_val. rewrite <- (length_reverse l) in Hn. rewrite <- Hn.
    rewrite be_bytes_be_val by (by apply bytes_reverse). by rewrite reverse_involutive.
Qed.

Lemma hton_store `{HostOrder} n z : mem_store n (hton n z) = be_bytes n z.
Proof.
  unfold mem_store, hton. destruct host_big; [apply be_bytes_mod|].
  unfold le_bytes, le_val. apply (inj reverse). rewrite reverse_involutive.
  rewrite <- (length_be_bytes n z) at 1. rewrite <- (length_reverse (be_bytes n z)).
  apply be_bytes_be_val, bytes_reverse. auto with dhcp.
Qed.

Lemma sint_mod w x : 0 < w -> sint w x mod 2 ^ w = x mod 2 ^ w.
Proof.
  intros Hw. pose proof (pow2_pos w ltac:(lia)). unfold sint.
  destruct (_ <? _); [by rewrite Z.mod_mod by lia|].
  rewrite <- (Z_mod_plus_full (x mod 2 ^ w - 2 ^ w) 1 (2 ^ w)).
  rewrite Z.mul_1_l, Z.sub_add. by rewrite Z.mod_mod by lia.
Qed.

Lemma sint_congr w x y : x mod 2 ^ w = y mod 2 ^ w -> sint w x = sint w y.
Proof. unfold sint. by intros ->. Qed.

Lemma hton_range `{HostOrder} n z : 0 <= hton n z < 2 ^ (8 * Z.of_nat n).
Proof.
  unfold hton. destruct host_big.
  - apply Z.mod_pos_bound, pow2_pos. lia.
  - unfold le_val. assert (zlen (reverse (be_bytes n z)) = Z.of_nat n) as <-.
    { unfold zlen. by rewrite length_reverse, length_be_bytes. }
    apply be_val_bound, bytes_reverse. auto with dhcp.
Qed.

Lemma hton_mod `{HostOrder} n z : hton n (z mod 2 ^ (8 * Z.of_nat n)) = hton n z.
Proof.
  unfold hton. destruct host_big; [|by rewrite be_bytes_mod].
  pose proof (pow2_pos (8 * Z.of_nat n) ltac:(lia)). by rewrite Z.mod_mod by lia.
Qed.

(** A store in host order followed by a load gives the value back. *)
Lemma load_store `{HostOrder} n z : mem_load (mem_store n z) = z mod 2 ^ (8 * Z.of_nat n).
Proof.
  unfold mem_load, mem_store. destruct host_big; [apply be_val_be_bytes|].
  unfold le_val, le_bytes. rewrite reverse_involutive. apply be_val_be_bytes.
Qed.

Lemma length_mem_store `{HostOrder} n z : length (mem_store n z) = n.
Proof.
  unfold mem_store, le_bytes. destruct host_big; rewrite ?length_reverse; apply length_be_bytes.
Qed.

(** ** Tactics *)

(** Reduce the boolean tests of the code to the propositions they decide. *)
Ltac zbool :=
  repeat match goal with
  | H : (_ && _) = true |- _ => apply andb_true_iff in H as [? ?]
  | H : (_ || _) = false |- _ => apply orb_false_iff in H as [? ?]
  | H : (_ || _) = true |- _ => apply orb_true_iff in H
  | H : (_ && _) = false |- _ => apply andb_false_iff in H
  | H : negb _ = true |- _ => apply negb_true_iff in H
  | H : negb _ = false |- _ => apply negb_false_iff in H
  | H : (_ <? _) = true |- _ => apply Z.ltb_lt in H
  | H : (_ <? _) = false |- _ => apply Z.ltb_ge in H
  | H : (_ <=? _) = true |- _ => apply Z.leb_le in H
  | H : (_ <=? _) = false |- _ => apply Z.leb_gt in H
  | H : (_ =? _) = true |- _ => apply Z.eqb_eq in H
  | H : (_ =? _) = false |- _ => apply Z.eqb_neq in H
  end.

(** Reduce the sequencing of steps that have returned. *)
Ltac dred := rewrite ?bind_ret, ?fmap_ret; cbv beta iota.
Ltac dred_in H := rewrite ?bind_ret, ?fmap_ret in H; cbv beta iota in H.

(** Case analysis on the condition of the first [if] of the goal. *)
Ltac zcase :=
  match goal with
  | |- context [if ?a <? ?b then _ else _] => destruct (Z.ltb_spec a b)
  | |- context [if ?a <=? ?b then _ else _] => destruct (Z.leb_spec a b)
  | |- context [if ?a =? ?b then _ else _] => destruct (Z.eqb_spec a b)
  | |- context [if ?b then _ else _] => let E := fresh "E" in destruct b eqn:E; zbool
  end.

(** Invert a computation that is known to succeed. *)
Ltac inv_done :=
  repeat match goal with
  | H : Done _ = Done _ |- _ => injection H as H; try subst
  | H : (_ ≫= _) = Done _ |- _ =>
      let a := fresh "a" in let E := fresh "E" in
      apply bind_Done_inv in H as (a & E & H)
  | H : assert_c ?b = Done _ |- _ => destruct b eqn:?; [clear H|discriminate H]
  end.

Ltac zauto := autorewrite with dhcp in *; try lia.

(** ** Lemmas: reading back what was written *)
Lemma rdn_wrn_same {A} (l k : list A) i src :
  wrn l i src = Done k -> rdn k i (zlen src) = Done src.
Proof.
  intros E. pose proof (wrn_zlen _ _ _ _ E) as Hz. revert E; unfold wrn.
  destruct (Z.leb_spec 0 i), (Z.leb_spec (i + zlen src) (zlen l)); try done.
  intros [= <-]. rewrite rdn_in by (auto with dhcp; lia).
  unfold zlen in *. rewrite drop_app_length' by (rewrite length_take; lia).
  by rewrite take_app_length' by lia.
Qed.

Lemma rdn_wrn_other {A} (l k : list A) i src j n :
  wrn l i src = Done k -> j + n <= i \/ i + zlen src <= j -> rdn k j n = rdn l j n.
Proof.
  intros E Hd. pose proof (wrn_zlen _ _ _ _ E) as Hz. revert E; unfold wrn.
  destruct (Z.leb_spec 0 i), (Z.leb_spec (i + zlen src) (zlen l)); try done.
  intros [= <-]. unfold rdn. rewrite Hz. destruct (_ && _) eqn:B; [|done].
  zbool. f_equal. unfold zlen in *. destruct Hd as [Hd|Hd].
  - rewrite !take_drop_commute. f_equal.
    rewrite take_app_le by (rewrite length_take; lia). rewrite take_take. f_equal. lia.
  - rewrite app_assoc, drop_app_ge by (rewrite length_app, length_take; lia).
    rewrite length_app, length_take, drop_drop. do 2 f_equal. lia.
Qed.
