(* ===== verification/Array.v ===== *)
(** * Arrays at an offset

    Lemmas on the reads and writes of the prelude that the models of packets,
    options and domain names share: what is at a place, writes next to each
    other, writes elsewhere. *)

From stdpp Require Import base tactics list numbers.
From S2P Require Import Prelude.

#[local] Open Scope Z_scope.

(** ** Lists at an offset *)
Definition at_ (b : list Z) (off : Z) (l : list Z) : Prop := rdn b off (zlen l) = Done l.

Lemma rdn_bounds {A} (b : list A) off n l : rdn b off n = Done l -> 0 <= off /\ 0 <= n /\ off + n <= zlen b /\ zlen l = n.
Proof.
  unfold rdn. destruct (_ && _) eqn:E; [|done]. zbool. intros [= <-]. split_and!; [lia..|].
  unfold zlen in *. rewrite length_take, length_drop. lia.
Qed.

Lemma rdn_app {A} (b : list A) off (l1 l2 : list A) :
  rdn b off (zlen (l1 ++ l2)) = Done (l1 ++ l2) <->
  rdn b off (zlen l1) = Done l1 /\ rdn b (off + zlen l1) (zlen l2) = Done l2.
Proof.
  pose proof (zlen_nonneg l1). pose proof (zlen_nonneg l2). split.
  - intros E. destruct (rdn_bounds _ _ _ _ E) as (? & ? & ? & _). rewrite zlen_app in *.
    rewrite rdn_in in E |- * by lia. rewrite rdn_in by lia. injection E as E.
    unfold zlen in *. split; f_equal.
    + trans (take (length l1) (l1 ++ l2)); [|apply take_app_length]. rewrite <- E, take_take. f_equal. lia.
    + trans (drop (length l1) (l1 ++ l2)); [|apply drop_app_length]. rewrite <- E.
      replace (Z.to_nat (Z.of_nat (length l1) + Z.of_nat (length l2))) with (length l1 + length l2)%nat by lia.
      rewrite <- take_drop_commute, drop_drop. f_equal; [lia|f_equal; lia].
  - intros [E1 E2]. destruct (rdn_bounds _ _ _ _ E1) as (? & ? & ? & _).
    destruct (rdn_bounds _ _ _ _ E2) as (? & ? & ? & _). rewrite zlen_app.
    rewrite rdn_in in * by lia. injection E1 as E1. injection E2 as E2. f_equal.
    unfold zlen in *. rewrite !Nat2Z.id in *. rewrite Z2Nat.inj_add, Nat2Z.id in E2 by lia.
    replace (Z.to_nat (Z.of_nat (length l1) + Z.of_nat (length l2))) with (length l1 + length l2)%nat by lia.
    rewrite <- take_take_drop, E1, drop_drop. by rewrite E2.
Qed.

Lemma at_bounds b off l : at_ b off l -> 0 <= off /\ off + zlen l <= zlen b.
Proof. intros E. apply rdn_bounds in E. lia. Qed.

Lemma wrn_middle {A} (pre old post src : list A) :
  length old = length src -> wrn (pre ++ old ++ post) (zlen pre) src = Done (pre ++ src ++ post).
Proof.
  intros Hl. pose proof (zlen_nonneg pre).
  rewrite wrn_in by (rewrite ?zlen_app; unfold zlen in *; lia). unfold zlen. rewrite Nat2Z.id. f_equal.
  rewrite take_app_length, drop_app_ge by lia. do 2 f_equal.
  replace (length pre + length src - length pre)%nat with (length old) by lia. by rewrite drop_app_length.
Qed.

(** Two writes next to each other are one write. *)
Lemma wrn_wrn {A} (b b1 : list A) p x y :
  wrn b p x = Done b1 -> p + zlen x + zlen y <= zlen b ->
  wrn b1 (p + zlen x) y = wrn b p (x ++ y).
Proof.
  intros E Hy. pose proof (zlen_nonneg x). pose proof (zlen_nonneg y).
  assert (Hp : 0 <= p). { revert E. unfold wrn. destruct (Z.leb_spec 0 p); [done|]. by destruct (_ <=? _). }
  assert (Hb : exists pre ox oy post, b = pre ++ ox ++ oy ++ post /\ zlen pre = p /\
    length ox = length x /\ length oy = length y).
  { exists (take (Z.to_nat p) b), (take (length x) (drop (Z.to_nat p) b)),
      (take (length y) (drop (length x) (drop (Z.to_nat p) b))), (drop (length y) (drop (length x) (drop (Z.to_nat p) b))).
    rewrite !take_drop. unfold zlen in *. split_and!; [done|..]; rewrite length_take, ?length_drop; lia. }
  destruct Hb as (pre & ox & oy & post & -> & <- & Hox & Hoy).
  rewrite wrn_middle in E by done. injection E as <-. rewrite <- zlen_app, (app_assoc pre x).
  rewrite wrn_middle by done. rewrite <- app_assoc, (app_assoc ox), (wrn_middle pre (ox ++ oy)).
  - by rewrite <- app_assoc.
  - rewrite !length_app. lia.
Qed.

Lemma wr_wrn {A} (b : list A) p x : wr b p x = wrn b p [x].
Proof.
  unfold wr, wrn. change (zlen [x]) with 1.
  destruct (Z.leb_spec 0 p); [|done]. simpl.
  destruct (Z.ltb_spec p (zlen b)), (Z.leb_spec (p + 1) (zlen b)); try lia; [|done]. f_equal.
  rewrite insert_take_drop by (unfold zlen in *; lia). simpl. do 3 f_equal. lia.
Qed.

Lemma at_append b b' off l x :
  at_ b off l -> wrn b (off + zlen l) x = Done b' -> at_ b' off (l ++ x).
Proof.
  intros Hl E. apply rdn_app. split; [|by eapply rdn_wrn_same].
  rewrite <- Hl. eapply rdn_wrn_other; [done|]. by left.
Qed.

Lemma at_other b b' p x off l :
  at_ b off l -> wrn b p x = Done b' -> off + zlen l <= p \/ p + zlen x <= off -> at_ b' off l.
Proof. intros Hl E Hd. unfold at_. by rewrite <- Hl, (rdn_wrn_other _ _ _ _ _ _ E Hd). Qed.

Lemma wrn_all {A} (l src : list A) : zlen src = zlen l -> wrn l 0 src = Done src.
Proof.
  intros E. rewrite wrn_in by lia. change (Z.to_nat 0) with 0%nat. simpl.
  rewrite drop_ge by (unfold zlen in E; lia). by rewrite app_nil_r.
Qed.

Lemma wrn_ok {A} (l : list A) i src : 0 <= i -> i + zlen src <= zlen l -> exists k, wrn l i src = Done k.
Proof. intros Hi Hl. rewrite wrn_in by done. eauto. Qed.

Lemma rdn_middle {A} (pre l post : list A) : rdn (pre ++ l ++ post) (zlen pre) (zlen l) = Done l.
Proof.
  pose proof (zlen_nonneg pre). pose proof (zlen_nonneg l). pose proof (zlen_nonneg post).
  rewrite rdn_in by (rewrite ?zlen_app; lia). unfold zlen. rewrite !Nat2Z.id.
  by rewrite drop_app_length, take_app_length.
Qed.
