(* ===== verification/Convert.v ===== *)
(** * Integer conversion: [omapip/convert.c]

    The readers and writers of network-order integers and the digit printer
    built on them.  A C pointer into a byte object is a pair of the object
    (a list of bytes) and an offset. *)

From stdpp Require Import base tactics list numbers.
From S2P Require Import Prelude.
#[local] Open Scope Z_scope.

Section convert.
Context `{HostOrder}.

(** ** Readers *)
Definition getULong (buf : list Z) (p : Z) : outcome Z :=
  l ← rdn buf p 4; Done (ntohl (mem_load l)).

Definition getLong (buf : list Z) (p : Z) : outcome Z :=
  l ← rdn buf p 4; Done (s32 (ntohl (mem_load l))).

Definition getUShort (buf : list Z) (p : Z) : outcome Z :=
  l ← rdn buf p 2; Done (ntohs (mem_load l)).

(** [ntohs] returns an unsigned 16-bit value, which the return type
    [int32_t] represents exactly: the sign of the stored value is not
    extended. *)
Definition getShort (buf : list Z) (p : Z) : outcome Z :=
  l ← rdn buf p 2; Done (ntohs (u16 (s16 (mem_load l)))).

Definition getUChar (buf : list Z) (p : Z) : outcome Z := rd buf p.

(** ** Writers *)
Definition putULong (obuf : list Z) (p : Z) (val : Z) : outcome (list Z) :=
  wrn obuf p (mem_store 4 (htonl (u32 val))).

Definition putLong (obuf : list Z) (p : Z) (val : Z) : outcome (list Z) :=
  wrn obuf p (mem_store 4 (u32 (s32 (htonl (u32 val))))).

Definition putUShort (obuf : list Z) (p : Z) (val : Z) : outcome (list Z) :=
  wrn obuf p (mem_store 2 (htons (u16 val))).

Definition putShort (obuf : list Z) (p : Z) (val : Z) : outcome (list Z) :=
  wrn obuf p (mem_store 2 (u16 (s16 (htons (u16 val))))).

Definition putUChar (obuf : list Z) (p : Z) (val : Z) : outcome (list Z) :=
  wr obuf p (u8 val).

(** ** Digits *)

(** The number of [width] bytes at [buf]; [None] when the width is not one of
    the three the code knows. *)
Definition get_number (buf : list Z) (p width : Z) : outcome (option Z) :=
  if width =? 1 then n ← getUChar buf p; Done (Some n)
  else if width =? 2 then n ← getUShort buf p; Done (Some n)
  else if width =? 4 then n ← getULong buf p; Done (Some n)
  else Done None.

(** One iteration of the [do ... while] loop; the state is
    ([newcolumn], [power]). *)
Definition converted_length_step (number base : Z) (s : Z * Z)
    : outcome ((Z * Z) + Z) :=
  let '(newcolumn, power) := s in
  let column := newcolumn in
  if number <? column then Done (inr power)
  else
    let power := power + 1 in
    let newcolumn := u32 (column * base) in
    if column <? newcolumn then Done (inl (newcolumn, power)) else Done (inr power).

(** The column strictly grows below [2 ^ 32], so [2 ^ 33] iterations are
    never reached. *)
Definition converted_length (buf : list Z) (p base width : Z) : outcome Z :=
  if 16 <? base then Done 0
  else
    o ← get_number buf p width;
    match o with
    | None => Done 0
    | Some number => while_loop 33 (converted_length_step number base) (base, 1)
    end.

(** ["0123456789abcdef"] *)
Definition h2a : list Z := [48; 49; 50; 51; 52; 53; 54; 55; 56; 57; 97; 98; 99; 100; 101; 102].

(** [for (i = power - 1; i >= 0; i--)], with [k] iterations left. *)
Fixpoint binary_to_ascii_loop (k : nat) (outbuf : list Z) (o base number : Z)
    : outcome (list Z) :=
  match k with
  | O => Done outbuf
  | S k' =>
      if base =? 0 then Fault
      else
        c ← rd h2a (number mod base);
        outbuf ← wr outbuf (o + Z.of_nat k') c;
        binary_to_ascii_loop k' outbuf o base (number / base)
  end.

(** Returns the number of characters written and the output buffer. *)
Definition binary_to_ascii (outbuf : list Z) (o : Z) (inbuf : list Z) (p base width : Z)
    : outcome (Z * list Z) :=
  power ← converted_length inbuf p base width;
  if 16 <? base then Done (0, outbuf)
  else
    n ← get_number inbuf p width;
    match n with
    | None => Done (0, outbuf)
    | Some number =>
        outbuf ← binary_to_ascii_loop (Z.to_nat power) outbuf o base number;
        Done (power, outbuf)
    end.

(** ** Correctness of the readers and writers *)
Lemma getULong_spec buf p :
  bytes buf -> 0 <= p -> p + 4 <= zlen buf ->
  getULong buf p = Done (be_val (take 4 (drop (Z.to_nat p) buf))).
Proof.
  intros Hb Hp Hl. unfold getULong. rewrite rdn_in by lia. cbn -[take drop be_val].
  unfold ntohl. rewrite ntoh_load; [done|by apply Forall_take, Forall_drop|].
  unfold zlen in Hl. rewrite length_take, length_drop. lia.
Qed.

Lemma getUShort_spec buf p :
  bytes buf -> 0 <= p -> p + 2 <= zlen buf ->
  getUShort buf p = Done (be_val (take 2 (drop (Z.to_nat p) buf))).
Proof.
  intros Hb Hp Hl. unfold getUShort. rewrite rdn_in by lia. cbn -[take drop be_val].
  unfold ntohs. rewrite ntoh_load; [done|by apply Forall_take, Forall_drop|].
  unfold zlen in Hl. rewrite length_take, length_drop. lia.
Qed.

Lemma putULong_spec buf p v :
  0 <= p -> p + 4 <= zlen buf -> putULong buf p v = wrn buf p (be_bytes 4 v).
Proof.
  intros Hp Hl. unfold putULong, htonl. rewrite hton_store. unfold u32.
  change (2 ^ 32) with (2 ^ (8 * Z.of_nat 4)). by rewrite be_bytes_mod.
Qed.

Lemma putUShort_spec buf p v :
  0 <= p -> p + 2 <= zlen buf -> putUShort buf p v = wrn buf p (be_bytes 2 v).
Proof.
  intros Hp Hl. unfold putUShort, htons. rewrite hton_store. unfold u16.
  change (2 ^ 16) with (2 ^ (8 * Z.of_nat 2)). by rewrite be_bytes_mod.
Qed.

(** What a later read of the written field sees. *)
Lemma swab_store n v w :
  w = 8 * Z.of_nat n -> (0 < n)%nat ->
  hton n (mem_load (mem_store n (hton n (v mod 2 ^ w)))) = v mod 2 ^ w /\
  hton n (sint w (mem_load (mem_store n (sint w (hton n (v mod 2 ^ w)) mod 2 ^ w))) mod 2 ^ w) = v mod 2 ^ w.
Proof.
  intros -> Hn. pose proof (hton_range n v) as R.
  pose proof (pow2_pos (8 * Z.of_nat n) ltac:(lia)).
  assert (hton n (hton n v) = v mod 2 ^ (8 * Z.of_nat n)) as E.
  { pose proof (ntoh_load (mem_store n (hton n v)) n) as L.
    rewrite hton_store in L. specialize (L (bytes_be_bytes n v) (length_be_bytes n v)).
    rewrite be_val_be_bytes in L. rewrite <- L, <- hton_store, load_store.
    by rewrite Z.mod_small. }
  rewrite !hton_mod, !load_store, !sint_mod by lia.
  rewrite !Z.mod_mod by lia. rewrite (Z.mod_small (hton n v)) by done. split; [done|].
  by rewrite <- hton_mod, sint_mod, hton_mod by lia.
Qed.

Lemma wrn_ok_rdn {A} (buf : list A) p src n :
  0 <= p -> zlen src = n -> p + n <= zlen buf ->
  exists k, wrn buf p src = Done k /\ zlen k = zlen buf /\ rdn k p n = Done src /\
    (forall j m, j + m <= p \/ p + n <= j -> rdn k j m = rdn buf j m).
Proof.
  intros Hp <- Hl. destruct (wrn buf p src) as [k| | |] eqn:E;
    try (rewrite wrn_in in E by lia; discriminate).
  exists k; split_and!; eauto using wrn_zlen, rdn_wrn_same, rdn_wrn_other.
Qed.

(** Reading back an integer that one of the [put] functions stored gives
    the value modulo its width, whatever the byte order of the host; the
    signed 32-bit reader restores the sign, the signed 16-bit reader does not
    (it returns the value modulo 65536); no other byte of the buffer moves. *)
Lemma put_get_roundtrip buf p v :
  0 <= p -> p + 4 <= zlen buf ->
  (exists k, putULong buf p v = Done k /\ getULong k p = Done (u32 v) /\ zlen k = zlen buf /\
     forall j m, j + m <= p \/ p + 4 <= j -> rdn k j m = rdn buf j m) /\
  (exists k, putLong buf p v = Done k /\ getLong k p = Done (s32 v)) /\
  (exists k, putUShort buf p v = Done k /\ getUShort k p = Done (u16 v) /\ zlen k = zlen buf /\
     forall j m, j + m <= p \/ p + 2 <= j -> rdn k j m = rdn buf j m) /\
  (exists k, putShort buf p v = Done k /\ getShort k p = Done (u16 v)).
Proof.
  intros Hp Hl.
  destruct (swab_store 4 v 32 eq_refl ltac:(lia)) as [E4 E4'].
  destruct (swab_store 2 v 16 eq_refl ltac:(lia)) as [E2 E2'].
  assert (L : forall n z, zlen (mem_store n z) = Z.of_nat n).
  { intros; unfold zlen; by rewrite length_mem_store. }
  unfold putULong, putLong, putUShort, putShort, getULong, getLong, getUShort, getShort,
    htonl, ntohl, htons, ntohs, u32, u16, s32, s16 in *.
  split_and!.
  - destruct (wrn_ok_rdn buf p _ 4 Hp (L 4%nat (hton 4 (v mod 2 ^ 32)))) as (k & Ek & Hk & Hr & Ho); [lia|].
    exists k. rewrite Hr. cbn -[mem_store mem_load hton Z.pow]. by rewrite E4.
  - destruct (wrn_ok_rdn buf p _ 4 Hp (L 4%nat (sint 32 (hton 4 (v mod 2 ^ 32)) mod 2 ^ 32))) as (k & Ek & Hk & Hr & Ho); [lia|].
    exists k. rewrite Hr. cbn -[mem_store mem_load hton Z.pow sint]. split; [done|]. apply (f_equal Done).
    rewrite sint_mod by lia.
    rewrite (Z.mod_small (hton 4 _)) by apply hton_range. rewrite E4.
    apply sint_congr. by rewrite Z.mod_mod.
  - destruct (wrn_ok_rdn buf p _ 2 Hp (L 2%nat (hton 2 (v mod 2 ^ 16)))) as (k & Ek & Hk & Hr & Ho); [lia|].
    exists k. rewrite Hr. cbn -[mem_store mem_load hton Z.pow]. by rewrite E2.
  - destruct (wrn_ok_rdn buf p _ 2 Hp (L 2%nat (sint 16 (hton 2 (v mod 2 ^ 16)) mod 2 ^ 16))) as (k & Ek & Hk & Hr & Ho); [lia|].
    exists k. rewrite Hr. cbn -[mem_store mem_load hton Z.pow sint]. by rewrite E2'.
Qed.

(** ** The digit printer *)
Definition digits_val (base : Z) (l : list Z) : Z :=
  fold_left (fun acc d => acc * base + d) l 0.

(** The value of an ASCII digit of [h2a]. *)
Definition digit_of (c : Z) : Z := if c <? 97 then c - 48 else c - 87.

Lemma get_number_range buf p width n :
  bytes buf -> get_number buf p width = Done (Some n) -> 0 <= n < 2 ^ 32.
Proof.
  intros Hb. unfold get_number, getUChar, getUShort, getULong.
  destruct (_ =? 1); [|destruct (_ =? 2); [|destruct (_ =? 4); [|done]]]; intros E; inv_done.
  - apply rd_Done in E0 as [_ E0]. eapply Forall_lookup_1 in E0; [|done]. unfold byte in *. lia.
  - pose proof (hton_range 2 (mem_load a)). unfold ntohs. simpl in *. lia.
  - pose proof (hton_range 4 (mem_load a)). unfold ntohl. simpl in *. lia.
Qed.

Section loop.
Context (number base : Z).
Hypothesis Hnum : 0 <= number < 2 ^ 32.
Hypothesis Hbase : 2 <= base <= 16.

(** Until the multiplication wraps, the column is the power of the base;
    afterwards the number is at least the last power below [2 ^ 32]. *)
Definition past_last_power : Prop := forall j, base ^ j < 2 ^ 32 -> base ^ j <= number.

Definition column_inv (s : Z * Z) : Prop :=
  let '(c, k) := s in
  1 <= k /\ 0 < c < 2 ^ 32 /\
  ((c = base ^ k /\ base ^ (k - 1) <= Z.max 1 number) \/
   (2 ^ 32 <= base ^ k /\ past_last_power)).

Lemma last_power k :
  0 <= k -> base ^ k <= number -> 2 ^ 32 <= base ^ (k + 1) -> past_last_power.
Proof.
  intros Hk H1 H2 j Hj. etransitivity; [|exact H1].
  apply Z.pow_le_mono_r; [lia|]. assert (j < k + 1); [|lia].
  apply (Z.pow_lt_mono_r_iff base); lia.
Qed.

Lemma converted_length_loop :
  exists k, while_loop 33 (converted_length_step number base) (base, 1) = Done k /\
    1 <= k /\ number < base ^ k /\ (base ^ (k - 1) <= Z.max 1 number \/ past_last_power).
Proof.
  apply while_total with (I := column_inv) (m := fun s => 2 ^ 32 - s.1).
  - intros [c k] (Hk & Hc & Hinv). unfold step_ok, converted_length_step.
    assert (E : base ^ (k + 1) = base ^ k * base) by (rewrite Z.pow_add_r; lia).
    zcase; [right; exists k; split; [done|]; destruct Hinv as [[-> ?]|[? ?]]; split_and!; auto; lia|].
    assert (Hr : 0 <= u32 (c * base) < 2 ^ 32) by (apply Z.mod_pos_bound; lia).
    assert (Hpow : c = base ^ k -> base ^ (k + 1) < 2 ^ 32 -> u32 (c * base) = base ^ (k + 1)).
    { intros -> ?. unfold u32. rewrite Z.mod_small; lia. }
    zcase.
    + left. exists (u32 (c * base), k + 1). split; [done|]. split; [|simpl; lia].
      simpl. split_and!; [lia|lia|lia|].
      replace (k + 1 - 1) with k by lia.
      destruct Hinv as [[-> _]|[H32 HP]]; [|right; split; [nia|done]].
      destruct (Z_lt_le_dec (base ^ (k + 1)) (2 ^ 32)); [left; split; [by apply Hpow|lia]|].
      right; split; [done|]. apply last_power with k; lia.
    + right. exists (k + 1). split; [done|]. replace (k + 1 - 1) with k by lia.
      destruct Hinv as [[-> ?]|[H32 HP]]; [|split_and!; [lia|nia|by right]].
      split_and!; [lia| |left; lia].
      destruct (Z_lt_le_dec (base ^ (k + 1)) (2 ^ 32)) as [L|]; [|lia].
      rewrite (Hpow eq_refl L) in *. nia.
  - simpl. split_and!; lia.
  - simpl. lia.
Qed.
End loop.

(** For every base from 2 to 16 and every width the code supports,
    [converted_length] returns a number of digits that is enough for the
    number read, and exactly its number of digits as long as the number is
    below some power of the base that fits in 32 bits. *)
Lemma converted_length_digits buf p base width number :
  bytes buf -> 2 <= base <= 16 -> get_number buf p width = Done (Some number) ->
  exists k, converted_length buf p base width = Done k /\ 1 <= k /\ number < base ^ k /\
    ((exists j, base ^ j < 2 ^ 32 /\ number < base ^ j) -> base ^ (k - 1) <= Z.max 1 number).
Proof.
  intros Hb Hbase Hn. pose proof (get_number_range _ _ _ _ Hb Hn) as Hr.
  destruct (converted_length_loop number base Hr Hbase) as (k & E & Hk & Hlt & Hx).
  exists k. unfold converted_length. rewrite (proj2 (Z.ltb_ge 16 base)) by lia.
  rewrite Hn. dred. split_and!; try done.
  intros (j & Hj & Hnj). destruct Hx as [?|HP]; [done|]. specialize (HP j Hj). lia.
Qed.

Lemma h2a_digit d : 0 <= d < 16 -> exists c, rd h2a d = Done c /\ digit_of c = d.
Proof.
  intros Hd. assert (In d (seqZ 0 16)) as Hin by (apply list_elem_of_In, elem_of_seqZ; lia).
  change (seqZ 0 16) with [0;1;2;3;4;5;6;7;8;9;10;11;12;13;14;15] in Hin.
  repeat (destruct Hin as [<-|Hin]; [eexists; split; reflexivity|]). destruct Hin.
Qed.

Lemma digits_val_snoc base l d : digits_val base (l ++ [d]) = digits_val base l * base + d.
Proof. unfold digits_val. by rewrite fold_left_app. Qed.

Lemma binary_to_ascii_loop_spec base : 2 <= base <= 16 -> forall k outbuf o number,
  0 <= number < base ^ Z.of_nat k -> 0 <= o -> o + Z.of_nat k <= zlen outbuf ->
  exists out ds, binary_to_ascii_loop k outbuf o base number = Done out /\
    zlen out = zlen outbuf /\ length ds = k /\
    out = take (Z.to_nat o) outbuf ++ ds ++ drop (Z.to_nat o + k) outbuf /\
    digits_val base (digit_of <$> ds) = number.
Proof.
  intros Hb. induction k as [|k IH]; intros outbuf o number Hn Ho Hl.
  - exists outbuf, []. simpl. split_and!; auto.
    + by rewrite Nat.add_0_r, take_drop.
    + cbn. simpl in Hn. lia.
  - simpl binary_to_ascii_loop. rewrite (proj2 (Z.eqb_neq base 0)) by lia.
    assert (Hd : 0 <= number mod base < base) by (apply Z.mod_pos_bound; lia).
    destruct (h2a_digit (number mod base)) as (c & Ec & Hc); [lia|].
    rewrite Ec. dred. rewrite wr_in by lia. dred.
    set (outbuf' := <[_ := c]> outbuf).
    assert (Hz : zlen outbuf' = zlen outbuf) by apply zlen_insert.
    destruct (IH outbuf' o (number / base)) as (out & ds & E & Hlo & Hds & Hout & Hv).
    + split; [apply Z.div_pos; lia|]. apply Z.div_lt_upper_bound; [lia|].
      replace (Z.of_nat (S k)) with (Z.succ (Z.of_nat k)) in Hn by lia.
      rewrite Z.pow_succ_r in Hn; lia.
    + done.
    + lia.
    + exists out, (ds ++ [c]). rewrite E. split_and!; try lia; try done.
      * rewrite length_app. simpl. lia.
      * rewrite Hout. unfold outbuf', zlen in *. rewrite take_insert_ge by lia.
        rewrite <- !app_assoc. do 2 f_equal.
        replace (Z.to_nat (o + Z.of_nat k)) with (Z.to_nat o + k)%nat by lia.
        rewrite (drop_insert_ge _ (Z.to_nat o + k)) by lia.
        rewrite Nat.sub_diag.
        destruct (drop (Z.to_nat o + k) outbuf) as [|y r] eqn:Er.
        { apply (f_equal length) in Er. rewrite length_drop in Er. simpl in Er. lia. }
        simpl. f_equal. replace (Z.to_nat o + S k)%nat with ((Z.to_nat o + k) + 1)%nat by lia.
        by rewrite <- drop_drop, Er.
      * rewrite fmap_app. simpl. rewrite digits_val_snoc, Hv, Hc.
        rewrite Z.mul_comm. symmetry. apply Z.div_mod. lia.
Qed.

(** [binary_to_ascii] writes, at the given place of the output buffer and
    nowhere else, digits whose value in the base is the number read from the
    input, provided the buffer has room for the length that
    [converted_length] announces. *)
Lemma binary_to_ascii_value outbuf o inbuf p base width number k :
  bytes inbuf -> 2 <= base <= 16 -> get_number inbuf p width = Done (Some number) ->
  converted_length inbuf p base width = Done k ->
  0 <= o -> o + k <= zlen outbuf ->
  exists ds, zlen ds = k /\ digits_val base (digit_of <$> ds) = number /\
    binary_to_ascii outbuf o inbuf p base width =
      Done (k, take (Z.to_nat o) outbuf ++ ds ++ drop (Z.to_nat o + Z.to_nat k) outbuf).
Proof.
  intros Hb Hbase Hn Hk Ho Hl. pose proof (get_number_range _ _ _ _ Hb Hn) as Hr.
  destruct (converted_length_loop number base Hr Hbase) as (k' & E & Hk1 & Hlt & _).
  assert (k' = k) as ->.
  { unfold converted_length in Hk. rewrite (proj2 (Z.ltb_ge 16 base)) in Hk by lia.
    rewrite Hn in Hk. dred_in Hk. congruence. }
  destruct (binary_to_ascii_loop_spec base Hbase (Z.to_nat k) outbuf o number)
    as (out & ds & El & _ & Hds & Hout & Hv); [rewrite Z2Nat.id; lia|lia|lia|].
  exists ds. split_and!; [unfold zlen; lia|done|].
  unfold binary_to_ascii. rewrite Hk. dred.
  rewrite (proj2 (Z.ltb_ge 16 base)), Hn by lia. dred.
  rewrite El. dred. by rewrite Hout.
Qed.
End convert.

(** ** Concrete runs *)
#[local] Instance little : HostOrder := false.

(** Above the last power of ten below [2 ^ 32] the wrapped column is
    still larger than the one before it, the loop goes on, and ten-digit
    numbers get eleven digits: the text of 3000000000 is ["03000000000"]. *)
Lemma converted_length_wraps :
  converted_length [178; 208; 94; 0] 0 10 4 = Done 11 /\
  getULong [178; 208; 94; 0] 0 = Done 3000000000 /\
  binary_to_ascii (replicate 11 0) 0 [178; 208; 94; 0] 0 10 4 =
    Done (11, [48; 51; 48; 48; 48; 48; 48; 48; 48; 48; 48]).
Proof. vm_compute. auto. Qed.
