(* ===== verification/Inet.v ===== *)
(** * Internet addresses: [common/inet.c], [includes/inet.h]

    [struct iaddr] is a length and a 16-byte array; only the first [ia_len]
    bytes are part of the address.  The theorems read these bytes as one
    big-endian number. *)

From stdpp Require Import base tactics list numbers.
From S2P Require Import Prelude.
#[local] Open Scope Z_scope.

(** ** Data *)
Record iaddr := mk_iaddr { ia_len : Z; iabuf : list Z }.
Record iaddrmatch := mk_iaddrmatch { match_addr : iaddr; match_mask : iaddr }.
Record iaddrcidrnet := mk_iaddrcidrnet { lo_addr : iaddr; cidr_bits : Z }.

(** The result codes [range2cidr] and [free_iaddrcidrnetlist] return. *)
Inductive isc_result := ISC_R_SUCCESS | ISC_R_NOMEMORY | DHCP_R_INVALIDARG.

Definition iabuf_size : Z := 16.

(** ** Operations *)

(** The byte-wise loops [for (i = 0; i < len; i++) rv[i] = f(a[i], b[i])]. *)
Definition bytewise (f : Z -> Z -> Z) (a b : list Z) (i : Z) (rv : list Z) : outcome (list Z) :=
  x ← rd a i; y ← rd b i; wr rv i (f x y).

Definition bytewise_loop (f : Z -> Z -> Z) (len : Z) (a b rv : list Z) : outcome (list Z) :=
  for_each (Z.to_nat len) 0 (bytewise f a b) rv.

Section locals.
(** The content of an uninitialised local [struct iaddr]. *)
Context (junk : list Z).

Definition subnet_number (addr mask : iaddr) : outcome iaddr :=
  assert_c (ia_len addr <=? iabuf_size);;
  assert_c (ia_len addr =? ia_len mask);;
  rv ← bytewise_loop Z.land (ia_len addr) (iabuf addr) (iabuf mask) junk;
  Done (mk_iaddr (ia_len addr) rv).

Definition broadcast_addr (subnet mask : iaddr) : outcome iaddr :=
  assert_c (ia_len subnet <=? iabuf_size);;
  assert_c (ia_len subnet =? ia_len mask);;
  rv ← bytewise_loop (fun s m => Z.lor s (Z.land (Z.lnot m) 255))
         (ia_len subnet) (iabuf subnet) (iabuf mask) junk;
  Done (mk_iaddr (ia_len subnet) rv).

(** [addr.iabuf[i] & ~mask.iabuf[i]] is stored in an [unsigned char]. *)
Definition host_addr `{HostOrder} (addr mask : iaddr) : outcome Z :=
  assert_c (ia_len addr <=? iabuf_size);;
  assert_c (ia_len addr =? ia_len mask);;
  rv ← bytewise_loop (fun a m => u8 (Z.land a (Z.lnot m)))
         (ia_len addr) (iabuf addr) (iabuf mask) junk;
  swaddr ← rdn rv (ia_len addr - 4) 4;
  Done (ntohl (mem_load swaddr)).
End locals.

(** The inner loop of [ip_addr]: is one of [habuf[0..i-1]] non-zero? *)
Fixpoint high_host_bits (k : nat) (habuf : list Z) : outcome bool :=
  match k with
  | O => Done false
  | S k' =>
      h ← rd habuf (Z.of_nat k');
      if negb (h =? 0) then Done true else high_host_bits k' habuf
  end.

(** [for (i = 3; i >= 0; i--)], with [k] iterations left. *)
Fixpoint ip_addr_loop (k : nat) (habuf mask : list Z) (j : Z) (rv : iaddr) : outcome iaddr :=
  match k with
  | O => Done rv
  | S k' =>
      let i := Z.of_nat k' in
      m ← rd mask (i + j);
      h ← rd habuf i;
      if negb (m =? 0) then
        if Z.lxor m 255 <? h then Done (mk_iaddr 0 (iabuf rv))
        else
          bad ← high_host_bits k' habuf;
          if (bad : bool) then Done (mk_iaddr 0 (iabuf rv))
          else
            old ← rd (iabuf rv) (i + j);
            buf ← wr (iabuf rv) (i + j) (Z.lor old h);
            Done (mk_iaddr (ia_len rv) buf)
      else
        buf ← wr (iabuf rv) (i + j) h;
        ip_addr_loop k' habuf mask j (mk_iaddr (ia_len rv) buf)
  end.

Definition ip_addr `{HostOrder} (subnet mask : iaddr) (host_address : Z) : outcome iaddr :=
  assert_c (ia_len subnet <=? iabuf_size);;
  assert_c (ia_len subnet =? ia_len mask);;
  let habuf := mem_store 4 (htonl (u32 host_address)) in
  let j := ia_len subnet - 4 in
  ip_addr_loop 4 habuf (iabuf mask) j subnet.

Definition addr_eq (addr1 addr2 : iaddr) : outcome bool :=
  assert_c (ia_len addr1 <=? iabuf_size);;
  if negb (ia_len addr1 =? ia_len addr2) then Done false
  else
    a ← rdn (iabuf addr1) 0 (ia_len addr1);
    b ← rdn (iabuf addr2) 0 (ia_len addr1);
    Done (bool_decide (a = b)).

Definition addr_match (addr : iaddr) (m : iaddrmatch) : outcome bool :=
  if negb (ia_len addr =? ia_len (match_addr m)) then Done false
  else
    r ← for_loop (Z.to_nat (ia_len addr)) 0 (fun i (_ : unit) =>
          a ← rd (iabuf addr) i;
          k ← rd (iabuf (match_mask m)) i;
          n ← rd (iabuf (match_addr m)) i;
          if negb (Z.land a k =? n) then Done (inr false) else Done (inl tt)) tt;
    match r with inl _ => Done true | inr b => Done b end.

Definition addr_cmp (a1 a2 : iaddr) : outcome Z :=
  if negb (ia_len a1 =? ia_len a2) then Done 0
  else
    r ← for_loop (Z.to_nat (ia_len a1)) 0 (fun i (_ : unit) =>
          x ← rd (iabuf a1) i;
          y ← rd (iabuf a2) i;
          if x <? y then Done (inr (-1)) else
          if y <? x then Done (inr 1) else Done (inl tt)) tt;
    match r with inl _ => Done 0 | inr c => Done c end.

(** [addr_or] and [addr_and]: the new [*result] and the returned flag. *)
Definition addr_op (f : Z -> Z -> Z) (result a1 a2 : iaddr) : outcome (iaddr * bool) :=
  if negb (ia_len a1 =? ia_len a2) then Done (result, false)
  else
    r ← for_each (Z.to_nat (ia_len a1)) 0 (fun i (s : list Z * bool) =>
          x ← rd (iabuf a1) i;
          y ← rd (iabuf a2) i;
          buf ← wr s.1 i (f x y);
          z ← rd buf i;
          Done (buf, if negb (z =? 0) then false else s.2))
          (iabuf result, true);
    Done (mk_iaddr (ia_len a1) r.1, negb r.2).
Definition addr_or := addr_op Z.lor.
Definition addr_and := addr_op Z.land.

(** The shifts of [is_cidr_mask_valid] act on a (signed) [char]. *)
Definition is_cidr_mask_valid (addr : iaddr) (bits : Z) : outcome bool :=
  if bits <? 0 then Done false
  else if ia_len addr * 8 <? bits then Done false
  else
    let zero_bits := ia_len addr * 8 - bits in
    let zero_bytes := zero_bits / 8 in
    r ← for_loop (Z.to_nat zero_bytes) 1 (fun i (_ : unit) =>
          b ← rd (iabuf addr) (ia_len addr - i);
          if negb (b =? 0) then Done (inr false) else Done (inl tt)) tt;
    match r with
    | inr b => Done b
    | inl _ =>
        let shift_bits := zero_bits mod 8 in
        if shift_bits =? 0 then Done true
        else
          b ← rd (iabuf addr) (ia_len addr - zero_bytes - 1);
          let byte := s8 b in
          Done (Z.shiftl (Z.shiftr byte shift_bits) shift_bits =? byte)
    end.

(** The width [piaddrmask] prints: the loop over [mw]. *)
Definition mask_width_step (mask : iaddr) (mw : Z) : outcome (Z + Z) :=
  if mw <=? 0 then Done (inr mw)
  else
    let oct := (mw - 1) / 8 in
    let bit := Z.shiftr 128 ((mw - 1) mod 8) in
    b ← rd (iabuf mask) oct;
    if b =? 0 then Done (inl (mw - 8))
    else if negb (Z.land b bit =? 0) then Done (inr mw)
    else Done (inl (mw - 1)).

Definition piaddrmask_width (addr mask : iaddr) : outcome Z :=
  assert_c ((ia_len addr =? 4) || (ia_len addr =? 16));;
  assert_c (ia_len addr =? ia_len mask);;
  mw ← while_loop 8 (mask_width_step mask) (ia_len mask * 8);
  assert_c (0 <=? mw);;
  Done mw.

(** ** Ranges to CIDR networks *)
Section range2cidr.
Context `{HostOrder}.
(** [junk]: the uninitialised locals [end_addr] and [dummy]; [alloc n]: does
    the [dmalloc] of the [n]-th list cell succeed? *)
Context (junk : iaddr) (alloc : nat -> bool).

(** [a.iabuf[i]]; for [i = -1] the access falls on the last byte of the
    [len] field, which precedes the array in the structure. *)
Definition rd_iabuf (a : iaddr) (i : Z) : outcome Z :=
  if i =? -1 then rd (mem_store 4 (ia_len a)) 3 else rd (iabuf a) i.

(** The carry loop [while ((ofs >= 0) && (tmp > 255))]. *)
Definition carry_step (s : iaddr * Z * Z) : outcome ((iaddr * Z * Z) + (iaddr * Z * Z)) :=
  let '(addr, ofs, tmp) := s in
  if (0 <=? ofs) && (255 <? tmp) then
    buf ← wr (iabuf addr) ofs (tmp - 256);
    let addr := mk_iaddr (ia_len addr) buf in
    let ofs := ofs - 1 in
    b ← rd_iabuf addr ofs;
    Done (inl (addr, ofs, b + 1))
  else Done (inr (addr, ofs, tmp)).

Record cidr_state := mk_cidr {
  cs_addr : iaddr; cs_bit : Z; cs_mask : iaddr;
  cs_nets : list iaddrcidrnet  (** [*result], most recent first *) }.

Definition zero_iabuf : list Z := replicate 16 0.

(** The network is too big: add the prefix found so far to the list, move the
    start address past it and reset the bit and the mask. *)
Definition record_net (s : cidr_state) (mask : iaddr) (ofs val : Z)
    : outcome (cidr_state + (isc_result * list iaddrcidrnet)) :=
  let addr := cs_addr s in
  if negb (alloc (length (cs_nets s))) then Done (inr (ISC_R_NOMEMORY, []))
  else
    let nets := mk_iaddrcidrnet addr (ia_len addr * 8 - cs_bit s) :: cs_nets s in
    b ← rd_iabuf addr ofs;
    r ← while_loop 5 carry_step (addr, ofs, b + val);
    let '(addr, ofs, tmp) := r in
    if ofs <? 0 then Done (inr (ISC_R_SUCCESS, nets))
    else
      buf ← wr (iabuf addr) ofs (u8 tmp);
      Done (inl (mk_cidr (mk_iaddr (ia_len addr) buf) 0
                         (mk_iaddr (ia_len mask) zero_iabuf) nets)).

(** One iteration of the main loop of [range2cidr]. *)
Definition range2cidr_step (hi : iaddr) (s : cidr_state)
    : outcome (cidr_state + (isc_result * list iaddrcidrnet)) :=
  let addr := cs_addr s in
  let bit := cs_bit s in
  c ← addr_cmp addr hi;
  if 0 <? c then Done (inr (ISC_R_SUCCESS, cs_nets s))
  else
    let ofs := ia_len addr - bit / 8 - 1 in
    let val := Z.shiftl 1 (bit mod 8) in
    mask ← (if 0 <=? ofs then
              m ← rd (iabuf (cs_mask s)) ofs;
              buf ← wr (iabuf (cs_mask s)) ofs (u8 (Z.lor m val));
              Done (mk_iaddr (ia_len (cs_mask s)) buf)
            else Done (cs_mask s));
    e ← addr_or junk addr mask;
    c ← addr_cmp e.1 hi;
    d ← addr_and junk addr mask;
    if (ofs <? 0) || (0 <? c) || (d.2 : bool) then record_net s mask ofs val
    else Done (inl (mk_cidr addr (bit + 1) mask (cs_nets s))).

(** [result = None] is a null [result] argument; [lo], [hi] likewise. *)
Definition range2cidr (result : option (list iaddrcidrnet)) (lo hi : option iaddr)
    : outcome (isc_result * list iaddrcidrnet) :=
  match result with
  | None => Done (DHCP_R_INVALIDARG, [])
  | Some (n :: ns) => Done (DHCP_R_INVALIDARG, n :: ns)
  | Some [] =>
      match lo, hi with
      | Some lo, Some hi =>
          if negb (ia_len lo =? ia_len hi) then Done (DHCP_R_INVALIDARG, [])
          else
            c ← addr_cmp lo hi;
            let '(lo, hi) := if 0 <? c then (hi, lo) else (lo, hi) in
            while_loop 160 (range2cidr_step hi)
              (mk_cidr lo 0 (mk_iaddr (ia_len lo) zero_iabuf) [])
      | _, _ => Done (DHCP_R_INVALIDARG, [])
      end
  end.
End range2cidr.

Definition free_iaddrcidrnetlist (result : option (list iaddrcidrnet))
    : isc_result * option (list iaddrcidrnet) :=
  match result with
  | None => (DHCP_R_INVALIDARG, None)
  | Some [] => (DHCP_R_INVALIDARG, Some [])
  | Some _ => (ISC_R_SUCCESS, Some [])
  end.

(** ** Well-formed addresses and their value *)
Definition wf_iaddr (a : iaddr) : Prop :=
  0 <= ia_len a <= iabuf_size /\ zlen (iabuf a) = iabuf_size /\ bytes (iabuf a).

#[export] Instance wf_iaddr_dec a : Decision (wf_iaddr a).
Proof. unfold wf_iaddr; apply _. Defined.

Definition addr_bytes (a : iaddr) : list Z := take (Z.to_nat (ia_len a)) (iabuf a).
Definition addr_val (a : iaddr) : Z := be_val (addr_bytes a).
Definition addr_width (a : iaddr) : Z := 8 * ia_len a.

Lemma wf_addr_bytes a : wf_iaddr a -> bytes (addr_bytes a) /\ zlen (addr_bytes a) = ia_len a.
Proof.
  intros (Hl & Hs & Hb). split; [by apply Forall_take|].
  unfold addr_bytes, zlen, iabuf_size in *. rewrite length_take. lia.
Qed.

Lemma addr_val_bound a : wf_iaddr a -> 0 <= addr_val a < 2 ^ addr_width a.
Proof.
  intros [Hb Hl]%wf_addr_bytes. unfold addr_val, addr_width. rewrite <- Hl. by apply be_val_bound.
Qed.

Lemma addr_bytes_inj a b :
  wf_iaddr a -> wf_iaddr b -> ia_len a = ia_len b -> addr_val a = addr_val b ->
  addr_bytes a = addr_bytes b.
Proof.
  intros [Ha La]%wf_addr_bytes [Hb Lb]%wf_addr_bytes E V. apply be_val_inj; auto.
  unfold zlen in *; lia.
Qed.

Lemma bytewise_loop_spec f len a b rv :
  0 <= len -> len <= zlen a -> len <= zlen b -> len <= zlen rv ->
  bytewise_loop f len a b rv =
    Done (zip_with f (take (Z.to_nat len) a) (take (Z.to_nat len) b) ++ drop (Z.to_nat len) rv).
Proof.
  intros H0 Ha Hb Hr. unfold bytewise_loop, zlen in *.
  destruct (for_each_inv (fun i r => 0 <= i /\
      r = zip_with f (take (Z.to_nat i) a) (take (Z.to_nat i) b) ++ drop (Z.to_nat i) rv)
    (bytewise f a b) (Z.to_nat len) 0 rv) as (r & E & _ & Hr'); [done| |by rewrite E, Hr', Z.add_0_l, Z2Nat.id].
  intros j t Hj [_ ->]. unfold bytewise.
  destruct (rd_in a j) as (x & -> & Hx); [unfold zlen; lia|]. dred.
  destruct (rd_in b j) as (y & -> & Hy); [unfold zlen; lia|]. dred.
  assert (Lz : length (zip_with f (take (Z.to_nat j) a) (take (Z.to_nat j) b)) = Z.to_nat j).
  { rewrite length_zip_with, !length_take. lia. }
  rewrite wr_in by (unfold zlen; rewrite length_app, Lz, length_drop; lia).
  eexists; split; [done|]. split; [lia|].
  replace (Z.to_nat (j + 1)) with (S (Z.to_nat j)) by lia.
  rewrite (take_S_r _ _ _ Hx), (take_S_r _ _ _ Hy), zip_with_app by (rewrite !length_take; lia).
  rewrite insert_app_r_alt by lia. rewrite Lz, Nat.sub_diag.
  destruct (lookup_lt_is_Some_2 rv (Z.to_nat j)) as [z Hz]; [lia|].
  rewrite (drop_S _ _ _ Hz). simpl. by rewrite <- app_assoc.
Qed.

(** The common shape of [subnet_number] and [broadcast_addr]. *)
Lemma bytewise_addr f junk a b :
  (forall x y, byte x -> byte y -> byte (f x y)) ->
  wf_iaddr a -> wf_iaddr b -> ia_len a = ia_len b -> bytes junk -> zlen junk = iabuf_size ->
  exists rv, bytewise_loop f (ia_len a) (iabuf a) (iabuf b) junk = Done rv /\
    wf_iaddr (mk_iaddr (ia_len a) rv) /\
    addr_bytes (mk_iaddr (ia_len a) rv) = zip_with f (addr_bytes a) (addr_bytes b).
Proof.
  intros Hf Ha Hb El Hj Lj.
  destruct (wf_addr_bytes a Ha) as [Ba La], (wf_addr_bytes b Hb) as [Bb Lb].
  destruct Ha as (Ra & Sa & Ca), Hb as (Rb & Sb & Cb).
  eexists; split; [apply bytewise_loop_spec; lia|].
  unfold wf_iaddr, addr_bytes in *; simpl in *. rewrite <- El in *. unfold zlen, iabuf_size in *.
  assert (Lz : length (zip_with f (take (Z.to_nat (ia_len a)) (iabuf a)) (take (Z.to_nat (ia_len a)) (iabuf b)))
               = Z.to_nat (ia_len a)).
  { rewrite length_zip_with. lia. }
  split_and!; try lia.
  - rewrite length_app, Lz, length_drop. lia.
  - apply Forall_app; split; [|by apply Forall_drop].
    by apply bytes_zip_with.
  - by rewrite take_app_length' by lia.
Qed.

Lemma byte_complement m : byte m -> byte (255 - m).
Proof. unfold byte; lia. Qed.
#[local] Hint Resolve byte_complement : dhcp.

Lemma bytes_complement l : bytes l -> bytes ((fun m => 255 - m) <$> l).
Proof. intros H. apply Forall_fmap. eapply Forall_impl; [|exact H]. exact byte_complement. Qed.

Lemma zip_with_bytes_ext (f g : Z -> Z -> Z) l k :
  (forall x y, byte x -> byte y -> f x y = g x y) -> bytes l -> bytes k ->
  zip_with f l k = zip_with g l k.
Proof.
  intros Hfg Hl; revert k; induction Hl as [|x l Hx Hl IH]; intros [|y k] Hk; try done.
  apply Forall_cons_iff in Hk as [Hy Hk]. simpl. f_equal; auto.
Qed.

Lemma lengths_eq a m :
  wf_iaddr a -> wf_iaddr m -> ia_len a = ia_len m ->
  length (addr_bytes a) = length (addr_bytes m).
Proof. intros [_ L1]%wf_addr_bytes [_ L2]%wf_addr_bytes. unfold zlen in *. lia. Qed.

Section values.
Context (junk : list Z).
Hypothesis junk_bytes : bytes junk.
Hypothesis junk_len : zlen junk = iabuf_size.
Context (a m : iaddr).
Hypothesis Wa : wf_iaddr a.
Hypothesis Wm : wf_iaddr m.
Hypothesis Len : ia_len a = ia_len m.

Lemma guards {A} (k : outcome A) :
  (assert_c (ia_len a <=? iabuf_size);; assert_c (ia_len a =? ia_len m);; k) = k.
Proof.
  destruct Wa as [? _]. rewrite (proj2 (Z.leb_le _ _)), (proj2 (Z.eqb_eq _ _)) by lia. done.
Qed.

Lemma subnet_number_val :
  exists r, subnet_number junk a m = Done r /\ wf_iaddr r /\ ia_len r = ia_len a /\
    addr_val r = Z.land (addr_val a) (addr_val m).
Proof.
  destruct (bytewise_addr Z.land junk a m) as (rv & E & W & B); auto with dhcp.
  eexists; split; [|split; [exact W|split; [done|]]].
  - unfold subnet_number. rewrite guards, E. done.
  - unfold addr_val. rewrite B. apply be_val_land; [by apply wf_addr_bytes..|by apply lengths_eq].
Qed.

Lemma broadcast_addr_val :
  exists r, broadcast_addr junk a m = Done r /\ wf_iaddr r /\ ia_len r = ia_len a /\
    addr_val r = Z.lor (addr_val a) (2 ^ addr_width a - 1 - addr_val m).
Proof.
  destruct (wf_addr_bytes a Wa) as [B1 L1], (wf_addr_bytes m Wm) as [B2 L2].
  destruct (bytewise_addr (fun s m => Z.lor s (Z.land (Z.lnot m) 255)) junk a m)
    as (rv & E & W & B); auto.
  { intros x y Hx Hy. rewrite lnot_byte by done. auto with dhcp. }
  eexists; split; [|split; [exact W|split; [done|]]].
  - unfold broadcast_addr. rewrite guards, E. done.
  - unfold addr_val at 1. rewrite B.
    rewrite (zip_with_bytes_ext _ (fun s m => Z.lor s (255 - m))); auto.
    2: { intros x y _ Hy. by rewrite lnot_byte. }
    rewrite <- (zip_with_fmap_r Z.lor (fun m => 255 - m)).
    rewrite be_val_lor, be_val_complement; auto using bytes_complement.
    + unfold addr_width, addr_val. by rewrite L2, Len.
    + rewrite length_fmap. by apply lengths_eq.
Qed.

Lemma host_addr_val `{HostOrder} :
  4 <= ia_len a ->
  host_addr junk a m =
    Done (Z.land (addr_val a) (2 ^ addr_width a - 1 - addr_val m) mod 2 ^ 32).
Proof.
  intros H4. destruct (wf_addr_bytes a Wa) as [B1 L1], (wf_addr_bytes m Wm) as [B2 L2].
  destruct (bytewise_addr (fun a m => u8 (Z.land a (Z.lnot m))) junk a m)
    as (rv & E & W & B); auto with dhcp.
  unfold host_addr. rewrite guards, E. dred.
  destruct (wf_addr_bytes _ W) as [Bw Lw]. destruct W as (R & S & C). simpl in *.
  assert (V : be_val (addr_bytes (mk_iaddr (ia_len a) rv)) =
              Z.land (addr_val a) (2 ^ addr_width a - 1 - addr_val m)).
  { rewrite B. rewrite (zip_with_bytes_ext _ (fun a m => Z.land a (255 - m))); auto.
    2: { intros x y Hx Hy. rewrite land_lnot_byte by done. rewrite u8_byte; auto with dhcp. }
    rewrite <- (zip_with_fmap_r Z.land (fun m => 255 - m)).
    rewrite be_val_land, be_val_complement; auto using bytes_complement.
    + unfold addr_width, addr_val. by rewrite L2, Len.
    + rewrite length_fmap. by apply lengths_eq. }
  rewrite rdn_in by lia. dred. f_equal. unfold ntohl. rewrite ntoh_load.
  - rewrite <- V. change (2 ^ 32) with (2 ^ (8 * 4)). rewrite <- be_val_suffix by (done || lia).
    f_equal. rewrite Lw. unfold addr_bytes. simpl. rewrite skipn_firstn_comm.
    do 2 f_equal. lia.
  - by apply Forall_take, Forall_drop.
  - unfold zlen in *. rewrite length_take, length_drop. unfold iabuf_size in *. lia.
Qed.
End values.

(** ** Comparisons *)
Definition cmp_sign (c : comparison) : Z := match c with Lt => -1 | Eq => 0 | Gt => 1 end.

Lemma addr_bytes_lookup a i x :
  iabuf a !! i = Some x -> Z.of_nat i < ia_len a -> addr_bytes a !! i = Some x.
Proof. intros Hx Hi. unfold addr_bytes. rewrite lookup_take_lt; [done|lia]. Qed.

Lemma addr_bytes_take a i : (i <= Z.to_nat (ia_len a))%nat -> take i (addr_bytes a) = take i (iabuf a).
Proof. intros. unfold addr_bytes. rewrite take_take. f_equal. lia. Qed.

Lemma addr_cmp_val a b :
  wf_iaddr a -> wf_iaddr b -> ia_len a = ia_len b ->
  addr_cmp a b = Done (cmp_sign (addr_val a ?= addr_val b)).
Proof.
  intros Wa Wb El. destruct (wf_addr_bytes a Wa) as [Ba La], (wf_addr_bytes b Wb) as [Bb Lb].
  assert (Hlen : length (addr_bytes a) = length (addr_bytes b)) by (unfold zlen in *; lia).
  destruct Wa as (Ra & Sa & _), Wb as (Rb & Sb & _).
  unfold addr_cmp. rewrite (proj2 (Z.eqb_eq _ _) El). cbn [negb].
  match goal with |- context [for_loop ?n ?i ?body ?s] =>
    destruct (for_loop_inv (fun j _ => 0 <= j <= ia_len a /\
        take (Z.to_nat j) (addr_bytes a) = take (Z.to_nat j) (addr_bytes b))
      (fun r => r = cmp_sign (addr_val a ?= addr_val b)) body n i s)
      as [([] & -> & HI)|(r & -> & ->)]; [| | |done]
  end.
  - split; [lia|done].
  - intros j [] Hj [Hr Ht].
    destruct (rd_in (iabuf a) j) as (x & -> & Hx); [lia|]. dred.
    destruct (rd_in (iabuf b) j) as (y & -> & Hy); [lia|]. dred.
    apply addr_bytes_lookup in Hx, Hy; try lia.
    destruct (Z.ltb_spec x y); [|destruct (Z.ltb_spec y x)].
    + right. eexists; split; [done|]. unfold addr_val.
      rewrite (proj2 (Z.compare_lt_iff _ _)); [done|]. by eapply be_val_lt_first.
    + right. eexists; split; [done|]. unfold addr_val.
      rewrite (proj2 (Z.compare_gt_iff _ _)); [done|]. by eapply be_val_lt_first.
    + left. exists tt. split; [done|]. split; [lia|].
      replace (Z.to_nat (j + 1)) with (S (Z.to_nat j)) by lia.
      rewrite (take_S_r _ _ _ Hx), (take_S_r _ _ _ Hy), Ht. do 2 f_equal. lia.
  - destruct HI as [_ HI]. dred. unfold addr_val.
    rewrite take_ge, take_ge in HI by (unfold zlen in *; lia).
    by rewrite HI, Z.compare_refl.
Qed.

Lemma addr_eq_val a b :
  wf_iaddr a -> wf_iaddr b ->
  addr_eq a b = Done (bool_decide (ia_len a = ia_len b /\ addr_val a = addr_val b)).
Proof.
  intros Wa Wb. pose proof Wa as (Ra & Sa & _). pose proof Wb as (Rb & Sb & _).
  unfold addr_eq. rewrite (proj2 (Z.leb_le _ _)) by lia. cbn [assert_c]. dred.
  destruct (Z.eqb_spec (ia_len a) (ia_len b)) as [El|Nl]; cbn [negb].
  - rewrite !rdn_in by lia. dred. f_equal. apply bool_decide_ext. rewrite !drop_0.
    fold (addr_bytes a). rewrite El. fold (addr_bytes b). split.
    + intros Eb. split; [done|]. unfold addr_val. by rewrite Eb.
    + intros [_ V]. by apply addr_bytes_inj.
  - f_equal. symmetry. apply bool_decide_eq_false. by intros [? _].
Qed.

Lemma addr_match_val a m :
  wf_iaddr a -> wf_iaddr (match_addr m) -> wf_iaddr (match_mask m) ->
  ia_len a = ia_len (match_mask m) ->
  addr_match a m = Done (bool_decide (ia_len a = ia_len (match_addr m) /\
    Z.land (addr_val a) (addr_val (match_mask m)) = addr_val (match_addr m))).
Proof.
  intros Wa Wn Wm Elm. destruct (wf_addr_bytes _ Wa) as [Ba La], (wf_addr_bytes _ Wn) as [Bn Ln],
    (wf_addr_bytes _ Wm) as [Bm Lm].
  pose proof Wa as (Ra & Sa & _). pose proof Wn as (Rn & Sn & _). pose proof Wm as (Rm & Sm & _).
  unfold addr_match. destruct (Z.eqb_spec (ia_len a) (ia_len (match_addr m))) as [El|Nl]; cbn [negb].
  2: { f_equal. symmetry. apply bool_decide_eq_false. by intros [? _]. }
  set (z := zip_with Z.land (addr_bytes a) (addr_bytes (match_mask m))).
  assert (Bz : bytes z) by (apply bytes_zip_with; auto with dhcp).
  assert (Lz : length z = length (addr_bytes (match_addr m))).
  { unfold z. rewrite length_zip_with. unfold zlen in *. lia. }
  assert (Vz : be_val z = Z.land (addr_val a) (addr_val (match_mask m))).
  { apply be_val_land; auto. unfold zlen in *; lia. }
  match goal with |- context [for_loop ?n ?i ?body ?s] =>
    destruct (for_loop_inv (fun j _ => 0 <= j <= ia_len a /\
        take (Z.to_nat j) z = take (Z.to_nat j) (addr_bytes (match_addr m)))
      (fun r => r = false /\ z <> addr_bytes (match_addr m)) body n i s)
      as [([] & -> & HI)|(r & -> & -> & HN)]
  end.
  - split; [lia|done].
  - intros j [] Hj [Hr Ht].
    destruct (rd_in (iabuf a) j) as (x & -> & Hx); [lia|]. dred.
    destruct (rd_in (iabuf (match_mask m)) j) as (y & -> & Hy); [lia|]. dred.
    destruct (rd_in (iabuf (match_addr m)) j) as (w & -> & Hw); [lia|]. dred.
    apply addr_bytes_lookup in Hx, Hy, Hw; try lia.
    assert (Hz : z !! Z.to_nat j = Some (Z.land x y)).
    { unfold z. rewrite lookup_zip_with, Hx, Hy. done. }
    destruct (Z.eqb_spec (Z.land x y) w) as [Ew|Nw]; cbn [negb].
    + left. exists tt. split; [done|]. split; [lia|].
      replace (Z.to_nat (j + 1)) with (S (Z.to_nat j)) by lia.
      rewrite (take_S_r _ _ _ Hz), (take_S_r _ _ _ Hw), Ht. by rewrite Ew.
    + right. eexists; split; [done|]. split; [done|]. intros Eq. rewrite Eq in Hz. congruence.
  - destruct HI as [_ HI]. dred. rewrite take_ge, take_ge in HI by (unfold zlen in *; lia).
    f_equal. symmetry. apply bool_decide_eq_true. split; [done|].
    rewrite <- Vz, HI. done.
  - dred. f_equal. symmetry. apply bool_decide_eq_false. intros [_ V]. apply HN.
    apply be_val_inj; auto. rewrite Vz. exact V.
Qed.

(** ** Bitwise combination *)
Lemma be_val_zero l : bytes l -> be_val l = 0 <-> Forall (fun b => b = 0) l.
Proof.
  induction 1 as [|b l Hb Hl IH]; [split; [constructor|done]|]. cbn [be_val].
  pose proof (be_val_bound l Hl). rewrite Forall_cons_iff, <- IH. unfold byte in Hb. nia.
Qed.

Lemma addr_op_spec f result a b :
  (forall x y, byte x -> byte y -> byte (f x y)) ->
  zlen (iabuf result) = iabuf_size -> bytes (iabuf result) ->
  wf_iaddr a -> wf_iaddr b -> ia_len a = ia_len b ->
  exists r, addr_op f result a b = Done (r, negb (addr_val r =? 0)) /\ wf_iaddr r /\
    ia_len r = ia_len a /\ addr_bytes r = zip_with f (addr_bytes a) (addr_bytes b).
Proof.
  intros Hf Lr Br Wa Wb El.
  destruct (bytewise_addr f (iabuf result) a b) as (rv & E & W & B); auto.
  exists (mk_iaddr (ia_len a) rv). split_and!; auto.
  pose proof Wa as (Ra & Sa & _). pose proof Wb as (Rb & Sb & _).
  destruct (wf_addr_bytes _ W) as [Bw Lw]. simpl in Lw.
  unfold addr_op. rewrite (proj2 (Z.eqb_eq _ _) El). cbn [negb].
  rewrite bytewise_loop_spec in E by lia. injection E as E.
  match goal with |- context [for_each ?n ?i ?body ?s] =>
    destruct (for_each_inv (fun j (q : list Z * bool) => 0 <= j <= ia_len a /\
        q.1 = zip_with f (take (Z.to_nat j) (iabuf a)) (take (Z.to_nat j) (iabuf b))
                ++ drop (Z.to_nat j) (iabuf result) /\
        q.2 = bool_decide (Forall (fun b => b = 0)
                (zip_with f (take (Z.to_nat j) (iabuf a)) (take (Z.to_nat j) (iabuf b))))) body n i s)
      as ([buf z] & -> & HI)
  end.
  - simpl. split_and!; try lia; done.
  - intros j [t z] Hj (Hr & Ht & Hz). simpl in Ht, Hz. subst t z.
    destruct (rd_in (iabuf a) j) as (x & -> & Hx); [lia|]. dred.
    destruct (rd_in (iabuf b) j) as (y & -> & Hy); [lia|]. dred. cbn [fst snd].
    assert (Lz : length (zip_with f (take (Z.to_nat j) (iabuf a)) (take (Z.to_nat j) (iabuf b))) = Z.to_nat j).
    { rewrite length_zip_with, !length_take. unfold zlen in *. lia. }
    rewrite wr_in by (unfold zlen, iabuf_size in *; rewrite length_app, Lz, length_drop; lia). dred.
    rewrite insert_app_r_alt by lia. rewrite Lz, Nat.sub_diag.
    destruct (lookup_lt_is_Some_2 (iabuf result) (Z.to_nat j)) as [w Hw]; [unfold zlen in *; lia|].
    rewrite (drop_S _ _ _ Hw). cbn [insert list_insert].
    rewrite (proj2 (rd_Done _ j (f x y))).
    2: { split; [lia|]. rewrite lookup_app_r by lia. by rewrite Lz, Nat.sub_diag. }
    dred. eexists; split; [done|]. split; [lia|]. cbn [fst snd].
    replace (Z.to_nat (j + 1)) with (S (Z.to_nat j)) by lia.
    rewrite (take_S_r _ _ _ Hx), (take_S_r _ _ _ Hy), zip_with_app by (rewrite !length_take; unfold zlen in *; lia).
    split; [by rewrite <- app_assoc|]. cbn [zip_with].
    destruct (Z.eqb_spec (f x y) 0); cbn [negb]; [apply bool_decide_ext|symmetry; apply bool_decide_eq_false];
      rewrite Forall_app, Forall_singleton; tauto.
  - dred. replace (0 + Z.of_nat (Z.to_nat (ia_len a))) with (ia_len a) in HI by lia.
    cbn [fst snd] in HI. destruct HI as (_ & -> & ->).
    cbn [fst snd]. rewrite E. do 2 f_equal. f_equal.
    assert (HB : addr_bytes (mk_iaddr (ia_len a) rv) =
      zip_with f (take (Z.to_nat (ia_len a)) (iabuf a)) (take (Z.to_nat (ia_len a)) (iabuf b))).
    { rewrite B. unfold addr_bytes. by rewrite El. }
    rewrite <- HB. unfold addr_val. pose proof (be_val_zero _ Bw).
    destruct (Z.eqb_spec (be_val (addr_bytes (mk_iaddr (ia_len a) rv))) 0);
      [apply bool_decide_eq_true|apply bool_decide_eq_false]; tauto.
Qed.

Section addr_ops.
Context (result a b : iaddr).
Hypothesis Lr : zlen (iabuf result) = iabuf_size.
Hypothesis Br : bytes (iabuf result).
Hypothesis Wa : wf_iaddr a.
Hypothesis Wb : wf_iaddr b.
Hypothesis El : ia_len a = ia_len b.

Lemma addr_or_val :
  exists r, addr_or result a b = Done (r, negb (addr_val r =? 0)) /\ wf_iaddr r /\
    ia_len r = ia_len a /\ addr_val r = Z.lor (addr_val a) (addr_val b).
Proof.
  destruct (addr_op_spec Z.lor result a b) as (r & E & W & L & B); auto with dhcp.
  exists r; split_and!; auto. unfold addr_val. rewrite B.
  apply be_val_lor; [by apply wf_addr_bytes..|by apply lengths_eq].
Qed.

Lemma addr_and_val :
  exists r, addr_and result a b = Done (r, negb (addr_val r =? 0)) /\ wf_iaddr r /\
    ia_len r = ia_len a /\ addr_val r = Z.land (addr_val a) (addr_val b).
Proof.
  destruct (addr_op_spec Z.land result a b) as (r & E & W & L & B); auto with dhcp.
  exists r; split_and!; auto. unfold addr_val. rewrite B.
  apply be_val_land; [by apply wf_addr_bytes..|by apply lengths_eq].
Qed.
End addr_ops.

(** ** One byte of an address *)
Lemma rd_addr a ofs :
  wf_iaddr a -> 0 <= ofs < ia_len a ->
  rd (iabuf a) ofs = Done ((addr_val a / 2 ^ (8 * (ia_len a - 1 - ofs))) mod 256).
Proof.
  intros Wa Ho. destruct (wf_addr_bytes a Wa) as [Ba La]. destruct Wa as (Ra & Sa & _).
  destruct (rd_in (iabuf a) ofs) as (x & -> & Hx); [lia|]. f_equal.
  apply addr_bytes_lookup in Hx; [|lia]. rewrite (be_val_lookup _ _ _ Ba Hx). rewrite La.
  unfold addr_val. by rewrite Z2Nat.id by lia.
Qed.

Lemma wr_addr a ofs old x :
  wf_iaddr a -> 0 <= ofs < ia_len a -> rd (iabuf a) ofs = Done old -> byte x ->
  exists buf, wr (iabuf a) ofs x = Done buf /\ wf_iaddr (mk_iaddr (ia_len a) buf) /\
    addr_val (mk_iaddr (ia_len a) buf) = addr_val a + (x - old) * 2 ^ (8 * (ia_len a - 1 - ofs)).
Proof.
  intros Wa Ho [_ Hold]%rd_Done Hx. destruct (wf_addr_bytes a Wa) as [Ba La].
  destruct Wa as (Ra & Sa & Ca). eexists; split; [apply wr_in; lia|]. split.
  - split_and!; simpl; try lia; [by rewrite zlen_insert|by apply Forall_insert].
  - unfold addr_val, addr_bytes in *. simpl. rewrite take_insert_lt by lia.
    rewrite (be_val_insert _ _ old) by (rewrite lookup_take_lt; [done|lia]).
    rewrite La. by rewrite Z2Nat.id by lia.
Qed.

(** ** Network masks *)

(** The mask with [n] host bits: ones followed by [n] zeros. *)
Fixpoint netmask_bytes (len : nat) (n : Z) : list Z :=
  match len with
  | O => []
  | S l => 256 - 2 ^ Z.max 0 (Z.min 8 (n - 8 * Z.of_nat l)) :: netmask_bytes l n
  end.

Definition is_netmask (m : iaddr) (n : Z) : Prop :=
  0 <= n <= addr_width m /\ addr_val m = 2 ^ addr_width m - 2 ^ n.

Lemma zlen_netmask len n : zlen (netmask_bytes len n) = Z.of_nat len.
Proof. unfold zlen. f_equal. induction len; simpl; auto. Qed.

Lemma bytes_netmask len n : bytes (netmask_bytes len n).
Proof.
  induction len as [|l IH]; constructor; [|done].
  set (c := Z.max _ _). assert (0 <= c <= 8) by lia. unfold byte.
  pose proof (pow2_pos c ltac:(lia)). pose proof (Z.pow_le_mono_r 2 c 8 ltac:(lia) ltac:(lia)).
  change (2 ^ 8) with 256 in *. lia.
Qed.

Lemma netmask_val len n :
  0 <= n -> be_val (netmask_bytes len n) = 2 ^ (8 * Z.of_nat len) - 2 ^ Z.min n (8 * Z.of_nat len).
Proof.
  intros Hn. induction len as [|l IH]; [simpl; by rewrite Z.min_r by lia|].
  cbn [netmask_bytes be_val]. rewrite IH, zlen_netmask.
  replace (8 * Z.of_nat (S l)) with (8 * Z.of_nat l + 8) by lia.
  rewrite Z.pow_add_r by lia. change (2 ^ 8) with 256.
  destruct (Z_le_gt_dec n (8 * Z.of_nat l)); [|destruct (Z_le_gt_dec n (8 * Z.of_nat l + 8))].
  - rewrite Z.max_l, !Z.min_l by lia. lia.
  - rewrite Z.max_r, !Z.min_r, Z.min_l by lia.
    replace n with (n - 8 * Z.of_nat l + 8 * Z.of_nat l) at 2 by lia. rewrite Z.pow_add_r by lia. ring.
  - rewrite Z.max_r, (Z.min_l 8), !Z.min_r by lia. change (2 ^ 8) with 256. rewrite Z.pow_add_r by lia.
    change (2 ^ 8) with 256. ring.
Qed.

(** Byte [t] (from the low end) of a network mask. *)
Lemma netmask_byte m n t :
  wf_iaddr m -> is_netmask m n -> 0 <= t < ia_len m ->
  rd (iabuf m) (ia_len m - 1 - t) = Done (256 - 2 ^ Z.max 0 (Z.min 8 (n - 8 * t))).
Proof.
  intros Wm [Hn Vm] Ht. destruct (wf_addr_bytes m Wm) as [Bm Lm].
  assert (E : addr_bytes m = netmask_bytes (Z.to_nat (ia_len m)) n).
  { apply be_val_inj; [done|apply bytes_netmask| |].
    - pose proof (zlen_netmask (Z.to_nat (ia_len m)) n). unfold zlen in *. lia.
    - fold (addr_val m). rewrite Vm, netmask_val by lia. unfold addr_width in *.
      rewrite Z2Nat.id, Z.min_l by lia. done. }
  destruct Wm as (Rm & Sm & _).
  destruct (rd_in (iabuf m) (ia_len m - 1 - t)) as (x & -> & Hx); [lia|]. f_equal.
  apply addr_bytes_lookup in Hx; [|lia]. rewrite E in Hx.
  replace (Z.to_nat (ia_len m - 1 - t)) with (Z.to_nat (ia_len m) - 1 - Z.to_nat t)%nat in Hx by lia.
  assert (Ht' : (Z.to_nat t < Z.to_nat (ia_len m))%nat) by lia.
  replace t with (Z.of_nat (Z.to_nat t)) by lia. revert Ht' Hx.
  generalize (Z.to_nat (ia_len m)) (Z.to_nat t). clear.
  induction n0 as [|l IH]; intros k Hk Hx; [lia|]. cbn [netmask_bytes] in Hx.
  destruct (decide (k = l)) as [->|].
  - replace (S l - 1 - l)%nat with 0%nat in Hx by lia. injection Hx as <-. done.
  - replace (S l - 1 - k)%nat with (S (l - 1 - k)) in Hx by lia. apply (IH k); [lia|done].
Qed.

Lemma lor_disjoint d a b : 0 <= d -> a mod 2 ^ d = 0 -> 0 <= b < 2 ^ d -> Z.lor a b = a + b.
Proof.
  intros Hd Ha Hb. pose proof (pow2_pos d Hd). symmetry. rewrite <- Z.lxor_lor, Z.add_nocarry_lxor; auto.
  all: apply Z.bits_inj'; intros i Hi; rewrite Z.land_spec, Z.bits_0;
    destruct (Z_lt_le_dec i d) as [L|L]; [|rewrite (testbit_above d b) by lia; apply andb_false_r];
    rewrite <- (Z.mod_pow2_bits_low a d i), Ha, Z.bits_0 by lia; done.
Qed.

Lemma lxor_255 d : 0 <= d <= 8 -> Z.lxor (256 - 2 ^ d) 255 = 2 ^ d - 1.
Proof.
  intros Hd. assert (In d (seqZ 0 9)) as Hin by (apply list_elem_of_In, elem_of_seqZ; lia).
  change (seqZ 0 9) with [0;1;2;3;4;5;6;7;8] in Hin.
  repeat (destruct Hin as [<-|Hin]; [reflexivity|]). destruct Hin.
Qed.

Section ip_addr.
Context `{HostOrder}.
Context (subnet mask : iaddr) (n h : Z).
Hypothesis Ws : wf_iaddr subnet.
Hypothesis Wm : wf_iaddr mask.
Hypothesis Len : ia_len subnet = ia_len mask.
Hypothesis Len4 : 4 <= ia_len subnet.
Hypothesis Net : is_netmask mask n.
Hypothesis Sub : addr_val subnet mod 2 ^ n = 0.
Hypothesis Hh : 0 <= h < 2 ^ 32.

Let habuf := be_bytes 4 h.

Lemma habuf_byte t : 0 <= t < 4 -> rd habuf (3 - t) = Done ((h / 2 ^ (8 * t)) mod 256).
Proof.
  intros Ht. assert (t = 0 \/ t = 1 \/ t = 2 \/ t = 3) as [->|[->|[->| ->]]] by lia;
    unfold habuf; reflexivity.
Qed.

Lemma high_host_bits_spec k :
  (k <= 4)%nat ->
  high_host_bits k habuf = Done (negb (h / 2 ^ (8 * (4 - Z.of_nat k)) =? 0)).
Proof.
  induction k as [|k IH]; intros Hk; cbn [high_host_bits].
  - rewrite Z.div_small; [done|]. exact Hh.
  - replace (Z.of_nat k) with (3 - (3 - Z.of_nat k)) by lia. rewrite habuf_byte by lia. dred.
    rewrite IH by lia. replace (4 - Z.of_nat (S k)) with (3 - Z.of_nat k) by lia.
    set (q := h / 2 ^ (8 * (3 - Z.of_nat k))).
    assert (E : h / 2 ^ (8 * (4 - Z.of_nat k)) = q / 256).
    { unfold q. rewrite Z.div_div by (try apply Z.pow_nonzero; lia).
      f_equal. change 256 with (2 ^ 8). rewrite <- Z.pow_add_r by lia. f_equal. lia. }
    assert (0 <= q) by (apply Z.div_pos; [lia|apply pow2_pos; lia]).
    rewrite E. pose proof (Z.div_mod q 256 ltac:(lia)).
    pose proof (Z.mod_pos_bound q 256 ltac:(lia)).
    destruct (Z.eqb_spec (q mod 256) 0); cbn [negb]; [f_equal; f_equal|f_equal; symmetry; apply negb_true_iff].
    + destruct (Z.eqb_spec (q / 256) 0), (Z.eqb_spec q 0); (done || lia).
    + apply Z.eqb_neq. lia.
Qed.

(** What the combination of [subnet] and the host number has to be. *)
Definition ip_addr_result (r : iaddr) : Prop :=
  if h <? 2 ^ n then wf_iaddr r /\ ia_len r = ia_len subnet /\ addr_val r = addr_val subnet + h
  else ia_len r = 0.

(** In [rv] the low [t] bytes have been replaced: byte [t] is still that of
    the subnet number. *)
Lemma subnet_byte t :
  0 <= t -> 8 * t <= n ->
  ((addr_val subnet + h mod 2 ^ (8 * t)) / 2 ^ (8 * t)) mod 2 ^ Z.min 8 (n - 8 * t) = 0.
Proof.
  intros Ht Hn. pose proof (pow2_pos (8 * t) ltac:(lia)). pose proof (pow2_pos (n - 8 * t) ltac:(lia)).
  destruct (Zmod_divides (addr_val subnet) (2 ^ n)) as [D _]; [apply Z.pow_nonzero; lia|].
  destruct (D Sub) as [c Hc]. rewrite Hc.
  replace n with ((n - 8 * t) + 8 * t) at 1 by lia. rewrite Z.pow_add_r by lia.
  replace (2 ^ (n - 8 * t) * 2 ^ (8 * t) * c) with ((2 ^ (n - 8 * t) * c) * 2 ^ (8 * t)) by ring.
  rewrite Z.div_add_l, (Z.div_small (h mod _)), Z.add_0_r by (try apply Z.mod_pos_bound; lia).
  replace (n - 8 * t) with (Z.min 8 (n - 8 * t) + (n - 8 * t - Z.min 8 (n - 8 * t))) at 1 by lia.
  rewrite Z.pow_add_r by lia. rewrite <- Z.mul_assoc, Z.mul_comm. apply Z_mod_mult.
Qed.

Lemma host_split t : 0 <= t ->
  h mod 2 ^ (8 * (t + 1)) = h mod 2 ^ (8 * t) + (h / 2 ^ (8 * t)) mod 256 * 2 ^ (8 * t).
Proof.
  intros Ht. pose proof (pow2_pos (8 * t) ltac:(lia)).
  replace (8 * (t + 1)) with (8 * t + 8) by lia. rewrite Z.pow_add_r, Z.rem_mul_r by lia.
  change (2 ^ 8) with 256. ring.
Qed.

(** The byte with the boundary between subnet and host: the host number fits
    when its bits in this byte do and there are none above. *)
Lemma boundary_fits t d : 0 <= t -> 0 <= d < 8 -> n = 8 * t + d ->
  (h <? 2 ^ n) = ((h / 2 ^ (8 * t)) mod 256 <=? 2 ^ d - 1) && (h / 2 ^ (8 * (t + 1)) =? 0).
Proof.
  intros Ht Hd En. pose proof (pow2_pos d ltac:(lia)) as Pd. pose proof (pow2_pos (8 * t) ltac:(lia)) as Pt.
  pose proof (host_split t Ht) as Hs. pose proof (Z.mod_pos_bound h (2 ^ (8 * t)) Pt) as Bl.
  pose proof (Z.mod_pos_bound (h / 2 ^ (8 * t)) 256 ltac:(lia)) as Bh. set (hb := (h / 2 ^ (8 * t)) mod 256) in *.
  assert (E1 : 2 ^ (8 * (t + 1)) = 256 * 2 ^ (8 * t)).
  { change 256 with (2 ^ 8). rewrite <- Z.pow_add_r by lia. f_equal. lia. }
  assert (E2 : 2 ^ n = 2 ^ d * 2 ^ (8 * t)) by (rewrite <- Z.pow_add_r by lia; f_equal; lia).
  assert (2 ^ d < 256) by (change 256 with (2 ^ 8); apply Z.pow_lt_mono_r; lia).
  pose proof (Z.div_mod h (2 ^ (8 * (t + 1))) ltac:(apply Z.pow_nonzero; lia)) as Hdm.
  assert (0 <= h / 2 ^ (8 * (t + 1))) by (apply Z.div_pos; [lia|apply pow2_pos; lia]). set (hq := h / 2 ^ (8 * (t + 1))) in *.
  destruct (Z.leb_spec hb (2 ^ d - 1)), (Z.eqb_spec hq 0); cbn [andb]; [apply Z.ltb_lt|apply Z.ltb_ge..]; nia.
Qed.

Lemma ip_addr_loop_spec k : forall rv t,
  t = 4 - Z.of_nat k -> 0 <= t -> 8 * t <= n ->
  wf_iaddr rv -> ia_len rv = ia_len subnet ->
  addr_val rv = addr_val subnet + h mod 2 ^ (8 * t) ->
  exists r, ip_addr_loop k habuf (iabuf mask) (ia_len subnet - 4) rv = Done r /\ ip_addr_result r.
Proof.
  induction k as [|k IH]; intros rv t Et Ht Hn Wr Lr Vr.
  - exists rv. split; [done|]. replace t with 4 in * by lia. unfold ip_addr_result.
    assert (2 ^ 32 <= 2 ^ n) by (apply Z.pow_le_mono_r; lia).
    rewrite (proj2 (Z.ltb_lt h (2 ^ n))) by lia. split_and!; auto.
    rewrite Vr. change (2 ^ (8 * 4)) with (2 ^ 32). rewrite Z.mod_small; lia.
  - cbn [ip_addr_loop].
    replace (Z.of_nat k + (ia_len subnet - 4)) with (ia_len mask - 1 - t) by lia.
    rewrite (netmask_byte mask n t) by (done || lia). dred.
    replace (Z.of_nat k) with (3 - t) by lia. rewrite habuf_byte by lia. dred.
    set (hb := (h / 2 ^ (8 * t)) mod 256).
    assert (Hhb : byte hb) by (apply Z.mod_pos_bound; lia).
    pose proof (subnet_byte t Ht Hn) as Hsb. rewrite <- Vr in Hsb.
    rewrite (Z.max_r 0 (Z.min 8 (n - 8 * t))) by lia.
    set (d := Z.min 8 (n - 8 * t)) in *. assert (Hd : 0 <= d <= 8) by lia.
    pose proof (pow2_pos d ltac:(lia)) as Pd. pose proof (pow2_pos (8 * t) ltac:(lia)) as Pt.
    assert (Ho : 0 <= ia_len mask - 1 - t < ia_len rv) by lia.
    pose proof (rd_addr rv (ia_len mask - 1 - t) Wr Ho) as Rd.
    replace (ia_len rv - 1 - (ia_len mask - 1 - t)) with t in Rd by lia.
    set (old := (addr_val rv / 2 ^ (8 * t)) mod 256) in Rd.
    assert (Hold : byte old) by (apply Z.mod_pos_bound; lia).
    assert (Hod : old mod 2 ^ d = 0).
    { unfold old. change 256 with (2 ^ 8). rewrite Z.mod_mod_divide; [done|].
      replace 8 with (d + (8 - d)) by lia. rewrite Z.pow_add_r by lia. apply Z.divide_factor_l. }
    pose proof (host_split t Ht) as Hs. fold hb in Hs.
    pose proof (Z.mod_pos_bound h (2 ^ (8 * t)) Pt) as Bl.
    destruct (Z_lt_le_dec (n - 8 * t) 8) as [Lt|Ge].
    + (* the byte that holds the boundary *)
      assert (d < 8) by lia. assert (2 ^ d < 256) by (change 256 with (2 ^ 8); apply Z.pow_lt_mono_r; lia).
      rewrite (proj2 (Z.eqb_neq _ 0)) by lia. cbn [negb]. rewrite lxor_255 by lia.
      rewrite high_host_bits_spec by lia. replace (4 - Z.of_nat k) with (t + 1) by lia.
      pose proof (boundary_fits t d Ht ltac:(lia) ltac:(lia)) as Hfit. fold hb in Hfit. unfold ip_addr_result. rewrite Hfit.
      destruct (Z.ltb_spec (2 ^ d - 1) hb) as [Lh|Lh]; [rewrite (proj2 (Z.leb_gt hb _)) by lia; by eexists|].
      rewrite (proj2 (Z.leb_le hb _)) by lia. dred. destruct (Z.eqb_spec (h / 2 ^ (8 * (t + 1))) 0) as [Eq|Nq]; cbn [negb andb]; [|by eexists].
      rewrite Rd. dred. assert (Eor : Z.lor old hb = old + hb) by (apply (lor_disjoint d); unfold byte in *; lia).
      destruct (wr_addr rv (ia_len mask - 1 - t) old (Z.lor old hb)) as (buf & -> & W & V); auto with dhcp.
      dred. eexists; split; [done|]. split_and!; auto.
      rewrite V, Vr, Eor. replace (ia_len rv - 1 - (ia_len mask - 1 - t)) with t by lia.
      pose proof (Z.div_mod h (2 ^ (8 * (t + 1))) ltac:(apply Z.pow_nonzero; lia)). rewrite Eq in *. lia.
    + (* a whole host byte *)
      assert (d = 8) as Ed by lia. rewrite Ed. change (256 - 2 ^ 8) with 0. cbn [Z.eqb negb].
      destruct (wr_addr rv (ia_len mask - 1 - t) old hb) as (buf & -> & W & V); auto. dred.
      apply (IH _ (t + 1)); [lia|lia|lia|exact W|simpl; lia|].
      rewrite Hs, V, Vr. replace (ia_len rv - 1 - (ia_len mask - 1 - t)) with t by lia.
      assert (old = 0) as ->; [|lia]. rewrite Ed in Hod. unfold byte in Hold.
      change (2 ^ 8) with 256 in Hod. rewrite Z.mod_small in Hod; lia.
Qed.

Lemma ip_addr_val : exists r, ip_addr subnet mask h = Done r /\ ip_addr_result r.
Proof.
  unfold ip_addr. rewrite guards by done. unfold htonl. rewrite hton_store.
  unfold u32. rewrite Z.mod_small by done.
  apply (ip_addr_loop_spec 4 subnet 0); auto; [lia|destruct Net; lia|].
  change (2 ^ (8 * 0)) with 1. rewrite Z.mod_1_r. lia.
Qed.
End ip_addr.

(** ** Masking *)
Lemma land_netmask x w n :
  0 <= n <= w -> 0 <= x < 2 ^ w -> Z.land x (2 ^ w - 2 ^ n) = x - x mod 2 ^ n.
Proof.
  intros Hn Hx. pose proof (pow2_pos n ltac:(lia)).
  assert (2 ^ w - 2 ^ n = Z.ones (w - n) * 2 ^ n + 0) as ->.
  { rewrite Z.ones_equiv. assert (2 ^ w = 2 ^ (w - n) * 2 ^ n); [|lia].
    rewrite <- Z.pow_add_r by lia. f_equal. lia. }
  assert (x - x mod 2 ^ n = x / 2 ^ n * 2 ^ n + 0) as -> by (pose proof (Z.div_mod x (2 ^ n)); lia).
  assert (Hx' : x = x / 2 ^ n * 2 ^ n + x mod 2 ^ n) by (pose proof (Z.div_mod x (2 ^ n)); lia).
  rewrite Hx' at 1. rewrite (bitop_concat Z.land andb); auto using Z.land_spec, land_range; try lia.
  - rewrite Z.land_ones, Z.land_0_r by lia. f_equal. f_equal. apply Z.mod_small.
    split; [apply Z.div_pos; lia|]. apply Z.div_lt_upper_bound; [lia|].
    rewrite <- Z.pow_add_r by lia. replace (n + (w - n)) with w by lia. lia.
  - apply Z.mod_pos_bound. lia.
Qed.

Lemma land_hostmask x n : 0 <= n -> Z.land x (2 ^ n - 1) = x mod 2 ^ n.
Proof. intros Hn. rewrite <- Z.land_ones by done. by rewrite Z.ones_equiv. Qed.

(** Combining a network number (with a contiguous mask that leaves [n]
    host bits) and a host number gives the [h]-th address of the network when
    [h < 2^n] and the empty address otherwise; from that address
    [subnet_number] and [host_addr] recover the network and the host, and it
    lies between the network number and the broadcast address. *)
Lemma ip_addr_roundtrip `{HostOrder} junk subnet mask n h :
  bytes junk -> zlen junk = iabuf_size -> wf_iaddr subnet -> wf_iaddr mask ->
  ia_len subnet = ia_len mask -> 4 <= ia_len subnet -> is_netmask mask n ->
  addr_val subnet mod 2 ^ n = 0 -> 0 <= h < 2 ^ 32 ->
  exists r, ip_addr subnet mask h = Done r /\
    if h <? 2 ^ n then
      addr_val r = addr_val subnet + h /\ host_addr junk r mask = Done h /\
      (exists s, subnet_number junk r mask = Done s /\ addr_val s = addr_val subnet) /\
      (exists b, broadcast_addr junk subnet mask = Done b /\
                 addr_val subnet <= addr_val r <= addr_val b)
    else ia_len r = 0.
Proof.
  intros Bj Lj Ws Wm Len Len4 Net Sub Hh.
  destruct (ip_addr_val subnet mask n h) as (r & E & R); auto. exists r; split; [done|].
  unfold ip_addr_result in R. destruct (Z.ltb_spec h (2 ^ n)) as [Lt|]; [|done].
  destruct R as (Wr & Lr & Vr). pose proof (addr_val_bound r Wr) as Br.
  pose proof (addr_val_bound subnet Ws) as Bs. destruct Net as [Hn Vm].
  assert (Ew : addr_width r = addr_width mask) by (unfold addr_width; lia).
  assert (Es : addr_width subnet = addr_width mask) by (unfold addr_width; lia).
  assert (Em : addr_val r mod 2 ^ n = h).
  { rewrite Vr, <- Zplus_mod_idemp_l, Sub. apply Z.mod_small. lia. }
  assert (Ec : 2 ^ addr_width mask - 1 - addr_val mask = 2 ^ n - 1) by lia.
  split_and!; [done| | |].
  - rewrite host_addr_val by (auto; lia). f_equal.
    rewrite Ew, Ec, land_hostmask, Em by lia. by apply Z.mod_small.
  - destruct (subnet_number_val junk Bj Lj r mask Wr Wm ltac:(lia)) as (s & Es' & _ & _ & Vs).
    exists s. split; [done|]. rewrite Vs, Vm. rewrite Ew in Br. rewrite land_netmask by lia. lia.
  - destruct (broadcast_addr_val junk Bj Lj subnet mask Ws Wm Len) as (b & Eb & _ & _ & Vb).
    exists b. split; [done|]. rewrite Vb, Es, Ec.
    rewrite (lor_disjoint n); auto; lia.
Qed.

(** On addresses of the same length [addr_cmp] is the order of the
    addresses as numbers, [addr_eq] is equality, and [addr_match] is
    membership in the masked network. *)
Lemma addr_comparisons a b m :
  wf_iaddr a -> wf_iaddr b -> wf_iaddr m -> ia_len a = ia_len b -> ia_len a = ia_len m ->
  addr_cmp a b = Done (cmp_sign (addr_val a ?= addr_val b)) /\
  addr_eq a b = Done (addr_val a =? addr_val b) /\
  addr_match a (mk_iaddrmatch b m) = Done (Z.land (addr_val a) (addr_val m) =? addr_val b).
Proof.
  intros Wa Wb Wm Lb Lm. rewrite addr_cmp_val, addr_eq_val, addr_match_val by done. simpl.
  split_and!; try done; f_equal.
  - destruct (Z.eqb_spec (addr_val a) (addr_val b));
      [by apply bool_decide_eq_true|apply bool_decide_eq_false; tauto].
  - destruct (Z.eqb_spec (Z.land (addr_val a) (addr_val m)) (addr_val b));
      [by apply bool_decide_eq_true|apply bool_decide_eq_false; tauto].
Qed.

(** ** CIDR prefixes *)
Lemma mod_pow2_step x k d :
  0 <= k -> 0 <= d -> x mod 2 ^ (k + d) = (x / 2 ^ k) mod 2 ^ d * 2 ^ k + x mod 2 ^ k.
Proof.
  intros Hk Hd. pose proof (pow2_pos k Hk). pose proof (pow2_pos d Hd).
  rewrite Z.pow_add_r, Z.rem_mul_r by lia. ring.
Qed.

Lemma mod_pow2_zero_mono x k l : 0 <= k <= l -> x mod 2 ^ l = 0 -> x mod 2 ^ k = 0.
Proof.
  intros Hk E. replace l with (k + (l - k)) in E by lia. rewrite mod_pow2_step in E by lia.
  pose proof (Z.mod_pos_bound x (2 ^ k) (pow2_pos k ltac:(lia))).
  pose proof (Z.mod_pos_bound (x / 2 ^ k) (2 ^ (l - k)) (pow2_pos (l - k) ltac:(lia))).
  pose proof (pow2_pos k ltac:(lia)). nia.
Qed.

Lemma shift_back x s : 0 <= s -> Z.shiftl (Z.shiftr x s) s = x - x mod 2 ^ s.
Proof.
  intros Hs. rewrite Z.shiftl_mul_pow2, Z.shiftr_div_pow2 by done.
  pose proof (Z.div_mod x (2 ^ s) ltac:(by apply Z.pow_nonzero)). lia.
Qed.

Lemma s8_mod b s : byte b -> 0 <= s <= 8 -> s8 b mod 2 ^ s = b mod 2 ^ s.
Proof.
  intros Hb Hs. assert (E : s8 b mod 2 ^ 8 = b mod 2 ^ 8) by (by apply sint_mod).
  assert (D : (2 ^ s | 2 ^ 8)).
  { replace 8 with (s + (8 - s)) by lia. rewrite Z.pow_add_r by lia. apply Z.divide_factor_l. }
  by rewrite <- (Z.mod_mod_divide _ _ _ D), E, (Z.mod_mod_divide _ _ _ D).
Qed.

(** [is_cidr_mask_valid] accepts a prefix length exactly when it is
    between 0 and the width of the address and every bit after the prefix is
    zero. *)
Lemma is_cidr_mask_valid_iff a bits :
  wf_iaddr a ->
  is_cidr_mask_valid a bits =
    Done (bool_decide (0 <= bits <= addr_width a /\ addr_val a mod 2 ^ (addr_width a - bits) = 0)).
Proof.
  intros Wa. unfold is_cidr_mask_valid, addr_width. pose proof Wa as (Ra & _).
  destruct (Z.ltb_spec bits 0); [f_equal; symmetry; apply bool_decide_eq_false; lia|].
  destruct (Z.ltb_spec (ia_len a * 8) bits); [f_equal; symmetry; apply bool_decide_eq_false; lia|].
  replace (8 * ia_len a - bits) with (ia_len a * 8 - bits) by lia.
  set (zb := ia_len a * 8 - bits). pose proof (Z.div_mod zb 8 ltac:(lia)) as Hzb.
  pose proof (Z.mod_pos_bound zb 8 ltac:(lia)) as Hs.
  assert (0 <= zb / 8) by (apply Z.div_pos; lia).
  match goal with |- context [for_loop ?n ?i ?body ?s] =>
    destruct (for_loop_inv (fun j _ => 1 <= j <= zb / 8 + 1 /\ addr_val a mod 2 ^ (8 * (j - 1)) = 0)
      (fun r => r = false /\ addr_val a mod 2 ^ zb <> 0) body n i s)
      as [([] & -> & [_ HI])|(r & -> & -> & HN)]; dred
  end.
  - split; [lia|]. apply Z.mod_1_r.
  - intros j [] Hj [Hr HI]. rewrite rd_addr by (done || lia). dred.
    replace (ia_len a - 1 - (ia_len a - j)) with (j - 1) by lia.
    pose proof (mod_pow2_step (addr_val a) (8 * (j - 1)) 8 ltac:(lia) ltac:(lia)) as E.
    replace (8 * (j - 1) + 8) with (8 * j) in E by lia. rewrite HI, Z.add_0_r in E. change (2 ^ 8) with 256 in E.
    destruct (Z.eqb_spec ((addr_val a / 2 ^ (8 * (j - 1))) mod 256) 0) as [Z0|NZ]; cbn [negb].
    + left. exists tt. split; [done|]. split; [lia|]. replace (8 * (j + 1 - 1)) with (8 * j) by lia.
      rewrite E, Z0. done.
    + right. eexists; split; [done|]. split; [done|]. intros HZ.
      apply (mod_pow2_zero_mono _ (8 * j)) in HZ; [|lia]. rewrite E in HZ.
      apply Z.mul_eq_0 in HZ as [HZ|HZ]; [done|]. by apply Z.pow_nonzero in HZ; lia.
  - replace (8 * (1 + Z.of_nat (Z.to_nat (zb / 8)) - 1)) with (8 * (zb / 8)) in HI by lia.
    destruct (Z.eqb_spec (zb mod 8) 0) as [Z0|NZ].
    + f_equal. symmetry. apply bool_decide_eq_true. split; [lia|].
      by replace zb with (8 * (zb / 8)) by lia.
    + rewrite rd_addr by (done || lia). dred. f_equal.
      replace (ia_len a - 1 - (ia_len a - zb / 8 - 1)) with (zb / 8) by lia.
      set (b := (addr_val a / 2 ^ (8 * (zb / 8))) mod 256).
      assert (Hb : byte b) by (apply Z.mod_pos_bound; lia).
      rewrite shift_back by lia. rewrite s8_mod by (done || lia).
      assert (E : addr_val a mod 2 ^ zb = b mod 2 ^ (zb mod 8) * 2 ^ (8 * (zb / 8))).
      { rewrite Hzb at 1. rewrite mod_pow2_step, HI, Z.add_0_r by lia. f_equal. unfold b.
        change 256 with (2 ^ 8). rewrite Z.mod_mod_divide; [done|].
        replace 8 with (zb mod 8 + (8 - zb mod 8)) at 2 by lia. rewrite Z.pow_add_r by lia.
        apply Z.divide_factor_l. }
      pose proof (Z.pow_nonzero 2 (8 * (zb / 8)) ltac:(lia) ltac:(lia)).
      destruct (Z.eqb_spec (s8 b - b mod 2 ^ (zb mod 8)) (s8 b));
        symmetry; [apply bool_decide_eq_true|apply bool_decide_eq_false]; rewrite E; nia.
  - f_equal. symmetry. apply bool_decide_eq_false. tauto.
Qed.

(** ** Correctness of [range2cidr] *)
Definition in_net (w : Z) (n : iaddrcidrnet) (x : Z) : Prop :=
  addr_val (lo_addr n) <= x < addr_val (lo_addr n) + 2 ^ (w - cidr_bits n).

(** A prefix of the right length and alignment that cannot be shortened by
    one bit without losing alignment or going past [hi]. *)
Definition good_net (len hi : Z) (n : iaddrcidrnet) : Prop :=
  let w := 8 * len in
  wf_iaddr (lo_addr n) /\ ia_len (lo_addr n) = len /\ 0 <= cidr_bits n <= w /\
  addr_val (lo_addr n) mod 2 ^ (w - cidr_bits n) = 0 /\
  (cidr_bits n = 0 \/ addr_val (lo_addr n) mod 2 ^ (w - cidr_bits n + 1) <> 0 \/
   hi < addr_val (lo_addr n) + 2 ^ (w - cidr_bits n + 1) - 1).

(** [nets] (last network first) tiles the addresses from [lo] to [next - 1]
    without gap or overlap. *)
Fixpoint tiles (len lo hi : Z) (nets : list iaddrcidrnet) (next : Z) : Prop :=
  match nets with
  | [] => next = lo
  | n :: ns =>
      next = addr_val (lo_addr n) + 2 ^ (8 * len - cidr_bits n) /\ good_net len hi n /\
      tiles len lo hi ns (addr_val (lo_addr n))
  end.

Lemma tiles_le len lo hi nets : forall next, tiles len lo hi nets next -> lo <= next.
Proof.
  induction nets as [|n ns IH]; simpl; intros next; [lia|].
  intros (-> & (_ & _ & Hb & _) & Ht). specialize (IH _ Ht).
  pose proof (pow2_pos (8 * len - cidr_bits n) ltac:(lia)). lia.
Qed.

Lemma tiles_cover len lo hi nets : forall next,
  tiles len lo hi nets next ->
  forall x, Exists (fun n => in_net (8 * len) n x) nets <-> lo <= x < next.
Proof.
  induction nets as [|n ns IH]; simpl; intros next.
  - intros ->. intros x. rewrite Exists_nil. lia.
  - intros (-> & Hg & Ht) x. rewrite Exists_cons, (IH _ Ht). unfold in_net.
    pose proof (tiles_le _ _ _ _ _ Ht). lia.
Qed.

Section range2cidr_correct.
Context `{HostOrder}.
Context (junk : iaddr) (alloc : nat -> bool).
Hypothesis Lj : zlen (iabuf junk) = iabuf_size.
Hypothesis Bj : bytes (iabuf junk).
Context (len : Z).
Hypothesis Hlen : 0 <= len <= iabuf_size.

Let w := 8 * len.

Lemma rd_iabuf_Done a o : wf_iaddr a -> ia_len a = len -> -1 <= o < len ->
  exists b, rd_iabuf a o = Done b /\
    (0 <= o -> b = (addr_val a / 2 ^ (8 * (len - 1 - o))) mod 256).
Proof.
  intros Wa La Ho. unfold rd_iabuf. destruct (Z.eqb_spec o (-1)) as [->|].
  - destruct (rd_in (mem_store 4 (ia_len a)) 3) as (x & E & _).
    + unfold zlen. rewrite length_mem_store. lia.
    + exists x. split; [done|lia].
  - eexists; split; [apply rd_addr; [done|lia]|]. by rewrite La.
Qed.

(** The carry loop computes an addition on the whole address. *)
Definition carry_inv (target : Z) (s : iaddr * Z * Z) : Prop :=
  let '(a, o, t) := s in
  wf_iaddr a /\ ia_len a = len /\ -1 <= o < len /\
  (0 <= o -> 0 <= t <= 511 /\
     target = addr_val a + (t - (addr_val a / 2 ^ (8 * (len - 1 - o))) mod 256) * 2 ^ (8 * (len - 1 - o))) /\
  (o = -1 -> 2 ^ w <= target).

Lemma carry_spec target a o t :
  carry_inv target (a, o, t) ->
  exists r, while_loop 5 carry_step (a, o, t) = Done r /\
    let '(a', o', t') := r in carry_inv target (a', o', t') /\ (o' < 0 \/ t' <= 255).
Proof.
  intros HI. apply while_total with (I := carry_inv target) (m := fun s => s.1.2 + 1); [|done|].
  - clear a o t HI. intros [[a o] t] (Wa & La & Ho & Ht & Hm). unfold step_ok, carry_step.
    destruct ((0 <=? o) && (255 <? t)) eqn:C; zbool.
    + left. destruct (Ht ltac:(lia)) as [Hr Htg]. set (k := len - 1 - o) in *.
      pose proof (rd_addr a o Wa ltac:(lia)) as Rd. rewrite La in Rd. fold k in Rd.
      set (old := (addr_val a / 2 ^ (8 * k)) mod 256) in *.
      destruct (wr_addr a o old (t - 256) Wa ltac:(lia) Rd) as (buf & -> & W & V); [unfold byte; lia|].
      dred. rewrite La in *. fold k in V. set (a' := mk_iaddr len buf) in *.
      destruct (rd_iabuf_Done a' (o - 1) W eq_refl ltac:(lia)) as (b & -> & Hb). dred.
      eexists; split; [done|]. split; [|simpl; lia].
      assert (Ek : 2 ^ (8 * (k + 1)) = 256 * 2 ^ (8 * k)).
      { change 256 with (2 ^ 8). rewrite <- Z.pow_add_r by lia. f_equal. lia. }
      assert (Etg : target = addr_val a' + 2 ^ (8 * (k + 1))) by lia.
      split_and!; [done|done|lia|lia| |].
      * intros Hp. specialize (Hb Hp). replace (len - 1 - (o - 1)) with (k + 1) in * by lia.
        pose proof (Z.mod_pos_bound (addr_val a' / 2 ^ (8 * (k + 1))) 256 ltac:(lia)).
        subst b. split; [lia|]. rewrite Etg. ring.
      * intros Eo. pose proof (addr_val_bound a' W). rewrite Etg.
        replace (k + 1) with len by (unfold k; lia). unfold w. lia.
    + right. eexists; split; [done|]. split; [|lia]. by unfold carry_inv.
  - destruct HI as (_ & _ & Ho & _). unfold iabuf_size in *. simpl. lia.
Qed.

(** [1 << bit] added to an address. *)
Lemma add_bit a bit :
  wf_iaddr a -> ia_len a = len -> 0 <= bit <= w ->
  let ofs := len - bit / 8 - 1 in
  exists b r, rd_iabuf a ofs = Done b /\
    while_loop 5 carry_step (a, ofs, b + Z.shiftl 1 (bit mod 8)) = Done r /\
    let '(a', o', t') := r in
    (o' < 0 /\ 2 ^ w <= addr_val a + 2 ^ bit) \/
    (0 <= o' /\ exists buf, wr (iabuf a') o' (u8 t') = Done buf /\ ia_len a' = len /\
       wf_iaddr (mk_iaddr len buf) /\ addr_val (mk_iaddr len buf) = addr_val a + 2 ^ bit).
Proof.
  intros Wa La Hbit ofs. pose proof (Z.div_mod bit 8 ltac:(lia)) as Hd.
  pose proof (Z.mod_pos_bound bit 8 ltac:(lia)) as Hm.
  assert (0 <= bit / 8) by (apply Z.div_pos; lia).
  destruct (rd_iabuf_Done a ofs Wa La ltac:(unfold ofs, w in *; lia)) as (b & Eb & Vb).
  exists b. rewrite Z.shiftl_1_l. set (v := 2 ^ (bit mod 8)).
  assert (Hv : 1 <= v <= 128).
  { unfold v. split; [pose proof (pow2_pos (bit mod 8) ltac:(lia)); lia|].
    change 128 with (2 ^ 7). apply Z.pow_le_mono_r; lia. }
  assert (Ev : v * 2 ^ (8 * (bit / 8)) = 2 ^ bit).
  { unfold v. rewrite <- Z.pow_add_r by lia. f_equal. lia. }
  destruct (carry_spec (addr_val a + 2 ^ bit) a ofs (b + v)) as ([[a' o'] t'] & E & HI & Hx).
  { split_and!; auto; try (unfold ofs, w in *; lia).
    - intros Ho. rewrite (Vb Ho) in *. replace (len - 1 - ofs) with (bit / 8) in * by (unfold ofs; lia).
      pose proof (Z.mod_pos_bound (addr_val a / 2 ^ (8 * (bit / 8))) 256 ltac:(lia)).
      split; [lia|]. rewrite <- Ev. ring.
    - intros Ho. assert (bit = w) as -> by (unfold ofs, w in *; lia).
      pose proof (addr_val_bound a Wa). lia. }
  eexists; split_and!; [done|exact E|]. simpl. destruct HI as (Wa' & La' & Ho' & Ht' & Hn').
  destruct (Z_lt_le_dec o' 0); [left; split; [done|apply Hn'; lia]|right].
  destruct (Ht' ltac:(done)) as [Hr Htg]. split; [done|].
  pose proof (rd_addr a' o' Wa' ltac:(lia)) as Rd. rewrite La' in Rd.
  destruct (wr_addr a' o' _ (u8 t') Wa' ltac:(lia) Rd ltac:(auto with dhcp)) as (buf & Ew & W & V).
  rewrite La' in *. exists buf. split_and!; auto. rewrite V, Htg.
  rewrite u8_byte by (unfold byte; lia). ring.
Qed.

(** One more bit of the mask. *)
Lemma grow_mask m bit :
  wf_iaddr m -> ia_len m = len -> 0 <= bit < w -> addr_val m = 2 ^ bit - 1 ->
  let ofs := len - bit / 8 - 1 in
  0 <= ofs /\
  exists b buf, rd (iabuf m) ofs = Done b /\
    wr (iabuf m) ofs (u8 (Z.lor b (Z.shiftl 1 (bit mod 8)))) = Done buf /\
    wf_iaddr (mk_iaddr len buf) /\ addr_val (mk_iaddr len buf) = 2 ^ (bit + 1) - 1.
Proof.
  intros Wm Lm Hbit Vm ofs. pose proof (Z.div_mod bit 8 ltac:(lia)) as Hd.
  pose proof (Z.mod_pos_bound bit 8 ltac:(lia)) as Hm.
  assert (0 <= bit / 8) by (apply Z.div_pos; lia).
  assert (Ho : 0 <= ofs < len) by (unfold ofs, w in *; lia). split; [lia|].
  pose proof (rd_addr m ofs Wm ltac:(lia)) as Rd. rewrite Lm, Vm in Rd.
  replace (len - 1 - ofs) with (bit / 8) in Rd by (unfold ofs; lia).
  set (r := bit mod 8) in *. set (q := bit / 8) in *.
  pose proof (pow2_pos r ltac:(lia)) as Pr. pose proof (pow2_pos (8 * q) ltac:(lia)) as Pq.
  assert (Pr' : 2 ^ r <= 128) by (change 128 with (2 ^ 7); apply Z.pow_le_mono_r; lia).
  assert (Eb : 2 ^ bit = 2 ^ r * 2 ^ (8 * q)) by (rewrite <- Z.pow_add_r by lia; f_equal; lia).
  assert (E : ((2 ^ bit - 1) / 2 ^ (8 * q)) mod 256 = 2 ^ r - 1).
  { replace (2 ^ bit - 1) with ((2 ^ r - 1) * 2 ^ (8 * q) + (2 ^ (8 * q) - 1)) by lia.
    rewrite Z.div_add_l, (Z.div_small (2 ^ (8 * q) - 1)), Z.add_0_r by lia. apply Z.mod_small. lia. }
  rewrite E in Rd.
  assert (Eor : u8 (Z.lor (2 ^ r - 1) (2 ^ r)) = 2 ^ r - 1 + 2 ^ r).
  { rewrite Z.lor_comm, (lor_disjoint r) by (try rewrite Z_mod_same_full; lia).
    rewrite u8_byte by (unfold byte; lia). lia. }
  rewrite Z.shiftl_1_l.
  destruct (wr_addr m ofs _ (u8 (Z.lor (2 ^ r - 1) (2 ^ r))) Wm ltac:(lia) Rd ltac:(auto with dhcp)) as (buf & Ew & W & V).
  rewrite Lm in *. exists (2 ^ r - 1), buf. split_and!; auto. rewrite V, Vm, Eor.
  replace (len - 1 - ofs) with q by (unfold ofs; lia). rewrite Z.pow_add_r by lia. lia.
Qed.

Lemma wf_zero : wf_iaddr (mk_iaddr len zero_iabuf) /\ addr_val (mk_iaddr len zero_iabuf) = 0.
Proof.
  assert (B : bytes zero_iabuf) by (repeat constructor; unfold byte; lia).
  assert (W : wf_iaddr (mk_iaddr len zero_iabuf)) by (split_and!; simpl; auto; lia).
  split; [done|]. apply be_val_zero; [by apply wf_addr_bytes|]. apply Forall_take.
  repeat constructor.
Qed.

Section loop.
Context (lo : Z) (hi : iaddr).
Hypothesis Wh : wf_iaddr hi.
Hypothesis Lh : ia_len hi = len.

Definition range_inv (s : cidr_state) : Prop :=
  wf_iaddr (cs_addr s) /\ ia_len (cs_addr s) = len /\
  wf_iaddr (cs_mask s) /\ ia_len (cs_mask s) = len /\
  0 <= cs_bit s <= w /\ addr_val (cs_mask s) = 2 ^ cs_bit s - 1 /\
  addr_val (cs_addr s) mod 2 ^ cs_bit s = 0 /\
  ((addr_val (cs_addr s) = addr_val hi + 1 /\ cs_bit s = 0) \/
   addr_val (cs_addr s) + 2 ^ cs_bit s - 1 <= addr_val hi) /\
  tiles len lo (addr_val hi) (cs_nets s) (addr_val (cs_addr s)).

Definition range_post (r : isc_result * list iaddrcidrnet) : Prop :=
  (r.1 = ISC_R_SUCCESS /\ tiles len lo (addr_val hi) r.2 (addr_val hi + 1)) \/
  (r = (ISC_R_NOMEMORY, []) /\ exists k, alloc k = false).

Definition range_measure (s : cidr_state) : Z :=
  (addr_val hi + 1 - addr_val (cs_addr s)) * (w + 2) + (w + 1 - cs_bit s).

(** A network that is too big: the current one is recorded and the address
    moves past it. *)
Lemma range_push s mask :
  range_inv s -> addr_val (cs_addr s) <= addr_val hi ->
  ia_len mask = len ->
  (cs_bit s = w \/ addr_val (cs_addr s) mod 2 ^ (cs_bit s + 1) <> 0 \/
     addr_val hi < addr_val (cs_addr s) + 2 ^ (cs_bit s + 1) - 1) ->
  let x := record_net alloc s mask (ia_len (cs_addr s) - cs_bit s / 8 - 1) (Z.shiftl 1 (cs_bit s mod 8)) in
  (exists s', x = Done (inl s') /\ range_inv s' /\ 0 <= range_measure s' < range_measure s) \/
  (exists r, x = Done (inr r) /\ range_post r).
Proof.
  intros (Wa & La & _ & _ & Hbit & _ & Hal & Hx & Ht) Hle Lm Hmax. cbv zeta. unfold record_net.
  destruct (alloc _) eqn:Ea; cbn [negb]; [|right; eexists; split; [done|]; right; eauto].
  destruct (add_bit (cs_addr s) (cs_bit s) Wa La Hbit) as (b & [[a' o'] t'] & Eb & Er & Hr).
  rewrite La, Eb. dred. rewrite Er. dred.
  pose proof (pow2_pos (cs_bit s) ltac:(lia)) as Pb.
  assert (Hx' : addr_val (cs_addr s) + 2 ^ cs_bit s - 1 <= addr_val hi).
  { destruct Hx as [[E _]|?]; [lia|done]. }
  pose proof (addr_val_bound hi Wh) as Bh. unfold addr_width in Bh. rewrite Lh in Bh. fold w in Bh.
  assert (Hnets : forall next, next = addr_val (cs_addr s) + 2 ^ cs_bit s ->
    tiles len lo (addr_val hi) (mk_iaddrcidrnet (cs_addr s) (len * 8 - cs_bit s) :: cs_nets s) next).
  { intros next ->. simpl. replace (8 * len - (len * 8 - cs_bit s)) with (cs_bit s) by lia.
    split_and!; auto. unfold good_net. simpl.
    replace (8 * len - (len * 8 - cs_bit s)) with (cs_bit s) by lia. split_and!; auto.
    - unfold w in *. lia.
    - lia.
    - destruct Hmax as [->|?]; [left; unfold w; lia|by right]. }
  destruct Hr as [[Ho Hov]|(Ho & buf & Ew & La' & W & V)].
  - right. rewrite (proj2 (Z.ltb_lt _ _) Ho). eexists; split; [done|].
    left. split; [done|]. apply Hnets. lia.
  - left. rewrite (proj2 (Z.ltb_ge _ _) Ho), Ew. dred. eexists; split; [done|]. rewrite La', Lm.
    destruct wf_zero as [Wz Vz]. split.
    + unfold range_inv. cbn [cs_addr cs_bit cs_mask cs_nets ia_len]. rewrite Vz, V.
      split_and!; auto; try (unfold w; lia). apply Z.mod_1_r.
    + unfold range_measure. simpl. rewrite V. unfold w in *. nia.
Qed.

Lemma range_step s : range_inv s ->
  step_ok (range2cidr_step junk alloc hi) range_inv range_post range_measure s.
Proof.
  intros Hinv. pose proof Hinv as (Wa & La & Wm & Lm & Hbit & Vm & Hal & Hx & Ht).
  unfold step_ok, range2cidr_step. rewrite addr_cmp_val by (done || lia). dred.
  destruct (Z_lt_le_dec (addr_val hi) (addr_val (cs_addr s))) as [Hgt|Hle].
  { right. rewrite (proj2 (Z.compare_gt_iff _ _)) by lia. cbn.
    eexists; split; [done|]. left. split; [done|]. simpl.
    destruct Hx as [[<- _]|Hx]; [done|]. pose proof (pow2_pos (cs_bit s) ltac:(lia)). lia. }
  assert ((0 <? cmp_sign (addr_val (cs_addr s) ?= addr_val hi)) = false) as ->.
  { destruct (Z.compare_spec (addr_val (cs_addr s)) (addr_val hi)); (done || lia). }
  destruct (decide (cs_bit s = w)) as [Ew|Nw].
  - (* the whole address space *)
    assert (Ho : ia_len (cs_addr s) - cs_bit s / 8 - 1 < 0).
    { rewrite La, Ew. unfold w. rewrite Z.mul_comm, Z.div_mul by lia. lia. }
    rewrite (proj2 (Z.leb_gt _ _) Ho). dred.
    destruct (addr_or_val junk (cs_addr s) (cs_mask s) Lj Bj Wa Wm ltac:(lia)) as (e & -> & We & Le & _). dred.
    rewrite addr_cmp_val by (cbn [fst]; done || lia). dred.
    destruct (addr_and_val junk (cs_addr s) (cs_mask s) Lj Bj Wa Wm ltac:(lia)) as (d & -> & _). dred.
    rewrite (proj2 (Z.ltb_lt _ _) Ho). cbn [orb].
    apply range_push; auto.
  - (* one more bit *)
    destruct (grow_mask (cs_mask s) (cs_bit s) Wm Lm ltac:(lia) Vm) as (Ho & b & buf & Eb & Ewr & W' & V').
    rewrite La. rewrite (proj2 (Z.leb_le _ _) Ho), Eb. dred. rewrite Ewr, Lm. dred.
    set (mask' := mk_iaddr len buf) in *.
    destruct (addr_or_val junk (cs_addr s) mask' Lj Bj Wa W' La) as (e & -> & We & Le & Ve). dred.
    rewrite addr_cmp_val by (cbn [fst]; done || lia). dred.
    destruct (addr_and_val junk (cs_addr s) mask' Lj Bj Wa W' La) as (d & -> & _ & _ & Vd). dred.
    rewrite V' in Ve, Vd. rewrite land_hostmask in Vd by lia. cbn [fst snd]. rewrite Vd.
    rewrite (proj2 (Z.ltb_ge _ _) Ho). cbn [orb].
    pose proof (pow2_pos (cs_bit s + 1) ltac:(lia)) as Pb.
    destruct (Z.eqb_spec (addr_val (cs_addr s) mod 2 ^ (cs_bit s + 1)) 0) as [Al|Nal]; cbn [negb].
    2: { rewrite orb_true_r. replace (len - cs_bit s / 8 - 1) with (ia_len (cs_addr s) - cs_bit s / 8 - 1) by lia.
      apply range_push; auto. }
    rewrite orb_false_r. rewrite (lor_disjoint (cs_bit s + 1)) in Ve by (done || lia).
    destruct (Z.ltb_spec 0 (cmp_sign (addr_val e ?= addr_val hi))) as [Hc|Hc].
    + replace (len - cs_bit s / 8 - 1) with (ia_len (cs_addr s) - cs_bit s / 8 - 1) by lia.
      apply range_push; auto. right; right.
      revert Hc. destruct (Z.compare_spec (addr_val e) (addr_val hi)); simpl; lia.
    + left. eexists; split; [done|]. split; [|unfold range_measure; simpl; nia].
      unfold range_inv. cbn [cs_addr cs_bit cs_mask cs_nets]. split_and!; auto; try lia.
      right. revert Hc. destruct (Z.compare_spec (addr_val e) (addr_val hi)); simpl; lia.
Qed.

Lemma range_loop a :
  wf_iaddr a -> ia_len a = len -> addr_val a = lo -> lo <= addr_val hi ->
  exists r, while_loop 160 (range2cidr_step junk alloc hi)
              (mk_cidr a 0 (mk_iaddr (ia_len a) zero_iabuf) []) = Done r /\ range_post r.
Proof.
  intros Wa La Va Hle. apply while_total with (I := range_inv) (m := range_measure).
  - apply range_step.
  - unfold range_inv. simpl. rewrite La. destruct wf_zero as [Wz Vz].
    split_and!; auto; try (unfold w; lia). apply Z.mod_1_r.
  - unfold range_measure. simpl. pose proof (addr_val_bound hi Wh) as B.
    pose proof (addr_val_bound a Wa) as B'. unfold addr_width, iabuf_size, w in *. rewrite Lh in B.
    assert (2 ^ (8 * len) <= 2 ^ 128) by (apply Z.pow_le_mono_r; lia).
    change (2 ^ Z.of_nat 160) with (2 ^ 128 * 4294967296). nia.
Qed.
End loop.
End range2cidr_correct.

(** C18: [range2cidr] on two addresses of the same length (in either order)
    terminates and, unless an allocation fails, returns networks that are
    correctly aligned prefixes, tile the range between the two addresses
    without gap or overlap, cover exactly its addresses, and each of which is
    as large as alignment and the end of the range allow.  When an allocation
    fails the list is freed and [ISC_R_NOMEMORY] returned. *)
Theorem range2cidr_exact `{HostOrder} junk alloc lo hi :
  zlen (iabuf junk) = iabuf_size -> bytes (iabuf junk) ->
  wf_iaddr lo -> wf_iaddr hi -> ia_len lo = ia_len hi ->
  let l := Z.min (addr_val lo) (addr_val hi) in
  let h := Z.max (addr_val lo) (addr_val hi) in
  exists code nets, range2cidr junk alloc (Some []) (Some lo) (Some hi) = Done (code, nets) /\
    (code = ISC_R_SUCCESS /\ tiles (ia_len lo) l h nets (h + 1) /\
      (forall x, Exists (fun n => in_net (addr_width lo) n x) nets <-> l <= x <= h)
     \/ code = ISC_R_NOMEMORY /\ nets = [] /\ exists k, alloc k = false).
Proof.
  intros Lj Bj Wl Wh El l h. unfold range2cidr. rewrite (proj2 (Z.eqb_eq _ _) El). cbn [negb].
  rewrite addr_cmp_val by done. dred.
  assert (exists a b, (if 0 <? cmp_sign (addr_val lo ?= addr_val hi) then (hi, lo) else (lo, hi)) = (a, b) /\
    wf_iaddr a /\ wf_iaddr b /\ ia_len a = ia_len lo /\ ia_len b = ia_len lo /\
    addr_val a = l /\ addr_val b = h) as (a & b & -> & Wa & Wb & La & Lb & Va & Vb).
  { unfold l, h. destruct (Z.compare_spec (addr_val lo) (addr_val hi)); cbn -[Z.min Z.max];
      eexists _, _; (split; [done|]); split_and!; auto; lia. }
  destruct (range_loop junk alloc Lj Bj (ia_len lo) (proj1 Wl) l b Wb Lb a Wa La Va ltac:(lia))
    as ([code nets] & E & [[Hc Ht]|[Hc Hk]]).
  - exists code, nets. split; [done|]. left. simpl in *. rewrite Vb in Ht. split_and!; auto.
    intros x. unfold addr_width. rewrite (tiles_cover _ _ _ _ _ Ht). lia.
  - injection Hc as -> ->. eexists _, _. split; [done|]. right. eauto.
Qed.

(** ** The width of a mask *)
Lemma land_pow2 b j : 0 <= j -> (Z.land b (2 ^ j) =? 0) = negb (Z.testbit b j).
Proof.
  intros Hj. destruct (Z.testbit b j) eqn:E; simpl.
  - apply Z.eqb_neq. intros Z0. apply (f_equal (fun x => Z.testbit x j)) in Z0.
    rewrite Z.land_spec, E, Z.pow2_bits_true, Z.bits_0 in Z0 by done. done.
  - apply Z.eqb_eq, Z.bits_inj'. intros i Hi. rewrite Z.land_spec, Z.bits_0.
    destruct (decide (j = i)) as [->|]; [by rewrite E|].
    rewrite Z.pow2_bits_false by done. apply andb_false_r.
Qed.

Section mask_width.
Context (m : iaddr).
Hypothesis Wm : wf_iaddr m.
Let w := addr_width m.

(** Byte [oct] of the mask, seen from bit [w - mw]. *)
Lemma mask_bit mw :
  0 < mw <= w ->
  let oct := (mw - 1) / 8 in
  exists b, rd (iabuf m) oct = Done b /\
    (b = 0 -> mw mod 8 = 0 -> addr_val m mod 2 ^ (w - mw) = 0 -> addr_val m mod 2 ^ (w - (mw - 8)) = 0) /\
    (Z.land b (Z.shiftr 128 ((mw - 1) mod 8)) =? 0) = negb (Z.testbit (addr_val m) (w - mw)).
Proof.
  intros Hmw oct. pose proof (Z.div_mod (mw - 1) 8 ltac:(lia)) as Hd. fold oct in Hd.
  pose proof (Z.mod_pos_bound (mw - 1) 8 ltac:(lia)) as Hr. set (r := (mw - 1) mod 8) in *.
  assert (Ho : 0 <= oct < ia_len m) by (unfold w, addr_width in *; lia).
  set (k := ia_len m - 1 - oct). assert (Hk : 0 <= k) by lia.
  eexists; split; [by apply rd_addr|]. fold k. split.
  - intros Hb Hm Hz. assert (r = 7) by (pose proof (Z.div_mod mw 8 ltac:(lia)); lia).
    replace (w - (mw - 8)) with (8 * k + 8) by (unfold k, w, addr_width in *; lia).
    replace (w - mw) with (8 * k) in Hz by (unfold k, w, addr_width in *; lia).
    rewrite mod_pow2_step, Hz by lia. change (2 ^ 8) with 256. rewrite Hb. done.
  - assert (Z.shiftr 128 r = 2 ^ (7 - r)) as ->.
    { change 128 with (2 ^ 7). rewrite Z.shiftr_div_pow2, Z.pow_sub_r by lia. done. }
    rewrite land_pow2 by lia. f_equal. change 256 with (2 ^ 8).
    rewrite Z.mod_pow2_bits_low, Z.div_pow2_bits by lia. f_equal. unfold k, w, addr_width in *. lia.
Qed.

Definition width_inv (mw : Z) : Prop :=
  0 <= mw <= w /\ addr_val m mod 2 ^ (w - mw) = 0 /\
  (mw mod 8 = 0 \/ rd (iabuf m) ((mw - 1) / 8) <> Done 0).

Lemma width_step mw : width_inv mw ->
  step_ok (mask_width_step m) width_inv
    (fun r => 0 <= r <= w /\ addr_val m mod 2 ^ (w - r) = 0 /\
              (r = 0 \/ Z.testbit (addr_val m) (w - r) = true)) (fun x => x) mw.
Proof.
  intros (Hr & Hz & Hb). unfold step_ok, mask_width_step.
  destruct (Z.leb_spec mw 0); [right; exists mw; split_and!; auto; lia|].
  destruct (mask_bit mw ltac:(lia)) as (b & Eb & Hb0 & Ht). rewrite Eb. dred.
  destruct (Z.eqb_spec b 0) as [->|Nb].
  - destruct Hb as [Hm|]; [|done]. left. exists (mw - 8). split; [done|].
    pose proof (Z.div_mod mw 8 ltac:(lia)). assert (8 <= mw) by lia.
    split; [|lia]. unfold width_inv. split_and!; auto; try lia. left.
    replace (mw - 8) with (mw + (-1) * 8) by lia. by rewrite Z_mod_plus_full.
  - rewrite Ht, negb_involutive. destruct (Z.testbit (addr_val m) (w - mw)) eqn:E.
    + right. exists mw. split_and!; auto; lia.
    + left. exists (mw - 1). split; [done|]. split; [|lia].
      unfold width_inv. split_and!; try lia.
      * replace (w - (mw - 1)) with ((w - mw) + 1) by lia. rewrite mod_pow2_step, Hz by lia.
        apply Z.testbit_false in E; [|lia]. change (2 ^ 1) with 2. lia.
      * destruct (decide ((mw - 1) mod 8 = 0)) as [|N]; [by left|right].
        assert ((mw - 1 - 1) / 8 = (mw - 1) / 8) as ->; [|congruence].
        pose proof (Z.div_mod (mw - 1) 8 ltac:(lia)). pose proof (Z.mod_pos_bound (mw - 1) 8 ltac:(lia)).
        symmetry. apply Z.div_unique_pos with ((mw - 1) mod 8 - 1); lia.
Qed.
End mask_width.

(** [piaddrmask] computes the position of the last one bit of the mask:
    everything after the width it prints is zero and the last bit of the
    width is one; for a contiguous mask with [n] host bits the width is the
    prefix length. *)
Lemma piaddrmask_width_last_one addr m :
  wf_iaddr m -> ia_len addr = ia_len m -> ia_len addr = 4 \/ ia_len addr = 16 ->
  exists mw, piaddrmask_width addr m = Done mw /\ 0 <= mw <= addr_width m /\
    addr_val m mod 2 ^ (addr_width m - mw) = 0 /\
    (mw = 0 \/ Z.testbit (addr_val m) (addr_width m - mw) = true) /\
    (forall n, is_netmask m n -> mw = addr_width m - n).
Proof.
  intros Wm Le L416. set (w := addr_width m).
  destruct (while_total (mask_width_step m) (width_inv m) _ (fun x => x) (width_step m Wm) 8 w)
    as (mw & E & Hr & Hz & Hb).
  - unfold width_inv. fold w. split_and!; try (unfold w, addr_width; lia).
    + by rewrite Z.sub_diag, Z.mod_1_r.
    + left. unfold w, addr_width. rewrite Z.mul_comm. apply Z_mod_mult.
  - unfold w, addr_width. simpl. lia.
  - exists mw. split_and!; try done; try lia.
    + unfold piaddrmask_width. rewrite (proj2 (Z.eqb_eq _ _) Le).
      assert ((ia_len addr =? 4) || (ia_len addr =? 16) = true) as ->
        by (destruct L416 as [-> | ->]; done).
      cbn [assert_c]. dred. rewrite (Z.mul_comm (ia_len m) 8). fold (addr_width m). fold w.
      rewrite E. dred. rewrite (proj2 (Z.leb_le 0 mw)) by lia. done.
    + intros n [Hn Vn]. fold w in Hr, Hz, Hb, Hn, Vn. pose proof (addr_val_bound m Wm) as B.
      destruct (Z.lt_trichotomy (w - mw) n) as [Lt|[Eq|Gt]]; [|lia|].
      * assert (Hn0 : addr_val m mod 2 ^ n = 0).
        { rewrite Vn. replace w with (n + (w - n)) by lia. rewrite Z.pow_add_r by lia.
          replace (2 ^ n * 2 ^ (w - n) - 2 ^ n) with ((2 ^ (w - n) - 1) * 2 ^ n) by ring. apply Z_mod_mult. }
        destruct Hb as [->|Hb]; [lia|].
        rewrite <- (Z.mod_pow2_bits_low _ n), Hn0, Z.bits_0 in Hb by lia. done.
      * apply (mod_pow2_zero_mono _ (n + 1)) in Hz; [|lia]. rewrite Vn in Hz.
        replace w with ((n + 1) + (w - n - 1)) in Hz by lia. rewrite Z.pow_add_r in Hz by lia.
        replace (2 ^ (n + 1) * 2 ^ (w - n - 1) - 2 ^ n) with (2 ^ n + (2 ^ (w - n - 1) - 1) * 2 ^ (n + 1)) in Hz
          by (rewrite (Z.pow_add_r 2 n 1) by lia; ring).
        pose proof (pow2_pos n ltac:(lia)).
        rewrite Z_mod_plus_full, Z.mod_small in Hz by (rewrite (Z.pow_add_r 2 n 1) by lia; lia). lia.
Qed.

(** ** Concrete runs *)
Definition ip4 (a b c d : Z) : iaddr := mk_iaddr 4 ([a; b; c; d] ++ replicate 12 0).
#[local] Instance little : HostOrder := false.

Lemma range2cidr_exact_witness :
  exists code nets, range2cidr (ip4 0 0 0 0) (fun _ => true) (Some [])
    (Some (ip4 10 0 0 0)) (Some (ip4 10 0 1 127)) = Done (code, nets) /\ code = ISC_R_SUCCESS.
Proof.
  destruct (range2cidr_exact (ip4 0 0 0 0) (fun _ => true) (ip4 10 0 0 0) (ip4 10 0 1 127))
    as (code & nets & E & [(Hc & _)|(_ & _ & k & Hk)]).
  - reflexivity.
  - apply (bool_decide_unpack _); vm_compute; exact I.
  - apply (bool_decide_unpack _); vm_compute; exact I.
  - apply (bool_decide_unpack _); vm_compute; exact I.
  - reflexivity.
  - exists code, nets. split; [exact E|exact Hc].
  - discriminate Hk.
Defined.
