(* ===== verification/OptionStore.v ===== *)
(** * Option spaces and option states (common/options.c, includes/dhcpd.h,
      includes/tree.h)

    An option state keeps, for every option space ("universe"), the options
    that were configured or received.  A space keeps them in a hash table of
    17 buckets or in a chain; each entry is an option cache with the caches
    linked to it through [next].  The operations are those of options.c:
    [lookup_*_option], [save_*_option], [delete_*_option],
    [*_option_state_dereference] and the wrappers that dispatch on the space.

    Data strings point into reference-counted buffers that several option
    caches share, so the buffers are kept in a store ([heap]) and a
    [data_string] is a position in one of them.  Every allocation may fail;
    [mem_ok] says which ones succeed. *)

From stdpp Require Import base tactics list numbers sets strings.
From S2P Require Import Prelude.

#[local] Open Scope Z_scope.

(** ** Memory *)

(** The allocator: whether the [n]-th allocation succeeds (after the tenth
    failure [dmalloc] stops the process instead).  [dmalloc] clears
    what it allocates. *)
Class Allocator := mem_ok : nat -> bool.

Record heap := mk_heap { bufs : list (list Z); ticks : nat }.

Definition tick `{Allocator} (h : heap) : bool * heap :=
  (mem_ok (ticks h), mk_heap (bufs h) (S (ticks h))).

(** [buffer_allocate]: [struct buffer] ends in [unsigned char data[1]] and
    [len + sizeof *bp] bytes are allocated, so one byte more than [len] can be
    used. *)
Definition buffer_allocate `{Allocator} (h : heap) (len : Z) : option nat * heap :=
  let '(ok, h1) := tick h in
  if ok
  then (Some (length (bufs h1)),
        mk_heap (bufs h1 ++ [replicate (Z.to_nat len + 1) 0]) (ticks h1))
  else (None, h1).

Definition buf_write (h : heap) (b : nat) (i : Z) (src : list Z) : outcome heap :=
  match bufs h !! b with
  | None => Fault
  | Some d => d' ← wrn d i src; Done (mk_heap (<[b := d']> (bufs h)) (ticks h))
  end.

Definition buf_read (h : heap) (b : nat) (i n : Z) : outcome (list Z) :=
  match bufs h !! b with None => Fault | Some d => rdn d i n end.

(** [struct data_string] whose [data] is not null. *)
Record data_string := mk_ds {
  ds_buf : nat; ds_off : Z; ds_len : Z; ds_terminated : bool }.

Definition ds_bytes (h : heap) (d : data_string) : outcome (list Z) :=
  buf_read h (ds_buf d) (ds_off d) (ds_len d).

(** ** Options, spaces and states *)

(** [struct option]. *)
Record option_def := mk_option {
  opt_name : string; opt_format : string; opt_universe : Z; opt_code : Z }.

(** The container functions and decoders a space may be set up with. *)
Inductive container := NoContainer | ByHash | ByChain.
Inductive decoder := DecodeBuffer | DecodeFqdn.

(** [struct universe].  [code_hash] is what [option_code_hash_lookup] finds. *)
Record universe := mk_universe {
  u_name : string;
  u_container : container;
  u_decode : option decoder;
  get_tag : list Z -> Z -> outcome Z;
  get_length : option (list Z -> Z -> outcome Z);
  tag_size : Z; length_size : Z;
  u_end : Z;
  code_hash : Z -> option option_def;
  u_index : Z;
  concat_duplicates : bool }.

Section option_state.
Context {expr : Type}.

(** [struct option_cache]; the caches linked through [next] are kept beside
    it in an [entry]. *)
Record option_cache := mk_oc {
  oc_expr : option expr;
  oc_option : option_def;
  oc_data : option data_string;
  oc_flags : Z }.

Definition entry : Type := option_cache * list option_cache.
Definition entry_code (e : entry) : Z := opt_code (oc_option e.1).

(** [options->universes[i]]: a null pointer, a hash table or a chain. *)
Inductive slot :=
  | SlotNull
  | SlotHash (t : list (list entry))
  | SlotChain (l : list entry).

(** [struct option_state]; [universe_count] is the length of [universes]. *)
Record option_state := mk_state {
  site_universe : Z; site_code_min : Z; universes : list slot }.
Definition universe_count (st : option_state) : Z := zlen (universes st).

Definition OPTION_HASH_SIZE : Z := 17.
Definition OPTION_HASH_PTWO : Z := 32.
Definition OPTION_HASH_EXP : Z := 5.
Definition compute_option_hash (x : Z) : Z :=
  (Z.land x (OPTION_HASH_PTWO - 1) +
   Z.land (Z.shiftr x OPTION_HASH_EXP) (OPTION_HASH_PTWO - 1)) mod OPTION_HASH_SIZE.

(** ** Walking a list of entries *)
Fixpoint find_entry (code : Z) (l : list entry) : option entry :=
  match l with
  | [] => None
  | e :: l' => if entry_code e =? code then Some e else find_entry code l'
  end.

(** The first entry with the code is replaced by the result of [f]. *)
Fixpoint alter_entry (code : Z) (f : entry -> entry) (l : list entry) : list entry :=
  match l with
  | [] => []
  | e :: l' => if entry_code e =? code then f e :: l' else e :: alter_entry code f l'
  end.

Fixpoint remove_entry (code : Z) (l : list entry) : list entry :=
  match l with
  | [] => []
  | e :: l' => if entry_code e =? code then l' else e :: remove_entry code l'
  end.

(** What a save does to an entry that is already there: with [appendp] the new
    cache goes to the end of the [next] list, otherwise it replaces the old
    one. *)
Definition merge_entry (appendp : bool) (new old : entry) : entry :=
  if appendp then (old.1, old.2 ++ new.1 :: new.2) else new.

(** ** Hashed spaces *)
Definition lookup_hashed_option (u : universe) (st : option_state) (code : Z)
    : outcome (option entry) :=
  if universe_count st <=? u_index u then Done None
  else
    sl ← rd (universes st) (u_index u);
    match sl with
    | SlotNull => Done None
    | SlotHash t => b ← rd t (compute_option_hash code); Done (find_entry code b)
    | SlotChain _ => Fault
    end.

Definition set_slot (st : option_state) (i : Z) (sl : slot) : outcome option_state :=
  l ← wr (universes st) i sl;
  Done (mk_state (site_universe st) (site_code_min st) l).

Definition save_hashed_option `{Allocator} (h : heap) (u : universe) (st : option_state)
    (oc : entry) (appendp : bool) : outcome (heap * option_state) :=
  sl ← rd (universes st) (u_index u);
  let hashix := compute_option_hash (entry_code oc) in
  let put (h : heap) (st : option_state) (t : list (list entry)) (b : list entry) :=
    let '(ok, h1) := tick h in
    if ok
    then t' ← wr t hashix (oc :: b);
         st' ← set_slot st (u_index u) (SlotHash t'); Done (h1, st')
    else Done (h1, st) in
  match sl with
  | SlotNull =>
      let '(ok, h1) := tick h in
      if ok
      then let t := replicate (Z.to_nat OPTION_HASH_SIZE) [] in
           st1 ← set_slot st (u_index u) (SlotHash t);
           b ← rd t hashix; put h1 st1 t b
      else Done (h1, st)
  | SlotHash t =>
      b ← rd t hashix;
      match find_entry (entry_code oc) b with
      | Some _ =>
          t' ← wr t hashix (alter_entry (entry_code oc) (merge_entry appendp oc) b);
          st' ← set_slot st (u_index u) (SlotHash t'); Done (h, st')
      | None => put h st t b
      end
  | SlotChain _ => Fault
  end.

Definition delete_hashed_option (u : universe) (st : option_state) (code : Z)
    : outcome option_state :=
  sl ← rd (universes st) (u_index u);
  match sl with
  | SlotNull => Done st
  | SlotHash t =>
      b ← rd t (compute_option_hash code);
      t' ← wr t (compute_option_hash code) (remove_entry code b);
      set_slot st (u_index u) (SlotHash t')
  | SlotChain _ => Fault
  end.

Definition hashed_option_state_dereference (u : universe) (st : option_state)
    : outcome (option_state * bool) :=
  sl ← rd (universes st) (u_index u);
  match sl with
  | SlotNull => Done (st, false)
  | SlotHash _ => st' ← set_slot st (u_index u) SlotNull; Done (st', true)
  | SlotChain _ => Fault
  end.

(** ** Chained spaces *)
Definition lookup_linked_option (u : universe) (st : option_state) (code : Z)
    : outcome (option entry) :=
  if universe_count st <=? u_index u then Done None
  else
    sl ← rd (universes st) (u_index u);
    match sl with
    | SlotNull => Done None
    | SlotChain l => Done (find_entry code l)
    | SlotHash _ => Fault
    end.

Definition save_linked_option `{Allocator} (h : heap) (u : universe) (st : option_state)
    (oc : entry) (appendp : bool) : outcome (heap * option_state) :=
  if universe_count st <=? u_index u then Done (h, st)
  else
    sl ← rd (universes st) (u_index u);
    let store (h : heap) (st : option_state) (l : list entry) :=
      match find_entry (entry_code oc) l with
      | Some _ =>
          st' ← set_slot st (u_index u)
                  (SlotChain (alter_entry (entry_code oc) (merge_entry appendp oc) l));
          Done (h, st')
      | None =>
          let '(ok, h1) := tick h in  (* cons, which stops the program without memory *)
          if ok
          then st' ← set_slot st (u_index u) (SlotChain (l ++ [oc])); Done (h1, st')
          else Fatal
      end in
    match sl with
    | SlotNull =>
        let '(ok, h1) := tick h in
        if ok
        then st1 ← set_slot st (u_index u) (SlotChain []); store h1 st1 []
        else Done (h1, st)
    | SlotChain l => store h st l
    | SlotHash _ => Fault
    end.

Definition delete_linked_option (u : universe) (st : option_state) (code : Z)
    : outcome option_state :=
  if universe_count st <=? u_index u then Done st
  else
    sl ← rd (universes st) (u_index u);
    match sl with
    | SlotNull => Done st
    | SlotChain l => set_slot st (u_index u) (SlotChain (remove_entry code l))
    | SlotHash _ => Fault
    end.

(** ** Dispatch on the space *)
Definition lookup_option (u : universe) (st : option_state) (code : Z)
    : outcome (option entry) :=
  match u_container u with
  | ByHash => lookup_hashed_option u st code
  | ByChain => lookup_linked_option u st code
  | NoContainer => Done None
  end.

Definition save_func `{Allocator} (h : heap) (u : universe) (st : option_state) (oc : entry)
    (appendp : bool) : outcome (heap * option_state) :=
  match u_container u with
  | ByHash => save_hashed_option h u st oc appendp
  | ByChain => save_linked_option h u st oc appendp
  | NoContainer => Done (h, st)
  end.
Definition save_option `{Allocator} h u st oc := save_func h u st oc false.
Definition also_save_option `{Allocator} h u st oc := save_func h u st oc true.

Definition delete_option (u : universe) (st : option_state) (code : Z) : outcome option_state :=
  match u_container u with
  | ByHash => delete_hashed_option u st code
  | ByChain => delete_linked_option u st code
  | NoContainer => Done st
  end.

(** A change of the cache that [lookup_option] returned, made through the
    pointer. *)
Definition alter_option (u : universe) (st : option_state) (code : Z) (f : entry -> entry)
    : outcome option_state :=
  sl ← rd (universes st) (u_index u);
  match sl with
  | SlotNull => Fault
  | SlotHash t =>
      b ← rd t (compute_option_hash code);
      t' ← wr t (compute_option_hash code) (alter_entry code f b);
      set_slot st (u_index u) (SlotHash t')
  | SlotChain l => set_slot st (u_index u) (SlotChain (alter_entry code f l))
  end.


(** ** The abstract map of a space *)
Definition slot_get (sl : slot) (code : Z) : option entry :=
  match sl with
  | SlotNull => None
  | SlotHash t =>
      match t !! Z.to_nat (compute_option_hash code) with
      | Some b => find_entry code b
      | None => None
      end
  | SlotChain l => find_entry code l
  end.

Definition space_get (u : universe) (st : option_state) (code : Z) : option entry :=
  match universes st !! Z.to_nat (u_index u) with
  | Some sl => slot_get sl code
  | None => None
  end.

(** Every entry is in the bucket of its code, and a code has one entry. *)
Definition wf_bucket (i : nat) (b : list entry) : Prop :=
  NoDup (entry_code <$> b) /\ Forall (fun e => Z.to_nat (compute_option_hash (entry_code e)) = i) b.
Definition wf_table (t : list (list entry)) : Prop :=
  length t = 17%nat /\ forall i b, t !! i = Some b -> wf_bucket i b.

Definition wf_slot (k : container) (sl : slot) : Prop :=
  match k, sl with
  | ByHash, SlotNull | ByChain, SlotNull => True
  | ByHash, SlotHash t => wf_table t
  | ByChain, SlotChain l => NoDup (entry_code <$> l)
  | _, _ => False
  end.

Definition wf_space (u : universe) (st : option_state) : Prop :=
  0 <= u_index u /\
  exists sl, universes st !! Z.to_nat (u_index u) = Some sl /\ wf_slot (u_container u) sl.

(** States that differ at most in the space [u]. *)
Definition same_but (u : universe) (st st' : option_state) : Prop :=
  site_universe st' = site_universe st /\ site_code_min st' = site_code_min st /\
  length (universes st') = length (universes st) /\
  forall i, i <> Z.to_nat (u_index u) -> universes st' !! i = universes st !! i.

(** ** Lists of entries *)
Lemma find_entry_code code l e : find_entry code l = Some e -> entry_code e = code.
Proof.
  induction l as [|x l IH]; [done|]. simpl. zcase; [|done]. by intros [= <-].
Qed.

Lemma find_entry_None code l : find_entry code l = None <-> code ∉ (entry_code <$> l).
Proof.
  induction l as [|x l IH]; [split; [intros _; apply not_elem_of_nil|done]|]. rewrite fmap_cons, not_elem_of_cons. simpl.
  zcase; [split; [done|intros [? _]; congruence]|]. rewrite IH. split; [|tauto]. intros; split; congruence.
Qed.

Lemma find_alter code f l c :
  (forall e, entry_code e = code -> entry_code (f e) = code) ->
  find_entry c (alter_entry code f l) =
    if c =? code then f <$> find_entry code l else find_entry c l.
Proof.
  intros Hf. induction l as [|x l IH]; simpl; [by destruct (c =? code)|].
  destruct (Z.eqb_spec (entry_code x) code) as [Ex|Ex]; simpl.
  - rewrite Hf by done. destruct (Z.eqb_spec c code) as [->|Hc]; [by rewrite Z.eqb_refl|].
    rewrite Ex. by rewrite (proj2 (Z.eqb_neq code c)) by done.
  - rewrite IH. destruct (Z.eqb_spec c code) as [->|Hc]; [|done].
    by rewrite (proj2 (Z.eqb_neq _ code)) by done.
Qed.

Lemma alter_codes code f l :
  (forall e, entry_code e = code -> entry_code (f e) = code) ->
  entry_code <$> alter_entry code f l = entry_code <$> l.
Proof.
  intros Hf. induction l as [|x l IH]; [done|]. simpl. zcase; rewrite !fmap_cons; [|by rewrite IH].
  f_equal. rewrite Hf; congruence.
Qed.

Lemma find_remove code l c :
  NoDup (entry_code <$> l) ->
  find_entry c (remove_entry code l) = if c =? code then None else find_entry c l.
Proof.
  induction l as [|x l IH]; simpl; [by destruct (c =? code)|]. intros [Hx Hl]%NoDup_cons.
  destruct (Z.eqb_spec (entry_code x) code) as [<-|Ex]; simpl.
  - destruct (Z.eqb_spec c (entry_code x)) as [Hc|Hc]; [rewrite Hc; by apply find_entry_None|].
    by rewrite (proj2 (Z.eqb_neq _ c)) by congruence.
  - rewrite IH by done. destruct (Z.eqb_spec c code) as [Hc|Hc]; [|done].
    by rewrite (proj2 (Z.eqb_neq _ c)) by congruence.
Qed.

Lemma remove_sublist code l : sublist (remove_entry code l) l.
Proof. induction l as [|x l IH]; simpl; [done|]. zcase; by constructor. Qed.

Lemma find_app code l k :
  find_entry code (l ++ k) =
    match find_entry code l with Some e => Some e | None => find_entry code k end.
Proof. induction l as [|x l IH]; [done|]. simpl. by zcase. Qed.

Lemma merge_code appendp oc e : entry_code oc = entry_code e -> entry_code (merge_entry appendp oc e) = entry_code e.
Proof. by destruct appendp. Qed.

Lemma hash_range x : 0 <= compute_option_hash x < 17.
Proof. apply Z.mod_pos_bound. done. Qed.

(** ** Buckets *)
Lemma wf_bucket_nil i : wf_bucket i [].
Proof. split; constructor. Qed.

Lemma wf_table_empty : wf_table (replicate (Z.to_nat OPTION_HASH_SIZE) []).
Proof.
  split; [done|]. intros i b [-> _]%lookup_replicate. apply wf_bucket_nil.
Qed.

Lemma wf_table_insert t i b : wf_table t -> wf_bucket i b -> wf_table (<[i := b]> t).
Proof.
  intros [Hl Ht] Hb. split; [by rewrite length_insert|]. intros j c Hj.
  destruct (decide (j = i)) as [->|Hne].
  - apply list_lookup_insert_Some in Hj as [(_ & -> & _)|[? _]]; done.
  - rewrite list_lookup_insert_ne in Hj by done. by apply Ht.
Qed.

Lemma wf_bucket_codes i b b' :
  wf_bucket i b -> entry_code <$> b' = entry_code <$> b -> wf_bucket i b'.
Proof.
  intros [Hn Hf] E. split; [by rewrite E|].
  assert (Forall (fun c => Z.to_nat (compute_option_hash c) = i) (entry_code <$> b')) as F.
  { rewrite E. by apply Forall_fmap. }
  by apply Forall_fmap in F.
Qed.

Lemma wf_bucket_remove i b code : wf_bucket i b -> wf_bucket i (remove_entry code b).
Proof.
  intros [Hn Hf]. pose proof (remove_sublist code b) as S. split.
  - eapply sublist_NoDup; [done|]. by apply fmap_sublist.
  - clear S Hn. induction Hf; simpl; [done|]. zcase; by constructor || done.
Qed.

Lemma bucket_at t code :
  wf_table t -> exists b, t !! Z.to_nat (compute_option_hash code) = Some b /\
    rd t (compute_option_hash code) = Done b /\
    forall b', wr t (compute_option_hash code) b' =
               Done (<[Z.to_nat (compute_option_hash code) := b']> t).
Proof.
  intros [Hl _]. pose proof (hash_range code) as Hr.
  assert (Hz : 0 <= compute_option_hash code < zlen t) by (unfold zlen; lia).
  destruct (rd_in t (compute_option_hash code) Hz) as (b & Hrd & Hb).
  exists b. split_and!; [done..|]. intros; by apply wr_in.
Qed.

(** The view of a table in which one bucket was replaced. *)
Lemma slot_get_insert t i b' (F : Z -> option entry) :
  (i < length t)%nat ->
  (forall c, Z.to_nat (compute_option_hash c) = i -> find_entry c b' = F c) ->
  (forall c, Z.to_nat (compute_option_hash c) <> i -> slot_get (SlotHash t) c = F c) ->
  forall c, slot_get (SlotHash (<[i := b']> t)) c = F c.
Proof.
  intros Hi H1 H2 c. simpl. destruct (decide (Z.to_nat (compute_option_hash c) = i)) as [E|E].
  - rewrite E, list_lookup_insert_eq by done. by apply H1.
  - rewrite list_lookup_insert_ne by done. by apply H2.
Qed.

(** ** States *)
Definition with_slot (st : option_state) (i : Z) (sl : slot) : option_state :=
  mk_state (site_universe st) (site_code_min st) (<[Z.to_nat i := sl]> (universes st)).

Lemma set_slot_in st i sl :
  0 <= i < zlen (universes st) -> set_slot st i sl = Done (with_slot st i sl).
Proof. intros H. unfold set_slot. by rewrite wr_in. Qed.

Lemma with_slot_get u st sl code :
  (Z.to_nat (u_index u) < length (universes st))%nat ->
  space_get u (with_slot st (u_index u) sl) code = slot_get sl code.
Proof. intros H. unfold space_get. simpl. by rewrite list_lookup_insert_eq. Qed.

Lemma with_slot_wf u st sl :
  0 <= u_index u < zlen (universes st) -> wf_slot (u_container u) sl ->
  wf_space u (with_slot st (u_index u) sl).
Proof.
  intros H Hsl. split; [lia|]. exists sl. split; [|done]. simpl.
  apply list_lookup_insert_eq. unfold zlen in H; lia.
Qed.

Lemma with_slot_same u st sl : same_but u st (with_slot st (u_index u) sl).
Proof.
  split_and!; try done; simpl; [by rewrite length_insert|].
  intros i Hi. by apply list_lookup_insert_ne.
Qed.

Lemma with_slot_twice st i s1 s2 : with_slot (with_slot st i s1) i s2 = with_slot st i s2.
Proof. unfold with_slot. simpl. by rewrite list_insert_insert_eq. Qed.

Lemma wf_space_slot u st :
  wf_space u st ->
  exists sl, 0 <= u_index u < zlen (universes st) /\ rd (universes st) (u_index u) = Done sl /\
    wf_slot (u_container u) sl /\ (forall c, space_get u st c = slot_get sl c) /\
    (universe_count st <=? u_index u) = false.
Proof.
  intros (H0 & sl & Hsl & Hwf). exists sl. pose proof (lookup_lt_Some _ _ _ Hsl).
  unfold universe_count, zlen. split_and!; try done; try lia.
  - by apply rd_Done.
  - intros c. unfold space_get. by rewrite Hsl.
Qed.

(** ** What a space promises to its clients *)

(** The view after a save. *)
Definition saved (oc : entry) (appendp : bool) (get : Z -> option entry) (c : Z) : option entry :=
  if c =? entry_code oc
  then Some (match get c with Some old => merge_entry appendp oc old | None => oc end)
  else get c.

(** Some allocation between the two heaps failed. *)
Definition out_of_memory `{Allocator} (h h' : heap) : Prop :=
  exists n, (ticks h <= n < ticks h')%nat /\ mem_ok n = false.

(** One of the two allocations of a save in a chained space fails, the second
    of which is made by [cons]. *)
Definition cons_fails `{Allocator} (h : heap) : Prop :=
  exists n, (ticks h <= n <= S (ticks h))%nat /\ mem_ok n = false.

Class OptionSpace (u : universe) : Prop := {
  space_lookup : forall st code, wf_space u st -> lookup_option u st code = Done (space_get u st code);
  space_save : forall `{Allocator} h st oc appendp, wf_space u st ->
    (exists h' st', save_func h u st oc appendp = Done (h', st') /\ wf_space u st' /\
      same_but u st st' /\ bufs h' = bufs h /\ (ticks h <= ticks h')%nat /\
      ((forall c, space_get u st' c = saved oc appendp (space_get u st) c) \/
       (out_of_memory h h' /\ forall c, space_get u st' c = space_get u st c))) \/
    (save_func h u st oc appendp = Fatal /\ u_container u = ByChain /\ cons_fails h);
  space_delete : forall st code, wf_space u st ->
    exists st', delete_option u st code = Done st' /\ wf_space u st' /\ same_but u st st' /\
      forall c, space_get u st' c = if c =? code then None else space_get u st c;
  space_alter : forall st code f, wf_space u st ->
    (forall e, entry_code e = code -> entry_code (f e) = code) ->
    space_get u st code <> None ->
    exists st', alter_option u st code f = Done st' /\ wf_space u st' /\ same_but u st st' /\
      forall c, space_get u st' c = if c =? code then f <$> space_get u st c else space_get u st c
}.

(** ** Hashed spaces keep the promise *)
Lemma saved_found oc appendp get old c :
  get (entry_code oc) = Some old ->
  (if c =? entry_code oc then merge_entry appendp oc <$> get (entry_code oc) else get c) =
  saved oc appendp get c.
Proof. intros E. unfold saved. zcase; [subst; by rewrite E|done]. Qed.

Lemma saved_new oc appendp get c :
  get (entry_code oc) = None ->
  (if entry_code oc =? c then Some oc else get c) = saved oc appendp get c.
Proof.
  intros E. unfold saved. rewrite Z.eqb_sym. zcase; [|done]. subst. by rewrite E.
Qed.

Lemma table_alter t code f :
  wf_table t -> (forall e, entry_code e = code -> entry_code (f e) = code) ->
  exists b, t !! Z.to_nat (compute_option_hash code) = Some b /\
    wf_table (<[Z.to_nat (compute_option_hash code) := alter_entry code f b]> t) /\
    forall c, slot_get (SlotHash (<[Z.to_nat (compute_option_hash code) := alter_entry code f b]> t)) c
      = if c =? code then f <$> slot_get (SlotHash t) code else slot_get (SlotHash t) c.
Proof.
  intros Ht Hf. destruct (bucket_at t code Ht) as (b & Hb & _ & _). exists b. split; [done|]. split.
  - apply wf_table_insert; [done|]. eapply wf_bucket_codes; [by apply Ht|by apply alter_codes].
  - apply slot_get_insert; [by eapply lookup_lt_Some|intros c Hc|intros c Hc].
    + rewrite find_alter by done. simpl. by rewrite Hc, Hb.
    + zcase; [by subst|done].
Qed.

Lemma table_put t oc :
  wf_table t -> slot_get (SlotHash t) (entry_code oc) = None ->
  exists b, t !! Z.to_nat (compute_option_hash (entry_code oc)) = Some b /\
    wf_table (<[Z.to_nat (compute_option_hash (entry_code oc)) := oc :: b]> t) /\
    forall c, slot_get (SlotHash (<[Z.to_nat (compute_option_hash (entry_code oc)) := oc :: b]> t)) c
      = if entry_code oc =? c then Some oc else slot_get (SlotHash t) c.
Proof.
  intros Ht Hn. destruct (bucket_at t (entry_code oc) Ht) as (b & Hb & _ & _). exists b.
  pose proof Hn as Hn'. simpl in Hn'. rewrite Hb in Hn'.
  split; [done|]. split.
  - apply wf_table_insert; [done|]. destruct (proj2 Ht _ _ Hb) as [Hd Hf].
    split; [|by constructor]. rewrite fmap_cons. constructor; [by apply find_entry_None|done].
  - apply slot_get_insert; [by eapply lookup_lt_Some|intros c Hc|intros c Hc]; simpl.
    + by rewrite Hc, Hb.
    + zcase; [by subst|done].
Qed.

(** The last part of [save_hashed_option]: a new pair at the head of the bucket. *)
Lemma hashed_put `{Allocator} u h h0 st0 st t oc appendp :
  u_container u = ByHash -> 0 <= u_index u < zlen (universes st) -> wf_table t ->
  (ticks h0 <= ticks h)%nat -> bufs h = bufs h0 -> same_but u st0 st ->
  universes st !! Z.to_nat (u_index u) = Some (SlotHash t) ->
  (forall c, space_get u st0 c = slot_get (SlotHash t) c) ->
  slot_get (SlotHash t) (entry_code oc) = None ->
  exists h' st',
    (b ← rd t (compute_option_hash (entry_code oc));
     let '(ok, h1) := tick h in
     if ok
     then t' ← wr t (compute_option_hash (entry_code oc)) (oc :: b);
          st' ← set_slot st (u_index u) (SlotHash t'); Done (h1, st')
     else Done (h1, st)) = Done (h', st') /\
    wf_space u st' /\ same_but u st0 st' /\ bufs h' = bufs h0 /\ (ticks h0 <= ticks h')%nat /\
    ((forall c, space_get u st' c = saved oc appendp (space_get u st0) c) \/
     (out_of_memory h0 h' /\ forall c, space_get u st' c = space_get u st0 c)).
Proof.
  intros Hu Hi Ht Hk Hbufs Hsame Hst Hget Hn.
  destruct (bucket_at t (entry_code oc) Ht) as (b & Hb & Hrd & Hwr). rewrite Hrd, bind_ret. unfold tick.
  destruct (table_put t oc Ht Hn) as (b' & Hb' & Hwf' & Hview'). rewrite Hb in Hb'. injection Hb' as <-.
  destruct (mem_ok (ticks h)) eqn:Hm.
  - rewrite Hwr, bind_ret, set_slot_in, bind_ret by done. do 2 eexists. split; [done|].
    split; [apply with_slot_wf; [done|by rewrite Hu]|].
    split. { destruct Hsame as (?&?&?&Hs). destruct (with_slot_same u st (SlotHash (<[Z.to_nat (compute_option_hash (entry_code oc)) := oc :: b]> t))) as (?&?&?&Hs').
      split_and!; [congruence..|]. intros i Hne. by rewrite Hs', Hs. }
    split; [done|]. split; [simpl; lia|]. left. intros c. rewrite with_slot_get by (unfold zlen in Hi; lia).
    rewrite Hview', <- Hget. apply saved_new. by rewrite Hget.
  - do 2 eexists. split; [done|]. split; [split; [lia|exists (SlotHash t); rewrite Hu; done]|].
    split; [done|]. split; [done|]. split; [simpl; lia|].
    right. split; [exists (ticks h); simpl; split; [lia|done]|].
    intros c. rewrite Hget. unfold space_get. by rewrite Hst.
Qed.

Lemma empty_get c : slot_get (SlotHash (replicate (Z.to_nat OPTION_HASH_SIZE) [])) c = None.
Proof.
  unfold slot_get. destruct (_ !! _) as [b|] eqn:E; [|done].
  by apply lookup_replicate_1 in E as [-> _].
Qed.

Lemma same_but_refl u st : same_but u st st.
Proof. done. Qed.

Lemma hashed_save `{Allocator} u h st oc appendp :
  u_container u = ByHash -> wf_space u st ->
  exists h' st', save_hashed_option h u st oc appendp = Done (h', st') /\ wf_space u st' /\
    same_but u st st' /\ bufs h' = bufs h /\ (ticks h <= ticks h')%nat /\
    ((forall c, space_get u st' c = saved oc appendp (space_get u st) c) \/
     (out_of_memory h h' /\ forall c, space_get u st' c = space_get u st c)).
Proof.
  intros Hu Hwf. pose proof Hwf as (_ & sl' & Hsl' & _).
  destruct (wf_space_slot u st Hwf) as (sl & Hi & Hrd & Hsl & Hget & _).
  unfold save_hashed_option. rewrite Hrd, bind_ret. rewrite Hu in Hsl.
  assert (sl' = sl) as -> by (apply rd_Done in Hrd as [_ ?]; congruence).
  destruct sl as [|t|l]; [| |done].
  - unfold tick at 1. destruct (mem_ok (ticks h)) eqn:Hm.
    + rewrite set_slot_in, bind_ret by done. eapply hashed_put; try done.
      * simpl. unfold zlen. by rewrite length_insert.
      * apply wf_table_empty.
      * simpl. lia.
      * apply with_slot_same.
      * apply list_lookup_insert_eq. unfold zlen in Hi; lia.
      * intros c. by rewrite Hget, empty_get.
      * apply empty_get.
    + do 2 eexists. split; [done|]. split_and!; try done; [simpl; lia|]. right. split; [|done].
      exists (ticks h). simpl. split; [lia|done].
  - destruct (bucket_at t (entry_code oc) Hsl) as (b & Hb & Hrdb & Hwrb).
    destruct (find_entry (entry_code oc) b) as [old|] eqn:E.
    + rewrite Hrdb, bind_ret, E, Hwrb, bind_ret, set_slot_in, bind_ret by done.
      destruct (table_alter t (entry_code oc) (merge_entry appendp oc) Hsl) as (b' & Hb' & Hwf' & Hv).
      { intros e He. by rewrite merge_code. }
      rewrite Hb in Hb'. injection Hb' as <-.
      do 2 eexists. split; [done|]. split; [apply with_slot_wf; [done|by rewrite Hu]|].
      split; [apply with_slot_same|]. split; [done|]. split; [done|]. left. intros c.
      rewrite with_slot_get by (unfold zlen in Hi; lia). rewrite Hv, <- !Hget.
      eapply saved_found. rewrite Hget. simpl. by rewrite Hb.
    + pose proof (hashed_put u h h st st t oc appendp Hu Hi Hsl) as P.
      rewrite Hrdb, bind_ret in P |- *. rewrite E. apply P; try done.
      simpl. by rewrite Hb.
Qed.

(** ** Chained spaces keep the promise *)
Lemma linked_store `{Allocator} u h h0 st0 st l oc appendp :
  u_container u = ByChain -> 0 <= u_index u < zlen (universes st) -> NoDup (entry_code <$> l) ->
  (ticks h0 <= ticks h <= S (ticks h0))%nat -> bufs h = bufs h0 -> same_but u st0 st ->
  universes st !! Z.to_nat (u_index u) = Some (SlotChain l) ->
  (forall c, space_get u st0 c = find_entry c l) ->
  let r :=
    match find_entry (entry_code oc) l with
    | Some _ =>
        st' ← set_slot st (u_index u)
                (SlotChain (alter_entry (entry_code oc) (merge_entry appendp oc) l));
        Done (h, st')
    | None =>
        let '(ok, h1) := tick h in
        if ok
        then st' ← set_slot st (u_index u) (SlotChain (l ++ [oc])); Done (h1, st')
        else Fatal
    end in
  (exists h' st', r = Done (h', st') /\
    wf_space u st' /\ same_but u st0 st' /\ bufs h' = bufs h0 /\ (ticks h0 <= ticks h')%nat /\
    ((forall c, space_get u st' c = saved oc appendp (space_get u st0) c) \/
     (out_of_memory h0 h' /\ forall c, space_get u st' c = space_get u st0 c))) \/
  (r = Fatal /\ u_container u = ByChain /\ cons_fails h0).
Proof.
  intros Hu Hi Hl Hk Hbufs Hsame Hst Hget.
  assert (Hs' : forall sl, same_but u st0 (with_slot st (u_index u) sl)).
  { intros sl. destruct Hsame as (?&?&?&Hs), (with_slot_same u st sl) as (?&?&?&Hs').
    split_and!; [congruence..|]. intros i Hne. by rewrite Hs', Hs. }
  destruct (find_entry (entry_code oc) l) as [old|] eqn:E.
  - left. rewrite set_slot_in, bind_ret by done. do 2 eexists. split; [done|]. split.
    { apply with_slot_wf; [done|]. rewrite Hu. simpl. rewrite alter_codes; [done|].
      intros e He. by rewrite merge_code. }
    split_and!; [done|done|lia|]. left. intros c. rewrite with_slot_get by (unfold zlen in Hi; lia). simpl.
    rewrite find_alter by (intros e He; by rewrite merge_code). rewrite <- !Hget.
    eapply saved_found. by rewrite Hget.
  - unfold tick. destruct (mem_ok (ticks h)) eqn:Hm.
    + left. rewrite set_slot_in, bind_ret by done. do 2 eexists. split; [done|]. split.
      { apply with_slot_wf; [done|]. rewrite Hu. simpl. rewrite fmap_app. apply NoDup_app.
        split_and!; [done| |apply NoDup_singleton]. intros c Hc ->%list_elem_of_singleton.
        by apply find_entry_None in E. }
      split_and!; [done|done|simpl; lia|]. left. intros c. rewrite with_slot_get by (unfold zlen in Hi; lia). simpl.
      rewrite find_app. simpl. rewrite <- !Hget. unfold saved. rewrite (Z.eqb_sym (entry_code oc)).
      destruct (Z.eqb_spec c (entry_code oc)) as [->|_]; [by rewrite Hget, E|].
      by destruct (space_get u st0 c).
    + right. split_and!; [done..|]. by exists (ticks h).
Qed.

Lemma linked_save `{Allocator} u h st oc appendp :
  u_container u = ByChain -> wf_space u st ->
  (exists h' st', save_linked_option h u st oc appendp = Done (h', st') /\ wf_space u st' /\
    same_but u st st' /\ bufs h' = bufs h /\ (ticks h <= ticks h')%nat /\
    ((forall c, space_get u st' c = saved oc appendp (space_get u st) c) \/
     (out_of_memory h h' /\ forall c, space_get u st' c = space_get u st c))) \/
  (save_linked_option h u st oc appendp = Fatal /\ u_container u = ByChain /\ cons_fails h).
Proof.
  intros Hu Hwf. pose proof Hwf as (_ & sl' & Hsl' & _).
  destruct (wf_space_slot u st Hwf) as (sl & Hi & Hrd & Hsl & Hget & Hc).
  unfold save_linked_option. rewrite Hc, Hrd, bind_ret. rewrite Hu in Hsl.
  assert (sl' = sl) as -> by (apply rd_Done in Hrd as [_ ?]; congruence).
  destruct sl as [|t|l]; [|done|].
  - assert (T : tick h = (mem_ok (ticks h), mk_heap (bufs h) (S (ticks h)))) by done.
    rewrite T. destruct (mem_ok (ticks h)) eqn:Hm.
    + rewrite set_slot_in, bind_ret by done.
      apply (linked_store u (mk_heap (bufs h) (S (ticks h))) h st
        (with_slot st (u_index u) (SlotChain [])) [] oc appendp); try done.
      * simpl. unfold zlen. by rewrite length_insert.
      * constructor.
      * simpl. lia.
      * apply with_slot_same.
      * apply list_lookup_insert_eq. unfold zlen in Hi; lia.
    + left. do 2 eexists. split; [done|]. split_and!; try done; [simpl; lia|]. right. split; [|done].
      exists (ticks h). simpl. split; [lia|done].
  - apply (linked_store u h h st st l oc appendp); done || lia.
Qed.

(** ** Both kinds of space *)
Lemma lookup_get u st code :
  u_container u <> NoContainer -> wf_space u st -> lookup_option u st code = Done (space_get u st code).
Proof.
  intros Hu Hwf. destruct (wf_space_slot u st Hwf) as (sl & Hi & Hrd & Hsl & Hget & Hc).
  unfold lookup_option, lookup_hashed_option, lookup_linked_option. rewrite Hc, Hrd, bind_ret, Hget.
  destruct (u_container u); [done| |]; destruct sl as [|t|l]; try done. simpl.
  destruct (bucket_at t code Hsl) as (b & Hb & -> & _). by rewrite Hb.
Qed.

Lemma delete_get u st code :
  u_container u <> NoContainer -> wf_space u st ->
  exists st', delete_option u st code = Done st' /\ wf_space u st' /\ same_but u st st' /\
    forall c, space_get u st' c = if c =? code then None else space_get u st c.
Proof.
  intros Hu Hwf. destruct (wf_space_slot u st Hwf) as (sl & Hi & Hrd & Hsl & Hget & Hc).
  unfold delete_option, delete_hashed_option, delete_linked_option. rewrite Hc, Hrd, !bind_ret.
  assert (Hnull : forall c, sl = SlotNull -> space_get u st c = if c =? code then None else space_get u st c).
  { intros c ->. rewrite Hget. by zcase. }
  destruct (u_container u) eqn:K; [done| |]; destruct sl as [|t|l]; try done;
    try (exists st; split; [done|split; [done|split; [apply same_but_refl|by auto]]]).
  - destruct (bucket_at t code Hsl) as (b & Hb & Hrdb & Hwrb).
    rewrite Hrdb, bind_ret, Hwrb, bind_ret, set_slot_in by done. eexists. split; [done|].
    split; [apply with_slot_wf; [done|]; rewrite K; simpl|split; [apply with_slot_same|]].
    + apply wf_table_insert; [done|]. by apply wf_bucket_remove, Hsl.
    + intros c. rewrite with_slot_get, Hget by (unfold zlen in Hi; lia). revert c.
      apply slot_get_insert; [by eapply lookup_lt_Some|intros c Hc'|intros c Hc'].
      * rewrite find_remove by (apply (proj2 Hsl _ _ Hb)). simpl. by rewrite Hc', Hb.
      * zcase; [by subst|done].
  - rewrite set_slot_in by done. eexists. split; [done|].
    split; [apply with_slot_wf; [done|]; rewrite K; simpl|split; [apply with_slot_same|]].
    + eapply sublist_NoDup; [done|]. apply fmap_sublist, remove_sublist.
    + intros c. rewrite with_slot_get, Hget by (unfold zlen in Hi; lia). by apply find_remove.
Qed.

Lemma alter_get u st code f :
  u_container u <> NoContainer -> wf_space u st ->
  (forall e, entry_code e = code -> entry_code (f e) = code) -> space_get u st code <> None ->
  exists st', alter_option u st code f = Done st' /\ wf_space u st' /\ same_but u st st' /\
    forall c, space_get u st' c = if c =? code then f <$> space_get u st c else space_get u st c.
Proof.
  intros Hu Hwf Hf Hn. destruct (wf_space_slot u st Hwf) as (sl & Hi & Hrd & Hsl & Hget & Hc).
  unfold alter_option. rewrite Hrd, bind_ret. rewrite Hget in Hn.
  destruct (u_container u) eqn:K; [done| |]; destruct sl as [|t|l]; try done.
  - destruct (bucket_at t code Hsl) as (b & Hb & Hrdb & Hwrb).
    destruct (table_alter t code f Hsl Hf) as (b' & Hb' & Hwf' & Hv).
    rewrite Hb in Hb'. injection Hb' as <-.
    rewrite Hrdb, bind_ret, Hwrb, bind_ret, set_slot_in by done. eexists. split; [done|].
    split; [apply with_slot_wf; [done|]; by rewrite K|split; [apply with_slot_same|]].
    intros c. rewrite with_slot_get, Hget, Hv by (unfold zlen in Hi; lia).
    destruct (Z.eqb_spec c code) as [->|]; done.
  - rewrite set_slot_in by done. eexists. split; [done|].
    split; [apply with_slot_wf; [done|]; rewrite K; simpl|split; [apply with_slot_same|]].
    + by rewrite alter_codes.
    + intros c. rewrite with_slot_get, Hget by (unfold zlen in Hi; lia). simpl. rewrite find_alter by done.
      destruct (Z.eqb_spec c code) as [->|]; done.
Qed.

Lemma container_space u : u_container u <> NoContainer -> OptionSpace u.
Proof.
  intros Hu. split.
  - intros. by apply lookup_get.
  - intros A h st oc appendp Hwf. unfold save_func. destruct (u_container u) eqn:K; [done| |].
    + left. by apply hashed_save.
    + pose proof (linked_save u h st oc appendp K Hwf) as P. by rewrite K in P.
  - intros. by apply delete_get.
  - intros. by apply alter_get.
Qed.


End option_state.

#[global] Arguments option_cache : clear implicits.
#[global] Arguments option_state : clear implicits.
#[global] Arguments entry : clear implicits.
#[global] Arguments slot : clear implicits.

(** ** Witness: the DHCP space with options 1 and 18, which share a bucket *)
#[local] Instance plain_allocator : Allocator := fun _ => true.

Definition test_universe : universe :=
  mk_universe "dhcp" ByHash (Some DecodeBuffer) rd (Some rd) 1 1 255 (fun _ => None) 0 true.
Definition test_entry (code len : Z) : entry unit :=
  (mk_oc None (mk_option "test" "X" 0 code) (Some (mk_ds 0 2 len true)) 0, []).
Definition test_state : option_state unit :=
  mk_state 0 0 [SlotHash (<[1%nat := [test_entry 18 2; test_entry 1 4]]> (replicate 17 []))].

Definition chained_universe : universe :=
  mk_universe "fqdn" ByChain (Some DecodeFqdn) rd (Some rd) 1 1 0 (fun _ => None) 0 true.
Definition chained_state : option_state unit :=
  mk_state 0 0 [SlotChain [test_entry 18 2; test_entry 1 4]].
Definition no_memory : Allocator := fun _ => false.

(** Without memory a save under a code that is there goes on, and one under a
    new code stops the program. *)
Lemma cons_without_memory :
  save_linked_option (H := no_memory) (mk_heap [] 0) chained_universe chained_state (test_entry 1 7) false
    = Done (mk_heap [] 0, mk_state 0 0 [SlotChain [test_entry 18 2; test_entry 1 7]]) /\
  save_linked_option (H := no_memory) (mk_heap [] 0) chained_universe chained_state (test_entry 5 7) false
    = Fatal.
Proof. done. Qed.

