(* ===== verification/OptionParse.v ===== *)
(** * Parsing option buffers (common/options.c)

    [parse_options], [parse_option_buffer], [find_option_universe],
    [parse_encapsulated_suboptions], [fqdn_universe_decode],
    [prepare_option_buffer], [save_option_buffer], [append_option_buffer],
    [format_has_text] and [format_min_length].

    The parser copies its input to a buffer of its own, and the option caches
    it makes point into that buffer; putting a NUL after the data of an option
    therefore overwrites the tag of the next option in the copy.  The model
    keeps the copy in the heap, so this is what the theorems are about. *)

From Stdlib Require Import Ascii String.
From stdpp Require Import base tactics list numbers strings pretty.
From S2P Require Import Prelude Convert OptionStore.

#[local] Open Scope Z_scope.

Definition DHO_PAD : Z := 0.
Definition DHO_END : Z := 255.
Definition DHO_DHCP_OPTION_OVERLOAD : Z := 52.
Definition DHO_DHCP_MESSAGE_TYPE : Z := 53.
Definition DHCPOFFER : Z := 2.
Definition DHCPACK : Z := 5.
Definition DHCPNAK : Z := 6.
Definition DHCP_FIXED_NON_UDP : Z := 236.
Definition OPTION_HAD_NULLS : Z := 1.
Definition INT_MAX : Z := 2147483647.
Definition DHCP_OPTIONS_COOKIE : list Z := [99; 130; 83; 99].
Definition default_option_format : string := "X".

(** ** Option formats *)
Definition chars (s : string) : list ascii := list_ascii_of_string s.

(** [skipping]: inside the space name that follows an 'E' or an 'N'. *)
Fixpoint format_has_text_at (skipping : bool) (p : list ascii) : bool :=
  match p with
  | [] => false
  | c :: p' =>
      if skipping then format_has_text_at (negb (Ascii.eqb c ".")) p'
      else if existsb (Ascii.eqb c) ["d"; "t"]%char then true
      else if existsb (Ascii.eqb c) ["A"; "a"; "X"; "x"; "D"]%char then false
      else if existsb (Ascii.eqb c) ["E"; "N"]%char then format_has_text_at true p'
      else format_has_text_at false p'
  end.
Definition format_has_text (format : string) : bool := format_has_text_at false (chars format).

(** [name]: the enumeration name read so far after an 'N'.
    [enum_width] is the width of the enumeration that [find_enumeration]
    finds. *)
Fixpoint format_min_length_at (enum_width : list ascii -> option Z)
    (name : option (list ascii)) (min_len last_size : Z) (p : list ascii) : outcome Z :=
  let go := format_min_length_at enum_width None in
  match name, p with
  | Some _, [] => Fatal
  | Some n, c :: p' =>
      if Ascii.eqb c "." then
        match enum_width n with
        | None => Done INT_MAX
        | Some w => go (min_len + w) w p'
        end
      else format_min_length_at enum_width (Some (n ++ [c])) min_len last_size p'
  | None, [] => Done min_len
  | None, c :: p' =>
      if existsb (Ascii.eqb c) ["6"]%char then go (min_len + 16) 16 p'
      else if existsb (Ascii.eqb c) ["I"; "l"; "L"; "T"]%char then go (min_len + 4) 4 p'
      else if existsb (Ascii.eqb c) ["s"; "S"]%char then go (min_len + 2) 2 p'
      else if existsb (Ascii.eqb c) ["N"]%char then
        format_min_length_at enum_width (Some []) min_len last_size p'
      else if existsb (Ascii.eqb c) ["b"; "B"; "F"; "f"]%char then go (min_len + 1) 1 p'
      else if existsb (Ascii.eqb c) ["o"]%char then Done (min_len - last_size)
      else if existsb (Ascii.eqb c) ["e"; "E"]%char then Done min_len
      else if existsb (Ascii.eqb c) ["d"; "D"; "t"; "X"; "x"; "A"; "a"; "Z"]%char then Done min_len
      else Done INT_MAX
  end.
Definition format_min_length (enum_width : list ascii -> option Z) (format : string) : outcome Z :=
  format_min_length_at enum_width None 0 0 (chars format).

(** The part of a string after the first occurrence of a character
    ([strchr (s, c) + 1]), and the part before it. *)
Fixpoint split_at (c : ascii) (p : list ascii) : option (list ascii * list ascii) :=
  match p with
  | [] => None
  | d :: p' =>
      if Ascii.eqb d c then Some ([], p')
      else match split_at c p' with
           | Some (a, b) => Some (d :: a, b)
           | None => None
           end
  end.

Section parse.
Context `{Allocator} {expr : Type}.
(** The option spaces ([universes]), the FQDN space among them, and the widths
    of the enumerations. *)
Context (all_universes : list universe) (fqdn_universe : universe).
Context (enum_width : list ascii -> option Z).

#[local] Abbreviation state := (option_state expr).

(** ** Saving one option *)

(** Where the bytes of an option are: in a shared buffer, or anywhere else (a
    null [bp]). *)
Inductive bufsrc := InBuffer (b : nat) (off : Z) | Elsewhere (data : list Z).

(** Drop trailing NULs of a text option, but not below the minimal length. *)
Fixpoint strip_nulls (k : nat) (h : heap) (b : nat) (off len min_len : Z) (flags : Z)
    : outcome (Z * Z) :=
  match k with
  | O => Done (len, flags)
  | S k' =>
      if min_len <? len then
        c ← buf_read h b (off + len - 1) 1;
        match c with
        | [0] => strip_nulls k' h b off (len - 1) min_len (Z.lor flags OPTION_HAD_NULLS)
        | _ => Done (len, flags)
        end
      else Done (len, flags)
  end.

Definition tag_fits (u : universe) (code : Z) : outcome bool :=
  if tag_size u =? 1 then Done (code <=? 255)
  else if tag_size u =? 2 then Done (code <=? 65535)
  else if tag_size u =? 4 then Done (code <=? 4294967295)
  else Fatal.

Definition unknown_option (u : universe) (code : Z) : option_def :=
  mk_option ("unknown-" +:+ pretty code) default_option_format (u_index u) code.

Definition prepare_option_buffer (h : heap) (u : universe) (src : bufsrc) (length code : Z)
    (terminatep : bool) : outcome (heap * option (entry expr)) :=
  fits ← tag_fits u code;
  if negb fits then Done (h, None)
  else
    (* the option definition, made up when the space has none *)
    let '(option, h1) :=
      match code_hash u code with
      | Some o => (Some o, h)
      | None => let '(ok, h1) := tick h in
                (if ok then Some (unknown_option u code) else None, h1)
      end in
    match option with
    | None => Done (h1, None)
    | Some o =>
        let '(ok, h2) := tick h1 in
        if negb ok then Done (h2, None)
        else
          (* the buffer *)
          let size := length + (if terminatep then 1 else 0) in
          r ← match src with
              | InBuffer b off => Done (h2, Some (b, off))
              | Elsewhere data =>
                  match buffer_allocate h2 size with
                  | (None, h3) => Done (h3, None)
                  | (Some b, h3) =>
                      bytes ← rdn data 0 size;
                      h4 ← buf_write h3 b 0 bytes;
                      Done (h4, Some (b, 0))
                  end
              end;
          match r with
          | (h3, None) => Done (h3, None)
          | (h3, Some (b, off)) =>
              h4 ← (if terminatep then buf_write h3 b (off + length) [0] else Done h3);
              lf ← (if format_has_text (opt_format o) then
                      min_len ← format_min_length enum_width (opt_format o);
                      strip_nulls (Z.to_nat length) h4 b off length (u32 min_len) 0
                    else Done (length, 0));
              Done (h4, Some (mk_oc None o (Some (mk_ds b off (fst lf) terminatep)) (snd lf), []))
          end
    end.

Definition save_option_buffer (h : heap) (u : universe) (st : state) (src : bufsrc)
    (length code : Z) (terminatep : bool) : outcome (heap * state * bool) :=
  r ← prepare_option_buffer h u src length code terminatep;
  match r with
  | (h1, None) => Done (h1, st, false)
  | (h1, Some oc) => '(h2, st2) ← save_option h1 u st oc; Done (h2, st2, true)
  end.

Definition append_option_buffer (h : heap) (u : universe) (st : state) (src : bufsrc)
    (length code : Z) (terminatep : bool) : outcome (heap * state * bool) :=
  r ← prepare_option_buffer h u src length code terminatep;
  match r with
  | (h1, None) => Done (h1, st, false)
  | (h1, Some oc) => '(h2, st2) ← also_save_option h1 u st oc; Done (h2, st2, true)
  end.

(** ** Encapsulated spaces *)
Fixpoint find_universe (name : list ascii) (l : list universe) : option universe :=
  match l with
  | [] => None
  | u :: l' => if bool_decide (chars (u_name u) = name) then Some u else find_universe name l'
  end.

Definition find_option_universe (eopt : option_def) (uname : option string) : option universe :=
  match split_at "E" (chars (opt_format eopt)) with
  | None => None
  | Some (_, s) =>
      match split_at "." s with
      | Some (name, []) =>
          match name with
          | [] => match uname with
                  | Some n => find_universe (chars n) all_universes
                  | None => None
                  end
          | _ => find_universe name all_universes
          end
      | _ => None
      end
  end.

Definition format_head (o : option_def) : option ascii := head (chars (opt_format o)).

(** [r] and, when it has succeeded, [k] (the code's [goto bad]). *)
Definition and_then (r : outcome (heap * state * bool))
    (k : heap -> state -> outcome (heap * state * bool)) : outcome (heap * state * bool) :=
  '(h, st, ok) ← r; if (ok : bool) then k h st else Done (h, st, false).

Definition FQDN_NO_CLIENT_UPDATE : Z := 1.
Definition FQDN_SERVER_UPDATE : Z := 2.
Definition FQDN_ENCODED : Z := 3.
Definition FQDN_RCODE1 : Z := 4.
Definition FQDN_RCODE2 : Z := 5.
Definition FQDN_HOSTNAME : Z := 6.
Definition FQDN_DOMAINNAME : Z := 7.
Definition FQDN_FQDN : Z := 8.

Definition flag (b : bool) : Z := if b then 1 else 0.
Definition set_byte (h : heap) (bp : nat) (i v : Z) : outcome heap := buf_write h bp i [v].
Definition get_byte (h : heap) (bp : nat) (i : Z) : outcome Z := l ← buf_read h bp i 1; rd l 0.

(** The number of bytes from index 3 on up to the first dot. *)
Fixpoint label_length (k : nat) (buffer : list Z) (i length : Z) : outcome Z :=
  match k with
  | O => Done (i - 3)
  | S k' =>
      if i <? length then
        c ← rd buffer i;
        if c =? 46 then Done (i - 3) else label_length k' buffer (i + 1) length
      else Done (i - 3)
  end.

Record label_state := mk_label {
  lb_heap : heap; lb_s : Z; lb_total : Z; lb_first : Z }.

(** One round of the loop over the labels of an encoded name.  The loop is
    left with [None] where the code returns 0, and otherwise with whether the
    terminating root label was seen. *)
Definition label_step (bp : nat) (length : Z) (s : label_state)
    : outcome (label_state + (label_state * option bool)) :=
  if lb_s s <? length + 2 then
    len ← get_byte (lb_heap s) bp (lb_s s);
    if 63 <? len then Done (inr (s, None))
    else if len =? 0 then Done (inr (s, Some true))
    else if length + 3 <? lb_s s + len then Done (inr (s, None))
    else
      h' ← set_byte (lb_heap s) bp (lb_s s) 46;
      Done (inl (mk_label h' (lb_s s + len + 1) (lb_total s + len + 1)
                   (if lb_first s =? 0 then len else lb_first s)))
  else Done (inr (s, Some false)).

Definition fqdn_plain_name (h : heap) (st : state) (bp : nat) (buffer : list Z) (length : Z)
    : outcome (heap * state * bool) :=
  let save h st off len code term :=
    save_option_buffer h fqdn_universe st (InBuffer bp off) len code term in
  last ← rd buffer (length - 1);
  '(h, length) ← (if last =? 0
                  then h' ← set_byte h bp 1 1; Done (h', length - 1)
                  else Done (h, length));
  i ← label_length (Z.to_nat length) buffer 3 length;
  and_then (if i =? 0 then Done (h, st, true) else save h st 5 i FQDN_HOSTNAME false) (fun h st =>
  and_then (if 4 + i <? length
            then save h st (6 + i) (length - 4 - i) FQDN_DOMAINNAME true
            else Done (h, st, true)) (fun h st =>
  if 3 <? length then save h st 5 (length - 3) FQDN_FQDN true else Done (h, st, true))).

Definition fqdn_encoded_name (h : heap) (st : state) (bp : nat) (length : Z)
    : outcome (heap * state * bool) :=
  let save h st off len code term :=
    save_option_buffer h fqdn_universe st (InBuffer bp off) len code term in
  r ← for_loop (Z.to_nat length) 0 (fun _ => label_step bp length) (mk_label h 5 0 0);
  match r with
  | inl _ => Running
  | inr (s, None) => Done (lb_heap s, st, false)
  | inr (s, Some terminated) =>
      let h := lb_heap s in
      let total_len := if 0 <? lb_total s then lb_total s - 1 else lb_total s in
      let first_len := if (terminated : bool) then lb_first s else total_len in
      and_then (if 0 <? first_len then save h st 6 first_len FQDN_HOSTNAME false
                else Done (h, st, true)) (fun h st =>
      and_then (if (0 <? total_len) && negb (first_len =? total_len)
                then save h st (6 + first_len) (total_len - first_len) FQDN_DOMAINNAME true
                else Done (h, st, true)) (fun h st =>
      if 0 <? total_len then save h st 6 total_len FQDN_FQDN true else Done (h, st, true)))
  end.

Definition fqdn_universe_decode (h : heap) (st : state) (buffer : list Z) (length : Z)
    : outcome (heap * state * bool) :=
  if length <? 3 then Done (h, st, false)
  else
    match buffer_allocate h (length + 4) with
    | (None, h1) => Done (h1, st, false)
    | (Some bp, h1) =>
        let save h st off len code term :=
          save_option_buffer h fqdn_universe st (InBuffer bp off) len code term in
        src ← rdn buffer 1 (length - 1);
        h2 ← buf_write h1 bp 3 src;
        b0 ← rd buffer 0;
        let encoded := negb (Z.land b0 4 =? 0) in
        h3 ← set_byte h2 bp 0 (flag encoded);
        and_then (save h3 st 0 1 FQDN_ENCODED false) (fun h st =>
        h ← set_byte h bp 2 (flag (negb (Z.land b0 1 =? 0)));
        h ← set_byte h bp 1 (flag (negb (Z.land b0 2 =? 0)));
        and_then (if encoded then fqdn_encoded_name h st bp length
                  else fqdn_plain_name h st bp buffer length) (fun h st =>
        and_then (save h st 1 1 FQDN_NO_CLIENT_UPDATE false) (fun h st =>
        and_then (save h st 2 1 FQDN_SERVER_UPDATE false) (fun h st =>
        and_then (save h st 3 1 FQDN_RCODE1 false) (fun h st =>
        save h st 4 1 FQDN_RCODE2 false)))))
    end.

(** ** The parser *)
Record parse_state := mk_parse { ps_heap : heap; ps_opts : state; ps_offset : Z }.

Section buffer.
(** [decode]: the decoding function of an encapsulated space. *)
Context (decode : decoder -> heap -> state -> list Z -> Z -> universe ->
                  outcome (heap * state * bool)).

Definition parse_encapsulated_suboptions (h : heap) (st : state) (eopt : option_def)
    (buffer : list Z) (len : Z) (uname : option string) : outcome (heap * state * bool) :=
  match find_option_universe eopt uname with
  | None => Done (h, st, false)
  | Some u =>
      match u_decode u with
      | None => Done (h, st, false)
      | Some d =>
          '(h', st', i) ← decode d h st buffer len u;
          Done (h', st', match format_head eopt with
                         | Some c => if Ascii.eqb c "E" then i else false
                         | None => false
                         end)
      end
  end.

Definition is_encapsulation (o : option_def) : bool :=
  match format_head o with
  | Some c => Ascii.eqb c "e" || Ascii.eqb c "E"
  | None => false
  end.

(** A second instance of an option in a space that concatenates. *)
Definition concat_option (h : heap) (st : state) (u : universe) (code : Z) (op : entry expr)
    (bp : nat) (offset len : Z) : outcome (heap * state * bool) :=
  let old := oc_data (fst op) in
  let oldlen := match old with Some d => ds_len d | None => 0 end in
  match buffer_allocate h (oldlen + len) with
  | (None, h1) => Done (h1, st, false)
  | (Some nb, h1) =>
      a ← match old with Some d => ds_bytes h1 d | None => Done [] end;
      h2 ← buf_write h1 nb 0 a;
      b ← buf_read h2 bp offset len;
      h3 ← buf_write h2 nb oldlen b;
      st' ← alter_option u st code (fun e =>
        (mk_oc (oc_expr (fst e)) (oc_option (fst e))
           (Some (mk_ds nb 0 (oldlen + len) false)) (oc_flags (fst e)), snd e));
      Done (h3, st', true)
  end.

(** A second instance of an option in a space that does not: it goes to the
    end of the [next] list. *)
Definition chain_option (h : heap) (st : state) (u : universe) (code : Z)
    (bp : nat) (offset len : Z) : outcome (heap * state * bool) :=
  let '(ok, h1) := tick h in
  if negb ok then Done (h1, st, false)
  else
    st' ← alter_option u st code (fun e =>
      (fst e, snd e ++ [mk_oc None (oc_option (default (fst e) (last (snd e))))
                          (Some (mk_ds bp offset len false)) 0]));
    Done (h1, st', true).

Definition keep_option (h : heap) (st : state) (u : universe) (code : Z)
    (bp : nat) (offset len : Z) : outcome (heap * state * bool) :=
  op ← lookup_option u st code;
  match op with
  | Some op =>
      if concat_duplicates u then concat_option h st u code op bp offset len
      else chain_option h st u code bp offset len
  | None => save_option_buffer h u st (InBuffer bp offset) len code true
  end.

(** One round of the loop; it is left with the status the code returns. *)
Definition parse_step (u : universe) (buffer : list Z) (length : Z) (bp : nat) (s : parse_state)
    : outcome (parse_state + (heap * state * bool)) :=
  let '(mk_parse h st offset) := s in
  if length <? u32 (offset + tag_size u) then Done (inr (h, st, true))
  else
    code ← get_tag u buffer offset;
    if code =? u_end u then Done (inr (h, st, true))
    else
      let offset := u32 (offset + tag_size u) in
      if code =? DHO_PAD then Done (inl (mk_parse h st offset))
      else if length <? u32 (offset + length_size u) then Done (inr (h, st, false))
      else
        len ← match get_length u with
              | Some g => g buffer offset
              | None => if length_size u =? 0 then Done (u32 (length - tag_size u)) else Fatal
              end;
        let offset := u32 (offset + length_size u) in
        if length <? u32 (offset + len) then Done (inr (h, st, false))
        else
          '(h, st, decoded) ←
             match code_hash u code with
             | Some o =>
                 if is_encapsulation o then
                   sub ← buf_read h bp offset len;
                   parse_encapsulated_suboptions h st o sub len None
                 else Done (h, st, false)
             | None => Done (h, st, false)
             end;
          '(h, st, ok) ← (if (decoded : bool) then Done (h, st, true)
                          else keep_option h st u code bp offset len);
          if (ok : bool) then Done (inl (mk_parse h st (u32 (offset + len))))
          else Done (inr (h, st, false)).

Definition parse_option_buffer_with (h : heap) (st : state) (buffer : list Z) (length : Z)
    (u : universe) : outcome (heap * state * bool) :=
  match buffer_allocate h length with
  | (None, h1) => Done (h1, st, false)
  | (Some bp, h1) =>
      src ← rdn buffer 0 length;
      h2 ← buf_write h1 bp 0 src;
      r ← for_loop (S (Z.to_nat length)) 0 (fun _ => parse_step u buffer length bp)
            (mk_parse h2 st 0);
      match r with
      | inl _ => Running
      | inr r => Done r
      end
  end.
End buffer.

(** The recursion through encapsulated spaces, cut at a nesting [depth]. *)
Fixpoint decode (depth : nat) (d : decoder) (h : heap) (st : state) (buffer : list Z)
    (length : Z) (u : universe) : outcome (heap * state * bool) :=
  match d with
  | DecodeFqdn => fqdn_universe_decode h st buffer length
  | DecodeBuffer =>
      match depth with
      | O => Running
      | S depth' => parse_option_buffer_with (decode depth') h st buffer length u
      end
  end.

Definition parse_option_buffer (h : heap) (st : state) (buffer : list Z) (length : Z)
    (u : universe) : outcome (heap * state * bool) :=
  decode (S (Z.to_nat length)) DecodeBuffer h st buffer length u.

(** ** Whole packets *)

(** The parts of [struct packet] and [struct dhcp_packet] the parser uses. *)
Record packet := mk_packet {
  packet_length : Z;
  raw_sname : list Z; raw_file : list Z; raw_options : list Z;
  pkt_options : state;
  options_valid : bool }.

(** [op->data.data[0]]; the NUL that ends the data is there when the data is
    empty. *)
Definition first_byte (h : heap) (op : entry expr) : outcome (option Z) :=
  match oc_data (fst op) with
  | None => Done None
  | Some d => b ← get_byte h (ds_buf d) (ds_off d); Done (Some b)
  end.

(** The value of the overload option, read through the option cache that the
    lookup gave; a further instance of the option changes that cache. *)
Definition overload_value (dhcp_universe : universe) (h : heap) (st : state) : outcome Z :=
  op ← lookup_option dhcp_universe st DHO_DHCP_OPTION_OVERLOAD;
  match op with
  | None => Fault
  | Some op => b ← first_byte h op; match b with Some v => Done v | None => Fault end
  end.

Definition parse_options (dhcp_universe : universe) (h : heap) (p : packet)
    : outcome (heap * packet * bool) :=
  let with_options (p : packet) st valid :=
    mk_packet (packet_length p) (raw_sname p) (raw_file p) (raw_options p) st valid in
  cookie ← rdn (raw_options p) 0 4;
  if negb (bool_decide (cookie = DHCP_OPTIONS_COOKIE)) then
    Done (h, with_options p (pkt_options p) false, true)
  else
    let length := u32 (packet_length p - DHCP_FIXED_NON_UDP - 4) in
    '(h, st, ok) ← parse_option_buffer h (pkt_options p) (drop 4 (raw_options p)) length dhcp_universe;
    accept ← (if (ok : bool) then Done true
              else
                op ← lookup_option dhcp_universe st DHO_DHCP_MESSAGE_TYPE;
                match op with
                | None => Done false
                | Some op =>
                    b ← first_byte h op;
                    match b with
                    | None => Done false
                    | Some t => Done ((t =? DHCPOFFER) || (t =? DHCPACK) || (t =? DHCPNAK))
                    end
                end);
    if negb accept then Done (h, with_options p st (options_valid p), false)
    else
      op ← lookup_option dhcp_universe st DHO_DHCP_OPTION_OVERLOAD;
      match op with
      | None => Done (h, with_options p st true, true)
      | Some _ =>
          v ← overload_value dhcp_universe h st;
          '(h, st, ok) ← (if negb (Z.land v 1 =? 0)
                          then parse_option_buffer h st (raw_file p) (zlen (raw_file p)) dhcp_universe
                          else Done (h, st, true));
          if negb ok then Done (h, with_options p st (options_valid p), false)
          else
            v ← overload_value dhcp_universe h st;
            '(h, st, ok) ← (if negb (Z.land v 2 =? 0)
                            then parse_option_buffer h st (raw_sname p) (zlen (raw_sname p)) dhcp_universe
                            else Done (h, st, true));
            if negb ok then Done (h, with_options p st (options_valid p), false)
            else Done (h, with_options p st true, true)
      end.

End parse.
