(* ===== verification/OptionSafety.v ===== *)
(** * The option parser is memory safe and terminates

    On an arbitrary buffer, [parse_option_buffer] (with the spaces it decodes
    recursively and [fqdn_universe_decode]) is safe: no access is out of
    bounds, no loop runs on, and it returns an option state that is well
    formed, every data string in it pointing inside its buffer.  The one way it
    does not return is the [log_fatal] of [cons], when there is no memory for a
    new pair of a chained space. *)

From Stdlib Require Import Ascii String.
From stdpp Require Import base tactics list numbers strings.
From S2P Require Import Prelude Convert OptionStore OptionParse.

#[local] Open Scope Z_scope.

(** ** Heaps *)
Definition wf_heap (h : heap) : Prop := Forall bytes (bufs h).

(** Buffers stay where they are and keep their size; time goes on. *)
Definition heap_le (h h' : heap) : Prop :=
  (ticks h <= ticks h')%nat /\
  forall b d, bufs h !! b = Some d -> exists d', bufs h' !! b = Some d' /\ length d' = length d.

Definition in_buf (h : heap) (b : nat) (off len : Z) : Prop :=
  exists d, bufs h !! b = Some d /\ 0 <= off /\ 0 <= len /\ off + len <= zlen d.

(** A data string lies inside its buffer, with one byte to spare. *)
Definition valid_ds (h : heap) (d : data_string) : Prop :=
  0 <= ds_len d /\ in_buf h (ds_buf d) (ds_off d) (ds_len d + 1).

#[export] Instance heap_le_preorder : PreOrder heap_le.
Proof.
  split.
  - intros h. split; [lia|]. intros b d E. eauto.
  - intros h1 h2 h3 [? H12] [? H23]. split; [lia|]. intros b d E. destruct (H12 b d E) as (d2 & E2 & L2).
    destruct (H23 b d2 E2) as (d3 & E3 & L3). exists d3. split; [done|congruence].
Qed.

Lemma in_buf_le h h' b off len : heap_le h h' -> in_buf h b off len -> in_buf h' b off len.
Proof.
  intros [_ Hle] (d & E & H). destruct (Hle b d E) as (d' & E' & L). exists d'. split; [done|].
  unfold zlen in *. rewrite L. lia.
Qed.
Lemma valid_ds_le h h' d : heap_le h h' -> valid_ds h d -> valid_ds h' d.
Proof. intros Hle [??]. split; [done|]. by eapply in_buf_le. Qed.
Lemma in_buf_sub h b off len off' len' :
  in_buf h b off len -> off <= off' -> 0 <= len' -> off' + len' <= off + len -> in_buf h b off' len'.
Proof. intros (d & E & H) ???. exists d. split; [done|lia]. Qed.

Lemma buf_read_in h b off len :
  wf_heap h -> in_buf h b off len ->
  exists l, buf_read h b off len = Done l /\ zlen l = len /\ bytes l.
Proof.
  intros Hh (d & E & H0 & H1 & H2). unfold buf_read. rewrite E, rdn_in by lia. eexists. split; [done|].
  split.
  - unfold zlen in *. rewrite length_take, length_drop. lia.
  - apply Forall_take, Forall_drop. by eapply Forall_lookup_1.
Qed.

Lemma buf_write_in h b off src :
  wf_heap h -> bytes src -> in_buf h b off (zlen src) ->
  exists h', buf_write h b off src = Done h' /\ wf_heap h' /\ heap_le h h' /\ ticks h' = ticks h /\
    length (bufs h') = length (bufs h).
Proof.
  intros Hh Hs (d & E & H0 & _ & H2). unfold buf_write. rewrite E.
  destruct (wrn d off src) as [d'| | |] eqn:W; try (rewrite wrn_in in W by done; discriminate).
  eexists. split; [done|]. simpl. pose proof (wrn_zlen _ _ _ _ W) as L.
  split; [|split; [|split; [done|by rewrite length_insert]]].
  - apply Forall_insert; [done|]. rewrite wrn_in in W by done. injection W as <-.
    assert (Hd : bytes d) by (by eapply Forall_lookup_1).
    rewrite !Forall_app. split_and!; auto using Forall_take, Forall_drop.
  - split; [simpl; lia|]. intros c e Ec. simpl. destruct (decide (c = b)) as [->|Hne].
    + rewrite E in Ec. injection Ec as <-. exists d'. split; [|unfold zlen in L; lia].
      apply list_lookup_insert_eq. by eapply lookup_lt_Some.
    + exists e. by rewrite list_lookup_insert_ne.
Qed.

Lemma tick_le `{Allocator} h ok h' :
  tick h = (ok, h') -> bufs h' = bufs h /\ heap_le h h' /\ (wf_heap h -> wf_heap h').
Proof.
  intros [= _ <-]. split_and!; [done| |done]. split; [simpl; lia|]. intros b d E; eauto.
Qed.

Lemma buffer_allocate_spec `{Allocator} h n r h' :
  wf_heap h -> 0 <= n -> buffer_allocate h n = (r, h') ->
  wf_heap h' /\ heap_le h h' /\
  match r with
  | Some b => b = length (bufs h) /\ in_buf h' b 0 (n + 1) /\
              bufs h' = bufs h ++ [replicate (Z.to_nat n + 1) 0]
  | None => bufs h' = bufs h
  end.
Proof.
  intros Hh Hn. unfold buffer_allocate, tick. destruct (mem_ok (ticks h)); intros [= <- <-]; simpl.
  - split_and!; try done.
    + apply Forall_app. split; [done|]. constructor; [|constructor]. apply Forall_replicate. unfold byte; lia.
    + split; [simpl; lia|]. intros b d E. exists d. split; [|done]. simpl. by apply lookup_app_l_Some.
    + eexists. split; [by apply list_lookup_middle|]. unfold zlen. rewrite length_replicate. lia.
  - split_and!; [done| |done]. split; [simpl; lia|]. intros b d E; eauto.
Qed.

(** ** Spaces *)
Section safety.
Context `{Allocator} {expr : Type}.
Context (U : list universe) (fqdn_universe : universe) (enum_width : list ascii -> option Z).

(** A space as the program sets one up: a container, a tag of 1, 2 or 4 bytes
    and a length of 1 or 2 bytes (or none), accessors that read just those
    bytes, and option definitions whose formats can be measured. *)
Record wf_universe (u : universe) : Prop := {
  wu_container : u_container u <> NoContainer;
  wu_tag : tag_size u = 1 \/ tag_size u = 2 \/ tag_size u = 4;
  wu_get_tag : forall buf i, bytes buf -> 0 <= i -> i + tag_size u <= zlen buf ->
    exists c, get_tag u buf i = Done c /\ 0 <= c < 2 ^ (8 * tag_size u);
  wu_get_length : match get_length u with
    | Some g => (length_size u = 1 \/ length_size u = 2) /\
        forall buf i, bytes buf -> 0 <= i -> i + length_size u <= zlen buf ->
          exists n, g buf i = Done n /\ 0 <= n < 2 ^ (8 * length_size u)
    | None => length_size u = 0
    end;
  wu_code : forall c o, code_hash u c = Some o -> opt_code o = c;
  wu_format : forall c o, code_hash u c = Some o ->
    format_has_text (opt_format o) = true ->
    exists m, format_min_length enum_width (opt_format o) = Done m }.

Record wf_universes : Prop := {
  ws_all : Forall wf_universe U;
  ws_fqdn : fqdn_universe ∈ U;
  ws_index : forall u v, u ∈ U -> v ∈ U -> Z.to_nat (u_index u) = Z.to_nat (u_index v) -> u = v }.

(** An option cache with data, as the parser makes them. *)
Definition valid_entry (h : heap) (e : entry expr) : Prop :=
  exists d, oc_data e.1 = Some d /\ valid_ds h d.

Lemma valid_entry_le h h' e : heap_le h h' -> valid_entry h e -> valid_entry h' e.
Proof. intros Hle (d & E & Hd). exists d. split; [done|]. by eapply valid_ds_le. Qed.

(** The options that are known to be there ([keep]): nothing removes them. *)
Context (keep : universe -> Z -> Prop).
Definition kept (u : universe) (st : option_state expr) : Prop :=
  forall c, keep u c -> space_get u st c <> None.

Definition wf_options (h : heap) (st : option_state expr) : Prop :=
  wf_heap h /\
  forall u, u ∈ U -> wf_space u st /\
    (forall c e, space_get u st c = Some e -> valid_entry h e) /\ kept u st.

(** There is a chained space, and an allocation from [h] on fails: what it
    takes for [cons] to stop the program. *)
Definition cons_stops (h : heap) : Prop :=
  (exists u, u ∈ U /\ u_container u = ByChain) /\
  exists n, (ticks h <= n)%nat /\ mem_ok n = false.

(** The result of a piece of the parser: it returns, the heap only grows and
    the state stays well formed; or [cons] stops the program. *)
Definition safe (h : heap) (r : outcome (heap * option_state expr * bool)) : Prop :=
  (exists h' st' ok, r = Done (h', st', ok) /\ heap_le h h' /\ wf_options h' st') \/
  (r = Fatal /\ cons_stops h).

Hypothesis HU : wf_universes.

Lemma wf_in u : u ∈ U -> wf_universe u.
Proof. intros Hu. destruct HU as [Ha _ _]. rewrite Forall_forall in Ha. by apply Ha. Qed.

Lemma safe_Done h h' st ok : heap_le h h' -> wf_options h' st -> safe h (Done (h', st, ok)).
Proof. intros ? W. left. by exists h', st, ok. Qed.

Lemma cons_stops_le h h' : heap_le h h' -> cons_stops h' -> cons_stops h.
Proof. intros [Hle _] (Hu & n & Hn & E). split; [done|]. exists n. split; [lia|done]. Qed.

Lemma safe_le h0 h r : heap_le h0 h -> safe h r -> safe h0 r.
Proof.
  intros Hle [(h1 & st1 & ok & -> & Hle1 & Hw)|[-> F]]; [apply safe_Done; [by etrans|done]|].
  right. split; [done|by eapply cons_stops_le].
Qed.

(** A piece of the parser and what follows it. *)
Lemma safe_bind h r k :
  safe h r ->
  (forall h' st' ok, heap_le h h' -> wf_options h' st' -> safe h' (k (h', st', ok))) ->
  safe h (x ← r; k x).
Proof.
  intros [(h1 & st1 & ok & -> & Hle & Hw)|[-> F]] Hk; [|by right].
  rewrite bind_ret. eapply safe_le; [done|]. by apply Hk.
Qed.

Lemma wf_options_heap h h' st : heap_le h h' -> wf_heap h' -> wf_options h st -> wf_options h' st.
Proof.
  intros Hle Hh [_ Hs]. split; [done|]. intros u Hu. destruct (Hs u Hu) as (Hw & Hv & Hk).
  split; [done|]. split; [|done]. intros c e E. eapply valid_entry_le; [done|]. by eapply Hv.
Qed.

Lemma wf_options_update h h' u st st' :
  wf_options h st -> u ∈ U -> heap_le h h' -> wf_heap h' -> wf_space u st' -> same_but u st st' ->
  (forall c e, space_get u st' c = Some e -> valid_entry h' e) -> kept u st' -> wf_options h' st'.
Proof.
  intros Hw Hu Hle Hh Hs Hsame Hv Hk. pose proof (wf_options_heap _ _ _ Hle Hh Hw) as [_ Hw'].
  split; [done|]. intros v Hv'. destruct (decide (Z.to_nat (u_index v) = Z.to_nat (u_index u))) as [E|E].
  - apply (ws_index HU) in E; [subst; by split|done|done].
  - destruct (Hw' v Hv') as ((H0 & sl & Hsl & Hwf) & Hval & Hk'). destruct Hsame as (_ & _ & _ & Hl).
    split; [|split].
    + split; [done|]. exists sl. by rewrite Hl.
    + intros c e. unfold space_get. rewrite Hl by done. apply Hval.
    + intros c Hc. unfold space_get. rewrite Hl by done. by apply Hk'.
Qed.

Lemma space_of u : u ∈ U -> OptionSpace (expr := expr) u.
Proof. intros Hu. apply container_space. by apply wf_in. Qed.

(** ** Saving one option *)
Lemma strip_nulls_safe k : forall h b off len m flags,
  wf_heap h -> in_buf h b off len -> 0 <= m ->
  exists n f, strip_nulls k h b off len m flags = Done (n, f) /\ 0 <= n <= len.
Proof.
  induction k as [|k IH]; intros h b off len m flags Hh Hb Hm; simpl.
  - exists len, flags. split; [done|]. destruct Hb as (? & ? & ?). lia.
  - zcase; [|exists len, flags; destruct Hb as (? & ? & ?); split; [done|lia]].
    destruct (buf_read_in h b (off + len - 1) 1 Hh) as (l & -> & Hl & _).
    { eapply in_buf_sub; [done|lia..]. }
    dred. destruct l as [|[|p|p] [|? ?]]; try (exists len, flags; split; [done|lia]).
    destruct (IH h b off (len - 1) m (Z.lor flags OPTION_HAD_NULLS)) as (n & f & E & Hn); [done| |done|].
    { eapply in_buf_sub; [done|lia..]. }
    exists n, f. split; [done|lia].
Qed.

Lemma tag_fits_done u code : u ∈ U -> exists ok, tag_fits u code = Done ok.
Proof.
  intros Hu. unfold tag_fits. destruct (wu_tag u (wf_in u Hu)) as [-> | [-> | ->]]; simpl; eauto.
Qed.

(** The NUL that [prepare_option_buffer] may write. *)
Definition terminate (h : heap) (b : nat) (i : Z) (terminatep : bool) : outcome heap :=
  if terminatep then buf_write h b i [0] else Done h.

Lemma terminate_safe h b i (t : bool) :
  wf_heap h -> in_buf h b i (if t then 1 else 0) ->
  exists h', terminate h b i t = Done h' /\ wf_heap h' /\ heap_le h h'.
Proof.
  intros Hh Hb. unfold terminate. destruct t.
  - destruct (buf_write_in h b i [0]) as (h' & E & ? & ? & _); eauto.
    constructor; [|constructor]. unfold byte; lia.
  - by exists h.
Qed.

Lemma prepare_safe h u b off length code (t : bool) :
  u ∈ U -> wf_heap h -> 0 <= length -> in_buf h b off (length + 1) ->
  exists h' r, prepare_option_buffer (expr := expr) enum_width h u (InBuffer b off) length code t
                 = Done (h', r) /\ wf_heap h' /\ heap_le h h' /\
    forall e, r = Some e -> entry_code e = code /\ valid_entry h' e.
Proof.
  intros Hu Hh Hl Hb. unfold prepare_option_buffer.
  destruct (tag_fits_done u code Hu) as ([] & ->); dred; [simpl negb; cbv iota|exists h, None; done].
  set (o := match code_hash u code with Some o => (Some o, h) | None => _ end).
  assert (Ho : exists r h1, o = (r, h1) /\ wf_heap h1 /\ heap_le h h1 /\
    forall d, r = Some d -> opt_code d = code /\ (format_has_text (opt_format d) = true ->
       exists m, format_min_length enum_width (opt_format d) = Done m)).
  { subst o. destruct (code_hash u code) as [d|] eqn:E.
    - exists (Some d), h. split_and!; try done. intros ? [= <-].
      split; [exact (wu_code u (wf_in u Hu) _ _ E)|exact (wu_format u (wf_in u Hu) _ _ E)].
    - destruct (tick h) as [ok h1] eqn:T. destruct (tick_le _ _ _ T) as (_ & ? & ?).
      do 2 eexists. split; [done|]. split_and!; auto. intros d. destruct ok; [|done]. by intros [= <-]. }
  destruct Ho as (r & h1 & -> & Hh1 & Hle1 & Hd). destruct r as [d|]; [|exists h1, None; done].
  destruct (Hd d eq_refl) as [Hcode Hmin].
  destruct (tick h1) as [ok h2] eqn:T. destruct (tick_le _ _ _ T) as (_ & Hle2 & Hh2).
  assert (Hle : heap_le h h2) by (by etrans).
  destruct ok; simpl negb; cbv iota; [|by exists h2, None; split_and!; auto]. dred.
  destruct (terminate_safe h2 b (off + length) t) as (h3 & E3 & Hh3 & Hle3); [auto|..].
  { eapply in_buf_sub; [by eapply in_buf_le|..]; destruct t; lia. }
  unfold terminate in E3. rewrite E3. dred.
  assert (Hb3 : in_buf h3 b off (length + 1)).
  { eapply in_buf_sub; [exact (in_buf_le _ _ _ _ _ (transitivity Hle Hle3) Hb)|..]; destruct t; lia. }
  assert (Hlf : exists n f, (if format_has_text (opt_format d) then
      m ← format_min_length enum_width (opt_format d);
      strip_nulls (Z.to_nat length) h3 b off length (u32 m) 0 else Done (length, 0)) = Done (n, f)
      /\ 0 <= n <= length).
  { destruct (format_has_text (opt_format d)); [|exists length, 0; split; [done|lia]].
    destruct (Hmin eq_refl) as (m & ->). dred.
    apply strip_nulls_safe; [done|eapply in_buf_sub; [done|lia..]|].
    unfold u32. apply Z.mod_pos_bound. lia. }
  destruct Hlf as (n & f & -> & Hn). dred. do 2 eexists. split; [done|]. split; [done|].
  split; [by etrans|]. intros e [= <-]. split; [done|]. eexists. split; [done|]. split; simpl; [lia|].
  eapply in_buf_sub; [done|lia..].
Qed.

Lemma save_safe h u st b off length code (t : bool) :
  u ∈ U -> wf_options h st -> 0 <= length -> in_buf h b off (length + 1) ->
  safe h (save_option_buffer enum_width h u st (InBuffer b off) length code t).
Proof.
  intros Hu Hw Hl Hb. unfold save_option_buffer.
  destruct (prepare_safe h u b off length code t Hu (proj1 Hw) Hl Hb) as (h1 & r & -> & Hh1 & Hle1 & He).
  dred. destruct r as [e|]; [|by apply safe_Done, (wf_options_heap h)].
  destruct (He e eq_refl) as [Hc Hv]. pose proof (wf_options_heap _ _ _ Hle1 Hh1 Hw) as [_ Hw1].
  destruct (Hw1 u Hu) as (Hwf & Hval & Hkept). pose proof (space_of u Hu).
  unfold save_option.
  destruct (space_save h1 st e false Hwf) as
    [(h2 & st2 & E & Hwf2 & Hsame & Hbufs & Hticks & Hget)|(-> & HuC & n & Hn & En)].
  2: { right. split; [done|]. apply (cons_stops_le h h1); [done|]. split; [by exists u|]. exists n. split; [lia|done]. }
  rewrite E. dred.
  assert (Hle2 : heap_le h1 h2) by (split; [done|]; intros x d Ex; exists d; by rewrite Hbufs).
  assert (Hh2 : wf_heap h2) by (unfold wf_heap; by rewrite Hbufs).
  apply safe_Done; [by etrans|].
  eapply (wf_options_update h); [done|done|by etrans|done|done|done| |].
  2: { intros c Hkc. specialize (Hkept c Hkc). destruct Hget as [Hget|[_ Hget]]; rewrite Hget; [|done].
       unfold saved. by zcase. }
  intros c x Hx. eapply valid_entry_le; [done|].
  destruct Hget as [Hget|[_ Hget]]; rewrite Hget in Hx; [|by eapply Hval].
  revert Hx. unfold saved. simpl. zcase; [|intros; by eapply Hval].
  destruct (space_get u st c); intros [= <-]; by apply Hv.
Qed.

(** A change of an existing entry that leaves it pointing inside the heap. *)
Lemma alter_safe h h' u st code f op :
  u ∈ U -> wf_options h st -> heap_le h h' -> wf_heap h' -> space_get u st code = Some op ->
  (forall e, entry_code e = code -> entry_code (f e) = code) ->
  (forall e, valid_entry h' e -> valid_entry h' (f e)) ->
  exists st', alter_option u st code f = Done st' /\ wf_options h' st'.
Proof.
  intros Hu Hw Hle Hh Hop Hf Hv. destruct (proj2 Hw u Hu) as (Hwf & Hval & Hkept). pose proof (space_of u Hu).
  destruct (space_alter st code f Hwf Hf) as (st' & E & Hwf' & Hsame & Hget); [congruence|].
  exists st'. split; [done|]. eapply (wf_options_update h); try done.
  2: { intros c Hc. specialize (Hkept c Hc). rewrite Hget. zcase; [|done]. by destruct (space_get u st c). }
  assert (Hval' : forall c e, space_get u st c = Some e -> valid_entry h' e).
  { intros c e Ee. eapply valid_entry_le; [done|]. by eapply Hval. }
  intros c x. rewrite Hget. zcase; [|apply Hval'].
  destruct (space_get u st c) eqn:Ec; [|done]. intros [= <-]. by eapply Hv, Hval'.
Qed.

Lemma concat_safe h u st code op bp off len :
  u ∈ U -> wf_options h st -> space_get u st code = Some op -> in_buf h bp off len ->
  safe h (concat_option h st u code op bp off len).
Proof.
  intros Hu Hw Hop Hb. unfold concat_option.
  assert (Hlen : 0 <= len) by (destruct Hb as (? & ? & ?); lia).
  set (oldlen := match oc_data op.1 with Some d => ds_len d | None => 0 end).
  assert (Hold : 0 <= oldlen).
  { subst oldlen. destruct (proj1 (proj2 (proj2 Hw u Hu)) _ _ Hop) as (d & -> & Hd). apply Hd. }
  destruct (buffer_allocate h (oldlen + len)) as [[nb|] h1] eqn:A;
    destruct (buffer_allocate_spec _ _ _ _ (proj1 Hw) (Z.add_nonneg_nonneg _ _ Hold Hlen) A) as (Hh1 & Hle1 & Hr);
    [|by apply safe_Done, (wf_options_heap h)].
  destruct Hr as (_ & Hnb & _).
  assert (Ha : exists a, match oc_data op.1 with Some d => ds_bytes h1 d | None => Done [] end = Done a
      /\ zlen a = oldlen /\ bytes a).
  { subst oldlen. destruct (proj1 (proj2 (proj2 Hw u Hu)) _ _ Hop) as (d & -> & Hd0 & Hd1).
    apply buf_read_in; [done|].
    eapply in_buf_sub; [by eapply in_buf_le|lia..]. }
  destruct Ha as (a & -> & La & Ba). dred.
  destruct (buf_write_in h1 nb 0 a) as (h2 & -> & Hh2 & Hle2 & _); [done..| |].
  { eapply in_buf_sub; [done|lia..]. }
  dred. destruct (buf_read_in h2 bp off len) as (b & -> & Lb & Bb); [done| |].
  { eapply in_buf_le; [done|]. by eapply in_buf_le. }
  dred. destruct (buf_write_in h2 nb oldlen b) as (h3 & -> & Hh3 & Hle3 & _); [done..| |].
  { eapply in_buf_sub; [by eapply in_buf_le|lia..]. }
  dred. assert (Hle : heap_le h h3) by (etrans; [done|]; by etrans).
  match goal with |- context [alter_option u st code ?f] =>
    destruct (alter_safe h h3 u st code f op) as (st' & -> & Hw'); [done..| |dred; by apply safe_Done] end.
  - intros e _. eexists. split; [done|]. split; simpl; [lia|].
    eapply in_buf_sub; [eapply in_buf_le; [exact Hle3|]; by eapply in_buf_le|lia..].
Qed.

Lemma chain_safe h u st code op bp off len :
  u ∈ U -> wf_options h st -> space_get u st code = Some op ->
  safe h (chain_option h st u code bp off len).
Proof.
  intros Hu Hw Hop. unfold chain_option. destruct (tick h) as [ok h1] eqn:T.
  destruct (tick_le _ _ _ T) as (_ & Hle & Hh). destruct ok; simpl negb; cbv iota.
  - match goal with |- context [alter_option u st code ?f] =>
      destruct (alter_safe h h1 u st code f op) as (st' & -> & Hw'); [done|done|done|by apply Hh, Hw|done|done|done|] end.
    dred. by apply safe_Done.
  - apply safe_Done; [done|]. apply (wf_options_heap h); [done| |done]. by apply Hh, Hw.
Qed.

Lemma keep_safe h u st code bp off len :
  u ∈ U -> wf_options h st -> 0 <= len -> in_buf h bp off (len + 1) ->
  safe h (keep_option enum_width h st u code bp off len).
Proof.
  intros Hu Hw Hl Hb. unfold keep_option. pose proof (space_of u Hu).
  rewrite space_lookup by (by apply Hw). dred.
  destruct (space_get u st code) as [op|] eqn:E; [destruct (concat_duplicates u)|].
  - apply concat_safe; try done. eapply in_buf_sub; [done|lia..].
  - by eapply chain_safe.
  - by apply save_safe.
Qed.

(** ** The FQDN option *)
Lemma and_then_safe h r k :
  safe h r -> (forall h' st', heap_le h h' -> wf_options h' st' -> safe h' (k h' st')) ->
  safe h (and_then r k).
Proof.
  intros S Hk. unfold and_then. apply safe_bind; [done|]. intros h1 st1 [] Hle Hw; [by apply Hk|by apply safe_Done].
Qed.

(** Steps of [fqdn_universe_decode] that save a part of the buffer [bp]. *)
Lemma fqdn_save h st bp size off len code (t c : bool) :
  wf_options h st -> in_buf h bp 0 size -> 0 <= off -> (c = true -> 0 <= len /\ off + len + 1 <= size) ->
  safe h (if c then save_option_buffer enum_width h fqdn_universe st (InBuffer bp off) len code t
          else Done (h, st, true)).
Proof.
  intros Hw Hb Ho Hc. destruct c; [|by apply safe_Done]. destruct (Hc eq_refl) as [Hl Hs].
  apply save_safe; [by apply (ws_fqdn HU)|done..|]. eapply in_buf_sub; [done|lia..].
Qed.

Lemma label_length_safe k : forall buffer i length,
  3 <= i -> length <= zlen buffer ->
  exists n, label_length k buffer i length = Done n /\ 0 <= n /\ n + 3 <= Z.max i length.
Proof.
  induction k as [|k IH]; intros buffer i length Hi Hl; simpl; [exists (i - 3); split; [done|lia]|].
  zcase; [|exists (i - 3); split; [done|lia]].
  destruct (rd_in buffer i) as (c & -> & _); [lia|]. dred.
  destruct (c =? 46); [exists (i - 3); split; [done|lia]|].
  destruct (IH buffer (i + 1) length) as (m & E & ?); [lia..|]. exists m. split; [done|lia].
Qed.

Lemma fqdn_plain_safe h st bp buffer length :
  wf_options h st -> 3 <= length <= zlen buffer -> in_buf h bp 0 (length + 5) ->
  safe h (fqdn_plain_name fqdn_universe enum_width h st bp buffer length).
Proof.
  intros Hw Hlen Hb. unfold fqdn_plain_name.
  destruct (rd_in buffer (length - 1)) as (c & -> & _); [lia|]. dred.
  assert (Hr : exists h1 n, (if c =? 0 then h' ← set_byte h bp 1 1; Done (h', length - 1)
     else Done (h, length)) = Done (h1, n) /\ heap_le h h1 /\ wf_options h1 st /\ length - 1 <= n <= length).
  { zcase; [|exists h, length; split_and!; done || lia].
    unfold set_byte. destruct (buf_write_in h bp 1 [1]) as (h1 & -> & Hh1 & Hle & _).
    - apply Hw.
    - constructor; [unfold byte; lia|constructor].
    - change (zlen [1]) with 1. eapply in_buf_sub; [done|lia..].
    - dred. exists h1, (length - 1). split_and!; try done; try lia. by eapply wf_options_heap. }
  destruct Hr as (h1 & n & -> & Hle & Hw1 & Hn). dred. eapply safe_le; [done|].
  destruct (label_length_safe (Z.to_nat n) buffer 3 n) as (i & -> & Hi0 & Hi); [lia..|]. dred.
  assert (Hb1 : in_buf h1 bp 0 (length + 5)) by (by eapply in_buf_le).
  apply and_then_safe; [|intros h2 st2 Hle2 Hw2; apply and_then_safe; [|intros h3 st3 Hle3 Hw3]].
  - pose proof (fqdn_save h1 st bp (length + 5) 5 i FQDN_HOSTNAME false (negb (i =? 0)) Hw1 Hb1) as P.
    destruct (i =? 0); apply P; lia.
  - apply (fqdn_save _ _ _ (length + 5)); [done|by eapply in_buf_le|lia|]. intros ?%Z.ltb_lt. lia.
  - apply (fqdn_save _ _ _ (length + 5)); [done|eapply in_buf_le; [exact Hle3|]; by eapply in_buf_le|lia|].
    intros ?%Z.ltb_lt. lia.
Qed.

Lemma byte_write h bp i v :
  wf_heap h -> byte v -> in_buf h bp i 1 ->
  exists h', set_byte h bp i v = Done h' /\ wf_heap h' /\ heap_le h h'.
Proof.
  intros Hh Hv Hb. destruct (buf_write_in h bp i [v]) as (h' & E & ? & ? & _); eauto.
Qed.

Lemma byte_read h bp i :
  wf_heap h -> in_buf h bp i 1 -> exists v, get_byte h bp i = Done v /\ byte v.
Proof.
  intros Hh Hb. unfold get_byte. destruct (buf_read_in h bp i 1 Hh Hb) as ([|v l] & -> & Hl & Hv); [done|].
  dred. exists v. split; [done|]. by apply Forall_cons_iff in Hv as [? _].
Qed.

(** Invariant of the loop over the labels. *)
Definition label_inv (h : heap) (st : option_state expr) (length : Z) (s : label_state) : Prop :=
  heap_le h (lb_heap s) /\ wf_options (lb_heap s) st /\
  lb_s s = 5 + lb_total s /\ lb_s s <= length + 4 /\
  ((lb_total s = 0 /\ lb_first s = 0) \/ (0 < lb_first s /\ lb_first s + 1 <= lb_total s)).

Lemma label_step_safe h st bp length j s :
  in_buf h bp 0 (length + 5) -> label_inv h st length s -> 5 + 2 * j <= lb_s s ->
  (exists s', label_step bp length s = Done (inl s') /\ label_inv h st length s' /\ 5 + 2 * (j + 1) <= lb_s s') \/
  (exists r, label_step bp length s = Done (inr r) /\ label_inv h st length (fst r)).
Proof.
  intros Hb Hs Hj. pose proof Hs as (Hle & Hw & Hpos & Hend & Hf). unfold label_step.
  zcase; [|right; eexists; by split]. assert (Hb' : in_buf (lb_heap s) bp (lb_s s) 1).
  { eapply in_buf_sub; [by eapply in_buf_le|lia..]. }
  destruct (byte_read (lb_heap s) bp (lb_s s)) as (len & -> & Hlen); [by apply Hw|done|]. dred.
  zcase; [right; eexists; by split|]. destruct (len =? 0) eqn:E0; [right; eexists; by split|]. zbool.
  zcase; [right; eexists; by split|].
  destruct (byte_write (lb_heap s) bp (lb_s s) 46) as (h' & -> & Hh' & Hle'); [by apply Hw|unfold byte; lia|done|].
  dred. left. eexists. split; [done|]. unfold byte in Hlen. split; [|simpl; lia].
  split; [by etrans|]. split; [by eapply wf_options_heap|]. simpl. split; [lia|]. split; [lia|]. right.
  destruct (lb_first s =? 0) eqn:E1; zbool; lia.
Qed.

Lemma fqdn_encoded_safe h st bp length :
  wf_options h st -> 3 <= length -> in_buf h bp 0 (length + 5) ->
  safe h (fqdn_encoded_name fqdn_universe enum_width h st bp length).
Proof.
  intros Hw Hlen Hb. unfold fqdn_encoded_name.
  destruct (for_loop_inv (fun j s => label_inv h st length s /\ 5 + 2 * j <= lb_s s)
    (fun r => label_inv h st length (fst r)) (fun _ => label_step bp length)
    (Z.to_nat length) 0 (mk_label h 5 0 0)) as [(s & -> & (_ & _ & _ & Hs & _) & Hj)|([s t] & -> & Hs)].
  { split; [|done]. split_and!; simpl; try done; lia. }
  { intros j s _ [Hs Hj]. destruct (label_step_safe h st bp length j s Hb Hs Hj) as [(s' & -> & ?)|?]; eauto. }
  { lia. }
  dred. simpl in Hs. destruct Hs as (Hle & Hw1 & Hpos & Hend & Hf). eapply safe_le; [exact Hle|].
  assert (Hb1 : in_buf (lb_heap s) bp 0 (length + 5)) by (by eapply in_buf_le).
  destruct t as [t|]; [|by apply safe_Done]. dred.
  set (total := if 0 <? lb_total s then lb_total s - 1 else lb_total s).
  assert (Ht : 0 <= total /\ 6 + total <= length + 4 + (if 0 <? lb_total s then 0 else 1)).
  { subst total. destruct (Z.ltb_spec 0 (lb_total s)); lia. }
  set (first := if t then lb_first s else total).
  assert (Hfst : 0 <= first <= total).
  { subst first total. destruct t, (Z.ltb_spec 0 (lb_total s)); lia. }
  destruct (Z.ltb_spec 0 (lb_total s)).
  - apply and_then_safe; [|intros h2 st2 Hle2 Hw2; apply and_then_safe; [|intros h3 st3 Hle3 Hw3]].
    + apply (fqdn_save _ _ _ (length + 5)); [done|done|lia|]. intros ?%Z.ltb_lt. lia.
    + apply (fqdn_save _ _ _ (length + 5)); [done|by eapply in_buf_le|lia|]. lia.
    + apply (fqdn_save _ _ _ (length + 5)); [done|eapply in_buf_le; [exact Hle3|]; by eapply in_buf_le|lia|].
      intros ?%Z.ltb_lt. lia.
  - assert (total = 0) as E by (subst total; lia). assert (first = 0) as -> by lia. rewrite E. simpl.
    unfold and_then. dred. by apply safe_Done.
Qed.

Lemma fqdn_decode_safe h st buffer length :
  wf_options h st -> bytes buffer -> length <= zlen buffer ->
  safe h (fqdn_universe_decode fqdn_universe enum_width h st buffer length).
Proof.
  intros Hw Hby Hlen. unfold fqdn_universe_decode. zcase; [by apply safe_Done|].
  destruct (buffer_allocate h (length + 4)) as [[bp|] h1] eqn:A;
    destruct (buffer_allocate_spec h (length + 4) _ _ (proj1 Hw) ltac:(lia) A) as (Hh1 & Hle1 & Hr);
    [|by apply safe_Done, (wf_options_heap h)].
  destruct Hr as (_ & Hb & _). replace (length + 4 + 1) with (length + 5) in Hb by lia.
  rewrite rdn_in by lia. dred.
  destruct (buf_write_in h1 bp 3 (take (Z.to_nat (length - 1)) (drop (Z.to_nat 1) buffer)))
    as (h2 & -> & Hh2 & Hle2 & _); [done|by apply Forall_take, Forall_drop| |].
  { eapply in_buf_sub; [done|lia| |]; unfold zlen in *; rewrite length_take, length_drop; lia. }
  dred. destruct (rd_in buffer 0) as (b0 & -> & _); [lia|]. dred.
  assert (Hflag : forall x, byte (flag x)) by (intros []; unfold byte; simpl; lia).
  assert (Hb2 : in_buf h2 bp 0 (length + 5)) by (by eapply in_buf_le).
  destruct (byte_write h2 bp 0 (flag (negb (Z.land b0 4 =? 0)))) as (h3 & -> & Hh3 & Hle3);
    [done|done|eapply in_buf_sub; [done|lia..]|]. dred.
  assert (Hle13 : heap_le h h3) by (etrans; [done|]; by etrans).
  assert (Hb3 : in_buf h3 bp 0 (length + 5)) by exact (in_buf_le _ _ _ _ _ Hle3 Hb2).
  eapply safe_le; [exact Hle13|].
  assert (Hsv : forall h st off code, wf_options h st -> in_buf h bp 0 (length + 5) -> 0 <= off <= 4 ->
    safe h (save_option_buffer enum_width h fqdn_universe st (InBuffer bp off) 1 code false)).
  { intros h' st' off code Hw' Hb' Ho. apply save_safe; [by apply (ws_fqdn HU)|done|lia|].
    eapply in_buf_sub; [done|lia..]. }
  apply and_then_safe; [apply Hsv; [by apply (wf_options_heap h)|done|lia]|].
  intros h4 st4 Hle4 Hw4. assert (Hb4 : in_buf h4 bp 0 (length + 5)) by (by eapply in_buf_le).
  destruct (byte_write h4 bp 2 (flag (negb (Z.land b0 1 =? 0)))) as (h5 & -> & Hh5 & Hle5);
    [by apply Hw4|done|eapply in_buf_sub; [done|lia..]|]. dred.
  assert (Hb5 : in_buf h5 bp 0 (length + 5)) by (by eapply in_buf_le).
  destruct (byte_write h5 bp 1 (flag (negb (Z.land b0 2 =? 0)))) as (h6 & -> & Hh6 & Hle6);
    [done|done|eapply in_buf_sub; [done|lia..]|]. dred.
  assert (Hb6 : in_buf h6 bp 0 (length + 5)) by (by eapply in_buf_le).
  assert (Hw6 : wf_options h6 st4) by (eapply (wf_options_heap h4); [by etrans|done|done]).
  eapply safe_le; [exact (transitivity Hle5 Hle6)|].
  apply and_then_safe; [destruct (negb (Z.land b0 4 =? 0));
    [apply fqdn_encoded_safe|apply fqdn_plain_safe]; done || lia|].
  intros h7 st7 Hle7 Hw7. pose proof (in_buf_le _ _ _ _ _ Hle7 Hb6) as Hb7.
  apply and_then_safe; [by apply Hsv; try done; lia|]. intros h8 st8 Hle8 Hw8.
  pose proof (in_buf_le _ _ _ _ _ Hle8 Hb7) as Hb8.
  apply and_then_safe; [by apply Hsv; try done; lia|]. intros h9 st9 Hle9 Hw9.
  pose proof (in_buf_le _ _ _ _ _ Hle9 Hb8) as Hb9.
  apply and_then_safe; [by apply Hsv; try done; lia|]. intros h10 st10 Hle10 Hw10.
  apply Hsv; [done|by eapply in_buf_le|lia].
Qed.

(** ** The parser *)
Lemma find_universe_in name l u : find_universe name l = Some u -> u ∈ l.
Proof.
  induction l as [|v l IH]; [done|]. simpl. case_bool_decide.
  - intros [= ->]. apply list_elem_of_here.
  - intros. by apply list_elem_of_further, IH.
Qed.

Lemma find_option_universe_in eopt uname u : find_option_universe U eopt uname = Some u -> u ∈ U.
Proof.
  unfold find_option_universe. destruct (split_at "E" _) as [[? s]|]; [|done].
  destruct (split_at "." s) as [[[|c name] [|? ?]]|]; try done; [destruct uname; [|done]|];
    apply find_universe_in.
Qed.

Section decoding.
Context (dec : decoder -> heap -> option_state expr -> list Z -> Z -> universe ->
               outcome (heap * option_state expr * bool)).
Context (length : Z).
Hypothesis Hdec : forall d h st buf len u, u ∈ U -> wf_options h st -> bytes buf ->
  0 <= len <= zlen buf -> len < length -> safe h (dec d h st buf len u).

Lemma encapsulated_safe h st o buf len uname :
  wf_options h st -> bytes buf -> 0 <= len <= zlen buf -> len < length ->
  safe h (parse_encapsulated_suboptions U dec h st o buf len uname).
Proof.
  intros Hw Hb Hz Hlen. unfold parse_encapsulated_suboptions.
  destruct (find_option_universe U o uname) as [u|] eqn:E; [|by apply safe_Done].
  apply find_option_universe_in in E. destruct (u_decode u) as [d|]; [|by apply safe_Done].
  apply safe_bind; [by apply Hdec|]. intros h' st' ok Hle Hw'. by apply safe_Done.
Qed.

Definition parse_inv (h : heap) (j : Z) (s : parse_state (expr := expr)) : Prop :=
  heap_le h (ps_heap s) /\ wf_options (ps_heap s) (ps_opts s) /\ j <= ps_offset s <= length.

Definition parse_post (h : heap) (r : heap * option_state expr * bool) : Prop :=
  heap_le h r.1.1 /\ wf_options r.1.1 r.1.2.

Lemma pow8 n : n = 1 \/ n = 2 \/ n = 4 -> 2 ^ (8 * n) <= 2 ^ 32.
Proof. intros [-> | [-> | ->]]; done. Qed.

Lemma get_length_safe u buffer off :
  u ∈ U -> bytes buffer -> length <= zlen buffer -> 0 <= length < 2 ^ 31 ->
  tag_size u <= off -> off + length_size u <= length ->
  exists len, match get_length u with
    | Some g => g buffer off
    | None => if length_size u =? 0 then Done (u32 (length - tag_size u)) else Fatal
    end = Done len /\ 0 <= len < 2 ^ 31.
Proof.
  intros Hu Hby Hz Hlen Ho Hl. pose proof (wu_get_length u (wf_in u Hu)) as Hg.
  pose proof (wu_tag u (wf_in u Hu)) as Ht.
  destruct (get_length u) as [g|].
  - destruct Hg as [Hs Hg]. destruct (Hg buffer off) as (n & -> & Hn); [done|lia|lia|]. exists n.
    split; [done|]. destruct Hs as [E|E]; rewrite E in Hn; simpl in Hn; lia.
  - rewrite Hg. simpl. eexists. split; [done|]. unfold u32. rewrite Z.mod_small; lia.
Qed.

(** What is done with one option whose data lie inside the buffer. *)
Lemma one_option_safe u h st code bp off len :
  u ∈ U -> wf_options h st -> in_buf h bp off (len + 1) -> 0 <= len < length ->
  safe h
    ('(h, st, decoded) ←
       match code_hash u code with
       | Some o =>
           if is_encapsulation o then
             sub ← buf_read h bp off len;
             parse_encapsulated_suboptions U dec h st o sub len None
           else Done (h, st, false)
       | None => Done (h, st, false)
       end;
     if (decoded : bool) then Done (h, st, true)
     else keep_option enum_width h st u code bp off len).
Proof.
  intros Hu Hw Hb Hl.
  apply safe_bind.
  { destruct (code_hash u code) as [o|]; [|by apply safe_Done].
    destruct (is_encapsulation o); [|by apply safe_Done].
    destruct (buf_read_in h bp off len) as (sub & -> & Hz & Hs); [by apply Hw| |].
    - eapply in_buf_sub; [done|lia..].
    - dred. apply encapsulated_safe; done || lia. }
  intros h1 st1 [] Hle Hw1; [by apply safe_Done|].
  apply keep_safe; [done|done|lia|by eapply in_buf_le].
Qed.

Lemma parse_step_safe u buffer bp h j s :
  u ∈ U -> bytes buffer -> length <= zlen buffer -> 0 <= length < 2 ^ 31 ->
  in_buf h bp 0 (length + 1) -> 0 <= j -> parse_inv h j s ->
  (exists s', parse_step U enum_width dec u buffer length bp s = Done (inl s') /\ parse_inv h (j + 1) s') \/
  (exists r, parse_step U enum_width dec u buffer length bp s = Done (inr r) /\ parse_post h r) \/
  (parse_step U enum_width dec u buffer length bp s = Fatal /\ cons_stops h).
Proof.
  intros Hu Hby Hz Hlen Hbp Hj Hs. destruct s as [h1 st1 off]. destruct Hs as (Hle & Hw & Ho). simpl in *.
  pose proof (wu_tag u (wf_in u Hu)) as Ht. unfold parse_step.
  assert (Hu32 : forall x, 0 <= x < 2 ^ 32 -> u32 x = x) by (intros; by apply Z.mod_small).
  rewrite (Hu32 (off + tag_size u)) by lia.
  zcase; [right; left; eexists; by split|].
  destruct (wu_get_tag u (wf_in u Hu) buffer off) as (code & -> & Hcode); [done|lia|lia|]. dred.
  destruct (code =? u_end u); [right; left; eexists; by split|].
  destruct (code =? DHO_PAD).
  { left. eexists. split; [done|]. split_and!; [done|done|simpl; lia|simpl; lia]. }
  assert (Hls : 0 <= length_size u <= 2).
  { pose proof (wu_get_length u (wf_in u Hu)) as Hg. destruct (get_length u); lia. }
  rewrite (Hu32 (off + tag_size u + length_size u)) by lia.
  zcase; [right; left; eexists; by split|].
  destruct (get_length_safe u buffer (off + tag_size u)) as (len & -> & Hl); [done..|lia|lia|]. dred.
  rewrite (Hu32 (off + tag_size u + length_size u + len)) by lia.
  zcase; [right; left; eexists; by split|].
  assert (S : in_buf h1 bp (off + tag_size u + length_size u) (len + 1)).
  { eapply in_buf_sub; [by eapply in_buf_le|lia..]. }
  apply (one_option_safe u h1 st1 code) in S as [(h2 & st2 & ok & E & Hle2 & Hw2)|[E F]]; [| |done..|lia].
  - apply bind_Done_inv in E as ([[h3 st3] dcd] & -> & E). dred. rewrite E. dred.
    destruct ok; [left|right; left]; eexists; (split; [done|]).
    + split_and!; simpl; [by etrans|done|lia..].
    + split; [by etrans|done].
  - right; right. split; [|by eapply cons_stops_le].
    match goal with |- (x ← ?m; _) = _ => destruct m as [[[h3 st3] dcd]| | |]; [|done..] end.
    dred. dred_in E. by rewrite E.
Qed.

(** A loop whose body may stop the program. *)
Lemma for_loop_or_stop {A R} (I : Z -> A -> Prop) (Q : R -> Prop) (F : Prop)
    (body : Z -> A -> outcome (A + R)) n : forall i s,
  I i s ->
  (forall j t, i <= j < i + Z.of_nat n -> I j t ->
     (exists t', body j t = Done (inl t') /\ I (j + 1) t') \/
     (exists r, body j t = Done (inr r) /\ Q r) \/ (body j t = Fatal /\ F)) ->
  (exists s', for_loop n i body s = Done (inl s') /\ I (i + Z.of_nat n) s') \/
  (exists r, for_loop n i body s = Done (inr r) /\ Q r) \/ (for_loop n i body s = Fatal /\ F).
Proof.
  induction n as [|n IH]; intros i s Hs Hstep; simpl.
  - left; exists s. rewrite Z.add_0_r. auto.
  - destruct (Hstep i s) as [(t & -> & Ht)|[(r & -> & HQ)|[-> HF]]]; [lia|done|simpl..].
    + destruct (IH (i + 1) t Ht) as [(s' & E' & Hs')|?]; [|left; exists s'|by right].
      * intros; apply Hstep; [lia|done].
      * split; [done|]. by replace (i + Z.of_nat (Datatypes.S n)) with (i + 1 + Z.of_nat n) by lia.
    + right; left. by exists r.
    + right; by right.
Qed.

Lemma parse_with_safe h st buffer u :
  u ∈ U -> wf_options h st -> bytes buffer -> length <= zlen buffer -> 0 <= length < 2 ^ 31 ->
  safe h (parse_option_buffer_with U enum_width dec h st buffer length u).
Proof.
  intros Hu Hw Hby Hz Hlen. unfold parse_option_buffer_with.
  destruct (buffer_allocate h length) as [[bp|] h1] eqn:A;
    destruct (buffer_allocate_spec h length _ _ (proj1 Hw) (proj1 Hlen) A) as (Hh1 & Hle1 & Hr);
    [|by apply safe_Done, (wf_options_heap h)].
  destruct Hr as (_ & Hb & _).
  rewrite rdn_in by lia. rewrite drop_0.
  assert (Htake : zlen (take (Z.to_nat length) buffer) = length)
    by (unfold zlen in *; rewrite length_take; lia).
  dred. destruct (buf_write_in h1 bp 0 (take (Z.to_nat length) buffer)) as (h2 & -> & Hh2 & Hle2 & _);
    [done|by apply Forall_take| |].
  { rewrite Htake. eapply in_buf_sub; [done|lia..]. }
  dred. assert (Hb2 : in_buf h2 bp 0 (length + 1)) by exact (in_buf_le _ _ _ _ _ Hle2 Hb).
  assert (Hw2 : wf_options h2 st) by (apply (wf_options_heap h); [by etrans|done|done]).
  destruct (for_loop_or_stop (fun j s => 0 <= j /\ parse_inv h2 j s) (parse_post h2) (cons_stops h2)
    (fun _ => parse_step U enum_width dec u buffer length bp) (S (Z.to_nat length)) 0 (mk_parse h2 st 0))
    as [(s & -> & _ & _ & _ & Hs)|[([[h3 st3] ok] & -> & Hle3 & Hw3)|[-> F]]].
  - split; [lia|]. split_and!; simpl; done || lia.
  - intros j s _ [Hj Hs].
    destruct (parse_step_safe u buffer bp h2 j s Hu Hby Hz Hlen Hb2 Hj Hs) as [(s' & -> & ?)|?]; [left|by right].
    exists s'. split; [done|]. split; [lia|done].
  - lia.
  - dred. apply safe_Done; [|done]. simpl in *. etrans; [done|]. by etrans.
  - right. split; [done|]. eapply cons_stops_le; [|done]. by etrans.
Qed.
End decoding.

Lemma decode_safe depth : forall d h st buf len u,
  u ∈ U -> wf_options h st -> bytes buf -> 0 <= len <= zlen buf -> len < 2 ^ 31 -> len < Z.of_nat depth ->
  safe h (decode U fqdn_universe enum_width depth d h st buf len u).
Proof.
  induction depth as [|depth IH]; intros d h st buf len u Hu Hw Hb Hz Hlen Hd.
  - lia.
  - destruct d; simpl; [|by apply fqdn_decode_safe; try done; lia].
    apply parse_with_safe; try done; [|lia..].
    intros. apply IH; done || lia.
Qed.

Lemma parse_buffer_safe h st buffer length u :
  u ∈ U -> wf_options h st -> bytes buffer -> 0 <= length <= zlen buffer -> length < 2 ^ 31 ->
  safe h (parse_option_buffer U fqdn_universe enum_width h st buffer length u).
Proof. intros Hu Hw Hb Hz Hl. apply decode_safe; try done. lia. Qed.


Lemma first_byte_safe h (e : entry expr) :
  wf_heap h -> valid_entry h e -> exists b, first_byte h e = Done (Some b).
Proof.
  intros Hh (d & E & H0 & Hb). unfold first_byte. rewrite E.
  destruct (byte_read h (ds_buf d) (ds_off d) Hh) as (v & -> & _); [eapply in_buf_sub; [done|lia..]|].
  by exists v.
Qed.

Context (dhcp_universe : universe).
Hypothesis Hdhcp : dhcp_universe ∈ U.

Lemma message_type_safe h st :
  wf_options h st ->
  exists b, (op ← lookup_option dhcp_universe st DHO_DHCP_MESSAGE_TYPE;
    match op with
    | None => Done false
    | Some op =>
        b ← first_byte h op;
        match b with
        | None => Done false
        | Some t => Done ((t =? DHCPOFFER) || (t =? DHCPACK) || (t =? DHCPNAK))
        end
    end) = Done b.
Proof.
  intros Hw. pose proof (space_of dhcp_universe Hdhcp). rewrite space_lookup by (by apply Hw). dred.
  destruct (space_get dhcp_universe st DHO_DHCP_MESSAGE_TYPE) as [e|] eqn:E; [|eauto].
  destruct (first_byte_safe h e) as (b & ->); [by apply Hw|by eapply (proj1 (proj2 (proj2 Hw dhcp_universe Hdhcp)))|].
  dred. eauto.
Qed.

Lemma overload_safe h st e :
  wf_options h st -> space_get dhcp_universe st DHO_DHCP_OPTION_OVERLOAD = Some e ->
  exists v, overload_value dhcp_universe h st = Done v.
Proof.
  intros Hw E. unfold overload_value. pose proof (space_of dhcp_universe Hdhcp).
  rewrite space_lookup by (by apply Hw). dred. rewrite E.
  destruct (first_byte_safe h e) as (b & ->); [by apply Hw|by eapply (proj1 (proj2 (proj2 Hw dhcp_universe Hdhcp)))|].
  dred. eauto.
Qed.

Lemma lookup_safe h st code :
  wf_options h st -> lookup_option dhcp_universe st code = Done (space_get dhcp_universe st code).
Proof. intros Hw. pose proof (space_of dhcp_universe Hdhcp). apply space_lookup. by apply Hw. Qed.

End safety.

(** ** Whole packets *)
Section packets.
Context `{Allocator} {expr : Type}.
Context (U : list universe) (fqdn_universe dhcp_universe : universe)
        (enum_width : list ascii -> option Z).
Hypothesis HU : wf_universes U fqdn_universe enum_width.
Hypothesis Hdhcp : dhcp_universe ∈ U.

Definition nothing : universe -> Z -> Prop := fun _ _ => False.
Definition overloaded : universe -> Z -> Prop :=
  fun u c => u = dhcp_universe /\ c = DHO_DHCP_OPTION_OVERLOAD.

(** A packet as [do_packet] hands it over: at least the fixed part and the
    cookie were received, and the fields are bytes. *)
Definition wf_packet (h : heap) (p : packet (expr := expr)) : Prop :=
  DHCP_FIXED_NON_UDP + 4 <= packet_length p < 2 ^ 31 /\
  packet_length p - DHCP_FIXED_NON_UDP <= zlen (raw_options p) /\
  zlen (raw_file p) < 2 ^ 31 /\ zlen (raw_sname p) < 2 ^ 31 /\
  bytes (raw_options p) /\ bytes (raw_file p) /\ bytes (raw_sname p) /\
  wf_options U nothing h (pkt_options p).

Lemma keep_overload h (st : option_state expr) e :
  wf_options U nothing h st -> space_get dhcp_universe st DHO_DHCP_OPTION_OVERLOAD = Some e ->
  wf_options U overloaded h st.
Proof.
  intros [Hh Hs] E. split; [done|]. intros u Hu. destruct (Hs u Hu) as (? & ? & _).
  split_and!; [done..|]. intros c [-> ->]. by rewrite E.
Qed.

Lemma forget h (st : option_state expr) keep : wf_options U keep h st -> wf_options U nothing h st.
Proof.
  intros [Hh Hs]. split; [done|]. intros u Hu. destruct (Hs u Hu) as (? & ? & _).
  split_and!; [done..|]. by intros c [].
Qed.

(** One of the overloaded fields. *)
Lemma field_safe h (st : option_state expr) v bit field :
  wf_options U overloaded h st -> bytes field -> zlen field < 2 ^ 31 ->
  safe U overloaded h
    (if negb (Z.land v bit =? 0)
     then parse_option_buffer U fqdn_universe enum_width h st field (zlen field) dhcp_universe
     else Done (h, st, true)).
Proof.
  intros Hw Hb Hz. destruct (negb _); [|by apply safe_Done].
  apply parse_buffer_safe; try done. pose proof (zlen_nonneg field). lia.
Qed.

Lemma overload_again h (st : option_state expr) :
  wf_options U overloaded h st -> exists v, overload_value dhcp_universe h st = Done v.
Proof.
  intros Hw. pose proof (proj2 (proj2 (proj2 Hw dhcp_universe Hdhcp)) DHO_DHCP_OPTION_OVERLOAD) as Hk.
  destruct (space_get dhcp_universe st DHO_DHCP_OPTION_OVERLOAD) as [e|] eqn:E.
  - by eapply overload_safe.
  - by destruct Hk.
Qed.

Ltac packet_ok :=
  left; do 3 eexists; split; [reflexivity|]; split_and?; [done|by eapply forget|..]; intros; done.


End packets.

(** ** Witnesses: the DHCP and FQDN spaces on a packet with a bad FQDN option *)
#[local] Instance demo_allocator : Allocator := fun _ => true.

Definition demo_fqdn : universe :=
  mk_universe "fqdn" ByChain (Some DecodeFqdn) getUChar (Some getUChar) 1 1 0
    (fun c => if (c =? 6) || (c =? 7) || (c =? 8) then Some (mk_option "name" "t" 1 c) else None) 1 false.
Definition demo_dhcp : universe :=
  mk_universe "dhcp" ByHash (Some DecodeBuffer) getUChar (Some getUChar) 1 1 255
    (fun c => if c =? 12 then Some (mk_option "host-name" "t" 0 12)
              else if c =? 81 then Some (mk_option "fqdn" "Efqdn." 0 81) else None) 0 true.
Definition demo_universes : list universe := [demo_dhcp; demo_fqdn].
Definition no_enum : list ascii -> option Z := fun _ => None.
Definition demo_state : option_state unit := mk_state 0 0 [SlotNull; SlotNull].
Definition demo_heap : heap := mk_heap [] 0.

(** Host name in two parts, an FQDN option whose last label is cut short, an
    end mark. *)
Definition demo_buffer : list Z :=
  [12; 4; 65; 66; 0; 0; 0; 12; 2; 67; 68; 81; 10; 4; 1; 2; 3; 65; 66; 67; 3; 68; 69; 255].

Lemma getUChar_ok buf i : bytes buf -> 0 <= i -> i + 1 <= zlen buf ->
  exists c, getUChar buf i = Done c /\ 0 <= c < 2 ^ (8 * 1).
Proof.
  intros Hb Hi Hl. destruct (rd_in buf i) as (c & E & Hc); [lia|]. exists c. split; [done|].
  exact (Forall_lookup_1 _ _ _ _ Hb Hc).
Qed.

Lemma demo_universes_wf : wf_universes demo_universes demo_fqdn no_enum.
Proof.
  split.
  - repeat constructor; try done; try (by left); try (intros; by apply getUChar_ok).
    + intros c o. simpl. repeat zcase; intros [= <-]; simpl; lia.
    + intros c o. simpl. repeat zcase; intros [= <-]; simpl; eauto.
    + intros c o. simpl. repeat zcase; intros [= <-]; simpl; lia.
    + intros c o. simpl. repeat zcase; intros [= <-]; simpl; eauto.
  - apply list_elem_of_further, list_elem_of_here.
  - intros u v Hu Hv. unfold demo_universes in *. rewrite !elem_of_cons, elem_of_nil in Hu, Hv.
    destruct Hu as [-> | [-> | []]], Hv as [-> | [-> | []]]; done.
Qed.

Lemma demo_options_wf keep : (forall u c, ~ keep u c) -> wf_options demo_universes keep demo_heap demo_state.
Proof.
  intros Hk. split; [constructor|]. intros u Hu. unfold demo_universes in Hu.
  rewrite !elem_of_cons, elem_of_nil in Hu.
  split; [|split].
  - destruct Hu as [-> | [-> | []]]; (split; [simpl; lia|]); exists SlotNull; done.
  - intros c e. destruct Hu as [-> | [-> | []]]; done.
  - intros c Hc. by destruct (Hk u c).
Qed.


Definition demo_packet : packet (expr := unit) :=
  mk_packet 265 (replicate 64 0) (replicate 128 0)
    (DHCP_OPTIONS_COOKIE ++ [53; 1; 1; 52; 0; 12; 1; 65; 255] ++ replicate 20 0) demo_state false.


(** ** A name with a label that is cut short *)

(** The status of [fqdn_universe_decode] and the name it saves. *)
Definition decoded_fqdn (buffer : list Z) : outcome (bool * option (list Z)) :=
  '(h, st, ok) ← fqdn_universe_decode demo_fqdn no_enum demo_heap demo_state buffer (zlen buffer);
  e ← lookup_option demo_fqdn st FQDN_FQDN;
  match e with
  | Some e => match oc_data e.1 with Some d => l ← ds_bytes h d; Done (ok, Some l) | None => Fault end
  | None => Done (ok, None)
  end.

(** The check against "fqdn tag longer than buffer" is two bytes too
    lenient: a last label of which two bytes are there is accepted when it
    claims three or four, and refused only from five on. *)
Lemma fqdn_decode_lenient :
  decoded_fqdn [4; 1; 2; 3; 65; 66; 67; 2; 68; 69] = Done (true, Some [65; 66; 67; 46; 68; 69]) /\
  decoded_fqdn [4; 1; 2; 3; 65; 66; 67; 4; 68; 69] = Done (true, Some [65; 66; 67; 46; 68; 69]) /\
  decoded_fqdn [4; 1; 2; 3; 65; 66; 67; 5; 68; 69] = Done (false, None).
Proof. split_and!; vm_compute; reflexivity. Qed.

(** The demonstration buffer when just the allocation numbered [k] fails. *)
Definition failing (k : nat) : Allocator := fun n => negb (n =? k)%nat.
Definition parse_failing (k : nat) : outcome bool :=
  '(_, _, ok) ← parse_option_buffer (H := failing k) demo_universes demo_fqdn no_enum demo_heap
                  demo_state demo_buffer 24 demo_dhcp;
  Done ok.

(** Number 8 is an option cache of the FQDN option, which is lost, number 9 the
    pair for the next one, without which [cons] stops the program. *)
Lemma cons_stops_parser :
  parse_failing 8 = Done true /\ parse_failing 9 = Fatal /\ parse_failing 10 = Done true.
Proof. split_and!; vm_compute; reflexivity. Qed.
