(* ===== verification/OptionWire.v ===== *)
(** * What the option parser reads (common/options.c)

    A buffer that holds a sequence of options (tag, length, data) up to the
    end mark or the end of the buffer is parsed into exactly those options:
    several instances of an option are concatenated in order (RFC 3396), and a
    text option loses the NULs at the end of its first instance. *)

From Stdlib Require Import Ascii String.
From stdpp Require Import base tactics list numbers strings.
From S2P Require Import Prelude Array Convert OptionStore OptionParse.

#[local] Open Scope Z_scope.

(** ** Options on the wire *)
Definition hunk : Type := Z * list Z.
Definition tlv (x : hunk) : list Z := x.1 :: zlen x.2 :: x.2.
Definition wire (l : list hunk) : list Z := concat (tlv <$> l).

Lemma wire_cons c d l rest :
  wire ((c, d) :: l) ++ rest = c :: zlen d :: d ++ wire l ++ rest.
Proof. unfold wire. simpl. by rewrite <- app_assoc. Qed.

(** A tag that is neither padding nor the end mark, and at most 255 bytes. *)
Definition wf_hunk (x : hunk) : Prop := 0 < x.1 < 255 /\ zlen x.2 <= 255 /\ bytes x.2.

(** What is left of a buffer after the options: nothing, or an end mark. *)
Definition ends (rest : list Z) : Prop := rest = [] \/ head rest = Some 255.

(** Trailing zeros are dropped, but not below [m] bytes. *)
Fixpoint drop_zeros (k : nat) (l : list Z) : list Z :=
  match k, l with
  | S k', 0 :: l' => drop_zeros k' l'
  | _, _ => l
  end.
Definition strip (m : Z) (l : list Z) : list Z :=
  reverse (drop_zeros (Z.to_nat (zlen l - m)) (reverse l)).

Lemma drop_zeros_suffix k l : exists n, drop_zeros k l = drop n l.
Proof.
  revert l; induction k as [|k IH]; intros l; [by exists 0%nat|].
  destruct l as [|[|p|p] l]; try by exists 0%nat.
  destruct (IH l) as [n E]. exists (S n). exact E.
Qed.

Lemma strip_prefix m l : exists n, strip m l = take n l.
Proof.
  unfold strip. destruct (drop_zeros_suffix (Z.to_nat (zlen l - m)) (reverse l)) as [n ->].
  exists (length l - n)%nat. rewrite reverse_drop, length_reverse. by rewrite reverse_involutive.
Qed.

Lemma strip_le m l : zlen (strip m l) <= zlen l.
Proof. destruct (strip_prefix m l) as [n ->]. unfold zlen. rewrite length_take. lia. Qed.

Lemma take_strip m l : take (Z.to_nat (zlen (strip m l))) l = strip m l.
Proof.
  destruct (strip_prefix m l) as [n E]. unfold zlen. rewrite Nat2Z.id, E, length_take.
  destruct (decide (n <= length l)%nat); [by rewrite Nat.min_l|].
  rewrite Nat.min_r, !take_ge by lia. done.
Qed.

Lemma strip_short m l : zlen l <= m -> strip m l = l.
Proof.
  intros Hm. unfold strip. replace (Z.to_nat (zlen l - m)) with 0%nat by lia. simpl.
  apply reverse_involutive.
Qed.

Lemma strip_snoc m l x :
  m < zlen l + 1 -> 0 <= m -> strip m (l ++ [x]) = if x =? 0 then strip m l else l ++ [x].
Proof.
  intros Hm H0. unfold strip. rewrite zlen_app, reverse_app. change (zlen [x]) with 1.
  replace (Z.to_nat (zlen l + 1 - m)) with (S (Z.to_nat (zlen l - m))) by lia.
  change (reverse [x] ++ reverse l) with (x :: reverse l). zcase; [by subst|].
  assert (drop_zeros (S (Z.to_nat (zlen l - m))) (x :: reverse l) = x :: reverse l) as ->
    by (destruct x; done).
  by rewrite reverse_cons, reverse_involutive.
Qed.

(** ** Reading heaps *)

(** Buffer [b] of the heap holds the bytes [l] from offset [off] on. *)
Definition holds (h : heap) (b : nat) (off : Z) (l : list Z) : Prop :=
  exists pre post, bufs h !! b = Some (pre ++ l ++ post) /\ zlen pre = off.

Lemma holds_read h b off l : holds h b off l -> buf_read h b off (zlen l) = Done l.
Proof. intros (pre & post & E & <-). unfold buf_read. rewrite E. apply rdn_middle. Qed.

Lemma read_holds h b off n l : buf_read h b off n = Done l -> holds h b off l /\ zlen l = n.
Proof.
  unfold buf_read, rdn. destruct (bufs h !! b) as [d|] eqn:E; [|done].
  destruct ((0 <=? off) && (0 <=? n) && (off + n <=? zlen d)) eqn:B; [|done]. zbool.
  intros [= <-]. unfold zlen in *. split.
  - exists (take (Z.to_nat off) d), (drop (Z.to_nat n) (drop (Z.to_nat off) d)).
    rewrite !take_drop. split; [done|]. unfold zlen. rewrite length_take. lia.
  - rewrite length_take, length_drop. lia.
Qed.

Lemma holds_app h b off l1 l2 :
  holds h b off (l1 ++ l2) -> holds h b off l1 /\ holds h b (off + zlen l1) l2.
Proof.
  intros (pre & post & E & <-). split.
  - exists pre, (l2 ++ post). split; [|done]. rewrite E. by rewrite <- !app_assoc.
  - exists (pre ++ l1), post. split; [|by rewrite zlen_app]. rewrite E. by rewrite <- !app_assoc.
Qed.

(** The first bytes of what a buffer holds. *)
Lemma holds_take h b off l n : holds h b off l -> holds h b off (take n l).
Proof. intros Hl. rewrite <- (take_drop n l) in Hl. by apply holds_app in Hl as [? _]. Qed.

Lemma holds_byte h b off x : holds h b off [x] -> buf_read h b off 1 = Done [x].
Proof. apply holds_read. Qed.

Section parsing.
Context `{Allocator} {expr : Type}.
Context (U : list universe) (fqdn_universe : universe) (enum_width : list ascii -> option Z).
Hypothesis memory : forall n, mem_ok n = true.

Lemma strip_nulls_exact k : forall h b off l m flags,
  holds h b off l -> 0 <= m -> (length l <= k)%nat ->
  exists f, strip_nulls k h b off (zlen l) m flags = Done (zlen (strip m l), f).
Proof.
  induction k as [|k IH]; intros h b off l m flags Hh Hm Hk.
  { assert (l = []) as -> by (destruct l; [done|simpl in Hk; lia]).
    rewrite strip_short by done. by exists flags. }
  simpl. zcase; [|rewrite strip_short by lia; eauto].
  destruct l as [|x l _] using rev_ind; [change (zlen (@nil Z)) with 0 in *; lia|].
  rewrite length_app in Hk. simpl in Hk. apply holds_app in Hh as [Hl Hx].
  rewrite strip_snoc by (rewrite zlen_app in *; change (zlen [x]) with 1 in *; lia).
  rewrite zlen_app. change (zlen [x]) with 1.
  replace (off + (zlen l + 1) - 1) with (off + zlen l) by lia. rewrite (holds_byte _ _ _ _ Hx). dred.
  replace (zlen l + 1 - 1) with (zlen l) by lia.
  destruct x; simpl; [apply IH; done || lia|..]; exists flags; by rewrite zlen_app.
Qed.

(** Overwriting one byte. *)
Lemma byte_overwrite h b d i v :
  bufs h !! b = Some d -> 0 <= i < zlen d ->
  buf_write h b i [v] = Done (mk_heap (<[b := <[Z.to_nat i := v]> d]> (bufs h)) (ticks h)).
Proof.
  intros E Hi. unfold buf_write. rewrite E, wrn_in by (change (zlen [v]) with 1; lia). dred.
  do 3 f_equal. rewrite insert_take_drop by (unfold zlen in Hi; lia). simpl.
  by replace (Z.to_nat i + 1)%nat with (S (Z.to_nat i)) by lia.
Qed.

Lemma holds_overwrite h b d i v b' off l :
  bufs h !! b = Some d -> 0 <= i < zlen d -> holds h b' off l ->
  (b' = b -> off + zlen l <= i \/ i < off) ->
  holds (mk_heap (<[b := <[Z.to_nat i := v]> d]> (bufs h)) (ticks h)) b' off l.
Proof.
  intros E Hi (pre & post & E' & Hp) Hd. destruct (decide (b' = b)) as [->|Hne].
  - rewrite E in E'. injection E' as ->. destruct (Hd eq_refl) as [Hlt|Hgt].
    + exists pre, (<[(Z.to_nat i - length pre - length l)%nat := v]> post). split; [|done]. simpl.
      rewrite list_lookup_insert_eq by (by eapply lookup_lt_Some). f_equal.
      unfold zlen in *. rewrite insert_app_r_alt by lia. f_equal. by rewrite insert_app_r_alt by lia.
    + exists (<[Z.to_nat i := v]> pre), post. split; [|by rewrite zlen_insert]. simpl.
      rewrite list_lookup_insert_eq by (by eapply lookup_lt_Some). f_equal.
      apply insert_app_l. unfold zlen in *; lia.
  - exists pre, post. split; [|done]. simpl. by rewrite list_lookup_insert_ne.
Qed.

Lemma holds_bufs h h' b off l : bufs h' = bufs h -> holds h b off l -> holds h' b off l.
Proof. intros E (pre & post & ? & ?). exists pre, post. by rewrite E. Qed.

Lemma holds_grow h h' x b off l : bufs h' = bufs h ++ x -> holds h b off l -> holds h' b off l.
Proof.
  intros E (pre & post & Hb & ?). exists pre, post. rewrite E. split; [by apply lookup_app_l_Some|done].
Qed.

(** ** A space with one-byte tags and lengths that concatenates duplicates,
       as the DHCP space *)
Record octet_space (u : universe) : Prop := {
  os_container : u_container u <> NoContainer;
  os_tag : tag_size u = 1;
  os_length : length_size u = 1;
  os_get_tag : get_tag u = getUChar;
  os_get_length : get_length u = Some getUChar;
  os_end : u_end u = DHO_END;
  os_concat : concat_duplicates u = true;
  os_code : forall c o, code_hash u c = Some o -> opt_code o = c;
  os_format : forall c o, code_hash u c = Some o -> format_has_text (opt_format o) = true ->
    exists m, format_min_length enum_width (opt_format o) = Done m }.

Definition format_of (u : universe) (c : Z) : string :=
  match code_hash u c with Some o => opt_format o | None => default_option_format end.

(** What is kept of the first instance of an option. *)
Definition first_value (u : universe) (c : Z) (d : list Z) : list Z :=
  if format_has_text (format_of u c) then
    match format_min_length enum_width (format_of u c) with
    | Done m => strip (u32 m) d
    | _ => d
    end
  else d.

Lemma first_value_prefix u c d : exists n, first_value u c d = take n d.
Proof.
  assert (Hd : exists n, d = take n d) by (exists (length d); by rewrite firstn_all).
  unfold first_value. destruct (format_has_text _); [|done].
  destruct (format_min_length _ _); try done. apply strip_prefix.
Qed.

Lemma first_value_le u c d : zlen (first_value u c d) <= zlen d.
Proof. destruct (first_value_prefix u c d) as [n ->]. unfold zlen. rewrite length_take. lia. Qed.

(** The effect of one instance on the values of the options. *)
Definition values : Type := Z -> option (list Z).
Definition receive (u : universe) (m : values) (x : hunk) : values := fun c =>
  if c =? x.1
  then Some (match m c with Some old => old ++ x.2 | None => first_value u c x.2 end)
  else m c.

(** The option is not itself a space of options. *)
Definition flat (u : universe) (c : Z) : Prop :=
  forall o, code_hash u c = Some o -> is_encapsulation o = false.

Definition entry_holds (h : heap) (e : entry expr) (bs : list Z) : Prop :=
  exists ds, oc_data e.1 = Some ds /\ holds h (ds_buf ds) (ds_off ds) bs /\ zlen bs = ds_len ds.

(** The option state represents the values [m]. *)
Definition represents (u : universe) (h : heap) (st : option_state expr) (m : values) : Prop :=
  wf_space u st /\
  forall c, match space_get u st c with
            | Some e => exists bs, entry_holds h e bs /\ m c = Some bs
            | None => m c = None
            end.

(** The data that lie in buffer [bp] end before offset [o]. *)
Definition before (bp : nat) (o : Z) (u : universe) (st : option_state expr) : Prop :=
  forall c e ds, space_get u st c = Some e -> oc_data e.1 = Some ds -> ds_buf ds = bp ->
    ds_off ds + ds_len ds <= o.

Lemma tick_ok h : tick h = (true, mk_heap (bufs h) (S (ticks h))).
Proof. unfold tick. by rewrite memory. Qed.

Lemma allocate_ok h n :
  buffer_allocate h n =
    (Some (length (bufs h)), mk_heap (bufs h ++ [replicate (Z.to_nat n + 1) 0]) (S (ticks h))).
Proof. unfold buffer_allocate. by rewrite tick_ok. Qed.

Lemma prepare_exact u h bp d off data code :
  octet_space u -> 0 <= code <= 255 -> bufs h !! bp = Some d -> 0 <= off ->
  off + zlen data < zlen d -> holds h bp off data ->
  exists h' oc, prepare_option_buffer (expr := expr) enum_width h u (InBuffer bp off) (zlen data) code true
                  = Done (h', Some (oc, [])) /\
    bufs h' = <[bp := <[Z.to_nat (off + zlen data) := 0]> d]> (bufs h) /\
    oc_data oc = Some (mk_ds bp off (zlen (first_value u code data)) true) /\
    opt_code (oc_option oc) = code.
Proof.
  intros Hu Hcode Hd Hoff Hlen Hh. unfold prepare_option_buffer, tag_fits. rewrite (os_tag u Hu).
  simpl Z.eqb. cbv iota. dred. rewrite (proj2 (Z.leb_le code 255)) by lia. simpl negb. cbv iota.
  set (o := match code_hash u code with Some o => (Some o, h) | None => _ end).
  assert (Ho : exists o' h1, o = (Some o', h1) /\ bufs h1 = bufs h /\ opt_code o' = code /\
    opt_format o' = format_of u code /\ (format_has_text (opt_format o') = true ->
       exists m, format_min_length enum_width (opt_format o') = Done m)).
  { subst o. unfold format_of. destruct (code_hash u code) as [o'|] eqn:E.
    - exists o', h. split_and!; try done; [by eapply os_code|by eapply os_format].
    - rewrite tick_ok. do 2 eexists. split_and!; done. }
  destruct Ho as (o' & h1 & -> & Hb1 & Hc & Hf & Hm). rewrite tick_ok. simpl negb. cbv iota. dred.
  pose proof (zlen_nonneg data) as Hz.
  rewrite (byte_overwrite _ bp d) by (simpl; rewrite ?Hb1; done || lia). dred.
  set (h3 := mk_heap _ _).
  assert (H3 : holds h3 bp off data).
  { assert (bufs h3 = <[bp := <[Z.to_nat (off + zlen data) := 0]> d]> (bufs h)) as E3 by (simpl; by rewrite Hb1).
    apply (holds_bufs (mk_heap (<[bp := <[Z.to_nat (off + zlen data) := 0]> d]> (bufs h)) (ticks h)));
      [exact E3|]. apply (holds_overwrite h bp d (off + zlen data)); done || lia. }
  rewrite Hf in *.
  assert (Hlf : exists f, (if format_has_text (format_of u code) then
      m ← format_min_length enum_width (format_of u code);
      strip_nulls (Z.to_nat (zlen data)) h3 bp off (zlen data) (u32 m) 0 else Done (zlen data, 0))
      = Done (zlen (first_value u code data), f)).
  { unfold first_value. destruct (format_has_text (format_of u code)); [|by exists 0].
    destruct (Hm eq_refl) as (m & ->). dred. apply strip_nulls_exact; [done| |unfold zlen; lia].
    unfold u32. apply Z.mod_pos_bound. lia. }
  destruct Hlf as (f & ->). dred. do 2 eexists. split; [done|]. simpl. by rewrite Hb1.
Qed.

Lemma entry_holds_mono h h' (e : entry expr) bs :
  (forall ds l, oc_data e.1 = Some ds -> zlen l = ds_len ds ->
     holds h (ds_buf ds) (ds_off ds) l -> holds h' (ds_buf ds) (ds_off ds) l) ->
  entry_holds h e bs -> entry_holds h' e bs.
Proof. intros Hm (ds & E & Hh & Hz). exists ds. split_and!; auto. Qed.

(** The heap after an option was kept: the buffer being parsed is still there
    and unchanged after the option. *)
Definition rest_kept (h h' : heap) (bp : nat) (o : Z) : Prop :=
  (forall d, bufs h !! bp = Some d -> exists d', bufs h' !! bp = Some d' /\ length d' = length d) /\
  (forall off l, o < off -> holds h bp off l -> holds h' bp off l).

Lemma keep_first u h st m bp d off data code o :
  octet_space u -> represents u h st m -> before bp o u st -> 0 <= off -> o <= off -> 0 < code < 255 ->
  bufs h !! bp = Some d -> off + zlen data < zlen d -> holds h bp off data ->
  space_get u st code = None ->
  exists h' st', save_option_buffer enum_width h u st (InBuffer bp off) (zlen data) code true
                   = Done (h', st', true) /\
    represents u h' st' (receive u m (code, data)) /\ before bp (off + zlen data) u st' /\
    rest_kept h h' bp (off + zlen data).
Proof.
  intros Hu [Hwf Hrep] Hbef H0 Ho Hcode Hd Hlen Hh Hnone. unfold save_option_buffer.
  destruct (prepare_exact u h bp d off data code) as (h1 & oc & -> & Hb1 & Hdata & Hc); [done|lia|done..|].
  dred. pose proof (container_space (expr := expr) u (os_container u Hu)) as Hsp. pose proof (zlen_nonneg data) as Hz.
  destruct (space_save h1 st (oc, []) false Hwf) as
    [(h2 & st2 & E & Hwf2 & _ & Hb2 & _ & Hget)|(_ & _ & n & _ & Hn)]; [|by rewrite memory in Hn].
  destruct Hget as [Hget|[(n & _ & Hn) _]]; [|by rewrite memory in Hn].
  unfold save_option. rewrite E. dred. do 2 eexists. split; [done|].
  assert (Hnew : forall c, space_get u st2 c = if c =? code then Some (oc, []) else space_get u st c).
  { intros c. rewrite Hget. unfold saved, entry_code. simpl. rewrite Hc.
    destruct (Z.eqb_spec c code) as [->|]; [by rewrite Hnone|done]. }
  assert (Hkeep : forall b off' l, holds h b off' l ->
    (b = bp -> off' + zlen l <= off + zlen data \/ off + zlen data < off') -> holds h2 b off' l).
  { intros b off' l Hl Hd'. eapply holds_bufs; [exact Hb2|].
    apply (holds_bufs (mk_heap (<[bp := <[Z.to_nat (off + zlen data) := 0]> d]> (bufs h)) (ticks h)));
      [exact Hb1|]. apply holds_overwrite; done || lia. }
  split; [|split].
  - split; [done|]. intros c. rewrite Hnew. unfold receive. simpl.
    destruct (Z.eqb_spec c code) as [->|Hne].
    + pose proof (Hrep code) as Hm. rewrite Hnone in Hm. rewrite Hm. eexists. split; [|done].
      exists (mk_ds bp off (zlen (first_value u code data)) true). split_and!; [done| |done]. simpl.
      apply Hkeep; [|by left; pose proof (first_value_le u code data); lia].
      destruct (first_value_prefix u code data) as [n ->]. by apply holds_take.
    + pose proof (Hrep c) as Hm. destruct (space_get u st c) as [e|] eqn:Ec; [|done].
      destruct Hm as (bs & He & Hm). exists bs. split; [|done].
      eapply entry_holds_mono; [|exact He]. intros ds l Eds Hl Hhl. apply Hkeep; [done|].
      intros Hbp. left. pose proof (Hbef c e ds Ec Eds Hbp). lia.
  - intros c e ds. rewrite Hnew. destruct (Z.eqb_spec c code) as [->|Hne].
    + intros [= <-]. simpl. rewrite Hdata. intros [= <-] _. simpl.
      pose proof (first_value_le u code data). lia.
    + intros Ee Eds Hbp. pose proof (Hbef c e ds Ee Eds Hbp). lia.
  - split.
    + intros d' Hd'. rewrite Hd in Hd'. injection Hd' as <-. rewrite Hb2, Hb1.
      exists (<[Z.to_nat (off + zlen data) := 0]> d). split; [|by rewrite length_insert].
      apply list_lookup_insert_eq. by eapply lookup_lt_Some.
    + intros off' l Ho' Hl. apply Hkeep; [done|]. intros _. by right.
Qed.

Lemma write_last h B x y z src i :
  bufs h = B ++ [x ++ y ++ z] -> length y = length src -> i = zlen x ->
  buf_write h (length B) i src = Done (mk_heap (B ++ [x ++ src ++ z]) (ticks h)).
Proof.
  intros E Hy ->. unfold buf_write. rewrite E, list_lookup_middle by done.
  pose proof (zlen_nonneg x). rewrite wrn_in; [|lia|rewrite !zlen_app; unfold zlen in *; lia]. dred.
  do 2 f_equal. unfold zlen. rewrite Nat2Z.id, insert_app_r_alt, Nat.sub_diag by done. simpl.
  do 2 f_equal. rewrite take_app_length, <- Hy. f_equal. rewrite drop_app_ge by lia. f_equal.
  replace (length x + length y - length x)%nat with (length y) by lia. by rewrite drop_app_length.
Qed.

Lemma zeros_split (n k : nat) : (k <= n)%nat -> replicate n 0 = replicate k 0 ++ replicate (n - k) 0.
Proof. intros. rewrite <- replicate_add. f_equal. lia. Qed.

Lemma keep_again u h st m bp d off data code e o :
  octet_space u -> represents u h st m -> before bp o u st -> 0 <= off -> o <= off -> 0 < code < 255 ->
  bufs h !! bp = Some d -> off + zlen data < zlen d -> holds h bp off data ->
  space_get u st code = Some e ->
  exists h' st', concat_option h st u code e bp off (zlen data) = Done (h', st', true) /\
    represents u h' st' (receive u m (code, data)) /\ before bp (off + zlen data) u st' /\
    rest_kept h h' bp (off + zlen data).
Proof.
  intros Hu [Hwf Hrep] Hbef H0 Ho Hcode Hd Hlen Hh He. unfold concat_option.
  pose proof (Hrep code) as Hm. rewrite He in Hm. destruct Hm as (old & (ds & Eds & Hold & Hzo) & Hm).
  rewrite Eds, allocate_ok, <- Hzo. pose proof (zlen_nonneg old). pose proof (zlen_nonneg data).
  set (h1 := mk_heap _ _). assert (holds h1 (ds_buf ds) (ds_off ds) old) as Hold1 by (by eapply holds_grow).
  unfold ds_bytes. rewrite <- Hzo, (holds_read _ _ _ _ Hold1). dred.
  rewrite (write_last h1 (bufs h) [] (replicate (length old) 0) (replicate (length data + 1) 0)); [| |by rewrite length_replicate|done].
  2: { simpl. rewrite (zeros_split _ (length old)) by (unfold zlen; lia). do 4 f_equal. unfold zlen. lia. }
  dred. set (h2 := mk_heap _ _). assert (holds h2 bp off data) as Hd2 by (by eapply (holds_grow h)).
  rewrite (holds_read _ _ _ _ Hd2). dred.
  rewrite (write_last h2 (bufs h) old (replicate (length data) 0) [0]); [| |by rewrite length_replicate|done].
  2: { simpl. rewrite (zeros_split _ (length data)) by lia. do 4 f_equal.
       by replace (length data + 1 - length data)%nat with 1%nat by lia. }
  dred. set (h3 := mk_heap _ _).
  pose proof (container_space (expr := expr) u (os_container u Hu)) as Hsp.
  match goal with |- context [alter_option u st code ?f] =>
    destruct (space_alter st code f Hwf) as (st' & -> & Hwf' & _ & Hget); [done|by rewrite He|] end.
  dred. do 2 eexists. split; [done|].
  assert (Hkeep : forall b off' l, holds h b off' l -> holds h3 b off' l) by (intros; by eapply holds_grow).
  split; [|split].
  - split; [done|]. intros c. rewrite Hget. unfold receive. simpl.
    destruct (Z.eqb_spec c code) as [->|Hne].
    + rewrite He, Hm. simpl. exists (old ++ data). split; [|done].
      eexists. split; [done|]. simpl. split; [|by rewrite zlen_app].
      exists [], [0]. split; [|done]. simpl. rewrite <- app_assoc. by apply list_lookup_middle.
    + pose proof (Hrep c) as Hmc. destruct (space_get u st c) as [e'|]; [|done].
      destruct Hmc as (bs & He' & Hmc). exists bs. split; [|done].
      eapply entry_holds_mono; [|exact He']. intros; by apply Hkeep.
  - intros c e' ds'. rewrite Hget. destruct (Z.eqb_spec c code) as [->|Hne].
    + rewrite He. intros [= <-]. simpl. intros [= <-]. simpl. intros <-.
      apply lookup_lt_Some in Hd. lia.
    + intros Ee Eds' Hbp. pose proof (Hbef c e' ds' Ee Eds' Hbp). lia.
  - split; [|intros; by apply Hkeep]. intros d' Hd'. exists d'. split; [|done]. simpl. by apply lookup_app_l_Some.
Qed.

Lemma keep_exact u h st m bp d off data code o :
  octet_space u -> represents u h st m -> before bp o u st -> 0 <= off -> o <= off -> 0 < code < 255 ->
  bufs h !! bp = Some d -> off + zlen data < zlen d -> holds h bp off data ->
  exists h' st', keep_option enum_width h st u code bp off (zlen data) = Done (h', st', true) /\
    represents u h' st' (receive u m (code, data)) /\ before bp (off + zlen data) u st' /\
    rest_kept h h' bp (off + zlen data).
Proof.
  intros Hu Hr Hbef H0 Ho Hcode Hd Hlen Hh. unfold keep_option.
  pose proof (container_space (expr := expr) u (os_container u Hu)) as Hsp.
  rewrite space_lookup by apply Hr. dred. rewrite (os_concat u Hu).
  destruct (space_get u st code) as [e|] eqn:E; [by eapply keep_again|by eapply keep_first].
Qed.

(** ** The parser on a sequence of options *)
Section loop.
Context (dec : decoder -> heap -> option_state expr -> list Z -> Z -> universe ->
               outcome (heap * option_state expr * bool)).
Context (u : universe) (Hu : octet_space u) (buffer : list Z) (length : Z) (bp : nat).
Hypothesis Hlength : length < 2 ^ 31.

#[local] Abbreviation step := (parse_step U enum_width dec u buffer length bp).

(** The options before [o] have been read, [l] and [rest] remain.  Of the copy
    only the byte at [o] may have been overwritten. *)
Record reading (h : heap) (st : option_state expr) (m : values) (o : Z)
    (l : list hunk) (rest : list Z) : Prop := {
  rg_rep : represents u h st m;
  rg_before : before bp o u st;
  rg_buf : exists d, bufs h !! bp = Some d /\ zlen d = length + 1;
  rg_tail : forall x ys, wire l ++ rest = x :: ys -> holds h bp (o + 1) ys;
  rg_input : exists pre extra, buffer = pre ++ (wire l ++ rest) ++ extra /\ zlen pre = o /\
               length = o + zlen (wire l ++ rest) }.

Lemma index_small x : 0 <= x <= length + 2 -> u32 x = x.
Proof. intros. apply Z.mod_small. lia. Qed.

Lemma step_end h st m o rest :
  ends rest -> reading h st m o [] rest -> step (mk_parse h st o) = Done (inr (h, st, true)).
Proof.
  intros Hend [_ _ _ _ (pre & extra & Hb & Hp & Hl)]. unfold parse_step. simpl in *.
  pose proof (zlen_nonneg pre). pose proof (zlen_nonneg rest).
  rewrite (os_tag u Hu), (index_small (o + 1)) by lia.
  destruct Hend as [-> | Hend]; [by rewrite (proj2 (Z.ltb_lt _ _)) by (change (zlen (@nil Z)) with 0 in *; lia)|].
  destruct rest as [|x rest]; [done|]. injection Hend as ->. rewrite zlen_cons in Hl.
  rewrite (proj2 (Z.ltb_ge _ _)) by (pose proof (zlen_nonneg rest); lia).
  rewrite (os_get_tag u Hu). unfold getUChar.
  assert (rd buffer o = Done 255) as ->.
  { apply rd_Done. split; [lia|]. rewrite Hb, <- Hp. unfold zlen. rewrite Nat2Z.id. by apply list_lookup_middle. }
  dred. by rewrite (os_end u Hu).
Qed.

Lemma step_hunk h st m o x l rest :
  wf_hunk x -> flat u x.1 -> reading h st m o (x :: l) rest ->
  exists h' st', step (mk_parse h st o) = Done (inl (mk_parse h' st' (o + 2 + zlen x.2))) /\
    reading h' st' (receive u m x) (o + 2 + zlen x.2) l rest.
Proof.
  intros (Hc & Hz & Hby) Hflat [Hrep Hbef (d & Hd & Hdl) Htail (pre & extra & Hb & Hp & Hl)].
  destruct x as [c data]. cbn [fst snd] in *. pose proof (zlen_nonneg data).
  rewrite wire_cons in *. rewrite !zlen_cons, zlen_app in Hl. pose proof (zlen_nonneg pre).
  pose proof (zlen_nonneg (wire l ++ rest)).
  specialize (Htail c (zlen data :: data ++ wire l ++ rest)).
  destruct (holds_app h bp (o + 1) [zlen data] (data ++ wire l ++ rest)) as [_ Hd1].
  { by apply Htail. }
  replace (o + 1 + zlen [zlen data]) with (o + 2) in Hd1 by (change (zlen [zlen data]) with 1; lia).
  apply holds_app in Hd1 as [Hdata Hnext].
  assert (Hrd : forall i v, (c :: zlen data :: data ++ wire l ++ rest) !! i = Some v ->
    rd buffer (o + Z.of_nat i) = Done v).
  { intros i v Hi. apply rd_Done. split; [lia|].
    rewrite Hb.
    replace (Z.to_nat (o + Z.of_nat i)) with (Datatypes.length pre + i)%nat by (unfold zlen in Hp; lia).
    rewrite lookup_app_r by lia. replace (Datatypes.length pre + i - Datatypes.length pre)%nat with i by lia.
    by apply lookup_app_l_Some. }
  unfold parse_step. rewrite (os_tag u Hu), (os_length u Hu), (os_get_tag u Hu), (os_get_length u Hu), (os_end u Hu).
  rewrite (index_small (o + 1)), (proj2 (Z.ltb_ge _ _)) by lia. unfold getUChar.
  assert (rd buffer o = Done c) as -> by (rewrite <- (Hrd 0%nat c) by done; f_equal; lia). dred.
  rewrite (proj2 (Z.eqb_neq c DHO_END)), (proj2 (Z.eqb_neq c DHO_PAD)) by (unfold DHO_END, DHO_PAD; lia).
  rewrite (index_small (o + 1 + 1)), (proj2 (Z.ltb_ge _ _)) by lia.
  assert (rd buffer (o + 1) = Done (zlen data)) as -> by (by rewrite <- (Hrd 1%nat (zlen data))). dred.
  replace (o + 1 + 1) with (o + 2) by lia.
  rewrite (index_small (o + 2 + zlen data)), (proj2 (Z.ltb_ge _ _)) by lia.
  assert ((match code_hash u c with
      | Some o0 => if is_encapsulation o0 then _ else Done (h, st, false)
      | None => Done (h, st, false) end) = Done (h, st, false)) as ->.
  { unfold flat in Hflat. destruct (code_hash u c); [by rewrite Hflat|done]. }
  dred. destruct (keep_exact u h st m bp d (o + 2) data c o) as (h' & st' & -> & Hrep' & Hbef' & Hk1 & Hk2);
    [done..|lia|lia|done|done|lia|done|]. dred.
  do 2 eexists. split; [done|]. split.
  - exact Hrep'.
  - exact Hbef'.
  - destruct (Hk1 d Hd) as (d' & Hd' & Hl'). exists d'. split; [done|]. unfold zlen in *. lia.
  - intros y ys E. apply Hk2; [lia|]. rewrite E in Hnext. apply (holds_app _ _ _ [y] ys) in Hnext as [_ Hy].
    by change (zlen [y]) with 1 in Hy.
  - exists (pre ++ c :: zlen data :: data), extra. rewrite Hb. split_and!.
    + rewrite <- !app_assoc. cbn [app]. by rewrite <- !app_assoc.
    + rewrite zlen_app, !zlen_cons. lia.
    + lia.
Qed.

Lemma parse_loop l : forall k h st m o rest i,
  Forall (fun x => wf_hunk x /\ flat u x.1) l -> ends rest -> (Datatypes.length l < k)%nat ->
  reading h st m o l rest ->
  exists h' st', for_loop k i (fun _ => step) (mk_parse h st o) = Done (inr (h', st', true)) /\
    represents u h' st' (fold_left (receive u) l m).
Proof.
  induction l as [|x l IH]; intros k h st m o rest i Hl Hend Hk Hr; (destruct k as [|k]; [simpl in Hk; lia|]);
    cbn [for_loop].
  - rewrite (step_end h st m o rest Hend Hr). dred. do 2 eexists. split; [done|]. apply Hr.
  - apply Forall_cons_iff in Hl as [[Hx Hf] Hl].
    destruct (step_hunk h st m o x l rest Hx Hf Hr) as (h1 & st1 & -> & Hr1). dred. simpl fold_left.
    eapply IH; [done..|simpl in Hk; lia|done].
Qed.
End loop.

Lemma wire_length l : Z.of_nat (length l) <= zlen (wire l).
Proof.
  induction l as [|[c d] l IH]; [done|]. pose proof (wire_cons c d l []) as E.
  rewrite !app_nil_r in E. apply (f_equal zlen) in E. rewrite !zlen_cons, zlen_app in E.
  pose proof (zlen_nonneg d). cbn [length]. unfold hunk in *. lia.
Qed.

Lemma represents_grow u h h' st m x :
  bufs h' = bufs h ++ x -> represents u h st m -> represents u h' st m.
Proof.
  intros E [Hwf Hrep]. split; [done|]. intros c. specialize (Hrep c).
  destruct (space_get u st c) as [e|]; [|done]. destruct Hrep as (bs & He & Hm). exists bs. split; [|done].
  eapply entry_holds_mono; [|exact He]. intros. by eapply holds_grow.
Qed.

Lemma parse_wire u h st m l rest extra :
  octet_space u -> represents u h st m -> Forall (fun x => wf_hunk x /\ flat u x.1) l -> ends rest ->
  zlen (wire l ++ rest) < 2 ^ 31 ->
  exists h' st',
    parse_option_buffer U fqdn_universe enum_width h st ((wire l ++ rest) ++ extra)
      (zlen (wire l ++ rest)) u = Done (h', st', true) /\
    represents u h' st' (fold_left (receive u) l m).
Proof.
  intros Hu Hrep Hl Hend Hlen. unfold parse_option_buffer. cbn [decode]. unfold parse_option_buffer_with.
  rewrite allocate_ok. set (w := wire l ++ rest) in *.
  assert (rdn (w ++ extra) 0 (zlen w) = Done w) as ->.
  { pose proof (rdn_middle [] w extra) as R. exact R. }
  dred. rewrite (write_last _ (bufs h) [] (replicate (length w) 0) [0]); [| |by rewrite length_replicate|done].
  2: { simpl. rewrite (zeros_split _ (length w)) by (unfold zlen; lia). do 4 f_equal. unfold zlen.
       by replace (Z.to_nat (Z.of_nat (length w)) + 1 - length w)%nat with 1%nat by lia. }
  dred. cbn [app]. set (h2 := mk_heap _ _).
  assert (Hrep2 : represents u h2 st m) by (by eapply represents_grow).
  destruct (parse_loop (decode U fqdn_universe enum_width (Z.to_nat (zlen w))) u Hu (w ++ extra) (zlen w)
    (length (bufs h)) Hlen l (S (Z.to_nat (zlen w))) h2 st m 0 rest 0) as (h' & st' & -> & Hrep').
  - done.
  - done.
  - pose proof (wire_length l). unfold w. rewrite zlen_app. pose proof (zlen_nonneg rest). lia.
  - split; [done| | | |].
    + intros c e ds Ee Eds Hbp. destruct Hrep as [_ Hr]. specialize (Hr c). rewrite Ee in Hr.
      destruct Hr as (bs & (ds' & Eds' & (pre & post & Hb & _) & _) & _). rewrite Eds in Eds'.
      injection Eds' as <-. apply lookup_lt_Some in Hb. lia.
    + exists (w ++ [0]). split; [by apply list_lookup_middle|]. by rewrite zlen_app.
    + intros x ys E. exists [x], [0]. split; [|done]. simpl. fold w in E. rewrite E. by apply list_lookup_middle.
    + exists [], extra. split_and!; [done|done|]. fold w. lia.
  - dred. do 2 eexists. by split.
Qed.

(** C5: a buffer that holds a sequence of options, whatever follows the end
    mark, is parsed with status 1 into exactly the values that [receive]
    defines: each option of the sequence is added to the options that were
    there, a repeated one is appended to the earlier value, and the NUL that
    the parser writes after an option into its copy of the buffer (over the
    tag of the next option) damages no value, earlier or later. *)
Theorem parse_option_buffer_values u h st m l rest extra :
  octet_space u -> represents u h st m -> Forall (fun x => wf_hunk x /\ flat u x.1) l -> ends rest ->
  zlen (wire l ++ rest) < 2 ^ 31 ->
  exists h' st',
    parse_option_buffer U fqdn_universe enum_width h st ((wire l ++ rest) ++ extra)
      (zlen (wire l ++ rest)) u = Done (h', st', true) /\
    represents u h' st' (fold_left (receive u) l m) /\
    forall c v, fold_left (receive u) l m c = Some v ->
      exists e, lookup_option u st' c = Done (Some e) /\ entry_holds h' e v.
Proof.
  intros Hu Hrep Hl Hend Hlen.
  destruct (parse_wire u h st m l rest extra Hu Hrep Hl Hend Hlen) as (h' & st' & E & Hrep').
  exists h', st'. split_and!; [done..|]. intros c v Hv.
  pose proof (container_space (expr := expr) u (os_container u Hu)) as Hsp.
  rewrite space_lookup by apply Hrep'. destruct Hrep' as [_ Hr]. specialize (Hr c).
  destruct (space_get u st' c) as [e|]; [|by rewrite Hv in Hr]. destruct Hr as (bs & He & Hbs).
  rewrite Hv in Hbs. injection Hbs as <-. eauto.
Qed.

End parsing.

(** ** Witness: a text option in two parts around another option *)
#[local] Instance wire_allocator : Allocator := fun _ => true.

Definition wire_universe : universe :=
  mk_universe "dhcp" ByHash (Some DecodeBuffer) getUChar (Some getUChar) 1 1 DHO_END
    (fun c => if c =? 12 then Some (mk_option "host-name" "t" 0 12) else None) 0 true.
Definition wire_hunks : list hunk := [(12, [65; 66; 0; 0]); (54, [10; 0; 0; 1]); (12, [67])].
Definition wire_state : option_state unit := mk_state 0 0 [SlotNull].

Lemma parse_option_buffer_values_witness :
  exists h' st' e,
    parse_option_buffer [] wire_universe (fun _ => None) (mk_heap [] 0) wire_state
      ((wire wire_hunks ++ [255]) ++ [1; 2]) 16 wire_universe = Done (h', st', true) /\
    lookup_option wire_universe st' 12 = Done (Some e) /\ entry_holds h' e [65; 66; 67].
Proof.
  destruct (parse_option_buffer_values [] wire_universe (fun _ => None) (fun _ => eq_refl)
    wire_universe (mk_heap [] 0) wire_state (fun _ => None) wire_hunks [255] [1; 2])
    as (h' & st' & E & _ & Hv).
  - split; try done.
    + intros c o. simpl. zcase; intros [= <-]. by simpl.
    + intros c o. simpl. zcase; intros [= <-]. by exists 0.
  - split; [|done]. split; [simpl; lia|]. by exists SlotNull.
  - repeat constructor; simpl; try (vm_compute; discriminate || reflexivity);
      intros o; simpl; intros [= <-]; reflexivity.
  - by right.
  - reflexivity.
  - destruct (Hv 12 [65; 66; 67] eq_refl) as (e & El & He). exists h', st', e. split_and!; [exact E|done|done].
Defined.
