(* ===== verification/OptionOut.v ===== *)
(** * Laying options out in a packet (common/options.c)

    [store_options] puts the options of a priority list into a buffer of up to
    three parts (the options field, the file field and the server name field of
    a DHCP packet), and [cons_options] builds the priority list, sizes the
    parts and assembles the packet.

    The values of the options come from the configuration: [lookup_option] on
    the configured option state, [evaluate_option_cache] and the encapsulation
    of other spaces.  The evaluation of expressions and the encapsulating
    functions of the spaces are parameters. *)

From Stdlib Require Import Ascii String.
From stdpp Require Import base tactics list numbers strings.
From S2P Require Import Prelude Convert OptionStore OptionParse.

#[local] Open Scope Z_scope.

Definition DHO_SUBNET_MASK : Z := 1.
Definition DHO_ROUTERS : Z := 3.
Definition DHO_DOMAIN_NAME_SERVERS : Z := 6.
Definition DHO_HOST_NAME : Z := 12.
Definition DHO_VENDOR_ENCAPSULATED_OPTIONS : Z := 43.
Definition DHO_DHCP_REQUESTED_ADDRESS : Z := 50.
Definition DHO_DHCP_LEASE_TIME : Z := 51.
Definition DHO_DHCP_SERVER_IDENTIFIER : Z := 54.
Definition DHO_DHCP_MESSAGE : Z := 56.
Definition DHO_DHCP_MAX_MESSAGE_SIZE : Z := 57.
Definition DHO_DHCP_RENEWAL_TIME : Z := 58.
Definition DHO_DHCP_REBINDING_TIME : Z := 59.
Definition DHO_DHCP_CLIENT_IDENTIFIER : Z := 61.
Definition DHO_FQDN : Z := 81.
Definition DHO_DHCP_AGENT_OPTIONS : Z := 82.
Definition DHO_ASSOCIATED_IP : Z := 92.
Definition DHO_SUBNET_SELECTION : Z := 118.
Definition DHCPDISCOVER : Z := 1.
Definition DHCPREQUEST : Z := 3.

Definition DHCP_UDP_OVERHEAD : Z := 28.
Definition DHCP_SNAME_LEN : Z := 64.
Definition DHCP_FILE_LEN : Z := 128.
Definition DHCP_FIXED_LEN : Z := DHCP_FIXED_NON_UDP + DHCP_UDP_OVERHEAD.
Definition DHCP_MTU_MAX : Z := 1500.
Definition DHCP_MTU_MIN : Z := 576.
Definition DHCP_MAX_OPTION_LEN : Z := DHCP_MTU_MAX - DHCP_FIXED_LEN.
Definition DHCP_MIN_OPTION_LEN : Z := DHCP_MTU_MIN - DHCP_FIXED_LEN.
Definition PRIORITY_COUNT : Z := 300.

(** Comparison of 32-bit unsigned integers. *)
Definition ltu (a b : Z) : bool := u32 a <? u32 b.

(** ** The priority list *)

(** Drop the later occurrences of element [i]: the elements from [i + 1] to
    [len - 1] are moved down over the duplicates; the result is the list and
    the number of duplicates ([tto]). *)
Definition drop_duplicates (i len : Z) (l : list Z) : outcome (list Z * Z) :=
  for_each (Z.to_nat (len - (i + 1))) (i + 1)
    (fun ix '(l, tto) =>
       l' ← (if tto =? 0 then Done l else v ← rd l ix; wr l (ix - tto) v);
       a ← rd l' i;
       b ← rd l' ix;
       Done (l', if a =? b then tto + 1 else tto))
    (l, 0).

(** The router option that the subnet mask at [i] must come before: from
    [i - 1] down. *)
Fixpoint mask_before_routers (k : nat) (ix i : Z) (l : list Z) : outcome (list Z) :=
  match k with
  | O => Done l
  | S k' =>
      if ix <? 0 then Done l
      else
        v ← rd l ix;
        if v =? DHO_ROUTERS
        then l1 ← wr l ix DHO_SUBNET_MASK; wr l1 i DHO_ROUTERS
        else mask_before_routers k' (ix - 1) i l
  end.

Definition order_step (s : list Z * Z * Z) : outcome ((list Z * Z * Z) + (list Z * Z)) :=
  let '(l, len, i) := s in
  if i <? len then
    '(l, tto) ← drop_duplicates i len l;
    v ← rd l i;
    l ← (if v =? DHO_SUBNET_MASK then mask_before_routers (Z.to_nat i) (i - 1) i l else Done l);
    Done (inl (l, len - tto, i + 1))
  else Done (inr (l, len)).

(** The whole loop, on an array of which the first [len] elements are used. *)
Definition order_priorities (l : list Z) (len : Z) : outcome (list Z * Z) :=
  r ← for_loop (S (Z.to_nat len)) 0 (fun _ => order_step) (l, len, 0);
  match r with inl _ => Running | inr r => Done r end.

(** ** The three parts of the buffer *)

(** The next free position in each part ([bufix], [six], [tix]). *)
Record position := mk_pos { bufix : Z; six : Z; tix : Z }.

(** The sizes: the cutoffs (0: the part is not there) and the ends of the
    parts, all relative to the place where [store_options] starts. *)
Record layout := mk_layout {
  first_cutoff : Z; second_cutoff : Z; bufend : Z; sbufend : Z; buflen : Z }.

Inductive part := PMain | PFirst | PSecond.

Definition part_base (y : layout) (p : part) : Z :=
  match p with PMain => 0 | PFirst => first_cutoff y | PSecond => second_cutoff y end.
Definition part_ix (s : position) (p : part) : Z :=
  match p with PMain => bufix s | PFirst => six s | PSecond => tix s end.
Definition advance (s : position) (p : part) (n : Z) : position :=
  match p with
  | PMain => mk_pos (bufix s + n) (six s) (tix s)
  | PFirst => mk_pos (bufix s) (six s + n) (tix s)
  | PSecond => mk_pos (bufix s) (six s) (tix s + n)
  end.

(** Where the next piece of an option goes, and how much fits: whole in a part
    when it is not split, otherwise into what is left. *)
Definition whole_part (y : layout) (s : position) (length : Z) (last : bool) : option part :=
  if ((six s =? 0) && (tix s =? 0) && last && ltu (bufix s + 2 + length) (bufend y))
     || ltu (bufix s + 5 + length) (bufend y) then Some PMain
  else if negb (first_cutoff y =? 0) && ltu (first_cutoff y + six s + 3 + length) (sbufend y)
  then Some PFirst
  else if negb (second_cutoff y =? 0) && ltu (second_cutoff y + tix s + 3 + length) (buflen y)
  then Some PSecond
  else None.

Definition split_part (y : layout) (s : position) : option (part * Z) :=
  if bufix s + 6 <? bufend y then Some (PMain, bufend y - bufix s - 5)
  else if negb (first_cutoff y =? 0) && ltu (first_cutoff y + six s + 4) (sbufend y)
  then Some (PFirst, sbufend y - (first_cutoff y + six s) - 3)
  else if negb (second_cutoff y =? 0) && ltu (second_cutoff y + tix s + 4) (buflen y)
  then Some (PSecond, buflen y - (second_cutoff y + tix s) - 3)
  else None.

Definition choose_part (y : layout) (s : position) (length : Z) (last splitup : bool)
    : option (part * Z * bool) :=
  match (if splitup then None else whole_part y s length last) with
  | Some p => Some (p, length, false)
  | None => match split_part y s with
            | Some (p, n) => Some (p, n, true)
            | None => None
            end
  end.

(** The state of the loop that stores one option. *)
Record storing := mk_storing {
  so_buffer : list Z; so_pos : position; so_length : Z; so_ix : Z; so_split : bool }.

(** One piece: tag, length, data, and the NUL that ends a text option. *)
Definition put_piece (buffer : list Z) (at_ : Z) (code incr ix : Z) (data : list Z) (nul : bool)
    : outcome (list Z) :=
  buffer ← wr buffer at_ (u8 code);
  buffer ← wr buffer (at_ + 1) (u8 incr);
  if nul then
    buffer ← (if 1 <? incr
              then src ← rdn data ix (incr - 1); wrn buffer (at_ + 2) src
              else Done buffer);
    wr buffer (at_ + 2 + incr - 1) 0
  else
    src ← rdn data ix incr;
    wrn buffer (at_ + 2) src.

(** One round of the loop; it ends when nothing is left, or gives up and rolls
    back to where the option started ([start]). *)
Definition store_step (y : layout) (code : Z) (data : list Z) (tto last : bool) (start : position)
    (s : storing) : outcome (storing + (list Z * position)) :=
  if so_length s =? 0 then Done (inr (so_buffer s, so_pos s))
  else
    match choose_part y (so_pos s) (so_length s) last (so_split s) with
    | None => Done (inr (so_buffer s, start))
    | Some (p, room, split) =>
        let incr := Z.min (Z.min room (so_length s)) 255 in
        b ← put_piece (so_buffer s) (part_base y p + part_ix (so_pos s) p) code incr (so_ix s) data
              (tto && (incr =? so_length s));
        Done (inl (mk_storing b (advance (so_pos s) p (2 + incr)) (so_length s - incr)
                     (so_ix s + incr) split))
    end.

Definition store_one (y : layout) (code : Z) (data : list Z) (tto last : bool)
    (buffer : list Z) (s : position) : outcome (list Z * position) :=
  let length := zlen data + (if tto then 1 else 0) in
  r ← for_loop (S (Z.to_nat length)) 0 (fun _ => store_step y code data tto last s)
        (mk_storing buffer s length 0 (255 <? length));
  match r with inl _ => Running | inr r => Done r end.

(** ** The value of an option *)
Definition char_codes (s : list ascii) : list Z := (fun c => Z.of_N (N_of_ascii c)) <$> s.

Section options.
Context {expr : Type}.
(** The option spaces, the space of the DHCP options and the option that names
    the vendor space ([vendor_cfg_option]: its space and code), if any. *)
Context (all_universes : list universe) (dhcp_universe fqdn_universe : universe).
Context (vendor_cfg_option : option (universe * Z)).
(** [enc_opt] of each space: the space and code of the option that carries it. *)
Context (enc_opts : list (option (Z * Z))).
(** [evaluate_data_expression], [option_space_encapsulate] (by the name of the
    space), and whether memory for an option with an encapsulation is there. *)
Context (evaluate_data_expression : expr -> option (list Z)).
Context (option_space_encapsulate : list Z -> option (list Z)).
Context (buffer_available : Z -> bool).
Context (h : heap).

#[local] Abbreviation state := (option_state expr).

Definition evaluate_option_cache (oc : entry expr) : outcome (option (list Z)) :=
  match oc_data (fst oc) with
  | Some d => b ← ds_bytes h d; Done (Some b)
  | None => match oc_expr (fst oc) with
            | None => Done None
            | Some e => Done (evaluate_data_expression e)
            end
  end.

(** The name of the space an option with this format carries; [None] when the
    format names none.  A name of length zero stands for the vendor space. *)
Definition encapsulated_name (cfg : state) (format : string) (vuname : bool)
    : outcome (list Z) :=
  match split_at "E" (chars format) with
  | None => Done []
  | Some (_, s) =>
      match split_at "." s with
      | None => Done []
      | Some ([], _) =>
          match vendor_cfg_option with
          | Some (vu, vcode) =>
              tmp ← lookup_option vu cfg vcode;
              match tmp with
              | None => Done []
              | Some oc => v ← evaluate_option_cache oc; Done (default [] v)
              end
          | None => Done (if vuname then char_codes s else [])
          end
      | Some (name, _) => Done (char_codes name)
      end
  end.

Definition wants_encapsulation (option : option option_def) (has_oc : bool) : bool :=
  match option with
  | None => false
  | Some o =>
      match format_head o with
      | None => false
      | Some c => if has_oc then Ascii.eqb c "e" else Ascii.eqb c "E"
      end
  end.

(** The bytes to store for an option and whether a NUL is added; [None] when
    there is nothing to store. *)
Definition option_value (cfg : state) (terminate vuname : bool) (code : Z)
    : outcome (option (list Z * bool)) :=
  u ← (if site_code_min cfg <=? code then rd all_universes (site_universe cfg)
       else Done dhcp_universe);
  oc ← lookup_option u cfg code;
  let option := match oc with
                | Some e => Some (oc_option (fst e))
                | None => code_hash u code
                end in
  encapsulation ←
    (if wants_encapsulation option (match oc with Some _ => true | None => false end) then
       match option with
       | Some o => name ← encapsulated_name cfg (opt_format o) vuname;
                   Done (if zlen name =? 0 then None else option_space_encapsulate name)
       | None => Done None
       end
     else Done None);
  let tto := terminate && match option with Some o => format_has_text (opt_format o) | None => false end in
  match oc, encapsulation with
  | None, None => Done None
  | None, Some enc => Done (Some (enc, tto))
  | Some e, _ =>
      v ← evaluate_option_cache e;
      let od := default [] v in
      if zlen od =? 0 then Done None
      else match encapsulation with
           | None => Done (Some (od, tto))
           | Some enc => if buffer_available code then Done (Some (od ++ enc, tto)) else Done None
           end
  end.

(** ** [store_options] *)
Definition make_layout (index blen cutoff1 cutoff2 : Z) : outcome layout :=
  let blen := u32 (blen - index) in
  let cutoff1 := if cutoff1 =? 0 then 0 else u32 (cutoff1 - index) in
  let cutoff2 := if cutoff2 =? 0 then 0 else s32 (cutoff2 - index) in
  if negb (cutoff1 =? 0) then
    if blen <=? cutoff1 then Fatal
    else if negb (cutoff2 =? 0) then
      if blen <=? u32 cutoff2 then Fatal
      else Done (mk_layout cutoff1 cutoff2 (s32 cutoff1) cutoff2 blen)
    else Done (mk_layout cutoff1 cutoff2 (s32 cutoff1) (s32 blen) blen)
  else if negb (cutoff2 =? 0) then
    if blen <=? u32 cutoff2 then Fatal
    else Done (mk_layout cutoff1 cutoff2 cutoff2 (s32 blen) blen)
  else Done (mk_layout cutoff1 cutoff2 (s32 blen) (s32 blen) blen).

(** The loop over the priority list. *)
Fixpoint store_all (y : layout) (value : Z -> outcome (option (list Z * bool)))
    (codes : list Z) (buffer : list Z) (s : position) : outcome (list Z * position) :=
  match codes with
  | [] => Done (buffer, s)
  | code :: rest =>
      v ← value code;
      match v with
      | None => store_all y value rest buffer s
      | Some (data, tto) =>
          '(buffer, s) ← store_one y code data tto
                           (match rest with [] => true | _ => false end) buffer s;
          store_all y value rest buffer s
      end
  end.

(** An overloaded part that was used is ended and padded. *)
Definition end_part (buffer : list Z) (base ix limit : Z) : outcome (list Z) :=
  buffer ← (if ltu (base + ix + 1) limit
            then wrn buffer (base + ix + 1)
                   (replicate (Z.to_nat (limit - (base + ix + 1))) DHO_PAD)
            else if ltu (base + ix) limit then Done buffer else Fatal);
  wr buffer (base + ix) DHO_END.

(** The buffer starts at [index] of the caller's; the result is the buffer, the
    parts that were overloaded and the number of bytes in the main part. *)
Definition store_options (buffer : list Z) (index blen : Z) (cfg : state)
    (priority_list : list Z) (cutoff1 cutoff2 : Z) (terminate vuname : bool)
    : outcome (list Z * Z * Z) :=
  y ← make_layout index blen cutoff1 cutoff2;
  '(l, len) ← order_priorities priority_list (zlen priority_list);
  let head := take (Z.to_nat index) buffer in
  '(b, s) ← store_all y (option_value cfg terminate vuname) (take (Z.to_nat len) l)
              (drop (Z.to_nat index) buffer) (mk_pos 0 0 0);
  let used1 := negb (first_cutoff y =? 0) && negb (six s =? 0) in
  let used2 := negb (second_cutoff y =? 0) && negb (tix s =? 0) in
  b ← (if used1 then end_part b (first_cutoff y) (six s) (sbufend y) else Done b);
  b ← (if used2 then end_part b (second_cutoff y) (tix s) (buflen y) else Done b);
  if (negb (six s =? 0) || negb (tix s =? 0)) && (bufend y <? bufix s + 3) then Fatal
  else Done (head ++ b, (if used1 then 1 else 0) + (if used2 then 2 else 0), bufix s).
(** ** [cons_options] *)
Record in_packet := mk_in {
  in_options : state; in_length : Z; in_echo_client_id : bool; in_type : Z }.
Record out_packet := mk_out { out_sname : list Z; out_file : list Z; out_options : list Z }.

(** The maximum message size: the client's, when it is smaller or no other is
    given. *)
Definition client_mms `{HostOrder} (inpacket : option in_packet) (mms : Z) : outcome Z :=
  match inpacket with
  | None => Done mms
  | Some p =>
      op ← lookup_option dhcp_universe (in_options p) DHO_DHCP_MAX_MESSAGE_SIZE;
      match op with
      | None => Done mms
      | Some oc =>
          ds ← evaluate_option_cache oc;
          match ds with
          | None => Done mms
          | Some ds =>
              if 2 <=? zlen ds then
                i ← getUShort ds 0;
                Done (if (mms =? 0) || (i <? mms) then i else mms)
              else Done mms
          end
      end
  end.

(** The size of the main buffer. *)
Definition main_size (inpacket : option in_packet) (mms : Z) (bootpp : bool) : Z :=
  if negb (mms =? 0) then
    if mms <? DHCP_MTU_MIN then DHCP_MIN_OPTION_LEN
    else if DHCP_MTU_MAX <? mms then DHCP_MAX_OPTION_LEN
    else mms - DHCP_FIXED_LEN
  else if bootpp then
    match inpacket with
    | Some p => if 64 + DHCP_FIXED_NON_UDP <=? in_length p
                then in_length p - DHCP_FIXED_NON_UDP else 64
    | None => 64
    end
  else DHCP_MIN_OPTION_LEN.

(** [priority_list[priority_len++] = code] on the array of 300. *)
Definition push (l : list Z) (code : Z) : outcome (list Z) :=
  if zlen l <? PRIORITY_COUNT then Done (l ++ [code]) else Fault.

(** The same under the guard [c && priority_len < PRIORITY_COUNT]. *)
Definition push_if (c : bool) (code : Z) (l : list Z) : outcome (list Z) :=
  if c && (zlen l <? PRIORITY_COUNT) then push l code else Done l.

Fixpoint push_all (codes : list Z) (l : list Z) : outcome (list Z) :=
  match codes with
  | [] => Done l
  | c :: rest => l' ← push l c; push_all rest l'
  end.

Fixpoint push_each (keep : Z -> bool) (codes : list Z) (l : list Z) : outcome (list Z) :=
  match codes with
  | [] => Done l
  | c :: rest => l' ← push_if (keep c) c l; push_each keep rest l'
  end.

Definition mandatory_codes : list Z :=
  [DHO_DHCP_MESSAGE_TYPE; DHO_DHCP_SERVER_IDENTIFIER; DHO_DHCP_LEASE_TIME; DHO_DHCP_RENEWAL_TIME;
   DHO_DHCP_REBINDING_TIME; DHO_DHCP_MESSAGE; DHO_DHCP_REQUESTED_ADDRESS; DHO_ASSOCIATED_IP].

(** The codes of a hashed space in the order of its buckets. *)
Definition hashed_codes (cfg : state) (index : Z) : outcome (list Z) :=
  sl ← rd (universes cfg) index;
  match sl with
  | SlotNull => Done []
  | SlotHash t => Done (entry_code <$> concat t)
  | SlotChain _ => Fault
  end.

(** With a parameter request list from the client. *)
Definition requested_priorities (inpacket : option in_packet) (cfg : state) (prl l : list Z)
    : outcome (list Z) :=
  op ← lookup_option dhcp_universe cfg DHO_SUBNET_SELECTION;
  l ← push_if (match op with Some _ => true | None => false end) DHO_SUBNET_SELECTION l;
  l ← push_if (match inpacket with Some p => in_echo_client_id p | None => false end)
        DHO_DHCP_CLIENT_IDENTIFIER l;
  let prl := take (Z.to_nat (PRIORITY_COUNT - zlen l)) prl in
  l ← push_all (filter (fun c => c <> DHO_DHCP_AGENT_OPTIONS) prl) l;
  match inpacket with
  | None => Done l
  | Some p =>
      fq ← lookup_option fqdn_universe (in_options p) FQDN_ENCODED;
      l ← push_if (match fq with Some _ => true | None => false end) DHO_FQDN l;
      push_if ((in_type p =? DHCPDISCOVER) || (in_type p =? DHCPREQUEST)) DHO_SUBNET_MASK l
  end.

(** Without one: everything that is configured. *)
Definition configured_priorities (cfg : state) (l : list Z) : outcome (list Z) :=
  let not_agent c := negb (c =? DHO_DHCP_AGENT_OPTIONS) in
  l ← push_all [DHO_SUBNET_MASK; DHO_ROUTERS; DHO_DOMAIN_NAME_SERVERS; DHO_HOST_NAME; DHO_FQDN] l;
  l ← (if site_code_min cfg =? 0 then Done l
       else codes ← hashed_codes cfg (u_index dhcp_universe);
            push_each (fun c => (c <? site_code_min cfg) && not_agent c) codes l);
  codes ← hashed_codes cfg (site_universe cfg);
  l ← push_each (fun c => (site_code_min cfg <=? c) && not_agent c) codes l;
  let enc := omap (fun e => match e with
                            | Some (v, c) => if v =? u_index dhcp_universe then Some c else None
                            | None => None
                            end) (take (Z.to_nat (universe_count cfg)) enc_opts) in
  l ← push_each not_agent enc l;
  push_if true DHO_VENDOR_ENCAPSULATED_OPTIONS l.

Definition priorities (inpacket : option in_packet) (cfg : state) (prl : option (list Z))
    : outcome (list Z) :=
  l ← push_all mandatory_codes [];
  match prl with
  | Some (c :: prl') => requested_priorities inpacket cfg (c :: prl') l
  | _ => configured_priorities cfg l
  end.

(** The relay agent options, which are put at the end of the packet; only a
    server has them. *)
Definition agent_options (agentopts : list Z) (client : bool) (cfg : state) : outcome (list Z * Z) :=
  if client then Done (agentopts, 0)
  else '(a, _, n) ← store_options agentopts 0 (zlen agentopts) cfg [DHO_DHCP_AGENT_OPTIONS]
                      0 0 false false;
       Done (a, n).

(** The size of the main buffer with the agent options. *)
Definition with_agent (client : bool) (mb_size agent_size : Z) : Z :=
  if client then mb_size else Z.min (u32 (mb_size + agent_size)) DHCP_MAX_OPTION_LEN.

(** The overload option, and the parts that go to other fields. *)
Definition put_overload (buffer : list Z) (index overload_used of1 of2 : Z) (out : out_packet)
    : outcome (list Z * Z * out_packet) :=
  if overload_used =? 0 then Done (buffer, index, out)
  else
    buffer ← wrn buffer index [DHO_DHCP_OPTION_OVERLOAD; 1; u8 overload_used];
    file ← (if Z.testbit overload_used 0
            then src ← rdn buffer of1 DHCP_FILE_LEN; wrn (out_file out) 0 src
            else Done (out_file out));
    sname ← (if Z.testbit overload_used 1
             then src ← rdn buffer of2 DHCP_SNAME_LEN; wrn (out_sname out) 0 src
             else Done (out_sname out));
    Done (buffer, index + 3, mk_out sname file (out_options out)).

Definition put_agent (buffer : list Z) (index : Z) (agentopts : list Z) (agent_size mb_size : Z)
    : outcome (list Z * Z) :=
  if agent_size =? 0 then Done (buffer, index)
  else if agent_size <=? u32 (mb_size - index) then
    src ← rdn agentopts 0 agent_size;
    buffer ← wrn buffer index src;
    Done (buffer, index + agent_size)
  else Done (buffer, index).

Definition put_end (buffer : list Z) (index mb_size : Z) : outcome (list Z * Z) :=
  if index <? mb_size then buffer ← wr buffer index DHO_END; Done (buffer, index + 1)
  else Done (buffer, index).

(** What [cons_options] does with the stored options; the result is the packet
    and its length (0: failure). *)
Definition finish_packet (buffer : list Z) (overload_used option_size of1 of2 : Z)
    (agentopts : list Z) (agent_size mb_size : Z) (out : out_packet) : outcome (out_packet * Z) :=
  if option_size =? 0 then Done (out, 0)
  else
    let index := 4 + option_size in
    if negb (overload_used =? 0) && (u32 (mb_size - agent_size - index) <? 3) then Done (out, 0)
    else
      '(buffer, index, out) ← put_overload buffer index overload_used of1 of2 out;
      '(buffer, index) ← put_agent buffer index agentopts agent_size mb_size;
      '(buffer, index) ← put_end buffer index mb_size;
      src ← rdn buffer 0 index;
      options ← wrn (out_options out) 0 src;
      Done (mk_out (out_sname out) (out_file out) options, DHCP_FIXED_NON_UDP + index).

(** The result is the packet and its length (0: failure).  [buffer] and
    [agentopts] are the arrays on the stack; [client] says whether a client
    state is given. *)
Definition cons_options `{HostOrder} (buffer agentopts : list Z) (inpacket : option in_packet)
    (out : out_packet) (client : bool) (mms : Z) (cfg : state) (overload_avail : Z)
    (terminate bootpp : bool) (prl : option (list Z)) (vuname : bool)
    : outcome (out_packet * Z) :=
  mms ← client_mms inpacket mms;
  '(agentopts, agent_size) ← agent_options agentopts client cfg;
  let mb_size := with_agent client (main_size inpacket mms bootpp) agent_size in
  let mb_max := if agent_size <? mb_size then mb_size - agent_size else mb_size in
  let of1 := if Z.testbit overload_avail 0 then mb_max else 0 in
  let mb_max := if Z.testbit overload_avail 0 then mb_max + DHCP_FILE_LEN else mb_max in
  let of2 := if Z.testbit overload_avail 1 then mb_max else 0 in
  let mb_max := if Z.testbit overload_avail 1 then mb_max + DHCP_SNAME_LEN else mb_max in
  priority_list ← priorities inpacket cfg prl;
  buffer ← wrn buffer 0 DHCP_OPTIONS_COOKIE;
  '(buffer, overload_used, option_size) ←
     store_options buffer 4 mb_max cfg priority_list of1 of2 terminate vuname;
  finish_packet buffer overload_used option_size of1 of2 agentopts agent_size mb_size out.
End options.
