(* ===== verification/OptionOrder.v ===== *)
(** * The order of the options in a packet (the first loop of [store_options])

    The loop works in place on the array of option codes.  It is shown to
    compute: the codes without their later occurrences, in order, with the
    subnet mask and the routers exchanged when the routers came first. *)

From stdpp Require Import base tactics numbers list.
From S2P Require Import Prelude OptionOut.

#[local] Open Scope Z_scope.

(** ** Reference definition *)
Fixpoint keep_first (l : list Z) : list Z :=
  match l with
  | [] => []
  | x :: l' => x :: filter (fun y => y <> x) (keep_first l')
  end.

(** Exchange two codes. *)
Definition swap_codes (a b : Z) (l : list Z) : list Z :=
  (fun x => if x =? a then b else if x =? b then a else x) <$> l.

(** The routers come before the subnet mask. *)
Fixpoint routers_first (l : list Z) : bool :=
  match l with
  | [] => false
  | x :: l' =>
      if x =? DHO_SUBNET_MASK then false
      else if x =? DHO_ROUTERS then bool_decide (DHO_SUBNET_MASK ∈ l')
      else routers_first l'
  end.

Definition mask_first (l : list Z) : list Z :=
  if routers_first l then swap_codes DHO_SUBNET_MASK DHO_ROUTERS l else l.

(** ** Dropping duplicates in place *)
Lemma filter_snoc (P : Z -> Prop) `{!forall x, Decision (P x)} l x :
  filter P (l ++ [x]) = filter P l ++ (if decide (P x) then [x] else []).
Proof. rewrite filter_app, filter_singleton; done. Qed.

(** After the first [k] elements of the tail have been looked at, the kept ones
    stand at its beginning and the rest of the array is as it was. *)
Definition dropping (p : list Z) (x : Z) (t u : list Z) (k : nat) (s : list Z * Z) : Prop :=
  exists junk, s.1 = p ++ x :: filter (fun y => y <> x) (take k t) ++ junk ++ drop k t ++ u /\
    s.2 = zlen junk /\
    (length (filter (fun y => y <> x) (take k t)) + length junk = k)%nat.

Lemma rd_app_l {A} (l k : list A) i : 0 <= i < zlen l -> rd (l ++ k) i = rd l i.
Proof.
  intros Hi. destruct (rd_in l i Hi) as (x & -> & Hx). apply rd_Done. split; [lia|].
  by apply lookup_app_l_Some.
Qed.
Lemma rd_at {A} (l k : list A) x i : i = zlen l -> rd (l ++ x :: k) i = Done x.
Proof.
  intros ->. apply rd_Done. split; [apply zlen_nonneg|]. unfold zlen. rewrite Nat2Z.id.
  by apply list_lookup_middle.
Qed.
Lemma wr_at {A} (l k : list A) x y i : i = zlen l -> wr (l ++ x :: k) i y = Done (l ++ y :: k).
Proof.
  intros ->. rewrite wr_in by (rewrite zlen_app, zlen_cons; pose proof (zlen_nonneg l); pose proof (zlen_nonneg k); lia).
  f_equal. unfold zlen. rewrite Nat2Z.id, insert_app_r_alt, Nat.sub_diag by done. done.
Qed.

Lemma drop_step p x t u k y s :
  t !! k = Some y -> dropping p x t u k s ->
  exists s', (let '(l, tto) := s in
    l' ← (if tto =? 0 then Done l else v ← rd l (zlen p + 1 + Z.of_nat k); wr l (zlen p + 1 + Z.of_nat k - tto) v);
    a ← rd l' (zlen p);
    b ← rd l' (zlen p + 1 + Z.of_nat k);
    Done (l', if a =? b then tto + 1 else tto)) = Done s' /\ dropping p x t u (S k) s'.
Proof.
  intros Hy (junk & Hl & Htto & Hk). destruct s as [l tto]. simpl in Hl, Htto.
  rewrite (drop_S t y k Hy) in Hl. change ((y :: drop (S k) t) ++ u) with (y :: drop (S k) t ++ u) in Hl.
  set (F := filter (fun y => y <> x) (take k t)) in *.
  assert (HF : filter (fun y => y <> x) (take (S k) t) = F ++ (if decide (y <> x) then [y] else [])).
  { rewrite (take_S_r t k y Hy). apply filter_snoc. }
  set (r := drop (S k) t ++ u) in *.
  assert (Hpos : forall G z (w : list Z), (length G + length w = k)%nat ->
    rd (p ++ x :: G ++ w ++ z :: r) (zlen p + 1 + Z.of_nat k) = Done z).
  { intros G z w E. replace (p ++ x :: G ++ w ++ z :: r) with ((p ++ x :: G ++ w) ++ z :: r)
      by (rewrite <- app_assoc; simpl; by rewrite <- app_assoc).
    apply rd_at. rewrite zlen_app, zlen_cons, zlen_app. unfold zlen; lia. }
  assert (Hl' : exists junk', (if tto =? 0 then Done l else v ← rd l (zlen p + 1 + Z.of_nat k);
     wr l (zlen p + 1 + Z.of_nat k - tto) v) = Done (p ++ x :: F ++ junk' ++ y :: r) /\
     length junk' = length junk /\ (junk' = [] \/ exists j0, junk' = y :: j0)).
  { destruct junk as [|z j0].
    - change (zlen (@nil Z)) with 0 in Htto. subst tto. simpl. exists []. rewrite Hl. split_and!; [done..|by left].
    - rewrite zlen_cons in Htto. pose proof (zlen_nonneg j0).
      rewrite (proj2 (Z.eqb_neq tto 0)) by lia. rewrite Hl, (Hpos F y (z :: j0) Hk). dred.
      replace (p ++ x :: F ++ (z :: j0) ++ y :: r) with ((p ++ x :: F) ++ z :: j0 ++ y :: r)
        by (rewrite <- app_assoc; done).
      rewrite wr_at by (rewrite zlen_app, zlen_cons; unfold zlen in *; simpl in Hk; lia).
      exists (y :: j0). rewrite <- app_assoc. split_and!; [done..|right; eauto]. }
  destruct Hl' as (junk' & -> & Hlen & Hhd). dred.
  rewrite (rd_at p _ x (zlen p)) by done. dred. rewrite Hpos by lia. dred. eexists. split; [done|].
  destruct (Z.eqb_spec x y) as [<-|Hne]; unfold dropping; rewrite HF.
  - rewrite decide_False by (by intros []). exists (junk' ++ [x]). simpl. rewrite app_nil_r.
    rewrite zlen_app, length_app. change (zlen [x]) with 1. unfold zlen in *. rewrite Hlen.
    split_and!; [by rewrite <- app_assoc|lia|simpl; lia].
  - rewrite decide_True by done.
    destruct Hhd as [-> | [j0 ->]].
    + exists []. simpl. rewrite <- app_assoc. rewrite length_app. simpl in *. unfold zlen in *.
      split_and!; [done|simpl; lia|simpl; lia].
    + exists (j0 ++ [y]). simpl. rewrite zlen_app, !length_app. unfold zlen in *. simpl in *.
      split_and!; [by rewrite <- !app_assoc|lia|lia].
Qed.

Lemma drop_duplicates_exact p x t u :
  exists junk, drop_duplicates (zlen p) (zlen p + 1 + Z.of_nat (length t)) (p ++ x :: t ++ u) =
      Done (p ++ x :: filter (fun y => y <> x) t ++ junk ++ u, zlen junk) /\
    (length (filter (fun y => y <> x) t) + length junk = length t)%nat.
Proof.
  unfold drop_duplicates.
  destruct (for_each_inv (fun j s => dropping p x t u (Z.to_nat (j - zlen p - 1)) s)
    (fun ix '(l, tto) =>
       l' ← (if tto =? 0 then Done l else v ← rd l ix; wr l (ix - tto) v);
       a ← rd l' (zlen p); b ← rd l' ix; Done (l', if a =? b then tto + 1 else tto))
    (length t) (zlen p + 1) (p ++ x :: t ++ u, 0)) as (s & E & Hs).
  - replace (Z.to_nat (zlen p + 1 - zlen p - 1)) with 0%nat by lia. by exists [].
  - intros j s Hj Hs. set (k := Z.to_nat (j - zlen p - 1)) in *.
    destruct (lookup_lt_is_Some_2 t k) as [y Hy]; [lia|].
    destruct (drop_step p x t u k y s Hy Hs) as (s' & E & Hs').
    replace (zlen p + 1 + Z.of_nat k) with j in E by lia.
    exists s'. split; [destruct s; exact E|]. by replace (Z.to_nat (j + 1 - zlen p - 1)) with (S k) by lia.
  - replace (Z.to_nat (zlen p + 1 + Z.of_nat (length t) - zlen p - 1)) with (length t) in Hs by lia.
    replace (Z.to_nat (zlen p + 1 + Z.of_nat (length t) - (zlen p + 1))) with (length t) by lia.
    rewrite E. destruct Hs as (junk & Hl & Ht & Hk). rewrite firstn_all, drop_all in *. simpl in Hl.
    exists junk. split; [|done]. destruct s as [l tto]. simpl in *. by subst.
Qed.

(** ** Routers and subnet mask *)
Lemma mask_search_none q : forall s i, DHO_ROUTERS ∉ q ->
  mask_before_routers (length q) (zlen q - 1) i (q ++ s) = Done (q ++ s).
Proof.
  induction q as [|z q IH] using rev_ind; intros s i Hq; [done|].
  apply not_elem_of_app in Hq as [Hq Hz]. rewrite length_app, Nat.add_comm. simpl length. cbn [plus mask_before_routers].
  rewrite zlen_app. change (zlen [z]) with 1. pose proof (zlen_nonneg q).
  rewrite (proj2 (Z.ltb_ge _ _)) by lia. rewrite <- app_assoc. simpl app.
  rewrite rd_at by lia. dred. rewrite (proj2 (Z.eqb_neq z DHO_ROUTERS)).
  - replace (zlen q + 1 - 1 - 1) with (zlen q - 1) by lia. by apply IH.
  - intros ->. apply Hz. apply list_elem_of_here.
Qed.

Lemma mask_search_found p1 p2 : forall s i, DHO_ROUTERS ∉ p2 ->
  mask_before_routers (length (p1 ++ DHO_ROUTERS :: p2)) (zlen (p1 ++ DHO_ROUTERS :: p2) - 1) i
    ((p1 ++ DHO_ROUTERS :: p2) ++ s) = wr (p1 ++ DHO_SUBNET_MASK :: p2 ++ s) i DHO_ROUTERS.
Proof.
  induction p2 as [|z p2 IH] using rev_ind; intros s i Hq.
  - rewrite length_app, zlen_app, Nat.add_comm. change (zlen [DHO_ROUTERS]) with 1. simpl length.
    cbn [plus mask_before_routers]. pose proof (zlen_nonneg p1).
    rewrite (proj2 (Z.ltb_ge _ _)) by lia. rewrite <- app_assoc. simpl app.
    rewrite rd_at by lia. dred. rewrite Z.eqb_refl. by rewrite wr_at by lia.
  - apply not_elem_of_app in Hq as [Hq Hz].
    replace (p1 ++ DHO_ROUTERS :: p2 ++ [z]) with ((p1 ++ DHO_ROUTERS :: p2) ++ [z]) by (by rewrite <- app_assoc).
    rewrite length_app, Nat.add_comm. simpl length. cbn [plus mask_before_routers].
    rewrite zlen_app. change (zlen [z]) with 1. pose proof (zlen_nonneg (p1 ++ DHO_ROUTERS :: p2)).
    rewrite (proj2 (Z.ltb_ge _ _)) by lia. rewrite <- (app_assoc _ [z] s). change ([z] ++ s) with (z :: s).
    rewrite (rd_at (p1 ++ DHO_ROUTERS :: p2)) by lia. dred. rewrite (proj2 (Z.eqb_neq z DHO_ROUTERS)).
    + replace (zlen (p1 ++ DHO_ROUTERS :: p2) + 1 - 1 - 1) with (zlen (p1 ++ DHO_ROUTERS :: p2) - 1) by lia.
      rewrite IH by done. by rewrite <- app_assoc.
    + intros ->. apply Hz. apply list_elem_of_here.
Qed.

(** ** Facts about the reference *)
Lemma keep_first_filter x l :
  keep_first (filter (fun y => y <> x) l) = filter (fun y => y <> x) (keep_first l).
Proof.
  induction l as [|z l IH]; [done|]. simpl. destruct (decide (z <> x)) as [Hz|Hz].
  - rewrite filter_cons_True by done. simpl. rewrite filter_cons_True, IH by done. f_equal.
    rewrite !list_filter_filter. apply list_filter_iff. tauto.
  - rewrite filter_cons_False by done. rewrite filter_cons_False, IH by done.
    assert (z = x) as -> by (by apply dec_stable). rewrite list_filter_filter. apply list_filter_iff. tauto.
Qed.

Lemma elem_of_keep_first x l : x ∈ keep_first l <-> x ∈ l.
Proof.
  induction l as [|z l IH]; [done|]. simpl. rewrite !elem_of_cons, list_elem_of_filter, IH.
  destruct (decide (x = z)); tauto.
Qed.

Lemma NoDup_keep_first l : NoDup (keep_first l).
Proof.
  induction l as [|z l IH]; simpl; constructor.
  - rewrite list_elem_of_filter. by intros [[] _].
  - by apply NoDup_filter.
Qed.

Lemma swap_id a b l : a ∉ l -> b ∉ l -> swap_codes a b l = l.
Proof.
  induction l as [|x l IH]; [done|]. rewrite !not_elem_of_cons. intros [Ha Hl] [Hb Hl'].
  unfold swap_codes in *. rewrite fmap_cons, IH by done.
  by rewrite (proj2 (Z.eqb_neq x a)), (proj2 (Z.eqb_neq x b)) by done.
Qed.

Lemma routers_first_app p k :
  DHO_SUBNET_MASK ∉ p -> routers_first (p ++ DHO_SUBNET_MASK :: k) = bool_decide (DHO_ROUTERS ∈ p).
Proof.
  induction p as [|x p IH]; [done|]. rewrite not_elem_of_cons. intros [Hx Hp]. simpl.
  rewrite (proj2 (Z.eqb_neq x DHO_SUBNET_MASK)) by done. zcase.
  - subst. rewrite !bool_decide_eq_true_2; [done|apply list_elem_of_here|].
    apply elem_of_app. right. apply list_elem_of_here.
  - rewrite IH by done. apply bool_decide_ext. rewrite elem_of_cons. split; [tauto|]. intros [?|?]; [congruence|done].
Qed.

(** ** The loop *)

(** [p] has been put in order, [r] remains. *)
Record ordering (L : list Z) (i : Z) (s : list Z * Z * Z) (p r : list Z) : Prop := {
  og_list : exists junk, s.1.1 = p ++ r ++ junk;
  og_len : s.1.2 = zlen (p ++ r);
  og_i : s.2 = zlen p /\ s.2 = i;
  og_disjoint : forall x, x ∈ p -> x ∉ r;
  og_result : p ++ keep_first r =
    if bool_decide (DHO_SUBNET_MASK ∈ p) then mask_first (keep_first L) else keep_first L }.

(** The effect of the exchange on the part that is in order. *)
Lemma mask_step p k rest L :
  p ++ DHO_SUBNET_MASK :: k = keep_first L ->
  exists p', mask_before_routers (length p) (zlen p - 1) (zlen p) (p ++ DHO_SUBNET_MASK :: rest)
               = Done (p' ++ rest) /\
    zlen p' = zlen p + 1 /\ (forall x, x ∈ p' <-> x ∈ p \/ x = DHO_SUBNET_MASK) /\
    p' ++ k = mask_first (keep_first L).
Proof.
  intros E. pose proof (NoDup_keep_first L) as N. rewrite <- E in N |- *.
  apply NoDup_app in N as (Np & Hd & [Hk Nk]%NoDup_cons).
  assert (Hm : DHO_SUBNET_MASK ∉ p) by (intros Hm; apply (Hd _ Hm), list_elem_of_here).
  unfold mask_first. rewrite routers_first_app by done. case_bool_decide as Hr.
  - apply list_elem_of_split in Hr as (p1 & p2 & ->). apply NoDup_app in Np as (N1 & Hd1 & [H2 N2]%NoDup_cons).
    rewrite not_elem_of_app, not_elem_of_cons in Hm. destruct Hm as (Hm1 & _ & Hm2).
    assert (DHO_ROUTERS ∉ p1) by (intros H1; apply (Hd1 _ H1), list_elem_of_here).
    assert (DHO_ROUTERS ∉ k).
    { intros H1. apply (Hd DHO_ROUTERS); [apply elem_of_app; right; apply list_elem_of_here|].
      by apply list_elem_of_further. }
    exists (p1 ++ DHO_SUBNET_MASK :: p2 ++ [DHO_ROUTERS]). split_and!.
    + rewrite mask_search_found by done.
      replace (p1 ++ DHO_SUBNET_MASK :: p2 ++ DHO_SUBNET_MASK :: rest)
        with ((p1 ++ DHO_SUBNET_MASK :: p2) ++ DHO_SUBNET_MASK :: rest) by (by rewrite <- app_assoc).
      rewrite wr_at by (by rewrite !zlen_app, !zlen_cons). f_equal.
      rewrite <- !app_assoc. simpl. by rewrite <- app_assoc.
    + rewrite !zlen_app, !zlen_cons, zlen_app. change (zlen [DHO_ROUTERS]) with 1. lia.
    + intros x. rewrite !elem_of_app, !elem_of_cons, !elem_of_app, list_elem_of_singleton. tauto.
    + unfold swap_codes. rewrite !fmap_app, !fmap_cons.
      fold (swap_codes DHO_SUBNET_MASK DHO_ROUTERS p1). fold (swap_codes DHO_SUBNET_MASK DHO_ROUTERS p2).
      fold (swap_codes DHO_SUBNET_MASK DHO_ROUTERS k). rewrite !swap_id by done.
      rewrite <- !app_assoc. simpl. by rewrite <- !app_assoc.
  - exists (p ++ [DHO_SUBNET_MASK]). rewrite mask_search_none by done. split_and!.
    + by rewrite <- app_assoc.
    + by rewrite zlen_app.
    + intros x. by rewrite elem_of_app, list_elem_of_singleton.
    + by rewrite <- app_assoc.
Qed.

Lemma order_step_cons L i s p x t :
  ordering L i s p (x :: t) ->
  exists s' p', order_step s = Done (inl s') /\
    ordering L (i + 1) s' p' (filter (fun y => y <> x) t).
Proof.
  intros [(junk & Hl) Hlen [Hi Hi'] Hd Hres]. destruct s as [[l len] i0]. simpl in *. subst.
  unfold order_step. rewrite zlen_app, zlen_cons. pose proof (zlen_nonneg t).
  rewrite (proj2 (Z.ltb_lt _ _)) by lia.
  replace (zlen p + (zlen t + 1)) with (zlen p + 1 + Z.of_nat (length t)) by (unfold zlen; lia).
  destruct (drop_duplicates_exact p x t junk) as (j & -> & Hj). dred. rewrite (rd_at p) by done. dred.
  set (F := filter (fun y => y <> x) t) in *.
  assert (Hx : x ∉ p) by (intros Hx; apply (Hd x Hx), list_elem_of_here).
  assert (Hlen' : zlen p + 1 + Z.of_nat (length t) - zlen j = zlen p + 1 + zlen F) by (unfold zlen; lia).
  rewrite <- keep_first_filter in Hres. fold F in Hres.
  assert (Hd' : forall y, y ∈ p \/ y = x -> y ∉ F).
  { intros y Hy HF. apply list_elem_of_filter in HF as [HF1 HF2]. destruct Hy as [Hy|Hy]; [|done].
    apply (Hd y Hy). by apply list_elem_of_further. }
  destruct (Z.eqb_spec x DHO_SUBNET_MASK) as [->|Hne].
  - rewrite bool_decide_eq_false_2 in Hres by done.
    destruct (mask_step p (keep_first F) (F ++ j ++ junk) L Hres) as (p' & E & Hz & Hel & Hr).
    replace (Z.to_nat (zlen p)) with (length p) by (unfold zlen; lia). rewrite E. dred.
    exists (p' ++ F ++ j ++ junk, zlen p + 1 + Z.of_nat (length t) - zlen j, zlen p + 1), p'.
    split; [done|]. split; simpl.
    + by exists (j ++ junk).
    + rewrite Hlen', zlen_app, Hz. done.
    + done.
    + intros y Hy. apply Hd'. by apply Hel.
    + rewrite bool_decide_eq_true_2 by (apply Hel; by right). done.
  - dred. exists (p ++ x :: F ++ j ++ junk, zlen p + 1 + Z.of_nat (length t) - zlen j, zlen p + 1), (p ++ [x]).
    split; [done|]. split; simpl.
    + exists (j ++ junk). by rewrite <- app_assoc.
    + rewrite Hlen', !zlen_app. change (zlen [x]) with 1. done.
    + by rewrite zlen_app.
    + intros y Hy. apply Hd'. rewrite elem_of_app, list_elem_of_singleton in Hy. done.
    + rewrite <- app_assoc. simpl. rewrite Hres.
      rewrite (bool_decide_ext (DHO_SUBNET_MASK ∈ p ++ [x]) (DHO_SUBNET_MASK ∈ p)); [done|].
      rewrite elem_of_app, list_elem_of_singleton. split; [|by left]. intros [?|?]; [done|congruence].
Qed.

Lemma order_loop L k : forall i j s p r,
  (length r < k)%nat -> ordering L i s p r ->
  exists l junk, for_loop k j (fun _ => order_step) s = Done (inr (l ++ junk, zlen l)) /\
    l = mask_first (keep_first L).
Proof.
  induction k as [|k IH]; intros i j s p r Hk Ho; [lia|]. cbn [for_loop].
  destruct r as [|x t].
  - destruct Ho as [(junk & Hl) Hlen [Hi Hi'] Hd Hres]. destruct s as [[l len] i0]. simpl in *. subst.
    rewrite app_nil_r in *. unfold order_step. rewrite Z.ltb_irrefl. dred.
    exists p, junk. split; [done|]. destruct (bool_decide (DHO_SUBNET_MASK ∈ p)) eqn:B; [done|].
    apply bool_decide_eq_false in B. rewrite Hres. unfold mask_first.
    assert (routers_first (keep_first L) = false) as ->; [|done].
    rewrite <- Hres. clear -B. induction p as [|x p IH]; [done|]. rewrite not_elem_of_cons in B.
    destruct B as [Bx Bp]. simpl. zcase; [done|]. zcase; [by apply bool_decide_eq_false_2|by apply IH].
  - destruct (order_step_cons L i s p x t Ho) as (s' & p' & -> & Ho'). dred.
    eapply (IH (i + 1)); [|exact Ho']. simpl in Hk.
    pose proof (sublist_length _ _ (sublist_filter (fun y => y <> x) t)). lia.
Qed.

Lemma order_priorities_exact L :
  exists junk, order_priorities L (zlen L) =
    Done (mask_first (keep_first L) ++ junk, zlen (mask_first (keep_first L))).
Proof.
  unfold order_priorities.
  destruct (order_loop L (S (Z.to_nat (zlen L))) 0 0 (L, zlen L, 0) [] L) as (l & junk & -> & ->).
  - unfold zlen; lia.
  - split; simpl; try done; [by exists []; rewrite app_nil_r|by intros x ?%elem_of_nil].
  - exists junk. done.
Qed.

(** Exchanging two codes is an injection. *)
Lemma swap_inj : Inj (=) (=) (fun x => if x =? DHO_SUBNET_MASK then DHO_ROUTERS
                              else if x =? DHO_ROUTERS then DHO_SUBNET_MASK else x).
Proof. unfold DHO_SUBNET_MASK, DHO_ROUTERS. intros x y. repeat zcase; lia. Qed.

Lemma elem_of_mask_first x l : DHO_SUBNET_MASK ∈ l -> DHO_ROUTERS ∈ l -> x ∈ swap_codes DHO_SUBNET_MASK DHO_ROUTERS l <-> x ∈ l.
Proof.
  intros Hm Hr. unfold swap_codes. rewrite list_elem_of_fmap. split.
  - intros (y & -> & Hy). by repeat zcase.
  - intros Hx. destruct (decide (x = DHO_SUBNET_MASK)) as [->|]; [by exists DHO_ROUTERS|].
    destruct (decide (x = DHO_ROUTERS)) as [->|]; [by exists DHO_SUBNET_MASK|].
    exists x. by rewrite (proj2 (Z.eqb_neq x DHO_SUBNET_MASK)), (proj2 (Z.eqb_neq x DHO_ROUTERS)).
Qed.

Lemma routers_first_both l : routers_first l = true -> DHO_SUBNET_MASK ∈ l /\ DHO_ROUTERS ∈ l.
Proof.
  induction l as [|x l IH]; [done|]. simpl. rewrite !elem_of_cons. zcase; [done|]. zcase.
  - intros ?%bool_decide_eq_true. subst. auto.
  - intros [??]%IH. auto.
Qed.

Lemma mask_first_set x l : x ∈ mask_first l <-> x ∈ l.
Proof.
  unfold mask_first. destruct (routers_first l) eqn:E; [|done].
  apply routers_first_both in E as [??]. by apply elem_of_mask_first.
Qed.

Lemma mask_first_NoDup l : NoDup l -> NoDup (mask_first l).
Proof.
  intros N. unfold mask_first. destruct (routers_first l); [|done].
  pose proof swap_inj. by apply (NoDup_fmap_2 _).
Qed.

Lemma mask_first_order l : NoDup l -> routers_first (mask_first l) = false.
Proof.
  unfold mask_first. destruct (routers_first l) eqn:E; [|done]. revert E.
  induction l as [|x l IH]; [done|]. simpl. intros E [Hx N]%NoDup_cons. revert E.
  destruct (Z.eqb_spec x DHO_SUBNET_MASK); [done|]. destruct (Z.eqb_spec x DHO_ROUTERS); [done|].
  simpl. rewrite (proj2 (Z.eqb_neq x DHO_SUBNET_MASK)), (proj2 (Z.eqb_neq x DHO_ROUTERS)) by done.
  intros E. by apply IH.
Qed.

(** The loop that prepares the priority list in place terminates, stays
    inside the array and leaves in its first [len] elements every requested
    code once, in the order of the first occurrences, with the subnet mask and
    the routers exchanged if the routers came first (RFC 2132, 3.3): the subnet
    mask is never after the routers. *)
Lemma order_priorities_correct L :
  exists junk,
    order_priorities L (zlen L) =
      Done (mask_first (keep_first L) ++ junk, zlen (mask_first (keep_first L))) /\
    NoDup (mask_first (keep_first L)) /\
    (forall c, c ∈ mask_first (keep_first L) <-> c ∈ L) /\
    routers_first (mask_first (keep_first L)) = false.
Proof.
  destruct (order_priorities_exact L) as (junk & E). exists junk. split_and!; [done|..].
  - apply mask_first_NoDup, NoDup_keep_first.
  - intros c. rewrite mask_first_set. apply elem_of_keep_first.
  - apply mask_first_order, NoDup_keep_first.
Qed.
