(* ===== verification/OptionLayout.v ===== *)
(** * What [store_options] leaves in the buffer

    The buffer is divided into up to three parts.  [store_options] fills each
    with a sequence of options (tag, length, data); an option that does not
    fit, or is longer than 255 bytes, is cut into pieces, which read in the
    order main part, first overloaded part, second overloaded part give its
    value.  No access leaves the buffer, none of the internal consistency
    checks fails, and there is always room for the option that announces the
    overloading. *)

From stdpp Require Import base tactics numbers strings list.
From S2P Require Import Prelude Array OptionStore OptionParse OptionWire OptionOut OptionOrder.

#[local] Open Scope Z_scope.

(** ** One piece *)
Lemma put_piece_write b p code incr ix data (nul : bool) piece :
  0 <= p -> p + 2 + incr <= zlen b -> 0 < incr <= 255 -> 0 <= code < 256 -> 0 <= ix ->
  (if nul then exists q, rdn data ix (incr - 1) = Done q /\ piece = q ++ [0]
   else rdn data ix incr = Done piece) ->
  put_piece b p code incr ix data nul = wrn b p (tlv (code, piece)) /\ zlen piece = incr.
Proof.
  intros Hp Hb Hi Hc Hix Hpiece. unfold put_piece, tlv. cbn [fst snd].
  rewrite !(u8_byte code), !(u8_byte incr) by (unfold byte; lia).
  assert (Hz : zlen piece = incr).
  { destruct nul.
    - destruct Hpiece as (q & E & ->). apply rdn_bounds in E. rewrite zlen_app. change (zlen [0]) with 1. lia.
    - by apply rdn_bounds in Hpiece as (_ & _ & _ & ?). }
  split; [|done]. rewrite wr_wrn, Hz.
  destruct (wrn b p [code]) as [b1| | |] eqn:E1; try (rewrite wrn_in in E1 by (change (zlen [code]) with 1; lia); done).
  dred. rewrite wr_wrn. change (p + 1) with (p + zlen [code]).
  rewrite (wrn_wrn _ _ _ _ _ E1) by (change (zlen [code]) with 1; change (zlen [incr]) with 1; lia). simpl app.
  destruct (wrn b p [code; incr]) as [b2| | |] eqn:E2;
    try (rewrite wrn_in in E2 by (change (zlen [code; incr]) with 2; lia); done).
  dred. change (p + 2) with (p + zlen [code; incr]). change (code :: incr :: piece) with ([code; incr] ++ piece).
  destruct nul.
  - destruct Hpiece as (q & Eq & ->). rewrite zlen_app in Hz. change (zlen [0]) with 1 in Hz.
    assert (Hq : (if 1 <? incr then src ← rdn data ix (incr - 1); wrn b2 (p + zlen [code; incr]) src else Done b2)
      = wrn b p ([code; incr] ++ q)).
    { destruct (Z.ltb_spec 1 incr).
      - rewrite Eq. dred. apply wrn_wrn; [done|change (zlen [code; incr]) with 2; lia].
      - destruct q; [|rewrite zlen_cons in Hz; pose proof (zlen_nonneg q); lia]. by rewrite app_nil_r. }
    rewrite Hq. destruct (wrn b p ([code; incr] ++ q)) as [b3| | |] eqn:E3;
      try (rewrite wrn_in in E3 by (rewrite ?zlen_app; change (zlen [code; incr]) with 2; lia); done).
    dred. rewrite wr_wrn, app_assoc. rewrite <- (wrn_wrn _ _ _ _ _ E3).
    + f_equal. rewrite zlen_app. change (zlen [code; incr]) with 2. lia.
    + rewrite zlen_app. change (zlen [code; incr]) with 2. change (zlen [0]) with 1. lia.
  - rewrite Hpiece. dred. apply wrn_wrn; [done|change (zlen [code; incr]) with 2; lia].
Qed.

(** ** Parts *)
Definition part_end (y : layout) (p : part) : Z :=
  match p with PMain => bufend y | PFirst => sbufend y | PSecond => buflen y end.
Definition part_on (y : layout) (p : part) : Prop :=
  match p with PMain => True | PFirst => first_cutoff y <> 0 | PSecond => second_cutoff y <> 0 end.

#[export] Instance part_eq_dec : EqDecision part.
Proof. solve_decision. Defined.

(** The parts follow each other in a buffer of [n] bytes, and the main one has
    room for the overload option. *)
Record wf_layout (y : layout) (n : Z) : Prop := {
  wl_size : buflen y <= n < 2 ^ 31;
  wl_main : 3 <= bufend y <= buflen y;
  wl_first : first_cutoff y <> 0 -> bufend y = first_cutoff y /\ first_cutoff y < sbufend y <= buflen y;
  wl_second : second_cutoff y <> 0 -> bufend y <= second_cutoff y < buflen y;
  wl_both : first_cutoff y <> 0 -> second_cutoff y <> 0 -> sbufend y = second_cutoff y }.

Lemma part_bounds y n p :
  wf_layout y n -> part_on y p -> 0 <= part_base y p < part_end y p /\ part_end y p <= n.
Proof. intros [Hs Hm H1 H2 H3] Hp. destruct p; simpl in *; [|specialize (H1 Hp)|specialize (H2 Hp)]; lia. Qed.

Lemma part_disjoint y n p q :
  wf_layout y n -> part_on y p -> part_on y q -> p <> q ->
  part_end y p <= part_base y q \/ part_end y q <= part_base y p.
Proof.
  intros [Hs Hm H1 H2 H3] Hp Hq Hne. destruct p, q; simpl in *; try done;
    repeat match goal with
    | H : first_cutoff y <> 0 -> _ |- _ => specialize (H ltac:(assumption))
    | H : second_cutoff y <> 0 -> _ |- _ => specialize (H ltac:(assumption))
    end; lia.
Qed.

(** The options in each part. *)
Definition parts : Type := part -> list hunk.
Definition add (ps : parts) (p : part) (x : hunk) : parts :=
  fun q => if decide (q = p) then ps q ++ [x] else ps q.
Definition join (ps qs : parts) : parts := fun q => ps q ++ qs q.

(** Room is left for the overload option in the main part and for an end mark
    in the others. *)
Definition roomy (y : layout) (s : position) : Prop :=
  bufix s + 3 <= bufend y /\
  (first_cutoff y <> 0 -> first_cutoff y + six s + 1 <= sbufend y) /\
  (second_cutoff y <> 0 -> second_cutoff y + tix s + 1 <= buflen y).

(** After the last option the main part may be full, if nothing is overloaded. *)
Definition final (y : layout) (s : position) : Prop :=
  roomy y s \/ (six s = 0 /\ tix s = 0 /\ bufix s < bufend y).

Record stored (y : layout) (n : Z) (b : list Z) (s : position) (ps : parts) : Prop := {
  sd_len : zlen b = n;
  sd_ix : forall p, part_ix s p = zlen (wire (ps p));
  sd_at : forall p, part_on y p -> at_ b (part_base y p) (wire (ps p));
  sd_off : forall p, ~ part_on y p -> ps p = [] }.

Lemma ltu_small a b : 0 <= a < 2 ^ 32 -> 0 <= b < 2 ^ 32 -> ltu a b = (a <? b).
Proof. intros. unfold ltu, u32. by rewrite !Z.mod_small. Qed.

Lemma wire_app l k : wire (l ++ k) = wire l ++ wire k.
Proof. unfold wire. by rewrite fmap_app, concat_app. Qed.
Lemma wire_singleton x : wire [x] = tlv x.
Proof. unfold wire. simpl. by rewrite app_nil_r. Qed.
Lemma zlen_tlv x : zlen (tlv x) = 2 + zlen x.2.
Proof. unfold tlv. rewrite !zlen_cons. lia. Qed.

Lemma nonneg_ix y n b s ps p : stored y n b s ps -> 0 <= part_ix s p.
Proof. intros Hs. rewrite (sd_ix _ _ _ _ _ Hs). apply zlen_nonneg. Qed.

(** ** Choosing a part *)
Definition chosen (y : layout) (s : position) (length : Z) (last : bool) (p : part) (incr : Z) : Prop :=
  part_on y p /\ 0 < incr <= 255 /\ incr <= length /\
  part_base y p + part_ix s p + 2 + incr <= part_end y p /\
  (roomy y (advance s p (2 + incr)) \/
   (incr = length /\ last = true /\ final y (advance s p (2 + incr)))).

Lemma whole_part_ok y n s length last p :
  wf_layout y n -> roomy y s -> 0 <= bufix s -> 0 <= six s -> 0 <= tix s -> 0 < length <= 255 ->
  whole_part y s length last = Some p -> chosen y s length last p length.
Proof.
  intros [Hs Hm H1 H2 H3] (R1 & R2 & R3) B0 B1 B2 Hl. unfold whole_part.
  rewrite !(ltu_small _ (bufend y)) by lia.
  destruct (_ || _) eqn:C1.
  { intros [= <-]. unfold chosen, final, roomy. simpl. split_and!; try lia.
    apply orb_true_iff in C1 as [C1|C1]; zbool; [right|left; split_and!; [lia|done|done]].
    split_and!; [done|done|]. right. split_and!; [done|done|lia]. }
  destruct (negb (first_cutoff y =? 0)) eqn:F1; simpl; zbool.
  - specialize (H1 F1). specialize (R2 F1). rewrite (ltu_small _ (sbufend y)) by lia. destruct (_ <? sbufend y) eqn:C2; zbool.
    { intros [= <-]. unfold chosen, roomy. simpl. split_and!; try done; try lia; left; split_and!; done || lia. }
    destruct (negb (second_cutoff y =? 0)) eqn:F2; simpl; zbool; [|done].
    specialize (H2 F2). specialize (R3 F2). rewrite (ltu_small _ (buflen y)) by lia. destruct (_ <? buflen y) eqn:C3; zbool; [|done].
    intros [= <-]. unfold chosen, roomy. simpl. split_and!; try done; try lia; left; split_and!; done || lia.
  - destruct (negb (second_cutoff y =? 0)) eqn:F2; simpl; zbool; [|done].
    specialize (H2 F2). specialize (R3 F2). rewrite (ltu_small _ (buflen y)) by lia. destruct (_ <? buflen y) eqn:C3; zbool; [|done].
    intros [= <-]. unfold chosen, roomy. simpl. split_and!; try done; try lia; left; split_and!; done || lia.
Qed.

(** The parts are filled in order: when a split option goes to [p], the parts
    before are full, and [p] is not. *)
Definition filling (y : layout) (s : position) (p : part) : Prop :=
  match p with
  | PMain => bufix s + 6 < bufend y
  | PFirst => bufend y <= bufix s + 6 /\ first_cutoff y <> 0 /\ first_cutoff y + six s + 4 < sbufend y
  | PSecond => bufend y <= bufix s + 6 /\
      (first_cutoff y = 0 \/ sbufend y <= first_cutoff y + six s + 4)
  end.

Lemma split_part_ok y n s length last p room :
  wf_layout y n -> roomy y s -> 0 <= bufix s -> 0 <= six s -> 0 <= tix s -> 0 < length ->
  split_part y s = Some (p, room) ->
  chosen y s length last p (Z.min (Z.min room length) 255) /\ filling y s p.
Proof.
  intros [Hs Hm H1 H2 H3] (R1 & R2 & R3) B0 B1 B2 Hl. unfold split_part.
  destruct (Z.ltb_spec (bufix s + 6) (bufend y)).
  { intros [= <- <-]. split; [|done]. unfold chosen, roomy. simpl. split_and!; try lia; left; split_and!; done || lia. }
  destruct (negb (first_cutoff y =? 0)) eqn:F1; simpl; zbool.
  - specialize (H1 F1). specialize (R2 F1). rewrite (ltu_small _ (sbufend y)) by lia. destruct (_ <? sbufend y) eqn:C2; zbool.
    { intros [= <- <-]. split; [|simpl; lia]. unfold chosen, roomy. simpl.
      split_and!; try done; try lia; left; split_and!; done || lia. }
    destruct (negb (second_cutoff y =? 0)) eqn:F2; simpl; zbool; [|done].
    specialize (H2 F2). specialize (R3 F2). rewrite (ltu_small _ (buflen y)) by lia. destruct (_ <? buflen y) eqn:C3; zbool; [|done].
    intros [= <- <-]. split; [|simpl; lia]. unfold chosen, roomy. simpl.
    split_and!; try done; try lia; left; split_and!; done || lia.
  - destruct (negb (second_cutoff y =? 0)) eqn:F2; simpl; zbool; [|done].
    specialize (H2 F2). specialize (R3 F2). rewrite (ltu_small _ (buflen y)) by lia. destruct (_ <? buflen y) eqn:C3; zbool; [|done].
    intros [= <- <-]. split; [|simpl; lia]. unfold chosen, roomy. simpl.
    split_and!; try done; try lia; left; split_and!; done || lia.
Qed.

Lemma choose_part_ok y n s length last split p room split' :
  wf_layout y n -> roomy y s -> 0 <= bufix s -> 0 <= six s -> 0 <= tix s ->
  0 < length -> (split = false -> length <= 255) ->
  choose_part y s length last split = Some (p, room, split') ->
  chosen y s length last p (Z.min (Z.min room length) 255) /\
  (split' = false -> split = false /\ Z.min (Z.min room length) 255 = length) /\
  (split' = true -> filling y s p).
Proof.
  intros Hy Hr B0 B1 B2 Hl Hsp. unfold choose_part.
  destruct (if split then None else whole_part y s length last) as [p0|] eqn:W.
  - intros [= <- <- <-]. destruct split; [done|]. specialize (Hsp eq_refl).
    rewrite Z.min_id, Z.min_l by lia. split; [|done]. by apply (whole_part_ok y n).
  - destruct (split_part y s) as [[p0 r0]|] eqn:S; [|done]. intros [= <- <- <-].
    destruct (split_part_ok y n s length last p0 r0) as (? & ?); [done..|]. by split_and!.
Qed.

(** An option that fits in the main part goes there. *)
Lemma choose_whole y s length last :
  0 <= bufix s -> 0 <= length -> bufix s + 5 + length < bufend y -> bufend y < 2 ^ 31 ->
  choose_part y s length last false = Some (PMain, length, false).
Proof.
  intros H0 Hl Hf Hb. unfold choose_part, whole_part. rewrite !(ltu_small _ (bufend y)) by lia.
  rewrite (proj2 (Z.ltb_lt (bufix s + 5 + length) _)) by lia. by rewrite orb_true_r.
Qed.

(** ** Storing a piece *)
Lemma part_ix_advance s p q k :
  part_ix (advance s p k) q = if decide (q = p) then part_ix s q + k else part_ix s q.
Proof. destruct p, q; done. Qed.

Lemma stored_piece y n b s ps length last p incr code piece :
  wf_layout y n -> stored y n b s ps -> final y s -> chosen y s length last p incr -> zlen piece = incr ->
  exists b', wrn b (part_base y p + part_ix s p) (tlv (code, piece)) = Done b' /\
    stored y n b' (advance s p (2 + incr)) (add ps p (code, piece)).
Proof.
  intros Hy Hs Hf (Hon & Hi & Hle & Hend & _) Hz.
  pose proof (part_bounds y n p Hy Hon) as [Hb1 Hb2]. pose proof (nonneg_ix y n b s ps p Hs) as Hix.
  assert (Ht : zlen (tlv (code, piece)) = 2 + incr) by (rewrite zlen_tlv; simpl; lia).
  destruct (wrn b (part_base y p + part_ix s p) (tlv (code, piece))) as [b'| | |] eqn:W;
    try (rewrite wrn_in in W by (rewrite ?(sd_len _ _ _ _ _ Hs); lia); done).
  exists b'. split; [done|]. split.
  - rewrite (wrn_zlen _ _ _ _ W). apply Hs.
  - intros q. rewrite part_ix_advance. unfold add. destruct (decide (q = p)) as [->|_]; [|apply Hs].
    rewrite wire_app, wire_singleton, zlen_app, Ht. by rewrite (sd_ix _ _ _ _ _ Hs).
  - intros q Hq. unfold add. destruct (decide (q = p)) as [->|Hne].
    + rewrite wire_app, wire_singleton. eapply at_append; [by apply Hs|].
      by rewrite <- (sd_ix _ _ _ _ _ Hs).
    + eapply at_other; [by apply Hs|exact W|]. rewrite Ht, <- (sd_ix _ _ _ _ _ Hs).
      pose proof (part_bounds y n q Hy Hq) as [Hq1 Hq2].
      assert (part_base y q + part_ix s q <= part_end y q).
      { destruct Hf as [(? & F2 & F3)|(F1 & F2 & F3)]; destruct q; simpl in *; lia. }
      pose proof (nonneg_ix y n b s ps q Hs).
      destruct (part_disjoint y n p q Hy Hon Hq) as [?|?]; [done|lia..].
  - intros q Hq. unfold add. destruct (decide (q = p)) as [->|Hne]; [done|by apply Hs].
Qed.

(** ** Storing one option *)
Section one.
Context (y : layout) (n : Z) (Hy : wf_layout y n).
Context (code : Z) (data : list Z) (tto last : bool) (s0 : position) (ps0 : parts).
Hypothesis Hcode : 0 < code < 255.
Hypothesis Hdata : bytes data.

(** What is stored: the data, and a NUL if one is asked for. *)
Definition full : list Z := data ++ (if tto then [0] else []).

Definition all_data (qs : parts) : list Z := concat (snd <$> (qs PMain ++ qs PFirst ++ qs PSecond)).

(** The option fits whole in the main part, with room for an overload option. *)
Definition fits : Prop := zlen full <= 255 /\ bufix s0 + 5 + zlen full < bufend y.

Record progress (s : storing) (qs : parts) : Prop := {
  pg_stored : stored y n (so_buffer s) (so_pos s) (join ps0 qs);
  pg_room : roomy y (so_pos s) \/ (so_length s = 0 /\ last = true /\ final y (so_pos s));
  pg_len : so_length s = zlen full - so_ix s /\ 0 <= so_ix s <= zlen full;
  pg_data : all_data qs = take (Z.to_nat (so_ix s)) full;
  pg_codes : forall p, Forall (fun x => x.1 = code /\ wf_hunk x) (qs p);
  pg_split : so_split s = false -> so_length s <> 0 -> zlen full <= 255 /\ forall p, qs p = [];
  pg_main : qs PFirst <> [] \/ qs PSecond <> [] -> so_length s <> 0 -> bufend y <= bufix (so_pos s) + 6;
  pg_first : qs PSecond <> [] -> so_length s <> 0 ->
    first_cutoff y = 0 \/ sbufend y <= first_cutoff y + six (so_pos s) + 4;
  pg_fits : fits -> so_length s <> 0 -> so_pos s = s0 /\ so_split s = false;
  pg_size : fits -> bufix (so_pos s) <= bufix s0 + 2 + zlen full }.

Lemma bytes_full : bytes full.
Proof. apply Forall_app. split; [done|]. destruct tto; repeat constructor; unfold byte; lia. Qed.

(** The piece that is written is the next part of [full]. *)
Lemma piece_written b p ix incr :
  0 <= p -> p + 2 + incr <= zlen b -> 0 < incr <= 255 -> 0 <= ix -> ix + incr <= zlen full ->
  put_piece b p code incr ix data (tto && (incr =? zlen full - ix)) =
    wrn b p (tlv (code, take (Z.to_nat incr) (drop (Z.to_nat ix) full))).
Proof.
  intros Hp Hb Hi Hix Hle.
  eapply put_piece_write; [done|done|done|lia|done|]. unfold full in *. destruct tto; simpl.
  - rewrite zlen_app in Hle |- *. change (zlen [0]) with 1 in *. destruct (Z.eqb_spec incr (zlen data + 1 - ix)).
    + exists (drop (Z.to_nat ix) data). rewrite rdn_in by lia. split.
      * f_equal. apply take_ge. rewrite length_drop. unfold zlen in *; lia.
      * rewrite drop_app_le by (unfold zlen in *; lia). apply take_ge.
        rewrite length_app, length_drop. unfold zlen in *. simpl. lia.
    + rewrite rdn_in by lia. f_equal. rewrite drop_app_le by (unfold zlen in *; lia).
      by rewrite take_app_le by (rewrite length_drop; unfold zlen in *; lia).
  - rewrite app_nil_r in *. rewrite rdn_in by lia. done.
Qed.

Lemma join_add qs p x q : join ps0 (add qs p x) q = add (join ps0 qs) p x q.
Proof. unfold join, add. destruct (decide (q = p)); [|done]. by rewrite app_assoc. Qed.

Lemma stored_ext b s ps qs : (forall p, ps p = qs p) -> stored y n b s ps -> stored y n b s qs.
Proof. intros E [? ? ? ?]. split; [done|..]; intros p; rewrite <- E; auto. Qed.

Lemma add_nonempty qs p x q : add qs p x q <> [] <-> q = p \/ qs q <> [].
Proof.
  unfold add. destruct (decide (q = p)) as [->|Hne]; [|tauto].
  split; [by left|]. intros _. destruct (qs p); done.
Qed.

(** The data of a piece that goes behind all that has been stored. *)
Lemma all_data_add qs p x :
  (p = PMain -> qs PFirst = [] /\ qs PSecond = []) -> (p = PFirst -> qs PSecond = []) ->
  all_data (add qs p x) = all_data qs ++ x.2.
Proof.
  intros H1 H2. unfold all_data, add.
  destruct p; simpl.
  - destruct (H1 eq_refl) as [-> ->]. rewrite !app_nil_r, fmap_app, concat_app. simpl. by rewrite app_nil_r.
  - rewrite (H2 eq_refl), !fmap_app, !concat_app. simpl. by rewrite !app_nil_r, ?app_assoc.
  - rewrite !fmap_app, !concat_app. simpl. by rewrite app_nil_r, !app_assoc.
Qed.

(** An option that fits in the main part is put there whole. *)
Lemma whole_choice s qs : progress s qs -> so_length s <> 0 -> fits ->
  choose_part y (so_pos s) (so_length s) last (so_split s) = Some (PMain, so_length s, false).
Proof.
  intros [Pst Prm [Pl Pix] _ _ _ _ _ Pfit Psz] Hne F. destruct (Pfit F Hne) as [E1 E2]. pose proof (nonneg_ix y n _ _ _ PMain Pst) as H0.
  simpl in H0. rewrite E1 in H0. rewrite E1, E2. destruct F as [F1 F2].
  pose proof (wl_size y n Hy). pose proof (wl_main y n Hy). apply choose_whole; lia.
Qed.

Lemma step_progress s qs :
  progress s qs -> so_length s <> 0 ->
  (exists s' p x, store_step y code data tto last s0 s = Done (inl s') /\
     progress s' (add qs p x) /\ 0 <= so_length s' < so_length s) \/
  (store_step y code data tto last s0 s = Done (inr (so_buffer s, s0)) /\ ~ fits).
Proof.
  intros Hp Hne. pose proof (whole_choice s qs Hp Hne) as Hwhole. destruct Hp as [Pst Prm [Pl Pix] Pd Pc Psp Pm Pf Pfit Psz].
  unfold store_step. rewrite (proj2 (Z.eqb_neq _ 0)) by done.
  destruct (choose_part y (so_pos s) (so_length s) last (so_split s)) as [[[p room] split']|] eqn:C;
    [|right; split; [done|]; by intros F%Hwhole].
  destruct Prm as [Prm|[? _]]; [|done].
  pose proof (fun q => nonneg_ix y n _ _ _ q Pst) as Hix.
  destruct (choose_part_ok y n (so_pos s) (so_length s) last (so_split s) p room split') as (Hch & Hw & Hfill);
    [done|done|apply (Hix PMain)|apply (Hix PFirst)|apply (Hix PSecond)|lia| |done|].
  { intros E. destruct (Psp E Hne). lia. }
  set (incr := Z.min (Z.min room (so_length s)) 255) in *.
  pose proof Hch as (Hon & Hi & Hle & Hend & Hroom).
  pose proof (part_bounds y n p Hy Hon) as [Hb1 Hb2].
  set (piece := take (Z.to_nat incr) (drop (Z.to_nat (so_ix s)) full)).
  assert (Hz : zlen piece = incr).
  { subst piece. unfold zlen in *. rewrite length_take, length_drop. lia. }
  rewrite Pl. rewrite piece_written; [|pose proof (Hix p); lia|rewrite (sd_len _ _ _ _ _ Pst); lia|lia..].
  destruct (stored_piece y n (so_buffer s) (so_pos s) (join ps0 qs) (so_length s) last p incr code piece)
    as (b' & W & Hst); [done|done|by left|done|done|].
  fold piece. rewrite W. dred. left. exists (mk_storing b' (advance (so_pos s) p (2 + incr)) (zlen full - so_ix s - incr)
    (so_ix s + incr) split'), p, (code, piece). split; [done|].
  assert (Hempty : (p = PMain -> qs PFirst = [] /\ qs PSecond = []) /\ (p = PFirst -> qs PSecond = [])).
  { destruct split'.
    - specialize (Hfill eq_refl). split; intros ->; simpl in Hfill.
      + split; apply dec_stable; intros Hq; [pose proof (Pm (or_introl Hq) Hne)|pose proof (Pm (or_intror Hq) Hne)]; lia.
      + apply dec_stable. intros Hq. pose proof (Pf Hq Hne). lia.
    - destruct (Hw eq_refl) as [E _]. destruct (Psp E Hne) as [_ Hnil]. by split; intros ->. }
  destruct Hempty as [He1 He2].
  split; [|simpl; lia]. split; simpl.
  - eapply stored_ext; [|exact Hst]. intros q. by rewrite join_add.
  - destruct Hroom as [?|(E & ? & ?)]; [by left|right]. split_and!; [lia|done|done].
  - lia.
  - rewrite all_data_add by done. rewrite Pd. simpl. subst piece.
    rewrite take_take_drop. f_equal. lia.
  - intros q. unfold add. destruct (decide (q = p)); [|apply Pc]. apply Forall_app. split; [apply Pc|].
    repeat constructor; simpl; try lia. subst piece. apply Forall_take, Forall_drop, bytes_full.
  - intros E Hn. destruct (Hw E) as [_ ?]. lia.
  - intros Hq Hn. destruct split'; [|destruct (Hw eq_refl); lia]. specialize (Hfill eq_refl).
    destruct p; simpl in Hfill |- *; [|lia..].
    destruct (He1 eq_refl) as [E1 E2]. rewrite !add_nonempty, E1, E2 in Hq.
    by destruct Hq as [[?|[]]|[?|[]]].
  - intros Hq Hn. destruct split'; [|destruct (Hw eq_refl); lia]. specialize (Hfill eq_refl).
    destruct p; simpl in Hfill |- *; [|rewrite add_nonempty, (He2 eq_refl) in Hq; by destruct Hq as [?|[]]|lia].
    destruct (He1 eq_refl) as [E1 E2]. rewrite add_nonempty, E2 in Hq.
    by destruct Hq as [?|[]].
  - intros F Hn. injection (Hwhole F) as -> -> ->. destruct (Hw eq_refl). lia.
  - intros F. destruct (Pfit F Hne) as [-> _]. injection (Hwhole F) as -> -> ->. simpl. lia.
Qed.
Lemma store_loop k : forall s qs i,
  progress s qs -> so_length s < Z.of_nat k ->
  exists b' s' qs', for_loop k i (fun _ => store_step y code data tto last s0) s = Done (inr (b', s')) /\
    ((exists t, b' = so_buffer t /\ s' = so_pos t /\ so_length t = 0 /\ progress t qs') \/
     (exists t, b' = so_buffer t /\ s' = s0 /\ ~ fits /\ progress t qs')).
Proof.
  induction k as [|k IH]; intros s qs i Hp Hk.
  { pose proof (pg_len _ _ Hp). lia. }
  cbn [for_loop]. destruct (decide (so_length s = 0)) as [E|E].
  - assert (store_step y code data tto last s0 s = Done (inr (so_buffer s, so_pos s))) as ->
      by (unfold store_step; by rewrite E). dred. do 3 eexists. split; [done|]. left. by exists s.
  - destruct (step_progress s qs Hp E) as [(s' & p & x & -> & Hp' & Hlt)|[-> Hnf]]; dred.
    + apply (IH s' (add qs p x)); [done|lia].
    + do 3 eexists. split; [done|]. right. by exists s.
Qed.

Lemma stored_prefix b s qs : stored y n b s (join ps0 qs) -> (forall p, part_ix s0 p = zlen (wire (ps0 p))) ->
  (forall p, ~ part_on y p -> ps0 p = []) -> stored y n b s0 ps0.
Proof.
  intros Hs Hix Hoff. split; [apply Hs|done| |done].
  intros p Hp. pose proof (sd_at _ _ _ _ _ Hs p Hp) as A. unfold join in A. rewrite wire_app in A.
  by apply rdn_app in A as [A _].
Qed.

(** The pieces of an option that was stored. *)
Definition pieces (qs : parts) : Prop :=
  all_data qs = full /\ forall p, Forall (fun x => x.1 = code /\ wf_hunk x) (qs p).

Lemma store_one_ok b :
  stored y n b s0 ps0 -> roomy y s0 ->
  exists b' s' qs, store_one y code data tto last b s0 = Done (b', s') /\
    stored y n b' s' (join ps0 qs) /\
    (pieces qs \/ forall p, qs p = []) /\
    (roomy y s' \/ (last = true /\ final y s')) /\
    (fits -> pieces qs /\ bufix s' <= bufix s0 + 2 + zlen full).
Proof.
  intros Hs Hr. unfold store_one.
  replace (zlen data + (if tto then 1 else 0)) with (zlen full)
    by (unfold full; rewrite zlen_app; destruct tto; done).
  pose proof (zlen_nonneg full) as Hz.
  assert (Hstart : progress (mk_storing b s0 (zlen full) 0 (255 <? zlen full)) (fun _ => [])).
  { split; simpl; try done; try lia.
    - eapply stored_ext; [|exact Hs]. intros p. unfold join. by rewrite app_nil_r.
    - by left.
    - intros ?%Z.ltb_ge _. done.
    - by intros [[]|[]].
    - intros [F _] _. split; [done|]. apply Z.ltb_ge. lia. }
  destruct (store_loop (S (Z.to_nat (zlen full))) (mk_storing b s0 (zlen full) 0 (255 <? zlen full)) (fun _ => []) 0)
    as (b' & s' & qs & -> & Hend); [done|simpl; lia|]. dred.
  destruct Hend as [(t & -> & -> & Ht & [Pst Prm [Pl Pix] Pd Pc _ _ _ _ Psz])|(t & -> & -> & Ht & Pt)].
  - assert (pieces qs) as Hps.
    { split; [|done]. rewrite Pd. apply take_ge. unfold zlen in *. lia. }
    exists (so_buffer t), (so_pos t), qs. split_and!; [done|done|by left| |by auto].
    destruct Prm as [?|(_ & ? & ?)]; [by left|by right].
  - exists (so_buffer t), s0, (fun _ => []). split_and!; [done| |by right|by left|].
    + eapply (stored_ext _ _ ps0); [intros p; unfold join; by rewrite app_nil_r|].
      eapply stored_prefix; [apply Pt|apply Hs|apply Hs].
    + done.
Qed.
End one.

(** ** Storing all options *)
Definition hunks (c : Z) (ps : parts) : list hunk :=
  filter (fun x => x.1 = c) (ps PMain ++ ps PFirst ++ ps PSecond).
Definition value_in (c : Z) (ps : parts) : list Z := concat (snd <$> hunks c ps).
Definition wf_parts (ps : parts) : Prop := forall p, Forall wf_hunk (ps p).

Lemma filter_none (c : Z) (l : list hunk) : Forall (fun x => x.1 <> c) l -> filter (fun x => x.1 = c) l = [].
Proof. induction 1; [done|]. by rewrite filter_cons_False. Qed.

Lemma filter_all (c : Z) (l : list hunk) : Forall (fun x => x.1 = c) l -> filter (fun x => x.1 = c) l = l.
Proof. induction 1 as [|x l Hx Hl IH]; [done|]. rewrite filter_cons_True by done. f_equal. apply IH. Qed.

Lemma hunks_nil c ps : hunks c ps = [] <-> forall p, filter (fun x => x.1 = c) (ps p) = [].
Proof.
  unfold hunks. rewrite !filter_app. split.
  - intros [? [? ?]%app_nil]%app_nil [| |]; done.
  - intros E. by rewrite !E.
Qed.

Lemma hunks_join_l c ps qs : hunks c qs = [] -> hunks c (join ps qs) = hunks c ps.
Proof.
  rewrite hunks_nil. intros E. unfold hunks, join. rewrite !filter_app, !E. by rewrite !app_nil_r.
Qed.
Lemma hunks_join_r c ps qs : hunks c ps = [] -> hunks c (join ps qs) = hunks c qs.
Proof. rewrite hunks_nil. intros E. unfold hunks, join. by rewrite !filter_app, !E. Qed.

Lemma pieces_hunks code data tto qs :
  pieces code data tto qs -> value_in code qs = full data tto /\ forall c, c <> code -> hunks c qs = [].
Proof.
  intros [Hd Hc]. split.
  - unfold value_in, hunks. rewrite filter_all; [done|]. rewrite !Forall_app.
    split_and!; eapply Forall_impl; try apply Hc; by intros x [? _].
  - intros c Hne. apply hunks_nil. intros p. apply filter_none. eapply Forall_impl; [apply Hc|].
    intros x [E _]. congruence.
Qed.

Section all.
Context (y : layout) (n : Z) (Hy : wf_layout y n).
Context (value : Z -> outcome (option (list Z * bool))).

(** The bytes an option asks for, tag and length included. *)
Definition cost (c : Z) : Z :=
  match value c with Done (Some (d, t)) => 2 + zlen (full d t) | _ => 0 end.
Definition total_cost (codes : list Z) : Z := foldr (fun c a => cost c + a) 0 codes.

(** The value is known; only a proper option code has one, and it is bytes. *)
Definition wf_value (c : Z) : Prop :=
  exists v, value c = Done v /\ forall d t, v = Some (d, t) -> 0 < c < 255 /\ bytes d.

(** The option is not in the parts, or all its bytes are. *)
Definition in_or_out (c : Z) (ps : parts) : Prop :=
  hunks c ps = [] \/ exists d t, value c = Done (Some (d, t)) /\ value_in c ps = full d t.

Lemma cost_nonneg c : 0 <= cost c.
Proof.
  unfold cost. destruct (value c) as [[[d t]|]| | |]; try lia. pose proof (zlen_nonneg (full d t)). lia.
Qed.
Lemma total_nonneg codes : 0 <= total_cost codes.
Proof. induction codes as [|c codes IH]; simpl; [done|]. pose proof (cost_nonneg c). lia. Qed.

(** What the loop over [codes] leaves, from the state [b], [s], [ps]. *)
Definition all_stored (codes : list Z) (b : list Z) (s : position) (ps : part -> list (Z * list Z)) : Prop :=
  exists b' s' ps', store_all y value codes b s = Done (b', s') /\ stored y n b' s' ps' /\
    final y s' /\ wf_parts ps' /\
    (forall c, c ∉ codes -> hunks c ps' = hunks c ps) /\
    (forall c, c ∈ codes -> in_or_out c ps') /\
    (bufix s + total_cost codes + 3 < bufend y -> Forall (fun c => cost c <= 257) codes ->
     forall c d t, c ∈ codes -> value c = Done (Some (d, t)) -> value_in c ps' = full d t).

Lemma store_all_ok codes : forall b s ps,
  NoDup codes -> Forall wf_value codes -> stored y n b s ps -> roomy y s -> wf_parts ps ->
  (forall c, c ∈ codes -> hunks c ps = []) ->
  all_stored codes b s ps.
Proof.
  induction codes as [|c codes IH]; intros b s ps Hnd Hwf Hst Hr Hps Hnew; unfold all_stored; cbn [store_all].
  { exists b, s, ps. split_and!; try done; [by left|..]; by intros; exfalso; eapply elem_of_nil. }
  apply NoDup_cons in Hnd as [Hc Hnd]. apply Forall_cons_iff in Hwf as [(v & Hv & Hvalue) Hwf].
  assert (Hcnew : hunks c ps = []) by (apply Hnew, list_elem_of_here).
  assert (Hnew' : forall c', c' ∈ codes -> hunks c' ps = []) by (intros; by apply Hnew, list_elem_of_further).
  rewrite Hv. dred. destruct v as [[d t]|].
  - destruct (Hvalue d t eq_refl) as [Hrange Hbytes].
    destruct (store_one_ok y n Hy c d t (match codes with [] => true | _ => false end) s ps Hrange
      Hbytes b Hst Hr) as (b1 & s1 & qs & -> & Hst1 & Hqs & Hr1 & Hfit). dred.
    assert (Hps1 : wf_parts (join ps qs)).
    { intros p. apply Forall_app. split; [done|]. destruct Hqs as [[_ Hq]|Hq]; [|by rewrite Hq].
      eapply Forall_impl; [apply Hq|]. by intros x [_ ?]. }
    assert (Hother : forall c', c' <> c -> hunks c' qs = []).
    { destruct Hqs as [Hq|Hq]; [by apply pieces_hunks in Hq as [_ ?]|].
      intros c' _. apply hunks_nil. intros p. by rewrite Hq. }
    assert (Hin : forall ps', hunks c ps' = hunks c (join ps qs) -> in_or_out c ps').
    { intros ps' E. rewrite hunks_join_r in E by done. destruct Hqs as [Hq|Hq].
      - right. exists d, t. split; [done|]. apply pieces_hunks in Hq as [Hq _]. unfold value_in in *. by rewrite E.
      - left. rewrite E. apply hunks_nil. intros p. by rewrite Hq. }
    assert (Hlater : forall c', c' ∈ codes -> hunks c' (join ps qs) = []).
    { intros c' Hc'. rewrite hunks_join_l; [by apply Hnew'|]. apply Hother. by intros ->. }
    assert (Hcost : cost c = 2 + zlen (full d t)) by (unfold cost; by rewrite Hv).
    assert (Hall : all_stored codes b1 s1 (join ps qs)).
    { destruct Hr1 as [Hr1|[Hlast Hfin]]; [by apply IH|]. destruct codes; [|done].
      exists b1, s1, (join ps qs). split_and!; try done; by intros; exfalso; eapply elem_of_nil. }
    destruct Hall as (b' & s' & ps' & E & Hst' & Hfin & Hps' & Hout & Hin' & Hfull).
    exists b', s', ps'. split_and!; try done.
    + intros c' Hc'. rewrite not_elem_of_cons in Hc'. destruct Hc' as [Hne Hc'].
      rewrite Hout by done. apply hunks_join_l. by apply Hother.
    + intros c' [->|Hc']%elem_of_cons; [|by apply Hin']. apply Hin. by apply Hout.
    + intros Htot [Hb Hsmall]%Forall_cons_iff. cbn [total_cost foldr] in Htot. fold (total_cost codes) in Htot.
      pose proof (total_nonneg codes).
      destruct Hfit as [Hpc Hsz]; [split; lia|]. intros c' d' t' [->|Hc']%elem_of_cons Hv'.
      * rewrite Hv in Hv'. injection Hv' as <- <-. unfold value_in. rewrite Hout by done.
        rewrite hunks_join_r by done. by apply pieces_hunks.
      * apply Hfull; try done. lia.
  - destruct (IH b s ps Hnd Hwf Hst Hr Hps Hnew') as (b' & s' & ps' & E & Hst' & Hfin & Hps' & Hout & Hin & Hfull).
    exists b', s', ps'. split_and!; try done.
    + intros c' [_ Hc']%not_elem_of_cons. by apply Hout.
    + intros c' [->|Hc']%elem_of_cons; [|by apply Hin]. left. by rewrite Hout.
    + intros Htot [Hb Hsmall]%Forall_cons_iff c' d' t' [->|Hc']%elem_of_cons Hv'; [by rewrite Hv in Hv'|].
      apply Hfull; try done. cbn [total_cost foldr] in Htot. fold (total_cost codes) in Htot.
      pose proof (cost_nonneg c). lia.
Qed.
End all.

(** ** Ending an overloaded part *)

(** A part filled to [size] bytes: the options, an end mark, padding. *)
Definition ended (l : list hunk) (size : Z) : list Z :=
  wire l ++ DHO_END :: replicate (Z.to_nat (size - zlen (wire l) - 1)) DHO_PAD.

Lemma zlen_replicate {A} k (x : A) : zlen (replicate k x) = Z.of_nat k.
Proof. unfold zlen. by rewrite length_replicate. Qed.

Lemma end_part_ok b base l limit :
  at_ b base (wire l) -> base + zlen (wire l) + 1 <= limit <= zlen b -> zlen b < 2 ^ 31 ->
  exists b', end_part b base (zlen (wire l)) limit = Done b' /\ zlen b' = zlen b /\
    at_ b' base (ended l (limit - base)) /\
    forall off k, at_ b off k -> off + zlen k <= base + zlen (wire l) \/ limit <= off -> at_ b' off k.
Proof.
  intros Ha Hl Hb. destruct (at_bounds _ _ _ Ha) as [H0 H1]. pose proof (zlen_nonneg (wire l)) as Hw.
  unfold end_part. rewrite !ltu_small by lia.
  rewrite (proj2 (Z.ltb_lt (base + zlen (wire l)) limit)) by lia. cbv iota.
  set (ix := zlen (wire l)) in *.
  set (pads := replicate (Z.to_nat (limit - (base + ix + 1))) DHO_PAD).
  assert (Hpad : zlen pads = limit - (base + ix + 1)) by (unfold pads; rewrite zlen_replicate; lia).
  destruct (wrn b (base + ix + 1) pads) as [b1| | |] eqn:W1; try (rewrite wrn_in in W1 by lia; done).
  assert ((if base + ix + 1 <? limit then Done b1 else Done b) = Done b1) as ->.
  { destruct (Z.ltb_spec (base + ix + 1) limit); [done|]. f_equal.
    assert (pads = []) as Ep by (destruct pads; [done|rewrite zlen_cons in Hpad; pose proof (zlen_nonneg pads); lia]).
    rewrite wrn_in in W1 by lia. injection W1 as <-. rewrite Ep. simpl. by rewrite Nat.add_0_r, take_drop. }
  dred. rewrite wr_wrn. pose proof (wrn_zlen _ _ _ _ W1) as Hz1.
  destruct (wrn b1 (base + ix) [DHO_END]) as [b2| | |] eqn:W2;
    try (rewrite wrn_in in W2 by (change (zlen [DHO_END]) with 1; lia); done).
  exists b2. split; [done|]. split; [by rewrite (wrn_zlen _ _ _ _ W2)|]. split.
  - unfold ended. replace (limit - base - zlen (wire l) - 1) with (limit - (base + ix + 1)) by lia. fold pads.
    change (DHO_END :: pads) with ([DHO_END] ++ pads). rewrite app_assoc. apply rdn_app. split.
    + eapply at_append; [eapply at_other; [exact Ha|exact W1|left; lia]|exact W2].
    + rewrite zlen_app. change (zlen [DHO_END]) with 1. fold ix. rewrite Z.add_assoc.
      erewrite rdn_wrn_other; [by eapply rdn_wrn_same|exact W2|]. right. change (zlen [DHO_END]) with 1. lia.
  - intros off k Hk Hd. eapply at_other; [eapply at_other; [exact Hk|exact W1|]|exact W2|];
      change (zlen [DHO_END]) with 1; lia.
Qed.

(** ** The whole of [store_options] *)

(** The arguments: where the parts start and end. *)
Record wf_args (index blen c1 c2 n : Z) : Prop := {
  wa_index : 0 <= index;
  wa_size : blen <= n < 2 ^ 31;
  wa_main : index + 3 <= (if c1 =? 0 then (if c2 =? 0 then blen else c2) else c1);
  wa_first : c1 <> 0 -> index < c1 < blen;
  wa_second : c2 <> 0 -> index < c2 < blen;
  wa_both : c1 <> 0 -> c2 <> 0 -> c1 < c2 }.

Definition main_end (blen c1 c2 : Z) : Z := if c1 =? 0 then (if c2 =? 0 then blen else c2) else c1.
Definition first_end (blen c2 : Z) : Z := if c2 =? 0 then blen else c2.

Lemma s32_small x : 0 <= x < 2 ^ 31 -> s32 x = x.
Proof.
  intros Hx. unfold s32, sint. rewrite Z.mod_small by lia. change (32 - 1) with 31.
  by rewrite (proj2 (Z.ltb_lt _ _)) by lia.
Qed.

Lemma make_layout_ok index blen c1 c2 n :
  wf_args index blen c1 c2 n ->
  exists y, make_layout index blen c1 c2 = Done y /\ wf_layout y (n - index) /\
    bufend y = main_end blen c1 c2 - index /\
    (first_cutoff y = if c1 =? 0 then 0 else c1 - index) /\
    (second_cutoff y = if c2 =? 0 then 0 else c2 - index) /\
    (c1 <> 0 -> sbufend y = first_end blen c2 - index) /\ buflen y = blen - index.
Proof.
  intros [Hi Hs Hm H1 H2 H3]. unfold make_layout, main_end, first_end.
  assert (Hb : index + 3 <= blen) by (destruct (Z.eqb_spec c1 0), (Z.eqb_spec c2 0); lia).
  assert (u32 (blen - index) = blen - index) as -> by (unfold u32; rewrite Z.mod_small; lia).
  destruct (Z.eqb_spec c1 0) as [->|N1], (Z.eqb_spec c2 0) as [->|N2]; simpl;
    try specialize (H1 N1); try specialize (H2 N2); try specialize (H3 N1 N2);
    rewrite ?(s32_small (blen - index)), ?(s32_small (c2 - index)) by lia;
    try (assert (u32 (c1 - index) = c1 - index) as -> by (unfold u32; rewrite Z.mod_small; lia));
    try (assert (u32 (c2 - index) = c2 - index) as -> by (unfold u32; rewrite Z.mod_small; lia));
    rewrite ?(s32_small (c1 - index)) by lia;
    rewrite ?(proj2 (Z.eqb_neq (c1 - index) 0)), ?(proj2 (Z.eqb_neq (c2 - index) 0)) by lia; simpl;
    rewrite ?(proj2 (Z.leb_gt (blen - index) (c1 - index))), ?(proj2 (Z.leb_gt (blen - index) (c2 - index))) by lia;
    (eexists; split; [done|]; split; [split; simpl; lia|]); simpl; split_and!; done || lia.
Qed.

Lemma at_shift head b off l : at_ b off l -> at_ (head ++ b) (zlen head + off) l.
Proof.
  intros Ha. destruct (at_bounds _ _ _ Ha) as [H0 H1]. pose proof (zlen_nonneg head). pose proof (zlen_nonneg l).
  unfold at_ in *. rewrite rdn_in in Ha by lia. rewrite rdn_in by (rewrite ?zlen_app; lia). rewrite <- Ha. do 2 f_equal.
  unfold zlen. rewrite Z2Nat.inj_add, Nat2Z.id by lia. by rewrite drop_app_add.
Qed.

(** The fields that are overloaded. *)
Definition used (l : list hunk) : bool := match l with [] => false | _ => true end.
Definition overload (ps : parts) : Z :=
  (if used (ps PFirst) then 1 else 0) + (if used (ps PSecond) then 2 else 0).

Lemma used_wire l : negb (zlen (wire l) =? 0) = used l.
Proof.
  destruct l as [|[c d] l]; [done|]. pose proof (wire_cons c d l []) as E. rewrite !app_nil_r in E.
  apply (f_equal zlen) in E. rewrite !zlen_cons in E. pose proof (zlen_nonneg (d ++ wire l)).
  unfold hunk in *. by rewrite (proj2 (Z.eqb_neq _ _)) by lia.
Qed.

(** The options [l], ended and padded, fill the part of [size] bytes at [base]. *)
Definition ended_at (b : list Z) (base : Z) (l : list hunk) (size : Z) : Prop :=
  zlen (wire l) < size /\ at_ b base (ended l size).

Record laid_out (index blen c1 c2 : Z) (buffer b : list Z) (ps : parts) : Prop := {
  lo_len : zlen b = zlen buffer;
  lo_head : take (Z.to_nat index) b = take (Z.to_nat index) buffer;
  lo_main : at_ b index (wire (ps PMain));
  lo_first : used (ps PFirst) = true -> c1 <> 0 /\ ended_at b c1 (ps PFirst) (first_end blen c2 - c1);
  lo_second : used (ps PSecond) = true -> c2 <> 0 /\ ended_at b c2 (ps PSecond) (blen - c2);
  lo_room : index + zlen (wire (ps PMain)) < main_end blen c1 c2 /\
            (overload ps <> 0 -> index + zlen (wire (ps PMain)) + 3 <= main_end blen c1 c2);
  lo_wf : wf_parts ps }.

(** Ending both overloaded parts. *)
Lemma end_parts_ok y n b s ps :
  wf_layout y n -> stored y n b s ps -> final y s ->
  exists b2, (b1 ← (if negb (first_cutoff y =? 0) && negb (six s =? 0)
                    then end_part b (first_cutoff y) (six s) (sbufend y) else Done b);
              if negb (second_cutoff y =? 0) && negb (tix s =? 0)
              then end_part b1 (second_cutoff y) (tix s) (buflen y) else Done b1) = Done b2 /\
    zlen b2 = n /\ at_ b2 0 (wire (ps PMain)) /\
    (negb (first_cutoff y =? 0) && negb (six s =? 0) = used (ps PFirst)) /\
    (negb (second_cutoff y =? 0) && negb (tix s =? 0) = used (ps PSecond)) /\
    (used (ps PFirst) = true -> first_cutoff y <> 0 /\
       ended_at b2 (first_cutoff y) (ps PFirst) (sbufend y - first_cutoff y)) /\
    (used (ps PSecond) = true -> second_cutoff y <> 0 /\
       ended_at b2 (second_cutoff y) (ps PSecond) (buflen y - second_cutoff y)).
Proof.
  intros Hy Hs Hf. pose proof (sd_ix _ _ _ _ _ Hs) as Hix.
  pose proof (Hix PMain) as I0. pose proof (Hix PFirst) as I1. pose proof (Hix PSecond) as I2. simpl in I0, I1, I2.
  pose proof (zlen_nonneg (wire (ps PMain))). pose proof (zlen_nonneg (wire (ps PFirst))).
  pose proof (zlen_nonneg (wire (ps PSecond))). pose proof (sd_len _ _ _ _ _ Hs) as Hn.
  assert (U1 : negb (first_cutoff y =? 0) && negb (six s =? 0) = used (ps PFirst)).
  { rewrite I1, used_wire. destruct (Z.eqb_spec (first_cutoff y) 0) as [E|E]; [|done].
    by rewrite (sd_off _ _ _ _ _ Hs PFirst) by (simpl; lia). }
  assert (U2 : negb (second_cutoff y =? 0) && negb (tix s =? 0) = used (ps PSecond)).
  { rewrite I2, used_wire. destruct (Z.eqb_spec (second_cutoff y) 0) as [E|E]; [|done].
    by rewrite (sd_off _ _ _ _ _ Hs PSecond) by (simpl; lia). }
  assert (F1 : used (ps PFirst) = true -> first_cutoff y <> 0 /\ first_cutoff y + six s + 1 <= sbufend y).
  { rewrite <- U1. intros E. zbool. split; [lia|]. destruct Hf as [(_ & F & _)|F]; lia. }
  assert (F2 : used (ps PSecond) = true -> second_cutoff y <> 0 /\ second_cutoff y + tix s + 1 <= buflen y).
  { rewrite <- U2. intros E. zbool. split; [lia|]. destruct Hf as [(_ & _ & F)|F]; lia. }
  rewrite U1, U2. destruct Hy as [Ws Wm W1 W2 W3].
  assert (B0 : bufix s <= bufend y) by (destruct Hf as [[? _]|?]; lia).
  assert (E1 : exists b1, (if used (ps PFirst) then end_part b (first_cutoff y) (six s) (sbufend y) else Done b)
      = Done b1 /\ zlen b1 = n /\ at_ b1 0 (wire (ps PMain)) /\
      (second_cutoff y <> 0 -> at_ b1 (second_cutoff y) (wire (ps PSecond))) /\
      (used (ps PFirst) = true -> at_ b1 (first_cutoff y) (ended (ps PFirst) (sbufend y - first_cutoff y)))).
  { destruct (used (ps PFirst)).
    - destruct (F1 eq_refl) as [N1 L1]. specialize (W1 N1). rewrite I1 in *.
      destruct (end_part_ok b (first_cutoff y) (ps PFirst) (sbufend y)) as (b1 & -> & Z1 & A1 & O1);
        [by apply (sd_at _ _ _ _ _ Hs PFirst)|lia|lia|].
      exists b1. split_and!; [done|lia| | |done].
      + apply O1; [by apply (sd_at _ _ _ _ _ Hs PMain)|lia].
      + intros N2. apply O1; [by apply (sd_at _ _ _ _ _ Hs PSecond)|]. right. specialize (W3 N1 N2). lia.
    - exists b. split_and!; try done; [by apply (sd_at _ _ _ _ _ Hs PMain)|].
      intros N2. by apply (sd_at _ _ _ _ _ Hs PSecond). }
  destruct E1 as (b1 & -> & Z1 & A0 & A2 & A1). dred.
  destruct (used (ps PSecond)).
  - destruct (F2 eq_refl) as [N2 L2]. specialize (W2 N2). rewrite I2 in *.
    destruct (end_part_ok b1 (second_cutoff y) (ps PSecond) (buflen y)) as (b2 & -> & Z2 & A2' & O2);
      [by apply A2|lia|lia|].
    exists b2. split_and!; try done; [lia|apply O2; [done|lia]| |intros _; split; [done|split; [lia|done]]].
    intros U. destruct (F1 U) as [N1 L1]. split; [done|]. split; [lia|]. apply O2; [by apply A1|]. left.
    specialize (W1 N1). specialize (W3 N1 N2). unfold ended.
    rewrite zlen_app, zlen_cons, zlen_replicate. pose proof (zlen_nonneg (wire (ps PSecond))). lia.
  - exists b1. split_and!; try done. intros U. destruct (F1 U) as [N1 L1]. split; [done|]. split; [lia|by apply A1].
Qed.

(** The parts are empty at first, and at the end there is room for the overload
    option if it is needed. *)
Lemma stored_start y n b : wf_layout y n -> zlen b = n -> stored y n b (mk_pos 0 0 0) (fun _ => []).
Proof.
  intros Hy Hz. split; [done|by intros []| |done]. intros p On. destruct (part_bounds y n p Hy On) as [? ?].
  unfold at_. change (zlen (wire [])) with 0. by rewrite rdn_in by lia.
Qed.
Lemma roomy_start y n : wf_layout y n -> roomy y (mk_pos 0 0 0).
Proof. intros [? Wm W1 W2 W3]. unfold roomy. simpl. split_and!; [lia|..]; intros; lia. Qed.

Lemma final_room y s (ps : parts) : final y s ->
  negb (first_cutoff y =? 0) && negb (six s =? 0) = used (ps PFirst) ->
  negb (second_cutoff y =? 0) && negb (tix s =? 0) = used (ps PSecond) ->
  bufix s < bufend y /\ (used (ps PFirst) || used (ps PSecond) = true -> bufix s + 3 <= bufend y).
Proof.
  intros Hf U1 U2. destruct Hf as [[? _]|(F1 & F2 & F3)]; [split; lia|]. split; [done|]. rewrite <- U1, <- U2, F1, F2.
  by rewrite !andb_false_r.
Qed.

Section options.
Context {expr : Type}.
Context (all_universes : list universe) (dhcp_universe : universe).
Context (vendor_cfg_option : option (universe * Z)).
Context (evaluate_data_expression : expr -> option (list Z)).
Context (option_space_encapsulate : list Z -> option (list Z)).
Context (buffer_available : Z -> bool) (h : heap).

#[local] Abbreviation value cfg terminate vuname :=
  (option_value all_universes dhcp_universe vendor_cfg_option evaluate_data_expression
     option_space_encapsulate buffer_available h cfg terminate vuname).
#[local] Abbreviation store :=
  (store_options all_universes dhcp_universe vendor_cfg_option evaluate_data_expression
     option_space_encapsulate buffer_available h).

(** What the parts hold of the options of the list [l]. *)
Record contents (v : Z -> outcome (option (list Z * bool))) (l : list Z) (start limit : Z)
    (ps : parts) : Prop := {
  ct_others : forall c, c ∉ l -> hunks c ps = [];
  ct_values : forall c, c ∈ l -> in_or_out v c ps;
  ct_complete : start + total_cost v (keep_first l) + 3 < limit ->
    Forall (fun c => cost v c <= 257) l ->
    forall c d t, c ∈ l -> v c = Done (Some (d, t)) -> value_in c ps = full d t }.

Lemma total_cost_perm v l k : l ≡ₚ k -> total_cost v l = total_cost v k.
Proof. induction 1; simpl; unfold total_cost in *; simpl; lia. Qed.

Lemma store_options_laid buffer index blen cfg l c1 c2 terminate vuname :
  wf_args index blen c1 c2 (zlen buffer) -> Forall (wf_value (value cfg terminate vuname)) l ->
  exists b ps,
    store buffer index blen cfg l c1 c2 terminate vuname = Done (b, overload ps, zlen (wire (ps PMain))) /\
    laid_out index blen c1 c2 buffer b ps /\
    contents (value cfg terminate vuname) l index (main_end blen c1 c2) ps.
Proof.
  intros Ha Hv. unfold store_options.
  destruct (make_layout_ok index blen c1 c2 (zlen buffer) Ha) as (y & -> & Hy & Eb & E1 & E2 & Es & El). dred.
  destruct (order_priorities_exact l) as (junk & ->). dred.
  set (P := mask_first (keep_first l)).
  replace (take (Z.to_nat (zlen P)) (P ++ junk)) with P by (unfold zlen; by rewrite Nat2Z.id, take_app_length).
  assert (HP : forall c, c ∈ P <-> c ∈ l) by (intros c; unfold P; by rewrite mask_first_set, elem_of_keep_first).
  assert (Hperm : total_cost (value cfg terminate vuname) P = total_cost (value cfg terminate vuname) (keep_first l)).
  { apply total_cost_perm. apply NoDup_Permutation; [apply mask_first_NoDup, NoDup_keep_first|apply NoDup_keep_first|].
    intros c. unfold P. apply mask_first_set. }
  destruct Ha as [A0 A1 A2 A3 A4 _].
  assert (Hidx : index <= zlen buffer) by (destruct (Z.eqb_spec c1 0), (Z.eqb_spec c2 0); lia).
  set (head := take (Z.to_nat index) buffer). set (rest := drop (Z.to_nat index) buffer).
  assert (Hh : zlen head = index) by (unfold head, zlen in *; rewrite length_take; lia).
  assert (Hr : zlen rest = zlen buffer - index) by (unfold rest, zlen in *; rewrite length_drop; lia).
  destruct (store_all_ok y (zlen buffer - index) Hy (value cfg terminate vuname) P rest (mk_pos 0 0 0) (fun _ => []))
    as (b & s & ps & -> & Hst & Hf & Hwf & Hout & Hin & Hfull).
  - apply mask_first_NoDup, NoDup_keep_first.
  - rewrite Forall_forall in Hv |- *. intros c Hc. by apply Hv, HP.
  - by apply stored_start.
  - by eapply roomy_start.
  - by intros p.
  - done.
  - dred. destruct (end_parts_ok y (zlen buffer - index) b s ps Hy Hst Hf)
      as (b2 & E & Z2 & B0 & U1 & U2 & B1 & B2).
    apply bind_Done_inv in E as (b1 & -> & E). dred. rewrite E. dred. rewrite U1, U2.
    pose proof (sd_ix _ _ _ _ _ Hst PMain) as I0. pose proof (sd_ix _ _ _ _ _ Hst PFirst) as I1.
    pose proof (sd_ix _ _ _ _ _ Hst PSecond) as I2. simpl in I0, I1, I2.
    rewrite I1, I2, !used_wire.
    pose proof (final_room y s ps Hf U1 U2) as Hroom.
    assert (((used (ps PFirst) || used (ps PSecond)) && (bufend y <? bufix s + 3)) = false) as ->.
    { destruct (used (ps PFirst) || used (ps PSecond)) eqn:EU; [|done]. apply Z.ltb_ge. destruct Hroom; auto. }
    exists (head ++ b2), ps. split; [by rewrite I0|]. split.
    + split; [rewrite zlen_app; lia| | | | | |done].
      * unfold head. rewrite take_app_le, take_take by (unfold zlen in *; fold head; lia). f_equal. lia.
      * replace index with (zlen head + 0) by lia. by apply at_shift.
      * intros U. destruct (B1 U) as (N1 & L1 & At1). rewrite E1 in N1, L1, At1. destruct (Z.eqb_spec c1 0) as [|N]; [done|].
        rewrite (Es N) in L1, At1. split; [done|]. split; [lia|]. replace c1 with (zlen head + (c1 - index)) at 1 by lia.
        replace (first_end blen c2 - c1) with (first_end blen c2 - index - (c1 - index)) by lia. by apply at_shift.
      * intros U. destruct (B2 U) as (N2 & L2 & At2). rewrite E2 in N2, L2, At2. destruct (Z.eqb_spec c2 0) as [|N]; [done|].
        rewrite El in L2, At2. split; [done|]. split; [lia|]. replace c2 with (zlen head + (c2 - index)) at 1 by lia.
        replace (blen - c2) with (blen - index - (c2 - index)) by lia. by apply at_shift.
      * rewrite <- I0. destruct Hroom as [R1 R2]. split; [lia|]. intros HO.
        assert (used (ps PFirst) || used (ps PSecond) = true) as HU by
          (unfold overload in HO; destruct (used (ps PFirst)), (used (ps PSecond)); done).
        specialize (R2 HU). lia.
    + split.
      * intros c Hc. rewrite Hout; [done|]. by rewrite HP.
      * intros c Hc. by apply Hin, HP.
      * intros Ht Hsm c d t Hc. apply Hfull; [simpl; lia| |by apply HP].
        rewrite Forall_forall in Hsm |- *. intros x Hx. by apply Hsm, HP.
Qed.

(** C3: [store_options] is correct and memory safe.  For every priority list,
    every option value and every division of the buffer into parts, it returns
    without a fatal error, having written only inside the buffer, and leaves:
    in the main part a sequence of well-formed options, whose length it
    returns; in each overloaded part it reports another one, ended and padded
    to the end of the part; at least three bytes for the overload option in
    the main part when a part is overloaded.  Of every requested option either
    nothing is there or pieces whose data, read in the order main, first,
    second part, are exactly its value (with the NUL if asked for), no other
    option is there, and if all the options fit in the main part they are all
    there. *)
Theorem store_options_correct buffer index blen cfg l c1 c2 terminate vuname :
  wf_args index blen c1 c2 (zlen buffer) -> Forall (wf_value (value cfg terminate vuname)) l ->
  exists b ps,
    store buffer index blen cfg l c1 c2 terminate vuname = Done (b, overload ps, zlen (wire (ps PMain))) /\
    laid_out index blen c1 c2 buffer b ps /\
    (forall c, c ∉ l -> hunks c ps = []) /\
    (forall c, c ∈ l -> hunks c ps = [] \/
       exists d t, value cfg terminate vuname c = Done (Some (d, t)) /\ value_in c ps = full d t) /\
    (index + total_cost (value cfg terminate vuname) (keep_first l) + 3 < main_end blen c1 c2 ->
     Forall (fun c => cost (value cfg terminate vuname) c <= 257) l ->
     forall c d t, c ∈ l -> value cfg terminate vuname c = Done (Some (d, t)) -> value_in c ps = full d t).
Proof.
  intros Ha Hv. destruct (store_options_laid buffer index blen cfg l c1 c2 terminate vuname Ha Hv)
    as (b & ps & E & Hl & [C1 C2 C3]). by exists b, ps.
Qed.
End options.

(** ** Witness: a mask, routers, and an option of 300 bytes in a small buffer *)
Definition layout_universe : universe :=
  mk_universe "dhcp" ByHash (Some DecodeBuffer) rd (Some rd) 1 1 255 (fun _ => None) 0 true.
Definition layout_entry (c : Z) (v : list Z) : entry (list Z) :=
  (mk_oc (Some v) (mk_option "test" "X" 0 c) None 0, []).
Definition layout_cfg : option_state (list Z) :=
  mk_state 0 0 [SlotHash (<[1%nat := [layout_entry 1 [255; 255; 255; 0]]]>
    (<[3%nat := [layout_entry 3 [10; 0; 0; 1]]]> (<[12%nat := [layout_entry 43 (replicate 300 7)]]>
      (replicate 17 []))))].

Lemma store_options_correct_witness :
  exists b ps,
    store_options [layout_universe] layout_universe None Some (fun _ => None) (fun _ => true) (mk_heap [] 0)
      (replicate 500 0) 4 450 layout_cfg [3; 1; 3; 43] 200 328 false false
      = Done (b, overload ps, zlen (wire (ps PMain))) /\
    laid_out 4 450 200 328 (replicate 500 0) b ps /\ hunks 12 ps = [].
Proof.
  destruct (store_options_correct [layout_universe] layout_universe None Some (fun _ => None) (fun _ => true)
    (mk_heap [] 0) (replicate 500 0) 4 450 layout_cfg [3; 1; 3; 43] 200 328 false false)
    as (b & ps & E & Hl & Ho & _).
  - change (zlen (replicate 500 0)) with 500. split; simpl; lia.
  - repeat constructor; eexists; (split; [vm_compute; reflexivity|]); intros d t [= <- <-]; split; try lia;
      (apply (Forall_replicate byte) || (repeat constructor)); unfold byte; lia.
  - exists b, ps. split_and!; [exact E|exact Hl|]. apply Ho.
    rewrite !elem_of_cons, elem_of_nil. lia.
Defined.
