(* ===== verification/OptionPacket.v ===== *)
(** * Assembling a packet and reading it back

    [cons_options] builds the priority list, lays the options out and puts the
    parts into the fields of the packet; [parse_options] reads the fields back.
    The first part of the file is about the sizes and the memory safety of
    [cons_options], the second about the round trip through the parser. *)

From Stdlib Require Import Ascii String.
From stdpp Require Import base tactics numbers strings list.
From S2P Require Import Prelude Array Convert OptionStore OptionParse OptionWire OptionOut OptionOrder OptionLayout.

#[local] Open Scope Z_scope.

(** ** The priority list stays inside its array *)
Definition fit (l : list Z) : Prop := zlen l <= PRIORITY_COUNT.

Lemma push_ok l c : zlen l < PRIORITY_COUNT -> push l c = Done (l ++ [c]).
Proof. intros Hl. unfold push. by rewrite (proj2 (Z.ltb_lt _ _)). Qed.

(** Only codes are added, at the end. *)
Definition extends (l l' : list Z) : Prop := exists k, l' = l ++ k.

Lemma extends_refl l : extends l l.
Proof. exists []. by rewrite app_nil_r. Qed.

Lemma extends_trans l1 l2 l3 : extends l1 l2 -> extends l2 l3 -> extends l1 l3.
Proof. intros [a ->] [b ->]. exists (a ++ b). by rewrite app_assoc. Qed.

#[local] Hint Resolve extends_refl : core.

Lemma push_if_ok c code l : fit l -> exists l', push_if c code l = Done l' /\ fit l' /\ extends l l'.
Proof.
  intros Hl. unfold push_if, fit in *. destruct c; simpl; [|by exists l].
  destruct (Z.ltb_spec (zlen l) PRIORITY_COUNT).
  - rewrite push_ok by done. eexists. split_and!; [done| |by exists [code]].
    rewrite zlen_app. change (zlen [code]) with 1. lia.
  - by exists l.
Qed.

Lemma push_all_ok codes : forall l, zlen l + zlen codes <= PRIORITY_COUNT ->
  push_all codes l = Done (l ++ codes).
Proof.
  induction codes as [|c codes IH]; intros l Hl; simpl; [by rewrite app_nil_r|].
  rewrite zlen_cons in Hl. pose proof (zlen_nonneg codes). rewrite push_ok by lia. dred.
  rewrite IH; [by rewrite <- app_assoc|]. rewrite zlen_app. change (zlen [c]) with 1. lia.
Qed.

Lemma push_each_ok keep codes : forall l, fit l ->
  exists l', push_each keep codes l = Done l' /\ fit l' /\ extends l l'.
Proof.
  induction codes as [|c codes IH]; intros l Hl; simpl.
  - by exists l.
  - destruct (push_if_ok (keep c) c l Hl) as (l1 & -> & H1 & E1). dred.
    destruct (IH l1 H1) as (l2 & -> & H2 & E2). exists l2. split_and!; [done..|]. by eapply extends_trans.
Qed.

Section priorities.
Context {expr : Type} (dhcp_universe fqdn_universe : universe) (enc_opts : list (option (Z * Z))).

(** The option states have the spaces the code looks in. *)
Definition looks_up (u : universe) (st : option_state expr) : Prop :=
  forall c, exists e, lookup_option u st c = Done e.
Definition has_table (st : option_state expr) (index : Z) : Prop :=
  exists codes, hashed_codes st index = Done codes.

Record wf_config (inpacket : option (in_packet (expr := expr))) (cfg : option_state expr) : Prop := {
  wc_cfg : looks_up dhcp_universe cfg;
  wc_in : forall p, inpacket = Some p -> looks_up dhcp_universe (in_options p) /\ looks_up fqdn_universe (in_options p);
  wc_dhcp : has_table cfg (u_index dhcp_universe);
  wc_site : has_table cfg (site_universe cfg) }.

Lemma requested_ok inpacket cfg prl l :
  wf_config inpacket cfg -> zlen l <= 8 ->
  exists l', requested_priorities dhcp_universe fqdn_universe inpacket cfg prl l = Done l' /\ fit l' /\ extends l l'.
Proof.
  intros [Hc Hi _ _] Hl. unfold requested_priorities. destruct (Hc DHO_SUBNET_SELECTION) as (op & ->). dred.
  assert (Hpush : forall c code l, zlen l < PRIORITY_COUNT ->
    exists l', push_if c code l = Done l' /\ zlen l' <= zlen l + 1 /\ extends l l').
  { intros c code k Hk. unfold push_if. rewrite (proj2 (Z.ltb_lt _ _)) by done. destruct c; simpl.
    - rewrite push_ok by done. eexists. split_and!; [done| |by exists [code]]. by rewrite zlen_app.
    - exists k. split_and!; [done|lia|done]. }
  destruct (Hpush (match op with Some _ => true | None => false end) DHO_SUBNET_SELECTION l) as (l1 & -> & H1 & E1);
    [unfold PRIORITY_COUNT; lia|]. dred.
  destruct (Hpush (match inpacket with Some p => in_echo_client_id p | None => false end)
    DHO_DHCP_CLIENT_IDENTIFIER l1) as (l2 & -> & H2 & E2); [unfold PRIORITY_COUNT; lia|]. dred.
  set (prl' := take (Z.to_nat (PRIORITY_COUNT - zlen l2)) prl).
  set (codes := filter (fun c => c <> DHO_DHCP_AGENT_OPTIONS) prl').
  assert (Hcodes : zlen l2 + zlen codes <= PRIORITY_COUNT).
  { pose proof (sublist_length _ _ (sublist_filter (fun c => c <> DHO_DHCP_AGENT_OPTIONS) prl')) as S.
    fold codes in S. unfold prl' in S. rewrite length_take in S. unfold PRIORITY_COUNT, zlen in *. lia. }
  rewrite push_all_ok by done. dred.
  assert (E3 : extends l (l2 ++ codes)).
  { eapply extends_trans; [exact E1|]. eapply extends_trans; [exact E2|]. by exists codes. }
  assert (F3 : fit (l2 ++ codes)) by (unfold fit; rewrite zlen_app; lia).
  destruct inpacket as [p|]; [|by exists (l2 ++ codes)].
  destruct (proj2 (Hi p eq_refl) FQDN_ENCODED) as (fq & ->). dred.
  destruct (push_if_ok (match fq with Some _ => true | None => false end) DHO_FQDN _ F3) as (l4 & -> & F4 & E4). dred.
  destruct (push_if_ok ((in_type p =? DHCPDISCOVER) || (in_type p =? DHCPREQUEST)) DHO_SUBNET_MASK _ F4)
    as (l5 & -> & F5 & E5). exists l5. split_and!; [done..|].
  eapply extends_trans; [exact E3|]. by eapply extends_trans.
Qed.

Lemma configured_ok inpacket cfg l :
  wf_config inpacket cfg -> zlen l <= 8 ->
  exists l', configured_priorities dhcp_universe enc_opts cfg l = Done l' /\ fit l' /\ extends l l'.
Proof.
  intros [_ _ (dc & Hd) (sc & Hs)] Hl. unfold configured_priorities.
  rewrite push_all_ok by (unfold PRIORITY_COUNT; simpl; change (zlen [DHO_SUBNET_MASK; DHO_ROUTERS; DHO_DOMAIN_NAME_SERVERS; DHO_HOST_NAME; DHO_FQDN]) with 5; lia).
  dred. set (l1 := l ++ _). assert (F1 : fit l1).
  { unfold fit, l1. rewrite zlen_app. unfold PRIORITY_COUNT.
    change (zlen [DHO_SUBNET_MASK; DHO_ROUTERS; DHO_DOMAIN_NAME_SERVERS; DHO_HOST_NAME; DHO_FQDN]) with 5. lia. }
  assert (E1 : extends l l1) by (by eexists).
  assert (H2 : exists l2, (if site_code_min cfg =? 0 then Done l1
      else codes ← hashed_codes cfg (u_index dhcp_universe);
           push_each (fun c => (c <? site_code_min cfg) && negb (c =? DHO_DHCP_AGENT_OPTIONS)) codes l1) = Done l2
      /\ fit l2 /\ extends l1 l2).
  { destruct (site_code_min cfg =? 0).
    - by exists l1.
    - rewrite Hd. dred. by apply push_each_ok. }
  destruct H2 as (l2 & -> & F2 & E2). dred. rewrite Hs. dred.
  destruct (push_each_ok (fun c => (site_code_min cfg <=? c) && negb (c =? DHO_DHCP_AGENT_OPTIONS)) sc l2 F2)
    as (l3 & -> & F3 & E3). dred.
  match goal with |- context [push_each ?k ?c l3] => destruct (push_each_ok k c l3 F3) as (l4 & -> & F4 & E4) end. dred.
  destruct (push_if_ok true DHO_VENDOR_ENCAPSULATED_OPTIONS l4 F4) as (l5 & -> & F5 & E5). exists l5.
  split_and!; [done..|]. eapply extends_trans; [exact E1|]. eapply extends_trans; [exact E2|].
  eapply extends_trans; [exact E3|]. by eapply extends_trans.
Qed.

(** The agent options are never in the list. *)
Abbreviation no_agent l := (DHO_DHCP_AGENT_OPTIONS ∉ l).

Lemma push_if_no_agent c code l l' :
  push_if c code l = Done l' -> (c = true -> code <> DHO_DHCP_AGENT_OPTIONS) -> no_agent l -> no_agent l'.
Proof.
  unfold push_if, push. destruct c; simpl; [|by intros [= <-]].
  destruct (zlen l <? PRIORITY_COUNT); [|by intros [= <-]]. intros [= <-] Hc Hl.
  rewrite elem_of_app, list_elem_of_singleton. intros [?|E]; [done|]. by apply Hc.
Qed.

Lemma push_all_no_agent codes : forall l l',
  push_all codes l = Done l' -> no_agent codes -> no_agent l -> no_agent l'.
Proof.
  induction codes as [|c codes IH]; intros l l' E Hc Hl; simpl in E; [by injection E as <-|].
  apply not_elem_of_cons in Hc as [Hc Hcs]. unfold push in E.
  destruct (zlen l <? PRIORITY_COUNT); [|done]. dred_in E. eapply IH; [exact E|done|].
  rewrite elem_of_app, list_elem_of_singleton. intros [?|?]; congruence.
Qed.

Lemma push_each_no_agent keep codes : forall l l',
  push_each keep codes l = Done l' -> (forall c, keep c = true -> c <> DHO_DHCP_AGENT_OPTIONS) ->
  no_agent l -> no_agent l'.
Proof.
  induction codes as [|c codes IH]; intros l l' E Hk Hl; simpl in E; [by injection E as <-|].
  apply bind_Done_inv in E as (l1 & E1 & E). eapply IH; [exact E|done|].
  eapply push_if_no_agent; [exact E1|apply Hk|done].
Qed.

Lemma requested_no_agent inpacket cfg prl l l' :
  requested_priorities (expr := expr) dhcp_universe fqdn_universe inpacket cfg prl l = Done l' ->
  no_agent l -> no_agent l'.
Proof.
  unfold requested_priorities. intros E Hl. apply bind_Done_inv in E as (op & _ & E).
  apply bind_Done_inv in E as (l1 & E1 & E). apply push_if_no_agent in E1; [|done|done].
  apply bind_Done_inv in E as (l2 & E2 & E). apply push_if_no_agent in E2; [|done|done]. cbv zeta in E.
  apply bind_Done_inv in E as (l3 & E3 & E). apply push_all_no_agent in E3; [| |done].
  2: { rewrite list_elem_of_filter. by intros [? _]. }
  destruct inpacket as [p|]; [|by injection E as <-]. apply bind_Done_inv in E as (fq & _ & E).
  apply bind_Done_inv in E as (l4 & E4 & E). apply push_if_no_agent in E4; [|done|done].
  by apply push_if_no_agent in E.
Qed.

Lemma configured_no_agent cfg l l' :
  configured_priorities (expr := expr) dhcp_universe enc_opts cfg l = Done l' -> no_agent l -> no_agent l'.
Proof.
  unfold configured_priorities. intros E Hl. cbv zeta in E.
  apply bind_Done_inv in E as (l1 & E1 & E). apply push_all_no_agent in E1; [| |done].
  2: { by repeat (apply not_elem_of_cons; split; [done|]); apply not_elem_of_nil. }
  assert (Hneg : forall c, negb (c =? DHO_DHCP_AGENT_OPTIONS) = true -> c <> DHO_DHCP_AGENT_OPTIONS)
    by (intros c Hc; zbool; done).
  apply bind_Done_inv in E as (l2 & E2 & E). assert (no_agent l2).
  { destruct (site_code_min cfg =? 0); [by injection E2 as <-|]. apply bind_Done_inv in E2 as (dc & _ & E2).
    eapply push_each_no_agent; [exact E2| |done]. intros c [_ Hc]%andb_true_iff. by apply Hneg. }
  apply bind_Done_inv in E as (sc & _ & E). apply bind_Done_inv in E as (l3 & E3 & E).
  apply push_each_no_agent in E3; [|intros c [_ Hc]%andb_true_iff; by apply Hneg|done].
  apply bind_Done_inv in E as (l4 & E4 & E). apply push_each_no_agent in E4; [|done|done].
  by apply push_if_no_agent in E.
Qed.

Lemma priorities_no_agent inpacket cfg prl l :
  priorities (expr := expr) dhcp_universe fqdn_universe enc_opts inpacket cfg prl = Done l -> no_agent l.
Proof.
  unfold priorities. rewrite push_all_ok by done. dred. simpl app.
  assert (Hm : no_agent mandatory_codes) by (by repeat (apply not_elem_of_cons; split; [done|]); apply not_elem_of_nil).
  destruct prl as [[|c prl]|]; intros E; [by eapply configured_no_agent|by eapply requested_no_agent|by eapply configured_no_agent].
Qed.

(** C8: the priority list of [cons_options] never runs over its 300-element
    array, whatever parameter request list the client sent and however many
    options are configured; it always starts with the options the protocol
    requires, and never has the relay agent options, even when the client asks
    for them. *)
Theorem priorities_bounded inpacket cfg prl :
  wf_config inpacket cfg ->
  exists l, priorities dhcp_universe fqdn_universe enc_opts inpacket cfg prl = Done l /\
    zlen l <= PRIORITY_COUNT /\ extends mandatory_codes l /\ DHO_DHCP_AGENT_OPTIONS ∉ l.
Proof.
  intros Hc. assert (Hx : exists l, priorities dhcp_universe fqdn_universe enc_opts inpacket cfg prl = Done l /\
    fit l /\ extends mandatory_codes l).
  { unfold priorities. rewrite push_all_ok by done. dred. simpl app.
    destruct prl as [[|c prl]|]; [by eapply configured_ok|by eapply requested_ok|by eapply configured_ok]. }
  destruct Hx as (l & E & Hf & He). exists l. split_and!; [done..|]. by eapply priorities_no_agent.
Qed.

Lemma priorities_ok inpacket cfg prl :
  wf_config inpacket cfg -> exists l, priorities dhcp_universe fqdn_universe enc_opts inpacket cfg prl = Done l.
Proof.
  intros Hc. unfold priorities. rewrite push_all_ok by done. dred. simpl app.
  destruct prl as [[|c prl]|].
  - destruct (configured_ok inpacket cfg mandatory_codes Hc) as (l & E & _); [done|]. by exists l.
  - destruct (requested_ok inpacket cfg (c :: prl) mandatory_codes Hc) as (l & E & _); [done|]. by exists l.
  - destruct (configured_ok inpacket cfg mandatory_codes Hc) as (l & E & _); [done|]. by exists l.
Qed.
End priorities.

(** ** The end of the packet *)
Definition overload_option (ps : parts) : list hunk :=
  if overload ps =? 0 then [] else [(DHO_DHCP_OPTION_OVERLOAD, [overload ps])].
Definition body (ps : parts) (agent : list hunk) : list hunk := ps PMain ++ overload_option ps ++ agent.

Lemma overload_cases ps :
  (used (ps PFirst) = false /\ used (ps PSecond) = false /\ overload ps = 0) \/
  (used (ps PFirst) = true /\ used (ps PSecond) = false /\ overload ps = 1) \/
  (used (ps PFirst) = false /\ used (ps PSecond) = true /\ overload ps = 2) \/
  (used (ps PFirst) = true /\ used (ps PSecond) = true /\ overload ps = 3).
Proof. unfold overload. destruct (used (ps PFirst)), (used (ps PSecond)); tauto. Qed.

Lemma zlen_overload_option ps : zlen (wire (overload_option ps)) = if overload ps =? 0 then 0 else 3.
Proof. unfold overload_option. by destruct (overload ps =? 0). Qed.

Lemma zlen_ended l size : zlen (wire l) < size -> zlen (ended l size) = size.
Proof.
  intros Hs. pose proof (zlen_nonneg (wire l)). unfold ended. rewrite zlen_app, zlen_cons, zlen_replicate. lia.
Qed.

Section finish.
Context (buffer : list Z) (of1 of2 limit : Z) (ps : parts) (out : out_packet).
Hypothesis Hmain : at_ buffer 0 (DHCP_OPTIONS_COOKIE ++ wire (ps PMain)).
Hypothesis Hroom : overload ps <> 0 -> 4 + zlen (wire (ps PMain)) + 3 <= limit.
Hypothesis Hlimit : limit <= zlen buffer.
Hypothesis Hfirst : used (ps PFirst) = true -> limit <= of1 /\ at_ buffer of1 (ended (ps PFirst) DHCP_FILE_LEN) /\ zlen (ended (ps PFirst) DHCP_FILE_LEN) = DHCP_FILE_LEN.
Hypothesis Hsecond : used (ps PSecond) = true -> limit <= of2 /\ at_ buffer of2 (ended (ps PSecond) DHCP_SNAME_LEN) /\ zlen (ended (ps PSecond) DHCP_SNAME_LEN) = DHCP_SNAME_LEN.
Hypothesis Hfile : zlen (out_file out) = DHCP_FILE_LEN.
Hypothesis Hsname : zlen (out_sname out) = DHCP_SNAME_LEN.

(** The fields other than the options. *)
Definition fields : out_packet :=
  mk_out (if used (ps PSecond) then ended (ps PSecond) DHCP_SNAME_LEN else out_sname out)
         (if used (ps PFirst) then ended (ps PFirst) DHCP_FILE_LEN else out_file out) (out_options out).

Lemma put_overload_ok :
  exists b, put_overload buffer (4 + zlen (wire (ps PMain))) (overload ps) of1 of2 out
              = Done (b, 4 + zlen (wire (ps PMain ++ overload_option ps)), fields) /\
    zlen b = zlen buffer /\ at_ b 0 (DHCP_OPTIONS_COOKIE ++ wire (ps PMain ++ overload_option ps)).
Proof.
  unfold put_overload, fields. pose proof (zlen_nonneg (wire (ps PMain))) as Hz. rewrite wire_app, zlen_app, zlen_overload_option.
  destruct (Z.eqb_spec (overload ps) 0) as [E|N].
  { exists buffer. destruct (overload_cases ps) as [(-> & -> & _)|[(_ & _ & ?)|[(_ & _ & ?)|(_ & _ & ?)]]]; try lia.
    unfold overload_option. rewrite E, app_nil_r. replace (4 + (zlen (wire (ps PMain)) + 0)) with (4 + zlen (wire (ps PMain))) by lia.
    by destruct out. }
  specialize (Hroom N). rewrite u8_byte by (unfold byte; destruct (overload_cases ps) as [(_ & _ & ?)|[(_ & _ & ?)|[(_ & _ & ?)|(_ & _ & ?)]]]; lia).
  set (ov := [DHO_DHCP_OPTION_OVERLOAD; 1; overload ps]).
  destruct (wrn_ok buffer (4 + zlen (wire (ps PMain))) ov) as (b & E); [lia|change (zlen ov) with 3; lia|].
  rewrite E. dred. exists b. assert (Hb : zlen b = zlen buffer) by (by eapply wrn_zlen).
  assert (Hat : at_ b 0 (DHCP_OPTIONS_COOKIE ++ wire (ps PMain) ++ wire (overload_option ps))).
  { rewrite app_assoc. eapply at_append; [exact Hmain|]. rewrite zlen_app. unfold overload_option.
    rewrite (proj2 (Z.eqb_neq _ _)) by done. exact E. }
  assert (Hf : (if used (ps PFirst) then src ← rdn b of1 DHCP_FILE_LEN; wrn (out_file out) 0 src else Done (out_file out))
    = Done (if used (ps PFirst) then ended (ps PFirst) DHCP_FILE_LEN else out_file out)).
  { destruct (used (ps PFirst)) eqn:U; [|done]. destruct (Hfirst eq_refl) as (L & A & Z).
    assert (rdn b of1 DHCP_FILE_LEN = Done (ended (ps PFirst) DHCP_FILE_LEN)) as ->.
    { rewrite <- Z at 1. eapply at_other; [exact A|exact E|]. right. change (zlen ov) with 3. lia. }
    dred. apply wrn_all. lia. }
  assert (Hs : (if used (ps PSecond) then src ← rdn b of2 DHCP_SNAME_LEN; wrn (out_sname out) 0 src else Done (out_sname out))
    = Done (if used (ps PSecond) then ended (ps PSecond) DHCP_SNAME_LEN else out_sname out)).
  { destruct (used (ps PSecond)) eqn:U; [|done]. destruct (Hsecond eq_refl) as (L & A & Z).
    assert (rdn b of2 DHCP_SNAME_LEN = Done (ended (ps PSecond) DHCP_SNAME_LEN)) as ->.
    { rewrite <- Z at 1. eapply at_other; [exact A|exact E|]. right. change (zlen ov) with 3. lia. }
    dred. apply wrn_all. lia. }
  assert (Z.testbit (overload ps) 0 = used (ps PFirst) /\ Z.testbit (overload ps) 1 = used (ps PSecond)) as [-> ->]
    by (destruct (overload_cases ps) as [(-> & -> & ->)|[(-> & -> & ->)|[(-> & -> & ->)|(-> & -> & ->)]]]; done).
  rewrite Hf. dred. rewrite Hs. dred. split_and!; [by rewrite Z.add_assoc|done|done].
Qed.
End finish.

(** The agent options always fit in the space that was kept for them. *)
Lemma put_agent_ok b index l agentopts agent size :
  at_ b 0 l -> index = zlen l -> at_ agentopts 0 (wire agent) ->
  index + zlen (wire agent) <= size <= zlen b -> size < 2 ^ 31 ->
  exists b', put_agent b index agentopts (zlen (wire agent)) size = Done (b', index + zlen (wire agent)) /\
    zlen b' = zlen b /\ at_ b' 0 (l ++ wire agent).
Proof.
  intros Hl -> Ha Hs Hlt. unfold put_agent. pose proof (zlen_nonneg l). pose proof (zlen_nonneg (wire agent)).
  destruct (Z.eqb_spec (zlen (wire agent)) 0) as [E|N].
  - exists b. rewrite E, Z.add_0_r. destruct (wire agent); [by rewrite app_nil_r|].
    rewrite zlen_cons in E. pose proof (zlen_nonneg l0). lia.
  - unfold u32. rewrite Z.mod_small, (proj2 (Z.leb_le _ _)) by lia. rewrite Ha. dred.
    destruct (wrn_ok b (zlen l) (wire agent)) as (b' & E); [lia|lia|]. rewrite E. dred. exists b'. split_and!; [done|by eapply wrn_zlen|]. eapply at_append; [exact Hl|]. exact E.
Qed.

(** The end mark, unless the packet is full. *)
Definition tail_of (l : list Z) (size : Z) : list Z := if zlen l <? size then [DHO_END] else [].

Lemma put_end_ok b l size :
  at_ b 0 l -> zlen l <= size <= zlen b ->
  exists b', put_end b (zlen l) size = Done (b', zlen (l ++ tail_of l size)) /\
    at_ b' 0 (l ++ tail_of l size) /\ zlen (l ++ tail_of l size) <= size.
Proof.
  intros Hl Hs. unfold put_end, tail_of. pose proof (zlen_nonneg l). rewrite zlen_app.
  destruct (Z.ltb_spec (zlen l) size).
  - rewrite wr_wrn. destruct (wrn_ok b (zlen l) [DHO_END]) as (b' & E); [lia|change (zlen [DHO_END]) with 1; lia|].
    rewrite E. dred. exists b'. change (zlen [DHO_END]) with 1. split_and!; [done| |lia]. eapply at_append; [exact Hl|]. exact E.
  - exists b. change (zlen (@nil Z)) with 0. rewrite Z.add_0_r, app_nil_r. split_and!; [done|done|lia].
Qed.

(** Only the option asked for is there. *)
Lemma hunks_only ps c p :
  (forall c', c' ∉ [c] -> hunks c' ps = []) -> Forall (fun x => x.1 = c) (ps p).
Proof.
  intros Ho. apply Forall_forall. intros x Hx. destruct (decide (x.1 = c)) as [|N]; [done|].
  exfalso. specialize (Ho x.1). rewrite hunks_nil in Ho. specialize (Ho ltac:(by rewrite list_elem_of_singleton) p).
  assert (Hin : x ∈ filter (fun y => y.1 = x.1) (ps p)) by (by apply list_elem_of_filter).
  rewrite Ho in Hin. by apply not_elem_of_nil in Hin.
Qed.

(** ** [cons_options] *)
Section packets.
Context `{HostOrder} {expr : Type}.
Context (all_universes : list universe) (dhcp_universe fqdn_universe : universe).
Context (vendor_cfg_option : option (universe * Z)) (enc_opts : list (option (Z * Z))).
Context (evaluate_data_expression : expr -> option (list Z)).
Context (option_space_encapsulate : list Z -> option (list Z)).
Context (buffer_available : Z -> bool) (h : heap).

#[local] Abbreviation value cfg terminate vuname :=
  (option_value all_universes dhcp_universe vendor_cfg_option evaluate_data_expression
     option_space_encapsulate buffer_available h cfg terminate vuname).
#[local] Abbreviation store_laid :=
  (store_options_laid all_universes dhcp_universe vendor_cfg_option evaluate_data_expression
     option_space_encapsulate buffer_available h).
#[local] Abbreviation agent_options :=
  (agent_options all_universes dhcp_universe vendor_cfg_option evaluate_data_expression
     option_space_encapsulate buffer_available h).
#[local] Abbreviation cons :=
  (cons_options all_universes dhcp_universe fqdn_universe vendor_cfg_option enc_opts
     evaluate_data_expression option_space_encapsulate buffer_available h).
#[local] Abbreviation list_of := (priorities dhcp_universe fqdn_universe enc_opts).

(** The agent options to echo. *)
Definition agent_part (client : bool) (cfg : option_state expr) (agent : list hunk) : Prop :=
  if client then agent = []
  else Forall (fun x => x.1 = DHO_DHCP_AGENT_OPTIONS) agent /\
       (agent = [] \/ exists d t, value cfg false false DHO_DHCP_AGENT_OPTIONS = Done (Some (d, t)) /\
                                  concat (snd <$> agent) = full d t).

Lemma agent_client client cfg agent : agent_part client cfg agent -> client = true -> agent = [].
Proof. unfold agent_part. by intros Ha ->. Qed.

Lemma agent_options_ok agentopts client cfg :
  zlen agentopts = 1024 -> wf_value (value cfg false false) DHO_DHCP_AGENT_OPTIONS ->
  exists a agent, agent_options agentopts client cfg = Done (a, zlen (wire agent)) /\
    at_ a 0 (wire agent) /\ zlen (wire agent) < 1024 /\ Forall wf_hunk agent /\ agent_part client cfg agent.
Proof.
  intros Hz Hv. unfold OptionOut.agent_options, agent_part. destruct client.
  { exists agentopts, []. split_and!; [done| |done|constructor|done]. unfold at_. by rewrite rdn_in by (change (zlen (wire [])) with 0; lia). }
  destruct (store_laid agentopts 0 (zlen agentopts) cfg [DHO_DHCP_AGENT_OPTIONS] 0 0 false false)
    as (a & ps & -> & Hl & Hc).
  - split; simpl; rewrite ?Hz; lia.
  - by constructor.
  - dred. destruct Hl as [_ _ Hm Hf Hs [Hr _] Hw]. destruct Hc as [C1 C2 _].
    exists a, (ps PMain). rewrite Hz in Hr. unfold main_end in Hr. simpl in Hr.
    split_and!; [done|done|lia|apply Hw| |].
    + by eapply hunks_only.
    + assert (Hnil : ps PFirst = [] /\ ps PSecond = []).
      { split; [destruct (ps PFirst)|destruct (ps PSecond)]; try done; [by destruct (Hf eq_refl)|by destruct (Hs eq_refl)]. }
      destruct Hnil as [N1 N2].
      assert (Ha : hunks DHO_DHCP_AGENT_OPTIONS ps = ps PMain).
      { unfold hunks. rewrite N1, N2, !app_nil_r. by eapply filter_all, hunks_only. }
      destruct (C2 DHO_DHCP_AGENT_OPTIONS) as [E|(d & t & Ed & Ev)]; [by constructor| |].
      * left. by rewrite <- Ha.
      * right. exists d, t. split; [done|]. unfold value_in in Ev. by rewrite Ha in Ev.
Qed.

Lemma main_size_range inpacket m bootpp :
  (forall p, inpacket = Some p -> in_length p < 2 ^ 31) ->
  64 <= main_size (expr := expr) inpacket m bootpp < 2 ^ 31 /\
  (bootpp = false -> main_size inpacket m bootpp <= DHCP_MAX_OPTION_LEN).
Proof.
  intros Hp. unfold main_size, DHCP_MIN_OPTION_LEN, DHCP_MAX_OPTION_LEN, DHCP_MTU_MIN, DHCP_MTU_MAX, DHCP_FIXED_LEN,
    DHCP_FIXED_NON_UDP, DHCP_UDP_OVERHEAD.
  destruct (m =? 0); simpl negb; cbv iota; [|repeat zcase; lia].
  destruct bootpp; [|lia]. destruct inpacket as [p|]; [|lia]. specialize (Hp p eq_refl). zcase; lia.
Qed.

(** The division of the buffer. *)
Definition limit_of (size agent_size : Z) : Z := if agent_size <? size then size - agent_size else size.
Definition of1_of (avail limit : Z) : Z := if Z.testbit avail 0 then limit else 0.
Definition max1_of (avail limit : Z) : Z := if Z.testbit avail 0 then limit + DHCP_FILE_LEN else limit.
Definition of2_of (avail limit : Z) : Z := if Z.testbit avail 1 then max1_of avail limit else 0.
Definition max2_of (avail limit : Z) : Z :=
  if Z.testbit avail 1 then max1_of avail limit + DHCP_SNAME_LEN else max1_of avail limit.

Lemma division_ok avail limit :
  64 <= limit <= DHCP_MAX_OPTION_LEN ->
  wf_args 4 (max2_of avail limit) (of1_of avail limit) (of2_of avail limit) 4096 /\
  main_end (max2_of avail limit) (of1_of avail limit) (of2_of avail limit) = limit /\
  (of1_of avail limit <> 0 -> limit = of1_of avail limit /\
     first_end (max2_of avail limit) (of2_of avail limit) - of1_of avail limit = DHCP_FILE_LEN) /\
  (of2_of avail limit <> 0 -> limit <= of2_of avail limit /\
     max2_of avail limit - of2_of avail limit = DHCP_SNAME_LEN).
Proof.
  intros Hl. unfold main_end, first_end, max2_of, of2_of, max1_of, of1_of, DHCP_FILE_LEN, DHCP_SNAME_LEN in *.
  assert (limit <= 1236) by exact (proj2 Hl).
  destruct (Z.testbit avail 0), (Z.testbit avail 1); (split; [split|split_and!]; simpl; intros; repeat zcase; try lia).
Qed.

(** What the caller finds: the fields of the packet and its length. *)
Record packet_of (ps : parts) (agent : list hunk) (size : Z) (out out' : out_packet) (len : Z) : Prop := {
  po_length : 0 < len - DHCP_FIXED_NON_UDP <= size;
  po_options : let l := DHCP_OPTIONS_COOKIE ++ wire (body ps agent) in
    take (Z.to_nat (len - DHCP_FIXED_NON_UDP)) (out_options out') = l ++ tail_of l size /\
    len = DHCP_FIXED_NON_UDP + zlen (l ++ tail_of l size) /\ zlen (out_options out') = zlen (out_options out);
  po_file : out_file out' = if used (ps PFirst) then ended (ps PFirst) DHCP_FILE_LEN else out_file out;
  po_sname : out_sname out' = if used (ps PSecond) then ended (ps PSecond) DHCP_SNAME_LEN else out_sname out;
  po_file_len : zlen (out_file out') = DHCP_FILE_LEN;
  po_sname_len : zlen (out_sname out') = DHCP_SNAME_LEN }.

Definition packet_size inpacket (m : Z) (bootpp client : bool) (agent : list hunk) : Z :=
  with_agent client (main_size (expr := expr) inpacket m bootpp) (zlen (wire agent)).

(** The arrays have the sizes the code declares; a client never asks for a
    BOOTP packet. *)
Record wf_cons (buffer agentopts : list Z) (inpacket : option (in_packet (expr := expr))) (out : out_packet)
    (client bootpp : bool) : Prop := {
  wk_buffer : zlen buffer = 4096;
  wk_agentopts : zlen agentopts = 1024;
  wk_sname : zlen (out_sname out) = DHCP_SNAME_LEN;
  wk_file : zlen (out_file out) = DHCP_FILE_LEN;
  wk_options : zlen (out_options out) = DHCP_MAX_OPTION_LEN;
  wk_length : forall p, inpacket = Some p -> in_length p < 2 ^ 31;
  wk_bootp : client = true -> bootpp = false }.

Lemma packet_size_range buffer agentopts inpacket out client bootpp m agent :
  wf_cons buffer agentopts inpacket out client bootpp -> zlen (wire agent) < 1024 ->
  (client = true -> agent = []) ->
  zlen (wire agent) + 64 <= packet_size inpacket m bootpp client agent <= DHCP_MAX_OPTION_LEN.
Proof.
  intros [_ _ _ _ _ Hl Hb] Ha Hc. destruct (main_size_range inpacket m bootpp Hl) as [H1 H2].
  pose proof (zlen_nonneg (wire agent)). unfold packet_size, with_agent. destruct client.
  - rewrite (Hc eq_refl) in *. change (zlen (wire [])) with 0 in *. specialize (H2 (Hb eq_refl)). lia.
  - unfold u32. rewrite Z.mod_small by lia. change DHCP_MAX_OPTION_LEN with 1236. lia.
Qed.

Section finishing.
Context (b a : list Z) (of1 of2 limit size : Z) (ps : parts) (agent : list hunk) (out : out_packet).
Hypothesis Hat : at_ b 0 (DHCP_OPTIONS_COOKIE ++ wire (ps PMain)).
Hypothesis Hb : zlen b = 4096.
Hypothesis Ha : at_ a 0 (wire agent).
Hypothesis Hlim : limit = size - zlen (wire agent).
Hypothesis Hsize : size <= 1236 /\ 0 < limit.
Hypothesis Hroom0 : 4 + zlen (wire (ps PMain)) < limit.
Hypothesis Hroom : overload ps <> 0 -> 4 + zlen (wire (ps PMain)) + 3 <= limit.
Hypothesis Hfirst : used (ps PFirst) = true -> limit <= of1 /\ ended_at b of1 (ps PFirst) DHCP_FILE_LEN.
Hypothesis Hsecond : used (ps PSecond) = true -> limit <= of2 /\ ended_at b of2 (ps PSecond) DHCP_SNAME_LEN.
Hypothesis Hfile : zlen (out_file out) = DHCP_FILE_LEN.
Hypothesis Hsname : zlen (out_sname out) = DHCP_SNAME_LEN.
Hypothesis Hopts : zlen (out_options out) = DHCP_MAX_OPTION_LEN.

(** The check that the overload option fits never fails. *)
Lemma overload_fits :
  (negb (overload ps =? 0) && (u32 (size - zlen (wire agent) - (4 + zlen (wire (ps PMain)))) <? 3)) = false.
Proof.
  pose proof (zlen_nonneg (wire (ps PMain))). pose proof (zlen_nonneg (wire agent)).
  destruct (Z.eqb_spec (overload ps) 0) as [|N]; [done|]. simpl. specialize (Hroom N). apply Z.ltb_ge.
  unfold u32. rewrite Z.mod_small; lia.
Qed.

Lemma finish_packet_ok :
  exists out' len,
    finish_packet b (overload ps) (zlen (wire (ps PMain))) of1 of2 a (zlen (wire agent)) size out = Done (out', len) /\
    (if used (ps PMain) then packet_of ps agent size out out' len else out' = out /\ len = 0).
Proof.
  unfold finish_packet. pose proof (zlen_nonneg (wire (ps PMain))) as Hpm. pose proof (zlen_nonneg (wire agent)) as Hn.
  destruct (used (ps PMain)) eqn:U; rewrite <- used_wire in U; [|rewrite (proj1 (negb_false_iff _) U); by eauto].
  rewrite (proj1 (negb_true_iff _) U), overload_fits.
  destruct (put_overload_ok b of1 of2 limit ps out) as (b1 & -> & Z1 & A1); [done|done|lia| | |done|done|].
  { intros U1. destruct (Hfirst U1) as (? & L & A). split_and!; [done|done|by apply zlen_ended]. }
  { intros U2. destruct (Hsecond U2) as (? & L & A). split_and!; [done|done|by apply zlen_ended]. }
  dred. set (body1 := DHCP_OPTIONS_COOKIE ++ wire (ps PMain ++ overload_option ps)) in *.
  assert (Hb1 : 4 + zlen (wire (ps PMain ++ overload_option ps)) = zlen body1) by (unfold body1; by rewrite zlen_app).
  rewrite Hb1. assert (Hfit : zlen body1 <= limit).
  { rewrite <- Hb1, wire_app, zlen_app, zlen_overload_option. destruct (Z.eqb_spec (overload ps) 0); [lia|]. specialize (Hroom n). lia. }
  destruct (put_agent_ok b1 (zlen body1) body1 a agent size) as (b2 & -> & Z2 & A2); [done|done|done|lia|lia|].
  dred. rewrite <- zlen_app.
  assert (Hbody : body1 ++ wire agent = DHCP_OPTIONS_COOKIE ++ wire (body ps agent)).
  { unfold body1, body. by rewrite <- app_assoc, <- wire_app, <- app_assoc. }
  assert (Hall : zlen (body1 ++ wire agent) <= size) by (rewrite zlen_app; lia).
  assert (Hall4 : 4 <= zlen (body1 ++ wire agent)) by (rewrite zlen_app, <- Hb1; pose proof (zlen_nonneg (wire (ps PMain ++ overload_option ps))); lia).
  rewrite Hbody in *. set (all := DHCP_OPTIONS_COOKIE ++ wire (body ps agent)) in *.
  destruct (put_end_ok b2 all size A2) as (b3 & -> & A3 & L3); [lia|]. dred. rewrite A3. dred.
  change DHCP_MAX_OPTION_LEN with 1236 in Hopts.
  destruct (wrn_ok (out_options (fields ps out)) 0 (all ++ tail_of all size)) as (o & Eo);
    [lia|change (out_options (fields ps out)) with (out_options out); lia|].
  rewrite Eo. dred. do 2 eexists. split; [done|]. pose proof (zlen_nonneg (tail_of all size)) as Hna.
  pose proof (wrn_zlen _ _ _ _ Eo) as Zo. simpl in Zo.
  split; fold all; replace (DHCP_FIXED_NON_UDP + zlen (all ++ tail_of all size) - DHCP_FIXED_NON_UDP)
    with (zlen (all ++ tail_of all size)) by lia.
  - rewrite zlen_app in L3 |- *. lia.
  - cbv zeta. split_and!; [|done|done]. pose proof (rdn_wrn_same _ _ _ _ Eo) as R.
    rewrite rdn_in in R; [by injection R|lia|apply zlen_nonneg|lia].
  - done.
  - done.
  - simpl. destruct (used (ps PFirst)); [|done]. destruct (Hfirst eq_refl) as (? & L & _). by apply zlen_ended.
  - simpl. destruct (used (ps PSecond)); [|done]. destruct (Hsecond eq_refl) as (? & L & _). by apply zlen_ended.
Qed.
End finishing.

Lemma cons_options_ok buffer agentopts inpacket out client mms m cfg avail terminate bootpp prl vuname :
  wf_cons buffer agentopts inpacket out client bootpp ->
  client_mms dhcp_universe evaluate_data_expression h inpacket mms = Done m ->
  wf_config dhcp_universe fqdn_universe inpacket cfg ->
  (forall c, wf_value (value cfg terminate vuname) c) ->
  wf_value (value cfg false false) DHO_DHCP_AGENT_OPTIONS ->
  exists l ps agent,
    list_of inpacket cfg prl = Done l /\ wf_parts ps /\ Forall wf_hunk agent /\ zlen (wire agent) < 1024 /\
    contents (value cfg terminate vuname) l 4 (packet_size inpacket m bootpp client agent - zlen (wire agent)) ps /\
    agent_part client cfg agent /\
    exists out' len,
      cons buffer agentopts inpacket out client mms cfg avail terminate bootpp prl vuname = Done (out', len) /\
      (if used (ps PMain) then packet_of ps agent (packet_size inpacket m bootpp client agent) out out' len
       else out' = out /\ len = 0).
Proof.
  intros Hw Hm Hcfg Hv Hva. pose proof Hw as [W1 W2 W3 W4 W5 W6 W7]. unfold cons_options. rewrite Hm. dred.
  destruct (agent_options_ok agentopts client cfg W2 Hva) as (a & agent & -> & Ha & Hsz & Hwf & Hpart). dred.
  pose proof (agent_client client cfg agent Hpart) as Hcl.
  pose proof (packet_size_range _ _ _ _ _ _ m agent Hw Hsz Hcl) as Hps. fold (packet_size inpacket m bootpp client agent).
  set (size := packet_size inpacket m bootpp client agent) in *. pose proof (zlen_nonneg (wire agent)) as Hn.
  fold (limit_of size (zlen (wire agent))). set (limit := limit_of size (zlen (wire agent))).
  assert (Hlim : limit = size - zlen (wire agent)) by (unfold limit, limit_of; by rewrite (proj2 (Z.ltb_lt _ _)) by lia).
  fold (of1_of avail limit) (max1_of avail limit). fold (of2_of avail limit) (max2_of avail limit).
  destruct (division_ok avail limit) as (Hargs & Hend & H1 & H2); [lia|].
  destruct (priorities_ok dhcp_universe fqdn_universe enc_opts inpacket cfg prl Hcfg) as (l & El). rewrite El. dred.
  destruct (wrn_ok buffer 0 DHCP_OPTIONS_COOKIE) as (b0 & E0); [lia|change (zlen DHCP_OPTIONS_COOKIE) with 4; lia|].
  rewrite E0. dred.
  pose proof (wrn_zlen _ _ _ _ E0) as Z0. rewrite <- W1, <- Z0 in Hargs.
  destruct (store_laid b0 4 (max2_of avail limit) cfg l (of1_of avail limit) (of2_of avail limit) terminate vuname)
    as (b & ps & -> & Hlaid & Hct); [done|by apply Forall_forall|]. dred. rewrite Hend, Hlim in Hct.
  exists l, ps, agent. split_and!; [done|apply Hlaid|done|done|done|done|].
  destruct Hlaid as [Lz Lh Lm Lf Ls [Lr0 Lr] _]. rewrite Hend in Lr0, Lr.
  apply (finish_packet_ok b a (of1_of avail limit) (of2_of avail limit) limit size ps agent out); try done; try lia.
  - apply rdn_app. change (0 + zlen DHCP_OPTIONS_COOKIE) with 4. split; [|exact Lm].
    rewrite rdn_in by (change (zlen DHCP_OPTIONS_COOKIE) with 4; lia).
    change (Z.to_nat (zlen DHCP_OPTIONS_COOKIE)) with (Z.to_nat 4). change (drop (Z.to_nat 0) b) with b. rewrite Lh.
    pose proof (rdn_wrn_same _ _ _ _ E0) as R. rewrite rdn_in in R by (change (zlen DHCP_OPTIONS_COOKIE) with 4; lia).
    exact R.
  - change DHCP_MAX_OPTION_LEN with 1236 in Hps. lia.
  - intros U1. destruct (Lf U1) as (N & A). destruct (H1 N) as [E1 E2]. rewrite E2 in A. split; [lia|done].
  - intros U2. destruct (Ls U2) as (N & A). destruct (H2 N) as [E1 E2]. rewrite E2 in A. split; [lia|done].
Qed.
(** C2: [cons_options] assembles a correct packet within all its limits.  On
    arrays of the declared sizes it makes no access out of bounds and none of
    the fatal checks of [store_options] fails.  When at least one option was
    put into the options field, the packet has there the cookie, the stored
    options, the overload option (exactly when the file or server name field
    is used), the relay agent options, which always fit, and an end mark unless
    the field is full; the fields that are used hold options with an end mark
    and padding, the others are unchanged.  Without the echoed agent options
    the message is no longer than the client allowed (and 576 bytes when it
    allowed less). *)
Theorem cons_options_correct buffer agentopts inpacket out client mms m cfg avail terminate bootpp prl vuname :
  wf_cons buffer agentopts inpacket out client bootpp ->
  client_mms dhcp_universe evaluate_data_expression h inpacket mms = Done m ->
  wf_config dhcp_universe fqdn_universe inpacket cfg ->
  (forall c, wf_value (value cfg terminate vuname) c) ->
  wf_value (value cfg false false) DHO_DHCP_AGENT_OPTIONS ->
  exists l ps agent out' len,
    cons buffer agentopts inpacket out client mms cfg avail terminate bootpp prl vuname = Done (out', len) /\
    list_of inpacket cfg prl = Done l /\
    agent_part client cfg agent /\
    (forall c, c ∉ l -> hunks c ps = []) /\
    (forall c, c ∈ l -> in_or_out (value cfg terminate vuname) c ps) /\
    (if used (ps PMain) then packet_of ps agent (packet_size inpacket m bootpp client agent) out out' len
     else out' = out /\ len = 0) /\
    (m <> 0 -> len + DHCP_UDP_OVERHEAD - zlen (wire agent) <= Z.max DHCP_MTU_MIN m).
Proof.
  intros Hw Hm Hcfg Hv Hva.
  destruct (cons_options_ok buffer agentopts inpacket out client mms m cfg avail terminate bootpp prl vuname Hw Hm Hcfg Hv Hva)
    as (l & ps & agent & El & _ & Hwa & _ & [C1 C2 _] & Ha & out' & len & E & P).
  exists l, ps, agent, out', len. split_and!; try done. intros Nm.
  pose proof (zlen_nonneg (wire agent)) as Hn. destruct (used (ps PMain)).
  - destruct P as [[_ Pl] _ _ _ _ _]. revert Pl. unfold packet_size, with_agent, main_size.
    rewrite (proj2 (Z.eqb_neq m 0)) by done. simpl negb. cbv iota. unfold u32.
    unfold DHCP_MIN_OPTION_LEN, DHCP_MAX_OPTION_LEN, DHCP_MTU_MIN, DHCP_MTU_MAX, DHCP_FIXED_LEN,
      DHCP_FIXED_NON_UDP, DHCP_UDP_OVERHEAD.
    assert (Hmod : forall x, 0 <= x -> x mod 2 ^ 32 <= x) by (intros; apply Z.mod_le; lia).
    destruct client; repeat zcase; intros Pl; try lia; match type of Pl with context [?x mod _] => pose proof (Hmod x) end; lia.
  - destruct P as [_ ->]. unfold DHCP_UDP_OVERHEAD, DHCP_MTU_MIN. lia.
Qed.
End packets.

(** ** Reading the packet back *)
Section roundtrip.
Context `{Allocator} {expr : Type}.
Context (U : list universe) (fqdn_universe : universe) (enum_width : list ascii -> option Z).
Hypothesis memory : forall n, mem_ok n = true.
Context (u : universe) (Hu : octet_space enum_width u).

(** The values of options that are not text. *)
Definition plain (c : Z) : Prop := format_has_text (format_of u c) = false.

Lemma receive_all l : forall m c,
  fold_left (receive enum_width u) l m c =
    match filter (fun x => x.1 = c) l with
    | [] => m c
    | x :: hs => Some (match m c with Some old => old ++ x.2 | None => first_value enum_width u c x.2 end ++ concat (snd <$> hs))
    end.
Proof.
  induction l as [|[c' d] l IH]; intros m c; [done|]. simpl fold_left. rewrite IH, filter_cons.
  assert (E : receive enum_width u m (c', d) c =
    if decide (c' = c) then Some (match m c with Some old => old ++ d | None => first_value enum_width u c d end) else m c).
  { unfold receive. simpl. destruct (Z.eqb_spec c c'), (decide (c' = c)); congruence. }
  rewrite E. simpl. unfold hunk in *. destruct (decide (c' = c)); [|done].
  match goal with |- context [filter ?P l] => destruct (filter P l) as [|x hs] end; simpl;
    by rewrite ?app_nil_r, <- ?app_assoc.
Qed.

Lemma represents_lookup h (st : option_state expr) m c :
  represents u h st m ->
  match m c with
  | Some v => exists e, lookup_option u st c = Done (Some e) /\ entry_holds h e v
  | None => lookup_option u st c = Done None
  end.
Proof.
  intros [Hwf Hr]. pose proof (container_space (expr := expr) u (os_container _ u Hu)) as Hsp.
  rewrite space_lookup by done. specialize (Hr c). destruct (space_get u st c) as [e|].
  - destruct Hr as (bs & He & ->). eauto.
  - by rewrite Hr.
Qed.
(** The options in the order in which the parser meets them. *)
Definition all_hunks (ps : parts) (agent : list hunk) : list hunk :=
  body ps agent ++ ps PFirst ++ ps PSecond.

#[local] Abbreviation got l := (fold_left (receive enum_width u) l (fun _ => None)).
#[local] Abbreviation readable l := (Forall (fun x => wf_hunk x /\ flat u x.1) l).

(** The overload option is read back wherever the parser looks at it. *)
Lemma overload_read h (st : option_state expr) m v :
  represents u h st m -> m DHO_DHCP_OPTION_OVERLOAD = Some [v] ->
  overload_value u h st = Done v.
Proof.
  intros Hr Hm. pose proof (represents_lookup h st m DHO_DHCP_OPTION_OVERLOAD Hr) as R. rewrite Hm in R.
  destruct R as (e & El & (ds & Eds & Hh & _)). unfold overload_value. rewrite El. dred.
  unfold first_byte. rewrite Eds. unfold get_byte. pose proof (holds_read _ _ _ _ Hh) as Rd.
  change (zlen [v]) with 1 in Rd. rewrite Rd. done.
Qed.

(** One of the other fields, which is parsed when its bit is set. *)
Lemma field_read h (st : option_state expr) m l size old (used : bool) v bit :
  represents u h st m -> readable l -> OptionLayout.used l = used -> zlen (wire l) < size < 2 ^ 31 ->
  negb (Z.land v bit =? 0) = used -> zlen (if used then ended l size else old) = size ->
  exists h' st',
    (if negb (Z.land v bit =? 0)
     then parse_option_buffer U fqdn_universe enum_width h st (if used then ended l size else old)
            (zlen (if used then ended l size else old)) u
     else Done (h, st, true)) = Done (h', st', true) /\
    represents u h' st' (fold_left (receive enum_width u) l m).
Proof.
  intros Hr Hl Hu' Hs -> Hz. destruct used.
  - destruct (parse_wire U fqdn_universe enum_width memory u h st m l
      (DHO_END :: replicate (Z.to_nat (size - zlen (wire l) - 1)) DHO_PAD) [] Hu Hr Hl) as (h' & st' & E & R).
    + by right.
    + fold (ended l size). lia.
    + fold (ended l size) in E. rewrite app_nil_r in E. eauto.
  - exists h, st. split; [done|]. by destruct l.
Qed.
Lemma part_small l size old :
  zlen (if used l then ended l size else old) = size -> 0 < size -> zlen (wire l) < size.
Proof.
  intros Hz Hs. destruct l as [|x l]; [done|]. cbn [used] in Hz. unfold ended in Hz.
  rewrite zlen_app, zlen_cons, zlen_replicate in Hz. lia.
Qed.

Lemma first_value_plain c d : plain c -> first_value enum_width u c d = d.
Proof. unfold plain, first_value. by intros ->. Qed.

(** What is found of the overload option when no option has its code. *)
Lemma got_overload ps agent rest :
  plain DHO_DHCP_OPTION_OVERLOAD -> hunks DHO_DHCP_OPTION_OVERLOAD ps = [] ->
  Forall (fun x => x.1 = DHO_DHCP_AGENT_OPTIONS) agent ->
  filter (fun x => x.1 = DHO_DHCP_OPTION_OVERLOAD) rest = [] ->
  got (body ps agent ++ rest) DHO_DHCP_OPTION_OVERLOAD = if overload ps =? 0 then None else Some [overload ps].
Proof.
  intros Hp Hn Ha Hr. rewrite receive_all. unfold body. rewrite hunks_nil in Hn. specialize (Hn PMain).
  unfold hunk in *. rewrite !filter_app, Hr, Hn.
  assert (filter (fun x : Z * list Z => x.1 = DHO_DHCP_OPTION_OVERLOAD) agent = []) as ->.
  { apply filter_none. eapply Forall_impl; [exact Ha|]. by intros x ->. }
  rewrite !app_nil_r. unfold overload_option. simpl app. destruct (overload ps =? 0); [done|].
  rewrite filter_cons_True by done. simpl. by rewrite first_value_plain.
Qed.

Section packet.
Context (ps : parts) (agent : list hunk) (size : Z) (out out' : out_packet) (len : Z).
Hypothesis Hpk : packet_of ps agent size out out' len.
Hypothesis Hsz : size <= DHCP_MAX_OPTION_LEN.
Hypothesis Hread : readable (all_hunks ps agent).
Hypothesis Hplain : plain DHO_DHCP_OPTION_OVERLOAD.
Hypothesis Hnone : hunks DHO_DHCP_OPTION_OVERLOAD ps = [].
Hypothesis Hagent : Forall (fun x => x.1 = DHO_DHCP_AGENT_OPTIONS) agent.

Lemma options_field_read h (st : option_state expr) :
  represents u h st (fun _ => None) ->
  rdn (out_options out') 0 4 = Done DHCP_OPTIONS_COOKIE /\
  exists h' st',
    parse_option_buffer U fqdn_universe enum_width h st (drop 4 (out_options out'))
      (u32 (len - DHCP_FIXED_NON_UDP - 4)) u = Done (h', st', true) /\
    represents u h' st' (got (body ps agent)).
Proof.
  intros Hr. destruct Hpk as [Pl (Po & Plen & Pz) _ _ _ _]. set (l := DHCP_OPTIONS_COOKIE ++ wire (body ps agent)) in *.
  set (k := Z.to_nat (len - DHCP_FIXED_NON_UDP)) in *.
  pose proof (take_drop k (out_options out')) as Eo. rewrite Po in Eo. unfold l in Eo. rewrite <- !app_assoc in Eo.
  change DHCP_MAX_OPTION_LEN with 1236 in Hsz. set (w := wire (body ps agent) ++ tail_of l size).
  assert (Hw : len - DHCP_FIXED_NON_UDP - 4 = zlen w).
  { rewrite Plen. unfold l at 1. rewrite <- app_assoc, zlen_app. fold w. change (zlen DHCP_OPTIONS_COOKIE) with 4. lia. }
  split.
  - rewrite <- Eo. apply (rdn_middle [] DHCP_OPTIONS_COOKIE).
  - pose proof (zlen_nonneg w). rewrite Hw. unfold u32. rewrite Z.mod_small by lia.
    rewrite <- Eo. change 4%nat with (length DHCP_OPTIONS_COOKIE). rewrite drop_app_length, app_assoc. fold w.
    apply (parse_wire U fqdn_universe enum_width memory u h st (fun _ => None) (body ps agent)
      (tail_of l size)); [done|done| | |fold w; unfold DHCP_FIXED_NON_UDP in *; lia].
    + by apply Forall_app in Hread as [? _].
    + unfold tail_of. destruct (_ <? _); [by right|by left].
Qed.

Lemma packet_read h (st : option_state expr) valid :
  represents u h st (fun _ => None) ->
  exists h' st',
    parse_options U fqdn_universe enum_width u h
      (mk_packet len (out_sname out') (out_file out') (out_options out') st valid)
      = Done (h', mk_packet len (out_sname out') (out_file out') (out_options out') st' true, true) /\
    represents u h' st' (got (all_hunks ps agent)).
Proof.
  intros Hr. destruct (options_field_read h st Hr) as (Ec & h1 & st1 & E1 & R1).
  destruct Hpk as [_ _ Pf Ps Zf Zs]. pose proof Hread as Hrd. apply Forall_app in Hrd as [_ Hrd].
  apply Forall_app in Hrd as [Hr1 Hr2]. rewrite hunks_nil in Hnone.
  unfold parse_options. cbn [raw_options raw_file raw_sname packet_length pkt_options options_valid]. rewrite Ec. dred.
  rewrite bool_decide_eq_true_2 by done. simpl negb. cbv iota. rewrite E1. dred. simpl negb. cbv iota.
  pose proof (represents_lookup h1 st1 _ DHO_DHCP_OPTION_OVERLOAD R1) as Lk.
  pose proof (got_overload ps agent [] Hplain ltac:(by rewrite hunks_nil) Hagent eq_refl) as Gv.
  rewrite app_nil_r in Gv. rewrite Gv in Lk. destruct (Z.eqb_spec (overload ps) 0) as [E0|N0].
  - rewrite Lk. dred. exists h1, st1. split; [done|]. unfold all_hunks.
    destruct (overload_cases ps) as [(U1 & U2 & _)|[(_ & _ & ?)|[(_ & _ & ?)|(_ & _ & ?)]]]; try lia.
    destruct (ps PFirst), (ps PSecond); try done. by rewrite !app_nil_r.
  - destruct Lk as (e & El & _). rewrite El. dred. rewrite (overload_read h1 st1 _ _ R1 Gv). dred.
    rewrite Pf in Zf |- *. rewrite Ps in Zs |- *.
    pose proof (part_small _ _ _ Zf eq_refl). pose proof (part_small _ _ _ Zs eq_refl).
    destruct (field_read h1 st1 _ (ps PFirst) DHCP_FILE_LEN (out_file out) (used (ps PFirst)) (overload ps) 1 R1)
      as (h2 & st2 & -> & R2); [done|done|by split| |done|].
    { destruct (overload_cases ps) as [(-> & _ & ->)|[(-> & _ & ->)|[(-> & _ & ->)|(-> & _ & ->)]]]; done. }
    dred. simpl negb. cbv iota.
    assert (Gv2 : fold_left (receive enum_width u) (ps PFirst) (got (body ps agent)) DHO_DHCP_OPTION_OVERLOAD = Some [overload ps]).
    { rewrite <- fold_left_app, got_overload by (rewrite ?hunks_nil; done). by rewrite (proj2 (Z.eqb_neq _ _)). }
    rewrite (overload_read h2 st2 _ _ R2 Gv2). dred.
    destruct (field_read h2 st2 _ (ps PSecond) DHCP_SNAME_LEN (out_sname out) (used (ps PSecond)) (overload ps) 2 R2)
      as (h3 & st3 & -> & R3); [done|done|by split| |done|].
    { destruct (overload_cases ps) as [(_ & -> & ->)|[(_ & -> & ->)|[(_ & -> & ->)|(_ & -> & ->)]]]; done. }
    dred. simpl negb. cbv iota. exists h3, st3. split; [done|]. unfold all_hunks. by rewrite !fold_left_app.
Qed.
End packet.
End roundtrip.

Section sent_and_read.
Context `{HostOrder} `{Allocator} {expr expr' : Type}.
Context (all_universes : list universe) (u fqdn_universe : universe).
Context (vendor_cfg_option : option (universe * Z)) (enc_opts : list (option (Z * Z))).
Context (evaluate_data_expression : expr -> option (list Z)).
Context (option_space_encapsulate : list Z -> option (list Z)).
Context (buffer_available : Z -> bool) (h : heap).
Context (enum_width : list ascii -> option Z).
Hypothesis memory : forall n, mem_ok n = true.
Hypothesis Hu : octet_space enum_width u.

#[local] Abbreviation value cfg terminate vuname :=
  (option_value all_universes u vendor_cfg_option evaluate_data_expression
     option_space_encapsulate buffer_available h cfg terminate vuname).

(** The options that are sent can be read by an octet-for-octet parser: none of
    them is itself a space, and no overload option is configured. *)
Record sendable (cfg : option_state expr) (terminate vuname : bool) : Prop := {
  sb_values : forall c, wf_value (value cfg terminate vuname) c;
  sb_agent : wf_value (value cfg false false) DHO_DHCP_AGENT_OPTIONS;
  sb_flat : forall c v, value cfg terminate vuname c = Done (Some v) -> flat u c;
  sb_flat_agent : forall v, value cfg false false DHO_DHCP_AGENT_OPTIONS = Done (Some v) -> flat u DHO_DHCP_AGENT_OPTIONS;
  sb_overload : value cfg terminate vuname DHO_DHCP_OPTION_OVERLOAD = Done None;
  sb_overload_flat : flat u DHO_DHCP_OPTION_OVERLOAD;
  sb_overload_plain : plain u DHO_DHCP_OPTION_OVERLOAD }.

Lemma sendable_readable cfg terminate vuname client (l : list Z) ps agent :
  sendable cfg terminate vuname ->
  wf_parts ps -> Forall wf_hunk agent ->
  (forall c, c ∉ l -> hunks c ps = []) ->
  (forall c, c ∈ l -> in_or_out (value cfg terminate vuname) c ps) ->
  agent_part all_universes u vendor_cfg_option evaluate_data_expression option_space_encapsulate
    buffer_available h client cfg agent ->
  Forall (fun x => wf_hunk x /\ flat u x.1) (all_hunks ps agent) /\
  Forall (fun x => x.1 = DHO_DHCP_AGENT_OPTIONS) agent /\ hunks DHO_DHCP_OPTION_OVERLOAD ps = [].
Proof.
  intros [_ _ Hf Hfa Ho Hof _] Hw Hwa Hout Hin Ha.
  assert (Hcode : forall p x, x ∈ ps p -> flat u x.1).
  { intros p x Hx. assert (hunks x.1 ps <> []) as N.
    { rewrite hunks_nil. intros E. specialize (E p). assert (Hy : x ∈ filter (fun y => y.1 = x.1) (ps p)) by (by apply list_elem_of_filter).
      rewrite E in Hy. by apply not_elem_of_nil in Hy. }
    destruct (decide (x.1 ∈ l)) as [Hl|Hl]; [|by rewrite Hout in N].
    destruct (Hin _ Hl) as [?|(d & t & E & _)]; [done|]. by eapply Hf. }
  assert (Hps : forall p, Forall (fun x => wf_hunk x /\ flat u x.1) (ps p)).
  { intros p. apply Forall_forall. intros x Hx. split; [|by eapply Hcode]. specialize (Hw p).
    rewrite Forall_forall in Hw. by apply Hw. }
  assert (Hag : Forall (fun x => x.1 = DHO_DHCP_AGENT_OPTIONS) agent /\ (agent <> [] -> flat u DHO_DHCP_AGENT_OPTIONS)).
  { unfold agent_part in Ha. destruct client; [subst; by split; [constructor|]|]. destruct Ha as [Ha [->|(d & t & E & _)]].
    - split; [constructor|done].
    - split; [done|]. intros _. by eapply Hfa. }
  destruct Hag as [Hag1 Hag2]. split_and!; [|done|].
  - apply Forall_app; split; [|by apply Forall_app; split].
    apply Forall_app; split; [done|]. apply Forall_app; split.
    + unfold overload_option. destruct (overload ps =? 0); [constructor|]. constructor; [|constructor]. split; [|done].
      destruct (overload_cases ps) as [(_ & _ & ->)|[(_ & _ & ->)|[(_ & _ & ->)|(_ & _ & ->)]]];
        (split; [done|]; split; [done|]; repeat constructor; unfold byte; lia).
    + rewrite Forall_forall in Hwa, Hag1 |- *. intros x Hx. split; [by apply Hwa|]. rewrite Hag1 by done.
      apply Hag2. by intros ->; apply not_elem_of_nil in Hx.
  - destruct (decide (DHO_DHCP_OPTION_OVERLOAD ∈ l)) as [Hl|Hl]; [|by apply Hout].
    destruct (Hin _ Hl) as [?|(d & t & E & _)]; [done|]. congruence.
Qed.

(** What the receiver stores of a value that was sent.  A value that is not
    text comes through as it is; of a text, [parse_option_buffer] drops the NUL
    characters at the end of the piece that came first. *)
Definition received (c : Z) (sent v : list Z) : Prop :=
  if format_has_text (format_of u c)
  then exists first rest, sent = first ++ rest /\ v = first_value enum_width u c first ++ rest
  else v = sent.

(** What the receiver finds of an option of the list. *)
Lemma got_option ps agent c :
  c <> DHO_DHCP_OPTION_OVERLOAD -> c <> DHO_DHCP_AGENT_OPTIONS ->
  Forall (fun x => x.1 = DHO_DHCP_AGENT_OPTIONS) agent ->
  match fold_left (receive enum_width u) (all_hunks ps agent) (fun _ => None) c with
  | None => hunks c ps = []
  | Some v => hunks c ps <> [] /\ received c (value_in c ps) v
  end.
Proof.
  intros N1 N2 Ha. rewrite (receive_all enum_width u).
  assert (E : filter (fun x : Z * list Z => x.1 = c) (all_hunks ps agent) = hunks c ps).
  { assert (F1 : filter (fun x => x.1 = c) (overload_option ps) = []).
    { apply filter_none. unfold overload_option. destruct (overload ps =? 0); repeat constructor; simpl; congruence. }
    assert (F2 : filter (fun x => x.1 = c) agent = []).
    { apply filter_none. eapply Forall_impl; [exact Ha|]. simpl. intros x ->. congruence. }
    unfold all_hunks, body, hunks, hunk in *. by rewrite !filter_app, <- !app_assoc, F1, F2. }
  unfold hunk in *. rewrite E. unfold value_in, hunk. destruct (hunks c ps) as [|x hs] eqn:Eh; [done|].
  split; [done|]. unfold received. simpl. destruct (format_has_text (format_of u c)) eqn:T; [by eauto|].
  by rewrite first_value_plain.
Qed.
(** The room in the options field, whatever the agent options are. *)
Definition sure_room (inpacket : option (in_packet (expr := expr))) (m : Z) (bootpp client : bool) : Z :=
  if client then main_size inpacket m bootpp
  else Z.min (main_size inpacket m bootpp) (DHCP_MAX_OPTION_LEN - 1023).

Lemma sure_room_le inpacket m bootpp client agent :
  (forall p, inpacket = Some p -> in_length p < 2 ^ 31) -> zlen (wire agent) < 1024 -> (client = true -> agent = []) ->
  sure_room inpacket m bootpp client <= packet_size inpacket m bootpp client agent - zlen (wire agent).
Proof.
  intros Hl Ha Hc. destruct (main_size_range inpacket m bootpp Hl) as [H1 _]. pose proof (zlen_nonneg (wire agent)).
  unfold sure_room, packet_size, with_agent, u32. destruct client; [rewrite (Hc eq_refl); simpl; change (zlen (wire [])) with 0; lia|].
  rewrite Z.mod_small by lia. lia.
Qed.

(** C1: what [cons_options] writes, [parse_options] reads, when the options sent
    are not spaces of their own, the receiver knows the option codes as single
    octets and has memory.  The receiver of a packet that [cons_options]
    assembled accepts it, with its options spread over the options, file and
    server name fields, and finds: every option of the priority list either
    missing (there was no room for all of it) or with the value that was sent,
    in however many pieces it travelled, exactly when the option is not text,
    and up to the NUL characters at the end of its first piece when it is text;
    no option that is not in the list, the overload and agent options apart;
    and if the options fit in the options field, each of them that has a
    value. *)
Theorem cons_parse_roundtrip buffer agentopts inpacket out client mms m cfg avail terminate bootpp prl vuname
    hr (st : option_state expr') valid :
  wf_cons buffer agentopts inpacket out client bootpp ->
  client_mms u evaluate_data_expression h inpacket mms = Done m ->
  wf_config u fqdn_universe inpacket cfg ->
  sendable cfg terminate vuname ->
  represents u hr st (fun _ => None) ->
  exists l out' len,
    priorities u fqdn_universe enc_opts inpacket cfg prl = Done l /\
    cons_options all_universes u fqdn_universe vendor_cfg_option enc_opts evaluate_data_expression
      option_space_encapsulate buffer_available h buffer agentopts inpacket out client mms cfg avail
      terminate bootpp prl vuname = Done (out', len) /\
    (len <> 0 ->
     exists h' p',
       parse_options all_universes fqdn_universe enum_width u hr
         (mk_packet len (out_sname out') (out_file out') (out_options out') st valid) = Done (h', p', true) /\
       options_valid p' = true /\
       (forall c, c ∉ l -> c <> DHO_DHCP_OPTION_OVERLOAD -> c <> DHO_DHCP_AGENT_OPTIONS ->
          lookup_option u (pkt_options p') c = Done None) /\
       (forall c d t, value cfg terminate vuname c = Done (Some (d, t)) -> c ∈ l ->
          lookup_option u (pkt_options p') c = Done None \/
          exists e v, lookup_option u (pkt_options p') c = Done (Some e) /\ entry_holds h' e v /\
            received c (full d t) v) /\
       (4 + total_cost (value cfg terminate vuname) (keep_first l) + 3 < sure_room inpacket m bootpp client ->
        Forall (fun c => cost (value cfg terminate vuname) c <= 257) l ->
        forall c d t, value cfg terminate vuname c = Done (Some (d, t)) -> c ∈ l -> d <> [] ->
          exists e v, lookup_option u (pkt_options p') c = Done (Some e) /\ entry_holds h' e v /\
            received c (full d t) v)).
Proof.
  intros Hw Hm Hcfg Hs Hr. pose proof Hs as [Hv Hva _ _ Ho _ Hop].
  destruct (cons_options_ok all_universes u fqdn_universe vendor_cfg_option enc_opts evaluate_data_expression
    option_space_encapsulate buffer_available h buffer agentopts inpacket out client mms m cfg avail terminate bootpp prl
    vuname Hw Hm Hcfg Hv Hva) as (l & ps & agent & El & Hwp & Hwa & Hsz & [C1 C2 C3] & Ha & out' & len & E & P).
  exists l, out', len. split_and!; [done|done|]. intros Nl.
  destruct (used (ps PMain)); [|by destruct P].
  destruct (sendable_readable cfg terminate vuname client l ps agent Hs Hwp Hwa C1 C2 Ha) as (Hread & Hag & Hno).
  pose proof (agent_client _ _ _ _ _ _ _ _ _ _ Ha) as Hcl.
  destruct (packet_size_range _ _ _ _ _ _ m agent Hw Hsz Hcl) as [_ Hmax].
  destruct (packet_read all_universes fqdn_universe enum_width memory u Hu ps agent
    (packet_size inpacket m bootpp client agent) out out' len P Hmax Hread Hop Hno Hag hr st valid Hr)
    as (h' & st' & Ep & Rp).
  do 2 eexists. split; [exact Ep|]. cbn [options_valid pkt_options].
  assert (Hval : forall c, c <> DHO_DHCP_OPTION_OVERLOAD -> c <> DHO_DHCP_AGENT_OPTIONS ->
    if decide (hunks c ps = []) then lookup_option u st' c = Done None
    else exists e v, lookup_option u st' c = Done (Some e) /\ entry_holds h' e v /\ received c (value_in c ps) v).
  { intros c N1 N2. pose proof (represents_lookup enum_width u Hu h' st' _ c Rp) as L.
    pose proof (got_option ps agent c N1 N2 Hag) as G.
    destruct (fold_left (receive enum_width u) (all_hunks ps agent) (fun _ => None) c) as [v|]; [|by rewrite decide_True].
    destruct G as [G1 G2], L as (e & L1 & L2). rewrite decide_False by done. by exists e, v. }
  assert (Hl82 : DHO_DHCP_AGENT_OPTIONS ∉ l) by (by eapply priorities_no_agent).
  assert (Hcode : forall c d t, value cfg terminate vuname c = Done (Some (d, t)) -> c ∈ l ->
    c <> DHO_DHCP_OPTION_OVERLOAD /\ c <> DHO_DHCP_AGENT_OPTIONS).
  { intros c d t Ec Hc. split; intros ->; [congruence|done]. }
  split_and!; [done|..].
  - intros c Hc N1 N2. specialize (Hval c N1 N2). by rewrite decide_True in Hval by (by apply C1).
  - intros c d t Ec Hc. destruct (Hcode c d t Ec Hc) as [N1 N2]. specialize (Hval c N1 N2).
    destruct (decide (hunks c ps = [])) as [|N]; [by left|right].
    destruct (C2 c Hc) as [?|(d' & t' & E' & Ev)]; [done|].
    rewrite Ec in E'. injection E' as <- <-. by rewrite Ev in Hval.
  - intros Hroom Hsmall c d t Ec Hc Nd. destruct (Hcode c d t Ec Hc) as [N1 N2]. specialize (Hval c N1 N2).
    assert (value_in c ps = full d t) as Ev.
    { apply C3; [|done..]. pose proof (sure_room_le inpacket m bootpp client agent (wk_length _ _ _ _ _ _ Hw) Hsz Hcl). lia. }
    rewrite Ev in Hval. rewrite decide_False in Hval; [done|]. intros En. unfold value_in in Ev. rewrite En in Ev.
    by destruct d.
Qed.
End sent_and_read.

(** ** Witnesses: a server with a message type, a router and a long option *)
#[local] Instance packet_allocator : Allocator := fun _ => true.
#[local] Instance packet_order : HostOrder := true.

Definition packet_universe : universe :=
  mk_universe "dhcp" ByHash (Some DecodeBuffer) getUChar (Some getUChar) 1 1 DHO_END
    (fun _ => None) 0 true.
Definition packet_cfg (n : nat) : option_state (list Z) :=
  mk_state 0 0 [SlotHash (<[5%nat := [layout_entry 53 [2]]]>
    (<[3%nat := [layout_entry 3 [10; 0; 0; 1]]]> (<[12%nat := [layout_entry 43 (replicate (S n) 7)]]>
      (replicate 17 []))))].
Definition packet_empty : option_state unit := mk_state 0 0 [SlotNull].
Definition packet_out : out_packet := mk_out (replicate 64 0) (replicate 128 0) (replicate 1236 0).

#[local] Arguments Z.eqb : simpl never.
Lemma packet_lookup n c :
  lookup_option packet_universe (packet_cfg n) c =
    Done (if c =? 53 then Some (layout_entry 53 [2]) else if c =? 3 then Some (layout_entry 3 [10; 0; 0; 1])
          else if c =? 43 then Some (layout_entry 43 (replicate (S n) 7)) else None).
Proof.
  unfold lookup_option. simpl u_container. cbv iota. unfold lookup_hashed_option.
  change (universe_count (packet_cfg n) <=? u_index packet_universe) with false. cbv iota.
  assert (Hh : 0 <= compute_option_hash c < 17) by (apply Z.mod_pos_bound; reflexivity).
  assert (H53 : c = 53 -> compute_option_hash c = 5) by (intros ->; reflexivity).
  assert (H3 : c = 3 -> compute_option_hash c = 3) by (intros ->; reflexivity).
  assert (H43 : c = 43 -> compute_option_hash c = 12) by (intros ->; reflexivity).
  set (k := compute_option_hash c) in *.
  destruct (Z.eqb_spec c 53) as [->|N1]; [by rewrite (H53 eq_refl)|].
  destruct (Z.eqb_spec c 3) as [->|N2]; [by rewrite (H3 eq_refl)|].
  destruct (Z.eqb_spec c 43) as [->|N3]; [by rewrite (H43 eq_refl)|].
  assert (Hk : k = 0 \/ k = 1 \/ k = 2 \/ k = 3 \/ k = 4 \/ k = 5 \/ k = 6 \/ k = 7 \/ k = 8 \/ k = 9 \/ k = 10 \/
    k = 11 \/ k = 12 \/ k = 13 \/ k = 14 \/ k = 15 \/ k = 16) by lia.
  repeat destruct Hk as [Hk|Hk]; rewrite Hk; simpl; try done; rewrite (proj2 (Z.eqb_neq _ c)); (done || congruence).
Qed.

#[local] Abbreviation packet_value :=
  (option_value [packet_universe] packet_universe None Some (fun _ => None) (fun _ => true) (mk_heap [] 0)).

Lemma packet_values n t v c :
  packet_value (packet_cfg n) t v c =
    Done (if c =? 53 then Some ([2], false) else if c =? 3 then Some ([10; 0; 0; 1], false)
          else if c =? 43 then Some (replicate (S n) 7, false) else None).
Proof.
  unfold option_value. assert (E : (if site_code_min (packet_cfg n) <=? c then rd [packet_universe] (site_universe (packet_cfg n))
    else Done packet_universe) = Done packet_universe) by (destruct (_ <=? _); done).
  rewrite E. dred. rewrite packet_lookup. dred.
  destruct (c =? 53); [destruct t; done|]. destruct (c =? 3); [destruct t; done|].
  destruct (c =? 43); [destruct t; done|]. done.
Qed.

Lemma packet_config n inpacket :
  inpacket = None \/ inpacket = Some (mk_in (packet_cfg n) 300 false 1) ->
  wf_config packet_universe packet_universe inpacket (packet_cfg n).
Proof.
  intros Hi. assert (L : looks_up packet_universe (packet_cfg n)) by (intros c; rewrite packet_lookup; by eexists).
  split; [done| | |].
  - intros p ->. by destruct Hi as [|[= ->]].
  - by eexists.
  - by eexists.
Qed.

Lemma packet_wf_value n t v c : wf_value (packet_value (packet_cfg n) t v) c.
Proof.
  eexists. split; [apply packet_values|]. intros d b.
  repeat zcase; intros [= <- <-]; (split; [lia|]);
    [| |apply (Forall_replicate byte (S n) 7); done]; repeat constructor; done.
Qed.

Lemma packet_wf_cons : wf_cons (replicate 4096 0) (replicate 1024 0) None packet_out (expr := list Z) false false.
Proof. by split. Qed.

Lemma priorities_bounded_witness :
  exists l, priorities packet_universe packet_universe [] None (packet_cfg 99) (Some [3; 82; 6]) = Done l /\ zlen l <= 300.
Proof.
  destruct (priorities_bounded packet_universe packet_universe [] None (packet_cfg 99) (Some [3; 82; 6])
    (packet_config 99 None (or_introl eq_refl))) as (l & E & Hl & _). exists l. split; [exact E|exact Hl].
Defined.

Lemma cons_options_correct_witness :
  exists out' len,
    cons_options [packet_universe] packet_universe packet_universe None [] Some (fun _ => None) (fun _ => true)
      (mk_heap [] 0) (replicate 4096 0) (replicate 1024 0) None packet_out false 576 (packet_cfg 399) 3
      false false None false = Done (out', len) /\ len + 28 <= 576.
Proof.
  destruct (cons_options_correct [packet_universe] packet_universe packet_universe None [] Some (fun _ => None)
    (fun _ => true) (mk_heap [] 0) (replicate 4096 0) (replicate 1024 0) None packet_out false 576 576 (packet_cfg 399) 3
    false false None false packet_wf_cons eq_refl (packet_config 399 None (or_introl eq_refl))
    (packet_wf_value 399 false false) (packet_wf_value 399 false false DHO_DHCP_AGENT_OPTIONS))
    as (l & ps & agent & out' & len & E & _ & Ha & _ & _ & _ & Hm).
  exists out', len. split; [exact E|]. destruct Ha as [_ [->|(d & t & Ed & _)]].
  - specialize (Hm ltac:(lia)). change (zlen (wire [])) with 0 in Hm. unfold DHCP_UDP_OVERHEAD, DHCP_MTU_MIN in Hm. lia.
  - rewrite packet_values in Ed. discriminate Ed.
Defined.

Lemma packet_octets : octet_space (fun _ => None) packet_universe.
Proof. by split. Qed.

Lemma cons_parse_roundtrip_witness :
  exists out' h' p' e,
    cons_options [packet_universe] packet_universe packet_universe None [] Some (fun _ => None) (fun _ => true)
      (mk_heap [] 0) (replicate 4096 0) (replicate 1024 0) None packet_out false 576 (packet_cfg 99) 3
      false false None false = Done (out', 352) /\
    parse_options [packet_universe] packet_universe (fun _ => None) packet_universe (mk_heap [] 0)
      (mk_packet 352 (out_sname out') (out_file out') (out_options out') packet_empty false) = Done (h', p', true) /\
    lookup_option packet_universe (pkt_options p') 43 = Done (Some e) /\ entry_holds h' e (replicate 100 7).
Proof.
  destruct (cons_parse_roundtrip [packet_universe] packet_universe packet_universe None [] Some (fun _ => None)
    (fun _ => true) (mk_heap [] 0) (fun _ => None) (fun _ => eq_refl) packet_octets
    (replicate 4096 0) (replicate 1024 0) None packet_out false 576 576 (packet_cfg 99) 3 false false None false
    (mk_heap [] 0) packet_empty false packet_wf_cons eq_refl (packet_config 99 None (or_introl eq_refl)))
    as (l & out' & len & El & E & Hp).
  - split; try apply packet_wf_value; try done.
  - split; [|done]. split; [simpl; lia|]. by exists SlotNull.
  - vm_compute in El. injection El as <-.
    assert (len = 352) as ->.
    { pose proof (f_equal (fun r => match r with Done (_, n) => n | _ => 0 end) E) as En. vm_compute in En. congruence. }
    destruct (Hp ltac:(lia)) as (h' & p' & Ep & _ & _ & _ & Hv).
    destruct (Hv eq_refl) with (c := 43) (d := replicate 100 7) (t := false) as (e & v & Ee & He & Hr).
    + repeat constructor; vm_compute; discriminate.
    + by rewrite packet_values.
    + by repeat constructor.
    + done.
    + unfold received in Hr. change (format_has_text (format_of packet_universe 43)) with false in Hr.
      cbv iota in Hr. rewrite Hr in He.
      exists out', h', p', e. split_and!; [exact E|exact Ep|exact Ee|exact He].
Defined.
