(* ===== verification/Lease.v ===== *)
(** * Leases on queues (includes/dhcpd.h)

    The leases of a pool are kept on queues sorted by the time of their next
    event.  The server has two implementations of a queue, chosen when it is
    compiled: a linked list (server/mdb.c) and a linked list with an array for
    binary search (server/leasechain.c).  The rest of the server reaches them
    only through the macros [LEASE_GET_FIRSTP], [LEASE_GET_NEXTP],
    [LEASE_INSERTP], [LEASE_REMOVEP] and [LEASE_NOT_EMPTYP], which are the
    operations of the class [LeaseQueueOps] here; [LeaseQueue] is what both
    implementations promise of them.

    Leases are objects in a store, named by numbers, because the queues share
    them through pointers.  Reference counts are not modelled: a lease stays
    alive because the table of leases by address holds it. *)

From stdpp Require Import base tactics numbers list gmap sorting.
From S2P Require Import Prelude.

#[local] Open Scope Z_scope.

(** ** Leases

    The links and sort keys of a lease; the rest of its fields is [data]. *)
Record lease (D : Type) := mk_lease {
  next : option nat;
  prev : option nat;
  lc : option nat;
  sort_time : Z;
  sort_tiebreaker : Z;
  data : D }.
Arguments mk_lease {D}.
Arguments next {D}.
Arguments prev {D}.
Arguments lc {D}.
Arguments sort_time {D}.
Arguments sort_tiebreaker {D}.
Arguments data {D}.

Abbreviation store D := (gmap nat (lease D)).

Section setters.
Context {D : Type}.
Implicit Types l : lease D.

Definition set_next (v : option nat) l : lease D :=
  mk_lease v (prev l) (lc l) (sort_time l) (sort_tiebreaker l) (data l).
Definition set_prev (v : option nat) l : lease D :=
  mk_lease (next l) v (lc l) (sort_time l) (sort_tiebreaker l) (data l).
Definition set_lc (v : option nat) l : lease D :=
  mk_lease (next l) (prev l) v (sort_time l) (sort_tiebreaker l) (data l).
Definition set_sort_time (v : Z) l : lease D :=
  mk_lease (next l) (prev l) (lc l) v (sort_tiebreaker l) (data l).
Definition set_tiebreaker (v : Z) l : lease D :=
  mk_lease (next l) (prev l) (lc l) (sort_time l) v (data l).
Definition set_data (v : D) l : lease D :=
  mk_lease (next l) (prev l) (lc l) (sort_time l) (sort_tiebreaker l) v.
End setters.

(** Reading and changing a lease through a pointer. *)
Definition get {D} (s : store D) (i : nat) : outcome (lease D) :=
  match s !! i with Some l => Done l | None => Fault end.
Definition upd {D} (s : store D) (i : nat) (f : lease D -> lease D) : outcome (store D) :=
  l ← get s i; Done (<[i := f l]> s).

(** ** What a queue promises *)
Section queues.
Context {D : Type}.
Implicit Types (s : store D) (ids : list nat).

Definition time_of s (i : nat) : Z := match s !! i with Some l => sort_time l | None => 0 end.

(** A lease that is on no queue. *)
Definition detached s (i : nat) : Prop :=
  exists l, s !! i = Some l /\ next l = None /\ prev l = None /\ lc l = None.

(** Only links (and tie breakers) of the leases [ids] have changed. *)
Definition only_links s s' ids : Prop :=
  (forall j, j ∉ ids -> s' !! j = s !! j) /\
  (forall j l, s !! j = Some l -> exists l', s' !! j = Some l' /\ sort_time l' = sort_time l /\ data l' = data l).

(** Leases of [ids] may have got other data, and nothing else has changed. *)
Definition same_links s s' ids : Prop :=
  forall i l, i ∈ ids -> s !! i = Some l -> exists d, s' !! i = Some (set_data d l).

(** The leases on the queue exist, each is there once, and the times of their
    next events do not decrease. *)
Definition in_order s ids : Prop :=
  NoDup ids /\ Forall (fun i => is_Some (s !! i)) ids /\
  StronglySorted (fun i j => time_of s i <= time_of s j) ids.
End queues.

(** The macros; [qid] is the address of the queue, [follow] says whether
    [SS_QFOLLOW] is set.  [globals] are the static variables of the
    implementation. *)
Class LeaseQueueOps (D : Type) := {
  queue : Type;
  globals : Type;
  LEASE_NOT_EMPTYP : queue -> bool;
  LEASE_GET_FIRSTP : queue -> outcome (option nat);
  LEASE_GET_NEXTP : store D -> queue -> nat -> outcome (option nat);
  LEASE_INSERTP : bool -> globals -> store D -> nat -> queue -> nat -> outcome (globals * store D * queue);
  LEASE_REMOVEP : store D -> nat -> queue -> nat -> outcome (store D * queue);
  (** The queue at [qid] has the leases of the list, in order. *)
  on_queue : store D -> nat -> queue -> list nat -> Prop;
  (** The static variables allow an insertion. *)
  insert_ok : bool -> globals -> nat -> list nat -> Prop }.

Definition max_leases : Z := 2 ^ 60.

Class LeaseQueue (D : Type) `{LeaseQueueOps D} : Prop := {
  on_queue_order s qid q ids : on_queue s qid q ids -> in_order s ids;
  (** The data of the leases is nothing to the queue. *)
  on_queue_links s s' qid q ids : on_queue s qid q ids -> same_links s s' ids -> on_queue s' qid q ids;
  queue_not_empty s qid q ids :
    on_queue s qid q ids -> LEASE_NOT_EMPTYP q = match ids with [] => false | _ => true end;
  queue_first s qid q ids : on_queue s qid q ids -> LEASE_GET_FIRSTP q = Done (head ids);
  queue_next s qid q a i b : on_queue s qid q (a ++ i :: b) -> LEASE_GET_NEXTP s q i = Done (head b);
  queue_insert follow g s qid q ids i :
    on_queue s qid q ids -> i ∉ ids -> detached s i -> insert_ok follow g qid ids -> zlen ids < max_leases ->
    exists g' s' q' a b, LEASE_INSERTP follow g s qid q i = Done (g', s', q') /\ ids = a ++ b /\
      on_queue s' qid q' (a ++ i :: b) /\ only_links s s' (i :: ids) /\ insert_ok follow g' qid (a ++ i :: b) /\
      (forall qid' ids', qid' <> qid -> insert_ok follow g' qid' ids');
  queue_remove s qid q a i b :
    on_queue s qid q (a ++ i :: b) ->
    exists s' q', LEASE_REMOVEP s qid q i = Done (s', q') /\ on_queue s' qid q' (a ++ b) /\
      detached s' i /\ only_links s s' (a ++ i :: b);
  (** A lease that is not on the queue is a fatal error, not a corruption. *)
  queue_remove_missing s qid q ids i :
    on_queue s qid q ids -> i ∉ ids -> is_Some (s !! i) -> ids <> [] -> LEASE_REMOVEP s qid q i = Fatal;
  insert_ok_later g qid ids : insert_ok false g qid ids }.

(** ** Lemmas: lookups and order *)
Section lemmas.
Context {D : Type}.
Implicit Types (s : store D) (ids : list nat).

Lemma get_Done s i l : s !! i = Some l -> get s i = Done l.
Proof. unfold get. by intros ->. Qed.

Lemma upd_Done s i l f : s !! i = Some l -> upd s i f = Done (<[i := f l]> s).
Proof. intros E. unfold upd. rewrite (get_Done s i l E). done. Qed.

Lemma lookup_middle (a b : list nat) i k j :
  (a ++ i :: b) !! k = Some j ->
  (k < length a /\ a !! k = Some j)%nat \/ (k = length a /\ j = i) \/
  (exists k', k = S (length a + k') /\ b !! k' = Some j).
Proof.
  intros E. apply lookup_app_Some in E as [E|[Hk E]].
  - left. split; [by apply lookup_lt_Some in E|done].
  - destruct (k - length a)%nat as [|k'] eqn:Ek; simpl in E.
    + right; left. split; [lia|congruence].
    + right; right. exists k'. split; [lia|done].
Qed.

Lemma lookup_app_S (a b : list nat) i k :
  (S k < length a)%nat -> (a ++ i :: b) !! S k = a !! S k.
Proof. intros. by rewrite lookup_app_l. Qed.

Lemma lookup_app_last (a b : list nat) i : (a ++ i :: b) !! length a = Some i.
Proof. by apply list_lookup_middle. Qed.

Lemma lookup_app_after (a b : list nat) i k : (a ++ i :: b) !! S (length a + k) = b !! k.
Proof. rewrite lookup_app_r by lia. by replace (S (length a + k) - length a)%nat with (S k) by lia. Qed.

Lemma lookup_app_tail (a b : list nat) k : (a ++ b) !! (length a + k)%nat = b !! k.
Proof. rewrite lookup_app_r by lia. f_equal. lia. Qed.

Lemma only_links_refl s ids : only_links s s ids.
Proof. split; [done|]. eauto. Qed.

Lemma only_links_trans s1 s2 s3 ids : only_links s1 s2 ids -> only_links s2 s3 ids -> only_links s1 s3 ids.
Proof.
  intros [A1 A2] [B1 B2]. split.
  - intros j Hj. by rewrite B1, A1.
  - intros j l E. destruct (A2 j l E) as (l1 & E1 & T1 & D1). destruct (B2 j l1 E1) as (l2 & E2 & T2 & D2).
    exists l2. split_and!; [done|congruence|congruence].
Qed.

#[export] Instance only_links_perm s s' : Proper (Permutation ==> iff) (only_links s s').
Proof. intros l k E. unfold only_links. by setoid_rewrite E. Qed.

Lemma only_links_upd s i l f ids :
  s !! i = Some l -> i ∈ ids -> sort_time (f l) = sort_time l -> data (f l) = data l ->
  only_links s (<[i := f l]> s) ids.
Proof.
  intros E Hi Ht Hd. split.
  - intros j Hj. apply lookup_insert_ne. congruence.
  - intros j lj Ej. destruct (decide (i = j)) as [<-|N].
    + rewrite lookup_insert_eq. replace lj with l by congruence. eauto.
    + rewrite lookup_insert_ne by done. eauto.
Qed.

Lemma only_links_time s s' ids i : only_links s s' ids -> is_Some (s !! i) -> time_of s' i = time_of s i.
Proof. intros [_ H] [l E]. destruct (H i l E) as (l' & E' & T & _). unfold time_of. by rewrite E, E'. Qed.

Lemma only_links_some s s' ids i : only_links s s' ids -> is_Some (s !! i) -> is_Some (s' !! i).
Proof. intros [_ H] [l E]. destruct (H i l E) as (l' & E' & _). eauto. Qed.

Lemma only_links_order s s' ids ids' : only_links s s' ids -> in_order s ids' -> in_order s' ids'.
Proof.
  intros Ho (Hn & He & Hs). split_and!; [done| |].
  - eapply Forall_impl; [exact He|]. intros i Hi. by eapply only_links_some.
  - clear Hn. revert He. induction Hs as [|i r Hr IH Hi]; intros He; constructor.
    + apply IH. by apply Forall_cons_iff in He as [_ ?].
    + apply Forall_cons_iff in He as [Hi' He]. rewrite Forall_forall in He, Hi |- *. intros j Hj.
      rewrite !(only_links_time s s' ids) by eauto. auto.
Qed.

Lemma in_order_same s s' ids :
  in_order s ids -> (forall i, i ∈ ids -> is_Some (s' !! i) /\ time_of s' i = time_of s i) -> in_order s' ids.
Proof.
  intros (Hn & He & Hs) Hf. split_and!; [done| |].
  - apply Forall_forall. intros i Hi. by apply Hf.
  - clear Hn He. induction Hs as [|i r Hr IH Hi]; constructor.
    + apply IH. intros j Hj. apply Hf. by constructor.
    + rewrite Forall_forall in Hi |- *. intros j Hj.
      rewrite (proj2 (Hf i ltac:(by constructor))), (proj2 (Hf j ltac:(by constructor))). by apply Hi.
Qed.

Lemma in_order_frame s s' ids :
  in_order s ids -> (forall i, i ∈ ids -> s' !! i = s !! i) -> in_order s' ids.
Proof.
  intros Ho Hf. eapply in_order_same; [done|]. intros i Hi. destruct Ho as (_ & He & _).
  rewrite Forall_forall in He. unfold time_of. rewrite Hf by done. auto.
Qed.

Lemma same_links_frame s s' ids : (forall i, i ∈ ids -> s' !! i = s !! i) -> same_links s s' ids.
Proof. intros Hf i l Hi E. exists (data l). rewrite Hf by done. by destruct l. Qed.
Lemma same_links_data s i l d ids : s !! i = Some l -> same_links s (<[i := set_data d l]> s) ids.
Proof.
  intros Ei j lj _ Ej. destruct (decide (i = j)) as [<-|N].
  - exists d. rewrite lookup_insert_eq. congruence.
  - exists (data lj). rewrite lookup_insert_ne by done. by destruct lj.
Qed.
Lemma same_links_trans s1 s2 s3 ids : same_links s1 s2 ids -> same_links s2 s3 ids -> same_links s1 s3 ids.
Proof. intros H1 H2 i l Hi E. destruct (H1 i l Hi E) as (d & E2). destruct (H2 i _ Hi E2) as (d' & E3). by exists d'. Qed.

Lemma in_order_links s s' ids : in_order s ids -> same_links s s' ids -> in_order s' ids.
Proof.
  intros Ho Hs. eapply in_order_same; [done|]. intros j Hj. destruct Ho as (_ & He & _). rewrite Forall_forall in He.
  destruct (He j Hj) as [l E]. destruct (Hs j l Hj E) as (d & E'). unfold time_of. rewrite E, E'. by split; [eexists|].
Qed.

(** Sorted lists with an element more or less. *)
Lemma Sorted_remove (R : nat -> nat -> Prop) a i b : StronglySorted R (a ++ i :: b) -> StronglySorted R (a ++ b).
Proof.
  intros Hs. induction a as [|x a IH]; simpl in *; [by inversion Hs|].
  inversion Hs as [|? ? H1 H2]; subst. constructor; [by apply IH|].
  apply Forall_app in H2 as [H2 H3]. apply Forall_cons_iff in H3 as [_ H3]. by apply Forall_app.
Qed.
Lemma Sorted_app_tail (R : nat -> nat -> Prop) a b : StronglySorted R (a ++ b) -> StronglySorted R b.
Proof. induction a as [|x a IH]; [done|]. intros Hs. apply IH. by inversion Hs. Qed.
Lemma Sorted_insert (R : nat -> nat -> Prop) a i b :
  StronglySorted R (a ++ b) -> Forall (fun j => R j i) a -> Forall (R i) b -> StronglySorted R (a ++ i :: b).
Proof.
  intros Hs Ha Hb. induction a as [|x a IH]; simpl in *; [by constructor|].
  apply Forall_cons_iff in Ha as [Hx Ha]. inversion Hs as [|? ? H1 H2]; subst. constructor; [by apply IH|].
  apply Forall_app in H2 as [H2 H3]. apply Forall_app. split; [done|]. by constructor.
Qed.

(** Taking a lease out keeps the order. *)
Lemma in_order_remove s a i b : in_order s (a ++ i :: b) -> in_order s (a ++ b).
Proof.
  intros (Hn & He & Hs). split_and!.
  - apply NoDup_app in Hn as (N1 & N2 & N3). apply NoDup_cons in N3 as [_ N3]. apply NoDup_app. split_and!; [done| |done].
    intros x Hx Hb. apply (N2 x Hx). by constructor.
  - apply Forall_app in He as [E1 E2]. apply Forall_cons_iff in E2 as [_ E2]. by apply Forall_app.
  - by eapply Sorted_remove.
Qed.

(** Putting one in between two that it lies between keeps it, too. *)
Lemma in_order_insert s a i b :
  in_order s (a ++ b) -> i ∉ a ++ b -> is_Some (s !! i) ->
  Forall (fun j => time_of s j <= time_of s i) a -> Forall (fun j => time_of s i <= time_of s j) b ->
  in_order s (a ++ i :: b).
Proof.
  intros (Hn & He & Hs) Hi Hl Ha Hb. split_and!.
  - rewrite <- Permutation_middle. by constructor.
  - rewrite <- Permutation_middle. by constructor.
  - by apply Sorted_insert.
Qed.

(** A list of distinct leases is no longer than the store is large. *)
Lemma ids_size s ids : NoDup ids -> Forall (fun i => is_Some (s !! i)) ids -> (length ids <= size s)%nat.
Proof.
  intros Hn He. rewrite <- size_dom, <- (size_list_to_set (C := gset nat)) by done. apply subseteq_size.
  intros i Hi. apply elem_of_list_to_set in Hi. rewrite Forall_forall in He. by apply elem_of_dom, He.
Qed.

(** ** Links

    The leases of [ids] point to each other; with [Some q] also backwards and
    to the queue [q]. *)
Definition linked (dbl : option nat) s ids : Prop := forall k i, ids !! k = Some i ->
  exists l, s !! i = Some l /\ next l = ids !! S k /\ lc l = dbl /\
    prev l = match dbl, k with Some _, S k' => ids !! k' | _, _ => None end.

Lemma linked_frame dbl s s' ids :
  linked dbl s ids -> (forall i, i ∈ ids -> s' !! i = s !! i) -> linked dbl s' ids.
Proof.
  intros Hl He k i E. destruct (Hl k i E) as (l & El & R). exists l. split; [|done].
  rewrite He; [done|]. by eapply list_elem_of_lookup_2.
Qed.

Lemma linked_links dbl s s' ids : linked dbl s ids -> same_links s s' ids -> linked dbl s' ids.
Proof.
  intros Hl Hs k i E. destruct (Hl k i E) as (l & El & R). destruct (Hs i l) as (d & E'); [by eapply list_elem_of_lookup_2|done|].
  by exists (set_data d l).
Qed.

Lemma linked_get dbl s a i b :
  linked dbl s (a ++ i :: b) ->
  exists l, s !! i = Some l /\ next l = head b /\ lc l = dbl /\
    prev l = match dbl with Some _ => last a | None => None end.
Proof.
  intros Hl. destruct (Hl (length a) i (lookup_app_last a b i)) as (l & El & Hn & Hc & Hp).
  exists l. split_and!; [done| |done|].
  - rewrite Hn. replace (S (length a)) with (S (length a + 0)) by lia. rewrite lookup_app_after. by destruct b.
  - rewrite Hp. destruct dbl; [|done]. rewrite last_lookup. destruct (length a) eqn:Ea; simpl; [by destruct a|].
    rewrite lookup_app_l; [done|]. lia.
Qed.

Lemma linked_cons s i r : linked None s (i :: r) ->
  exists l, s !! i = Some l /\ next l = head r /\ linked None s r.
Proof.
  intros Hl. destruct (linked_get None s [] i r Hl) as (l & El & Hn & _). exists l. split_and!; [done..|].
  intros k j E. destruct (Hl (S k) j E) as (lj & Ej & Nj & Cj & Pj). by exists lj.
Qed.

(** The last lease of [a], or the one before it. *)
Definition last_or (before : option nat) (a : list nat) : option nat :=
  match last a with Some p => Some p | None => before end.

Lemma last_or_cons before i a : last_or (Some i) a = last_or before (i :: a).
Proof. unfold last_or. rewrite last_cons. by destruct (last a). Qed.

Lemma last_split (a : list nat) p : last a = Some p -> exists a', a = a' ++ [p].
Proof. destruct a as [|x a' _] using rev_ind; [done|]. rewrite last_snoc. intros [= ->]. eauto. Qed.

(** What becomes of the links of the lease [j] when [i] is put between [a] and
    [b], and when it is taken out. *)
Definition relinked (dbl : option nat) (n p : option nat) (a b : list nat) (j : nat) (l l' : lease D) : Prop :=
  lc l' = lc l /\
  next l' = (if decide (last a = Some j) then n else next l) /\
  prev l' = (match dbl with Some _ => if decide (head b = Some j) then p else prev l | None => prev l end).

Lemma last_at (a : list nat) j : last a = Some j -> exists k, length a = S k /\ a !! k = Some j.
Proof. intros E. rewrite last_lookup in E. destruct (length a) as [|k] eqn:Ea; [by destruct a|]. by exists k. Qed.

Lemma NoDup_at (l : list nat) k k' j : NoDup l -> l !! k = Some j -> l !! k' = Some j -> k = k'.
Proof. intros. by eapply NoDup_lookup. Qed.

Lemma linked_insert dbl s s' a i b li :
  linked dbl s (a ++ b) -> NoDup (a ++ i :: b) -> s' !! i = Some li ->
  next li = head b -> lc li = dbl -> prev li = match dbl with Some _ => last a | None => None end ->
  (forall j l, j ∈ a ++ b -> s !! j = Some l -> exists l', s' !! j = Some l' /\ relinked dbl (Some i) (Some i) a b j l l') ->
  linked dbl s' (a ++ i :: b).
Proof.
  intros Hl Hn Ei Hni Hci Hpi Hj k j E. assert (Hn2 : NoDup (a ++ b)).
  { eapply sublist_NoDup; [exact Hn|]. apply sublist_app; [done|]. by constructor. }
  apply lookup_middle in E as [[Hk E]|[[-> ->]|(k' & -> & E)]].
  - assert (Eab : (a ++ b) !! k = Some j) by (by apply lookup_app_l_Some).
    destruct (Hl k j Eab) as (l & El & Ln & Lc & Lp). destruct (Hj j l) as (l' & El' & Rc & Rn & Rp); [by eapply list_elem_of_lookup_2|done|].
    exists l'. split_and!; [done| |congruence|].
    + rewrite Rn. destruct (decide (last a = Some j)) as [La|La].
      * apply last_at in La as (k1 & E1 & E2). assert (k = k1) as -> by (by eapply (NoDup_at (a ++ b)); [|done|apply lookup_app_l_Some]).
        rewrite <- E1. by rewrite lookup_app_last.
      * assert (S k < length a)%nat.
        { destruct (decide (S k = length a)) as [Ek|]; [|lia]. exfalso. apply La. rewrite last_lookup, <- Ek. done. }
        rewrite Ln, lookup_app_l, lookup_app_S by lia. done.
    + rewrite Rp. destruct dbl; [|by rewrite Lp]. rewrite decide_False, Lp.
      * destruct k; [done|]. rewrite !lookup_app_l by lia. done.
      * intros Hb. apply NoDup_app in Hn2 as (_ & N & _). apply (N j); [by eapply list_elem_of_lookup_2|].
        destruct b; [done|]. injection Hb as ->. by constructor.
  - exists li. split_and!; [done| |done|].
    + rewrite Hni. replace (S (length a)) with (S (length a + 0)) by lia. rewrite lookup_app_after. by destruct b.
    + rewrite Hpi. destruct dbl; [|done]. rewrite last_lookup. destruct (length a) eqn:Ea; simpl; [by destruct a|].
      rewrite lookup_app_l; [done|]. lia.
  - assert (Eab : (a ++ b) !! (length a + k')%nat = Some j) by (by rewrite lookup_app_tail).
    destruct (Hl _ j Eab) as (l & El & Ln & Lc & Lp). destruct (Hj j l) as (l' & El' & Rc & Rn & Rp); [by eapply list_elem_of_lookup_2|done|].
    exists l'. split_and!; [done| |congruence|].
    + rewrite Rn, decide_False, Ln.
      * replace (S (S (length a + k'))) with (S (length a + S k')) by lia.
        replace (S (length a + k')) with (length a + S k')%nat by lia. by rewrite lookup_app_after, lookup_app_tail.
      * intros La. apply last_at in La as (k1 & E1 & E2). apply NoDup_app in Hn2 as (_ & N & _).
        apply (N j); by eapply list_elem_of_lookup_2.
    + rewrite Rp. destruct dbl; [|by rewrite Lp]. destruct k' as [|k'].
      * rewrite decide_True by (by destruct b). by rewrite Nat.add_0_r, lookup_app_last.
      * rewrite decide_False, Lp.
        -- replace (length a + S k')%nat with (S (length a + k')) by lia. rewrite lookup_app_after. by rewrite lookup_app_tail.
        -- intros Hb. apply NoDup_app in Hn2 as (_ & _ & N). assert (S k' = 0)%nat; [|done].
           eapply (NoDup_at b); [done|done|]. by destruct b.
Qed.

Lemma linked_remove dbl s s' a i b :
  linked dbl s (a ++ i :: b) -> NoDup (a ++ i :: b) ->
  (forall j l, j ∈ a ++ b -> s !! j = Some l -> exists l', s' !! j = Some l' /\ relinked dbl (head b) (last a) a b j l l') ->
  linked dbl s' (a ++ b).
Proof.
  intros Hl Hn Hj k j E. assert (Hn2 : NoDup (a ++ b)).
  { eapply sublist_NoDup; [exact Hn|]. apply sublist_app; [done|]. by constructor. }
  pose proof E as Eab. apply lookup_app_Some in E as [E|[Hk E]].
  - pose proof (lookup_lt_Some _ _ _ E) as Hka.
    destruct (Hl k j (lookup_app_l_Some _ _ _ _ E)) as (l & El & Ln & Lc & Lp).
    destruct (Hj j l) as (l' & El' & Rc & Rn & Rp); [by eapply list_elem_of_lookup_2|done|].
    exists l'. split_and!; [done| |congruence|].
    + rewrite Rn. destruct (decide (last a = Some j)) as [La|La].
      * apply last_at in La as (k1 & E1 & E2). assert (k = k1) as -> by (by eapply (NoDup_at (a ++ b)); [|done|apply lookup_app_l_Some]).
        replace (S k1) with (length a + 0)%nat by lia. rewrite lookup_app_tail. by destruct b.
      * assert (S k < length a)%nat.
        { destruct (decide (S k = length a)) as [Ek|]; [|lia]. exfalso. apply La. rewrite last_lookup, <- Ek. done. }
        rewrite Ln, lookup_app_S, lookup_app_l by lia. done.
    + rewrite Rp. destruct dbl; [|by rewrite Lp]. rewrite decide_False, Lp.
      * destruct k; [done|]. rewrite !lookup_app_l by lia. done.
      * intros Hb. apply NoDup_app in Hn2 as (_ & N & _). apply (N j); [by eapply list_elem_of_lookup_2|].
        destruct b; [done|]. injection Hb as ->. by constructor.
  - assert (exists k', k = (length a + k')%nat /\ b !! k' = Some j) as (k' & -> & E').
    { exists (k - length a)%nat. split; [lia|done]. }
    clear E Hk.
    destruct (Hl (S (length a + k')) j) as (l & El & Ln & Lc & Lp); [by rewrite lookup_app_after|].
    destruct (Hj j l) as (l' & El' & Rc & Rn & Rp); [by eapply list_elem_of_lookup_2|done|].
    exists l'. split_and!; [done| |congruence|].
    + rewrite Rn, decide_False, Ln.
      * replace (S (S (length a + k'))) with (S (length a + S k')) by lia.
        replace (S (length a + k')) with (length a + S k')%nat by lia. by rewrite lookup_app_after, lookup_app_tail.
      * intros La. apply last_at in La as (k1 & E1 & E2). apply NoDup_app in Hn2 as (_ & N & _).
        apply (N j); by eapply list_elem_of_lookup_2.
    + rewrite Rp. destruct dbl; [|by rewrite Lp]. destruct k' as [|k''] eqn:Ek.
      * rewrite decide_True by (by destruct b). rewrite Nat.add_0_r, last_lookup. destruct (length a) eqn:Ea; simpl; [by destruct a|].
        rewrite lookup_app_l; [done|lia].
      * rewrite decide_False, Lp.
        -- replace (length a + S k'')%nat with (S (length a + k'')) by lia. rewrite lookup_app_after. by rewrite lookup_app_tail.
        -- intros Hb. apply NoDup_app in Hn2 as (_ & _ & N). assert (S k'' = 0)%nat; [|done].
           eapply (NoDup_at b); [done|done|]. by destruct b.
Qed.
End lemmas.
