(* ===== verification/LeaseList.v ===== *)
(** * Lease queues as linked lists (server/mdb.c)

    [lease_insert], [lease_remove] and [lease_remove_all]: a queue is a pointer
    to its first lease, and the leases are linked by [next].  During startup an
    insertion may start at the place of the last one. *)

From stdpp Require Import base tactics numbers list gmap sorting.
From S2P Require Import Prelude Lease.

#[local] Open Scope Z_scope.

Section list_queue.
Context {D : Type}.
Implicit Types (s : store D) (ids : list nat).

(** The static variables of [lease_insert]. *)
Record last_insert := mk_last { last_lq : option nat; last_insert_point : option nat }.

(** The loop of [lease_remove]: the lease before [comp] and whether [comp] was
    found.  A list that is no cycle has at most as many leases as the store. *)
Fixpoint find_lease (fuel : nat) s (before lp : option nat) (comp : nat) : outcome (option nat * bool) :=
  match fuel with
  | O => Running
  | S fuel' =>
      match lp with
      | None => Done (before, false)
      | Some i => if decide (i = comp) then Done (before, true)
                  else l ← get s i; find_lease fuel' s (Some i) (next l) comp
      end
  end.

Definition lease_remove s (lq : option nat) (comp : nat) : outcome (store D * option nat) :=
  '(before, found) ← find_lease (S (size s)) s None lq comp;
  if negb found then Fatal
  else
    c ← get s comp;
    match before with
    | Some p =>
        s ← upd s p (set_next None);
        match next c with
        | Some n =>
            s ← upd s p (set_next (Some n));
            s ← upd s comp (set_next None);
            Done (s, lq)
        | None => Done (s, lq)
        end
    | None =>
        match next c with
        | Some n => s ← upd s comp (set_next None); Done (s, Some n)
        | None => Done (s, None)
        end
    end.

(** The loop of [lease_insert]: the last lease that is due before [t]. *)
Fixpoint find_place (fuel : nat) s (before lp : option nat) (t : Z) : outcome (option nat) :=
  match fuel with
  | O => Running
  | S fuel' =>
      match lp with
      | None => Done before
      | Some i => l ← get s i;
                  if t <=? sort_time l then Done before
                  else find_place fuel' s (Some i) (next l) t
      end
  end.

(** [comp] is linked in after [before], or at the head of the queue. *)
Definition link_after s (before lq : option nat) (comp : nat) : outcome (store D * option nat) :=
  match before with
  | Some p =>
      lp ← get s p;
      s ← (match next lp with
           | Some n => s ← upd s comp (set_next (Some n)); upd s p (set_next None)
           | None => Done s
           end);
      s ← upd s p (set_next (Some comp));
      Done (s, lq)
  | None =>
      s ← (match lq with Some h => upd s comp (set_next (Some h)) | None => Done s end);
      Done (s, Some comp)
  end.

Definition lease_insert (follow : bool) (g : last_insert) s (qid : nat) (lq : option nat) (comp : nat)
    : outcome (last_insert * store D * option nat) :=
  c ← get s comp;
  cached ←
    (if follow && bool_decide (last_lq g = Some qid) && negb (bool_decide (last_insert_point g = Some comp))
     then match last_insert_point g with
          | None => Fault
          | Some i => l ← get s i; Done (if sort_time l <=? sort_time c then Some (i, next l) else None)
          end
     else Done None);
  let '(start, lp) := match cached with Some (i, n) => (Some i, n) | None => (None, lq) end in
  before ← find_place (S (size s)) s start lp (sort_time c);
  '(s, lq) ← link_after s before lq comp;
  Done (mk_last (Some qid) (Some comp), s, lq).

(** The loop of [lease_remove_all]: every lease is unlinked. *)
Fixpoint unlink_all (fuel : nat) s (lp : option nat) : outcome (store D) :=
  match fuel with
  | O => Running
  | S fuel' =>
      match lp with
      | None => Done s
      | Some i => l ← get s i; s ← upd s i (set_next None); unlink_all fuel' s (next l)
      end
  end.
Definition lease_remove_all s (lq : option nat) : outcome (store D * option nat) :=
  s ← unlink_all (S (size s)) s lq; Done (s, None).

Definition list_holds s (qid : nat) (lq : option nat) ids : Prop :=
  lq = head ids /\ linked None s ids /\ in_order s ids.

(** The place of the last insertion is on the queue, when it is used. *)
Definition last_on (follow : bool) (g : last_insert) (qid : nat) ids : Prop :=
  follow = true -> last_lq g = Some qid -> exists i, last_insert_point g = Some i /\ i ∈ ids.

#[export] Instance list_ops : LeaseQueueOps D := {
  queue := option nat;
  globals := last_insert;
  LEASE_NOT_EMPTYP lq := match lq with Some _ => true | None => false end;
  LEASE_GET_FIRSTP lq := Done lq;
  LEASE_GET_NEXTP s _ i := l ← get s i; Done (next l);
  LEASE_INSERTP := lease_insert;
  LEASE_REMOVEP s _ lq comp := lease_remove s lq comp;
  on_queue := list_holds;
  insert_ok := last_on }.

(** ** Searching *)
Lemma find_lease_found s a : forall fuel before i b,
  linked None s (a ++ i :: b) -> i ∉ a -> (length a < fuel)%nat ->
  find_lease fuel s before (head (a ++ i :: b)) i = Done (last_or before a, true).
Proof.
  induction a as [|x a IH]; intros [|fuel] before i b Hl Hi Hf; simpl in Hf; try lia; simpl.
  - by rewrite decide_True.
  - apply not_elem_of_cons in Hi as [Hx Hi]. rewrite decide_False by done.
    destruct (linked_cons s x (a ++ i :: b) Hl) as (l & El & Hn & Hr). rewrite (get_Done _ _ _ El). dred.
    rewrite Hn, IH by (done || lia). by rewrite <- last_or_cons.
Qed.

Lemma find_lease_missing s ids : forall fuel before i,
  linked None s ids -> i ∉ ids -> (length ids < fuel)%nat ->
  find_lease fuel s before (head ids) i = Done (last_or before ids, false).
Proof.
  induction ids as [|x r IH]; intros [|fuel] before i Hl Hi Hf; simpl in Hf; try lia; [done|]. simpl.
  apply not_elem_of_cons in Hi as [Hx Hi]. rewrite decide_False by done.
  destruct (linked_cons s x r Hl) as (l & El & Hn & Hr). rewrite (get_Done _ _ _ El). dred.
  rewrite Hn, IH by (done || lia). by rewrite <- last_or_cons.
Qed.

Lemma find_place_at s ids : forall fuel before t,
  linked None s ids -> (length ids < fuel)%nat ->
  exists a b, ids = a ++ b /\ find_place fuel s before (head ids) t = Done (last_or before a) /\
    Forall (fun j => time_of s j < t) a /\ match b with [] => True | j :: _ => t <= time_of s j end.
Proof.
  induction ids as [|x r IH]; intros [|fuel] before t Hl Hf; simpl in Hf; try lia; simpl.
  - by exists [], [].
  - destruct (linked_cons s x r Hl) as (l & El & Hn & Hr). rewrite (get_Done _ _ _ El). dred.
    assert (time_of s x = sort_time l) as Ht by (unfold time_of; by rewrite El).
    destruct (Z.leb_spec t (sort_time l)).
    + exists [], (x :: r). split_and!; [done|done|done|lia].
    + destruct (IH fuel (Some x) t Hr ltac:(lia)) as (a & b & -> & E & Ha & Hb). exists (x :: a), b. rewrite Hn, E.
      split_and!; [done|by rewrite <- last_or_cons| |done]. constructor; [lia|done].
Qed.

(** The order puts the rest of the queue behind its first lease. *)
Lemma order_after s a b t :
  in_order s (a ++ b) -> match b with [] => True | j :: _ => t <= time_of s j end ->
  Forall (fun j => t <= time_of s j) b.
Proof.
  intros (_ & _ & Hs) Hb. destruct b as [|j b]; [done|]. constructor; [done|].
  assert (Hj : StronglySorted (fun i j => time_of s i <= time_of s j) (j :: b)).
  { clear Hb. induction a as [|x a IH]; [done|]. apply IH. by inversion Hs. }
  inversion Hj as [|? ? _ Hr]; subst. eapply Forall_impl; [exact Hr|]. simpl. lia.
Qed.

Lemma order_before s a i b : in_order s (a ++ i :: b) -> Forall (fun j => time_of s j <= time_of s i) a.
Proof.
  intros (_ & _ & Hs). induction a as [|x a IH]; [done|]. inversion Hs as [|? ? H1 H2]; subst. constructor; [|by apply IH].
  apply Forall_app in H2 as [_ H2]. by apply Forall_cons_iff in H2 as [? _].
Qed.
(** ** Insertion *)
Lemma set_next_links s i l v ids : s !! i = Some l -> i ∈ ids -> only_links s (<[i := set_next v l]> s) ids.
Proof. intros. by apply only_links_upd. Qed.

Lemma set_next_same (l : lease D) v : next l = v -> set_next v l = l.
Proof. intros <-. by destruct l. Qed.

Lemma link_after_ok s a b comp :
  linked None s (a ++ b) -> NoDup (a ++ comp :: b) -> detached s comp ->
  exists s', link_after s (last a) (head (a ++ b)) comp = Done (s', head (a ++ comp :: b)) /\
    linked None s' (a ++ comp :: b) /\ only_links s s' (comp :: a ++ b).
Proof.
  intros Hl Hn (c & Ec & Cn & Cp & Cl). unfold link_after.
  destruct (last a) as [p|] eqn:La.
  - destruct (last_split a p La) as (a' & ->). rewrite <- app_assoc in Hl. simpl in Hl.
    destruct (linked_get None s a' p b Hl) as (l & Ep & Pn & Pc & Pp). rewrite (get_Done _ _ _ Ep). dred.
    assert (Npc : p <> comp).
    { intros ->. rewrite <- app_assoc in Hn. apply NoDup_app in Hn as (_ & _ & Hn). simpl in Hn.
      apply NoDup_cons in Hn as [Hn _]. apply Hn. by constructor. }
    set (s' := <[p := set_next (Some comp) l]> (<[comp := set_next (head b) c]> s)).
    assert (E : (s1 ← (match next l with
                       | Some n => s0 ← upd s comp (set_next (Some n)); upd s0 p (set_next None)
                       | None => Done s end);
                 s2 ← upd s1 p (set_next (Some comp)); Done (s2, head ((a' ++ [p]) ++ b))) = Done (s', head ((a' ++ [p]) ++ comp :: b))).
    { rewrite Pn. destruct b as [|n b]; simpl.
      - rewrite (upd_Done s p l) by done. dred. unfold s'. simpl. f_equal. f_equal; [|by destruct a'].
        f_equal. symmetry. apply insert_id. by rewrite set_next_same.
      - rewrite (upd_Done s comp c) by done. dred.
        rewrite (upd_Done _ p l) by (by rewrite lookup_insert_ne). dred.
        rewrite (upd_Done _ p (set_next None l)) by (by rewrite lookup_insert_eq). dred.
        rewrite insert_insert_eq. f_equal. f_equal. by destruct a'. }
    exists s'. split; [exact E|]. split.
    + eapply (linked_insert None s s' _ comp b (set_next (head b) c)); [by rewrite <- app_assoc|done| |done|done|done|].
      { unfold s'. by rewrite lookup_insert_ne, lookup_insert_eq. }
      intros j lj Hj Ej. assert (j <> comp) as Njc.
      { intros ->. rewrite <- Permutation_middle in Hn. by apply NoDup_cons in Hn as [? _]. }
      unfold s', relinked. destruct (decide (p = j)) as [<-|N].
      * exists (set_next (Some comp) lj). rewrite lookup_insert_eq. replace lj with l by congruence.
        rewrite last_snoc, decide_True by done. done.
      * exists lj. rewrite !lookup_insert_ne by done. rewrite last_snoc, decide_False by congruence. done.
    + eapply only_links_trans; [apply (set_next_links s comp c (head b)); [done|by constructor]|].
      apply set_next_links; [by rewrite lookup_insert_ne|]. constructor. rewrite !elem_of_app. left. right. by constructor.
  - destruct a as [|x a _] using rev_ind; [|by rewrite last_snoc in La]. simpl in *.
    set (s' := <[comp := set_next (head b) c]> s). exists s'. split; [|split].
    + destruct b as [|h b]; simpl.
      * f_equal. f_equal. unfold s'. simpl. symmetry. apply insert_id. by rewrite set_next_same.
      * by rewrite (upd_Done s comp c) by done.
    + eapply (linked_insert None s s' [] comp b (set_next (head b) c)); [done|done| |done|done|done|].
      { unfold s'. by rewrite lookup_insert_eq. }
      intros j lj Hj Ej. exists lj. unfold s', relinked. rewrite lookup_insert_ne; [done|].
      intros ->. simpl in Hn. by apply NoDup_cons in Hn as [? _].
    + apply set_next_links; [done|by constructor].
Qed.

Lemma time_some s i l : s !! i = Some l -> time_of s i = sort_time l.
Proof. unfold time_of. by intros ->. Qed.

(** Where [lease_insert] starts and where it stops, with or without the place
    of the last insertion. *)
Lemma lease_insert_place follow g s qid ids comp c :
  linked None s ids -> in_order s ids -> s !! comp = Some c -> last_on follow g qid ids ->
  exists a b start lp,
    (cached ← (if follow && bool_decide (last_lq g = Some qid) && negb (bool_decide (last_insert_point g = Some comp))
               then match last_insert_point g with
                    | None => Fault
                    | Some i => l ← get s i; Done (if sort_time l <=? sort_time c then Some (i, next l) else None)
                    end
               else Done None);
     Done (match cached with Some (i, n) => (Some i, n) | None => (None, head ids) end)) = Done (start, lp) /\
    find_place (S (size s)) s start lp (sort_time c) = Done (last a) /\ ids = a ++ b /\
    Forall (fun j => time_of s j <= sort_time c) a /\ Forall (fun j => sort_time c <= time_of s j) b.
Proof.
  intros Hl Ho Ec Hg. pose proof (ids_size s ids (proj1 Ho) (proj1 (proj2 Ho))) as Hsz.
  assert (Hplain : exists a b, find_place (S (size s)) s None (head ids) (sort_time c) = Done (last a) /\ ids = a ++ b /\
    Forall (fun j => time_of s j <= sort_time c) a /\ Forall (fun j => sort_time c <= time_of s j) b).
  { destruct (find_place_at s ids (S (size s)) None (sort_time c) Hl ltac:(lia)) as (a & b & -> & E & Ha & Hb).
    exists a, b. split_and!; [|done| |by eapply order_after].
    - rewrite E. unfold last_or. by destruct (last a).
    - eapply Forall_impl; [exact Ha|]. simpl. lia. }
  destruct Hplain as (a0 & b0 & E0 & R0).
  destruct (follow && _ && _) eqn:Ef; [|exists a0, b0, None, (head ids); split; done].
  apply andb_true_iff in Ef as [Ef _]. apply andb_true_iff in Ef as [-> Eq]. apply bool_decide_eq_true in Eq.
  destruct (Hg eq_refl Eq) as (i & -> & Hi). apply list_elem_of_split in Hi as (a1 & r & ->).
  destruct (linked_get None s a1 i r Hl) as (l & El & Hn & _). rewrite (get_Done _ _ _ El). dred.
  destruct (Z.leb_spec (sort_time l) (sort_time c)) as [Ht|]; [|exists a0, b0, None, (head (a1 ++ i :: r)); split; done].
  assert (Hr : linked None s r).
  { clear -Hl. induction a1 as [|x a1 IH]; simpl in *.
    - by destruct (linked_cons s i r Hl) as (? & _ & _ & ?).
    - destruct (linked_cons s x _ Hl) as (? & _ & _ & ?). by apply IH. }
  rewrite length_app in Hsz. simpl in Hsz.
  destruct (find_place_at s r (S (size s)) (Some i) (sort_time c) Hr ltac:(lia)) as (a2 & b & -> & E & Ha & Hb).
  exists (a1 ++ i :: a2), b, (Some i), (next l). rewrite Hn, E. split_and!; [done| | | |].
  - unfold last_or. rewrite last_app, last_cons. by destruct (last a2).
  - by rewrite <- app_assoc.
  - apply Forall_app. split; [|constructor].
    + eapply Forall_impl; [eapply order_before; exact Ho|]. simpl. intros j. rewrite (time_some _ _ _ El). lia.
    + by rewrite (time_some _ _ _ El).
    + eapply Forall_impl; [exact Ha|]. simpl. lia.
  - eapply (order_after s (a1 ++ i :: a2)); [|done]. by rewrite <- app_assoc.
Qed.

Lemma lease_insert_ok follow g s qid q ids comp :
  list_holds s qid q ids -> comp ∉ ids -> detached s comp -> last_on follow g qid ids ->
  exists g' s' q' a b, lease_insert follow g s qid q comp = Done (g', s', q') /\ ids = a ++ b /\
    list_holds s' qid q' (a ++ comp :: b) /\ only_links s s' (comp :: ids) /\
    last_on follow g' qid (a ++ comp :: b) /\ forall qid' ids', qid' <> qid -> last_on follow g' qid' ids'.
Proof.
  intros (-> & Hl & Ho) Hc Hd Hg. pose proof Hd as (c & Ec & _). unfold lease_insert. rewrite (get_Done _ _ _ Ec). dred.
  destruct (lease_insert_place follow g s qid ids comp c Hl Ho Ec Hg) as (a & b & start & lp & E1 & E2 & -> & Ha & Hb).
  apply bind_Done_inv in E1 as (cached & -> & E1). dred. injection E1 as E1. rewrite E1. rewrite E2. dred.
  assert (Hn : NoDup (a ++ comp :: b)) by (rewrite <- Permutation_middle; constructor; [done|apply Ho]).
  destruct (link_after_ok s a b comp Hl Hn Hd) as (s' & -> & Hl' & Hs'). dred.
  do 5 eexists. split; [done|]. split; [done|]. split_and!.
  - split; [done|]. split; [done|]. eapply only_links_order; [exact Hs'|]. apply in_order_insert; [done|done|by eexists| |]; by rewrite (time_some _ _ _ Ec).
  - done.
  - intros _ _. exists comp. split; [done|]. rewrite elem_of_app. right. by constructor.
  - intros qid' ids' N _ E. injection E as E. congruence.
Qed.

(** ** Removal *)
Lemma lease_remove_ok s qid q a comp b :
  list_holds s qid q (a ++ comp :: b) ->
  exists s' q', lease_remove s q comp = Done (s', q') /\ list_holds s' qid q' (a ++ b) /\
    detached s' comp /\ only_links s s' (a ++ comp :: b).
Proof.
  intros (-> & Hl & Ho). pose proof (ids_size s _ (proj1 Ho) (proj1 (proj2 Ho))) as Hsz. rewrite length_app in Hsz. simpl in Hsz.
  pose proof (proj1 Ho) as Hn. pose proof Hn as Hn0. rewrite <- Permutation_middle in Hn0. apply NoDup_cons in Hn0 as [Hc Hn2].
  unfold lease_remove. rewrite find_lease_found; [|done|by intros ?; apply Hc; rewrite elem_of_app; left|lia]. dred. simpl negb. cbv iota.
  destruct (linked_get None s a comp b Hl) as (c & Ec & Cn & Cl & Cp). rewrite (get_Done _ _ _ Ec). dred.
  set (s1 := <[comp := set_next None c]> s).
  set (s' := match last a with
             | Some p => match s !! p with Some l => <[p := set_next (head b) l]> s1 | None => s1 end
             | None => s1 end).
  assert (Hk : forall p, last a = Some p -> p <> comp /\ p ∈ a ++ comp :: b /\ exists l, s !! p = Some l).
  { intros p La. destruct (last_split a p La) as (a' & ->). split_and!.
    - intros ->. apply Hc. rewrite !elem_of_app. left. right. by constructor.
    - rewrite !elem_of_app. left. right. by constructor.
    - rewrite <- app_assoc in Hl. destruct (linked_get None s a' p _ Hl) as (l & El & _). eauto. }
  assert (Hs' : only_links s s' (a ++ comp :: b)).
  { assert (H1 : only_links s s1 (a ++ comp :: b)) by (apply set_next_links; [done|rewrite elem_of_app; right; by constructor]).
    unfold s'. destruct (last a) as [p|]; [|done]. destruct (Hk p eq_refl) as (N & Hin & l & El). rewrite El.
    eapply only_links_trans; [exact H1|]. apply set_next_links; [by unfold s1; rewrite lookup_insert_ne|done]. }
  assert (Hcomp : s' !! comp = Some (set_next None c)).
  { unfold s', s1. destruct (last a) as [p|]; [|by rewrite lookup_insert_eq]. destruct (Hk p eq_refl) as (N & _ & l & ->).
    by rewrite lookup_insert_ne, lookup_insert_eq. }
  exists s', (head (a ++ b)). split; [|split; [|split]].
  - unfold last_or, s', s1. destruct (last a) as [p|] eqn:La.
    + destruct (Hk p eq_refl) as (N & _ & l & El). rewrite El, (upd_Done s p l) by done. dred.
      destruct (last_split a p La) as (a' & ->). rewrite Cn. destruct b as [|n b]; simpl.
      * rewrite (insert_id s comp) by (by rewrite set_next_same). f_equal. f_equal. by destruct a'.
      * rewrite (upd_Done _ p (set_next None l)) by (by rewrite lookup_insert_eq). dred. rewrite insert_insert_eq.
        rewrite (upd_Done _ comp c) by (by rewrite lookup_insert_ne). dred.
        rewrite insert_insert_ne by done. f_equal. f_equal. by destruct a'.
    + destruct a as [|x a _] using rev_ind; [|by rewrite last_snoc in La]. simpl. rewrite Cn. destruct b as [|n b]; simpl.
      * by rewrite (insert_id s comp) by (by rewrite set_next_same).
      * by rewrite (upd_Done _ comp c).
  - split; [done|]. split; [|eapply only_links_order; [exact Hs'|]; by eapply in_order_remove].
    eapply (linked_remove None s s' a comp b); [done|done|]. intros j lj Hj Ej.
    assert (j <> comp) as Njc by (by intros ->). unfold s', s1, relinked.
    destruct (last a) as [p|] eqn:La.
    + destruct (Hk p eq_refl) as (N & _ & l & El). rewrite El. destruct (decide (p = j)) as [<-|Npj].
      * exists (set_next (head b) lj). rewrite lookup_insert_eq. replace lj with l by congruence. rewrite decide_True by done. done.
      * exists lj. rewrite !lookup_insert_ne by done. rewrite decide_False by congruence. done.
    + exists lj. rewrite !lookup_insert_ne by done. done.
  - exists (set_next None c). done.
  - done.
Qed.

Lemma lease_remove_missing s qid q ids i :
  list_holds s qid q ids -> i ∉ ids -> lease_remove s q i = Fatal.
Proof.
  intros (-> & Hl & Ho) Hi. pose proof (ids_size s _ (proj1 Ho) (proj1 (proj2 Ho))) as Hsz.
  unfold lease_remove. rewrite find_lease_missing by (done || lia). done.
Qed.

#[export] Instance list_queue_ok : LeaseQueue D.
Proof.
  split.
  - by intros s qid q ids (_ & _ & ?).
  - intros s s' qid q ids (-> & Hl & Ho) Hs. split; [done|]. split; [by eapply linked_links|by eapply in_order_links].
  - intros s qid q ids (-> & _ & _). by destruct ids.
  - by intros s qid q ids (-> & _ & _).
  - intros s qid q a i b (_ & Hl & _). destruct (linked_get None s a i b Hl) as (l & El & Hn & _). simpl.
    rewrite (get_Done _ _ _ El). dred. by rewrite Hn.
  - intros follow g s qid q ids i Hq Hi Hd Hg _. by apply lease_insert_ok.
  - intros s qid q a i b Hq. by apply (lease_remove_ok s qid).
  - intros s qid q ids i Hq Hi _ _. by eapply lease_remove_missing.
  - by intros g qid ids.
Qed.

(** [lease_remove_all] unlinks every lease of the queue. *)
Lemma unlink_all_ok ids : forall fuel s,
  linked None s ids -> NoDup ids -> (length ids < fuel)%nat ->
  exists s', unlink_all fuel s (head ids) = Done s' /\ (forall i, i ∈ ids -> detached s' i) /\
    only_links s s' ids.
Proof.
  induction ids as [|x r IH]; intros [|fuel] s Hl Hn Hf; simpl in Hf; try lia; simpl.
  - exists s. split_and!; [done| |apply only_links_refl]. by intros i ?%not_elem_of_nil.
  - pose proof (linked_get None s [] x r Hl) as (l & El & Nx & Cx & Px). apply NoDup_cons in Hn as [Hx Hn].
    destruct (linked_cons s x r Hl) as (_ & _ & _ & Hr). rewrite (get_Done _ _ _ El). dred. rewrite (upd_Done _ _ _ _ El). dred.
    set (s1 := <[x := set_next None l]> s).
    destruct (IH fuel s1) as (s' & E & Hd & Ho); [|done|lia|].
    { eapply linked_frame; [exact Hr|]. intros i Hi. apply lookup_insert_ne. by intros ->. }
    exists s'. rewrite Nx. split_and!; [done| |].
    + intros i [->|Hi]%elem_of_cons; [|by apply Hd]. exists (set_next None l). split; [|done].
      rewrite (proj1 Ho) by done. by apply lookup_insert_eq.
    + destruct Ho as [O1 O2]. split.
      * intros j Hj. apply not_elem_of_cons in Hj as [N Hj]. rewrite O1 by done. by apply lookup_insert_ne.
      * intros j lj Ej. destruct (decide (x = j)) as [<-|N].
        -- replace lj with l by congruence. by destruct (O2 x (set_next None l)) as (l' & E' & T & D'); [apply lookup_insert_eq|eauto].
        -- apply O2. unfold s1. by rewrite lookup_insert_ne.
Qed.

(** [lease_insert] keeps a queue sorted, also when it starts at the place of
    the previous insertion during startup: it terminates, the queue then has
    the old leases in their old order with the new one between them, event
    times do not decrease, nothing but links has changed, and the place it
    remembers is on this queue and will not be used for another one. *)
Lemma lease_insert_correct follow g s qid q ids comp :
  list_holds s qid q ids -> comp ∉ ids -> detached s comp -> last_on follow g qid ids ->
  exists g' s' q' a b, lease_insert follow g s qid q comp = Done (g', s', q') /\ ids = a ++ b /\
    list_holds s' qid q' (a ++ comp :: b) /\ in_order s' (a ++ comp :: b) /\ only_links s s' (comp :: ids) /\
    last_on follow g' qid (a ++ comp :: b) /\ forall qid' ids', qid' <> qid -> last_on follow g' qid' ids'.
Proof.
  intros Hq Hc Hd Hg. destruct (lease_insert_ok follow g s qid q ids comp Hq Hc Hd Hg)
    as (g' & s' & q' & a & b & E & -> & Hq' & Ho & Hl & Hl'). exists g', s', q', a, b. split_and!; try done. apply Hq'.
Qed.

(** [lease_remove] unlinks the lease it is given: it terminates, the other
    leases stay in order and the lease is on no queue afterwards; a lease that
    is not on the queue is a fatal error. *)
Lemma lease_remove_correct s qid q ids comp :
  list_holds s qid q ids ->
  (comp ∉ ids -> lease_remove s q comp = Fatal) /\
  (forall a b, ids = a ++ comp :: b ->
     exists s' q', lease_remove s q comp = Done (s', q') /\ list_holds s' qid q' (a ++ b) /\
       detached s' comp /\ only_links s s' ids).
Proof.
  intros Hq. split.
  - intros Hc. by eapply lease_remove_missing.
  - intros a b ->. by eapply lease_remove_ok.
Qed.

(** [lease_remove_all] empties a queue: it terminates, every lease that was
    on the queue is on no queue afterwards, and nothing else of the leases
    changes. *)
Lemma lease_remove_all_detaches s qid q ids :
  list_holds s qid q ids ->
  exists s', lease_remove_all s q = Done (s', None) /\ list_holds s' qid None [] /\
    (forall i, i ∈ ids -> detached s' i) /\ only_links s s' ids.
Proof.
  intros (-> & Hl & Ho). pose proof (ids_size s _ (proj1 Ho) (proj1 (proj2 Ho))) as Hsz.
  destruct (unlink_all_ok ids (S (size s)) s Hl (proj1 Ho) ltac:(lia)) as (s' & E & Hd & Ho').
  exists s'. unfold lease_remove_all. rewrite E. dred. split_and!; [done| |done|done].
  split; [done|]. split; [|split_and!; constructor]. intros k i Hk. done.
Qed.
End list_queue.

(** ** Witness: a queue of two leases *)
Definition list_store : store unit :=
  <[0%nat := mk_lease (Some 1%nat) None None 10 0 tt]> {[1%nat := mk_lease None None None 20 0 tt]}.

Definition list_store' : store unit := <[2%nat := mk_lease None None None 15 0 tt]> list_store.

Lemma list_store_holds : list_holds list_store 3 (Some 0%nat) [0; 1]%nat.
Proof.
  split; [done|]. split; [|split_and!].
  - intros [|[|k]] i; simpl; intros [= <-]; (eexists; split; [vm_compute; reflexivity|done]).
  - apply (bool_decide_unpack _). by vm_compute.
  - repeat constructor; by eexists.
  - repeat constructor. by vm_compute.
Qed.
