(* ===== verification/LeaseChain.v ===== *)
(** * Lease queues with an array (server/leasechain.c)

    A lease chain is an array of pointers to leases sorted by time and tie
    breaker, whose leases are also linked in both directions.  Leases are found
    by binary search.  The array is modelled with its unused end, where
    removed leases leave stale pointers, and with indices of type [size_t]. *)

From stdpp Require Import base tactics numbers list gmap sorting.
From S2P Require Import Prelude Lease.

#[local] Open Scope Z_scope.

Definition LC_GROWTH_DELTA : Z := 256.
Definition SIZE_MAX : Z := 2 ^ 64 - 1.
Definition LONG_MAX : Z := 2 ^ 63 - 1.

Section chain.
Context {D : Type}.
(** Whether [dmalloc] has memory for an array of this many bytes. *)
Context (dmalloc_ok : Z -> bool).
Implicit Types s : store D.

Record leasechain := mk_chain {
  lc_list : list (option nat); total : Z; nelem : Z; growth : Z }.
Implicit Types c : leasechain.

Definition lc_not_empty c : bool := 0 <? nelem c.

Definition lc_get_first_lease c : outcome (option nat) :=
  if 0 <? nelem c then rd (lc_list c) 0 else Done None.

Definition lc_get_next s c (lp : nat) : outcome (option nat) := l ← get s lp; Done (next l).

(** [lc->list[i]], which is dereferenced. *)
Definition at_index s c (i : Z) : outcome (nat * lease D) :=
  p ← rd (lc_list c) i;
  match p with Some id => l ← get s id; Done (id, l) | None => Fault end.

Definition key_gt (a b : lease D) : bool :=
  (sort_time b <? sort_time a) || ((sort_time a =? sort_time b) && (sort_tiebreaker b <? sort_tiebreaker a)).
Definition key_lt (a b : lease D) : bool :=
  (sort_time a <? sort_time b) || ((sort_time a =? sort_time b) && (sort_tiebreaker a <? sort_tiebreaker b)).
Definition key_ne (a b : lease D) : bool :=
  negb (sort_time a =? sort_time b) ||
  ((sort_time a =? sort_time b) && negb (sort_tiebreaker a =? sort_tiebreaker b)).

(** The recursion halves the range: 65 calls are enough for any range of
    [size_t]. *)
Definition depth : nat := 65.

Fixpoint lc_binary_search_insert_point (fuel : nat) s c (lp : lease D) (min max : Z) : outcome Z :=
  match fuel with
  | O => Running
  | S fuel' =>
      let mid_index := u64 (u64 (max - min) / 2 + min) in
      '(_, m) ← at_index s c mid_index;
      if key_gt m lp then
        if mid_index =? min then Done min
        else lc_binary_search_insert_point fuel' s c lp min (u64 (mid_index - 1))
      else if key_lt m lp then
        if mid_index =? max then Done (u64 (mid_index + 1))
        else lc_binary_search_insert_point fuel' s c lp (u64 (mid_index + 1)) max
      else Done mid_index
  end.

(** The loops over the neighbours with the same key. *)
Fixpoint search_below (fuel : nat) s c (id : nat) (lp : lease D) (min i : Z) : outcome (option Z) :=
  match fuel with
  | O => Running
  | S fuel' =>
      '(j, l) ← at_index s c i;
      if decide (j = id) then Done (Some i)
      else if (i =? min) || key_ne l lp then Done None
      else search_below fuel' s c id lp min (u64 (i - 1))
  end.

Fixpoint search_above (fuel : nat) s c (id : nat) (lp : lease D) (max i : Z) : outcome (option Z) :=
  match fuel with
  | O => Running
  | S fuel' =>
      if max <? i then Done None
      else
        '(j, l) ← at_index s c i;
        if decide (j = id) then Done (Some i)
        else if key_ne l lp then Done None
        else search_above fuel' s c id lp max (u64 (i + 1))
  end.

Definition search_neighbours s c (id : nat) (lp : lease D) (min max mid_index : Z) : outcome Z :=
  below ← (if min <? mid_index
           then search_below (S (Z.to_nat (mid_index - min))) s c id lp min (u64 (mid_index - 1))
           else Done None);
  match below with
  | Some i => Done i
  | None =>
      above ← (if mid_index <? max
               then search_above (S (Z.to_nat (max - mid_index))) s c id lp max (u64 (mid_index + 1))
               else Done None);
      match above with
      | Some i => Done i
      | None => Done SIZE_MAX
      end
  end.

Fixpoint lc_binary_search_lease (fuel : nat) s c (id : nat) (lp : lease D) (min max : Z) : outcome Z :=
  match fuel with
  | O => Running
  | S fuel' =>
      if max <? min then Done SIZE_MAX
      else
        let mid_index := u64 (u64 (max - min) / 2 + min) in
        '(j, m) ← at_index s c mid_index;
        if key_gt m lp then
          if mid_index =? min then Done SIZE_MAX
          else lc_binary_search_lease fuel' s c id lp min (u64 (mid_index - 1))
        else if key_lt m lp then lc_binary_search_lease fuel' s c id lp (u64 (mid_index + 1)) max
        else if decide (j = id) then Done mid_index
        else search_neighbours s c id lp min max mid_index
  end.

(** A pointer has eight bytes; the memory that [dmalloc] returns is zeroed. *)
Definition lc_grow_chain c : outcome leasechain :=
  let temp_size := u64 (total c + (if growth c =? 0 then LC_GROWTH_DELTA else growth c)) in
  if dmalloc_ok (u64 (8 * temp_size)) then
    let p := replicate (Z.to_nat (u64 (8 * temp_size) / 8)) None in
    old ← rdn (lc_list c) 0 (nelem c);
    p ← wrn p 0 old;
    Done (mk_chain p temp_size (nelem c) (growth c))
  else Fatal.

Definition lc_link_lcp s c (qid lp : nat) (n : Z) : outcome (store D * leasechain) :=
  c ← (if nelem c =? total c then lc_grow_chain c else Done c);
  l ← (if n <? nelem c
       then rest ← rdn (lc_list c) n (nelem c - n); wrn (lc_list c) (n + 1) rest
       else Done (lc_list c));
  l ← wr l n (Some lp);
  s ← upd s lp (set_lc (Some qid));
  Done (s, mk_chain l (total c) (u64 (nelem c + 1)) (growth c)).

Definition lc_add_lease_pos s c (qid lp : nat) (pos : Z) : outcome (store D * leasechain) :=
  '(s, c) ← lc_link_lcp s c qid lp pos;
  s ← (if 0 <? pos then
         '(p, _) ← at_index s c (pos - 1);
         s ← upd s p (set_next (Some lp));
         upd s lp (set_prev (Some p))
       else Done s);
  s ← (if pos <? u64 (nelem c - 1) then
         '(n, _) ← at_index s c (pos + 1);
         s ← upd s n (set_prev (Some lp));
         upd s lp (set_next (Some n))
       else Done s);
  Done (s, c).

(** [random] returns a value from 0 to [RAND_MAX]; [rnd] stands for the state of
    the generator. *)
Definition random (rnd : list Z) : Z * list Z := (default 0 (head rnd) mod 2 ^ 31, tail rnd).

Definition lc_add_sorted_lease (rnd : list Z) s (qid : nat) c (lp : nat)
    : outcome (list Z * store D * leasechain) :=
  if nelem c =? 0 then
    s ← upd s lp (set_tiebreaker 0);
    '(s, c) ← lc_add_lease_pos s c qid lp 0;
    Done (rnd, s, c)
  else
    l ← get s lp;
    '(_, last) ← at_index s c (nelem c - 1);
    '(rnd, s, pos) ←
      (if sort_time last <? sort_time l then
         s ← upd s lp (set_tiebreaker 0);
         Done (rnd, s, nelem c)
       else if sort_time l =? sort_time last then
         s ← upd s lp (set_tiebreaker (if sort_tiebreaker last <? LONG_MAX
                                       then sort_tiebreaker last + 1 else LONG_MAX));
         Done (rnd, s, nelem c)
       else
         let '(r, rnd) := random rnd in
         s ← upd s lp (set_tiebreaker r);
         pos ← lc_binary_search_insert_point depth s c (set_tiebreaker r l) 0 (u64 (nelem c - 1));
         Done (rnd, s, pos));
    '(s, c) ← lc_add_lease_pos s c qid lp pos;
    Done (rnd, s, c).

Definition lc_unlink_lcp s c (n : Z) : outcome (store D * leasechain) :=
  '(id, _) ← at_index s c n;
  s ← upd s id (set_lc None);
  l ← wr (lc_list c) n None;
  l ← (if n <? u64 (nelem c - 1)
       then rest ← rdn l (n + 1) (nelem c - 1 - n); wrn l n rest
       else Done l);
  Done (s, mk_chain l (total c) (u64 (nelem c - 1)) (growth c)).

(** Taking a lease out of the linked list. *)
Definition unlink_links s (lp : nat) : outcome (store D) :=
  l ← get s lp;
  s ← (match next l with
       | Some n => s ← upd s n (set_prev None);
                   match prev l with Some p => upd s n (set_prev (Some p)) | None => Done s end
       | None => Done s
       end);
  s ← (match prev l with
       | Some p => s ← upd s p (set_next None);
                   s ← (match next l with Some n => upd s p (set_next (Some n)) | None => Done s end);
                   upd s lp (set_prev None)
       | None => Done s
       end);
  match next l with Some _ => upd s lp (set_next None) | None => Done s end.

Definition lc_unlink_lease_pos s c (pos : Z) : outcome (store D * leasechain) :=
  '(lp, _) ← at_index s c pos;
  '(s, c) ← lc_unlink_lcp s c pos;
  s ← unlink_links s lp;
  Done (s, c).

Definition lc_unlink_lease s c (lp : nat) : outcome (store D * leasechain) :=
  l ← get s lp;
  pos ← lc_binary_search_lease depth s c lp l 0 (u64 (nelem c - 1));
  if pos =? SIZE_MAX then Fatal else lc_unlink_lease_pos s c pos.

(** The loop of [lc_delete_all], from the last lease down. *)
Fixpoint delete_from (k : nat) s c : outcome (store D * leasechain) :=
  match k with
  | O => Done (s, c)
  | S k' => '(s, c) ← lc_unlink_lease_pos s c (Z.of_nat k'); delete_from k' s c
  end.
Definition lc_delete_all s c : outcome (store D * leasechain) :=
  '(s, c) ← delete_from (Z.to_nat (nelem c)) s c;
  Done (s, mk_chain [] 0 0 (growth c)).

Definition lc_init_growth c (g : Z) : leasechain := mk_chain (lc_list c) (total c) (nelem c) g.

(** ** Keys *)
Definition key_le (a b : lease D) : Prop :=
  sort_time a < sort_time b \/ (sort_time a = sort_time b /\ sort_tiebreaker a <= sort_tiebreaker b).

Lemma key_gt_spec a b : reflect (~ key_le a b) (key_gt a b).
Proof. apply iff_reflect. unfold key_gt, key_le. rewrite orb_true_iff, andb_true_iff, !Z.ltb_lt, Z.eqb_eq. lia. Qed.
Lemma key_lt_spec a b : reflect (~ key_le b a) (key_lt a b).
Proof. apply iff_reflect. unfold key_lt, key_le. rewrite orb_true_iff, andb_true_iff, !Z.ltb_lt, Z.eqb_eq. lia. Qed.
Lemma key_ne_spec a b : reflect (~ (key_le a b /\ key_le b a)) (key_ne a b).
Proof.
  apply iff_reflect. unfold key_ne, key_le. rewrite orb_true_iff, andb_true_iff, !negb_true_iff, !Z.eqb_neq, Z.eqb_eq. lia.
Qed.
Lemma key_le_total a b : key_le a b \/ key_le b a.
Proof. unfold key_le. lia. Qed.
Lemma key_le_trans a b d : key_le a b -> key_le b d -> key_le a d.
Proof. unfold key_le. lia. Qed.
Lemma key_le_refl a : key_le a a.
Proof. unfold key_le. lia. Qed.

(** ** The invariant *)
Definition sorted s (ids : list nat) : Prop := forall k k' i j li lj, (k < k')%nat ->
  ids !! k = Some i -> ids !! k' = Some j -> s !! i = Some li -> s !! j = Some lj -> key_le li lj.

Record chain_holds s (qid : nat) c (ids : list nat) : Prop := {
  ch_nelem : nelem c = zlen ids;
  ch_total : zlen (lc_list c) = total c /\ nelem c <= total c < 2 ^ 61;
  ch_growth : 0 <= growth c < 2 ^ 60;
  ch_list : take (length ids) (lc_list c) = Some <$> ids;
  ch_linked : linked (Some qid) s ids;
  ch_nodup : NoDup ids;
  ch_sorted : sorted s ids;
  ch_ties : forall i l, i ∈ ids -> s !! i = Some l -> sort_tiebreaker l <= LONG_MAX }.

Lemma chain_in s qid c ids k :
  chain_holds s qid c ids -> 0 <= k < zlen ids ->
  exists i l, at_index s c k = Done (i, l) /\ ids !! Z.to_nat k = Some i /\ s !! i = Some l.
Proof.
  intros [_ _ _ Ht Hl _ _ _] Hk. unfold zlen in Hk.
  destruct (lookup_lt_is_Some_2 ids (Z.to_nat k)) as [i Ei]; [lia|]. destruct (Hl _ _ Ei) as (l & El & _).
  exists i, l. split_and!; [|done|done]. unfold at_index.
  assert (rd (lc_list c) k = Done (Some i)) as ->.
  { apply rd_Done. split; [lia|]. rewrite <- (lookup_take_lt _ (length ids)) by lia. rewrite Ht, list_lookup_fmap, Ei. done. }
  dred. rewrite (get_Done _ _ _ El). done.
Qed.

(** ** Binary search *)
Lemma mid_range min max : 0 <= min <= max -> max < 2 ^ 63 ->
  u64 (u64 (max - min) / 2 + min) = min + (max - min) / 2 /\ min <= min + (max - min) / 2 <= max.
Proof.
  intros H Hm. unfold u64. rewrite (Z.mod_small (max - min)) by lia.
  assert (0 <= (max - min) / 2 <= max - min) by (split; [apply Z.div_pos; lia|apply Z.div_le_upper_bound; lia]).
  rewrite Z.mod_small by lia. lia.
Qed.

Lemma half_lower n k : 0 <= n -> n + 1 < 2 ^ Z.of_nat (S k) -> n / 2 < 2 ^ Z.of_nat k.
Proof.
  intros Hn H. rewrite Nat2Z.inj_succ, Z.pow_succ_r in H by lia. apply Z.div_lt_upper_bound; lia.
Qed.
Lemma half_upper n k : 0 <= n -> n + 1 < 2 ^ Z.of_nat (S k) -> n - n / 2 < 2 ^ Z.of_nat k.
Proof.
  intros Hn H. rewrite Nat2Z.inj_succ, Z.pow_succ_r in H by lia. pose proof (Z.div_mod n 2 ltac:(lia)).
  pose proof (Z.mod_pos_bound n 2 ltac:(lia)). lia.
Qed.

Section searching.
Context s qid c ids (Hc : chain_holds s qid c ids).
Hypothesis Hsmall : zlen ids < 2 ^ 63.

(** What lies at an index. *)
Definition here (k : Z) (l : lease D) : Prop := exists i, 0 <= k /\ ids !! Z.to_nat k = Some i /\ s !! i = Some l.

Lemma here_sorted k k' l l' : here k l -> here k' l' -> k <= k' -> key_le l l'.
Proof.
  intros (i & K0 & Ei & El) (j & K0' & Ej & El') Hk. destruct (decide (k = k')) as [->|].
  - replace l' with l by congruence. apply key_le_refl.
  - eapply (ch_sorted _ _ _ _ Hc (Z.to_nat k) (Z.to_nat k')); [lia|done..].
Qed.

Lemma insert_point lp : forall fuel min max,
  0 <= min <= max -> max < zlen ids -> max - min + 1 < 2 ^ Z.of_nat fuel ->
  (forall k l, here k l -> k < min -> key_le l lp) ->
  (forall k l, here k l -> max < k -> key_le lp l) ->
  exists pos, lc_binary_search_insert_point fuel s c lp min max = Done pos /\ 0 <= pos <= zlen ids /\
    (forall k l, here k l -> k < pos -> key_le l lp) /\ (forall k l, here k l -> pos <= k -> key_le lp l).
Proof.
  induction fuel as [|fuel IH]; intros min max Hm Hx Hf Hlo Hhi; [simpl in Hf; lia|]. simpl.
  destruct (mid_range min max) as [-> Hmid]; [lia|lia|]. set (mid := min + (max - min) / 2) in *.
  destruct (chain_in s qid c ids mid Hc ltac:(lia)) as (i & m & -> & Ei & Em). dred.
  assert (Hh : here mid m) by (exists i; split; [lia|done]).
  assert (Hbelow : forall k l, here k l -> k <= mid -> key_le l m) by (intros; by eapply here_sorted).
  assert (Habove : forall k l, here k l -> mid <= k -> key_le m l) by (intros; by eapply here_sorted).
  destruct (key_gt_spec m lp) as [G|G].
  - assert (Gm : key_le lp m) by (destruct (key_le_total lp m); [done|contradiction]).
    destruct (Z.eqb_spec mid min) as [E|N].
    + exists min. split_and!; [done|lia|lia|done|]. intros k l Hk Hle. eapply key_le_trans; [exact Gm|]. apply (Habove k); [done|lia].
    + unfold u64. rewrite Z.mod_small by lia. apply IH; [lia|lia| |done|].
      * pose proof (half_lower (max - min) fuel). unfold mid in *. lia.
      * intros k l Hk Hgt. eapply key_le_trans; [exact Gm|]. apply (Habove k); [done|lia].
  - destruct (key_lt_spec m lp) as [L|L].
    + assert (Lm : key_le m lp) by (destruct (key_le_total m lp); [done|contradiction]).
      unfold u64. rewrite Z.mod_small by lia. destruct (Z.eqb_spec mid max) as [E|N].
      * exists (mid + 1). split_and!; [done|lia|lia| |intros; apply (Hhi k); [done|lia]].
        intros k l Hk Hle. eapply key_le_trans; [|exact Lm]. apply (Hbelow k); [done|lia].
      * apply IH; [lia|lia| | |done].
        -- pose proof (half_upper (max - min) fuel). unfold mid in *. lia.
        -- intros k l Hk Hlt. eapply key_le_trans; [|exact Lm]. apply (Hbelow k); [done|lia].
    + assert (key_le m lp /\ key_le lp m) as [M1 M2] by (unfold key_le in *; lia).
      exists mid. split_and!; [done|lia|lia| |].
      * intros k l Hk Hlt. eapply key_le_trans; [apply (Hbelow k); [done|lia]|done].
      * intros k l Hk Hle. eapply key_le_trans; [exact M2|apply (Habove k); [done|lia]].
Qed.

(** Looking for the lease [id] with the fields [lp]. *)
Context (id : nat) (lp : lease D) (Hid : s !! id = Some lp).

Definition at_pos (k : Z) : Prop := 0 <= k /\ ids !! Z.to_nat k = Some id.

Lemma at_pos_here k : at_pos k -> here k lp.
Proof. intros [? ?]. by exists id. Qed.

Lemma search_below_ok mid m : here mid m -> key_le m lp -> forall fuel min i,
  0 <= min <= i -> i < mid -> i < zlen ids -> (i - min < Z.of_nat fuel) ->
  exists r, search_below fuel s c id lp min i = Done r /\
    match r with Some k => at_pos k /\ k < zlen ids | None => forall k, min <= k <= i -> ~ at_pos k end.
Proof.
  intros Hm Hle. induction fuel as [|fuel IH]; intros min i Hi Him Hz Hf; [lia|]. simpl.
  destruct (chain_in s qid c ids i Hc ltac:(lia)) as (j & l & -> & Ej & El). dred.
  assert (Hh : here i l) by (exists j; split; [lia|done]).
  destruct (decide (j = id)) as [->|N]; [exists (Some i); split; [done|]; split; [|lia]; split; [lia|done]|].
  assert (Hi' : ~ at_pos i) by (intros [_ E]; congruence).
  destruct (Z.eqb_spec i min) as [E|Ne].
  - exists None. split; [done|]. intros k Hk. by replace k with i by lia.
  - simpl. destruct (key_ne_spec l lp) as [K|K].
    + exists None. split; [done|]. intros k Hk Hat. apply K. pose proof (at_pos_here k Hat) as Hk'. split.
      * eapply key_le_trans; [|exact Hle]. eapply here_sorted; [exact Hh|exact Hm|lia].
      * eapply here_sorted; [exact Hk'|exact Hh|lia].
    + unfold u64. rewrite Z.mod_small by lia. destruct (IH min (i - 1)) as (r & E & Hr); [lia..|].
      exists r. split; [done|]. destruct r as [k|]; [done|]. intros k Hk. destruct (decide (k = i)) as [->|]; [done|]. apply Hr. lia.
Qed.

Lemma search_above_ok mid m : here mid m -> key_le lp m -> forall fuel max i,
  mid < i -> 0 <= mid -> max < zlen ids -> (max - i + 1 < Z.of_nat fuel) -> i <= max + 1 ->
  exists r, search_above fuel s c id lp max i = Done r /\
    match r with Some k => at_pos k /\ k < zlen ids | None => forall k, i <= k <= max -> ~ at_pos k end.
Proof.
  intros Hm Hle. induction fuel as [|fuel IH]; intros max i Hi H0 Hz Hf Hx; [lia|]. simpl.
  destruct (Z.ltb_spec max i); [exists None; split; [done|]; lia|].
  destruct (chain_in s qid c ids i Hc ltac:(lia)) as (j & l & -> & Ej & El). dred.
  assert (Hh : here i l) by (exists j; split; [lia|done]).
  destruct (decide (j = id)) as [->|N]; [exists (Some i); split; [done|]; split; [|lia]; split; [lia|done]|].
  assert (Hi' : ~ at_pos i) by (intros [_ E]; congruence).
  destruct (key_ne_spec l lp) as [K|K].
  - exists None. split; [done|]. intros k Hk Hat. apply K. pose proof (at_pos_here k Hat) as Hk'. split.
    + eapply here_sorted; [exact Hh|exact Hk'|lia].
    + eapply key_le_trans; [exact Hle|]. eapply here_sorted; [exact Hm|exact Hh|lia].
  - unfold u64. rewrite Z.mod_small by lia. destruct (IH max (i + 1)) as (r & E & Hr); [lia..|].
    exists r. split; [done|]. destruct r as [k|]; [done|]. intros k Hk. destruct (decide (k = i)) as [->|]; [done|]. apply Hr. lia.
Qed.

Definition found (r : Z) (min max : Z) : Prop :=
  (at_pos r /\ r < zlen ids) \/ (r = SIZE_MAX /\ forall k, min <= k <= max -> ~ at_pos k).

Lemma search_neighbours_ok min max mid m j :
  0 <= min <= mid -> mid <= max < zlen ids -> ids !! Z.to_nat mid = Some j -> s !! j = Some m -> j <> id ->
  key_le m lp -> key_le lp m ->
  exists r, search_neighbours s c id lp min max mid = Done r /\ found r min max.
Proof.
  intros H1 H2 Ej Em N M1 M2. assert (Hh : here mid m) by (exists j; split; [lia|done]).
  assert (Hb : exists r, (if min <? mid then search_below (S (Z.to_nat (mid - min))) s c id lp min (u64 (mid - 1)) else Done None)
      = Done r /\ match r with Some k => at_pos k /\ k < zlen ids | None => forall k, min <= k < mid -> ~ at_pos k end).
  { destruct (Z.ltb_spec min mid); [|exists None; split; [done|lia]]. unfold u64. rewrite Z.mod_small by lia.
    destruct (search_below_ok mid m Hh M1 (S (Z.to_nat (mid - min))) min (mid - 1)) as (r & -> & Hr); [lia..|].
    exists r. split; [done|]. destruct r; [done|]. intros k Hk. apply Hr. lia. }
  assert (Ha : exists r, (if mid <? max then search_above (S (Z.to_nat (max - mid))) s c id lp max (u64 (mid + 1)) else Done None)
      = Done r /\ match r with Some k => at_pos k /\ k < zlen ids | None => forall k, mid < k <= max -> ~ at_pos k end).
  { destruct (Z.ltb_spec mid max); [|exists None; split; [done|lia]]. unfold u64. rewrite Z.mod_small by lia.
    destruct (search_above_ok mid m Hh M2 (S (Z.to_nat (max - mid))) max (mid + 1)) as (r & -> & Hr); [lia..|].
    exists r. split; [done|]. destruct r; [done|]. intros k Hk. apply Hr. lia. }
  unfold search_neighbours. destruct Hb as ([k|] & -> & Hb); dred; [exists k; split; [done|by left]|].
  destruct Ha as ([k|] & -> & Ha); dred; [exists k; split; [done|by left]|].
  exists SIZE_MAX. split; [done|]. right. split; [done|]. intros k Hk.
  destruct (Z.lt_trichotomy k mid) as [?|[->|?]]; [apply Hb; lia| |apply Ha; lia]. intros [_ E]. congruence.
Qed.

Lemma search_lease : forall fuel min max,
  0 <= min -> min <= max + 1 -> max < zlen ids -> max - min + 1 < 2 ^ Z.of_nat fuel ->
  (forall k, at_pos k -> min <= k <= max) ->
  exists r, lc_binary_search_lease (S fuel) s c id lp min max = Done r /\ found r 0 (zlen ids).
Proof.
  assert (Hnot : forall min max, (forall k, at_pos k -> min <= k <= max) -> (forall k, min <= k <= max -> ~ at_pos k) ->
    exists r, Done SIZE_MAX = Done r /\ found r 0 (zlen ids)).
  { intros min max Hk Hn. exists SIZE_MAX. split; [done|]. right. split; [done|]. intros k _ Hp. exact (Hn k (Hk k Hp) Hp). }
  induction fuel as [|fuel IH]; intros min max H0 Hm Hx Hf Hk.
  { simpl in Hf. simpl. rewrite (proj2 (Z.ltb_lt _ _)) by lia. apply (Hnot min max Hk). lia. }
  remember (S fuel) as f. simpl. subst f.
  destruct (Z.ltb_spec max min); [apply (Hnot min max Hk); lia|].
  destruct (mid_range min max) as [-> Hmid]; [lia|lia|]. set (mid := min + (max - min) / 2) in *.
  destruct (chain_in s qid c ids mid Hc ltac:(lia)) as (j & m & -> & Ej & Em). dred.
  assert (Hh : here mid m) by (exists j; split; [lia|done]).
  destruct (key_gt_spec m lp) as [G|G].
  - assert (Hlow : forall k, at_pos k -> k < mid).
    { intros k Hp. destruct (Z.lt_ge_cases k mid) as [|Hge]; [done|]. exfalso. apply G. by eapply here_sorted; [|by apply at_pos_here|]. }
    destruct (Z.eqb_spec mid min) as [E|N].
    + apply (Hnot min max Hk). intros k Hr Hp. specialize (Hlow k Hp). lia.
    + unfold u64. rewrite Z.mod_small by lia. apply IH; [lia|lia|lia| |].
      * pose proof (half_lower (max - min) fuel). unfold mid in *. lia.
      * intros k Hp. specialize (Hlow k Hp). specialize (Hk k Hp). lia.
  - destruct (key_lt_spec m lp) as [L|L].
    + assert (Hhigh : forall k, at_pos k -> mid < k).
      { intros k Hp. destruct (Z.lt_ge_cases mid k) as [|Hge]; [done|]. exfalso. apply L. by eapply here_sorted; [by apply at_pos_here| |]. }
      unfold u64. rewrite Z.mod_small by lia. apply IH; [lia|lia|lia| |].
      * pose proof (half_upper (max - min) fuel). unfold mid in *. lia.
      * intros k Hp. specialize (Hhigh k Hp). specialize (Hk k Hp). lia.
    + destruct (decide (j = id)) as [->|N].
      * exists mid. split; [done|]. left. split; [|lia]. split; [lia|done].
      * destruct (search_neighbours_ok min max mid m j) as (r & -> & Hr); [lia|lia|done|done|done| | |].
        -- unfold key_le in *; lia.
        -- unfold key_le in *; lia.
        -- exists r. split; [done|]. destruct Hr as [Hr|[Hr Hn]]; [by left|right]. split; [done|]. intros k _ Hp. exact (Hn k (Hk k Hp) Hp).
Qed.
End searching.

(** ** The array *)
Lemma array_insert {A} (fa fb : list A) j0 junk x :
  (l ← (if zlen fa <? zlen (fa ++ fb)
        then rest ← rdn (fa ++ fb ++ j0 :: junk) (zlen fa) (zlen (fa ++ fb) - zlen fa);
             wrn (fa ++ fb ++ j0 :: junk) (zlen fa + 1) rest
        else Done (fa ++ fb ++ j0 :: junk));
   wr l (zlen fa) x) = Done (fa ++ x :: fb ++ junk).
Proof.
  pose proof (zlen_nonneg fa). pose proof (zlen_nonneg fb). pose proof (zlen_nonneg junk). rewrite zlen_app.
  assert (Hwr : forall y (r : list A), wr (fa ++ y :: r) (zlen fa) x = Done (fa ++ x :: r)).
  { intros y r. pose proof (zlen_nonneg r). rewrite wr_in by (rewrite zlen_app, zlen_cons; lia). f_equal. unfold zlen. rewrite Nat2Z.id.
    by rewrite insert_app_r_alt, Nat.sub_diag by lia. }
  destruct (Z.ltb_spec (zlen fa) (zlen fa + zlen fb)).
  - replace (zlen fa + zlen fb - zlen fa) with (zlen fb) by lia.
    rewrite rdn_in by (rewrite ?zlen_app, ?zlen_cons; lia). dred.
    assert (take (Z.to_nat (zlen fb)) (drop (Z.to_nat (zlen fa)) (fa ++ fb ++ j0 :: junk)) = fb) as ->.
    { unfold zlen. rewrite !Nat2Z.id. by rewrite drop_app_length, take_app_length. }
    destruct fb as [|b0 fb]; [unfold zlen in *; simpl in *; lia|].
    rewrite wrn_in by (rewrite ?zlen_app, ?zlen_cons, ?zlen_app, ?zlen_cons in *; lia). dred.
    assert (take (Z.to_nat (zlen fa + 1)) (fa ++ (b0 :: fb) ++ j0 :: junk) = fa ++ [b0]) as ->.
    { unfold zlen. rewrite take_app_ge by lia. do 2 f_equal.
      replace (Z.to_nat (Z.of_nat (length fa) + 1) - length fa)%nat with 1%nat by lia. done. }
    assert (drop (Z.to_nat (zlen fa + 1) + length (b0 :: fb)) (fa ++ (b0 :: fb) ++ j0 :: junk) = junk) as ->.
    { unfold zlen. rewrite drop_app_ge by lia. replace (Z.to_nat (Z.of_nat (length fa) + 1) + length (b0 :: fb) - length fa)%nat
        with (length (b0 :: fb) + 1)%nat by lia. by rewrite drop_app_add'. }
    rewrite <- app_assoc. simpl. apply Hwr.
  - destruct fb; [|unfold zlen in *; simpl in *; lia]. dred. simpl. apply Hwr.
Qed.

Lemma array_remove {A} (fa fb junk : list A) y z :
  exists j0, (l ← wr (fa ++ y :: fb ++ junk) (zlen fa) z;
   (if zlen fa <? zlen (fa ++ y :: fb) - 1
    then rest ← rdn l (zlen fa + 1) (zlen (fa ++ y :: fb) - 1 - zlen fa); wrn l (zlen fa) rest
    else Done l)) = Done (fa ++ fb ++ j0 :: junk).
Proof.
  pose proof (zlen_nonneg fa). pose proof (zlen_nonneg fb). pose proof (zlen_nonneg junk). rewrite !zlen_app, !zlen_cons.
  assert (wr (fa ++ y :: fb ++ junk) (zlen fa) z = Done (fa ++ z :: fb ++ junk)) as ->.
  { rewrite wr_in by (rewrite zlen_app, zlen_cons, zlen_app; lia). f_equal. unfold zlen. rewrite Nat2Z.id.
    by rewrite insert_app_r_alt, Nat.sub_diag by lia. }
  dred. destruct (Z.ltb_spec (zlen fa) (zlen fa + (zlen fb + 1) - 1)).
  - replace (zlen fa + (zlen fb + 1) - 1 - zlen fa) with (zlen fb) by lia.
    rewrite rdn_in by (rewrite ?zlen_app, ?zlen_cons, ?zlen_app; lia). dred.
    assert (take (Z.to_nat (zlen fb)) (drop (Z.to_nat (zlen fa + 1)) (fa ++ z :: fb ++ junk)) = fb) as ->.
    { unfold zlen. replace (Z.to_nat (Z.of_nat (length fa) + 1)) with (length fa + 1)%nat by lia. rewrite Nat2Z.id.
      rewrite drop_app_add. simpl. rewrite drop_0. by rewrite take_app_length. }
    rewrite wrn_in by (rewrite ?zlen_app, ?zlen_cons, ?zlen_app; lia).
    exists (nth (length fb) (z :: fb) z). f_equal. unfold zlen. rewrite Nat2Z.id, take_app_length, drop_app_add. do 2 f_equal.
    clear. revert z. induction fb as [|b fb IH]; intros z; [done|]. simpl drop. rewrite (IH b). f_equal.
    change (nth (length (b :: fb)) (z :: b :: fb) z) with (nth (length fb) (b :: fb) z). apply nth_indep. simpl. lia.
  - destruct fb; [|unfold zlen in *; simpl in *; lia]. by exists z.
Qed.

Lemma chain_array s qid c ids :
  chain_holds s qid c ids -> exists junk, lc_list c = (Some <$> ids) ++ junk.
Proof.
  intros Hc. exists (drop (length ids) (lc_list c)). rewrite <- (ch_list _ _ _ _ Hc). by rewrite take_drop.
Qed.

Hypothesis memory : forall n, dmalloc_ok n = true.

(** After growing, if that was needed, there is room for one more. *)
Lemma chain_room s qid c ids :
  chain_holds s qid c ids -> zlen ids < max_leases ->
  exists l j0 junk t, (if nelem c =? total c then lc_grow_chain c else Done c) = Done (mk_chain l t (zlen ids) (growth c)) /\
    l = (Some <$> ids) ++ j0 :: junk /\ zlen l = t /\ t < 2 ^ 61.
Proof.
  intros Hc Hm. destruct (chain_array s qid c ids Hc) as (junk & E). destruct Hc as [Hn [Ht Hlt] Hg _ _ _ _ _].
  unfold max_leases in Hm. pose proof (zlen_nonneg ids) as H0. assert (Hf : zlen (Some <$> ids) = zlen ids) by (unfold zlen; by rewrite length_fmap).
  assert (Hd : zlen (lc_list c) = zlen ids + zlen junk) by (rewrite E, zlen_app; lia).
  destruct (Z.eqb_spec (nelem c) (total c)) as [Eq|Ne].
  - unfold lc_grow_chain. set (d := if growth c =? 0 then LC_GROWTH_DELTA else growth c).
    assert (Hdd : 0 < d < 2 ^ 60) by (unfold d, LC_GROWTH_DELTA; destruct (Z.eqb_spec (growth c) 0); lia).
    unfold u64. rewrite (Z.mod_small (total c + d)), (Z.mod_small (8 * (total c + d))) by lia. rewrite memory.
    replace (8 * (total c + d) / 8) with (total c + d) by (rewrite Z.mul_comm, Z.div_mul; lia).
    assert (rdn (lc_list c) 0 (nelem c) = Done (Some <$> ids)) as ->.
    { rewrite rdn_in by lia. f_equal. rewrite E, Hn. unfold zlen. rewrite Nat2Z.id. change (drop (Z.to_nat 0) ?x) with x.
      rewrite take_app_length'; [done|by rewrite length_fmap]. }
    dred. rewrite wrn_in by (unfold zlen; rewrite ?length_replicate, ?length_fmap; unfold zlen in *; lia). dred.
    exists ((Some <$> ids) ++ replicate (Z.to_nat d) None), None, (replicate (Z.to_nat d - 1) None), (total c + d).
    split_and!.
    + f_equal. rewrite Hn. f_equal. change (Z.to_nat 0) with 0%nat. simpl. f_equal. rewrite drop_replicate. f_equal.
      rewrite length_fmap. unfold zlen in *. lia.
    + f_equal. destruct (Z.to_nat d) as [|k] eqn:Ed; [lia|]. simpl. do 2 f_equal. lia.
    + rewrite zlen_app, Hf. unfold zlen at 2. rewrite length_replicate. lia.
    + lia.
  - destruct junk as [|j0 junk]; [unfold zlen in *; simpl in *; lia|].
    exists (lc_list c), j0, junk, (total c). split_and!; [|done|done|lia]. destruct c. simpl in *. by rewrite Hn.
Qed.

(** ** Linking in *)
Lemma at_index_app s c fa i rest l :
  lc_list c = fa ++ Some i :: rest -> s !! i = Some l -> at_index s c (zlen fa) = Done (i, l).
Proof.
  intros E El. unfold at_index. assert (rd (lc_list c) (zlen fa) = Done (Some i)) as ->.
  { apply rd_Done. split; [apply zlen_nonneg|]. rewrite E. unfold zlen. rewrite Nat2Z.id. by apply list_lookup_middle. }
  dred. rewrite (get_Done _ _ _ El). done.
Qed.

(** The fields other than the links. *)
Definition same_fields (l l' : lease D) : Prop :=
  sort_time l' = sort_time l /\ sort_tiebreaker l' = sort_tiebreaker l /\ data l' = data l.

(** How the store changes when only the links around a place change. *)
Definition links_around s s' (qid : nat) (n p : option nat) (a b : list nat) : Prop :=
  (forall j l, j ∈ a ++ b -> s !! j = Some l ->
     exists l', s' !! j = Some l' /\ relinked (Some qid) n p a b j l l' /\ same_fields l l').

Lemma last_snoc_split (a : list nat) : a = [] \/ exists a' p, a = a' ++ [p].
Proof. destruct a as [|p a' _] using rev_ind; [by left|right]. by exists a', p. Qed.

(** It does when the leases before and after the place get new links. *)
Definition ends_changed s s' (lp : nat) (n p : option nat) (a b : list nat) : Prop :=
  (forall x lx, last a = Some x -> s !! x = Some lx -> s' !! x = Some (set_next n lx)) /\
  (forall x lx, head b = Some x -> s !! x = Some lx -> s' !! x = Some (set_prev p lx)) /\
  (forall x, x <> lp -> last a <> Some x -> head b <> Some x -> s' !! x = s !! x).

Lemma last_in (a : list nat) x : last a = Some x -> x ∈ a.
Proof. intros (a' & ->)%last_Some. rewrite elem_of_app. right. by constructor. Qed.
Lemma head_in (b : list nat) x : head b = Some x -> x ∈ b.
Proof. destruct b; [done|]. intros [= ->]. by constructor. Qed.

Lemma around_apart (a b : list nat) lp : NoDup (a ++ lp :: b) -> (lp ∉ a ++ b) /\ (forall x, last a = Some x -> head b <> Some x).
Proof.
  intros Hn. rewrite <- Permutation_middle in Hn. apply NoDup_cons in Hn as [Hlp Hn]. split; [done|].
  intros x Ha Hb. apply NoDup_app in Hn as (_ & N & _). apply (N x); [by apply last_in|by apply head_in].
Qed.

Lemma ends_around s s' qid lp n p a b : NoDup (a ++ lp :: b) -> ends_changed s s' lp n p a b ->
  links_around s s' qid n p a b /\ forall j, j ∉ lp :: a ++ b -> s' !! j = s !! j.
Proof.
  intros Hn (Ha & Hb & Ho). destruct (around_apart a b lp Hn) as [Hlp Hd]. split.
  - intros j l Hj Ej. unfold relinked. destruct (decide (last a = Some j)) as [La|La]; destruct (decide (head b = Some j)) as [Lb|Lb].
    + by destruct (Hd j La).
    + exists (set_next n l). by rewrite (Ha j l).
    + exists (set_prev p l). by rewrite (Hb j l).
    + exists l. rewrite Ho; [done|by intros ->|done|done].
  - intros j Hj. rewrite elem_of_cons, elem_of_app in Hj. apply Ho; [intros ->; tauto|intros ?%last_in; tauto|intros ?%head_in; tauto].
Qed.

(** Look up in a store with a few known changes. *)
Ltac store_lookup := intros; simplify_eq/=; repeat first [rewrite lookup_insert_eq|rewrite lookup_insert_ne by congruence]; first [reflexivity|congruence].
Ltac store_update x := rewrite (upd_Done _ _ x) by store_lookup; dred.

(** The leases at the place, in a queue or around a gap of it. *)
Lemma ends_exist s qid (ids a b : list nat) lp : linked (Some qid) s ids -> NoDup (a ++ lp :: b) -> (forall j, j ∈ a ++ b -> j ∈ ids) ->
  forall j, last a = Some j \/ head b = Some j -> exists lj, s !! j = Some lj /\ j <> lp.
Proof.
  intros Hl Hn Hin j Hj. destruct (around_apart a b lp Hn) as [Hlp _].
  assert (Hab : j ∈ a ++ b) by (rewrite elem_of_app; destruct Hj; [left; by apply last_in|right; by apply head_in]).
  destruct (list_elem_of_lookup_1 _ _ (Hin j Hab)) as [k Hk]. destruct (Hl k j Hk) as (lj & Ej & _). exists lj. split; [done|]. by intros ->.
Qed.

Lemma link_store s qid lp l a b :
  linked (Some qid) s (a ++ b) -> NoDup (a ++ lp :: b) -> s !! lp = Some l -> next l = None -> prev l = None ->
  exists s',
    (s ← upd s lp (set_lc (Some qid));
     s ← (match last a with Some p => s ← upd s p (set_next (Some lp)); upd s lp (set_prev (Some p)) | None => Done s end);
     match head b with Some n => s ← upd s n (set_prev (Some lp)); upd s lp (set_next (Some n)) | None => Done s end) = Done s' /\
    (exists l', s' !! lp = Some l' /\ next l' = head b /\ prev l' = last a /\ lc l' = Some qid /\ same_fields l l') /\
    links_around s s' qid (Some lp) (Some lp) a b /\
    (forall j, j ∉ lp :: a ++ b -> s' !! j = s !! j).
Proof.
  intros Hl Hn El Ln Lp. pose proof (ends_exist s qid (a ++ b) a b lp Hl Hn (fun _ H => H)) as Hex.
  destruct (around_apart a b lp Hn) as [_ Hd].
  assert (Hgoal : forall s' l', s' !! lp = Some l' -> next l' = head b /\ prev l' = last a /\ lc l' = Some qid /\ same_fields l l' ->
    ends_changed s s' lp (Some lp) (Some lp) a b -> (exists l', s' !! lp = Some l' /\ next l' = head b /\ prev l' = last a /\ lc l' = Some qid /\ same_fields l l') /\
    links_around s s' qid (Some lp) (Some lp) a b /\ (forall j, j ∉ lp :: a ++ b -> s' !! j = s !! j)).
  { intros s' l' E' F' He. split; [by exists l'|]. by apply ends_around. }
  rewrite (upd_Done _ _ _ _ El). dred. destruct (last a) as [p|] eqn:La, (head b) as [n|] eqn:Lb.
  - destruct (Hex p) as (lp' & Ep & Np); [by left|]. destruct (Hex n) as (ln & En & Nn); [by right|]. assert (p <> n) by (intros ->; by apply (Hd n)).
    store_update lp'. store_update (set_lc (Some qid) l). store_update ln. store_update (set_prev (Some p) (set_lc (Some qid) l)).
    eexists. split; [done|]. eapply Hgoal; [by rewrite lookup_insert_eq|done|]. unfold ends_changed. rewrite La, Lb. split_and!; store_lookup.
  - destruct (Hex p) as (lp' & Ep & Np); [by left|]. store_update lp'. store_update (set_lc (Some qid) l).
    eexists. split; [done|]. eapply Hgoal; [by rewrite lookup_insert_eq|done|]. unfold ends_changed. rewrite La, Lb. split_and!; store_lookup.
  - destruct (Hex n) as (ln & En & Nn); [by right|]. dred. store_update ln. store_update (set_lc (Some qid) l).
    eexists. split; [done|]. eapply Hgoal; [by rewrite lookup_insert_eq|done|]. unfold ends_changed. rewrite La, Lb. split_and!; store_lookup.
  - eexists. split; [done|]. eapply Hgoal; [by rewrite lookup_insert_eq|done|]. unfold ends_changed. rewrite La, Lb. split_and!; store_lookup.
Qed.

(** The order after an insertion. *)
Lemma sorted_insert s s' a lp l l' b :
  sorted s (a ++ b) -> s' !! lp = Some l' -> same_fields l l' ->
  (forall j lj, j ∈ a ++ b -> s' !! j = Some lj -> exists lj0, s !! j = Some lj0 /\ same_fields lj0 lj) ->
  (forall j lj, j ∈ a -> s !! j = Some lj -> key_le lj l) ->
  (forall j lj, j ∈ b -> s !! j = Some lj -> key_le l lj) ->
  sorted s' (a ++ lp :: b).
Proof.
  intros Hs Elp (T & B & _) Hf Ha Hb k k' i j li lj Hk Ei Ej Eli Elj.
  assert (Hold : forall x lx, x ∈ a ++ b -> s' !! x = Some lx -> exists l0, s !! x = Some l0 /\ sort_time lx = sort_time l0 /\ sort_tiebreaker lx = sort_tiebreaker l0).
  { intros x lx Hx Ex. destruct (Hf x lx Hx Ex) as (l0 & E0 & (? & ? & _)). eauto. }
  apply lookup_middle in Ei as [[Hka Ei]|[[-> ->]|(m & -> & Ei)]]; apply lookup_middle in Ej as [[Hka' Ej]|[[-> ->]|(m' & -> & Ej)]]; try lia.
  - destruct (Hold i li) as (li0 & Ei0 & Ti & Bi); [apply elem_of_app; left; by eapply list_elem_of_lookup_2|done|].
    destruct (Hold j lj) as (lj0 & Ej0 & Tj & Bj); [apply elem_of_app; left; by eapply list_elem_of_lookup_2|done|].
    pose proof (Hs k k' i j li0 lj0 Hk ltac:(by apply lookup_app_l_Some) ltac:(by apply lookup_app_l_Some) Ei0 Ej0). unfold key_le in *. lia.
  - destruct (Hold i li) as (li0 & Ei0 & Ti & Bi); [apply elem_of_app; left; by eapply list_elem_of_lookup_2|done|].
    pose proof (Ha i li0 ltac:(by eapply list_elem_of_lookup_2) Ei0). replace lj with l' by congruence. unfold key_le in *. lia.
  - destruct (Hold i li) as (li0 & Ei0 & Ti & Bi); [apply elem_of_app; left; by eapply list_elem_of_lookup_2|done|].
    destruct (Hold j lj) as (lj0 & Ej0 & Tj & Bj); [apply elem_of_app; right; by eapply list_elem_of_lookup_2|done|].
    pose proof (Hs k (length a + m')%nat i j li0 lj0 ltac:(lia) ltac:(by apply lookup_app_l_Some) ltac:(by rewrite lookup_app_tail) Ei0 Ej0).
    unfold key_le in *. lia.
  - destruct (Hold j lj) as (lj0 & Ej0 & Tj & Bj); [apply elem_of_app; right; by eapply list_elem_of_lookup_2|done|].
    pose proof (Hb j lj0 ltac:(by eapply list_elem_of_lookup_2) Ej0). replace li with l' by congruence. unfold key_le in *. lia.
  - destruct (Hold i li) as (li0 & Ei0 & Ti & Bi); [apply elem_of_app; right; by eapply list_elem_of_lookup_2|done|].
    destruct (Hold j lj) as (lj0 & Ej0 & Tj & Bj); [apply elem_of_app; right; by eapply list_elem_of_lookup_2|done|].
    pose proof (Hs (length a + m)%nat (length a + m')%nat i j li0 lj0 ltac:(lia) ltac:(by rewrite lookup_app_tail) ltac:(by rewrite lookup_app_tail) Ei0 Ej0).
    unfold key_le in *. lia.
Qed.

(** The array and the links after [lc_link_lcp] and the updates of the
    neighbours. *)
Lemma add_pos_run s qid c a b lp l :
  chain_holds s qid c (a ++ b) -> zlen (a ++ b) < max_leases -> lp ∉ a ++ b -> s !! lp = Some l ->
  next l = None -> prev l = None ->
  exists s' arr junk t, lc_add_lease_pos s c qid lp (zlen a) = Done (s', mk_chain arr t (zlen (a ++ lp :: b)) (growth c)) /\
    arr = (Some <$> (a ++ lp :: b)) ++ junk /\ zlen arr = t /\ t < 2 ^ 61 /\
    (exists l', s' !! lp = Some l' /\ next l' = head b /\ prev l' = last a /\ lc l' = Some qid /\ same_fields l l') /\
    links_around s s' qid (Some lp) (Some lp) a b /\ (forall j, j ∉ lp :: a ++ b -> s' !! j = s !! j).
Proof.
  intros Hc Hm Hlp El Ln Lp. destruct (chain_room s qid c (a ++ b) Hc Hm) as (arr0 & j0 & junk & t & Er & Ea & Ht & Hlt).
  assert (Hn : NoDup (a ++ lp :: b)) by (rewrite <- Permutation_middle; constructor; [done|apply Hc]).
  destruct (link_store s qid lp l a b (ch_linked _ _ _ _ Hc) Hn El Ln Lp) as (s' & Es & Hl' & Ha & Ho).
  apply bind_Done_inv in Es as (s1 & E1 & Es). apply bind_Done_inv in Es as (s2 & E2 & Es).
  unfold max_leases in Hm. pose proof (zlen_nonneg a). pose proof (zlen_nonneg b). rewrite zlen_app in Hm.
  rewrite fmap_app, <- app_assoc in Ea.
  assert (Hza : zlen (Some <$> a) = zlen a) by (unfold zlen; by rewrite length_fmap).
  assert (Hzab : zlen ((Some <$> a) ++ (Some <$> b)) = zlen (a ++ b)) by (rewrite !zlen_app; unfold zlen; by rewrite !length_fmap).
  set (arr := (Some <$> a) ++ Some lp :: (Some <$> b) ++ junk).
  unfold lc_add_lease_pos, lc_link_lcp. rewrite Er. dred. cbn [lc_list total nelem growth].
  pose proof (array_insert (Some <$> a) (Some <$> b) j0 junk (Some lp)) as Ai. rewrite Hza, Hzab, <- Ea in Ai.
  apply bind_Done_inv in Ai as (l1 & Ai1 & Ai2). rewrite Ai1. dred. rewrite Ai2. dred. rewrite E1. dred.
  assert (Hu : u64 (zlen (a ++ b) + 1) = zlen (a ++ lp :: b)).
  { rewrite !zlen_app, zlen_cons. unfold u64. rewrite Z.mod_small; lia. }
  rewrite Hu. fold arr. cbn [nelem]. set (c1 := mk_chain arr t _ _).
  (* the neighbours *)
  assert (N1 : (if 0 <? zlen a then '(p, _) ← at_index s1 c1 (zlen a - 1); s0 ← upd s1 p (set_next (Some lp)); upd s0 lp (set_prev (Some p)) else Done s1) = Done s2).
  { destruct (last_snoc_split a) as [->|(a' & p & ->)]; [exact E2|]. rewrite last_snoc in E2.
    assert (zlen (a' ++ [p]) = zlen a' + 1) as Hz by (by rewrite zlen_app). rewrite Hz. pose proof (zlen_nonneg a').
    rewrite (proj2 (Z.ltb_lt _ _)) by lia. replace (zlen a' + 1 - 1) with (zlen (Some <$> a')) by (unfold zlen; rewrite length_fmap; lia).
    assert (exists lp', s1 !! p = Some lp') as (lp' & Ep).
    { unfold upd, get in E2. destruct (s1 !! p); [eauto|done]. }
    rewrite (at_index_app s1 c1 (Some <$> a') p (Some lp :: (Some <$> b) ++ junk) lp'); [exact E2| |done].
    unfold c1, arr. simpl. by rewrite fmap_app, <- app_assoc. }
  rewrite N1. dred.
  assert (N2 : (if zlen a <? u64 (zlen (a ++ lp :: b) - 1) then '(n, _) ← at_index s2 c1 (zlen a + 1); s0 ← upd s2 n (set_prev (Some lp)); upd s0 lp (set_next (Some n)) else Done s2) = Done s').
  { rewrite zlen_app, zlen_cons. unfold u64. rewrite Z.mod_small by lia. destruct b as [|n b].
    - change (zlen (@nil nat)) with 0. by rewrite (proj2 (Z.ltb_ge _ _)) by lia.
    - rewrite (zlen_cons n) in *. pose proof (zlen_nonneg b). rewrite (proj2 (Z.ltb_lt _ _)) by lia. simpl in Es.
      assert (exists ln, s2 !! n = Some ln) as (ln & En). { unfold upd, get in Es. destruct (s2 !! n); [eauto|done]. }
      replace (zlen a + 1) with (zlen ((Some <$> a) ++ [Some lp])) by (rewrite zlen_app; unfold zlen; rewrite length_fmap; done).
      rewrite (at_index_app s2 c1 ((Some <$> a) ++ [Some lp]) n ((Some <$> b) ++ junk) ln); [exact Es| |done].
      unfold c1, arr. simpl. by rewrite <- app_assoc. }
  rewrite N2. dred. exists s', arr, junk, t. split_and!; try done.
  - unfold arr. by rewrite fmap_app, <- app_assoc.
  - rewrite <- Ht, Ea. unfold arr. autorewrite with dhcp. lia.
Qed.

(** Everything but the links and keys is as before. *)
Lemma links_around_only s s' qid n p a b x l l' :
  links_around s s' qid n p a b -> s !! x = Some l -> s' !! x = Some l' -> same_fields l l' ->
  (forall j, j ∉ x :: a ++ b -> s' !! j = s !! j) -> only_links s s' (x :: a ++ b).
Proof.
  intros Ha El El' (T & _ & Dl) Ho. split; [done|]. intros j lj Ej. destruct (decide (j = x)) as [->|N].
  - exists l'. replace lj with l by congruence. done.
  - destruct (decide (j ∈ a ++ b)) as [Hj|Hj].
    + destruct (Ha j lj Hj Ej) as (l1 & E1 & _ & (? & _ & ?)). eauto.
    + exists lj. split; [|done]. rewrite Ho; [done|]. by rewrite not_elem_of_cons.
Qed.

Lemma links_around_back s s' qid n p a b j lj :
  linked (Some qid) s (a ++ b) -> links_around s s' qid n p a b -> j ∈ a ++ b -> s' !! j = Some lj ->
  exists l0, s !! j = Some l0 /\ same_fields l0 lj.
Proof.
  intros Hl Ha Hj Ej. apply list_elem_of_lookup_1 in Hj as [k Hk]. destruct (Hl k j Hk) as (l0 & E0 & _).
  destruct (Ha j l0 ltac:(by eapply list_elem_of_lookup_2) E0) as (l1 & E1 & _ & F). exists l0. split; [done|]. congruence.
Qed.

Lemma add_pos_ok s qid c a b lp l :
  chain_holds s qid c (a ++ b) -> zlen (a ++ b) < max_leases -> lp ∉ a ++ b -> s !! lp = Some l ->
  next l = None -> prev l = None -> sort_tiebreaker l <= LONG_MAX ->
  (forall j lj, j ∈ a -> s !! j = Some lj -> key_le lj l) ->
  (forall j lj, j ∈ b -> s !! j = Some lj -> key_le l lj) ->
  exists s' c', lc_add_lease_pos s c qid lp (zlen a) = Done (s', c') /\ chain_holds s' qid c' (a ++ lp :: b) /\
    only_links s s' (lp :: a ++ b).
Proof.
  intros Hc Hm Hlp El Ln Lp Ltie Ha Hb.
  destruct (add_pos_run s qid c a b lp l Hc Hm Hlp El Ln Lp) as (s' & arr & junk & t & E & Earr & Ht & Hlt & (l' & El' & N' & P' & C' & F) & Hr & Ho).
  assert (Hn : NoDup (a ++ lp :: b)) by (rewrite <- Permutation_middle; constructor; [done|apply Hc]).
  pose proof (ch_linked _ _ _ _ Hc) as Hl.
  do 2 eexists. split; [exact E|]. split; [|by eapply links_around_only].
  assert (Hz : zlen (a ++ lp :: b) <= t).
  { rewrite <- Ht, Earr. unfold zlen. rewrite (length_app (Some <$> _)), length_fmap. lia. }
  split; simpl; try done.
  - apply Hc.
  - rewrite Earr. rewrite take_app_length'; [done|by rewrite length_fmap].
  - eapply (linked_insert (Some qid) s s' a lp b l'); try done. intros j lj Hj Ej. destruct (Hr j lj Hj Ej) as (lj' & Ej' & R & _). eauto.
  - eapply (sorted_insert s s' a lp l l' b); try done; [apply Hc|]. intros j lj Hj Ej. by eapply links_around_back.
  - intros i li Hi Ei. destruct (decide (i = lp)) as [->|N].
    + replace li with l' by congruence. destruct F as (_ & -> & _). done.
    + assert (Hi' : i ∈ a ++ b) by (rewrite <- Permutation_middle in Hi; by apply elem_of_cons in Hi as [?|?]).
      destruct (links_around_back s s' qid _ _ a b i li Hl Hr Hi' Ei) as (l0 & E0 & (_ & -> & _)). by eapply (ch_ties _ _ _ _ Hc).
Qed.

Lemma chain_links s s' qid c ids : chain_holds s qid c ids -> same_links s s' ids -> chain_holds s' qid c ids.
Proof.
  intros [H1 H2 H3 H4 H5 H6 H7 H8] Hs.
  assert (Hback : forall j lj, j ∈ ids -> s' !! j = Some lj -> exists l0, s !! j = Some l0 /\
    sort_time lj = sort_time l0 /\ sort_tiebreaker lj = sort_tiebreaker l0).
  { intros j lj Hj Ej. apply list_elem_of_lookup_1 in Hj as (m & Em). destruct (H5 m j Em) as (l0 & E0 & _).
    destruct (Hs j l0) as (d & E'); [by eapply list_elem_of_lookup_2|done|]. exists l0. replace lj with (set_data d l0) by congruence. done. }
  split; try done.
  - by eapply linked_links.
  - intros k k' x y lx ly Hk Ex Ey Elx Ely.
    destruct (Hback x lx ltac:(by eapply list_elem_of_lookup_2) Elx) as (lx0 & Ex0 & ? & ?).
    destruct (Hback y ly ltac:(by eapply list_elem_of_lookup_2) Ely) as (ly0 & Ey0 & ? & ?).
    pose proof (H7 k k' x y lx0 ly0 Hk Ex Ey Ex0 Ey0). unfold key_le in *. lia.
  - intros j lj Hj Ej. destruct (Hback j lj Hj Ej) as (l0 & E0 & _ & ->). by eapply H8.
Qed.

(** The new lease at the end: it is due no earlier than the last. *)
Lemma add_last s qid c ids lp l j last :
  chain_holds s qid c ids -> zlen ids < max_leases -> lp ∉ ids -> s !! lp = Some l -> next l = None -> prev l = None ->
  sort_tiebreaker l <= LONG_MAX -> ids !! Z.to_nat (zlen ids - 1) = Some j -> s !! j = Some last -> key_le last l ->
  exists s' c', lc_add_lease_pos s c qid lp (zlen ids) = Done (s', c') /\ chain_holds s' qid c' (ids ++ [lp]) /\
    only_links s s' (lp :: ids).
Proof.
  intros Hc Hm Hlp El Ln Lp Lt Ej Elast Hle.
  destruct (add_pos_ok s qid c ids [] lp l) as (s' & c' & E & Hh & Ho); rewrite ?app_nil_r; try done.
  - intros i li Hi Ei. eapply key_le_trans; [|exact Hle]. apply list_elem_of_lookup_1 in Hi as [k Hk].
    pose proof (lookup_lt_Some _ _ _ Hk). destruct (decide (k = Z.to_nat (zlen ids - 1))) as [->|].
    + replace li with last by congruence. apply key_le_refl.
    + eapply (ch_sorted _ _ _ _ Hc k (Z.to_nat (zlen ids - 1))); [unfold zlen in *; lia|done..].
  - by intros i li ?%not_elem_of_nil.
  - rewrite app_nil_r in Ho. eauto.
Qed.

Lemma set_tie_links s lp l v ids : s !! lp = Some l -> only_links s (<[lp := set_tiebreaker v l]> s) (lp :: ids).
Proof. intros. apply only_links_upd; [done|by constructor|done|done]. Qed.

Lemma add_sorted_ok rnd s qid c ids lp :
  chain_holds s qid c ids -> zlen ids < max_leases -> lp ∉ ids -> detached s lp ->
  exists rnd' s' c' a b, lc_add_sorted_lease rnd s qid c lp = Done (rnd', s', c') /\ ids = a ++ b /\
    chain_holds s' qid c' (a ++ lp :: b) /\ only_links s s' (lp :: ids).
Proof.
  intros Hc Hm Hlp (l & El & Ln & Lp & _). unfold lc_add_sorted_lease. rewrite (ch_nelem _ _ _ _ Hc).
  assert (Hset : forall v, chain_holds (<[lp := set_tiebreaker v l]> s) qid c ids).
  { intros v. eapply chain_links; [exact Hc|]. apply same_links_frame. intros i Hi. apply lookup_insert_ne. by intros ->. }
  assert (Hnew : forall v, (<[lp := set_tiebreaker v l]> s : store D) !! lp = Some (set_tiebreaker v l)) by (intros; apply lookup_insert_eq).
  destruct (Z.eqb_spec (zlen ids) 0) as [E0|N0].
  { destruct ids; [|unfold zlen in E0; simpl in E0; lia]. rewrite (upd_Done _ _ _ _ El). dred.
    destruct (add_pos_ok _ qid c [] [] lp _ (Hset 0) Hm Hlp (Hnew 0)) as (s' & c' & E & Hh & Ho); try done; try by intros ? ? ?%not_elem_of_nil.
    change (zlen (@nil nat)) with 0 in E. rewrite E. dred. exists rnd, s', c', [], []. split_and!; [done|done|done|].
    eapply only_links_trans; [by apply set_tie_links|done]. }
  pose proof (zlen_nonneg ids). rewrite (get_Done _ _ _ El). dred.
  destruct (chain_in s qid c ids (zlen ids - 1) Hc ltac:(lia)) as (j & last & Eat & Ej & Elast). rewrite Eat. dred.
  assert (Njlp : j <> lp) by (intros ->; apply Hlp; by eapply list_elem_of_lookup_2).
  assert (Hend : forall v, key_le last (set_tiebreaker v l) -> v <= LONG_MAX ->
    exists rnd' s' c' a b, ('(s, c) ← lc_add_lease_pos (<[lp := set_tiebreaker v l]> s) c qid lp (zlen ids); Done (rnd, s, c)) = Done (rnd', s', c') /\
      ids = a ++ b /\ chain_holds s' qid c' (a ++ lp :: b) /\ only_links s s' (lp :: ids)).
  { intros v Hle Hv. destruct (add_last _ qid c ids lp _ j last (Hset v) Hm Hlp (Hnew v) Ln Lp Hv Ej) as (s' & c' & E & Hh & Ho);
      [by rewrite lookup_insert_ne|done|]. rewrite E. dred. exists rnd, s', c', ids, []. rewrite app_nil_r. split_and!; [done|done|done|].
    eapply only_links_trans; [by apply set_tie_links|done]. }
  assert (Tmax : sort_tiebreaker last <= LONG_MAX) by (eapply (ch_ties _ _ _ _ Hc j); [by eapply list_elem_of_lookup_2|done]).
  rewrite !(upd_Done _ _ _ _ El). dred.
  destruct (Z.ltb_spec (sort_time last) (sort_time l)); [dred; apply Hend; [left; simpl; lia|done]|].
  destruct (Z.eqb_spec (sort_time l) (sort_time last)).
  { dred. apply Hend; [right; simpl; split; [lia|]|]; destruct (Z.ltb_spec (sort_tiebreaker last) LONG_MAX); lia. }
  destruct (random rnd) as [r rnd'] eqn:Er. assert (Hr : r <= LONG_MAX).
  { injection Er as <- _. pose proof (Z.mod_pos_bound (default 0 (head rnd)) (2 ^ 31) ltac:(lia)). unfold LONG_MAX. lia. }
  rewrite (upd_Done _ _ _ _ El). dred. set (s1 := <[lp := set_tiebreaker r l]> s) in *. unfold max_leases in *.
  unfold u64. rewrite Z.mod_small by lia.
  destruct (insert_point s1 qid c ids (Hset r) ltac:(lia) (set_tiebreaker r l) depth 0 (zlen ids - 1)) as (pos & -> & Hpos & Hlo & Hhi).
  { lia. } { lia. } { unfold depth. simpl. lia. } { intros k ll (i & ? & _) ?. lia. }
  { intros k ll (i & ? & Ei & _) Hk. apply lookup_lt_Some in Ei. unfold zlen in *. lia. }
  dred. set (np := Z.to_nat pos).
  destruct (add_pos_ok s1 qid c (take np ids) (drop np ids) lp (set_tiebreaker r l)) as (s' & c' & E & Hh & Ho);
    rewrite ?take_drop; try done; [apply Hset|apply Hnew| | |].
  - intros i li Hi Ei. apply list_elem_of_lookup_1 in Hi as [k Hk]. apply lookup_take_Some in Hk as [Hk Hkn].
    apply (Hlo (Z.of_nat k)); [|lia]. exists i. rewrite Nat2Z.id. split_and!; [lia|done|done].
  - intros i li Hi Ei. apply list_elem_of_lookup_1 in Hi as [k Hk]. rewrite lookup_drop in Hk.
    apply (Hhi (Z.of_nat (np + k))); [|lia]. exists i. rewrite Nat2Z.id. split_and!; [lia|done|done].
  - assert (zlen (take np ids) = pos) as Hz by (unfold zlen in *; rewrite length_take; lia). rewrite Hz in E. rewrite E. dred.
    exists rnd', s', c', (take np ids), (drop np ids). rewrite take_drop in *. split_and!; [done|done|done|].
    eapply only_links_trans; [by apply set_tie_links|done].
Qed.

(** ** Unlinking *)
Lemma unlink_store s qid lp l a b :
  linked (Some qid) s (a ++ lp :: b) -> NoDup (a ++ lp :: b) -> s !! lp = Some l ->
  exists s', unlink_links (<[lp := set_lc None l]> s) lp = Done s' /\
    (exists l', s' !! lp = Some l' /\ next l' = None /\ prev l' = None /\ lc l' = None /\ same_fields l l') /\
    links_around s s' qid (head b) (last a) a b /\
    (forall j, j ∉ lp :: a ++ b -> s' !! j = s !! j).
Proof.
  intros Hl Hn El. destruct (linked_get (Some qid) s a lp b Hl) as (l0 & E0 & Nl & _ & Pl). replace l0 with l in * by congruence. clear l0 E0.
  assert (Hex := ends_exist s qid (a ++ lp :: b) a b lp Hl Hn ltac:(intros j Hj; rewrite <- Permutation_middle; by constructor)).
  destruct (around_apart a b lp Hn) as [_ Hd].
  assert (Hgoal : forall s' l', s' !! lp = Some l' -> next l' = None /\ prev l' = None /\ lc l' = None /\ same_fields l l' ->
    ends_changed s s' lp (head b) (last a) a b -> (exists l', s' !! lp = Some l' /\ next l' = None /\ prev l' = None /\ lc l' = None /\ same_fields l l') /\
    links_around s s' qid (head b) (last a) a b /\ (forall j, j ∉ lp :: a ++ b -> s' !! j = s !! j)).
  { intros s' l' E' F' He. split; [by exists l'|]. by apply ends_around. }
  unfold unlink_links. rewrite (get_Done _ lp (set_lc None l)) by apply lookup_insert_eq. dred. cbn [next prev set_lc]. rewrite Nl, Pl.
  destruct (last a) as [p|] eqn:La, (head b) as [n|] eqn:Lb.
  - destruct (Hex p) as (lp' & Ep & Np); [by left|]. destruct (Hex n) as (ln & En & Nn); [by right|]. assert (p <> n) by (intros ->; by apply (Hd n)).
    store_update ln. store_update (set_prev None ln). store_update lp'. store_update (set_next None lp'). store_update (set_lc None l).
    store_update (set_prev None (set_lc None l)).
    eexists. split; [done|]. eapply Hgoal; [by rewrite lookup_insert_eq|done|]. unfold ends_changed. rewrite La, Lb. split_and!; store_lookup.
  - destruct (Hex p) as (lp' & Ep & Np); [by left|]. dred. store_update lp'. store_update (set_lc None l).
    eexists. split; [done|]. eapply Hgoal; [by rewrite lookup_insert_eq|done|]. unfold ends_changed. rewrite La, Lb. split_and!; store_lookup.
  - destruct (Hex n) as (ln & En & Nn); [by right|]. dred. store_update ln. store_update (set_lc None l).
    eexists. split; [done|]. eapply Hgoal; [by rewrite lookup_insert_eq|done|]. unfold ends_changed. rewrite La, Lb. split_and!; store_lookup.
  - eexists. split; [done|]. eapply Hgoal; [by rewrite lookup_insert_eq|done|]. unfold ends_changed. rewrite La, Lb. split_and!; store_lookup.
Qed.

Lemma sorted_sublist s s' a lp b :
  sorted s (a ++ lp :: b) ->
  (forall j lj, j ∈ a ++ b -> s' !! j = Some lj -> exists lj0, s !! j = Some lj0 /\ same_fields lj0 lj) ->
  sorted s' (a ++ b).
Proof.
  intros Hs Hf k k' i j li lj Hk Ei Ej Eli Elj.
  destruct (Hf i li ltac:(by eapply list_elem_of_lookup_2) Eli) as (li0 & Ei0 & (Ti & Bi & _)).
  destruct (Hf j lj ltac:(by eapply list_elem_of_lookup_2) Elj) as (lj0 & Ej0 & (Tj & Bj & _)).
  assert (Hup : forall m x, (a ++ b) !! m = Some x -> (a ++ lp :: b) !! (if decide (m < length a)%nat then m else S m) = Some x).
  { intros m x Em. destruct (decide (m < length a)%nat) as [Hm|Hm].
    - rewrite lookup_app_l in Em |- * by done. done.
    - rewrite lookup_app_r in Em by lia. replace (S m) with (S (length a + (m - length a))) by lia. by rewrite lookup_app_after. }
  assert (Hlt : ((if decide (k < length a) then k else S k) < (if decide (k' < length a) then k' else S k'))%nat)
    by (destruct (decide (k < length a)%nat), (decide (k' < length a)%nat); lia).
  pose proof (Hs _ _ _ _ _ _ Hlt (Hup k i Ei) (Hup k' j Ej) Ei0 Ej0). unfold key_le in *. lia.
Qed.

Lemma unlink_pos_ok s qid c a lp b :
  chain_holds s qid c (a ++ lp :: b) ->
  exists s' c', lc_unlink_lease_pos s c (zlen a) = Done (s', c') /\ chain_holds s' qid c' (a ++ b) /\
    detached s' lp /\ only_links s s' (a ++ lp :: b).
Proof.
  intros Hc. destruct (chain_array s qid c _ Hc) as (junk & Earr). pose proof (ch_linked _ _ _ _ Hc) as Hl.
  pose proof (ch_nodup _ _ _ _ Hc) as Hn. destruct (linked_get (Some qid) s a lp b Hl) as (l & El & _).
  destruct (unlink_store s qid lp l a b Hl Hn El) as (s' & Es & (l' & El' & N' & P' & C' & F) & Hr & Ho).
  rewrite fmap_app, fmap_cons, <- app_assoc in Earr. simpl in Earr.
  assert (Hza : zlen (Some <$> a) = zlen a) by (unfold zlen; by rewrite length_fmap).
  assert (Hzb : zlen (Some <$> b) = zlen b) by (unfold zlen; by rewrite length_fmap).
  pose proof (at_index_app s c (Some <$> a) lp ((Some <$> b) ++ junk) l Earr El) as Eat. rewrite Hza in Eat.
  unfold lc_unlink_lease_pos, lc_unlink_lcp. rewrite Eat. dred. rewrite (upd_Done _ _ _ _ El). dred.
  destruct (array_remove (Some <$> a) (Some <$> b) junk (Some lp) None) as (j0 & Er).
  destruct Hc as [Hnel [Ht Hlt] Hg _ _ _ Hsrt Hties]. pose proof (zlen_nonneg a). pose proof (zlen_nonneg b).
  rewrite <- Earr, Hza in Er. rewrite Hnel. assert (Hu : u64 (zlen (a ++ lp :: b) - 1) = zlen a + zlen b).
  { unfold u64. rewrite zlen_app, zlen_cons in *. rewrite Z.mod_small by lia. lia. }
  rewrite Hu. apply bind_Done_inv in Er as (arr1 & -> & Er). dred.
  replace (zlen ((Some <$> a) ++ Some lp :: (Some <$> b))) with (zlen a + (zlen b + 1)) in Er by (rewrite zlen_app, zlen_cons; lia).
  rewrite zlen_app, zlen_cons. replace (zlen a + (zlen b + 1) - 1) with (zlen a + zlen b) in * by lia. rewrite Er. dred. rewrite Es. dred.
  do 2 eexists. split; [done|].
  assert (Hn2 : NoDup (a ++ b)) by (eapply sublist_NoDup; [exact Hn|]; apply sublist_app; [done|]; by constructor).
  assert (Hback : forall j lj, j ∈ a ++ b -> s' !! j = Some lj -> exists lj0, s !! j = Some lj0 /\ same_fields lj0 lj).
  { intros j lj Hj Ej. assert (Hj' : j ∈ a ++ lp :: b) by (rewrite <- Permutation_middle; by constructor).
    apply list_elem_of_lookup_1 in Hj' as [k Hk]. destruct (Hl k j Hk) as (lj0 & Ej0 & _).
    destruct (Hr j lj0 Hj Ej0) as (l1 & E1 & _ & Fj). exists lj0. split; [done|]. congruence. }
  split; [|split].
  - split; cbn [nelem total lc_list growth].
    + by rewrite zlen_app.
    + rewrite Earr in Ht. autorewrite with dhcp in *. rewrite Hza, Hzb in *. lia.
    + done.
    + rewrite app_assoc, <- fmap_app, take_app_length'; [done|by rewrite length_fmap].
    + eapply (linked_remove (Some qid) s s' a lp b); [done|done|]. intros j lj Hj Ej. destruct (Hr j lj Hj Ej) as (lj' & Ej' & R & _). eauto.
    + done.
    + by eapply sorted_sublist.
    + intros i li Hi Ei. destruct (Hback i li Hi Ei) as (l0 & E0 & (_ & -> & _)). eapply Hties; [|done].
      rewrite <- Permutation_middle. by constructor.
  - exists l'. done.
  - rewrite <- Permutation_middle. eapply (links_around_only s s' qid (head b) (last a) a b lp l l'); done.
Qed.

Lemma unlink_lease_ok s qid c a lp b :
  chain_holds s qid c (a ++ lp :: b) -> 
  exists s' c', lc_unlink_lease s c lp = Done (s', c') /\ chain_holds s' qid c' (a ++ b) /\
    detached s' lp /\ only_links s s' (a ++ lp :: b).
Proof.
  intros Hc. destruct (linked_get (Some qid) s a lp b (ch_linked _ _ _ _ Hc)) as (l & El & _).
  unfold lc_unlink_lease. rewrite (get_Done _ _ _ El). dred. rewrite (ch_nelem _ _ _ _ Hc).
  pose proof (zlen_nonneg a). pose proof (zlen_nonneg b).
  assert (Hz : zlen (a ++ lp :: b) = zlen a + zlen b + 1) by (rewrite zlen_app, zlen_cons; lia).
  pose proof (ch_total _ _ _ _ Hc) as [_ Hlt]. rewrite (ch_nelem _ _ _ _ Hc) in Hlt. unfold u64. rewrite Z.mod_small by lia.
  assert (Hpos : at_pos (a ++ lp :: b) lp (zlen a)).
  { split; [done|]. unfold zlen. rewrite Nat2Z.id. apply lookup_app_last. }
  destruct (search_lease s qid c (a ++ lp :: b) Hc ltac:(lia) lp l El 64 0 (zlen (a ++ lp :: b) - 1)) as (r & E & Hr); [lia|lia|lia|lia| |].
  { intros k [Hk Ek]. apply lookup_lt_Some in Ek. unfold zlen in *. lia. }
  unfold depth. rewrite E. dred. destruct Hr as [[[Hr0 Hr1] Hr2]|[_ Hno]]; [|by destruct (Hno (zlen a) ltac:(lia))].
  assert (r = zlen a) as ->.
  { assert (Z.to_nat r = Z.to_nat (zlen a)); [|lia]. eapply NoDup_lookup; [apply Hc|exact Hr1|apply Hpos]. }
  rewrite (proj2 (Z.eqb_neq _ _)) by (unfold SIZE_MAX; lia). by apply unlink_pos_ok.
Qed.

Lemma unlink_missing s qid c ids lp :
  chain_holds s qid c ids -> lp ∉ ids -> is_Some (s !! lp) -> ids <> [] -> lc_unlink_lease s c lp = Fatal.
Proof.
  intros Hc Hlp [l El] Hne. unfold lc_unlink_lease. rewrite (get_Done _ _ _ El). dred. rewrite (ch_nelem _ _ _ _ Hc).
  pose proof (ch_total _ _ _ _ Hc) as [_ Hlt]. rewrite (ch_nelem _ _ _ _ Hc) in Hlt.
  assert (0 < zlen ids) by (destruct ids; [done|]; rewrite zlen_cons; pose proof (zlen_nonneg ids); lia).
  unfold u64. rewrite Z.mod_small by lia.
  destruct (search_lease s qid c ids Hc ltac:(lia) lp l El 64 0 (zlen ids - 1)) as (r & E & Hr); [lia|lia|lia|lia| |].
  { intros k [Hk Ek]. destruct (Hlp ltac:(by eapply list_elem_of_lookup_2)). }
  unfold depth. rewrite E. dred. destruct Hr as [[[_ Hr1] _]|[-> _]]; [destruct (Hlp ltac:(by eapply list_elem_of_lookup_2))|done].
Qed.

Lemma chain_order s qid c ids : chain_holds s qid c ids -> in_order s ids.
Proof.
  intros [_ _ _ _ Hl Hn Hs _]. assert (He : forall k i, ids !! k = Some i -> exists l, s !! i = Some l).
  { intros k i Hk. destruct (Hl k i Hk) as (l & El & _). eauto. }
  split_and!; [done| |].
  - apply Forall_forall. intros i Hi. apply list_elem_of_lookup_1 in Hi as [k Hk]. destruct (He k i Hk) as (l & ->). eauto.
  - clear Hl Hn. induction ids as [|x r IH]; constructor.
    + apply IH; [|intros k i Hk; by apply (He (S k))]. intros k k' i j li lj Hk Ei Ej. by apply (Hs (S k) (S k')); [lia|..].
    + apply Forall_forall. intros j Hj. apply list_elem_of_lookup_1 in Hj as [k Hk]. destruct (He 0%nat x eq_refl) as (lx & Ex).
      destruct (He (S k) j Hk) as (lj & Ej). pose proof (Hs 0%nat (S k) x j lx lj ltac:(lia) eq_refl Hk Ex Ej) as Hle.
      unfold time_of. rewrite Ex, Ej. unfold key_le in Hle. lia.
Qed.

#[export] Instance chain_ops : LeaseQueueOps D := {
  queue := leasechain;
  globals := list Z;
  LEASE_NOT_EMPTYP := lc_not_empty;
  LEASE_GET_FIRSTP := lc_get_first_lease;
  LEASE_GET_NEXTP := lc_get_next;
  LEASE_INSERTP _ := lc_add_sorted_lease;
  LEASE_REMOVEP s _ := lc_unlink_lease s;
  on_queue := chain_holds;
  insert_ok _ _ _ _ := True }.

#[export] Instance chain_queue_ok : LeaseQueue D.
Proof.
  split.
  - intros s qid q ids. apply chain_order.
  - intros s s' qid q ids. apply chain_links.
  - intros s qid q ids Hc. simpl. unfold lc_not_empty. rewrite (ch_nelem _ _ _ _ Hc). destruct ids; [done|].
    rewrite zlen_cons. pose proof (zlen_nonneg ids). by rewrite (proj2 (Z.ltb_lt _ _)) by lia.
  - intros s qid q ids Hc. simpl. unfold lc_get_first_lease. rewrite (ch_nelem _ _ _ _ Hc). destruct ids as [|i ids]; [done|].
    rewrite (proj2 (Z.ltb_lt _ _)) by (rewrite zlen_cons; pose proof (zlen_nonneg ids); lia).
    destruct (chain_array s qid q _ Hc) as (junk & ->). done.
  - intros s qid q a i b Hc. destruct (linked_get (Some qid) s a i b (ch_linked _ _ _ _ Hc)) as (l & El & Hn & _). simpl.
    unfold lc_get_next. rewrite (get_Done _ _ _ El). dred. by rewrite Hn.
  - intros follow g s qid q ids i Hc Hi Hd _ Hm. destruct (add_sorted_ok g s qid q ids i Hc Hm Hi Hd) as (g' & s' & q' & a & b & E & -> & H1 & H2).
    exists g', s', q', a, b. done.
  - intros s qid q a i b. apply unlink_lease_ok.
  - intros s qid q ids i. apply unlink_missing.
  - done.
Qed.

Lemma empty_chain_holds s qid g : 0 <= g < 2 ^ 60 -> chain_holds s qid (mk_chain [] 0 0 g) [].
Proof.
  intros Hg. split; try done.
  - apply NoDup_nil_2.
  - by intros i l ?%not_elem_of_nil.
Qed.

(** ** Correctness *)

(** C17: adding a lease to a chain keeps the chain sorted.  [lc_add_sorted_lease]
    returns (whatever values [random] gives and even when the array has to
    grow), and the chain then has the old leases in their old order with the
    new one between them; the array, the forward and backward links and the
    back pointers of the leases agree, keys do not decrease, and no other field
    of any lease has changed. *)
Theorem lc_add_sorted_lease_correct rnd s qid c ids lp :
  chain_holds s qid c ids -> zlen ids < max_leases -> lp ∉ ids -> detached s lp ->
  exists rnd' s' c' a b, lc_add_sorted_lease rnd s qid c lp = Done (rnd', s', c') /\ ids = a ++ b /\
    chain_holds s' qid c' (a ++ lp :: b) /\ in_order s' (a ++ lp :: b) /\ only_links s s' (lp :: ids).
Proof.
  intros Hc Hm Hlp Hd. destruct (add_sorted_ok rnd s qid c ids lp Hc Hm Hlp Hd) as (rnd' & s' & c' & a & b & E & -> & Hh & Ho).
  exists rnd', s', c', a, b. split_and!; try done. by eapply chain_order.
Qed.

(** Removing a lease from a chain finds exactly that lease by binary search,
    also among leases with equal keys, and unlinks it: afterwards the lease is
    on no queue and the chain has the other leases in the same order.  A lease
    that is not on a chain that has leases ends the server with a fatal error
    and corrupts nothing. *)
Lemma lc_unlink_lease_correct s qid c ids lp :
  chain_holds s qid c ids -> ids <> [] -> is_Some (s !! lp) ->
  ((lp ∉ ids) /\ lc_unlink_lease s c lp = Fatal) \/
  (exists a b s' c', ids = a ++ lp :: b /\ lc_unlink_lease s c lp = Done (s', c') /\ chain_holds s' qid c' (a ++ b) /\
     detached s' lp /\ only_links s s' ids).
Proof.
  intros Hc Hne Hs. destruct (decide (lp ∈ ids)) as [Hin|Hout]; [right|left].
  - apply list_elem_of_split in Hin as (a & b & ->). destruct (unlink_lease_ok s qid c a lp b Hc) as (s' & c' & H).
    exists a, b, s', c'. split; [done|]. exact H.
  - split; [done|]. by eapply unlink_missing.
Qed.

(** On an empty chain [lc_unlink_lease] does not reach its fatal error: the
    range of the search is 0 to [SIZE_MAX], and the first element it looks at
    is far outside the array. *)
Lemma lc_unlink_lease_empty s qid c lp l :
  chain_holds s qid c [] -> s !! lp = Some l -> lc_unlink_lease s c lp = Fault.
Proof.
  intros Hc El. unfold lc_unlink_lease. rewrite (get_Done _ _ _ El). dred. rewrite (ch_nelem _ _ _ _ Hc).
  change (zlen (@nil nat)) with 0. change depth with (S 64). generalize 64%nat as f. intros f. cbn [lc_binary_search_lease].
  change (u64 (0 - 1) <? 0) with false. cbv iota. change (u64 (u64 (u64 (0 - 1) - 0) / 2 + 0)) with (2 ^ 63 - 1).
  unfold at_index. rewrite rd_oob; [reflexivity|]. destruct (ch_total _ _ _ _ Hc) as [-> ?]. lia.
Qed.

Lemma delete_from_ok ids : forall s qid c, chain_holds s qid c ids ->
  exists s' c', delete_from (length ids) s c = Done (s', c') /\ chain_holds s' qid c' [] /\ growth c' = growth c /\
    (forall i, i ∈ ids -> detached s' i) /\ only_links s s' ids.
Proof.
  induction ids as [|x ids IH] using rev_ind; intros s qid c Hc.
  { exists s, c. split_and!; try done; [by intros i ?%not_elem_of_nil|apply only_links_refl]. }
  rewrite length_app, Nat.add_comm. cbn [length Nat.add delete_from].
  destruct (unlink_pos_ok s qid c ids x [] Hc) as (s1 & c1 & E1 & H1 & D1 & O1). unfold zlen in E1. rewrite app_nil_r in H1.
  assert (Hg : growth c1 = growth c).
  { unfold lc_unlink_lease_pos, lc_unlink_lcp in E1. inv_done. repeat match goal with H : context [let '(_, _) := ?p in _] |- _ => destruct p; inv_done end.
    repeat match goal with H : (_, _) = (_, _) |- _ => injection H as ? ?; subst end. done. }
  rewrite E1. dred. destruct (IH s1 qid c1 H1) as (s' & c' & E & H' & G & D' & O'). rewrite E.
  pose proof (ch_nodup _ _ _ _ Hc) as Hn. apply NoDup_app in Hn as (_ & Hx & _).
  exists s', c'. split_and!; [done|done|congruence| |].
  - intros i Hi. rewrite elem_of_app, list_elem_of_singleton in Hi. destruct (decide (i ∈ ids)) as [|Hn]; [by apply D'|].
    destruct Hi as [?| ->]; [done|]. destruct D1 as (l & El & R). exists l. split; [|done]. by rewrite (proj1 O').
  - destruct O1 as [A1 A2], O' as [B1 B2]. split.
    + intros j Hj. rewrite B1, A1; [done| |]; intros Hj'; apply Hj; [done|]. rewrite elem_of_app. by left.
    + intros j l Ej. destruct (A2 j l Ej) as (l1 & E1' & ? & ?). destruct (B2 j l1 E1') as (l2 & E2 & ? & ?). exists l2.
      split_and!; [done|congruence|congruence].
Qed.

(** [lc_delete_all] empties a chain: every lease that was on it is on no
    queue afterwards, nothing else of the leases changes, and the chain can be
    used again. *)
Lemma lc_delete_all_detaches s qid c ids :
  chain_holds s qid c ids ->
  exists s', lc_delete_all s c = Done (s', mk_chain [] 0 0 (growth c)) /\ chain_holds s' qid (mk_chain [] 0 0 (growth c)) [] /\
    (forall i, i ∈ ids -> detached s' i) /\ only_links s s' ids.
Proof.
  intros Hc. destruct (delete_from_ok ids s qid c Hc) as (s' & c' & E & H' & G & Hd & Ho). unfold lc_delete_all.
  rewrite (ch_nelem _ _ _ _ Hc). unfold zlen. rewrite Nat2Z.id, E. dred. rewrite G. exists s'. split_and!; [done| |done|done].
  apply empty_chain_holds. apply Hc.
Qed.
End chain.

(** ** Witnesses: a chain of two leases with the same key *)
Definition demo_lease (n p q : option nat) (t tie : Z) : lease unit := mk_lease n p q t tie tt.
Definition demo_store : store unit :=
  <[0%nat := demo_lease (Some 1%nat) None (Some 7%nat) 100 5]>
    (<[1%nat := demo_lease None (Some 0%nat) (Some 7%nat) 100 5]> {[2%nat := demo_lease None None None 50 0]}).
Definition demo_chain : leasechain := mk_chain [Some 0%nat; Some 1%nat] 2 2 0.

Lemma demo_chain_holds : chain_holds demo_store 7 demo_chain [0; 1]%nat.
Proof.
  split; try done.
  - intros [|[|k]] i; simpl; intros [= <-]; (eexists; split; [vm_compute; reflexivity|done]).
  - apply (bool_decide_unpack _). by vm_compute.
  - intros [|[|k]] [|[|k']] i j li lj Hk; simpl; intros [= <-] [= <-] [= <-] [= <-]; try lia. by right.
  - intros i l Hi. rewrite !elem_of_cons in Hi. destruct Hi as [->|[->|Hi]]; [intros [= <-]; done|intros [= <-]; done|by apply not_elem_of_nil in Hi].
Qed.

Lemma lc_add_sorted_lease_correct_witness :
  exists rnd' s' c' a b, lc_add_sorted_lease (fun _ => true) [3] demo_store 7 demo_chain 2 = Done (rnd', s', c') /\
    [0; 1]%nat = a ++ b /\ in_order s' (a ++ 2%nat :: b).
Proof.
  destruct (lc_add_sorted_lease_correct (fun _ => true) (fun _ => eq_refl) [3] demo_store 7 demo_chain [0; 1]%nat 2 demo_chain_holds)
    as (rnd' & s' & c' & a & b & E & Ei & _ & Ho & _).
  - reflexivity.
  - rewrite !elem_of_cons, elem_of_nil. lia.
  - exists (demo_lease None None None 50 0). by vm_compute.
  - exists rnd', s', c', a, b. split_and!; [exact E|exact Ei|exact Ho].
Defined.
