(* ===== verification/LeaseHash.v ===== *)
(** * What the server knows of a lease (includes/dhcpd.h, server/mdb.c)

    The fields of a lease that are not links of its queue, and the tables that
    find the leases of a client by client identifier and by hardware address.
    The leases of one client are linked by [n_uid] or [n_hw]; the functions for
    the two tables are the same up to the field, which is a parameter
    ([link]) here.

    The tables are finite maps from identifiers to the first lease.  Objects a
    lease only refers to (scopes, hosts, classes, statements) are named by
    numbers. *)

From stdpp Require Import base tactics numbers list gmap sorting.
From S2P Require Import Prelude Lease.

#[local] Open Scope Z_scope.

Definition FTS_FREE : Z := 1.
Definition FTS_ACTIVE : Z := 2.
Definition FTS_EXPIRED : Z := 3.
Definition FTS_RELEASED : Z := 4.
Definition FTS_ABANDONED : Z := 5.
Definition FTS_RESET : Z := 6.
Definition FTS_BACKUP : Z := 7.
Definition HTYPE_INFINIBAND : Z := 32.

(** A client identifier lies in the lease itself (up to seven bytes) or in its
    own memory. *)
Inductive uid_bytes := InBuf (b : list Z) | OnHeap (b : list Z).
Definition bytes_of (u : uid_bytes) : list Z := match u with InBuf b | OnHeap b => b end.

Record ldata := mk_ldata {
  starts : Z;
  ends : Z;
  cltt : Z;
  tstp : Z;
  tsfp : Z;
  atsfp : Z;
  binding_state : Z;
  next_binding_state : Z;
  desired_binding_state : Z;
  rewind_binding_state : Z;
  flags : Z;
  uid : option uid_bytes;
  hardware_addr : list Z;
  n_uid : option nat;
  n_hw : option nat;
  scope : option nat;
  host : option nat;
  billing_class : option nat;
  agent_options : option nat;
  client_hostname : option nat;
  on_expiry : option nat;
  on_commit : option nat;
  on_release : option nat;
  pool : option nat;
  ddns_cb : option nat }.

Definition set_starts (v : Z) (d : ldata) : ldata :=
  mk_ldata v (ends d) (cltt d) (tstp d) (tsfp d) (atsfp d) (binding_state d) (next_binding_state d) (desired_binding_state d) (rewind_binding_state d) (flags d) (uid d) (hardware_addr d) (n_uid d) (n_hw d) (scope d) (host d) (billing_class d) (agent_options d) (client_hostname d) (on_expiry d) (on_commit d) (on_release d) (pool d) (ddns_cb d).
Definition set_ends (v : Z) (d : ldata) : ldata :=
  mk_ldata (starts d) v (cltt d) (tstp d) (tsfp d) (atsfp d) (binding_state d) (next_binding_state d) (desired_binding_state d) (rewind_binding_state d) (flags d) (uid d) (hardware_addr d) (n_uid d) (n_hw d) (scope d) (host d) (billing_class d) (agent_options d) (client_hostname d) (on_expiry d) (on_commit d) (on_release d) (pool d) (ddns_cb d).
Definition set_cltt (v : Z) (d : ldata) : ldata :=
  mk_ldata (starts d) (ends d) v (tstp d) (tsfp d) (atsfp d) (binding_state d) (next_binding_state d) (desired_binding_state d) (rewind_binding_state d) (flags d) (uid d) (hardware_addr d) (n_uid d) (n_hw d) (scope d) (host d) (billing_class d) (agent_options d) (client_hostname d) (on_expiry d) (on_commit d) (on_release d) (pool d) (ddns_cb d).
Definition set_tstp (v : Z) (d : ldata) : ldata :=
  mk_ldata (starts d) (ends d) (cltt d) v (tsfp d) (atsfp d) (binding_state d) (next_binding_state d) (desired_binding_state d) (rewind_binding_state d) (flags d) (uid d) (hardware_addr d) (n_uid d) (n_hw d) (scope d) (host d) (billing_class d) (agent_options d) (client_hostname d) (on_expiry d) (on_commit d) (on_release d) (pool d) (ddns_cb d).
Definition set_tsfp (v : Z) (d : ldata) : ldata :=
  mk_ldata (starts d) (ends d) (cltt d) (tstp d) v (atsfp d) (binding_state d) (next_binding_state d) (desired_binding_state d) (rewind_binding_state d) (flags d) (uid d) (hardware_addr d) (n_uid d) (n_hw d) (scope d) (host d) (billing_class d) (agent_options d) (client_hostname d) (on_expiry d) (on_commit d) (on_release d) (pool d) (ddns_cb d).
Definition set_atsfp (v : Z) (d : ldata) : ldata :=
  mk_ldata (starts d) (ends d) (cltt d) (tstp d) (tsfp d) v (binding_state d) (next_binding_state d) (desired_binding_state d) (rewind_binding_state d) (flags d) (uid d) (hardware_addr d) (n_uid d) (n_hw d) (scope d) (host d) (billing_class d) (agent_options d) (client_hostname d) (on_expiry d) (on_commit d) (on_release d) (pool d) (ddns_cb d).
Definition set_binding_state (v : Z) (d : ldata) : ldata :=
  mk_ldata (starts d) (ends d) (cltt d) (tstp d) (tsfp d) (atsfp d) v (next_binding_state d) (desired_binding_state d) (rewind_binding_state d) (flags d) (uid d) (hardware_addr d) (n_uid d) (n_hw d) (scope d) (host d) (billing_class d) (agent_options d) (client_hostname d) (on_expiry d) (on_commit d) (on_release d) (pool d) (ddns_cb d).
Definition set_next_binding_state (v : Z) (d : ldata) : ldata :=
  mk_ldata (starts d) (ends d) (cltt d) (tstp d) (tsfp d) (atsfp d) (binding_state d) v (desired_binding_state d) (rewind_binding_state d) (flags d) (uid d) (hardware_addr d) (n_uid d) (n_hw d) (scope d) (host d) (billing_class d) (agent_options d) (client_hostname d) (on_expiry d) (on_commit d) (on_release d) (pool d) (ddns_cb d).
Definition set_desired_binding_state (v : Z) (d : ldata) : ldata :=
  mk_ldata (starts d) (ends d) (cltt d) (tstp d) (tsfp d) (atsfp d) (binding_state d) (next_binding_state d) v (rewind_binding_state d) (flags d) (uid d) (hardware_addr d) (n_uid d) (n_hw d) (scope d) (host d) (billing_class d) (agent_options d) (client_hostname d) (on_expiry d) (on_commit d) (on_release d) (pool d) (ddns_cb d).
Definition set_rewind_binding_state (v : Z) (d : ldata) : ldata :=
  mk_ldata (starts d) (ends d) (cltt d) (tstp d) (tsfp d) (atsfp d) (binding_state d) (next_binding_state d) (desired_binding_state d) v (flags d) (uid d) (hardware_addr d) (n_uid d) (n_hw d) (scope d) (host d) (billing_class d) (agent_options d) (client_hostname d) (on_expiry d) (on_commit d) (on_release d) (pool d) (ddns_cb d).
Definition set_flags (v : Z) (d : ldata) : ldata :=
  mk_ldata (starts d) (ends d) (cltt d) (tstp d) (tsfp d) (atsfp d) (binding_state d) (next_binding_state d) (desired_binding_state d) (rewind_binding_state d) v (uid d) (hardware_addr d) (n_uid d) (n_hw d) (scope d) (host d) (billing_class d) (agent_options d) (client_hostname d) (on_expiry d) (on_commit d) (on_release d) (pool d) (ddns_cb d).
Definition set_uid (v : option uid_bytes) (d : ldata) : ldata :=
  mk_ldata (starts d) (ends d) (cltt d) (tstp d) (tsfp d) (atsfp d) (binding_state d) (next_binding_state d) (desired_binding_state d) (rewind_binding_state d) (flags d) v (hardware_addr d) (n_uid d) (n_hw d) (scope d) (host d) (billing_class d) (agent_options d) (client_hostname d) (on_expiry d) (on_commit d) (on_release d) (pool d) (ddns_cb d).
Definition set_hardware_addr (v : list Z) (d : ldata) : ldata :=
  mk_ldata (starts d) (ends d) (cltt d) (tstp d) (tsfp d) (atsfp d) (binding_state d) (next_binding_state d) (desired_binding_state d) (rewind_binding_state d) (flags d) (uid d) v (n_uid d) (n_hw d) (scope d) (host d) (billing_class d) (agent_options d) (client_hostname d) (on_expiry d) (on_commit d) (on_release d) (pool d) (ddns_cb d).
Definition set_n_uid (v : option nat) (d : ldata) : ldata :=
  mk_ldata (starts d) (ends d) (cltt d) (tstp d) (tsfp d) (atsfp d) (binding_state d) (next_binding_state d) (desired_binding_state d) (rewind_binding_state d) (flags d) (uid d) (hardware_addr d) v (n_hw d) (scope d) (host d) (billing_class d) (agent_options d) (client_hostname d) (on_expiry d) (on_commit d) (on_release d) (pool d) (ddns_cb d).
Definition set_n_hw (v : option nat) (d : ldata) : ldata :=
  mk_ldata (starts d) (ends d) (cltt d) (tstp d) (tsfp d) (atsfp d) (binding_state d) (next_binding_state d) (desired_binding_state d) (rewind_binding_state d) (flags d) (uid d) (hardware_addr d) (n_uid d) v (scope d) (host d) (billing_class d) (agent_options d) (client_hostname d) (on_expiry d) (on_commit d) (on_release d) (pool d) (ddns_cb d).
Definition set_scope (v : option nat) (d : ldata) : ldata :=
  mk_ldata (starts d) (ends d) (cltt d) (tstp d) (tsfp d) (atsfp d) (binding_state d) (next_binding_state d) (desired_binding_state d) (rewind_binding_state d) (flags d) (uid d) (hardware_addr d) (n_uid d) (n_hw d) v (host d) (billing_class d) (agent_options d) (client_hostname d) (on_expiry d) (on_commit d) (on_release d) (pool d) (ddns_cb d).
Definition set_host (v : option nat) (d : ldata) : ldata :=
  mk_ldata (starts d) (ends d) (cltt d) (tstp d) (tsfp d) (atsfp d) (binding_state d) (next_binding_state d) (desired_binding_state d) (rewind_binding_state d) (flags d) (uid d) (hardware_addr d) (n_uid d) (n_hw d) (scope d) v (billing_class d) (agent_options d) (client_hostname d) (on_expiry d) (on_commit d) (on_release d) (pool d) (ddns_cb d).
Definition set_billing_class (v : option nat) (d : ldata) : ldata :=
  mk_ldata (starts d) (ends d) (cltt d) (tstp d) (tsfp d) (atsfp d) (binding_state d) (next_binding_state d) (desired_binding_state d) (rewind_binding_state d) (flags d) (uid d) (hardware_addr d) (n_uid d) (n_hw d) (scope d) (host d) v (agent_options d) (client_hostname d) (on_expiry d) (on_commit d) (on_release d) (pool d) (ddns_cb d).
Definition set_agent_options (v : option nat) (d : ldata) : ldata :=
  mk_ldata (starts d) (ends d) (cltt d) (tstp d) (tsfp d) (atsfp d) (binding_state d) (next_binding_state d) (desired_binding_state d) (rewind_binding_state d) (flags d) (uid d) (hardware_addr d) (n_uid d) (n_hw d) (scope d) (host d) (billing_class d) v (client_hostname d) (on_expiry d) (on_commit d) (on_release d) (pool d) (ddns_cb d).
Definition set_client_hostname (v : option nat) (d : ldata) : ldata :=
  mk_ldata (starts d) (ends d) (cltt d) (tstp d) (tsfp d) (atsfp d) (binding_state d) (next_binding_state d) (desired_binding_state d) (rewind_binding_state d) (flags d) (uid d) (hardware_addr d) (n_uid d) (n_hw d) (scope d) (host d) (billing_class d) (agent_options d) v (on_expiry d) (on_commit d) (on_release d) (pool d) (ddns_cb d).
Definition set_on_expiry (v : option nat) (d : ldata) : ldata :=
  mk_ldata (starts d) (ends d) (cltt d) (tstp d) (tsfp d) (atsfp d) (binding_state d) (next_binding_state d) (desired_binding_state d) (rewind_binding_state d) (flags d) (uid d) (hardware_addr d) (n_uid d) (n_hw d) (scope d) (host d) (billing_class d) (agent_options d) (client_hostname d) v (on_commit d) (on_release d) (pool d) (ddns_cb d).
Definition set_on_commit (v : option nat) (d : ldata) : ldata :=
  mk_ldata (starts d) (ends d) (cltt d) (tstp d) (tsfp d) (atsfp d) (binding_state d) (next_binding_state d) (desired_binding_state d) (rewind_binding_state d) (flags d) (uid d) (hardware_addr d) (n_uid d) (n_hw d) (scope d) (host d) (billing_class d) (agent_options d) (client_hostname d) (on_expiry d) v (on_release d) (pool d) (ddns_cb d).
Definition set_on_release (v : option nat) (d : ldata) : ldata :=
  mk_ldata (starts d) (ends d) (cltt d) (tstp d) (tsfp d) (atsfp d) (binding_state d) (next_binding_state d) (desired_binding_state d) (rewind_binding_state d) (flags d) (uid d) (hardware_addr d) (n_uid d) (n_hw d) (scope d) (host d) (billing_class d) (agent_options d) (client_hostname d) (on_expiry d) (on_commit d) v (pool d) (ddns_cb d).
Definition set_pool (v : option nat) (d : ldata) : ldata :=
  mk_ldata (starts d) (ends d) (cltt d) (tstp d) (tsfp d) (atsfp d) (binding_state d) (next_binding_state d) (desired_binding_state d) (rewind_binding_state d) (flags d) (uid d) (hardware_addr d) (n_uid d) (n_hw d) (scope d) (host d) (billing_class d) (agent_options d) (client_hostname d) (on_expiry d) (on_commit d) (on_release d) v (ddns_cb d).
Definition set_ddns_cb (v : option nat) (d : ldata) : ldata :=
  mk_ldata (starts d) (ends d) (cltt d) (tstp d) (tsfp d) (atsfp d) (binding_state d) (next_binding_state d) (desired_binding_state d) (rewind_binding_state d) (flags d) (uid d) (hardware_addr d) (n_uid d) (n_hw d) (scope d) (host d) (billing_class d) (agent_options d) (client_hostname d) (on_expiry d) (on_commit d) (on_release d) (pool d) v.

(** ** Which lease a client gets back *)
Definition client_lease_preferred (cand lease : ldata) : bool :=
  if binding_state cand =? FTS_ACTIVE then
    (binding_state lease =? FTS_ACTIVE) && (ends cand <=? ends lease)
  else if (binding_state cand =? FTS_EXPIRED) || (binding_state cand =? FTS_RELEASED) then
    (binding_state lease =? FTS_ACTIVE) ||
    (((binding_state lease =? FTS_EXPIRED) || (binding_state lease =? FTS_RELEASED)) &&
     (cltt cand <=? cltt lease))
  else if negb (binding_state cand =? FTS_ABANDONED) then
    ((binding_state lease =? FTS_ACTIVE) || (binding_state lease =? FTS_EXPIRED) ||
     (binding_state lease =? FTS_RELEASED)) ||
    (negb (binding_state lease =? FTS_ABANDONED) && (cltt cand <=? cltt lease))
  else negb (binding_state lease =? FTS_ABANDONED) || (cltt cand <=? cltt lease).

(** ** The lists of leases of a client *)
Record link := mk_link {
  key_of : ldata -> list Z;
  link_of : ldata -> option nat;
  set_link : option nat -> ldata -> ldata }.

Definition uid_key (d : ldata) : list Z := match uid d with Some u => bytes_of u | None => [] end.
Definition uid_link : link := mk_link uid_key n_uid set_n_uid.
Definition hw_link : link := mk_link hardware_addr n_hw set_n_hw.

Abbreviation table := (gmap (list Z) nat).
Abbreviation leases := (store ldata).

Section tables.
Context (k : link).
Implicit Types (t : table) (s : leases).

(** [find_lease_by_uid]: an empty identifier is never found. *)
Definition find_lease_by t (key : list Z) : option nat :=
  if zlen key =? 0 then None else t !! key.

Definition put_link s (i : nat) (v : option nat) : outcome leases :=
  upd s i (fun l => set_data (set_link k v (data l)) l).

(** The last lease that the client would rather have than [lease]. *)
Fixpoint find_preferred (fuel : nat) s (before cand : option nat) (lease : ldata) : outcome (option nat) :=
  match fuel with
  | O => Running
  | S fuel' =>
      match cand with
      | None => Done before
      | Some c => l ← get s c;
                  if client_lease_preferred (data l) lease then Done before
                  else find_preferred fuel' s (Some c) (link_of k (data l)) lease
      end
  end.

Definition hash_add t s (i : nat) : outcome (table * leases) :=
  l ← get s i;
  let key := key_of k (data l) in
  match find_lease_by t key with
  | None => Done (<[key := i]> t, s)
  | Some head =>
      before ← find_preferred (S (size s)) s None (Some head) (data l);
      match before with
      | None =>
          s ← put_link s i (Some head);
          Done (<[key := i]> (delete key t), s)
      | Some p =>
          lp ← get s p;
          s ← (match link_of k (data lp) with
               | Some n => s ← put_link s i (Some n); put_link s p None
               | None => Done s
               end);
          s ← put_link s p (Some i);
          Done (t, s)
      end
  end.

(** The lease before [i] in the list. *)
Fixpoint find_before (fuel : nat) s (scan i : nat) : outcome (option nat) :=
  match fuel with
  | O => Running
  | S fuel' =>
      l ← get s scan;
      match link_of k (data l) with
      | None => Done None
      | Some n => if decide (n = i) then Done (Some scan) else find_before fuel' s n i
      end
  end.

Definition hash_delete t s (i : nat) : outcome (table * leases) :=
  l ← get s i;
  let key := key_of k (data l) in
  match find_lease_by t key with
  | None => s ← put_link s i None; Done (t, s)
  | Some head =>
      if decide (head = i) then
        let t := delete key t in
        match link_of k (data l) with
        | Some n => ln ← get s n;
                    s ← put_link s i None;
                    Done (<[key_of k (data ln) := n]> t, s)
        | None => Done (t, s)
        end
      else
        before ← find_before (S (size s)) s head i;
        match before with
        | None => Done (t, s)
        | Some p =>
            s ← put_link s p None;
            match link_of k (data l) with
            | Some n => s ← put_link s p (Some n); s ← put_link s i None; Done (t, s)
            | None => Done (t, s)
            end
        end
  end.
End tables.

Definition find_lease_by_uid := find_lease_by.
Definition uid_hash_add := hash_add uid_link.
Definition uid_hash_delete := hash_delete uid_link.

(** Infiniband addresses are not hashed: there is only the hardware type. *)
Definition is_infiniband (hw : list Z) : bool := bool_decide (hw = [HTYPE_INFINIBAND]).

Definition find_lease_by_hw_addr (t : table) (hw : list Z) : option nat :=
  if is_infiniband hw then None else find_lease_by t hw.
Definition hw_hash_add (t : table) (s : leases) (i : nat) : outcome (table * leases) :=
  l ← get s i; if is_infiniband (hardware_addr (data l)) then Done (t, s) else hash_add hw_link t s i.
Definition hw_hash_delete (t : table) (s : leases) (i : nat) : outcome (table * leases) :=
  l ← get s i; if is_infiniband (hardware_addr (data l)) then Done (t, s) else hash_delete hw_link t s i.

(** ** The order of preference

    Active leases come first, those with the longest lifetime before the
    others; then expired and released, free and the like, and abandoned leases,
    each by the time of the last transaction with the client. *)
Definition rank_class (d : ldata) : Z :=
  if binding_state d =? FTS_ACTIVE then 3
  else if (binding_state d =? FTS_EXPIRED) || (binding_state d =? FTS_RELEASED) then 2
  else if binding_state d =? FTS_ABANDONED then 0 else 1.
Definition rank_time (d : ldata) : Z := if binding_state d =? FTS_ACTIVE then ends d else cltt d.

Definition at_least (d d' : ldata) : Prop :=
  rank_class d' < rank_class d \/ (rank_class d = rank_class d' /\ rank_time d' <= rank_time d).

Lemma preferred_rank cand lease : client_lease_preferred cand lease = true <-> at_least lease cand.
Proof.
  unfold client_lease_preferred, at_least, rank_class, rank_time, FTS_ACTIVE, FTS_EXPIRED, FTS_RELEASED, FTS_ABANDONED.
  destruct (Z.eqb_spec (binding_state cand) 2), (Z.eqb_spec (binding_state lease) 2),
    (Z.eqb_spec (binding_state cand) 3), (Z.eqb_spec (binding_state lease) 3), (Z.eqb_spec (binding_state cand) 4),
    (Z.eqb_spec (binding_state lease) 4), (Z.eqb_spec (binding_state cand) 5), (Z.eqb_spec (binding_state lease) 5);
    simpl; rewrite ?Z.leb_le; try lia; split; try done; lia.
Qed.

#[export] Instance at_least_preorder : PreOrder at_least.
Proof. split; unfold Reflexive, Transitive, at_least; intros; lia. Qed.
Lemma at_least_total d d' : at_least d d' \/ at_least d' d.
Proof. unfold at_least. lia. Qed.
Lemma not_preferred cand lease : client_lease_preferred cand lease = false -> at_least cand lease.
Proof.
  intros E. destruct (at_least_total cand lease) as [|H]; [done|]. apply preferred_rank in H. congruence.
Qed.

(** ** Links in the data of a lease *)
Class LinkOk (k : link) : Prop := {
  link_get_set v d : link_of k (set_link k v d) = v;
  link_set_set v w d : set_link k v (set_link k w d) = set_link k v d;
  link_set_get d : set_link k (link_of k d) d = d;
  link_key v d : key_of k (set_link k v d) = key_of k d;
  link_rank v d : rank_class (set_link k v d) = rank_class d /\ rank_time (set_link k v d) = rank_time d }.

#[export] Instance uid_link_ok : LinkOk uid_link.
Proof. split; try done. by intros []. Qed.
#[export] Instance hw_link_ok : LinkOk hw_link.
Proof. split; try done. by intros []. Qed.

Section lists.
Context (k : link) `{!LinkOk k}.
Implicit Types (t : table) (s : leases) (ids : list nat).

(** The links of the field alone, as a linked list. *)
Definition view_lease (l : lease ldata) : lease unit := mk_lease (link_of k (data l)) None None 0 0 tt.
Definition view s : store unit := view_lease <$> s.
Definition chained s ids : Prop := linked None (view s) ids.

Definition relink (v : option nat) (l : lease ldata) : lease ldata := set_data (set_link k v (data l)) l.

Lemma view_lookup s i l : s !! i = Some l -> view s !! i = Some (view_lease l).
Proof. intros E. unfold view. by rewrite lookup_fmap, E. Qed.
Lemma view_relink s i l v : view (<[i := relink v l]> s) = <[i := set_next v (view_lease l)]> (view s).
Proof.
  unfold view. rewrite fmap_insert. f_equal. unfold view_lease, relink, set_next, set_data. simpl. by rewrite link_get_set.
Qed.
Lemma put_link_Done s i l v : s !! i = Some l -> put_link k s i v = Done (<[i := relink v l]> s).
Proof. intros E. unfold put_link. by rewrite (upd_Done _ _ _ _ E). Qed.
Lemma relink_relink v w l : relink v (relink w l) = relink v l.
Proof. unfold relink, set_data. simpl. by rewrite link_set_set. Qed.
Lemma relink_same l : relink (link_of k (data l)) l = l.
Proof. unfold relink. rewrite link_set_get. by destruct l. Qed.

(** Only links of this field have changed, and only those of [ids]. *)
Definition only_field s s' ids : Prop :=
  (forall j, j ∉ ids -> s' !! j = s !! j) /\
  (forall j l, s !! j = Some l -> exists v, s' !! j = Some (relink v l)).

Lemma only_field_refl s ids : only_field s s ids.
Proof. split; [done|]. intros j l E. exists (link_of k (data l)). by rewrite relink_same. Qed.
Lemma only_field_trans s1 s2 s3 ids : only_field s1 s2 ids -> only_field s2 s3 ids -> only_field s1 s3 ids.
Proof.
  intros [A1 A2] [B1 B2]. split; [intros j Hj; by rewrite B1, A1|]. intros j l E. destruct (A2 j l E) as (v & E1).
  destruct (B2 j _ E1) as (w & E2). exists w. by rewrite relink_relink in E2.
Qed.
Lemma only_field_relink s i l v ids : s !! i = Some l -> i ∈ ids -> only_field s (<[i := relink v l]> s) ids.
Proof.
  intros E Hi. split; [intros j Hj; apply lookup_insert_ne; congruence|]. intros j lj Ej. destruct (decide (i = j)) as [<-|N].
  - exists v. rewrite lookup_insert_eq. congruence.
  - exists (link_of k (data lj)). by rewrite lookup_insert_ne, relink_same.
Qed.

(** ** The invariant of a table

    [fam] gives the list of leases with each identifier. *)
Record hashed t s (fam : list Z -> list nat) : Prop := {
  hd_head : forall key, key <> [] -> t !! key = head (fam key);
  hd_linked : forall key, chained s (fam key);
  hd_nodup : forall key, NoDup (fam key);
  hd_key : forall key i l, i ∈ fam key -> s !! i = Some l -> key_of k (data l) = key }.

(** Of two leases of a client, the one that is found first is at least as good
    as the other. *)
Definition better s (i j : nat) : Prop :=
  exists li lj, s !! i = Some li /\ s !! j = Some lj /\ at_least (data li) (data lj).
Definition ordered s ids : Prop := StronglySorted (better s) ids.

Definition set_fam (fam : list Z -> list nat) (key : list Z) (ids : list nat) : list Z -> list nat :=
  fun key' => if decide (key' = key) then ids else fam key'.

Lemma chained_get s a i b :
  chained s (a ++ i :: b) -> exists l, s !! i = Some l /\ link_of k (data l) = head b.
Proof.
  intros Hc. destruct (linked_get None (view s) a i b Hc) as (lv & Ev & Hn & _). unfold view in Ev.
  rewrite lookup_fmap in Ev. destruct (s !! i) as [l|]; [|done]. exists l. split; [done|]. simpl in Ev. injection Ev as <-. exact Hn.
Qed.

Lemma chained_some s ids : chained s ids -> Forall (fun i => is_Some (s !! i)) ids.
Proof.
  intros Hc. apply Forall_forall. intros i Hi. apply list_elem_of_split in Hi as (a & b & ->).
  destruct (chained_get s a i b Hc) as (l & -> & _). eauto.
Qed.

Lemma chained_frame s s' ids :
  chained s ids -> (forall i, i ∈ ids -> s' !! i = s !! i) -> chained s' ids.
Proof. intros Hc Hf. eapply linked_frame; [exact Hc|]. intros i Hi. unfold view. by rewrite !lookup_fmap, Hf. Qed.

Lemma chained_cons s i r :
  chained s (i :: r) -> exists l, s !! i = Some l /\ link_of k (data l) = head r /\ chained s r.
Proof.
  intros Hc. destruct (chained_get s [] i r Hc) as (l & El & Hn). exists l. split_and!; [done..|].
  by destruct (linked_cons (view s) i r Hc) as (_ & _ & _ & ?).
Qed.

(** ** Insertion *)
Definition worse s (lease : ldata) (j : nat) : Prop :=
  forall l, s !! j = Some l -> client_lease_preferred (data l) lease = false.

Lemma find_preferred_at s ids : forall fuel before lease,
  chained s ids -> (length ids < fuel)%nat ->
  exists a b, ids = a ++ b /\ find_preferred k fuel s before (head ids) lease = Done (last_or before a) /\
    Forall (worse s lease) a /\
    match b with [] => True | j :: _ => exists l, s !! j = Some l /\ client_lease_preferred (data l) lease = true end.
Proof.
  induction ids as [|x r IH]; intros [|fuel] before lease Hc Hf; simpl in Hf; try lia; simpl.
  - by exists [], [].
  - destruct (chained_cons s x r Hc) as (l & El & Hn & Hr). rewrite (get_Done _ _ _ El). dred.
    destruct (client_lease_preferred (data l) lease) eqn:Ep.
    + exists [], (x :: r). split_and!; [done|done|done|eauto].
    + destruct (IH fuel (Some x) lease Hr ltac:(lia)) as (a & b & -> & E & Ha & Hb). exists (x :: a), b. rewrite Hn, E.
      split_and!; [done|by rewrite <- last_or_cons| |done]. constructor; [|done]. intros l' El'. congruence.
Qed.

Lemma chained_insert s a i b l :
  chained s (a ++ b) -> NoDup (a ++ i :: b) -> s !! i = Some l -> link_of k (data l) = None ->
  exists s',
    (match last a with
     | None => match head b with Some h => put_link k s i (Some h) | None => Done s end
     | Some p => s ← (match head b with Some n => s ← put_link k s i (Some n); put_link k s p None | None => Done s end);
                 put_link k s p (Some i)
     end) = Done s' /\ chained s' (a ++ i :: b) /\ only_field s s' (i :: a ++ b).
Proof.
  intros Hc Hn El Hl. set (s1 := <[i := relink (head b) l]> s).
  assert (E1 : match head b with Some h => put_link k s i (Some h) | None => Done s end = Done s1).
  { unfold s1. destruct b as [|h b]; simpl; [|by apply put_link_Done]. rewrite <- Hl, relink_same, insert_id; done. }
  destruct (last a) as [p|] eqn:La.
  - destruct (last_split a p La) as (a' & ->). assert (Hp : p ∈ (a' ++ [p]) ++ b).
    { rewrite !elem_of_app. left. right. by constructor. }
    assert (Np : p <> i).
    { intros ->. rewrite <- Permutation_middle in Hn. by apply NoDup_cons in Hn as [? _]. }
    rewrite <- app_assoc in Hc. destruct (chained_get s a' p b Hc) as (lp & Ep & Lp). rewrite app_assoc in Hc.
    assert (Ep1 : s1 !! p = Some lp) by (unfold s1; by rewrite lookup_insert_ne).
    exists (<[p := relink (Some i) lp]> s1). split; [|split].
    + destruct b as [|n b]; simpl in *.
      * injection E1 as E1. rewrite E1. dred. by apply put_link_Done.
      * rewrite E1. dred. rewrite (put_link_Done s1 p lp) by done. dred.
        rewrite (put_link_Done _ p (relink None lp)) by apply lookup_insert_eq. by rewrite insert_insert_eq, relink_relink.
    + unfold chained. rewrite view_relink by done. unfold s1. rewrite view_relink by done.
      eapply (linked_insert None (view s) _ (a' ++ [p]) i b (set_next (head b) (view_lease l))); try done.
      * by rewrite lookup_insert_ne, lookup_insert_eq by done.
      * intros j lj Hj Ej. assert (j <> i) by (intros ->; rewrite <- Permutation_middle in Hn; by apply NoDup_cons in Hn as [? _]).
        unfold relinked. rewrite last_snoc. destruct (decide (p = j)) as [<-|N].
        -- rewrite (view_lookup s p lp Ep) in Ej. injection Ej as <-. rewrite lookup_insert_eq. eexists. split; [done|].
           by rewrite decide_True.
        -- rewrite !lookup_insert_ne by done. exists lj. split; [done|]. by rewrite decide_False by congruence.
    + eapply only_field_trans; [apply (only_field_relink s i l (head b)); [done|by constructor]|].
      apply only_field_relink; [done..|]. by constructor.
  - destruct a as [|x a _] using rev_ind; [|by rewrite last_snoc in La]. exists s1. split; [done|]. split.
    + unfold chained, s1. rewrite view_relink by done. simpl in *.
      eapply (linked_insert None (view s) _ [] i b (set_next (head b) (view_lease l))); try done.
      * apply lookup_insert_eq.
      * intros j lj Hj Ej. exists lj. rewrite lookup_insert_ne; [done|]. intros ->. simpl in Hn. by apply NoDup_cons in Hn as [? _].
    + apply only_field_relink; [done..|]. by constructor.
Qed.

Lemma only_field_rank s s' ids i l l' :
  only_field s s' ids -> s !! i = Some l -> s' !! i = Some l' ->
  rank_class (data l') = rank_class (data l) /\ rank_time (data l') = rank_time (data l) /\
  key_of k (data l') = key_of k (data l).
Proof.
  intros [_ H] E E'. destruct (H i l E) as (v & Ev). replace l' with (relink v l) by congruence. simpl.
  split; [apply link_rank|]. split; [apply link_rank|apply link_key].
Qed.
Lemma only_field_better s s' ids i j : only_field s s' ids -> better s i j -> better s' i j.
Proof.
  intros Ho (li & lj & Ei & Ej & H). pose proof Ho as [_ Hf]. destruct (Hf i li Ei) as (vi & Ei'), (Hf j lj Ej) as (vj & Ej').
  exists (relink vi li), (relink vj lj). split_and!; [done..|].
  destruct (only_field_rank s s' ids i li _ Ho Ei Ei') as (C1 & T1 & _), (only_field_rank s s' ids j lj _ Ho Ej Ej') as (C2 & T2 & _).
  unfold at_least in *. by rewrite C1, T1, C2, T2.
Qed.
Lemma only_field_ordered s s' ids ids' : only_field s s' ids -> ordered s ids' -> ordered s' ids'.
Proof.
  intros Ho Hs. unfold ordered in *. induction Hs as [|i r Hr IH Hi]; constructor; [done|].
  eapply Forall_impl; [exact Hi|]. intros j. by apply only_field_better with (ids := ids).
Qed.

(** Leases with different identifiers are different. *)
Lemma hashed_apart t s fam key key' i l :
  hashed t s fam -> key <> key' -> i ∈ fam key' -> s !! i = Some l -> key_of k (data l) = key -> False.
Proof. intros H N Hi E Hk. apply N. by rewrite <- Hk, (hd_key t s fam H key' i l). Qed.

(** The list of one identifier changes, with the table. *)
Lemma hashed_change t t' s s' fam key ids ids' :
  hashed t s fam -> only_field s s' ids ->
  (forall key', key' <> key -> forall i, i ∈ ids -> i ∉ fam key') ->
  t' = match head ids' with Some h => <[key := h]> t | None => delete key t end ->
  chained s' ids' -> NoDup ids' ->
  (forall i l, i ∈ ids' -> s' !! i = Some l -> key_of k (data l) = key) ->
  hashed t' s' (set_fam fam key ids').
Proof.
  intros H Ho Hd -> Hc Hn Hk.
  assert (Hf : forall key' i, key' <> key -> i ∈ fam key' -> s' !! i = s !! i).
  { intros key' i N Hi. apply Ho. intros Hi'. by apply (Hd key' N i). }
  split; intros key'; unfold set_fam; destruct (decide (key' = key)) as [->|N].
  - intros _. destruct (head ids'); [by rewrite lookup_insert_eq|by rewrite lookup_delete_eq].
  - intros Nk. rewrite <- (hd_head t s fam H key' Nk). destruct (head ids'); [by rewrite lookup_insert_ne|by rewrite lookup_delete_ne].
  - done.
  - eapply chained_frame; [apply H|]. intros i. by apply Hf.
  - done.
  - apply H.
  - by apply Hk.
  - intros i l Hi E. rewrite (Hf key') in E by done. by apply (hd_key t s fam H key' i).
Qed.

Lemma find_lease_by_head t s fam key : hashed t s fam -> key <> [] -> find_lease_by t key = head (fam key).
Proof. intros H N. unfold find_lease_by. rewrite <- (hd_head t s fam H key N). by destruct key. Qed.

Lemma hashed_size t s fam key : hashed t s fam -> (length (fam key) <= size s)%nat.
Proof. intros H. apply ids_size; [apply H|]. apply chained_some, H. Qed.

Lemma only_field_key s s' ids i l key :
  only_field s s' ids -> (forall l', s !! i = Some l' -> key_of k (data l') = key) -> is_Some (s !! i) -> s' !! i = Some l ->
  key_of k (data l) = key.
Proof. intros Ho Hk [l0 E] E'. rewrite (proj2 (proj2 (only_field_rank s s' ids i l0 l Ho E E'))). by apply Hk. Qed.

(** What the insertion of [i] between [a] and [b] establishes. *)
Definition inserted s s' (i : nat) (a b : list nat) : Prop :=
  only_field s s' (i :: a ++ b) /\
  (forall l, s !! i = Some l -> Forall (worse s (data l)) a /\
     match b with [] => True | j :: _ => exists lj, s !! j = Some lj /\ client_lease_preferred (data lj) (data l) = true end).

Lemma inserted_ordered s s' i l a b :
  inserted s s' i a b -> s !! i = Some l -> Forall (fun j => is_Some (s !! j)) a ->
  ordered s (a ++ b) -> ordered s' (a ++ i :: b).
Proof.
  intros [Ho Hw] El Ha Hs. eapply only_field_ordered; [exact Ho|]. destruct (Hw l El) as [Hwa Hwb].
  apply Sorted_insert; [done| |].
  - rewrite Forall_forall in Hwa, Ha |- *. intros j Hj. destruct (Ha j Hj) as [lj Ej]. exists lj, l. split_and!; [done..|].
    apply not_preferred. by apply (Hwa j Hj).
  - destruct b as [|j b]; [done|]. destruct Hwb as (lj & Ej & Hp). apply preferred_rank in Hp.
    apply Sorted_app_tail in Hs. inversion Hs as [|? ? _ Hj]; subst. constructor; [by exists l, lj|].
    eapply Forall_impl; [exact Hj|]. intros x (lj' & lx & Ej' & Ex & H). exists l, lx. split_and!; [done..|].
    replace lj' with lj in H by congruence. by transitivity (data lj).
Qed.

Lemma hash_add_ok t s fam i l :
  hashed t s fam -> s !! i = Some l -> key_of k (data l) <> [] -> link_of k (data l) = None -> i ∉ fam (key_of k (data l)) ->
  exists t' s' a b, hash_add k t s i = Done (t', s') /\ fam (key_of k (data l)) = a ++ b /\
    hashed t' s' (set_fam fam (key_of k (data l)) (a ++ i :: b)) /\ inserted s s' i a b.
Proof.
  intros H El Nk Ll Ni. set (key := key_of k (data l)) in *.
  pose proof (hd_linked t s fam H key) as Hc. pose proof (hashed_size t s fam key H) as Hz.
  destruct (find_preferred_at s (fam key) (S (size s)) None (data l) Hc ltac:(lia)) as (a & b & Eab & Ef & Ha & Hb).
  assert (Hn : NoDup (a ++ i :: b)).
  { rewrite <- Permutation_middle, <- Eab. constructor; [done|apply H]. }
  rewrite Eab in Hc. destruct (chained_insert s a i b l Hc Hn El Ll) as (s' & Es & Hc' & Ho).
  exists (match a with [] => <[key := i]> t | _ => t end), s', a, b. split; [|split; [done|split]].
  - unfold hash_add. rewrite (get_Done _ _ _ El). dred. fold key. rewrite (find_lease_by_head t s fam key H Nk).
    destruct (head (fam key)) as [h|] eqn:Eh.
    + rewrite Ef. dred. unfold last_or. destruct (last a) as [p|] eqn:La.
      * destruct (last_split a p La) as (a' & ->). rewrite <- app_assoc in Hc.
        destruct (chained_get s a' p b Hc) as (lp & Ep & Lp). rewrite (get_Done _ _ _ Ep). dred. rewrite Lp.
        destruct (match head b with Some n => _ | None => _ end) as [s1| | |]; try done. dred_in Es. dred. rewrite Es. dred.
        by destruct a'.
      * destruct a as [|x a _] using rev_ind; [|by rewrite last_snoc in La]. simpl in Eab. rewrite <- Eab, Eh in Es. rewrite Es. dred.
        by rewrite insert_delete_eq.
    + rewrite Eab in Eh. destruct a; [|done]. destruct b; [|done]. simpl in Es. injection Es as <-. done.
  - eapply (hashed_change t _ s s' fam key (i :: a ++ b)); try done.
    + intros key' N j Hj Hj'. rewrite <- Eab in Hj. apply elem_of_cons in Hj as [->|Hj].
      * by apply (hashed_apart t s fam key key' i l H).
      * assert (is_Some (s !! j)) as [lj Ej].
        { pose proof (chained_some s (fam key) (hd_linked t s fam H key)) as Hs. rewrite Forall_forall in Hs. by apply Hs. }
        apply (hashed_apart t s fam key key' j lj H); [done..|]. by apply (hd_key t s fam H key j).
    + destruct a as [|x a]; [done|]. simpl. symmetry. apply insert_id. rewrite (hd_head t s fam H key Nk). by rewrite Eab.
    + intros j lj Hj Ej. eapply only_field_key; [exact Ho| | |exact Ej].
      * intros lj' Ej'. rewrite <- Permutation_middle, <- Eab in Hj. apply elem_of_cons in Hj as [->|Hj].
        -- unfold key. congruence.
        -- by apply (hd_key t s fam H key j).
      * rewrite <- Permutation_middle, <- Eab in Hj. apply elem_of_cons in Hj as [->|Hj]; [eauto|].
        pose proof (chained_some s (fam key) (hd_linked t s fam H key)) as Hs. rewrite Forall_forall in Hs. by apply Hs.
  - split; [done|]. intros l' El'. replace l' with l by congruence. done.
Qed.

(** ** Removal *)
Lemma find_before_at s x r : forall fuel i,
  chained s (x :: r) -> NoDup (x :: r) -> (length r < fuel)%nat -> x <> i ->
  (forall a b, r = a ++ i :: b -> find_before k fuel s x i = Done (last_or (Some x) a)) /\
  (i ∉ r -> find_before k fuel s x i = Done None).
Proof.
  revert x. induction r as [|y r IH]; intros x [|fuel] i Hc Hn Hf Nx; simpl in Hf; try lia;
    destruct (chained_cons s x _ Hc) as (l & El & Ln & Hr); simpl; rewrite (get_Done _ _ _ El); dred; rewrite Ln; simpl.
  - split; [by intros [|??]|done].
  - apply NoDup_cons in Hn as [_ Hn]. destruct (decide (y = i)) as [->|Ny].
    + split.
      * intros [|z a] b; [done|]. intros [= <- ->]. apply NoDup_cons in Hn as [[] _]. apply elem_of_app. right. by constructor.
      * intros []. by constructor.
    + destruct (IH y fuel i Hr Hn ltac:(lia) Ny) as [I1 I2]. split.
      * intros [|z a] b; [by intros [= ->]|]. intros [= <- ->]. rewrite (I1 a b eq_refl). by rewrite last_or_cons with (before := Some x).
      * intros Ni. apply I2. intros Hi. apply Ni. by constructor.
Qed.

Lemma chained_remove s a i b l :
  chained s (a ++ i :: b) -> NoDup (a ++ i :: b) -> s !! i = Some l ->
  exists s',
    (match last a with
     | None => match head b with Some _ => put_link k s i None | None => Done s end
     | Some p => s ← put_link k s p None;
                 match head b with Some n => s ← put_link k s p (Some n); put_link k s i None | None => Done s end
     end) = Done s' /\ chained s' (a ++ b) /\ only_field s s' (a ++ i :: b) /\
    exists l', s' !! i = Some l' /\ link_of k (data l') = None.
Proof.
  intros Hc Hn El. destruct (chained_get s a i b Hc) as (l0 & El0 & Ll). replace l0 with l in * by congruence. clear El0.
  assert (Ni : forall j, j ∈ a ++ b -> j <> i).
  { intros j Hj ->. rewrite <- Permutation_middle in Hn. by apply NoDup_cons in Hn as [? _]. }
  assert (Hi : i ∈ a ++ i :: b) by (apply elem_of_app; right; by constructor).
  assert (Hlast : forall s1, s1 !! i = Some l -> match head b with Some _ => put_link k s1 i None | None => Done s1 end
                   = Done (<[i := relink None l]> s1)).
  { intros s1 E1. destruct b; simpl; [|by apply put_link_Done]. simpl in Ll. rewrite <- Ll. by rewrite relink_same, insert_id. }
  destruct (last a) as [p|] eqn:La.
  - destruct (last_split a p La) as (a' & ->). rewrite <- app_assoc in Hc.
    destruct (chained_get s a' p (i :: b) Hc) as (lp & Ep & Lp). rewrite app_assoc in Hc. simpl in Hc.
    assert (Hp : p ∈ (a' ++ [p]) ++ b) by (rewrite !elem_of_app; left; right; by constructor).
    assert (Ei : <[p := relink (head b) lp]> s !! i = Some l) by (rewrite lookup_insert_ne; [done|by apply Ni]).
    exists (<[i := relink None l]> (<[p := relink (head b) lp]> s)). split; [|split; [|split]].
    + rewrite (put_link_Done s p lp) by done. dred. rewrite <- Hlast by done. destruct b as [|n b]; simpl; [done|].
      rewrite (put_link_Done _ p (relink None lp)) by apply lookup_insert_eq. dred. by rewrite insert_insert_eq, relink_relink.
    + unfold chained. rewrite !view_relink by done.
      eapply (linked_remove None (view s) _ (a' ++ [p]) i b); [done..|]. intros j lj Hj Ej. rewrite lookup_insert_ne by (by apply not_eq_sym, Ni).
      unfold relinked. rewrite last_snoc. destruct (decide (p = j)) as [<-|N].
      * rewrite (view_lookup s p lp Ep) in Ej. injection Ej as <-. rewrite lookup_insert_eq. eexists. split; [done|]. by rewrite decide_True.
      * rewrite lookup_insert_ne by done. exists lj. split; [done|]. by rewrite decide_False by congruence.
    + eapply only_field_trans; [apply (only_field_relink s p lp (head b)); [done|]|by apply only_field_relink].
      rewrite <- Permutation_middle. by constructor.
    + exists (relink None l). split; [apply lookup_insert_eq|]. apply link_get_set.
  - destruct a as [|x a _] using rev_ind; [|by rewrite last_snoc in La]. exists (<[i := relink None l]> s).
    split; [by apply Hlast|split; [|split]].
    + unfold chained. rewrite view_relink by done. eapply (linked_remove None (view s) _ [] i b); [done..|].
      intros j lj Hj Ej. rewrite lookup_insert_ne by (by apply not_eq_sym, Ni). by exists lj.
    + by apply only_field_relink.
    + exists (relink None l). split; [apply lookup_insert_eq|]. apply link_get_set.
Qed.

Lemma hash_delete_ok t s fam i l a b :
  hashed t s fam -> s !! i = Some l -> key_of k (data l) <> [] -> fam (key_of k (data l)) = a ++ i :: b ->
  exists t' s' l', hash_delete k t s i = Done (t', s') /\
    hashed t' s' (set_fam fam (key_of k (data l)) (a ++ b)) /\ only_field s s' (a ++ i :: b) /\
    s' !! i = Some l' /\ link_of k (data l') = None.
Proof.
  intros H El Nk Ea. set (key := key_of k (data l)) in *.
  pose proof (hd_linked t s fam H key) as Hc. pose proof (hd_nodup t s fam H key) as Hn. pose proof (hashed_size t s fam key H) as Hz.
  assert (Hk : forall j lj, j ∈ a ++ i :: b -> s !! j = Some lj -> key_of k (data lj) = key).
  { intros j lj Hj. rewrite <- Ea in Hj. by apply (hd_key t s fam H key). }
  assert (Hsome : forall j, j ∈ a ++ i :: b -> is_Some (s !! j)).
  { pose proof (chained_some s _ Hc) as Hs. rewrite Forall_forall, Ea in Hs. done. }
  rewrite Ea in Hc, Hn. destruct (chained_remove s a i b l Hc Hn El) as (s' & Es & Hc' & Ho & l' & El' & Ll').
  exists (match a with [] => match head b with Some h => <[key := h]> (delete key t) | None => delete key t end | _ => t end), s', l'.
  split; [|split; [|done]].
  - unfold hash_delete. rewrite (get_Done _ _ _ El). dred. fold key. rewrite (find_lease_by_head t s fam key H Nk), Ea.
    destruct (chained_get s a i b Hc) as (l0 & El0 & Ll). replace l0 with l in Ll by congruence.
    destruct a as [|x a]; cbn [app head]; cbv iota.
    + rewrite decide_True by done. rewrite Ll. simpl in Es. destruct b as [|n b]; simpl in *; [by injection Es as <-|].
      destruct (Hsome n) as [ln En]; [by constructor; constructor|]. rewrite (get_Done _ _ _ En). dred. rewrite Es. dred.
      rewrite (Hk n ln); [done| |done]. by constructor; constructor.
    + assert (Nx : x <> i). { intros ->. simpl in Hn. apply NoDup_cons in Hn as [[] _]. apply elem_of_app. right. by constructor. }
      rewrite decide_False by done. simpl in Hc, Hn. rewrite Ea in Hz. simpl in Hz.
      destruct (find_before_at s x (a ++ i :: b) (S (size s)) i Hc Hn ltac:(lia) Nx) as [Hf _]. rewrite (Hf a b eq_refl). dred.
      rewrite (last_or_cons None) in *. unfold last_or. destruct (last (x :: a)) as [p|] eqn:L; [|by rewrite last_cons in L; destruct (last a)].
      destruct (put_link k s p None) as [s1| | |]; try done. dred_in Es. dred. rewrite Ll. destruct (head b) as [n|]; simpl in *.
      * destruct (put_link k s1 p (Some n)) as [s2| | |]; try done. dred_in Es. dred. rewrite Es. by dred.
      * by injection Es as <-.
  - eapply (hashed_change t _ s s' fam key (a ++ i :: b)); try done.
    + intros key' N j Hj Hj'. destruct (Hsome j Hj) as [lj Ej]. apply (hashed_apart t s fam key key' j lj H); [done..|]. by apply (Hk j).
    + destruct a as [|x a]; simpl; [destruct b; simpl; [done|by rewrite insert_delete_eq]|]. symmetry. apply insert_id.
      rewrite (hd_head t s fam H key Nk). by rewrite Ea.
    + eapply sublist_NoDup; [exact Hn|]. apply sublist_app; [done|]. by constructor.
    + intros j lj Hj Ej. assert (Hj' : j ∈ a ++ i :: b) by (rewrite <- Permutation_middle; by constructor).
      eapply only_field_key; [exact Ho|intros lj'; by apply Hk|by apply Hsome|exact Ej].
Qed.

(** A lease that is not in the list of its identifier leaves everything as it is. *)
Lemma hash_delete_missing t s fam i l :
  hashed t s fam -> s !! i = Some l -> key_of k (data l) <> [] -> i ∉ fam (key_of k (data l)) -> link_of k (data l) = None ->
  hash_delete k t s i = Done (t, s).
Proof.
  intros H El Nk Ni Ll. unfold hash_delete. rewrite (get_Done _ _ _ El). dred. set (key := key_of k (data l)) in *.
  rewrite (find_lease_by_head t s fam key H Nk). pose proof (hashed_size t s fam key H) as Hz.
  pose proof (hd_linked t s fam H key) as Hc. pose proof (hd_nodup t s fam H key) as Hn.
  destruct (fam key) as [|x r]; cbn [head]; cbv iota.
  - rewrite (put_link_Done s i l) by done. dred. by rewrite <- Ll, relink_same, insert_id.
  - apply not_elem_of_cons in Ni as [Nx Nr]. rewrite decide_False by done. simpl in Hz.
    destruct (find_before_at s x r (S (size s)) i Hc Hn ltac:(lia) (not_eq_sym Nx)) as [_ Hf]. rewrite Hf by done. done.
Qed.
End lists.

(** ** The tables of the server *)
Section clients.
Implicit Types (t : table) (s : leases) (fam : list Z -> list nat).

(** Adding a lease to the table of client identifiers puts it into the list
    of the leases with its identifier, changes no other list and no other field
    of any lease, and keeps the lists linked from the table; it comes after the
    leases that the client prefers to it and before one that it is preferred to,
    so that a list in order of preference remains so. *)
Lemma uid_hash_add_correct t s fam i l :
  hashed uid_link t s fam -> s !! i = Some l -> uid_key (data l) <> [] -> n_uid (data l) = None -> i ∉ fam (uid_key (data l)) ->
  exists t' s' a b, uid_hash_add t s i = Done (t', s') /\ fam (uid_key (data l)) = a ++ b /\
    hashed uid_link t' s' (set_fam fam (uid_key (data l)) (a ++ i :: b)) /\ inserted uid_link s s' i a b /\
    (ordered s (a ++ b) -> ordered s' (a ++ i :: b)).
Proof.
  intros H El Nk Ll Ni. destruct (hash_add_ok uid_link t s fam i l H El Nk Ll Ni) as (t' & s' & a & b & E & Ea & H' & Hi).
  exists t', s', a, b. split_and!; [done..|]. eapply (inserted_ordered uid_link); [exact Hi|exact El|].
  pose proof (chained_some uid_link s _ (hd_linked _ t s fam H (uid_key (data l)))) as Hs.
  simpl in Ea. rewrite Ea in Hs. by apply Forall_app in Hs as [? _].
Qed.

(** Deleting a lease from the table of client identifiers takes it out of
    the list of its identifier, wherever it is in it, clears its link, and
    leaves the others in their order. *)
Lemma uid_hash_delete_correct t s fam i l a b :
  hashed uid_link t s fam -> s !! i = Some l -> uid_key (data l) <> [] -> fam (uid_key (data l)) = a ++ i :: b ->
  exists t' s' l', uid_hash_delete t s i = Done (t', s') /\
    hashed uid_link t' s' (set_fam fam (uid_key (data l)) (a ++ b)) /\ only_field uid_link s s' (a ++ i :: b) /\
    s' !! i = Some l' /\ n_uid (data l') = None /\ (ordered s (a ++ i :: b) -> ordered s' (a ++ b)).
Proof.
  intros H El Nk Ea. destruct (hash_delete_ok uid_link t s fam i l a b H El Nk Ea) as (t' & s' & l' & E & H' & Ho & El' & Ll).
  exists t', s', l'. split_and!; [done..|]. intros Hs. eapply (only_field_ordered uid_link); [exact Ho|]. by eapply Sorted_remove.
Qed.

(** The lease that the server finds for a hardware address is, of all leases
    with this address, one that no other is better than: active before expired
    or released, these before free ones, abandoned ones last, and the later end
    or the later transaction first among equals.  An Infiniband address is
    never found. *)
Lemma find_lease_by_hw_addr_best t s fam hw i l :
  hashed hw_link t s fam -> ordered s (fam hw) -> find_lease_by_hw_addr t hw = Some i -> s !! i = Some l ->
  hw <> [HTYPE_INFINIBAND] /\ hardware_addr (data l) = hw /\
  forall j lj, j ∈ fam hw -> s !! j = Some lj -> at_least (data l) (data lj).
Proof.
  intros H Hs Ef El. unfold find_lease_by_hw_addr, is_infiniband in Ef. case_bool_decide as Ib; [done|].
  assert (Nk : hw <> []) by (by intros ->). rewrite (find_lease_by_head hw_link t s fam hw H Nk) in Ef.
  pose proof (hd_key hw_link t s fam H hw) as Hk. destruct (fam hw) as [|x r]; [done|]. injection Ef as ->.
  split_and!; [done|apply (Hk i); [by constructor|done]|]. intros j lj Hj Ej. inversion Hs as [|? ? _ Hr]; subst.
  apply elem_of_cons in Hj as [->|Hj]; [by replace lj with l by congruence|]. rewrite Forall_forall in Hr.
  destruct (Hr j Hj) as (l1 & l2 & E1 & E2 & A). congruence.
Qed.

(** The table of hardware addresses is kept in the same way: an address is
    added in the place the order of preference gives it, and deleted from
    wherever it is; an Infiniband address, which has no bytes to tell two
    clients apart, is left out of it. *)
Lemma hw_hash_add_delete t s fam i l :
  hashed hw_link t s fam -> s !! i = Some l -> hardware_addr (data l) <> [] -> n_hw (data l) = None ->
  i ∉ fam (hardware_addr (data l)) ->
  (hardware_addr (data l) = [HTYPE_INFINIBAND] /\ hw_hash_add t s i = Done (t, s) /\ hw_hash_delete t s i = Done (t, s)) \/
  exists t' s' a b t2 s2, hw_hash_add t s i = Done (t', s') /\ fam (hardware_addr (data l)) = a ++ b /\
    hashed hw_link t' s' (set_fam fam (hardware_addr (data l)) (a ++ i :: b)) /\ inserted hw_link s s' i a b /\
    hw_hash_delete t' s' i = Done (t2, s2) /\ hashed hw_link t2 s2 (set_fam fam (hardware_addr (data l)) (a ++ b)).
Proof.
  intros H El Nk Ll Ni. unfold hw_hash_add, hw_hash_delete. rewrite (get_Done _ _ _ El). dred.
  unfold is_infiniband. case_bool_decide as Ib; [by left|right].
  destruct (hash_add_ok hw_link t s fam i l H El Nk Ll Ni) as (t' & s' & a & b & E & Ea & H' & Hi). simpl in Ea, H'.
  pose proof Hi as [[_ Hf] _]. destruct (Hf i l El) as (v & El').
  destruct (hash_delete_ok hw_link t' s' _ i _ a b H' El' Nk) as (t2 & s2 & l2 & E2 & H2 & _).
  { simpl. unfold set_fam. by rewrite decide_True. }
  exists t', s', a, b, t2, s2. rewrite (get_Done _ _ _ El'). dred. simpl (hardware_addr _). rewrite bool_decide_false by done.
  split_and!; [done..|]. destruct H2 as [D1 D2 D3 D4]. simpl in D1, D2, D3, D4.
  split; intros key; [specialize (D1 key)|specialize (D2 key)|specialize (D3 key)|specialize (D4 key)];
    unfold set_fam in *; by destruct (decide (key = hardware_addr (data l))).
Qed.
End clients.

(** ** A client with three leases *)
Definition sample_data (state end_ : Z) (n : option nat) : ldata :=
  mk_ldata 0 end_ 0 0 0 0 state state state FTS_FREE 0 (Some (InBuf [1; 10])) [1; 10] n n None None None None None None None None (Some 0%nat) None.
Definition sample_lease (state end_ : Z) (n : option nat) : lease ldata :=
  mk_lease None None None end_ 0 (sample_data state end_ n).

(** Lease 1 and lease 2 are in the tables, lease 3 is not. *)
Definition sample_store : leases :=
  <[1%nat := sample_lease FTS_ACTIVE 100 (Some 2%nat)]> (<[2%nat := sample_lease FTS_FREE 0 None]>
    (<[3%nat := sample_lease FTS_ACTIVE 50 None]> ∅)).
Definition sample_table : table := {[ [1; 10] := 1%nat ]}.
Definition sample_fam : list Z -> list nat := set_fam (fun _ => []) [1; 10] [1%nat; 2%nat].

Lemma sample_hashed k : k = uid_link \/ k = hw_link -> hashed k sample_table sample_store sample_fam.
Proof.
  intros Hk. split; intros key; unfold sample_fam, set_fam; destruct (decide (key = [1; 10])) as [->|N]; try done.
  - intros _. unfold sample_table. by rewrite lookup_singleton_ne.
  - intros [|[|m]] i E; simplify_eq/=; destruct Hk as [-> | ->]; eexists; split; try by vm_compute.
  - apply (bool_decide_unpack _). by vm_compute.
  - constructor.
  - intros i l Hi E. apply elem_of_cons in Hi as [->|Hi]; [|apply list_elem_of_singleton in Hi as ->];
      vm_compute in E; injection E as <-; destruct Hk as [-> | ->]; by vm_compute.
  - intros i l Hi. by apply not_elem_of_nil in Hi.
Qed.
Lemma sample_ordered : ordered sample_store [1%nat; 2%nat].
Proof.
  repeat constructor. exists (sample_lease FTS_ACTIVE 100 (Some 2%nat)), (sample_lease FTS_FREE 0 None).
  split_and!; [by vm_compute..|]. by left.
Qed.
