(* ===== verification/Billing.v ===== *)
(** * Billing classes (server/class.c)

    A class may limit how many leases its members hold.  It has a table with a
    slot for each lease it may be billed for and the number of slots in use;
    the lease points back to the class.  Classes are objects in a store, like
    leases. *)

From stdpp Require Import base tactics numbers gmap list.
From S2P Require Import Prelude Lease LeaseHash.

#[local] Open Scope Z_scope.

Record class := mk_class {
  lease_limit : Z;
  leases_consumed : Z;
  billed_leases : list (option nat) }.

Abbreviation classes := (gmap nat class).

Definition get_class (cs : classes) (c : nat) : outcome class :=
  match cs !! c with Some cl => Done cl | None => Fault end.

(** The first slot with the given contents, or [limit]. *)
Fixpoint find_slot (fuel : nat) (slots : list (option nat)) (limit i : Z) (who : option nat) : outcome Z :=
  match fuel with
  | O => Running
  | S fuel' =>
      if i <? limit then
        b ← rd slots i;
        if decide (b = who) then Done i else find_slot fuel' slots limit (i + 1) who
      else Done i
  end.
Definition slot_of (cl : class) (who : option nat) : outcome Z :=
  find_slot (S (Z.to_nat (lease_limit cl))) (billed_leases cl) (lease_limit cl) 0 who.

Definition set_billing (s : leases) (i : nat) (c : option nat) : outcome leases :=
  upd s i (fun l => set_data (set_billing_class c (data l)) l).

Definition unbill_class (cs : classes) (s : leases) (lease : nat) : outcome (classes * leases) :=
  l ← get s lease;
  match billing_class (data l) with
  | None => Done (cs, s)
  | Some c =>
      class ← get_class cs c;
      i ← slot_of class (Some lease);
      cs ← (if i =? lease_limit class then Done cs
            else slots ← wr (billed_leases class) i None;
                 Done (<[c := mk_class (lease_limit class) (leases_consumed class - 1) slots]> cs));
      s ← set_billing s lease None;
      Done (cs, s)
  end.

Definition bill_class (cs : classes) (s : leases) (lease c : nat) : outcome (bool * classes * leases) :=
  l ← get s lease;
  '(cs, s) ← (match billing_class (data l) with Some _ => unbill_class cs s lease | None => Done (cs, s) end);
  class ← get_class cs c;
  if leases_consumed class =? lease_limit class then Done (false, cs, s)
  else
    i ← slot_of class None;
    if i =? lease_limit class then Done (false, cs, s)
    else
      slots ← wr (billed_leases class) i (Some lease);
      s ← set_billing s lease (Some c);
      Done (true, <[c := mk_class (lease_limit class) (leases_consumed class + 1) slots]> cs, s).

(** ** Slots *)
Definition billed_ids (cl : class) : list nat := omap id (billed_leases cl).

Lemma slot_of_ok cl who :
  zlen (billed_leases cl) = lease_limit cl ->
  (exists i, slot_of cl who = Done i /\ 0 <= i < lease_limit cl /\ billed_leases cl !! Z.to_nat i = Some who) \/
  (slot_of cl who = Done (lease_limit cl) /\ who ∉ billed_leases cl).
Proof.
  intros Hz. unfold slot_of. set (slots := billed_leases cl) in *. set (limit := lease_limit cl) in *.
  assert (H : forall fuel i, 0 <= i <= limit -> (Z.to_nat (limit - i) < fuel)%nat ->
    (forall n, (n < Z.to_nat i)%nat -> slots !! n <> Some who) ->
    (exists j, find_slot fuel slots limit i who = Done j /\ 0 <= j < limit /\ slots !! Z.to_nat j = Some who) \/
    (find_slot fuel slots limit i who = Done limit /\ who ∉ slots)).
  { induction fuel as [|fuel IH]; intros i Hi Hf Hb; [lia|]. simpl. destruct (Z.ltb_spec i limit).
    - destruct (rd_in slots i ltac:(lia)) as (b & -> & Eb). dred. destruct (decide (b = who)) as [->|N].
      + left. exists i. split_and!; [done|lia|lia|done].
      + apply IH; [lia|lia|]. intros n Hn. destruct (decide (n = Z.to_nat i)) as [->|]; [congruence|]. apply Hb. lia.
    - right. replace i with limit in * by lia. split; [done|]. intros (n & En)%list_elem_of_lookup_1. eapply Hb; [|exact En].
      apply lookup_lt_Some in En. unfold zlen in Hz. lia. }
  apply H; [|lia|intros; lia]. pose proof (zlen_nonneg slots). lia.
Qed.

(** The leases in the slots, with one slot singled out. *)
Lemma billed_split (slots : list (option nat)) n x :
  slots !! n = Some x -> exists a b, omap id slots = a ++ option_list x ++ b /\
    forall y, omap id (<[n := y]> slots) = a ++ option_list y ++ b.
Proof.
  intros E. exists (omap id (take n slots)), (omap id (drop (S n) slots)). split.
  - rewrite <- (take_drop_middle slots n x E) at 1. rewrite omap_app. by destruct x.
  - intros y. rewrite insert_take_drop by (by eapply lookup_lt_Some). rewrite omap_app. by destruct y.
Qed.

Lemma billed_elem cl i : i ∈ billed_ids cl <-> Some i ∈ billed_leases cl.
Proof. unfold billed_ids. rewrite list_elem_of_omap. split; [intros (x & H & E); simpl in E; by subst|]. intros H. by exists (Some i). Qed.

(** ** The invariant

    The number of leases a class counts is the number of slots in use, no lease
    is billed twice, billed leases point to their class, and (for the leases
    of [L]) a lease that points to a class is billed to it. *)
Record billing_ok (L : gset nat) (cs : classes) (s : leases) : Prop := {
  bl_slots : forall c cl, cs !! c = Some cl -> zlen (billed_leases cl) = lease_limit cl;
  bl_count : forall c cl, cs !! c = Some cl -> leases_consumed cl = zlen (billed_ids cl);
  bl_once : forall c cl, cs !! c = Some cl -> NoDup (billed_ids cl);
  bl_back : forall c cl i, cs !! c = Some cl -> i ∈ billed_ids cl ->
    i ∈ L /\ exists l, s !! i = Some l /\ billing_class (data l) = Some c;
  bl_class : forall i l c, s !! i = Some l -> billing_class (data l) = Some c -> is_Some (cs !! c);
  bl_all : forall i l c cl, i ∈ L -> s !! i = Some l -> billing_class (data l) = Some c -> cs !! c = Some cl ->
    i ∈ billed_ids cl }.

(** It depends only on the classes of the leases. *)
Lemma billing_ok_same L cs s s' :
  billing_ok L cs s ->
  (forall i l, s !! i = Some l -> exists l', s' !! i = Some l' /\ billing_class (data l') = billing_class (data l)) ->
  (forall i l', s' !! i = Some l' -> is_Some (s !! i)) -> billing_ok L cs s'.
Proof.
  intros [H1 H2 H3 H4 H5 H6] Hf Hb.
  assert (Hb' : forall i l', s' !! i = Some l' -> exists l, s !! i = Some l /\ billing_class (data l') = billing_class (data l)).
  { intros i l' E'. destruct (Hb i l' E') as [l E]. destruct (Hf i l E) as (l2 & E2 & Hl2). exists l. split; congruence. }
  split; try done.
  - intros c cl i Ec Hi. destruct (H4 c cl i Ec Hi) as (HL & l & E & Hl). split; [done|].
    destruct (Hf i l E) as (l' & E' & Hl'). exists l'. split; congruence.
  - intros i l' c E' Hc. destruct (Hb' i l' E') as (l & E & Hl). apply (H5 i l); congruence.
  - intros i l' c cl HL E' Hc. destruct (Hb' i l' E') as (l & E & Hl). apply (H6 i l); congruence.
Qed.

Definition with_class (c : option nat) (l : lease ldata) : lease ldata := set_data (set_billing_class c (data l)) l.

Lemma set_billing_Done s i l c : s !! i = Some l -> set_billing s i c = Done (<[i := with_class c l]> s).
Proof. intros E. unfold set_billing. by rewrite (upd_Done _ _ _ _ E). Qed.
Lemma with_class_same l : with_class (billing_class (data l)) l = l.
Proof. destruct l as [? ? ? ? ? []]. done. Qed.

(** Changing the class of one lease and one class. *)
Lemma billing_ok_unbill L cs s i l c cl a b slots :
  billing_ok L cs s -> s !! i = Some l -> cs !! c = Some cl -> billing_class (data l) = Some c ->
  billed_ids cl = a ++ i :: b -> omap id slots = a ++ b -> zlen slots = lease_limit cl ->
  billing_ok L (<[c := mk_class (lease_limit cl) (leases_consumed cl - 1) slots]> cs) (<[i := with_class None l]> s).
Proof.
  intros [H1 H2 H3 H4 H5 H6] El Ec Hc Ea Es Hz. pose proof (H3 c cl Ec) as Hn. rewrite Ea in Hn.
  assert (Ni : i ∉ a ++ b) by (rewrite <- Permutation_middle in Hn; by apply NoDup_cons in Hn as [? _]).
  assert (Hab : forall j, j ∈ a ++ b -> j ∈ billed_ids cl) by (intros j Hj; rewrite Ea, <- Permutation_middle; by constructor).
  split.
  - intros c' cl'. destruct (decide (c = c')) as [<-|N]; [rewrite lookup_insert_eq; by intros [= <-]|rewrite lookup_insert_ne by done; apply H1].
  - intros c' cl'. destruct (decide (c = c')) as [<-|N]; [|rewrite lookup_insert_ne by done; apply H2].
    rewrite lookup_insert_eq. intros [= <-]. unfold billed_ids. simpl. rewrite Es, (H2 c cl Ec), Ea. zauto.
  - intros c' cl'. destruct (decide (c = c')) as [<-|N]; [|rewrite lookup_insert_ne by done; apply H3].
    rewrite lookup_insert_eq. intros [= <-]. unfold billed_ids. simpl. rewrite Es.
    rewrite <- Permutation_middle in Hn. by apply NoDup_cons in Hn as [_ ?].
  - intros c' cl' j Ec' Hj. destruct (decide (i = j)) as [<-|Nj].
    + exfalso. destruct (decide (c = c')) as [<-|N].
      * rewrite lookup_insert_eq in Ec'. injection Ec' as <-. unfold billed_ids in Hj. simpl in Hj. by rewrite Es in Hj.
      * rewrite lookup_insert_ne in Ec' by done. destruct (H4 c' cl' i Ec' Hj) as (_ & l' & E' & Hl'). congruence.
    + rewrite lookup_insert_ne by done. destruct (decide (c = c')) as [<-|N].
      * rewrite lookup_insert_eq in Ec'. injection Ec' as <-. unfold billed_ids in Hj. simpl in Hj. rewrite Es in Hj.
        apply (H4 c cl j Ec). by apply Hab.
      * rewrite lookup_insert_ne in Ec' by done. by apply (H4 c' cl').
  - intros j lj c' Ej Hcj. destruct (decide (c = c')) as [<-|N]; [rewrite lookup_insert_eq; eauto|rewrite lookup_insert_ne by done].
    destruct (decide (i = j)) as [<-|Nj].
    + rewrite lookup_insert_eq in Ej. by injection Ej as <-.
    + rewrite lookup_insert_ne in Ej by done. by eapply H5.
  - intros j lj c' cl' HL Ej Hcj Ec'. destruct (decide (i = j)) as [<-|Nj].
    + rewrite lookup_insert_eq in Ej. by injection Ej as <-.
    + rewrite lookup_insert_ne in Ej by done. destruct (decide (c = c')) as [<-|N].
      * rewrite lookup_insert_eq in Ec'. injection Ec' as <-. unfold billed_ids. simpl. rewrite Es.
        pose proof (H6 j lj c cl HL Ej Hcj Ec) as Hj. rewrite Ea, <- Permutation_middle in Hj. by apply elem_of_cons in Hj as [?|?].
      * rewrite lookup_insert_ne in Ec' by done. by eapply H6.
Qed.

Lemma billing_ok_bill L cs s i l c cl a b slots :
  billing_ok L cs s -> s !! i = Some l -> cs !! c = Some cl -> billing_class (data l) = None ->
  billed_ids cl = a ++ b -> omap id slots = a ++ i :: b -> zlen slots = lease_limit cl ->
  billing_ok (L ∪ {[i]}) (<[c := mk_class (lease_limit cl) (leases_consumed cl + 1) slots]> cs) (<[i := with_class (Some c) l]> s).
Proof.
  intros [H1 H2 H3 H4 H5 H6] El Ec Hc Ea Es Hz.
  assert (Ni : forall c' cl', cs !! c' = Some cl' -> i ∉ billed_ids cl').
  { intros c' cl' Ec' Hi. destruct (H4 c' cl' i Ec' Hi) as (_ & l' & E' & Hl'). congruence. }
  assert (Hab : forall j, j ∈ a ++ i :: b -> j = i \/ j ∈ billed_ids cl).
  { intros j Hj. rewrite Ea. rewrite <- Permutation_middle in Hj. by apply elem_of_cons in Hj. }
  split.
  - intros c' cl'. destruct (decide (c = c')) as [<-|N]; [rewrite lookup_insert_eq; by intros [= <-]|rewrite lookup_insert_ne by done; apply H1].
  - intros c' cl'. destruct (decide (c = c')) as [<-|N]; [|rewrite lookup_insert_ne by done; apply H2].
    rewrite lookup_insert_eq. intros [= <-]. unfold billed_ids. simpl. rewrite Es, (H2 c cl Ec), Ea. zauto.
  - intros c' cl'. destruct (decide (c = c')) as [<-|N]; [|rewrite lookup_insert_ne by done; apply H3].
    rewrite lookup_insert_eq. intros [= <-]. unfold billed_ids. simpl. rewrite Es, <- Permutation_middle, <- Ea.
    constructor; [by apply (Ni c)|by apply (H3 c)].
  - intros c' cl' j Ec' Hj. assert (Hj' : j = i /\ c' = c \/ j <> i /\ exists cl0, cs !! c' = Some cl0 /\ j ∈ billed_ids cl0).
    { destruct (decide (c = c')) as [<-|N].
      - rewrite lookup_insert_eq in Ec'. injection Ec' as <-. unfold billed_ids in Hj. simpl in Hj. rewrite Es in Hj.
        destruct (decide (j = i)) as [->|Nj]; [by left|right]. apply Hab in Hj as [?|Hj]; [done|]. eauto.
      - rewrite lookup_insert_ne in Ec' by done. right. split; [|eauto]. intros ->. by apply (Ni c' cl'). }
    destruct Hj' as [[-> ->]|(Nj & cl0 & Ec0 & Hj0)].
    + split; [apply elem_of_union; right; by apply elem_of_singleton|]. exists (with_class (Some c) l). by rewrite lookup_insert_eq.
    + destruct (H4 c' cl0 j Ec0 Hj0) as (HL & R). split; [apply elem_of_union; by left|]. by rewrite lookup_insert_ne.
  - intros j lj c' Ej Hcj. destruct (decide (c = c')) as [<-|N]; [rewrite lookup_insert_eq; eauto|rewrite lookup_insert_ne by done].
    destruct (decide (i = j)) as [<-|Nj].
    + rewrite lookup_insert_eq in Ej. injection Ej as <-. simpl in Hcj. congruence.
    + rewrite lookup_insert_ne in Ej by done. by eapply H5.
  - intros j lj c' cl' HL Ej Hcj Ec'. destruct (decide (i = j)) as [<-|Nj].
    + rewrite lookup_insert_eq in Ej. injection Ej as <-. simpl in Hcj. injection Hcj as <-. rewrite lookup_insert_eq in Ec'.
      injection Ec' as <-. unfold billed_ids. simpl. rewrite Es, elem_of_app. right. by constructor.
    + rewrite lookup_insert_ne in Ej by done. apply elem_of_union in HL as [HL|HL%elem_of_singleton]; [|by subst].
      destruct (decide (c = c')) as [<-|N].
      * rewrite lookup_insert_eq in Ec'. injection Ec' as <-. unfold billed_ids. simpl. rewrite Es, <- Permutation_middle. right.
        rewrite <- Ea. by eapply H6.
      * rewrite lookup_insert_ne in Ec' by done. by eapply H6.
Qed.

Lemma unbill_class_ok L cs s i l :
  billing_ok L cs s -> i ∈ L -> s !! i = Some l ->
  exists cs', unbill_class cs s i = Done (cs', <[i := with_class None l]> s) /\ billing_ok L cs' (<[i := with_class None l]> s) /\
    (forall c cl', cs' !! c = Some cl' -> exists cl, cs !! c = Some cl /\ lease_limit cl' = lease_limit cl) /\
    (forall c cl, cs !! c = Some cl -> is_Some (cs' !! c)).
Proof.
  intros H HL El. unfold unbill_class. rewrite (get_Done _ _ _ El). dred. destruct (billing_class (data l)) as [c|] eqn:Hc.
  - destruct (bl_class L cs s H i l c El Hc) as [cl Ec]. unfold get_class. rewrite Ec. dred.
    pose proof (bl_slots L cs s H c cl Ec) as Hz. pose proof (bl_all L cs s H i l c cl HL El Hc Ec) as Hi.
    destruct (slot_of_ok cl (Some i) Hz) as [(n & -> & Hn & En)|[_ Ni]]; [|by apply billed_elem in Hi]. dred.
    rewrite (proj2 (Z.eqb_neq _ _)) by lia. rewrite wr_in by lia. dred. rewrite (set_billing_Done _ _ _ _ El). dred.
    eexists. split; [done|]. destruct (billed_split _ _ _ En) as (a & b & Ea & Eb).
    split; [|split].
    + apply (billing_ok_unbill L cs s i l c cl a b); [done..|apply (Eb None)|by rewrite zlen_insert].
    + intros c' cl' [[-> <-]|[N E]]%lookup_insert_Some; eauto.
    + intros c' cl' E. destruct (decide (c = c')) as [<-|N]; [rewrite lookup_insert_eq|rewrite lookup_insert_ne by done]; eauto.
  - exists cs. rewrite <- Hc, with_class_same, insert_id by done. split_and!; eauto.
Qed.

Lemma length_omap_le (slots : list (option nat)) : (length (omap id slots) <= length slots)%nat.
Proof.
  induction slots as [|[x|] r IH]; [done| |].
  - change (S (length (omap id r)) <= S (length r))%nat. lia.
  - change (length (omap id r) <= S (length r))%nat. lia.
Qed.

Lemma billed_free cl : zlen (billed_leases cl) = lease_limit cl -> None ∉ billed_leases cl -> zlen (billed_ids cl) = lease_limit cl.
Proof.
  unfold billed_ids. intros <-. induction (billed_leases cl) as [|[x|] r IH]; intros E; [done| |].
  - apply not_elem_of_cons in E as [_ E]. change (zlen (x :: omap id r) = zlen (Some x :: r)). rewrite !zlen_cons. by rewrite IH.
  - destruct E. by constructor.
Qed.

Lemma bill_class_ok L cs s i l c :
  billing_ok L cs s -> (i ∈ L \/ billing_class (data l) = None) -> s !! i = Some l -> is_Some (cs !! c) ->
  exists (b : bool) cs', bill_class cs s i c = Done (b, cs', <[i := with_class (if b then Some c else None) l]> s) /\
    billing_ok (L ∪ {[i]}) cs' (<[i := with_class (if b then Some c else None) l]> s) /\
    (forall c' cl', cs' !! c' = Some cl' -> exists cl, cs !! c' = Some cl /\ lease_limit cl' = lease_limit cl) /\
    (forall cl', cs' !! c = Some cl' -> b = false -> leases_consumed cl' = lease_limit cl').
Proof.
  intros H HL El Hcl. unfold bill_class. rewrite (get_Done _ _ _ El). dred. set (s1 := <[i := with_class None l]> s).
  assert (exists cs1, (match billing_class (data l) with Some _ => unbill_class cs s i | None => Done (cs, s) end) = Done (cs1, s1) /\
    billing_ok L cs1 s1 /\ (forall c cl', cs1 !! c = Some cl' -> exists cl, cs !! c = Some cl /\ lease_limit cl' = lease_limit cl) /\
    is_Some (cs1 !! c)) as (cs1 & -> & H1 & Hlim & [cl Ec]).
  { destruct (billing_class (data l)) as [c'|] eqn:Hc.
    - destruct HL as [HL|]; [|done]. destruct (unbill_class_ok L cs s i l H HL El) as (cs1 & E & H1 & Hl & He).
      exists cs1. split_and!; [done..|]. destruct Hcl as [cl Ec]. by eapply He.
    - exists cs. unfold s1. rewrite <- Hc, with_class_same, insert_id by done. split_and!; eauto. }
  assert (E1 : s1 !! i = Some (with_class None l)) by apply lookup_insert_eq.
  assert (Hsub : billing_ok (L ∪ {[i]}) cs1 s1).
  { destruct H1 as [B1 B2 B3 B4 B5 B6]. split; try done.
    - intros c' cl' j Ec' Hj. destruct (B4 c' cl' j Ec' Hj) as [? ?]. split; [apply elem_of_union; by left|done].
    - intros j lj c' cl' [Hj|Hj%elem_of_singleton]%elem_of_union Ej Hcj; [by eapply B6|]. subst j.
      replace lj with (with_class None l) in Hcj by congruence. done. }
  dred. unfold get_class. rewrite Ec. dred. pose proof (bl_slots _ _ _ H1 c cl Ec) as Hz. pose proof (bl_count _ _ _ H1 c cl Ec) as Hk.
  destruct (Z.eqb_spec (leases_consumed cl) (lease_limit cl)) as [Efull|Nfull].
  - exists false, cs1. split_and!; [done..|]. intros cl' Ec' _. congruence.
  - destruct (slot_of_ok cl None Hz) as [(n & -> & Hn & En)|[_ Nn]]; [|by pose proof (billed_free cl Hz Nn); lia]. dred.
    rewrite (proj2 (Z.eqb_neq _ _)) by lia. rewrite wr_in by lia. dred. rewrite (set_billing_Done _ _ _ _ E1). dred.
    unfold s1. rewrite insert_insert_eq. eexists true, _. split; [done|]. destruct (billed_split _ _ _ En) as (a & b & Ea & Eb).
    split; [|split; [|done]].
    + pose proof (billing_ok_bill L cs1 s1 i (with_class None l) c cl a b (<[Z.to_nat n := Some i]> (billed_leases cl)) H1 E1 Ec eq_refl Ea (Eb (Some i))) as B.
      unfold s1 in B. rewrite insert_insert_eq in B. apply B. by rewrite zlen_insert.
    + intros c' cl' [[-> <-]|[N E]]%lookup_insert_Some; [|eauto]. destruct (Hlim c' cl Ec) as (cl0 & ? & ?). eauto.
Qed.

(** Billing a lease to a class never exceeds the limit of the class and
    keeps the books: the number of leases a class has consumed is the number of
    its slots in use, no lease has two, and the leases in them are those that
    point to the class.  It succeeds exactly when the class has a slot left
    once the lease has been taken off the class it was billed to, and nothing
    but the class of this lease changes in any lease. *)
Lemma bill_class_correct L cs s i l c :
  billing_ok L cs s -> i ∈ L -> s !! i = Some l -> is_Some (cs !! c) ->
  exists (b : bool) cs' s', bill_class cs s i c = Done (b, cs', s') /\ billing_ok (L ∪ {[i]}) cs' s' /\
    s' = <[i := with_class (if b then Some c else None) l]> s /\
    (forall cl', cs' !! c = Some cl' -> 0 <= leases_consumed cl' <= lease_limit cl' /\ (b = false -> leases_consumed cl' = lease_limit cl')).
Proof.
  intros H HL El Hc. destruct (bill_class_ok L cs s i l c H (or_introl HL) El Hc) as (b & cs' & E & H' & _ & Hf).
  exists b, cs', (<[i := with_class (if b then Some c else None) l]> s). split_and!; [done..|]. intros cl' Ec'. split; [|by apply Hf].
  rewrite (bl_count _ _ _ H' c cl' Ec'), <- (bl_slots _ _ _ H' c cl' Ec'). split; [apply zlen_nonneg|].
  unfold billed_ids, zlen. apply inj_le. apply length_omap_le.
Qed.

(** Unbilling gives the slot back: the lease is billed to no class
    afterwards, and all classes still count their leases right. *)
Lemma unbill_class_correct L cs s i l :
  billing_ok L cs s -> i ∈ L -> s !! i = Some l ->
  exists cs' s', unbill_class cs s i = Done (cs', s') /\ billing_ok L cs' s' /\ s' = <[i := with_class None l]> s /\
    (forall c cl, cs' !! c = Some cl -> i ∉ billed_ids cl).
Proof.
  intros H HL El. destruct (unbill_class_ok L cs s i l H HL El) as (cs' & E & H' & _ & _). exists cs', (<[i := with_class None l]> s). split_and!; [done..|].
  intros c cl Ec Hi. destruct (bl_back _ _ _ H' c cl i Ec Hi) as (_ & l' & E' & Hl'). rewrite lookup_insert_eq in E'. by injection E' as <-.
Qed.

(** ** A class with two slots, one in use *)
Definition sample_classes : classes := {[ 7%nat := mk_class 2 1 [None; Some 1%nat] ]}.
Definition billed_store : leases :=
  <[1%nat := with_class (Some 7%nat) (sample_lease FTS_ACTIVE 100 None)]> (<[2%nat := sample_lease FTS_ACTIVE 50 None]> ∅).

Lemma sample_billing_ok : billing_ok {[1%nat; 2%nat]} sample_classes billed_store.
Proof.
  assert (Hc : forall c cl, sample_classes !! c = Some cl -> c = 7%nat /\ cl = mk_class 2 1 [None; Some 1%nat]).
  { intros c cl E. unfold sample_classes in E. by apply lookup_singleton_Some in E as [<- <-]. }
  assert (Hs : forall i l, billed_store !! i = Some l -> i = 1%nat /\ billing_class (data l) = Some 7%nat \/ i = 2%nat /\ billing_class (data l) = None).
  { intros i l E. unfold billed_store in E. apply lookup_insert_Some in E as [[<- <-]|[_ E]]; [by left|].
    apply lookup_insert_Some in E as [[<- <-]|[_ E]]; [by right|]. by rewrite lookup_empty in E. }
  split.
  - by intros c cl [-> ->]%Hc.
  - by intros c cl [-> ->]%Hc.
  - intros c cl [-> ->]%Hc. apply (bool_decide_unpack _). by vm_compute.
  - intros c cl i [-> ->]%Hc Hi. apply list_elem_of_singleton in Hi as ->. split; [apply (bool_decide_unpack _); by vm_compute|].
    exists (with_class (Some 7%nat) (sample_lease FTS_ACTIVE 100 None)). by vm_compute.
  - intros i l c [[-> E]|[-> E]]%Hs Ec; [|congruence]. replace c with 7%nat by congruence. eauto.
  - intros i l c cl _ [[-> E]|[-> E]]%Hs Ec [-> ->]%Hc; [|congruence]. by constructor.
Qed.
