(* ===== verification/LeaseDb.v ===== *)
(** * The lease database (server/mdb.c)

    Pools with their queues, and the operations that move a lease from one
    binding state to the next: [supersede_lease], [make_binding_state_transition],
    [lease_enqueue], [pool_timer], [release_lease], [abandon_lease],
    [lease_instantiate].  The queues are reached through [LeaseQueueOps], so
    that everything here holds for both implementations.

    What other parts of the server do on the way (writing the lease file,
    running statements, removing DNS records, talking to a failover peer) is
    an interface of its own, [World]; [WorldOk] says what these parts leave
    alone.  Log messages and reference counts are not modelled. *)

From stdpp Require Import base tactics numbers gmap list.
From S2P Require Import Prelude Lease LeaseHash Billing.

#[local] Open Scope Z_scope.

Definition MIN_TIME : Z := 0.
Definition MAX_TIME : Z := 2147483647.

Definition STATIC_LEASE : Z := 1.
Definition BOOTP_LEASE : Z := 2.
Definition RESERVED_LEASE : Z := 4.
Definition MS_NULL_TERMINATION : Z := 8.
Definition ON_UPDATE_QUEUE : Z := 16.
Definition ON_ACK_QUEUE : Z := 32.
Definition UNICAST_BROADCAST_HACK : Z := 64.
Definition PERSISTENT_FLAGS : Z := Z.lor ON_ACK_QUEUE ON_UPDATE_QUEUE.
Definition EPHEMERAL_FLAGS : Z :=
  Z.lor (Z.lor (Z.lor MS_NULL_TERMINATION UNICAST_BROADCAST_HACK) RESERVED_LEASE) BOOTP_LEASE.
Definition has_flag (d : ldata) (m : Z) : bool := negb (Z.land (flags d) m =? 0).

(** ** Failover peers *)
Inductive failover_state :=
  | unknown_state | startup | normal | communications_interrupted | partner_down | potential_conflict
  | recover | paused | shut_down | recover_done | resolution_interrupted | conflict_done | recover_wait.
Inductive service_state :=
  | unknown_service_state | cooperating | not_cooperating | service_partner_down | not_responding | service_startup.
Inductive failover_role := primary | secondary.
#[export] Instance failover_state_eq_dec : EqDecision failover_state.
Proof. solve_decision. Defined.
#[export] Instance service_state_eq_dec : EqDecision service_state.
Proof. solve_decision. Defined.
#[export] Instance failover_role_eq_dec : EqDecision failover_role.
Proof. solve_decision. Defined.

Record peer := mk_peer {
  me_state : failover_state;
  me_stos : Z;
  mclt : Z;
  service : service_state;
  i_am : failover_role }.

(** ** The queues of a pool *)
Inductive qkind := FREE_LEASES | ACTIVE_LEASES | EXPIRED_LEASES | ABANDONED_LEASES | BACKUP_LEASES | RESERVED_LEASES.
#[export] Instance qkind_eq_dec : EqDecision qkind.
Proof. solve_decision. Defined.
Definition all_kinds : list qkind :=
  [FREE_LEASES; ACTIVE_LEASES; EXPIRED_LEASES; ABANDONED_LEASES; BACKUP_LEASES; RESERVED_LEASES].

Definition kind_index (k : qkind) : nat :=
  match k with
  | FREE_LEASES => 0 | ACTIVE_LEASES => 1 | EXPIRED_LEASES => 2 | ABANDONED_LEASES => 3 | BACKUP_LEASES => 4 | RESERVED_LEASES => 5
  end.
(** The address of a queue of a pool. *)
Definition qid (p : nat) (k : qkind) : nat := p * 6 + kind_index k.

Record pool_t {Q : Type} := mk_pool {
  free : Q;
  active : Q;
  expired : Q;
  abandoned : Q;
  backup : Q;
  reserved : Q;
  next_event_time : Z;
  lease_count : Z;
  free_leases : Z;
  backup_leases : Z;
  failover_peer : option peer }.
Arguments pool_t : clear implicits.
Arguments mk_pool {Q}.

Section pools.
Context {Q : Type}.
Implicit Types (pl : pool_t Q) (k : qkind).

Definition lptr pl k : Q :=
  match k with
  | FREE_LEASES => free pl | ACTIVE_LEASES => active pl | EXPIRED_LEASES => expired pl
  | ABANDONED_LEASES => abandoned pl | BACKUP_LEASES => backup pl | RESERVED_LEASES => reserved pl
  end.
Definition set_lptr k (q : Q) pl : pool_t Q :=
  let at_ k' old := if decide (k = k') then q else old in
  mk_pool (at_ FREE_LEASES (free pl)) (at_ ACTIVE_LEASES (active pl)) (at_ EXPIRED_LEASES (expired pl))
    (at_ ABANDONED_LEASES (abandoned pl)) (at_ BACKUP_LEASES (backup pl)) (at_ RESERVED_LEASES (reserved pl))
    (next_event_time pl) (lease_count pl) (free_leases pl) (backup_leases pl) (failover_peer pl).
Definition set_next_event (t : Z) pl : pool_t Q :=
  mk_pool (free pl) (active pl) (expired pl) (abandoned pl) (backup pl) (reserved pl) t (lease_count pl)
    (free_leases pl) (backup_leases pl) (failover_peer pl).
Definition set_counts (n f b : Z) pl : pool_t Q :=
  mk_pool (free pl) (active pl) (expired pl) (abandoned pl) (backup pl) (reserved pl) (next_event_time pl) n f b
    (failover_peer pl).

(** [free_leases] and [backup_leases] follow the queues of the same name. *)
Definition count_lease k (by_ : Z) pl : pool_t Q :=
  match k with
  | FREE_LEASES => set_counts (lease_count pl) (free_leases pl + by_) (backup_leases pl) pl
  | BACKUP_LEASES => set_counts (lease_count pl) (free_leases pl) (backup_leases pl + by_) pl
  | _ => pl
  end.

Definition in_partner_down pl : bool :=
  match failover_peer pl with Some pr => bool_decide (me_state pr = partner_down) | None => false end.

(** The time of the next event of a lease. *)
Definition next_event pl (d : ldata) : Z :=
  if bool_decide (binding_state d ∈ [FTS_EXPIRED; FTS_RELEASED; FTS_RESET]) && in_partner_down pl
  then if ends d <? tsfp d then tsfp d else ends d
  else ends d.
End pools.

(** The queue a lease belongs on. *)
Definition queue_of (d : ldata) : option qkind :=
  let b := binding_state d in
  if b =? FTS_FREE then Some (if has_flag d RESERVED_LEASE then RESERVED_LEASES else FREE_LEASES)
  else if b =? FTS_ACTIVE then Some ACTIVE_LEASES
  else if (b =? FTS_EXPIRED) || (b =? FTS_RELEASED) || (b =? FTS_RESET) then Some EXPIRED_LEASES
  else if b =? FTS_ABANDONED then Some ABANDONED_LEASES
  else if b =? FTS_BACKUP then Some (if has_flag d RESERVED_LEASE then RESERVED_LEASES else BACKUP_LEASES)
  else None.

(** ** The rest of the server *)
Class World (W : Type) := {
  write_lease : W -> nat -> ldata -> bool * W;
  commit_leases : W -> bool * W;
  ddns_removals : W -> leases -> nat -> bool -> W * leases;
  execute_statements : W -> leases -> nat -> nat -> W * leases;
  queue_and_send : W -> leases -> nat -> bool -> W * leases;
  failover_pool_check : W -> nat -> W }.

(** What the database relies on in a lease; statements, DNS updates and the
    failover protocol keep it. *)
Definition core (d : ldata) :=
  (binding_state d, next_binding_state d, has_flag d RESERVED_LEASE, has_flag d STATIC_LEASE, pool d, uid d, hardware_addr d,
   (n_uid d, n_hw d), billing_class d, (ends d, tsfp d)).

(** The two stores have the same leases, with the same links and equal [f]. *)
Definition upto {A} (f : ldata -> A) (s s' : leases) : Prop :=
  dom s' = dom s /\ forall i l, s !! i = Some l -> exists d, s' !! i = Some (set_data d l) /\ f d = f (data l).
Definition kept : leases -> leases -> Prop := upto core.

Class WorldOk (W : Type) `{World W} : Prop := {
  ddns_kept w s i b : kept s (ddns_removals w s i b).2;
  execute_kept w s i st : kept s (execute_statements w s i st).2;
  queue_kept w s i b : kept s (queue_and_send w s i b).2 }.

(** ** The database *)
Section database.
Context `{!LeaseQueueOps ldata} {W : Type} `{!World W}.

(** [ip_hash] are the leases that can be found by address.  [timers] has the time at which [pool_timer] will run for each pool (see
    common/dispatch.c: a second [add_timeout] for the same pool replaces the
    first one). *)
Record db := mk_db {
  statics : globals (D := ldata);
  lease_store : leases;
  pools : gmap nat (pool_t queue);
  class_table : classes;
  uid_hash : table;
  hw_hash : table;
  timers : gmap nat Z;
  ip_hash : gset nat;
  world : W }.

Definition set_store (s : leases) (d : db) : db :=
  mk_db (statics d) s (pools d) (class_table d) (uid_hash d) (hw_hash d) (timers d) (ip_hash d) (world d).
Definition set_pools (ps : gmap nat (pool_t queue)) (d : db) : db :=
  mk_db (statics d) (lease_store d) ps (class_table d) (uid_hash d) (hw_hash d) (timers d) (ip_hash d) (world d).
Definition set_world (w : W) (d : db) : db :=
  mk_db (statics d) (lease_store d) (pools d) (class_table d) (uid_hash d) (hw_hash d) (timers d) (ip_hash d) w.

Definition lease_at (d : db) (i : nat) : outcome ldata := l ← get (lease_store d) i; Done (data l).
Definition change (d : db) (i : nat) (f : ldata -> ldata) : outcome db :=
  s ← upd (lease_store d) i (fun l => set_data (f (data l)) l); Done (set_store s d).
Definition pool_at (d : db) (p : nat) : outcome (pool_t queue) :=
  match pools d !! p with Some pl => Done pl | None => Fault end.
Definition put_pool (d : db) (p : nat) (pl : pool_t queue) : db := set_pools (<[p := pl]> (pools d)) d.
Definition peer_of (d : db) (l : ldata) : outcome (option peer) :=
  match pool l with None => Done None | Some p => pl ← pool_at d p; Done (failover_peer pl) end.

Definition add_timeout (d : db) (p : nat) (t : Z) : db :=
  mk_db (statics d) (lease_store d) (pools d) (class_table d) (uid_hash d) (hw_hash d) (<[p := t]> (timers d)) (ip_hash d) (world d).

Definition db_uid_hash (f : table -> leases -> nat -> outcome (table * leases)) (d : db) (i : nat) : outcome db :=
  '(t, s) ← f (uid_hash d) (lease_store d) i;
  Done (mk_db (statics d) s (pools d) (class_table d) t (hw_hash d) (timers d) (ip_hash d) (world d)).
Definition db_hw_hash (f : table -> leases -> nat -> outcome (table * leases)) (d : db) (i : nat) : outcome db :=
  '(t, s) ← f (hw_hash d) (lease_store d) i;
  Done (mk_db (statics d) s (pools d) (class_table d) (uid_hash d) t (timers d) (ip_hash d) (world d)).
Definition set_classes (cs : classes) (s : leases) (d : db) : db :=
  mk_db (statics d) s (pools d) cs (uid_hash d) (hw_hash d) (timers d) (ip_hash d) (world d).
Definition db_unbill (d : db) (i : nat) : outcome db :=
  '(cs, s) ← unbill_class (class_table d) (lease_store d) i; Done (set_classes cs s d).
Definition db_bill (d : db) (i c : nat) : outcome db :=
  '(_, cs, s) ← bill_class (class_table d) (lease_store d) i c; Done (set_classes cs s d).

Definition with_world (d : db) (r : W * leases) : db := set_world r.1 (set_store r.2 d).

(** ** Queues *)
Definition insert_lease (follow : bool) (d : db) (p : nat) (k : qkind) (i : nat) : outcome db :=
  pl ← pool_at d p;
  '(g, s, q) ← LEASE_INSERTP follow (statics d) (lease_store d) (qid p k) (lptr pl k) i;
  Done (mk_db g s (<[p := set_lptr k q pl]> (pools d)) (class_table d) (uid_hash d) (hw_hash d) (timers d) (ip_hash d) (world d)).
Definition remove_lease (d : db) (p : nat) (k : qkind) (i : nat) : outcome db :=
  pl ← pool_at d p;
  '(s, q) ← LEASE_REMOVEP (lease_store d) (qid p k) (lptr pl k) i;
  Done (set_store s (put_pool d p (set_lptr k q pl))).

Definition lease_enqueue (follow : bool) (d : db) (comp : nat) : outcome (bool * db) :=
  l ← get (lease_store d) comp;
  match pool (data l) with
  | None => Done (false, d)
  | Some p =>
      pl ← pool_at d p;
      match queue_of (data l) with
      | None => Done (false, d)
      | Some k =>
          let d := put_pool d p (count_lease k 1 pl) in
          let d := set_store (<[comp := set_sort_time (next_event pl (data l)) l]> (lease_store d)) d in
          d ← insert_lease follow d p k comp;
          Done (true, d)
      end
  end.

(** ** State transitions *)
Definition free_or_backup (b : Z) : bool := (b =? FTS_FREE) || (b =? FTS_BACKUP).

(** The lease was active and has just expired. *)
Definition expires (pr : option peer) (l : ldata) : bool :=
  negb (next_binding_state l =? binding_state l) &&
  match pr with
  | Some _ => ((binding_state l =? FTS_EXPIRED) || (binding_state l =? FTS_ACTIVE)) && free_or_backup (next_binding_state l)
  | None => (binding_state l =? FTS_ACTIVE) && negb (next_binding_state l =? FTS_RELEASED)
  end.
(** The lease has been released. *)
Definition is_released (pr : option peer) (l : ldata) : bool :=
  negb (next_binding_state l =? binding_state l) &&
  match pr with
  | Some _ => (binding_state l =? FTS_RELEASED) && free_or_backup (next_binding_state l)
  | None => (binding_state l =? FTS_ACTIVE) && (next_binding_state l =? FTS_RELEASED)
  end.

(** Bindings that are only correct while the lease is active. *)
Definition forget_client (d : db) (i : nat) : outcome db :=
  l ← lease_at d i;
  d ← (match billing_class l with Some _ => db_unbill d i | None => Done d end);
  change d i (fun l => set_tstp (ends l) (set_host None (set_client_hostname None (set_agent_options None l)))).

Definition expiry_event (d : db) (i : nat) : outcome db :=
  let d := with_world d (ddns_removals (world d) (lease_store d) i true) in
  l ← lease_at d i;
  d ← (match on_expiry l with
       | Some st => let d := with_world d (execute_statements (world d) (lease_store d) i st) in change d i (set_on_expiry None)
       | None => Done d
       end);
  d ← change d i (set_on_release None);
  forget_client d i.

Definition release_event (d : db) (i : nat) : outcome db :=
  let d := with_world d (ddns_removals (world d) (lease_store d) i true) in
  l ← lease_at d i;
  d ← (match on_release l with
       | Some st => let d := with_world d (execute_statements (world d) (lease_store d) i st) in change d i (set_on_release None)
       | None => Done d
       end);
  d ← change d i (set_on_expiry None);
  forget_client d i.

(** The state after the one that a lease has just entered. *)
Definition following (pr : option peer) (b : Z) : Z :=
  if b =? FTS_ACTIVE then match pr with Some _ => FTS_EXPIRED | None => FTS_FREE end
  else if (b =? FTS_EXPIRED) || (b =? FTS_RELEASED) || (b =? FTS_ABANDONED) || (b =? FTS_RESET) then FTS_FREE
  else b.

Definition enter_state (pr : option peer) (l : ldata) : ldata :=
  let b := next_binding_state l in
  let l := set_next_binding_state (following pr b) (set_binding_state b l) in
  if (b =? FTS_EXPIRED) || (b =? FTS_RELEASED) || (b =? FTS_ABANDONED) || (b =? FTS_RESET) then
    match pr with
    | Some p => if decide (me_state p = partner_down) then set_tsfp (me_stos p + mclt p) l else l
    | None => l
    end
  else l.

Definition make_binding_state_transition (d : db) (i : nat) : outcome db :=
  l ← lease_at d i;
  pr ← peer_of d l;
  d ← (if expires pr l then expiry_event d i else Done d);
  l ← lease_at d i;
  d ← (if is_released pr l then release_event d i else Done d);
  change d i (enter_state pr).

(** ** [supersede_lease] *)
Section supersede.
Context (cur_time : Z) (nosync : bool).

(** [dhcp_failover_queue_update] (server/failover.c). *)
Definition failover_queue_update (d : db) (i : nat) (immediate : bool) : outcome (bool * db) :=
  l ← lease_at d i;
  pr ← peer_of d l;
  match pr with
  | None => Done (true, d)
  | Some _ =>
      if has_flag l ON_UPDATE_QUEUE then Done (true, d)
      else Done (true, with_world d (queue_and_send (world d) (lease_store d) i immediate))
  end.

(** The client identifier is copied if it is short and moved if it is not. *)
Definition copy_uid (comp lease : ldata) : outcome (ldata * ldata) :=
  match uid lease with
  | None => Done (set_uid None comp, lease)
  | Some u =>
      if zlen (bytes_of u) <=? 7 then Done (set_uid (Some (InBuf (bytes_of u))) comp, lease)
      else match u with
           | OnHeap b => Done (set_uid (Some (OnHeap b)) comp, set_uid None lease)
           | InBuf _ => Fatal
           end
  end.

Definition or_else {A} (x y : option A) : option A := match x with Some _ => x | None => y end.

(** The fields copied before the lease is put into the hash tables, and those
    copied after it. *)
Definition copy_client (comp lease : ldata) : outcome (ldata * ldata) :=
  '(comp, lease) ← copy_uid (set_starts (starts lease) comp) lease;
  let comp := set_host (host lease) comp in
  let comp := set_hardware_addr (hardware_addr lease) comp in
  let comp := set_scope (scope lease) comp in
  let lease := set_scope None lease in
  let keep_agent := (next_binding_state lease =? FTS_ACTIVE) || (next_binding_state lease =? FTS_EXPIRED) in
  let comp := set_agent_options (if keep_agent then agent_options lease else None) comp in
  let lease := set_agent_options None lease in
  let comp := set_client_hostname (client_hostname lease) comp in
  let lease := set_client_hostname None lease in
  let comp := set_on_expiry (or_else (on_expiry lease) (on_expiry comp)) comp in
  let comp := set_on_commit (or_else (on_commit lease) (on_commit comp)) comp in
  let comp := set_on_release (or_else (on_release lease) (on_release comp)) comp in
  Done (comp, lease).

Definition copy_times (comp lease : ldata) : ldata :=
  let comp := set_cltt (cltt lease) comp in
  let comp := set_atsfp (atsfp lease) (set_tsfp (tsfp lease) (set_tstp (tstp lease) comp)) in
  let comp := set_next_binding_state (next_binding_state lease) (set_ends (ends lease) comp) in
  set_ddns_cb (or_else (ddns_cb lease) (ddns_cb comp)) comp.

(** Take the lease out of the hash tables; its old identifier is freed. *)
Definition unhash (d : db) (comp : nat) : outcome db :=
  c ← lease_at d comp;
  d ← (match uid c with
       | Some _ => d ← db_uid_hash uid_hash_delete d comp; change d comp (set_uid None)
       | None => Done d
       end);
  if zlen (hardware_addr c) =? 0 then Done d else db_hw_hash hw_hash_delete d comp.

Definition rehash (d : db) (comp : nat) : outcome db :=
  c ← lease_at d comp;
  d ← (match uid c with Some _ => db_uid_hash uid_hash_add d comp | None => Done d end);
  if zlen (hardware_addr c) =? 0 then Done d else db_hw_hash hw_hash_add d comp.

Definition rebill (d : db) (comp : nat) (lease : ldata) : outcome db :=
  c ← lease_at d comp;
  if decide (billing_class c = billing_class lease) then Done d
  else
    d ← (match billing_class c with Some _ => db_unbill d comp | None => Done d end);
    match billing_class lease with Some k => db_bill d comp k | None => Done d end.

(** Everything before [just_move_it]; the result has what is left of the
    sample lease. *)
Definition copy_lease (d : db) (comp : nat) (lease : ldata) : outcome (ldata * db) :=
  d ← unhash d comp;
  d ← rebill d comp lease;
  c ← lease_at d comp;
  '(c, lease) ← copy_client c lease;
  d ← change d comp (fun _ => c);
  d ← rehash d comp;
  d ← change d comp (fun c => copy_times c lease);
  Done (lease, d).

(** The lease is due before the timer of its pool. *)
Definition arm_timer (d : db) (comp p : nat) : outcome db :=
  l ← get (lease_store d) comp;
  pl ← pool_at d p;
  let t := sort_time l in
  if negb (t =? MIN_TIME) && (cur_time <? t) && ((t <? next_event_time pl) || (next_event_time pl =? MIN_TIME))
  then Done (add_timeout (put_pool d p (set_next_event t pl)) p t)
  else Done d.

Definition talks_to_peer (pl : pool_t queue) : bool :=
  match failover_peer pl with
  | Some pr => bool_decide (service pr = cooperating) || bool_decide (service pr = not_responding)
  | None => false
  end.

(** Write the lease to the lease file. *)
Definition commit_lease (d : db) (comp p : nat) (propogate : bool) : outcome (bool * db) :=
  pl ← pool_at d p;
  d ← (if propogate && talks_to_peer pl then change d comp (fun l => set_rewind_binding_state (binding_state l) l) else Done d);
  l ← lease_at d comp;
  let (ok, w) := write_lease (world d) comp l in
  let d := set_world w d in
  if negb ok then Done (false, d)
  else if nosync then Done (true, d)
  else let (ok, w) := commit_leases (world d) in Done (ok, set_world w d).

Definition propagate_lease (d : db) (comp : nat) (pimmediate : bool) : outcome (bool * db) :=
  d ← change d comp (fun l => set_desired_binding_state (binding_state l) l);
  failover_queue_update d comp pimmediate.

(** What follows once the lease is back on a queue. *)
Definition finish_move (d : db) (comp p : nat) (do_pool_check commit propogate pimmediate : bool) : outcome (bool * db) :=
  d ← (if commit || negb pimmediate then arm_timer d comp p else Done d);
  '(ok, d) ← (if commit then commit_lease d comp p propogate else Done (true, d));
  if negb ok then Done (false, d)
  else
    '(ok, d) ← (if propogate then propagate_lease d comp pimmediate else Done (true, d));
    if negb ok then Done (false, d)
    else
      pl ← pool_at d p;
      Done (true, match failover_peer pl with
                  | Some _ => if do_pool_check then set_world (failover_pool_check (world d) p) d else d
                  | None => d
                  end).

(** From [just_move_it] to the last test; [new_flags] are the flags of the
    sample lease. *)
Definition move_lease (d : db) (comp : nat) (new_flags : option Z) (commit propogate pimmediate : bool) : outcome (bool * db) :=
  d ← (if propogate then change d comp (set_atsfp 0) else Done d);
  l ← lease_at d comp;
  match pool l with
  | None => Done (false, d)
  | Some p =>
      match queue_of l with
      | None => Done (false, d)
      | Some k =>
          pl ← pool_at d p;
          d ← remove_lease (put_pool d p (count_lease k (-1) pl)) p k comp;
          d ← (match new_flags with
               | Some f => change d comp (fun l => set_flags (Z.lor (Z.ldiff f PERSISTENT_FLAGS) (Z.ldiff (flags l) EPHEMERAL_FLAGS)) l)
               | None => Done d
               end);
          d ← (if commit || negb pimmediate then make_binding_state_transition d comp else Done d);
          '(ok, d) ← lease_enqueue false d comp;
          if negb ok then Done (false, d)
          else finish_move d comp p (free_or_backup (binding_state l)) commit propogate pimmediate
      end
  end.

(** [timer] is [pool_timer], which calls this function with [from_pool]. *)
Definition supersede_body (timer : db -> nat -> outcome db) (d : db) (comp : nat) (lease : option ldata)
    (commit propogate pimmediate from_pool : bool) : outcome (bool * option ldata * db) :=
  if pimmediate && negb commit then Done (false, lease, d)
  else if match lease with Some l => has_flag l STATIC_LEASE | None => false end then Done (true, lease, d)
  else
    '(lease, d) ← (match lease with
                   | Some l => '(l, d) ← copy_lease d comp l; Done (Some l, d)
                   | None => Done (None, d)
                   end);
    '(ok, d) ← move_lease d comp (flags <$> lease) commit propogate pimmediate;
    if negb ok then Done (false, lease, d)
    else
      l ← get (lease_store d) comp;
      if negb from_pool && (commit || negb pimmediate) && (sort_time l <? cur_time) &&
         negb (next_binding_state (data l) =? binding_state (data l))
      then match pool (data l) with
           | Some p => d ← timer d p; Done (true, lease, d)
           | None => Fault
           end
      else Done (true, lease, d).

(** ** [pool_timer] *)

(** The lease may go back to the state that the peer last acknowledged. *)
Definition may_rewind (pr : peer) (rewind : Z) : bool :=
  bool_decide (service pr = not_cooperating) &&
  (bool_decide (i_am pr = primary) && (rewind =? FTS_FREE) || bool_decide (i_am pr = secondary) && (rewind =? FTS_BACKUP)).

Definition rewind_lease (d : db) (i : nat) : outcome db :=
  l ← lease_at d i;
  pr ← peer_of d l;
  match pr with
  | Some p =>
      if may_rewind p (rewind_binding_state l) && (next_binding_state l =? FTS_EXPIRED)
      then change d i (fun l => set_next_binding_state (rewind_binding_state l) l)
      else Done d
  | None => Done d
  end.

Definition no_timer (d : db) (p : nat) : outcome db := Done d.

(** A lease that stays on its queue may be met again, but it enters at most three
    more states, so that four times the number of leases is enough. *)
Fixpoint timer_queue (fuel : nat) (d : db) (p : nat) (k : qkind) (lease : option nat) (next_expiry : Z) : outcome (db * Z) :=
  match fuel with
  | O => Running
  | S fuel' =>
      match lease with
      | None => Done (d, next_expiry)
      | Some i =>
          l ← get (lease_store d) i;
          pl ← pool_at d p;
          next ← LEASE_GET_NEXTP (lease_store d) (lptr pl k) i;
          if cur_time <? sort_time l then Done (d, if sort_time l <? next_expiry then sort_time l else next_expiry)
          else
            d ← (if next_binding_state (data l) =? binding_state (data l) then Done d
                 else d ← rewind_lease d i;
                      '(_, _, d) ← supersede_body no_timer d i None true true true true;
                      Done d);
            timer_queue fuel' d p k next next_expiry
      end
  end.

(** Expired leases wait for the peer, and a secondary leaves the active ones to
    the primary. *)
Definition skips (pl : pool_t queue) (k : qkind) : bool :=
  match failover_peer pl with
  | Some pr =>
      negb (bool_decide (me_state pr = partner_down)) &&
      (bool_decide (k = ACTIVE_LEASES) && bool_decide (i_am pr = secondary) && bool_decide (me_state pr = normal) ||
       bool_decide (k = EXPIRED_LEASES))
  | None => false
  end.

Fixpoint timer_queues (ks : list qkind) (d : db) (p : nat) (next_expiry : Z) : outcome (db * Z) :=
  match ks with
  | [] => Done (d, next_expiry)
  | k :: ks =>
      pl ← pool_at d p;
      '(d, next_expiry) ← (if negb (LEASE_NOT_EMPTYP (lptr pl k)) || skips pl k then Done (d, next_expiry)
                           else lease ← LEASE_GET_FIRSTP (lptr pl k);
                                timer_queue (S (4 * size (lease_store d))) d p k lease next_expiry);
      timer_queues ks d p next_expiry
  end.

Definition pool_timer (d : db) (p : nat) : outcome db :=
  '(d, next_expiry) ← timer_queues all_kinds d p MAX_TIME;
  pl ← pool_at d p;
  if negb (next_expiry =? MAX_TIME) && ((next_expiry <? next_event_time pl) || (next_event_time pl <=? cur_time))
  then Done (add_timeout (put_pool d p (set_next_event next_expiry pl)) p next_expiry)
  else Done (put_pool d p (set_next_event MIN_TIME pl)).

Definition supersede_lease := supersede_body pool_timer.

(** ** Releasing and abandoning a lease *)
Definition lease_copy (l : ldata) : ldata :=
  mk_ldata (starts l) (ends l) (cltt l) (tstp l) (tsfp l) (atsfp l) (binding_state l) (next_binding_state l) 0
    (rewind_binding_state l) (flags l) (uid l) (hardware_addr l) None None (scope l) (host l) (billing_class l)
    (agent_options l) (client_hostname l) (on_expiry l) (on_commit l) (on_release l) (pool l) None.

(** The state of a released lease: it waits for the peer, if there is one. *)
Definition released_state (pr : option peer) (l : ldata) : Z :=
  match pr with
  | Some p => if may_rewind p (rewind_binding_state l) then rewind_binding_state l else FTS_RELEASED
  | None => FTS_FREE
  end.

Definition release_lease (d : db) (i : nat) : outcome db :=
  let d := with_world d (ddns_removals (world d) (lease_store d) i false) in
  l ← lease_at d i;
  d ← (match on_release l with
       | Some st => let d := with_world d (execute_statements (world d) (lease_store d) i st) in change d i (set_on_release None)
       | None => Done d
       end);
  d ← change d i (set_on_expiry None);
  l ← lease_at d i;
  if bool_decide (binding_state l ∈ [FTS_FREE; FTS_BACKUP; FTS_RELEASED; FTS_EXPIRED; FTS_RESET]) then Done d
  else
    pr ← peer_of d l;
    d ← change d i (fun l => set_next_binding_state (released_state pr l)
                               (set_tstp cur_time (set_ends cur_time (set_scope None (set_on_commit None l)))));
    '(_, _, d) ← supersede_lease d i None true true true false;
    Done d.

Definition abandon_ends (abandon_lease_time : Z) : Z :=
  let t := cur_time + abandon_lease_time in if (t <? cur_time) || (MAX_TIME <? t) then MAX_TIME else t.

Definition abandon_lease (abandon_lease_time : Z) (d : db) (i : nat) : outcome db :=
  let d := with_world d (ddns_removals (world d) (lease_store d) i false) in
  l ← lease_at d i;
  let lt := set_next_binding_state FTS_ABANDONED (set_ends (abandon_ends abandon_lease_time) (set_scope None (lease_copy l))) in
  let lt := set_uid None (set_hardware_addr [] lt) in
  '(_, _, d) ← supersede_lease d i (Some lt) true true true false;
  Done d.

(** ** Startup *)
Definition lease_instantiate (d : db) (i : nat) : outcome db :=
  l ← lease_at d i;
  match pool l with
  | None => Done (mk_db (statics d) (lease_store d) (pools d) (class_table d) (uid_hash d) (hw_hash d) (timers d)
                    (ip_hash d ∖ {[i]}) (world d))
  | Some p =>
      pl ← pool_at d p;
      d ← (if (binding_state l =? FTS_BACKUP) && bool_decide (failover_peer pl = None)
           then change d i (fun l => set_rewind_binding_state FTS_FREE (set_next_binding_state FTS_FREE (set_binding_state FTS_FREE l)))
           else Done d);
      '(ok, d) ← lease_enqueue true d i;
      if negb ok then Done d
      else
        d ← rehash d i;
        l ← lease_at d i;
        match billing_class l with
        | None => Done d
        | Some c =>
            d ← change d i (set_billing_class None);
            if bool_decide (binding_state l ∈ [FTS_ACTIVE; FTS_EXPIRED; FTS_RELEASED; FTS_RESET]) then db_bill d i c else Done d
        end
  end.

(** Count the leases of one queue, and tell the peer what it does not know. *)
Fixpoint recount_queue (fuel : nat) (d : db) (p : nat) (k : qkind) (lease : option nat) (n f b : Z) : outcome (db * (Z * Z * Z)) :=
  match fuel with
  | O => Running
  | S fuel' =>
      match lease with
      | None => Done (d, (n, f, b))
      | Some i =>
          l ← lease_at d i;
          pl ← pool_at d p;
          '(f, b) ← (if ends l <=? cur_time then
                       if binding_state l =? FTS_FREE then
                         if decide (k = FREE_LEASES) then Done (f + 1, b)
                         else if decide (k = RESERVED_LEASES) then Done (f, b) else Fatal
                       else if binding_state l =? FTS_BACKUP then
                         if decide (k = BACKUP_LEASES) then Done (f, b + 1)
                         else if decide (k = RESERVED_LEASES) then Done (f, b) else Fatal
                       else Done (f, b)
                     else Done (f, b));
          d ← (match failover_peer pl with
               | Some _ => if (atsfp l <? tstp l) && negb (has_flag l ON_UPDATE_QUEUE)
                           then d ← change d i (fun l => set_desired_binding_state (binding_state l) l);
                                '(_, d) ← failover_queue_update d i true; Done d
                           else Done d
               | None => Done d
               end);
          next ← LEASE_GET_NEXTP (lease_store d) (lptr pl k) i;
          recount_queue fuel' d p k next (n + 1) f b
      end
  end.

Fixpoint recount_queues (ks : list qkind) (d : db) (p : nat) (n f b : Z) : outcome (db * (Z * Z * Z)) :=
  match ks with
  | [] => Done (d, (n, f, b))
  | k :: ks =>
      pl ← pool_at d p;
      lease ← LEASE_GET_FIRSTP (lptr pl k);
      '(d, (n, f, b)) ← recount_queue (S (size (lease_store d))) d p k lease n f b;
      recount_queues ks d p n f b
  end.

Definition expire_pool (d : db) (p : nat) : outcome db :=
  d ← pool_timer d p;
  '(d, (n, f, b)) ← recount_queues all_kinds d p 0 0 0;
  pl ← pool_at d p;
  Done (put_pool d p (set_counts n f b pl)).

Fixpoint for_each {A} (f : db -> A -> outcome db) (d : db) (l : list A) : outcome db :=
  match l with [] => Done d | x :: l => d ← f d x; for_each f d l end.

(** [all] are the leases of the table of addresses in the order in which it is
    walked, [ps] the pools of all shared networks. *)
Definition expire_all_pools (all ps : list nat) (d : db) : outcome db :=
  d ← for_each lease_instantiate d all;
  for_each expire_pool d ps.
End supersede.
End database.
