(* ===== verification/LeaseDbInv.v ===== *)
(** * The invariant of the lease database

    Every lease of the database is on exactly the queue that its binding state
    and its flags call for, the queues are sorted, the hash tables list exactly
    the leases with each identifier, and the billing of classes adds up.  The
    operations of server/mdb.c keep this. *)

From Stdlib Require Import Decidable.
From stdpp Require Import base tactics numbers gmap list.
From S2P Require Import Prelude Lease LeaseHash Billing LeaseDb.

#[local] Open Scope Z_scope.

(** ** Stores that agree on part of the data *)
Section upto.
Implicit Types s : leases.

Lemma upto_refl {A} (f : ldata -> A) s : upto f s s.
Proof. split; [done|]. intros i l E. exists (data l). by destruct l. Qed.
Lemma upto_trans {A} (f : ldata -> A) s1 s2 s3 : upto f s1 s2 -> upto f s2 s3 -> upto f s1 s3.
Proof.
  intros [D1 H1] [D2 H2]. split; [congruence|]. intros i l E. destruct (H1 i l E) as (d & E1 & F1).
  destruct (H2 i _ E1) as (d' & E2 & F2). exists d'. split; [done|]. simpl in F2. congruence.
Qed.
Lemma upto_weaken {A B} (f : ldata -> A) (g : ldata -> B) s s' :
  (forall d d', f d = f d' -> g d = g d') -> upto f s s' -> upto g s s'.
Proof. intros Hg [D H]. split; [done|]. intros i l E. destruct (H i l E) as (d & E' & F). exists d. split; [done|]. by apply Hg. Qed.
Lemma upto_change {A} (f : ldata -> A) s i l d :
  s !! i = Some l -> f d = f (data l) -> upto f s (<[i := set_data d l]> s).
Proof.
  intros Ei Hf. split; [by apply dom_insert_lookup_L|]. intros j lj Ej. destruct (decide (i = j)) as [<-|N].
  - exists d. rewrite lookup_insert_eq. split; congruence.
  - exists (data lj). rewrite lookup_insert_ne by done. by destruct lj.
Qed.
Lemma upto_only_field {A} (f : ldata -> A) k `{!LinkOk k} s s' ids :
  (forall v d, f (set_link k v d) = f d) -> dom s' = dom s -> only_field k s s' ids -> upto f s s'.
Proof.
  intros Hf D [_ H]. split; [done|]. intros i l E. destruct (H i l E) as (v & E'). exists (set_link k v (data l)). split; [done|]. apply Hf.
Qed.
Lemma upto_back {A} (f : ldata -> A) s s' i l' :
  upto f s s' -> s' !! i = Some l' -> exists l, s !! i = Some l /\ l' = set_data (data l') l /\ f (data l') = f (data l).
Proof.
  intros [D H] E'. assert (is_Some (s !! i)) as [l E]. { apply elem_of_dom. rewrite <- D. by apply elem_of_dom_2 in E'. }
  destruct (H i l E) as (d & E2 & F). exists l. split; [done|]. replace l' with (set_data d l) by congruence. done.
Qed.
Lemma upto_links {A} (f : ldata -> A) s s' ids : upto f s s' -> same_links s s' ids.
Proof. intros [_ H] i l _ E. destruct (H i l E) as (d & E' & _). by exists d. Qed.

(** The same without the links of the queues. *)
Definition agree {A} (f : ldata -> A) s s' : Prop :=
  dom s' = dom s /\ forall i l, s !! i = Some l -> exists l', s' !! i = Some l' /\ f (data l') = f (data l).

Lemma agree_refl {A} (f : ldata -> A) s : agree f s s.
Proof. split; [done|]. eauto. Qed.
Lemma agree_trans {A} (f : ldata -> A) s1 s2 s3 : agree f s1 s2 -> agree f s2 s3 -> agree f s1 s3.
Proof.
  intros [D1 H1] [D2 H2]. split; [congruence|]. intros i l E. destruct (H1 i l E) as (l1 & E1 & F1).
  destruct (H2 i _ E1) as (l2 & E2 & F2). exists l2. split; [done|]. congruence.
Qed.
Lemma agree_weaken {A B} (f : ldata -> A) (g : ldata -> B) s s' :
  (forall d d', f d = f d' -> g d = g d') -> agree f s s' -> agree g s s'.
Proof. intros Hg [D H]. split; [done|]. intros i l E. destruct (H i l E) as (d & E' & F). exists d. split; [done|]. by apply Hg. Qed.
Lemma upto_agree {A} (f : ldata -> A) s s' : upto f s s' -> agree f s s'.
Proof. intros [D H]. split; [done|]. intros i l E. destruct (H i l E) as (d & E' & F). by exists (set_data d l). Qed.
Lemma agree_back {A} (f : ldata -> A) s s' i l' :
  agree f s s' -> s' !! i = Some l' -> exists l, s !! i = Some l /\ f (data l') = f (data l).
Proof.
  intros [D H] E'. assert (is_Some (s !! i)) as [l E]. { apply elem_of_dom. rewrite <- D. by apply elem_of_dom_2 in E'. }
  destruct (H i l E) as (l2 & E2 & F). exists l. split; [done|]. congruence.
Qed.
Lemma agree_links {A} (f : ldata -> A) s s' ids :
  only_links s s' ids -> Forall (fun i => is_Some (s !! i)) ids -> agree f s s'.
Proof.
  intros [H1 H2] Hs. split.
  - apply set_eq. intros j. rewrite !elem_of_dom. destruct (decide (j ∈ ids)) as [Hj|Hj]; [|by rewrite (H1 j Hj)].
    rewrite Forall_forall in Hs. destruct (Hs j Hj) as [l E]. destruct (H2 j l E) as (l' & -> & _). rewrite E. by split; eexists.
  - intros i l E. destruct (H2 i l E) as (l' & E' & _ & D). exists l'. split; [done|]. by rewrite D.
Qed.
Lemma agree_size {A} (f : ldata -> A) s s' : agree f s s' -> size s' = size s.
Proof. intros [D _]. by rewrite <- !size_dom, D. Qed.
Lemma upto_size {A} (f : ldata -> A) s s' : upto f s s' -> size s' = size s.
Proof. intros [D _]. by rewrite <- !size_dom, D. Qed.
End upto.

(** ** The hash tables *)
Section tables.
Context (k : link) `{!LinkOk k} (fits : list Z -> Prop) (fits_nonempty : forall key, fits key -> key <> []).
Implicit Types (t : table) (s : leases) (U : gset nat).

(** The table lists the leases of [U] by those identifiers that can be looked
    up; other leases have no links. *)
Record listed U t s (fam : list Z -> list nat) : Prop := {
  ls_hashed : hashed k t s fam;
  ls_members : forall i key, i ∈ fam key <-> i ∈ U /\ fits key /\ exists l, s !! i = Some l /\ key_of k (data l) = key;
  ls_links : forall i l, s !! i = Some l -> i ∉ U \/ ~ fits (key_of k (data l)) -> link_of k (data l) = None }.
Definition hash_ok U t s : Prop := exists fam, listed U t s fam.

Lemma only_field_dom s s' ids :
  only_field k s s' ids -> Forall (fun i => is_Some (s !! i)) ids -> dom s' = dom s.
Proof.
  intros [H1 H2] Hs. apply set_eq. intros j. rewrite !elem_of_dom. destruct (decide (j ∈ ids)) as [Hj|Hj].
  - rewrite Forall_forall in Hs. destruct (Hs j Hj) as [l E]. destruct (H2 j l E) as (v & E'). rewrite E, E'. by split; eexists.
  - by rewrite (H1 j Hj).
Qed.

Lemma hash_ok_agree U t s s' :
  hash_ok U t s -> agree (fun d => (key_of k d, link_of k d)) s s' -> hash_ok U t s'.
Proof.
  intros (fam & [[H1 H2 H3 H4] H5 H6]) Hu.
  assert (Hb : forall i l', s' !! i = Some l' -> exists l, s !! i = Some l /\ key_of k (data l') = key_of k (data l) /\ link_of k (data l') = link_of k (data l)).
  { intros i l' E'. destruct (agree_back _ s s' i l' Hu E') as (l & E & F). injection F as F1 F2. eauto. }
  exists fam. split; [split|..].
  - done.
  - intros key n i E. destruct (H2 key n i E) as (lv & Ev & R). exists lv. split; [|done]. unfold view in *.
    rewrite lookup_fmap in *. destruct (s !! i) as [l|] eqn:El; [|done]. destruct (proj2 Hu i l El) as (l' & -> & F). injection F as F1 F2.
    simpl in *. rewrite <- Ev. f_equal. unfold view_lease. by rewrite F2.
  - done.
  - intros key i l' Hi E'. destruct (Hb i l' E') as (l & E & -> & _). by apply (H4 key i).
  - intros i key. rewrite H5. split; intros (HU & Hf & l & E & Hk); (split; [done|]); (split; [done|]).
    + destruct (proj2 Hu i l E) as (l' & E' & F). injection F as F1 F2. exists l'. split; [done|]. congruence.
    + destruct (Hb i l E) as (l0 & E0 & Hk0 & _). exists l0. split; [done|]. congruence.
  - intros i l' E' Hn. destruct (Hb i l' E') as (l & E & Hk & ->). apply (H6 i l E). by rewrite <- Hk.
Qed.

(** A lease outside of the table may get another identifier. *)
Lemma hash_ok_outside U t s i l d :
  hash_ok U t s -> i ∉ U -> s !! i = Some l -> link_of k d = link_of k (data l) -> hash_ok U t (<[i := set_data d l]> s).
Proof.
  intros (fam & [[H1 H2 H3 H4] H5 H6]) Hi Ei Hd.
  assert (Nf : forall key, i ∉ fam key). { intros key Hf. by apply H5 in Hf as [? _]. }
  exists fam. split; [split|..].
  - done.
  - intros key. eapply chained_frame; [apply H2|]. intros j Hj. apply lookup_insert_ne. intros ->. by apply (Nf key).
  - done.
  - intros key j lj Hj Ej. rewrite lookup_insert_ne in Ej by (intros ->; by apply (Nf key)). by apply (H4 key j).
  - intros j key. rewrite H5. assert (i = j -> j ∈ U -> False) by (by intros ->).
    split; intros (HU & Hf & l0 & E0 & Hk); (split; [done|]); (split; [done|]); exists l0; (split; [|done]).
    + rewrite lookup_insert_ne; auto.
    + rewrite lookup_insert_ne in E0; auto.
  - intros j lj Ej Hn. destruct (decide (i = j)) as [<-|N].
    + rewrite lookup_insert_eq in Ej. injection Ej as <-. simpl. rewrite Hd. apply (H6 i l Ei). by left.
    + rewrite lookup_insert_ne in Ej by done. by apply (H6 j lj).
Qed.

(** Whether a lease without a usable identifier counts makes no difference. *)
Lemma hash_ok_unfit U U' t s i l :
  hash_ok U t s -> s !! i = Some l -> ~ fits (key_of k (data l)) -> (forall j, j <> i -> j ∈ U' <-> j ∈ U) -> hash_ok U' t s.
Proof.
  intros (fam & [H1 H5 H6]) Ei Hn HU. exists fam. split; [done|..].
  - intros j key. rewrite H5. destruct (decide (j = i)) as [->|N]; [|by rewrite HU].
    split; intros (_ & Hf & l0 & E0 & Hk); exfalso; apply Hn; congruence.
  - intros j lj Ej Hj. destruct (decide (j = i)) as [->|N].
    + apply (H6 i lj Ej). right. congruence.
    + apply (H6 j lj Ej). by rewrite <- HU.
Qed.

Lemma listed_some U t s fam key : listed U t s fam -> Forall (fun i => is_Some (s !! i)) (fam key).
Proof. intros [H _ _]. apply chained_some with (k := k), H. Qed.

(** Only links have changed, and those of [ids]. *)
Definition relinks s s' : Prop := forall A (f : ldata -> A), (forall v d, f (set_link k v d) = f d) -> upto f s s'.

Lemma relinks_only_field s s' ids :
  only_field k s s' ids -> Forall (fun i => is_Some (s !! i)) ids -> relinks s s'.
Proof. intros Ho Hs A f Hf. eapply (upto_only_field f k); [done|by eapply only_field_dom|exact Ho]. Qed.

(** The list of one identifier changes to [ids']. *)
Lemma listed_change U U' t t' s s' fam ids key ids' :
  listed U t s fam -> only_field k s s' ids -> Forall (fun i => is_Some (s !! i)) ids ->
  hashed k t' s' (set_fam fam key ids') ->
  (forall j, j ∈ U' \/ j ∈ U -> j ∈ ids -> exists l, s !! j = Some l /\ key_of k (data l) = key) ->
  (forall j, j ∈ ids' <-> j ∈ U' /\ fits key /\ exists l, s !! j = Some l /\ key_of k (data l) = key) ->
  (forall j, j ∈ ids -> j ∈ U' \/ j ∈ U) ->
  (forall j l, s !! j = Some l -> key_of k (data l) <> key -> (j ∈ U' <-> j ∈ U)) ->
  (forall j l, j ∈ ids -> s' !! j = Some l -> j ∉ U' \/ ~ fits key -> link_of k (data l) = None) ->
  (forall j, j ∉ ids -> (j ∈ U' <-> j ∈ U)) ->
  listed U' t' s' (set_fam fam key ids').
Proof.
  intros [H1 H5 H6] Ho Hs Hh Hk Hids HU Hsame Hlink Hout.
  pose proof (relinks_only_field s s' ids Ho Hs (list Z) (key_of k) link_key) as Hu.
  assert (Hkey : forall j kj, (exists l, s' !! j = Some l /\ key_of k (data l) = kj) <-> (exists l, s !! j = Some l /\ key_of k (data l) = kj)).
  { intros j kj. split; intros (l & E & K).
    - destruct (upto_back _ _ _ _ _ Hu E) as (l0 & E0 & _ & F). exists l0. split; [done|]. congruence.
    - destruct (proj2 Hu j l E) as (d & E' & F). exists (set_data d l). split; [done|]. simpl. congruence. }
  split; [done|..].
  - intros j key'. rewrite Hkey. unfold set_fam. destruct (decide (key' = key)) as [->|N]; [apply Hids|]. rewrite H5.
    split; intros (A1 & A2 & l & A3 & A4); (split; [|eauto]); apply (Hsame j l A3); congruence.
  - intros j l' E' Hn. destruct (decide (j ∈ ids)) as [Hj|Hj].
    + destruct (Hk j (HU j Hj) Hj) as (l & E & K). apply (Hlink j l' Hj E').
      destruct (proj2 Hu j l E) as (d & E2 & F). replace l' with (set_data d l) in Hn by congruence. simpl in Hn. by rewrite F, K in Hn.
    + rewrite (proj1 Ho j Hj) in E'. apply (H6 j l' E'). by rewrite <- (Hout j Hj).
Qed.

Lemma hash_ok_add U t s i l :
  hash_ok U t s -> s !! i = Some l -> i ∉ U -> fits (key_of k (data l)) ->
  exists t' s', hash_add k t s i = Done (t', s') /\ hash_ok (U ∪ {[i]}) t' s' /\ relinks s s'.
Proof.
  intros (fam & Hl) Ei Hi Hf. pose proof Hl as [H1 H5 H6]. set (key := key_of k (data l)).
  destruct (hash_add_ok k t s fam i l H1 Ei) as (t' & s' & a & b & E & Ea & Hh & Ho & _).
  { by apply fits_nonempty. } { apply (H6 i l Ei). by left. } { intros Hin. by apply H5 in Hin as [? _]. }
  fold key in Ea, Hh. assert (Hs : Forall (fun j => is_Some (s !! j)) (i :: a ++ b)).
  { rewrite <- Ea. constructor; [eauto|]. by eapply listed_some. }
  assert (Hab : forall j, j ∈ i :: a ++ b <-> (j ∈ U ∪ {[i]}) /\ fits key /\ exists lj, s !! j = Some lj /\ key_of k (data lj) = key).
  { intros j. rewrite elem_of_cons, <- Ea, (H5 j key), elem_of_union, elem_of_singleton. split.
    - intros [->|(A & B & C)]; [|by auto]. split; [by right|]. split; [done|]. by exists l.
    - intros ([A| ->] & B & C); [by right|by left]. }
  exists t', s'. split; [done|]. split; [|by eapply relinks_only_field]. exists (set_fam fam key (a ++ i :: b)).
  eapply (listed_change U (U ∪ {[i]}) t t' s s' fam (i :: a ++ b)); try done.
  - intros j _ Hj. by apply Hab in Hj as (_ & _ & ?).
  - intros j. rewrite <- Permutation_middle. apply Hab.
  - intros j Hj. apply Hab in Hj as [? _]. by left.
  - intros j lj Ej N. rewrite elem_of_union, elem_of_singleton. split; [|by left]. intros [?| ->]; [done|]. exfalso. apply N. unfold key. congruence.
  - intros j lj Hj _ [N|N]; [|done]. by apply Hab in Hj as [? _].
  - intros j Hj. apply not_elem_of_cons in Hj as [N _]. rewrite elem_of_union, elem_of_singleton. split; [by intros [?|?]|by left].
Qed.

Lemma hash_ok_delete U t s i l :
  hash_ok U t s -> s !! i = Some l -> i ∈ U -> fits (key_of k (data l)) ->
  exists t' s', hash_delete k t s i = Done (t', s') /\ hash_ok (U ∖ {[i]}) t' s' /\ relinks s s'.
Proof.
  intros (fam & Hl) Ei Hi Hf. pose proof Hl as [H1 H5 H6]. set (key := key_of k (data l)).
  assert (Hin : i ∈ fam key) by (apply H5; split; [done|]; split; [done|]; by exists l).
  apply list_elem_of_split in Hin as (a & b & Ea).
  destruct (hash_delete_ok k t s fam i l a b H1 Ei (fits_nonempty _ Hf) Ea) as (t' & s' & l' & E & Hh & Ho & El' & Ll).
  fold key in Hh. assert (Hs : Forall (fun j => is_Some (s !! j)) (a ++ i :: b)) by (rewrite <- Ea; by eapply listed_some).
  pose proof (hd_nodup k t s fam H1 key) as Hn. rewrite Ea, <- Permutation_middle in Hn. apply NoDup_cons in Hn as [Ni _].
  assert (Hab : forall j, j ∈ a ++ i :: b <-> j ∈ U /\ fits key /\ exists lj, s !! j = Some lj /\ key_of k (data lj) = key).
  { intros j. by rewrite <- Ea, (H5 j key). }
  exists t', s'. split; [done|]. split; [|by eapply relinks_only_field]. exists (set_fam fam key (a ++ b)).
  eapply (listed_change U (U ∖ {[i]}) t t' s s' fam (a ++ i :: b)); try done.
  - intros j _ Hj. by apply Hab in Hj as (_ & _ & ?).
  - intros j. rewrite elem_of_difference, elem_of_singleton. split.
    + intros Hj. assert (Hj' : j ∈ a ++ i :: b) by (rewrite <- Permutation_middle; by right). apply Hab in Hj' as (A & B & C).
      split; [split; [done|]|done]. by intros ->.
    + intros ([A N] & B & C). assert (Hj : j ∈ a ++ i :: b) by (by apply Hab). rewrite <- Permutation_middle in Hj.
      by apply elem_of_cons in Hj as [?|?].
  - intros j Hj. apply Hab in Hj as [? _]. by right.
  - intros j lj Ej N. rewrite elem_of_difference, elem_of_singleton. split; [by intros [? _]|]. intros A. split; [done|]. intros ->.
    apply N. unfold key. congruence.
  - intros j lj Hj Ej [N|N]; [|done]. rewrite elem_of_difference, elem_of_singleton in N. destruct (decide (j = i)) as [->|Nj]; [congruence|].
    apply Hab in Hj as [? _]. by destruct N.
  - intros j Hj. rewrite elem_of_difference, elem_of_singleton. split; [by intros [? _]|]. intros A. split; [done|]. intros ->. apply Hj.
    apply elem_of_app. right. by constructor.
Qed.
End tables.

(** Identifiers that can be looked up. *)
Definition fits_uid (key : list Z) : Prop := key <> [].
Definition fits_hw (key : list Z) : Prop := key <> [] /\ key <> [HTYPE_INFINIBAND].

Section both_tables.
Implicit Types (t : table) (s : leases) (U : gset nat).

Lemma hash_ok_empty U t s i : hash_ok uid_link fits_uid U t s -> hash_ok uid_link fits_uid U (<[[] := i]> t) s.
Proof.
  intros (fam & [[H1 H2 H3 H4] H5 H6]). exists fam. split; [split|..]; try done. intros key N. rewrite lookup_insert_ne by done. by apply H1.
Qed.

Lemma relinks_refl k s : relinks k s s.
Proof. intros A f Hf. apply upto_refl. Qed.

Lemma uid_add_ok U t s i l :
  hash_ok uid_link fits_uid U t s -> s !! i = Some l -> i ∉ U ->
  exists t' s', (match uid (data l) with Some _ => uid_hash_add t s i | None => Done (t, s) end) = Done (t', s') /\
    hash_ok uid_link fits_uid (U ∪ {[i]}) t' s' /\ relinks uid_link s s'.
Proof.
  intros H Ei Hi. destruct (decide (uid_key (data l) = [])) as [Ek|Nk].
  - assert (H' : hash_ok uid_link fits_uid (U ∪ {[i]}) t s).
    { eapply (hash_ok_unfit _ _ U); [exact H|exact Ei|unfold fits_uid; simpl; congruence|].
      intros j N. rewrite elem_of_union, elem_of_singleton. split; [by intros [?|?]|by left]. }
    destruct (uid (data l)) as [u|] eqn:Eu; [|exists t, s; split_and!; [done..|apply relinks_refl]].
    exists (<[[] := i]> t), s. split; [|split; [by apply hash_ok_empty|apply relinks_refl]].
    unfold uid_hash_add, hash_add. rewrite (get_Done _ _ _ Ei). dred. simpl. by rewrite Ek.
  - destruct (hash_ok_add uid_link fits_uid (fun _ H => H) U t s i l H Ei Hi Nk) as (t' & s' & E & H' & Hr).
    exists t', s'. split; [|done]. unfold uid_key in Nk. destruct (uid (data l)); [done|]. by destruct Nk.
Qed.

Lemma uid_delete_ok U t s i l :
  hash_ok uid_link fits_uid U t s -> s !! i = Some l -> i ∈ U ->
  exists t' s', (match uid (data l) with Some _ => uid_hash_delete t s i | None => Done (t, s) end) = Done (t', s') /\
    hash_ok uid_link fits_uid (U ∖ {[i]}) t' s' /\ relinks uid_link s s'.
Proof.
  intros H Ei Hi. destruct (decide (uid_key (data l) = [])) as [Ek|Nk].
  - assert (H' : hash_ok uid_link fits_uid (U ∖ {[i]}) t s).
    { eapply (hash_ok_unfit _ _ U); [exact H|exact Ei|unfold fits_uid; simpl; congruence|].
      intros j N. rewrite elem_of_difference, elem_of_singleton. split; [by intros [? _]|done]. }
    assert (Ln : n_uid (data l) = None).
    { destruct H as (fam & [_ _ H6]). apply (H6 i l Ei). right. unfold fits_uid. simpl. congruence. }
    exists t, s. split; [|split; [done|apply relinks_refl]]. destruct (uid (data l)) as [u|] eqn:Eu; [|done].
    unfold uid_hash_delete, hash_delete. rewrite (get_Done _ _ _ Ei). dred. simpl. rewrite Ek. simpl.
    rewrite (put_link_Done uid_link s i l) by done. dred. replace (relink uid_link None l) with l; [by rewrite insert_id|].
    rewrite <- Ln. symmetry. by apply (relink_same uid_link).
  - destruct (hash_ok_delete uid_link fits_uid (fun _ H => H) U t s i l H Ei Hi Nk) as (t' & s' & E & H' & Hr).
    exists t', s'. split; [|done]. unfold uid_key in Nk. destruct (uid (data l)); [done|]. by destruct Nk.
Qed.

Lemma fits_hw_nonempty key : fits_hw key -> key <> [].
Proof. by intros [? _]. Qed.

Lemma hw_add_ok U t s i l :
  hash_ok hw_link fits_hw U t s -> s !! i = Some l -> i ∉ U ->
  exists t' s', (if zlen (hardware_addr (data l)) =? 0 then Done (t, s) else hw_hash_add t s i) = Done (t', s') /\
    hash_ok hw_link fits_hw (U ∪ {[i]}) t' s' /\ relinks hw_link s s'.
Proof.
  intros H Ei Hi. destruct (decide (hardware_addr (data l) = [] \/ hardware_addr (data l) = [HTYPE_INFINIBAND])) as [Ek|Nk].
  - exists t, s. split; [|split; [|apply relinks_refl]].
    + destruct Ek as [Ek|Ek].
      * by rewrite Ek.
      * unfold hw_hash_add. rewrite (get_Done _ _ _ Ei). dred. unfold is_infiniband. rewrite Ek. by rewrite bool_decide_true.
    + eapply (hash_ok_unfit _ _ U); [exact H|exact Ei|unfold fits_hw; simpl; by destruct Ek as [-> | ->]; intros []|].
      intros j N. rewrite elem_of_union, elem_of_singleton. split; [by intros [?|?]|by left].
  - apply Decidable.not_or in Nk as [N1 N2]. destruct (hash_ok_add hw_link fits_hw fits_hw_nonempty U t s i l H Ei Hi (conj N1 N2)) as (t' & s' & E & H' & Hr).
    exists t', s'. split; [|done]. rewrite (proj2 (Z.eqb_neq _ _)).
    + unfold hw_hash_add. rewrite (get_Done _ _ _ Ei). dred. unfold is_infiniband. by rewrite bool_decide_false.
    + destruct (hardware_addr (data l)) as [|x r]; [done|]. rewrite zlen_cons. pose proof (zlen_nonneg r). lia.
Qed.

Lemma hw_delete_ok U t s i l :
  hash_ok hw_link fits_hw U t s -> s !! i = Some l -> i ∈ U ->
  exists t' s', (if zlen (hardware_addr (data l)) =? 0 then Done (t, s) else hw_hash_delete t s i) = Done (t', s') /\
    hash_ok hw_link fits_hw (U ∖ {[i]}) t' s' /\ relinks hw_link s s'.
Proof.
  intros H Ei Hi. destruct (decide (hardware_addr (data l) = [] \/ hardware_addr (data l) = [HTYPE_INFINIBAND])) as [Ek|Nk].
  - exists t, s. split; [|split; [|apply relinks_refl]].
    + destruct Ek as [Ek|Ek].
      * by rewrite Ek.
      * unfold hw_hash_delete. rewrite (get_Done _ _ _ Ei). dred. unfold is_infiniband. rewrite Ek. by rewrite bool_decide_true.
    + eapply (hash_ok_unfit _ _ U); [exact H|exact Ei|unfold fits_hw; simpl; by destruct Ek as [-> | ->]; intros []|].
      intros j N. rewrite elem_of_difference, elem_of_singleton. split; [by intros [? _]|done].
  - apply Decidable.not_or in Nk as [N1 N2]. destruct (hash_ok_delete hw_link fits_hw fits_hw_nonempty U t s i l H Ei Hi (conj N1 N2)) as (t' & s' & E & H' & Hr).
    exists t', s'. split; [|done]. rewrite (proj2 (Z.eqb_neq _ _)).
    + unfold hw_hash_delete. rewrite (get_Done _ _ _ Ei). dred. unfold is_infiniband. by rewrite bool_decide_false.
    + destruct (hardware_addr (data l)) as [|x r]; [done|]. rewrite zlen_cons. pose proof (zlen_nonneg r). lia.
Qed.
End both_tables.

(** ** The queues *)
Section queues.
Context `{!LeaseQueueOps ldata} `{!LeaseQueue ldata}.
Implicit Types (s : leases) (Q : gset nat) (ps : gmap nat (pool_t queue)) (ids : nat -> qkind -> list nat).

(** The leases of [Q] are on the queues that they belong on, and no others
    are.  [off] is the difference between the length of a queue and the
    number that the pool keeps of it. *)
Record queues_ok Q (off : nat -> Z * Z) s ps ids : Prop := {
  qo_on : forall p pl k, ps !! p = Some pl -> on_queue s (qid p k) (lptr pl k) (ids p k);
  qo_in : forall p k i, i ∈ ids p k -> i ∈ Q /\ exists l, s !! i = Some l /\ pool (data l) = Some p /\ queue_of (data l) = Some k;
  qo_all : forall i, i ∈ Q -> exists l p pl k, s !! i = Some l /\ pool (data l) = Some p /\ ps !! p = Some pl /\
    queue_of (data l) = Some k /\ i ∈ ids p k;
  qo_off : forall i l, s !! i = Some l -> i ∉ Q -> next l = None /\ prev l = None /\ lc l = None;
  qo_pool : forall i l p, s !! i = Some l -> pool (data l) = Some p -> is_Some (ps !! p);
  qo_count : forall p pl, ps !! p = Some pl ->
    free_leases pl = zlen (ids p FREE_LEASES) - (off p).1 /\ backup_leases pl = zlen (ids p BACKUP_LEASES) - (off p).2 }.

Definition place (d : ldata) := (pool d, queue_of d).
Definition set_ids ids (p : nat) (k : qkind) (l : list nat) : nat -> qkind -> list nat :=
  fun p' k' => if decide (p' = p /\ k' = k) then l else ids p' k'.

Lemma set_ids_same ids p k l : set_ids ids p k l p k = l.
Proof. unfold set_ids. by rewrite decide_True. Qed.
Lemma set_ids_other ids p k l p' k' : ~ (p' = p /\ k' = k) -> set_ids ids p k l p' k' = ids p' k'.
Proof. intros. unfold set_ids. by rewrite decide_False. Qed.

Lemma lptr_same {X : Type} k (q : X) pl : lptr (set_lptr k q pl) k = q.
Proof. by destruct k. Qed.
Lemma lptr_other {X : Type} k k' (q : X) pl : k <> k' -> lptr (set_lptr k q pl) k' = lptr pl k'.
Proof. intros N. by destruct k, k'. Qed.
Lemma lptr_count {X : Type} k k' by_ (pl : pool_t X) : lptr (count_lease k by_ pl) k' = lptr pl k'.
Proof. by destruct k, k'. Qed.

Lemma queues_upto Q off s s' ps ids : queues_ok Q off s ps ids -> upto place s s' -> queues_ok Q off s' ps ids.
Proof.
  intros [H1 H2 H3 H4 H5 H6] Hu. split; [| | | | |done].
  - intros p pl k Ep. eapply on_queue_links; [by apply H1|]. by eapply upto_links.
  - intros p k i Hi. destruct (H2 p k i Hi) as (HQ & l & E & Hp & Hk). split; [done|].
    destruct (proj2 Hu i l E) as (d & E' & F). injection F as F1 F2. exists (set_data d l). simpl. rewrite F1, F2. done.
  - intros i Hi. destruct (H3 i Hi) as (l & p & pl & k & E & Hp & Ep & Hk & Hin).
    destruct (proj2 Hu i l E) as (d & E' & F). injection F as F1 F2. exists (set_data d l), p, pl, k. simpl. rewrite F1, F2. done.
  - intros i l' E' Hi. destruct (upto_back _ _ _ _ _ Hu E') as (l & E & -> & _). by apply (H4 i l).
  - intros i l' p E' Hp. destruct (upto_back _ _ _ _ _ Hu E') as (l & E & _ & F). injection F as F1 F2. apply (H5 i l p E). congruence.
Qed.

Lemma queues_outside Q off s ps ids i l d :
  queues_ok Q off s ps ids -> i ∉ Q -> s !! i = Some l -> pool d = pool (data l) -> queues_ok Q off (<[i := set_data d l]> s) ps ids.
Proof.
  intros [H1 H2 H3 H4 H5 H6] Hi Ei Hd. assert (Ni : forall p k, i ∉ ids p k) by (intros p k Hin; by apply H2 in Hin as [? _]).
  split; [| | | | |done].
  - intros p pl k Ep. eapply on_queue_links; [by apply H1|]. apply same_links_frame. intros j Hj. apply lookup_insert_ne. intros ->. by apply (Ni p k).
  - intros p k j Hj. rewrite lookup_insert_ne by (intros ->; by apply (Ni p k)). by apply H2.
  - intros j Hj. rewrite lookup_insert_ne by (by intros ->). by apply H3.
  - intros j lj [[<- <-]|[_ E]]%lookup_insert_Some Hj; [by apply (H4 i l)|by apply (H4 j lj)].
  - intros j lj p [[<- <-]|[_ E]]%lookup_insert_Some Hp; [apply (H5 i l p Ei); simpl in Hp; congruence|by apply (H5 j lj p)].
Qed.

(** Changes of a pool that leave its queues and counts alone. *)
Lemma queues_pool Q off s ps ids p pl pl' :
  queues_ok Q off s ps ids -> ps !! p = Some pl -> (forall k, lptr pl' k = lptr pl k) ->
  free_leases pl' = free_leases pl -> backup_leases pl' = backup_leases pl -> queues_ok Q off s (<[p := pl']> ps) ids.
Proof.
  intros [H1 H2 H3 H4 H5 H6] Ep Hl Hf Hb. split; try done.
  - intros p' pl0 k [[<- <-]|[_ E]]%lookup_insert_Some; [rewrite Hl; by apply H1|by apply H1].
  - intros i Hi. destruct (H3 i Hi) as (l & p' & pl0 & k & E & Hp & Ep' & Hk & Hin). destruct (decide (p = p')) as [<-|N].
    + exists l, p, pl', k. by rewrite lookup_insert_eq.
    + exists l, p', pl0, k. by rewrite lookup_insert_ne.
  - intros i l p' E Hp. destruct (decide (p = p')) as [<-|N]; [rewrite lookup_insert_eq; eauto|rewrite lookup_insert_ne by done; eauto].
  - intros p' pl0 [[<- <-]|[_ E]]%lookup_insert_Some; [rewrite Hf, Hb; by apply H6|by apply H6].
Qed.

(** A lease is on one queue only. *)
Lemma queues_apart Q off s ps ids p k p' k' i :
  queues_ok Q off s ps ids -> i ∈ ids p k -> i ∈ ids p' k' -> p' = p /\ k' = k.
Proof.
  intros H Hi Hi'. destruct (qo_in _ _ _ _ _ H p k i Hi) as (_ & l & E & Hp & Hk).
  destruct (qo_in _ _ _ _ _ H p' k' i Hi') as (_ & l' & E' & Hp' & Hk'). split; congruence.
Qed.

Lemma queues_some Q off s ps ids p k : queues_ok Q off s ps ids -> Forall (fun i => is_Some (s !! i)) (ids p k).
Proof. intros H. apply Forall_forall. intros i Hi. destruct (qo_in _ _ _ _ _ H p k i Hi) as (_ & l & E & _). eauto. Qed.

Lemma count_set_ids (off : nat -> Z * Z) ids p k by_ l q (pl : pool_t queue) :
  free_leases pl = zlen (ids p FREE_LEASES) - (off p).1 /\ backup_leases pl = zlen (ids p BACKUP_LEASES) - (off p).2 ->
  zlen l = zlen (ids p k) + by_ ->
  let pl' := set_lptr k q (count_lease k by_ pl) in
  free_leases pl' = zlen (set_ids ids p k l p FREE_LEASES) - (off p).1 /\
  backup_leases pl' = zlen (set_ids ids p k l p BACKUP_LEASES) - (off p).2.
Proof.
  intros [Hf Hb] Hl. simpl. destruct (decide (k = FREE_LEASES)) as [->|N1]; [|destruct (decide (k = BACKUP_LEASES)) as [->|N2]].
  - rewrite set_ids_same, set_ids_other by (by intros []). simpl. lia.
  - rewrite set_ids_same, set_ids_other by (by intros []). simpl. lia.
  - rewrite !set_ids_other by (intros [_ ?]; congruence). by destruct k.
Qed.

(** The queue [k] of the pool [p] has changed, with the links of [ch] alone. *)
Lemma queues_change Q Q' off s s' ps ids p pl k i (ch l' : list nat) q' by_ :
  queues_ok Q off s ps ids -> ps !! p = Some pl ->
  (forall j, j ∈ ch -> j = i \/ j ∈ ids p k) ->
  (forall j, j ∉ ch -> s' !! j = s !! j) -> (forall j l, s !! j = Some l -> exists l2, s' !! j = Some l2 /\ data l2 = data l) ->
  dom s' = dom s ->
  on_queue s' (qid p k) q' l' -> zlen l' = zlen (ids p k) + by_ ->
  (forall j, j ∈ l' <-> j ∈ Q' /\ (j = i \/ j ∈ ids p k)) ->
  (forall j, j <> i -> j ∈ Q' <-> j ∈ Q) ->
  (exists l, s !! i = Some l /\ pool (data l) = Some p /\ queue_of (data l) = Some k) ->
  (forall p' k', i ∈ ids p' k' -> p' = p /\ k' = k) ->
  (i ∉ Q' -> forall l, s' !! i = Some l -> next l = None /\ prev l = None /\ lc l = None) ->
  queues_ok Q' off s' (<[p := set_lptr k q' (count_lease k by_ pl)]> ps) (set_ids ids p k l').
Proof.
  intros [H1 H2 H3 H4 H5 H6] Ep Hch Hout Hdata Hdom Hq Hz Hl' HQ (li & Ei & Hpi & Hki) Hi Hoff.
  assert (Hapart : forall p' k' j, ~ (p' = p /\ k' = k) -> j ∈ ids p' k' -> (j ∉ ch) /\ j <> i).
  { intros p' k' j N Hj. assert (j <> i) by (intros ->; by apply N, Hi). split; [|done]. intros [->|Hj2]%Hch; [done|].
    destruct (H2 p k j Hj2) as (_ & l & E & Hp & Hk), (H2 p' k' j Hj) as (_ & l2 & E2 & Hp2 & Hk2). apply N. split; congruence. }
  assert (Hback : forall j lj, s' !! j = Some lj -> exists l, s !! j = Some l /\ data lj = data l).
  { intros j lj E. assert (is_Some (s !! j)) as [l E0]. { apply elem_of_dom. rewrite <- Hdom. by apply elem_of_dom_2 in E. }
    destruct (Hdata j l E0) as (l2 & E2 & D). exists l. split; [done|]. congruence. }
  split.
  - intros p' pl0 k0 [[<- <-]|[N E]]%lookup_insert_Some.
    + destruct (decide (k0 = k)) as [->|N].
      * by rewrite lptr_same, set_ids_same.
      * rewrite lptr_other, lptr_count, set_ids_other by (congruence || by intros []).
        eapply on_queue_links; [by apply H1|]. apply same_links_frame. intros j Hj. apply Hout. by apply (Hapart p k0); [intros []|].
    + rewrite set_ids_other by (intros [? _]; congruence).
      eapply on_queue_links; [by apply H1|]. apply same_links_frame. intros j Hj. apply Hout. by apply (Hapart p' k0); [intros []|].
  - intros p' k' j Hj. destruct (decide (p' = p /\ k' = k)) as [[-> ->]|N].
    + rewrite set_ids_same in Hj. apply Hl' in Hj as [HQj Hj]. split; [done|]. destruct Hj as [->|Hj].
      * destruct (Hdata i li Ei) as (l2 & E2 & D). exists l2. rewrite D. done.
      * destruct (H2 p k j Hj) as (_ & l & E & Hp & Hk). destruct (Hdata j l E) as (l2 & E2 & D). exists l2. rewrite D. done.
    + rewrite set_ids_other in Hj by done. destruct (H2 p' k' j Hj) as (HQj & l & E & Hp & Hk).
      destruct (Hapart p' k' j N Hj) as [Nc Nj]. split; [by apply HQ|]. rewrite Hout by done. by exists l.
  - intros j HQj. assert (exists l p' pl' k', s !! j = Some l /\ pool (data l) = Some p' /\ ps !! p' = Some pl' /\ queue_of (data l) = Some k' /\
      (j = i /\ p' = p /\ k' = k \/ j ∈ ids p' k')) as (l & p' & pl' & k' & E & Hp & Ep' & Hk & Hin).
    { destruct (decide (j = i)) as [->|Nj]; [exists li, p, pl, k; split_and!; auto|].
      destruct (H3 j) as (l & p' & pl' & k' & E & Hp & Ep' & Hk & Hin); [by apply HQ|]. exists l, p', pl', k'. split_and!; auto. }
    destruct (Hdata j l E) as (l2 & E2 & D). exists l2, p'. rewrite D.
    assert (Hin' : j ∈ set_ids ids p k l' p' k').
    { destruct (decide (p' = p /\ k' = k)) as [[-> ->]|N].
      - rewrite set_ids_same. apply Hl'. split; [done|]. destruct Hin as [(-> & _)|Hin]; [by left|by right].
      - rewrite set_ids_other by done. by destruct Hin as [(_ & -> & ->)|Hin]; [destruct N|]. }
    destruct (decide (p = p')) as [<-|N].
    + eexists _, k'. by rewrite lookup_insert_eq.
    + exists pl', k'. by rewrite lookup_insert_ne.
  - intros j lj Ej Hj. destruct (decide (j = i)) as [->|Nj]; [by apply Hoff|]. destruct (decide (j ∈ ch)) as [Hc|Hc].
    + apply Hch in Hc as [?|Hin]; [done|]. destruct Hj. apply HQ; [done|]. by apply (H2 p k j).
    + rewrite Hout in Ej by done. apply (H4 j lj Ej). by rewrite <- HQ.
  - intros j lj p' Ej Hp. destruct (Hback j lj Ej) as (l & E & D). rewrite D in Hp. destruct (decide (p = p')) as [<-|N].
    + rewrite lookup_insert_eq. eauto.
    + rewrite lookup_insert_ne by done. by apply (H5 j l).
  - intros p' pl0 [[<- <-]|[N E]]%lookup_insert_Some; [by apply count_set_ids; [apply H6|]|].
    rewrite !set_ids_other by (intros [? _]; congruence). by apply H6.
Qed.

Lemma queues_remove Q off s ps ids p pl k i a b :
  queues_ok Q off s ps ids -> ps !! p = Some pl -> ids p k = a ++ i :: b ->
  exists s' q', LEASE_REMOVEP s (qid p k) (lptr pl k) i = Done (s', q') /\
    queues_ok (Q ∖ {[i]}) off s' (<[p := set_lptr k q' (count_lease k (-1) pl)]> ps) (set_ids ids p k (a ++ b)) /\
    only_links s s' (a ++ i :: b) /\ detached s' i.
Proof.
  intros H Ep Ea. pose proof (qo_on _ _ _ _ _ H p pl k Ep) as Hq. rewrite Ea in Hq.
  destruct (queue_remove s (qid p k) (lptr pl k) a i b Hq) as (s' & q' & E & Hq' & Hd & Ho).
  assert (Hin : i ∈ ids p k) by (rewrite Ea; apply elem_of_app; right; by constructor).
  destruct (qo_in _ _ _ _ _ H p k i Hin) as (HQ & l & El & Hp & Hk). pose proof (queues_some _ _ _ _ _ p k H) as Hs. rewrite Ea in Hs.
  destruct (agree_links id s s' _ Ho Hs) as [Hdom Hdata].
  pose proof (on_queue_order _ _ _ _ Hq) as (Hn & _). rewrite <- Permutation_middle in Hn. apply NoDup_cons in Hn as [Ni _].
  exists s', q'. split; [done|]. split; [|done].
  eapply (queues_change Q (Q ∖ {[i]}) off s s' ps ids p pl k i (a ++ i :: b)); try done.
  - intros j Hj. right. by rewrite Ea.
  - apply Ho.
  - rewrite Ea, !zlen_app, zlen_cons. lia.
  - intros j. rewrite elem_of_difference, elem_of_singleton, Ea. split.
    + intros Hj. assert (Hj' : j ∈ a ++ i :: b) by (rewrite <- Permutation_middle; by right).
      split; [|by right]. split; [|by intros ->]. rewrite <- Ea in Hj'. by apply (qo_in _ _ _ _ _ H p k).
    + intros [[_ N] [->|Hj]]; [done|]. rewrite <- Permutation_middle in Hj. by apply elem_of_cons in Hj as [?|?].
  - intros j N. rewrite elem_of_difference, elem_of_singleton. split; [by intros [? _]|done].
  - by exists l.
  - intros p' k' Hi. by eapply queues_apart.
  - intros _ l' E'. destruct Hd as (l2 & E2 & D). by replace l' with l2 by congruence.
Qed.

Lemma queues_insert Q off s ps ids p pl k i l t follow g :
  queues_ok Q off s ps ids -> i ∉ Q -> s !! i = Some l -> ps !! p = Some pl -> pool (data l) = Some p -> queue_of (data l) = Some k ->
  insert_ok follow g (qid p k) (ids p k) -> Z.of_nat (size s) <= max_leases ->
  exists g' s' q' a b, LEASE_INSERTP follow g (<[i := set_sort_time t l]> s) (qid p k) (lptr pl k) i = Done (g', s', q') /\
    ids p k = a ++ b /\
    queues_ok (Q ∪ {[i]}) off s' (<[p := set_lptr k q' (count_lease k 1 pl)]> ps) (set_ids ids p k (a ++ i :: b)) /\
    only_links (<[i := set_sort_time t l]> s) s' (i :: ids p k) /\ insert_ok follow g' (qid p k) (a ++ i :: b) /\
    (forall q js, q <> qid p k -> insert_ok follow g' q js).
Proof.
  intros H Hi El Ep Hp Hk Hg Hm. set (s1 := <[i := set_sort_time t l]> s).
  assert (Ni : forall p' k', i ∉ ids p' k') by (intros p' k' Hin; by apply (qo_in _ _ _ _ _ H) in Hin as [? _]).
  pose proof (qo_on _ _ _ _ _ H p pl k Ep) as Hq. destruct (qo_off _ _ _ _ _ H i l El Hi) as (D1 & D2 & D3).
  assert (Hq1 : on_queue s1 (qid p k) (lptr pl k) (ids p k)).
  { eapply on_queue_links; [exact Hq|]. apply same_links_frame. intros j Hj. apply lookup_insert_ne. intros ->. by apply (Ni p k). }
  assert (E1 : s1 !! i = Some (set_sort_time t l)) by apply lookup_insert_eq.
  assert (Hz : zlen (ids p k) < max_leases).
  { assert (S (length (ids p k)) <= size s)%nat; [|unfold zlen; lia].
    change (S (length (ids p k))) with (length (i :: ids p k)). apply ids_size.
    - constructor; [by apply Ni|]. by apply (on_queue_order _ _ _ _ Hq).
    - constructor; [eauto|]. by eapply queues_some. }
  destruct (queue_insert follow g s1 (qid p k) (lptr pl k) (ids p k) i Hq1) as (g' & s' & q' & a & b & E & Ea & Hq' & Ho & Hg' & Hg2); [by apply Ni|by eexists|done..|].
  exists g', s', q', a, b. split; [done|]. split; [done|]. split; [|done].
  assert (Hs1 : Forall (fun j => is_Some (s1 !! j)) (i :: ids p k)).
  { constructor; [eauto|]. apply Forall_forall. intros j Hj. unfold s1. rewrite lookup_insert_ne by (intros ->; by apply (Ni p k)).
    pose proof (queues_some _ _ _ _ _ p k H) as Hs. rewrite Forall_forall in Hs. by apply Hs. }
  assert (A1 : agree id s s1).
  { split; [by apply dom_insert_lookup_L|]. intros j lj Ej. unfold s1. destruct (decide (i = j)) as [<-|N].
    - rewrite lookup_insert_eq. exists (set_sort_time t l). split; [done|]. simpl. congruence.
    - rewrite lookup_insert_ne by done. eauto. }
  destruct (agree_trans id s s1 s' A1 (agree_links id s1 s' _ Ho Hs1)) as [Hdom Hdata].
  eapply (queues_change Q (Q ∪ {[i]}) off s s' ps ids p pl k i (i :: ids p k)); try done.
  - intros j Hj. by apply elem_of_cons in Hj.
  - intros j Hj. rewrite (proj1 Ho j Hj). unfold s1. rewrite lookup_insert_ne; [done|]. intros ->. apply Hj. by constructor.
  - rewrite Ea, !zlen_app, zlen_cons. lia.
  - intros j. rewrite elem_of_union, elem_of_singleton, <- Permutation_middle, <- Ea, elem_of_cons. split.
    + intros [->|Hj]; [by split; [right|left]|]. split; [left; by apply (qo_in _ _ _ _ _ H p k)|by right].
    + by intros [_ ?].
  - intros j N. rewrite elem_of_union, elem_of_singleton. split; [by intros [?|?]|by left].
  - by exists l.
  - intros p' k' Hin. by destruct (Ni p' k').
  - intros []. apply elem_of_union. right. by apply elem_of_singleton.
Qed.
End queues.
