(* ===== verification/LeaseDbOk.v ===== *)
(** * The operations of the lease database keep its invariant

    Against the interfaces [LeaseQueue] and [WorldOk], so for both kinds of
    queues and whatever the rest of the server does within its contract. *)

From stdpp Require Import base tactics numbers gmap list.
From S2P Require Import Prelude Lease LeaseHash Billing LeaseDb LeaseDbInv.

#[local] Open Scope Z_scope.

Section ok.
Context `{!LeaseQueueOps ldata} `{!LeaseQueue ldata} {W : Type} `{!World W} `{!WorldOk W}.
Implicit Types (d : @db _ W) (s : leases) (ids : nat -> qkind -> list nat) (Q U H B L : gset nat).

(** The leases of [Q] are on queues, those of [U] and [H] in the tables, and
    the classes of those of [B] are billed. *)
Record wf4 Q U H B (off : nat -> Z * Z) d ids : Prop := {
  wf_queues : queues_ok Q off (lease_store d) (pools d) ids;
  wf_uid : hash_ok uid_link fits_uid U (uid_hash d) (lease_store d);
  wf_hw : hash_ok hw_link fits_hw H (hw_hash d) (lease_store d);
  wf_billing : billing_ok B (class_table d) (lease_store d);
  wf_size : Z.of_nat (size (lease_store d)) <= max_leases }.

(** What decides about the events of a lease, and whose it is. *)
Definition vitals (l : ldata) :=
  (binding_state l, next_binding_state l, has_flag l RESERVED_LEASE, pool l, (ends l, tsfp l), (uid_key l, hardware_addr l)).

Lemma vitals_inv x y : vitals x = vitals y ->
  binding_state x = binding_state y /\ next_binding_state x = next_binding_state y /\
  has_flag x RESERVED_LEASE = has_flag y RESERVED_LEASE /\ pool x = pool y /\ ends x = ends y /\ tsfp x = tsfp y /\
  uid_key x = uid_key y /\ hardware_addr x = hardware_addr y.
Proof. unfold vitals. intros E. repeat split; congruence. Qed.

(** No lease has got another event. *)
Definition steady s s' : Prop :=
  dom s' = dom s /\
  forall i l, s !! i = Some l -> exists l', s' !! i = Some l' /\ sort_time l' = sort_time l /\ vitals (data l') = vitals (data l).
(** The same for all leases but [i]. *)
Definition steady_but (i : nat) s s' : Prop :=
  dom s' = dom s /\
  forall j l, j <> i -> s !! j = Some l -> exists l', s' !! j = Some l' /\ sort_time l' = sort_time l /\ vitals (data l') = vitals (data l).
Definition same_peers d d' : Prop := forall p pl, pools d !! p = Some pl ->
  exists pl', pools d' !! p = Some pl' /\ failover_peer pl' = failover_peer pl.

#[export] Instance steady_preorder : PreOrder steady.
Proof.
  split.
  - intros s. split; [done|]. eauto.
  - intros s1 s2 s3 [D1 H1] [D2 H2]. split; [congruence|]. intros i l E. destruct (H1 i l E) as (l1 & E1 & T1 & V1).
    destruct (H2 i l1 E1) as (l2 & E2 & T2 & V2). exists l2. split_and!; congruence.
Qed.
#[export] Instance same_peers_preorder : PreOrder same_peers.
Proof.
  split.
  - intros d p pl E. eauto.
  - intros d1 d2 d3 H1 H2 p pl E. destruct (H1 p pl E) as (pl1 & E1 & P1). destruct (H2 p pl1 E1) as (pl2 & E2 & P2).
    exists pl2. split; congruence.
Qed.
Lemma steady_but_trans i s1 s2 s3 : steady_but i s1 s2 -> steady_but i s2 s3 -> steady_but i s1 s3.
Proof.
  intros [D1 H1] [D2 H2]. split; [congruence|]. intros j l N E. destruct (H1 j l N E) as (l1 & E1 & T1 & V1).
  destruct (H2 j l1 N E1) as (l2 & E2 & T2 & V2). exists l2. split_and!; congruence.
Qed.
Lemma steady_any i s s' : steady s s' -> steady_but i s s'.
Proof. intros [D H]. split; [done|]. intros j l _. apply H. Qed.

Lemma upto_steady s s' : upto vitals s s' -> steady s s'.
Proof. intros [D H]. split; [done|]. intros i l E. destruct (H i l E) as (d & E' & V). by exists (set_data d l). Qed.
Lemma links_steady s s' js : only_links s s' js -> Forall (fun i => is_Some (s !! i)) js -> steady s s'.
Proof.
  intros Ho Hs. split; [apply (agree_links id s s' js Ho Hs)|]. intros i l E. destruct (proj2 Ho i l E) as (l' & E' & T & D).
  exists l'. split_and!; [done..|]. by rewrite D.
Qed.
Lemma insert_steady_but s i l l' : s !! i = Some l -> steady_but i s (<[i := l']> s).
Proof. intros E. split; [by apply dom_insert_lookup_L|]. intros j lj N Ej. exists lj. by rewrite lookup_insert_ne. Qed.

(** ** Changes of data *)
Definition parts (l : ldata) := (place l, (uid_key l, n_uid l), (hardware_addr l, n_hw l), billing_class l).

Lemma billing_ok_agree B cs s s' : billing_ok B cs s -> agree billing_class s s' -> billing_ok B cs s'.
Proof.
  intros H Ha. eapply billing_ok_same; [exact H|..].
  - intros i l E. destruct (proj2 Ha i l E) as (l' & E' & F). eauto.
  - intros i l' E'. destruct (agree_back _ _ _ _ _ Ha E') as (l & E & _). eauto.
Qed.

(** The store may change in what the invariant does not look at. *)
Lemma wf_agree Q U H B off d ids s' :
  wf4 Q U H B off d ids -> queues_ok Q off s' (pools d) ids ->
  agree (fun l => ((uid_key l, n_uid l), (hardware_addr l, n_hw l), billing_class l)) (lease_store d) s' ->
  wf4 Q U H B off (set_store s' d) ids.
Proof.
  intros [W1 W2 W3 W4 W5] Hq Ha. split; simpl.
  - done.
  - eapply (hash_ok_agree uid_link); [exact W2|]. eapply agree_weaken; [|exact Ha]. intros x y E. simpl in *. congruence.
  - eapply (hash_ok_agree hw_link); [exact W3|]. eapply agree_weaken; [|exact Ha]. intros x y E. simpl in *. congruence.
  - eapply billing_ok_agree; [exact W4|]. eapply agree_weaken; [|exact Ha]. intros x y E. congruence.
  - by rewrite (agree_size _ _ _ Ha).
Qed.
Lemma wf_upto Q U H B off d ids s' :
  wf4 Q U H B off d ids -> upto parts (lease_store d) s' -> wf4 Q U H B off (set_store s' d) ids.
Proof.
  intros Hw Hu. apply wf_agree; [done|..].
  - eapply queues_upto; [apply Hw|]. eapply upto_weaken; [|exact Hu]. intros x y E. unfold parts in E. congruence.
  - apply upto_agree. eapply upto_weaken; [|exact Hu]. intros x y E. unfold parts in E. congruence.
Qed.

Lemma kept_parts s s' : kept s s' -> upto parts s s' /\ upto vitals s s'.
Proof.
  intros Hk. split; (eapply upto_weaken; [|exact Hk]); intros x y E; unfold core in E; unfold parts, place, vitals, uid_key, queue_of;
    simplify_eq; repeat match goal with H : _ = _ |- _ => rewrite H; clear H end; done.
Qed.
Lemma with_world_ok Q U H B off d ids r :
  wf4 Q U H B off d ids -> kept (lease_store d) r.2 ->
  wf4 Q U H B off (with_world d r) ids /\ steady (lease_store d) (lease_store (with_world d r)).
Proof.
  intros Hw Hk. destruct (kept_parts _ _ Hk) as [K1 K2]. split; [|by apply upto_steady]. destruct (wf_upto _ _ _ _ _ _ _ _ Hw K1). done.
Qed.

Lemma lease_at_Done d i l : lease_store d !! i = Some l -> lease_at d i = Done (data l).
Proof. intros E. unfold lease_at. by rewrite (get_Done _ _ _ E). Qed.
Lemma change_Done d i l f :
  lease_store d !! i = Some l -> change d i f = Done (set_store (<[i := set_data (f (data l)) l]> (lease_store d)) d).
Proof. intros E. unfold change. by rewrite (upd_Done _ _ _ _ E). Qed.
Lemma pool_at_Done d p pl : pools d !! p = Some pl -> pool_at d p = Done pl.
Proof. unfold pool_at. by intros ->. Qed.

Lemma change_ok Q U H B off d ids i l f :
  wf4 Q U H B off d ids -> lease_store d !! i = Some l -> parts (f (data l)) = parts (data l) ->
  exists d', change d i f = Done d' /\ wf4 Q U H B off d' ids /\ pools d' = pools d /\
    lease_store d' = <[i := set_data (f (data l)) l]> (lease_store d).
Proof.
  intros Hw E Hp. eexists. split; [by apply change_Done|]. split; [|done]. apply wf_upto; [done|]. by apply upto_change.
Qed.

(** ** Events

    Steps that leave the queues and the events of all leases alone. *)
Definition calm Q U H B off d d' ids : Prop :=
  wf4 Q U H B off d' ids /\ steady (lease_store d) (lease_store d') /\ pools d' = pools d.

Lemma calm_trans Q U H B off d1 d2 d3 ids :
  calm Q U H B off d1 d2 ids -> calm Q U H B off d2 d3 ids -> calm Q U H B off d1 d3 ids.
Proof. intros (_ & S1 & P1) (W2 & S2 & P2). split; [done|]. split; [by etransitivity|congruence]. Qed.
Lemma calm_refl Q U H B off d ids : wf4 Q U H B off d ids -> calm Q U H B off d d ids.
Proof. by split. Qed.
Lemma calm_lookup Q U H B off d d' ids i l :
  calm Q U H B off d d' ids -> lease_store d !! i = Some l ->
  exists l', lease_store d' !! i = Some l' /\ sort_time l' = sort_time l /\ vitals (data l') = vitals (data l).
Proof. intros (_ & [_ Hs] & _) E. by apply Hs. Qed.

Lemma calm_change Q U H B off d ids i l f :
  wf4 Q U H B off d ids -> lease_store d !! i = Some l ->
  parts (f (data l)) = parts (data l) -> vitals (f (data l)) = vitals (data l) ->
  exists d', change d i f = Done d' /\ calm Q U H B off d d' ids.
Proof.
  intros Hw E Hp Hv. destruct (change_ok Q U H B off d ids i l f Hw E Hp) as (d' & Ec & Hw' & Hps & Hs). exists d'.
  split; [done|]. split; [done|]. split; [|done]. rewrite Hs. apply upto_steady. by apply upto_change.
Qed.
Lemma calm_world Q U H B off d ids r :
  wf4 Q U H B off d ids -> kept (lease_store d) r.2 -> calm Q U H B off d (with_world d r) ids.
Proof. intros Hw Hk. destruct (with_world_ok Q U H B off d ids r Hw Hk). by split. Qed.

(** A class of the lease changes, and the billing with it. *)
Lemma wf_classes Q U H B B' off d ids cs i l c :
  wf4 Q U H B off d ids -> lease_store d !! i = Some l ->
  billing_ok B' cs (<[i := with_class c l]> (lease_store d)) ->
  wf4 Q U H B' off (set_classes cs (<[i := with_class c l]> (lease_store d)) d) ids.
Proof.
  intros Hw E Hb. assert (Hu : forall A (f : ldata -> A), (forall x, f (set_billing_class c x) = f x) ->
    upto f (lease_store d) (<[i := with_class c l]> (lease_store d))) by (intros A f Hf; by apply upto_change).
  split; simpl.
  - eapply queues_upto; [apply Hw|]. by apply Hu.
  - eapply (hash_ok_agree uid_link); [apply Hw|]. apply upto_agree. by apply Hu.
  - eapply (hash_ok_agree hw_link); [apply Hw|]. apply upto_agree. by apply Hu.
  - done.
  - rewrite (upto_size vitals (lease_store d)); [apply Hw|]. by apply Hu.
Qed.

Lemma db_unbill_ok Q U H B off d ids i :
  wf4 Q U H B off d ids -> i ∈ B -> is_Some (lease_store d !! i) ->
  exists d', db_unbill d i = Done d' /\ calm Q U H B off d d' ids /\
    (forall c cl, class_table d !! c = Some cl -> is_Some (class_table d' !! c)).
Proof.
  intros Hw Hi [l E]. destruct (unbill_class_ok B _ _ i l (wf_billing _ _ _ _ _ _ _ Hw) Hi E) as (cs' & Eu & Hb & _ & Hc).
  unfold db_unbill. rewrite Eu. dred. eexists. split; [done|]. split; [split; [by eapply wf_classes|split; [|done]]|done].
  apply upto_steady. by apply upto_change.
Qed.

Lemma forget_client_ok Q U H B off d ids i :
  wf4 Q U H B off d ids -> i ∈ B -> is_Some (lease_store d !! i) ->
  exists d', forget_client d i = Done d' /\ calm Q U H B off d d' ids.
Proof.
  intros Hw Hi [l E]. unfold forget_client. rewrite (lease_at_Done _ _ _ E). dred.
  assert (exists d1, (match billing_class (data l) with Some _ => db_unbill d i | None => Done d end) = Done d1 /\ calm Q U H B off d d1 ids)
    as (d1 & -> & C1).
  { destruct (billing_class (data l)); [|exists d; split; [done|by apply calm_refl]].
    destruct (db_unbill_ok Q U H B off d ids i Hw Hi) as (d1 & -> & C1 & _); eauto. }
  dred. destruct (calm_lookup _ _ _ _ _ _ _ _ _ _ C1 E) as (l1 & E1 & _).
  match goal with |- context [change d1 i ?f] => destruct (calm_change Q U H B off d1 ids i l1 f (proj1 C1) E1 eq_refl eq_refl) as (d2 & E2 & C2) end.
  exists d2. split; [exact E2|]. by eapply calm_trans.
Qed.

(** Run a statement of the lease, if there is one, and drop it. *)
Lemma run_ok Q U H B off d ids i (st : option nat) f :
  wf4 Q U H B off d ids -> is_Some (lease_store d !! i) ->
  (forall l, parts (f l) = parts l /\ vitals (f l) = vitals l) ->
  exists d', (match st with
              | Some st => change (with_world d (execute_statements (world d) (lease_store d) i st)) i f
              | None => Done d end) = Done d' /\ calm Q U H B off d d' ids.
Proof.
  intros Hw [l E] Hf. destruct st as [st|]; [|exists d; split; [done|by apply calm_refl]].
  set (r := execute_statements (world d) (lease_store d) i st). pose proof (calm_world _ _ _ _ _ _ _ r Hw (execute_kept _ _ _ _)) as C1.
  destruct (calm_lookup _ _ _ _ _ _ _ _ _ _ C1 E) as (l1 & E1 & _). destruct (Hf (data l1)) as [F1 F2].
  destruct (calm_change Q U H B off _ ids i l1 f (proj1 C1) E1 F1 F2) as (d2 & E2 & C2).
  exists d2. split; [exact E2|]. by eapply calm_trans.
Qed.

Lemma calm_some Q U H B off d d' ids i : calm Q U H B off d d' ids -> is_Some (lease_store d !! i) -> is_Some (lease_store d' !! i).
Proof. intros C [l E]. destruct (calm_lookup _ _ _ _ _ _ _ _ _ _ C E) as (l' & E' & _). eauto. Qed.

Lemma expiry_event_ok Q U H B off d ids i :
  wf4 Q U H B off d ids -> i ∈ B -> is_Some (lease_store d !! i) ->
  exists d', expiry_event d i = Done d' /\ calm Q U H B off d d' ids.
Proof.
  intros Hw Hi Hl. unfold expiry_event. set (r := ddns_removals _ _ _ _).
  pose proof (calm_world _ _ _ _ _ _ _ r Hw (ddns_kept _ _ _ _)) as C1. destruct (calm_some _ _ _ _ _ _ _ _ _ C1 Hl) as [l1 E1].
  cbv zeta. rewrite (lease_at_Done _ _ _ E1). dred.
  destruct (run_ok _ _ _ _ _ _ _ i (on_expiry (data l1)) (set_on_expiry None) (proj1 C1)) as (d2 & -> & C2); [eauto|done|]. dred.
  destruct (calm_some _ _ _ _ _ _ _ _ _ C2 (ex_intro _ _ E1)) as [l2 E2].
  destruct (calm_change _ _ _ _ _ _ _ i l2 (set_on_release None) (proj1 C2) E2 eq_refl eq_refl) as (d3 & -> & C3). dred.
  destruct (forget_client_ok _ _ _ _ _ _ _ i (proj1 C3) Hi (calm_some _ _ _ _ _ _ _ _ _ C3 (ex_intro _ _ E2))) as (d4 & -> & C4).
  exists d4. split; [done|]. eapply calm_trans; [exact C1|]. eapply calm_trans; [exact C2|]. by eapply calm_trans.
Qed.

Lemma release_event_ok Q U H B off d ids i :
  wf4 Q U H B off d ids -> i ∈ B -> is_Some (lease_store d !! i) ->
  exists d', release_event d i = Done d' /\ calm Q U H B off d d' ids.
Proof.
  intros Hw Hi Hl. unfold release_event. set (r := ddns_removals _ _ _ _).
  pose proof (calm_world _ _ _ _ _ _ _ r Hw (ddns_kept _ _ _ _)) as C1. destruct (calm_some _ _ _ _ _ _ _ _ _ C1 Hl) as [l1 E1].
  cbv zeta. rewrite (lease_at_Done _ _ _ E1). dred.
  destruct (run_ok _ _ _ _ _ _ _ i (on_release (data l1)) (set_on_release None) (proj1 C1)) as (d2 & -> & C2); [eauto|done|]. dred.
  destruct (calm_some _ _ _ _ _ _ _ _ _ C2 (ex_intro _ _ E1)) as [l2 E2].
  destruct (calm_change _ _ _ _ _ _ _ i l2 (set_on_expiry None) (proj1 C2) E2 eq_refl eq_refl) as (d3 & -> & C3). dred.
  destruct (forget_client_ok _ _ _ _ _ _ _ i (proj1 C3) Hi (calm_some _ _ _ _ _ _ _ _ _ C3 (ex_intro _ _ E2))) as (d4 & -> & C4).
  exists d4. split; [done|]. eapply calm_trans; [exact C1|]. eapply calm_trans; [exact C2|]. by eapply calm_trans.
Qed.

(** ** State transitions and queues *)
Lemma peer_of_ok Q U H B off d ids i l :
  wf4 Q U H B off d ids -> lease_store d !! i = Some l -> exists pr, peer_of d (data l) = Done pr /\
    forall p pl, pool (data l) = Some p -> pools d !! p = Some pl -> pr = failover_peer pl.
Proof.
  intros Hw E. unfold peer_of. destruct (pool (data l)) as [p|] eqn:Hp; [|by exists None].
  destruct (qo_pool _ _ _ _ _ (wf_queues _ _ _ _ _ _ _ Hw) i l p E Hp) as [pl Ep]. rewrite (pool_at_Done _ _ _ Ep). dred.
  exists (failover_peer pl). split; [done|]. intros p' pl' [= <-] Ep'. congruence.
Qed.

(** What a lease looks like after it has entered its next state. *)
Definition entered (pr : option peer) (x x' : ldata) : Prop :=
  binding_state x' = next_binding_state x /\ next_binding_state x' = following pr (next_binding_state x) /\
  pool x' = pool x /\ ends x' = ends x /\ has_flag x' RESERVED_LEASE = has_flag x RESERVED_LEASE /\
  uid_key x' = uid_key x /\ hardware_addr x' = hardware_addr x.

Lemma enter_state_parts pr x :
  (uid_key (enter_state pr x), n_uid (enter_state pr x), (hardware_addr (enter_state pr x), n_hw (enter_state pr x)), billing_class (enter_state pr x))
  = (uid_key x, n_uid x, (hardware_addr x, n_hw x), billing_class x) /\ entered pr x (enter_state pr x).
Proof.
  unfold enter_state, entered. destruct ((_ || _ || _ || _)); [destruct pr as [p|]; [destruct (decide (me_state p = partner_down))|]|]; done.
Qed.

(** Changing the data of a lease that is on no queue. *)
Lemma wf_outside Q U H B off d ids i l x :
  wf4 Q U H B off d ids -> i ∉ Q -> lease_store d !! i = Some l -> pool x = pool (data l) ->
  (uid_key x, n_uid x, (hardware_addr x, n_hw x), billing_class x) =
  (uid_key (data l), n_uid (data l), (hardware_addr (data l), n_hw (data l)), billing_class (data l)) ->
  wf4 Q U H B off (set_store (<[i := set_data x l]> (lease_store d)) d) ids.
Proof.
  intros Hw Hi E Hp Hx. apply wf_agree; [done|..].
  - by apply queues_outside; [apply Hw|..].
  - apply upto_agree. by apply upto_change.
Qed.

Lemma transition_ok Q U H B off d ids i l :
  wf4 Q U H B off d ids -> i ∉ Q -> i ∈ B -> lease_store d !! i = Some l ->
  exists d' l' pr, make_binding_state_transition d i = Done d' /\ wf4 Q U H B off d' ids /\ steady_but i (lease_store d) (lease_store d') /\
    pools d' = pools d /\ lease_store d' !! i = Some l' /\ entered pr (data l) (data l') /\
    (forall p pl, pool (data l) = Some p -> pools d !! p = Some pl -> pr = failover_peer pl).
Proof.
  intros Hw Hi HB E. unfold make_binding_state_transition. rewrite (lease_at_Done _ _ _ E). dred.
  destruct (peer_of_ok _ _ _ _ _ _ _ i l Hw E) as (pr & -> & Hpr). dred.
  assert (exists d1, (if expires pr (data l) then expiry_event d i else Done d) = Done d1 /\ calm Q U H B off d d1 ids) as (d1 & -> & C1).
  { destruct (expires pr (data l)); [|exists d; split; [done|by apply calm_refl]]. apply expiry_event_ok; eauto. }
  dred. destruct (calm_lookup _ _ _ _ _ _ _ _ _ _ C1 E) as (l1 & E1 & _ & V1). rewrite (lease_at_Done _ _ _ E1). dred.
  assert (exists d2, (if is_released pr (data l1) then release_event d1 i else Done d1) = Done d2 /\ calm Q U H B off d1 d2 ids) as (d2 & -> & C2).
  { destruct (is_released pr (data l1)); [|exists d1; split; [done|by apply calm_refl, C1]]. apply release_event_ok; [apply C1|eauto..]. }
  dred. destruct (calm_lookup _ _ _ _ _ _ _ _ _ _ C2 E1) as (l2 & E2 & _ & V2). rewrite (change_Done _ _ _ _ E2).
  destruct (enter_state_parts pr (data l2)) as [Hx (N1 & N2 & N3 & N4 & N5 & N6 & N7)].
  eexists _, (set_data (enter_state pr (data l2)) l2), pr. split; [done|]. split; [|split; [|split; [|split; [|split]]]].
  - apply wf_outside; [apply C2|done..].
  - eapply steady_but_trans; [apply steady_any, (calm_trans _ _ _ _ _ _ _ _ _ C1 C2)|]. by eapply insert_steady_but.
  - simpl. apply (calm_trans _ _ _ _ _ _ _ _ _ C1 C2).
  - apply lookup_insert_eq.
  - unfold vitals in V1, V2. unfold entered. cbn [data set_data]. rewrite N1, N2, N3, N4, N5, N6, N7. repeat split; congruence.
  - done.
Qed.

Lemma queue_of_state (x : ldata) : 1 <= binding_state x <= 7 -> is_Some (queue_of x).
Proof.
  intros Hb. unfold queue_of, FTS_FREE, FTS_ACTIVE, FTS_EXPIRED, FTS_RELEASED, FTS_RESET, FTS_ABANDONED, FTS_BACKUP.
  destruct (Z.eqb_spec (binding_state x) 1), (Z.eqb_spec (binding_state x) 2), (Z.eqb_spec (binding_state x) 3),
    (Z.eqb_spec (binding_state x) 4), (Z.eqb_spec (binding_state x) 5), (Z.eqb_spec (binding_state x) 6), (Z.eqb_spec (binding_state x) 7);
    simpl; eauto; lia.
Qed.

Lemma peers_insert d p pl pl' : pools d !! p = Some pl -> failover_peer pl' = failover_peer pl ->
  same_peers d (put_pool d p pl').
Proof.
  intros E Hp p' pl0 E'. simpl. destruct (decide (p = p')) as [<-|N].
  - exists pl'. rewrite lookup_insert_eq. split; [done|]. congruence.
  - exists pl0. by rewrite lookup_insert_ne.
Qed.

Definition startup_ok (follow : bool) d ids : Prop := forall p k, insert_ok follow (statics d) (qid p k) (ids p k).

Lemma qid_inj p k p' k' : qid p k = qid p' k' -> p = p' /\ k = k'.
Proof.
  unfold qid. intros E. assert (kind_index k < 6)%nat by (destruct k; simpl; lia). assert (kind_index k' < 6)%nat by (destruct k'; simpl; lia).
  assert (p = p') as -> by lia. split; [done|]. assert (Ek : kind_index k = kind_index k') by lia. by destruct k, k'.
Qed.

Lemma lease_enqueue_ok follow Q U H B off d ids i l p k :
  wf4 Q U H B off d ids -> startup_ok follow d ids -> i ∉ Q -> lease_store d !! i = Some l -> pool (data l) = Some p -> queue_of (data l) = Some k ->
  exists d' l' a b pl, lease_enqueue follow d i = Done (true, d') /\ ids p k = a ++ b /\
    wf4 (Q ∪ {[i]}) U H B off d' (set_ids ids p k (a ++ i :: b)) /\ startup_ok follow d' (set_ids ids p k (a ++ i :: b)) /\
    steady_but i (lease_store d) (lease_store d') /\ same_peers d d' /\
    lease_store d' !! i = Some l' /\ data l' = data l /\ pools d !! p = Some pl /\ sort_time l' = next_event pl (data l) /\
    class_table d' = class_table d.
Proof.
  intros Hw Hg Hi E Hp Hk. unfold lease_enqueue. rewrite (get_Done _ _ _ E). dred. rewrite Hp, Hk.
  destruct (qo_pool _ _ _ _ _ (wf_queues _ _ _ _ _ _ _ Hw) i l p E Hp) as [pl Ep]. rewrite (pool_at_Done _ _ _ Ep). dred.
  destruct (queues_insert Q off (lease_store d) (pools d) ids p pl k i l (next_event pl (data l)) follow (statics d) (wf_queues _ _ _ _ _ _ _ Hw) Hi E Ep Hp Hk (Hg p k))
    as (g' & s' & q' & a & b & Ei & Ea & Hq & Ho & Hg1 & Hg2); [apply Hw|].
  unfold insert_lease. cbv zeta. rewrite (pool_at_Done _ _ (count_lease k 1 pl)) by (simpl; apply lookup_insert_eq). dred.
  rewrite lptr_count. simpl lease_store. simpl statics. rewrite Ei. dred. simpl.
  set (s1 := <[i := set_sort_time (next_event pl (data l)) l]> (lease_store d)) in *.
  assert (E1 : s1 !! i = Some (set_sort_time (next_event pl (data l)) l)) by apply lookup_insert_eq.
  destruct (proj2 Ho i _ E1) as (l' & E' & T' & D').
  assert (Hs1 : Forall (fun j => is_Some (s1 !! j)) (i :: ids p k)).
  { constructor; [eauto|]. apply Forall_forall. intros j Hj. destruct (decide (i = j)) as [<-|N]; [eauto|]. unfold s1. rewrite lookup_insert_ne by done.
    destruct (qo_in _ _ _ _ _ (wf_queues _ _ _ _ _ _ _ Hw) p k j Hj) as (_ & lj & Ej & _). eauto. }
  assert (A1 : agree id (lease_store d) s').
  { eapply agree_trans; [|by apply (agree_links id s1 s' _ Ho Hs1)]. split; [by apply dom_insert_lookup_L|]. intros j lj Ej. unfold s1.
    destruct (decide (i = j)) as [<-|N]; [rewrite lookup_insert_eq|rewrite lookup_insert_ne by done; eauto]. eexists. split; [done|]. simpl. congruence. }
  eexists _, l', a, b, pl. split; [done|]. split; [done|]. rewrite insert_insert_eq. split; [|split; [|split; [|split; [|split; [|split; [|split; [|split]]]]]]]; try done.
  - split; simpl; [done|..].
    + eapply (hash_ok_agree uid_link); [apply Hw|]. eapply agree_weaken; [|exact A1]. by intros x y [= ->].
    + eapply (hash_ok_agree hw_link); [apply Hw|]. eapply agree_weaken; [|exact A1]. by intros x y [= ->].
    + eapply billing_ok_agree; [apply Hw|]. eapply agree_weaken; [|exact A1]. by intros x y [= ->].
    + rewrite (agree_size _ _ _ A1). apply Hw.
  - intros p' k'. simpl. destruct (decide (p' = p /\ k' = k)) as [[-> ->]|N]; [by rewrite set_ids_same|]. rewrite set_ids_other by done.
    apply Hg2. intros Eq. apply N. apply qid_inj in Eq as [? ?]. done.
  - eapply steady_but_trans; [by eapply insert_steady_but|]. apply steady_any. simpl. by eapply links_steady.
  - apply (peers_insert d p pl); [done|]. by destruct k.
Qed.

Lemma remove_lease_ok Q U H B off d ids i l p pl k :
  wf4 Q U H B off d ids -> i ∈ Q -> lease_store d !! i = Some l -> pool (data l) = Some p -> queue_of (data l) = Some k -> pools d !! p = Some pl ->
  exists d' l' a b, remove_lease (put_pool d p (count_lease k (-1) pl)) p k i = Done d' /\ ids p k = a ++ i :: b /\
    wf4 (Q ∖ {[i]}) U H B off d' (set_ids ids p k (a ++ b)) /\ steady (lease_store d) (lease_store d') /\ same_peers d d' /\
    lease_store d' !! i = Some l' /\ data l' = data l.
Proof.
  intros Hw Hi E Hp Hk Ep. pose proof (wf_queues _ _ _ _ _ _ _ Hw) as Hq.
  destruct (qo_all _ _ _ _ _ Hq i Hi) as (l0 & p0 & pl0 & k0 & E0 & Hp0 & Ep0 & Hk0 & Hin).
  replace l0 with l in * by congruence. replace p0 with p in * by congruence. replace k0 with k in * by congruence.
  apply list_elem_of_split in Hin as (a & b & Ea). destruct (queues_remove Q off _ _ ids p pl k i a b Hq Ep Ea) as (s' & q' & Er & Hq' & Ho & Hd).
  unfold remove_lease. rewrite (pool_at_Done _ _ (count_lease k (-1) pl)) by (simpl; apply lookup_insert_eq). dred.
  rewrite lptr_count. simpl lease_store. rewrite Er. dred. destruct (proj2 Ho i l E) as (l' & E' & _ & D').
  pose proof (queues_some _ _ _ _ _ p k Hq) as Hs. rewrite Ea in Hs. pose proof (agree_links id _ _ _ Ho Hs) as A1.
  eexists _, l', a, b. split; [done|]. split; [done|]. unfold put_pool. simpl. rewrite insert_insert_eq. split; [|split; [|split; [|done]]].
  - split; simpl; [done|..].
    + eapply (hash_ok_agree uid_link); [apply Hw|]. eapply agree_weaken; [|exact A1]. by intros x y [= ->].
    + eapply (hash_ok_agree hw_link); [apply Hw|]. eapply agree_weaken; [|exact A1]. by intros x y [= ->].
    + eapply billing_ok_agree; [apply Hw|]. eapply agree_weaken; [|exact A1]. by intros x y [= ->].
    + rewrite (agree_size _ _ _ A1). apply Hw.
  - by eapply links_steady.
  - apply (peers_insert d p pl); [done|]. by destruct k.
Qed.

(** ** The end of a move *)
Definition quiet Q U H B off d d' ids : Prop :=
  wf4 Q U H B off d' ids /\ steady (lease_store d) (lease_store d') /\ same_peers d d'.

Lemma quiet_trans Q U H B off d1 d2 d3 ids :
  quiet Q U H B off d1 d2 ids -> quiet Q U H B off d2 d3 ids -> quiet Q U H B off d1 d3 ids.
Proof. intros (_ & S1 & P1) (W2 & S2 & P2). split; [done|]. split; by etransitivity. Qed.
Lemma calm_quiet Q U H B off d d' ids : calm Q U H B off d d' ids -> quiet Q U H B off d d' ids.
Proof. intros (Hw & S & P). split; [done|]. split; [done|]. intros p pl E. rewrite P. eauto. Qed.
Lemma quiet_refl Q U H B off d ids : wf4 Q U H B off d ids -> quiet Q U H B off d d ids.
Proof. intros Hw. by apply calm_quiet, calm_refl. Qed.
Lemma quiet_lookup Q U H B off d d' ids i l :
  quiet Q U H B off d d' ids -> lease_store d !! i = Some l ->
  exists l', lease_store d' !! i = Some l' /\ sort_time l' = sort_time l /\ vitals (data l') = vitals (data l).
Proof. intros (_ & [_ Hs] & _) E. by apply Hs. Qed.

Lemma wf_pool Q U H B off d ids p pl t :
  wf4 Q U H B off d ids -> pools d !! p = Some pl -> wf4 Q U H B off (put_pool d p (set_next_event t pl)) ids.
Proof. intros [W1 W2 W3 W4 W5] Ep. split; simpl; try done. eapply queues_pool; [done..|by intros []|done|done]. Qed.
Lemma quiet_timer Q U H B off d ids p pl t :
  wf4 Q U H B off d ids -> pools d !! p = Some pl -> quiet Q U H B off d (add_timeout (put_pool d p (set_next_event t pl)) p t) ids.
Proof.
  intros Hw Ep. destruct (wf_pool _ _ _ _ _ _ _ _ _ t Hw Ep) as [W1 W2 W3 W4 W5]. split; [by split|]. split; [done|].
  by apply (peers_insert d p pl).
Qed.

Lemma arm_timer_ok cur_time Q U H B off d ids i p :
  wf4 Q U H B off d ids -> is_Some (lease_store d !! i) -> is_Some (pools d !! p) ->
  exists d', arm_timer cur_time d i p = Done d' /\ quiet Q U H B off d d' ids.
Proof.
  intros Hw [l E] [pl Ep]. unfold arm_timer. rewrite (get_Done _ _ _ E). dred. rewrite (pool_at_Done _ _ _ Ep). dred.
  destruct (_ && _ && _); eexists; (split; [done|]); [by apply quiet_timer|by apply quiet_refl].
Qed.

Lemma set_world_quiet Q U H B off d ids w : wf4 Q U H B off d ids -> quiet Q U H B off d (set_world w d) ids.
Proof. intros [W1 W2 W3 W4 W5]. split; [by split|]. split; [done|]. intros p pl E. eauto. Qed.

Lemma commit_lease_ok nosync Q U H B off d ids i p propogate :
  wf4 Q U H B off d ids -> is_Some (lease_store d !! i) -> is_Some (pools d !! p) ->
  exists ok d', commit_lease nosync d i p propogate = Done (ok, d') /\ quiet Q U H B off d d' ids.
Proof.
  intros Hw [l E] [pl Ep]. unfold commit_lease. rewrite (pool_at_Done _ _ _ Ep). dred.
  match goal with |- context [if ?c then change d i ?f else _] => assert (exists d1, (if c then change d i f else Done d) = Done d1 /\ quiet Q U H B off d d1 ids)
    as (d1 & -> & Q1) end.
  { destruct (_ && _); [|exists d; split; [done|by apply quiet_refl]].
    destruct (calm_change Q U H B off d ids i l (fun l => set_rewind_binding_state (binding_state l) l) Hw E eq_refl eq_refl) as (d1 & -> & C1).
    exists d1. split; [done|]. by apply calm_quiet. }
  dred. destruct (quiet_lookup _ _ _ _ _ _ _ _ _ _ Q1 E) as (l1 & E1 & _). rewrite (lease_at_Done _ _ _ E1). dred.
  destruct (write_lease (world d1) i (data l1)) as [ok1 w1]. pose proof (set_world_quiet _ _ _ _ _ _ _ w1 (proj1 Q1)) as Q2.
  destruct (negb ok1); [eexists _, _; split; [done|by eapply quiet_trans]|]. destruct nosync; [eexists _, _; split; [done|by eapply quiet_trans]|].
  destruct (commit_leases _) as [ok2 w2]. eexists _, _. split; [done|]. eapply quiet_trans; [exact Q1|]. eapply quiet_trans; [exact Q2|].
  apply set_world_quiet, Q2.
Qed.

Lemma queue_update_ok Q U H B off d ids i imm :
  wf4 Q U H B off d ids -> is_Some (lease_store d !! i) ->
  exists d', failover_queue_update d i imm = Done (true, d') /\ calm Q U H B off d d' ids.
Proof.
  intros Hw [l E]. unfold failover_queue_update. rewrite (lease_at_Done _ _ _ E). dred.
  destruct (peer_of_ok _ _ _ _ _ _ _ i l Hw E) as (pr & -> & _). dred. destruct pr; [|exists d; split; [done|by apply calm_refl]].
  destruct (has_flag _ _); [exists d; split; [done|by apply calm_refl]|]. eexists. split; [done|]. apply calm_world; [done|]. apply queue_kept.
Qed.

Lemma propagate_lease_ok Q U H B off d ids i imm :
  wf4 Q U H B off d ids -> is_Some (lease_store d !! i) ->
  exists d', propagate_lease d i imm = Done (true, d') /\ calm Q U H B off d d' ids.
Proof.
  intros Hw [l E]. unfold propagate_lease.
  destruct (calm_change Q U H B off d ids i l (fun l => set_desired_binding_state (binding_state l) l) Hw E eq_refl eq_refl) as (d1 & -> & C1). dred.
  destruct (queue_update_ok Q U H B off d1 ids i imm (proj1 C1)) as (d2 & E2 & C2); [by eapply calm_some|].
  exists d2. split; [done|]. by eapply calm_trans.
Qed.

Section moves.
Context (cur_time : Z) (nosync : bool).

Lemma finish_move_ok Q U H B off d ids i p chk commit propogate pimm :
  wf4 Q U H B off d ids -> is_Some (lease_store d !! i) -> is_Some (pools d !! p) ->
  exists ok d', finish_move cur_time nosync d i p chk commit propogate pimm = Done (ok, d') /\ quiet Q U H B off d d' ids.
Proof.
  intros Hw Hl Hp. unfold finish_move.
  assert (Hsome : forall d', quiet Q U H B off d d' ids -> is_Some (lease_store d' !! i) /\ is_Some (pools d' !! p)).
  { intros d' C. destruct Hl as [l E], Hp as [pl Ep]. destruct (quiet_lookup _ _ _ _ _ _ _ _ _ _ C E) as (l' & E' & _).
    destruct (proj2 (proj2 C) p pl Ep) as (pl' & Ep' & _). eauto. }
  assert (exists d1, (if commit || negb pimm then arm_timer cur_time d i p else Done d) = Done d1 /\ quiet Q U H B off d d1 ids) as (d1 & -> & C1).
  { destruct (_ || _); [by apply arm_timer_ok|]. exists d. split; [done|by apply quiet_refl]. }
  dred. destruct (Hsome d1 C1) as [Hl1 Hp1].
  assert (exists ok d2, (if commit then commit_lease nosync d1 i p propogate else Done (true, d1)) = Done (ok, d2) /\ quiet Q U H B off d1 d2 ids) as (ok & d2 & -> & C2).
  { destruct commit; [by apply commit_lease_ok; [apply C1|..]|]. exists true, d1. split; [done|by apply quiet_refl, C1]. }
  dred. pose proof (quiet_trans _ _ _ _ _ _ _ _ _ C1 C2) as C12. destruct (negb ok); [by exists false, d2|].
  destruct (Hsome d2 C12) as [Hl2 Hp2].
  assert (exists d3, (if propogate then propagate_lease d2 i pimm else Done (true, d2)) = Done (true, d3) /\ quiet Q U H B off d2 d3 ids) as (d3 & -> & C3).
  { destruct propogate; [|exists d2; split; [done|by apply quiet_refl, C2]]. destruct (propagate_lease_ok Q U H B off d2 ids i pimm (proj1 C2) Hl2) as (d3 & -> & C3).
    exists d3. split; [done|]. by apply calm_quiet. }
  dred. simpl. pose proof (quiet_trans _ _ _ _ _ _ _ _ _ C12 C3) as C13. destruct (Hsome d3 C13) as [_ [pl Ep]]. rewrite (pool_at_Done _ _ _ Ep). dred.
  eexists true, _. split; [done|]. eapply quiet_trans; [exact C13|]. destruct (failover_peer pl); [destruct chk; [apply set_world_quiet, C3|]|]; apply quiet_refl, C3.
Qed.

(** Lease [i] has gone from queue [k] to queue [k'] of its pool. *)
Definition relocated (i p : nat) (k k' : qkind) ids ids' : Prop :=
  exists a b a' b', ids p k = a ++ i :: b /\ set_ids ids p k (a ++ b) p k' = a' ++ b' /\
    ids' = set_ids (set_ids ids p k (a ++ b)) p k' (a' ++ i :: b').

Definition reserved_by (nf : option Z) (x : ldata) : bool :=
  match nf with Some f => negb (Z.land f RESERVED_LEASE =? 0) | None => has_flag x RESERVED_LEASE end.

(** What a lease is after it has been moved. *)
Record arrived (pl : pool_t queue) (nf : option Z) (x : ldata) (l' : lease ldata) : Prop := {
  ar_state : binding_state (data l') = next_binding_state x;
  ar_next : next_binding_state (data l') = following (failover_peer pl) (next_binding_state x);
  ar_ends : ends (data l') = ends x;
  ar_pool : pool (data l') = pool x;
  ar_uid : uid_key (data l') = uid_key x;
  ar_hw : hardware_addr (data l') = hardware_addr x;
  ar_reserved : has_flag (data l') RESERVED_LEASE = reserved_by nf x;
  ar_time : sort_time l' = next_event pl (data l') }.

Lemma next_event_same (pl pl' : pool_t queue) x x' :
  failover_peer pl' = failover_peer pl -> binding_state x' = binding_state x -> ends x' = ends x -> tsfp x' = tsfp x ->
  next_event pl' x' = next_event pl x.
Proof. intros P B E T. unfold next_event, in_partner_down. by rewrite P, B, E, T. Qed.

Lemma flags_reserved f g :
  negb (Z.land (Z.lor (Z.ldiff f PERSISTENT_FLAGS) (Z.ldiff g EPHEMERAL_FLAGS)) RESERVED_LEASE =? 0) = negb (Z.land f RESERVED_LEASE =? 0).
Proof.
  do 2 f_equal. apply Z.bits_inj'. intros n Hn. unfold RESERVED_LEASE. change 4 with (2 ^ 2). rewrite !Z.land_spec, Z.lor_spec, !Z.ldiff_spec.
  rewrite Z.pow2_bits_eqb by lia. destruct (Z.eqb_spec 2 n) as [<-|N]; [|by rewrite !andb_false_r].
  unfold PERSISTENT_FLAGS, EPHEMERAL_FLAGS. simpl. by rewrite !andb_true_r, andb_false_r, orb_false_r.
Qed.

(** Before the lease leaves its queue, and the flags it gets then. *)
Lemma clear_atsfp_ok L off d ids i l (propogate : bool) : wf4 L L L L off d ids -> lease_store d !! i = Some l ->
  exists d1, (if propogate then change d i (set_atsfp 0) else Done d) = Done d1 /\ calm L L L L off d d1 ids.
Proof.
  intros Hw E. destruct propogate; [|exists d; split; [done|by apply calm_refl]]. by apply (calm_change L L L L off d ids i l).
Qed.

Lemma new_flags_ok L off d ids i l nf : wf4 (L ∖ {[i]}) L L L off d ids -> i ∉ L ∖ {[i]} -> lease_store d !! i = Some l ->
  exists d' l', (match nf with Some f => change d i (fun l => set_flags (Z.lor (Z.ldiff f PERSISTENT_FLAGS) (Z.ldiff (flags l) EPHEMERAL_FLAGS)) l) | None => Done d end) = Done d' /\
    wf4 (L ∖ {[i]}) L L L off d' ids /\ steady_but i (lease_store d) (lease_store d') /\ pools d' = pools d /\ lease_store d' !! i = Some l' /\
    next_binding_state (data l') = next_binding_state (data l) /\ pool (data l') = pool (data l) /\ ends (data l') = ends (data l) /\
    uid_key (data l') = uid_key (data l) /\ hardware_addr (data l') = hardware_addr (data l) /\
    has_flag (data l') RESERVED_LEASE = reserved_by nf (data l).
Proof.
  intros Hw Ni E. destruct nf as [f|]; [|exists d, l; split_and!; [done..| |done|done|done|done|done|done|done|done]; by apply steady_any].
  rewrite (change_Done _ _ _ _ E). eexists _, _. split; [done|]. split; [by apply wf_outside|]. split; [by eapply insert_steady_but|].
  split; [done|]. split; [apply lookup_insert_eq|]. do 5 (split; [done|]). apply flags_reserved.
Qed.

Lemma move_lease_ok L off d ids i l nf commit propogate pimm :
  wf4 L L L L off d ids -> i ∈ L -> lease_store d !! i = Some l -> 1 <= next_binding_state (data l) <= 7 -> commit || negb pimm = true ->
  exists ok d' ids' l' p pl k k', move_lease cur_time nosync d i nf commit propogate pimm = Done (ok, d') /\ wf4 L L L L off d' ids' /\
    steady_but i (lease_store d) (lease_store d') /\ same_peers d d' /\ pools d !! p = Some pl /\ pool (data l) = Some p /\
    lease_store d' !! i = Some l' /\ arrived pl nf (data l) l' /\
    queue_of (data l) = Some k /\ queue_of (data l') = Some k' /\ relocated i p k k' ids ids'.
Proof.
  intros Hw Hi E Hn Hc. unfold move_lease.
  destruct (clear_atsfp_ok L off d ids i l propogate Hw E) as (d1 & -> & C1).
  dred. destruct (calm_lookup _ _ _ _ _ _ _ _ _ _ C1 E) as (l1 & E1 & T1 & V1). rewrite (lease_at_Done _ _ _ E1). dred.
  destruct (qo_all _ _ _ _ _ (wf_queues _ _ _ _ _ _ _ (proj1 C1)) i Hi) as (l1' & p & pl & k & E1' & Hp & Ep & Hk & _).
  replace l1' with l1 in * by congruence. clear E1'. rewrite Hp, Hk, (pool_at_Done _ _ _ Ep). dred.
  destruct (remove_lease_ok _ _ _ _ _ _ _ i l1 p pl k (proj1 C1) Hi E1 Hp Hk Ep) as (d2 & l2 & a & b & -> & Ea & W2 & S2 & P2 & E2 & D2). dred.
  set (ids2 := set_ids ids p k (a ++ b)) in *.
  assert (Ni : i ∉ L ∖ {[i]}) by (rewrite elem_of_difference, elem_of_singleton; by intros [_ []]).
  destruct (new_flags_ok L off d2 ids2 i l2 nf W2 Ni E2) as (d3 & l3 & -> & W3 & S3 & P3 & E3 & N3 & Hp3 & Hd3 & U3 & HW3 & F3).
  dred. rewrite Hc. destruct (transition_ok _ _ _ _ _ _ _ i l3 W3 Ni Hi E3) as (d4 & l4 & pr & -> & W4 & S4 & P4 & E4 & (A1 & A2 & A3 & A4 & A5 & A6 & A7) & Hpr). dred.
  assert (Hst : 1 <= binding_state (data l4) <= 7) by (unfold vitals in V1; rewrite A1, N3, D2; replace (next_binding_state (data l1)) with (next_binding_state (data l)) by congruence; done).
  destruct (queue_of_state (data l4) Hst) as [k' Hk'].
  destruct (lease_enqueue_ok false _ _ _ _ _ d4 ids2 i l4 p k' W4 (fun _ _ => insert_ok_later _ _ _) Ni E4) as (d5 & l5 & a' & b' & pl4 & -> & Ea' & W5 & _ & S5 & P5 & E5 & D5 & Ep4 & T5 & _); [congruence|done|]. dred. simpl.
  replace (L ∖ {[i]} ∪ {[i]}) with L in W5 by (apply set_eq; intros j; rewrite elem_of_union, elem_of_difference, elem_of_singleton; destruct (decide (j = i)) as [->|]; tauto).
  destruct (P2 p pl ltac:(done)) as (pl2 & Ep2 & Pp2). assert (pl4 = pl2) as -> by congruence.
  destruct (P5 p pl2 Ep4) as (pl5 & Ep5 & Pp5).
  destruct (finish_move_ok _ _ _ _ _ _ _ i p (free_or_backup (binding_state (data l1))) commit propogate pimm W5 (ex_intro _ _ E5) (ex_intro _ _ Ep5)) as (ok & d6 & -> & C6).
  destruct (quiet_lookup _ _ _ _ _ _ _ _ _ _ C6 E5) as (l6 & E6 & T6 & V6). destruct C6 as (W6 & S6 & P6).
  assert (Ep0 : pools d !! p = Some pl) by (destruct C1 as (_ & _ & Pc); congruence).
  eexists ok, d6, _, l6, p, pl, k, k'. split; [done|]. split; [exact W6|]. split; [|split; [|split; [|split; [|split; [|split; [|split; [|split]]]]]]].
  - eapply steady_but_trans; [apply steady_any, C1|]. eapply steady_but_trans; [apply steady_any, S2|]. eapply steady_but_trans; [exact S3|].
    eapply steady_but_trans; [exact S4|]. eapply steady_but_trans; [exact S5|]. by apply steady_any.
  - etransitivity; [by apply (calm_quiet _ _ _ _ _ _ _ _ C1)|]. etransitivity; [exact P2|]. etransitivity; [|etransitivity; [exact P5|exact P6]].
    intros q plq Eq. exists plq. split; [congruence|done].
  - done.
  - unfold vitals in V1. congruence.
  - done.
  - unfold vitals in V1, V6. assert (pr = failover_peer pl) as -> by (rewrite (Hpr p pl2); congruence).
    assert (R1 : reserved_by nf (data l2) = reserved_by nf (data l)) by (unfold reserved_by; destruct nf; congruence).
    split; [congruence|congruence|congruence|congruence|congruence|congruence|congruence|].
    rewrite T6, T5. apply next_event_same; congruence.
  - unfold vitals in V1. unfold queue_of in *. replace (binding_state (data l)) with (binding_state (data l1)) by congruence.
    by replace (has_flag (data l) RESERVED_LEASE) with (has_flag (data l1) RESERVED_LEASE) by congruence.
  - unfold vitals in V6. unfold queue_of in *. replace (binding_state (data l6)) with (binding_state (data l4)) by congruence.
    by replace (has_flag (data l6) RESERVED_LEASE) with (has_flag (data l4) RESERVED_LEASE) by congruence.
  - by exists a, b, a', b'.
Qed.
End moves.
End ok.
