(* ===== verification/LeaseTimer.v ===== *)
(** * Expiry (server/mdb.c: pool_timer)

    The timer of a pool terminates, keeps the invariant of the database, does
    not touch leases that are not due, and in a pool without failover peer
    leaves no lease whose time has come in a state it should have left. *)

From stdpp Require Import base tactics numbers gmap list relations.
From S2P Require Import Prelude Lease LeaseHash Billing LeaseDb LeaseDbInv LeaseDbOk.

#[local] Open Scope Z_scope.

(** How many more states a lease in state [b] with next state [n] will enter. *)
Definition steps (b n : Z) : nat :=
  if n =? b then 0
  else if n =? FTS_ACTIVE then 3
  else if (n =? FTS_EXPIRED) || (n =? FTS_RELEASED) || (n =? FTS_ABANDONED) || (n =? FTS_RESET) then 2 else 1.

Lemma steps_following pr b n : n <> b -> (steps n (following pr n) < steps b n)%nat.
Proof.
  intros N. unfold steps at 2. rewrite (proj2 (Z.eqb_neq n b)) by done.
  unfold steps, following, FTS_FREE, FTS_ACTIVE, FTS_EXPIRED, FTS_RELEASED, FTS_ABANDONED, FTS_RESET.
  destruct (Z.eqb_spec n 2) as [->|N2]; [destruct pr; simpl; lia|].
  destruct (Z.eqb_spec n 3) as [->|N3]; [simpl; lia|]. destruct (Z.eqb_spec n 4) as [->|N4]; [simpl; lia|].
  destruct (Z.eqb_spec n 5) as [->|N5]; [simpl; lia|]. destruct (Z.eqb_spec n 6) as [->|N6]; [simpl; lia|].
  simpl. rewrite Z.eqb_refl. lia.
Qed.
Lemma steps_max b n : (steps b n <= 3)%nat.
Proof. unfold steps. repeat case_match; lia. Qed.

Section timer.
Context `{!LeaseQueueOps ldata} `{!LeaseQueue ldata} {W : Type} `{!World W} `{!WorldOk W}.
Context (cur_time : Z) (nosync : bool).
Implicit Types (d : @db _ W) (ids : nat -> qkind -> list nat) (L : gset nat).

Definition idle (x : ldata) : Prop := next_binding_state x = binding_state x.
Definition pending (x : ldata) : Prop := next_binding_state x <> binding_state x.

(** The state a due lease enters: its next state, or the state that the peer
    has last acknowledged. *)
Definition enters (pr : option peer) (x : ldata) (n : Z) : Prop :=
  n = next_binding_state x \/
  exists p, pr = Some p /\ may_rewind p n = true /\ next_binding_state x = FTS_EXPIRED /\ n = rewind_binding_state x.

(** One lease of the pool [p] that is due enters another state. *)
Inductive expiry_step L off (p : nat) (i : nat) : db (W := W) * (nat -> qkind -> list nat) -> db (W := W) * (nat -> qkind -> list nat) -> Prop :=
  expiry_step_intro d ids d' ids' l l' pl k k' n :
    wf4 L L L L off d ids -> wf4 L L L L off d' ids' -> i ∈ L -> lease_store d !! i = Some l -> lease_store d' !! i = Some l' ->
    sort_time l <= cur_time -> pending (data l) -> pools d !! p = Some pl -> pool (data l) = Some p ->
    enters (failover_peer pl) (data l) n -> arrived pl None (set_next_binding_state n (data l)) l' ->
    queue_of (data l) = Some k -> queue_of (data l') = Some k' -> relocated i p k k' ids ids' ->
    steady_but i (lease_store d) (lease_store d') -> same_peers d d' ->
    expiry_step L off p i (d, ids) (d', ids').

Lemma rewind_ok L off d ids i l p pl :
  wf4 L L L L off d ids -> lease_store d !! i = Some l -> pool (data l) = Some p -> pools d !! p = Some pl ->
  exists d' n, rewind_lease d i = Done d' /\ wf4 L L L L off d' ids /\ pools d' = pools d /\ enters (failover_peer pl) (data l) n /\
    lease_store d' = <[i := set_data (set_next_binding_state n (data l)) l]> (lease_store d).
Proof.
  intros Hw E Hp Ep. unfold rewind_lease. rewrite (lease_at_Done _ _ _ E). dred. unfold peer_of. rewrite Hp, (pool_at_Done _ _ _ Ep). dred.
  assert (Hsame : <[i := set_data (set_next_binding_state (next_binding_state (data l)) (data l)) l]> (lease_store d) = lease_store d).
  { apply insert_id. rewrite E. by destruct l as [? ? ? ? ? []]. }
  destruct (failover_peer pl) as [pr|]; [|exists d, (next_binding_state (data l)); split_and!; [done..|by left|done]].
  destruct (may_rewind pr (rewind_binding_state (data l)) && (next_binding_state (data l) =? FTS_EXPIRED)) eqn:Er;
    [|exists d, (next_binding_state (data l)); split_and!; [done..|by left|done]].
  apply andb_true_iff in Er as [Er1 Er2]. apply Z.eqb_eq in Er2.
  destruct (change_ok L L L L off d ids i l (fun l => set_next_binding_state (rewind_binding_state l) l) Hw E eq_refl) as (d' & -> & W' & P' & S').
  exists d', (rewind_binding_state (data l)). split_and!; [done..| |done]. right. by exists pr.
Qed.

Definition expire_one (d : db (W := W)) (i : nat) : outcome (db (W := W)) :=
  d ← rewind_lease d i; '(_, _, d) ← supersede_body cur_time nosync no_timer d i None true true true true; Done d.

(** Each state of a lease is one of the seven. *)
Definition states_ok L d : Prop := forall i l, i ∈ L -> lease_store d !! i = Some l -> 1 <= next_binding_state (data l) <= 7.

Lemma following_valid pr n : 1 <= n <= 7 -> 1 <= following pr n <= 7.
Proof. intros H. unfold following, FTS_FREE, FTS_EXPIRED. repeat case_match; lia. Qed.
Lemma may_rewind_valid p n : may_rewind p n = true -> 1 <= n <= 7.
Proof.
  unfold may_rewind, FTS_FREE, FTS_BACKUP. intros H. apply andb_true_iff in H as [_ H].
  apply orb_true_iff in H as [H|H]; apply andb_true_iff in H as [_ H]; apply Z.eqb_eq in H; lia.
Qed.

Lemma expire_one_ok L off d ids i l p k :
  wf4 L L L L off d ids -> states_ok L d -> i ∈ ids p k -> lease_store d !! i = Some l -> sort_time l <= cur_time -> pending (data l) ->
  exists d' ids', expire_one d i = Done d' /\ expiry_step L off p i (d, ids) (d', ids').
Proof.
  intros Hw Hst Hin E Ht Hpd. destruct (qo_in _ _ _ _ _ (wf_queues _ _ _ _ _ _ _ Hw) p k i Hin) as (Hi & l0 & E0 & Hp & Hk).
  replace l0 with l in * by congruence. clear E0. destruct (qo_pool _ _ _ _ _ (wf_queues _ _ _ _ _ _ _ Hw) i l p E Hp) as [pl Ep].
  destruct (rewind_ok L off d ids i l p pl Hw E Hp Ep) as (d1 & n & E1 & W1 & P1 & Hn & S1). unfold expire_one. rewrite E1. dred.
  assert (El1 : lease_store d1 !! i = Some (set_data (set_next_binding_state n (data l)) l)) by (rewrite S1; apply lookup_insert_eq).
  assert (Hv : 1 <= n <= 7).
  { destruct Hn as [->|(pr & _ & Hr & _)]; [by apply (Hst i l)|by eapply may_rewind_valid]. }
  destruct (move_lease_ok cur_time nosync L off d1 ids i _ None true true true W1 Hi El1 Hv eq_refl)
    as (ok & d2 & ids2 & l2 & p' & pl' & k1 & k2 & E2 & W2 & S2 & P2 & Ep' & Hp' & El2 & Ha & Hk1 & Hk2 & Hr).
  simpl in Hp', Ha, Hk1. replace p' with p in * by congruence. replace pl' with pl in * by congruence.
  exists d2, ids2. split.
  - unfold supersede_body. simpl. dred. rewrite E2. dred. destruct ok; simpl; [|done]. rewrite (get_Done _ _ _ El2). by dred.
  - assert (k1 = k) as ->. { change (queue_of (set_next_binding_state n (data l))) with (queue_of (data l)) in Hk1. congruence. }
    eapply (expiry_step_intro L off p i d ids d2 ids2 l l2 pl k k2 n); try done.
    + eapply steady_but_trans; [|exact S2]. rewrite S1. by eapply insert_steady_but.
    + intros q plq Eq. apply P2. by rewrite P1.
Qed.

(** ** Runs of such steps *)
Definition stepped L off p st st' : Prop := exists i, expiry_step L off p i st st'.
Definition run L off p := rtc (stepped L off p).
(** The run moves the lease [j]. *)
Definition touched L off p j st st' : Prop := exists st1 st2, run L off p st st1 /\ expiry_step L off p j st1 st2 /\ run L off p st2 st'.

(** A lease that the timer has nothing to do with. *)
Definition at_rest (d : db (W := W)) (j : nat) : Prop :=
  exists l, lease_store d !! j = Some l /\ (cur_time < sort_time l \/ idle (data l)).

Lemma step_rest L off p i d ids d' ids' j l :
  expiry_step L off p i (d, ids) (d', ids') -> lease_store d !! j = Some l -> cur_time < sort_time l \/ idle (data l) ->
  exists l', lease_store d' !! j = Some l' /\ sort_time l' = sort_time l /\ vitals (data l') = vitals (data l).
Proof.
  intros Hs E Hr. inversion Hs as [? ? ? ? l0 l' pl k k' n Hw Hw' Hi E0 E' Ht Hp Ep Hpl Hn Ha Hk Hk' Hloc Hst Hpe]; subst.
  apply (proj2 Hst); [|done]. intros ->. replace l0 with l in * by congruence. destruct Hr as [Hr|Hr]; [lia|done].
Qed.

Lemma run_rest L off p d ids d' ids' j l :
  run L off p (d, ids) (d', ids') -> lease_store d !! j = Some l -> cur_time < sort_time l \/ idle (data l) ->
  exists l', lease_store d' !! j = Some l' /\ sort_time l' = sort_time l /\ vitals (data l') = vitals (data l).
Proof.
  intros Hr. remember (d, ids) as st eqn:Est. remember (d', ids') as st' eqn:Est'. revert d ids Est l.
  induction Hr as [|st1 st2 st3 [i Hs] Hr IH]; intros d ids -> l E Hl.
  - injection Est' as <- <-. eauto.
  - destruct st2 as [d2 ids2]. destruct (step_rest _ _ _ _ _ _ _ _ _ _ Hs E Hl) as (l2 & E2 & T2 & V2).
    destruct (IH Est' d2 ids2 eq_refl l2 E2) as (l3 & E3 & T3 & V3).
    + unfold vitals in V2. unfold idle in *. destruct Hl as [Hl|Hl]; [left; lia|right]. congruence.
    + exists l3. split_and!; congruence.
Qed.
Lemma run_at_rest L off p d ids d' ids' j : run L off p (d, ids) (d', ids') -> at_rest d j -> at_rest d' j.
Proof.
  intros Hr (l & E & Hl). destruct (run_rest _ _ _ _ _ _ _ _ _ Hr E Hl) as (l' & E' & T & V). exists l'. split; [done|].
  unfold vitals, idle in *. destruct Hl as [Hl|Hl]; [left; lia|right; congruence].
Qed.

(** A run keeps what each of its steps keeps. *)
Lemma run_ind L off p (I : db (W := W) -> (nat -> qkind -> list nat) -> Prop) d ids d' ids' :
  run L off p (d, ids) (d', ids') ->
  (forall i d1 ids1 d2 ids2, expiry_step L off p i (d1, ids1) (d2, ids2) -> I d1 ids1 -> I d2 ids2) -> I d ids -> I d' ids'.
Proof.
  intros Hr HI. remember (d, ids) as st eqn:Est. remember (d', ids') as st' eqn:Est'. revert d ids Est.
  induction Hr as [|st1 [d2 ids2] st3 [i Hs] Hr IH]; intros d ids ->; [by injection Est' as <- <-|]. intros H. apply (IH Est' d2 ids2 eq_refl). by eapply HI.
Qed.

Lemma step_wf L off p i d ids d' ids' : expiry_step L off p i (d, ids) (d', ids') -> wf4 L L L L off d' ids' /\ same_peers d d'.
Proof. intros Hs. by inversion Hs. Qed.
Lemma step_states L off p i d ids d' ids' : expiry_step L off p i (d, ids) (d', ids') -> states_ok L d -> states_ok L d'.
Proof.
  intros Hs Hst j lj Hj Ej. inversion Hs as [? ? ? ? l0 l' pl k k' n Hw Hw' Hi E0 E' Ht Hp Ep Hpl Hn Ha Hk Hk' Hloc Hsb Hpe]; subst.
  destruct (decide (j = i)) as [->|N].
  - replace lj with l' by congruence. rewrite (ar_next _ _ _ _ Ha). apply following_valid. simpl.
    destruct Hn as [->|(pr & _ & Hr & _)]; [by apply (Hst i l0)|by eapply may_rewind_valid].
  - assert (is_Some (lease_store d !! j)) as [l1 E1]. { apply elem_of_dom. rewrite <- (proj1 Hsb). by apply elem_of_dom_2 in Ej. }
    destruct (proj2 Hsb j l1 N E1) as (l2 & E2 & _ & V). unfold vitals in V. replace lj with l2 by congruence.
    replace (next_binding_state (data l2)) with (next_binding_state (data l1)) by congruence. by apply (Hst j l1).
Qed.

(** ** Where a lease goes *)
Lemma split_unique (pre todo a b : list nat) i : NoDup (pre ++ i :: todo) -> pre ++ i :: todo = a ++ i :: b -> pre = a /\ todo = b.
Proof.
  revert a. induction pre as [|x pre IH]; intros [|y a] Hn E; simplify_eq/=.
  - done.
  - apply NoDup_cons in Hn as [[] _]. apply elem_of_app. right. by constructor.
  - apply NoDup_cons in Hn as [[] _]. apply elem_of_app. right. by constructor.
  - apply NoDup_cons in Hn as [_ Hn]. destruct (IH a Hn) as [-> ->]; done.
Qed.

(** The part of the queue that the timer has not yet seen, after a move. *)
Lemma relocated_split i p k k' ids ids' pre todo :
  NoDup (ids p k) -> ids p k = pre ++ i :: todo -> relocated i p k k' ids ids' ->
  exists pre' todo', ids' p k = pre' ++ todo' /\ head todo' = head todo /\ (todo' = todo \/ Permutation todo' (i :: todo)) /\
    (forall j, j ∈ pre' -> j = i \/ j ∈ pre).
Proof.
  intros Hn Ek (a & b & a' & b' & Ea & Ek' & ->). rewrite Ek in Hn. rewrite Ek in Ea. destruct (split_unique _ _ _ _ _ Hn Ea) as [<- <-].
  destruct (decide (k' = k)) as [->|N].
  - rewrite set_ids_same in Ek' |- *. destruct (decide (length a' <= length pre)%nat) as [Hle|Hgt].
    + exists (a' ++ i :: drop (length a') pre), todo.
      assert (Eb : b' = drop (length a') pre ++ todo).
      { rewrite <- (drop_app_length a' b'), <- Ek'. by rewrite drop_app_le. }
      assert (Ep : a' = take (length a') pre).
      { rewrite <- (take_app_length a' b') at 1. rewrite <- Ek'. by rewrite take_app_le. }
      split_and!; [by rewrite Eb, <- app_assoc|done|by left|]. intros j Hj. apply elem_of_app in Hj as [Hj|Hj].
      * right. rewrite Ep in Hj. rewrite <- (take_drop (length a') pre). apply elem_of_app. by left.
      * apply elem_of_cons in Hj as [->|Hj]; [by left|right]. rewrite <- (take_drop (length a') pre). apply elem_of_app. by right.
    + assert (Ep : a' = pre ++ drop (length pre) a').
      { rewrite <- (take_drop (length pre) a') at 1. f_equal. transitivity (take (length pre) (a' ++ b')); [by rewrite take_app_le by lia|by rewrite <- Ek', take_app_length]. }
      set (t1 := drop (length pre) a') in *. assert (Et : todo = t1 ++ b').
      { rewrite Ep, <- app_assoc in Ek'. by apply app_inv_head in Ek'. }
      destruct t1 as [|x t1]; [rewrite app_nil_r in Ep; subst; lia|].
      exists pre, ((x :: t1) ++ i :: b'). split_and!.
      * by rewrite Ep, <- app_assoc.
      * by rewrite Et.
      * right. by rewrite Et, <- Permutation_middle.
      * by right.
  - exists pre, todo. rewrite set_ids_other by (by intros []). rewrite set_ids_same. split_and!; [done..|by left|by right].
Qed.

Lemma relocated_other i p k k' ids ids' j k2 : relocated i p k k' ids ids' -> j ∈ ids' p k2 -> j = i \/ j ∈ ids p k2.
Proof.
  intros (a & b & a' & b' & Ea & Ek & ->) Hj. destruct (decide (k2 = k')) as [->|N].
  - rewrite set_ids_same, <- Permutation_middle, <- Ek in Hj. apply elem_of_cons in Hj as [->|Hj]; [by left|right].
    destruct (decide (k' = k)) as [->|N]; [|by rewrite set_ids_other in Hj by (by intros [])].
    rewrite set_ids_same in Hj. rewrite Ea, <- Permutation_middle. by right.
  - rewrite set_ids_other in Hj by (by intros []). right. destruct (decide (k2 = k)) as [->|N2]; [|by rewrite set_ids_other in Hj by (by intros [])].
    rewrite set_ids_same in Hj. rewrite Ea, <- Permutation_middle. by right.
Qed.

(** ** The loop over one queue *)
Definition weight1 (d : db (W := W)) (j : nat) : nat :=
  match lease_store d !! j with Some l => S (steps (binding_state (data l)) (next_binding_state (data l))) | None => 1 end.
Definition weight (d : db (W := W)) (js : list nat) : nat := sum_list (weight1 d <$> js).

Lemma weight_perm d js js' : Permutation js js' -> weight d js = weight d js'.
Proof. intros Hp. unfold weight. by rewrite Hp. Qed.
Lemma weight_cons d j js : weight d (j :: js) = (weight1 d j + weight d js)%nat.
Proof. done. Qed.
Lemma weight_same d d' js : (forall j, j ∈ js -> weight1 d' j = weight1 d j) -> weight d' js = weight d js.
Proof.
  induction js as [|j js IH]; intros H; [done|]. rewrite !weight_cons, H by constructor. rewrite IH; [done|]. intros x Hx. apply H. by right.
Qed.
Lemma weight_bound d js : (weight d js <= 4 * length js)%nat.
Proof.
  induction js as [|j js IH]; [done|]. rewrite weight_cons. unfold weight1. simpl length. destruct (lease_store d !! j) as [l|]; [|lia].
  pose proof (steps_max (binding_state (data l)) (next_binding_state (data l))). lia.
Qed.

Lemma step_weight L off p i d ids d' ids' todo todo' :
  expiry_step L off p i (d, ids) (d', ids') -> i ∉ todo -> todo' = todo \/ Permutation todo' (i :: todo) ->
  (weight d' todo' < weight d (i :: todo))%nat.
Proof.
  intros Hs Ni Ht. inversion Hs as [? ? ? ? l l' pl k k' n Hw Hw' Hi E E' Htm Hp Ep Hpl Hn Ha Hk Hk' Hloc Hsb Hpe]; subst.
  assert (Hsame : weight d' todo = weight d todo).
  { apply weight_same. intros j Hj. unfold weight1. assert (N : j <> i) by (by intros ->). destruct (lease_store d !! j) as [lj|] eqn:Ej.
    - destruct (proj2 Hsb j lj N Ej) as (lj' & -> & _ & V). unfold vitals in V. f_equal. f_equal; congruence.
    - destruct (lease_store d' !! j) as [lj'|] eqn:Ej'; [|done]. apply elem_of_dom_2 in Ej'. rewrite (proj1 Hsb) in Ej'. apply elem_of_dom in Ej' as [? ?]. congruence. }
  assert (Hw1 : (weight1 d' i < weight1 d i)%nat).
  { unfold weight1. rewrite E, E', (ar_state _ _ _ _ Ha), (ar_next _ _ _ _ Ha). simpl. destruct Hn as [->|(pr & Hpr & Hr & Hex & ->)].
    - pose proof (steps_following (failover_peer pl) (binding_state (data l)) (next_binding_state (data l)) Hp). lia.
    - rewrite Hex. assert (steps (binding_state (data l)) FTS_EXPIRED = 2%nat) as ->.
      { unfold steps. rewrite (proj2 (Z.eqb_neq _ _)) by (unfold pending in Hp; congruence). done. }
      unfold may_rewind in Hr. apply andb_true_iff in Hr as [_ Hr].
      apply orb_true_iff in Hr as [Hr|Hr]; apply andb_true_iff in Hr as [_ Hr]; apply Z.eqb_eq in Hr; rewrite Hr; vm_compute; lia. }
  rewrite weight_cons. destruct Ht as [->|Ht]; [lia|]. rewrite (weight_perm d' _ _ Ht), weight_cons. lia.
Qed.

(** What is left on the queues of the pool: leases at rest, leases the run has
    moved, and of the queue [k] those in [pre]. *)
Definition left_over L off p k (pre : list nat) st st' : Prop :=
  forall k2 j, j ∈ st'.2 p k2 -> at_rest st'.1 j \/ touched L off p j st st' \/ (j ∈ st.2 p k2 /\ (k2 = k -> j ∈ pre)).

Lemma sorted_rest d ids L off p pl k pre i todo l :
  wf4 L L L L off d ids -> pools d !! p = Some pl -> ids p k = pre ++ i :: todo -> lease_store d !! i = Some l -> cur_time < sort_time l ->
  forall j, j ∈ i :: todo -> at_rest d j.
Proof.
  intros Hw Ep Ek E Ht j Hj. pose proof (qo_on _ _ _ _ _ (wf_queues _ _ _ _ _ _ _ Hw) p pl k Ep) as Hq.
  destruct (on_queue_order _ _ _ _ Hq) as (_ & He & Hs). rewrite Ek in He, Hs. apply Sorted_app_tail in Hs. apply Forall_app in He as [_ He].
  rewrite Forall_forall in He. destruct (He j Hj) as [lj Ej]. exists lj. split; [done|]. left.
  apply elem_of_cons in Hj as [->|Hj]; [by replace lj with l by congruence|]. inversion Hs as [|? ? _ Hi]; subst. rewrite Forall_forall in Hi.
  specialize (Hi j Hj). unfold time_of in Hi. rewrite E, Ej in Hi. lia.
Qed.

Lemma touched_more L off p j st st1 st2 : stepped L off p st st1 -> touched L off p j st1 st2 -> touched L off p j st st2.
Proof. intros Hs (s1 & s2 & R1 & Hj & R2). exists s1, s2. split; [by eapply rtc_l|done]. Qed.

Lemma timer_queue_ok L off fuel : forall d ids p pl k pre todo ne,
  wf4 L L L L off d ids -> states_ok L d -> pools d !! p = Some pl -> ids p k = pre ++ todo -> (weight d todo < fuel)%nat ->
  exists d' ids' ne', timer_queue cur_time nosync fuel d p k (head todo) ne = Done (d', ne') /\
    run L off p (d, ids) (d', ids') /\ left_over L off p k pre (d, ids) (d', ids').
Proof.
  induction fuel as [|fuel IH]; intros d ids p pl k pre todo ne Hw Hst Ep Ek Hf; [lia|].
  destruct todo as [|i todo]; simpl.
  { exists d, ids, ne. split; [done|]. split; [apply rtc_refl|]. intros k2 j Hj. right. right. split; [done|]. intros ->. simpl in Hj. by rewrite Ek, app_nil_r in Hj. }
  pose proof (wf_queues _ _ _ _ _ _ _ Hw) as Hqs. pose proof (qo_on _ _ _ _ _ Hqs p pl k Ep) as Hq. rewrite Ek in Hq.
  assert (Hin : i ∈ ids p k) by (rewrite Ek; apply elem_of_app; right; by constructor).
  destruct (qo_in _ _ _ _ _ Hqs p k i Hin) as (Hi & l & E & Hp & Hk).
  rewrite (get_Done _ _ _ E). dred. rewrite (pool_at_Done _ _ _ Ep). dred. rewrite (queue_next _ _ _ pre i todo Hq). dred.
  destruct (Z.ltb_spec cur_time (sort_time l)) as [Hlt|Hge].
  { eexists d, ids, _. split; [done|]. split; [apply rtc_refl|]. intros k2 j Hj. simpl in *. destruct (decide (k2 = k)) as [->|N]; [|right; right; done].
    rewrite Ek in Hj. apply elem_of_app in Hj as [Hj|Hj]; [right; right; split; [|done]; rewrite Ek; apply elem_of_app; by left|left].
    by apply (sorted_rest d ids L off p pl k pre i todo l). }
  destruct (Z.eqb_spec (next_binding_state (data l)) (binding_state (data l))) as [Hid|Hpd].
  - dred. destruct (IH d ids p pl k (pre ++ [i]) todo ne Hw Hst Ep) as (d' & ids' & ne' & -> & Hr & Hl).
    { by rewrite <- app_assoc. } { rewrite weight_cons in Hf. unfold weight1 in Hf. rewrite E in Hf. lia. }
    exists d', ids', ne'. split; [done|]. split; [done|]. intros k2 j Hj. destruct (Hl k2 j Hj) as [?|[?|[A B]]]; [by left|by right; left|].
    destruct (decide (j = i)) as [->|N]; [left|right; right; split; [done|]; intros ->; specialize (B eq_refl)].
    + eapply run_at_rest; [exact Hr|]. exists l. split; [done|]. by right.
    + apply elem_of_app in B as [B|B]; [done|]. by apply list_elem_of_singleton in B.
  - destruct (expire_one_ok L off d ids i l p k Hw Hst Hin E Hge Hpd) as (d1 & ids1 & E1 & Hs).
    unfold expire_one in E1. rewrite E1. dred. destruct (step_wf _ _ _ _ _ _ _ _ Hs) as [W1 P1]. destruct (P1 p pl Ep) as (pl1 & Ep1 & _).
    destruct (on_queue_order _ _ _ _ Hq) as (Hn & _). assert (Hloc : exists k', relocated i p k k' ids ids1).
    { inversion Hs as [? ? ? ? l0 l' pl0 k0 k' n Hw0 Hw' Hi0 E0 E' Ht0 Hp0 Ep0 Hpl Hn0 Ha Hk0 Hk' Hloc Hsb Hpe]; subst. exists k'.
      assert (k0 = k) as <- by congruence. done. }
    destruct Hloc as [k' Hloc]. rewrite <- Ek in Hn. destruct (relocated_split i p k k' ids ids1 pre todo Hn Ek Hloc) as (pre1 & todo1 & Ek1 & Eh & Ht1 & Hpre).
    assert (Ni : i ∉ todo). { rewrite Ek, <- Permutation_middle in Hn. apply NoDup_cons in Hn as [Hn _]. intros Hx. apply Hn, elem_of_app. by right. }
    pose proof (step_weight _ _ _ _ _ _ _ _ todo todo1 Hs Ni Ht1) as Hwt.
    destruct (IH d1 ids1 p pl1 k pre1 todo1 ne W1 (step_states _ _ _ _ _ _ _ _ Hs Hst) Ep1 Ek1 ltac:(lia)) as (d' & ids' & ne' & E2 & Hr & Hl).
    rewrite <- Eh, E2. exists d', ids', ne'. split; [done|]. split; [eapply rtc_l; [by exists i|done]|]. intros k2 j Hj.
    destruct (Hl k2 j Hj) as [?|[Htj|[A B]]]; [by left|right; left; eapply touched_more; [by exists i|done]|].
    destruct (decide (j = i)) as [->|N]; [right; left; exists (d, ids), (d1, ids1); split; [apply rtc_refl|done]|right; right].
    destruct (relocated_other _ _ _ _ _ _ j k2 Hloc A) as [?|A']; [done|]. split; [done|]. intros ->. by destruct (Hpre j (B eq_refl)).
Qed.

(** ** All queues *)
Lemma run_wf L off p d ids d' ids' :
  run L off p (d, ids) (d', ids') -> wf4 L L L L off d ids -> states_ok L d ->
  wf4 L L L L off d' ids' /\ states_ok L d' /\ same_peers d d'.
Proof.
  intros Hr Hw Hst. apply (run_ind L off p (fun d1 ids1 => wf4 L L L L off d1 ids1 /\ states_ok L d1 /\ same_peers d d1) d ids); [done| |by split].
  intros i d1 ids1 d2 ids2 Hs (W1 & S1 & P1). destruct (step_wf _ _ _ _ _ _ _ _ Hs) as [W2 P2]. split; [done|].
  split; [by eapply step_states|]. by etransitivity.
Qed.
Lemma touched_run L off p j st st1 st2 : touched L off p j st st1 -> run L off p st1 st2 -> touched L off p j st st2.
Proof. intros (s1 & s2 & R1 & Hj & R2) R. exists s1, s2. split_and!; [done..|by etransitivity]. Qed.
Lemma touched_run_l L off p j st st1 st2 : run L off p st st1 -> touched L off p j st1 st2 -> touched L off p j st st2.
Proof. intros R (s1 & s2 & R1 & Hj & R2). exists s1, s2. split_and!; [by etransitivity|done..]. Qed.
Lemma skips_peer (pl pl' : pool_t queue) k : failover_peer pl' = failover_peer pl -> skips pl' k = skips pl k.
Proof. intros E. unfold skips. by rewrite E. Qed.

(** Nothing is left to do on the queues that are not skipped. *)
Definition finished L off p pl (ks : list qkind) st st' : Prop :=
  forall k2 j, j ∈ st'.2 p k2 -> at_rest st'.1 j \/ touched L off p j st st' \/ (j ∈ st.2 p k2 /\ (k2 ∈ ks -> skips pl k2 = true)).

Lemma timer_queues_ok L off p ks : forall d ids pl ne,
  wf4 L L L L off d ids -> states_ok L d -> pools d !! p = Some pl ->
  exists d' ids' ne', timer_queues cur_time nosync ks d p ne = Done (d', ne') /\
    run L off p (d, ids) (d', ids') /\ finished L off p pl ks (d, ids) (d', ids').
Proof.
  induction ks as [|k ks IH]; intros d ids pl ne Hw Hst Ep; cbn [timer_queues].
  { exists d, ids, ne. split; [done|]. split; [apply rtc_refl|]. intros k2 j Hj. right. right. split; [done|]. by intros ?%not_elem_of_nil. }
  rewrite (pool_at_Done _ _ _ Ep). dred. pose proof (qo_on _ _ _ _ _ (wf_queues _ _ _ _ _ _ _ Hw) p pl k Ep) as Hq.
  match goal with |- context [if ?c then Done (d, ne) else ?e] => assert (exists d1 ids1 ne1, (if c then Done (d, ne) else e) = Done (d1, ne1) /\
    run L off p (d, ids) (d1, ids1) /\ finished L off p pl [k] (d, ids) (d1, ids1)) as (d1 & ids1 & ne1 & -> & R1 & F1) end.
  { rewrite (queue_not_empty _ _ _ _ Hq). destruct (ids p k) as [|i0 r0] eqn:Ek; cbn [negb orb].
    - exists d, ids, ne. split; [done|]. split; [apply rtc_refl|]. intros k2 j Hj. right. right. split; [done|].
      intros ->%list_elem_of_singleton. simpl in Hj. rewrite Ek in Hj. by apply not_elem_of_nil in Hj.
    - destruct (skips pl k) eqn:Esk; cbv iota.
      + exists d, ids, ne. split; [done|]. split; [apply rtc_refl|]. intros k2 j Hj. right. right. split; [done|]. by intros ->%list_elem_of_singleton.
      + rewrite (queue_first _ _ _ _ Hq). dred.
        destruct (timer_queue_ok L off (S (4 * size (lease_store d))) d ids p pl k [] (ids p k) ne Hw Hst Ep eq_refl) as (d1 & ids1 & ne1 & E1 & R1 & F1).
        { pose proof (weight_bound d (ids p k)). assert (length (ids p k) <= size (lease_store d))%nat; [|lia].
          apply ids_size; [rewrite Ek; by apply (on_queue_order _ _ _ _ Hq)|by eapply queues_some, wf_queues]. }
        rewrite Ek in E1. exists d1, ids1, ne1. split; [done|]. split; [done|]. intros k2 j Hj.
        destruct (F1 k2 j Hj) as [?|[?|[A B]]]; [by left|by right; left|]. right. right. split; [done|].
        intros ->%list_elem_of_singleton. by apply not_elem_of_nil in B. }
  dred. destruct (run_wf _ _ _ _ _ _ _ R1 Hw Hst) as (W1 & S1 & P1). destruct (P1 p pl Ep) as (pl1 & Ep1 & Pp1).
  destruct (IH d1 ids1 pl1 ne1 W1 S1 Ep1) as (d2 & ids2 & ne2 & E2 & R2 & F2). rewrite E2.
  exists d2, ids2, ne2. split; [done|]. split; [by etransitivity|]. intros k2 j Hj.
  destruct (F2 k2 j Hj) as [?|[Ht|[A B]]]; [by left|right; left; by eapply touched_run_l|].
  destruct (F1 k2 j A) as [?|[Ht|[A' B']]]; [left; by eapply run_at_rest|right; left; by eapply touched_run|].
  right. right. split; [done|]. intros [->|Hk]%elem_of_cons; [by apply B', list_elem_of_singleton|]. rewrite <- (skips_peer pl pl1) by done. by apply B.
Qed.

Lemma pool_timer_ok L off d ids p pl :
  wf4 L L L L off d ids -> states_ok L d -> pools d !! p = Some pl ->
  exists d1 d' ids', pool_timer cur_time nosync d p = Done d' /\ run L off p (d, ids) (d1, ids') /\ quiet L L L L off d1 d' ids' /\
    states_ok L d' /\ same_peers d d' /\ finished L off p pl all_kinds (d, ids) (d1, ids').
Proof.
  intros Hw Hst Ep. unfold pool_timer. destruct (timer_queues_ok L off p all_kinds d ids pl MAX_TIME Hw Hst Ep) as (d1 & ids1 & ne & -> & R1 & F1). dred.
  destruct (run_wf _ _ _ _ _ _ _ R1 Hw Hst) as (W1 & S1 & P1). destruct (P1 p pl Ep) as (pl1 & Ep1 & _). rewrite (pool_at_Done _ _ _ Ep1). dred.
  match goal with |- context [if ?c then Done ?x else Done ?y] => assert (exists d', (if c then Done x else Done y) = Done d' /\ quiet L L L L off d1 d' ids1) as (d' & -> & C') end.
  { destruct (_ && _); eexists; (split; [done|]); [by apply quiet_timer|]. split; [by apply wf_pool|]. split; [done|]. by apply (peers_insert d1 p pl1). }
  exists d1, d', ids1. split; [done|]. split; [done|]. split; [done|]. split; [|split; [|done]].
  - intros j l Hj Ej. destruct C' as (_ & [Hdom Hs] & _). assert (is_Some (lease_store d1 !! j)) as [l1 E1].
    { apply elem_of_dom. rewrite <- Hdom. by apply elem_of_dom_2 in Ej. }
    destruct (Hs j l1 E1) as (l2 & E2 & _ & V). unfold vitals in V. replace l with l2 by congruence.
    replace (next_binding_state (data l2)) with (next_binding_state (data l1)) by congruence. by apply (S1 j l1).
  - etransitivity; [exact P1|]. apply C'.
Qed.

(** ** A pool without failover peer *)
Lemma queue_of_valid x k : queue_of x = Some k -> 1 <= binding_state x <= 7.
Proof.
  unfold queue_of, FTS_FREE, FTS_ACTIVE, FTS_EXPIRED, FTS_RELEASED, FTS_ABANDONED, FTS_RESET, FTS_BACKUP.
  repeat case_match; rewrite ?orb_true_iff, ?Z.eqb_eq in *; intros; try lia; done.
Qed.

Definition settled_pool L p d : Prop :=
  (forall pl, pools d !! p = Some pl -> failover_peer pl = None) /\
  (forall j l, j ∈ L -> lease_store d !! j = Some l -> pool (data l) = Some p -> next_binding_state (data l) = following None (binding_state (data l))).

Lemma following_free b n : n = following None b -> n <> b -> n = FTS_FREE.
Proof. intros -> N. unfold following in *. repeat case_match; done. Qed.

Lemma step_settled L off p i d ids d' ids' :
  expiry_step L off p i (d, ids) (d', ids') -> settled_pool L p d -> settled_pool L p d' /\ at_rest d' i.
Proof.
  intros Hs [Hpe Hse]. inversion Hs as [? ? ? ? l l' pl k k' n Hw Hw' Hi E E' Ht Hp Ep Hpl Hn Ha Hk Hk' Hloc Hsb Hsp]; subst.
  rewrite (Hpe pl Ep) in Hn. destruct Hn as [->|(pr & [=] & _)].
  assert (Hfr : next_binding_state (data l) = FTS_FREE) by (eapply following_free; [by apply (Hse i)|done]).
  assert (N' : next_binding_state (data l') = following None (binding_state (data l'))).
  { rewrite (ar_next _ _ _ _ Ha), (ar_state _ _ _ _ Ha). by rewrite (Hpe pl Ep). }
  split; [split|].
  - intros pl' Ep'. destruct (Hsp p pl Ep) as (pl2 & Ep2 & Pp2). rewrite (Hpe pl Ep) in Pp2. congruence.
  - intros j lj Hj Ej Hpj. destruct (decide (j = i)) as [->|N]; [by replace lj with l' by congruence|].
    assert (is_Some (lease_store d !! j)) as [l1 E1]. { apply elem_of_dom. rewrite <- (proj1 Hsb). by apply elem_of_dom_2 in Ej. }
    destruct (proj2 Hsb j l1 N E1) as (l2 & E2 & _ & V). unfold vitals in V. replace lj with l2 in * by congruence.
    replace (next_binding_state (data l2)) with (next_binding_state (data l1)) by congruence.
    replace (binding_state (data l2)) with (binding_state (data l1)) by congruence. apply (Hse j l1); [done..|congruence].
  - exists l'. split; [done|]. right. unfold idle. rewrite (ar_next _ _ _ _ Ha), (ar_state _ _ _ _ Ha). simpl. by rewrite Hfr.
Qed.

Lemma run_settled L off p d ids d' ids' :
  run L off p (d, ids) (d', ids') -> settled_pool L p d -> settled_pool L p d'.
Proof.
  intros Hr. apply (run_ind L off p (fun d _ => settled_pool L p d) d ids d' ids' Hr). intros i d1 ids1 d2 ids2 Hs H1. by apply (step_settled _ _ _ _ _ _ _ _ Hs).
Qed.
Lemma touched_rest L off p j d ids d' ids' :
  touched L off p j (d, ids) (d', ids') -> settled_pool L p d -> at_rest d' j.
Proof.
  intros ([d1 ids1] & [d2 ids2] & R1 & Hs & R2) Hse. eapply run_at_rest; [exact R2|].
  apply (step_settled _ _ _ _ _ _ _ _ Hs). by eapply run_settled.
Qed.

(** C21: The timer of a pool terminates, whatever states its leases are in,
    whichever failover state the server is in and whatever the lease file and
    the peer do, and keeps the invariant of the database.  A lease that is not
    due, or has no other state to go to, is left as it is. *)
Theorem pool_timer_correct L off d ids p pl :
  wf4 L L L L off d ids -> states_ok L d -> pools d !! p = Some pl ->
  exists d' ids', pool_timer cur_time nosync d p = Done d' /\ wf4 L L L L off d' ids' /\ states_ok L d' /\
    forall j l, lease_store d !! j = Some l -> cur_time < sort_time l \/ next_binding_state (data l) = binding_state (data l) ->
      exists l', lease_store d' !! j = Some l' /\ sort_time l' = sort_time l /\ vitals (data l') = vitals (data l).
Proof.
  intros Hw Hst Ep. destruct (pool_timer_ok L off d ids p pl Hw Hst Ep) as (d1 & d' & ids' & E & R & C & S' & _ & _).
  exists d', ids'. split; [done|]. split; [apply C|]. split; [done|]. intros j l Ej Hj.
  destruct (run_rest _ _ _ _ _ _ _ _ _ R Ej Hj) as (l1 & E1 & T1 & V1). destruct (quiet_lookup _ _ _ _ _ _ _ _ _ _ C E1) as (l2 & E2 & T2 & V2).
  exists l2. split_and!; congruence.
Qed.

(** C20: In a pool without failover peer whose leases wait for the state that
    follows theirs, the timer leaves no lease behind: afterwards every lease of
    the pool whose time has come is free, or kept for a peer; none is still
    active, expired, released, reset or abandoned. *)
Theorem pool_timer_expires L off d ids p pl :
  wf4 L L L L off d ids -> states_ok L d -> pools d !! p = Some pl -> settled_pool L p d ->
  exists d' ids', pool_timer cur_time nosync d p = Done d' /\ wf4 L L L L off d' ids' /\ settled_pool L p d' /\
    forall j l, j ∈ L -> lease_store d' !! j = Some l -> pool (data l) = Some p -> sort_time l <= cur_time ->
      binding_state (data l) = FTS_FREE \/ binding_state (data l) = FTS_BACKUP.
Proof.
  intros Hw Hst Ep Hse. destruct (pool_timer_ok L off d ids p pl Hw Hst Ep) as (d1 & d' & ids' & E & R & C & S' & Hsp & F).
  destruct (run_settled _ _ _ _ _ _ _ R Hse) as [Hpe1 Hse1]. pose proof C as (W' & [Hdom Hstd] & Hpe).
  assert (Hback : forall j l, lease_store d' !! j = Some l -> exists l1, lease_store d1 !! j = Some l1 /\ sort_time l = sort_time l1 /\ vitals (data l) = vitals (data l1)).
  { intros j l Ej. assert (is_Some (lease_store d1 !! j)) as [l1 E1]. { apply elem_of_dom. rewrite <- Hdom. by apply elem_of_dom_2 in Ej. }
    destruct (Hstd j l1 E1) as (l2 & E2 & T & V). exists l1. replace l with l2 by congruence. done. }
  exists d', ids'. split; [done|]. split; [done|]. split; [split|].
  - intros pl' Ep'. destruct (Hsp p pl Ep) as (pl2 & Ep2 & Pp2). rewrite (proj1 Hse pl Ep) in Pp2. congruence.
  - intros j l Hj Ej Hp. destruct (Hback j l Ej) as (l1 & E1 & _ & V). destruct (vitals_inv _ _ V) as (-> & -> & _ & Vp & _).
    apply (Hse1 j l1); [done..|congruence].
  - intros j l Hj Ej Hp Ht. destruct (Hback j l Ej) as (l1 & E1 & T1 & V). destruct (vitals_inv _ _ V) as (-> & Vn & _ & Vp & _).
    destruct (run_wf _ _ _ _ _ _ _ R Hw Hst) as (W1 & S1 & _). destruct (qo_all _ _ _ _ _ (wf_queues _ _ _ _ _ _ _ W1) j Hj) as (l0 & p0 & pl0 & k0 & E0 & Hp0 & Ep0 & Hk0 & Hin).
    replace l0 with l1 in * by congruence. replace p0 with p in * by congruence.
    assert (Hr : at_rest d1 j).
    { destruct (F k0 j Hin) as [?|[?|[_ B]]]; [done|by eapply touched_rest|]. exfalso. unfold skips in B. rewrite (proj1 Hse pl Ep) in B.
      discriminate B. destruct k0; repeat constructor. }
    destruct Hr as (l2 & E2 & [Hlt|Hid]); [replace l2 with l1 in Hlt by congruence; lia|]. replace l2 with l1 in Hid by congruence.
    unfold idle in Hid. rewrite (Hse1 j l1 Hj E1 ltac:(congruence)) in Hid. pose proof (queue_of_valid (data l1) k0 Hk0) as Hv.
    revert Hid Hv. unfold following, FTS_FREE, FTS_ACTIVE, FTS_EXPIRED, FTS_RELEASED, FTS_ABANDONED, FTS_RESET, FTS_BACKUP.
    generalize (binding_state (data l1)). intros b. repeat case_match; rewrite ?orb_true_iff, ?orb_false_iff, ?Z.eqb_eq, ?Z.eqb_neq in *; lia.
Qed.
End timer.
