(* ===== verification/LeaseOps.v ===== *)
(** * Superseding, releasing, abandoning and loading leases (server/mdb.c)

    [supersede_lease] copies the data of a new lease into the database and moves
    the lease to its next state; [release_lease] and [abandon_lease] do so for
    leases that clients give up or that are found in use; [lease_instantiate]
    and [expire_all_pools] build the database from the lease file. *)

From stdpp Require Import base tactics numbers gmap list relations.
From S2P Require Import Prelude Lease LeaseHash Billing LeaseDb LeaseDbInv LeaseDbOk LeaseTimer.

#[local] Open Scope Z_scope.

Section ops.
Context `{!LeaseQueueOps ldata} `{!LeaseQueue ldata} {W : Type} `{!World W} `{!WorldOk W}.
Context (cur_time : Z) (nosync : bool).
Implicit Types (d : @db _ W) (ids : nat -> qkind -> list nat) (L Q U H B : gset nat) (s : leases).

(** ** Hash tables *)
Lemma relinks_size k s s' : relinks k s s' -> size s' = size s.
Proof. intros Hr. apply (upto_size (fun _ => tt) s s'). by apply Hr. Qed.

Lemma wf_uid_table Q U U' H B off d ids t' s' :
  wf4 Q U H B off d ids -> relinks uid_link (lease_store d) s' -> hash_ok uid_link fits_uid U' t' s' ->
  let d' := mk_db (statics d) s' (pools d) (class_table d) t' (hw_hash d) (timers d) (ip_hash d) (world d) in
  wf4 Q U' H B off d' ids /\ upto vitals (lease_store d) s'.
Proof.
  intros Hw Hr Hh. split; [|by apply Hr]. split; simpl; [| done | | |].
  - eapply queues_upto; [apply Hw|by apply Hr].
  - eapply (hash_ok_agree hw_link); [apply Hw|]. by apply upto_agree, Hr.
  - eapply billing_ok_agree; [apply Hw|]. by apply upto_agree, Hr.
  - rewrite (relinks_size _ _ _ Hr). apply Hw.
Qed.
Lemma wf_hw_table Q U H H' B off d ids t' s' :
  wf4 Q U H B off d ids -> relinks hw_link (lease_store d) s' -> hash_ok hw_link fits_hw H' t' s' ->
  let d' := mk_db (statics d) s' (pools d) (class_table d) (uid_hash d) t' (timers d) (ip_hash d) (world d) in
  wf4 Q U H' B off d' ids /\ upto vitals (lease_store d) s'.
Proof.
  intros Hw Hr Hh. split; [|by apply Hr]. split; simpl; [| | done | |].
  - eapply queues_upto; [apply Hw|by apply Hr].
  - eapply (hash_ok_agree uid_link); [apply Hw|]. by apply upto_agree, Hr.
  - eapply billing_ok_agree; [apply Hw|]. by apply upto_agree, Hr.
  - rewrite (relinks_size _ _ _ Hr). apply Hw.
Qed.

(** The lease is in neither table, so that its identifiers may change. *)
Lemma wf_unhashed Q U H B off d ids i l x :
  wf4 Q U H B off d ids -> (i ∉ U \/ (uid_key x = uid_key (data l))) -> (i ∉ H \/ hardware_addr x = hardware_addr (data l)) ->
  lease_store d !! i = Some l ->
  place x = place (data l) -> n_uid x = n_uid (data l) -> n_hw x = n_hw (data l) -> billing_class x = billing_class (data l) ->
  wf4 Q U H B off (set_store (<[i := set_data x l]> (lease_store d)) d) ids.
Proof.
  intros [W1 W2 W3 W4 W5] HU HH E Hp Hu Hh Hb. split; simpl.
  - eapply queues_upto; [exact W1|]. by apply upto_change.
  - destruct HU as [HU|HU]; [by apply (hash_ok_outside uid_link)|]. eapply (hash_ok_agree uid_link); [exact W2|]. apply upto_agree, upto_change; [done|].
    simpl. congruence.
  - destruct HH as [HH|HH]; [by apply (hash_ok_outside hw_link)|]. eapply (hash_ok_agree hw_link); [exact W3|]. apply upto_agree, upto_change; [done|].
    simpl. congruence.
  - eapply billing_ok_agree; [exact W4|]. by apply upto_agree, upto_change.
  - rewrite (upto_size (fun _ => tt) (lease_store d)); [done|]. by apply upto_change.
Qed.

(** What remains of a lease whose identifiers are taken away. *)
Definition events (x : ldata) :=
  (binding_state x, next_binding_state x, has_flag x RESERVED_LEASE, pool x, (ends x, tsfp x), billing_class x, hardware_addr x).

Lemma unhash_ok Q U H B off d ids i l :
  wf4 Q U H B off d ids -> i ∈ U -> i ∈ H -> lease_store d !! i = Some l ->
  exists d', unhash d i = Done d' /\ wf4 Q (U ∖ {[i]}) (H ∖ {[i]}) B off d' ids /\ pools d' = pools d /\ class_table d' = class_table d /\
    upto events (lease_store d) (lease_store d') /\ steady_but i (lease_store d) (lease_store d').
Proof.
  intros Hw HU HH E. unfold unhash. rewrite (lease_at_Done _ _ _ E). dred.
  destruct (uid_delete_ok U (uid_hash d) (lease_store d) i l (wf_uid _ _ _ _ _ _ _ Hw) E HU) as (t1 & s1 & E1 & H1 & R1).
  destruct (wf_uid_table Q U (U ∖ {[i]}) H B off d ids t1 s1 Hw R1 H1) as [W1 _].
  set (d1 := mk_db _ _ _ _ _ _ _ _ _) in W1. assert (U1 : upto events (lease_store d) (lease_store d1)) by (by apply R1).
  assert (S1 : steady (lease_store d) (lease_store d1)) by (by apply upto_steady, R1).
  assert (Hi : i ∉ U ∖ {[i]}) by (rewrite elem_of_difference, elem_of_singleton; by intros [_ []]).
  destruct (proj2 U1 i l E) as (x1 & El1 & _). 
  assert (exists d2, (match uid (data l) with Some _ => d ← db_uid_hash uid_hash_delete d i; change d i (set_uid None) | None => Done d end) = Done d2 /\
    wf4 Q (U ∖ {[i]}) H B off d2 ids /\ pools d2 = pools d /\ class_table d2 = class_table d /\ hw_hash d2 = hw_hash d /\
    upto events (lease_store d) (lease_store d2) /\ steady_but i (lease_store d) (lease_store d2)) as (d2 & -> & W2 & P2 & C2 & Hh2 & U2 & S2).
  { destruct (uid (data l)) as [u|] eqn:Eu.
    - unfold db_uid_hash. rewrite E1. dred. fold d1. rewrite (change_Done d1 i _ _ El1). eexists. split; [done|]. split; [|split; [done|split; [done|split; [done|split]]]].
      + apply wf_unhashed; try done; [by left|by right].
      + eapply upto_trans; [exact U1|]. by apply upto_change.
      + eapply steady_but_trans; [by apply steady_any|]. by eapply insert_steady_but.
    - injection E1 as <- <-. exists d1. split; [unfold d1; by destruct d|]. split_and!; try done. by apply steady_any. }
  dred. destruct (proj2 U2 i l E) as (x2 & El2 & F2). assert (Hx2 : hardware_addr x2 = hardware_addr (data l)) by (unfold events in F2; congruence).
  destruct (hw_delete_ok H (hw_hash d2) (lease_store d2) i _ (wf_hw _ _ _ _ _ _ _ W2) El2 HH) as (t3 & s3 & E3 & H3 & R3).
  destruct (wf_hw_table Q (U ∖ {[i]}) H (H ∖ {[i]}) B off d2 ids t3 s3 W2 R3 H3) as [W3 _]. simpl in E3. rewrite Hx2 in E3.
  destruct (zlen (hardware_addr (data l)) =? 0).
  - injection E3 as <- <-. eexists. split; [|split; [exact W3|done]]. by destruct d2.
  - unfold db_hw_hash. rewrite E3. dred. eexists. split; [done|]. split; [done|]. split; [done|]. split; [done|]. simpl.
    split; [eapply upto_trans; [exact U2|by apply R3]|]. eapply steady_but_trans; [exact S2|]. by apply steady_any, upto_steady, R3.
Qed.

Lemma rehash_ok Q U H B off d ids i l :
  wf4 Q U H B off d ids -> i ∉ U -> i ∉ H -> lease_store d !! i = Some l ->
  exists d', rehash d i = Done d' /\ wf4 Q (U ∪ {[i]}) (H ∪ {[i]}) B off d' ids /\ pools d' = pools d /\ class_table d' = class_table d /\
    statics d' = statics d /\
    forall A (f : ldata -> A), (forall v x, f (set_n_uid v x) = f x) -> (forall v x, f (set_n_hw v x) = f x) -> upto f (lease_store d) (lease_store d').
Proof.
  intros Hw HU HH E. unfold rehash. rewrite (lease_at_Done _ _ _ E). dred.
  destruct (uid_add_ok U (uid_hash d) (lease_store d) i l (wf_uid _ _ _ _ _ _ _ Hw) E HU) as (t1 & s1 & E1 & H1 & R1).
  destruct (wf_uid_table Q U (U ∪ {[i]}) H B off d ids t1 s1 Hw R1 H1) as [W1 _].
  set (d1 := mk_db _ _ _ _ _ _ _ _ _) in W1.
  assert ((match uid (data l) with Some _ => db_uid_hash uid_hash_add d i | None => Done d end) = Done d1) as ->.
  { destruct (uid (data l)); [unfold db_uid_hash; by rewrite E1|]. injection E1 as <- <-. unfold d1. by destruct d. }
  dred. destruct (proj2 (R1 _ hardware_addr (fun _ _ => eq_refl)) i l E) as (x1 & El1 & F1).
  destruct (hw_add_ok H (hw_hash d1) (lease_store d1) i _ (wf_hw _ _ _ _ _ _ _ W1) El1 HH) as (t2 & s2 & E2 & H2 & R2).
  destruct (wf_hw_table Q (U ∪ {[i]}) H (H ∪ {[i]}) B off d1 ids t2 s2 W1 R2 H2) as [W2 _]. set (d2 := mk_db _ _ _ _ _ _ _ _ _) in W2.
  exists d2. split.
  { simpl in E2. rewrite F1 in E2. destruct (zlen (hardware_addr (data l)) =? 0); [|unfold db_hw_hash; simpl; by rewrite E2].
    injection E2 as <- <-. done. }
  do 4 (split; [done|]). intros A f Hf1 Hf2. eapply upto_trans; [by apply R1|by apply R2].
Qed.

(** ** Copying a lease *)
Lemma class_some_back (d d' : db (W := W)) :
  (forall c cl, class_table d !! c = Some cl -> is_Some (class_table d' !! c)) -> forall c, is_Some (class_table d !! c) -> is_Some (class_table d' !! c).
Proof. intros H c [cl E]. by eapply H. Qed.

Lemma db_bill_ok Q U H B off d ids i l c :
  wf4 Q U H B off d ids -> (i ∈ B \/ billing_class (data l) = None) -> lease_store d !! i = Some l -> is_Some (class_table d !! c) ->
  exists (b : bool) d', db_bill d i c = Done d' /\ wf4 Q U H (B ∪ {[i]}) off d' ids /\ pools d' = pools d /\ statics d' = statics d /\
    lease_store d' = <[i := with_class (if b then Some c else None) l]> (lease_store d).
Proof.
  intros Hw Hi E Hc. destruct (bill_class_ok B _ _ i l c (wf_billing _ _ _ _ _ _ _ Hw) Hi E Hc) as (b & cs' & Eb & Hb & _ & _).
  unfold db_bill. rewrite Eb. dred. eexists b, _. split; [done|]. split; [|done]. by eapply wf_classes.
Qed.

Lemma add_present (B : gset nat) i : i ∈ B -> B ∪ {[i]} = B.
Proof. intros Hi. apply set_eq. intros j. rewrite elem_of_union, elem_of_singleton. split; [by intros [?| ->]|by left]. Qed.
Lemma remove_add (B : gset nat) i : i ∈ B -> B ∖ {[i]} ∪ {[i]} = B.
Proof.
  intros Hi. apply set_eq. intros j. rewrite elem_of_union, elem_of_difference, elem_of_singleton.
  destruct (decide (j = i)) as [->|N]; [tauto|]. tauto.
Qed.

Lemma rebill_ok Q U H B off d ids i l lease :
  wf4 Q U H B off d ids -> i ∈ B -> lease_store d !! i = Some l ->
  (forall c, billing_class lease = Some c -> is_Some (class_table d !! c)) ->
  exists d' b, rebill d i lease = Done d' /\ wf4 Q U H B off d' ids /\ pools d' = pools d /\
    lease_store d' = <[i := with_class b l]> (lease_store d).
Proof.
  intros Hw Hi E Hcls. unfold rebill. rewrite (lease_at_Done _ _ _ E). dred.
  destruct (decide (billing_class (data l) = billing_class lease)) as [Eq|Nq].
  { exists d, (billing_class (data l)). split_and!; [done..|]. by rewrite with_class_same, insert_id. }
  assert (exists d1, (match billing_class (data l) with Some _ => db_unbill d i | None => Done d end) = Done d1 /\ wf4 Q U H B off d1 ids /\
    pools d1 = pools d /\ lease_store d1 = <[i := with_class None l]> (lease_store d) /\
    (forall c, is_Some (class_table d !! c) -> is_Some (class_table d1 !! c))) as (d1 & -> & W1 & P1 & S1 & C1).
  { destruct (billing_class (data l)) as [c|] eqn:Ec.
    - destruct (unbill_class_ok B _ _ i l (wf_billing _ _ _ _ _ _ _ Hw) Hi E) as (cs' & Eu & Hb & _ & Hc).
      unfold db_unbill. rewrite Eu. dred. eexists. split; [done|]. split; [by eapply wf_classes|]. split; [done|]. split; [done|].
      intros c' [cl Ecl]. by eapply Hc.
    - exists d. split; [done|]. split; [done|]. split; [done|]. split; [|done]. by rewrite <- Ec, with_class_same, insert_id. }
  dred. destruct (billing_class lease) as [c|] eqn:Ec; [|by exists d1, None].
  assert (E1 : lease_store d1 !! i = Some (with_class None l)) by (rewrite S1; apply lookup_insert_eq).
  destruct (db_bill_ok Q U H B off d1 ids i _ c W1 (or_introl Hi) E1 (C1 c (Hcls c eq_refl))) as (b & d2 & -> & W2 & P2 & _ & S2).
  rewrite (add_present B i Hi) in W2. exists d2, (if b then Some c else None). split; [done|]. split; [done|]. split; [congruence|].
  by rewrite S2, S1, insert_insert_eq.
Qed.

(** A sample lease that can be copied. *)
Definition sample_ok (d : db (W := W)) (lease : ldata) : Prop :=
  (forall b, uid lease = Some (InBuf b) -> zlen b <= 7) /\ (forall c, billing_class lease = Some c -> is_Some (class_table d !! c)) /\
  1 <= next_binding_state lease <= 7.

(** What of the sample lease the database has after the copy. *)
Record copied (lease x : ldata) : Prop := {
  cp_uid : uid_key x = uid_key lease;
  cp_hw : hardware_addr x = hardware_addr lease;
  cp_starts : starts x = starts lease;
  cp_host : host x = host lease }.

Lemma copy_client_ok c lease :
  (forall b, uid lease = Some (InBuf b) -> zlen b <= 7) ->
  exists c' lease', copy_client c lease = Done (c', lease') /\ copied lease c' /\
    place c' = place c /\ n_uid c' = n_uid c /\ n_hw c' = n_hw c /\ billing_class c' = billing_class c /\
    next_binding_state lease' = next_binding_state lease /\ ends lease' = ends lease /\ flags lease' = flags lease.
Proof.
  intros Hu. unfold copy_client, copy_uid. destruct (uid lease) as [u|] eqn:Eu; dred.
  - destruct (Z.leb_spec (zlen (bytes_of u)) 7) as [Hl|Hl]; dred.
    + eexists _, _. split; [done|]. repeat split. unfold uid_key. simpl. by rewrite Eu.
    + destruct u as [b|b]; [by specialize (Hu b eq_refl); simpl in Hl; lia|]. dred. eexists _, _. split; [done|]. repeat split.
      unfold uid_key. simpl. by rewrite Eu.
  - eexists _, _. split; [done|]. repeat split. unfold uid_key. simpl. by rewrite Eu.
Qed.

Lemma not_in_removed (B : gset nat) i : i ∉ B ∖ {[i]}.
Proof. rewrite elem_of_difference, elem_of_singleton. by intros [_ []]. Qed.

Lemma copy_lease_ok L off d ids i l lease :
  wf4 L L L L off d ids -> i ∈ L -> lease_store d !! i = Some l -> sample_ok d lease ->
  exists lease' d' l', copy_lease d i lease = Done (lease', d') /\ wf4 L L L L off d' ids /\ steady_but i (lease_store d) (lease_store d') /\
    pools d' = pools d /\ lease_store d' !! i = Some l' /\ flags lease' = flags lease /\ copied lease (data l') /\
    place (data l') = place (data l) /\ next_binding_state (data l') = next_binding_state lease /\ ends (data l') = ends lease.
Proof.
  intros Hw Hi E (Hu & Hc & Hn). unfold copy_lease.
  destruct (unhash_ok L L L L off d ids i l Hw Hi Hi E) as (d1 & -> & W1 & P1 & C1 & U1 & S1). dred.
  destruct (proj2 U1 i l E) as (x1 & E1 & F1).
  destruct (rebill_ok _ _ _ _ _ d1 ids i _ lease W1 Hi E1) as (d2 & b & -> & W2 & P2 & S2); [by rewrite C1|]. dred.
  assert (E2 : lease_store d2 !! i = Some (with_class b (set_data x1 l))) by (rewrite S2; apply lookup_insert_eq).
  rewrite (lease_at_Done _ _ _ E2). dred.
  destruct (copy_client_ok (data (with_class b (set_data x1 l))) lease Hu) as (c' & lease' & -> & Hcp & Vc & Nu & Nh & Nb & Nl & El & Fl). dred.
  rewrite (change_Done d2 i _ _ E2). dred.
  assert (W3 : wf4 L (L ∖ {[i]}) (L ∖ {[i]}) L off (set_store (<[i := set_data c' (with_class b (set_data x1 l))]> (lease_store d2)) d2) ids).
  { apply wf_unhashed; try done; left; apply not_in_removed. }
  set (d3 := set_store _ d2) in *. assert (E3 : lease_store d3 !! i = Some (set_data c' (with_class b (set_data x1 l)))) by apply lookup_insert_eq.
  destruct (rehash_ok L (L ∖ {[i]}) (L ∖ {[i]}) L off d3 ids i _ W3 (not_in_removed L i) (not_in_removed L i) E3) as (d4 & -> & W4 & P4 & _ & _ & R4). dred.
  rewrite !(remove_add L i Hi) in W4.
  destruct (proj2 (R4 _ (fun x => (place x, (uid_key x, hardware_addr x, starts x, host x))) (fun _ _ => eq_refl) (fun _ _ => eq_refl)) i _ E3) as (x4 & E4 & F4).
  pose proof (f_equal fst F4) as V4. pose proof (f_equal snd F4) as K4. clear F4. simpl in V4, K4. injection K4 as K4 HW4 ST4 HO4. rewrite (change_Done d4 i _ _ E4). dred.
  eexists lease', _, _. split; [done|]. split; [|split; [|split; [|split; [apply lookup_insert_eq|split; [done|]]]]].
  - apply wf_upto; [done|]. by apply upto_change.
  - eapply steady_but_trans; [exact S1|]. eapply steady_but_trans; [apply (insert_steady_but (lease_store d1) i _ (with_class b (set_data x1 l)) E1)|]. rewrite <- S2.
    eapply steady_but_trans; [apply (insert_steady_but (lease_store d2) i _ (set_data c' (with_class b (set_data x1 l))) E2)|].
    eapply steady_but_trans; [apply steady_any, upto_steady, (R4 _ vitals (fun _ _ => eq_refl) (fun _ _ => eq_refl))|]. by eapply insert_steady_but.
  - transitivity (pools d2); [exact P4|congruence].
  - destruct Hcp as [K1 K2 K3 K4']. split; [split; (etransitivity; [|eassumption]); eassumption|]. split; [|done].
    change (place x4 = place (data l)). rewrite V4, Vc. unfold events in F1. change (place x1 = place (data l)). unfold place, queue_of.
    replace (binding_state x1) with (binding_state (data l)) by congruence. replace (pool x1) with (pool (data l)) by congruence.
    by replace (has_flag x1 RESERVED_LEASE) with (has_flag (data l) RESERVED_LEASE) by congruence.
Qed.

(** ** [supersede_lease] *)
Lemma next_event_ends (pl : pool_t queue) x : ends x <= next_event pl x.
Proof. unfold next_event. destruct (_ && _); [|lia]. destruct (Z.ltb_spec (ends x) (tsfp x)); lia. Qed.

Lemma move_states L off d ids i l nf commit propogate pimm :
  wf4 L L L L off d ids -> states_ok L d -> i ∈ L -> lease_store d !! i = Some l -> commit || negb pimm = true ->
  exists ok d' ids' l' p pl, move_lease cur_time nosync d i nf commit propogate pimm = Done (ok, d') /\ wf4 L L L L off d' ids' /\ states_ok L d' /\
    steady_but i (lease_store d) (lease_store d') /\ lease_store d' !! i = Some l' /\ pools d !! p = Some pl /\ pool (data l) = Some p /\ arrived pl nf (data l) l' /\ is_Some (pools d' !! p) /\ same_peers d d'.
Proof.
  intros Hw Hst Hi E Hc. destruct (move_lease_ok cur_time nosync L off d ids i l nf commit propogate pimm Hw Hi E (Hst i l Hi E) Hc)
    as (ok & d' & ids' & l' & p & pl & k & k' & Em & W' & Sb & Pe & Ep & Hp & E' & Ha & Hk & Hk' & Hr).
  exists ok, d', ids', l', p, pl. destruct (Pe p pl Ep) as (pl' & Ep' & _). split; [done|]. split; [done|]. split; [|split_and!; eauto].
  intros j lj Hj Ej. destruct (decide (j = i)) as [->|N].
  - replace lj with l' by congruence. rewrite (ar_next _ _ _ _ Ha). apply following_valid. by apply (Hst i l).
  - assert (is_Some (lease_store d !! j)) as [l1 E1]. { apply elem_of_dom. rewrite <- (proj1 Sb). by apply elem_of_dom_2 in Ej. }
    destruct (proj2 Sb j l1 N E1) as (l2 & E2 & _ & V). replace lj with l2 by congruence. destruct (vitals_inv _ _ V) as (_ & -> & _). by apply (Hst j l1).
Qed.

(** The move and the expiry event that may follow it. *)
Definition move_and_expire (d : db (W := W)) (i : nat) (lease : option ldata) (nf : option Z) (commit propogate pimm from_pool : bool) :
    outcome (bool * option ldata * db (W := W)) :=
  '(ok, d) ← move_lease cur_time nosync d i nf commit propogate pimm;
  if negb ok then Done (false, lease, d)
  else
    l ← get (lease_store d) i;
    if negb from_pool && (commit || negb pimm) && (sort_time l <? cur_time) && negb (next_binding_state (data l) =? binding_state (data l))
    then match pool (data l) with
         | Some p => d ← pool_timer cur_time nosync d p; Done (true, lease, d)
         | None => Fault
         end
    else Done (true, lease, d).

Lemma move_and_expire_ok L off d ids i l lease nf commit propogate pimm from_pool :
  wf4 L L L L off d ids -> states_ok L d -> i ∈ L -> lease_store d !! i = Some l -> commit || negb pimm = true ->
  exists ok d' ids' l' p pl, move_and_expire d i lease nf commit propogate pimm from_pool = Done (ok, lease, d') /\
    wf4 L L L L off d' ids' /\ states_ok L d' /\ same_peers d d' /\ lease_store d' !! i = Some l' /\ pools d !! p = Some pl /\ pool (data l) = Some p /\
    (cur_time <= ends (data l) \/ from_pool = true \/ following (failover_peer pl) (next_binding_state (data l)) = next_binding_state (data l) ->
       arrived pl nf (data l) l' /\ steady_but i (lease_store d) (lease_store d')).
Proof.
  intros Hw Hst Hi E Hc. destruct (move_states L off d ids i l nf commit propogate pimm Hw Hst Hi E Hc)
    as (ok & d1 & ids1 & l1 & p & pl & Em & W1 & S1 & Sb & E1 & Ep & Hp & Ha & [pl1 Ep1] & Pe1).
  unfold move_and_expire. rewrite Em. dred. destruct ok; simpl; [|by exists false, d1, ids1, l1, p, pl]. rewrite (get_Done _ _ _ E1). dred. rewrite Hc.
  destruct (negb from_pool && true && (sort_time l1 <? cur_time) && _) eqn:Et; [|by exists true, d1, ids1, l1, p, pl].
  rewrite (ar_pool _ _ _ _ Ha), Hp. destruct (pool_timer_ok cur_time nosync L off d1 ids1 p pl1 W1 S1 Ep1) as (dr & d2 & ids2 & -> & R & C & S2 & Pe2 & _). dred.
  destruct (run_wf _ _ _ _ _ _ _ _ R W1 S1) as (Wr & _ & _). assert (is_Some (lease_store d2 !! i)) as [l2 E2].
  { apply elem_of_dom. rewrite (proj1 (proj1 (proj2 C))). assert (Hd : is_Some (lease_store dr !! i)) by (destruct (qo_all _ _ _ _ _ (wf_queues _ _ _ _ _ _ _ Wr) i Hi) as (lr & _ & _ & _ & Er & _); eauto).
    by apply elem_of_dom. }
  exists true, d2, ids2, l2, p, pl. split; [done|]. split; [apply C|]. split; [done|]. split; [by etransitivity|]. split; [done|]. split; [done|]. split; [done|].
  intros Hor. exfalso. rewrite !andb_true_iff, negb_true_iff, Z.ltb_lt in Et. destruct Et as [[[Ef _] Hlt] Hn]. destruct Hor as [Hge|[Hf|Hf]]; [|congruence|].
  2:{ apply negb_true_iff, Z.eqb_neq in Hn. rewrite (ar_next _ _ _ _ Ha), (ar_state _ _ _ _ Ha) in Hn. congruence. }
  rewrite (ar_time _ _ _ _ Ha) in Hlt. pose proof (next_event_ends pl (data l1)). rewrite (ar_ends _ _ _ _ Ha) in *. lia.
Qed.

Lemma supersede_new_ok L off d ids i l lease commit propogate pimm from_pool :
  wf4 L L L L off d ids -> states_ok L d -> i ∈ L -> lease_store d !! i = Some l -> sample_ok d lease ->
  commit || negb pimm = true -> has_flag lease STATIC_LEASE = false ->
  exists ok lease' d' ids' l' p pl, supersede_lease cur_time nosync d i (Some lease) commit propogate pimm from_pool = Done (ok, Some lease', d') /\
    wf4 L L L L off d' ids' /\ states_ok L d' /\ same_peers d d' /\ lease_store d' !! i = Some l' /\ pools d !! p = Some pl /\ pool (data l) = Some p /\
    (cur_time <= ends lease \/ following (failover_peer pl) (next_binding_state lease) = next_binding_state lease ->
       binding_state (data l') = next_binding_state lease /\ next_binding_state (data l') = following (failover_peer pl) (next_binding_state lease) /\
       ends (data l') = ends lease /\ uid_key (data l') = uid_key lease /\ hardware_addr (data l') = hardware_addr lease /\
       sort_time l' = next_event pl (data l') /\ steady_but i (lease_store d) (lease_store d')).
Proof.
  intros Hw Hst Hi E Hs Hc Hfl. destruct (copy_lease_ok L off d ids i l lease Hw Hi E Hs) as (lease' & d1 & l1 & Ec & W1 & Sb & P1 & E1 & Fl & Hcp & Hpl & Hn & He).
  assert (S1 : states_ok L d1).
  { intros j lj Hj Ej. destruct (decide (j = i)) as [->|N]; [replace lj with l1 by congruence; rewrite Hn; apply Hs|].
    assert (is_Some (lease_store d !! j)) as [l2 E2]. { apply elem_of_dom. rewrite <- (proj1 Sb). by apply elem_of_dom_2 in Ej. }
    destruct (proj2 Sb j l2 N E2) as (l3 & E3 & _ & V). replace lj with l3 by congruence. destruct (vitals_inv _ _ V) as (_ & -> & _). by apply (Hst j l2). }
  destruct (move_and_expire_ok L off d1 ids i l1 (Some lease') (Some (flags lease')) commit propogate pimm from_pool W1 S1 Hi E1 Hc)
    as (ok & d2 & ids2 & l2 & p & pl & Em & W2 & S2 & Pe & E2 & Ep & Hp & Harr).
  exists ok, lease', d2, ids2, l2, p, pl. split; [|split; [done|split; [done|split; [|split; [done|split; [congruence|split]]]]]].
  - unfold supersede_lease, supersede_body. assert (pimm && negb commit = false) as -> by (by destruct pimm, commit). rewrite Hfl, Ec. dred. exact Em.
  - intros q plq Eq. apply Pe. by rewrite P1.
  - unfold place in Hpl. congruence.
  - intros Hge. destruct Harr as [Ha Sb2]; [rewrite He, Hn; destruct Hge; auto|]. destruct Hcp as [K1 K2 K3 K4].
    split; [rewrite (ar_state _ _ _ _ Ha); congruence|]. split; [rewrite (ar_next _ _ _ _ Ha); congruence|]. split; [rewrite (ar_ends _ _ _ _ Ha); congruence|].
    split; [rewrite (ar_uid _ _ _ _ Ha); congruence|]. split; [rewrite (ar_hw _ _ _ _ Ha); congruence|]. split; [apply Ha|]. by eapply steady_but_trans.
Qed.

(** C19: [supersede_lease] with a new lease always returns and keeps the whole
    database in order: every lease is on the queue of its state, the tables
    list each lease under the identifiers it now has, and the billing adds up.
    Unless the new lease has already expired, the lease then is in the state it
    was to enter, with the end, the client identifier and the hardware address
    of the new one, due at the time of its next event; no other lease has
    changed state or owner. *)
Theorem supersede_lease_correct L off d ids i l lease commit propogate pimm from_pool :
  wf4 L L L L off d ids -> states_ok L d -> i ∈ L -> lease_store d !! i = Some l -> sample_ok d lease ->
  commit || negb pimm = true -> has_flag lease STATIC_LEASE = false ->
  exists ok lease' d' ids' l' p pl, supersede_lease cur_time nosync d i (Some lease) commit propogate pimm from_pool = Done (ok, Some lease', d') /\
    wf4 L L L L off d' ids' /\ states_ok L d' /\ lease_store d' !! i = Some l' /\ pools d !! p = Some pl /\ pool (data l) = Some p /\
    (cur_time <= ends lease ->
       binding_state (data l') = next_binding_state lease /\ next_binding_state (data l') = following (failover_peer pl) (next_binding_state lease) /\
       ends (data l') = ends lease /\ uid_key (data l') = uid_key lease /\ hardware_addr (data l') = hardware_addr lease /\
       sort_time l' = next_event pl (data l') /\ steady_but i (lease_store d) (lease_store d')).
Proof.
  intros Hw Hst Hi E Hs Hc Hfl. destruct (supersede_new_ok L off d ids i l lease commit propogate pimm from_pool Hw Hst Hi E Hs Hc Hfl)
    as (ok & lease' & d' & ids' & l' & p & pl & H1 & H2 & H3 & _ & H4 & H5 & H6 & H7). exists ok, lease', d', ids', l', p, pl. split_and!; auto.
Qed.

(** ** [release_lease] and [abandon_lease] *)
Lemma calm_states Q U H B off d d' ids L : calm Q U H B off d d' ids -> states_ok L d -> states_ok L d'.
Proof.
  intros (_ & [D Hs] & _) Hst j lj Hj Ej. assert (is_Some (lease_store d !! j)) as [l E]. { apply elem_of_dom. rewrite <- D. by apply elem_of_dom_2 in Ej. }
  destruct (Hs j l E) as (l2 & E2 & _ & V). replace lj with l2 by congruence. destruct (vitals_inv _ _ V) as (_ & -> & _). by apply (Hst j l).
Qed.

Lemma released_valid pr x : released_state pr x = FTS_FREE \/ released_state pr x = FTS_BACKUP \/ released_state pr x = FTS_RELEASED.
Proof.
  unfold released_state, may_rewind. destruct pr as [p|]; [|by left]. destruct (bool_decide _ && _) eqn:E; [|by right; right].
  apply andb_true_iff in E as [_ E]. apply orb_true_iff in E as [E|E]; apply andb_true_iff in E as [_ E]; apply Z.eqb_eq in E; auto.
Qed.

(** Releasing a lease that is in use ends it now: it goes to the free state
    (or, with a failover peer, waits as released for the peer's consent, or
    returns to the state the peer last saw), and the database stays in order.
    A lease that is not in use keeps its state. *)
Lemma release_lease_correct L off d ids i l p pl :
  wf4 L L L L off d ids -> states_ok L d -> i ∈ L -> lease_store d !! i = Some l -> pool (data l) = Some p -> pools d !! p = Some pl ->
  exists d' ids' l', release_lease cur_time nosync d i = Done d' /\ wf4 L L L L off d' ids' /\ states_ok L d' /\ lease_store d' !! i = Some l' /\
    (binding_state (data l) = FTS_ACTIVE \/ binding_state (data l) = FTS_ABANDONED ->
       ends (data l') = cur_time /\ (failover_peer pl = None -> binding_state (data l') = FTS_FREE) /\
       (binding_state (data l') = FTS_FREE \/ binding_state (data l') = FTS_BACKUP \/ binding_state (data l') = FTS_RELEASED)) /\
    (binding_state (data l) <> FTS_ACTIVE -> binding_state (data l) <> FTS_ABANDONED -> binding_state (data l') = binding_state (data l)).
Proof.
  intros Hw Hst Hi E Hp Ep. unfold release_lease. set (r := ddns_removals _ _ _ _). cbv zeta.
  pose proof (calm_world _ _ _ _ _ _ _ r Hw (ddns_kept _ _ _ _)) as C1. destruct (calm_lookup _ _ _ _ _ _ _ _ _ _ C1 E) as (l1 & E1 & _ & V1).
  rewrite (lease_at_Done _ _ _ E1). dred.
  destruct (run_ok _ _ _ _ _ _ _ i (on_release (data l1)) (set_on_release None) (proj1 C1)) as (d2 & -> & C2); [eauto|done|]. dred.
  destruct (calm_lookup _ _ _ _ _ _ _ _ _ _ C2 E1) as (l2 & E2 & _ & V2).
  destruct (calm_change _ _ _ _ _ _ _ i l2 (set_on_expiry None) (proj1 C2) E2 eq_refl eq_refl) as (d3 & -> & C3). dred.
  destruct (calm_lookup _ _ _ _ _ _ _ _ _ _ C3 E2) as (l3 & E3 & _ & V3). rewrite (lease_at_Done _ _ _ E3). dred.
  pose proof (calm_trans _ _ _ _ _ _ _ _ _ C1 (calm_trans _ _ _ _ _ _ _ _ _ C2 C3)) as C13. assert (S3 : states_ok L d3) by (by eapply calm_states).
  assert (V13 : vitals (data l3) = vitals (data l)) by congruence. destruct (vitals_inv _ _ V13) as (Vb & _ & _ & Vp & _).
  assert (Hv : 1 <= binding_state (data l) <= 7).
  { destruct (qo_all _ _ _ _ _ (wf_queues _ _ _ _ _ _ _ Hw) i Hi) as (l0 & _ & _ & k & E0 & _ & _ & Hk & _). replace l0 with l in Hk by congruence. by eapply queue_of_valid. }
  case_bool_decide as Hb; rewrite Vb in Hb.
  { exists d3, ids, l3. split; [done|]. split; [apply C13|]. split; [done|]. split; [done|]. split; [|done].
    intros [Hx|Hx]; rewrite Hx in Hb; exfalso; revert Hb; apply (bool_decide_unpack _); by vm_compute. }
  unfold peer_of. rewrite Vp, Hp. rewrite (pool_at_Done d3 p pl) by (rewrite (proj2 (proj2 C13)); done). dred.
  match goal with |- context [change d3 i ?f] => destruct (change_ok L L L L off d3 ids i l3 f (proj1 C13) E3 eq_refl) as (d4 & -> & W4 & P4 & S4) end. dred.
  assert (E4 : exists x4, lease_store d4 !! i = Some (set_data x4 l3) /\ next_binding_state x4 = released_state (failover_peer pl) (data l3) /\
    ends x4 = cur_time /\ pool x4 = Some p).
  { eexists. split; [rewrite S4; apply lookup_insert_eq|]. split; [done|]. split; [done|]. simpl. congruence. }
  destruct E4 as (x4 & E4 & N4 & En4 & Hp4). pose proof (released_valid (failover_peer pl) (data l3)) as Hrel.
  assert (St4 : states_ok L d4).
  { intros j lj Hj Ej. destruct (decide (j = i)) as [->|N].
    - replace lj with (set_data x4 l3) by congruence. simpl. rewrite N4. unfold FTS_FREE, FTS_BACKUP, FTS_RELEASED in Hrel. lia.
    - rewrite S4, lookup_insert_ne in Ej by done. by apply (S3 j lj). }
  destruct (move_and_expire_ok L off d4 ids i _ None None true true true false W4 St4 Hi E4 eq_refl) as (ok & d5 & ids5 & l5 & p5 & pl5 & E5 & W5 & St5 & _ & El5 & Ep5 & Hp5 & Harr).
  assert (supersede_lease cur_time nosync d4 i None true true true false = Done (ok, None, d5)) as -> by exact E5. dred.
  exists d5, ids5, l5. split; [done|]. split; [done|]. split; [done|]. split; [done|].
  destruct Harr as [Ha _]; [left; simpl; lia|]. simpl in Hp5, Ha. replace p5 with p in * by congruence.
  assert (pl5 = pl) as -> by (rewrite P4, (proj2 (proj2 C13)) in Ep5; congruence).
  split.
  - intros _. rewrite (ar_ends _ _ _ _ Ha), (ar_state _ _ _ _ Ha), N4. split; [done|]. split; [|done]. intros Hnone. by rewrite Hnone.
  - intros Na Nb. exfalso. apply Hb. unfold FTS_ACTIVE, FTS_ABANDONED in *.
    assert (binding_state (data l) = 1 \/ binding_state (data l) = 7 \/ binding_state (data l) = 4 \/ binding_state (data l) = 3 \/ binding_state (data l) = 6) as [->|[->|[->|[->| ->]]]] by lia;
      apply (bool_decide_unpack _); by vm_compute.
Qed.

Lemma abandon_ends_range after : 0 <= after -> cur_time <= MAX_TIME -> cur_time <= abandon_ends cur_time after <= MAX_TIME.
Proof.
  intros Ha Hc. unfold abandon_ends. destruct (Z.ltb_spec (cur_time + after) cur_time); [lia|]. destruct (Z.ltb_spec MAX_TIME (cur_time + after)); simpl; lia.
Qed.

(** Abandoning a lease takes it from its client: afterwards it is abandoned
    until the configured time has passed, or at most until the largest time,
    has neither a client identifier nor a hardware address, and the database
    is in order. *)
Lemma abandon_lease_correct L off d ids i l after :
  wf4 L L L L off d ids -> states_ok L d -> i ∈ L -> lease_store d !! i = Some l -> has_flag (data l) STATIC_LEASE = false ->
  0 <= after -> cur_time <= MAX_TIME ->
  exists d' ids' l', abandon_lease cur_time nosync after d i = Done d' /\ wf4 L L L L off d' ids' /\ states_ok L d' /\ lease_store d' !! i = Some l' /\
    binding_state (data l') = FTS_ABANDONED /\ next_binding_state (data l') = FTS_FREE /\ ends (data l') = Z.min (cur_time + after) MAX_TIME /\
    uid_key (data l') = [] /\ hardware_addr (data l') = [].
Proof.
  intros Hw Hst Hi E Hs Ha Hc. unfold abandon_lease. set (r := ddns_removals _ _ _ _). cbv zeta.
  pose proof (calm_world _ _ _ _ _ _ _ r Hw (ddns_kept _ _ _ _)) as C1. destruct (proj2 (ddns_kept (world d) (lease_store d) i false) i l E) as (x1 & E1 & K1).
  set (d1 := with_world d r) in *. assert (E1' : lease_store d1 !! i = Some (set_data x1 l)) by exact E1. rewrite (lease_at_Done _ _ _ E1'). dred.
  set (lt := set_uid _ _). assert (Hsm : sample_ok d1 lt).
  { split; [done|]. split; [|unfold lt, FTS_ABANDONED; simpl; lia]. intros c Hcl. eapply bl_class; [apply (wf_billing _ _ _ _ _ _ _ (proj1 C1))|exact E1'|exact Hcl]. }
  assert (Hlt : has_flag lt STATIC_LEASE = false). { unfold core in K1. change (has_flag x1 STATIC_LEASE = false). congruence. }
  pose proof (abandon_ends_range after Ha Hc) as Hr.
  destruct (copy_lease_ok L off d1 ids i _ lt (proj1 C1) Hi E1' Hsm) as (lt' & d2 & l2 & Ec & W2 & Sb & P2 & E2 & Fl & Hcp & Hpl & Hn & He).
  assert (S2 : states_ok L d2).
  { intros j lj Hj Ej. destruct (decide (j = i)) as [->|N]; [replace lj with l2 by congruence; rewrite Hn; apply Hsm|].
    assert (is_Some (lease_store d1 !! j)) as [l3 E3]. { apply elem_of_dom. rewrite <- (proj1 Sb). by apply elem_of_dom_2 in Ej. }
    destruct (proj2 Sb j l3 N E3) as (l4 & E4 & _ & V). replace lj with l4 by congruence. destruct (vitals_inv _ _ V) as (_ & -> & _).
    by apply (calm_states _ _ _ _ _ _ _ _ _ C1 Hst j l3). }
  destruct (move_and_expire_ok L off d2 ids i l2 (Some lt') (Some (flags lt')) true true true false W2 S2 Hi E2 eq_refl)
    as (ok & d3 & ids3 & l3 & p & pl & Em & W3 & S3 & _ & E3 & Ep & Hp & Harr).
  assert (supersede_lease cur_time nosync d1 i (Some lt) true true true false = Done (ok, Some lt', d3)) as ->.
  { unfold supersede_lease, supersede_body. cbn [andb negb]. rewrite Hlt, Ec. dred. exact Em. }
  dred. exists d3, ids3, l3. split; [done|]. split; [done|]. split; [done|]. split; [done|].
  destruct Harr as [Har _]; [left; rewrite He; apply Hr|]. destruct Hcp as [K2 K3 _ _].
  rewrite (ar_state _ _ _ _ Har), (ar_next _ _ _ _ Har), (ar_ends _ _ _ _ Har), (ar_uid _ _ _ _ Har), (ar_hw _ _ _ _ Har), Hn, He, K2, K3.
  split; [done|]. split; [done|]. split; [|done]. change (abandon_ends cur_time after = Z.min (cur_time + after) MAX_TIME).
  unfold abandon_ends in *. destruct (Z.ltb_spec (cur_time + after) cur_time); [lia|]. destruct (Z.ltb_spec MAX_TIME (cur_time + after)); simpl in *; lia.
Qed.

(** ** Loading the database *)

(** The invariant while the leases of [L] have been loaded. *)
Definition loading L off d ids : Prop :=
  wf4 L L L L off d ids /\ states_ok L d /\ startup_ok true d ids.

Lemma unbilled Q U H B off d ids i l x :
  wf4 Q U H B off d ids -> i ∉ B -> lease_store d !! i = Some l -> place x = place (data l) -> billing_class x = None ->
  uid_key x = uid_key (data l) -> n_uid x = n_uid (data l) -> hardware_addr x = hardware_addr (data l) -> n_hw x = n_hw (data l) ->
  wf4 Q U H (B ∪ {[i]}) off (set_store (<[i := set_data x l]> (lease_store d)) d) ids.
Proof.
  intros [W1 W2 W3 [B1 B2 B3 B4 B5 B6] W5] HB E Hp Hb Hu Hnu Hh Hnh. split; simpl.
  - eapply queues_upto; [exact W1|]. by apply upto_change.
  - eapply (hash_ok_agree uid_link); [exact W2|]. apply upto_agree, upto_change; [done|]. simpl. congruence.
  - eapply (hash_ok_agree hw_link); [exact W3|]. apply upto_agree, upto_change; [done|]. simpl. congruence.
  - split; try done.
    + intros c cl j Ec Hj. destruct (B4 c cl j Ec Hj) as (HBj & lj & Ej & Hcj). split; [apply elem_of_union; by left|].
      rewrite lookup_insert_ne by (by intros ->). eauto.
    + intros j lj c [[<- <-]|[_ Ej]]%lookup_insert_Some Hcj; [simpl in Hcj; congruence|by eapply B5].
    + intros j lj c cl Hj [[<- <-]|[N Ej]]%lookup_insert_Some Hcj; [simpl in Hcj; congruence|].
      apply elem_of_union in Hj as [Hj|Hj%elem_of_singleton]; [by eapply B6|congruence].
  - rewrite (upto_size (fun _ => tt) (lease_store d)); [done|]. by apply upto_change.
Qed.

Lemma bill_loaded L off d ids i l :
  wf4 (L ∪ {[i]}) (L ∪ {[i]}) (L ∪ {[i]}) L off d ids -> i ∉ L -> lease_store d !! i = Some l ->
  exists d', (match billing_class (data l) with
              | None => Done d
              | Some c => d ← change d i (set_billing_class None);
                          if bool_decide (binding_state (data l) ∈ [FTS_ACTIVE; FTS_EXPIRED; FTS_RELEASED; FTS_RESET]) then db_bill d i c else Done d
              end) = Done d' /\
    wf4 (L ∪ {[i]}) (L ∪ {[i]}) (L ∪ {[i]}) (L ∪ {[i]}) off d' ids /\ statics d' = statics d /\ pools d' = pools d /\ upto vitals (lease_store d) (lease_store d').
Proof.
  intros Hw Hi E. destruct (billing_class (data l)) as [c|] eqn:Ec.
  - rewrite (change_Done _ _ _ _ E). dred. set (d1 := set_store _ d).
    assert (W1 : wf4 (L ∪ {[i]}) (L ∪ {[i]}) (L ∪ {[i]}) (L ∪ {[i]}) off d1 ids) by (by apply unbilled).
    assert (E1 : lease_store d1 !! i = Some (set_data (set_billing_class None (data l)) l)) by apply lookup_insert_eq.
    assert (U1 : upto vitals (lease_store d) (lease_store d1)) by (by apply upto_change).
    destruct (bool_decide _); [|by exists d1].
    destruct (db_bill_ok _ _ _ _ off d1 ids i (set_data (set_billing_class None (data l)) l) c W1 (or_intror eq_refl) E1) as (b & d2 & -> & W2 & P2 & St2 & S2).
    { eapply bl_class; [apply Hw|exact E|done]. }
    exists d2. split; [done|]. rewrite (add_present (L ∪ {[i]}) i) in W2 by (apply elem_of_union; right; by apply elem_of_singleton).
    split; [done|]. split; [done|]. split; [done|]. rewrite S2. eapply upto_trans; [exact U1|]. by apply upto_change.
  - exists d. split; [done|]. split; [|split; [done|split; [done|apply upto_refl]]].
    pose proof (unbilled _ _ _ _ _ d ids i l (data l) Hw Hi E eq_refl Ec eq_refl eq_refl eq_refl eq_refl) as W1.
    assert (Es : set_store (<[i := set_data (data l) l]> (lease_store d)) d = d).
    { rewrite (insert_id (lease_store d) i); [by destruct d|]. rewrite E. by destruct l. }
    by rewrite Es in W1.
Qed.

(** Whether the lease goes onto a queue. *)
Definition loads (l : lease ldata) : bool := match pool (data l), queue_of (data l) with Some _, Some _ => true | _, _ => false end.

Lemma lease_instantiate_ok L off d ids i l :
  loading L off d ids -> i ∉ L -> lease_store d !! i = Some l -> 1 <= next_binding_state (data l) <= 7 ->
  exists d' ids', lease_instantiate d i = Done d' /\ loading (if loads l then L ∪ {[i]} else L) off d' ids' /\
    steady_but i (lease_store d) (lease_store d') /\ same_peers d d'.
Proof.
  intros (Hw & Hst & Hg) Hi E Hn. unfold lease_instantiate, loads. rewrite (lease_at_Done _ _ _ E). dred.
  destruct (pool (data l)) as [p|] eqn:Hp.
  2:{ eexists _, ids. split; [done|]. split; [|split; [by apply steady_any|intros q plq Eq; eauto]]. destruct Hw. by split. }
  destruct (qo_pool _ _ _ _ _ (wf_queues _ _ _ _ _ _ _ Hw) i l p E Hp) as [pl Ep]. rewrite (pool_at_Done _ _ _ Ep). dred.
  match goal with |- context [if ?c then change d i ?f else _] => assert (exists d1 l1, (if c then change d i f else Done d) = Done d1 /\ wf4 L L L L off d1 ids /\
    pools d1 = pools d /\ statics d1 = statics d /\ lease_store d1 = <[i := l1]> (lease_store d) /\ pool (data l1) = Some p /\
    (is_Some (queue_of (data l1)) <-> is_Some (queue_of (data l))) /\ 1 <= next_binding_state (data l1) <= 7)
    as (d1 & l1 & -> & W1 & P1 & St1 & S1 & Hp1 & Hq1 & Hn1) end.
  { destruct ((binding_state (data l) =? FTS_BACKUP) && _) eqn:Eb.
    - rewrite (change_Done _ _ _ _ E). eexists _, _. split; [done|]. split; [by apply wf_outside|]. split; [done|]. split; [done|]. split; [done|]. split; [done|].
      apply andb_true_iff in Eb as [Eb _]. apply Z.eqb_eq in Eb. split; [|simpl; unfold FTS_FREE; lia]. unfold queue_of. simpl. rewrite Eb. simpl.
      split; intros _; eauto.
    - exists d, l. split; [done|]. split; [done|]. split; [done|]. split; [done|]. split; [by rewrite insert_id|]. done. }
  dred. assert (E1 : lease_store d1 !! i = Some l1) by (rewrite S1; apply lookup_insert_eq).
  assert (Sb1 : steady_but i (lease_store d) (lease_store d1)) by (rewrite S1; by eapply insert_steady_but).
  destruct (queue_of (data l1)) as [k|] eqn:Hk1.
  2:{ assert (queue_of (data l) = None) as ->. { destruct (queue_of (data l)); [|done]. by destruct Hq1 as [_ [? ?]]; [eauto|]. }
      exists d1, ids. split.
      - unfold lease_enqueue. rewrite (get_Done _ _ _ E1). dred. rewrite Hp1. rewrite (pool_at_Done _ _ pl) by congruence. dred. by rewrite Hk1.
      - split; [|split; [done|intros q plq Eq; rewrite P1; eauto]]. split; [done|]. split; [|intros q k; rewrite St1; apply Hg].
        intros j lj Hj Ej. rewrite S1, lookup_insert_ne in Ej by (by intros ->). by apply (Hst j lj). }
  assert (is_Some (queue_of (data l))) as [k0 ->] by (apply Hq1; eauto).
  destruct (lease_enqueue_ok true L L L L off d1 ids i l1 p k W1) as (d2 & l2 & a & b & pl2 & -> & Ea & W2 & Hg2 & Sb2 & Pe2 & E2 & D2 & _ & _ & _); try done.
  { intros q k'. rewrite St1. apply Hg. }
  dred. cbn [negb]. destruct (rehash_ok _ _ _ _ _ d2 _ i l2 W2 Hi Hi E2) as (d3 & -> & W3 & P3 & _ & St3 & R3). dred.
  destruct (proj2 (R3 _ vitals (fun _ _ => eq_refl) (fun _ _ => eq_refl)) i l2 E2) as (x3 & E3 & V3). rewrite (lease_at_Done _ _ _ E3). dred.
  destruct (bill_loaded L off d3 _ i _ W3 Hi E3) as (d4 & -> & W4 & St4 & P4 & U4).
  exists d4, (set_ids ids p k (a ++ i :: b)). split; [done|].
  assert (Sb : steady_but i (lease_store d) (lease_store d4)).
  { eapply steady_but_trans; [exact Sb1|]. eapply steady_but_trans; [exact Sb2|]. apply steady_any. etransitivity; apply upto_steady; [by apply R3|exact U4]. }
  split; [split; [done|split]|split; [done|]].
  - intros j lj Hj Ej. destruct (decide (j = i)) as [->|N].
    + destruct (proj2 U4 i _ E3) as (x4 & E4 & V4). replace lj with (set_data x4 (set_data x3 l2)) by congruence. simpl in V4 |- *.
      destruct (vitals_inv _ _ V4) as (_ & -> & _), (vitals_inv _ _ V3) as (_ & -> & _). by rewrite D2.
    + apply elem_of_union in Hj as [Hj|Hj%elem_of_singleton]; [|done].
      assert (is_Some (lease_store d !! j)) as [l5 E5]. { apply elem_of_dom. rewrite <- (proj1 Sb). by apply elem_of_dom_2 in Ej. }
      destruct (proj2 Sb j l5 N E5) as (l6 & E6 & _ & V). replace lj with l6 by congruence. destruct (vitals_inv _ _ V) as (_ & -> & _). by apply (Hst j l5).
  - intros q k'. rewrite St4, St3. apply Hg2.
  - intros q plq Eq. rewrite <- P1 in Eq. destruct (Pe2 q plq Eq) as (plq2 & Eq2 & Pq). rewrite P4, P3. eauto.
Qed.

Lemma loads_vitals l l' : vitals (data l') = vitals (data l) -> loads l' = loads l.
Proof.
  intros V. destruct (vitals_inv _ _ V) as (E1 & _ & E2 & E3 & _). unfold loads. rewrite E3. destruct (pool (data l)); [|done].
  unfold queue_of. by rewrite E1, E2.
Qed.

Lemma instantiate_all_ok off all : forall L d ids,
  loading L off d ids -> NoDup all -> (forall i, i ∈ all -> i ∉ L) ->
  (forall i, i ∈ all -> exists l, lease_store d !! i = Some l /\ 1 <= next_binding_state (data l) <= 7) ->
  exists d' L' ids', for_each lease_instantiate d all = Done d' /\ loading L' off d' ids' /\ same_peers d d' /\
    (forall i l, lease_store d !! i = Some l -> (i ∈ L' <-> i ∈ L \/ i ∈ all /\ loads l = true)).
Proof.
  induction all as [|i all IH]; intros L d ids Hl Hn Hout Hsome; simpl.
  { exists d, L, ids. split; [done|]. split; [done|]. split; [done|]. intros i l _. split; [by left|]. intros [?|[?%not_elem_of_nil _]]; done. }
  apply NoDup_cons in Hn as [Ni Hn]. destruct (Hsome i) as (l & E & Hv); [by constructor|].
  destruct (lease_instantiate_ok L off d ids i l Hl) as (d1 & ids1 & -> & L1 & Sb & Pe); [apply Hout; by constructor|done..|]. dred.
  assert (Hmem : forall j, j <> i -> j ∈ (if loads l then L ∪ {[i]} else L) <-> j ∈ L).
  { intros j N. destruct (loads l); [|done]. rewrite elem_of_union, elem_of_singleton. split; [by intros [?|?]|by left]. }
  destruct (IH (if loads l then L ∪ {[i]} else L) d1 ids1 L1 Hn) as (d2 & L2 & ids2 & -> & Hl2 & Pe2 & Hm2).
  { intros j Hj. rewrite Hmem by (by intros ->). apply Hout. by right. }
  { intros j Hj. destruct (Hsome j) as (lj & Ej & Hvj); [by right|]. destruct (proj2 Sb j lj ltac:(by intros ->) Ej) as (l' & E' & _ & V).
    exists l'. split; [done|]. by destruct (vitals_inv _ _ V) as (_ & -> & _). }
  exists d2, L2, ids2. split; [done|]. split; [done|]. split; [by etransitivity|]. intros j lj Ej. destruct (decide (j = i)) as [->|N].
  - assert (is_Some (lease_store d1 !! i)) as [l1 E1]. { apply elem_of_dom. rewrite (proj1 Sb). by apply elem_of_dom_2 in Ej. }
    replace lj with l by congruence. rewrite (Hm2 i l1 E1). assert (Hi : i ∉ L) by (apply Hout; by constructor). split.
    + intros [Hj|[? _]]; [|done]. destruct (loads l); [right; split; [by constructor|done]|by left].
    + intros [?|[_ ->]]; [done|]. left. apply elem_of_union. right. by apply elem_of_singleton.
  - destruct (proj2 Sb j lj N Ej) as (l1 & E1 & _ & V). rewrite (Hm2 j l1 E1), (loads_vitals lj l1 V), Hmem by done.
    rewrite elem_of_cons. split; [intros [?|[? ?]]; auto|intros [?|[[?|?] ?]]; [auto|done|auto]].
Qed.

(** ** Counting the leases of a pool *)
Definition due s (j : nat) : bool := match s !! j with Some l => ends (data l) <=? cur_time | None => false end.
Definition due_count s (js : list nat) : Z := zlen (List.filter (due s) js).
Definition counted (k want : qkind) s (js : list nat) : Z := if decide (k = want) then due_count s js else 0.

Lemma due_steady s s' j : steady s s' -> due s' j = due s j.
Proof.
  intros [D Hs]. unfold due. destruct (s !! j) as [l|] eqn:E.
  - destruct (Hs j l E) as (l' & -> & _ & V). by destruct (vitals_inv _ _ V) as (_ & _ & _ & _ & -> & _).
  - destruct (s' !! j) as [l'|] eqn:E'; [|done]. apply elem_of_dom_2 in E'. rewrite D in E'. apply elem_of_dom in E' as [? ?]. congruence.
Qed.
Lemma due_count_steady s s' js : steady s s' -> due_count s' js = due_count s js.
Proof.
  intros Hs. unfold due_count. f_equal. induction js as [|j js IH]; simpl; [done|]. by rewrite (due_steady s s' j Hs), IH.
Qed.

Lemma recount_queue_ok L off p pl k fuel : forall d ids pre todo n f b,
  wf4 L L L L off d ids -> pools d !! p = Some pl -> ids p k = pre ++ todo -> (length todo < fuel)%nat ->
  exists d', recount_queue cur_time fuel d p k (head todo) n f b =
    Done (d', (n + zlen todo, f + counted k FREE_LEASES (lease_store d) todo, b + counted k BACKUP_LEASES (lease_store d) todo)) /\
    calm L L L L off d d' ids.
Proof.
  induction fuel as [|fuel IH]; intros d ids pre todo n f b Hw Ep Ek Hf; [lia|]. destruct todo as [|i todo]; cbn [recount_queue head].
  { exists d. split; [|by apply calm_refl]. unfold counted, due_count, zlen. simpl. destruct (decide _), (decide _); by rewrite !Z.add_0_r. }
  pose proof (wf_queues _ _ _ _ _ _ _ Hw) as Hqs. assert (Hin : i ∈ ids p k) by (rewrite Ek; apply elem_of_app; right; by constructor).
  destruct (qo_in _ _ _ _ _ Hqs p k i Hin) as (Hi & l & E & Hp & Hk). rewrite (lease_at_Done _ _ _ E). dred. rewrite (pool_at_Done _ _ _ Ep). dred.
  set (one want := if decide (k = want) then (if due (lease_store d) i then 1 else 0) else 0).
  match goal with |- context [(if ends (data l) <=? cur_time then ?x else ?y) ≫= _] => assert ((if ends (data l) <=? cur_time then x else y) =
    Done (f + one FREE_LEASES, b + one BACKUP_LEASES)) as -> end.
  { unfold one, due. rewrite E. unfold queue_of in Hk. destruct (ends (data l) <=? cur_time); [|by destruct (decide _), (decide _); rewrite !Z.add_0_r].
    destruct (binding_state (data l) =? FTS_FREE) eqn:E1.
    - injection Hk as <-. destruct (has_flag _ _); simpl; by rewrite ?Z.add_0_r.
    - destruct (binding_state (data l) =? FTS_BACKUP) eqn:E2.
      + apply Z.eqb_eq in E2. rewrite E2 in Hk. simpl in Hk. injection Hk as <-. destruct (has_flag _ _); simpl; by rewrite ?Z.add_0_r.
      + repeat case_match; simplify_eq; simpl; by rewrite ?Z.add_0_r. }
  dred.
  match goal with |- context [match failover_peer pl with Some _ => ?x | None => _ end ≫= _] => assert (exists d1, (match failover_peer pl with Some _ => x | None => Done d end) = Done d1 /\
    calm L L L L off d d1 ids) as (d1 & -> & C1) end.
  { destruct (failover_peer pl); [|exists d; split; [done|by apply calm_refl]]. destruct (_ && _); [|exists d; split; [done|by apply calm_refl]].
    destruct (calm_change L L L L off d ids i l (fun l => set_desired_binding_state (binding_state l) l) Hw E eq_refl eq_refl) as (d1 & -> & C1). dred.
    destruct (queue_update_ok L L L L off d1 ids i true (proj1 C1)) as (d2 & -> & C2); [by eapply calm_some|]. exists d2. split; [done|]. by eapply calm_trans. }
  dred. pose proof C1 as (W1 & S1 & P1). assert (Ep1 : pools d1 !! p = Some pl) by congruence.
  pose proof (qo_on _ _ _ _ _ (wf_queues _ _ _ _ _ _ _ W1) p pl k Ep1) as Hq. rewrite Ek in Hq. rewrite (queue_next _ _ _ pre i todo Hq). dred.
  simpl in Hf. destruct (IH d1 ids (pre ++ [i]) todo (n + 1) (f + one FREE_LEASES) (b + one BACKUP_LEASES) W1 Ep1) as (d2 & -> & C2); [by rewrite <- app_assoc|lia|].
  exists d2. split; [|by eapply calm_trans]. do 2 f_equal. rewrite zlen_cons. unfold counted. rewrite !(due_count_steady (lease_store d) (lease_store d1) todo S1).
  assert (Hone : forall want, one want + (if decide (k = want) then due_count (lease_store d) todo else 0) = (if decide (k = want) then due_count (lease_store d) (i :: todo) else 0)).
  { intros want. unfold one, due_count. destruct (decide (k = want)); [|done]. simpl. destruct (due (lease_store d) i); [rewrite zlen_cons|]; lia. }
  f_equal; [f_equal; [lia|rewrite <- Hone; lia]|rewrite <- Hone; lia].
Qed.

Definition sum_over (f : qkind -> Z) (ks : list qkind) : Z := foldr (fun k a => f k + a) 0 ks.

Lemma sum_counted_steady want s s' (js : qkind -> list nat) ks : steady s s' ->
  sum_over (fun k => counted k want s' (js k)) ks = sum_over (fun k => counted k want s (js k)) ks.
Proof.
  intros Hs. induction ks as [|k ks IH]; simpl; [done|]. rewrite IH. f_equal. unfold counted. by rewrite (due_count_steady s s').
Qed.

Lemma recount_queues_ok L off p pl ids ks : forall d n f b,
  wf4 L L L L off d ids -> pools d !! p = Some pl ->
  exists d', recount_queues cur_time ks d p n f b =
    Done (d', (n + sum_over (fun k => zlen (ids p k)) ks, f + sum_over (fun k => counted k FREE_LEASES (lease_store d) (ids p k)) ks,
               b + sum_over (fun k => counted k BACKUP_LEASES (lease_store d) (ids p k)) ks)) /\ calm L L L L off d d' ids.
Proof.
  induction ks as [|k ks IH]; intros d n f b Hw Ep; cbn [recount_queues sum_over foldr].
  { exists d. rewrite !Z.add_0_r. split; [done|by apply calm_refl]. }
  rewrite (pool_at_Done _ _ _ Ep). dred. pose proof (qo_on _ _ _ _ _ (wf_queues _ _ _ _ _ _ _ Hw) p pl k Ep) as Hq. rewrite (queue_first _ _ _ _ Hq). dred.
  destruct (recount_queue_ok L off p pl k (S (size (lease_store d))) d ids [] (ids p k) n f b Hw Ep eq_refl) as (d1 & -> & C1).
  { assert (length (ids p k) <= size (lease_store d))%nat; [|lia]. apply ids_size; [by apply (on_queue_order _ _ _ _ Hq)|by eapply queues_some, wf_queues]. }
  dred. destruct C1 as (W1 & S1 & P1).
  destruct (IH d1 (n + zlen (ids p k)) (f + counted k FREE_LEASES (lease_store d) (ids p k)) (b + counted k BACKUP_LEASES (lease_store d) (ids p k)) W1) as (d2 & -> & C2); [congruence|].
  exists d2. split; [|by eapply calm_trans; [split|]].
  rewrite !(sum_counted_steady _ (lease_store d) (lease_store d1)) by done. unfold sum_over. do 2 f_equal. f_equal; [f_equal|]; lia.
Qed.

Definition set_off (off : nat -> Z * Z) (p : nat) (v : Z * Z) : nat -> Z * Z := fun q => if decide (q = p) then v else off q.

Lemma wf_counts L off d ids p pl n f b :
  wf4 L L L L off d ids -> pools d !! p = Some pl ->
  wf4 L L L L (set_off off p (zlen (ids p FREE_LEASES) - f, zlen (ids p BACKUP_LEASES) - b)) (put_pool d p (set_counts n f b pl)) ids.
Proof.
  intros [[H1 H2 H3 H4 H5 H6] W2 W3 W4 W5] Ep. split; simpl; try done. split; try done.
  - intros p' pl' k [[<- <-]|[N Ep']]%lookup_insert_Some; [|by apply H1]. change (lptr (set_counts n f b pl) k) with (lptr pl k). by apply H1.
  - intros i Hi. destruct (H3 i Hi) as (l & p' & pl' & k & E & Hp & Ep' & Hk & Hin). destruct (decide (p = p')) as [<-|N].
    + exists l, p. eexists _, k. by rewrite lookup_insert_eq.
    + exists l, p', pl', k. by rewrite lookup_insert_ne.
  - intros i l p' E Hp. destruct (decide (p = p')) as [<-|N]; [rewrite lookup_insert_eq; eauto|rewrite lookup_insert_ne by done; eauto].
  - intros p' pl' [[<- <-]|[N Ep']]%lookup_insert_Some; unfold set_off.
    + rewrite decide_True by done. simpl. lia.
    + rewrite decide_False by done. by apply H6.
Qed.

Lemma expire_pool_ok L off d ids p pl :
  wf4 L L L L off d ids -> states_ok L d -> pools d !! p = Some pl ->
  exists d' ids' pl' off', expire_pool cur_time nosync d p = Done d' /\ wf4 L L L L off' d' ids' /\ states_ok L d' /\ same_peers d d' /\
    pools d' !! p = Some pl' /\ lease_count pl' = sum_over (fun k => zlen (ids' p k)) all_kinds /\
    free_leases pl' = due_count (lease_store d') (ids' p FREE_LEASES) /\ backup_leases pl' = due_count (lease_store d') (ids' p BACKUP_LEASES).
Proof.
  intros Hw Hst Ep. unfold expire_pool. destruct (pool_timer_ok cur_time nosync L off d ids p pl Hw Hst Ep) as (dr & d1 & ids1 & -> & _ & (W1 & _ & _) & S1 & P1 & _). dred.
  destruct (P1 p pl Ep) as (pl1 & Ep1 & Hpe1). destruct (recount_queues_ok L off p pl1 ids1 all_kinds d1 0 0 0 W1 Ep1) as (d2 & -> & C2). dred.
  pose proof C2 as (W2 & St2 & P2). rewrite (pool_at_Done _ _ pl1) by congruence. dred.
  eexists _, ids1, _, _. split; [done|]. split; [apply wf_counts; [done|congruence]|]. split; [|split; [|split; [apply lookup_insert_eq|]]].
  - match goal with |- states_ok L (put_pool d2 _ _) => change (states_ok L d2) end. by eapply calm_states.
  - etransitivity; [exact P1|]. intros q plq Eq. simpl. rewrite P2. destruct (decide (p = q)) as [<-|N].
    + rewrite lookup_insert_eq. eexists. split; [done|]. simpl. congruence.
    + rewrite lookup_insert_ne by done. eauto.
  - simpl. rewrite !(due_count_steady (lease_store d1) (lease_store d2)) by done. unfold counted, sum_over. simpl. lia.
Qed.

Lemma expire_pools_ok L ps : forall off d ids,
  wf4 L L L L off d ids -> states_ok L d -> (forall p, p ∈ ps -> is_Some (pools d !! p)) ->
  exists d' ids' off', for_each (expire_pool cur_time nosync) d ps = Done d' /\ wf4 L L L L off' d' ids' /\ states_ok L d'.
Proof.
  induction ps as [|p ps IH]; intros off d ids Hw Hst Hps; simpl; [by exists d, ids, off|].
  destruct (Hps p) as [pl Ep]; [by constructor|]. destruct (expire_pool_ok L off d ids p pl Hw Hst Ep) as (d1 & ids1 & pl1 & off1 & -> & W1 & S1 & P1 & _). dred.
  apply (IH off1 d1 ids1 W1 S1). intros q Hq. destruct (Hps q) as [plq Eq]; [by right|]. destruct (P1 q plq Eq) as (plq1 & Eq1 & _). eauto.
Qed.

(** Starting a pool runs its overdue expiry events and then counts its
    leases: the number of leases is that of all queues together; the numbers
    of free and backup leases are those of the leases on these queues whose
    end has passed, which is what the failover protocol balances. *)
Lemma expire_pool_correct L off d ids p pl :
  wf4 L L L L off d ids -> states_ok L d -> pools d !! p = Some pl ->
  exists d' ids' pl' off', expire_pool cur_time nosync d p = Done d' /\ wf4 L L L L off' d' ids' /\ states_ok L d' /\
    pools d' !! p = Some pl' /\ lease_count pl' = sum_over (fun k => zlen (ids' p k)) all_kinds /\
    free_leases pl' = due_count (lease_store d') (ids' p FREE_LEASES) /\ backup_leases pl' = due_count (lease_store d') (ids' p BACKUP_LEASES).
Proof.
  intros Hw Hst Ep. destruct (expire_pool_ok L off d ids p pl Hw Hst Ep) as (d' & ids' & pl' & off' & E & W' & S' & _ & R). by exists d', ids', pl', off'.
Qed.

(** ** Startup *)

(** A database before startup: empty queues and tables, and leases read from
    the lease file that nothing refers to yet. *)
Record fresh d : Prop := {
  fr_queues : forall p pl k, pools d !! p = Some pl -> on_queue (lease_store d) (qid p k) (lptr pl k) [];
  fr_counts : forall p pl, pools d !! p = Some pl -> free_leases pl = 0 /\ backup_leases pl = 0;
  fr_tables : uid_hash d = ∅ /\ hw_hash d = ∅;
  fr_classes : forall c cl, class_table d !! c = Some cl ->
    zlen (billed_leases cl) = lease_limit cl /\ leases_consumed cl = 0 /\ billed_ids cl = [];
  fr_leases : forall i l, lease_store d !! i = Some l -> next l = None /\ prev l = None /\ lc l = None /\
    n_uid (data l) = None /\ n_hw (data l) = None /\ 1 <= next_binding_state (data l) <= 7 /\
    (forall p, pool (data l) = Some p -> is_Some (pools d !! p)) /\
    (forall c, billing_class (data l) = Some c -> is_Some (class_table d !! c));
  fr_insert : forall q, insert_ok true (statics d) q [];
  fr_size : Z.of_nat (size (lease_store d)) <= max_leases }.

Lemma fresh_table k fits t s : t = ∅ -> (forall i l, s !! i = Some l -> link_of k (data l) = None) -> hash_ok k fits ∅ t s.
Proof.
  intros -> Hl. exists (fun _ => []). split; [split|..].
  - intros key _. apply lookup_empty.
  - by intros key n i E.
  - intros key. apply NoDup_nil_2.
  - by intros key i l ?%not_elem_of_nil.
  - intros i key. split; [by intros ?%not_elem_of_nil|]. by intros [?%not_elem_of_empty _].
  - intros i l E _. by apply (Hl i).
Qed.

Lemma fresh_loading d : fresh d -> loading ∅ (fun _ => (0, 0)) d (fun _ _ => []).
Proof.
  intros [F1 F2 [F3 F4] F5 F6 F7 F8]. split; [split|split].
  - split; [done|by intros p k i ?%not_elem_of_nil|by intros i ?%not_elem_of_empty|..].
    + intros i l E _. by destruct (F6 i l E) as (? & ? & ? & _).
    + intros i l p E. apply F6 in E as (_ & _ & _ & _ & _ & _ & Hp & _). apply Hp.
    + intros p pl Ep. destruct (F2 p pl Ep) as [-> ->]. done.
  - apply fresh_table; [done|]. intros i l E. by apply F6 in E as (_ & _ & _ & ? & _).
  - apply fresh_table; [done|]. intros i l E. by apply F6 in E as (_ & _ & _ & _ & ? & _).
  - split.
    + intros c cl Ec. by apply F5 in Ec as (? & _).
    + intros c cl Ec. apply F5 in Ec as (_ & -> & ->). done.
    + intros c cl Ec. apply F5 in Ec as (_ & _ & ->). apply NoDup_nil_2.
    + intros c cl i Ec Hi. apply F5 in Ec as (_ & _ & E). rewrite E in Hi. by apply not_elem_of_nil in Hi.
    + intros i l c E. apply F6 in E as (_ & _ & _ & _ & _ & _ & _ & Hc). apply Hc.
    + by intros i l c cl ?%not_elem_of_empty.
  - done.
  - by intros i l ?%not_elem_of_empty.
  - intros p k. apply F7.
Qed.

(** C38: Startup turns the leases read from the lease file into a database in
    order, whatever order they come in and whatever states, clients and classes
    they have: each lease that has a pool and one of the known states is on its
    queue and in the tables, once, and the overdue expiry events of all pools
    have run. *)
Theorem expire_all_pools_correct d all ps :
  fresh d -> NoDup all -> (forall i, i ∈ all -> is_Some (lease_store d !! i)) -> (forall p, p ∈ ps -> is_Some (pools d !! p)) ->
  exists d' L ids off, expire_all_pools cur_time nosync all ps d = Done d' /\ wf4 L L L L off d' ids /\ states_ok L d' /\
    forall i l, lease_store d !! i = Some l -> (i ∈ L <-> i ∈ all /\ loads l = true).
Proof.
  intros Hf Hn Hall Hps. unfold expire_all_pools.
  destruct (instantiate_all_ok (fun _ => (0, 0)) all ∅ d (fun _ _ => []) (fresh_loading d Hf) Hn) as (d1 & L & ids1 & -> & (W1 & S1 & _) & P1 & Hm).
  { intros i _. apply not_elem_of_empty. }
  { intros i Hi. destruct (Hall i Hi) as [l E]. exists l. split; [done|]. by apply (fr_leases d Hf) in E as (_ & _ & _ & _ & _ & ? & _). }
  dred. destruct (expire_pools_ok L ps (fun _ => (0, 0)) d1 ids1 W1 S1) as (d2 & ids2 & off2 & -> & W2 & S2).
  { intros p Hp. destruct (Hps p Hp) as [pl Ep]. destruct (P1 p pl Ep) as (pl' & Ep' & _). eauto. }
  exists d2, L, ids2, off2. split; [done|]. split; [done|]. split; [done|]. intros i l E. rewrite (Hm i l E).
  split; [by intros [?%not_elem_of_empty|?]|by right].
Qed.
End ops.
