(* ===== verification/Allocate.v ===== *)
(** * Choosing a lease for a client (server/dhcp.c, server/failover.c)

    [permitted] matches a client against the permit list of a pool,
    [lease_mine_to_reallocate] decides whether this server or its failover
    peer may give a lease away, and [allocate_lease] looks through the pools of
    a network for the lease to offer.  All of it reads the lease database of
    LeaseDb.v; only a stale host record of the chosen lease is dropped.

    A permit list that is a null pointer is the empty list.  The superclass of
    a class is a parameter, because the classes of Billing.v have only the
    fields that billing uses. *)

From stdpp Require Import base tactics numbers gmap list.
From S2P Require Import Prelude Lease LeaseHash Billing LeaseDb LeaseDbInv LeaseDbOk LeaseTimer.

#[local] Open Scope Z_scope.

(** ** Permits *)
Inductive permit_type :=
  | permit_unknown_clients | permit_known_clients | permit_authenticated_clients | permit_unauthenticated_clients
  | permit_all_clients | permit_dynamic_bootp_clients | permit_class | permit_after.

Record permit := mk_permit {
  type : permit_type;
  class : option nat;
  after : Z }.

(** What the server has found out about the sender of a packet. *)
Record sender := mk_sender {
  known : bool;
  authenticated : bool;
  options_valid : bool;
  packet_type : Z;
  classes_of : list (option nat) }.

(** A pool as [allocate_lease] sees it: which one it is, and its lists. *)
Record pool_decl := mk_decl {
  the_pool : nat;
  prohibit_list : list permit;
  permit_list : list permit }.

Section permits.
Context (cur_time : Z) (superclass : nat -> option nat).

Definition in_class (cl c : option nat) : bool :=
  bool_decide (cl = c) ||
  match c with
  | Some x => match superclass x with Some sc => bool_decide (Some sc = cl) | None => false end
  | None => false
  end.

Fixpoint permitted (pk : sender) (l : list permit) : bool :=
  match l with
  | [] => false
  | p :: r =>
      if match type p with
         | permit_unknown_clients => negb (known pk)
         | permit_known_clients => known pk
         | permit_authenticated_clients => authenticated pk
         | permit_unauthenticated_clients => negb (authenticated pk)
         | permit_all_clients => true
         | permit_dynamic_bootp_clients => negb (options_valid pk) || (packet_type pk =? 0)
         | permit_class => existsb (in_class (class p)) (classes_of pk)
         | permit_after => after p <? cur_time
         end
      then true
      else permitted pk r
  end.

(** The client may have a lease of the pool. *)
Definition admits (pk : sender) (pd : pool_decl) : bool :=
  negb ((match prohibit_list pd with [] => false | l => permitted pk l end) ||
        (match permit_list pd with [] => false | l => negb (permitted pk l) end)).
End permits.

(** ** Whose lease it is *)
Section mine.
Context (cur_time : Z).

(** The peer is down, and what it may have promised is over. *)
Definition peer_gone (pr : peer) (l : ldata) : bool :=
  bool_decide (service pr = service_partner_down) &&
  (if tsfp l <? me_stos pr then me_stos pr + mclt pr <? cur_time else tsfp l + mclt pr <? cur_time).

Definition mine_with_peer (pr : peer) (l : ldata) : outcome bool :=
  let b := binding_state l in
  let overdue := bool_decide (service pr = service_partner_down) && (tsfp l <? cur_time) in
  if b =? FTS_ACTIVE then Done false
  else if (b =? FTS_FREE) || (b =? FTS_ABANDONED) then
    Done (if decide (i_am pr = primary) then true else peer_gone pr l)
  else if (b =? FTS_RELEASED) || (b =? FTS_EXPIRED) then
    if bool_decide (i_am pr = primary) && (rewind_binding_state l =? FTS_FREE) then Done true
    else if bool_decide (i_am pr = secondary) && (rewind_binding_state l =? FTS_BACKUP) then Done true
    else Done overdue
  else if b =? FTS_RESET then Done overdue
  else if b =? FTS_BACKUP then
    Done (if decide (i_am pr = secondary) then true else peer_gone pr l)
  else Fatal.

Context `{!LeaseQueueOps ldata} {W : Type} `{!World W}.

Definition lease_mine_to_reallocate (d : db (W := W)) (lease : option nat) : outcome bool :=
  match lease with
  | None => Done false
  | Some i =>
      l ← lease_at d i;
      pr ← peer_of d l;
      match pr with
      | Some pr => mine_with_peer pr l
      | None => Done (free_or_backup (binding_state l))
      end
  end.
End mine.

(** ** The search *)
Definition uid_len (l : ldata) : Z := match uid l with Some u => zlen (bytes_of u) | None => 0 end.
(** The lease remembers a client. *)
Definition has_client (l : ldata) : bool := negb (uid_len l =? 0) || negb (zlen (hardware_addr l) =? 0).

(** [candl] is to replace [lease]. *)
Definition preferred (lease candl : ldata) : bool :=
  if (binding_state lease =? FTS_ABANDONED) && (negb (binding_state candl =? FTS_ABANDONED) || (ends candl <? ends lease)) then true
  else if binding_state candl =? FTS_ABANDONED then false
  else if has_client lease && (negb (has_client candl) || (ends candl <? ends lease)) then true
  else if has_client candl then false
  else ends candl <? ends lease.

Section allocate.
Context (cur_time : Z) (superclass : nat -> option nat).
Context `{!LeaseQueueOps ldata} {W : Type} `{!World W}.
Implicit Types d : db (W := W).

(** The first lease of the peer's queue replaces ours if it is older and can
    be had; else the peer has leases. *)
Definition consider_peer d (candl peerl : option nat) (peer_has_leases : bool) : outcome (option nat * bool) :=
  match peerl with
  | None => Done (candl, peer_has_leases)
  | Some j =>
      older ← (match candl with
               | None => Done true
               | Some c => lc ← lease_at d c; lj ← lease_at d j; Done (ends lj <? ends lc)
               end);
      mine ← (if older : bool then lease_mine_to_reallocate cur_time d (Some j) else Done false);
      if mine : bool then Done (Some j, peer_has_leases) else Done (candl, true)
  end.

Definition failover_candidate d (pl : pool_t queue) (pr : peer) (peer_has_leases : bool) : outcome (option nat * bool) :=
  first_free ← LEASE_GET_FIRSTP (free pl);
  first_backup ← LEASE_GET_FIRSTP (backup pl);
  '(candl, phl) ←
    (if decide (i_am pr = primary)
     then consider_peer d first_free first_backup peer_has_leases
     else consider_peer d first_backup first_free peer_has_leases);
  peerl ← LEASE_GET_FIRSTP (abandoned pl);
  match candl, peerl with
  | None, Some j => mine ← lease_mine_to_reallocate cur_time d (Some j); Done ((if mine : bool then Some j else None), phl)
  | _, _ => Done (candl, phl)
  end.

Definition pool_candidate d (p : nat) (peer_has_leases : bool) : outcome (option nat * bool) :=
  pl ← pool_at d p;
  match failover_peer pl with
  | Some pr => failover_candidate d pl pr peer_has_leases
  | None =>
      candl ← (if LEASE_NOT_EMPTYP (free pl) then LEASE_GET_FIRSTP (free pl) else LEASE_GET_FIRSTP (abandoned pl));
      Done (candl, peer_has_leases)
  end.

(** The candidate of a pool against the best one so far. *)
Definition choose d (lease candl : option nat) : outcome (option nat) :=
  match candl with
  | None => Done lease
  | Some c =>
      lc ← lease_at d c;
      if negb (binding_state lc =? FTS_ABANDONED) && (cur_time <? ends lc) then Done lease
      else match lease with
           | None => Done (Some c)
           | Some i => li ← lease_at d i; Done (Some (if preferred li lc then c else i))
           end
  end.

Fixpoint search (pk : sender) d (pls : list pool_decl) (lease : option nat) (peer_has_leases : bool) : outcome (option nat * bool) :=
  match pls with
  | [] => Done (lease, peer_has_leases)
  | pd :: r =>
      if admits cur_time superclass pk pd then
        '(candl, phl) ← pool_candidate d (the_pool pd) peer_has_leases;
        lease ← choose d lease candl;
        search pk d r lease phl
      else search pk d r lease peer_has_leases
  end.

Definition allocate_lease (pk : sender) d (pls : list pool_decl) (peer_has_leases : bool) : outcome (option nat * bool * db (W := W)) :=
  '(lease, phl) ← search pk d pls None peer_has_leases;
  match lease with
  | None => Done (None, phl, d)
  | Some i =>
      l ← lease_at d i;
      d ← (match host l with Some _ => change d i (set_host None) | None => Done d end);
      Done (Some i, phl, d)
  end.
End allocate.

(** ** What is to be chosen *)

(** Leases that are abandoned come last, then those that remember a client;
    within these tiers the one that has been over for longest is best. *)
Definition tier (l : ldata) : Z := if binding_state l =? FTS_ABANDONED then 2 else if has_client l then 1 else 0.
Definition before (x y : ldata) : Prop := tier x < tier y \/ tier x = tier y /\ ends x < ends y.

#[export] Instance before_transitive : Transitive before.
Proof. unfold before. intros x y z H1 H2. lia. Qed.

Lemma preferred_before lease candl : preferred lease candl = true <-> before candl lease.
Proof.
  unfold preferred, before, tier. destruct (binding_state lease =? FTS_ABANDONED), (binding_state candl =? FTS_ABANDONED),
    (has_client lease), (has_client candl); simpl; repeat case_match; zbool; split; intros; (lia || done).
Qed.

Definition own_queue (pr : peer) : qkind := if decide (i_am pr = primary) then FREE_LEASES else BACKUP_LEASES.
Definition peer_queue (pr : peer) : qkind := if decide (i_am pr = primary) then BACKUP_LEASES else FREE_LEASES.

Section spec.
Context (cur_time : Z) (superclass : nat -> option nat).
Context `{!LeaseQueueOps ldata} `{!LeaseQueue ldata} {W : Type} `{!World W} `{!WorldOk W}.
Implicit Types (d : db (W := W)) (ids : nat -> qkind -> list nat) (L : gset nat).

Definition mine d (i : nat) : Prop := lease_mine_to_reallocate cur_time d (Some i) = Done true.
Definition ends_at d (i : nat) : Z := match lease_store d !! i with Some l => ends (data l) | None => 0 end.

(** The one lease that a pool has to offer.  Without failover peer it is the
    first free lease, or the first abandoned one if there is no free one.  With a
    peer it is the first lease of this server's queue, unless the first lease
    of the peer's queue is older and ours to take; abandoned leases come last. *)
Inductive proposes d ids (p : nat) (pl : pool_t queue) (j : nat) : Prop :=
  | from_free : failover_peer pl = None -> head (ids p FREE_LEASES) = Some j -> proposes d ids p pl j
  | from_abandoned :
      failover_peer pl = None -> ids p FREE_LEASES = [] -> head (ids p ABANDONED_LEASES) = Some j -> proposes d ids p pl j
  | from_peer pr :
      failover_peer pl = Some pr -> head (ids p (peer_queue pr)) = Some j -> mine d j ->
      (forall c, head (ids p (own_queue pr)) = Some c -> ends_at d j < ends_at d c) -> proposes d ids p pl j
  | from_own pr :
      failover_peer pl = Some pr -> head (ids p (own_queue pr)) = Some j ->
      (forall e, head (ids p (peer_queue pr)) = Some e -> ends_at d e < ends_at d j -> ~ mine d e) -> proposes d ids p pl j
  | last_resort pr :
      failover_peer pl = Some pr -> head (ids p (own_queue pr)) = None ->
      (forall e, head (ids p (peer_queue pr)) = Some e -> ~ mine d e) ->
      head (ids p ABANDONED_LEASES) = Some j -> mine d j -> proposes d ids p pl j.

(** The pool has leases of the peer that this server does not take. *)
Definition peer_waits d ids (p : nat) (pl : pool_t queue) : Prop :=
  exists pr e, failover_peer pl = Some pr /\ head (ids p (peer_queue pr)) = Some e /\ ~ proposes d ids p pl e.

(** A lease that is free or in backup must be over. *)
Definition eligible d (i : nat) : Prop :=
  exists l, lease_store d !! i = Some l /\ (binding_state (data l) = FTS_ABANDONED \/ ends (data l) <= cur_time).
Definition better d (i j : nat) : Prop :=
  exists li lj, lease_store d !! i = Some li /\ lease_store d !! j = Some lj /\ before (data li) (data lj).

(** [r] is a best eligible lease of [S]; there is none only if none is eligible. *)
Definition best_of d (S : nat -> Prop) (r : option nat) : Prop :=
  match r with
  | None => forall j, S j -> ~ eligible d j
  | Some i => S i /\ eligible d i /\ forall j, S j -> eligible d j -> ~ better d j i
  end.

(** What the pools that admit the client propose. *)
Definition proposed d ids (pk : sender) (pls : list pool_decl) (j : nat) : Prop :=
  exists pd pl, pd ∈ pls /\ admits cur_time superclass pk pd = true /\ pools d !! the_pool pd = Some pl /\
    proposes d ids (the_pool pd) pl j.
Definition waits d ids (pk : sender) (pls : list pool_decl) : Prop :=
  exists pd pl, pd ∈ pls /\ admits cur_time superclass pk pd = true /\ pools d !! the_pool pd = Some pl /\
    peer_waits d ids (the_pool pd) pl.

(** ** The candidate of a pool *)
Lemma first_in (l : list nat) j : head l = Some j -> j ∈ l.
Proof. destruct l; [done|]. intros [= ->]. by constructor. Qed.

Lemma queued L off d ids p k j : wf4 L L L L off d ids -> j ∈ ids p k ->
  exists l, lease_store d !! j = Some l /\ pool (data l) = Some p /\ queue_of (data l) = Some k.
Proof. intros Hw Hj. by destruct (qo_in _ _ _ _ _ (wf_queues _ _ _ _ _ _ _ Hw) p k j Hj) as [_ ?]. Qed.

Lemma mine_with_peer_total pr x : 1 <= binding_state x <= 7 -> exists b, mine_with_peer cur_time pr x = Done b.
Proof.
  intros Hb. unfold mine_with_peer. repeat case_match; try (eexists; reflexivity); exfalso; zbool;
    unfold FTS_FREE, FTS_ACTIVE, FTS_EXPIRED, FTS_RELEASED, FTS_ABANDONED, FTS_RESET, FTS_BACKUP in *; lia.
Qed.

Lemma mine_total L off d ids p pl k j : wf4 L L L L off d ids -> pools d !! p = Some pl -> j ∈ ids p k ->
  exists b, lease_mine_to_reallocate cur_time d (Some j) = Done b.
Proof.
  intros Hw Ep Hj. destruct (queued L off d ids p k j Hw Hj) as (l & El & Hp & Hk).
  unfold lease_mine_to_reallocate. rewrite (lease_at_Done _ _ _ El). dred. unfold peer_of. rewrite Hp, (pool_at_Done _ _ _ Ep). dred.
  destruct (failover_peer pl); [|by eexists]. apply mine_with_peer_total. by eapply queue_of_valid.
Qed.

(** The first lease of the peer's queue is taken, or not. *)
Definition takes d (o e : option nat) : Prop :=
  exists j, e = Some j /\ mine d j /\ forall c, o = Some c -> ends_at d j < ends_at d c.

Lemma consider_peer_ok L off d ids p pl k k' phl : wf4 L L L L off d ids -> pools d !! p = Some pl ->
  let o := head (ids p k) in let e := head (ids p k') in
  exists r phl', consider_peer cur_time d o e phl = Done (r, phl') /\
    (takes d o e /\ r = e /\ phl' = phl \/ ~ takes d o e /\ r = o /\ phl' = (phl || bool_decide (is_Some e))%bool).
Proof.
  intros Hw Ep o e. unfold consider_peer. destruct e as [j|] eqn:Ee.
  2:{ exists o, phl. split; [done|]. right. split; [by intros (j & ? & _)|]. by rewrite orb_false_r. }
  destruct (queued L off d ids p k' j Hw (first_in _ _ Ee)) as (lj & Ej & _).
  destruct (mine_total L off d ids p pl k' j Hw Ep (first_in _ _ Ee)) as [b Eb].
  set (older := match o with None => true | Some c => ends_at d j <? ends_at d c end).
  assert (Eo : (match o with None => Done true | Some c => lc ← lease_at d c; lj ← lease_at d j; Done (ends lj <? ends lc) end) = Done older).
  { subst older. destruct o as [c|] eqn:Ec; [|done]. destruct (queued L off d ids p k c Hw (first_in _ _ Ec)) as (l & El & _).
    rewrite (lease_at_Done _ _ _ El), (lease_at_Done _ _ _ Ej). dred. unfold ends_at. by rewrite El, Ej. }
  rewrite Eo. dred. assert (Ht : takes d o (Some j) <-> older = true /\ b = true).
  { subst older. split.
    - intros (j' & [= <-] & Hm & Hc). unfold mine in Hm. split; [|congruence]. destruct o as [c|]; [|done]. apply Z.ltb_lt. by apply Hc.
    - intros [Ho ->]. exists j. split_and!; [done|done|]. intros c ->. by apply Z.ltb_lt. }
  rewrite Eb. destruct older, b; dred; (eexists _, _; split; [reflexivity|]).
  1: by left; split_and!; [apply Ht|..].
  all: right; split_and!; [by intros []%Ht|done|by rewrite bool_decide_true, orb_true_r by eauto].
Qed.

Lemma first_of L off d ids p pl k : wf4 L L L L off d ids -> pools d !! p = Some pl ->
  LEASE_GET_FIRSTP (lptr pl k) = Done (head (ids p k)).
Proof. intros Hw Ep. eapply queue_first. by apply (qo_on _ _ _ _ _ (wf_queues _ _ _ _ _ _ _ Hw)). Qed.

Lemma proposes_head d ids p pl j : proposes d ids p pl j ->
  exists k, k ∈ [FREE_LEASES; BACKUP_LEASES; ABANDONED_LEASES] /\ head (ids p k) = Some j.
Proof.
  assert (Hk : forall k : qkind, k = FREE_LEASES \/ k = BACKUP_LEASES \/ k = ABANDONED_LEASES -> k ∈ [FREE_LEASES; BACKUP_LEASES; ABANDONED_LEASES]).
  { intros k [-> | [-> | ->]]; apply (bool_decide_unpack _); by vm_compute. }
  intros [_ E|_ _ E|pr _ E _ _|pr _ E _|pr _ _ _ E _]; eexists; (split; [|exact E]); apply Hk;
    unfold own_queue, peer_queue; repeat case_decide; auto.
Qed.

Lemma proposes_peer d ids p pl pr j : failover_peer pl = Some pr ->
  let o := head (ids p (own_queue pr)) in let e := head (ids p (peer_queue pr)) in
  proposes d ids p pl j <->
  takes d o e /\ e = Some j \/ ~ takes d o e /\ o = Some j \/
  ~ takes d o e /\ o = None /\ head (ids p ABANDONED_LEASES) = Some j /\ mine d j.
Proof.
  intros Hpr. cbv zeta. split.
  - intros [N _|N _ _|pr' E He Hm Hc|pr' E Ho He|pr' E Ho He Ha Hm]; [congruence|congruence|..];
      assert (pr' = pr) as -> by congruence.
    + left. split; [|done]. by exists j.
    + right; left. split; [|done]. intros (j' & Ej & Hm & Hc). apply (He j' Ej); [by apply Hc|done].
    + right; right. split_and!; [|done..]. intros (j' & Ej & Hm' & _). by apply (He j').
  - intros [[(j' & Ej & Hm & Hc) Ee]|[[Ht Eo]|(Ht & Eo & Ea & Hm)]].
    + assert (j' = j) as -> by congruence. by apply (from_peer d ids p pl j pr).
    + apply (from_own d ids p pl j pr); [done|done|]. intros e' Ee Hl Hm. apply Ht. exists e'. split_and!; [done|done|]. intros c Ec.  by replace c with j by congruence.
    + apply (last_resort d ids p pl j pr); [done|done| |done|done]. intros e' Ee Hm'. apply Ht. exists e'. split_and!; [done|done|]. intros c Ec. congruence.
Qed.

(** Abandoned leases are only looked at when there is no other candidate. *)
Lemma abandoned_choice L off d ids p pl (c : option nat) (phl : bool) : wf4 L L L L off d ids -> pools d !! p = Some pl ->
  exists r, (match c, head (ids p ABANDONED_LEASES) with
    | None, Some j => m ← lease_mine_to_reallocate cur_time d (Some j); Done ((if m : bool then Some j else None), phl)
    | _, _ => Done (c, phl)
    end) = Done (r, phl) /\
    forall j, r = Some j <-> c = Some j \/ c = None /\ head (ids p ABANDONED_LEASES) = Some j /\ mine d j.
Proof.
  intros Hw Ep. destruct c as [c|]; [|destruct (head (ids p ABANDONED_LEASES)) as [a|] eqn:Ea].
  - exists (Some c). split; [done|]. intros j. split; [by left|]. by intros [?|[? _]].
  - destruct (mine_total L off d ids p pl _ a Hw Ep (first_in _ _ Ea)) as [b Eb]. rewrite Eb. dred. eexists. split; [reflexivity|].
    intros j. unfold mine. destruct b; split.
    + intros [= ->]. by right.
    + by intros [?|(_ & [= ->] & _)].
    + done.
    + intros [?|(_ & [= ->] & ?)]; congruence.
  - exists None. split; [done|]. intros j. split; [done|]. by intros [?|(_ & ? & _)].
Qed.

Lemma queues_differ pr : own_queue pr <> peer_queue pr /\ peer_queue pr <> ABANDONED_LEASES.
Proof. unfold own_queue, peer_queue. by case_decide. Qed.

(** A pool with a peer proposes one lease at most, and the search finds it. *)
Lemma failover_candidate_ok L off d ids p pl pr phl :
  wf4 L L L L off d ids -> pools d !! p = Some pl -> failover_peer pl = Some pr ->
  exists r phl', failover_candidate cur_time d pl pr phl = Done (r, phl') /\
    (forall j, r = Some j <-> proposes d ids p pl j) /\
    (phl' = true <-> phl = true \/ exists e, head (ids p (peer_queue pr)) = Some e /\ r <> Some e).
Proof.
  intros Hw Ep Hpr. set (o := head (ids p (own_queue pr))). set (e := head (ids p (peer_queue pr))).
  destruct (consider_peer_ok L off d ids p pl (own_queue pr) (peer_queue pr) phl Hw Ep) as (c & phl' & Ec & Hc). fold o e in Ec, Hc.
  destruct (abandoned_choice L off d ids p pl c phl' Hw Ep) as (r & Er & Hr). exists r, phl'. split; [|split].
  - unfold failover_candidate.
    rewrite (first_of L off d ids p pl FREE_LEASES Hw Ep : LEASE_GET_FIRSTP (free pl) = _),
      (first_of L off d ids p pl BACKUP_LEASES Hw Ep : LEASE_GET_FIRSTP (backup pl) = _),
      (first_of L off d ids p pl ABANDONED_LEASES Hw Ep : LEASE_GET_FIRSTP (abandoned pl) = _). dred.
    assert (Es : (if decide (i_am pr = primary)
      then consider_peer cur_time d (head (ids p FREE_LEASES)) (head (ids p BACKUP_LEASES)) phl
      else consider_peer cur_time d (head (ids p BACKUP_LEASES)) (head (ids p FREE_LEASES)) phl) = Done (c, phl')).
    { rewrite <- Ec. unfold o, e, own_queue, peer_queue. by case_decide. }
    rewrite Es. dred. exact Er.
  - intros j. rewrite Hr, (proposes_peer d ids p pl pr j Hpr). fold o e. clear Er Hr.
    destruct Hc as [(Ht & -> & _)|(Ht & -> & _)]; [|tauto]. pose proof Ht as (j' & Ej & _). rewrite Ej in *. split.
    + intros [E|[? _]]; [by left|done].
    + intros [[_ ?]|[[N _]|[N _]]]; [by left|done|done].
  - destruct Hc as [(Ht & -> & ->)|(Ht & -> & ->)].
    + split; [by left|]. intros [?|(e' & Ee & N)]; [done|]. destruct N. apply Hr. by left.
    + rewrite orb_true_iff, bool_decide_eq_true. apply or_iff_compat_l. split; [|by intros (e' & -> & _)].
      intros [e' Ee]. exists e'. split; [done|]. rewrite Hr. destruct (queues_differ pr) as [N1 N2]. intros [Eo|(_ & Ea & _)].
      * destruct (queues_apart _ _ _ _ _ _ _ _ _ _ (wf_queues _ _ _ _ _ _ _ Hw) (first_in _ _ Eo) (first_in _ _ Ee)). congruence.
      * destruct (queues_apart _ _ _ _ _ _ _ _ _ _ (wf_queues _ _ _ _ _ _ _ Hw) (first_in _ _ Ea) (first_in _ _ Ee)). congruence.
Qed.

Lemma pool_candidate_ok L off d ids p pl phl : wf4 L L L L off d ids -> pools d !! p = Some pl ->
  exists r phl', pool_candidate cur_time d p phl = Done (r, phl') /\
    (forall j, r = Some j <-> proposes d ids p pl j) /\ (phl' = true <-> phl = true \/ peer_waits d ids p pl).
Proof.
  intros Hw Ep. unfold pool_candidate. rewrite (pool_at_Done _ _ _ Ep). dred. destruct (failover_peer pl) as [pr|] eqn:Hpr.
  - destruct (failover_candidate_ok L off d ids p pl pr phl Hw Ep Hpr) as (r & phl' & E & Hr & Hp). exists r, phl'.
    split_and!; [done|done|]. rewrite Hp. apply or_iff_compat_l. split.
    + intros (e & Ee & N). exists pr, e. split_and!; [done|done|]. by rewrite <- Hr.
    + intros (pr' & e & E' & Ee & N). exists e. rewrite Hr. split; [|done]. congruence.
  - pose proof (qo_on _ _ _ _ _ (wf_queues _ _ _ _ _ _ _ Hw) p pl FREE_LEASES Ep) as Hq.
    rewrite (queue_not_empty _ _ _ _ Hq : LEASE_NOT_EMPTYP (free pl) = _),
      (first_of L off d ids p pl FREE_LEASES Hw Ep : LEASE_GET_FIRSTP (free pl) = _),
      (first_of L off d ids p pl ABANDONED_LEASES Hw Ep : LEASE_GET_FIRSTP (abandoned pl) = _).
    destruct (ids p FREE_LEASES) as [|i r] eqn:Ei; dred; (eexists _, phl; split; [reflexivity|]); (split; [intros j|]).
    2,4: split; [by left|]; intros [?|(pr & e & ? & _)]; congruence.
    + split; [intros; by apply from_abandoned|]. intros []; [|done|congruence..]. rewrite Ei in *. done.
    + split; [intros ?; apply from_free; [done|by rewrite Ei]|]. intros []; [|congruence..]. rewrite Ei in *. done.
Qed.

(** ** The search *)
Lemma choose_ok d (S C : nat -> Prop) lease candl :
  best_of d S lease -> (forall j, candl = Some j <-> C j) -> (forall j, C j -> is_Some (lease_store d !! j)) ->
  exists r, choose cur_time d lease candl = Done r /\ best_of d (fun j => S j \/ C j) r.
Proof.
  intros HS HC Hs. unfold choose. destruct candl as [c|].
  2:{ exists lease. split; [done|]. assert (N : forall j, ~ C j) by (intros j Hj%HC; done).
      destruct lease as [i|]; [destruct HS as (H1 & H2 & H3)|].
      - split_and!; [by left|done|]. intros j [?|?%N]; [by apply H3|done].
      - intros j [?|?%N]; [by apply HS|done]. }
  assert (Cc : C c) by (by apply HC). assert (Hj : forall j, C j -> j = c) by (intros j Hj%HC; congruence).
  destruct (Hs c Cc) as [lc Ec]. rewrite (lease_at_Done _ _ _ Ec). dred.
  destruct (negb (binding_state (data lc) =? FTS_ABANDONED) && (cur_time <? ends (data lc))) eqn:Ee.
  - exists lease. split; [done|]. assert (Nc : ~ eligible d c).
    { intros (l & El & Hl). replace l with lc in Hl by congruence. zbool. lia. }
    destruct lease as [i|]; [destruct HS as (H1 & H2 & H3)|].
    + split_and!; [by left|done|]. intros j [?| ->%Hj]; [by apply H3|done].
    + intros j [?| ->%Hj]; [by apply HS|done].
  - assert (Hc : eligible d c). { exists lc. split; [done|]. zbool. lia. }
    destruct lease as [i|]; [destruct HS as (H1 & H2 & H3)|].
    + destruct H2 as (li & Ei & Hi). rewrite (lease_at_Done _ _ _ Ei). dred. eexists. split; [reflexivity|].
      destruct (preferred (data li) (data lc)) eqn:Ep.
      * apply preferred_before in Ep. split_and!; [by right|done|]. intros j [Hj'| ->%Hj] Ej (lj & l & Elj & El & Hb).
        -- apply (H3 j Hj' Ej). exists lj, li. split_and!; [done|done|]. replace l with lc in Hb by congruence. by etransitivity.
        -- replace l with lc in Hb by congruence. replace lj with lc in Hb by congruence. unfold before in Hb. lia.
      * split_and!; [by left|by exists li|]. intros j [?| ->%Hj] Ej; [by apply H3|]. intros (lj & l & Elj & El & Hb).
        replace l with li in Hb by congruence. replace lj with lc in Hb by congruence. apply preferred_before in Hb. congruence.
    + exists (Some c). split; [done|]. split_and!; [by right|done|]. intros j [Hj'| ->%Hj] Ej; [by apply HS in Ej|].
      intros (lj & l & Elj & El & Hb). replace l with lj in Hb by congruence. unfold before in Hb. lia.
Qed.

(** Adding a pool to those seen. *)
Lemma best_of_iff d (S S' : nat -> Prop) r : (forall j, S j <-> S' j) -> best_of d S r -> best_of d S' r.
Proof.
  intros He. destruct r as [i|]; simpl.
  - intros (H1 & H2 & H3). split_and!; [by apply He|done|]. intros j ?%He. by apply H3.
  - intros Hn j ?%He. by apply Hn.
Qed.

Lemma proposed_cons d ids pk pd pls j : proposed d ids pk (pd :: pls) j <->
  (exists pl, admits cur_time superclass pk pd = true /\ pools d !! the_pool pd = Some pl /\ proposes d ids (the_pool pd) pl j) \/
  proposed d ids pk pls j.
Proof.
  split.
  - intros (pd' & pl & [->|Hi]%elem_of_cons & H); [left; by exists pl|right; by exists pd', pl].
  - intros [(pl & H)|(pd' & pl & Hi & H)]; [exists pd, pl|exists pd', pl]; (split; [|done]); by constructor.
Qed.
Lemma waits_cons d ids pk pd pls : waits d ids pk (pd :: pls) <->
  (exists pl, admits cur_time superclass pk pd = true /\ pools d !! the_pool pd = Some pl /\ peer_waits d ids (the_pool pd) pl) \/
  waits d ids pk pls.
Proof.
  split.
  - intros (pd' & pl & [->|Hi]%elem_of_cons & H); [left; by exists pl|right; by exists pd', pl].
  - intros [(pl & H)|(pd' & pl & Hi & H)]; [exists pd, pl|exists pd', pl]; (split; [|done]); by constructor.
Qed.

Lemma proposes_some L off d ids p pl j : wf4 L L L L off d ids -> proposes d ids p pl j -> is_Some (lease_store d !! j).
Proof. intros Hw (k & _ & Hk)%proposes_head. destruct (queued L off d ids p k j Hw (first_in _ _ Hk)) as (l & El & _). eauto. Qed.

Lemma search_ok L off d ids pk pls : wf4 L L L L off d ids -> forall S lease phl,
  Forall (fun pd => is_Some (pools d !! the_pool pd)) pls -> best_of d S lease ->
  exists r phl', search cur_time superclass pk d pls lease phl = Done (r, phl') /\
    best_of d (fun j => S j \/ proposed d ids pk pls j) r /\ (phl' = true <-> phl = true \/ waits d ids pk pls).
Proof.
  intros Hw. induction pls as [|pd pls IH]; intros S lease phl Hp HS; cbn [search].
  - exists lease, phl. split_and!; [done| |].
    + eapply best_of_iff; [|exact HS]. intros j. split; [by left|]. intros [?|(pd & pl & []%not_elem_of_nil & _)]; done.
    + split; [by left|]. intros [?|(pd & pl & []%not_elem_of_nil & _)]; done.
  - apply Forall_cons_iff in Hp as [[pl Ep] Hp]. destruct (admits cur_time superclass pk pd) eqn:Ha.
    + destruct (pool_candidate_ok L off d ids _ pl phl Hw Ep) as (c & phl1 & -> & Hc & Hph). dred.
      destruct (choose_ok d S _ lease c HS Hc) as (lease1 & -> & HS1); [by intros j; apply (proposes_some L off)|]. dred.
      destruct (IH _ lease1 phl1 Hp HS1) as (r & phl' & E & Hr & Hph'). exists r, phl'. split_and!; [exact E| |].
      * eapply best_of_iff; [|exact Hr]. intros j. cbv beta. rewrite proposed_cons.
        rewrite Logic.or_assoc. apply or_iff_compat_l, or_iff_compat_r. split; [by exists pl|]. intros (pl' & _ & E' & H). by replace pl with pl' by congruence.
      * rewrite Hph', Hph, waits_cons, Logic.or_assoc. apply or_iff_compat_l, or_iff_compat_r.
        split; [by exists pl|]. intros (pl' & _ & E' & H). by replace pl with pl' by congruence.
    + destruct (IH S lease phl Hp HS) as (r & phl' & E & Hr & Hph'). exists r, phl'. split_and!; [exact E| |].
      * eapply best_of_iff; [|exact Hr]. intros j. cbv beta. rewrite proposed_cons. apply or_iff_compat_l. split; [by right|].
        intros [(pl' & Ha' & _)|?]; [congruence|done].
      * rewrite Hph', waits_cons. apply or_iff_compat_l. split; [by right|]. intros [(pl' & Ha' & _)|?]; [congruence|done].
Qed.

Lemma search_best L off d ids pk pls phl :
  wf4 L L L L off d ids -> Forall (fun pd => is_Some (pools d !! the_pool pd)) pls ->
  exists r phl', search cur_time superclass pk d pls None phl = Done (r, phl') /\
    best_of d (proposed d ids pk pls) r /\ (phl' = true <-> phl = true \/ waits d ids pk pls).
Proof.
  intros Hw Hp. destruct (search_ok L off d ids pk pls Hw (fun _ => False) None phl Hp) as (r & phl' & E & Hr & Hph); [by intros j|].
  exists r, phl'. split_and!; [exact E| |exact Hph]. eapply best_of_iff; [|exact Hr]. intros j. split; [by intros [[]|?]|by right].
Qed.

(** The first lease of a queue is the one with the earliest event. *)
Lemma head_earliest L off d ids p pl k i j : wf4 L L L L off d ids -> pools d !! p = Some pl -> head (ids p k) = Some i -> j ∈ ids p k ->
  time_of (lease_store d) i <= time_of (lease_store d) j.
Proof.
  intros Hw Ep Hi Hj. pose proof (on_queue_order _ _ _ _ (qo_on _ _ _ _ _ (wf_queues _ _ _ _ _ _ _ Hw) p pl k Ep)) as (_ & _ & Hs).
  destruct (ids p k) as [|x r]; [done|]. injection Hi as ->. apply elem_of_cons in Hj as [->|Hj]; [lia|].
  inversion Hs as [|? ? _ Hf]; subst. rewrite Forall_forall in Hf. by apply Hf.
Qed.

Lemma drop_host_ok L off d ids i l : wf4 L L L L off d ids -> lease_store d !! i = Some l ->
  exists d', (match host (data l) with Some _ => change d i (set_host None) | None => Done d end) = Done d' /\
    wf4 L L L L off d' ids /\ steady (lease_store d) (lease_store d') /\ pools d' = pools d /\
    exists l', lease_store d' !! i = Some l' /\ host (data l') = None.
Proof.
  intros Hw El. destruct (host (data l)) as [h|] eqn:Eh.
  - pose proof (change_Done d i l (set_host None) El) as Ec.
    destruct (calm_change L L L L off d ids i l (set_host None) Hw El eq_refl eq_refl) as (d' & E & Hw' & Hs & Hp). exists d'.
    split_and!; [done..|]. replace d' with (set_store (<[i:=set_data (set_host None (data l)) l]> (lease_store d)) d) by congruence.
    eexists. split; [apply lookup_insert_eq|done].
  - exists d. split_and!; [done|done|done|done|]. by exists l.
Qed.

(** C22: [allocate_lease] always returns.  It returns a lease exactly if one of
    the pools that admit the client has one to offer that is abandoned or over;
    then it is a best one of these: one that is not abandoned rather than one that is, one
    without a client rather than one with, and among equals one that ended
    first.  The lease is the first of the free, backup or abandoned queue of
    its pool, it has no host record, and the database is otherwise as it
    was.  [peer_has_leases] is set exactly if some pool that admits the client has leases of the peer that this server does not take. *)
Theorem allocate_lease_correct L off d ids pk pls phl :
  wf4 L L L L off d ids -> Forall (fun pd => is_Some (pools d !! the_pool pd)) pls ->
  exists r phl' d', allocate_lease cur_time superclass pk d pls phl = Done (r, phl', d') /\
    best_of d (proposed d ids pk pls) r /\
    (phl' = true <-> phl = true \/ waits d ids pk pls) /\
    wf4 L L L L off d' ids /\ steady (lease_store d) (lease_store d') /\ pools d' = pools d /\
    (forall i, r = Some i -> exists pd k l', pd ∈ pls /\ admits cur_time superclass pk pd = true /\
      k ∈ [FREE_LEASES; BACKUP_LEASES; ABANDONED_LEASES] /\ i ∈ ids (the_pool pd) k /\
      (forall j, j ∈ ids (the_pool pd) k -> time_of (lease_store d) i <= time_of (lease_store d) j) /\
      lease_store d' !! i = Some l' /\ host (data l') = None).
Proof.
  intros Hw Hp. unfold allocate_lease.
  destruct (search_best L off d ids pk pls phl Hw Hp) as (r & phl' & -> & Hb & Hph). dred.
  destruct r as [i|]; [|by exists None, phl', d].
  pose proof Hb as ((pd & pl & Hin & Ha & Ep & Hpr) & _ & _). destruct (proposes_some L off d ids _ pl i Hw Hpr) as [l El].
  rewrite (lease_at_Done _ _ _ El). dred. destruct (drop_host_ok L off d ids i l Hw El) as (d' & -> & Hw' & Hs & Hps & l' & El' & Hh). dred.
  exists (Some i), phl', d'. split_and!; [done..|]. intros i' [= <-]. apply proposes_head in Hpr as (k & Hk & Hd).
  exists pd, k, l'. split_and!; [done..|by apply first_in| |done|done]. intros j. by apply (head_earliest L off d ids _ pl).
Qed.

(** ** Two servers *)

(** The lease is in a pool that this server shares with a peer, has this role
    for, and does not take to be down. *)
Definition shares d (i : nat) (role : failover_role) : Prop :=
  exists l p pl pr, lease_store d !! i = Some l /\ pool (data l) = Some p /\ pools d !! p = Some pl /\
    failover_peer pl = Some pr /\ i_am pr = role /\ service pr <> service_partner_down.
Definition state_at d (i : nat) : Z := match lease_store d !! i with Some l => binding_state (data l) | None => 0 end.
Definition may_offer (role : failover_role) (b : Z) : Prop :=
  match role with primary => b = FTS_FREE \/ b = FTS_ABANDONED | secondary => b = FTS_BACKUP end.

Lemma queue_state x k : queue_of x = Some k ->
  (k = FREE_LEASES -> binding_state x = FTS_FREE) /\ (k = BACKUP_LEASES -> binding_state x = FTS_BACKUP) /\
  (k = ABANDONED_LEASES -> binding_state x = FTS_ABANDONED).
Proof. unfold queue_of. intros E. repeat case_match; zbool; split_and!; intros; subst; (congruence || lia). Qed.

(** As long as the peer is not down, a lease of a kind that the peer allocates
    from is not ours. *)
Lemma mine_role pr x k : service pr <> service_partner_down -> queue_of x = Some k ->
  k ∈ [FREE_LEASES; BACKUP_LEASES; ABANDONED_LEASES] -> mine_with_peer cur_time pr x = Done true -> may_offer (i_am pr) (binding_state x).
Proof.
  intros Hs Hk Hin. assert (Hg : peer_gone cur_time pr x = false) by (unfold peer_gone; by rewrite bool_decide_false).
  destruct (queue_state x k Hk) as (H1 & H2 & H3). unfold mine_with_peer. rewrite Hg.
  assert (Hb : binding_state x = FTS_FREE \/ binding_state x = FTS_BACKUP \/ binding_state x = FTS_ABANDONED).
  { repeat (apply elem_of_cons in Hin as [->|Hin]; [auto|]). by apply not_elem_of_nil in Hin. }
  destruct Hb as [-> | [-> | ->]]; simpl; destruct (i_am pr); simpl; auto; discriminate.
Qed.

Lemma proposes_role L off d ids p pl pr i : wf4 L L L L off d ids -> pools d !! p = Some pl -> failover_peer pl = Some pr ->
  service pr <> service_partner_down -> proposes d ids p pl i -> may_offer (i_am pr) (state_at d i).
Proof.
  intros Hw Ep Hpr Hs Hprop. destruct (proposes_head _ _ _ _ _ Hprop) as (k & Hk & Hd).
  destruct (queued L off d ids p k i Hw (first_in _ _ Hd)) as (l & El & Hp & Hq). unfold state_at. rewrite El.
  assert (Hm : mine d i -> may_offer (i_am pr) (binding_state (data l))).
  { unfold mine, lease_mine_to_reallocate. rewrite (lease_at_Done _ _ _ El). dred. unfold peer_of. rewrite Hp, (pool_at_Done _ _ _ Ep). dred.
    rewrite Hpr. by apply (mine_role pr (data l) k). }
  destruct Hprop as [N _|N _ _|pr' _ _ Hmi _|pr' E Ho _|pr' _ _ _ _ Hmi]; [congruence|congruence|by apply Hm| |by apply Hm].
  assert (pr' = pr) as -> by congruence. destruct (queued L off d ids p _ i Hw (first_in _ _ Ho)) as (l' & El' & _ & Hq').
  replace l' with l in Hq' by congruence. destruct (queue_state _ _ Hq') as (H1 & H2 & _). unfold own_queue in *.
  destruct (i_am pr); simpl in *; [left; by apply H1|by apply H2].
Qed.

Lemma allocated_role L off d ids pk pls phl i phl' d' role :
  wf4 L L L L off d ids -> Forall (fun pd => is_Some (pools d !! the_pool pd)) pls ->
  allocate_lease cur_time superclass pk d pls phl = Done (Some i, phl', d') -> shares d i role -> may_offer role (state_at d i).
Proof.
  intros Hw Hp. unfold allocate_lease. destruct (search_best L off d ids pk pls phl Hw Hp) as (r & phl1 & -> & Hb & _). dred.
  destruct r as [j|]; [|discriminate]. destruct Hb as ((pd & pl & _ & _ & Ep & Hpr) & _).
  destruct (proposes_some L off d ids _ pl j Hw Hpr) as [l El]. rewrite (lease_at_Done _ _ _ El). dred.
  destruct (drop_host_ok L off d ids j l Hw El) as (d1 & -> & _). dred. intros [= -> _ _] (l' & p & pl' & pr & El' & Hpl & Ep' & Epr & <- & Hs).
  destruct (proposes_head _ _ _ _ _ Hpr) as (k & _ & Hd). destruct (queued L off d ids _ k i Hw (first_in _ _ Hd)) as (l2 & El2 & Hp2 & _).
  assert (p = the_pool pd) as -> by congruence. by apply (proposes_role L off d ids (the_pool pd) pl' pr); [| | | |replace pl' with pl by congruence].
Qed.
End spec.

Section two_servers.
Context `{!LeaseQueueOps ldata} `{!LeaseQueue ldata} {W : Type} `{!World W} `{!WorldOk W}.
Implicit Types (d : db (W := W)) (ids : nat -> qkind -> list nat) (L : gset nat).

(** C23: As long as neither takes the other to be down, a primary and a secondary server
    that have a lease in the same binding state do not both offer it: not to
    the same client and not to different ones, whatever their clocks, pools and permit lists. *)
Theorem allocate_lease_exclusive
    now1 super1 L1 off1 d1 ids1 pk1 pls1 phl1 r1 d1' now2 super2 L2 off2 d2 ids2 pk2 pls2 phl2 r2 d2' i :
  wf4 L1 L1 L1 L1 off1 d1 ids1 -> Forall (fun pd => is_Some (pools d1 !! the_pool pd)) pls1 ->
  wf4 L2 L2 L2 L2 off2 d2 ids2 -> Forall (fun pd => is_Some (pools d2 !! the_pool pd)) pls2 ->
  shares d1 i primary -> shares d2 i secondary ->
  allocate_lease now1 super1 pk1 d1 pls1 phl1 = Done (Some i, r1, d1') ->
  allocate_lease now2 super2 pk2 d2 pls2 phl2 = Done (Some i, r2, d2') ->
  state_at d1 i <> state_at d2 i.
Proof.
  intros Hw1 Hp1 Hw2 Hp2 S1 S2 A1 A2 E.
  pose proof (allocated_role now1 super1 L1 off1 d1 ids1 pk1 pls1 phl1 i r1 d1' primary Hw1 Hp1 A1 S1) as [H1|H1];
    pose proof (allocated_role now2 super2 L2 off2 d2 ids2 pk2 pls2 phl2 i r2 d2' secondary Hw2 Hp2 A2 S2) as H2;
    simpl in *; rewrite E, H2 in H1; discriminate.
Qed.
End two_servers.
