(* ===== verification/LeaseSample.v ===== *)
(** * A small server

    A pool with four leases on linked-list queues and a world that only keeps
    a journal: the interfaces of the lease database can be met, and its
    theorems apply. *)

From stdpp Require Import base tactics numbers gmap list.
From S2P Require Import Prelude Lease LeaseList LeaseHash Billing LeaseDb LeaseDbInv LeaseDbOk LeaseTimer LeaseOps Allocate.

#[local] Open Scope Z_scope.

(** ** A journal of what the database asks of the rest of the server *)
Inductive journal_entry :=
  | Wrote (lease : nat) (binding : Z) | Synced | RemovedNames (lease : nat) | Ran (lease statement : nat)
  | Queued (lease : nat) | CheckedPool (p : nat)
  | LeftAckQueue (lease : nat) | Answered (reason : Z) | QueuedAck | SentUpdates | CommitsSoon.

#[export] Instance journal : World (list journal_entry) := {
  write_lease w i x := (true, Wrote i (binding_state x) :: w);
  commit_leases w := (true, Synced :: w);
  ddns_removals w s i _ := (RemovedNames i :: w, s);
  execute_statements w s i st := (Ran i st :: w, s);
  queue_and_send w s i _ := (Queued i :: w, s);
  failover_pool_check w p := CheckedPool p :: w }.
#[export] Instance journal_ok : WorldOk (list journal_entry).
Proof. split; intros; apply upto_refl. Qed.

(** ** The leases, as read from the lease file *)
Definition file_lease (state next_ end_ : Z) (u : option uid_bytes) (hw : list Z) (cls : option nat) : lease ldata :=
  mk_lease None None None 0 0
    (mk_ldata 0 end_ 10 0 0 0 state next_ state FTS_FREE 0 u hw None None None None cls None None None None None (Some 0%nat) None).

Definition file_leases : leases :=
  <[1%nat := file_lease FTS_ACTIVE FTS_FREE 100 (Some (InBuf [1; 10])) [1; 10] (Some 7%nat)]>
  (<[2%nat := file_lease FTS_ACTIVE FTS_FREE 40 None [1; 10] None]>
  (<[3%nat := file_lease FTS_EXPIRED FTS_FREE 20 None [1; 11] None]>
  (<[4%nat := file_lease FTS_FREE FTS_FREE 0 None [] None]> ∅))).

Definition sample_pool : pool_t (queue (D := ldata)) := mk_pool None None None None None None 0 0 0 0 None.
Definition unloaded : db (W := list journal_entry) :=
  mk_db (mk_last None None) file_leases {[ 0%nat := sample_pool ]} {[ 7%nat := mk_class 2 0 [None; None] ]} ∅ ∅ ∅ {[1%nat; 2%nat; 3%nat; 4%nat]} [].

Definition loaded_or (d : db (W := list journal_entry)) (r : outcome (db (W := list journal_entry))) := match r with Done d' => d' | _ => d end.
Definition loaded : db (W := list journal_entry) := loaded_or unloaded (for_each lease_instantiate unloaded [1%nat; 2%nat; 3%nat; 4%nat]).

Lemma file_leases_cases i l : file_leases !! i = Some l ->
  i = 1%nat /\ l = file_lease FTS_ACTIVE FTS_FREE 100 (Some (InBuf [1; 10])) [1; 10] (Some 7%nat) \/
  i = 2%nat /\ l = file_lease FTS_ACTIVE FTS_FREE 40 None [1; 10] None \/
  i = 3%nat /\ l = file_lease FTS_EXPIRED FTS_FREE 20 None [1; 11] None \/
  i = 4%nat /\ l = file_lease FTS_FREE FTS_FREE 0 None [] None.
Proof.
  unfold file_leases. intros E. repeat (apply lookup_insert_Some in E as [[<- <-]|[_ E]]; [by auto|]). by rewrite lookup_empty in E.
Qed.

Lemma unloaded_fresh : fresh unloaded.
Proof.
  assert (Hp : forall p pl, pools unloaded !! p = Some pl -> p = 0%nat /\ pl = sample_pool).
  { intros p pl E. simpl in E. by apply lookup_singleton_Some in E as [<- <-]. }
  assert (Hc : forall c cl, class_table unloaded !! c = Some cl -> c = 7%nat /\ cl = mk_class 2 0 [None; None]).
  { intros c cl E. simpl in E. by apply lookup_singleton_Some in E as [<- <-]. }
  split.
  - intros p pl k [-> ->]%Hp. split; [by destruct k|]. split; [done|]. split; [apply NoDup_nil_2|]. split; constructor.
  - by intros p pl [-> ->]%Hp.
  - done.
  - by intros c cl [-> ->]%Hc.
  - intros i l E. assert (P0 : forall p, Some 0%nat = Some p -> is_Some (pools unloaded !! p)) by (intros p [= <-]; by eexists).
    assert (P7 : forall c, Some 7%nat = Some c -> is_Some (class_table unloaded !! c)) by (intros c [= <-]; by eexists).
    apply file_leases_cases in E as [[-> ->]|[[-> ->]|[[-> ->]|[-> ->]]]]; by split_and!.
  - by intros q _ ?.
  - vm_compute. done.
Qed.

(** ** The database after loading *)
Lemma unloaded_valid i : i ∈ [1%nat; 2%nat; 3%nat; 4%nat] -> exists l, lease_store unloaded !! i = Some l /\ 1 <= next_binding_state (data l) <= 7 /\ loads l = true.
Proof.
  intros Hi. repeat (apply elem_of_cons in Hi as [->|Hi]; [eexists; split; [by vm_compute|split; [done|by vm_compute]]|]). by apply not_elem_of_nil in Hi.
Qed.

Lemma loaded_wf : exists L ids, wf4 L L L L (fun _ => (0, 0)) loaded ids /\ states_ok L loaded /\ (forall i, i ∈ [1%nat; 2%nat; 3%nat; 4%nat] -> i ∈ L).
Proof.
  destruct (instantiate_all_ok (fun _ => (0, 0)) [1%nat; 2%nat; 3%nat; 4%nat] ∅ unloaded _ (fresh_loading _ unloaded_fresh)) as (d & L & ids & E & (Hw & Hs & _) & _ & Hm).
  - apply (bool_decide_unpack _). by vm_compute.
  - intros i _. apply not_elem_of_empty.
  - intros i Hi. destruct (unloaded_valid i Hi) as (l & E & Hn & _). eauto.
  - assert (Ed : loaded = d) by exact (f_equal (loaded_or unloaded) E). rewrite Ed. exists L, ids. split; [done|]. split; [done|].
    intros i Hi. destruct (unloaded_valid i Hi) as (l & El & _ & Hl). apply (Hm i l El). right. split; assumption.
Qed.

Lemma loaded_pool : exists pl, pools loaded !! 0%nat = Some pl /\ failover_peer pl = None.
Proof. eexists. split; [by vm_compute|done]. Qed.

Lemma loaded_settled L : settled_pool L 0 loaded.
Proof.
  split.
  - destruct loaded_pool as (pl0 & E0 & N0). intros pl E. congruence.
  - assert (Hall : map_Forall (fun _ l => next_binding_state (data l) = following None (binding_state (data l))) (lease_store loaded)).
    { apply (bool_decide_unpack _). by vm_compute. }
    intros j l _ E _. by apply (Hall j l).
Qed.

(** ** The theorems at this database, at time 50 *)
Lemma pool_timer_correct_witness :
  exists d', pool_timer 50 false loaded 0 = Done d' /\
    forall l, lease_store loaded !! 1%nat = Some l -> 50 < sort_time l -> exists l', lease_store d' !! 1%nat = Some l' /\ sort_time l' = sort_time l.
Proof.
  destruct loaded_wf as (L & ids & Hw & Hs & _), loaded_pool as (pl & Ep & _).
  destruct (pool_timer_correct 50 false L _ loaded ids 0 pl Hw Hs Ep) as (d' & ids' & E & _ & _ & Hk).
  exists d'. split; [exact E|]. intros l El Ht. destruct (Hk 1%nat l El (or_introl Ht)) as (l' & E' & T & _). exists l'. split; assumption.
Defined.

Lemma pool_timer_expires_witness :
  exists d', pool_timer 50 false loaded 0 = Done d' /\
    forall l, lease_store d' !! 2%nat = Some l -> pool (data l) = Some 0%nat -> sort_time l <= 50 ->
      binding_state (data l) = FTS_FREE \/ binding_state (data l) = FTS_BACKUP.
Proof.
  destruct loaded_wf as (L & ids & Hw & Hs & HL), loaded_pool as (pl & Ep & _).
  destruct (pool_timer_expires 50 false L _ loaded ids 0 pl Hw Hs Ep (loaded_settled L)) as (d' & ids' & E & _ & _ & Hk).
  exists d'. split; [exact E|]. intros l. apply (Hk 2%nat l). apply HL. by right; left.
Defined.

Definition renewal : ldata :=
  mk_ldata 50 200 50 0 0 0 FTS_ACTIVE FTS_ACTIVE 0 FTS_FREE 0 (Some (OnHeap [1; 2; 3; 4; 5; 6; 7; 8; 9])) [1; 12] None None
    None None (Some 7%nat) None None None None None (Some 0%nat) None.

Lemma loaded_lease1 : exists l, lease_store loaded !! 1%nat = Some l /\ pool (data l) = Some 0%nat /\ binding_state (data l) = FTS_ACTIVE /\
  has_flag (data l) STATIC_LEASE = false.
Proof. eexists. split; [vm_compute; reflexivity|]. split_and!; vm_compute; reflexivity. Qed.
Lemma loaded_lease2 : exists l, lease_store loaded !! 2%nat = Some l.
Proof. eexists. vm_compute. reflexivity. Qed.

Lemma renewal_ok : sample_ok loaded renewal.
Proof. split; [by intros b|]. split; [|done]. intros c [= <-]. eexists. by vm_compute. Qed.

Lemma supersede_lease_correct_witness :
  exists ok lease' d' l', supersede_lease 50 false loaded 2 (Some renewal) true true true false = Done (ok, Some lease', d') /\
    lease_store d' !! 2%nat = Some l' /\ binding_state (data l') = FTS_ACTIVE /\ ends (data l') = 200 /\ hardware_addr (data l') = [1; 12].
Proof.
  destruct loaded_wf as (L & ids & Hw & Hs & HL). destruct loaded_lease2 as [l El].
  destruct (supersede_lease_correct 50 false L _ loaded ids 2 l renewal true true true false Hw Hs) as (ok & lease' & d' & ids' & l' & p & pl & E & _ & _ & E' & _ & _ & R).
  - apply HL. by right; left.
  - exact El.
  - exact renewal_ok.
  - reflexivity.
  - reflexivity.
  - destruct R as (R1 & _ & R2 & _ & R3 & _); [vm_compute; discriminate|]. exists ok, lease', d', l'. split_and!; assumption.
Defined.

Lemma release_lease_correct_witness :
  exists d' l', release_lease 50 false loaded 1 = Done d' /\ lease_store d' !! 1%nat = Some l' /\ binding_state (data l') = FTS_FREE /\ ends (data l') = 50.
Proof.
  destruct loaded_wf as (L & ids & Hw & Hs & HL), loaded_pool as (pl & Ep & Np).
  destruct loaded_lease1 as (l & El & Hp & Hb & _).
  destruct (release_lease_correct 50 false L _ loaded ids 1 l 0 pl Hw Hs) as (d' & ids' & l' & E & _ & _ & E' & R & _).
  - apply HL. by left.
  - exact El.
  - exact Hp.
  - exact Ep.
  - destruct (R (or_introl Hb)) as (R1 & R2 & _). exists d', l'. split_and!; [exact E|exact E'|exact (R2 Np)|exact R1].
Defined.

Lemma abandon_lease_correct_witness :
  exists d' l', abandon_lease 50 false 86400 loaded 1 = Done d' /\ lease_store d' !! 1%nat = Some l' /\ binding_state (data l') = FTS_ABANDONED /\ ends (data l') = 86450.
Proof.
  destruct loaded_wf as (L & ids & Hw & Hs & HL).
  destruct loaded_lease1 as (l & El & _ & _ & Hf).
  destruct (abandon_lease_correct 50 false L _ loaded ids 1 l 86400 Hw Hs) as (d' & ids' & l' & E & _ & _ & E' & R1 & _ & R2 & _).
  - apply HL. by left.
  - exact El.
  - exact Hf.
  - lia.
  - vm_compute. discriminate.
  - exists d', l'. split_and!; [exact E|exact E'|exact R1|exact R2].
Defined.

Lemma expire_all_pools_correct_witness :
  exists d' L, expire_all_pools 50 true [1%nat; 2%nat; 3%nat; 4%nat] [0%nat] unloaded = Done d' /\ states_ok L d'.
Proof.
  destruct (expire_all_pools_correct 50 true unloaded [1%nat; 2%nat; 3%nat; 4%nat] [0%nat] unloaded_fresh) as (d' & L & ids & off & E & _ & Hs & _).
  - apply (bool_decide_unpack _). by vm_compute.
  - intros i Hi. destruct (unloaded_valid i Hi) as (l & E & _). eauto.
  - intros p Hp. apply list_elem_of_singleton in Hp as ->. by eexists.
  - exists d', L. split; [exact E|exact Hs].
Defined.

Definition anyone : sender := mk_sender false false true 1 [].
Definition open_pool : pool_decl := mk_decl 0 [] [mk_permit permit_all_clients None 0].

Lemma allocate_lease_correct_witness :
  exists phl' d' l', allocate_lease 50 (fun _ => None) anyone loaded [open_pool] false = Done (Some 4%nat, phl', d') /\
    lease_store d' !! 4%nat = Some l' /\ host (data l') = None.
Proof.
  destruct loaded_wf as (L & ids & Hw & _), loaded_pool as (pl & Ep & _).
  destruct (allocate_lease_correct 50 (fun _ => None) L _ loaded ids anyone [open_pool] false Hw) as (r & phl' & d' & E & _ & _ & _ & _ & _ & R).
  - constructor; [|constructor]. by exists pl.
  - assert (Er : (fun x => match x with Done (r, _, _) => Some r | _ => None end)
                   (allocate_lease 50 (fun _ => None) anyone loaded [open_pool] false) = Some (Some 4%nat)) by (vm_compute; reflexivity).
    rewrite E in Er. injection Er as ->. destruct (R 4%nat eq_refl) as (pd & k & l' & _ & _ & _ & _ & _ & El & Hh).
    exists phl', d', l'. split_and!; [exact E|exact El|exact Hh].
Defined.

(** Two servers that share a pool with one lease; the lease is not in the same
    state on both, so both may offer it. *)
Definition shared_with (role : failover_role) (x : lease ldata) : db (W := list journal_entry) :=
  mk_db (mk_last None None) {[ 1%nat := x ]}
    {[ 0%nat := mk_pool None None None None None None 0 0 0 0 (Some (mk_peer normal 0 1800 cooperating role)) ]}
    ∅ ∅ ∅ ∅ {[1%nat]} [].
Definition shared_loaded (role : failover_role) (x : lease ldata) : db (W := list journal_entry) :=
  loaded_or (shared_with role x) (for_each lease_instantiate (shared_with role x) [1%nat]).
Definition shared_db (role : failover_role) (state : Z) : db (W := list journal_entry) := shared_loaded role (file_lease state state 0 None [] None).

Lemma shared_fresh role state next_ end_ hw : 1 <= state <= 7 -> 1 <= next_ <= 7 -> fresh (shared_with role (file_lease state next_ end_ None hw None)).
Proof.
  intros Hst Hn. split.
  - intros p pl k E. simpl in E. apply lookup_singleton_Some in E as [<- <-].
    split; [by destruct k|]. split; [done|]. split; [apply NoDup_nil_2|]. split; constructor.
  - intros p pl E. simpl in E. by apply lookup_singleton_Some in E as [<- <-].
  - done.
  - intros c cl E. simpl in E. by rewrite lookup_empty in E.
  - intros i l E. simpl in E. apply lookup_singleton_Some in E as [<- <-]. split_and!; try done; [simpl; lia..|]. intros p [= <-]. by eexists.
  - by intros q _ ?.
  - simpl. rewrite map_size_singleton. done.
Qed.

Lemma shared_loaded_wf role state next_ end_ hw : 1 <= state <= 7 -> 1 <= next_ <= 7 -> let d := shared_loaded role (file_lease state next_ end_ None hw None) in
  exists L ids, wf4 L L L L (fun _ => (0, 0)) d ids /\ states_ok L d /\ 1%nat ∈ L.
Proof.
  intros Hs Hn d. set (x := file_lease _ _ _ _ _ _) in d.
  assert (E1 : lease_store (shared_with role x) !! 1%nat = Some x) by apply lookup_singleton_eq.
  destruct (instantiate_all_ok (fun _ => (0, 0)) [1%nat] ∅ (shared_with role x) _ (fresh_loading _ (shared_fresh role state next_ end_ hw Hs Hn)))
    as (d' & L & ids & E & (Hw & Hst & _) & _ & Hm).
  - apply (bool_decide_unpack _). by vm_compute.
  - intros i _. apply not_elem_of_empty.
  - intros i ->%list_elem_of_singleton. eexists. split; [exact E1|done].
  - assert (Ed : d = d') by exact (f_equal (loaded_or (shared_with role x)) E). rewrite Ed. exists L, ids. split; [done|]. split; [done|].
    apply (Hm 1%nat x E1). right. split; [by left|]. unfold loads. destruct (queue_of_state (data x) Hs) as [k Hk]. by rewrite Hk.
Qed.
Lemma shared_wf role state : 1 <= state <= 7 -> exists L ids, wf4 L L L L (fun _ => (0, 0)) (shared_db role state) ids.
Proof. intros Hs. destruct (shared_loaded_wf role state state 0 [] Hs Hs) as (L & ids & Hw & _). by exists L, ids. Qed.

Definition offered (r : outcome (option nat * bool * db (W := list journal_entry))) : option nat :=
  match r with Done (o, _, _) => o | _ => None end.
Lemma offered_done r i : offered r = Some i -> exists phl d, r = Done (Some i, phl, d).
Proof. destruct r as [[[o phl] d]| | |]; simpl; intros E; try discriminate. subst. by eexists _, _. Qed.

Lemma shared_shares role state : (role, state) ∈ [(primary, FTS_FREE); (secondary, FTS_BACKUP)] -> shares (shared_db role state) 1 role.
Proof.
  intros Hin. repeat (apply elem_of_cons in Hin as [[= -> ->]|Hin]; [eexists _, _, _, _; split_and!; [by vm_compute|by vm_compute|by vm_compute|by vm_compute|done|done]|]).
  by apply not_elem_of_nil in Hin.
Qed.
Lemma shared_pool role state : (role, state) ∈ [(primary, FTS_FREE); (secondary, FTS_BACKUP)] ->
  Forall (fun pd => is_Some (pools (shared_db role state) !! the_pool pd)) [open_pool].
Proof.
  intros Hin. constructor; [|constructor].
  repeat (apply elem_of_cons in Hin as [[= -> ->]|Hin]; [eexists; by vm_compute|]). by apply not_elem_of_nil in Hin.
Qed.

Lemma allocate_lease_exclusive_witness : state_at (shared_db primary FTS_FREE) 1 <> state_at (shared_db secondary FTS_BACKUP) 1.
Proof.
  destruct (shared_wf primary FTS_FREE) as (L1 & ids1 & Hw1); [done|]. destruct (shared_wf secondary FTS_BACKUP) as (L2 & ids2 & Hw2); [done|].
  destruct (offered_done (allocate_lease 50 (fun _ => None) anyone (shared_db primary FTS_FREE) [open_pool] false) 1) as (r1 & d1 & A1); [vm_compute; reflexivity|].
  destruct (offered_done (allocate_lease 60 (fun _ => None) anyone (shared_db secondary FTS_BACKUP) [open_pool] false) 1) as (r2 & d2 & A2); [vm_compute; reflexivity|].
  apply (allocate_lease_exclusive 50 (fun _ => None) L1 (fun _ => (0, 0)) _ ids1 anyone [open_pool] false r1 d1 60 (fun _ => None) L2 (fun _ => (0, 0)) _ ids2 anyone [open_pool] false r2 d2 1 Hw1).
  - apply shared_pool. by left.
  - exact Hw2.
  - apply shared_pool. right. by left.
  - apply shared_shares. by left.
  - apply shared_shares. right. by left.
  - exact A1.
  - exact A2.
Defined.

(** ** A timer that is lost

    At time 50 the timer of the pool is set for time 100, when lease 1 ends.  At
    time 60 a lease arrives that has already ended (as an update from a peer
    may), and [supersede_lease] runs [pool_timer] at once.  This finds that the
    timer for time 100 is still right, and enters that there is none.  The next
    lease, until time 200, then sets the timer to 200, and lease 1 stays active
    until then. *)
Definition ended : ldata := set_uid None (set_ends 40 renewal).
Definition later : ldata := set_uid None (set_billing_class None renewal).

Definition lost_timer : outcome (option Z * option Z * option (Z * Z * Z)) :=
  d ← pool_timer 50 false loaded 0;
  let before := timers d !! 0%nat in
  '(_, _, d) ← supersede_lease 60 false d 2 (Some ended) true true true false;
  '(_, _, d) ← supersede_lease 60 false d 3 (Some later) true true true false;
  Done (before, timers d !! 0%nat,
        (fun l => (binding_state (data l), next_binding_state (data l), sort_time l)) <$> lease_store d !! 1%nat).

(** The timer of the pool moves from 100 to 200 while a lease is due at 100. *)
Theorem pool_timer_loses_timeout : lost_timer = Done (Some 100, Some 200, Some (FTS_ACTIVE, FTS_FREE, 100)).
Proof. vm_compute. reflexivity. Qed.

(** ** A place in the table that is too early

    [supersede_lease] puts the lease into the tables before it copies the end of
    the new lease and before it enters the new state, so that its place is that
    of the old lease.  Here the client of lease 1, active until 100, gets the
    free lease 4 until 200: lease 4 is preferred to lease 1, but lease 1 is
    found. *)
Definition second : ldata := set_uid None (set_billing_class None (set_hardware_addr [1; 10] renewal)).
Definition stale_order : outcome (option nat * option bool) :=
  '(_, _, d) ← supersede_lease 50 false loaded 4 (Some second) true true true false;
  Done (find_lease_by_hw_addr (hw_hash d) [1; 10],
        l1 ← lease_store d !! 1%nat; l4 ← lease_store d !! 4%nat; Some (client_lease_preferred (data l1) (data l4))).

Theorem supersede_lease_stale_order : stale_order = Done (Some 1%nat, Some true).
Proof. vm_compute. reflexivity. Qed.
