(* ===== verification/Packet.v ===== *)
(** * Packet headers (common/packet.c, common/ethernet.c, common/lpf.c)

    The server that talks to clients without an address sends and receives
    whole Ethernet frames: [send_packet] puts Ethernet, IP and UDP headers
    before a DHCP packet, [receive_packet] checks and strips them.  The headers
    are C structures that are copied to and from byte buffers, so each has a
    record and its image in memory ([ip_mem], [udp_mem]), which depends on the
    byte order of the machine.

    The statistics that [decode_udp_ip_header] keeps in static variables are a
    state ([counters]).  The system calls are the boundary: what is written to
    the descriptor is the result of [send_packet], what [recvmsg] returned is
    an argument of [receive_packet].  Token ring and FDDI support are not
    compiled in; [filter] is [USERLAND_FILTER]. *)

From Stdlib Require Import String.
From stdpp Require Import base tactics numbers strings list.
From S2P Require Import Prelude.

#[local] Open Scope Z_scope.

Section packet.
Context `{HostOrder}.

(** ** Checksums *)
Definition load16 (buf : list Z) (p : Z) : outcome Z := l ← rdn buf p 2; Done (mem_load l).

Definition add_carry (sum x : Z) : Z :=
  let sum := u32 (sum + x) in
  if 0xFFFF <? sum then u32 (sum - 0xFFFF) else sum.

(** The first loop: [n] pairs of bytes from index [i] on. *)
Fixpoint checksum_pairs (n : nat) (buf : list Z) (p i sum : Z) : outcome (Z * Z) :=
  match n with
  | O => Done (i, sum)
  | S n' => w ← load16 buf (p + i); checksum_pairs n' buf p (i + 2) (add_carry sum (u16 (ntohs w)))
  end.

Definition checksum (buf : list Z) (p nbytes sum : Z) : outcome Z :=
  '(i, sum) ← checksum_pairs (Z.to_nat (Z.land nbytes (u32 (Z.lnot 1)) / 2)) buf p 0 sum;
  if i <? nbytes then b ← rd buf (p + i); Done (add_carry sum (Z.shiftl b 8)) else Done sum.

Definition wrapsum (sum : Z) : Z := htons (Z.land (u32 (Z.lnot sum)) 0xFFFF).

(** ** The IP and UDP headers *)
Record ip := mk_ip {
  ip_fvhl : Z; ip_tos : Z; ip_len : Z; ip_id : Z; ip_off : Z;
  ip_ttl : Z; ip_p : Z; ip_sum : Z; ip_src : Z; ip_dst : Z }.
Definition ip_mem (h : ip) : list Z :=
  [ip_fvhl h; ip_tos h] ++ mem_store 2 (ip_len h) ++ mem_store 2 (ip_id h) ++ mem_store 2 (ip_off h) ++
  [ip_ttl h; ip_p h] ++ mem_store 2 (ip_sum h) ++ mem_store 4 (ip_src h) ++ mem_store 4 (ip_dst h).

(** The field of [n] bytes at offset [i] of an object. *)
Definition field (l : list Z) (i n : nat) : Z := mem_load (take n (drop i l)).
Definition ip_load (l : list Z) : ip :=
  mk_ip (field l 0 1) (field l 1 1) (s16 (field l 2 2)) (field l 4 2) (s16 (field l 6 2))
        (field l 8 1) (field l 9 1) (field l 10 2) (field l 12 4) (field l 16 4).

Record udphdr := mk_udphdr { uh_sport : Z; uh_dport : Z; uh_ulen : Z; uh_sum : Z }.
Definition udp_mem (h : udphdr) : list Z :=
  mem_store 2 (uh_sport h) ++ mem_store 2 (uh_dport h) ++ mem_store 2 (uh_ulen h) ++ mem_store 2 (uh_sum h).
Definition udp_load (l : list Z) : udphdr :=
  mk_udphdr (field l 0 2) (field l 2 2) (field l 4 2) (field l 6 2).

Definition sizeof_ip : Z := 20.
Definition sizeof_udp : Z := 8.
Definition IPTOS_LOWDELAY : Z := 0x10.
Definition IPPROTO_UDP : Z := 17.
Definition IP_V_SET (fvhl x : Z) : Z := u8 (Z.lor (Z.land fvhl 0x0F) (Z.shiftl x 4)).
Definition IP_HL_SET (fvhl x : Z) : Z := u8 (Z.lor (Z.land fvhl 0xF0) (Z.land (Z.shiftr x 2) 0x0F)).

(** The header before its checksum is filled in. *)
Definition ip_header (from to len : Z) : ip :=
  mk_ip (IP_HL_SET (IP_V_SET 0 4) 20) IPTOS_LOWDELAY (s16 (htons (sizeof_ip + sizeof_udp + len))) 0 0
        128 IPPROTO_UDP 0 from to.
Definition set_ip_sum (s : Z) (h : ip) : ip :=
  mk_ip (ip_fvhl h) (ip_tos h) (ip_len h) (ip_id h) (ip_off h) (ip_ttl h) (ip_p h) (u16 s) (ip_src h) (ip_dst h).
Definition set_uh_sum (s : Z) (h : udphdr) : udphdr := mk_udphdr (uh_sport h) (uh_dport h) (uh_ulen h) (u16 s).

(** The sum over the pseudo header (addresses, protocol and length), the
    data and the UDP header. *)
Definition udp_sum (i : ip) (u : udphdr) (ulen : Z) (data : list Z) (p len : Z) : outcome Z :=
  s ← checksum (ip_mem i) 12 8 (u32 (IPPROTO_UDP + ulen));
  s ← checksum data p len s;
  checksum (udp_mem u) 0 sizeof_udp s.

Definition assemble_udp_ip_header (local_port : Z) (buf : list Z) (bufix from to port : Z) (data : list Z) (len : Z)
    : outcome (list Z * Z) :=
  let h := ip_header from to len in
  s ← checksum (ip_mem h) 0 sizeof_ip 0;
  let h := set_ip_sum (wrapsum s) h in
  buf ← wrn buf bufix (ip_mem h);
  let bufix := u32 (bufix + sizeof_ip) in
  let u := mk_udphdr local_port (u16 port) (htons (sizeof_udp + len)) 0 in
  s ← udp_sum h u (ntohs (uh_ulen u)) data 0 len;
  let u := set_uh_sum (wrapsum s) u in
  buf ← wrn buf bufix (udp_mem u);
  Done (buf, u32 (bufix + sizeof_udp)).

(** ** Decoding *)

(** How many packets were seen, and how many of them were bad; every packet is
    counted as seen first.  Both start over when most packets are bad and when
    a good one comes after more than four. *)
Record tally := mk_tally { seen : Z; bad : Z }.
Definition saw_packet (t : tally) : tally := mk_tally (u32 (seen t + 1)) (bad t).
Definition bad_packet (t : tally) : tally :=
  let b := u32 (bad t + 1) in
  if (4 <? seen t) && negb (b =? 0) && (seen t / b <? 2) then mk_tally 0 0 else mk_tally (seen t) b.
Definition good_packet (t : tally) : tally := if 4 <? seen t then mk_tally 0 0 else t.

Record counters := mk_counters { length_checked : tally; ip_packets : tally; udp_packets : tally }.

(** What decoding leaves behind: the statistics, the address and port of the
    sender and the length of the payload ([rbuflen], a pointer that may be
    null). *)
Record decoded := mk_decoded { stats : counters; sin_addr : Z; sin_port : Z; rbuflen : option Z }.
Definition set_lengths (t : tally) (r : decoded) : decoded :=
  mk_decoded (mk_counters t (ip_packets (stats r)) (udp_packets (stats r))) (sin_addr r) (sin_port r) (rbuflen r).
Definition set_ips (t : tally) (r : decoded) : decoded :=
  mk_decoded (mk_counters (length_checked (stats r)) t (udp_packets (stats r))) (sin_addr r) (sin_port r) (rbuflen r).
Definition set_udps (t : tally) (r : decoded) : decoded :=
  mk_decoded (mk_counters (length_checked (stats r)) (ip_packets (stats r)) t) (sin_addr r) (sin_port r) (rbuflen r).
Definition set_addr (a : Z) (r : decoded) : decoded := mk_decoded (stats r) a (sin_port r) (rbuflen r).
Definition set_payload (port len : Z) (r : decoded) : decoded :=
  mk_decoded (stats r) (sin_addr r) port (match rbuflen r with Some _ => Some len | None => None end).

(** The lengths and, where the kernel does not filter, protocol and port. *)
Definition lengths_fit (ip_len pkt_len buflen : Z) : bool :=
  negb ((buflen <? ip_len) || (buflen <? pkt_len) || (buflen <? ip_len + sizeof_udp)).
Definition filtered (filter : bool) (local_port : Z) (i : ip) (u : udphdr) : bool :=
  filter && (negb (ip_p i =? IPPROTO_UDP) || negb (uh_dport u =? local_port)).

(** From the UDP checksum on. *)
Definition decode_udp (csum_ready : bool) (buf : list Z) (upp ip_len ulen : Z) (i : ip) (u : udphdr) (r : decoded)
    : outcome (Z * decoded) :=
  let r := set_addr (ip_src i) r in
  let data := upp + sizeof_udp in
  let len := u32 (ulen - sizeof_udp) in
  let r := set_udps (saw_packet (udp_packets (stats r))) r in
  wrong ← (if negb (uh_sum u =? 0) && csum_ready
           then s ← udp_sum i u ulen buf data len; Done (negb (wrapsum s =? 0)) else Done false);
  if (wrong : bool) then Done (-1, set_udps (bad_packet (udp_packets (stats r))) r)
  else let r := set_udps (good_packet (udp_packets (stats r))) r in
       Done (ip_len + sizeof_udp, set_payload (uh_sport u) len r).

Definition decode_udp_ip_header (filter : bool) (local_port : Z) (csum_ready : bool) (buf : list Z) (bufix buflen : Z)
    (r : decoded) : outcome (Z * decoded) :=
  if buflen <? sizeof_ip then Done (-1, r)
  else
    l ← rdn buf bufix sizeof_ip;
    let i := ip_load l in
    b ← rd buf bufix;
    let iplen := Z.shiftl (Z.land b 0x0f) 2 in
    let upp := bufix + iplen in
    if negb (lengths_fit iplen (ntohs (ip_len i)) buflen) then Done (-1, r)
    else
      l ← rdn buf upp sizeof_udp;
      let u := udp_load l in
      if filtered filter local_port i u then Done (-1, r)
      else
        let ulen := ntohs (uh_ulen u) in
        if ulen <? sizeof_udp then Done (-1, r)
        else
          let r := set_lengths (saw_packet (length_checked (stats r))) r in
          if buflen <? u32 (iplen + ulen)
          then Done (-1, set_lengths (bad_packet (length_checked (stats r))) r)
          else
            let r := set_lengths (good_packet (length_checked (stats r))) r in
            let r := set_ips (saw_packet (ip_packets (stats r))) r in
            s ← checksum buf bufix iplen 0;
            if negb (wrapsum s =? 0) then Done (-1, set_ips (bad_packet (ip_packets (stats r))) r)
            else
              let r := set_ips (good_packet (ip_packets (stats r))) r in
              decode_udp csum_ready buf upp iplen ulen i u r.

(** ** Ethernet *)
Record hardware := mk_hardware { hlen : Z; hbuf : list Z }.
Definition HARDWARE_ADDR_LEN : Z := 20.
Definition HTYPE_ETHER : Z := 1.
Definition HTYPE_INFINIBAND : Z := 32.
Definition ETHER_ADDR_LEN : Z := 6.
Definition ETHERTYPE_IP : Z := 0x0800.
Definition ETHER_HEADER_SIZE : Z := ETHER_ADDR_LEN * 2 + 2.

Definition ether_dhost (to : option hardware) : outcome (list Z) :=
  match to with
  | Some t => if hlen t =? 7 then rdn (hbuf t) 1 ETHER_ADDR_LEN else Done (replicate 6 0xff)
  | None => Done (replicate 6 0xff)
  end.
Definition ether_shost (hw_address : hardware) : outcome (list Z) :=
  if hlen hw_address - 1 =? ETHER_ADDR_LEN then rdn (hbuf hw_address) 1 ETHER_ADDR_LEN else Done (replicate 6 0).

Definition assemble_ethernet_header (hw_address : hardware) (buf : list Z) (bufix : Z) (to : option hardware)
    : outcome (list Z * Z) :=
  dhost ← ether_dhost to;
  shost ← ether_shost hw_address;
  buf ← wrn buf bufix (dhost ++ shost ++ mem_store 2 (htons ETHERTYPE_IP));
  Done (buf, u32 (bufix + ETHER_HEADER_SIZE)).

Definition decode_ethernet_header (filter : bool) (buf : list Z) (bufix : Z) (from : hardware) : outcome (Z * hardware) :=
  eh ← rdn buf bufix ETHER_HEADER_SIZE;
  if filter && negb (ntohs (field eh 12 2) =? ETHERTYPE_IP) then Done (-1, from)
  else
    hb ← wrn (hbuf from) 1 (take 6 (drop 6 eh));
    hb ← wr hb 0 HTYPE_ETHER;
    Done (ETHER_HEADER_SIZE, mk_hardware (ETHER_ADDR_LEN + 1) hb).

Definition assemble_hw_header (hw_address : hardware) (buf : list Z) (bufix : Z) (to : option hardware) : outcome (list Z * Z) :=
  htype ← rd (hbuf hw_address) 0;
  if htype =? HTYPE_INFINIBAND then Done (buf, bufix) else assemble_ethernet_header hw_address buf bufix to.

Definition decode_hw_header (filter : bool) (hw_address : hardware) (buf : list Z) (bufix : Z) (from : hardware)
    : outcome (Z * hardware) :=
  htype ← rd (hbuf hw_address) 0;
  if htype =? HTYPE_INFINIBAND then Done (0, from) else decode_ethernet_header filter buf bufix from.

(** ** Sending and receiving *)
Record interface_info := mk_interface { name : string; hw_address : hardware; anycast_mac_addr : hardware }.

(** What goes to the descriptor; the fallback interface has a UDP socket. *)
Inductive sent := Fallback | Write (frame : list Z).

(** [hh] and [ih] are the uninitialised arrays on the stack. *)
Definition send_packet (hh ih : list Z) (local_port : Z) (interface : interface_info) (raw : list Z) (len from : Z)
    (to_addr to_port : Z) (hto : option hardware) : outcome sent :=
  if String.eqb (name interface) "fallback" then Done Fallback
  else
    let hto := match hto with
               | None => if negb (hlen (anycast_mac_addr interface) =? 0) then Some (anycast_mac_addr interface) else None
               | Some _ => hto
               end in
    '(hh, hbufp) ← assemble_hw_header (hw_address interface) hh 0 hto;
    let fudge := hbufp mod 4 in
    h ← rdn hh 0 hbufp;
    buf ← wrn ih fudge h;
    let ibufp := u32 (hbufp + fudge) in
    '(buf, ibufp) ← assemble_udp_ip_header local_port buf ibufp from to_addr to_port raw (u32 len);
    r ← rdn raw 0 len;
    buf ← wrn buf ibufp r;
    frame ← rdn buf fudge (ibufp + len - fudge);
    Done (Write frame).

(** The control messages of [recvmsg]: [None] for one that is not auxiliary
    packet data. *)
Record tpacket_auxdata := mk_aux { tp_vlan_tci : Z; tp_status : Z }.
Definition TP_STATUS_CSUMNOTREADY : Z := 8.

(** [None]: the packet has a VLAN tag and is ignored. *)
Fixpoint read_aux (msgs : list (option tpacket_auxdata)) (csum_ready : bool) : option bool :=
  match msgs with
  | [] => Some csum_ready
  | None :: l => read_aux l csum_ready
  | Some aux :: l =>
      if negb (Z.land (tp_vlan_tci aux) 0x0fff =? 0) then None
      else read_aux l (Z.land (tp_status aux) TP_STATUS_CSUMNOTREADY =? 0)
  end.

(** [recvmsg] returned [length] and filled [ibuf]; [buf] is the buffer of the
    caller, and the result its new contents.  [rbuflen] points to the local
    variable [paylen]. *)
Definition receive_packet (filter : bool) (local_port : Z) (interface : interface_info)
    (length : Z) (ibuf : list Z) (msgs : list (option tpacket_auxdata)) (buf : list Z) (hfrom : hardware) (r : decoded)
    : outcome (Z * list Z * hardware * decoded) :=
  if length <=? 0 then Done (length, buf, hfrom, r)
  else match read_aux msgs true with
  | None => Done (0, buf, hfrom, r)
  | Some csum_ready =>
      '(offset, hfrom) ← decode_hw_header filter (hw_address interface) ibuf 0 hfrom;
      if offset <? 0 then Done (0, buf, hfrom, r)
      else
        let bufix := u32 offset in
        let length := length - offset in
        let r := mk_decoded (stats r) (sin_addr r) (sin_port r) (Some 0) in
        '(offset, r) ← decode_udp_ip_header filter local_port csum_ready ibuf bufix (u32 length) r;
        if offset <? 0 then Done (0, buf, hfrom, r)
        else
          let bufix := u32 (bufix + offset) in
          let length := length - offset in
          match rbuflen r with
          | None => Fault
          | Some paylen =>
              if u32 length <? paylen then Fatal
              else d ← rdn ibuf bufix paylen; buf ← wrn buf 0 d; Done (paylen, buf, hfrom, r)
          end
  end.
End packet.
