(* ===== verification/PacketOk.v ===== *)
(** * Packet headers: checksums, safety and the way through the wire

    [checksum] is the one's complement sum of RFC 1071; [receive_packet] is
    memory safe on every frame that is not shorter than the hardware header and
    keeps its statistics bounded; it accepts
    what [send_packet] wrote and gives the payload and the sender back; a
    header with one wrong word is refused. *)

From Stdlib Require Import String.
From stdpp Require Import base tactics numbers strings list.
From S2P Require Import Prelude Packet.

#[local] Open Scope Z_scope.

(** ** The one's complement sum *)

(** The sum of the 16-bit words of a byte string, the last one padded with a
    zero byte. *)
Fixpoint word_sum (l : list Z) : Z :=
  match l with
  | a :: b :: l' => a * 256 + b + word_sum l'
  | [a] => a * 256
  | [] => 0
  end.

(** The representative of [t] modulo 65535 that is zero only for zero. *)
Definition ones_sum (t : Z) : Z := if t =? 0 then 0 else (t - 1) mod 65535 + 1.

Lemma ones_sum_range t : 0 <= ones_sum t <= 65535.
Proof. unfold ones_sum. zcase; [lia|]. pose proof (Z.mod_pos_bound (t - 1) 65535). lia. Qed.

Lemma ones_sum_small t : 0 <= t <= 65535 -> ones_sum t = t.
Proof. intros. unfold ones_sum. zcase; [lia|]. rewrite Z.mod_small; lia. Qed.

Lemma ones_sum_full t : ones_sum t = 65535 <-> t <> 0 /\ t mod 65535 = 0.
Proof.
  unfold ones_sum. zcase; [lia|]. pose proof (Z.mod_pos_bound (t - 1) 65535).
  pose proof (Z.div_mod (t - 1) 65535). pose proof (Z.div_mod t 65535). pose proof (Z.mod_pos_bound t 65535). nia.
Qed.

Lemma add_carry_small s x : 0 <= s <= 65535 -> 0 <= x <= 65535 ->
  add_carry s x = if 65535 <? s + x then s + x - 65535 else s + x.
Proof. intros. unfold add_carry, u32. rewrite (Z.mod_small (s + x)) by lia. zcase; [|done]. rewrite Z.mod_small; lia. Qed.

Lemma add_carry_ones t x : 0 <= t -> 0 <= x <= 65535 -> add_carry (ones_sum t) x = ones_sum (t + x).
Proof.
  intros Ht Hx. rewrite add_carry_small by (try apply ones_sum_range; lia).
  destruct (Z.eq_dec t 0) as [->|N]; [rewrite !(ones_sum_small) by lia; zcase; lia|].
  unfold ones_sum in *. replace (t =? 0) with false by lia. replace (t + x =? 0) with false by lia.
  pose proof (Z.div_mod (t - 1) 65535). pose proof (Z.mod_pos_bound (t - 1) 65535).
  replace (t + x - 1) with ((t - 1) mod 65535 + x + (t - 1) / 65535 * 65535) by lia. rewrite Z_mod_plus_full.
  zcase.
  - rewrite <- (Z.mod_unique ((t - 1) mod 65535 + x) 65535 1 ((t - 1) mod 65535 + x - 65535)); lia.
  - rewrite (Z.mod_small ((t - 1) mod 65535 + x)); lia.
Qed.

Lemma ones_complement t : 0 <= t -> ones_sum (t + (65535 - ones_sum t)) = 65535.
Proof.
  intros Ht. apply ones_sum_full. pose proof (ones_sum_range t). unfold ones_sum in *. zcase; [subst; split; done|].
  split; [lia|]. apply Z.mod_divide; [done|]. exists ((t - 1) / 65535 + 1). pose proof (Z.div_mod (t - 1) 65535). lia.
Qed.

Lemma word_sum_bytes l : bytes l -> 0 <= word_sum l.
Proof.
  revert l. fix IH 1. intros [|a [|b l]] Hb; cbn [word_sum]; [done| |]; inversion_clear Hb as [|? ? Ha Hb']; unfold byte in *; [lia|].
  inversion_clear Hb' as [|? ? Hb0 Hl]. unfold byte in Hb0. specialize (IH l Hl). lia.
Qed.

Lemma word_sum_app l k : Nat.even (length l) = true -> word_sum (l ++ k) = word_sum l + word_sum k.
Proof.
  revert l. fix IH 1. intros [|a [|b l]] He; cbn -[Nat.even word_sum] in *; [done|done|].
  cbn [word_sum]. rewrite IH; [lia|done].
Qed.

(** Changing one word changes the sum by the difference. *)
Lemma word_sum_change a x y x' y' b : Nat.even (length a) = true ->
  word_sum (a ++ x' :: y' :: b) = word_sum (a ++ x :: y :: b) + ((x' * 256 + y') - (x * 256 + y)).
Proof. intros He. rewrite !word_sum_app by done. cbn [word_sum]. lia. Qed.

(** Two words that the one's complement sum can tell apart. *)
Definition distinct_words (v w : Z) : Prop := v <> w /\ ~ (v = 0 /\ w = 65535) /\ ~ (v = 65535 /\ w = 0).

Lemma ones_sum_detects t v w : 0 <= v <= 65535 -> 0 <= w <= 65535 -> distinct_words v w ->
  ones_sum t = 65535 -> ones_sum (t + (w - v)) <> 65535.
Proof.
  intros Hv Hw (N & N1 & N2) [_ E1]%ones_sum_full [_ E2]%ones_sum_full.
  apply Z.mod_divide in E1 as [p E1]; [|done]. apply Z.mod_divide in E2 as [q E2]; [|done].
  assert (w - v = (q - p) * 65535) by lia. assert (q - p = 0 \/ q - p = 1 \/ q - p = -1) by nia. lia.
Qed.

Section sums.
Context `{HostOrder}.

Lemma load16_spec buf p a b l :
  byte a -> byte b -> 0 <= p -> drop (Z.to_nat p) buf = a :: b :: l -> ntohs <$> load16 buf p = Done (a * 256 + b).
Proof.
  intros Ha Hb Hp Hd. unfold load16.
  assert (Hl : zlen (drop (Z.to_nat p) buf) = zlen l + 2) by (rewrite Hd, !zlen_cons; lia).
  unfold zlen in Hl. rewrite length_drop in Hl. rewrite rdn_in by (unfold zlen; lia). rewrite bind_ret, fmap_ret. rewrite Hd.
  f_equal. unfold ntohs. change (take (Z.to_nat 2) (a :: b :: l)) with [a; b]. rewrite ntoh_load; [|by constructor; [|constructor]|done].
  cbn. unfold zlen. simpl. lia.
Qed.

Lemma checksum_pairs_spec n : forall buf p i t, bytes buf -> 0 <= p + i -> p + i + 2 * Z.of_nat n <= zlen buf -> 0 <= t ->
  checksum_pairs n buf p i (ones_sum t) =
  Done (i + 2 * Z.of_nat n, ones_sum (t + word_sum (take (2 * n) (drop (Z.to_nat (p + i)) buf)))).
Proof.
  induction n as [|n IH]; intros buf p i t Hb Hp Hn Ht; cbn [checksum_pairs].
  { cbn [Z.of_nat take word_sum Nat.mul]. by rewrite Z.mul_0_r, !Z.add_0_r. }
  assert (Hd : bytes (drop (Z.to_nat (p + i)) buf)) by by apply Forall_drop.
  assert (Hz : zlen (drop (Z.to_nat (p + i)) buf) >= 2) by (unfold zlen in *; rewrite length_drop; lia).
  destruct (drop (Z.to_nat (p + i)) buf) as [|a [|b l]] eqn:E; [unfold zlen in Hz; simpl in Hz; lia..|].
  apply Forall_cons in Hd as [Ha Hd]. apply Forall_cons in Hd as [Hb0 Hl].
  pose proof (load16_spec buf (p + i) a b l Ha Hb0 Hp E) as Hw. destruct (load16 buf (p + i)) as [w| | |]; try done.
  injection Hw as Hw. rewrite bind_ret, Hw. unfold u16. unfold byte in *. rewrite Z.mod_small by lia.
  rewrite add_carry_ones by lia.
  rewrite IH by (try done; lia). f_equal. f_equal; [lia|]. f_equal.
  replace (2 * S n)%nat with (S (S (2 * n))) by lia. cbn [take word_sum].
  replace (Z.to_nat (p + (i + 2))) with (Z.to_nat (p + i) + 2)%nat by lia. rewrite <- drop_drop, E. cbn [drop]. by rewrite <- !Z.add_assoc.
Qed.

Lemma land_even n : 0 <= n < 2 ^ 32 -> Z.land n (u32 (Z.lnot 1)) = 2 * (n / 2).
Proof.
  intros Hn. change (u32 (Z.lnot 1)) with (2 * (2 ^ 31 - 1)).
  replace n with (2 * (n / 2) + n mod 2) at 1 by (pose proof (Z.div_mod n 2); lia).
  assert (B : 0 <= n / 2 < 2 ^ 31) by (pose proof (Z.div_mod n 2); pose proof (Z.mod_pos_bound n 2); lia).
  rewrite <- (Z.mod_small (n / 2) (2 ^ 31)) at 2 by done. rewrite <- Z.land_ones by lia. rewrite Z.ones_equiv.
  apply Z.bits_inj'. intros i Hi. rewrite Z.land_spec. destruct (Z.eq_dec i 0) as [->|Ni].
  - rewrite !Z.testbit_even_0. apply andb_false_r.
  - replace i with (Z.succ (i - 1)) by lia. rewrite !Z.testbit_even_succ by lia. rewrite Z.land_spec. f_equal.
    destruct (Z.mod_pos_bound n 2) as [L U]; [lia|]. destruct (Z.eq_dec (n mod 2) 0) as [->|N].
    + rewrite Z.add_0_r. by rewrite Z.testbit_even_succ by lia.
    + replace (n mod 2) with 1 by lia. by rewrite Z.testbit_odd_succ by lia.
Qed.

Lemma checksum_spec buf p n t :
  bytes buf -> 0 <= p -> 0 <= n < 2 ^ 32 -> p + n <= zlen buf -> 0 <= t ->
  checksum buf p n (ones_sum t) = Done (ones_sum (t + word_sum (take (Z.to_nat n) (drop (Z.to_nat p) buf)))).
Proof.
  intros Hb Hp Hn Hl Ht. unfold checksum. rewrite land_even by done.
  rewrite (Z.mul_comm 2), Z.div_mul by done. pose proof (Z.div_mod n 2). pose proof (Z.mod_pos_bound n 2).
  rewrite checksum_pairs_spec by (try done; rewrite ?Z2Nat.id; lia). rewrite bind_ret, Z.add_0_l, Z.add_0_r.
  set (d := drop (Z.to_nat p) buf). set (k := (2 * Z.to_nat (n / 2))%nat).
  assert (Hk : n = Z.of_nat k + n mod 2) by (unfold k; lia).
  assert (0 <= word_sum (take k d)) by (apply word_sum_bytes; by apply Forall_take, Forall_drop). zcase.
  - assert (E1 : Z.to_nat n = S k) by lia. assert (Hd : (k < length d)%nat) by (unfold d, zlen in *; rewrite length_drop; lia).
    destruct (lookup_lt_is_Some_2 d k Hd) as [b Eb]. rewrite (proj2 (rd_Done _ _ b)).
    2:{ split; [lia|]. rewrite <- Eb. unfold d. rewrite lookup_drop. f_equal. lia. }
    assert (Hbb : byte b). { apply (Forall_lookup_1 byte d k); [by apply Forall_drop|done]. }
    rewrite bind_ret, Z.shiftl_mul_pow2 by lia. unfold byte in Hbb. rewrite add_carry_ones by lia. rewrite E1.
    rewrite (take_S_r d k b Eb). do 2 f_equal. rewrite word_sum_app; [cbn; lia|].
    rewrite length_take, Nat.min_l by lia. unfold k. apply Nat.even_mul.
  - rewrite Hk at 1. replace (n mod 2) with 0 by lia. by rewrite Z.add_0_r, Nat2Z.id.
Qed.

Lemma checksum_zero buf p n :
  bytes buf -> 0 <= p -> 0 <= n < 2 ^ 32 -> p + n <= zlen buf ->
  checksum buf p n 0 = Done (ones_sum (word_sum (take (Z.to_nat n) (drop (Z.to_nat p) buf)))).
Proof. intros. exact (checksum_spec buf p n 0 ltac:(done) ltac:(done) ltac:(done) ltac:(done) ltac:(done)). Qed.

(** [checksum] computes the one's complement sum: starting from a sum of
    at most 16 bits, it returns the canonical representative modulo 65535 of
    the sum of the big-endian 16-bit words of the range, a last odd byte being
    the high byte of a word.  It reads nothing outside the range and the carry
    is never lost, on machines of either byte order. *)
Lemma checksum_ones_sum buf p n sum :
  bytes buf -> 0 <= p -> 0 <= n < 2 ^ 32 -> p + n <= zlen buf -> 0 <= sum <= 65535 ->
  checksum buf p n sum = Done (ones_sum (sum + word_sum (take (Z.to_nat n) (drop (Z.to_nat p) buf)))).
Proof. intros. rewrite <- (ones_sum_small sum) at 1 by done. apply checksum_spec; (done || lia). Qed.

Lemma wrapsum_spec s : 0 <= s <= 65535 -> wrapsum s = htons (65535 - s).
Proof.
  intros Hs. unfold wrapsum. f_equal. change 65535 with (Z.ones 16) at 1. rewrite Z.land_ones by lia.
  unfold u32. replace (Z.lnot s) with (2 ^ 16 - 1 - s + (-1) * 2 ^ 16) by (unfold Z.lnot; lia).
  rewrite <- (Z.mod_unique _ (2 ^ 32) (-1) (2 ^ 32 - 1 - s)) by lia.
  rewrite <- (Z.mod_unique _ (2 ^ 16) (2 ^ 16 - 1) (65535 - s)); lia.
Qed.

Lemma htons_zero v : 0 <= v < 65536 -> htons v = 0 <-> v = 0.
Proof.
  intros Hv. split.
  - intros E. pose proof (hton_store 2 v) as Hst. unfold htons in E. rewrite E in Hst.
    apply (f_equal be_val) in Hst. rewrite be_val_be_bytes in Hst. rewrite Z.mod_small in Hst by lia. rewrite <- Hst.
    unfold mem_store, le_bytes. by destruct host_big.
  - intros ->. unfold htons, hton. by destruct host_big.
Qed.

(** The test of the receiver. *)
Lemma wrapsum_zero s : 0 <= s <= 65535 -> (wrapsum s =? 0) = (s =? 65535).
Proof.
  intros Hs. rewrite wrapsum_spec by done. apply Bool.eq_true_iff_eq. rewrite !Z.eqb_eq, htons_zero by lia. lia.
Qed.
End sums.

(** ** The statistics *)
Definition tally_ok (t : tally) : Prop :=
  0 <= bad t <= seen t /\ seen t - bad t <= 4 /\ (seen t <= 4 \/ 2 * bad t <= seen t).
Definition counters_ok (c : counters) : Prop :=
  tally_ok (length_checked c) /\ tally_ok (ip_packets c) /\ tally_ok (udp_packets c).

Lemma bad_packet_ok t : tally_ok t -> tally_ok (bad_packet (saw_packet t)).
Proof.
  intros (H1 & H2 & H3). unfold bad_packet, saw_packet, u32. cbn [seen bad]. rewrite !Z.mod_small by lia.
  zcase; unfold tally_ok; cbn [seen bad]; [lia|]. split_and!; [lia..|].
  destruct E as [E|E]; [zbool; destruct E; zbool; lia|]. zbool. right.
  pose proof (Z.div_mod (seen t + 1) (bad t + 1)). pose proof (Z.mod_pos_bound (seen t + 1) (bad t + 1)). nia.
Qed.
Lemma good_packet_ok t : tally_ok t -> tally_ok (good_packet (saw_packet t)).
Proof.
  intros (H1 & H2 & H3). unfold good_packet, saw_packet, u32, tally_ok. cbn [seen bad]. rewrite !Z.mod_small by lia.
  zcase; cbn [seen bad]; lia.
Qed.
#[export] Hint Resolve bad_packet_ok good_packet_ok : dhcp.

(** ** Headers in memory *)
Section headers.
Context `{HostOrder}.

Lemma bytes_mem_store n z : bytes (mem_store n z).
Proof. unfold mem_store, le_bytes. destruct host_big; [|apply bytes_reverse]; apply bytes_be_bytes. Qed.
Lemma zlen_mem_store n z : zlen (mem_store n z) = Z.of_nat n.
Proof. unfold zlen. by rewrite length_mem_store. Qed.

Lemma mem_store_load l n : bytes l -> length l = n -> mem_store n (mem_load l) = l.
Proof.
  intros Hb <-. unfold mem_store, mem_load, le_bytes, le_val. destruct host_big; [by apply be_bytes_be_val|].
  rewrite <- length_reverse, be_bytes_be_val by by apply bytes_reverse. apply reverse_involutive.
Qed.
Lemma mem_store_mod n z : mem_store n (z mod 2 ^ (8 * Z.of_nat n)) = mem_store n z.
Proof. unfold mem_store, le_bytes. by rewrite be_bytes_mod. Qed.

(** A big-endian word of a header counts as its value. *)
Lemma word_sum_htons v : 0 <= v < 65536 -> word_sum (mem_store 2 (htons v)) = v.
Proof.
  intros Hv. unfold htons. rewrite hton_store. cbn [be_bytes word_sum].
  change (2 ^ (8 * Z.of_nat 1)) with 256. change (2 ^ (8 * Z.of_nat 0)) with 1. rewrite Z.div_1_r.
  pose proof (Z.div_mod v 256). rewrite (Z.mod_small (v / 256)) by (split; [apply Z.div_pos|apply Z.div_lt_upper_bound]; lia). lia.
Qed.

Definition ip_wf (h : ip) : Prop :=
  byte (ip_fvhl h) /\ byte (ip_tos h) /\ - 2 ^ 15 <= ip_len h < 2 ^ 15 /\ 0 <= ip_id h < 2 ^ 16 /\ - 2 ^ 15 <= ip_off h < 2 ^ 15 /\
  byte (ip_ttl h) /\ byte (ip_p h) /\ 0 <= ip_sum h < 2 ^ 16 /\ 0 <= ip_src h < 2 ^ 32 /\ 0 <= ip_dst h < 2 ^ 32.
Definition udp_wf (h : udphdr) : Prop :=
  0 <= uh_sport h < 2 ^ 16 /\ 0 <= uh_dport h < 2 ^ 16 /\ 0 <= uh_ulen h < 2 ^ 16 /\ 0 <= uh_sum h < 2 ^ 16.

Lemma length_ip_mem h : length (ip_mem h) = 20%nat.
Proof. unfold ip_mem. by rewrite !length_app, !length_mem_store. Qed.
Lemma length_udp_mem h : length (udp_mem h) = 8%nat.
Proof. unfold udp_mem. by rewrite !length_app, !length_mem_store. Qed.

Lemma bytes_ip_mem h : ip_wf h -> bytes (ip_mem h).
Proof.
  intros (B1 & B2 & _ & _ & _ & B3 & B4 & _). unfold ip_mem.
  repeat (apply Forall_app; split); try apply bytes_mem_store; (constructor; [|constructor]); auto.
Qed.
Lemma bytes_udp_mem h : bytes (udp_mem h).
Proof. unfold udp_mem. repeat (apply Forall_app; split); apply bytes_mem_store. Qed.

Lemma mem_store_cells n z : exists l, mem_store n z = l /\ length l = n /\ mem_load l = z mod 2 ^ (8 * Z.of_nat n).
Proof. exists (mem_store n z). split_and!; [done|apply length_mem_store|apply load_store]. Qed.

Lemma sint_range w x : 0 < w -> - 2 ^ (w - 1) <= sint w x < 2 ^ (w - 1).
Proof.
  intros Hw. unfold sint. pose proof (Z.mod_pos_bound x (2 ^ w) ltac:(lia)).
  assert (2 ^ w = 2 * 2 ^ (w - 1)) by (rewrite <- Z.pow_succ_r by lia; f_equal; lia). zcase; lia.
Qed.
Lemma sint_id w x : 0 < w -> - 2 ^ (w - 1) <= x < 2 ^ (w - 1) -> sint w (x mod 2 ^ w) = x.
Proof.
  intros Hw Hx. assert (2 ^ w = 2 * 2 ^ (w - 1)) by (rewrite <- Z.pow_succ_r by lia; f_equal; lia).
  unfold sint. rewrite Z.mod_mod by lia. destruct (Z_lt_dec x 0).
  - rewrite <- (Z.mod_unique x (2 ^ w) (-1) (x + 2 ^ w)) by lia. zcase; lia.
  - rewrite Z.mod_small by lia. zcase; lia.
Qed.

Lemma store_signed l : bytes l -> length l = 2%nat -> mem_store 2 (s16 (mem_load l)) = l.
Proof.
  intros Hb Hl. rewrite <- (mem_store_mod 2). change (8 * Z.of_nat 2) with 16. unfold s16. rewrite sint_mod by lia.
  change 16 with (8 * Z.of_nat 2). rewrite mem_store_mod. by apply mem_store_load.
Qed.
Lemma mem_load_byte b : mem_load [b] = b.
Proof. unfold mem_load, le_val. cbn. unfold zlen. cbn. destruct host_big; lia. Qed.

(** Copying a header to and from a buffer loses nothing. *)
Lemma ip_mem_load l : bytes l -> length l = 20%nat -> ip_mem (ip_load l) = l.
Proof.
  intros Hb Hl. do 20 (destruct l as [|? l]; [done|]). destruct l; [|done]. repeat (apply Forall_cons in Hb as [? Hb]).
  unfold ip_mem, ip_load, field. cbn [ip_fvhl ip_tos ip_len ip_id ip_off ip_ttl ip_p ip_sum ip_src ip_dst take drop].
  rewrite !mem_load_byte, !store_signed, !mem_store_load; try done; by repeat (constructor; [done|]).
Qed.
Lemma udp_mem_load l : bytes l -> length l = 8%nat -> udp_mem (udp_load l) = l.
Proof.
  intros Hb Hl. do 8 (destruct l as [|? l]; [done|]). destruct l; [|done]. repeat (apply Forall_cons in Hb as [? Hb]).
  unfold udp_mem, udp_load, field. cbn [uh_sport uh_dport uh_ulen uh_sum take drop].
  rewrite !mem_store_load; try done; by repeat (constructor; [done|]).
Qed.

Ltac cells2 z := let a := fresh "a" in let b := fresh "b" in let E := fresh "E" in let l := fresh "l" in let Hl := fresh "Hl" in let M := fresh "M" in
  destruct (mem_store_cells 2 z) as (l & E & Hl & M); destruct l as [|a [|b [|]]]; try discriminate Hl; rewrite E; clear E Hl.
Ltac cells4 z := let a := fresh "a" in let b := fresh "b" in let c := fresh "c" in let d := fresh "d" in let E := fresh "E" in let l := fresh "l" in let Hl := fresh "Hl" in let M := fresh "M" in
  destruct (mem_store_cells 4 z) as (l & E & Hl & M); destruct l as [|a [|b [|c [|d [|]]]]]; try discriminate Hl; rewrite E; clear E Hl.

Lemma ip_load_mem h : ip_wf h -> ip_load (ip_mem h) = h.
Proof.
  destruct h as [f t le id o tt p s sr ds]. unfold ip_wf, ip_mem. cbn [ip_fvhl ip_tos ip_len ip_id ip_off ip_ttl ip_p ip_sum ip_src ip_dst].
  intros (B1 & B2 & R1 & R2 & R3 & B3 & B4 & R4 & R5 & R6).
  cells2 le. cells2 id. cells2 o. cells2 s. cells4 sr. cells4 ds.
  unfold ip_load, field. cbn [app take drop]. rewrite M, M0, M1, M2, M3, M4, !mem_load_byte.
  change (8 * Z.of_nat 2) with 16. change (8 * Z.of_nat 4) with 32. unfold s16. rewrite !sint_id by lia. by rewrite !Z.mod_small by lia.
Qed.
Lemma udp_load_mem h : udp_wf h -> udp_load (udp_mem h) = h.
Proof.
  destruct h as [a b c d]. unfold udp_wf, udp_mem. cbn [uh_sport uh_dport uh_ulen uh_sum]. intros (R1 & R2 & R3 & R4).
  cells2 a. cells2 b. cells2 c. cells2 d. unfold udp_load, field. cbn [app take drop]. rewrite M, M0, M1, M2.
  change (8 * Z.of_nat 2) with 16. by rewrite !Z.mod_small by lia.
Qed.
End headers.

(** ** What [decode_udp_ip_header] accepts *)
Section decode.
Context `{HostOrder} (filter : bool) (local_port : Z) (csum_ready : bool).

(** The parts of a packet that starts [l]. *)
Definition header_length (l : list Z) : Z := 4 * (nth 0 l 0 mod 16).
Definition ip_of (l : list Z) : ip := ip_load (take 20 l).
Definition udp_of (l : list Z) : udphdr := udp_load (take 8 (drop (Z.to_nat (header_length l)) l)).
Definition udp_length (l : list Z) : Z := ntohs (uh_ulen (udp_of l)).
Definition payload (l : list Z) : list Z :=
  take (Z.to_nat (udp_length l - 8)) (drop (Z.to_nat (header_length l) + 8) l).

Definition ip_sum_ok (l : list Z) : bool := ones_sum (word_sum (take (Z.to_nat (header_length l)) l)) =? 65535.
Definition udp_total (l : list Z) : Z :=
  17 + udp_length l + word_sum (take 8 (drop 12 l)) + word_sum (payload l)
  + word_sum (take 8 (drop (Z.to_nat (header_length l)) l)).
Definition udp_sum_ok (l : list Z) : bool :=
  (uh_sum (udp_of l) =? 0) || negb csum_ready || (ones_sum (udp_total l) =? 65535).

Definition verdict (l : list Z) (buflen : Z) : bool :=
  (20 <=? buflen) && lengths_fit (header_length l) (ntohs (ip_len (ip_of l))) buflen &&
  negb (filtered filter local_port (ip_of l) (udp_of l)) && (8 <=? udp_length l) &&
  (header_length l + udp_length l <=? buflen) && ip_sum_ok l && udp_sum_ok l.

Lemma shiftl_land b : Z.shiftl (Z.land b 0x0f) 2 = 4 * (b mod 16).
Proof. rewrite Z.shiftl_mul_pow2 by lia. change 0x0f with (Z.ones 4). rewrite Z.land_ones by lia. change (2 ^ 4) with 16. lia. Qed.

Lemma header_length_range l : 0 <= header_length l <= 60.
Proof. unfold header_length. pose proof (Z.mod_pos_bound (nth 0 l 0) 16). lia. Qed.
Lemma ntohs_range z : 0 <= ntohs z < 65536.
Proof. apply hton_range. Qed.

(** The sum over pseudo header, data and UDP header. *)
Lemma udp_sum_spec i u ulen data p len :
  bytes (ip_mem i) -> bytes data -> 0 <= p -> 0 <= len < 2 ^ 32 -> p + len <= zlen data -> 0 <= ulen <= 65518 ->
  udp_sum i u ulen data p len =
  Done (ones_sum (17 + ulen + word_sum (take 8 (drop 12 (ip_mem i)))
                  + word_sum (take (Z.to_nat len) (drop (Z.to_nat p) data)) + word_sum (udp_mem u))).
Proof.
  intros Hi Hd Hp Hl Hz Hu. unfold udp_sum. unfold u32, IPPROTO_UDP. rewrite Z.mod_small by lia.
  rewrite <- (ones_sum_small (17 + ulen)) at 1 by lia.
  assert (Hw : 0 <= word_sum (take 8 (drop 12 (ip_mem i)))) by (apply word_sum_bytes; by apply Forall_take, Forall_drop).
  assert (Hv : 0 <= word_sum (take (Z.to_nat len) (drop (Z.to_nat p) data))) by (apply word_sum_bytes; by apply Forall_take, Forall_drop).
  rewrite checksum_spec by (try done; unfold zlen; rewrite ?length_ip_mem; lia). rewrite bind_ret.
  change (Z.to_nat 8) with 8%nat. change (Z.to_nat 12) with 12%nat.
  rewrite checksum_spec by (try done; lia). rewrite bind_ret.
  rewrite checksum_spec; [|apply bytes_udp_mem|done|done|unfold zlen; by rewrite length_udp_mem|].
  - do 3 f_equal. change (drop (Z.to_nat 0) (udp_mem u)) with (udp_mem u). rewrite take_ge; [done|]. by rewrite length_udp_mem.
  - lia.
Qed.

Lemma drop_sum (buf : list Z) a b : 0 <= a -> 0 <= b -> drop (Z.to_nat (a + b)) buf = drop (Z.to_nat b) (drop (Z.to_nat a) buf).
Proof. intros. rewrite drop_drop. f_equal. lia. Qed.

(** The packet starts at index [bufix] of the buffer. *)
Context (buf : list Z) (bufix buflen : Z).
Hypothesis Hbuf : bytes buf.
Hypothesis Hix : 0 <= bufix.
Hypothesis Hlen : 0 <= buflen <= 65518.
Hypothesis Hend : bufix + buflen <= zlen buf.
Let l := drop (Z.to_nat bufix) buf.

Lemma packet_bytes : bytes l.
Proof. by apply Forall_drop. Qed.
Lemma packet_length : buflen <= zlen l.
Proof. unfold l, zlen in *. rewrite length_drop. lia. Qed.

Lemma packet_drop n : drop n l = drop (Z.to_nat bufix + n) buf.
Proof. unfold l. by rewrite drop_drop. Qed.

(** Reading [n] bytes of the packet. *)
Lemma read_packet i n : 0 <= i -> 0 <= n -> i + n <= buflen ->
  rdn buf (bufix + i) n = Done (take (Z.to_nat n) (drop (Z.to_nat i) l)) /\
  length (take (Z.to_nat n) (drop (Z.to_nat i) l)) = Z.to_nat n.
Proof.
  intros Hi Hn Hz. pose proof packet_length as Hp. unfold zlen in Hp. split; [|rewrite length_take, length_drop; lia].
  rewrite rdn_in by lia. by rewrite drop_sum.
Qed.

Definition decoded_as (c : counters) (r : decoded) : decoded :=
  mk_decoded c (ip_src (ip_of l)) (uh_sport (udp_of l)) (match rbuflen r with Some _ => Some (udp_length l - 8) | None => None end).

Lemma decode_udp_result r : counters_ok (stats r) -> 20 <= buflen -> 8 <= udp_length l -> header_length l + udp_length l <= buflen ->
  exists c, counters_ok c /\
    decode_udp csum_ready buf (bufix + header_length l) (header_length l) (udp_length l) (ip_of l) (udp_of l) r =
    Done (if udp_sum_ok l then (header_length l + 8, decoded_as c r)
          else (-1, mk_decoded c (ip_src (ip_of l)) (sin_port r) (rbuflen r))).
Proof.
  intros (C1 & C2 & C3) H20 Hu Hb. unfold decode_udp. pose proof (header_length_range l).
  assert (Hs : (if negb (uh_sum (udp_of l) =? 0) && csum_ready
     then s ← udp_sum (ip_of l) (udp_of l) (udp_length l) buf (bufix + header_length l + sizeof_udp) (u32 (udp_length l - sizeof_udp)); Done (negb (wrapsum s =? 0))
     else Done false) = Done (negb (udp_sum_ok l))).
  { unfold udp_sum_ok. destruct (uh_sum (udp_of l) =? 0); [done|]. destruct csum_ready; [|done]. cbn [negb andb orb].
    unfold sizeof_udp, u32. rewrite Z.mod_small by lia. destruct (read_packet 0 20) as [_ L20]; [lia..|]. destruct (read_packet (header_length l) 8) as [_ L8]; [lia..|].
    change (drop (Z.to_nat 0) l) with l in L20. change (Z.to_nat 20) with 20%nat in L20. change (Z.to_nat 8) with 8%nat in L8.
    assert (Ei : ip_mem (ip_of l) = take 20 l) by (apply ip_mem_load; [apply Forall_take, packet_bytes|done]).
    assert (Eu : udp_mem (udp_of l) = take 8 (drop (Z.to_nat (header_length l)) l)) by (apply udp_mem_load; [apply Forall_take, Forall_drop, packet_bytes|done]).
    rewrite udp_sum_spec; try done; try lia; [|rewrite Ei; apply Forall_take, packet_bytes].
    rewrite bind_ret. rewrite wrapsum_zero by apply ones_sum_range. do 4 f_equal. unfold udp_total, payload. rewrite Ei, Eu.
    rewrite skipn_firstn_comm, take_take. change (8 `min` (20 - 12))%nat with 8%nat.
    by replace (drop (Z.to_nat (bufix + header_length l + 8)) buf) with (drop (Z.to_nat (header_length l) + 8) l) by (rewrite packet_drop; f_equal; lia). }
  rewrite Hs, bind_ret. clear Hs. unfold u32, sizeof_udp. rewrite Z.mod_small by lia. unfold decoded_as, set_udps, set_addr, set_payload. cbn [stats udp_packets length_checked ip_packets sin_port rbuflen sin_addr].
  destruct (udp_sum_ok l); cbn [negb]; eexists; split; [|reflexivity| |reflexivity].
  - split_and!; cbn; auto with dhcp.
  - split_and!; cbn; auto with dhcp.
Qed.

Lemma read_head : 20 <= buflen -> exists b, rd buf bufix = Done b /\ Z.shiftl (Z.land b 0x0f) 2 = header_length l.
Proof.
  intros H20. destruct (rd_in buf bufix) as (b & E & Eb); [lia|]. exists b. split; [done|]. rewrite shiftl_land. unfold header_length.
  do 3 f_equal. unfold l. symmetry. apply nth_lookup_Some. by rewrite lookup_drop, Nat.add_0_r.
Qed.

Lemma header_sum : header_length l <= buflen ->
  checksum buf bufix (header_length l) 0 = Done (ones_sum (word_sum (take (Z.to_nat (header_length l)) l))).
Proof. intros Hh. pose proof (header_length_range l). apply checksum_zero; done || lia. Qed.

Lemma decode_udp_ip_header_result r : counters_ok (stats r) ->
  exists c a, counters_ok c /\
    decode_udp_ip_header filter local_port csum_ready buf bufix buflen r =
    Done (if verdict l buflen then (header_length l + 8, decoded_as c r) else (-1, mk_decoded c a (sin_port r) (rbuflen r))).
Proof.
  intros Hc. assert (Hr : r = mk_decoded (stats r) (sin_addr r) (sin_port r) (rbuflen r)) by by destruct r.
  unfold decode_udp_ip_header, verdict, sizeof_ip. destruct (Z.ltb_spec buflen 20) as [L|H20].
  { exists (stats r), (sin_addr r). split; [done|]. replace (20 <=? buflen) with false by lia. cbn [andb]. by rewrite <- Hr. }
  destruct (read_packet 0 20) as [E20 _]; [lia..|]. rewrite Z.add_0_r in E20. rewrite E20, bind_ret. clear E20.
  destruct (read_head H20) as (b & Eb & Eh). rewrite Eb, bind_ret, Eh. clear b Eb Eh.
  replace (20 <=? buflen) with true by lia. cbn [andb]. change (ip_load (take (Z.to_nat 20) (drop (Z.to_nat 0) l))) with (ip_of l).
  pose proof (header_length_range l) as Rh. pose proof (ntohs_range (uh_ulen (udp_of l))) as Ru. fold (udp_length l) in Ru.
  destruct (lengths_fit _ _ _) eqn:Ef; cbn [negb andb]; [|exists (stats r), (sin_addr r); split; [done|by rewrite <- Hr]].
  unfold lengths_fit in Ef. apply negb_true_iff in Ef. zbool. unfold sizeof_udp in *.
  destruct (read_packet (header_length l) 8) as [E8 _]; [lia..|]. rewrite E8, bind_ret. clear E8.
  change (udp_load (take (Z.to_nat 8) (drop (Z.to_nat (header_length l)) l))) with (udp_of l). fold (udp_length l).
  destruct (filtered _ _ _ _); cbn [negb andb]; [exists (stats r), (sin_addr r); split; [done|by rewrite <- Hr]|].
  destruct (Z.ltb_spec (udp_length l) 8) as [L8|L8].
  { replace (8 <=? udp_length l) with false by lia. exists (stats r), (sin_addr r). split; [done|by rewrite <- Hr]. }
  replace (8 <=? udp_length l) with true by lia. cbn [andb]. unfold u32. rewrite Z.mod_small by lia.
  destruct Hc as (C1 & C2 & C3).
  destruct (Z.ltb_spec buflen (header_length l + udp_length l)) as [Lu|Lu].
  { replace (header_length l + udp_length l <=? buflen) with false by lia.
    eexists _, (sin_addr r). split; [|cbn [andb]; reflexivity]. split_and!; cbn; auto with dhcp. }
  replace (header_length l + udp_length l <=? buflen) with true by lia. cbn [andb].
  rewrite header_sum by lia. rewrite bind_ret. rewrite wrapsum_zero by apply ones_sum_range. change (ones_sum (word_sum (take (Z.to_nat (header_length l)) l)) =? 65535) with (ip_sum_ok l).
  destruct (ip_sum_ok l); cbn [negb andb].
  - match goal with |- context [decode_udp _ _ _ _ _ _ _ ?r1] => destruct (decode_udp_result r1) as (c & Hc & E) end; [|lia|lia|lia|].
    { split_and!; cbn; auto with dhcp. }
    rewrite E. exists c, (ip_src (ip_of l)). split; [done|]. by destruct (udp_sum_ok l).
  - eexists _, (sin_addr r). split; [|reflexivity]. split_and!; cbn; auto with dhcp.
Qed.
End decode.

(** ** Receiving *)
Section receive.
Context `{HostOrder} (filter : bool) (local_port : Z) (interface : interface_info).
Context (hfrom : hardware) (ibuf : list Z).
Hypothesis Hbuf : bytes ibuf.
Hypothesis Hsize : zlen ibuf = 1536.
Hypothesis Hfrom : zlen (hbuf hfrom) = HARDWARE_ADDR_LEN + 1.
Hypothesis Hhw : zlen (hbuf (hw_address interface)) = HARDWARE_ADDR_LEN + 1.

Definition is_ib : bool := nth 0 (hbuf (hw_address interface)) 0 =? HTYPE_INFINIBAND.
Definition hw_size : Z := if is_ib then 0 else ETHER_HEADER_SIZE.
Definition ether_ok : bool := is_ib || negb filter || (ntohs (field ibuf 12 2) =? ETHERTYPE_IP).
Definition ether_sender : hardware :=
  if is_ib then hfrom else mk_hardware 7 (HTYPE_ETHER :: take 6 (drop 6 ibuf) ++ drop 7 (hbuf hfrom)).

Lemma decode_hw_result :
  decode_hw_header filter (hw_address interface) ibuf 0 hfrom =
  Done (if ether_ok then (hw_size, ether_sender) else (-1, hfrom)).
Proof.
  unfold decode_hw_header, ether_ok, ether_sender, hw_size, is_ib. rewrite (rd_nth 0) by (unfold HARDWARE_ADDR_LEN in *; lia).
  rewrite bind_ret. destruct (nth _ _ 0 =? HTYPE_INFINIBAND); [done|]. cbn [orb].
  unfold decode_ethernet_header. rewrite rdn_in by (unfold ETHER_HEADER_SIZE, ETHER_ADDR_LEN; lia). rewrite bind_ret.
  change (drop (Z.to_nat 0) ibuf) with ibuf. change (Z.to_nat ETHER_HEADER_SIZE) with 14%nat.
  assert (Ef : field (take 14 ibuf) 12 2 = field ibuf 12 2) by (unfold field; by rewrite skipn_firstn_comm, take_take).
  rewrite Ef. destruct (ntohs (field ibuf 12 2) =? ETHERTYPE_IP), filter; try done; cbn [andb negb].
  all: rewrite skipn_firstn_comm, take_take; change (6 `min` (14 - 6))%nat with 6%nat.
  all: assert (L6 : length (take 6 (drop 6 ibuf)) = 6%nat) by (unfold zlen in *; rewrite length_take, length_drop; lia).
  all: rewrite wrn_in by (unfold HARDWARE_ADDR_LEN, zlen in *; rewrite ?L6; lia); rewrite bind_ret, L6.
  all: change (Z.to_nat 1) with 1%nat; change (1 + 6)%nat with 7%nat.
  all: destruct (hbuf hfrom) as [|x h]; [discriminate Hfrom|].
  all: change (take 1 (x :: h)) with [x]; cbn [app]; rewrite wr_in by (rewrite zlen_cons; pose proof (zlen_nonneg (take 6 (drop 6 ibuf) ++ drop 7 (x :: h))); lia).
  all: done.
Qed.

Let l := drop (Z.to_nat hw_size) ibuf.

Lemma hw_size_range : 0 <= hw_size <= 14.
Proof. unfold hw_size. by destruct is_ib. Qed.

Lemma verdict_lengths csum_ready buflen : verdict filter local_port csum_ready l buflen = true ->
  8 <= udp_length l /\ header_length l + udp_length l <= buflen.
Proof. unfold verdict. intros Hv. zbool. lia. Qed.

Lemma length_payload n : 0 <= n <= 1536 - hw_size -> 8 <= udp_length l -> header_length l + udp_length l <= n ->
  zlen (payload l) = udp_length l - 8.
Proof.
  intros Hn Hu Hb. pose proof (header_length_range l). pose proof hw_size_range.
  assert (zlen l = 1536 - hw_size) by (unfold l, zlen in *; rewrite length_drop; lia).
  unfold payload, zlen in *. rewrite length_take, length_drop. lia.
Qed.

(** What [receive_packet] does with a frame, statistics aside. *)
Lemma receive_packet_result length msgs buf r :
  counters_ok (stats r) -> 0 < length -> hw_size <= length <= 1536 -> 1536 <= zlen buf ->
  exists c a, counters_ok c /\
    receive_packet filter local_port interface length ibuf msgs buf hfrom r =
    Done (match read_aux msgs true with
          | None => (0, buf, hfrom, r)
          | Some csum_ready =>
              if ether_ok then
                if verdict filter local_port csum_ready l (length - hw_size)
                then (udp_length l - 8, payload l ++ drop (Z.to_nat (udp_length l - 8)) buf, ether_sender,
                      mk_decoded c (ip_src (ip_of l)) (uh_sport (udp_of l)) (Some (udp_length l - 8)))
                else (0, buf, ether_sender, mk_decoded c a (sin_port r) (Some 0))
              else (0, buf, hfrom, r)
          end).
Proof.
  intros Hc Hpos Hlen Hcap. unfold receive_packet. replace (length <=? 0) with false by lia.
  destruct (read_aux msgs true) as [csum_ready|]; [|by exists (stats r), 0].
  rewrite decode_hw_result, bind_ret. destruct ether_ok; [|cbn; by exists (stats r), 0]. pose proof hw_size_range as Hs.
  replace (hw_size <? 0) with false by lia. unfold u32. rewrite !(Z.mod_small hw_size), (Z.mod_small (length - hw_size)) by lia.
  set (r0 := mk_decoded (stats r) (sin_addr r) (sin_port r) (Some 0)).
  destruct (decode_udp_ip_header_result filter local_port csum_ready ibuf hw_size (length - hw_size) Hbuf ltac:(lia) ltac:(lia) ltac:(lia) r0 Hc) as (c & a & Hc' & E).
  exists c, a. split; [done|]. rewrite E, bind_ret. fold l. clear E. destruct (verdict _ _ _ _ _) eqn:V; [|done].
  destruct (verdict_lengths _ _ V) as [V1 V2]. pose proof (header_length_range l) as Hh. fold l.
  replace (header_length l + 8 <? 0) with false by lia. cbn [decoded_as rbuflen r0]. fold l.
  rewrite (Z.mod_small (hw_size + _)), (Z.mod_small (length - hw_size - _)) by lia. zcase; [lia|].
  rewrite rdn_in by lia. rewrite bind_ret.
  assert (Ed : take (Z.to_nat (udp_length l - 8)) (drop (Z.to_nat (hw_size + (header_length l + 8))) ibuf) = payload l).
  { unfold payload. f_equal. symmetry. etransitivity; [apply (packet_drop ibuf hw_size)|]. f_equal. lia. }
  rewrite Ed. pose proof (length_payload (length - hw_size) ltac:(lia) V1 V2) as Hz. rewrite wrn_in by lia. rewrite bind_ret.
  assert (El : List.length (payload l) = Z.to_nat (udp_length l - 8)) by (unfold zlen in Hz; lia). rewrite El. done.
Qed.

(** C10: On every frame of up to 1536 bytes that is not shorter than the
    hardware header, whatever the bytes are, and when the read fails,
    [receive_packet] returns: no access is out of bounds, its internal check
    never fails, and the statistics stay bounded.  When it delivers data, the
    lengths and checksums were right and the data is the UDP payload of the
    frame; the rest of the caller's buffer is untouched. *)
Theorem receive_packet_safe length msgs buf r :
  counters_ok (stats r) -> length <= 0 \/ hw_size <= length <= 1536 -> 1536 <= zlen buf ->
  exists n buf' hfrom' r',
    receive_packet filter local_port interface length ibuf msgs buf hfrom r = Done (n, buf', hfrom', r') /\
    counters_ok (stats r') /\ zlen buf' = zlen buf /\ n <= Z.max 0 length /\
    (0 < n -> exists csum_ready, read_aux msgs true = Some csum_ready /\
       verdict filter local_port csum_ready l (length - hw_size) = true /\
       hw_size + header_length l + 8 + n <= length /\ take (Z.to_nat n) buf' = payload l /\ drop (Z.to_nat n) buf' = drop (Z.to_nat n) buf /\
       sin_addr r' = ip_src (ip_of l) /\ sin_port r' = uh_sport (udp_of l)).
Proof.
  intros Hc Hl Hb. destruct (Z_le_dec length 0) as [L|L].
  { exists length, buf, hfrom, r. unfold receive_packet. replace (length <=? 0) with true by lia. split_and!; [done|done|done|lia|lia]. }
  destruct (receive_packet_result length msgs buf r Hc ltac:(lia) ltac:(lia) Hb) as (c & a & Hc' & ->).
  destruct (read_aux msgs true) as [csum_ready|]; [|eexists 0, _, _, _; split; [reflexivity|]; split_and!; [done|done|lia|lia]].
  destruct ether_ok; [|eexists 0, _, _, _; split; [reflexivity|]; split_and!; [done|done|lia|lia]].
  destruct (verdict _ _ _ _ _) eqn:V; [|eexists 0, _, _, _; split; [reflexivity|]; split_and!; [done|done|lia|lia]].
  destruct (verdict_lengths _ _ V) as [V1 V2]. pose proof (header_length_range l). pose proof hw_size_range.
  pose proof (length_payload (length - hw_size) ltac:(lia) V1 V2) as Hz. unfold zlen in Hz.
  eexists _, _, _, _. split; [reflexivity|]. split_and!; [done| |lia|].
  - unfold zlen in *. rewrite length_app, length_drop. lia.
  - intros Hn. exists csum_ready. split_and!; try done; [lia|rewrite take_app_length'; [done|lia]|rewrite drop_app_length'; [done|lia]].
Qed.
End receive.

(** ** Sending *)
Section send.
Context `{HostOrder}.

Lemma ntohs_htons v : 0 <= v < 65536 -> ntohs (htons v) = v.
Proof.
  intros Hv. unfold ntohs, htons. rewrite <- (Z.mod_small (hton 2 v) (2 ^ (8 * Z.of_nat 2))) by apply hton_range.
  rewrite <- load_store, hton_store, ntoh_load by (rewrite ?length_be_bytes; auto with dhcp).
  rewrite be_val_be_bytes. by apply Z.mod_small.
Qed.
Lemma ntohs_s16 v : ntohs (s16 v) = ntohs v.
Proof.
  unfold ntohs, s16. rewrite <- (hton_mod 2 (sint 16 v)), <- (hton_mod 2 v). change (8 * Z.of_nat 2) with 16. by rewrite sint_mod by lia.
Qed.

Ltac split_words := rewrite !word_sum_app by (rewrite ?length_mem_store; reflexivity).

Lemma word_sum_ip h s : ip_sum h = 0 -> 0 <= s <= 65535 ->
  word_sum (ip_mem (set_ip_sum (wrapsum s) h)) = word_sum (ip_mem h) + (65535 - s).
Proof.
  intros E0 Hs. unfold ip_mem. split_words. cbn [set_ip_sum ip_fvhl ip_tos ip_len ip_id ip_off ip_ttl ip_p ip_sum ip_src ip_dst].
  rewrite E0, wrapsum_spec by lia. unfold u16. change (2 ^ 16) with (2 ^ (8 * Z.of_nat 2)).
  rewrite mem_store_mod, word_sum_htons by lia.
  assert (E : word_sum (mem_store 2 0) = 0) by (unfold mem_store, le_bytes; by destruct host_big). lia.
Qed.
Lemma word_sum_udp h s : uh_sum h = 0 -> 0 <= s <= 65535 ->
  word_sum (udp_mem (set_uh_sum (wrapsum s) h)) = word_sum (udp_mem h) + (65535 - s).
Proof.
  intros E0 Hs. unfold udp_mem. split_words. cbn [set_uh_sum uh_sport uh_dport uh_ulen uh_sum].
  rewrite E0, wrapsum_spec by lia. unfold u16. change (2 ^ 16) with (2 ^ (8 * Z.of_nat 2)).
  rewrite mem_store_mod, word_sum_htons by lia.
  assert (E : word_sum (mem_store 2 0) = 0) by (unfold mem_store, le_bytes; by destruct host_big). lia.
Qed.

(** *** The headers of a packet with [len] bytes of data *)
Context (local_port from to port : Z) (data : list Z) (len : Z).
Hypothesis Hlp : 0 <= local_port < 2 ^ 16.
Hypothesis Hfrom : 0 <= from < 2 ^ 32.
Hypothesis Hto : 0 <= to < 2 ^ 32.
Hypothesis Hdata : bytes data.
Hypothesis Hlen : 0 <= len <= 65507.
Hypothesis Hfit : len <= zlen data.

Definition sent_ip : ip :=
  let h := ip_header from to len in set_ip_sum (wrapsum (ones_sum (word_sum (ip_mem h)))) h.
Definition bare_udp : udphdr := mk_udphdr local_port (u16 port) (htons (sizeof_udp + len)) 0.
Definition udp_words : Z :=
  17 + (8 + len) + word_sum (take 8 (drop 12 (ip_mem sent_ip))) + word_sum (take (Z.to_nat len) data) + word_sum (udp_mem bare_udp).
Definition sent_udp : udphdr := set_uh_sum (wrapsum (ones_sum udp_words)) bare_udp.

Lemma ip_header_wf : ip_wf (ip_header from to len).
Proof.
  unfold ip_wf, ip_header. cbn [ip_fvhl ip_tos ip_len ip_id ip_off ip_ttl ip_p ip_sum ip_src ip_dst].
  pose proof (sint_range 16 (htons (sizeof_ip + sizeof_udp + len))). change (2 ^ (16 - 1)) with (2 ^ 15) in *. unfold s16, byte, u8.
  split_and!; try lia; done.
Qed.
Lemma set_ip_sum_wf s h : ip_wf h -> ip_wf (set_ip_sum s h).
Proof.
  unfold ip_wf, set_ip_sum, u16. cbn. pose proof (Z.mod_pos_bound s (2 ^ 16)). intros (?&?&?&?&?&?&?&?&?&?). split_and!; lia || done.
Qed.
Lemma sent_ip_wf : ip_wf sent_ip.
Proof. apply set_ip_sum_wf, ip_header_wf. Qed.
Lemma sent_udp_wf : udp_wf sent_udp.
Proof.
  unfold udp_wf, sent_udp, set_uh_sum, bare_udp, u16. cbn [uh_sport uh_dport uh_ulen uh_sum].
  pose proof (hton_range 2 (sizeof_udp + len)) as Hh. change (8 * Z.of_nat 2) with 16 in Hh. unfold htons.
  pose proof (Z.mod_pos_bound port (2 ^ 16)). pose proof (Z.mod_pos_bound (wrapsum (ones_sum udp_words)) (2 ^ 16)). split_and!; lia.
Qed.

Lemma udp_words_nonneg : 0 <= udp_words.
Proof.
  unfold udp_words. pose proof (word_sum_bytes (udp_mem bare_udp) (bytes_udp_mem _)).
  pose proof (word_sum_bytes (take 8 (drop 12 (ip_mem sent_ip)))) as H1. pose proof (word_sum_bytes (take (Z.to_nat len) data)) as H2.
  specialize (H1 ltac:(apply Forall_take, Forall_drop, bytes_ip_mem, sent_ip_wf)). specialize (H2 ltac:(by apply Forall_take)). lia.
Qed.

(** The two checksums of the receiver come out right. *)
Lemma sent_ip_sum : ones_sum (word_sum (ip_mem sent_ip)) = 65535.
Proof.
  unfold sent_ip. rewrite word_sum_ip by (try done; apply ones_sum_range). apply ones_complement.
  apply word_sum_bytes, bytes_ip_mem, ip_header_wf.
Qed.
Lemma sent_udp_sum :
  ones_sum (17 + (8 + len) + word_sum (take 8 (drop 12 (ip_mem sent_ip))) + word_sum (take (Z.to_nat len) data)
            + word_sum (udp_mem sent_udp)) = 65535.
Proof.
  unfold sent_udp. rewrite word_sum_udp by (try done; apply ones_sum_range). rewrite Z.add_assoc. fold udp_words.
  apply ones_complement, udp_words_nonneg.
Qed.

Definition sent_packet : list Z := ip_mem sent_ip ++ udp_mem sent_udp ++ take (Z.to_nat len) data.

(** [wrn] at the end of what has been written. *)
Lemma wrn_append (a b src : list Z) i : i = zlen a -> zlen src <= zlen b -> wrn (a ++ b) i src = Done ((a ++ src) ++ drop (length src) b).
Proof.
  intros -> Hz. rewrite wrn_in by (rewrite ?zlen_app; auto with dhcp; lia). unfold zlen. rewrite Nat2Z.id, take_app_length.
  rewrite drop_app_ge by lia. rewrite app_assoc. do 3 f_equal. lia.
Qed.

Lemma assemble_result a b : zlen a <= 65535 -> 28 <= zlen b ->
  assemble_udp_ip_header local_port (a ++ b) (zlen a) from to port data len =
  Done ((a ++ ip_mem sent_ip ++ udp_mem sent_udp) ++ drop 28 b, zlen a + 28).
Proof.
  intros Ha Hb. unfold assemble_udp_ip_header.
  pose proof (zlen_nonneg a) as Ha0. assert (Li : zlen (ip_mem (ip_header from to len)) = 20) by (unfold zlen; by rewrite length_ip_mem).
  rewrite checksum_zero; [|apply bytes_ip_mem, ip_header_wf|done|done|unfold sizeof_ip; lia]. rewrite bind_ret.
  change (drop (Z.to_nat 0) ?x) with x. rewrite take_ge by by rewrite length_ip_mem.
  fold sent_ip. assert (Ls : zlen (ip_mem sent_ip) = 20) by (unfold zlen; by rewrite length_ip_mem).
  rewrite wrn_append by lia. rewrite bind_ret, length_ip_mem. fold bare_udp.
  assert (Eu : ntohs (uh_ulen bare_udp) = 8 + len) by (apply ntohs_htons; unfold sizeof_udp; lia). rewrite Eu.
  rewrite udp_sum_spec; [|apply bytes_ip_mem, sent_ip_wf|done|done|lia|lia|lia]. rewrite bind_ret. change (drop (Z.to_nat 0) ?x) with x.
  fold udp_words. fold sent_udp. assert (Lu : zlen (udp_mem sent_udp) = 8) by (unfold zlen; by rewrite length_udp_mem).
  unfold u32, sizeof_ip, sizeof_udp. rewrite (Z.mod_small (zlen a + 20)) by lia.
  rewrite wrn_append; [|rewrite zlen_app; lia|unfold zlen in *; rewrite length_drop; lia]. rewrite bind_ret, length_udp_mem.
  rewrite drop_drop, Z.mod_small by lia. rewrite <- !app_assoc. do 2 f_equal. lia.
Qed.

Lemma changed_header_refused filter rport csum_ready a x y x' y' b rest buflen :
  Nat.even (length a) = true -> (2 <= length a)%nat -> byte x -> byte y -> byte x' -> byte y' ->
  distinct_words (x * 256 + y) (x' * 256 + y') -> ip_mem sent_ip = a ++ x :: y :: b ->
  verdict filter rport csum_ready ((a ++ x' :: y' :: b) ++ rest) buflen = false.
Proof.
  intros He Ha Hx Hy Hx' Hy' Hd Es. unfold byte in *. apply andb_false_iff. left. apply andb_false_iff. right.
  assert (Lh : length (a ++ x' :: y' :: b) = 20%nat) by (rewrite <- (length_ip_mem sent_ip), Es; by rewrite !length_app).
  assert (Hh : header_length ((a ++ x' :: y' :: b) ++ rest) = 20).
  { transitivity (header_length (ip_mem sent_ip)); [|done]. rewrite Es. unfold header_length. by rewrite <- app_assoc, !app_nth1 by lia. }
  unfold ip_sum_ok. rewrite Hh, take_app_length' by by rewrite Lh. apply Z.eqb_neq.
  rewrite (word_sum_change a x y) by done. rewrite <- Es. apply ones_sum_detects; [lia|lia|done|apply sent_ip_sum].
Qed.

(** *** The packet as the receiver sees it

    The headers with a payload [p] of the right length, which need not be the
    data that was sent, followed by anything. *)
Context (p junk : list Z).
Hypothesis Hp : length p = Z.to_nat len.
Let l := (ip_mem sent_ip ++ udp_mem sent_udp ++ p) ++ junk.

Lemma sent_header_length : header_length l = 20.
Proof. done. Qed.
Lemma sent_ip_bytes : take 20 l = ip_mem sent_ip.
Proof. unfold l. by rewrite <- !app_assoc, take_app_length' by by rewrite length_ip_mem. Qed.
Lemma sent_ip_of : ip_of l = sent_ip.
Proof. unfold ip_of. rewrite sent_ip_bytes. apply ip_load_mem, sent_ip_wf. Qed.
Lemma sent_udp_bytes : take 8 (drop 20 l) = udp_mem sent_udp.
Proof.
  unfold l. rewrite <- !app_assoc, drop_app_length' by by rewrite length_ip_mem.
  by rewrite take_app_length' by by rewrite length_udp_mem.
Qed.
Lemma sent_udp_of : udp_of l = sent_udp.
Proof. unfold udp_of. rewrite sent_header_length. change (Z.to_nat 20) with 20%nat. rewrite sent_udp_bytes. apply udp_load_mem, sent_udp_wf. Qed.
Lemma sent_udp_length : udp_length l = 8 + len.
Proof. unfold udp_length. rewrite sent_udp_of. apply ntohs_htons. unfold sizeof_udp. lia. Qed.
Lemma sent_payload : payload l = p.
Proof.
  unfold payload. rewrite sent_udp_length, sent_header_length. unfold l.
  rewrite (app_assoc (ip_mem _)), <- app_assoc, drop_app_length' by by rewrite length_app, length_ip_mem, length_udp_mem.
  apply take_app_length'. lia.
Qed.
Lemma sent_udp_total :
  udp_total l = 17 + (8 + len) + word_sum (take 8 (drop 12 (ip_mem sent_ip))) + word_sum p + word_sum (udp_mem sent_udp).
Proof.
  unfold udp_total. rewrite sent_payload, sent_udp_length, sent_header_length. change (Z.to_nat 20) with 20%nat. rewrite sent_udp_bytes.
  rewrite <- sent_ip_bytes, skipn_firstn_comm, take_take. by change (8 `min` (20 - 12))%nat with 8%nat.
Qed.

Lemma sent_verdict filter rport csum_ready : (filter = true -> u16 port = rport) -> p = take (Z.to_nat len) data ->
  verdict filter rport csum_ready l (28 + len) = true.
Proof.
  intros Hf Ep. unfold verdict, lengths_fit, ip_sum_ok, udp_sum_ok.
  rewrite sent_udp_total, sent_ip_of, sent_udp_of, sent_udp_length, sent_header_length, Ep.
  change (Z.to_nat 20) with 20%nat. rewrite sent_ip_bytes, sent_ip_sum, sent_udp_sum.
  assert (E3 : ntohs (ip_len sent_ip) = 28 + len).
  { change (ip_len sent_ip) with (s16 (htons (sizeof_ip + sizeof_udp + len))). rewrite ntohs_s16. apply ntohs_htons. unfold sizeof_ip, sizeof_udp. lia. }
  assert (E4 : filtered filter rport sent_ip sent_udp = false).
  { unfold filtered. destruct filter; [|done]. cbn [andb]. apply orb_false_iff. split; [done|]. apply negb_false_iff, Z.eqb_eq. by apply Hf. }
  rewrite E3, E4. unfold sizeof_udp. rewrite Z.eqb_refl, !orb_true_r. repeat (apply andb_true_intro; split); try done; try lia.
Qed.

(** *** Errors on the way *)
Lemma changed_data_refused filter rport a x y x' y' b buflen :
  Nat.even (length a) = true -> byte x -> byte y -> byte x' -> byte y' -> distinct_words (x * 256 + y) (x' * 256 + y') ->
  take (Z.to_nat len) data = a ++ x :: y :: b -> p = a ++ x' :: y' :: b -> uh_sum sent_udp <> 0 ->
  verdict filter rport true l buflen = false.
Proof.
  intros He Hx Hy Hx' Hy' Hd Es Ep Hu. unfold byte in *. apply andb_false_iff. right. unfold udp_sum_ok.
  rewrite sent_udp_of, (proj2 (Z.eqb_neq _ _) Hu). cbn [orb negb]. apply Z.eqb_neq. rewrite sent_udp_total, Ep, (word_sum_change a x y) by done. rewrite <- Es.
  replace (17 + _ + _ + _ + _) with (17 + (8 + len) + word_sum (take 8 (drop 12 (ip_mem sent_ip))) + word_sum (take (Z.to_nat len) data)
            + word_sum (udp_mem sent_udp) + ((x' * 256 + y') - (x * 256 + y))) by lia.
  apply ones_sum_detects; [lia|lia|done|apply sent_udp_sum].
Qed.
End send.

(** ** From one interface to another *)
Section wire.
Context `{HostOrder}.

(** An interface as the operating system describes it: an Ethernet interface
    has the type and six bytes of address. *)
Definition ethernet (hw : hardware) : Prop :=
  zlen (hbuf hw) = HARDWARE_ADDR_LEN + 1 /\ bytes (hbuf hw) /\ nth 0 (hbuf hw) 0 = HTYPE_ETHER /\ hlen hw = 7.

Definition mac (hw : hardware) : list Z := take 6 (drop 1 (hbuf hw)).

Lemma ethernet_mac hw : ethernet hw -> rdn (hbuf hw) 1 ETHER_ADDR_LEN = Done (mac hw) /\ length (mac hw) = 6%nat /\ bytes (mac hw).
Proof.
  intros (Hl & Hb & _ & _). unfold HARDWARE_ADDR_LEN, zlen in Hl. split_and!.
  - by rewrite rdn_in by (unfold ETHER_ADDR_LEN, zlen; lia).
  - unfold mac. rewrite length_take, length_drop. lia.
  - by apply Forall_take, Forall_drop.
Qed.

Lemma ether_dhost_ok to : (forall t, to = Some t -> zlen (hbuf t) = HARDWARE_ADDR_LEN + 1 /\ bytes (hbuf t)) ->
  exists d, ether_dhost to = Done d /\ length d = 6%nat /\ bytes d.
Proof.
  intros Ht. unfold ether_dhost. destruct to as [t|]; [|eexists; split; [reflexivity|]; split; [done|by apply (bool_decide_unpack _)]].
  destruct (hlen t =? 7); [|eexists; split; [reflexivity|]; split; [done|by apply (bool_decide_unpack _)]].
  destruct (Ht t eq_refl) as [Hz Hb]. unfold HARDWARE_ADDR_LEN in Hz. rewrite rdn_in by (unfold ETHER_ADDR_LEN; lia).
  eexists. split; [reflexivity|]. unfold zlen, ETHER_ADDR_LEN in *. split; [rewrite length_take, length_drop; lia|by apply Forall_take, Forall_drop].
Qed.

(** The Ethernet header is written to the start of the buffer. *)
Lemma assemble_hw_result hw to hh : ethernet hw -> 14 <= zlen hh ->
  (forall t, to = Some t -> zlen (hbuf t) = HARDWARE_ADDR_LEN + 1 /\ bytes (hbuf t)) ->
  exists d, length d = 6%nat /\ bytes d /\
    assemble_hw_header hw hh 0 to = Done ((d ++ mac hw ++ be_bytes 2 ETHERTYPE_IP) ++ drop 14 hh, 14).
Proof.
  intros He Hh Ht. destruct (ether_dhost_ok to Ht) as (d & Ed & Ld & Bd). exists d. split_and!; [done|done|].
  destruct (ethernet_mac hw He) as (Em & Lm & _), He as (Hz & _ & H0 & H7).
  unfold assemble_hw_header. rewrite (rd_nth 0) by (unfold HARDWARE_ADDR_LEN in Hz; lia). rewrite bind_ret. change (Z.to_nat 0) with 0%nat.
  rewrite H0. change (HTYPE_ETHER =? HTYPE_INFINIBAND) with false. cbv iota. unfold assemble_ethernet_header, ether_shost.
  rewrite Ed, bind_ret, H7. change (7 - 1 =? ETHER_ADDR_LEN) with true. cbv iota. rewrite Em, bind_ret. unfold htons. rewrite hton_store.
  pose proof (wrn_append [] hh (d ++ mac hw ++ be_bytes 2 ETHERTYPE_IP) 0 eq_refl) as E. cbn [app] in E. rewrite E; clear E.
  - rewrite bind_ret, !length_app, Ld, Lm, length_be_bytes. done.
  - unfold zlen in *. rewrite !length_app, Ld, Lm, length_be_bytes. lia.
Qed.

Context (interface : interface_info) (local_port from to port : Z) (raw : list Z) (len : Z) (hto : option hardware).
Hypothesis Hname : name interface <> "fallback"%string.
Hypothesis Hhw : ethernet (hw_address interface).
Hypothesis Hany : zlen (hbuf (anycast_mac_addr interface)) = HARDWARE_ADDR_LEN + 1 /\ bytes (hbuf (anycast_mac_addr interface)).
Hypothesis Hhto : forall t, hto = Some t -> zlen (hbuf t) = HARDWARE_ADDR_LEN + 1 /\ bytes (hbuf t).
Hypothesis Hlp : 0 <= local_port < 2 ^ 16.
Hypothesis Hfrom : 0 <= from < 2 ^ 32.
Hypothesis Hto : 0 <= to < 2 ^ 32.
Hypothesis Hraw : bytes raw.
Hypothesis Hlen : 0 <= len <= 1492.
Hypothesis Hfit : len <= zlen raw.

Lemma send_packet_result hh ih : zlen hh = 128 -> zlen ih = 1536 ->
  exists d, length d = 6%nat /\ bytes d /\
    send_packet hh ih local_port interface raw len from to port hto =
    Done (Write ((d ++ mac (hw_address interface) ++ be_bytes 2 ETHERTYPE_IP) ++ sent_packet local_port from to port raw len)).
Proof.
  intros Hhh Hih. unfold send_packet. rewrite (proj2 (String.eqb_neq _ _) Hname).
  set (h2 := match hto with Some _ => hto | None => _ end).
  destruct (assemble_hw_result (hw_address interface) h2 hh Hhw ltac:(lia)) as (d & Ld & Bd & E).
  { unfold h2. intros t. destruct hto as [t'|]; [intros [= <-]; by apply Hhto|]. destruct (negb _); [|done]. by intros [= <-]. }
  exists d. split_and!; [done|done|]. rewrite E, bind_ret. clear E h2. destruct (ethernet_mac _ Hhw) as (_ & Lm & _).
  set (eth := d ++ mac (hw_address interface) ++ be_bytes 2 ETHERTYPE_IP).
  assert (Le : length eth = 14%nat) by (unfold eth; by rewrite !length_app, Ld, Lm, length_be_bytes).
  change (14 mod 4) with 2. change (u32 (14 + 2)) with 16.
  rewrite (rdn_in (eth ++ drop 14 hh)) by (unfold zlen in *; rewrite ?length_app, ?length_drop; lia). rewrite bind_ret.
  change (drop (Z.to_nat 0) ?x) with x. rewrite take_app_length' by by rewrite Le.
  rewrite <- (take_drop 2 ih) at 1. unfold zlen in Hih. rewrite wrn_append by (unfold zlen; rewrite ?length_take, ?length_drop; lia).
  rewrite bind_ret, Le, drop_drop. change (2 + 14)%nat with 16%nat.
  assert (La : zlen (take 2 ih ++ eth) = 16) by (unfold zlen; rewrite length_app, length_take, Le; lia). rewrite <- La.
  unfold u32 at 1. rewrite (Z.mod_small len) by lia.
  rewrite assemble_result; try done; try lia; [|unfold zlen; rewrite length_drop; lia].
  rewrite bind_ret, La. rewrite rdn_in by lia. rewrite bind_ret. change (drop (Z.to_nat 0) raw) with raw.
  assert (Lr : length (take (Z.to_nat len) raw) = Z.to_nat len) by (unfold zlen in Hfit; rewrite length_take; lia).
  rewrite wrn_append; [|rewrite zlen_app, La, zlen_app; unfold zlen; by rewrite length_ip_mem, length_udp_mem|unfold zlen; rewrite Lr, !length_drop; lia].
  rewrite bind_ret, Lr. rewrite <- !app_assoc. unfold rdn. unfold zlen. rewrite !length_app, !length_drop, length_ip_mem, length_udp_mem, Lr, Le, length_take.
  replace (_ && _ && _) with true by (symmetry; rewrite !andb_true_iff, !Z.leb_le; lia). rewrite bind_ret.
  rewrite drop_app_length' by (rewrite length_take; lia). unfold sent_packet. do 2 f_equal. rewrite !app_assoc.
  apply take_app_length'. rewrite !length_app, length_ip_mem, length_udp_mem, Lr, Le. lia.
Qed.

(** *** The receiver *)
Context (filter : bool) (rport : Z) (receiver : interface_info).
Hypothesis Hrhw : ethernet (hw_address receiver).
Hypothesis Hfilter : filter = true -> u16 port = rport.

Lemma receiver_not_ib : is_ib receiver = false.
Proof. unfold is_ib. destruct Hrhw as (_ & _ & -> & _). done. Qed.

Definition sent_by (hfrom : hardware) : hardware := mk_hardware 7 (HTYPE_ETHER :: mac (hw_address interface) ++ drop 7 (hbuf hfrom)).

Section frame.
Context (d junk : list Z).
Hypothesis Ld : length d = 6%nat.
Let eth := d ++ mac (hw_address interface) ++ be_bytes 2 ETHERTYPE_IP.

Lemma length_eth : length eth = 14%nat.
Proof. destruct (ethernet_mac _ Hhw) as (_ & Lm & _). unfold eth. by rewrite !length_app, Ld, Lm, length_be_bytes. Qed.
Lemma frame_drop p : drop (Z.to_nat (hw_size receiver)) (eth ++ p) = p.
Proof. unfold hw_size. rewrite receiver_not_ib. apply drop_app_length'. by rewrite length_eth. Qed.
Lemma frame_ether_ok p : ether_ok filter receiver (eth ++ p) = true.
Proof.
  destruct (ethernet_mac _ Hhw) as (_ & Lm & _). unfold ether_ok, field. rewrite receiver_not_ib. destruct filter; [|done]. cbn [orb negb]. apply Z.eqb_eq.
  unfold eth. rewrite <- !app_assoc, (app_assoc d), drop_app_length' by by rewrite length_app, Ld, Lm.
  rewrite take_app_length' by by rewrite length_be_bytes. unfold ntohs. rewrite ntoh_load by (rewrite ?length_be_bytes; auto with dhcp). done.
Qed.
Lemma frame_sender p hfrom : ether_sender receiver hfrom (eth ++ p) = sent_by hfrom.
Proof.
  destruct (ethernet_mac _ Hhw) as (_ & Lm & _). unfold ether_sender, sent_by. rewrite receiver_not_ib. do 3 f_equal.
  unfold eth. rewrite <- !app_assoc, drop_app_length', take_app_length'; [done|by rewrite Lm|by rewrite Ld].
Qed.
End frame.

(** C9: What [send_packet] writes for up to 1492 bytes of data is a frame that
    [receive_packet] accepts on another interface, with or without checksum
    offloading and in a port filter for the destination port: it delivers
    exactly the data, the address and port of the sender and the sender's
    hardware address.  Neither function makes an access out of bounds, and the
    frame may be followed by anything in the receiver's buffer. *)
Theorem send_receive_roundtrip hh ih : zlen hh = 128 -> zlen ih = 1536 ->
  exists frame, send_packet hh ih local_port interface raw len from to port hto = Done (Write frame) /\ zlen frame = 42 + len /\
  forall junk msgs buf hfrom r,
    bytes junk -> zlen (frame ++ junk) = 1536 -> read_aux msgs true <> None -> zlen (hbuf hfrom) = HARDWARE_ADDR_LEN + 1 ->
    counters_ok (stats r) -> 1536 <= zlen buf ->
    exists r', receive_packet filter rport receiver (zlen frame) (frame ++ junk) msgs buf hfrom r =
        Done (len, take (Z.to_nat len) raw ++ drop (Z.to_nat len) buf, sent_by hfrom, r') /\
      sin_addr r' = from /\ sin_port r' = local_port /\ counters_ok (stats r').
Proof.
  intros Hhh Hih. destruct (send_packet_result hh ih Hhh Hih) as (d & Ld & Bd & ->). eexists. split; [reflexivity|].
  pose proof (length_eth d Ld) as Le. set (eth := d ++ mac (hw_address interface) ++ be_bytes 2 ETHERTYPE_IP) in *.
  assert (Be : bytes eth). { destruct (ethernet_mac _ Hhw) as (_ & _ & Bm). unfold eth. repeat (apply Forall_app; split); auto with dhcp. }
  assert (Lp : zlen (sent_packet local_port from to port raw len) = 28 + len).
  { unfold sent_packet, zlen in *. rewrite !length_app, length_ip_mem, length_udp_mem, length_take. lia. }
  assert (Bp : bytes (sent_packet local_port from to port raw len)).
  { unfold sent_packet. rewrite !Forall_app. split_and!; [apply bytes_ip_mem, sent_ip_wf; lia|apply bytes_udp_mem|by apply Forall_take]. }
  assert (Lf : zlen (eth ++ sent_packet local_port from to port raw len) = 42 + len) by (rewrite zlen_app, Lp; unfold zlen; rewrite Le; lia).
  split; [done|]. intros junk msgs buf hfrom r Bj Hz Ha Hhf Hc Hb.
  assert (E14 : hw_size receiver = 14) by (unfold hw_size; by rewrite receiver_not_ib).
  assert (Bf : bytes ((eth ++ sent_packet local_port from to port raw len) ++ junk)) by (rewrite !Forall_app; split_and!; assumption).
  assert (L0 : 0 < 42 + len) by lia. assert (L1 : hw_size receiver <= 42 + len <= 1536) by (rewrite E14; lia).
  rewrite <- Lf in L0, L1.
  destruct (receive_packet_result filter rport receiver hfrom _ Bf Hz Hhf (proj1 Hrhw) _ msgs buf r Hc L0 L1 Hb) as (c & a & Hc' & E).
  rewrite E. clear E. destruct (read_aux msgs true) as [csum_ready|]; [|done].
  rewrite <- !app_assoc. unfold eth in *. rewrite frame_ether_ok, frame_drop, frame_sender by done.
  replace (zlen _ - hw_size receiver) with (28 + len) by (rewrite Lf, E14; lia).
  assert (Lr : length (take (Z.to_nat len) raw) = Z.to_nat len) by (unfold zlen in Hfit; rewrite length_take; lia).
  unfold sent_packet. rewrite sent_verdict by (done || lia).
  rewrite sent_udp_length, sent_payload, sent_ip_of, sent_udp_of by (done || lia). replace (8 + len - 8) with len by lia.
  eexists. split; [reflexivity|]. split_and!; done.
Qed.


(** *** Damaged frames

    One 16-bit word of a packet is changed on the way: a word of the IP header
    other than the first one (which holds the header length), or a word of the
    data of a packet with a UDP checksum that the receiver may use. *)
Inductive damaged (csum_ready : bool) : list Z -> Prop :=
  | damaged_header a x y x' y' b :
      Nat.even (length a) = true -> (2 <= length a)%nat -> byte x -> byte y -> byte x' -> byte y' ->
      distinct_words (x * 256 + y) (x' * 256 + y') -> ip_mem (sent_ip from to len) = a ++ x :: y :: b ->
      damaged csum_ready ((a ++ x' :: y' :: b) ++ udp_mem (sent_udp local_port from to port raw len) ++ take (Z.to_nat len) raw)
  | damaged_data a x y x' y' b :
      csum_ready = true -> uh_sum (sent_udp local_port from to port raw len) <> 0 ->
      Nat.even (length a) = true -> byte x -> byte y -> byte x' -> byte y' ->
      distinct_words (x * 256 + y) (x' * 256 + y') -> take (Z.to_nat len) raw = a ++ x :: y :: b ->
      damaged csum_ready (ip_mem (sent_ip from to len) ++ udp_mem (sent_udp local_port from to port raw len) ++ a ++ x' :: y' :: b).

Lemma damaged_refused csum_ready p junk buflen : damaged csum_ready p -> verdict filter rport csum_ready (p ++ junk) buflen = false.
Proof.
  intros [a x y x' y' b He Ha Hx Hy Hx' Hy' Hd E|a x y x' y' b Hc Hu He Hx Hy Hx' Hy' Hd E].
  - rewrite <- app_assoc. by apply (changed_header_refused from to len Hfrom Hto filter rport csum_ready a x y x' y' b).
  - rewrite Hc. apply (changed_data_refused local_port from to port raw len Hlp Hfrom Hto Hraw ltac:(lia) (a ++ x' :: y' :: b)) with a x y x' y' b; try done.
    apply (f_equal length) in E. unfold zlen in Hfit. rewrite length_take, !length_app in *. cbn [length] in *. lia.
Qed.

(** A frame in which one 16-bit word of the IP header (except the first) or
    of the data was changed on the way, to a word that one's complement
    arithmetic can tell from the old one, is not delivered: [receive_packet]
    returns 0 and the caller's buffer is untouched. *)
Lemma receive_packet_detects eth packet junk csum_ready msgs buf hfrom r :
  damaged csum_ready packet -> read_aux msgs true = Some csum_ready ->
  zlen eth = 14 -> bytes (eth ++ packet ++ junk) -> zlen (eth ++ packet ++ junk) = 1536 ->
  zlen (hbuf hfrom) = HARDWARE_ADDR_LEN + 1 -> counters_ok (stats r) -> 1536 <= zlen buf ->
  exists hfrom' r', receive_packet filter rport receiver (14 + zlen packet) (eth ++ packet ++ junk) msgs buf hfrom r =
    Done (0, buf, hfrom', r') /\ counters_ok (stats r').
Proof.
  intros Hd Ha Le Bf Hz Hhf Hc Hb. assert (E14 : hw_size receiver = 14) by (unfold hw_size; by rewrite receiver_not_ib).
  assert (L1 : 0 < 14 + zlen packet /\ hw_size receiver <= 14 + zlen packet <= 1536).
  { rewrite E14. rewrite !zlen_app in Hz. pose proof (zlen_nonneg packet). pose proof (zlen_nonneg junk). lia. }
  destruct (receive_packet_result filter rport receiver hfrom _ Bf Hz Hhf (proj1 Hrhw) _ msgs buf r Hc (proj1 L1) (proj2 L1) Hb) as (c & a & Hc' & E).
  rewrite E, Ha. clear E. rewrite E14. change (Z.to_nat 14) with 14%nat. rewrite drop_app_length' by (unfold zlen in Le; lia).
  rewrite (damaged_refused _ _ _ _ Hd). destruct (ether_ok _ _ _); eexists _, _; split; [reflexivity|done|reflexivity|done].
Qed.
End wire.

(** ** A frame on a little-endian machine *)
#[local] Instance little : HostOrder := false.
Definition sample_hw (last : Z) : hardware := mk_hardware 7 ([HTYPE_ETHER; 2; 0; 0; 0; 0; last] ++ replicate 14 0).
Definition sample_interface (last : Z) : interface_info := mk_interface "eth0" (sample_hw last) (mk_hardware 0 (replicate 21 0)).
Definition sample_raw : list Z := [1; 1; 6; 0; 7].
Definition sample_state : decoded := mk_decoded (mk_counters (mk_tally 0 0) (mk_tally 0 0) (mk_tally 0 0)) 0 0 None.

Lemma sample_counters : counters_ok (stats sample_state).
Proof. unfold counters_ok, tally_ok. cbn. lia. Qed.
Lemma sample_ethernet last : byte last -> ethernet (hw_address (sample_interface last)).
Proof. intros Hb. split_and!; try done. cbn. repeat constructor; done || apply Hb. Qed.

Lemma send_receive_roundtrip_witness : exists frame,
  send_packet (replicate 128 0) (replicate 1536 0) 17152 (sample_interface 1) sample_raw 5 16777226 33554442 17408 None = Done (Write frame) /\
  zlen frame = 47.
Proof.
  destruct (send_receive_roundtrip (sample_interface 1) 17152 16777226 33554442 17408 sample_raw 5 None ltac:(done)
    (sample_ethernet 1 ltac:(done)) ltac:(split; [done|apply (bool_decide_unpack _); by vm_compute]) ltac:(done) ltac:(done) ltac:(done) ltac:(done)
    ltac:(by apply (bool_decide_unpack _)) ltac:(done) ltac:(done) true 17408 (sample_interface 2) (sample_ethernet 2 ltac:(done)) ltac:(done)
    (replicate 128 0) (replicate 1536 0) eq_refl eq_refl) as (frame & E & Hz & _).
  exists frame. split; [exact E|exact Hz].
Defined.

(** The last byte of the destination address is wrong. *)
Definition good_header : list Z := ip_mem (sent_ip 16777226 33554442 5).
Definition bad_packet_bytes : list Z :=
  (take 18 good_header ++ [nth 18 good_header 0; 7]) ++ udp_mem (sent_udp 17152 16777226 33554442 17408 sample_raw 5) ++ sample_raw.

Lemma bad_packet_damaged : damaged 17152 16777226 33554442 17408 sample_raw 5 true bad_packet_bytes.
Proof.
  refine (damaged_header 17152 16777226 33554442 17408 sample_raw 5 true (take 18 good_header) (nth 18 good_header 0) (nth 19 good_header 0)
            (nth 18 good_header 0) 7 [] _ _ _ _ _ _ _ _); try by vm_compute.
  - vm_compute. lia.
  - vm_compute. lia.
Qed.

Lemma receive_packet_safe_witness :
  exists n buf' hfrom' r', receive_packet true 17152 (sample_interface 1) 60 (replicate 1536 0) [] (replicate 1536 0) (sample_hw 0) sample_state
    = Done (n, buf', hfrom', r') /\ zlen buf' = 1536.
Proof.
  destruct (receive_packet_safe true 17152 (sample_interface 1) (sample_hw 0) (replicate 1536 0)
    ltac:(apply (bool_decide_unpack _); by vm_compute) eq_refl eq_refl eq_refl 60 [] (replicate 1536 0) sample_state sample_counters)
    as (n & buf' & hfrom' & r' & E & _ & Hz & _); [right; by vm_compute|by vm_compute|].
  exists n, buf', hfrom', r'. split; [exact E|]. rewrite Hz. reflexivity.
Defined.
