(* ===== verification/Hash.v ===== *)
(** * Hash tables (omapip/hash.c)

    The tables that find leases by address, client identifier and hardware
    address, and hosts, classes and option definitions by name: a fixed number
    of chains of buckets.  A key is the object a pointer points to, from the
    pointer on (so that [strlen] and the reads of the hash functions can run
    past its end), and a length; a table keeps the pointer, so the model is of
    tables whose keys are not changed while they are in.

    Hash functions are compared as pointers by the code, so they are a type
    ([hasher]).  Values are of any type; references to them are not counted. *)

From stdpp Require Import base tactics numbers list.
From S2P Require Import Prelude.

#[local] Open Scope Z_scope.

Section hash.
Context `{HostOrder} {V : Type}.

Inductive hasher := case_hash | string_hash | id_hash | number_hash | ip4_hash.

Record hash_bucket := mk_bucket { name : list Z; blen : Z; value : V }.
Record hash_table := mk_table { hash_count : Z; do_hash : hasher; buckets : list (list hash_bucket) }.

Definition DEFAULT_HASH_SIZE : Z := 9973.

(** ** Lengths and comparison *)
Fixpoint strlen (s : list Z) : outcome Z :=
  match s with
  | [] => Fault
  | c :: s' => if c =? 0 then Done 0 else n ← strlen s'; Done (n + 1)
  end.

Definition find_length (key : list Z) (h : hasher) : outcome Z :=
  match h with
  | case_hash | string_hash => n ← strlen key; Done (u32 n)
  | number_hash => Done 4
  | ip4_hash => Done 4
  | id_hash => Done 0
  end.

Definition isascii (c : Z) : bool := Z.land c (Z.lnot 0x7f) =? 0.
Definition tolower (c : Z) : Z := if (65 <=? c) && (c <=? 90) then c + 32 else c.
Definition fold_case (c : Z) : Z := if isascii c then tolower c else c.

(** The loop of [casecmp] over two strings of the same length. *)
Fixpoint casecmp (s t : list Z) : Z :=
  match s, t with
  | a :: s', b :: t' =>
      let c1 := fold_case a in
      let c2 := fold_case b in
      if c1 <? c2 then -1 else if c2 <? c1 then 1 else casecmp s' t'
  | _, _ => 0
  end.

Fixpoint memcmp (s t : list Z) : Z :=
  match s, t with
  | a :: s', b :: t' => if a <? b then -1 else if b <? a then 1 else memcmp s' t'
  | _, _ => 0
  end.

Fixpoint strcmp (s t : list Z) : outcome Z :=
  match s, t with
  | a :: s', b :: t' =>
      if a <? b then Done (-1) else if b <? a then Done 1 else if a =? 0 then Done 0 else strcmp s' t'
  | _, _ => Fault
  end.

(** [!(table->cmp)(a, b, len)] *)
Definition same_key (h : hasher) (a b : list Z) (len : Z) : outcome bool :=
  s ← rdn a 0 len; t ← rdn b 0 len;
  Done ((match h with case_hash => casecmp s t | _ => memcmp s t end) =? 0).

(** ** Hash functions *)
Definition carry_step (accum : Z) : outcome (Z + Z) :=
  if 65535 <? accum then Done (inl (u32 (Z.land accum 65535 + Z.shiftr accum 16))) else Done (inr accum).
Definition add_carry_back (accum : Z) : outcome Z := while_loop 2 carry_step accum.

Fixpoint text_accum (h : hasher) (s : list Z) (accum : Z) : outcome Z :=
  match s with
  | [] => Done accum
  | c :: s' =>
      let c := match h with case_hash => fold_case c | _ => c end in
      a ← add_carry_back (u32 (Z.shiftl accum 1 + c));
      text_accum h s' a
  end.

(** The bytes of an identifier, from the first complete group of three on. *)
Fixpoint id_groups (s : list Z) (accum : Z) : Z :=
  match s with
  | a :: b :: c :: s' => id_groups s' (Z.lxor (Z.lxor (Z.lxor accum (Z.shiftl a 16)) (Z.shiftl b 8)) c)
  | _ => accum
  end.
Definition do_id_hash (s : list Z) (size : Z) : Z :=
  let len := zlen s in
  if len =? 0 then 0
  else if len mod 3 =? 2 then
    match s with a :: b :: s' => id_groups s' (Z.lxor (Z.lxor 0 (Z.shiftl a 8)) b) mod size | _ => 0 end
  else if len mod 3 =? 1 then
    match s with a :: s' => id_groups s' (Z.lxor 0 a) mod size | _ => 0 end
  else id_groups s 0 mod size.

Definition run_hash (h : hasher) (key : list Z) (len size : Z) : outcome Z :=
  match h with
  | case_hash | string_hash => s ← rdn key 0 len; a ← text_accum h s 0; Done (a mod size)
  | id_hash => s ← rdn key 0 len; Done (do_id_hash s size)
  | number_hash => s ← rdn key 0 4; Done (mem_load s mod size)
  | ip4_hash => s ← rdn key 0 4; Done (ntohl (mem_load s) mod size)
  end.

(** ** The operations *)
Definition new_hash (memory : bool) (hsize : Z) (hasher : hasher) : option hash_table :=
  let hsize := if hsize =? 0 then DEFAULT_HASH_SIZE else hsize in
  if memory then Some (mk_table hsize hasher (replicate (Z.to_nat hsize) [])) else None.

Definition key_length (h : hasher) (key : list Z) (len : Z) : outcome Z :=
  if len =? 0 then find_length key h else Done len.

(** [memory]: whether a bucket can be allocated. *)
Definition add_hash (memory : bool) (table : option hash_table) (key : list Z) (len : Z) (pointer : V) : outcome (option hash_table) :=
  match table with
  | None => Done None
  | Some t =>
      len ← key_length (do_hash t) key len;
      hashno ← run_hash (do_hash t) key len (hash_count t);
      if memory then
        chain ← rd (buckets t) hashno;
        bs ← wr (buckets t) hashno (mk_bucket key len pointer :: chain);
        Done (Some (mk_table (hash_count t) (do_hash t) bs))
      else Done table
  end.

Definition deletes (h : hasher) (bp : hash_bucket) (key : list Z) (len : Z) : outcome bool :=
  empty ← (if blen bp =? 0 then c ← strcmp (name bp) key; Done (c =? 0) else Done false);
  if (empty : bool) then Done true
  else if blen bp =? len then same_key h (name bp) key len else Done false.

Fixpoint delete_from (h : hasher) (chain : list hash_bucket) (key : list Z) (len : Z) : outcome (list hash_bucket) :=
  match chain with
  | [] => Done []
  | bp :: chain' =>
      found ← deletes h bp key len;
      if (found : bool) then Done chain' else rest ← delete_from h chain' key len; Done (bp :: rest)
  end.

Definition delete_hash_entry (table : option hash_table) (key : list Z) (len : Z) : outcome (option hash_table) :=
  match table with
  | None => Done None
  | Some t =>
      len ← key_length (do_hash t) key len;
      hashno ← run_hash (do_hash t) key len (hash_count t);
      chain ← rd (buckets t) hashno;
      chain ← delete_from (do_hash t) chain key len;
      bs ← wr (buckets t) hashno chain;
      Done (Some (mk_table (hash_count t) (do_hash t) bs))
  end.

Fixpoint find_bucket (h : hasher) (chain : list hash_bucket) (key : list Z) (len : Z) : outcome (option V) :=
  match chain with
  | [] => Done None
  | bp :: chain' =>
      found ← (if len =? blen bp then same_key h (name bp) key len else Done false);
      if (found : bool) then Done (Some (value bp)) else find_bucket h chain' key len
  end.

(** [vp] is where the result goes; it has to be a null pointer. *)
Definition hash_lookup (vp : option V) (table : option hash_table) (key : list Z) (len : Z) : outcome (option V) :=
  match table with
  | None => Done None
  | Some t =>
      len ← key_length (do_hash t) key len;
      assert_c (match vp with None => true | Some _ => false end);;
      hashno ← run_hash (do_hash t) key len (hash_count t);
      chain ← rd (buckets t) hashno;
      find_bucket (do_hash t) chain key len
  end.

(** [hash_foreach]: the callback says whether to go on.  The result is the
    number of entries it succeeded for. *)
Fixpoint foreach_chain {S} (func : S -> list Z -> Z -> V -> bool * S) (chain : list hash_bucket) (count : Z) (s : S) : bool * Z * S :=
  match chain with
  | [] => (true, count, s)
  | bp :: chain' =>
      let '(ok, s) := func s (name bp) (blen bp) (value bp) in
      if (ok : bool) then foreach_chain func chain' (count + 1) s else (false, count, s)
  end.
Fixpoint foreach_chains {S} (func : S -> list Z -> Z -> V -> bool * S) (chains : list (list hash_bucket)) (count : Z) (s : S) : Z * S :=
  match chains with
  | [] => (count, s)
  | chain :: chains' =>
      let '(ok, count, s) := foreach_chain func chain count s in
      if (ok : bool) then foreach_chains func chains' count s else (count, s)
  end.
Definition hash_foreach {S} (table : option hash_table) (func : S -> list Z -> Z -> V -> bool * S) (s : S) : Z * S :=
  match table with None => (0, s) | Some t => foreach_chains func (buckets t) 0 s end.

End hash.
Arguments hash_bucket : clear implicits.
Arguments hash_table : clear implicits.
