(* ===== verification/HashOk.v ===== *)
(** * Hash tables keep a stack of values for each key

    The operations of omapip/hash.c are total, and a table behaves as a map
    from keys (compared byte by byte, and without regard to case where the table
    has the hash function for that) to stacks of values: [add_hash] pushes, [delete_hash_entry] pops and
    [hash_lookup] reads the top.  Used with at most one value for each key, as
    server/mdb.c does, it is a finite map. *)

From stdpp Require Import base tactics numbers gmap list.
From S2P Require Import Prelude Hash.

#[local] Open Scope Z_scope.

(** ** Comparison *)
Lemma memcmp_eq s t : length s = length t -> (memcmp s t =? 0) = bool_decide (s = t).
Proof.
  revert t. induction s as [|a s IH]; intros [|b t] Hl; try done. cbn [memcmp]. injection Hl as Hl.
  destruct (Z.ltb_spec a b); [cbn; symmetry; apply bool_decide_eq_false; intros [=]; lia|].
  destruct (Z.ltb_spec b a); [cbn; symmetry; apply bool_decide_eq_false; intros [=]; lia|].
  rewrite IH by done. assert (a = b) as -> by lia. apply bool_decide_ext. split; [by intros ->|by intros [=]].
Qed.
Lemma casecmp_eq s t : length s = length t -> casecmp s t = memcmp (map fold_case s) (map fold_case t).
Proof. revert t. induction s as [|a s IH]; intros [|b t] Hl; try done. cbn. rewrite IH by (cbn in Hl; lia). done. Qed.

(** What makes two keys equal. *)
Definition canon (h : hasher) (key : list Z) (len : Z) : list Z :=
  match h with case_hash => map fold_case (take (Z.to_nat len) key) | _ => take (Z.to_nat len) key end.

Lemma length_canon h key len : 0 <= len <= zlen key -> length (canon h key len) = Z.to_nat len.
Proof. intros. unfold canon, zlen in *. destruct h; rewrite ?length_map, length_take; lia. Qed.

Lemma same_key_spec h a b len : 0 <= len <= zlen a -> len <= zlen b ->
  same_key h a b len = Done (bool_decide (canon h a len = canon h b len)).
Proof.
  intros Ha Hb. unfold same_key. rewrite !rdn_in by lia. rewrite !bind_ret. change (drop (Z.to_nat 0) ?x) with x. unfold zlen in *. f_equal.
  assert (L : length (take (Z.to_nat len) a) = length (take (Z.to_nat len) b)) by (rewrite !length_take; lia).
  unfold canon. destruct h; try by rewrite memcmp_eq. rewrite casecmp_eq by done. by rewrite memcmp_eq by by rewrite !length_map.
Qed.

(** ** Hash functions *)
Definition fold16 (x : Z) : Z :=
  if 65535 <? x then let y := x mod 65536 + x / 65536 in if 65535 <? y then y mod 65536 + y / 65536 else y else x.

Lemma carry_step_spec a : 0 <= a < 2 ^ 31 ->
  carry_step a = Done (if 65535 <? a then inl (a mod 65536 + a / 65536) else inr a).
Proof.
  intros Ha. unfold carry_step. change 65535 with (Z.ones 16) at 2. rewrite Z.land_ones, Z.shiftr_div_pow2 by lia.
  change (2 ^ 16) with 65536. unfold u32. pose proof (Z.mod_pos_bound a 65536). pose proof (Z.div_mod a 65536).
  assert (0 <= a / 65536 < 32768) by nia. rewrite Z.mod_small by lia. by destruct (65535 <? a).
Qed.
Lemma fold16_step x : 65535 < x <= 131325 ->
  1 <= x mod 65536 + x / 65536 <= 65536 /\ fold16 (x mod 65536 + x / 65536) = fold16 x /\ 0 <= fold16 x <= 65535.
Proof.
  intros Hx. pose proof (Z.mod_pos_bound x 65536). pose proof (Z.div_mod x 65536). set (y := x mod 65536 + x / 65536).
  assert (Hy : 1 <= y <= 65536) by (assert (x / 65536 = 1 \/ x / 65536 = 2) by nia; lia). split; [done|]. unfold fold16. fold y.
  replace (65535 <? x) with true by lia. destruct (Z.ltb_spec 65535 y); [|lia]. replace y with 65536 by lia. done.
Qed.

Lemma add_carry_back_spec x : 0 <= x <= 131325 -> add_carry_back x = Done (fold16 x) /\ 0 <= fold16 x <= 65535.
Proof.
  intros Hx.
  destruct (while_total carry_step (fun s => 0 <= s <= 131325 /\ fold16 s = fold16 x) (fun r => r = fold16 x /\ 0 <= r <= 65535)
    (fun s => if 65535 <? s then if 65535 <? s mod 65536 + s / 65536 then 2 else 1 else 0)) with (d := 2%nat) (s := x) as (r & E & -> & Hr).
  - intros s [Hs Hf]. unfold step_ok. rewrite carry_step_spec by lia. destruct (Z.ltb_spec 65535 s) as [L|L].
    + left. destruct (fold16_step s) as (Hy & Hfy & _); [lia|]. eexists. split; [reflexivity|]. split; [split; [lia|congruence]|].
      destruct (Z.ltb_spec 65535 (s mod 65536 + s / 65536)) as [L2|L2]; [|done]. by replace (s mod 65536 + s / 65536) with 65536 by lia.
    + right. eexists. split; [reflexivity|]. split; [|lia]. rewrite <- Hf. unfold fold16. by replace (65535 <? s) with false by lia.
  - done.
  - destruct (65535 <? x); [|done]. by destruct (65535 <? _).
  - done.
Qed.

Lemma fold_case_byte c : byte c -> byte (fold_case c).
Proof.
  unfold fold_case, tolower, byte. intros Hc. destruct (isascii c); [|done]. destruct (Z.leb_spec 65 c), (Z.leb_spec c 90); cbn; lia.
Qed.

(** The sum over the characters of a name. *)
Fixpoint text_value (s : list Z) (a : Z) : Z :=
  match s with [] => a | c :: s' => text_value s' (fold16 (2 * a + c)) end.

Lemma text_accum_spec h s a : bytes s -> 0 <= a <= 65535 ->
  text_accum h s a = Done (text_value (match h with case_hash => map fold_case s | _ => s end) a) /\
  0 <= text_value (match h with case_hash => map fold_case s | _ => s end) a <= 65535.
Proof.
  intros Hb. revert a. induction s as [|c s IH]; intros a Ha; [by destruct h|].
  apply Forall_cons in Hb as [Hc Hb]. specialize (IH Hb). cbn [text_accum]. rewrite Z.shiftl_mul_pow2 by lia. change (2 ^ 1) with 2.
  set (c' := match h with case_hash => fold_case c | _ => c end).
  assert (Hc' : byte c') by (unfold c'; destruct h; auto using fold_case_byte). unfold byte in Hc'.
  unfold u32. rewrite Z.mod_small by lia. rewrite (Z.mul_comm a 2).
  destruct (add_carry_back_spec (2 * a + c')) as [E R]; [lia|]. rewrite E, bind_ret. destruct (IH _ R) as [E' R'].
  unfold c' in *. destruct h; by split.
Qed.

Section functions.
Context `{HostOrder}.

(** The number of the chain for a key. *)
Definition hash_no (h : hasher) (c : list Z) (size : Z) : Z :=
  match h with
  | case_hash | string_hash => text_value c 0 mod size
  | id_hash => do_id_hash c size
  | number_hash => mem_load c mod size
  | ip4_hash => ntohl (mem_load c) mod size
  end.

(** Lengths that the functions can work with: numbers and addresses have
    four bytes. *)
Definition length_ok (h : hasher) (n : Z) : Prop :=
  0 < n < 2 ^ 31 /\ match h with number_hash | ip4_hash => n = 4 | _ => True end.

Lemma do_id_hash_range s size : 0 < size -> 0 <= do_id_hash s size < size.
Proof.
  intros Hs. unfold do_id_hash. pose proof (fun x => Z.mod_pos_bound x size Hs).
  repeat (zcase; [try lia|]); try done; destruct s as [|? [|? ?]]; try lia; auto.
Qed.

Lemma run_hash_spec h key n size : bytes key -> length_ok h n -> n <= zlen key -> 0 < size ->
  run_hash h key n size = Done (hash_no h (canon h key n) size) /\ 0 <= hash_no h (canon h key n) size < size.
Proof.
  intros Hb [Hn H4] Hz Hs. assert (Bt : bytes (take (Z.to_nat n) key)) by by apply Forall_take.
  unfold run_hash, hash_no, canon. destruct h; try subst n; rewrite rdn_in, bind_ret by lia; change (drop (Z.to_nat 0) key) with key.
  - destruct (text_accum_spec case_hash _ 0 Bt) as [-> ?]; [lia|]. rewrite bind_ret. split; [done|by apply Z.mod_pos_bound].
  - destruct (text_accum_spec string_hash _ 0 Bt) as [-> ?]; [lia|]. rewrite bind_ret. split; [done|by apply Z.mod_pos_bound].
  - split; [done|by apply do_id_hash_range].
  - split; [done|by apply Z.mod_pos_bound].
  - split; [done|by apply Z.mod_pos_bound].
Qed.
End functions.

(** ** Tables *)
Section table.
Context `{HostOrder} {V : Type}.
Implicit Types t : hash_table V.

Definition entry_key (h : hasher) (bp : hash_bucket V) : list Z := canon h (name bp) (blen bp).
Definition entry_ok (h : hasher) (bp : hash_bucket V) : Prop := bytes (name bp) /\ length_ok h (blen bp) /\ blen bp <= zlen (name bp).

Record table_ok t : Prop := {
  count_pos : 0 < hash_count t;
  count_eq : zlen (buckets t) = hash_count t;
  entries_ok i chain bp : buckets t !! i = Some chain -> bp ∈ chain ->
    entry_ok (do_hash t) bp /\ hash_no (do_hash t) (entry_key (do_hash t) bp) (hash_count t) = Z.of_nat i }.

(** The values under a key, the last one that was added first. *)
Definition chain_values (h : hasher) (c : list Z) (chain : list (hash_bucket V)) : list V :=
  value <$> filter (fun bp => entry_key h bp = c) chain.
Definition values t (c : list Z) : list V :=
  chain_values (do_hash t) c (default [] (buckets t !! Z.to_nat (hash_no (do_hash t) c (hash_count t)))).

(** [key] with length [len] (0: to be found out) stands for [c]. *)
Definition key_for (h : hasher) (key : list Z) (len : Z) (c : list Z) : Prop :=
  exists n, key_length h key len = Done n /\ bytes key /\ length_ok h n /\ n <= zlen key /\ c = canon h key n.

(** Two entries with the same key have keys of the same length. *)
Lemma canon_length h a n b m : length_ok h n -> n <= zlen a -> length_ok h m -> m <= zlen b ->
  canon h a n = canon h b m -> n = m.
Proof.
  intros [Hn _] Ha [Hm _] Hb E. apply (f_equal length) in E. rewrite !length_canon in E by lia. lia.
Qed.

Lemma matches h bp key n : entry_ok h bp -> length_ok h n -> n <= zlen key ->
  (if n =? blen bp then same_key h (name bp) key n else Done false) = Done (bool_decide (entry_key h bp = canon h key n)).
Proof.
  intros (Hb & Hl & Hz) Hn Hk. destruct (Z.eqb_spec n (blen bp)) as [->|N].
  - apply same_key_spec; [|lia]. destruct Hl. lia.
  - f_equal. symmetry. apply bool_decide_eq_false. intros E. apply N. symmetry. by eapply canon_length.
Qed.
Lemma deletes_spec h bp key n : entry_ok h bp -> length_ok h n -> n <= zlen key ->
  deletes h bp key n = Done (bool_decide (entry_key h bp = canon h key n)).
Proof.
  intros Hok Hn Hk. unfold deletes. rewrite (proj2 (Z.eqb_neq (blen bp) 0)) by (destruct Hok as (_ & [? _] & _); lia).
  rewrite bind_ret, Z.eqb_sym. by apply matches.
Qed.

Lemma find_bucket_spec h chain key n : (forall bp, bp ∈ chain -> entry_ok h bp) -> length_ok h n -> n <= zlen key ->
  find_bucket h chain key n = Done (head (chain_values h (canon h key n) chain)).
Proof.
  intros Hok Hn Hk. induction chain as [|bp chain IH]; [done|]. cbn [find_bucket]. rewrite matches by (try done; apply Hok; by left).
  rewrite bind_ret. unfold chain_values. rewrite filter_cons. case_bool_decide as E; [by rewrite decide_True by done|]. rewrite decide_False by done. apply IH. intros ? ?. apply Hok. by right.
Qed.

(** Deletion takes the first entry of the key out of its chain. *)
Lemma delete_from_spec h chain key n : (forall bp, bp ∈ chain -> entry_ok h bp) -> length_ok h n -> n <= zlen key ->
  exists chain', delete_from h chain key n = Done chain' /\ (forall bp, bp ∈ chain' -> bp ∈ chain) /\
    forall c, chain_values h c chain' = if bool_decide (c = canon h key n) then tail (chain_values h c chain) else chain_values h c chain.
Proof.
  intros Hok Hn Hk. induction chain as [|bp chain IH]; [exists []; split_and!; [done|done|intros c; by case_bool_decide]|].
  cbn [delete_from]. rewrite deletes_spec by (try done; apply Hok; by left). rewrite bind_ret. case_bool_decide as E.
  - exists chain. split_and!; [done|intros; by right|]. intros c. unfold chain_values. rewrite filter_cons. case_bool_decide as Ec.
    + rewrite decide_True by congruence. done.
    + rewrite decide_False by congruence. done.
  - destruct IH as (chain' & -> & Hs & Hv); [intros; apply Hok; by right|]. rewrite bind_ret. eexists. split; [reflexivity|]. split.
    + intros b [->|Hb]%elem_of_cons; [by left|right; by apply Hs].
    + intros c. specialize (Hv c). unfold chain_values in *. rewrite !filter_cons. case_bool_decide as Ec; subst.
      * by rewrite !decide_False by done.
      * destruct (decide _); cbn; [by rewrite Hv|done].
Qed.

(** The chain of a key. *)
Lemma chain_of t key n : table_ok t -> bytes key -> length_ok (do_hash t) n -> n <= zlen key ->
  exists i chain, run_hash (do_hash t) key n (hash_count t) = Done (Z.of_nat i) /\
    hash_no (do_hash t) (canon (do_hash t) key n) (hash_count t) = Z.of_nat i /\
    rd (buckets t) (Z.of_nat i) = Done chain /\ buckets t !! i = Some chain /\ (i < length (buckets t))%nat.
Proof.
  intros Ht Hb Hn Hk. destruct (run_hash_spec (do_hash t) key n (hash_count t) Hb Hn Hk (count_pos t Ht)) as [E R].
  pose proof (count_eq t Ht) as Hc. set (no := hash_no _ _ _) in *. unfold zlen in Hc.
  destruct (lookup_lt_is_Some_2 (buckets t) (Z.to_nat no)) as [chain Ec]; [lia|]. exists (Z.to_nat no), chain.
  rewrite Z2Nat.id by lia. split_and!; [done|done|apply rd_Done; split; [lia|done]|done|lia].
Qed.

(** Replacing one chain. *)
Lemma set_chain t i chain chain' : table_ok t -> buckets t !! i = Some chain ->
  (forall bp, bp ∈ chain' -> bp ∈ chain \/
     entry_ok (do_hash t) bp /\ hash_no (do_hash t) (entry_key (do_hash t) bp) (hash_count t) = Z.of_nat i) ->
  wr (buckets t) (Z.of_nat i) chain' = Done (<[i := chain']> (buckets t)) /\
  table_ok (mk_table (hash_count t) (do_hash t) (<[i := chain']> (buckets t))) /\
  forall c, values (mk_table (hash_count t) (do_hash t) (<[i := chain']> (buckets t))) c =
    if bool_decide (Z.to_nat (hash_no (do_hash t) c (hash_count t)) = i) then chain_values (do_hash t) c chain' else values t c.
Proof.
  intros Ht Hi Hin. assert (Li : (i < length (buckets t))%nat) by (by eapply lookup_lt_Some). split_and!.
  - rewrite wr_in by (unfold zlen; lia). by rewrite Nat2Z.id.
  - split; cbn; [apply Ht|rewrite zlen_insert; apply Ht|]. intros j ch bp Hj Hbp.
    apply list_lookup_insert_Some in Hj as [(-> & -> & _)|[_ Hj]]; [|by eapply entries_ok].
    destruct (Hin bp Hbp) as [Hb|?]; [by eapply entries_ok|done].
  - intros c. unfold values. cbn. case_bool_decide as E; [by rewrite E, list_lookup_insert_eq|]. by rewrite list_lookup_insert_ne.
Qed.

(** An entry is added in front of its chain. *)
Lemma add_hash_spec t key len c v : table_ok t -> key_for (do_hash t) key len c ->
  exists t', add_hash true (Some t) key len v = Done (Some t') /\ table_ok t' /\ do_hash t' = do_hash t /\
    forall c', values t' c' = if bool_decide (c' = c) then v :: values t c else values t c'.
Proof.
  intros Ht (n & El & Hb & Hn & Hk & ->). unfold add_hash. rewrite El, bind_ret.
  destruct (chain_of t key n Ht Hb Hn Hk) as (i & chain & Eh & En & Er & Ei & _). rewrite Eh, bind_ret, Er, bind_ret.
  destruct (set_chain t i chain (mk_bucket key n v :: chain) Ht Ei) as (Ew & Hok & Hv).
  { intros bp [->|Hbp]%elem_of_cons; [right|by left]. split; [by split_and!|exact En]. }
  rewrite Ew, bind_ret. eexists. split; [reflexivity|]. split_and!; [done|done|]. intros c'. rewrite Hv. clear Hv.
  unfold values. case_bool_decide as E1; unfold chain_values; rewrite ?filter_cons.
  - rewrite E1, Ei. unfold entry_key at 1. cbn [name blen]. case_bool_decide as E2; subst.
    + rewrite decide_True by done. rewrite En, Nat2Z.id, Ei. done.
    + by rewrite decide_False by done.
  - rewrite bool_decide_eq_false_2; [done|]. intros ->. apply E1. rewrite En. lia.
Qed.

Lemma delete_hash_entry_spec t key len c : table_ok t -> key_for (do_hash t) key len c ->
  exists t', delete_hash_entry (Some t) key len = Done (Some t') /\ table_ok t' /\ do_hash t' = do_hash t /\
    forall c', values t' c' = if bool_decide (c' = c) then tail (values t c) else values t c'.
Proof.
  intros Ht (n & El & Hb & Hn & Hk & ->). unfold delete_hash_entry. rewrite El, bind_ret.
  destruct (chain_of t key n Ht Hb Hn Hk) as (i & chain & Eh & En & Er & Ei & _). rewrite Eh, bind_ret, Er, bind_ret.
  destruct (delete_from_spec (do_hash t) chain key n) as (chain' & Ed & Hs & Hc); [intros bp Hbp; by eapply entries_ok|done|done|].
  rewrite Ed, bind_ret. destruct (set_chain t i chain chain' Ht Ei) as (Ew & Hok & Hv); [intros; left; auto|].
  rewrite Ew, bind_ret. eexists. split; [reflexivity|]. split_and!; [done|done|]. intros c'. rewrite Hv, Hc. clear Hv Hc.
  assert (Hi : forall c0, Z.to_nat (hash_no (do_hash t) c0 (hash_count t)) = i -> values t c0 = chain_values (do_hash t) c0 chain) by (intros c0 E0; unfold values; by rewrite E0, Ei).
  assert (Ec : Z.to_nat (hash_no (do_hash t) (canon (do_hash t) key n) (hash_count t)) = i) by (rewrite En; lia).
  case_bool_decide as E1; case_bool_decide as E2; [subst; by rewrite Hi|by rewrite Hi|subst; contradiction|reflexivity].
Qed.

Lemma hash_lookup_spec t key len c : table_ok t -> key_for (do_hash t) key len c ->
  hash_lookup None (Some t) key len = Done (head (values t c)).
Proof.
  intros Ht (n & El & Hb & Hn & Hk & ->). unfold hash_lookup. rewrite El, bind_ret. cbn [assert_c].
  destruct (chain_of t key n Ht Hb Hn Hk) as (i & chain & Eh & En & Er & Ei & _). rewrite bind_ret, Eh, bind_ret, Er, bind_ret.
  rewrite find_bucket_spec; [|intros bp Hbp; by eapply entries_ok|done|done]. unfold values. by rewrite En, Nat2Z.id, Ei.
Qed.

Lemma new_hash_spec hsize h : 0 <= hsize < 2 ^ 32 ->
  exists t, new_hash true hsize h = Some t /\ table_ok t /\ do_hash t = h /\ forall c, values t c = [].
Proof.
  intros Hs. unfold new_hash. set (k := if hsize =? 0 then DEFAULT_HASH_SIZE else hsize).
  assert (0 < k) by (unfold k, DEFAULT_HASH_SIZE; zcase; lia). eexists. split; [reflexivity|]. split_and!; [|done|].
  - split; cbn; [done|unfold zlen; rewrite length_replicate; lia|]. intros i chain bp [-> _]%lookup_replicate_1 Hbp. by apply elem_of_nil in Hbp.
  - intros c. unfold values. cbn. destruct (replicate _ _ !! _) eqn:E; [|done]. by apply lookup_replicate_1 in E as [-> _].
Qed.

(** C39: A hash table is a map from keys to stacks of values.  A new table is
    empty; [add_hash] pushes a value onto the stack of its key,
    [delete_hash_entry] pops the stack (and does nothing when it is empty),
    [hash_lookup] returns the top, and no operation changes the stacks of other
    keys.  All of them return, with keys of explicit length and with lengths
    that are found out, and keep every entry in the chain its key hashes to.
    Keys are not empty.  Which keys are the same depends on the hash function of
    the table ([canon]): with that of names without regard to case they may
    differ in the case of letters, with every other one they are the same
    bytes. *)
Theorem hash_table_stacks hsize h key len c v : 0 <= hsize < 2 ^ 32 -> key_for h key len c ->
  (exists t, new_hash true hsize h = Some t /\ table_ok t /\ do_hash t = h /\ forall c', values t c' = []) /\
  forall t, table_ok t -> do_hash t = h ->
    hash_lookup None (Some t) key len = Done (head (values t c)) /\
    (exists t', add_hash true (Some t) key len v = Done (Some t') /\ table_ok t' /\ do_hash t' = h /\
       forall c', values t' c' = if bool_decide (c' = c) then v :: values t c else values t c') /\
    (exists t', delete_hash_entry (Some t) key len = Done (Some t') /\ table_ok t' /\ do_hash t' = h /\
       forall c', values t' c' = if bool_decide (c' = c) then tail (values t c) else values t c').
Proof.
  intros Hs Hk. split; [by apply new_hash_spec|]. intros t Ht <-. split_and!; [by apply hash_lookup_spec|by apply add_hash_spec|by apply delete_hash_entry_spec].
Qed.

(** [hash_foreach] with a callback that always succeeds visits every entry
    once, chain by chain, and returns their number. *)
Lemma hash_foreach_all {S} t (func : S -> list Z -> Z -> V -> bool * S) s :
  (forall u k n v, (func u k n v).1 = true) ->
  hash_foreach (Some t) func s =
  (zlen (concat (buckets t)), foldl (fun u bp => (func u (name bp) (blen bp) (value bp)).2) s (concat (buckets t))).
Proof.
  intros Hf. cbn [hash_foreach].
  assert (Hc : forall chain n u, foreach_chain func chain n u = (true, n + zlen chain, foldl (fun u bp => (func u (name bp) (blen bp) (value bp)).2) u chain)).
  { induction chain as [|bp chain IH]; intros n u; cbn [foreach_chain foldl]; [by rewrite zlen_nil, Z.add_0_r|].
    specialize (Hf u (name bp) (blen bp) (value bp)). destruct (func _ _ _ _) as [ok u']. cbn in Hf. subst ok. rewrite IH, zlen_cons. do 2 f_equal. lia. }
  assert (Hg : forall chains n u, foreach_chains func chains n u =
    (n + zlen (concat chains), foldl (fun u bp => (func u (name bp) (blen bp) (value bp)).2) u (concat chains))).
  { induction chains as [|chain chains IH]; intros n u; cbn [foreach_chains concat foldl]; [by rewrite zlen_nil, Z.add_0_r|].
    rewrite Hc, IH, zlen_app, foldl_app. f_equal. lia. }
  by rewrite Hg.
Qed.

(** ** Tables with one value for each key are finite maps *)
Definition table_maps t (m : gmap (list Z) V) : Prop :=
  table_ok t /\ forall c, values t c = match m !! c with Some v => [v] | None => [] end.

Lemma table_maps_lookup t m key len c : table_maps t m -> key_for (do_hash t) key len c ->
  hash_lookup None (Some t) key len = Done (m !! c).
Proof. intros [Ht Hv] Hk. rewrite (hash_lookup_spec t key len c) by done. rewrite Hv. by destruct (m !! c). Qed.

Lemma table_maps_delete t m key len c : table_maps t m -> key_for (do_hash t) key len c ->
  exists t', delete_hash_entry (Some t) key len = Done (Some t') /\ table_maps t' (delete c m) /\ do_hash t' = do_hash t.
Proof.
  intros [Ht Hv] Hk. destruct (delete_hash_entry_spec t key len c Ht Hk) as (t' & E & Ht' & Eh & Hv'). exists t'. split_and!; [done| |done].
  split; [done|]. intros c'. rewrite Hv'. case_bool_decide as Ec; subst.
  - rewrite lookup_delete_eq, Hv. by destruct (m !! c).
  - by rewrite lookup_delete_ne, Hv by congruence.
Qed.

(** Adding under a key that is not in the table, as after a deletion. *)
Lemma table_maps_add t m key len c v : table_maps t m -> key_for (do_hash t) key len c -> m !! c = None ->
  exists t', add_hash true (Some t) key len v = Done (Some t') /\ table_maps t' (<[c := v]> m) /\ do_hash t' = do_hash t.
Proof.
  intros [Ht Hv] Hk Hm. destruct (add_hash_spec t key len c v Ht Hk) as (t' & E & Ht' & Eh & Hv'). exists t'. split_and!; [done| |done].
  split; [done|]. intros c'. rewrite Hv'. case_bool_decide as Ec; subst.
  - by rewrite lookup_insert_eq, Hv, Hm.
  - by rewrite lookup_insert_ne, Hv by congruence.
Qed.
End table.

(** ** A table of names *)
#[local] Instance host : HostOrder := false.
Lemma hash_table_stacks_witness :
  exists t t', new_hash true 0 case_hash = Some t /\ add_hash true (Some t) [101; 116; 72; 48; 0; 9] 0 7 = Done (Some t') /\
    values t' [101; 116; 104; 48] = [7].
Proof.
  destruct (hash_table_stacks 0 case_hash [101; 116; 72; 48; 0; 9] 0 [101; 116; 104; 48] 7) as [(t & E & Ht & Eh & Hv) H2].
  - done.
  - exists 4. split; [by vm_compute|]. split; [by apply (bool_decide_unpack _)|]. split; [done|]. split; [done|by vm_compute].
  - destruct (H2 t Ht Eh) as (_ & (t' & E' & _ & _ & Hv') & _). exists t, t'. split; [exact E|]. split; [exact E'|].
    rewrite Hv', Hv. by rewrite bool_decide_eq_true_2.
Defined.
