(* ===== verification/Dispatch.v ===== *)
(** * Timeouts (common/dispatch.c)

    The server keeps a list of timeouts: a function to call, its argument and
    the time.  Normally each has a timer of the ISC library, which calls
    [isclib_timer_callback] when it expires, and the list is in no order; when a
    trace is played back the list is sorted and [process_outstanding_timeouts]
    runs what is due.  A function and an argument have at most one timeout:
    [add_timeout] replaces an earlier one, which is what [pool_timer] relies on.

    Functions, arguments and blocks of memory are named by numbers.  Calling a
    function is a parameter ([call]), since it may do anything, adding and
    cancelling timeouts included.  The timers of the library are represented by
    the interval they were last set to; references to arguments are not
    counted. *)

From Stdlib Require Import Sorted.
From stdpp Require Import base tactics numbers list.
From S2P Require Import Prelude.

#[local] Open Scope Z_scope.

Record timeval := mk_tv { tv_sec : Z; tv_usec : Z }.

(** [block] is the address of the structure; [isc_timeout] the seconds and
    nanoseconds the library timer was set to. *)
Record timeout := mk_timeout { block : nat; when : timeval; func : option nat; what : nat; isc_timeout : option (Z * Z) }.
Record dispatcher := mk_dispatcher { cur_tv : timeval; timeouts : list timeout }.
Definition set_timeouts (l : list timeout) (d : dispatcher) : dispatcher := mk_dispatcher (cur_tv d) l.

Definition USEC_MAX : Z := 1000000.
Definition TIME_MAX : Z := 2147483647.

(** The first element with property [f], and the list without it. *)
Fixpoint take_out {A} (f : A -> bool) (l : list A) : option (A * list A) :=
  match l with
  | [] => None
  | x :: l' => if f x then Some (x, l') else
      match take_out f l' with Some (y, k) => Some (y, x :: k) | None => None end
  end.

(** ** Adding *)
Definition same_func (q : option nat) (where_ : option nat) : bool := bool_decide (q = where_).
Definition supersedes (where_ : option nat) (arg : nat) (q : timeout) : bool :=
  (match where_ with None => true | Some _ => same_func (func q) where_ end) && bool_decide (what q = arg).

(** The time to wait, in seconds and microseconds. *)
Definition interval (w cur : timeval) : Z * Z :=
  let sec := tv_sec w - tv_sec cur in
  let usec := tv_usec w - tv_usec cur in
  let '(sec, usec) := if negb (tv_usec w =? 0) && (usec <? 0) then (sec - 1, usec + USEC_MAX) else (sec, usec) in
  if sec <? 0 then (0, 0)
  else if TIME_MAX <=? sec then (TIME_MAX - 1, 0)
  else if usec <? 0 then (sec, 0)
  else if USEC_MAX <=? usec then (sec, USEC_MAX - 1)
  else (sec, usec).

Definition later (a b : timeval) : bool :=
  (tv_sec b <? tv_sec a) || ((tv_sec a =? tv_sec b) && (tv_usec b <? tv_usec a)).

(** When a trace is played back: before the first later timeout. *)
Fixpoint insert_timeout (q : timeout) (l : list timeout) : list timeout :=
  match l with
  | [] => [q]
  | t :: l' => if later (when t) (when q) then q :: t :: l' else t :: insert_timeout q l'
  end.

(** [fresh] is the block taken from the free list or allocated, if there is
    one; [isc_ok] says whether the library could set up the timer. *)
Definition add_timeout (playback isc_ok : bool) (fresh : option nat) (d : dispatcher) (w : timeval) (where_ : option nat) (arg : nat)
    : outcome dispatcher :=
  '(q, rest) ← match take_out (supersedes where_ arg) (timeouts d) with
               | Some (q, rest) => Done (q, rest)
               | None => match fresh with
                         | Some b => Done (mk_timeout b (mk_tv 0 0) where_ arg None, timeouts d)
                         | None => Fatal
                         end
               end;
  let '(sec, usec) := interval w (cur_tv d) in
  let q := mk_timeout (block q) (mk_tv (tv_sec (cur_tv d) + sec) usec) (func q) (what q) (isc_timeout q) in
  if (playback : bool) then Done (set_timeouts (insert_timeout q rest) d)
  else if (isc_ok : bool) then
    Done (set_timeouts (mk_timeout (block q) (when q) (func q) (what q) (Some (sec, usec * 1000)) :: rest) d)
  else Fatal.

(** ** Cancelling *)
Definition cancel_timeout (d : dispatcher) (where_ : option nat) (arg : nat) : dispatcher :=
  match take_out (fun q => same_func (func q) where_ && bool_decide (what q = arg)) (timeouts d) with
  | Some (_, rest) => set_timeouts rest d
  | None => d
  end.

(** ** Running

    A state that contains the dispatcher, and the functions that are called. *)
Section run.
Context {S : Type} (disp : S -> dispatcher) (set_disp : dispatcher -> S -> S) (call : S -> option nat -> nat -> outcome S).

Definition expired (d : dispatcher) (t : timeout) : bool := negb (later (when t) (cur_tv d)).

(** One turn of the loop [another]; [inr] is the time to wait for. *)
Definition process_step (s : S) : outcome (S + (S * option timeval)) :=
  match timeouts (disp s) with
  | [] => Done (inr (s, None))
  | t :: rest =>
      if expired (disp s) t then
        s ← call (set_disp (set_timeouts rest (disp s)) s) (func t) (what t); Done (inl s)
      else Done (inr (s, Some (when t)))
  end.
Definition process_outstanding_timeouts (fuel : nat) (s : S) : outcome (S * option timeval) := while_loop fuel process_step s.

Definition set_time (fuel : nat) (t : Z) (s : S) : outcome S :=
  if tv_sec (cur_tv (disp s)) =? t then Done s
  else
    let s := set_disp (mk_dispatcher (mk_tv t 0) (timeouts (disp s))) s in
    r ← process_outstanding_timeouts fuel s; Done r.1.

(** The timer of block [b] has expired at time [now]; the result says whether
    the block was on the list. *)
Definition isclib_timer_callback (now : timeval) (b : nat) (s : S) : outcome (bool * S) :=
  let s := set_disp (mk_dispatcher now (timeouts (disp s))) s in
  match take_out (fun q => bool_decide (block q = b)) (timeouts (disp s)) with
  | Some (q, rest) => s ← call (set_disp (set_timeouts rest (disp s)) s) (func q) (what q); Done (true, s)
  | None => Done (false, s)
  end.
End run.

(** ** Lemmas: taking out *)
Lemma take_out_Some {A} (f : A -> bool) l x k :
  take_out f l = Some (x, k) -> exists a b, l = a ++ x :: b /\ k = a ++ b /\ f x = true /\ Forall (fun y => f y = false) a.
Proof.
  revert k. induction l as [|y l IH]; intros k E; [done|]. cbn in E. destruct (f y) eqn:Ey.
  - injection E as <- <-. exists [], l. by split_and!.
  - destruct (take_out f l) as [[z k']|]; [|done]. injection E as <- <-. destruct (IH k' eq_refl) as (a & b & -> & -> & Hx & Ha).
    exists (y :: a), b. split_and!; [done|done|done|by constructor].
Qed.
Lemma take_out_None {A} (f : A -> bool) l : take_out f l = None -> Forall (fun y => f y = false) l.
Proof.
  induction l as [|y l IH]; [by constructor|]. cbn. destruct (f y) eqn:Ey; [done|]. destruct (take_out f l) as [[]|]; [done|]. constructor; auto.
Qed.
Lemma take_out_app {A} (f : A -> bool) a x b : Forall (fun y => f y = false) a -> f x = true -> take_out f (a ++ x :: b) = Some (x, a ++ b).
Proof. intros Ha Hx. induction Ha as [|y a Hy _ IH]; cbn; [by rewrite Hx|]. by rewrite Hy, IH. Qed.

(** ** The interval *)

(** Microseconds since the epoch. *)
Definition usecs (t : timeval) : Z := tv_sec t * USEC_MAX + tv_usec t.
Definition tv_ok (t : timeval) : Prop := 0 <= tv_usec t < USEC_MAX.

(** The interval that [add_timeout] sets a timer to is never negative and
    never reaches TIME_MAX seconds.  A time that is not later than now gives
    zero seconds; any other time within range is not missed on the early side,
    and on the late side by less than a second, exactly hit when it has
    microseconds. *)
Lemma interval_correct w cur : tv_ok w -> tv_ok cur ->
  0 <= (interval w cur).1 <= TIME_MAX - 1 /\ 0 <= (interval w cur).2 < USEC_MAX /\
  (tv_sec w < tv_sec cur -> interval w cur = (0, 0)) /\
  (tv_sec cur <= tv_sec w < tv_sec cur + TIME_MAX -> usecs cur <= usecs w ->
     usecs w <= usecs cur + (interval w cur).1 * USEC_MAX + (interval w cur).2 < usecs w + USEC_MAX) /\
  (tv_sec cur <= tv_sec w < tv_sec cur + TIME_MAX -> usecs cur <= usecs w -> tv_usec w <> 0 ->
     usecs cur + (interval w cur).1 * USEC_MAX + (interval w cur).2 = usecs w).
Proof.
  unfold tv_ok, usecs, interval, USEC_MAX, TIME_MAX. intros Hw Hc.
  destruct (Z.eqb_spec (tv_usec w) 0), (Z.ltb_spec (tv_usec w - tv_usec cur) 0); cbn [negb andb]; cbv beta iota zeta;
    repeat zcase; cbn [fst snd]; split_and!; intros; first [lia|apply (f_equal2 pair); lia].
Qed.

(** ** One timeout for each function and argument *)
Definition timer_key (t : timeout) : option nat * nat := (func t, what t).
Definition timers_ok (d : dispatcher) : Prop := NoDup (timer_key <$> timeouts d) /\ NoDup (block <$> timeouts d).

(** The timeout for a function and an argument. *)
Definition timer_for (d : dispatcher) (k : option nat * nat) (t : timeout) : Prop := t ∈ timeouts d /\ timer_key t = k.

Lemma supersedes_key f arg q : supersedes (Some f) arg q = bool_decide (timer_key q = (Some f, arg)).
Proof.
  unfold supersedes, same_func, timer_key. do 3 case_bool_decide; cbn; congruence.
Qed.

Lemma insert_timeout_perm q l : insert_timeout q l ≡ₚ q :: l.
Proof.
  induction l as [|t l IH]; [done|]. cbn. destruct (later _ _); [done|]. rewrite IH. apply Permutation_swap.
Qed.

(** Timeouts in the order in which they are due. *)
Definition in_order (l : list timeout) : Prop := StronglySorted (fun a b => later (when a) (when b) = false) l.

Lemma later_trans a b c : later a b = false -> later b c = false -> later a c = false.
Proof. unfold later. intros. zbool. destruct H1, H2; zbool; apply orb_false_iff; split; try apply andb_false_iff; lia. Qed.
Lemma later_total a b : later a b = true -> later b a = false.
Proof. unfold later. intros Hl. apply orb_false_iff. zbool. destruct Hl; zbool; split; try apply andb_false_iff; lia. Qed.

Lemma insert_timeout_order q l : in_order l -> in_order (insert_timeout q l).
Proof.
  induction 1 as [|t l Hl IH Ht]; cbn; [repeat constructor|]. destruct (later (when t) (when q)) eqn:E.
  - constructor; [by constructor|]. constructor; [by apply later_total|].
    eapply Forall_impl; [exact Ht|]. intros u Hu. cbn in *. eapply later_trans; [by apply later_total|done].
  - constructor; [done|]. rewrite insert_timeout_perm. by constructor.
Qed.
Lemma in_order_delete a (q : timeout) b : in_order (a ++ q :: b) -> in_order (a ++ b).
Proof.
  induction a as [|t a IH]; cbn; [by inversion 1|]. inversion 1 as [|? ? Hs Hf]; subst. constructor; [by apply IH|].
  apply Forall_app in Hf as [Ha Hb]. inversion Hb; subst. by apply Forall_app.
Qed.

(** What [add_timeout] takes off the list, or takes a new block for. *)
Lemma supersede_split d f arg b : timers_ok d -> b ∉ block <$> timeouts d ->
  exists q rest,
    match take_out (supersedes (Some f) arg) (timeouts d) with
    | Some (q, rest) => Done (q, rest)
    | None => Done (mk_timeout b (mk_tv 0 0) (Some f) arg None, timeouts d)
    end = Done (q, rest) /\
    timer_key q = (Some f, arg) /\ NoDup (timer_key <$> q :: rest) /\ NoDup (block <$> q :: rest) /\
    (forall t, timer_key t <> (Some f, arg) -> t ∈ rest <-> t ∈ timeouts d) /\ (in_order (timeouts d) -> in_order rest).
Proof.
  intros [Nk Nb] Hb. destruct (take_out (supersedes (Some f) arg) (timeouts d)) as [[q rest]|] eqn:E.
  - apply take_out_Some in E as (a & c & E & -> & Hq & _). rewrite supersedes_key in Hq. apply bool_decide_eq_true in Hq. rewrite E in *.
    assert (P : q :: a ++ c ≡ₚ a ++ q :: c) by apply Permutation_middle. exists q, (a ++ c). split_and!; [done|done| | | |apply in_order_delete].
    + by rewrite P.
    + by rewrite P.
    + intros t Ht. rewrite <- P, elem_of_cons. split; [by right|]. intros [->|]; done.
  - apply take_out_None in E. exists (mk_timeout b (mk_tv 0 0) (Some f) arg None), (timeouts d). split_and!; [done|done| |by constructor|done|done].
    constructor; [|done]. intros (t & Et & Ht)%list_elem_of_fmap. rewrite Forall_forall in E. specialize (E t Ht). rewrite supersedes_key in E.
    apply bool_decide_eq_false in E. by apply E.
Qed.

(** [add_timeout] leaves exactly one timeout for the function and its
    argument, whether or not there was one before: it is due after the interval
    computed from the given time, and its timer is set to that interval.  The
    timeouts of other functions and arguments are the same as before; a list
    that is kept in order for playing back a trace stays in order. *)
Lemma add_timeout_correct playback d w f arg b : timers_ok d -> b ∉ block <$> timeouts d ->
  exists d' q, add_timeout playback true (Some b) d w (Some f) arg = Done d' /\ timers_ok d' /\ cur_tv d' = cur_tv d /\
    (forall t, timer_for d' (Some f, arg) t <-> t = q) /\
    when q = mk_tv (tv_sec (cur_tv d) + (interval w (cur_tv d)).1) (interval w (cur_tv d)).2 /\
    (playback = false -> isc_timeout q = Some ((interval w (cur_tv d)).1, (interval w (cur_tv d)).2 * 1000)) /\
    (forall k t, k <> (Some f, arg) -> timer_for d' k t <-> timer_for d k t) /\
    (playback = true -> in_order (timeouts d) -> in_order (timeouts d')).
Proof.
  intros Hok Hb. destruct (supersede_split d f arg b Hok Hb) as (q & rest & E & Ek & Nk & Nb & Hrest & Hord).
  unfold add_timeout. rewrite E, bind_ret. clear E. destruct (interval w (cur_tv d)) as [sec usec]. cbn [fst snd].
  assert (Hgen : forall q' l, timer_key q' = timer_key q -> block q' = block q -> l ≡ₚ q' :: rest ->
    timers_ok (set_timeouts l d) /\ (forall t, timer_for (set_timeouts l d) (Some f, arg) t <-> t = q') /\
    (forall k t, k <> (Some f, arg) -> timer_for (set_timeouts l d) k t <-> timer_for d k t)).
  { intros q' l Ek' Eb' P. unfold timers_ok, timer_for. cbn [timeouts set_timeouts]. split_and!.
    - rewrite P. cbn. rewrite Ek'. exact Nk.
    - rewrite P. cbn. rewrite Eb'. exact Nb.
    - intros t. rewrite P, elem_of_cons. split; [|intros ->; split; [by left|congruence]]. intros [[->|Ht] Et]; [done|].
      exfalso. apply NoDup_cons in Nk as [Nq _]. apply Nq. rewrite Ek, <- Et. by apply list_elem_of_fmap_2.
    - intros k t Hk. rewrite P, elem_of_cons. split; intros [Ht Et]; (split; [|done]).
      + destruct Ht as [->|Ht]; [congruence|]. apply Hrest; [congruence|done].
      + right. apply Hrest; [congruence|done]. }
  set (q1 := mk_timeout (block q) (mk_tv (tv_sec (cur_tv d) + sec) usec) (func q) (what q) (isc_timeout q)).
  set (q2 := mk_timeout (block q) (when q1) (func q) (what q) (Some (sec, usec * 1000))).
  destruct playback.
  - destruct (Hgen q1 (insert_timeout q1 rest) eq_refl eq_refl (insert_timeout_perm q1 rest)) as (H1 & H2 & H3).
    exists (set_timeouts (insert_timeout q1 rest) d), q1. split_and!; try done. intros _ Ho. by apply insert_timeout_order, Hord.
  - destruct (Hgen q2 (q2 :: rest) eq_refl eq_refl (Permutation_refl _)) as (H1 & H2 & H3).
    exists (set_timeouts (q2 :: rest) d), q2. by split_and!.
Qed.

(** [cancel_timeout] removes the timeout of the function and argument and no
    other. *)
Lemma cancel_timeout_correct d f arg : timers_ok d ->
  timers_ok (cancel_timeout d f arg) /\
  forall t, t ∈ timeouts (cancel_timeout d f arg) <-> t ∈ timeouts d /\ timer_key t <> (f, arg).
Proof.
  intros [Nk Nb]. unfold cancel_timeout.
  assert (Ek : forall q, same_func (func q) f && bool_decide (what q = arg) = bool_decide (timer_key q = (f, arg))).
  { intros q. unfold same_func, timer_key. do 3 case_bool_decide; cbn; congruence. }
  destruct (take_out _ (timeouts d)) as [[q rest]|] eqn:E.
  - apply take_out_Some in E as (a & c & E & -> & Hq & _). rewrite Ek in Hq. apply bool_decide_eq_true in Hq. rewrite E in *. cbn [timeouts set_timeouts].
    assert (P : q :: a ++ c ≡ₚ a ++ q :: c) by apply Permutation_middle. rewrite <- P in Nk, Nb. inversion_clear Nk as [|? ? Nq Nk']. inversion_clear Nb as [|? ? _ Nb'].
    split; [by split|]. intros t. rewrite <- P, elem_of_cons. split.
    + intros Ht. split; [by right|]. intros Et. apply Nq. rewrite Hq, <- Et. by apply list_elem_of_fmap_2.
    + intros [[->|Ht] Et]; [by destruct Et|done].
  - apply take_out_None in E. rewrite Forall_forall in E. split; [done|]. intros t. split; [|by intros [? _]]. intros Ht. split; [done|].
    specialize (E t Ht). rewrite Ek in E. by apply bool_decide_eq_false in E.
Qed.

(** ** Running what is due *)
Section runs.
Context {S : Type} (disp : S -> dispatcher) (set_disp : dispatcher -> S -> S) (call : S -> option nat -> nat -> outcome S).
Hypothesis disp_set : forall d s, disp (set_disp d s) = d.

Definition due (d : dispatcher) : list timeout := filter (fun t => expired d t) (timeouts d).

(** The functions that are called one after the other, each taken off the
    list before it is called. *)
Inductive calls : S -> list (option nat * nat) -> S -> Prop :=
  | calls_nil s : calls s [] s
  | calls_cons s t rest s1 tr s2 :
      timeouts (disp s) = t :: rest -> expired (disp s) t = true ->
      call (set_disp (set_timeouts rest (disp s)) s) (func t) (what t) = Done s1 ->
      calls s1 tr s2 -> calls s (timer_key t :: tr) s2.

(** A function that is called returns, leaves the list in order and makes
    nothing new due: what it adds is in the future. *)
Hypothesis call_ok : forall s f a, in_order (timeouts (disp s)) ->
  exists s', call s f a = Done s' /\ in_order (timeouts (disp s')) /\ (length (due (disp s')) <= length (due (disp s)))%nat.

Lemma head_not_due d t rest : timeouts d = t :: rest -> in_order (timeouts d) -> expired d t = false -> due d = [].
Proof.
  intros El Ho Et. apply elem_of_nil_inv. intros u Hu. apply list_elem_of_filter in Hu as [Hu Hin]. rewrite El in *.
  inversion Ho as [|? ? _ Hf]; subst. apply Is_true_true in Hu. apply elem_of_cons in Hin as [->|Hin]; [congruence|].
  rewrite Forall_forall in Hf. specialize (Hf u Hin). unfold expired in *. zbool.
  pose proof (later_trans _ _ _ Hf Hu). congruence.
Qed.

Lemma head_due d t rest : timeouts d = t :: rest -> expired d t = true -> due d = t :: due (set_timeouts rest d).
Proof. intros El Et. unfold due. rewrite El, filter_cons, decide_True by (by rewrite Et). done. Qed.

Lemma calls_snoc s tr u t rest u' : calls s tr u -> timeouts (disp u) = t :: rest -> expired (disp u) t = true ->
  call (set_disp (set_timeouts rest (disp u)) u) (func t) (what t) = Done u' -> calls s (tr ++ [timer_key t]) u'.
Proof. induction 1; intros; cbn; [by repeat econstructor|]. econstructor; eauto. Qed.

Definition keeps_timers : Prop := forall u f a u', call u f a = Done u' -> disp u' = disp u.

(** The state after some calls: what was due is what was called and what is
    still due. *)
Definition midway (s u : S) : Prop :=
  in_order (timeouts (disp u)) /\ exists tr, calls s tr u /\
    (keeps_timers -> timer_key <$> due (disp s) = tr ++ (timer_key <$> due (disp u))).
Definition finished (s : S) (r : S * option timeval) : Prop :=
  r.2 = when <$> head (timeouts (disp r.1)) /\ due (disp r.1) = [] /\ midway s r.1.

Lemma process_step_ok s u : midway s u ->
  step_ok (process_step disp set_disp call) (midway s) (finished s) (fun u => Z.of_nat (length (due (disp u)))) u.
Proof.
  intros [Ho (tr & Hc & Htr)]. unfold step_ok, process_step. destruct (timeouts (disp u)) as [|t rest] eqn:El.
  - right. eexists. split; [reflexivity|]. unfold finished, due. cbn. rewrite El. split_and!; [done|done|].
    split; [by rewrite El|]. by exists tr.
  - destruct (expired (disp u) t) eqn:Et.
    + left. assert (Hr : in_order rest) by by inversion Ho. rewrite (head_due _ t rest El Et) in *. cbn [length].
      set (u1 := set_disp (set_timeouts rest (disp u)) u). assert (E1 : disp u1 = set_timeouts rest (disp u)) by apply disp_set.
      destruct (call_ok u1 (func t) (what t)) as (u' & E & Ho' & Hl); [by rewrite E1|]. rewrite E, bind_ret. exists u'. split; [done|].
      rewrite E1 in Hl. split; [|lia]. split; [done|]. exists (tr ++ [timer_key t]). split; [by eapply calls_snoc|].
      intros Hk. rewrite (Htr Hk), (Hk _ _ _ _ E), E1. cbn. by rewrite <- app_assoc.
    + right. eexists. split; [reflexivity|]. unfold finished. cbn. rewrite El in *. split_and!; [done| |].
      * eapply head_not_due; [done| |done]. by rewrite El.
      * split; [by rewrite El|]. by exists tr.
Qed.

(** C40: Played back from a trace, [process_outstanding_timeouts] returns as
    long as the functions it calls schedule nothing that is due at once: it
    calls the due timeouts one after the other, earliest first, until none is
    due, and returns the time of the first one that is left.  With functions
    that leave the timeouts alone these are exactly the due ones, in order. *)
Theorem process_outstanding_timeouts_correct fuel s :
  in_order (timeouts (disp s)) -> Z.of_nat (length (due (disp s))) < 2 ^ Z.of_nat fuel ->
  exists s' tr, process_outstanding_timeouts disp set_disp call fuel s = Done (s', when <$> head (timeouts (disp s'))) /\
    calls s tr s' /\ due (disp s') = [] /\ in_order (timeouts (disp s')) /\
    (keeps_timers -> tr = timer_key <$> due (disp s)).
Proof.
  intros Ho Hf. destruct (while_total _ _ _ _ (process_step_ok s) fuel s) as ([s' r] & E & Hr & Hd & Ho' & tr & Ht & Htr); [|done|].
  { split; [done|]. exists []. split; [constructor|done]. }
  cbn in *. exists s', tr. split_and!; [by rewrite <- Hr|done|done|done|]. intros Hk. by rewrite (Htr Hk), Hd, app_nil_r.
Qed.

(** When the timer of a timeout expires, its function is called with its
    argument, after the timeout has been taken off the list. *)
Lemma isclib_timer_callback_correct now s t : NoDup (block <$> timeouts (disp s)) -> t ∈ timeouts (disp s) ->
  exists a b, timeouts (disp s) = a ++ t :: b /\
    isclib_timer_callback disp set_disp call now (block t) s =
    (s' ← call (set_disp (mk_dispatcher now (a ++ b)) (set_disp (mk_dispatcher now (timeouts (disp s))) s)) (func t) (what t); Done (true, s')).
Proof.
  intros Nb Ht. apply list_elem_of_split in Ht as (a & b & E). exists a, b. split; [done|].
  unfold isclib_timer_callback. rewrite !disp_set. cbn [timeouts]. rewrite E, take_out_app; [done| |by apply bool_decide_eq_true].
  rewrite E, fmap_app, fmap_cons in Nb. apply NoDup_app in Nb as (_ & Nb & _). apply Forall_forall. intros u Hu.
  apply bool_decide_eq_false. intros Eu. apply (Nb (block u)); [by apply list_elem_of_fmap_2|]. rewrite Eu. by left.
Qed.
End runs.

(** ** Two timeouts *)
Definition sample_dispatcher : dispatcher :=
  mk_dispatcher (mk_tv 100 500000)
    [mk_timeout 1 (mk_tv 90 0) (Some 3%nat) 7 None; mk_timeout 2 (mk_tv 200 0) (Some 3%nat) 8 None].

Lemma process_outstanding_timeouts_correct_witness :
  exists d' r, process_outstanding_timeouts (fun d => d) (fun d _ => d) (fun d _ _ => Done d) 1 sample_dispatcher = Done (d', r) /\ due d' = [].
Proof.
  destruct (process_outstanding_timeouts_correct (fun d => d) (fun d _ => d) (fun d _ _ => Done d)) with (fuel := 1%nat) (s := sample_dispatcher)
    as (d' & tr & E & _ & Hd & _).
  - done.
  - intros s f a Ho. exists s. done.
  - by repeat constructor.
  - by vm_compute.
  - exists d'. eexists. split; [exact E|exact Hd].
Defined.
