(* ===== verification/Name.v ===== *)
(** * Domain names (common/ns_name.c)

    The conversion of domain names between text and counted labels, and their
    compression in messages: [MRns_name_ntop], [MRns_name_pton],
    [MRns_name_ntol], [MRns_name_unpack], [MRns_name_pack],
    [MRns_name_uncompress], [MRns_name_compress], [MRns_name_skip], [dn_find]
    and the two functions for lists of names.

    A pointer is an index into the array it points into; a message starts at
    index 0 of its array.  The functions return the destination array with
    their result, because a failed call may have written to it; -1 is an error
    ([errno] is always [EMSGSIZE] and is not modelled). *)

From stdpp Require Import base tactics list numbers.
From S2P Require Import Prelude.

#[local] Open Scope Z_scope.

Definition NS_CMPRSFLGS : Z := 192.
Definition NS_MAXCDNAME : Z := 255.

(** A step that writes to an array and may fail. *)
Abbreviation attempt A := (outcome (list Z * option A)).
Definition ok {A} (dst : list Z) (a : A) : attempt A := Done (dst, Some a).
Definition fail {A} (dst : list Z) : attempt A := Done (dst, None).
Definition and_then {A B} (m : attempt A) (k : list Z -> A -> attempt B) : attempt B :=
  '(dst, r) ← m; match r with Some a => k dst a | None => fail dst end.
Notation "⟨ d , x ⟩ ⇐ m ; k" := (and_then m (fun d x => k))
  (at level 10, d binder, x binder, m at level 100, k at level 200).
(** The value the caller sees. *)
Definition returned (m : attempt Z) : outcome (list Z * Z) := '(dst, r) ← m; Done (dst, default (-1) r).

Definition flagged (n : Z) : bool := negb (Z.land n NS_CMPRSFLGS =? 0).

(** ** Characters *)
Definition special (ch : Z) : bool := existsb (Z.eqb ch) [34; 46; 59; 92; 64; 36].
Definition printable (ch : Z) : bool := (32 <? ch) && (ch <? 127).
Definition mklower (ch : Z) : Z := if (65 <=? ch) && (ch <=? 90) then ch + 32 else ch.
(** [digits] and [strchr (digits, c)] for a character that is not NUL. *)
Definition digit (i : Z) : Z := 48 + i.
Definition digit_index (c : Z) : option Z := if (48 <=? c) && (c <=? 57) then Some (c - 48) else None.

(** ** To text *)
Section ntop.
Context (src : list Z) (eom : Z).

(** Write [t] at [dn] if there is room. *)
Definition emit (dst : list Z) (dn : Z) (t : list Z) : attempt Z :=
  if eom <=? dn + (zlen t - 1) then fail dst else dst ← wrn dst dn t; ok dst (dn + zlen t).

Fixpoint ntop_label (n : nat) (cp : Z) (dst : list Z) (dn : Z) : attempt (Z * Z) :=
  match n with
  | O => ok dst (cp, dn)
  | S n' =>
      c ← rd src cp;
      ⟨dst, dn⟩ ⇐ (if special c then emit dst dn [92; c]
                   else if negb (printable c) then emit dst dn [92; digit (c / 100); digit ((c mod 100) / 10); digit (c mod 10)]
                   else emit dst dn [c]);
      ntop_label n' (cp + 1) dst dn
  end.

Fixpoint ntop_loop (fuel : nat) (d0 cp : Z) (dst : list Z) (dn : Z) : attempt Z :=
  match fuel with
  | O => Running
  | S fuel' =>
      n ← rd src cp;
      if n =? 0 then ok dst dn
      else if flagged n then fail dst
      else
        ⟨dst, dn⟩ ⇐ (if negb (dn =? d0) then emit dst dn [46] else ok dst dn);
        if eom <=? dn + n then fail dst
        else ⟨dst, p⟩ ⇐ ntop_label (Z.to_nat n) (cp + 1) dst dn; ntop_loop fuel' d0 p.1 dst p.2
  end.
End ntop.

(** [src] from index [s0] on, to [dstsiz] characters of [dst] from index [d0]
    on.  Each turn of the loop reads a byte of [src]. *)
Definition MRns_name_ntop (src : list Z) (s0 : Z) (dst : list Z) (d0 dstsiz : Z) : outcome (list Z * Z) :=
  let eom := d0 + dstsiz in
  returned (
    ⟨dst, dn⟩ ⇐ ntop_loop src eom (S (length src)) d0 s0 dst d0;
    ⟨dst, dn⟩ ⇐ (if dn =? d0 then emit eom dst dn [46] else ok dst dn);
    ⟨dst, dn⟩ ⇐ emit eom dst dn [0];
    ok dst (dn - d0)).

(** ** From text *)
Record pton_state := mk_pton {
  p_src : Z;
  p_label : Z;
  p_bp : Z;
  p_escaped : bool;
  p_dst : list Z }.

Section pton.
Context (src : list Z) (d0 eom : Z).

(** A decimal escape: the digit [c] has been read. *)
Definition pton_decimal (s hundreds : Z) : outcome (option (Z * Z)) :=
  c ← rd src s;
  match (if c =? 0 then None else digit_index c) with
  | None => Done None
  | Some t =>
      c ← rd src (s + 1);
      match (if c =? 0 then None else digit_index c) with
      | None => Done None
      | Some u => let n := hundreds * 100 + t * 10 + u in Done (if 255 <? n then None else Some (s + 2, n))
      end
  end.

Definition pton_put (s label bp : Z) (dst : list Z) (c : Z) : outcome (pton_state + list Z * option Z) :=
  if eom <=? bp then Done (inr (dst, None))
  else dst ← wr dst bp (u8 c); Done (inl (mk_pton s label (bp + 1) false dst)).

(** The end of a label: its length is filled in. *)
Definition end_label (label bp : Z) (dst : list Z) : attempt Z :=
  let c := bp - label - 1 in
  if flagged c then fail dst
  else if eom <=? label then fail dst
  else dst ← wr dst label (u8 c); ok dst c.

(** The root label at the end, and the limit of the whole name. *)
Definition end_name (c bp : Z) (ret : Z) (dst : list Z) : attempt Z :=
  ⟨dst, bp⟩ ⇐ (if negb (c =? 0) then if eom <=? bp then fail dst else dst ← wr dst bp 0; ok dst (bp + 1) else ok dst bp);
  if NS_MAXCDNAME <? bp - d0 then fail dst else ok dst ret.

Definition pton_step (st : pton_state) : outcome (pton_state + list Z * option Z) :=
  let '(mk_pton s label bp escaped dst) := st in
  c ← rd src s;
  let s := s + 1 in
  if c =? 0 then
    r ← (⟨dst, c⟩ ⇐ end_label label bp dst; end_name c bp 0 dst);
    Done (inr r)
  else if escaped then
    match digit_index c with
    | Some h => r ← pton_decimal s h; match r with None => Done (inr (dst, None)) | Some (s, n) => pton_put s label bp dst n end
    | None => pton_put s label bp dst c
    end
  else if c =? 92 then Done (inl (mk_pton s label bp true dst))
  else if c =? 46 then
    '(dst, r) ← end_label label bp dst;
    match r with
    | None => Done (inr (dst, None))
    | Some c =>
        next ← rd src s;
        if next =? 0 then r ← end_name c bp 1 dst; Done (inr r)
        else if (c =? 0) || (next =? 46) then Done (inr (dst, None))
        else Done (inl (mk_pton s bp (bp + 1) false dst))
    end
  else pton_put s label bp dst c.
End pton.

(** The text starts at index [s0] of [src]; each turn of the loop reads one of
    its characters. *)
Definition MRns_name_pton (src : list Z) (s0 : Z) (dst : list Z) (d0 dstsiz : Z) : outcome (list Z * Z) :=
  r ← for_loop (S (length src)) 0 (fun _ => pton_step src d0 (d0 + dstsiz)) (mk_pton s0 d0 (d0 + 1) false dst);
  match r with inl _ => Running | inr m => returned (Done m) end.

(** ** To lower case *)
Section ntol.
Context (src : list Z) (eom : Z).

Fixpoint ntol_label (n : nat) (cp : Z) (dst : list Z) (dn : Z) : outcome (list Z) :=
  match n with
  | O => Done dst
  | S n' => c ← rd src cp; dst ← wr dst dn (mklower c); ntol_label n' (cp + 1) dst (dn + 1)
  end.

Fixpoint ntol_loop (fuel : nat) (cp : Z) (dst : list Z) (dn : Z) : attempt Z :=
  match fuel with
  | O => Running
  | S fuel' =>
      n ← rd src cp;
      if n =? 0 then dst ← wr dst dn 0; ok dst (dn + 1)
      else if flagged n then fail dst
      else
        dst ← wr dst dn n;
        let dn := dn + 1 in
        if eom <=? dn + n then fail dst
        else dst ← ntol_label (Z.to_nat n) (cp + 1) dst dn; ntol_loop fuel' (cp + 1 + n) dst (dn + n)
  end.
End ntol.

Definition MRns_name_ntol (src : list Z) (s0 : Z) (dst : list Z) (d0 dstsiz : Z) : outcome (list Z * Z) :=
  let eom := d0 + dstsiz in
  returned (if eom <=? d0 then fail dst
            else ⟨dst, dn⟩ ⇐ ntol_loop src eom (S (length src)) s0 dst d0; ok dst (dn - d0)).

(** ** From a message *)
Record unpack_state := mk_unpack {
  u_srcp : Z;
  u_dstp : Z;
  u_len : Z;
  u_checked : Z;
  u_dst : list Z }.

Definition unpack_step (msg : list Z) (eom src dstlim : Z) (st : unpack_state) : outcome (unpack_state + list Z * option Z) :=
  let '(mk_unpack srcp dstp len checked dst) := st in
  n ← rd msg srcp;
  let srcp := srcp + 1 in
  if n =? 0 then
    dst ← wr dst dstp 0;
    Done (inr (dst, Some (if len <? 0 then srcp - src else len)))
  else if Z.land n NS_CMPRSFLGS =? 0 then
    if (dstlim <=? dstp + n + 1) || (eom <=? srcp + n) then Done (inr (dst, None))
    else
      l ← rdn msg srcp n;
      dst ← wr dst dstp n;
      dst ← wrn dst (dstp + 1) l;
      Done (inl (mk_unpack (srcp + n) (dstp + 1 + n) len (checked + (n + 1)) dst))
  else if Z.land n NS_CMPRSFLGS =? NS_CMPRSFLGS then
    if eom <=? srcp then Done (inr (dst, None))
    else
      lo ← rd msg srcp;
      let len := if len <? 0 then srcp - src + 1 else len in
      let srcp := Z.lor (Z.shiftl (Z.land n 63) 8) (Z.land lo 255) in
      if (srcp <? 0) || (eom <=? srcp) then Done (inr (dst, None))
      else
        let checked := checked + 2 in
        if eom <=? checked then Done (inr (dst, None))
        else Done (inl (mk_unpack srcp dstp len checked dst))
  else Done (inr (dst, None)).

(** [eom] is the length of the message.  A turn of the loop fills at least two
    bytes of [dst] or adds two to [checked], which stays below [eom]. *)
Definition MRns_name_unpack (msg : list Z) (eom src : Z) (dst : list Z) (d0 dstsiz : Z) : outcome (list Z * Z) :=
  if (src <? 0) || (eom <=? src) then Done (dst, -1)
  else
    r ← for_loop (S (Z.to_nat (dstsiz + eom))) 0 (fun _ => unpack_step msg eom src (d0 + dstsiz)) (mk_unpack src d0 (-1) 0 dst);
    match r with inl _ => Running | inr m => returned (Done m) end.

Definition MRns_name_uncompress (msg : list Z) (eom src : Z) (dst : list Z) (d0 dstsiz : Z) : outcome (list Z * Z) :=
  '(tmp, n) ← MRns_name_unpack msg eom src (replicate (Z.to_nat NS_MAXCDNAME) 0) 0 NS_MAXCDNAME;
  if n =? -1 then Done (dst, -1)
  else '(dst, r) ← MRns_name_ntop tmp 0 dst d0 dstsiz; Done (dst, if r =? -1 then -1 else n).

(** The next position after a name. *)
Fixpoint name_skip (fuel : nat) (msg : list Z) (eom cp : Z) : outcome (option Z) :=
  match fuel with
  | O => Running
  | S fuel' =>
      if eom <=? cp then Done (Some cp)
      else
        n ← rd msg cp;
        let cp := cp + 1 in
        if n =? 0 then Done (Some cp)
        else if Z.land n NS_CMPRSFLGS =? 0 then name_skip fuel' msg eom (cp + n)
        else if Z.land n NS_CMPRSFLGS =? NS_CMPRSFLGS then Done (Some (cp + 1))
        else Done None
  end.
Definition MRns_name_skip (msg : list Z) (ptr eom : Z) : outcome (Z * Z) :=
  r ← name_skip (S (length msg)) msg eom ptr;
  match r with
  | None => Done (-1, ptr)
  | Some cp => if eom <? cp then Done (-1, ptr) else Done (0, cp)
  end.

(** ** To a message *)

(** Whether the name at [dn] of [domain] is the one at [cp] of the message,
    upper and lower case being the same. *)
Section find.
Context (domain msg : list Z).

Fixpoint same_label (n : nat) (dn cp : Z) : outcome bool :=
  match n with
  | O => Done true
  | S n' => a ← rd domain dn; b ← rd msg cp; if mklower a =? mklower b then same_label n' (dn + 1) (cp + 1) else Done false
  end.

(** [Some true]: found; [Some false]: go on with the next name; [None]: an
    illegal label. *)
Fixpoint same_name (fuel : nat) (dn cp : Z) : outcome (option bool) :=
  match fuel with
  | O => Running
  | S fuel' =>
      n ← rd msg cp;
      let cp := cp + 1 in
      if n =? 0 then Done (Some false)
      else if Z.land n NS_CMPRSFLGS =? 0 then
        d ← rd domain dn;
        if negb (n =? d) then Done (Some false)
        else
          same ← same_label (Z.to_nat n) (dn + 1) cp;
          if negb same then Done (Some false)
          else
            let dn := dn + 1 + n in
            let cp := cp + n in
            d ← rd domain dn;
            if d =? 0 then m ← rd msg cp; Done (Some (m =? 0)) else same_name fuel' dn cp
      else if Z.land n NS_CMPRSFLGS =? NS_CMPRSFLGS then
        lo ← rd msg cp; same_name fuel' dn (Z.lor (Z.shiftl (Z.land n 63) 8) lo)
      else Done None
  end.

(** [dnptrs] are the names to search. *)
Fixpoint dn_find (dnptrs : list Z) (dn : Z) : outcome Z :=
  match dnptrs with
  | [] => Done (-1)
  | sp :: r =>
      found ← same_name (S (length msg)) dn sp;
      match found with
      | None => Done (-1)
      | Some true => Done sp
      | Some false => dn_find r dn
      end
  end.
End find.

(** The length of a name without pointers, root included. *)
Fixpoint legal (fuel : nat) (src : list Z) (srcp l : Z) : outcome bool :=
  match fuel with
  | O => Running
  | S fuel' =>
      n ← rd src srcp;
      if flagged n then Done false
      else
        let l := l + (n + 1) in
        if NS_MAXCDNAME <? l then Done false
        else if n =? 0 then Done true else legal fuel' src (srcp + (n + 1)) l
  end.

(** [dnptrs]: the positions of earlier names in the array, if names are
    compressed at all.  [searched] are those of them that were there at the
    start; [room] is the number of pointers that the array can hold. *)
Fixpoint pack_loop (fuel : nat) (src : list Z) (room eob : Z) (searched : list Z)
    (srcp : Z) (dst : list Z) (dstp : Z) (dnptrs : option (list Z)) : outcome (list Z * option Z * option (list Z)) :=
  let failed := Done (dst, None, fmap (fun _ => searched) dnptrs) in
  match fuel with
  | O => Running
  | S fuel' =>
      n ← rd src srcp;
      l ← (match dnptrs with
           | Some _ => if n =? 0 then Done (-1) else dn_find src dst searched srcp
           | None => Done (-1)
           end);
      if 0 <=? l then
        if eob <=? dstp + 1 then failed
        else
          dst ← wr dst dstp (u8 (Z.lor (Z.shiftr l 8) NS_CMPRSFLGS));
          dst ← wr dst (dstp + 1) (l mod 256);
          Done (dst, Some (dstp + 2), dnptrs)
      else
        let dnptrs := match dnptrs with
                      | Some ps => Some (if negb (n =? 0) && (zlen ps <? room) && (dstp <? 16384) then ps ++ [dstp] else ps)
                      | None => None
                      end in
        if flagged n then failed
        else if eob <=? dstp + 1 + n then failed
        else
          bytes ← rdn src srcp (n + 1);
          dst ← wrn dst dstp bytes;
          if n =? 0 then Done (dst, Some (dstp + 1), dnptrs)
          else pack_loop fuel' src room eob searched (srcp + (n + 1)) dst (dstp + (n + 1)) dnptrs
  end.

(** The message is the array [dst] from index 0 on; the name goes to [d0]. *)
Definition MRns_name_pack (src dst : list Z) (d0 dstsiz : Z) (dnptrs : option (list Z)) (room : Z)
    : outcome (list Z * Z * option (list Z)) :=
  legal ← legal (S (length src)) src 0 0;
  if negb legal then Done (dst, -1, dnptrs)
  else
    '(dst, r, ps) ← pack_loop (S (length src)) src room (d0 + dstsiz) (default [] dnptrs) 0 dst d0 dnptrs;
    Done (dst, match r with Some dstp => dstp - d0 | None => -1 end, ps).

Definition MRns_name_compress (src : list Z) (s0 : Z) (dst : list Z) (d0 dstsiz : Z) (dnptrs : option (list Z)) (room : Z)
    : outcome (list Z * Z * option (list Z)) :=
  '(tmp, r) ← MRns_name_pton src s0 (replicate (Z.to_nat NS_MAXCDNAME) 0) 0 NS_MAXCDNAME;
  if r =? -1 then Done (dst, -1, dnptrs) else MRns_name_pack tmp dst d0 dstsiz dnptrs room.

(** ** Lists of names *)

(** The number of characters before the first one of [stop] ([strlen],
    [strchr]). *)
Fixpoint span (stop : Z -> bool) (l : list Z) : outcome Z :=
  match l with
  | [] => Fault
  | c :: r => if stop c then Done 0 else n ← span stop r; Done (n + 1)
  end.
Definition strlen (l : list Z) (i : Z) : outcome Z := span (Z.eqb 0) (drop (Z.to_nat i) l).
Definition upto_comma (l : list Z) (i : Z) : outcome Z := span (fun c => (c =? 0) || (c =? 44)) (drop (Z.to_nat i) l).

Record list_state := mk_list {
  l_src : Z;
  l_dst : Z;
  l_remaining : Z;
  l_first : bool;
  l_buf : list Z }.

Definition uncompress_step (buf : list Z) (buflen : Z) (st : list_state) : outcome (list_state + list Z * option Z) :=
  let '(mk_list src dst remaining first out) := st in
  if negb (src <? buflen) then Done (inr (out, Some dst))
  else if remaining <=? 0 then Done (inr (out, None))
  else
    '(dst, remaining, out) ← (if first then Done (dst, remaining, out)
                              else out ← wr out dst 44; out ← wr out (dst + 1) 0; Done (dst + 1, remaining - 1, out));
    '(out, consumed) ← MRns_name_uncompress buf buflen src out dst remaining;
    if consumed <? 0 then Done (inr (out, None))
    else
      added ← strlen out dst;
      let dst := dst + added in
      let st := mk_list (src + consumed) dst (remaining - added) false out in
      if 0 <? consumed then Done (inl st) else Done (inr (out, Some dst)).

(** The destination starts at [d0]. *)
Definition MRns_name_uncompress_list (buf : list Z) (buflen : Z) (out : list Z) (d0 dst_size : Z) : outcome (list Z * Z) :=
  nothing ← (if buflen =? 0 then Done true else b ← rd buf 0; Done (b =? 0));
  if nothing : bool then out ← wr out d0 0; Done (out, 0)
  else
    r ← for_loop (S (Z.to_nat buflen)) 0 (fun _ => uncompress_step buf buflen) (mk_list 0 d0 dst_size true out);
    match r with
    | inl _ => Running
    | inr (out, None) => Done (out, -1)
    | inr (out, Some dst) => out ← wr out dst 0; n ← strlen out d0; Done (out, n)
    end.

Record comp_state := mk_comp {
  c_src : Z;
  c_clen : Z;
  c_out : list Z;
  c_ptrs : option (list Z) }.

Definition compress_step (buf : list Z) (src_end size : Z) (st : comp_state) : outcome (comp_state + list Z * option Z) :=
  let '(mk_comp src clen out ptrs) := st in
  if negb (src <? src_end) then Done (inr (out, Some clen))
  else
    copylen ← upto_comma buf src;
    if NS_MAXCDNAME - 1 <? copylen then Done (inr (out, None))
    else
      name ← rdn buf src copylen;
      '(out, result, ptrs) ← MRns_name_compress (name ++ [0]) 0 out clen (size - clen) ptrs 253;
      if result <? 0 then Done (inr (out, None)) else Done (inl (mk_comp (src + (copylen + 1)) (clen + result) out ptrs)).

(** The array of pointers has 256 elements: the message, at most 253 names, the
    end mark, and one that is not used. *)
Definition MRns_name_compress_list (buf : list Z) (buflen : Z) (compbuf : list Z) (size : Z) : outcome (list Z * Z) :=
  compbuf ← wrn compbuf 0 (replicate (Z.to_nat size) 0);
  r ← for_loop (S (Z.to_nat buflen)) 0 (fun _ => compress_step buf buflen size) (mk_comp 0 0 compbuf (Some []));
  match r with inl _ => Running | inr m => returned (Done m) end.
