(* ===== verification/NameOk.v ===== *)
(** * Domain names: what the functions compute

    A name is a list of labels; [wire] is its form in a message without
    compression, [text] its printed form, [name_at] says which name a message
    has at a place, following pointers. *)

From stdpp Require Import base tactics list numbers.
From S2P Require Import Prelude Array Name.

#[local] Open Scope Z_scope.

(** ** Names *)
Abbreviation label := (list Z).

Definition label_ok (l : label) : Prop := bytes l /\ 1 <= zlen l <= 63.
(** The labels, without the root. *)
Definition opened (ls : list label) : list Z := ls ≫= fun l => zlen l :: l.
Definition wire (ls : list label) : list Z := opened ls ++ [0].

Definition char_text (c : Z) : list Z :=
  if special c then [92; c]
  else if negb (printable c) then [92; digit (c / 100); digit ((c mod 100) / 10); digit (c mod 10)]
  else [c].
Definition label_text (l : label) : list Z := l ≫= char_text.
Definition tail_text (ls : list label) : list Z := ls ≫= fun l => 46 :: label_text l.
(** The root is printed as a dot. *)
Definition text (ls : list label) : list Z :=
  match ls with [] => [46] | l :: r => label_text l ++ tail_text r end.

Lemma opened_app ls ks : opened (ls ++ ks) = opened ls ++ opened ks.
Proof. apply bind_app. Qed.
Lemma opened_snoc ls l : opened (ls ++ [l]) = opened ls ++ zlen l :: l.
Proof. rewrite opened_app. simpl. by rewrite app_nil_r. Qed.
Lemma char_text_length c : 1 <= zlen (char_text c) <= 4.
Proof. unfold char_text. repeat case_match; unfold zlen; simpl; lia. Qed.
Lemma label_text_length l : zlen l <= zlen (label_text l).
Proof.
  induction l as [|c l IH]; [done|]. unfold label_text in *. cbn [mbind list_bind]. rewrite zlen_app, zlen_cons.
  pose proof (char_text_length c). lia.
Qed.
Lemma label_text_nonempty l : l <> [] -> label_text l <> [].
Proof. intros N E. pose proof (label_text_length l). rewrite E in *. destruct l; [done|]. rewrite zlen_cons in *. pose proof (zlen_nonneg l). change (zlen []) with 0 in *. lia. Qed.

(** Lengths of labels have their two top bits clear. *)
Lemma flagged_small n : 0 <= n < 256 -> flagged n = false <-> n <= 63.
Proof.
  intros Hn. unfold flagged. rewrite negb_false_iff, Z.eqb_eq.
  assert (Hall : Forall (fun k => Z.land k NS_CMPRSFLGS = 0 <-> k <= 63) (seqZ 0 256)) by (apply (bool_decide_unpack _); by vm_compute).
  rewrite Forall_forall in Hall. apply Hall, list_elem_of_In, elem_of_seqZ. lia.
Qed.
Lemma flags_zero n : 0 <= n < 256 -> Z.land n NS_CMPRSFLGS = 0 <-> n <= 63.
Proof. intros Hn. rewrite <- flagged_small by done. unfold flagged. by rewrite negb_false_iff, Z.eqb_eq. Qed.

(** ** Writing one piece after the other *)
Definition grown (dst0 : list Z) (d0 : Z) (t dst : list Z) : Prop := wrn dst0 d0 t = Done dst.

Lemma grown_nil dst0 d0 : 0 <= d0 <= zlen dst0 -> grown dst0 d0 [] dst0.
Proof.
  intros H. unfold grown. rewrite wrn_in by (change (zlen []) with 0; lia). simpl. by rewrite Nat.add_0_r, take_drop.
Qed.
Lemma grown_bounds dst0 d0 t dst : grown dst0 d0 t dst -> 0 <= d0 /\ d0 + zlen t <= zlen dst0 /\ zlen dst = zlen dst0.
Proof.
  intros E. split_and!; [| |by eapply wrn_zlen]; revert E; unfold grown, wrn;
    (destruct (Z.leb_spec 0 d0), (Z.leb_spec (d0 + zlen t) (zlen dst0)); done || lia).
Qed.
Lemma grown_more dst0 d0 t dst x : grown dst0 d0 t dst -> d0 + zlen t + zlen x <= zlen dst0 ->
  exists dst', wrn dst (d0 + zlen t) x = Done dst' /\ grown dst0 d0 (t ++ x) dst'.
Proof.
  intros E Hx. unfold grown in *. rewrite (wrn_wrn _ _ _ _ _ E Hx). destruct (grown_bounds _ _ _ _ E) as (? & ? & _).
  destruct (wrn_ok dst0 d0 (t ++ x)) as [k Ek]; [lia|rewrite zlen_app; lia|]. by exists k.
Qed.
Lemma grown_at dst0 d0 t dst : grown dst0 d0 t dst -> at_ dst d0 t.
Proof. apply rdn_wrn_same. Qed.
Lemma grown_before dst0 d0 t dst o l : grown dst0 d0 t dst -> at_ dst0 o l -> o + zlen l <= d0 -> at_ dst o l.
Proof. intros E Hl Hd. eapply at_other; [exact Hl|exact E|]. by left. Qed.

(** ** Reading from a place *)
Lemma at_cons b o x l : at_ b o (x :: l) <-> rd b o = Done x /\ at_ b (o + 1) l.
Proof.
  unfold at_. change (x :: l) with ([x] ++ l). rewrite rdn_app. change (zlen [x]) with 1. apply and_iff_compat_r.
  unfold rdn, rd. change (Z.to_nat 1) with 1%nat. destruct (Z.leb_spec 0 o), (Z.ltb_spec o 0); simpl; try lia.
  2:{ by split. }
  destruct (Z.leb_spec (o + 1) (zlen b)).
  - destruct (drop (Z.to_nat o) b) as [|y r] eqn:Ed.
    + apply (f_equal length) in Ed. rewrite length_drop in Ed. unfold zlen in *. simpl in Ed. lia.
    + assert (Ey : b !! Z.to_nat o = Some y) by (by rewrite <- (Nat.add_0_r (Z.to_nat o)), <- lookup_drop, Ed). rewrite Ey. simpl. split; intros [= ->]; done.
  - rewrite lookup_ge_None_2 by (unfold zlen in *; lia). by split.
Qed.
Lemma at_app b o l k : at_ b o (l ++ k) <-> at_ b o l /\ at_ b (o + zlen l) k.
Proof. apply rdn_app. Qed.
Lemma at_nil b o : 0 <= o <= zlen b -> at_ b o [].
Proof. intros H. unfold at_. rewrite rdn_in by (change (zlen []) with 0; lia). done. Qed.
Lemma at_label b o l k : at_ b o ((zlen l :: l) ++ k) -> rd b o = Done (zlen l) /\ at_ b (o + 1) l /\ at_ b (o + 1 + zlen l) k.
Proof.
  intros H. apply at_app in H as [H1 H2]. apply at_cons in H1 as [H1 H3]. split_and!; [done|done|].
  rewrite zlen_cons in H2. by replace (o + 1 + zlen l) with (o + (zlen l + 1)) by lia.
Qed.

(** ** To text *)
Lemma and_then_ok {A B} dst (a : A) (k : list Z -> A -> attempt B) : and_then (ok dst a) k = k dst a.
Proof. done. Qed.
Lemma and_then_fail {A B} dst (k : list Z -> A -> attempt B) : and_then (fail dst) k = fail dst.
Proof. done. Qed.

Section to_text.
Context (dst0 : list Z) (d0 eom : Z) (Heom : eom <= zlen dst0).

(** The text [t] has been written, or there was no room for [need]
    characters. *)
Definition wrote {A} (need : Z) (m : attempt A) (t : list Z) (a : A) : Prop :=
  (exists dst, m = ok dst a /\ grown dst0 d0 t dst /\ d0 + zlen t <= eom) \/
  (eom < d0 + need /\ exists t' dst, m = fail dst /\ grown dst0 d0 t' dst).

Lemma wrote_ok {A} need t dst (a : A) : grown dst0 d0 t dst -> d0 + zlen t <= eom -> wrote need (ok dst a) t a.
Proof. left. eauto. Qed.
Lemma wrote_fail {A} need t dst t' (a : A) : grown dst0 d0 t dst -> eom < d0 + need -> wrote need (fail dst) t' a.
Proof. right. eauto. Qed.

Lemma emit_wrote t0 dst t need : grown dst0 d0 t0 dst -> zlen (t0 ++ t) <= need ->
  wrote need (emit eom dst (d0 + zlen t0) t) (t0 ++ t) (d0 + zlen (t0 ++ t)).
Proof.
  intros E. unfold emit. rewrite zlen_app. intros Hn. destruct (Z.leb_spec eom (d0 + zlen t0 + (zlen t - 1))).
  - eapply wrote_fail; [done|lia].
  - destruct (grown_more _ _ _ _ t E) as (dst' & -> & E'); [lia|]. dred. rewrite Z.add_assoc. apply wrote_ok; [done|]. rewrite zlen_app. lia.
Qed.

Lemma wrote_then {A B} need (m : attempt A) t a (k : list Z -> A -> attempt B) t' b :
  wrote need m t a ->
  (forall dst, grown dst0 d0 t dst -> d0 + zlen t <= eom -> wrote need (k dst a) t' b) -> wrote need (and_then m k) t' b.
Proof.
  intros [(dst & -> & E & Hd)|(Hn & t2 & dst & -> & E)] Hk; [by apply Hk|]. rewrite and_then_fail. by eapply wrote_fail.
Qed.

Context (src : list Z).

Lemma ntop_label_wrote l need : forall cp t0 dst, bytes l -> at_ src cp l -> grown dst0 d0 t0 dst -> d0 + zlen t0 <= eom ->
  zlen (t0 ++ label_text l) <= need ->
  wrote need (ntop_label src eom (length l) cp dst (d0 + zlen t0)) (t0 ++ label_text l) (cp + zlen l, d0 + zlen (t0 ++ label_text l)).
Proof.
  induction l as [|c l IH]; intros cp t0 dst Hb Hat E Hd Hn; cbn [ntop_label length].
  - change (label_text []) with (@nil Z). rewrite app_nil_r, Z.add_0_r. by apply wrote_ok.
  - apply at_cons in Hat as [Hc Hat]. rewrite Hc. dred. apply Forall_cons_iff in Hb as [_ Hb].
    change (label_text (c :: l)) with (char_text c ++ label_text l) in *. rewrite app_assoc in *.
    eapply (wrote_then _ _ (t0 ++ char_text c) (d0 + zlen (t0 ++ char_text c))).
    + rewrite (zlen_app (t0 ++ char_text c)) in Hn. pose proof (zlen_nonneg (label_text l)).
      unfold char_text in *. repeat case_match; apply emit_wrote; (done || lia).
    + intros dst' E' Hd'. rewrite zlen_cons. replace (cp + (zlen l + 1)) with (cp + 1 + zlen l) by lia. by apply IH.
Qed.

(** The text of the labels that follow [t0]. *)
Definition dot (t0 : list Z) : list Z := match t0 with [] => [] | _ => [46] end.
Definition joined (t0 : list Z) (ls : list label) : list Z :=
  match t0 with [] => match ls with [] => [] | _ => text ls end | _ => t0 ++ tail_text ls end.

Lemma joined_nil t0 : joined t0 [] = t0.
Proof. destruct t0; simpl; by rewrite ?app_nil_r. Qed.
Lemma joined_cons t0 l ls : l <> [] -> joined (t0 ++ dot t0 ++ label_text l) ls = joined t0 (l :: ls).
Proof.
  intros Hl. pose proof (label_text_nonempty l Hl). destruct t0 as [|x t0]; simpl.
  - by destruct (label_text l).
  - f_equal. rewrite <- app_assoc. by f_equal.
Qed.
Lemma joined_length t0 ls : zlen t0 <= zlen (joined t0 ls).
Proof.
  destruct t0 as [|x t0]; simpl; [rewrite zlen_nil; apply zlen_nonneg|].
  rewrite (zlen_app (x :: t0) (tail_text ls) : zlen (x :: t0 ++ tail_text ls) = _). pose proof (zlen_nonneg (tail_text ls)). lia.
Qed.

Lemma ntop_loop_wrote ls need : forall fuel cp t0 dst,
  (length ls < fuel)%nat -> Forall label_ok ls -> at_ src cp (wire ls) -> grown dst0 d0 t0 dst -> d0 + zlen t0 <= eom ->
  zlen (joined t0 ls) < need ->
  wrote need (ntop_loop src eom fuel d0 cp dst (d0 + zlen t0)) (joined t0 ls) (d0 + zlen (joined t0 ls)).
Proof.
  induction ls as [|l ls IH]; intros [|fuel] cp t0 dst Hf Hls Hat E Hd Hn; simpl in Hf; try lia; cbn [ntop_loop].
  - apply at_cons in Hat as [H0 _]. rewrite H0. dred. simpl. rewrite joined_nil. by apply wrote_ok.
  - apply Forall_cons_iff in Hls as [[Hb Hl] Hls].
    change (wire (l :: ls)) with (((zlen l :: l) ++ opened ls) ++ [0]) in Hat. rewrite <- app_assoc in Hat.
    destruct (at_label _ _ _ _ Hat) as (Hz & Hc & Hr). rewrite Hz. dred.
    destruct (Z.eqb_spec (zlen l) 0); [lia|]. rewrite (proj2 (flagged_small (zlen l) ltac:(lia))) by lia.
    assert (Hne : l <> []) by (intros ->; change (zlen []) with 0 in *; lia).
    rewrite <- joined_cons in Hn |- * by done. pose proof (joined_length (t0 ++ dot t0 ++ label_text l) ls) as Hj.
    pose proof (label_text_length l) as Hll. rewrite app_assoc in *. rewrite (zlen_app (t0 ++ dot t0)) in Hj.
    eapply (wrote_then _ _ (t0 ++ dot t0) (d0 + zlen (t0 ++ dot t0))).
    + destruct t0 as [|x t0].
      * change (@nil Z ++ dot []) with (@nil Z). rewrite zlen_nil, Z.add_0_r, Z.eqb_refl in *. apply wrote_ok; [done|rewrite zlen_nil; lia].
      * destruct (Z.eqb_spec (d0 + zlen (x :: t0)) d0); [rewrite zlen_cons in *; pose proof (zlen_nonneg t0); lia|].
        apply emit_wrote; [done|]. pose proof (zlen_nonneg (label_text l)). change (dot (x :: t0)) with [46] in *. lia.
    + intros dst1 E1 Hd1. destruct (Z.leb_spec eom (d0 + zlen (t0 ++ dot t0) + zlen l)).
      { eapply wrote_fail; [done|lia]. }
      eapply (wrote_then _ _ ((t0 ++ dot t0) ++ label_text l)).
      * replace (Z.to_nat (zlen l)) with (length l) by (unfold zlen; lia). apply ntop_label_wrote; [done|done|done|done|]. rewrite zlen_app. lia.
      * intros dst2 E2 Hd2. simpl fst. simpl snd. apply IH; [lia|done|done|done|done|done].
Qed.
End to_text.

(** The result of [MRns_name_ntop] on a name without pointers: its text and a
    NUL, if there is room for them, and else -1. *)
Lemma ntop_text src s0 ls dst d0 dstsiz :
  Forall label_ok ls -> at_ src s0 (wire ls) -> 0 <= d0 -> 0 <= dstsiz -> d0 + dstsiz <= zlen dst ->
  exists dst', MRns_name_ntop src s0 dst d0 dstsiz = Done (dst', if zlen (text ls) <? dstsiz then zlen (text ls) + 1 else -1) /\
    if zlen (text ls) <? dstsiz then grown dst d0 (text ls ++ [0]) dst' else exists t, grown dst d0 t dst'.
Proof.
  intros Hls Hat Hd Hs Hroom. unfold MRns_name_ntop, returned. set (need := zlen (text ls) + 1).
  assert (Hlen : zlen (text ls ++ [0]) = need) by (rewrite zlen_app; done).
  assert (Hw : wrote dst d0 (d0 + dstsiz) need
    (⟨dst, dn⟩ ⇐ ntop_loop src (d0 + dstsiz) (S (length src)) d0 s0 dst d0;
     ⟨dst, dn⟩ ⇐ (if dn =? d0 then emit (d0 + dstsiz) dst dn [46] else ok dst dn);
     ⟨dst, dn⟩ ⇐ emit (d0 + dstsiz) dst dn [0]; ok dst (dn - d0)) (text ls ++ [0]) need).
  { eapply (wrote_then _ _ _ _ _ (joined [] ls)).
    - pose proof (ntop_loop_wrote dst d0 (d0 + dstsiz) Hroom src ls need (S (length src)) s0 [] dst) as H.
      rewrite zlen_nil, Z.add_0_r in H. apply H; [|done|done|apply grown_nil; lia|lia|].
      + apply at_bounds in Hat. assert (Z.of_nat (length ls) <= zlen (opened ls)).
        { clear. induction ls as [|l ls IH]; [done|]. change (opened (l :: ls)) with ((zlen l :: l) ++ opened ls). rewrite zlen_app, zlen_cons.
          pose proof (zlen_nonneg l). simpl. lia. }
        unfold wire in Hat. rewrite zlen_app in Hat. unfold zlen in *. lia.
      + unfold need. destruct ls as [|l ls]; [done|]. change (joined [] (l :: ls)) with (text (l :: ls)). lia.
    - intros dst1 E1 Hd1. eapply (wrote_then _ _ _ _ _ (text ls) (d0 + zlen (text ls))).
      + destruct ls as [|l ls].
        * simpl joined in *. rewrite zlen_nil, Z.add_0_r, Z.eqb_refl.
          pose proof (emit_wrote dst d0 (d0 + dstsiz) Hroom [] dst1 [46] need E1) as H. rewrite zlen_nil, Z.add_0_r in H. apply H. simpl in *. lia.
        * change (joined [] (l :: ls)) with (text (l :: ls)) in *. destruct (Z.eqb_spec (d0 + zlen (text (l :: ls))) d0) as [Hz|]; [|by apply wrote_ok].
          exfalso. apply Forall_cons_iff in Hls as [[_ Hl] _]. pose proof (label_text_length l). simpl in Hz. rewrite zlen_app in Hz.
          pose proof (zlen_nonneg (tail_text ls)). lia.
      + intros dst2 E2 Hd2. eapply (wrote_then _ _ _ _ _ (text ls ++ [0])).
        * apply emit_wrote; [done|done|lia].
        * intros dst3 E3 Hd3. replace (d0 + zlen (text ls ++ [0]) - d0) with need by lia. by apply wrote_ok. }
  destruct Hw as [(dst' & -> & E & Hf)|(Hf & t' & dst' & -> & E)]; dred; exists dst'.
  - rewrite Hlen in Hf. rewrite (proj2 (Z.ltb_lt _ _)) by lia. by split.
  - rewrite (proj2 (Z.ltb_ge _ _)) by lia. split; [done|]. eauto.
Qed.

(** ** From text

    The reference: one pass over the characters before the NUL, without
    buffers.  [cur] is the label that is being read, [done] are those before
    it; the number says whether the name ended in a dot. *)
Definition closed (cur : label) (done : list label) : list label := done ++ match cur with [] => [] | _ => [cur] end.

Fixpoint scan (s : list Z) (escaped : bool) (cur : label) (done : list label) : option (Z * list label) :=
  match s with
  | [] => Some (0, closed cur done)
  | c :: r =>
      if escaped then
        match digit_index c with
        | None => scan r false (cur ++ [c]) done
        | Some h =>
            match r with
            | c1 :: c2 :: r' =>
                match digit_index c1, digit_index c2 with
                | Some t, Some u => let n := h * 100 + t * 10 + u in if 255 <? n then None else scan r' false (cur ++ [n]) done
                | _, _ => None
                end
            | _ => None
            end
        end
      else if c =? 92 then scan r true cur done
      else if c =? 46 then
        match r with
        | [] => Some (1, closed cur done)
        | n :: _ => if bool_decide (cur = []) || (n =? 46) then None else scan r false [] (done ++ [cur])
        end
      else scan r false (cur ++ [c]) done
  end.

(** Labels and names must not be too long. *)
Definition name_of_text (s : list Z) : option (Z * list label) :=
  '(ret, ls) ← scan s false [] [];
  if bool_decide (Forall (fun l => zlen l <= 63) ls /\ zlen (wire ls) <= NS_MAXCDNAME) then Some (ret, ls) else None.

(** What has been read stays. *)
Lemma scan_grows n : forall s escaped cur done ret ls, (length s < n)%nat -> scan s escaped cur done = Some (ret, ls) ->
  exists rest, ls = done ++ rest /\ (cur <> [] -> exists x rest', rest = (cur ++ x) :: rest').
Proof.
  assert (Hput : forall (cur : label) x (done ls : list label) rest, ls = done ++ rest /\ (cur ++ [x] <> [] -> exists y rest', rest = ((cur ++ [x]) ++ y) :: rest') ->
    exists rest, ls = done ++ rest /\ (cur <> [] -> exists y rest', rest = (cur ++ y) :: rest')).
  { intros cur x done ls rest [-> H]. exists rest. split; [done|]. intros _. destruct H as (y & rest' & ->); [by destruct cur|].
    exists ([x] ++ y), rest'. by rewrite <- app_assoc. }
  induction n as [|n IH]; intros s escaped cur done ret ls Hn E; [lia|]. destruct s as [|c r]; simpl in Hn, E.
  - injection E as <- <-. unfold closed. eexists. split; [done|]. intros N. destruct cur as [|x cur]; [done|].
    exists [], []. by rewrite app_nil_r.
  - destruct escaped.
    + destruct (digit_index c) as [h|].
      * destruct r as [|c1 [|c2 r']]; [done..|]. destruct (digit_index c1) as [t|], (digit_index c2) as [u|]; try done.
        case_match; [done|]. apply IH in E as (rest & HE); [|simpl in Hn; lia]. by eapply Hput.
      * apply IH in E as (rest & HE); [|lia]. by eapply Hput.
    + case_match; [by eapply IH; [|exact E]; lia|]. case_match.
      * destruct r as [|c1 r].
        -- injection E as <- <-. unfold closed. eexists. split; [done|]. intros N. destruct cur as [|x cur]; [done|].
           exists [], []. by rewrite app_nil_r.
        -- case_match; [done|]. apply IH in E as (rest & -> & _); [|lia]. exists (cur :: rest). rewrite <- app_assoc. split; [done|].
           intros _. exists [], rest. by rewrite app_nil_r.
      * apply IH in E as (rest & HE); [|lia]. by eapply Hput.
Qed.

Lemma opened_length_app (ls ks : list label) : zlen (opened (ls ++ ks)) = zlen (opened ls) + zlen (opened ks).
Proof. by rewrite opened_app, zlen_app. Qed.
Lemma opened_cons l ls : zlen (opened (l :: ls)) = 1 + zlen l + zlen (opened ls).
Proof. change (opened (l :: ls)) with ((zlen l :: l) ++ opened ls). rewrite zlen_app, zlen_cons. lia. Qed.
Lemma name_wire_length ls : zlen (wire ls) = zlen (opened ls) + 1.
Proof. unfold wire. by rewrite zlen_app. Qed.

Lemma scan_length s escaped cur done ret ls : scan s escaped cur done = Some (ret, ls) -> cur <> [] ->
  zlen (opened done) + zlen cur + 2 <= zlen (wire ls).
Proof.
  intros E N. destruct (scan_grows (S (length s)) s escaped cur done ret ls) as (rest & -> & Hc); [lia|done|].
  destruct (Hc N) as (x & rest' & ->). rewrite name_wire_length, opened_length_app, opened_cons, zlen_app.
  pose proof (zlen_nonneg x). pose proof (zlen_nonneg (opened rest')). lia.
Qed.

Section from_text.
Context (src : list Z) (d0 dstsiz : Z) (dst0 : list Z).
Context (Hd0 : 0 <= d0) (Hsize : 0 <= dstsiz) (Hroom : d0 + dstsiz <= zlen dst0).

Definition small (ls : list label) : Prop := Forall (fun l => zlen l <= 63) ls.

(** The array after [done] and [cur] have been read; the length of the label
    [cur] is still to be filled in. *)
Record reading (cur : label) (done : list label) (label bp : Z) (dst : list Z) : Prop := {
  rg_label : label = d0 + zlen (opened done);
  rg_bp : bp = label + 1 + zlen cur;
  rg_size : zlen dst = zlen dst0;
  rg_room : label <= d0 + dstsiz /\ (cur <> [] -> bp <= d0 + dstsiz);
  rg_checked : Forall (fun l => flagged (zlen l) = false) done;
  rg_done : small done -> at_ dst d0 (opened done);
  rg_cur : cur <> [] -> at_ dst (label + 1) cur }.

(** What the caller gets for a scanned name. *)
Definition result (o : option (Z * list label)) (dst : list Z) (r : option Z) : Prop :=
  zlen dst = zlen dst0 /\
  match r with
  | Some ret => exists ls, o = Some (ret, ls) /\ small ls /\ zlen (wire ls) <= NS_MAXCDNAME /\ zlen (wire ls) <= dstsiz /\ at_ dst d0 (wire ls)
  | None => forall ret ls, o = Some (ret, ls) -> ~ (small ls /\ zlen (wire ls) <= NS_MAXCDNAME /\ zlen (wire ls) <= dstsiz)
  end.

Lemma wr_grown (dst : list Z) p (x : Z) : 0 <= p < zlen dst -> exists dst', wr dst p x = Done dst' /\ wrn dst p [x] = Done dst' /\ zlen dst' = zlen dst.
Proof.
  intros H. destruct (wrn_ok dst p [x]) as [k E]; [lia|change (zlen [x]) with 1; lia|]. exists k.
  rewrite wr_wrn. split_and!; [done|done|by eapply wrn_zlen].
Qed.

Lemma flagged_long n : 0 <= n -> flagged n = true -> 63 < n.
Proof. intros H E. destruct (decide (n < 256)); [|lia]. destruct (decide (n <= 63)); [|lia]. apply flagged_small in l0; [congruence|lia]. Qed.

(** The length of the label is filled in, or the name has no result. *)
Lemma end_label_ok cur done label bp dst : bytes cur -> reading cur done label bp dst ->
  exists dst', zlen dst' = zlen dst0 /\
    ((end_label (d0 + dstsiz) label bp dst = ok dst' (zlen cur) /\ label < d0 + dstsiz /\ flagged (zlen cur) = false /\
       (small (done ++ [cur]) -> at_ dst' d0 (opened done ++ zlen cur :: cur))) \/
     (end_label (d0 + dstsiz) label bp dst = fail dst' /\ (63 < zlen cur \/ (cur = [] /\ label = d0 + dstsiz)))).
Proof.
  intros Hb [Hl Hbp Hz [Hr1 Hr2] _ Hdone Hcur]. unfold end_label. replace (bp - label - 1) with (zlen cur) by lia.
  pose proof (zlen_nonneg cur). pose proof (zlen_nonneg (opened done)).
  destruct (flagged (zlen cur)) eqn:Ef.
  { exists dst. split; [done|]. right. split; [done|]. left. by apply flagged_long. }
  destruct (Z.leb_spec (d0 + dstsiz) label).
  { exists dst. split; [done|]. right. split; [done|]. right. assert (cur = []) as ->; [|split; [done|lia]].
    destruct cur; [done|]. specialize (Hr2 ltac:(done)). rewrite zlen_cons in *. pose proof (zlen_nonneg cur). lia. }
  destruct (wr_grown dst label (u8 (zlen cur))) as (dst' & -> & E & Hz'); [lia|]. dred. exists dst'. split; [lia|]. left.
  split_and!; [done|lia|done|]. intros Hs. apply Forall_app in Hs as [Hs Hc]. apply Forall_cons_iff in Hc as [Hc _].
  rewrite u8_byte in E by (unfold byte; lia). apply at_app. split.
  { eapply at_other; [by apply Hdone|exact E|]. left. lia. }
  rewrite <- Hl. change (zlen cur :: cur) with ([zlen cur] ++ cur). apply at_app. split; [by eapply rdn_wrn_same|].
  change (zlen [zlen cur]) with 1. destruct cur as [|x cur]; [apply at_nil; lia|].
  eapply at_other; [by apply Hcur|exact E|]. right. change (zlen [zlen (x :: cur)]) with 1. lia.
Qed.

Lemma closed_nil done : closed [] done = done.
Proof. apply app_nil_r. Qed.
Lemma closed_cons cur done : cur <> [] -> closed cur done = done ++ [cur].
Proof. by destruct cur. Qed.
Lemma wire_snoc cur done : zlen (wire (done ++ [cur])) = zlen (opened done) + zlen cur + 2.
Proof. rewrite name_wire_length, opened_length_app, opened_cons. change (opened []) with (@nil Z). rewrite zlen_nil. lia. Qed.
(** In a name that is not too long, the test of the flags finds all labels
    that are. *)
Lemma checked_small ls : Forall (fun l => flagged (zlen l) = false) ls -> zlen (wire ls) <= NS_MAXCDNAME -> small ls.
Proof.
  unfold NS_MAXCDNAME. intros H Hw. rewrite name_wire_length in Hw. induction H as [|l ls Hl _ IH]; [constructor|].
  rewrite opened_cons in Hw. pose proof (zlen_nonneg l). pose proof (zlen_nonneg (opened ls)).
  constructor; [|apply IH; lia]. apply flagged_small in Hl; lia.
Qed.
Lemma closed_small cur done : small (closed cur done) -> small (done ++ [cur]).
Proof.
  intros H. apply Forall_app in H as [H1 H2]. apply Forall_app. split; [done|]. destruct cur; [|done]. by constructor.
Qed.

Lemma finish_ok ret cur done label bp dst : bytes cur -> reading cur done label bp dst ->
  exists dst' r, (⟨dst, c⟩ ⇐ end_label (d0 + dstsiz) label bp dst; end_name d0 (d0 + dstsiz) c bp ret dst) = Done (dst', r) /\
    result (Some (ret, closed cur done)) dst' r.
Proof.
  intros Hb Hrd. destruct (end_label_ok cur done label bp dst Hb Hrd) as (dst1 & Hz1 & [(-> & Hlt & Hf & Hc)|(-> & Hc)]).
  2:{ rewrite and_then_fail. exists dst1, None. split; [done|]. split; [done|]. intros ret' ls [= <- <-] (Hs & _ & Hfit).
      destruct Hc as [Hc|[-> Hc]].
      - apply closed_small, Forall_app in Hs as [_ Hs]. apply Forall_cons_iff in Hs as [Hs _]. lia.
      - rewrite closed_nil, name_wire_length in Hfit. destruct Hrd as [Hl _ _ _ _ _ _]. lia. }
  rewrite and_then_ok. unfold end_name. destruct Hrd as [Hl Hbp _ _ Hck _ _]. pose proof (zlen_nonneg (opened done)).
  set (w := zlen (wire (closed cur done))).
  assert (Hend : exists dst2, zlen dst2 = zlen dst0 /\
    ((if negb (zlen cur =? 0) then if d0 + dstsiz <=? bp then fail dst1 else dst ← wr dst1 bp 0; ok dst (bp + 1) else ok dst1 bp) = ok dst2 (d0 + w) /\
      w <= dstsiz /\ (small (closed cur done) -> at_ dst2 d0 (wire (closed cur done))) \/
     (if negb (zlen cur =? 0) then if d0 + dstsiz <=? bp then fail dst1 else dst ← wr dst1 bp 0; ok dst (bp + 1) else ok dst1 bp) = fail dst2 /\
      dstsiz < w)).
  { unfold w. destruct (decide (cur = [])) as [->|N].
    - rewrite zlen_nil in *. simpl negb. cbv iota. exists dst1. split; [done|]. left. rewrite closed_nil, name_wire_length. split_and!; [do 2 f_equal; lia|lia|].
      intros Hs. apply Hc. apply Forall_app. split; [done|by constructor].
    - assert (0 < zlen cur) by (destruct cur; [done|]; rewrite zlen_cons; pose proof (zlen_nonneg cur); lia).
      destruct (Z.eqb_spec (zlen cur) 0); [lia|]. simpl negb. cbv iota. rewrite closed_cons, wire_snoc by done.
      destruct (Z.leb_spec (d0 + dstsiz) bp).
      + exists dst1. split; [done|]. right. split; [done|]. lia.
      + destruct (wr_grown dst1 bp 0) as (dst2 & -> & E & Hz2); [lia|]. dred. exists dst2. split; [lia|].
        left. split_and!; [f_equal; lia|lia|]. intros Hs. unfold wire. rewrite opened_snoc. eapply at_append; [by apply Hc|].
        rewrite <- E. f_equal. rewrite zlen_app, zlen_cons. lia. }
  destruct Hend as (dst2 & Hz2 & [(-> & Hfit & Hat)|(-> & Hfit)]).
  - rewrite and_then_ok. replace (d0 + w - d0) with w by lia. unfold w in *. destruct (Z.ltb_spec NS_MAXCDNAME (zlen (wire (closed cur done)))).
    + exists dst2, None. split; [done|]. split; [done|]. intros ret' ls [= <- <-]. lia.
    + assert (Hs : small (closed cur done)).
      { apply checked_small; [|done]. apply Forall_app. split; [done|]. destruct cur; [done|by constructor]. }
      exists dst2, (Some ret). split; [done|]. split; [done|]. eexists. split_and!; [done|done|done|done|by apply Hat].
  - rewrite and_then_fail. exists dst2, None. split; [done|]. split; [done|]. intros ret' ls [= <- <-]. unfold w in *. lia.
Qed.

Lemma put_ok s cur done label bp dst c : byte c -> reading cur done label bp dst ->
  (exists dst', pton_put (d0 + dstsiz) s label bp dst c = Done (inl (mk_pton s label (bp + 1) false dst')) /\
     reading (cur ++ [c]) done label (bp + 1) dst') \/
  (pton_put (d0 + dstsiz) s label bp dst c = Done (inr (dst, None)) /\ dstsiz <= zlen (opened done) + 1 + zlen cur).
Proof.
  intros Hc [Hl Hbp Hz [Hr1 Hr2] Hck Hdone Hcur]. unfold pton_put. pose proof (zlen_nonneg cur). pose proof (zlen_nonneg (opened done)).
  destruct (Z.leb_spec (d0 + dstsiz) bp); [right; split; [done|lia]|]. left. rewrite u8_byte by done.
  destruct (wr_grown dst bp c) as (dst' & -> & E & Hz'); [lia|]. dred. exists dst'. split; [done|].
  split; [done|rewrite zlen_app; change (zlen [c]) with 1; lia|lia|split; [lia|intros _; lia]|done| |].
  - intros Hs. eapply at_other; [by apply Hdone|exact E|]. left. lia.
  - intros _. apply at_app. split.
    + destruct cur as [|x cur]; [apply at_nil; lia|]. eapply at_other; [by apply Hcur|exact E|]. left. lia.
    + replace (label + 1 + zlen cur) with bp by lia. by eapply rdn_wrn_same.
Qed.

Lemma put_full s escaped cur done c dst : zlen dst = zlen dst0 -> dstsiz <= zlen (opened done) + 1 + zlen cur ->
  result (scan s escaped (cur ++ [c]) done) dst None.
Proof.
  intros Hz Hfull. split; [done|]. intros ret ls E (_ & _ & Hfit). apply scan_length in E; [|by destruct cur].
  rewrite zlen_app in E. change (zlen [c]) with 1 in E. lia.
Qed.

Lemma next_label cur done label bp dst dst' : reading cur done label bp dst -> cur <> [] -> zlen dst' = zlen dst0 ->
  flagged (zlen cur) = false -> (small (done ++ [cur]) -> at_ dst' d0 (opened done ++ zlen cur :: cur)) ->
  reading [] (done ++ [cur]) bp (bp + 1) dst'.
Proof.
  intros [Hl Hbp Hz [Hr1 Hr2] Hck _ _] N Hz' Hf Hc. pose proof (Hr2 N). split.
  - rewrite opened_length_app, opened_cons. change (opened []) with (@nil Z). rewrite zlen_nil. lia.
  - rewrite zlen_nil. lia.
  - done.
  - split; [lia|done].
  - apply Forall_app. split; [done|by constructor].
  - intros Hs. rewrite opened_snoc. by apply Hc.
  - done.
Qed.

(** The characters to read; a byte that is not NUL is no end mark. *)
Definition chars_ok (s : list Z) : Prop := Forall (fun c => byte c /\ c <> 0) s.

Lemma digit_byte c h : digit_index c = Some h -> 0 <= h <= 9.
Proof. unfold digit_index. case_match; [|done]. intros [= <-]. zbool. lia. Qed.
Lemma rd_nonzero s p c r : chars_ok s -> s = c :: r -> at_ src p (s ++ [0]) -> rd src p = Done c /\ c <> 0 /\ byte c /\ at_ src (p + 1) (r ++ [0]) /\ chars_ok r.
Proof. intros Hs -> Hat. simpl in Hat. apply at_cons in Hat as [? ?]. apply Forall_cons_iff in Hs as [[? ?] ?]. done. Qed.

Lemma decimal_ok p r h : chars_ok r -> at_ src p (r ++ [0]) ->
  pton_decimal src p h = Done (match r with
    | c1 :: c2 :: _ => match digit_index c1, digit_index c2 with
                       | Some t, Some u => let n := h * 100 + t * 10 + u in if 255 <? n then None else Some (p + 2, n)
                       | _, _ => None
                       end
    | _ => None
    end).
Proof.
  intros Hr Hat. unfold pton_decimal. destruct r as [|c1 r].
  { apply at_cons in Hat as [-> _]. done. }
  destruct (rd_nonzero _ p c1 r Hr eq_refl Hat) as (-> & N1 & _ & Hat1 & Hr1). dred. rewrite (proj2 (Z.eqb_neq _ _)) by done.
  destruct (digit_index c1) as [t|]; [|by destruct r]. destruct r as [|c2 r].
  { apply at_cons in Hat1 as [-> _]. done. }
  destruct (rd_nonzero _ (p + 1) c2 r Hr1 eq_refl Hat1) as (-> & N2 & _ & _). dred. rewrite (proj2 (Z.eqb_neq _ _)) by done.
  by destruct (digit_index c2).
Qed.

(** The loop computes what [scan] does. *)
Lemma pton_run n : forall i s p escaped cur done label bp dst,
  (length s < n)%nat -> chars_ok s -> bytes cur -> at_ src p (s ++ [0]) -> reading cur done label bp dst ->
  exists dst' r, for_loop n i (fun _ => pton_step src d0 (d0 + dstsiz)) (mk_pton p label bp escaped dst) = Done (inr (dst', r)) /\
    result (scan s escaped cur done) dst' r.
Proof.
  induction n as [|n IH]; intros i s p escaped cur done label bp dst Hn Hs Hb Hat Hrd; [lia|]. cbn [for_loop].
  assert (Hput : forall s' p' c, (length s' < n)%nat -> chars_ok s' -> byte c -> at_ src p' (s' ++ [0]) ->
    exists dst' r, (x ← pton_put (d0 + dstsiz) p' label bp dst c;
      match x with inl t => for_loop n (i + 1) (fun _ => pton_step src d0 (d0 + dstsiz)) t | inr q => Done (inr q) end) = Done (inr (dst', r)) /\
      result (scan s' false (cur ++ [c]) done) dst' r).
  { intros s' p' c Hn' Hs' Hc Hat'. destruct (put_ok p' cur done label bp dst c Hc Hrd) as [(dst' & -> & Hrd')|[-> Hfull]]; dred.
    - apply IH; [done|done| |done|done]. apply Forall_app. split; [done|by constructor].
    - exists dst, None. split; [done|]. apply put_full; [apply Hrd|done]. }
  set (loop := for_loop n (i + 1) (fun _ => pton_step src d0 (d0 + dstsiz))) in *.
  unfold pton_step. cbv beta iota zeta. destruct s as [|c s].
  - apply at_cons in Hat as [-> _]. dred. simpl. destruct (finish_ok 0 cur done label bp dst Hb Hrd) as (dst' & r & E & Hres).
    exists dst', r. split; [|done]. by rewrite E.
  - destruct (rd_nonzero _ p c s Hs eq_refl Hat) as (-> & N & Hc & Hat1 & Hs1). dred. rewrite (proj2 (Z.eqb_neq c 0)) by done. simpl in Hn. cbn [scan].
    destruct escaped.
    + destruct (digit_index c) as [h|] eqn:Eh; [|apply Hput; (done || lia)].
      rewrite (decimal_ok _ s h Hs1 Hat1). dred. destruct s as [|c1 [|c2 s]]; [by exists dst, None; split; [|split; [apply Hrd|]]..|].
      destruct (rd_nonzero _ _ c1 _ Hs1 eq_refl Hat1) as (_ & _ & _ & Hat2 & Hs2).
      destruct (rd_nonzero _ _ c2 _ Hs2 eq_refl Hat2) as (_ & _ & _ & Hat3 & Hs3).
      destruct (digit_index c1) as [t|] eqn:Et; [|by exists dst, None; split; [|split; [apply Hrd|]]].
      destruct (digit_index c2) as [u|] eqn:Eu; [|by exists dst, None; split; [|split; [apply Hrd|]]]. cbv zeta.
      destruct (Z.ltb_spec 255 (h * 100 + t * 10 + u)); [by exists dst, None; split; [|split; [apply Hrd|]]|].
      apply digit_byte in Eh, Et, Eu. replace (p + 1 + 2) with (p + 1 + 1 + 1) by lia.
      apply Hput; [simpl in Hn; lia|done|unfold byte; lia|done].
    + destruct (Z.eqb_spec c 92); [dred; apply IH; (done || lia)|].
      destruct (Z.eqb_spec c 46); [|apply Hput; (done || lia)].
      destruct s as [|c1 s].
      * apply at_cons in Hat1 as [H0 _]. rewrite H0. destruct (finish_ok 1 cur done label bp dst Hb Hrd) as (dst' & r & E & Hres).
        exists dst', r. split; [|done]. unfold and_then in E. destruct (end_label (d0 + dstsiz) label bp dst) as [[dst1 [c'|]]| | |]; try done; dred; dred_in E.
        -- simpl. by rewrite E.
        -- by injection E as <- <-.
      * destruct (rd_nonzero _ _ c1 _ Hs1 eq_refl Hat1) as (-> & N1 & _ & _).
        destruct (end_label_ok cur done label bp dst Hb Hrd) as (dst1 & Hz1 & [(-> & Hlt & Hf & Hcont)|(-> & Hbad)]); unfold ok, fail; dred.
        -- rewrite (proj2 (Z.eqb_neq c1 0)) by done. destruct (decide (cur = [])) as [->|Nc].
           ++ simpl. exists dst1, None. split; [done|]. by split.
           ++ rewrite (bool_decide_false (cur = [])) by done. rewrite (proj2 (Z.eqb_neq (zlen cur) 0)).
              2:{ destruct cur; [done|]. rewrite zlen_cons. pose proof (zlen_nonneg cur). lia. }
              simpl orb. destruct (c1 =? 46); dred.
              ** exists dst1, None. split; [done|]. by split.
              ** apply IH; [lia|done|by constructor|done|]. by eapply next_label.
        -- exists dst1, None. split; [done|]. split; [done|]. intros ret ls E (Hsm & _ & _).
           case_match; [done|]. zbool. apply bool_decide_eq_false in H. destruct Hbad as [Hlong|[-> _]]; [|done].
           destruct (scan_grows _ _ _ _ _ _ _ (Nat.lt_succ_diag_r _) E) as (rest & -> & _).
           apply Forall_app in Hsm as [Hsm _]. apply Forall_app in Hsm as [_ Hsm]. apply Forall_cons_iff in Hsm as [Hsm _]. lia.
Qed.
End from_text.

Lemma closed_ok cur done : bytes cur -> Forall (fun l => bytes l /\ l <> []) done -> Forall (fun l => bytes l /\ l <> []) (closed cur done).
Proof. intros Hc Hd. apply Forall_app. split; [done|]. destruct cur; [constructor|]. by constructor. Qed.

Lemma scan_ok n : forall s escaped cur done ret ls, (length s < n)%nat -> chars_ok s -> bytes cur -> Forall (fun l => bytes l /\ l <> []) done ->
  scan s escaped cur done = Some (ret, ls) -> (ret = 0 \/ ret = 1) /\ Forall (fun l => bytes l /\ l <> []) ls.
Proof.
  assert (Hsnoc : forall (cur : label) c, bytes cur -> byte c -> bytes (cur ++ [c])) by (intros; apply Forall_app; split; [done|by constructor]).
  induction n as [|n IH]; intros s escaped cur done ret ls Hn Hs Hb Hd E; [lia|]. destruct s as [|c r]; simpl in Hn, E.
  - injection E as <- <-. split; [by left|by apply closed_ok].
  - apply Forall_cons_iff in Hs as [[Hc _] Hs]. destruct escaped.
    + destruct (digit_index c) as [h|] eqn:Eh; [|eapply IH; [|exact Hs| |exact Hd|exact E]; [lia|by apply Hsnoc]].
      destruct r as [|c1 [|c2 r]]; [done..|]. destruct (digit_index c1) as [t|] eqn:Et, (digit_index c2) as [u|] eqn:Eu; try done.
      case_match; [done|]. zbool. apply digit_byte in Eh, Et, Eu. apply Forall_cons_iff in Hs as [_ Hs]. apply Forall_cons_iff in Hs as [_ Hs].
      eapply IH; [|exact Hs| |exact Hd|exact E]; [simpl in Hn; lia|]. apply Hsnoc; [done|]. unfold byte. lia.
    + case_match; [by eapply IH; [|exact Hs|exact Hb|exact Hd|exact E]; lia|]. case_match.
      * destruct r as [|c1 r].
        -- injection E as <- <-. split; [by right|by apply closed_ok].
        -- case_match; [done|]. zbool. apply bool_decide_eq_false in H1. eapply IH; [|exact Hs| | |exact E]; [lia|done|].
           apply Forall_app. split; [done|by constructor].
      * eapply IH; [|exact Hs| |exact Hd|exact E]; [lia|by apply Hsnoc].
Qed.

(** Names from texts are well formed. *)
Lemma name_of_text_ok s ret ls : chars_ok s -> name_of_text s = Some (ret, ls) ->
  (ret = 0 \/ ret = 1) /\ Forall label_ok ls /\ zlen (wire ls) <= NS_MAXCDNAME.
Proof.
  unfold name_of_text. intros Hs E. destruct (scan s false [] []) as [[ret' ls']|] eqn:Es; simpl in E; [|done].
  case_bool_decide as Hd; [|done]. injection E as <- <-. destruct Hd as [H1 H2].
  destruct (scan_ok (S (length s)) s false [] [] ret' ls') as [Hr Hl]; [lia|done|constructor|constructor|done|].
  split_and!; [done| |done]. rewrite Forall_forall in H1, Hl |- *. intros l Hin. destruct (Hl l Hin) as [Hb N]. split; [done|].
  split; [|by apply H1]. destruct l; [done|]. rewrite zlen_cons. pose proof (zlen_nonneg l). lia.
Qed.

(** [MRns_name_pton] returns for every string, writes only into the
    destination, and computes the name of the text if that is a legal name
    for which there is room: its labels are those between unescaped dots, none
    is empty or has more than 63 bytes, and the name has no more than 255. *)
Lemma pton_text src s0 s dst d0 dstsiz :
  chars_ok s -> at_ src s0 (s ++ [0]) -> 0 <= d0 -> 0 <= dstsiz -> d0 + dstsiz <= zlen dst ->
  exists dst' r, MRns_name_pton src s0 dst d0 dstsiz = Done (dst', r) /\ zlen dst' = zlen dst /\
    match name_of_text s with
    | Some (ret, ls) => Forall label_ok ls /\ if zlen (wire ls) <=? dstsiz then r = ret /\ at_ dst' d0 (wire ls) else r = -1
    | None => r = -1
    end.
Proof.
  intros Hs Hat Hd Hz Hroom. unfold MRns_name_pton. pose proof (at_bounds _ _ _ Hat) as [H0 H1]. rewrite zlen_app in H1. change (zlen [0]) with 1 in H1.
  destruct (pton_run src d0 dstsiz dst Hd Hroom (S (length src)) 0 s s0 false [] [] d0 (d0 + 1) dst) as (dst' & r & -> & Hsz & Hr).
  - unfold zlen in H1. lia.
  - done.
  - constructor.
  - done.
  - split; [simpl; rewrite zlen_nil; lia|rewrite zlen_nil; lia|done|split; [lia|done]|constructor|intros _; apply at_nil; lia|done].
  - dred. unfold returned. dred. exists dst', (default (-1) r). split; [done|]. split; [done|]. unfold name_of_text in *.
    destruct (scan s false [] []) as [[ret ls]|] eqn:Es; simpl.
    2:{ destruct r; [|done]. by destruct Hr as (? & ? & _). }
    case_bool_decide as Hb; cbv iota beta.
    + split; [eapply name_of_text_ok; [exact Hs|]; unfold name_of_text; rewrite Es; simpl; by rewrite bool_decide_true|].
      destruct r as [ret'|].
      * destruct Hr as (ls' & [= <- <-] & _ & _ & Hf & Hw). rewrite (proj2 (Z.leb_le _ _)) by done. by split.
      * destruct (Z.leb_spec (zlen (wire ls)) dstsiz); [|done]. exfalso. destruct Hb as [Hb1 Hb2]. apply (Hr ret ls eq_refl). split_and!; done.
    + destruct r as [ret'|]; [|done]. exfalso. destruct Hr as (ls' & [= <- <-] & Hsm & Hl & _). by apply Hb.
Qed.

(** ** Text and back *)
Lemma digit_index_digit i : 0 <= i <= 9 -> digit_index (digit i) = Some i.
Proof. intros H. unfold digit_index, digit. rewrite (proj2 (Z.leb_le _ _)), (proj2 (Z.leb_le _ _)) by lia. simpl. f_equal. lia. Qed.

Lemma special_iff c : special c = true <-> c = 34 \/ c = 46 \/ c = 59 \/ c = 92 \/ c = 64 \/ c = 36.
Proof. unfold special. simpl. rewrite !orb_true_iff, !Z.eqb_eq. intuition done. Qed.
Lemma not_special c : special c = false -> c <> 46 /\ c <> 92.
Proof. intros E. split; intros ->; done. Qed.

Lemma decimal_digits c : byte c -> 0 <= c / 100 <= 9 /\ 0 <= (c mod 100) / 10 <= 9 /\ 0 <= c mod 10 <= 9 /\
  c / 100 * 100 + (c mod 100) / 10 * 10 + c mod 10 = c.
Proof. unfold byte. intros H. Z.to_euclidean_division_equations. lia. Qed.

Lemma scan_char c r cur done : byte c -> scan (char_text c ++ r) false cur done = scan r false (cur ++ [c]) done.
Proof.
  intros Hc. unfold char_text. destruct (special c) eqn:Es.
  - cbn [app scan]. rewrite Z.eqb_refl. assert (digit_index c = None) as ->; [|done].
    apply special_iff in Es. unfold digit_index. destruct (Z.leb_spec 48 c), (Z.leb_spec c 57); simpl; try done. lia.
  - destruct (printable c) eqn:Ep; simpl negb; cbv iota.
    + cbn [app scan]. apply not_special in Es as [? ?].
      rewrite (proj2 (Z.eqb_neq c 92)), (proj2 (Z.eqb_neq c 46)) by lia. done.
    + destruct (decimal_digits c Hc) as (? & ? & ? & Hsum).
      cbn [app scan]. rewrite Z.eqb_refl, !digit_index_digit by done. cbv zeta. unfold byte in Hc.
      rewrite Hsum, (proj2 (Z.ltb_ge 255 c)) by lia. done.
Qed.

Lemma scan_label l : forall r cur done, bytes l -> scan (label_text l ++ r) false cur done = scan r false (cur ++ l) done.
Proof.
  induction l as [|c l IH]; intros r cur done Hb; simpl; [by rewrite app_nil_r|]. apply Forall_cons_iff in Hb as [Hc Hb].
  change (label_text (c :: l)) with (char_text c ++ label_text l). rewrite <- app_assoc, scan_char, IH by done. by rewrite <- app_assoc.
Qed.

Lemma label_text_head l : l <> [] -> exists c r, label_text l = c :: r /\ c <> 46.
Proof.
  destruct l as [|c l]; [done|]. intros _. change (label_text (c :: l)) with (char_text c ++ label_text l). unfold char_text.
  destruct (special c) eqn:Es; [eexists _, _; split; [reflexivity|done]|]. destruct (printable c) eqn:Ep; (eexists _, _; split; [reflexivity|]); [|done].
  by apply not_special in Es as [? ?].
Qed.

Lemma scan_tail ls : forall cur done, Forall label_ok ls -> cur <> [] ->
  scan (tail_text ls) false cur done = Some (0, closed cur done ++ ls).
Proof.
  induction ls as [|l ls IH]; intros cur done Hls Hc; [simpl; by rewrite app_nil_r|].
  apply Forall_cons_iff in Hls as [[Hb Hl] Hls]. assert (Hne : l <> []) by (intros ->; rewrite zlen_nil in Hl; lia).
  change (tail_text (l :: ls)) with (46 :: (label_text l ++ tail_text ls)). cbn [scan].
  destruct (label_text_head l Hne) as (c & r & Ec & N). rewrite Ec. cbn [app]. simpl (46 =? 92). simpl (46 =? 46). cbv iota.
  rewrite bool_decide_false, (proj2 (Z.eqb_neq c 46)) by done. simpl orb. cbv iota.
  change (c :: r ++ tail_text ls) with ((c :: r) ++ tail_text ls). rewrite <- Ec, scan_label, IH by done. simpl.
  rewrite closed_cons, (closed_cons cur) by done. by rewrite <- !app_assoc.
Qed.

Lemma name_of_text_text ls : Forall label_ok ls -> zlen (wire ls) <= NS_MAXCDNAME ->
  name_of_text (text ls) = Some (match ls with [] => 1 | _ => 0 end, ls).
Proof.
  intros Hls Hw. unfold name_of_text.
  assert (scan (text ls) false [] [] = Some (match ls with [] => 1 | _ => 0 end, ls)) as ->.
  { destruct ls as [|l ls]; [done|]. apply Forall_cons_iff in Hls as [[Hb Hl] Hls]. simpl.
    assert (Hne : l <> []) by (intros ->; rewrite zlen_nil in Hl; lia). rewrite scan_label, scan_tail by done. simpl. by rewrite closed_cons. }
  simpl. rewrite bool_decide_true; [done|]. split; [|done]. eapply Forall_impl; [|exact Hls]. intros l [_ ?]. simpl. lia.
Qed.

Lemma char_text_chars c : byte c -> chars_ok (char_text c).
Proof.
  intros Hc. destruct (decimal_digits c Hc) as (? & ? & ? & _). unfold byte in Hc.
  assert (H92 : byte 92 /\ 92 <> 0) by (unfold byte; lia). assert (Hd : forall x, 0 <= x <= 9 -> byte (digit x) /\ digit x <> 0) by (unfold byte, digit; lia).
  unfold char_text. destruct (special c) eqn:Es; [|destruct (printable c) eqn:Ep]; simpl negb; cbv iota.
  - constructor; [done|]. constructor; [|constructor]. unfold special in Es. simpl in Es. split; [unfold byte; lia|]. intros ->. done.
  - constructor; [|constructor]. unfold printable in Ep. zbool. unfold byte. lia.
  - repeat constructor; first [done|apply Hd; lia].
Qed.
Lemma label_text_chars l : bytes l -> chars_ok (label_text l).
Proof.
  induction 1 as [|c l Hc Hl IH]; [constructor|]. change (label_text (c :: l)) with (char_text c ++ label_text l).
  apply Forall_app. split; [by apply char_text_chars|done].
Qed.
Lemma text_chars ls : Forall label_ok ls -> chars_ok (text ls).
Proof.
  assert (H46 : byte 46 /\ 46 <> 0) by (unfold byte; lia). intros Hls.
  assert (Ht : forall ks, Forall label_ok ks -> chars_ok (tail_text ks)).
  { induction 1 as [|k ks [Hk _] _ IH]; [constructor|]. change (tail_text (k :: ks)) with (46 :: label_text k ++ tail_text ks).
    constructor; [done|]. apply Forall_app. split; [by apply label_text_chars|done]. }
  destruct Hls as [|l ls [Hl _] Hls]; simpl; [by constructor|]. apply Forall_app. split; [by apply label_text_chars|by apply Ht].
Qed.

(** A name is printed by [MRns_name_ntop] as a text from which
    [MRns_name_pton] reads the same name, whatever bytes its labels have; there
    is an error exactly if the text with its NUL does not fit. *)
Lemma MRns_name_roundtrip src s0 ls dst d0 dstsiz back b0 backsiz :
  Forall label_ok ls -> zlen (wire ls) <= NS_MAXCDNAME -> at_ src s0 (wire ls) ->
  0 <= d0 -> 0 <= dstsiz -> d0 + dstsiz <= zlen dst ->
  0 <= b0 -> zlen (wire ls) <= backsiz -> b0 + backsiz <= zlen back ->
  exists dst', MRns_name_ntop src s0 dst d0 dstsiz = Done (dst', if zlen (text ls) <? dstsiz then zlen (text ls) + 1 else -1) /\
    (zlen (text ls) < dstsiz -> exists back' r, MRns_name_pton dst' d0 back b0 backsiz = Done (back', r) /\ r <> -1 /\ at_ back' b0 (wire ls)).
Proof.
  intros Hls Hw Hat Hd Hs Hroom Hb Hfit Hbroom. destruct (ntop_text src s0 ls dst d0 dstsiz Hls Hat Hd Hs Hroom) as (dst' & E & Hg).
  exists dst'. split; [done|]. intros Hlt. rewrite (proj2 (Z.ltb_lt _ _)) in Hg by done. apply grown_at in Hg.
  destruct (pton_text dst' d0 (text ls) back b0 backsiz (text_chars ls Hls) Hg Hb) as (back' & r & E' & _ & R); [pose proof (zlen_nonneg (wire ls)); lia|done|].
  rewrite name_of_text_text in R by done. destruct R as [_ R]. rewrite (proj2 (Z.leb_le _ _)) in R by done. destruct R as [-> R].
  exists back'. eexists. split_and!; [exact E'| |exact R]. by destruct ls.
Qed.

(** "a.b" with room for exactly its text. *)
