(* ===== verification/NameMsg.v ===== *)
(** * Domain names in messages

    [MRns_name_unpack] reads exactly the names that messages have, and always
    returns; [MRns_name_pack] writes names that it reads back.  The list
    functions put both together. *)

From stdpp Require Import base tactics list numbers.
From S2P Require Import Prelude Array Name NameOk.

#[local] Open Scope Z_scope.

Definition target (hi lo : Z) : Z := Z.lor (Z.shiftl (Z.land hi 63) 8) (Z.land lo 255).

(** The message of [eom] bytes has the name [ls] at [o]: labels up to the root
    or to a pointer.  [e] is the position after its first part, [cost] the
    number of bytes that reading it looks at. *)
Inductive name_at (msg : list Z) (eom : Z) : Z -> list label -> Z -> Z -> Prop :=
  | name_root o : o < eom -> rd msg o = Done 0 -> name_at msg eom o [] (o + 1) 1
  | name_label o l ls e cost :
      at_ msg o (zlen l :: l) -> label_ok l -> name_at msg eom (o + 1 + zlen l) ls e cost ->
      name_at msg eom o (l :: ls) e (cost + (zlen l + 1))
  | name_pointer o hi lo ls e cost :
      o + 1 < eom -> rd msg o = Done hi -> rd msg (o + 1) = Done lo -> Z.land hi NS_CMPRSFLGS = NS_CMPRSFLGS ->
      name_at msg eom (target hi lo) ls e cost -> name_at msg eom o ls (o + 2) (cost + 2).

Lemma name_at_pos msg eom o ls e cost : name_at msg eom o ls e cost -> 0 <= o < eom /\ o < e <= eom /\ 0 < cost.
Proof.
  induction 1 as [o Ho E|o l ls e cost Hat [_ Hl] _ IH|o hi lo ls e cost Ho E _ _ _ IH].
  - apply rd_Done in E as [? _]. lia.
  - apply at_bounds in Hat. lia.
  - apply rd_Done in E as [? _]. lia.
Qed.
Lemma name_at_labels msg eom o ls e cost : name_at msg eom o ls e cost -> Forall label_ok ls.
Proof. induction 1; [constructor|by constructor|done]. Qed.

(** A message that is longer, or changed after its end, has the same names. *)
Lemma name_at_mono msg msg' eom eom' o ls e cost :
  name_at msg eom o ls e cost -> eom <= eom' -> (forall p l, at_ msg p l -> p + zlen l <= eom -> at_ msg' p l) ->
  name_at msg' eom' o ls e cost.
Proof.
  intros H Heom Hat. assert (Hrd : forall p x, rd msg p = Done x -> p < eom -> rd msg' p = Done x).
  { intros p x E Hp. assert (A : at_ msg p [x]).
    { apply at_cons. split; [done|]. apply at_nil. apply rd_Done in E as [? E]. apply lookup_lt_Some in E. unfold zlen. lia. }
    apply Hat in A; [by apply at_cons in A as [? _]|]. change (zlen [x]) with 1. lia. }
  induction H as [o Ho E|o l ls e cost Hl Hok Hn IH|o hi lo ls e cost Ho E1 E2 Hf Hn IH].
  - constructor; [lia|by apply Hrd].
  - constructor; [|done|done]. apply Hat; [done|]. apply name_at_pos in Hn. rewrite zlen_cons. lia.
  - econstructor; [lia|by apply Hrd; [|lia]|by apply Hrd; [|lia]|done|done].
Qed.

(** ** Reading a name *)
Lemma flags_three n : byte n -> n <> 0 -> Z.land n NS_CMPRSFLGS = 0 /\ 1 <= n <= 63 \/ Z.land n NS_CMPRSFLGS = NS_CMPRSFLGS \/
  Z.land n NS_CMPRSFLGS <> 0 /\ Z.land n NS_CMPRSFLGS <> NS_CMPRSFLGS.
Proof.
  intros Hn N. destruct (decide (Z.land n NS_CMPRSFLGS = 0)) as [E|E].
  - left. split; [done|]. apply flags_zero in E; unfold byte in Hn; lia.
  - right. destruct (decide (Z.land n NS_CMPRSFLGS = NS_CMPRSFLGS)); auto.
Qed.

Section unpack.
Context (msg : list Z) (eom src : Z) (dst0 : list Z) (d0 dstsiz : Z).
Context (Heom : eom <= zlen msg) (Hd0 : 0 <= d0) (Hsize : 1 <= dstsiz) (Hroom : d0 + dstsiz <= zlen dst0).

Lemma wr_grows t dst x : grown dst0 d0 t dst -> zlen t < dstsiz ->
  exists dst', wr dst (d0 + zlen t) x = Done dst' /\ grown dst0 d0 (t ++ [x]) dst'.
Proof. intros E Ht. destruct (grown_more dst0 d0 t dst [x] E) as (dst' & E1 & E2); [change (zlen [x]) with 1; lia|]. exists dst'. by rewrite wr_wrn. Qed.

(** One label is copied. *)
Lemma copy_label pre dst l srcp len checked :
  grown dst0 d0 (opened pre) dst -> at_ msg srcp (zlen l :: l) -> label_ok l ->
  zlen (opened pre) + zlen l + 1 < dstsiz -> srcp + 1 + zlen l < eom ->
  exists dst', unpack_step msg eom src (d0 + dstsiz) (mk_unpack srcp (d0 + zlen (opened pre)) len checked dst) =
    Done (inl (mk_unpack (srcp + 1 + zlen l) (d0 + zlen (opened (pre ++ [l]))) len (checked + (zlen l + 1)) dst')) /\
    grown dst0 d0 (opened (pre ++ [l])) dst'.
Proof.
  intros E Hat [Hb Hl] Hfit Hsrc. unfold unpack_step. apply at_cons in Hat as [Hn Hat]. rewrite Hn. dred.
  rewrite (proj2 (Z.eqb_neq _ _)) by lia. rewrite (proj2 (flags_zero (zlen l) ltac:(lia))) by lia. rewrite Z.eqb_refl.
  rewrite (proj2 (Z.leb_gt (d0 + dstsiz) _)), (proj2 (Z.leb_gt eom _)) by lia. simpl orb. cbv iota. rewrite Hat. dred.
  destruct (wr_grows (opened pre) dst (zlen l) E) as (dst1 & -> & E1); [lia|]. dred.
  destruct (grown_more _ _ _ _ l E1) as (dst2 & E2 & E3); [rewrite zlen_app; change (zlen [zlen l]) with 1; lia|].
  rewrite zlen_app in E2. change (zlen [zlen l]) with 1 in E2. rewrite Z.add_assoc in E2. rewrite E2. dred. exists dst2.
  rewrite <- app_assoc in E3. rewrite opened_snoc. split; [|done]. do 3 f_equal. rewrite zlen_app, zlen_cons. lia.
Qed.

(** *** Every name is read *)
Lemma unpack_complete o ls e cost : name_at msg eom o ls e cost -> forall n i pre dst len checked,
  cost <= Z.of_nat n -> checked + cost <= eom -> 0 <= checked -> (len < 0 -> src <= o) -> grown dst0 d0 (opened pre) dst ->
  zlen (opened pre) + zlen (wire ls) <= dstsiz ->
  exists dst', for_loop n i (fun _ => unpack_step msg eom src (d0 + dstsiz)) (mk_unpack o (d0 + zlen (opened pre)) len checked dst) =
    Done (inr (dst', Some (if len <? 0 then e - src else len))) /\ grown dst0 d0 (wire (pre ++ ls)) dst'.
Proof.
  induction 1 as [o Ho E|o l ls e cost Hat Hl Hn IH|o hi lo ls e cost Ho E1 E2 Hf Hn IH];
    intros [|n] i pre dst len checked Hc Hch H0 Hlen Hg Hfit; try (apply name_at_pos in Hn; destruct Hl; lia); try (apply name_at_pos in Hn; lia); [lia|..];
    cbn [for_loop].
  - unfold unpack_step. rewrite E. dred. rewrite Z.eqb_refl. destruct (wr_grows _ _ 0 Hg) as (dst' & -> & Hg').
    { change (zlen (wire [])) with 1 in Hfit. lia. }
    dred. exists dst'. split; [done|]. by rewrite app_nil_r.
  - pose proof (name_at_pos _ _ _ _ _ _ Hn) as Hp. rewrite name_wire_length, opened_cons in Hfit. pose proof (zlen_nonneg (opened ls)).
    destruct (copy_label pre dst l o len checked Hg Hat Hl) as (dst1 & -> & Hg1); [lia|lia|]. dred. destruct Hl as [_ Hl].
    destruct (IH n (i + 1) (pre ++ [l]) dst1 len (checked + (zlen l + 1))) as (dst' & Ed & Hg'); [lia|lia|lia|lia|done| |].
    + rewrite name_wire_length, opened_snoc, zlen_app, zlen_cons. lia.
    + exists dst'. split; [exact Ed|]. by rewrite <- app_assoc in Hg'.
  - pose proof (name_at_pos _ _ _ _ _ _ Hn) as Hp. set (loop := for_loop n (i + 1) _).
    unfold unpack_step. rewrite E1. dred. destruct (Z.eqb_spec hi 0) as [->|N0]; [done|].
    rewrite Hf. simpl (NS_CMPRSFLGS =? 0). rewrite Z.eqb_refl. cbv iota. rewrite (proj2 (Z.leb_gt eom (o + 1))), E2 by lia. dred. fold (target hi lo).
    rewrite (proj2 (Z.ltb_ge (target hi lo) 0)), (proj2 (Z.leb_gt eom (target hi lo))), (proj2 (Z.leb_gt eom (checked + 2))) by lia. simpl orb. cbv iota zeta. dred.
    destruct (IH n (i + 1) pre dst (if len <? 0 then o + 1 - src + 1 else len) (checked + 2)) as (dst' & Ed & Hg'); [lia|lia|lia| |done|done|].
    + destruct (Z.ltb_spec len 0); lia.
    + exists dst'. split; [|done]. subst loop. rewrite Ed. do 4 f_equal. destruct (Z.ltb_spec len 0).
      * rewrite (proj2 (Z.ltb_ge _ _)) by lia. lia.
      * by rewrite (proj2 (Z.ltb_ge _ _)) by lia.
Qed.

(** *** Nothing else is read *)
Context (Hmsg : bytes msg).

Record unpacking (turn : Z) (st : unpack_state) (pre : list label) : Prop := {
  up_src : 0 <= u_srcp st < eom;
  up_dst : u_dstp st = d0 + zlen (opened pre);
  up_grown : grown dst0 d0 (opened pre) (u_dst st);
  up_room : zlen (opened pre) < dstsiz;
  up_turn : 0 <= u_checked st /\ turn <= zlen (opened pre) + Z.min (u_checked st) eom;
  up_len : 0 <= u_len st \/ src <= u_srcp st;
  up_sound : forall ls e cost, name_at msg eom (u_srcp st) ls e cost ->
    exists cost', name_at msg eom src (pre ++ ls) (if u_len st <? 0 then e else src + u_len st) cost' }.

Definition unpacked (q : list Z * option Z) : Prop :=
  match q.2 with
  | None => zlen q.1 = zlen dst0
  | Some r => exists ls e cost, name_at msg eom src ls e cost /\ r = e - src /\ zlen (wire ls) <= dstsiz /\ grown dst0 d0 (wire ls) q.1
  end.

Lemma byte_at p : 0 <= p < zlen msg -> exists n, rd msg p = Done n /\ byte n.
Proof. intros Hp. destruct (rd_in msg p Hp) as (n & E & El). exists n. split; [done|]. by eapply Forall_lookup_1. Qed.

(** The bytes of a label. *)
Lemma label_at p n : 0 <= p -> rd msg p = Done n -> 1 <= n <= 63 -> p + 1 + n <= zlen msg ->
  exists l, zlen l = n /\ at_ msg p (zlen l :: l) /\ label_ok l.
Proof.
  intros Hp E Hn Hl. assert (El : exists l, rdn msg (p + 1) n = Done l).
  { rewrite rdn_in by lia. by eexists. }
  destruct El as [l El]. destruct (rdn_bounds _ _ _ _ El) as (_ & _ & _ & Hz). exists l. split; [done|]. split.
  - apply at_cons. split; [by rewrite Hz|]. unfold at_. by rewrite Hz.
  - split; [|lia]. rewrite rdn_in in El by lia. injection El as <-. by apply Forall_take, Forall_drop.
Qed.

Lemma unpack_step_sound turn st pre : unpacking turn st pre ->
  (exists st' pre', unpack_step msg eom src (d0 + dstsiz) st = Done (inl st') /\ unpacking (turn + 1) st' pre') \/
  (exists q, unpack_step msg eom src (d0 + dstsiz) st = Done (inr q) /\ unpacked q).
Proof.
  intros [Hs Hd Hg Hr [Hch Ht] Hlen Hso]. destruct st as [srcp dstp len checked dst]. simpl in *. subst dstp.
  pose proof (grown_bounds _ _ _ _ Hg) as (_ & _ & Hz).
  destruct (byte_at srcp) as (n & En & Hn); [lia|]. destruct (decide (n = 0)) as [->|N0].
  - right. unfold unpack_step. rewrite En. dred. rewrite Z.eqb_refl. destruct (wr_grows _ _ 0 Hg Hr) as (dst' & -> & Hg'). dred.
    eexists. split; [reflexivity|]. destruct (Hso [] (srcp + 1) 1) as (cost' & Hna); [constructor; [lia|done]|]. rewrite app_nil_r in Hna.
    exists pre, (if len <? 0 then srcp + 1 else src + len), cost'. split_and!; [done| |rewrite name_wire_length; lia|done].
    destruct (Z.ltb_spec len 0); simpl; lia.
  - destruct (flags_three n Hn N0) as [[Hf Hn63]|[Hf|[Hf1 Hf2]]].
    + destruct (decide (zlen (opened pre) + n + 1 < dstsiz /\ srcp + 1 + n < eom)) as [[Hfit Hin]|Hno].
      * left. destruct (label_at srcp n) as (l & Hl & Hat & Hok); [lia|done|done|lia|].
        destruct (copy_label pre dst l srcp len checked Hg Hat Hok) as (dst' & Eq & Hg'); [lia|lia|]. eexists _, (pre ++ [l]). split; [exact Eq|].
        rewrite opened_snoc, zlen_app, zlen_cons in *. split; simpl; [lia|rewrite ?opened_snoc, ?zlen_app, ?zlen_cons; lia|by rewrite opened_snoc
          |rewrite opened_snoc, zlen_app, zlen_cons; lia|rewrite opened_snoc, zlen_app, zlen_cons; lia|lia|].
        intros ls e cost Hna. rewrite <- app_assoc. apply (Hso (l :: ls) e (cost + (zlen l + 1))). constructor; done.
      * right. unfold unpack_step. rewrite En. dred. rewrite (proj2 (Z.eqb_neq n 0)), Hf, Z.eqb_refl by done.
        assert ((d0 + dstsiz <=? d0 + zlen (opened pre) + n + 1) || (eom <=? srcp + 1 + n) = true) as ->.
        { apply orb_true_iff. rewrite !Z.leb_le. lia. }
        eexists. split; [reflexivity|done].
    + unfold unpack_step. rewrite En. dred. rewrite (proj2 (Z.eqb_neq n 0)), Hf by done. simpl (NS_CMPRSFLGS =? 0). rewrite Z.eqb_refl. cbv iota.
      destruct (Z.leb_spec eom (srcp + 1)); [right; eexists; split; [reflexivity|done]|].
      destruct (byte_at (srcp + 1)) as (lo & Elo & _); [lia|]. rewrite Elo. dred. cbv zeta. fold (target n lo).
      destruct (Z.ltb_spec (target n lo) 0); [right; eexists; split; [reflexivity|done]|].
      destruct (Z.leb_spec eom (target n lo)); [right; eexists; split; [reflexivity|done]|].
      destruct (Z.leb_spec eom (checked + 2)); [right; eexists; split; [reflexivity|done]|]. left. eexists _, pre. split; [reflexivity|].
      split; simpl; [lia|done|done|done|lia|destruct (Z.ltb_spec len 0); lia|].
      intros ls e cost Hna. destruct (Hso ls (srcp + 2) (cost + 2)) as (cost' & Hna'); [by econstructor|]. exists cost'.
      destruct (Z.ltb_spec len 0).
      * rewrite (proj2 (Z.ltb_ge _ _)) by lia. replace (src + (srcp + 1 - src + 1)) with (srcp + 2) by lia. done.
      * by rewrite (proj2 (Z.ltb_ge _ _)) by lia.
    + right. unfold unpack_step. rewrite En. dred. rewrite (proj2 (Z.eqb_neq n 0)), (proj2 (Z.eqb_neq _ _) Hf1), (proj2 (Z.eqb_neq _ _) Hf2) by done.
      eexists. split; [reflexivity|done].
Qed.

Lemma unpack_sound : exists dst' r, MRns_name_unpack msg eom src dst0 d0 dstsiz = Done (dst', r) /\
  (r = -1 /\ zlen dst' = zlen dst0 \/
   exists ls e cost, name_at msg eom src ls e cost /\ r = e - src /\ zlen (wire ls) <= dstsiz /\ grown dst0 d0 (wire ls) dst').
Proof.
  unfold MRns_name_unpack. destruct (Z.ltb_spec src 0); [by exists dst0, (-1); split; [|left]|].
  destruct (Z.leb_spec eom src); [by exists dst0, (-1); split; [|left]|]. simpl orb. cbv iota.
  destruct (for_loop_inv (fun t st => exists pre, unpacking t st pre) unpacked (fun _ => unpack_step msg eom src (d0 + dstsiz))
    (S (Z.to_nat (dstsiz + eom))) 0 (mk_unpack src d0 (-1) 0 dst0)) as [(st & -> & pre & Hup)|([dst' r] & -> & Hq)].
  - exists []. split; cbn [u_srcp u_dstp u_dst u_checked u_len]; change (zlen (opened [])) with 0; [lia|lia|apply grown_nil; lia|lia|lia|lia|].
    intros ls e cost Hna. by exists cost.
  - intros t st _ [pre Hup]. destruct (unpack_step_sound t st pre Hup) as [(st' & pre' & E & Hup')|?]; [left|by right]. eauto.
  - destruct Hup as [_ _ _ Hr [_ Ht] _ _]. lia.
  - dred. unfold returned. dred. exists dst', (default (-1) r). split; [done|]. destruct r as [r|]; [right|by left]. exact Hq.
Qed.
End unpack.

(** A name in a message is read, unless its pointers visit more bytes than the
    message has. *)
Lemma unpack_at msg eom src dst d0 dstsiz ls e cost :
  name_at msg eom src ls e cost -> cost <= eom -> zlen (wire ls) <= dstsiz -> 0 <= d0 -> d0 + dstsiz <= zlen dst ->
  exists dst', MRns_name_unpack msg eom src dst d0 dstsiz = Done (dst', e - src) /\ grown dst d0 (wire ls) dst'.
Proof.
  intros Hn Hc Hfit Hd Hroom. pose proof (name_at_pos _ _ _ _ _ _ Hn) as Hp. unfold MRns_name_unpack.
  rewrite (proj2 (Z.ltb_ge src 0)), (proj2 (Z.leb_gt eom src)) by lia. simpl orb. cbv iota.
  rewrite name_wire_length in Hfit. pose proof (zlen_nonneg (opened ls)).
  destruct (unpack_complete msg eom src dst d0 dstsiz Hroom src ls e cost Hn (S (Z.to_nat (dstsiz + eom))) 0 [] dst (-1) 0)
    as (dst' & E & Hg); [lia|lia|lia|lia|apply grown_nil; lia| |].
  - change (zlen (opened [])) with 0. rewrite name_wire_length. lia.
  - change (zlen (opened [])) with 0 in E. rewrite Z.add_0_r in E. rewrite E. dred. unfold returned. dred. exists dst'. by split.
Qed.

Lemma name_at_unique msg eom o ls e cost : name_at msg eom o ls e cost -> forall ls' e' cost',
  name_at msg eom o ls' e' cost' -> ls' = ls /\ e' = e.
Proof.
  induction 1 as [o Ho E|o l ls e cost Hat Hl Hn IH|o hi lo ls e cost Ho E1 E2 Hf Hn IH]; intros ls' e' cost' H'.
  - inversion H' as [? ? E'|? l ls0 ? ? Hat [_ Hl]|? hi lo ? ? ? ? E' _ Hf]; subst; [done| |].
    + apply at_cons in Hat as [E' _]. rewrite E in E'. injection E' as E'. lia.
    + rewrite E in E'. injection E' as <-. done.
  - apply at_cons in Hat as [E Hat]. destruct Hl as [Hb Hl].
    inversion H' as [? ? E'|? l' ls0 e0 c0 Hat' [_ Hl'] Hn'|? hi lo ? ? ? ? E' _ Hf]; subst.
    + rewrite E in E'. injection E' as E'. lia.
    + apply at_cons in Hat' as [E' Hat']. rewrite E in E'. injection E' as E'. unfold at_ in *. rewrite E' in Hat. rewrite Hat in Hat'.
      injection Hat' as <-. destruct (IH _ _ _ Hn') as [-> ->]. done.
    + rewrite E in E'. injection E' as <-. rewrite (proj2 (flags_zero (zlen l) ltac:(lia))) in Hf by lia. done.
  - inversion H' as [? ? E'|? l' ls0 e0 c0 Hat' [_ Hl'] Hn'|? hi' lo' ? ? ? ? E1' E2' Hf' Hn']; subst.
    + rewrite E1 in E'. injection E' as ->. done.
    + apply at_cons in Hat' as [E' Hat']. rewrite E1 in E'. injection E' as ->. rewrite (proj2 (flags_zero (zlen l') ltac:(lia))) in Hf by lia. done.
    + rewrite E1 in E1'. injection E1' as <-. rewrite E2 in E2'. injection E2' as <-. by destruct (IH _ _ _ Hn') as [-> _].
Qed.

(** C11: [MRns_name_unpack] returns on every message and position, reads and
    writes only within its arguments, and what it returns is the name that the
    message has there, with its pointers followed, and the length of its
    first part.  It finds every name that fits and whose pointers do not
    look at more bytes than the message has, so that loops are an error. *)
Theorem MRns_name_unpack_correct msg eom src dst d0 dstsiz :
  bytes msg -> eom <= zlen msg -> 0 <= d0 -> 1 <= dstsiz -> d0 + dstsiz <= zlen dst ->
  exists dst' r, MRns_name_unpack msg eom src dst d0 dstsiz = Done (dst', r) /\ zlen dst' = zlen dst /\
    (r = -1 \/ exists ls e cost, name_at msg eom src ls e cost /\ r = e - src /\ at_ dst' d0 (wire ls)) /\
    (forall ls e cost, name_at msg eom src ls e cost -> cost <= eom -> zlen (wire ls) <= dstsiz -> r = e - src /\ at_ dst' d0 (wire ls)).
Proof.
  intros Hm He Hd Hs Hroom. destruct (unpack_sound msg eom src dst d0 dstsiz He Hd Hs Hroom Hm) as (dst' & r & E & Hr).
  exists dst', r. split; [done|]. split.
  { destruct Hr as [[_ ?]|(ls & e & cost & _ & _ & _ & Hg)]; [done|]. destruct (grown_bounds _ _ _ _ Hg) as (_ & _ & ?). done. }
  split.
  - destruct Hr as [[-> _]|(ls & e & cost & Hn & -> & _ & Hg)]; [by left|]. right. exists ls, e, cost. split_and!; [done|done|by eapply grown_at].
  - intros ls e cost Hn Hc Hfit. destruct (unpack_at msg eom src dst d0 dstsiz ls e cost Hn Hc Hfit Hd Hroom) as (dst2 & E2 & Hg).
    rewrite E in E2. injection E2 as <- <-. split; [done|]. by eapply grown_at.
Qed.

(** The name "b", a pointer to it and a pointer to itself. *)
Lemma MRns_name_unpack_correct_witness : exists dst' r,
  MRns_name_unpack [1; 98; 0; 192; 0; 192; 5] 7 3 (replicate 3 9) 0 3 = Done (dst', r) /\ zlen dst' = 3 /\
    (r = -1 \/ exists ls e cost, name_at [1; 98; 0; 192; 0; 192; 5] 7 3 ls e cost /\ r = e - 3 /\ at_ dst' 0 (wire ls)) /\
    (forall ls e cost, name_at [1; 98; 0; 192; 0; 192; 5] 7 3 ls e cost -> cost <= 7 -> zlen (wire ls) <= 3 -> r = e - 3 /\ at_ dst' 0 (wire ls)).
Proof.
  apply (MRns_name_unpack_correct [1; 98; 0; 192; 0; 192; 5] 7 3 (replicate 3 9) 0 3); try (by vm_compute).
  apply (bool_decide_unpack _). vm_compute. exact I.
Defined.

(** [MRns_name_skip] goes to the end of the first part. *)
Lemma skip_at msg eom o ls e cost : name_at msg eom o ls e cost -> forall fuel, cost <= Z.of_nat fuel -> name_skip fuel msg eom o = Done (Some e).
Proof.
  induction 1 as [o Ho E|o l ls e cost Hat Hl Hn IH|o hi lo ls e cost Ho E1 E2 Hf Hn IH];
    intros [|fuel] Hc; try (apply name_at_pos in Hn; destruct Hl; lia); try (apply name_at_pos in Hn; lia); [lia|..]; cbn [name_skip];
    rewrite (proj2 (Z.leb_gt eom o)) by (try apply name_at_pos in Hn; try destruct Hl; lia).
  - by rewrite E.
  - apply at_cons in Hat as [E _]. destruct Hl as [_ Hl]. rewrite E. dred. rewrite (proj2 (Z.eqb_neq (zlen l) 0)) by lia.
    rewrite (proj2 (flags_zero (zlen l) ltac:(lia))), Z.eqb_refl by lia. apply IH. lia.
  - rewrite E1. dred. destruct (Z.eqb_spec hi 0) as [->|]; [done|]. rewrite Hf. simpl (NS_CMPRSFLGS =? 0). rewrite Z.eqb_refl. by rewrite <- Z.add_assoc.
Qed.

(** ** Writing a name *)
Definition lower (l : list Z) : list Z := mklower <$> l.
(** The same names but for the case of letters. *)
Definition same_case (ls ls' : list label) : Prop := lower <$> ls = lower <$> ls'.

Lemma lower_length l l' : lower l = lower l' -> zlen l = zlen l'.
Proof. intros E. apply (f_equal length) in E. unfold lower in E. rewrite !length_fmap in E. unfold zlen. lia. Qed.

(** Pointers to places below 2 ^ 14. *)
Lemma pointer_bytes p : 0 <= p < 16384 ->
  u8 (Z.lor (Z.shiftr p 8) NS_CMPRSFLGS) = p / 256 + 192 /\ Z.land (p / 256 + 192) NS_CMPRSFLGS = NS_CMPRSFLGS /\
  target (p / 256 + 192) (p mod 256) = p /\ Z.lor (Z.shiftl (Z.land (p / 256 + 192) 63) 8) (p mod 256) = p.
Proof.
  intros Hp. set (P := fun p => u8 (Z.lor (Z.shiftr p 8) NS_CMPRSFLGS) = p / 256 + 192 /\ Z.land (p / 256 + 192) NS_CMPRSFLGS = NS_CMPRSFLGS /\
    target (p / 256 + 192) (p mod 256) = p /\ Z.lor (Z.shiftl (Z.land (p / 256 + 192) 63) 8) (p mod 256) = p).
  assert (Hall : Forall P (seqZ 0 16384)) by (apply (bool_decide_unpack _); by vm_compute).
  rewrite Forall_forall in Hall. apply (Hall p), list_elem_of_In, elem_of_seqZ. lia.
Qed.

Section find.
Context (domain msg : list Z).

Lemma same_label_ok l : forall l' dn cp, at_ domain dn l -> at_ msg cp l' -> zlen l' = zlen l ->
  same_label domain msg (length l) dn cp = Done (bool_decide (lower l = lower l')).
Proof.
  induction l as [|a l IH]; intros [|b l'] dn cp Hd Hm Hl; rewrite ?zlen_nil, ?zlen_cons in Hl;
    try (pose proof (zlen_nonneg l)); try (pose proof (zlen_nonneg l')); try lia; [done|].
  apply at_cons in Hd as [Ea Hd]. apply at_cons in Hm as [Eb Hm]. cbn [same_label length]. rewrite Ea, Eb. dred. unfold lower in *. cbn [fmap list_fmap].
  destruct (Z.eqb_spec (mklower a) (mklower b)) as [E|N].
  - rewrite (IH l') by (done || lia). f_equal. apply bool_decide_ext. rewrite E. split; [by intros -> | by intros [= ->]].
  - rewrite bool_decide_false; [done|]. intros [= E _]. done.
Qed.

(** A name that is found is the same name. *)
Lemma same_name_ok eom cp ls' e cost : name_at msg eom cp ls' e cost -> forall fuel ls dn,
  cost <= Z.of_nat fuel -> at_ domain dn (wire ls) -> ls <> [] -> Forall label_ok ls ->
  (forall p, 0 <= p < eom -> exists lo, rd msg p = Done lo /\ byte lo) ->
  exists b, same_name domain msg fuel dn cp = Done (Some b) /\ (b = true -> same_case ls ls').
Proof.
  induction 1 as [o Ho E|o l' ls' e cost Hat Hl Hn IH|o hi lo ls' e cost Ho E1 E2 Hf Hn IH];
    intros [|fuel] ls dn Hc Hd N Hls Hby; try (apply name_at_pos in Hn; destruct Hl; lia); try (apply name_at_pos in Hn; lia); [lia|..]; cbn [same_name].
  - rewrite E. dred. by exists false.
  - apply at_cons in Hat as [E Hat]. destruct Hl as [Hb' Hl']. rewrite E. dred. rewrite (proj2 (Z.eqb_neq (zlen l') 0)) by lia.
    rewrite (proj2 (flags_zero (zlen l') ltac:(lia))), Z.eqb_refl by lia.
    destruct ls as [|l ls]; [done|]. apply Forall_cons_iff in Hls as [[Hb Hl] Hls].
    change (wire (l :: ls)) with (((zlen l :: l) ++ opened ls) ++ [0]) in Hd. rewrite <- app_assoc in Hd.
    destruct (at_label _ _ _ _ Hd) as (Ed & Hd1 & Hd2). rewrite Ed. dred. destruct (Z.eqb_spec (zlen l') (zlen l)) as [El|]; simpl negb; cbv iota; [|by exists false].
    replace (Z.to_nat (zlen l')) with (length l) by (unfold zlen in *; lia). rewrite (same_label_ok l l' _ _ Hd1 Hat El). dred.
    case_bool_decide as Hlow; simpl negb; cbv iota; [|by exists false]. cbv zeta. rewrite !El.
    fold (wire ls) in Hd2. destruct ls as [|l2 ls].
    + apply at_cons in Hd2 as [Ez _]. rewrite Ez. dred.
      pose proof (name_at_pos _ _ _ _ _ _ Hn) as Hp. destruct (Hby (o + 1 + zlen l')) as (m & Em & _); [lia|]. rewrite El in Em. rewrite Em. dred.
      exists (m =? 0). split; [done|]. intros Hm. apply Z.eqb_eq in Hm as ->. rewrite <- El in Em. inversion Hn as [? ? E'|? l3 ? ? ? Hat3 [_ Hl3]|? hi3 ? ? ? ? ? E' _ Hf3]; subst.
      * unfold same_case. simpl. by rewrite Hlow.
      * apply at_cons in Hat3 as [E3 _]. rewrite Em in E3. injection E3 as E3. lia.
      * rewrite Em in E'. injection E' as <-. done.
    + assert (Hl2 := proj2 (proj1 (proj1 (Forall_cons_iff _ _ _) Hls))).
      assert (E2 : rd domain (dn + 1 + zlen l) = Done (zlen l2)).
      { change (wire (l2 :: ls)) with (zlen l2 :: (l2 ++ opened ls) ++ [0]) in Hd2. by apply at_cons in Hd2 as [? _]. }
      rewrite E2. dred. rewrite (proj2 (Z.eqb_neq (zlen l2) 0)) by lia. rewrite <- El.
      destruct (IH fuel (l2 :: ls) (dn + 1 + zlen l)) as (b & Eb & Hb2); [lia|done|done|done|done|]. rewrite <- El in Eb. exists b. split; [exact Eb|].
      intros Ht. specialize (Hb2 Ht). unfold same_case in *. rewrite !fmap_cons in *. by rewrite Hlow, Hb2.
  - rewrite E1. dred. destruct (Z.eqb_spec hi 0) as [->|]; [done|]. rewrite Hf. simpl (NS_CMPRSFLGS =? 0). rewrite Z.eqb_refl. cbv iota. rewrite E2. dred.
    destruct (Hby (o + 1)) as (lo' & E2' & Hlo); [apply name_at_pos in Hn; apply rd_Done in E1 as [? _]; lia|]. assert (lo' = lo) as -> by congruence.
    assert (Et : Z.lor (Z.shiftl (Z.land hi 63) 8) lo = target hi lo).
    { unfold target. do 2 f_equal. change 255 with (Z.ones 8). rewrite Z.land_ones by lia. symmetry. by apply Z.mod_small. }
    rewrite Et. apply IH; (done || lia).
Qed.
End find.

(** A place that may be pointed to: the message of [eom] bytes has a name there
    that is not the root. *)
Definition good (msg : list Z) (eom p : Z) : Prop :=
  p < 16384 /\ exists ls e cost, name_at msg eom p ls e cost /\ cost <= e /\ ls <> [].

Lemma good_mono msg msg' eom eom' p :
  good msg eom p -> eom <= eom' -> (forall q l, at_ msg q l -> q + zlen l <= eom -> at_ msg' q l) -> good msg' eom' p.
Proof.
  intros [Hp (ls & e & cost & Hn & Hc & N)] He Hat. split; [done|]. exists ls, e, cost. split_and!; [|done|done]. by eapply name_at_mono.
Qed.

Lemma find_ok domain msg eom dn ls ps :
  at_ domain dn (wire ls) -> ls <> [] -> Forall label_ok ls -> Forall (good msg eom) ps -> bytes msg -> eom <= zlen msg ->
  exists r, dn_find domain msg ps dn = Done r /\
    (r = -1 \/ 0 <= r < 16384 /\ exists ls' e cost, name_at msg eom r ls' e cost /\ cost <= e /\ same_case ls ls').
Proof.
  intros Hd N Hls Hps Hb He. induction Hps as [|p ps [Hp (ls' & e & cost & Hn & Hc & N')] _ IH]; cbn [dn_find].
  - exists (-1). split; [done|by left].
  - pose proof (name_at_pos _ _ _ _ _ _ Hn) as Hpos.
    destruct (same_name_ok domain msg eom p ls' e cost Hn (S (length msg)) ls dn) as (b & -> & Hsame); [unfold zlen in *; lia|done|done|done| |].
    { intros q Hq. destruct (byte_at msg Hb q) as (n & E & Hn'); [lia|]. by exists n. }
    dred. destruct b; [|exact IH]. exists p. split; [done|]. right. split; [lia|]. exists ls', e, cost. split_and!; [done|done|by apply Hsame].
Qed.

Section pack.
Context (src : list Z) (room eob d0 : Z) (dst0 : list Z) (searched : list Z).
Context (Heob : eob <= zlen dst0) (Hd0 : 0 <= d0 <= zlen dst0) (Hsearched : Forall (good dst0 d0) searched) (Hb0 : bytes dst0).

(** What is before the name stays as it was. *)
Definition above (dst : list Z) : Prop :=
  zlen dst = zlen dst0 /\ bytes dst /\ forall q l, at_ dst0 q l -> q + zlen l <= d0 -> at_ dst q l.

Lemma bytes_wrn (l k x : list Z) i : bytes l -> bytes x -> wrn l i x = Done k -> bytes k.
Proof.
  intros Hl Hx E. unfold wrn in E. case_match; [|done]. injection E as <-. rewrite !Forall_app. split_and!; [by apply Forall_take|done|by apply Forall_drop].
Qed.
Lemma above_wrn dst dst' p x : above dst -> bytes x -> d0 <= p -> wrn dst p x = Done dst' -> above dst'.
Proof.
  intros (Hz & Hb & Hk) Hx Hp E. split_and!; [by rewrite (wrn_zlen _ _ _ _ E)|eapply bytes_wrn; [exact Hb|exact Hx|exact E]|].
  intros q l Hl Hq. eapply at_other; [by apply Hk|exact E|]. left. lia.
Qed.

(** The name [ls] has been put at [dstp], up to [e]; names that were before
    [dstp] are still there. *)
Record packed (dst : list Z) (dstp : Z) (ls : list label) (ps : list Z) (dst' : list Z) (e : Z) (ps' : list Z) : Prop := {
  pk_above : above dst';
  pk_end : dstp < e <= eob /\ e - dstp <= zlen (wire ls);
  pk_name : exists ls' cost, name_at dst' e dstp ls' e cost /\ cost <= e - dstp + d0 /\ same_case ls ls';
  pk_kept : forall q l, at_ dst q l -> q + zlen l <= dstp -> at_ dst' q l;
  pk_new : exists new, ps' = ps ++ new /\ Forall (good dst' e) new }.

Lemma bytes_opened ls : Forall label_ok ls -> bytes (opened ls).
Proof.
  induction 1 as [|l ls [Hb Hl] _ IH]; [constructor|]. change (opened (l :: ls)) with ((zlen l :: l) ++ opened ls).
  apply Forall_app. split; [|done]. constructor; [unfold byte; lia|done].
Qed.

(** The end of a name by a pointer. *)
Lemma put_pointer dst dstp ls ps r ls' e' cost :
  above dst -> d0 <= dstp -> dstp + 1 < eob -> 0 <= r < 16384 -> name_at dst d0 r ls' e' cost -> cost <= e' -> same_case ls ls' -> 1 < zlen (wire ls) ->
  exists dst1 dst2, wr dst dstp (u8 (Z.lor (Z.shiftr r 8) NS_CMPRSFLGS)) = Done dst1 /\ wr dst1 (dstp + 1) (r mod 256) = Done dst2 /\
    packed dst dstp ls ps dst2 (dstp + 2) ps.
Proof.
  intros Ha Hdp Hroom Hr Hn Hc Hs Hw. destruct (pointer_bytes r Hr) as (Ehi & Ef & Et & _). rewrite Ehi. set (hi := r / 256 + 192) in *. set (lo := r mod 256) in *.
  pose proof Ha as (Hz & _ & Hk). destruct (wrn_ok dst dstp [hi]) as [dst1 E1]; [lia|change (zlen [hi]) with 1; lia|].
  destruct (wrn_ok dst dstp ([hi] ++ [lo])) as [dst2 E2]; [lia|change (zlen ([hi] ++ [lo])) with 2; lia|].
  exists dst1, dst2. rewrite !wr_wrn. split; [done|]. split.
  { rewrite <- E2. change (dstp + 1) with (dstp + zlen [hi]). apply wrn_wrn; [done|]. change (zlen [hi]) with 1. change (zlen [lo]) with 1. lia. }
  assert (Hb : bytes ([hi] ++ [lo])).
  { pose proof (Z.mod_pos_bound r 256 ltac:(lia)). constructor; [|constructor; [unfold byte, lo; lia|constructor]]. unfold byte, hi.
    pose proof (Z.div_pos r 256 ltac:(lia) ltac:(lia)).
    pose proof (Z.div_lt_upper_bound r 256 64 ltac:(lia) ltac:(lia)). lia. }
  pose proof (above_wrn _ _ _ _ Ha Hb Hdp E2) as Ha2. pose proof (rdn_wrn_same _ _ _ _ E2) as Hat. fold (at_ dst2 dstp ([hi] ++ [lo])) in Hat.
  apply at_cons in Hat as [Ehi' Hat]. apply at_cons in Hat as [Elo _].
  split; [done|lia| | |].
  - exists ls', (cost + 2). split; [|split; [pose proof (name_at_pos _ _ _ _ _ _ Hn); lia|done]]. eapply name_pointer; [lia|done|done|done|]. rewrite Et.
    eapply name_at_mono; [exact Hn|lia|].
    intros q k Hq Hle. eapply at_other; [exact Hq|exact E2|]. left. lia.
  - intros q l Hl Hq. eapply at_other; [exact Hl|exact E2|]. by left.
  - exists []. by rewrite app_nil_r.
Qed.

(** The end of a name by the root. *)
Lemma put_root dst dstp ps : above dst -> d0 <= dstp -> dstp + 1 < eob ->
  exists dst', wrn dst dstp [0] = Done dst' /\ packed dst dstp [] ps dst' (dstp + 1) ps.
Proof.
  intros Ha Hdp Hroom. pose proof Ha as (Hz & _ & _). destruct (wrn_ok dst dstp [0]) as [dst' E]; [lia|change (zlen [0]) with 1; lia|].
  exists dst'. split; [done|]. assert (Hb : bytes [0]) by (repeat constructor; unfold byte; lia).
  pose proof (rdn_wrn_same _ _ _ _ E) as Hat. fold (at_ dst' dstp [0]) in Hat. apply at_cons in Hat as [Hat _].
  split; [by eapply above_wrn|change (zlen (wire [])) with 1; lia| | |].
  - exists [], 1. split_and!; [constructor; [lia|done]|lia|done].
  - intros q l Hl Hq. eapply at_other; [exact Hl|exact E|]. by left.
  - exists []. by rewrite app_nil_r.
Qed.

(** One more label in front. *)
Lemma put_label dst dst1 dstp l ls ps ps1 dst' e ps' :
  above dst -> d0 <= dstp -> label_ok l -> wrn dst dstp (zlen l :: l) = Done dst1 ->
  packed dst1 (dstp + (zlen l + 1)) ls ps1 dst' e ps' -> ps1 = ps \/ ps1 = ps ++ [dstp] /\ dstp < 16384 ->
  packed dst dstp (l :: ls) ps dst' e ps'.
Proof.
  intros Ha Hdp Hl E [Ha' He (ls' & cost & Hn & Hc & Hs) Hk (new & -> & Hnew)] Hps. pose proof Hl as [Hb Hl63].
  assert (Hat : at_ dst' dstp (zlen l :: l)).
  { apply Hk; [by eapply rdn_wrn_same|]. rewrite zlen_cons. lia. }
  assert (Hname : name_at dst' e dstp (l :: ls') e (cost + (zlen l + 1))).
  { constructor; [done|done|]. by replace (dstp + 1 + zlen l) with (dstp + (zlen l + 1)) by lia. }
  split; [done|rewrite !name_wire_length in *; rewrite opened_cons; lia| | |].
  - exists (l :: ls'), (cost + (zlen l + 1)). split_and!; [done|lia|]. unfold same_case in *. rewrite !fmap_cons. by rewrite Hs.
  - intros q k Hq Hle. apply Hk; [|lia]. eapply at_other; [exact Hq|exact E|]. by left.
  - destruct Hps as [->|[-> Hp]]; [by exists new|]. exists (dstp :: new). rewrite <- app_assoc. split; [done|]. constructor; [|done].
    split; [done|]. exists (l :: ls'), e, (cost + (zlen l + 1)). split_and!; [done|lia|done].
Qed.

Lemma pack_loop_ok ls : forall fuel srcp dst dstp ps,
  (length ls < fuel)%nat -> Forall label_ok ls -> at_ src srcp (wire ls) -> above dst -> d0 <= dstp ->
  exists dst' r ps', pack_loop fuel src room eob searched srcp dst dstp (Some ps) = Done (dst', r, Some ps') /\ above dst' /\
    match r with
    | Some e => packed dst dstp ls ps dst' e ps'
    | None => ps' = searched /\ eob <= dstp + zlen (wire ls)
    end.
Proof.
  induction ls as [|l ls IH]; intros [|fuel] srcp dst dstp ps Hf Hls Hat Ha Hdp; simpl in Hf; try lia; cbn [pack_loop].
  - apply at_cons in Hat as [E _]. rewrite E. dred. simpl (0 =? 0). cbv iota. dred. simpl (0 <=? -1). cbv iota. simpl (flagged 0). cbv iota.
    rewrite Z.add_0_r. destruct (Z.leb_spec eob (dstp + 1)).
    + exists dst, None, searched. split_and!; [done|done|done|]. change (zlen (wire [])) with 1. lia.
    + assert (rdn src srcp (0 + 1) = Done [0]) as ->.
      { assert (Hat : at_ src srcp [0]). { apply at_cons. split; [done|]. apply at_nil. apply rd_Done in E as [? E]. apply lookup_lt_Some in E. unfold zlen. lia. } exact Hat. }
      dred. destruct (put_root dst dstp ps Ha Hdp) as (dst' & -> & Hpk); [lia|]. dred. simpl (0 =? 0). simpl negb. simpl andb. cbv iota.
      exists dst', (Some (dstp + 1)), ps. split_and!; [done|apply Hpk|done].
  - apply Forall_cons_iff in Hls as [Hl Hls]. pose proof Hl as [Hb Hl63]. pose proof Hat as Hat0.
    change (wire (l :: ls)) with (((zlen l :: l) ++ opened ls) ++ [0]) in Hat. rewrite <- app_assoc in Hat.
    destruct (at_label _ _ _ _ Hat) as (En & _ & Hrest). rewrite En. dred. rewrite (proj2 (Z.eqb_neq (zlen l) 0)) by lia.
    pose proof Ha as (Hz & Hbd & Hkeep).
    destruct (find_ok src dst d0 srcp (l :: ls) searched Hat0) as (r & -> & Hr); [done|by constructor| |done|lia|].
    { eapply Forall_impl; [|exact Hsearched]. intros p Hp. by eapply good_mono. }
    dred. destruct Hr as [->|(Hr & ls' & e' & cost & Hn & Hc & Hs)].
    + simpl (0 <=? -1). cbv iota. set (ps1 := if negb false && (zlen ps <? room) && (dstp <? 16384) then ps ++ [dstp] else ps).
      rewrite (proj2 (flagged_small (zlen l) ltac:(lia))) by lia.
      assert (Hw : zlen (wire (l :: ls)) = zlen l + 1 + zlen (wire ls)) by (rewrite !name_wire_length, opened_cons; lia). pose proof (zlen_nonneg (opened ls)) as Hnn.
      destruct (Z.leb_spec eob (dstp + 1 + zlen l)).
      { exists dst, None, searched. split_and!; [done|done|done|]. rewrite !name_wire_length in *. lia. }
      assert (Hbytes : rdn src srcp (zlen l + 1) = Done (zlen l :: l)).
      { apply at_app in Hat as [Hat _]. unfold at_ in Hat. by rewrite zlen_cons in Hat. }
      rewrite Hbytes. dred. destruct (wrn_ok dst dstp (zlen l :: l)) as [dst1 E1]; [lia|rewrite zlen_cons; lia|]. rewrite E1. dred.
      assert (Ha1 : above dst1) by (eapply above_wrn; [exact Ha| |exact Hdp|exact E1]; constructor; [unfold byte; lia|done]).
      assert (Hps1 : ps1 = ps \/ ps1 = ps ++ [dstp] /\ dstp < 16384).
      { unfold ps1. destruct (Z.ltb_spec (zlen ps) room), (Z.ltb_spec dstp 16384); simpl; auto. }
      destruct (IH fuel (srcp + (zlen l + 1)) dst1 (dstp + (zlen l + 1)) ps1) as (dst' & r & ps' & Ed & Ha' & Hr); [lia|done| |done|lia|].
      { by replace (srcp + (zlen l + 1)) with (srcp + 1 + zlen l) by lia. }
      exists dst', r, ps'. split; [exact Ed|]. split; [done|]. destruct r as [e|]; [by eapply put_label|]. destruct Hr as [-> Hr]. split; [done|]. rewrite !name_wire_length in *. lia.
    + rewrite (proj2 (Z.leb_le 0 r)) by lia. destruct (Z.leb_spec eob (dstp + 1)).
      * exists dst, None, searched. split_and!; [done|done|done|]. rewrite name_wire_length, opened_cons. pose proof (zlen_nonneg (opened ls)). lia.
      * destruct (put_pointer dst dstp (l :: ls) ps r ls' e' cost) as (dst1 & dst2 & Hw1 & Hw2 & Hpk); [done|done|lia|done|exact Hn|done|done| |].
        { rewrite name_wire_length, opened_cons. pose proof (zlen_nonneg (opened ls)). lia. }
        rewrite Hw1. dred. rewrite Hw2. dred. exists dst2, (Some (dstp + 2)), ps. split_and!; [done|apply Hpk|done].
Qed.
End pack.

Lemma legal_ok src ls : forall fuel srcp l, (length ls < fuel)%nat -> Forall label_ok ls -> at_ src srcp (wire ls) ->
  l + zlen (wire ls) <= NS_MAXCDNAME -> legal fuel src srcp l = Done true.
Proof.
  induction ls as [|l ls IH]; intros [|fuel] srcp n Hf Hls Hat Hn; simpl in Hf; try lia; cbn [legal].
  - apply at_cons in Hat as [E _]. rewrite E. dred. simpl (flagged 0). cbv iota. rewrite (proj2 (Z.ltb_ge _ _)); [done|].
    change (zlen (wire [])) with 1 in Hn. lia.
  - apply Forall_cons_iff in Hls as [[Hb Hl] Hls]. change (wire (l :: ls)) with (((zlen l :: l) ++ opened ls) ++ [0]) in Hat. rewrite <- app_assoc in Hat.
    destruct (at_label _ _ _ _ Hat) as (En & _ & Hrest). rewrite En. dred. rewrite (proj2 (flagged_small (zlen l) ltac:(lia))) by lia.
    rewrite name_wire_length, opened_cons in Hn. pose proof (zlen_nonneg (opened ls)). rewrite (proj2 (Z.ltb_ge _ _)), (proj2 (Z.eqb_neq (zlen l) 0)) by lia.
    apply IH; [lia|done| |rewrite name_wire_length; lia]. by replace (srcp + (zlen l + 1)) with (srcp + 1 + zlen l) by lia.
Qed.

Lemma opened_length ls : Forall label_ok ls -> Z.of_nat (length ls) <= zlen (opened ls).
Proof. induction 1 as [|l ls [_ Hl] _ IH]; [done|]. rewrite opened_cons. simpl. lia. Qed.

Lemma same_case_wire ls ls' : same_case ls ls' -> zlen (wire ls) = zlen (wire ls').
Proof.
  intros E. rewrite !name_wire_length. f_equal. revert ls' E. induction ls as [|l ls IH]; intros [|l' ls'] E; try done.
  injection E as E1 E2. rewrite !opened_cons, (IH ls' E2). apply lower_length in E1. lia.
Qed.

(** A packed name can be read again. *)
Definition pack_result (dst : list Z) (d0 dstsiz : Z) (ls : list label) (ps : list Z) (dst' : list Z) (r : Z) (ps' : list Z) : Prop :=
  above d0 dst dst' /\
  (r = -1 /\ ps' = ps /\ dstsiz <= zlen (wire ls) \/
   0 < r <= dstsiz /\ r <= zlen (wire ls) /\ Forall (good dst' (d0 + r)) ps' /\
     exists ls' cost, name_at dst' (d0 + r) d0 ls' (d0 + r) cost /\ cost <= d0 + r /\ same_case ls ls').

Lemma pack_ok src ls dst d0 dstsiz ps room :
  Forall label_ok ls -> zlen (wire ls) <= NS_MAXCDNAME -> at_ src 0 (wire ls) ->
  bytes dst -> 0 <= d0 -> 0 <= dstsiz -> d0 + dstsiz <= zlen dst -> Forall (good dst d0) ps ->
  exists dst' r ps', MRns_name_pack src dst d0 dstsiz (Some ps) room = Done (dst', r, Some ps') /\ pack_result dst d0 dstsiz ls ps dst' r ps'.
Proof.
  intros Hls Hw Hat Hb Hd Hs Hroom Hps. unfold MRns_name_pack. pose proof (at_bounds _ _ _ Hat) as [_ Hsz]. rewrite name_wire_length in Hsz.
  pose proof (opened_length ls Hls). assert (Hf : (length ls < S (length src))%nat) by (unfold zlen in *; lia).
  rewrite (legal_ok src ls _ 0 0 Hf Hls Hat) by lia. dred. simpl negb. cbv iota.
  assert (Ha0 : above d0 dst dst) by (split_and!; done).
  destruct (pack_loop_ok src room (d0 + dstsiz) d0 dst ps Hroom ltac:(lia) Hps ls (S (length src)) 0 dst d0 ps Hf Hls Hat Ha0 ltac:(lia))
    as (dst' & r & ps' & E & Ha & Hr).
  simpl default. rewrite E. dred. exists dst'. destruct r as [e|].
  - destruct Hr as [_ He (ls' & cost & Hn & Hc & Hsame) _ (new & -> & Hnew)]. exists (e - d0), (ps ++ new). split; [done|]. split; [done|]. right.
    replace (d0 + (e - d0)) with e by lia. split; [lia|]. split; [lia|]. split.
    + apply Forall_app. split; [|done]. eapply Forall_impl; [|exact Hps]. intros p Hp. eapply good_mono; [exact Hp|lia|apply Ha].
    + exists ls', cost. split_and!; [done|lia|done].
  - destruct Hr as [-> Hr]. exists (-1), ps. split; [done|]. split; [done|]. left. split_and!; [done|done|lia].
Qed.

(** C12: A name that [MRns_name_pack] has put into a message, compressed with
    pointers to the names before it, is read by [MRns_name_unpack] as the same
    name, but for the case of letters; nothing before it is changed, and all
    pointers that are kept for later names still lead to names.  There is
    an error only if the name does not fit without compression. *)
Theorem MRns_name_pack_unpack src ls dst d0 dstsiz ps room tmp :
  Forall label_ok ls -> zlen (wire ls) <= NS_MAXCDNAME -> at_ src 0 (wire ls) ->
  bytes dst -> 0 <= d0 -> 0 <= dstsiz -> d0 + dstsiz <= zlen dst -> Forall (good dst d0) ps -> zlen tmp = NS_MAXCDNAME ->
  exists dst' r ps', MRns_name_pack src dst d0 dstsiz (Some ps) room = Done (dst', r, Some ps') /\
    (forall q l, at_ dst q l -> q + zlen l <= d0 -> at_ dst' q l) /\
    (r = -1 /\ ps' = ps /\ dstsiz <= zlen (wire ls) \/
     0 < r <= dstsiz /\ Forall (good dst' (d0 + r)) ps' /\
     exists ls' tmp', same_case ls ls' /\ MRns_name_unpack dst' (d0 + r) d0 tmp 0 NS_MAXCDNAME = Done (tmp', r) /\ at_ tmp' 0 (wire ls')).
Proof.
  intros Hls Hw Hat Hb Hd Hs Hroom Hps Htmp.
  destruct (pack_ok src ls dst d0 dstsiz ps room Hls Hw Hat Hb Hd Hs Hroom Hps) as (dst' & r & ps' & E & (Hz & _ & Hk) & Hr).
  exists dst', r, ps'. split; [done|]. split; [done|]. destruct Hr as [?|(Hr & _ & Hg & ls' & cost & Hn & Hc & Hsame)]; [by left|]. right.
  split; [done|]. split; [done|]. rewrite (same_case_wire ls ls' Hsame) in Hw.
  destruct (unpack_at dst' (d0 + r) d0 tmp 0 NS_MAXCDNAME ls' (d0 + r) cost Hn Hc Hw) as (tmp' & E' & Hg'); [lia|lia|].
  exists ls', tmp'. split_and!; [done| |by eapply grown_at]. by replace r with (d0 + r - d0) at 2 by lia.
Qed.

(** "a.b" after "b", to which it gets a pointer. *)
Lemma MRns_name_pack_unpack_witness : exists dst' r ps',
  MRns_name_pack [1; 97; 1; 98; 0] [1; 98; 0; 9; 9; 9; 9; 9; 9] 3 6 (Some [0]) 253 = Done (dst', r, Some ps') /\
    (forall q l, at_ [1; 98; 0; 9; 9; 9; 9; 9; 9] q l -> q + zlen l <= 3 -> at_ dst' q l) /\
    (r = -1 /\ ps' = [0] /\ 6 <= 5 \/
     0 < r <= 6 /\ Forall (good dst' (3 + r)) ps' /\
     exists ls' tmp', same_case [[97]; [98]] ls' /\ MRns_name_unpack dst' (3 + r) 3 (replicate (Z.to_nat 255) 0) 0 NS_MAXCDNAME = Done (tmp', r) /\
       at_ tmp' 0 (wire ls')).
Proof.
  apply (MRns_name_pack_unpack [1; 97; 1; 98; 0] [[97]; [98]] [1; 98; 0; 9; 9; 9; 9; 9; 9] 3 6 [0] 253); try (by vm_compute).
  - unfold label_ok. apply (bool_decide_unpack _). vm_compute. exact I.
  - apply (bool_decide_unpack _). vm_compute. exact I.
  - constructor; [|constructor]. split; [done|]. exists [[98]], 3, 3. split; [|done].
    apply (name_label _ _ 0 [98] [] 3 1); [by vm_compute|unfold label_ok; apply (bool_decide_unpack _); vm_compute; exact I|].
    by apply (name_root _ _ 2).
Defined.
