(* ===== verification/NameList.v ===== *)
(** * Lists of domain names

    The text of a list is its names separated by commas.  Compressing a list
    and uncompressing it gives the text back; the uncompression can write one
    byte after the end of its destination. *)

From stdpp Require Import base tactics list numbers.
From S2P Require Import Prelude Array Name NameOk NameMsg.

#[local] Open Scope Z_scope.

Definition name_ok (n : list label) : Prop := Forall label_ok n /\ zlen (wire n) <= NS_MAXCDNAME.
(** A comma in a label is not escaped in the text. *)
Definition comma_free (n : list label) : Prop := Forall (fun l => 44 ∉ l) n.
Definition list_tail (ns : list (list label)) : list Z := ns ≫= fun n => 44 :: text n.
Definition list_text (ns : list (list label)) : list Z := match ns with [] => [] | n :: r => text n ++ list_tail r end.
Definition wires (ns : list (list label)) : Z := zlen (ns ≫= wire).

(** ** Scanning *)
Lemma span_ok stop s c r : Forall (fun x => stop x = false) s -> stop c = true -> span stop (s ++ c :: r) = Done (zlen s).
Proof.
  intros Hs Hc. induction Hs as [|x s Hx _ IH]; simpl; [by rewrite Hc|]. rewrite Hx, IH. dred. by rewrite zlen_cons.
Qed.

Lemma at_drop (b : list Z) o l : at_ b o l -> exists r, drop (Z.to_nat o) b = l ++ r.
Proof.
  intros Hat. destruct (at_bounds _ _ _ Hat) as [H0 H1]. unfold at_ in Hat. rewrite rdn_in in Hat by (auto with dhcp; lia). injection Hat as Hat.
  exists (drop (Z.to_nat (zlen l)) (drop (Z.to_nat o) b)). rewrite <- Hat at 1. by rewrite take_drop.
Qed.

Lemma upto_comma_ok b o s c : at_ b o (s ++ [c]) -> chars_ok s -> 44 ∉ s -> c = 0 \/ c = 44 -> upto_comma b o = Done (zlen s).
Proof.
  intros Hat Hs H44 Hc. destruct (at_drop _ _ _ Hat) as [r Er]. unfold upto_comma. rewrite Er, <- app_assoc. simpl app. apply span_ok.
  - unfold chars_ok in Hs. rewrite Forall_forall in Hs |- *. intros x Hx. apply orb_false_iff. rewrite !Z.eqb_neq. destruct (Hs x Hx) as [_ N]. split; [done|].
    intros ->. apply H44. by apply list_elem_of_In.
  - apply orb_true_iff. rewrite !Z.eqb_eq. done.
Qed.
Lemma strlen_ok b o s : at_ b o (s ++ [0]) -> chars_ok s -> strlen b o = Done (zlen s).
Proof.
  intros Hat Hs. destruct (at_drop _ _ _ Hat) as [r Er]. unfold strlen. rewrite Er, <- app_assoc. simpl app. apply span_ok; [|done].
  eapply Forall_impl; [|exact Hs]. intros x [_ N]. apply Z.eqb_neq. done.
Qed.

(** ** The text of a list *)
Lemma char_text_comma c : 44 ∈ char_text c -> c = 44 \/ ~ byte c.
Proof.
  intros H. destruct (decide (byte c)) as [Hc|]; [|by right]. left. destruct (decimal_digits c Hc) as (H1 & H2 & H3 & _). revert H. unfold char_text, digit. repeat case_match;
    rewrite ?list_elem_of_cons; intros; rewrite ?elem_of_cons, ?elem_of_nil in *; intuition lia.
Qed.
Lemma label_text_comma l : bytes l -> 44 ∈ label_text l -> 44 ∈ l.
Proof.
  intros Hb H. apply list_elem_of_bind in H as (c & Hc & Hin). rewrite Forall_forall in Hb. apply char_text_comma in Hc as [->|N]; [done|].
  exfalso. by apply N, Hb, list_elem_of_In.
Qed.
Lemma text_comma n : Forall label_ok n -> comma_free n -> 44 ∉ text n.
Proof.
  intros Hn Hc Hin. assert (Ht : forall l, l ∈ n -> 44 ∉ label_text l).
  { intros l Hl H. unfold comma_free in Hc. rewrite Forall_forall in Hn, Hc. apply list_elem_of_In in Hl. apply (Hc l Hl), label_text_comma; [by apply Hn|done]. }
  destruct n as [|l n]; [by apply list_elem_of_singleton in Hin|]. simpl in Hin. apply elem_of_app in Hin as [Hin|Hin]; [by apply (Ht l); [constructor|]|].
  apply list_elem_of_bind in Hin as (k & Hk & Hkin). apply elem_of_cons in Hk as [?|Hk]; [done|]. by apply (Ht k); [by constructor|].
Qed.

(** ** Compression *)

(** The message of [eom] bytes has the names [ns] from [p] to [e]. *)
Inductive names_at (msg : list Z) (eom : Z) : Z -> list (list label) -> Z -> Prop :=
  | names_nil p : names_at msg eom p [] p
  | names_cons p n ns e e' cost :
      name_at msg eom p n e cost -> cost <= e -> names_at msg eom e ns e' -> names_at msg eom p (n :: ns) e'.

Lemma names_at_mono msg msg' eom eom' p ns e :
  names_at msg eom p ns e -> eom <= eom' -> (forall q l, at_ msg q l -> q + zlen l <= eom -> at_ msg' q l) -> names_at msg' eom' p ns e.
Proof. intros H He Hk. induction H as [|p n ns e e' cost Hn Hc _ IH]; [constructor|]. econstructor; [by eapply name_at_mono|done|done]. Qed.
Lemma names_at_snoc msg eom p ns e n e' cost :
  names_at msg eom p ns e -> name_at msg eom e n e' cost -> cost <= e' -> names_at msg eom p (ns ++ [n]) e'.
Proof. intros H Hn Hc. induction H as [|p m ms e e0 c Hm Hcm _ IH]; [econstructor; [done|done|constructor]|]. econstructor; [done|done|by apply IH]. Qed.

Definition same_names (ns ns' : list (list label)) : Prop := Forall2 same_case ns ns'.

Section compress.
Context (buf : list Z) (buflen size : Z) (compbuf : list Z) (Hcomp : size <= zlen compbuf).

(** The names [done] have been compressed to [clen] bytes. *)
Record compressed (done : list (list label)) (clen : Z) (out ps : list Z) : Prop := {
  cm_clen : 0 <= clen <= wires done /\ clen <= size;
  cm_size : zlen out = zlen compbuf;
  cm_bytes : bytes out;
  cm_ptrs : Forall (good out clen) ps;
  cm_names : exists ns, same_names done ns /\ names_at out clen 0 ns clen }.

Lemma wires_snoc ns n : wires (ns ++ [n]) = wires ns + zlen (wire n).
Proof. unfold wires. rewrite bind_app, zlen_app. simpl. by rewrite app_nil_r. Qed.

Lemma text_length_pos n : Forall label_ok n -> 1 <= zlen (text n).
Proof.
  intros Hn. destruct Hn as [|l n [_ Hl] _]; [done|]. simpl. rewrite zlen_app. pose proof (label_text_length l). pose proof (zlen_nonneg (tail_text n)). lia.
Qed.

Lemma compress_one done n clen out ps src c :
  compressed done clen out ps -> name_ok n -> comma_free n -> zlen (text n) <= NS_MAXCDNAME - 1 ->
  at_ buf src (text n ++ [c]) -> c = 0 \/ c = 44 -> src < buflen ->
  (exists r out' ps', compress_step buf buflen size (mk_comp src clen out (Some ps)) =
     Done (inl (mk_comp (src + (zlen (text n) + 1)) (clen + r) out' (Some ps'))) /\ compressed (done ++ [n]) (clen + r) out' ps' /\ 0 < r) \/
  (exists out', compress_step buf buflen size (mk_comp src clen out (Some ps)) = Done (inr (out', None)) /\ zlen out' = zlen compbuf /\
     size <= wires (done ++ [n])).
Proof.
  intros [Hcl Hz Hb Hps (ns & Hsame & Hns)] [Hn Hw] Hcf Ht Hat Hc Hsrc. unfold compress_step.
  rewrite (proj2 (Z.ltb_lt src buflen)) by done. simpl negb. cbv iota.
  rewrite (upto_comma_ok buf src (text n) c Hat (text_chars n Hn) (text_comma n Hn Hcf) Hc). dred.
  rewrite (proj2 (Z.ltb_ge _ _)) by done. pose proof Hat as Hat'. apply at_app in Hat' as [Hat' _]. unfold at_ in Hat'. rewrite Hat'. dred.
  unfold MRns_name_compress.
  destruct (pton_text (text n ++ [0]) 0 (text n) (replicate (Z.to_nat NS_MAXCDNAME) 0) 0 NS_MAXCDNAME (text_chars n Hn)) as (tmp & r & -> & _ & Hr); [|lia|done|done|].
  { pose proof (rdn_middle [] (text n ++ [0]) []) as H. rewrite app_nil_r in H. exact H. }
  rewrite name_of_text_text in Hr by done. destruct Hr as [_ Hr]. rewrite (proj2 (Z.leb_le _ _)) in Hr by done. destruct Hr as [Er Htmp]. dred.
  rewrite (proj2 (Z.eqb_neq r (-1))) by (subst r; by destruct n).
  destruct (pack_ok tmp n out clen (size - clen) ps 253 Hn Hw Htmp Hb) as (out' & k & ps' & -> & Ha & Hk); [lia|lia|lia|done|]. dred.
  destruct Ha as (Hz' & Hb' & Hkeep). rewrite wires_snoc. destruct Hk as [(-> & -> & Hfull)|(Hk & Hks & Hg & n' & cost & Hn' & Hcost & Hs)].
  - right. simpl (-1 <? 0). cbv iota. exists out'. split_and!; [done|lia|lia].
  - left. rewrite (proj2 (Z.ltb_ge k 0)) by lia. exists k, out', ps'. split; [done|]. split; [|lia]. split; [rewrite wires_snoc; lia|lia|done|done|].
    exists (ns ++ [n']). split; [by apply Forall2_app; [|constructor]|]. eapply names_at_snoc; [|exact Hn'|done]. eapply names_at_mono; [exact Hns|lia|done].
Qed.

(** Where the text of the names that are left starts. *)
Definition rest_at (src : Z) (todo : list (list label)) : Prop :=
  match todo with [] => buflen <= src | _ => at_ buf src (list_text todo ++ [0]) /\ src + zlen (list_text todo) <= buflen end.

Lemma rest_cons src n todo : rest_at src (n :: todo) -> buflen <= src + zlen (list_text (n :: todo)) + 1 ->
  exists c, (c = 0 \/ c = 44) /\ at_ buf src (text n ++ [c]) /\ rest_at (src + (zlen (text n) + 1)) todo /\
    (todo <> [] -> src + (zlen (text n) + 1) + zlen (list_text todo) = src + zlen (list_text (n :: todo))).
Proof.
  intros [Hat Hle] Hge. destruct todo as [|m todo].
  - exists 0. change (list_text [n]) with (text n ++ []) in *. rewrite app_nil_r in *. split_and!; [by left|done|simpl; lia|done].
  - exists 44. assert (El : list_text (n :: m :: todo) = text n ++ 44 :: list_text (m :: todo)) by done. rewrite El in *.
    rewrite <- app_assoc in Hat. change ((44 :: list_text (m :: todo)) ++ [0]) with ([44] ++ (list_text (m :: todo) ++ [0])) in Hat.
    rewrite app_assoc in Hat. apply at_app in Hat as [H1 H2]. rewrite zlen_app in H2. change (zlen [44]) with 1 in H2.
    rewrite zlen_app, zlen_cons in *. split_and!; [by right|done|split; [done|lia]|lia].
Qed.

Lemma compress_loop todo : forall fuel i done clen out ps src,
  (length todo < fuel)%nat -> Forall (fun n => name_ok n /\ comma_free n /\ zlen (text n) <= NS_MAXCDNAME - 1) todo ->
  compressed done clen out ps -> rest_at src todo -> (todo <> [] -> buflen <= src + zlen (list_text todo) + 1) ->
  exists out' r, for_loop fuel i (fun _ => compress_step buf buflen size) (mk_comp src clen out (Some ps)) = Done (inr (out', r)) /\
    match r with
    | None => size <= wires (done ++ todo)
    | Some k => exists ps', compressed (done ++ todo) k out' ps' /\ clen + Z.of_nat (length todo) <= k
    end.
Proof.
  induction todo as [|n todo IH]; intros [|fuel] i done clen out ps src Hf Hok Hcm Hrest Hend; simpl in Hf; try lia; cbn [for_loop]; set (loop := for_loop fuel (i + 1) _).
  - unfold compress_step. simpl in Hrest. rewrite (proj2 (Z.ltb_ge src buflen)) by done. simpl negb. cbv iota. dred.
    exists out, (Some clen). split; [done|]. exists ps. rewrite app_nil_r. split; [done|simpl; lia].
  - apply Forall_cons_iff in Hok as [(Hn & Hcf & Ht) Hok].
    destruct (rest_cons src n todo Hrest (Hend ltac:(done))) as (c & Hc & Hat & Hrest' & Hlen).
    pose proof (text_length_pos n (proj1 Hn)). destruct Hrest as [_ Hle]. assert (Hpos : 1 <= zlen (list_text (n :: todo))).
    { simpl. rewrite zlen_app. pose proof (zlen_nonneg (list_tail todo)). lia. }
    destruct (compress_one done n clen out ps src c Hcm Hn Hcf Ht Hat Hc) as [(r & out' & ps' & -> & Hcm' & Hr)|(out' & -> & _ & Hfull)]; [lia|..]; dred.
    + destruct (IH fuel (i + 1) (done ++ [n]) (clen + r) out' ps' (src + (zlen (text n) + 1))) as (out2 & r2 & E & Hr2); [lia|done|done|done| |].
      * intros N. rewrite Hlen by done. by apply Hend.
      * exists out2, r2. split; [exact E|]. rewrite <- app_assoc in Hr2. destruct r2; [|done]. destruct Hr2 as (ps2 & ? & ?). exists ps2. split; [done|]. simpl length. lia.
    + exists out', None. split; [done|]. change (n :: todo) with ([n] ++ todo). rewrite app_assoc. unfold wires in *. rewrite (bind_app wire), zlen_app.
      pose proof (zlen_nonneg (todo ≫= wire)). lia.
Qed.
End compress.

Lemma list_text_length ns : Forall (fun n => Forall label_ok n) ns -> Z.of_nat (length ns) <= zlen (list_text ns).
Proof.
  intros H. assert (Ht : forall ms, Forall (fun n => Forall label_ok n) ms -> Z.of_nat (length ms) <= zlen (list_tail ms)).
  { induction 1 as [|m ms Hm _ IH]; [done|]. change (list_tail (m :: ms)) with (44 :: text m ++ list_tail ms). rewrite zlen_cons, zlen_app.
    pose proof (zlen_nonneg (text m)). simpl length. lia. }
  destruct H as [|n ns Hn Hns]; [done|]. simpl list_text. rewrite zlen_app. specialize (Ht ns Hns). pose proof (text_length_pos n Hn). simpl length. lia.
Qed.

(** The names of a text are compressed, if there is room for them. *)
Lemma compress_list_ok buf buflen compbuf size ns :
  Forall (fun n => name_ok n /\ comma_free n /\ zlen (text n) <= NS_MAXCDNAME - 1) ns -> ns <> [] ->
  at_ buf 0 (list_text ns ++ [0]) -> buflen = zlen (list_text ns) \/ buflen = zlen (list_text ns) + 1 ->
  bytes compbuf -> 0 <= size <= zlen compbuf ->
  exists out r, MRns_name_compress_list buf buflen compbuf size = Done (out, r) /\
    (r = -1 /\ size <= wires ns \/
     0 < r <= size /\ r <= wires ns /\ bytes out /\ zlen out = zlen compbuf /\ exists ns', same_names ns ns' /\ names_at out r 0 ns' r).
Proof.
  intros Hok Hne Hat Hlen Hb Hsize. unfold MRns_name_compress_list.
  assert (Hz : zlen (replicate (Z.to_nat size) 0) = size) by (unfold zlen; rewrite length_replicate; lia).
  destruct (wrn_ok compbuf 0 (replicate (Z.to_nat size) 0)) as [out0 E0]; [lia|lia|]. rewrite E0. dred.
  pose proof (wrn_zlen _ _ _ _ E0) as Hz0. assert (Hl : Forall (fun n => Forall label_ok n) ns).
  { eapply Forall_impl; [|exact Hok]. by intros n ([? _] & _). }
  pose proof (list_text_length ns Hl).
  destruct (compress_loop buf buflen size out0 ltac:(lia) ns (S (Z.to_nat buflen)) 0 [] 0 out0 [] 0) as (out & r & -> & Hr); [lia|done| | | |].
  - split; [change (wires []) with 0; lia|done|eapply bytes_wrn; [exact Hb| |exact E0]|constructor|exists []; split; constructor].
    apply Forall_replicate. unfold byte. lia.
  - destruct ns; [done|]. split; [done|lia].
  - lia.
  - dred. unfold returned. dred. exists out, (default (-1) r). split; [done|]. simpl app in Hr. destruct r as [k|]; [right|by left].
    destruct Hr as (ps' & [[H0 H1] Hzo Hbo _ Hns] & Hk). destruct ns; [done|]. simpl length in Hk. simpl default. split_and!; [lia|lia|lia|done|lia|done].
Qed.

(** ** Uncompression *)
Lemma uncompress_at buf buflen src n e cost out dst remaining :
  name_at buf buflen src n e cost -> cost <= buflen -> buflen <= zlen buf -> zlen (wire n) <= NS_MAXCDNAME ->
  0 <= dst -> 0 <= remaining -> dst + remaining <= zlen out ->
  exists out', MRns_name_uncompress buf buflen src out dst remaining = Done (out', if zlen (text n) <? remaining then e - src else -1) /\
    if zlen (text n) <? remaining then grown out dst (text n ++ [0]) out' else exists t, grown out dst t out'.
Proof.
  intros Hn Hc Hbuf Hw Hd Hr Hroom. unfold MRns_name_uncompress.
  destruct (unpack_at buf buflen src (replicate (Z.to_nat NS_MAXCDNAME) 0) 0 NS_MAXCDNAME n e cost Hn Hc Hw ltac:(lia)) as (tmp & -> & Hg).
  { unfold zlen. rewrite length_replicate. done. }
  dred. pose proof (name_at_pos _ _ _ _ _ _ Hn). rewrite (proj2 (Z.eqb_neq (e - src) (-1))) by lia.
  destruct (ntop_text tmp 0 n out dst remaining (name_at_labels _ _ _ _ _ _ Hn) (grown_at _ _ _ _ Hg) Hd Hr Hroom) as (out' & -> & Ho). dred.
  pose proof (zlen_nonneg (text n)). exists out'. split; [|done]. destruct (Z.ltb_spec (zlen (text n)) remaining); [|done].
  by rewrite (proj2 (Z.eqb_neq (zlen (text n) + 1) (-1))) by lia.
Qed.

Lemma list_tail_chars ns : Forall (Forall label_ok) ns -> chars_ok (list_tail ns).
Proof.
  induction 1 as [|n ns Hn _ IH]; [constructor|]. change (list_tail (n :: ns)) with (44 :: text n ++ list_tail ns).
  constructor; [by unfold byte|]. apply Forall_app. split; [by apply text_chars|done].
Qed.
Lemma list_text_chars ns : Forall (Forall label_ok) ns -> chars_ok (list_text ns).
Proof. destruct 1; [constructor|]. apply Forall_app. split; [by apply text_chars|by apply list_tail_chars]. Qed.
Lemma names_at_labels msg eom p ns e : names_at msg eom p ns e -> Forall (Forall label_ok) ns.
Proof. induction 1; [constructor|]. constructor; [by eapply name_at_labels|done]. Qed.

Section uncompress.
Context (buf : list Z) (buflen : Z) (out0 : list Z) (d0 size : Z).
Context (Hbuf : buflen <= zlen buf) (Hd0 : 0 <= d0) (Hroom : d0 + size <= zlen out0).

(** The text [t] has been written, and what is before it is as it was. *)
Definition printed (t out : list Z) : Prop :=
  zlen out = zlen out0 /\ at_ out d0 t /\ forall q l, at_ out0 q l -> q + zlen l <= d0 -> at_ out q l.

Lemma printed_other t out p x out' : printed t out -> wrn out p x = Done out' -> d0 + zlen t <= p -> printed t out'.
Proof.
  intros (Hz & Ht & Hk) E Hp. pose proof (zlen_nonneg t). split_and!; [by rewrite (wrn_zlen _ _ _ _ E)|by eapply at_other; [exact Ht|exact E|by left]|].
  intros q l Hq Hle. eapply at_other; [by apply Hk|exact E|]. left. lia.
Qed.
Lemma printed_grown t out x out' : printed t out -> grown out (d0 + zlen t) x out' -> printed (t ++ x) out'.
Proof.
  intros Hp Hg. destruct (printed_other t out _ x out' Hp Hg) as (Hz & Ht & Hk); [lia|]. split_and!; [done| |done].
  apply at_app. split; [done|by eapply grown_at].
Qed.
Lemma printed_front t x out : printed (t ++ x) out -> printed t out.
Proof. intros (Hz & Ht & Hk). apply at_app in Ht as [Ht _]. by split_and!. Qed.

(** The comma before all names but the first. *)
Definition sep (first : bool) : list Z := if first then [] else [44].
Lemma put_comma first t out : printed t out -> zlen t < size /\ d0 + zlen t + 2 <= zlen out0 \/ first = true /\ zlen t <= size ->
  exists out', (if first then Done (d0 + zlen t, size - zlen t, out)
                else out ← wr out (d0 + zlen t) 44; out ← wr out (d0 + zlen t + 1) 0; Done (d0 + zlen t + 1, size - zlen t - 1, out)) =
    Done (d0 + zlen (t ++ sep first), size - zlen (t ++ sep first), out') /\ printed (t ++ sep first) out'.
Proof.
  intros Hp Ht. pose proof Hp as (Hz & _ & _). destruct first; simpl sep.
  - rewrite app_nil_r. by exists out.
  - destruct Ht as [[Ht Ht2]|[? _]]; [|done]. pose proof (zlen_nonneg t). rewrite zlen_app. change (zlen [44]) with 1.
    destruct (wrn_ok out (d0 + zlen t) [44]) as [out1 E1]; [lia|change (zlen [44]) with 1; lia|].
    pose proof (wrn_zlen _ _ _ _ E1) as Hz1. destruct (wrn_ok out1 (d0 + zlen t + 1) [0]) as [out2 E2]; [lia|change (zlen [0]) with 1; lia|].
    rewrite !wr_wrn, E1. dred. rewrite wr_wrn, E2. dred. exists out2. split; [do 2 f_equal; f_equal; lia|].
    eapply printed_other; [exact (printed_grown _ _ _ _ Hp E1)|exact E2|]. rewrite zlen_app. change (zlen [44]) with 1. lia.
Qed.

Definition list_rest (first : bool) (ns : list (list label)) : list Z := if first then list_text ns else list_tail ns.
Lemma list_rest_cons first n ns : list_rest first (n :: ns) = sep first ++ text n ++ list_tail ns.
Proof. by destruct first. Qed.

(** Room for the NUL after a comma, or for the whole text. *)
Definition room_for (t : list Z) : Prop := d0 + size + 1 <= zlen out0 \/ zlen t < size.

Lemma uncompress_loop ns : forall fuel i src first t out,
  (length ns < fuel)%nat -> names_at buf buflen src ns buflen -> Forall (fun n => zlen (wire n) <= NS_MAXCDNAME) ns ->
  printed t out -> (ns <> [] \/ zlen t < size) -> (first = true -> zlen t <= size) -> room_for (t ++ list_rest first ns) ->
  exists out' r, for_loop fuel i (fun _ => uncompress_step buf buflen) (mk_list src (d0 + zlen t) (size - zlen t) first out) = Done (inr (out', r)) /\
    zlen out' = zlen out0 /\
    match r with
    | None => size <= zlen (t ++ list_rest first ns)
    | Some dst => let t' := t ++ list_rest first ns in dst = d0 + zlen t' /\ zlen t' < size /\ printed t' out'
    end.
Proof.
  induction ns as [|n ns IH]; intros [|fuel] i src first t out Hf Hns Hw Hp Hsz Hfirst Hfor; simpl in Hf; try lia; cbn [for_loop]; set (loop := for_loop fuel (i + 1) _).
  - inversion Hns; subst. unfold uncompress_step. rewrite Z.ltb_irrefl. simpl negb. cbv iota. dred. exists out, (Some (d0 + zlen t)).
    destruct Hsz as [?|Hsz]; [done|]. split; [done|]. split; [apply Hp|]. assert (list_rest first [] = []) as -> by by destruct first.
    rewrite app_nil_r. done.
  - inversion Hns as [|? ? ? e ? cost Hn Hc Hrest]; subst. apply Forall_cons_iff in Hw as [Hw Hws]. pose proof (name_at_pos _ _ _ _ _ _ Hn) as Hpos.
    unfold uncompress_step. rewrite (proj2 (Z.ltb_lt src buflen)) by lia. simpl negb. cbv iota. rewrite list_rest_cons in *.
    pose proof (zlen_nonneg (sep first)). pose proof (text_length_pos n (name_at_labels _ _ _ _ _ _ Hn)). pose proof (zlen_nonneg (list_tail ns)).
    destruct (Z.leb_spec (size - zlen t) 0) as [Hfull|Hsome]; dred.
    { exists out, None. split; [done|]. split; [apply Hp|]. rewrite !zlen_app. lia. }
    assert (Hcomma : zlen t < size /\ d0 + zlen t + 2 <= zlen out0 \/ first = true /\ zlen t <= size).
    { destruct first; [right; split; [done|lia]|left]. unfold room_for in Hfor. rewrite !zlen_app in Hfor. change (zlen (sep false)) with 1 in Hfor. lia. }
    destruct (put_comma first t out Hp Hcomma) as (out1 & Eq & Hp1). rewrite Eq. dred. clear Eq. rewrite !app_assoc. set (t1 := t ++ sep first) in *.
    assert (Ht1 : zlen t1 <= size). { subst t1. rewrite zlen_app. destruct first; simpl sep; rewrite ?zlen_nil; [lia|]. change (zlen [44]) with 1. lia. }
    pose proof (zlen_nonneg t1). pose proof (proj1 Hp1) as Hz1.
    destruct (uncompress_at buf buflen src n e cost out1 (d0 + zlen t1) (size - zlen t1) Hn) as (out2 & Eu & Hout2); [lia|done|done|lia|lia|lia|].
    rewrite Eu. dred. clear Eu. destruct (Z.ltb_spec (zlen (text n)) (size - zlen t1)) as [Hfit|Hno]; dred.
    + rewrite (proj2 (Z.ltb_ge (e - src) 0)), (proj2 (Z.ltb_lt 0 (e - src))) by lia.
      rewrite (strlen_ok out2 (d0 + zlen t1) (text n)); [|by eapply grown_at|by eapply text_chars, name_at_labels].
      dred. pose proof (printed_grown _ _ _ _ Hp1 Hout2) as Hp2. rewrite app_assoc in Hp2. apply printed_front in Hp2.
      destruct (IH fuel (i + 1) e false (t1 ++ text n) out2) as (out' & r & Ed & Hz' & Hr); [lia|done|done|done|right; rewrite zlen_app; lia|done|by rewrite !app_assoc in Hfor|].
      exists out', r. split; [|done]. subst loop. rewrite <- Ed. f_equal. f_equal; rewrite ?zlen_app; lia.
    + simpl (-1 <? 0). cbv iota. exists out2, None. split; [done|]. destruct Hout2 as [t2 Hg]. split; [by rewrite (proj2 (proj2 (grown_bounds _ _ _ _ Hg)))|].
      rewrite !zlen_app. lia.
Qed.
End uncompress.

Lemma name_at_first msg eom o l ls e cost : name_at msg eom o (l :: ls) e cost -> exists b, rd msg o = Done b /\ b <> 0.
Proof.
  intros H. inversion H as [|? ? ? ? ? Hat [_ Hl]|? hi ? ? ? ? ? E ? Hf]; subst.
  - apply at_cons in Hat as [E _]. exists (zlen l). split; [done|lia].
  - exists hi. split; [done|]. intros ->. done.
Qed.

(** The names of a message as text.  When there is no room for it the result is
    -1; the array needs one byte more than the size that is given. *)
Lemma uncompress_list_ok buf buflen out d0 size l n ns :
  names_at buf buflen 0 ((l :: n) :: ns) buflen -> Forall (fun n => zlen (wire n) <= NS_MAXCDNAME) ((l :: n) :: ns) ->
  buflen <= zlen buf -> 0 <= d0 -> 0 <= size -> d0 + size <= zlen out ->
  let t := list_text ((l :: n) :: ns) in
  d0 + size + 1 <= zlen out \/ zlen t < size ->
  exists out', MRns_name_uncompress_list buf buflen out d0 size = Done (out', if zlen t <? size then zlen t else -1) /\ zlen out' = zlen out /\
    (zlen t < size -> at_ out' d0 (t ++ [0]) /\ forall q k, at_ out q k -> q + zlen k <= d0 -> at_ out' q k).
Proof.
  intros Hns Hw Hbuf Hd Hs Hroom t Hfor. pose proof Hns as Hns0. inversion Hns as [|? ? ? e ? cost Hn Hc Hrest]; subst.
  destruct (name_at_first _ _ _ _ _ _ _ Hn) as (b & Eb & Nb). pose proof (name_at_pos _ _ _ _ _ _ Hn).
  unfold MRns_name_uncompress_list. rewrite (proj2 (Z.eqb_neq buflen 0)) by lia. rewrite Eb. dred. rewrite (proj2 (Z.eqb_neq b 0)) by done.
  assert (Hcount : forall p ms q, names_at buf buflen p ms q -> p <= buflen -> p + Z.of_nat (length ms) <= q /\ q <= buflen).
  { clear. induction 1 as [p|p n ns e e' cost Hn _ _ IH]; intros Hp; simpl; [lia|]. pose proof (name_at_pos _ _ _ _ _ _ Hn). lia. }
  pose proof (Hcount _ _ _ Hns0 ltac:(lia)).
  destruct (uncompress_loop buf buflen out d0 size Hbuf Hd Hroom ((l :: n) :: ns) (S (Z.to_nat buflen)) 0 0 true [] out) as (out' & r & E & Hz & Hr);
    [lia|done|done|split_and!; [done|apply at_nil; lia|done]|by left|rewrite zlen_nil; done|exact Hfor|].
  change (zlen (@nil Z)) with 0 in E; rewrite Z.add_0_r, Z.sub_0_r in E. rewrite E. dred. fold t in Hr. destruct r as [dst|].
  - change ([] ++ list_rest true ((l :: n) :: ns)) with t in Hr. destruct Hr as (-> & Hlt & Hpr). pose proof Hpr as (_ & Hat & _). rewrite (proj2 (Z.ltb_lt _ _)) by done.
    pose proof (zlen_nonneg t). destruct (wrn_ok out' (d0 + zlen t) [0]) as [out2 E2]; [lia|change (zlen [0]) with 1; lia|].
    rewrite wr_wrn, E2. dred. pose proof (at_append _ _ _ _ _ Hat E2) as Hat2.
    rewrite (strlen_ok out2 d0 t Hat2) by apply list_text_chars, (names_at_labels _ _ _ _ _ Hns0). dred.
    destruct (printed_other out d0 t out' _ _ out2 Hpr E2 ltac:(lia)) as (_ & _ & Hk).
    exists out2. split_and!; [done|by rewrite (wrn_zlen _ _ _ _ E2)|by intros _].
  - change ([] ++ list_rest true ((l :: n) :: ns)) with t in Hr. rewrite (proj2 (Z.ltb_ge _ _)) by done. exists out'. split_and!; [done|done|lia].
Qed.

(** ** The case of letters *)
Lemma mklower_eq c c' : mklower c = mklower c' -> c = c' \/ (char_text c = [c] /\ char_text c' = [c']).
Proof.
  intros E. destruct (decide (c = c')) as [|N]; [by left|]. right.
  assert (Hc : forall x, 65 <= x <= 90 \/ 97 <= x <= 122 -> char_text x = [x]).
  { intros x Hx. unfold char_text. destruct (special x) eqn:Es; [apply special_iff in Es; lia|]. unfold printable.
    by rewrite (proj2 (Z.ltb_lt 32 x)), (proj2 (Z.ltb_lt x 127)) by lia. }
  unfold mklower in E. destruct (Z.leb_spec 65 c), (Z.leb_spec c 90), (Z.leb_spec 65 c'), (Z.leb_spec c' 90); simpl in E; try lia; split; apply Hc; lia.
Qed.
Lemma lower_app l k : lower (l ++ k) = lower l ++ lower k.
Proof. apply fmap_app. Qed.
Lemma lower_char c c' : mklower c = mklower c' -> lower (char_text c) = lower (char_text c').
Proof. intros E. destruct (mklower_eq c c' E) as [->|[-> ->]]; [done|]. unfold lower. cbn [fmap list_fmap]. by rewrite E. Qed.
Lemma lower_label l l' : lower l = lower l' -> lower (label_text l) = lower (label_text l').
Proof.
  revert l'. induction l as [|c l IH]; intros [|c' l'] E; try done. injection E as Ec E. unfold label_text in *. cbn [mbind list_bind]. rewrite !lower_app.
  by rewrite (lower_char c c' Ec), (IH l' E).
Qed.
Lemma lower_tail n n' : same_case n n' -> lower (tail_text n) = lower (tail_text n').
Proof.
  revert n'. induction n as [|l n IH]; intros [|l' n'] E; try done. injection E as El E. unfold tail_text in *. cbn [mbind list_bind].
  rewrite !lower_app, (IH n' E). change (lower (46 :: label_text l)) with (46 :: lower (label_text l)).
  change (lower (46 :: label_text l')) with (46 :: lower (label_text l')). by rewrite (lower_label l l' El).
Qed.
Lemma lower_text n n' : same_case n n' -> lower (text n) = lower (text n').
Proof.
  destruct n as [|l n], n' as [|l' n']; intros E; try done. injection E as El E. simpl text. by rewrite !lower_app, (lower_label l l' El), (lower_tail n n' E).
Qed.
Lemma lower_list_tail ns ns' : same_names ns ns' -> lower (list_tail ns) = lower (list_tail ns').
Proof.
  induction 1 as [|n n' ns ns' En _ IH]; [done|]. change (list_tail (n :: ns)) with ([44] ++ text n ++ list_tail ns).
  change (list_tail (n' :: ns')) with ([44] ++ text n' ++ list_tail ns'). by rewrite !lower_app, IH, (lower_text n n' En).
Qed.
Lemma lower_list_text ns ns' : same_names ns ns' -> lower (list_text ns) = lower (list_text ns').
Proof. destruct 1 as [|n n' ns ns' En Ens]; [done|]. simpl. by rewrite !lower_app, (lower_text n n' En), (lower_list_tail ns ns' Ens). Qed.

(** C13: A text in canonical form, that is, names as [MRns_name_ntop] prints
    them, separated by commas, with no comma in a label and a first name that is
    not the root, is what [MRns_name_uncompress_list] makes of the message into
    which [MRns_name_compress_list] has put it, but for the case of letters.
    Compression fails only if the message would not fit without it;
    uncompression fails if and only if the text and its NUL do not fit, and
    needs an array of one byte more than the size that it is given.  Each name
    is shorter than [NS_MAXCDNAME], as a text too. *)
Theorem MRns_name_list_roundtrip buf buflen compbuf size l n ns out d0 dst_size :
  Forall (fun n => name_ok n /\ comma_free n /\ zlen (text n) <= NS_MAXCDNAME - 1) ((l :: n) :: ns) ->
  at_ buf 0 (list_text ((l :: n) :: ns) ++ [0]) ->
  buflen = zlen (list_text ((l :: n) :: ns)) \/ buflen = zlen (list_text ((l :: n) :: ns)) + 1 ->
  bytes compbuf -> 0 <= size <= zlen compbuf -> 0 <= d0 -> 0 <= dst_size -> d0 + dst_size + 1 <= zlen out ->
  exists msg r, MRns_name_compress_list buf buflen compbuf size = Done (msg, r) /\
    (r = -1 /\ size <= wires ((l :: n) :: ns) \/
     0 < r <= size /\ exists out' t,
       MRns_name_uncompress_list msg r out d0 dst_size = Done (out', if zlen t <? dst_size then zlen t else -1) /\
       lower t = lower (list_text ((l :: n) :: ns)) /\ (zlen t < dst_size -> at_ out' d0 (t ++ [0]))).
Proof.
  intros Hok Hat Hlen Hb Hsize Hd Hs Hroom.
  destruct (compress_list_ok buf buflen compbuf size _ Hok ltac:(done) Hat Hlen Hb Hsize) as (msg & r & -> & Hr). exists msg, r. split; [done|].
  destruct Hr as [?|(Hr & _ & _ & Hz & ns' & Hsame & Hns)]; [by left|]. right. split; [done|].
  pose proof Hsame as Hsame0. inversion Hsame as [|? n1 ? ns1 En Ens]; subst. destruct n1 as [|l1 n1]; [done|].
  destruct (uncompress_list_ok msg r out d0 dst_size l1 n1 ns1 Hns) as (out' & E & _ & Hat'); [|lia|done|done|lia|by left|].
  - clear -Hsame0 Hok. induction Hsame0 as [|m m' ms ms' Em _ IH]; [constructor|]. apply Forall_cons_iff in Hok as [[[_ Hm] _] Hok].
    constructor; [by rewrite <- (same_case_wire m m' Em)|by apply IH].
  - exists out', (list_text ((l1 :: n1) :: ns1)). split; [done|]. split; [symmetry; by apply lower_list_text|]. intros Hlt. by destruct (Hat' Hlt).
Qed.

(** "a.b,b": the second name is a pointer into the first. *)
Lemma MRns_name_list_roundtrip_witness : exists msg r,
  MRns_name_compress_list [97; 46; 98; 44; 98; 0] 5 (replicate 8 9) 8 = Done (msg, r) /\
    (r = -1 /\ 8 <= wires [[[97]; [98]]; [[98]]] \/
     0 < r <= 8 /\ exists out' t, MRns_name_uncompress_list msg r (replicate 7 9) 0 6 = Done (out', if zlen t <? 6 then zlen t else -1) /\
       lower t = lower (list_text [[[97]; [98]]; [[98]]]) /\ (zlen t < 6 -> at_ out' 0 (t ++ [0]))).
Proof.
  apply (MRns_name_list_roundtrip [97; 46; 98; 44; 98; 0] 5 (replicate 8 9) 8 [97] [[98]] [[[98]]] (replicate 7 9) 0 6); try (by vm_compute).
  - unfold name_ok, comma_free, label_ok. apply (bool_decide_unpack _). vm_compute. exact I.
  - left. by vm_compute.
  - apply (bool_decide_unpack _). vm_compute. exact I.
Defined.

(** ** What the list functions do not guard against *)

(** An array that is as long as the size says is written past its end: the
    comma takes the last byte and the NUL the next one. *)
Example uncompress_list_overflow : MRns_name_uncompress_list [1; 97; 0; 1; 98; 0] 6 (replicate 2 9) 0 2 = Fault.
Proof. vm_compute. reflexivity. Qed.
(** A comma in a label makes two names of one: the text of the name ["a,b"] is
    compressed to the names ["a"] and ["b"]. *)
Example comma_in_label :
  MRns_name_uncompress_list [3; 97; 44; 98; 0] 5 (replicate 8 9) 0 7 = Done ([97; 44; 98; 0; 9; 9; 9; 9], 3) /\
  MRns_name_compress_list [97; 44; 98; 0] 3 (replicate 7 9) 7 = Done ([1; 97; 0; 1; 98; 0; 0], 6).
Proof. split; vm_compute; reflexivity. Qed.
(** A list whose first name is the root is taken as an empty list. *)
Example root_first : MRns_name_uncompress_list [0; 1; 97; 0] 4 (replicate 8 9) 0 7 = Done ([0; 9; 9; 9; 9; 9; 9; 9], 0).
Proof. vm_compute. reflexivity. Qed.
