(* ===== verification/Expr.v ===== *)
(** * Expressions and statements of the configuration: data and state

    The syntax trees of includes/tree.h and includes/statement.h, the values
    and scopes of variables, and the state that the evaluation of an expression
    and the execution of a statement can change. *)

From stdpp Require Import base tactics list numbers gmap.
From S2P Require Import Prelude Name.

#[local] Open Scope Z_scope.
#[local] Unset Elimination Schemes.

(** ** Data strings

    [d_buf]: the bytes from the [data] pointer to the end of the memory it
    points into, [None] for a null pointer.  Buffers are never changed after
    they were filled, so that strings may share them. *)
Record data_string := mk_ds {
  d_buf : option (list Z);
  d_len : Z;
  d_terminated : bool }.
Definition null_string : data_string := mk_ds None 0 false.

(** [buffer_allocate]: zeroed memory ([dmalloc]); [struct buffer] ends with
    four bytes of which [data[1]] is the first. *)
Definition buffer_allocate (len : Z) : list Z := replicate (Z.to_nat (len + 4)) 0.

(** The source of a [memcpy] from the string. *)
Definition load (d : data_string) (n : Z) : outcome (list Z) :=
  if n =? 0 then Done [] else match d_buf d with Some b => rdn b 0 n | None => Fault end.
Definition ds_bytes (d : data_string) : outcome (list Z) := load d (d_len d).

(** A string in a new buffer that holds [b] and the zeros after it. *)
Definition ds_new (b : list Z) (terminated : bool) : data_string :=
  mk_ds (Some (b ++ replicate 4 0)) (zlen b) terminated.

(** ** Syntax *)
Record option_ref := mk_option {
  o_universe : Z;
  o_code : Z;
  o_lookup : bool;  (** the universe has a [lookup_func] and a [save_func] *)
  o_dclist : bool;  (** the format starts with "Dc" *) }.

Inductive arith := add | subtract | multiply | divide | remainder | binary_and | binary_or | binary_xor.

Inductive log_priority := log_priority_fatal | log_priority_error | log_priority_debug | log_priority_info.

Inductive expression :=
  (** boolean *)
  | expr_check (collection : nat)
  | expr_equal (left right : expression)
  | expr_not_equal (left right : expression)
  | expr_regex_match (left right : expression)
  | expr_iregex_match (left right : expression)
  | expr_and (left right : expression)
  | expr_or (left right : expression)
  | expr_not (e : expression)
  | expr_exists (o : option_ref)
  | expr_variable_exists (name : list Z)
  | expr_known
  | expr_static
  (** data *)
  | expr_substring (e offset len : expression)
  | expr_suffix (e len : expression)
  | expr_lcase (e : expression)
  | expr_ucase (e : expression)
  | expr_option (o : option_ref)
  | expr_config_option (o : option_ref)
  | expr_hardware
  | expr_packet (offset len : expression)
  | expr_encapsulate (name : list Z)
  | expr_const_data (d : data_string)
  | expr_host_lookup (name : list Z)
  | expr_concat (left right : expression)
  | expr_concat_dclist (left right : expression)
  | expr_encode_int8 (e : expression)
  | expr_encode_int16 (e : expression)
  | expr_encode_int32 (e : expression)
  | expr_binary_to_ascii (base width separator buffer : expression)
  | expr_reverse (width buffer : expression)
  | expr_leased_address
  | expr_pick_first_value (car : expression) (cdr : option expression)
  | expr_host_decl_name
  | expr_null
  | expr_filename
  | expr_sname
  | expr_gethostname
  | expr_v6relay (relay roption : expression)
  (** numeric *)
  | expr_extract_int8 (e : expression)
  | expr_extract_int16 (e : expression)
  | expr_extract_int32 (e : expression)
  | expr_const_int (n : Z)
  | expr_lease_time
  | expr_arith (op : arith) (left right : expression)
  | expr_client_state
  (** any type *)
  | expr_variable_reference (name : list Z)
  | expr_funcall (name : list Z) (arglist : list expression)
  (** no value *)
  | expr_function (fundef : nat) (args : list (list Z)) (statements : list statement)
  | expr_none
  | expr_match
  | expr_dns_transaction
  | expr_ns
with statement :=
  | statements_statement (ss : list statement)
  | on_statement (evtypes : Z) (ss : list statement)
  | switch_statement (e : expression) (ss : list statement)
  | case_statement (e : expression)
  | default_statement
  | if_statement (e : expression) (tc fc : list statement)
  | eval_statement (e : expression)
  | execute_statement (command : list Z) (arglist : list expression)
  | return_statement (e : expression)
  | add_statement (class : nat)
  | break_statement
  | supersede_option_statement (o : option_ref) (data : data_string) (e : option expression)
  | send_option_statement (o : option_ref) (data : data_string) (e : option expression)
  | default_option_statement (o : option_ref) (data : data_string) (e : option expression)
  | append_option_statement (o : option_ref) (data : data_string) (e : option expression)
  | prepend_option_statement (o : option_ref) (data : data_string) (e : option expression)
  | set_statement (name : list Z) (e : expression)
  | define_statement (name : list Z) (fundef : nat) (args : list (list Z)) (ss : list statement)
  | unset_statement (name : list Z)
  | let_statement (name : list Z) (e : expression) (ss : list statement)
  | log_statement (priority : log_priority) (e : expression)
  | vendor_opt_statement
  | null_statement.

Record option_cache := mk_cache {
  oc_option : option_ref;
  oc_data : data_string;
  oc_expression : option expression }.

(** ** Values and scopes

    A function has a number: functions are compared by their address. *)
Inductive binding_value :=
  | binding_boolean (b : bool)
  | binding_data (d : data_string)
  | binding_numeric (n : Z)
  | binding_function (fundef : nat) (args : list (list Z)) (statements : list statement).

(** A scope without its outer scopes: the bindings, the last one first. *)
Abbreviation scope := (list (list Z * option binding_value)).

(** [strcasecmp]. *)
Definition same_name (a b : list Z) : bool := bool_decide (mklower <$> a = mklower <$> b).

Fixpoint find_in (s : scope) (name : list Z) : option (option binding_value) :=
  match s with [] => None | (n, v) :: r => if same_name name n then Some v else find_in r name end.
(** Scopes from the inner to the outer ones. *)
Fixpoint find_binding (ss : list scope) (name : list Z) : option (option binding_value) :=
  match ss with
  | [] => None
  | s :: r => match find_in s name with Some v => Some v | None => find_binding r name end
  end.

Fixpoint assign_in (s : scope) (name : list Z) (v : option binding_value) : scope :=
  match s with [] => [] | (n, w) :: r => if same_name name n then (n, v) :: r else (n, w) :: assign_in r name v end.
(** The binding that [find_binding] finds gets the value. *)
Fixpoint assign (ss : list scope) (name : list Z) (v : option binding_value) : list scope :=
  match ss with
  | [] => []
  | s :: r => match find_in s name with Some _ => assign_in s name v :: r | None => s :: assign r name v end
  end.
Definition new_binding (ss : list scope) (name : list Z) : list scope :=
  match ss with [] => [] | s :: r => ((name, None) :: s) :: r end.

(** ** Packets, leases, clients *)
Inductive packet := mk_packet {
  p_id : nat;                   (** which packet it is *)
  p_known : bool;
  p_raw : option (list Z);      (** the bytes of [struct dhcp_packet] *)
  p_length : Z;
  p_options : nat;              (** its option state *)
  p_container : option packet   (** [dhcpv6_container_packet] *) }.

Record lease := mk_lease {
  l_static : bool;
  l_ip_addr : list Z;
  l_hardware : list Z;
  l_ends : Z;
  l_host : option (list Z)      (** the name of the host declaration *) }.

Record client_state := mk_client { c_state : Z; c_hardware : list Z }.

(** The arguments that all functions hand on.  Option states are indices. *)
Record context := mk_context {
  packet_of : option packet;
  lease_of : option lease;
  client_of : option client_state;
  in_options : option nat;
  cfg_options : option nat }.

Record on_star := mk_star {
  on_expiry : list statement;
  on_release : list statement;
  on_commit : list statement }.

Record class := mk_class {
  k_expr : option expression;
  k_submatch : option expression;
  k_hash : list (list Z * nat); (** the subclasses *)
  k_spawning : bool;
  k_limit : Z;
  k_superclass : option nat }.

Inductive event :=
  | Opcode       (** an operator that has no value of the type that is wanted *)
  | BindingType  (** a variable or a function with a value of another type *)
  | Call         (** no such function, wrong number of arguments *)
  | Other
  | Logged (priority : log_priority) (text : list Z)
  | Ran (argv : list (list Z)).

Abbreviation option_map := (gmap (Z * Z) option_cache).

(** What evaluation can change.  The scope is that of the lease, or without
    lease the global one ([s_root], [None] when there is no scope pointer),
    below the scopes of the functions and [let]s that are being executed. *)
Record state := mk_state {
  s_locals : list scope;
  s_root : option (list scope);
  s_options : list option_map;
  s_member : gmap nat (list nat);  (** the classes of the packets *)
  s_class : list class;
  s_given_star : on_star;          (** the argument [on_star] *)
  s_lease_star : on_star;          (** [lease -> on_star] *)
  s_log : list event }.

Definition set_scopes (l : list scope) (r : option (list scope)) (s : state) : state :=
  mk_state l r (s_options s) (s_member s) (s_class s) (s_given_star s) (s_lease_star s) (s_log s).
Definition set_options (o : list option_map) (s : state) : state :=
  mk_state (s_locals s) (s_root s) o (s_member s) (s_class s) (s_given_star s) (s_lease_star s) (s_log s).
Definition set_member (m : gmap nat (list nat)) (s : state) : state :=
  mk_state (s_locals s) (s_root s) (s_options s) m (s_class s) (s_given_star s) (s_lease_star s) (s_log s).
Definition set_class (c : list class) (s : state) : state :=
  mk_state (s_locals s) (s_root s) (s_options s) (s_member s) c (s_given_star s) (s_lease_star s) (s_log s).
Definition set_stars (g l : on_star) (s : state) : state :=
  mk_state (s_locals s) (s_root s) (s_options s) (s_member s) (s_class s) g l (s_log s).
Definition log (x : event) (s : state) : state :=
  mk_state (s_locals s) (s_root s) (s_options s) (s_member s) (s_class s) (s_given_star s) (s_lease_star s) (s_log s ++ [x]).

Definition chain (s : state) : list scope := s_locals s ++ default [] (s_root s).
(** The chain after a change that keeps the number of local scopes. *)
Definition set_chain (ss : list scope) (s : state) : state :=
  let n := length (s_locals s) in set_scopes (take n ss) (match s_root s with None => None | Some _ => Some (drop n ss) end) s.
Definition assign_value (name : list Z) (v : option binding_value) (s : state) : state := set_chain (assign (chain s) name v) s.

(** ** Computations that change the state *)
Definition ev (A : Type) : Type := state -> outcome (state * A).
Definition ret {A} (a : A) : ev A := fun s => Done (s, a).
Definition bind {A B} (m : ev A) (k : A -> ev B) : ev B := fun s => '(s, a) ← m s; k a s.
Definition lift {A} (m : outcome A) : ev A := fun s => a ← m; Done (s, a).
Definition get : ev state := fun s => Done (s, s).
Definition modify (f : state -> state) : ev unit := fun s => Done (f s, tt).

Declare Scope ev_scope.
Delimit Scope ev_scope with ev.
Notation "x <~ m ; k" := (bind m (fun x => k)) (at level 20, m at level 100, k at level 200, only parsing) : ev_scope.
Notation "' x <~ m ; k" := (bind m (fun x => k)) (at level 20, x pattern, m at level 100, k at level 200, only parsing) : ev_scope.
Notation "m ;;; k" := (bind m (fun _ => k)) (at level 100, k at level 200, only parsing) : ev_scope.
Notation "'log_error' x" := (modify (log x)) (at level 10) : ev_scope.

(** ** What is around the evaluator

    The C library, and the parts of the program that are not modelled here:
    the encapsulation of option spaces and the decoding of vendor options. *)
Class Surroundings := {
  cur_time : Z;
  regexec : bool -> list Z -> list Z -> bool;  (** ignoring case; expression, string *)
  gethostname : option (list Z);
  host_lookup : list Z -> option (list Z);
  collection : nat -> list nat;                (** the classes of a collection *)
  option_space_encapsulate : context -> data_string -> list Z -> ev (bool * data_string);
  parse_vendor_option : context -> ev unit }.
