(* ===== verification/Eval.v ===== *)
(** * Evaluation of expressions (common/tree.c) and execution of statements
    (common/execute.c)

    Each evaluator is written against the five functions it calls, which are
    the evaluators themselves with one unit of fuel less; [evaluators_at] ties
    the knot.  Memory allocation succeeds.

    The result of a data expression is the status and what [*result] is then:
    an evaluation that fails can leave something there, and one that
    succeeds can leave it alone.  The result of a boolean expression is the
    status and the value that was written to [*result], if any. *)

From stdpp Require Import base tactics list numbers gmap.
From S2P Require Import Prelude Convert Name Expr.

#[local] Open Scope Z_scope.
#[local] Open Scope ev_scope.

Definition MAX_V6RELAY_HOPS : Z := 32.
Definition PACKET_MAX_CLASSES : Z := 5.
(** Where the members of [struct dhcp_packet] are. *)
Definition RAW_HTYPE : Z := 1.
Definition RAW_HLEN : Z := 2.
Definition RAW_CHADDR : Z := 28.
Definition RAW_SNAME : Z := 44.
Definition RAW_FILE : Z := 108.

Definition is_boolean_expression (e : expression) : bool :=
  match e with
  | expr_check _ | expr_exists _ | expr_variable_exists _ | expr_equal _ _ | expr_not_equal _ _ | expr_regex_match _ _
  | expr_iregex_match _ _ | expr_and _ _ | expr_or _ _ | expr_not _ | expr_known | expr_static => true
  | _ => false
  end.
(** [expr_concat_dclist] is not in the list. *)
Definition is_data_expression (e : expression) : bool :=
  match e with
  | expr_substring _ _ _ | expr_suffix _ _ | expr_lcase _ | expr_ucase _ | expr_option _ | expr_hardware | expr_const_data _
  | expr_packet _ _ | expr_concat _ _ | expr_encapsulate _ | expr_encode_int8 _ | expr_encode_int16 _ | expr_encode_int32 _
  | expr_host_lookup _ | expr_binary_to_ascii _ _ _ _ | expr_filename | expr_sname | expr_reverse _ _ | expr_pick_first_value _ _
  | expr_host_decl_name | expr_leased_address | expr_config_option _ | expr_null | expr_gethostname | expr_v6relay _ _ => true
  | _ => false
  end.
Definition is_numeric_expression (e : expression) : bool :=
  match e with
  | expr_extract_int8 _ | expr_extract_int16 _ | expr_extract_int32 _ | expr_const_int _ | expr_lease_time | expr_arith _ _ _
  | expr_client_state => true
  | _ => false
  end.

(** ** Strings *)

(** [data += n; len -= n]. *)
Definition advance (d : data_string) (n : Z) : data_string := mk_ds (drop (Z.to_nat n) <$> d_buf d) (d_len d - n) (d_terminated d).
Definition substring (d : data_string) (offset len : Z) : data_string :=
  let d := advance d offset in if len <? d_len d then mk_ds (d_buf d) len false else d.
Definition suffix (d : data_string) (len : Z) : data_string :=
  if len <? d_len d then mk_ds (d_buf (advance d (d_len d - len))) len (d_terminated d) else d.

Definition toupper (c : Z) : Z := if (97 <=? c) && (c <=? 122) then c - 32 else c.
Definition b2z (b : bool) : Z := if b then 1 else 0.
(** [lcase] and [ucase]: the NUL of a terminated string is copied. *)
Definition map_case (f : Z -> Z) (d : data_string) : outcome data_string :=
  b ← load d (d_len d + b2z (d_terminated d));
  k ← wrn (buffer_allocate (d_len d + b2z (d_terminated d))) 0 b;
  Done (mk_ds (Some ((f <$> take (Z.to_nat (d_len d)) k) ++ drop (Z.to_nat (d_len d)) k)) (d_len d) (d_terminated d)).

(** [terminated] of the result is left alone. *)
Definition concat_strings (r l d : data_string) : outcome data_string :=
  let len := u32 (d_len l + d_len d) in
  a ← ds_bytes l;
  b ← load d (d_len d + b2z (d_terminated d));
  k ← wrn (buffer_allocate (len + b2z (d_terminated d))) 0 a;
  k ← wrn k (d_len l) b;
  Done (mk_ds (Some k) len (d_terminated r)).

(** [for (i = 0; i < data.len; i += len)] with [n] rounds left. *)
Fixpoint reverse_loop (n : nat) (i len : Z) (d : data_string) (out : list Z) : outcome (list Z) :=
  match n with
  | O => Done out
  | S n' =>
      x ← match d_buf d with Some b => rdn b (d_len d - i - len) len | None => Fault end;
      out ← wrn out i x;
      reverse_loop n' (i + len) len d out
  end.
(** [None]: the length is not a multiple of the width. *)
Definition reverse_string (len : Z) (d : data_string) : outcome (option data_string) :=
  if len =? 0 then Fault
  else if negb (d_len d mod len =? 0) then Done None
  else out ← reverse_loop (Z.to_nat (d_len d / len)) 0 len d (buffer_allocate (d_len d)); Done (Some (mk_ds (Some out) (d_len d) false)).

Definition cstring (b : list Z) : outcome (list Z) := n ← strlen b 0; rdn b 0 n.
(** A NUL at the end is taken for the terminator ([data_string_new]). *)
Definition without_nul (b : list Z) : list Z := match last b with Some 0 => take (length b - 1) b | _ => b end.
(** [None] for a null string. *)
Definition data_string_terminate (d : data_string) : outcome (option data_string) :=
  if d_terminated d then Done (Some d)
  else match d_buf d with None => Done None | Some _ => b ← ds_bytes d; Done (Some (ds_new (without_nul b) true)) end.

Section convert.
Context `{HostOrder}.

Definition encode_int (n : Z) (width : Z) : outcome (list Z) :=
  let b := buffer_allocate width in
  if width =? 1 then wr b 0 (u8 n) else if width =? 2 then putUShort b 0 (u32 n) else putULong b 0 (u32 n).

(** The number of characters of a number of [len] bytes. *)
Definition b2a_width (buf : list Z) (i base len : Z) : outcome Z :=
  if len =? 1 then
    x ← rd buf i;
    if base =? 8 then Done (if x <? 8 then 1 else if x <? 64 then 2 else 3)
    else if base =? 10 then Done (if x <? 10 then 1 else if x <? 100 then 2 else 3)
    else if base =? 16 then Done (if x <? 16 then 1 else 2)
    else converted_length buf i (u32 base) 1
  else converted_length buf i (u32 base) len.
Fixpoint b2a_count (n : nat) (buf : list Z) (i base len total sep count : Z) : outcome Z :=
  match n with
  | O => Done count
  | S n' =>
      w ← b2a_width buf i base len;
      let count := u32 (count + w) in
      let count := if i + len =? total then count else u32 (count + sep) in
      b2a_count n' buf (i + len) base len total sep count
  end.
Fixpoint b2a_write (n : nat) (buf : list Z) (i base len total : Z) (sep : data_string) (out : list Z) (o : Z) : outcome (list Z * Z) :=
  match n with
  | O => Done (out, o)
  | S n' =>
      '(w, out) ← binary_to_ascii out o buf i (u32 base) len;
      let o := o + w in
      if i + len =? total then b2a_write n' buf (i + len) base len total sep out o
      else s ← ds_bytes sep; out ← wrn out o s; b2a_write n' buf (i + len) base len total sep out (o + d_len sep)
  end.
(** [None]: no such width, or the length is not a multiple of it. *)
Definition b2a_string (base width : Z) (sep d : data_string) : outcome (option data_string) :=
  if negb ((width =? 8) || (width =? 16) || (width =? 32)) then Done None
  else
    let len := width / 8 in
    if negb (d_len d mod len =? 0) then Done None
    else
      let n := Z.to_nat (d_len d / len) in
      let buf := default [] (d_buf d) in
      count ← b2a_count n buf 0 base len (d_len d) (d_len sep) 0;
      '(out, o) ← b2a_write n buf 0 base len (d_len d) sep (buffer_allocate (count + 1)) 0;
      out ← wr out o 0;
      Done (Some (mk_ds (Some out) count true)).

(** [extract_int]: the 16- and 32-bit forms check the length. *)
Definition extract_int (width : Z) (d : data_string) : outcome (option Z) :=
  let b := match d_buf d with Some b => b | None => [] end in
  if width =? 1 then x ← rd b 0; Done (Some x)
  else if d_len d <? width then Done None
  else if width =? 2 then x ← getUShort b 0; Done (Some x)
  else x ← getULong b 0; Done (Some x).
End convert.

(** ** Lists of domain names *)
Definition UNCOMPBUF : Z := 32 * NS_MAXCDNAME.

(** The names of a list are added to the text in [buf], of [len] bytes. *)
Definition uncompress_onto (d : data_string) (buf : list Z) (len : Z) : outcome (list Z * Z) :=
  match d_buf d with
  | Some b => MRns_name_uncompress_list b (d_len d) buf len (UNCOMPBUF - len)
  | None => Fault
  end.
Definition has_names (d : data_string) : bool := match d_buf d with Some _ => negb (d_len d =? 0) | None => false end.

Definition count_commas (l : list Z) : Z := zlen (filter (fun c => c = 44) l).

(** Status (the length) and result. *)
Definition concat_dclists (r list1 list2 : data_string) : outcome (Z * data_string) :=
  let uncompbuf := replicate (Z.to_nat UNCOMPBUF) 0 in
  '(buf, len) ← (if has_names list1 then uncompress_onto list1 uncompbuf 0 else Done (uncompbuf, 0));
  if len <? 0 then Done (0, r)
  else
    '(buf, len, more) ←
      (if has_names list2 then
         '(buf, len) ← (if 0 <? len then b ← wr buf len 44; Done (b, len + 1) else Done (buf, len));
         '(buf, more) ← uncompress_onto list2 buf len;
         Done (buf, len, more)
       else Done (buf, len, 0));
    if more <? 0 then Done (0, r)
    else
      let len := len + more in
      if len =? 0 then Done (1, mk_ds (Some (buffer_allocate 1)) 1 (d_terminated r))
      else
        text ← rdn buf 0 len;
        let compbuf_max := len + 3 + 2 * count_commas text in
        '(out, n) ← MRns_name_compress_list buf len (buffer_allocate compbuf_max) compbuf_max;
        if n <=? 0 then Done (0, null_string) else Done (n, mk_ds (Some out) n (d_terminated r)).

(** ** Numbers *)
Definition arith_value (op : arith) (l r : Z) : option Z :=
  match op with
  | add => Some (u64 (l + r))
  | subtract => Some (u64 (l - r))
  | multiply => Some (u64 (l * r))
  | divide => if r =? 0 then None else Some (l / r)
  | remainder => if r =? 0 then None else Some (l mod r)
  | binary_and => Some (Z.land l r)
  | binary_or => Some (Z.lor l r)
  | binary_xor => Some (Z.lxor l r)
  end.

(** ** The evaluators *)
Record evaluators := mk_evaluators {
  evaluate_boolean_expression : context -> expression -> ev (bool * option bool);
  evaluate_data_expression : context -> data_string -> expression -> ev (bool * data_string);
  evaluate_numeric_expression : context -> expression -> ev (option Z);
  (** the status, and the value if there is one *)
  evaluate_expression : context -> expression -> ev (bool * option binding_value);
  (** whether [on_star] was given; [*result], if there is a [result] *)
  execute_statements : context -> bool -> option (option binding_value) -> list statement ->
    ev (bool * option (option binding_value)) }.

Section evaluators.
Context `{HostOrder} `{Surroundings} (E : evaluators).

(** [evaluate_option_cache] and [get_option]. *)
Definition evaluate_option_cache (c : context) (r : data_string) (oc : option_cache) : ev (bool * data_string) :=
  match d_buf (oc_data oc) with
  | Some _ => ret (true, oc_data oc)
  | None => match oc_expression oc with Some e => evaluate_data_expression E c r e | None => ret (false, r) end
  end.
Definition lookup_option (o : option_ref) (opts : nat) (s : state) : outcome (option option_cache) :=
  match s_options s !! opts with
  | None => Fault
  | Some m => Done (if o_lookup o then m !! (o_universe o, o_code o) else None)
  end.
Definition get_option (c : context) (r : data_string) (opts : nat) (o : option_ref) : ev (bool * data_string) :=
  s <~ get;
  oc <~ lift (lookup_option o opts s);
  match oc with Some oc => evaluate_option_cache c r oc | None => ret (false, r) end.

(** *** Classes (server/class.c) *)
Definition classify (p : packet) (k : nat) : ev unit :=
  s <~ get;
  let ks := default [] (s_member s !! p_id p) in
  if zlen ks <? PACKET_MAX_CLASSES then modify (set_member (<[p_id p := ks ++ [k]]> (s_member s)))
  else match p_raw p with Some _ => log_error Other | None => lift Fault end.

(** No value of an expression is 2, so that [ignorep] is never set. *)
Definition evaluate_boolean_expression_result (c : context) (e : expression) : ev bool :=
  '(status, b) <~ evaluate_boolean_expression E c e; ret (status && default false b).

Fixpoint hash_lookup (h : list (list Z * nat)) (key : list Z) : option nat :=
  match h with [] => None | (k, v) :: r => if bool_decide (k = key) then Some v else hash_lookup r key end.

Definition check_subclass (c : context) (p : packet) (k : nat) (cl : class) (e : expression) : ev bool :=
  '(status, d) <~ evaluate_data_expression E c null_string e;
  if negb (status && negb (d_len d =? 0)) then ret false
  else
    key <~ lift (ds_bytes d);
    s <~ get;
    match s_class s !! k with
    | None => lift Fault
    | Some cl =>
        match hash_lookup (k_hash cl) key with
        | Some nc => classify p nc;;; ret true
        | None =>
            if negb (k_spawning cl) then ret false
            else
              let nc := length (s_class s) in
              modify (set_class (<[k := mk_class (k_expr cl) (k_submatch cl) ((key, nc) :: k_hash cl) (k_spawning cl) (k_limit cl) (k_superclass cl)]>
                                   (s_class s) ++ [mk_class None None [] false (k_limit cl) (Some k)]));;;
              classify p nc;;;
              ret false
        end
    end.
Definition check_class (c : context) (p : packet) (k : nat) : ev bool :=
  s <~ get;
  match s_class s !! k with
  | None => lift Fault
  | Some cl =>
      status <~ match k_expr cl with Some e => evaluate_boolean_expression_result c e | None => ret true end;
      if negb status then ret false
      else
        match k_submatch cl with
        | Some e => check_subclass c p k cl e
        | None => match k_expr cl with Some _ => classify p k;;; ret true | None => ret false end
        end
  end.
Fixpoint check_classes (c : context) (p : packet) (ks : list nat) (matched : bool) : ev bool :=
  match ks with
  | [] => ret matched
  | k :: r => m <~ check_class c p k; check_classes c p r (matched || m)
  end.
(** A class without expressions, for which the packet is not looked at. *)
Definition needs_no_packet (s : state) (k : nat) : bool :=
  match s_class s !! k with Some cl => match k_expr cl, k_submatch cl with None, None => true | _, _ => false end | None => false end.
(** The scope is that of the lease, or the global one, without the scopes of
    functions. *)
Definition without_locals {A} (m : ev A) : ev A :=
  fun s => ('(s', a) ← m (set_scopes [] (s_root s) s); Done (set_scopes (s_locals s) (s_root s') s', a))%stdpp.
Definition check_collection (c : context) (coll : nat) : ev bool :=
  s <~ get;
  match packet_of c with
  | None => if forallb (needs_no_packet s) (collection coll) then ret false else lift Fault
  | Some p =>
      without_locals (check_classes (mk_context (Some p) (lease_of c) None (Some (p_options p)) None) p (collection coll) false)
  end.

(** *** Boolean expressions *)
Definition values_equal (x y : binding_value) : outcome bool :=
  match x, y with
  | binding_boolean a, binding_boolean b => Done (Bool.eqb a b)
  | binding_data a, binding_data b =>
      if d_len a =? d_len b then x ← ds_bytes a; y ← load b (d_len b); Done (bool_decide (x = y)) else Done false
  | binding_numeric a, binding_numeric b => Done (a =? b)
  | binding_function a _ _, binding_function b _ _ => Done (bool_decide (a = b))
  | _, _ => Done false
  end.
(** Values of different types are not equal.  The value of a call that returned
    none is dereferenced, to be compared when both sides succeeded and to be
    released when only one did. *)
Definition expressions_equal (x y : bool * option binding_value) : outcome bool :=
  match x, y with
  | (true, Some a), (true, Some b) => values_equal a b
  | (true, _), (true, _) => Fault
  | (false, _), (false, _) => Done true
  | (true, Some _), (false, _) | (false, _), (true, Some _) => Done false
  | (true, None), (false, _) | (false, _), (true, None) => Fault
  end.

Definition regex_match (icase : bool) (c : context) (l r : expression) : ev (bool * option bool) :=
  '(bleft, x) <~ evaluate_data_expression E c null_string l;
  x <~ (if bleft : bool then lift (data_string_terminate x) else ret None);
  '(bright, y) <~ evaluate_data_expression E c null_string r;
  match x, bright, x ≫= d_buf, d_buf y with
  | Some _, true, Some lb, Some rb =>
      re <~ lift (cstring rb);
      str <~ lift (cstring lb);
      ret (true, Some (regexec icase re str))
  | Some _, both, _, _ => ret (both, Some false)
  | None, _, _, _ => ret (false, Some false)
  end.

Definition boolean_step (c : context) (e : expression) : ev (bool * option bool) :=
  match e with
  | expr_check coll => m <~ check_collection c coll; ret (true, Some m)
  | expr_equal l r =>
      x <~ evaluate_expression E c l; y <~ evaluate_expression E c r; b <~ lift (expressions_equal x y); ret (true, Some b)
  | expr_not_equal l r =>
      x <~ evaluate_expression E c l; y <~ evaluate_expression E c r; b <~ lift (expressions_equal x y); ret (true, Some (negb b))
  | expr_iregex_match l r => regex_match true c l r
  | expr_regex_match l r => regex_match false c l r
  | expr_and l r =>
      '(sleft, bleft) <~ evaluate_boolean_expression E c l;
      if sleft && default false bleft then
        '(sright, bright) <~ evaluate_boolean_expression E c r;
        if sright : bool then ret (true, Some (default false bright)) else ret (false, None)
      else ret (false, None)
  | expr_or l r =>
      '(sleft, bleft) <~ evaluate_boolean_expression E c l;
      if sleft && default false bleft then ret (true, Some true)
      else
        '(sright, bright) <~ evaluate_boolean_expression E c r;
        if sleft || sright then ret (true, Some (default false bleft || default false bright)) else ret (false, None)
  | expr_not e =>
      '(sleft, bleft) <~ evaluate_boolean_expression E c e;
      if sleft : bool then ret (true, Some (negb (default false bleft))) else ret (false, None)
  | expr_exists o =>
      match in_options c with
      | None => ret (true, Some false)
      | Some opts => '(b, _) <~ get_option c null_string opts o; ret (true, Some b)
      end
  | expr_known => match packet_of c with None => ret (false, None) | Some p => ret (true, Some (p_known p)) end
  | expr_static => ret (true, Some (match lease_of c with Some l => l_static l | None => false end))
  | expr_variable_exists n =>
      s <~ get; ret (true, Some (match find_binding (chain s) n with Some (Some _) => true | _ => false end))
  | expr_variable_reference n =>
      s <~ get;
      match find_binding (chain s) n with
      | Some (Some (binding_boolean b)) => ret (true, Some b)
      | Some (Some _) => log_error BindingType;;; ret (false, None)
      | _ => ret (false, None)
      end
  | expr_funcall _ _ =>
      '(status, v) <~ evaluate_expression E c e;
      r <~ (if status : bool then
              match v with
              | None => lift Fault
              | Some (binding_boolean b) => ret (Some b)
              | Some _ => log_error BindingType;;; ret None
              end
            else ret None);
      log_error Opcode;;; ret (false, r)
  | _ => log_error Opcode;;; ret (false, None)
  end.

(** *** Data expressions *)
Definition raw_field (c : context) (at_ size : Z) (r : data_string) : ev (bool * data_string) :=
  match packet_of c with
  | None => ret (false, r)
  | Some p =>
      raw <~ lift (match p_raw p with Some raw => Done raw | None => Fault end);
      f <~ lift (rdn raw at_ size);
      n <~ lift (strlen (f ++ [0]) 0);
      if n =? 0 then ret (false, r) else ret (true, ds_new (take (Z.to_nat n) f) true)
  end.
Definition hardware (c : context) (r : data_string) : ev (bool * data_string) :=
  match client_of c with
  | Some cl => ret (true, mk_ds (Some (c_hardware cl)) (zlen (c_hardware cl)) false)
  | None =>
      match packet_of c ≫= p_raw, lease_of c with
      | Some raw, _ =>
          hlen <~ lift (rd raw RAW_HLEN);
          if 16 <? hlen then log_error Other;;; ret (false, r)
          else
            htype <~ lift (rd raw RAW_HTYPE);
            a <~ lift (rdn raw RAW_CHADDR hlen);
            ret (true, ds_new (htype :: a) false)
      | None, Some l => ret (true, ds_new (l_hardware l) false)
      | None, None => log_error Other;;; ret (false, r)
      end
  end.
Definition packet_part (p : packet) (raw : list Z) (offset len : Z) (r : data_string) : ev (bool * data_string) :=
  if offset <? p_length p then
    let n := if p_length p <? u64 (offset + len) then u32 (p_length p - offset) else u32 len in
    b <~ lift (rdn raw offset n); ret (true, ds_new b false)
  else ret (false, r).

Fixpoint climb (p : packet) (opts : option nat) (i : Z) : packet * option nat * Z :=
  if i =? 0 then (p, opts, i)
  else match p_container p with None => (p, opts, i) | Some q => climb q (Some (p_options q)) (i - 1) end.
Definition v6relay (c : context) (len : Z) (r : data_string) (roption : expression) : ev (bool * data_string) :=
  let go p opts := '(s1, d) <~ evaluate_data_expression E (mk_context p (lease_of c) (client_of c) opts (cfg_options c)) null_string roption;
                   ret (s1, if s1 : bool then d else r) in
  if len =? 0 then go (packet_of c) (in_options c)
  else
    match packet_of c with
    | None => ret (false, r)
    | Some p =>
        match p_container p with
        | None => ret (false, r)
        | Some _ =>
            let '(q, opts, i) := climb p (in_options c) len in
            if (len <=? MAX_V6RELAY_HOPS) && negb (i =? 0) then ret (false, r) else go (Some q) opts
        end
    end.

Definition data_case (f : Z -> Z) (c : context) (r : data_string) (e : expression) : ev (bool * data_string) :=
  '(s0, d) <~ evaluate_data_expression E c null_string e;
  if s0 : bool then d <~ lift (map_case f d); ret (true, d) else ret (false, r).
Definition encode (width : Z) (c : context) (r : data_string) (e : expression) : ev (bool * data_string) :=
  n <~ evaluate_numeric_expression E c e;
  match n with
  | Some n => b <~ lift (encode_int n width); ret (true, mk_ds (Some b) width (d_terminated r))
  | None => ret (false, mk_ds (d_buf r) 0 (d_terminated r))
  end.

Definition data_step (c : context) (r : data_string) (e : expression) : ev (bool * data_string) :=
  match e with
  | expr_substring e offset len =>
      '(s0, d) <~ evaluate_data_expression E c null_string e;
      o <~ evaluate_numeric_expression E c offset;
      l <~ evaluate_numeric_expression E c len;
      match s0, o, l with
      | true, Some o, Some l => ret (true, if o <? d_len d then substring d o l else r)
      | _, _, _ => ret (false, r)
      end
  | expr_suffix e len =>
      '(s0, d) <~ evaluate_data_expression E c null_string e;
      l <~ evaluate_numeric_expression E c len;
      match s0, l with true, Some l => ret (true, suffix d l) | _, _ => ret (false, r) end
  | expr_lcase e => data_case mklower c r e
  | expr_ucase e => data_case toupper c r e
  | expr_option o => match in_options c with Some opts => get_option c r opts o | None => ret (false, r) end
  | expr_config_option o => match cfg_options c with Some opts => get_option c r opts o | None => ret (false, r) end
  | expr_hardware => hardware c r
  | expr_packet offset len =>
      match packet_of c with
      | None => log_error Other;;; ret (false, r)
      | Some p =>
          match p_raw p with
          | None => log_error Other;;; ret (false, r)
          | Some raw =>
              o <~ evaluate_numeric_expression E c offset;
              l <~ evaluate_numeric_expression E c len;
              match o, l with Some o, Some l => packet_part p raw o l r | _, _ => ret (false, r) end
          end
      end
  | expr_encapsulate n => match cfg_options c with Some _ => option_space_encapsulate c r n | None => ret (false, r) end
  | expr_const_data d => ret (true, d)
  | expr_host_lookup n => match host_lookup n with Some b => ret (true, ds_new b false) | None => ret (false, r) end
  | expr_concat x y =>
      '(s0, d) <~ evaluate_data_expression E c null_string x;
      '(s1, o) <~ evaluate_data_expression E c null_string y;
      if s0 && s1 then cat <~ lift (concat_strings r d o); ret (true, cat) else ret (false, r)
  | expr_concat_dclist x y =>
      '(s0, d) <~ evaluate_data_expression E c null_string x;
      '(s1, o) <~ evaluate_data_expression E c null_string y;
      if s0 && s1 then
        '(n, cat) <~ lift (concat_dclists r d o);
        if n =? 0 then log_error Other;;; ret (false, cat) else ret (true, cat)
      else ret (false, r)
  | expr_encode_int8 e => encode 1 c r e
  | expr_encode_int16 e => encode 2 c r e
  | expr_encode_int32 e => encode 4 c r e
  | expr_binary_to_ascii base width separator buffer =>
      b <~ evaluate_numeric_expression E c base;
      w <~ evaluate_numeric_expression E c width;
      '(s2, sep) <~ evaluate_data_expression E c null_string separator;
      '(s3, d) <~ evaluate_data_expression E c null_string buffer;
      match b, w, s2 && s3 with
      | Some b, Some w, true => x <~ lift (b2a_string b w sep d); ret (match x with Some x => (true, x) | None => (false, r) end)
      | _, _, _ => ret (false, r)
      end
  | expr_reverse width buffer =>
      w <~ evaluate_numeric_expression E c width;
      '(s1, d) <~ evaluate_data_expression E c null_string buffer;
      match w, s1 with
      | Some w, true => x <~ lift (reverse_string w d); ret (match x with Some x => (true, x) | None => (false, r) end)
      | _, _ => ret (false, r)
      end
  | expr_leased_address => match lease_of c with Some l => ret (true, ds_new (l_ip_addr l) false) | None => log_error Other;;; ret (false, r) end
  | expr_pick_first_value car cdr =>
      '(s0, x) <~ evaluate_data_expression E c r car;
      if s0 : bool then ret (true, x)
      else match cdr with Some e => evaluate_data_expression E c x e | None => ret (false, x) end
  | expr_host_decl_name =>
      match lease_of c ≫= l_host with Some n => ret (true, ds_new n true) | None => log_error Other;;; ret (false, r) end
  | expr_null => ret (false, r)
  | expr_variable_reference n =>
      s <~ get;
      match find_binding (chain s) n with
      | Some (Some (binding_data d)) => ret (true, d)
      | Some (Some _) => log_error BindingType;;; ret (false, r)
      | _ => ret (false, r)
      end
  | expr_funcall _ _ =>
      '(status, v) <~ evaluate_expression E c e;
      x <~ (if status : bool then
              match v with
              | None => lift Fault
              | Some (binding_data d) => ret d
              | Some _ => log_error BindingType;;; ret r
              end
            else ret r);
      log_error Opcode;;; ret (false, x)
  | expr_filename => raw_field c RAW_FILE 128 r
  | expr_sname => raw_field c RAW_SNAME 64 r
  | expr_gethostname =>
      match gethostname with
      | Some n =>
          buf <~ lift (wrn (buffer_allocate 255) 0 (take 255 n));
          len <~ lift (strlen buf 0);
          ret (true, mk_ds (Some buf) len false)
      | None => ret (false, null_string)
      end
  | expr_v6relay relay roption =>
      len <~ evaluate_numeric_expression E c relay;
      match len with Some len => v6relay c len r roption | None => ret (false, r) end
  | _ => log_error Opcode;;; ret (false, r)
  end.

(** *** Numeric expressions *)
Definition extract (width : Z) (c : context) (e : expression) : ev (option Z) :=
  '(status, d) <~ evaluate_data_expression E c null_string e;
  if status : bool then lift (extract_int width d) else ret None.

Definition numeric_step (c : context) (e : expression) : ev (option Z) :=
  match e with
  | expr_extract_int8 e => extract 1 c e
  | expr_extract_int16 e => extract 2 c e
  | expr_extract_int32 e => extract 4 c e
  | expr_const_int n => ret (Some n)
  | expr_lease_time =>
      match lease_of c with
      | None => log_error Other;;; ret None
      | Some l => if l_ends l <? cur_time then log_error Other;;; ret None else ret (Some (l_ends l - cur_time))
      end
  | expr_variable_reference n =>
      s <~ get;
      match find_binding (chain s) n with
      | Some (Some (binding_numeric i)) => ret (Some i)
      | Some (Some _) => log_error BindingType;;; ret None
      | _ => ret None
      end
  | expr_funcall _ _ =>
      '(status, v) <~ evaluate_expression E c e;
      (if status : bool then
         match v with
         | None => lift Fault
         | Some (binding_numeric _) => ret tt
         | Some _ => log_error BindingType
         end
       else ret tt);;;
      log_error Opcode;;; ret None
  | expr_arith op l r =>
      x <~ evaluate_numeric_expression E c l;
      y <~ evaluate_numeric_expression E c r;
      ret (match x, y with Some x, Some y => arith_value op x y | _, _ => None end)
  | expr_client_state => ret (match client_of c with Some cl => Some (c_state cl) | None => None end)
  | expr_concat_dclist _ _ | expr_dns_transaction | expr_ns => lift Fatal
  | _ => log_error Opcode;;; ret None
  end.

(** *** All expressions *)

(** The arguments are evaluated one by one; those of a call with the wrong
    number of arguments as far as there are parameters. *)
Fixpoint bind_arguments (c : context) (args : list expression) (params : list (list Z)) (ns : scope) : ev (option scope) :=
  match args, params with
  | [], [] => ret (Some ns)
  | e :: args, p :: params =>
      '(status, v) <~ evaluate_expression E c e;
      bind_arguments c args params ((p, if status : bool then v else None) :: ns)
  | _, _ => log_error Call;;; ret None
  end.
Definition with_locals (ns : scope) {A} (m : ev A) : ev A :=
  modify (fun s => set_scopes (ns :: s_locals s) (s_root s) s);;;
  a <~ m;
  modify (fun s => set_scopes (tail (s_locals s)) (s_root s) s);;;
  ret a.

Definition expression_step (c : context) (e : expression) : ev (bool * option binding_value) :=
  match e with
  | expr_variable_reference n =>
      s <~ get; match find_binding (chain s) n with Some (Some v) => ret (true, Some v) | _ => ret (false, None) end
  | expr_funcall n args =>
      s <~ get;
      match find_binding (chain s) n with
      | Some (Some (binding_function _ params body)) =>
          ns <~ bind_arguments c args params [];
          match ns with
          | None => ret (false, None)
          | Some ns =>
              '(status, bv) <~ with_locals ns (execute_statements E c false (Some None) body);
              match bv with
              | Some (Some v) => ret (if status : bool then (true, Some v) else (false, None))
              | _ => ret (true, None)
              end
          end
      | _ => log_error Call;;; ret (false, None)
      end
  | _ =>
      if is_boolean_expression e then
        '(status, b) <~ evaluate_boolean_expression E c e; ret (status, if status : bool then Some (binding_boolean (default false b)) else None)
      else if is_numeric_expression e then
        n <~ evaluate_numeric_expression E c e; ret (match n with Some n => (true, Some (binding_numeric n)) | None => (false, None) end)
      else if is_data_expression e then
        '(status, d) <~ evaluate_data_expression E c null_string e; ret (status, if status : bool then Some (binding_data d) else None)
      else log_error Opcode;;; ret (false, None)
  end.

(** *** Statements *)
Definition ON_COMMIT : Z := 1.
Definition ON_EXPIRY : Z := 2.
Definition ON_RELEASE : Z := 4.

Definition set_star (evtypes : Z) (ss : list statement) (o : on_star) : on_star :=
  mk_star (if Z.testbit evtypes 1 then ss else on_expiry o) (if Z.testbit evtypes 2 then ss else on_release o)
    (if Z.testbit evtypes 0 then ss else on_commit o).
Definition on_events (c : context) (given : bool) (evtypes : Z) (ss : list statement) : ev unit :=
  modify (fun s =>
    if given then set_stars (set_star evtypes ss (s_given_star s)) (s_lease_star s) s
    else match lease_of c with Some _ => set_stars (s_given_star s) (set_star evtypes ss (s_lease_star s)) s | None => s end).

Fixpoint after_default (ss : list statement) : option (list statement) :=
  match ss with [] => None | default_statement :: r => Some r | _ :: r => after_default r end.

(** The data of a case is compared only if its evaluation succeeds. *)
Fixpoint find_data_case (c : context) (d : data_string) (ss : list statement) : ev (option (list statement)) :=
  match ss with
  | [] => ret None
  | case_statement e :: r =>
      '(sub, cd) <~ evaluate_data_expression E c null_string e;
      same <~ (if sub && (d_len cd =? d_len d) then x <~ lift (ds_bytes cd); y <~ lift (load d (d_len cd)); ret (bool_decide (x = y))
               else ret false);
      if same : bool then ret (Some r) else find_data_case c d r
  | _ :: r => find_data_case c d r
  end.
Fixpoint find_numeric_case (c : context) (n : Z) (ss : list statement) : ev (option (list statement)) :=
  match ss with
  | [] => ret None
  | case_statement e :: r =>
      m <~ evaluate_numeric_expression E c e;
      if bool_decide (m = Some n) then ret (Some r) else find_numeric_case c n r
  | _ :: r => find_numeric_case c n r
  end.
Definition find_matching_case (c : context) (e : expression) (ss : list statement) : ev (option (list statement)) :=
  found <~ (if is_data_expression e then
              '(status, d) <~ evaluate_data_expression E c null_string e;
              if status : bool then find_data_case c d ss else ret None
            else
              n <~ evaluate_numeric_expression E c e;
              match n with Some n => find_numeric_case c n ss | None => ret None end);
  ret (match found with Some r => Some r | None => after_default ss end).

(** [save_option]; a null [options] is dereferenced by the [save_func]. *)
Definition save_option (opts : option nat) (o : option_ref) (oc : option_cache) (s : state) : outcome state :=
  if negb (o_lookup o) then Done (log Other s)
  else
    match opts with
    | None => Fault
    | Some i =>
        match s_options s !! i with
        | None => Fault
        | Some m => Done (set_options (<[i := <[(o_universe o, o_code o) := oc]> m]> (s_options s)) s)
        end
    end.
Definition find_option (c : context) (o : option_ref) : ev (option option_cache) :=
  match cfg_options c with
  | None => ret None
  | Some i => if o_lookup o then s <~ get; lift (lookup_option o i s) else log_error Other;;; ret None
  end.
Definition put_option (c : context) (o : option_ref) (oc : option_cache) : ev unit :=
  fun s => (s' ← save_option (cfg_options c) o oc s; Done (s', tt))%stdpp.

(** [make_concat]; the operator of the new node is changed for lists of domain
    names.  When there is only one expression there is no new node, and the
    operator of that expression itself, which may be a statement's, is
    changed; that is taken as an error here. *)
Definition make_concat (dclist : bool) (left right : option expression) : outcome (option expression) :=
  match left, right with
  | None, None => Done None
  | Some l, Some r => Done (Some (if dclist then expr_concat_dclist l r else expr_concat l r))
  | Some e, None | None, Some e => if dclist then Fault else Done (Some e)
  end.
Definition combine_option (c : context) (prepend : bool) (new : option_cache) : ev unit :=
  let o := oc_option new in
  old <~ find_option c o;
  match old with
  | None => put_option c o new
  | Some oc =>
      let e := match oc_expression oc with
               | Some e => Some e
               | None => if d_len (oc_data oc) =? 0 then None else Some (expr_const_data (oc_data oc))
               end in
      let dclist := o_dclist o && o_dclist (oc_option oc) in
      x <~ lift (if prepend then make_concat dclist (oc_expression new) e else make_concat dclist e (oc_expression new));
      match x with
      | None => ret tt
      | Some x =>
          if negb (Bool.eqb (o_dclist o) (o_dclist (oc_option oc))) then log_error Other
          else put_option c o (mk_cache (oc_option oc) null_string (Some x))
      end
  end.

Definition set_variable (c : context) (name : list Z) (v : ev (option binding_value)) : ev unit :=
  s <~ get;
  match s_locals s, s_root s with
  | [], None => log_error Other
  | _, _ =>
      modify (fun s => match s_locals s, s_root s with [], Some [] => set_scopes [] (Some [[]]) s | _, _ => s end);;;
      modify (fun s => match find_binding (chain s) name with Some _ => s | None => set_chain (new_binding (chain s) name) s end);;;
      modify (assign_value name None);;;
      x <~ v;
      match x with Some x => modify (assign_value name (Some x)) | None => ret tt end
  end.

(** The copy of the name of a [let]: [strcpy] into a block of [strlen (name + 1)]
    bytes, that is of the length of the name less its first character. *)
Definition copy_let_name (name : list Z) : outcome (list Z) :=
  wrn (replicate (length (drop 1 name)) 0) 0 (name ++ [0]).

(** The [let]s of which each is the first statement of the one before: the
    values are evaluated outside; what follows an inner one is left out. *)
Fixpoint let_bindings (c : context) (ns : scope) (x : statement) : ev (scope * list statement) :=
  match x with
  | let_statement n e ss =>
      lift (copy_let_name n);;;
      '(status, v) <~ evaluate_expression E c e;
      let ns := (n, if status : bool then v else None) :: ns in
      match ss with
      | (let_statement _ _ _ as y) :: _ => let_bindings c ns y
      | _ => ret (ns, ss)
      end
  | _ => ret (ns, [])
  end.

Fixpoint arguments (c : context) (args : list expression) : ev (option (list (list Z))) :=
  match args with
  | [] => ret (Some [])
  | e :: r =>
      '(status, d) <~ evaluate_data_expression E c null_string e;
      if status : bool then
        b <~ lift (ds_bytes d);
        l <~ arguments c r;
        ret (match l with Some l => Some (b :: l) | None => None end)
      else ret None
  end.

(** [inl]: go on with the next statement; [inr]: return. *)
Definition step_result : Type := option (option binding_value) + bool * option (option binding_value).
Definition nested (m : ev (bool * option (option binding_value))) : ev step_result :=
  '(status, res) <~ m; ret (if status : bool then inl res else inr (false, res)).

Definition execute_statement_step (c : context) (given : bool) (res : option (option binding_value)) (x : statement) : ev step_result :=
  match x with
  | statements_statement ss => nested (execute_statements E c given res ss)
  | on_statement evtypes ss => on_events c given evtypes ss;;; ret (inl res)
  | switch_statement e ss =>
      found <~ find_matching_case c e ss;
      match found with Some r => nested (execute_statements E c given res r) | None => ret (inl res) end
  | if_statement e tc fc =>
      '(status, b) <~ evaluate_boolean_expression E c e;
      nested (execute_statements E c given res (if status && default false b then tc else fc))
  | eval_statement e => evaluate_expression E c e;;; ret (inl res)
  | execute_statement command args =>
      l <~ arguments c args;
      (match l with Some l => log_error (Ran (command :: l)) | None => ret tt end);;;
      ret (inl res)
  | return_statement e =>
      '(status, v) <~ evaluate_expression E c e;
      ret (inl (match res, status, v with Some _, true, Some v => Some (Some v) | _, _, _ => res end))
  | add_statement k => match packet_of c with Some p => classify p k;;; ret (inl res) | None => lift Fault end
  | break_statement => ret (inr (true, res))
  | supersede_option_statement o d e | send_option_statement o d e => put_option c o (mk_cache o d e);;; ret (inl res)
  | default_option_statement o d e =>
      old <~ find_option c o;
      (match old with Some _ => ret tt | None => put_option c o (mk_cache o d e) end);;;
      ret (inl res)
  | append_option_statement o d e => combine_option c false (mk_cache o d e);;; ret (inl res)
  | prepend_option_statement o d e => combine_option c true (mk_cache o d e);;; ret (inl res)
  | set_statement n e =>
      set_variable c n ('(status, v) <~ evaluate_expression E c e; ret (if status : bool then v else None));;; ret (inl res)
  | define_statement n f args ss => set_variable c n (ret (Some (binding_function f args ss)));;; ret (inl res)
  | unset_statement n => modify (assign_value n None);;; ret (inl res)
  | let_statement _ _ _ =>
      '(ns, ss) <~ let_bindings c [] x;
      match ss with
      | [] => ret (inl res)
      | _ => '(_, res) <~ with_locals ns (execute_statements E c given res ss); ret (inl res)
      end
  | log_statement priority e =>
      '(status, d) <~ evaluate_data_expression E c null_string e;
      if status : bool then
        match priority with
        | log_priority_fatal => lift Fatal
        | _ => t <~ lift (ds_bytes d); log_error (Logged priority t);;; ret (inl res)
        end
      else ret (inl res)
  | vendor_opt_statement => parse_vendor_option c;;; ret (inl res)
  | case_statement _ | default_statement => ret (inl res)
  | null_statement => log_error Other;;; ret (inl res)
  end.

Fixpoint statements_step (c : context) (given : bool) (res : option (option binding_value)) (ss : list statement)
    : ev (bool * option (option binding_value)) :=
  match ss with
  | [] => ret (true, res)
  | x :: r =>
      match res with
      | Some (Some _) => ret (true, res)
      | _ =>
          f <~ execute_statement_step c given res x;
          match f with inl res => statements_step c given res r | inr out => ret out end
      end
  end.

Definition evaluators_step : evaluators :=
  mk_evaluators boolean_step data_step numeric_step expression_step statements_step.
End evaluators.

Definition no_evaluators : evaluators :=
  mk_evaluators (fun _ _ _ => Running) (fun _ _ _ _ => Running) (fun _ _ _ => Running) (fun _ _ _ => Running) (fun _ _ _ _ _ => Running).
Fixpoint evaluators_at `{HostOrder} `{Surroundings} (fuel : nat) : evaluators :=
  match fuel with O => no_evaluators | S n => evaluators_step (evaluators_at n) end.
