(* ===== verification/EvalType.v ===== *)
(** * Typed expressions and statements

    In a state whose expressions are typed, as the parser's tests of the
    context make them, the evaluators never meet an operator that has no value
    of the wanted type, never call [log_fatal], and keep the state typed.
    Expressions create no variables.  The theorems that put this together with
    the expressions that are sure to return are in EvalTotal. *)

From stdpp Require Import base tactics list numbers gmap.
From S2P Require Import Prelude Convert Name Expr Eval.

#[local] Open Scope Z_scope.

(** ** Types *)
Inductive type := TBool | TData | TNum | TAny.

Definition is_variable (e : expression) : bool := match e with expr_variable_reference _ => true | _ => false end.
Definition is_call (e : expression) : bool := match e with expr_funcall _ _ => true | _ => false end.
Definition is_dclist (e : expression) : bool := match e with expr_concat_dclist _ _ => true | _ => false end.

(** The operator is one that the evaluator of the type takes.  Calls have a
    value only where any type will do. *)
Definition fits (t : type) (e : expression) : bool :=
  is_variable e ||
  match t with
  | TBool => is_boolean_expression e
  | TData => is_data_expression e || is_dclist e
  | TNum => is_numeric_expression e
  | TAny => is_boolean_expression e || is_data_expression e || is_numeric_expression e || is_call e
  end.

Fixpoint typed (e : expression) (t : type) {struct e} : bool :=
  fits t e &&
  match e with
  | expr_equal l r | expr_not_equal l r => typed l TAny && typed r TAny
  | expr_regex_match l r | expr_iregex_match l r | expr_concat l r | expr_concat_dclist l r => typed l TData && typed r TData
  | expr_and l r | expr_or l r => typed l TBool && typed r TBool
  | expr_not e => typed e TBool
  | expr_substring e o l => typed e TData && typed o TNum && typed l TNum
  | expr_suffix e l => typed e TData && typed l TNum
  | expr_lcase e | expr_ucase e | expr_extract_int8 e | expr_extract_int16 e | expr_extract_int32 e => typed e TData
  | expr_packet o l => typed o TNum && typed l TNum
  | expr_encode_int8 e | expr_encode_int16 e | expr_encode_int32 e => typed e TNum
  | expr_binary_to_ascii b w s d => typed b TNum && typed w TNum && typed s TData && typed d TData
  | expr_reverse w d => typed w TNum && typed d TData
  | expr_pick_first_value a d => typed a TData && match d with Some d => typed d TData | None => true end
  | expr_v6relay n d => typed n TNum && typed d TData
  | expr_arith _ l r => typed l TNum && typed r TNum
  | expr_funcall _ args => forallb (fun e => typed e TAny) args
  | _ => true
  end.

Fixpoint typed_statement (x : statement) {struct x} : bool :=
  match x with
  | statements_statement ss | on_statement _ ss => forallb typed_statement ss
  | switch_statement e ss =>
      forallb typed_statement ss &&
      (if is_data_expression e then typed e TData else typed e TNum) &&
      forallb (fun x => match x with case_statement e' => if is_data_expression e then typed e' TData else typed e' TNum | _ => true end) ss
  | if_statement e tc fc => typed e TBool && forallb typed_statement tc && forallb typed_statement fc
  | eval_statement e | return_statement e | set_statement _ e => typed e TAny
  | execute_statement _ args => forallb (fun e => typed e TData) args
  | supersede_option_statement _ _ e | send_option_statement _ _ e | default_option_statement _ _ e
  | append_option_statement _ _ e | prepend_option_statement _ _ e => match e with Some e => typed e TData | None => true end
  | define_statement _ _ _ ss => forallb typed_statement ss
  | let_statement _ e ss => typed e TAny && forallb typed_statement ss
  | log_statement p e => match p with log_priority_fatal => false | _ => typed e TData end
  | _ => true
  end.

(** The value of an expression has the type of its operator. *)
Definition value_fits (e : expression) (v : binding_value) : Prop :=
  match v with
  | binding_boolean _ => is_boolean_expression e || is_variable e || is_call e
  | binding_data _ => is_data_expression e || is_variable e || is_call e
  | binding_numeric _ => is_numeric_expression e || is_variable e || is_call e
  | binding_function _ _ _ => is_variable e || is_call e
  end = true.

Definition typed_value (v : binding_value) : Prop :=
  match v with binding_function _ _ ss => forallb typed_statement ss = true | _ => True end.
Definition typed_scope (s : scope) : Prop := Forall (fun b => forall v, b.2 = Some v -> typed_value v) s.
Definition typed_cache (oc : option_cache) : Prop := forall e, oc_expression oc = Some e -> typed e TData = true.
Definition typed_class (k : class) : Prop :=
  (forall e, k_expr k = Some e -> typed e TBool = true) /\ (forall e, k_submatch k = Some e -> typed e TData = true).

(** All that may be evaluated is typed, and there was no wrong operator. *)
Record typed_state (s : state) : Prop := {
  ts_locals : Forall typed_scope (s_locals s);
  ts_root : Forall typed_scope (default [] (s_root s));
  ts_options : Forall (map_Forall (fun _ => typed_cache)) (s_options s);
  ts_class : Forall typed_class (s_class s);
  ts_log : Opcode ∉ s_log s }.

(** ** Names of variables *)
Definition names (ss : list scope) : list (list (list Z)) := map (map fst) ss.
Definition same_names (s s' : state) : Prop :=
  names (s_locals s') = names (s_locals s) /\ names <$> s_root s' = names <$> s_root s.
(** New names come only to the innermost scope, which is made if there is none. *)
Inductive more_names : list (list (list Z)) -> list (list (list Z)) -> Prop :=
  | more_names_head new h t : more_names (h :: t) ((new ++ h) :: t)
  | more_names_none h : more_names [] [h].
Definition grown_names (s s' : state) : Prop :=
  same_names s s' \/
  (s_locals s <> [] /\ more_names (names (s_locals s)) (names (s_locals s')) /\ names <$> s_root s' = names <$> s_root s) \/
  (s_locals s = [] /\ s_locals s' = [] /\ exists ss ss', s_root s = Some ss /\ s_root s' = Some ss' /\ more_names (names ss) (names ss')).

#[export] Instance same_names_preorder : PreOrder same_names.
Proof. split; [by split|]. intros s1 s2 s3 [E1 E2] [E3 E4]. split; congruence. Qed.

Lemma more_names_trans a b d : more_names a b -> more_names b d -> more_names a d.
Proof.
  intros [new h t|h] H; inversion H as [new' h' t'|]; subst; [rewrite app_assoc|]; constructor.
Qed.
Lemma more_names_not_nil a b : more_names a b -> b <> [].
Proof. by intros []. Qed.
Lemma names_nil ss : names ss = [] -> ss = [].
Proof. by destruct ss. Qed.

Lemma same_locals s s' : same_names s s' -> s_locals s = [] <-> s_locals s' = [].
Proof. intros [E _]. split; intros H; rewrite H in E; apply names_nil; [exact E|by symmetry]. Qed.

#[export] Instance grown_names_preorder : PreOrder grown_names.
Proof.
  split; [by left|]. intros s1 s2 s3 H1 H2.
  destruct H1 as [H1|[(N1 & M1 & R1)|(L1 & L2 & ss1 & ss2 & E1 & E2 & M1)]], H2 as [H2|[(N2 & M2 & R2)|(L3 & L4 & ss3 & ss4 & E3 & E4 & M2)]].
  - left. by etransitivity.
  - pose proof (same_locals _ _ H1). destruct H1 as [A B]. right; left. split_and!; [tauto|by rewrite <- A|by rewrite R2].
  - pose proof (same_locals _ _ H1). destruct H1 as [A B]. right; right. rewrite E3 in B. destruct (s_root s1) as [ss1|] eqn:E1; [|done]. injection B as B.
    split_and!; [tauto|done|]. exists ss1, ss4. split_and!; [done|done|by rewrite <- B].
  - destruct H2 as [A B]. right; left. split_and!; [done|by rewrite A|by rewrite B].
  - right; left. split_and!; [done|by eapply more_names_trans|by rewrite R2].
  - apply more_names_not_nil in M1. by rewrite L3 in M1.
  - destruct H2 as [A B]. rewrite E2 in B. destruct (s_root s3) as [ss3|] eqn:E3; [|done]. injection B as B. rewrite L2 in A. apply names_nil in A.
    right; right. split_and!; [done|done|]. exists ss1, ss3. split_and!; [done|done|by rewrite B].
  - done.
  - right; right. split_and!; [done|done|]. exists ss1, ss4. split_and!; [done|done|]. rewrite E2 in E3. injection E3 as <-. by eapply more_names_trans.
Qed.

(** ** Computations that keep a state typed *)
Definition spec {A} (R : relation state) (m : ev A) (Q : A -> Prop) : Prop :=
  forall s, typed_state s -> match m s with Done (s', a) => typed_state s' /\ R s s' /\ Q a | Fatal => False | _ => True end.

Section spec.
Context (R : relation state) `{!PreOrder R}.

Lemma spec_ret {A} (a : A) (Q : A -> Prop) : Q a -> spec R (ret a) Q.
Proof. intros HQ s Hs. simpl. split_and!; [done|reflexivity|done]. Qed.
Lemma spec_bind {A B} (m : ev A) (k : A -> ev B) (P : A -> Prop) (Q : B -> Prop) :
  spec R m P -> (forall a, P a -> spec R (k a) Q) -> spec R (bind m k) Q.
Proof.
  intros Hm Hk s Hs. unfold bind. specialize (Hm s Hs). destruct (m s) as [[s1 a]| | |]; simpl; try done.
  destruct Hm as (Hs1 & R1 & Ha). specialize (Hk a Ha s1 Hs1). destruct (k a s1) as [[s2 b]| | |]; try done.
  destruct Hk as (Hs2 & R2 & Hb). split_and!; [done|by etransitivity|done].
Qed.
Lemma spec_lift {A} (m : outcome A) (Q : A -> Prop) : m <> Fatal -> (forall a, m = Done a -> Q a) -> spec R (lift m) Q.
Proof. intros Hf HQ s Hs. unfold lift. destruct m; simpl; try done. split_and!; [done|reflexivity|by apply HQ]. Qed.
Lemma spec_get : spec R get typed_state.
Proof. intros s Hs. simpl. split_and!; [done|reflexivity|done]. Qed.
Lemma spec_modify f (Q : unit -> Prop) : (forall s, typed_state s -> typed_state (f s) /\ R s (f s)) -> Q tt -> spec R (modify f) Q.
Proof. intros Hf HQ s Hs. simpl. destruct (Hf s Hs). split_and!; done. Qed.
Lemma spec_post {A} (m : ev A) (P Q : A -> Prop) : spec R m P -> (forall a, P a -> Q a) -> spec R m Q.
Proof. intros Hm HQ s Hs. specialize (Hm s Hs). destruct (m s) as [[s1 a]| | |]; [|done..]. destruct Hm as (? & ? & ?). split_and!; auto. Qed.
End spec.

Lemma spec_same_grown {A} (m : ev A) Q : spec same_names m Q -> spec grown_names m Q.
Proof. intros Hm s Hs. specialize (Hm s Hs). destruct (m s) as [[s1 a]| | |]; [|done..]. destruct Hm as (? & ? & ?). split_and!; [done|by left|done]. Qed.

(** *** Changes of the state *)
Lemma typed_log x s : typed_state s -> x <> Opcode -> typed_state (log x s).
Proof. intros [? ? ? ? Hl] Hx. split; simpl; try done. rewrite elem_of_app, elem_of_cons, elem_of_nil. intuition congruence. Qed.
Lemma spec_log R `{!PreOrder R} x (Q : unit -> Prop) : (forall s, R s (log x s)) -> x <> Opcode -> Q tt -> spec R (modify (log x)) Q.
Proof. intros HR Hx HQ. apply spec_modify; [|done]. intros s Hs. split; [by apply typed_log|done]. Qed.

Lemma find_in_typed s n v : typed_scope s -> find_in s n = Some (Some v) -> typed_value v.
Proof.
  induction 1 as [|[k w] s Hw _ IH]; simpl; [done|]. destruct (same_name n k); [|done]. intros [= ->]. by apply Hw.
Qed.
Lemma find_typed ss n v : Forall typed_scope ss -> find_binding ss n = Some (Some v) -> typed_value v.
Proof.
  induction 1 as [|s ss Hs _ IH]; simpl; [done|]. destruct (find_in s n) eqn:E; [|done]. intros [= ->]. by eapply find_in_typed.
Qed.
Lemma chain_typed s : typed_state s -> Forall typed_scope (chain s).
Proof. intros []. by apply Forall_app. Qed.

Lemma assign_in_typed s n v : typed_scope s -> (forall w, v = Some w -> typed_value w) -> typed_scope (assign_in s n v).
Proof.
  intros Hs Hv. induction Hs as [|[k w] s Hw Hs IH]; simpl; [constructor|]. destruct (same_name n k); constructor; try done.
Qed.
Lemma assign_typed ss n v : Forall typed_scope ss -> (forall w, v = Some w -> typed_value w) -> Forall typed_scope (assign ss n v).
Proof.
  intros Hss Hv. induction Hss as [|s ss Hs Hss IH]; simpl; [constructor|]. case_match; constructor; auto using assign_in_typed.
Qed.
Lemma names_assign ss n v : names (assign ss n v) = names ss.
Proof.
  unfold names. induction ss as [|s ss IH]; simpl; [done|]. case_match; simpl; [|by rewrite IH]. f_equal. clear.
  induction s as [|[k w] s IH]; simpl; [done|]. destruct (same_name n k); simpl; [done|]. by rewrite IH.
Qed.
Lemma names_take n ss : names (take n ss) = take n (names ss).
Proof. unfold names. symmetry. apply firstn_map. Qed.
Lemma names_drop n ss : names (drop n ss) = drop n (names ss).
Proof. unfold names. symmetry. apply skipn_map. Qed.

Lemma set_chain_typed ss s : typed_state s -> Forall typed_scope ss -> typed_state (set_chain ss s).
Proof.
  intros [] Hss. split; simpl; try done; [by apply Forall_take|]. destruct (s_root s); simpl; [by apply Forall_drop|done].
Qed.
Lemma set_chain_same ss s : names ss = names (chain s) -> same_names s (set_chain ss s).
Proof.
  intros E. unfold set_chain, same_names, chain in *. simpl. split.
  - rewrite names_take, E. unfold names. rewrite map_app. rewrite take_app_length'; [done|by rewrite length_map].
  - destruct (s_root s) as [r|]; simpl; [|done]. f_equal. rewrite names_drop, E. unfold names. rewrite map_app. rewrite drop_app_length'; [done|by rewrite length_map].
Qed.
Lemma assign_value_ok n v s : typed_state s -> (forall w, v = Some w -> typed_value w) -> typed_state (assign_value n v s) /\ same_names s (assign_value n v s).
Proof.
  intros Hs Hv. split.
  - apply set_chain_typed; [done|]. apply assign_typed; [by apply chain_typed|done].
  - apply set_chain_same. apply names_assign.
Qed.

(** *** The library does not call [log_fatal] *)
Definition calm {A} (m : outcome A) : Prop := m <> Fatal.
Lemma calm_bind {A B} (m : outcome A) (k : A -> outcome B) : calm m -> (forall a, calm (k a)) -> calm (m ≫= k).
Proof. unfold calm. destruct m; simpl; auto; done. Qed.
Lemma calm_for_loop {S R} n : forall i (body : Z -> S -> outcome (S + R)) s, (forall i s, calm (body i s)) -> calm (for_loop n i body s).
Proof.
  induction n as [|n IH]; intros i body s Hb; [done|]. cbn [for_loop]. apply calm_bind; [done|]. intros [?|?]; [by apply IH|done].
Qed.
Lemma calm_and_then {A B} (m : outcome (list Z * option A)) (k : list Z -> A -> outcome (list Z * option B)) :
  calm m -> (forall d a, calm (k d a)) -> calm (and_then m k).
Proof. intros Hm Hk. apply calm_bind; [done|]. intros [d [a|]]; [apply Hk|done]. Qed.

Create HintDb calm.
Ltac calm1 :=
  match goal with
  | |- calm (_ ≫= _) => apply calm_bind; [|intros]
  | |- calm (and_then _ _) => apply calm_and_then; [|intros]
  | |- calm (for_loop _ _ _ _) => apply calm_for_loop; intros
  | |- calm (match ?x with _ => _ end) => destruct x
  | |- calm (Done _) => discriminate
  | |- calm Fault => discriminate
  | |- calm Running => discriminate
  | |- calm (ok _ _) => discriminate
  | |- calm (fail _) => discriminate
  | |- _ => solve [auto with calm]
  end.
Ltac calm := repeat calm1.

Lemma calm_rd {A} (l : list A) i : calm (rd l i).
Proof. unfold rd. calm. Qed.
Lemma calm_wr {A} (l : list A) i x : calm (wr l i x).
Proof. unfold wr. calm. Qed.
Lemma calm_rdn {A} (l : list A) i n : calm (rdn l i n).
Proof. unfold rdn. calm. Qed.
Lemma calm_wrn {A} (l : list A) i x : calm (wrn l i x).
Proof. unfold wrn. calm. Qed.
#[export] Hint Resolve calm_rd calm_wr calm_rdn calm_wrn : calm.
Lemma calm_load d n : calm (load d n).
Proof. unfold load. calm. Qed.
Lemma calm_bytes d : calm (ds_bytes d).
Proof. apply calm_load. Qed.
#[export] Hint Resolve calm_load calm_bytes : calm.
Lemma calm_span stop l : calm (span stop l).
Proof. induction l; simpl; calm. Qed.
Lemma calm_strlen l i : calm (strlen l i).
Proof. apply calm_span. Qed.
#[export] Hint Resolve calm_span calm_strlen : calm.
Lemma calm_cstring b : calm (cstring b).
Proof. unfold cstring. calm. Qed.
Lemma calm_terminate d : calm (data_string_terminate d).
Proof. unfold data_string_terminate. calm. Qed.
Lemma calm_map_case f d : calm (map_case f d).
Proof. unfold map_case. calm. Qed.
Lemma calm_concat r l d : calm (concat_strings r l d).
Proof. unfold concat_strings. calm. Qed.
Lemma calm_reverse_loop n : forall i len d out, calm (reverse_loop n i len d out).
Proof. induction n; intros; simpl; calm. Qed.
#[export] Hint Resolve calm_cstring calm_terminate calm_map_case calm_concat calm_reverse_loop : calm.
Lemma calm_reverse len d : calm (reverse_string len d).
Proof. unfold reverse_string. calm. Qed.
#[export] Hint Resolve calm_reverse : calm.
Lemma calm_iterate {S R} d : forall (body : S -> outcome (S + R)) s, (forall s, calm (body s)) -> calm (iterate d body s).
Proof.
  induction d as [|d IH]; intros body s Hb; cbn [iterate]; [done|]. apply calm_bind; [by apply IH|]. intros [?|?]; [by apply IH|done].
Qed.
Lemma calm_while {S R} d (body : S -> outcome (S + R)) s : (forall s, calm (body s)) -> calm (while_loop d body s).
Proof. intros Hb. unfold while_loop. apply calm_bind; [by apply calm_iterate|]. intros [?|?]; done. Qed.

Section calm_convert.
Context `{HostOrder}.
Lemma calm_get_number b p w : calm (get_number b p w).
Proof. unfold get_number, getUChar, getUShort, getULong. calm. Qed.
Lemma calm_converted_length b p base w : calm (converted_length b p base w).
Proof.
  unfold converted_length. case_match; [done|]. apply calm_bind; [apply calm_get_number|]. intros [n|]; [|done]. apply calm_while. intros [x y].
  unfold converted_length_step. calm.
Qed.
Lemma calm_b2a_loop k : forall out o base n, calm (binary_to_ascii_loop k out o base n).
Proof. induction k; intros; simpl; calm. Qed.
Lemma calm_b2a out o b p base w : calm (binary_to_ascii out o b p base w).
Proof.
  unfold binary_to_ascii. apply calm_bind; [apply calm_converted_length|]. intros n. case_match; [done|]. apply calm_bind; [apply calm_get_number|].
  intros [m|]; [|done]. apply calm_bind; [apply calm_b2a_loop|]. done.
Qed.
Lemma calm_b2a_count n : forall b i base len total sep c, calm (b2a_count n b i base len total sep c).
Proof.
  induction n; intros; simpl; [done|]. apply calm_bind; [|auto]. unfold b2a_width. pose proof calm_converted_length. calm.
Qed.
Lemma calm_b2a_write n : forall b i base len total sep out o, calm (b2a_write n b i base len total sep out o).
Proof. induction n; intros; simpl; [done|]. apply calm_bind; [apply calm_b2a|]. intros [w out']. calm. Qed.
Lemma calm_b2a_string base w sep d : calm (b2a_string base w sep d).
Proof. unfold b2a_string. pose proof calm_b2a_count. pose proof calm_b2a_write. calm. Qed.
Lemma calm_encode n w : calm (encode_int n w).
Proof. unfold encode_int, putUShort, putULong. calm. Qed.
Lemma calm_extract w d : calm (extract_int w d).
Proof. unfold extract_int, getUShort, getULong. calm. Qed.
End calm_convert.
#[export] Hint Resolve calm_b2a_string calm_encode calm_extract : calm.

Lemma calm_emit eom dst dn t : calm (emit eom dst dn t).
Proof. unfold emit. calm. Qed.
#[export] Hint Resolve calm_emit : calm.
Lemma calm_ntop_label src eom n : forall cp dst dn, calm (ntop_label src eom n cp dst dn).
Proof. induction n; intros; cbn [ntop_label]; calm. Qed.
#[export] Hint Resolve calm_ntop_label : calm.
Lemma calm_ntop_loop src eom n : forall d0 cp dst dn, calm (ntop_loop src eom n d0 cp dst dn).
Proof. induction n; intros; cbn [ntop_loop]; calm. Qed.
#[export] Hint Resolve calm_ntop_loop : calm.
Lemma calm_ntop src s0 dst d0 n : calm (MRns_name_ntop src s0 dst d0 n).
Proof. unfold MRns_name_ntop, returned. calm. Qed.
Lemma calm_end_label eom label bp dst : calm (end_label eom label bp dst).
Proof. unfold end_label. calm. Qed.
Lemma calm_end_name d0 eom c bp r dst : calm (end_name d0 eom c bp r dst).
Proof. unfold end_name. calm. Qed.
Lemma calm_pton_put eom s label bp dst c : calm (pton_put eom s label bp dst c).
Proof. unfold pton_put. calm. Qed.
Lemma calm_pton_decimal src s h : calm (pton_decimal src s h).
Proof. unfold pton_decimal. calm. Qed.
#[export] Hint Resolve calm_ntop calm_end_label calm_end_name calm_pton_put calm_pton_decimal : calm.
Lemma calm_pton src s0 dst d0 n : calm (MRns_name_pton src s0 dst d0 n).
Proof.
  unfold MRns_name_pton. apply calm_bind; [|intros [?|m]; [done|]; unfold returned; calm]. apply calm_for_loop. intros _ [s label bp escaped d].
  unfold pton_step. calm.
Qed.
Lemma calm_unpack msg eom src dst d0 n : calm (MRns_name_unpack msg eom src dst d0 n).
Proof.
  unfold MRns_name_unpack. case_match; [done|]. apply calm_bind; [|intros [?|m]; [done|]; unfold returned; calm]. apply calm_for_loop. intros _ [? ? ? ? ?].
  unfold unpack_step. calm.
Qed.
#[export] Hint Resolve calm_pton calm_unpack : calm.
Lemma calm_same_label d m n : forall dn cp, calm (same_label d m n dn cp).
Proof. induction n; intros; cbn [same_label]; calm. Qed.
#[export] Hint Resolve calm_same_label : calm.
Lemma calm_same_name d m n : forall dn cp, calm (Name.same_name d m n dn cp).
Proof. induction n; intros; cbn [Name.same_name]; calm. Qed.
#[export] Hint Resolve calm_same_name : calm.
Lemma calm_dn_find d m ps : forall dn, calm (dn_find d m ps dn).
Proof. induction ps; intros; simpl; calm. Qed.
#[export] Hint Resolve calm_dn_find : calm.
Lemma calm_legal n : forall src p l, calm (legal n src p l).
Proof. induction n; intros; cbn [legal]; calm. Qed.
Lemma calm_pack_loop n : forall src room eob ps p dst dstp ptrs, calm (pack_loop n src room eob ps p dst dstp ptrs).
Proof. induction n; intros; cbn [pack_loop]; calm. Qed.
#[export] Hint Resolve calm_legal calm_pack_loop : calm.
Lemma calm_compress src s0 dst d0 n ptrs room : calm (MRns_name_compress src s0 dst d0 n ptrs room).
Proof. unfold MRns_name_compress, MRns_name_pack. calm. Qed.
Lemma calm_uncompress msg eom src dst d0 n : calm (MRns_name_uncompress msg eom src dst d0 n).
Proof. unfold MRns_name_uncompress. calm. Qed.
Lemma calm_upto_comma l i : calm (upto_comma l i).
Proof. apply calm_span. Qed.
#[export] Hint Resolve calm_compress calm_uncompress calm_upto_comma : calm.
Lemma calm_compress_list b n c m : calm (MRns_name_compress_list b n c m).
Proof.
  unfold MRns_name_compress_list. apply calm_bind; [calm|]. intros k. apply calm_bind; [|intros [?|x]; [done|]; unfold returned; calm].
  apply calm_for_loop. intros _ [? ? ? ?]. unfold compress_step. calm.
Qed.
Lemma calm_uncompress_list b n out d0 m : calm (MRns_name_uncompress_list b n out d0 m).
Proof.
  unfold MRns_name_uncompress_list. apply calm_bind; [calm|]. intros []; [calm|]. apply calm_bind; [|intros [?|[? [?|]]]; calm].
  apply calm_for_loop. intros _ [? ? ? ? ?]. unfold uncompress_step. calm.
Qed.
#[export] Hint Resolve calm_compress_list calm_uncompress_list : calm.
Lemma calm_concat_dclists r d1 d2 : calm (concat_dclists r d1 d2).
Proof. unfold concat_dclists, uncompress_onto. calm. Qed.
#[export] Hint Resolve calm_concat_dclists : calm.

(** ** The evaluators *)
Definition typed_result (res : option (option binding_value)) : Prop := forall v, res = Some (Some v) -> typed_value v.

Record sound (E : evaluators) : Prop := {
  sd_bool c e : typed e TBool = true -> spec same_names (evaluate_boolean_expression E c e) (fun _ => True);
  sd_data c r e : typed e TData = true -> spec same_names (evaluate_data_expression E c r e) (fun _ => True);
  sd_num c e : typed e TNum = true -> spec same_names (evaluate_numeric_expression E c e) (fun _ => True);
  sd_any c e : typed e TAny = true ->
    spec same_names (evaluate_expression E c e) (fun r => forall v, r.2 = Some v -> typed_value v /\ value_fits e v);
  sd_stmts c given res ss : forallb typed_statement ss = true -> typed_result res ->
    spec grown_names (execute_statements E c given res ss) (fun r => typed_result r.2) }.

(** What the code around the evaluator has to keep. *)
Class SurroundingsTyped `{Surroundings} : Prop := {
  encapsulate_typed c r n : spec same_names (option_space_encapsulate c r n) (fun _ => True);
  vendor_typed c : spec same_names (parse_vendor_option c) (fun _ => True) }.

Create HintDb spec.
#[export] Hint Resolve encapsulate_typed vendor_typed : spec.
Lemma same_log x s : same_names s (log x s).
Proof. by split. Qed.
Lemma grown_log x s : grown_names s (log x s).
Proof. by left. Qed.
#[export] Hint Resolve same_log grown_log : spec.

(** One step of a computation; [lift]ed functions are calm. *)
Ltac spec1 :=
  match goal with
  | |- spec _ (bind get _) _ => eapply spec_bind; [typeclasses eauto|apply spec_get; typeclasses eauto|intros ? ?]
  | |- spec _ (bind _ _) _ => eapply (spec_bind _ _ _ (fun _ => True)); [ |intros ? _]
  | |- spec _ (ret _) _ => apply spec_ret; [typeclasses eauto|auto; try done]
  | |- spec _ (modify (log _)) _ => apply spec_log; [typeclasses eauto|auto with spec|discriminate|auto]
  | |- spec _ (lift ?m) _ => apply spec_lift; [typeclasses eauto|first [discriminate|change (calm m); solve [calm]]|auto]
  | |- spec _ (match ?x with _ => _ end) _ => destruct x
  | |- spec _ _ _ => solve [eauto with spec]
  end.
Ltac specs := repeat spec1.
Tactic Notation "spec_state" ident(s) ident(Hs) := eapply spec_bind; [typeclasses eauto|apply spec_get; typeclasses eauto|intros s Hs].

Section steps.
Context `{HostOrder} `{SurroundingsTyped} (E : evaluators) (HE : sound E).

Ltac typed_hyps :=
  repeat match goal with
  | H : _ && _ = true |- _ => apply andb_true_iff in H as [? ?]
  end.

Lemma spec_bool c e : typed e TBool = true -> spec same_names (evaluate_boolean_expression E c e) (fun _ => True).
Proof. apply HE. Qed.
Lemma spec_data c r e : typed e TData = true -> spec same_names (evaluate_data_expression E c r e) (fun _ => True).
Proof. apply HE. Qed.
Lemma spec_num c e : typed e TNum = true -> spec same_names (evaluate_numeric_expression E c e) (fun _ => True).
Proof. apply HE. Qed.
Lemma spec_any c e : typed e TAny = true -> spec same_names (evaluate_expression E c e) (fun _ => True).
Proof. intros He. eapply spec_post; [by apply HE|done]. Qed.
#[local] Hint Resolve spec_bool spec_data spec_num spec_any : spec.

Lemma spec_cache c r oc : typed_cache oc -> spec same_names (evaluate_option_cache E c r oc) (fun _ => True).
Proof.
  intros Hoc. unfold evaluate_option_cache. destruct (d_buf _); [specs|]. destruct (oc_expression oc) as [e|] eqn:Ee; [|specs].
  apply spec_data. by apply Hoc.
Qed.
Lemma lookup_typed o i s oc : typed_state s -> lookup_option o i s = Done (Some oc) -> typed_cache oc.
Proof.
  intros Hs. unfold lookup_option. destruct (s_options s !! i) as [m|] eqn:Em; [|done]. intros [= E']. destruct (o_lookup o); [|done].
  destruct Hs as [_ _ Ho _ _]. rewrite Forall_lookup in Ho. by eapply (Ho _ _ Em).
Qed.
Lemma calm_lookup_option o i s : calm (lookup_option o i s).
Proof. unfold lookup_option. calm. Qed.
#[local] Hint Resolve calm_lookup_option : calm.
Lemma spec_get_option c r i o : spec same_names (get_option E c r i o) (fun _ => True).
Proof.
  unfold get_option. spec_state s Hs.
  eapply (spec_bind _ _ _ (fun oc => forall x, oc = Some x -> typed_cache x)).
  - apply spec_lift; [typeclasses eauto|change (calm (lookup_option o i s)); calm|]. intros a Ea x ->. by eapply lookup_typed.
  - intros [oc|] Hoc; specs. apply spec_cache. by apply Hoc.
Qed.
#[local] Hint Resolve spec_get_option : spec.

Lemma same_refl s s' : s_locals s' = s_locals s -> s_root s' = s_root s -> same_names s s'.
Proof. intros E1 E2. split; by rewrite ?E1, ?E2. Qed.
Lemma spec_classify p k : spec same_names (classify p k) (fun _ => True).
Proof.
  unfold classify. spec_state s Hs. cbv zeta.
  case_match; [|specs]. apply spec_modify; [|done]. intros s' [? ? ? ? ?]. split; [by split|by apply same_refl].
Qed.
#[local] Hint Resolve spec_classify : spec.
Lemma spec_class_result c e : typed e TBool = true -> spec same_names (evaluate_boolean_expression_result E c e) (fun _ => True).
Proof. intros He. unfold evaluate_boolean_expression_result. specs. Qed.
#[local] Hint Resolve spec_class_result : spec.
Lemma spec_subclass c p k cl e : typed e TData = true -> spec same_names (check_subclass E c p k cl e) (fun _ => True).
Proof.
  intros He. unfold check_subclass. spec1; [specs|]. destruct a as [status d]. spec1; [specs|]. spec1; [specs|].
  spec_state s0 Hs0. destruct (s_class s0 !! k) as [cl'|] eqn:Ek; [|specs]. spec1; [specs|]. spec1; [specs|]. cbv zeta. spec1; [|specs].
  apply spec_modify; [|done]. intros s [? ? ? ? ?]. split; [|by apply same_refl]. split; simpl; try done.
  destruct Hs0 as [_ _ _ Hc _]. rewrite Forall_app. split.
  - apply Forall_insert; [done|]. rewrite Forall_lookup in Hc. destruct (Hc k cl' Ek). by split.
  - constructor; [|done]. by split.
Qed.
Lemma spec_class c p k : spec same_names (check_class E c p k) (fun _ => True).
Proof.
  unfold check_class. spec_state s Hs. destruct (s_class s !! k) as [cl|] eqn:Ek; [|specs]. destruct Hs as [_ _ _ Hc _]. rewrite Forall_lookup in Hc.
  destruct (Hc k cl Ek) as [He Hsub]. spec1; [destruct (k_expr cl); specs; by apply spec_class_result, He|]. spec1; [specs|].
  destruct (k_submatch cl); [by apply spec_subclass, Hsub|]. specs.
Qed.
Lemma spec_classes c p ks : forall m, spec same_names (check_classes E c p ks m) (fun _ => True).
Proof. induction ks as [|k ks IH]; intros m; simpl; specs. apply spec_class. Qed.
Lemma spec_collection c coll : spec same_names (check_collection E c coll) (fun _ => True).
Proof.
  unfold check_collection. spec_state s1 Hs1. destruct (packet_of c) as [p|]; [|specs]. intros s Hs. unfold without_locals.
  pose proof (spec_classes (mk_context (Some p) (lease_of c) None (Some (p_options p)) None) p (collection coll) false (set_scopes [] (s_root s) s)) as Hc.
  destruct Hs as [Hl Hr Ho Hk Hg]. assert (Hs0 : typed_state (set_scopes [] (s_root s) s)) by by split. specialize (Hc Hs0).
  destruct (check_classes _ _ _ _ _ _) as [[s' m]| | |]; simpl; try done. destruct Hc as ([_ Hr' ? ? ?] & [_ Hn] & _).
  split_and!; [by split|by split|done].
Qed.
#[local] Hint Resolve spec_collection : spec.

Lemma calm_equal x y : calm (expressions_equal x y).
Proof.
  unfold expressions_equal, values_equal. destruct x as [[] [x|]], y as [[] [y|]]; try done. destruct x, y; try done. calm.
Qed.
Lemma calm_let_name n : calm (copy_let_name n).
Proof. unfold copy_let_name. calm. Qed.
#[local] Hint Resolve calm_equal : calm.
Lemma spec_regex i c l r : typed l TData = true -> typed r TData = true -> spec same_names (regex_match E i c l r) (fun _ => True).
Proof. intros Hl Hr. unfold regex_match. specs. Qed.
#[local] Hint Resolve spec_regex : spec.

Lemma boolean_sound c e : typed e TBool = true -> spec same_names (boolean_step E c e) (fun _ => True).
Proof.
  intros Ht. destruct e; try discriminate Ht; simpl typed in Ht; typed_hyps; cbn [boolean_step]; try solve [specs].
Qed.

Lemma spec_raw_field c a n r : spec same_names (raw_field c a n r) (fun _ => True).
Proof. unfold raw_field. specs. Qed.
Lemma spec_hardware c r : spec same_names (hardware c r) (fun _ => True).
Proof. unfold hardware. specs. Qed.
Lemma spec_packet_part p raw o n r : spec same_names (packet_part p raw o n r) (fun _ => True).
Proof. unfold packet_part. specs. Qed.
Lemma spec_v6relay c n r e : typed e TData = true -> spec same_names (v6relay E c n r e) (fun _ => True).
Proof. intros He. unfold v6relay. specs. Qed.
Lemma spec_case f c r e : typed e TData = true -> spec same_names (data_case E f c r e) (fun _ => True).
Proof. intros He. unfold data_case. specs. Qed.
Lemma spec_encode n c r e : typed e TNum = true -> spec same_names (encode E n c r e) (fun _ => True).
Proof. intros He. unfold encode. specs. Qed.
#[local] Hint Resolve spec_raw_field spec_hardware spec_packet_part spec_v6relay spec_case spec_encode : spec.

Lemma data_sound c r e : typed e TData = true -> spec same_names (data_step E c r e) (fun _ => True).
Proof. intros Ht. destruct e; try discriminate Ht; simpl typed in Ht; typed_hyps; cbn [data_step]; try solve [specs]. Qed.

Lemma spec_extract n c e : typed e TData = true -> spec same_names (extract E n c e) (fun _ => True).
Proof. intros He. unfold extract. specs. Qed.
#[local] Hint Resolve spec_extract : spec.
Lemma numeric_sound c e : typed e TNum = true -> spec same_names (numeric_step E c e) (fun _ => True).
Proof. intros Ht. destruct e; try discriminate Ht; simpl typed in Ht; typed_hyps; cbn [numeric_step]; try solve [specs]. Qed.

(** *** Calls *)
Lemma spec_arguments c args : forall params ns, forallb (fun e => typed e TAny) args = true -> typed_scope ns ->
  spec same_names (bind_arguments E c args params ns) (fun r => forall ns, r = Some ns -> typed_scope ns).
Proof.
  induction args as [|e args IH]; intros [|p params] ns Ha Hns; simpl; simpl in Ha; typed_hyps.
  - apply spec_ret; [typeclasses eauto|]. by intros ? [= <-].
  - eapply (spec_bind _ _ _ (fun _ => True)); [specs|]. intros _ _. by apply spec_ret; [typeclasses eauto|].
  - eapply (spec_bind _ _ _ (fun _ => True)); [specs|]. intros _ _. by apply spec_ret; [typeclasses eauto|].
  - eapply (spec_bind _ _ _ (fun r => forall v, r.2 = Some v -> typed_value v)).
    + eapply spec_post; [by apply HE|]. simpl. intros r Hr v Hv. by destruct (Hr v Hv).
    + intros [status v] Hv. apply IH; [done|]. constructor; [|done]. simpl in *. destruct status; [done|]. done.
Qed.

(** The scope of a call is gone afterwards. *)
Lemma spec_with_locals {A} ns (m : ev A) Q : typed_scope ns -> spec grown_names m Q -> spec same_names (with_locals ns m) Q.
Proof.
  intros Hns Hm s Hs. unfold with_locals, bind, modify. simpl. set (s0 := set_scopes (ns :: s_locals s) (s_root s) s).
  assert (Hs0 : typed_state s0). { destruct Hs. split; simpl; try done. by constructor. }
  specialize (Hm s0 Hs0). destruct (m s0) as [[s1 a]| | |]; simpl; try done. destruct Hm as ([Hl1 ? ? ? ?] & Hg & HQ).
  split_and!; [|destruct Hg as [[E1 E2]|[(_ & M & E2)|(L & _)]]; [..|done]|done].
  - split; simpl; try done. by destruct Hl1.
  - split; simpl; [|done]. simpl in E1. destruct (s_locals s1); [done|]. by injection E1.
  - split; simpl; [|done]. simpl in M. inversion M as [new h t Eh Et|]; subst. destruct (s_locals s1); [done|]. by injection Et.
Qed.

Lemma expression_sound c e : typed e TAny = true ->
  spec same_names (expression_step E c e) (fun r => forall v, r.2 = Some v -> typed_value v /\ value_fits e v).
Proof.
  intros Ht. assert (Hval : forall (e : expression) (m : ev (bool * option binding_value)),
    typed e TAny = true -> is_variable e = false -> is_call e = false ->
    m = (if is_boolean_expression e then
           bind (evaluate_boolean_expression E c e) (fun '(status, b) => ret (status, if status : bool then Some (binding_boolean (default false b)) else None))
         else if is_numeric_expression e then
           bind (evaluate_numeric_expression E c e) (fun n => ret (match n with Some n => (true, Some (binding_numeric n)) | None => (false, None) end))
         else if is_data_expression e then
           bind (evaluate_data_expression E c null_string e) (fun '(status, d) => ret (status, if status : bool then Some (binding_data d) else None))
         else bind (modify (log Opcode)) (fun _ => ret (false, None))) ->
    spec same_names m (fun r => forall v, r.2 = Some v -> typed_value v /\ value_fits e v)).
  { clear e Ht. intros e m Ht Hv Hc ->. assert (Hfit : fits TAny e = true) by (destruct e; simpl in Ht |- *; typed_hyps; done).
    unfold fits in Hfit. rewrite Hv, Hc in Hfit. simpl in Hfit. rewrite orb_false_r in Hfit.
    assert (Hsub : forall t, fits t e = true -> typed e t = true).
    { intros t Hf. destruct e; try discriminate Hv; cbn [typed] in Ht |- *; typed_hyps; rewrite Hf; cbn [andb]; rewrite ?andb_true_iff; auto. }
    destruct (is_boolean_expression e) eqn:Eb; [|destruct (is_numeric_expression e) eqn:En; [|destruct (is_data_expression e) eqn:Ed; [|done]]].
    - eapply (spec_bind _ _ _ (fun _ => True)); [apply spec_bool, Hsub; unfold fits; by rewrite Hv|]. intros [status b] _.
      apply spec_ret; [typeclasses eauto|]. destruct status; [|done]. intros v [= <-]. split; [done|]. unfold value_fits. by rewrite Eb.
    - eapply (spec_bind _ _ _ (fun _ => True)); [apply spec_num, Hsub; unfold fits; by rewrite Hv|]. intros [n|] _;
        apply spec_ret; try typeclasses eauto; [|done]. intros v [= <-]. split; [done|]. unfold value_fits. by rewrite En.
    - eapply (spec_bind _ _ _ (fun _ => True)); [apply spec_data, Hsub; unfold fits; rewrite Hv; simpl; by rewrite Ed|]. intros [status d] _.
      apply spec_ret; [typeclasses eauto|]. destruct status; [|done]. intros v [= <-]. split; [done|]. unfold value_fits. by rewrite Ed. }
  destruct e; try (apply Hval; [exact Ht|done|done|done]).
  - cbn [expression_step]. spec_state s Hs. destruct (find_binding (chain s) name) as [[v|]|] eqn:Ef; apply spec_ret; try typeclasses eauto; try done.
    intros w [= <-]. split; [eapply find_typed; [by apply chain_typed|exact Ef]|]. by destruct v.
  - cbn [expression_step]. spec_state s Hs. simpl in Ht. typed_hyps.
    destruct (find_binding (chain s) name) as [[[b|d|n|f params body]|]|] eqn:Ef; try (eapply (spec_bind _ _ _ (fun _ => True)); [specs|]; intros _ _; by apply spec_ret; [typeclasses eauto|]).
    assert (Hbody : forallb typed_statement body = true) by (eapply (find_typed _ _ _ (chain_typed s Hs) Ef)).
    eapply spec_bind; [typeclasses eauto|by apply spec_arguments; [|constructor]|]. intros [ns|] Hns; [|by apply spec_ret; [typeclasses eauto|]].
    eapply (spec_bind _ _ _ (fun r => typed_result r.2)); [apply spec_with_locals; [by apply Hns|by apply HE]|]. intros [status bv] Hbv. simpl in Hbv.
    destruct bv as [[v|]|]; try (by apply spec_ret; [typeclasses eauto|]). destruct status; apply spec_ret; try typeclasses eauto; try done.
    intros w [= <-]. split; [by apply Hbv|by destruct v].
Qed.

(** *** Statements *)
Definition typed_list (o : option (list statement)) : Prop := forall r, o = Some r -> forallb typed_statement r = true.

Lemma spec_data_case c d ss : forallb typed_statement ss = true ->
  forallb (fun x => match x with case_statement e => typed e TData | _ => true end) ss = true ->
  spec same_names (find_data_case E c d ss) typed_list.
Proof.
  induction ss as [|x ss IH]; intros Hss Hc; [by apply spec_ret; [typeclasses eauto|]|]. simpl in Hss, Hc. typed_hyps.
  destruct x; cbn [find_data_case]; try by apply IH.
  eapply (spec_bind _ _ _ (fun _ => True)); [specs|]. intros [sub cd] _. eapply (spec_bind _ _ _ (fun _ => True)); [specs|]. intros [] _; [|by apply IH].
  apply spec_ret; [typeclasses eauto|]. by intros r [= <-].
Qed.
Lemma spec_numeric_case c n ss : forallb typed_statement ss = true ->
  forallb (fun x => match x with case_statement e => typed e TNum | _ => true end) ss = true ->
  spec same_names (find_numeric_case E c n ss) typed_list.
Proof.
  induction ss as [|x ss IH]; intros Hss Hc; [by apply spec_ret; [typeclasses eauto|]|]. simpl in Hss, Hc. typed_hyps.
  destruct x; cbn [find_numeric_case]; try by apply IH.
  eapply (spec_bind _ _ _ (fun _ => True)); [specs|]. intros m _. case_match; [|by apply IH].
  apply spec_ret; [typeclasses eauto|]. by intros r [= <-].
Qed.
Lemma after_default_typed ss : forallb typed_statement ss = true -> typed_list (after_default ss).
Proof. induction ss as [|x ss IH]; simpl; [done|]. intros Hss. typed_hyps. destruct x; auto. by intros r [= <-]. Qed.

Lemma spec_matching c e ss : typed_statement (switch_statement e ss) = true -> spec same_names (find_matching_case E c e ss) typed_list.
Proof.
  intros Ht. simpl in Ht. typed_hyps. unfold find_matching_case. eapply (spec_bind _ _ _ typed_list).
  - destruct (is_data_expression e).
    + eapply (spec_bind _ _ _ (fun _ => True)); [specs|]. intros [[] d] _; [by apply spec_data_case|by apply spec_ret; [typeclasses eauto|]].
    + eapply (spec_bind _ _ _ (fun _ => True)); [specs|]. intros [n|] _; [by apply spec_numeric_case|by apply spec_ret; [typeclasses eauto|]].
  - intros [r|] Hr; apply spec_ret; try typeclasses eauto; [done|]. by apply after_default_typed.
Qed.

Lemma spec_put_option c o oc : typed_cache oc -> spec same_names (put_option c o oc) (fun _ => True).
Proof.
  intros Hoc s Hs. unfold put_option, save_option. destruct (negb (o_lookup o)); simpl.
  { split_and!; [by apply typed_log|apply same_log|done]. }
  destruct (cfg_options c) as [i|]; [|done]. destruct (s_options s !! i) as [m|] eqn:Em; [|done]. simpl. destruct Hs as [? ? Ho ? ?].
  split_and!; [|by apply same_refl|done]. split; simpl; try done. apply Forall_insert; [done|]. apply map_Forall_insert_2; [done|].
  rewrite Forall_lookup in Ho. by eapply Ho.
Qed.
Lemma spec_find_option c o : spec same_names (find_option c o) (fun r => forall oc, r = Some oc -> typed_cache oc).
Proof.
  unfold find_option. destruct (cfg_options c) as [i|]; [|by apply spec_ret; [typeclasses eauto|]]. destruct (o_lookup o).
  - spec_state s Hs. apply spec_lift; [typeclasses eauto|change (calm (lookup_option o i s)); calm|]. intros a Ea oc ->. by eapply lookup_typed.
  - eapply (spec_bind _ _ _ (fun _ => True)); [specs|]. intros _ _. by apply spec_ret; [typeclasses eauto|].
Qed.
Lemma calm_make_concat d l r : calm (make_concat d l r).
Proof. unfold make_concat. calm. Qed.
#[local] Hint Resolve calm_make_concat : calm.
Lemma make_concat_typed d l r x : make_concat d l r = Done (Some x) -> (forall e, l = Some e -> typed e TData = true) ->
  (forall e, r = Some e -> typed e TData = true) -> typed x TData = true.
Proof.
  unfold make_concat. intros E' Hl Hr. destruct l as [l|], r as [r|]; try (by destruct d); [|destruct d; [done|]; injection E' as <-; auto..].
  injection E' as <-. specialize (Hl l eq_refl). specialize (Hr r eq_refl). destruct d; cbn [typed]; by rewrite Hl, Hr.
Qed.
Lemma spec_combine c p new : typed_cache new -> spec same_names (combine_option c p new) (fun _ => True).
Proof.
  intros Hn. unfold combine_option. cbv zeta. eapply spec_bind; [typeclasses eauto|apply spec_find_option|]. intros [oc|] Hoc; [|by apply spec_put_option].
  set (e := match oc_expression oc with Some e => Some e | None => _ end).
  assert (He : forall x, e = Some x -> typed x TData = true).
  { intros x Hx. subst e. specialize (Hoc oc eq_refl). destruct (oc_expression oc) as [y|] eqn:Ey; [injection Hx as <-; by apply Hoc|].
    case_match; [done|]. by injection Hx as <-. }
  eapply (spec_bind _ _ _ (fun o => forall x, o = Some x -> typed x TData = true)).
  - apply spec_lift; [typeclasses eauto|destruct p; apply calm_make_concat|]. intros a Ea x ->. destruct p; eapply make_concat_typed; eauto.
  - intros [x|] Hx; [|specs]. case_match; [specs|]. apply spec_put_option. intros y [= <-]. by apply Hx.
Qed.

Lemma calm_args_bytes d : calm (ds_bytes d).
Proof. calm. Qed.
Lemma spec_argv c args : forallb (fun e => typed e TData) args = true -> spec same_names (arguments E c args) (fun _ => True).
Proof. induction args as [|e args IH]; intros Ha; simpl in Ha |- *; typed_hyps; specs. Qed.

Fixpoint let_depth (x : statement) : nat := match x with let_statement _ _ (y :: _) => S (let_depth y) | _ => O end.
Lemma spec_let_bindings c n : forall x ns, (let_depth x <= n)%nat -> typed_statement x = true -> typed_scope ns ->
  spec same_names (let_bindings E c ns x) (fun r => typed_scope r.1 /\ forallb typed_statement r.2 = true).
Proof.
  induction n as [|n IH]; intros x ns Hd Hx Hns.
  all: destruct x; try (by apply spec_ret; [typeclasses eauto|]); simpl in Hx, Hd; typed_hyps; cbn [let_bindings].
  all: eapply (spec_bind _ _ _ (fun _ => True)); [apply spec_lift; [typeclasses eauto|apply calm_let_name|done]|]; intros _ _.
  all: eapply (spec_bind _ _ _ (fun r => forall v, r.2 = Some v -> typed_value v)).
  1,3: eapply spec_post; [by apply HE|]; simpl; intros r Hr v Hv; by destruct (Hr v Hv).
  all: intros [status v] Hv; assert (Hns' : typed_scope ((name, if status then v else None) :: ns)) by (constructor; [|done]; simpl in *; by destruct status).
  all: destruct ss as [|y ss]; [by apply spec_ret; [typeclasses eauto|]|]; simpl in Hd; try lia.
  match goal with Hss : forallb _ (_ :: _) = true |- _ => simpl in Hss; apply andb_true_iff in Hss as [Hy Hss] end.
  assert (Hret : spec same_names (ret ((name, if status then v else None) :: ns, y :: ss))
    (fun r => typed_scope r.1 /\ forallb typed_statement r.2 = true)).
  { apply spec_ret; [typeclasses eauto|]. split; [done|]. simpl. by apply andb_true_iff. }
  destruct y; try exact Hret. apply IH; [lia|done|done].
Qed.

(** The copy of the name never fits. *)
Lemma copy_let_name_overflows n : copy_let_name n = Fault.
Proof.
  unfold copy_let_name, wrn. case_match eqn:Hb; [|done]. exfalso. revert Hb. rewrite !andb_true_iff, !Z.leb_le.
  unfold zlen. rewrite length_replicate, length_drop, length_app. simpl. lia.
Qed.
Lemma let_overflows c ns n e ss s : let_bindings E c ns (let_statement n e ss) s = Fault.
Proof. cbn [let_bindings]. unfold bind at 1, lift at 1. by rewrite copy_let_name_overflows. Qed.

(** *** Variables *)
Lemma new_binding_grown name s : typed_state s -> find_binding (chain s) name = None -> chain s <> [] ->
  typed_state (set_chain (new_binding (chain s) name) s) /\ grown_names s (set_chain (new_binding (chain s) name) s).
Proof.
  intros Hs _ Hne. pose proof (chain_typed s Hs) as Hc. destruct (chain s) as [|sc r] eqn:Ec; [done|]. apply Forall_cons_iff in Hc as [Hsc Hr]. simpl. split.
  - apply set_chain_typed; [done|]. constructor; [|done]. by constructor.
  - unfold chain in Ec. right. unfold set_chain. destruct (s_locals s) as [|l ls] eqn:El; simpl in Ec; simpl.
    + right. split; [done|]. split; [done|]. destruct (s_root s) as [ss|] eqn:Er; [|done]. simpl in Ec. subst ss. eexists _, _. split_and!; [done|done|].
      simpl. apply (more_names_head [name]).
    + left. injection Ec as <- <-. split; [done|]. split.
      * simpl. rewrite take_app_length. apply (more_names_head [name]).
      * destruct (s_root s); simpl; [|done]. by rewrite drop_app_length.
Qed.

Lemma spec_set_variable c name v : spec same_names v (fun r => forall x, r = Some x -> typed_value x) -> spec grown_names (set_variable c name v) (fun _ => True).
Proof.
  intros Hv. assert (Hrest : spec grown_names
    (bind (modify (fun s => match s_locals s, s_root s with [], Some [] => set_scopes [] (Some [[]]) s | _, _ => s end)) (fun _ =>
     bind (modify (fun s => match find_binding (chain s) name with Some _ => s | None => set_chain (new_binding (chain s) name) s end)) (fun _ =>
     bind (modify (assign_value name None)) (fun _ =>
     bind v (fun x => match x with Some x => modify (assign_value name (Some x)) | None => ret tt end))))) (fun _ => True)).
  { eapply spec_bind; [typeclasses eauto|apply (spec_modify _ _ (fun _ => True)); [ |done]|].
    - intros s Hs. destruct (s_locals s) as [|l ls] eqn:El; [|by split]. destruct (s_root s) as [[|sc r]|] eqn:Er; try by split. split.
      + destruct Hs. split; simpl; try done. by repeat constructor.
      + right; right. split_and!; [done|done|]. exists [], [[]]. split_and!; [done|done|]. constructor.
    - intros _ _. eapply spec_bind; [typeclasses eauto|apply (spec_modify _ _ (fun _ => True)); [ |done]|].
      + intros s Hs. destruct (find_binding (chain s) name) eqn:Ef; [by split|]. destruct (chain s) as [|sc r] eqn:Ec.
        * split; [apply set_chain_typed; [done|constructor]|]. left. by apply set_chain_same; rewrite Ec.
        * rewrite <- Ec in *. apply new_binding_grown; [done|done|by rewrite Ec].
      + intros _ _. apply spec_same_grown. eapply spec_bind; [typeclasses eauto|apply (spec_modify _ _ (fun _ => True)); [ |done]|].
        * intros s Hs. by apply assign_value_ok.
        * intros _ _. eapply spec_bind; [typeclasses eauto|exact Hv|]. intros [x|] Hx; [|specs]. apply spec_modify; [|done].
          intros s Hs. apply assign_value_ok; [done|]. by intros w [= <-]; apply Hx. }
  unfold set_variable. eapply spec_bind; [typeclasses eauto|apply spec_get; typeclasses eauto|intros s Hs].
  destruct (s_locals s); [destruct (s_root s)|]; [exact Hrest| |exact Hrest]. specs.
Qed.

(** *** One statement *)
Definition typed_step (f : step_result) : Prop := match f with inl res => typed_result res | inr (_, res) => typed_result res end.

Lemma spec_nested m : spec grown_names m (fun r => typed_result r.2) -> spec grown_names (nested m) typed_step.
Proof.
  intros Hm. unfold nested. eapply spec_bind; [typeclasses eauto|exact Hm|]. intros [[] res] Hres; by apply spec_ret; [typeclasses eauto|].
Qed.
Lemma spec_then {A} (m : ev A) res : spec grown_names m (fun _ => True) -> typed_result res ->
  spec grown_names (bind m (fun _ => ret (inl res))) typed_step.
Proof. intros Hm Hres. eapply spec_bind; [typeclasses eauto|exact Hm|]. intros _ _. by apply spec_ret; [typeclasses eauto|]. Qed.

Lemma spec_value c e : typed e TAny = true -> spec same_names (evaluate_expression E c e) (fun r => forall v, r.2 = Some v -> typed_value v).
Proof. intros He. eapply spec_post; [by apply HE|]. simpl. intros r Hr v Hv. by destruct (Hr v Hv). Qed.

Lemma on_events_ok c given evtypes ss : spec grown_names (on_events c given evtypes ss) (fun _ => True).
Proof.
  apply spec_same_grown. apply spec_modify; [|done]. intros s [? ? ? ? ?].
  destruct given; [|destruct (lease_of c)]; (split; [by split|by apply same_refl]).
Qed.

Lemma typed_cache_mk o d e : match e with Some e => typed e TData | None => true end = true -> typed_cache (mk_cache o d e).
Proof. intros He x Hx. simpl in Hx. by subst e. Qed.

Lemma statement_sound c given res x : typed_statement x = true -> typed_result res ->
  spec grown_names (execute_statement_step E c given res x) typed_step.
Proof.
  intros Hx Hres. destruct x; cbn [execute_statement_step]; try (by apply spec_ret; [typeclasses eauto|]).
  - by apply spec_nested, HE.
  - by apply spec_then; [apply on_events_ok|].
  - eapply spec_bind; [typeclasses eauto|by apply spec_same_grown, spec_matching|]. intros [r|] Hr; [apply spec_nested, HE; [by apply Hr|done]|].
    by apply spec_ret; [typeclasses eauto|].
  - simpl in Hx. typed_hyps. eapply (spec_bind _ _ _ (fun _ => True)); [by apply spec_same_grown, HE|]. intros [status b] _.
    apply spec_nested. destruct (status && default false b); by apply HE.
  - apply spec_then; [|done]. apply spec_same_grown. eapply spec_post; [by apply spec_value|done].
  - eapply (spec_bind _ _ _ (fun _ => True)); [by apply spec_same_grown, spec_argv|]. intros l _. apply spec_then; [|done].
    apply spec_same_grown. destruct l; specs.
  - eapply spec_bind; [typeclasses eauto|by apply spec_same_grown, spec_value|]. intros [status v] Hv. apply spec_ret; [typeclasses eauto|].
    destruct res as [o|], status, v as [v|]; try exact Hres. intros w [= <-]. by apply Hv.
  - destruct (packet_of c); [|by intros s Hs]. apply spec_then; [|done]. by apply spec_same_grown, spec_classify.
  - apply spec_then; [|done]. apply spec_same_grown, spec_put_option. by apply typed_cache_mk.
  - apply spec_then; [|done]. apply spec_same_grown, spec_put_option. by apply typed_cache_mk.
  - eapply (spec_bind _ _ _ (fun _ => True)); [apply spec_same_grown; eapply spec_post; [apply spec_find_option|done]|]. intros [old|] _; (apply spec_then; [|done]); [specs|].
    apply spec_same_grown, spec_put_option. by apply typed_cache_mk.
  - apply spec_then; [|done]. apply spec_same_grown, spec_combine. by apply typed_cache_mk.
  - apply spec_then; [|done]. apply spec_same_grown, spec_combine. by apply typed_cache_mk.
  - apply spec_then; [|done]. apply spec_set_variable. eapply spec_bind; [typeclasses eauto|by apply spec_value|]. intros [status v] Hv.
    apply spec_ret; [typeclasses eauto|]. simpl in *. intros w. destruct status; [|done]. apply Hv.
  - apply spec_then; [|done]. apply spec_set_variable. apply spec_ret; [typeclasses eauto|]. by intros w [= <-].
  - apply spec_then; [|done]. apply spec_same_grown, spec_modify; [|done]. intros s Hs. by apply assign_value_ok.
  - eapply spec_bind; [typeclasses eauto|eapply spec_same_grown, spec_let_bindings; [done|done|constructor]|]. intros [ns ss'] [Hns Hss]. simpl in Hns, Hss.
    destruct ss' as [|y ss']; [by apply spec_ret; [typeclasses eauto|]|]. eapply spec_bind; [typeclasses eauto|apply spec_same_grown, spec_with_locals; [done|by apply HE]|].
    intros [status res'] Hres'. by apply spec_ret; [typeclasses eauto|].
  - destruct priority; [done|..]; simpl in Hx; (eapply (spec_bind _ _ _ (fun _ => True)); [by apply spec_same_grown, HE|]); intros [[] d] _;
      try (by apply spec_ret; [typeclasses eauto|]); (eapply (spec_bind _ _ _ (fun _ => True)); [apply spec_same_grown; specs|]); intros t _; (apply spec_then; [|done]);
      apply spec_same_grown; specs.
  - apply spec_then; [|done]. apply spec_same_grown. apply vendor_typed.
  - apply spec_then; [|done]. apply spec_same_grown. specs.
Qed.

Lemma statements_sound c given ss : forall res, forallb typed_statement ss = true -> typed_result res ->
  spec grown_names (statements_step E c given res ss) (fun r => typed_result r.2).
Proof.
  induction ss as [|x ss IH]; intros res Hss Hres; cbn [statements_step]; [by apply spec_ret; [typeclasses eauto|]|]. simpl in Hss. typed_hyps.
  assert (Hgo : spec grown_names (bind (execute_statement_step E c given res x)
    (fun f => match f with inl res => statements_step E c given res ss | inr out => ret out end)) (fun r => typed_result r.2)).
  { eapply spec_bind; [typeclasses eauto|by apply statement_sound|]. intros [res'|[st res']] Hf; [by apply IH|by apply spec_ret; [typeclasses eauto|]]. }
  destruct res as [[v|]|]; try exact Hgo. by apply spec_ret; [typeclasses eauto|].
Qed.

Lemma step_sound : sound (evaluators_step E).
Proof.
  split; cbn [evaluators_step]; intros; [by apply boolean_sound|by apply data_sound|by apply numeric_sound|by apply expression_sound|by apply statements_sound].
Qed.
End steps.

Lemma evaluators_sound `{HostOrder} `{SurroundingsTyped} fuel : sound (evaluators_at fuel).
Proof. induction fuel as [|n IH]; [by split|]. by apply step_sound. Qed.

(** ** A sample *)
Module Sample.
Definition little : HostOrder := false.
Definition around : Surroundings := {|
  cur_time := 100;
  regexec := fun _ re t => bool_decide (re = t);
  gethostname := Some [104; 111; 115; 116];
  host_lookup := fun _ => None;
  collection := fun _ => [0%nat];
  option_space_encapsulate := fun _ r _ => ret (false, r);
  parse_vendor_option := fun _ => ret tt |}.
Lemma around_typed : @SurroundingsTyped around.
Proof. split; intros; by apply spec_ret; [typeclasses eauto|]. Qed.

(** [function f(a) { set b = a; return concat(a, "x"); }] *)
Definition f_body : list statement :=
  [set_statement [98] (expr_variable_reference [97]);
   return_statement (expr_concat (expr_variable_reference [97]) (expr_const_data (ds_new [120] false)))].
Definition start : state :=
  mk_state [] (Some [[([102], Some (binding_function 0 [[97]] f_body))]]) [∅; ∅] ∅
    [mk_class (Some expr_known) None [] false 0 None] (mk_star [] [] []) (mk_star [] [] []) [].
Definition ctx : context := mk_context (Some (mk_packet 0 true (Some (replicate 300 7)) 300 0 None)) None None (Some 0%nat) (Some 1%nat).
(** [set v = f("ab"); if (known) { ... }] *)
Definition program : list statement :=
  [set_statement [118] (expr_funcall [102] [expr_const_data (ds_new [97; 98] false)]);
   eval_statement (expr_check 0);
   if_statement expr_known [supersede_option_statement (mk_option 0 12 true false) null_string (Some (expr_variable_reference [118]))] []].

Lemma start_typed : typed_state start.
Proof.
  split; simpl.
  - constructor.
  - repeat constructor. by intros v [= <-].
  - repeat (constructor; [apply map_Forall_empty|]). constructor.
  - repeat constructor; [by intros e [= <-]|done].
  - by apply not_elem_of_nil.
Qed.
End Sample.

(** The program runs to its end. *)
Example sample_runs :
  match execute_statements (@evaluators_at Sample.little Sample.around 7) Sample.ctx false None Sample.program Sample.start with
  | Done (s', _) => default [] (s_member s' !! 0%nat) = [0%nat] /\
      find_binding (chain s') [118] = Some (Some (binding_data (mk_ds (Some [97; 98; 120; 0; 0; 0; 0]) 3 false))) /\ find_binding (chain s') [98] = None /\ s_log s' = []
  | _ => False
  end.
Proof. vm_compute. auto. Qed.
