(* ===== verification/DcList.v ===== *)
(** * Concatenation of lists of domain names

    [concat_dclists] of common/tree.c: the size that it estimates for the
    compressed list is always enough, and the result has the names of both
    lists. *)

From stdpp Require Import base tactics list numbers.
From S2P Require Import Prelude Array Name NameOk NameMsg NameList Expr Eval.

#[local] Open Scope Z_scope.

(** ** The size of a list *)
Lemma tail_wire n : Forall label_ok n -> zlen (opened n) <= zlen (tail_text n).
Proof.
  induction 1 as [|l n [Hb Hl] _ IH]; [done|]. rewrite opened_cons. change (tail_text (l :: n)) with (46 :: label_text l ++ tail_text n).
  rewrite zlen_cons, zlen_app. pose proof (label_text_length l). lia.
Qed.
Lemma wire_text n : Forall label_ok n -> zlen (wire n) <= zlen (text n) + 2.
Proof.
  intros Hn. rewrite name_wire_length. destruct Hn as [|l n [Hb Hl] Hn]; [done|]. rewrite opened_cons. simpl text. rewrite zlen_app.
  pose proof (label_text_length l). pose proof (tail_wire n Hn). lia.
Qed.

Lemma count_commas_app l k : count_commas (l ++ k) = count_commas l + count_commas k.
Proof. unfold count_commas. by rewrite list.filter_app, zlen_app. Qed.
Lemma count_commas_nonneg l : 0 <= count_commas l.
Proof. apply zlen_nonneg. Qed.
Lemma count_commas_tail ns : Z.of_nat (length ns) <= count_commas (list_tail ns).
Proof.
  induction ns as [|n ns IH]; [done|]. change (list_tail (n :: ns)) with ([44] ++ text n ++ list_tail ns). rewrite !count_commas_app.
  pose proof (count_commas_nonneg (text n)). change (count_commas [44]) with 1. simpl length. lia.
Qed.
Lemma wires_tail ns : Forall (Forall label_ok) ns -> wires ns <= zlen (list_tail ns) + Z.of_nat (length ns).
Proof.
  unfold wires. induction 1 as [|n ns Hn _ IH]; [done|]. change (list_tail (n :: ns)) with (44 :: text n ++ list_tail ns). cbn [mbind list_bind].
  rewrite zlen_cons, !zlen_app. pose proof (wire_text n Hn). simpl length. lia.
Qed.
(** The estimate of the size. *)
Lemma compbuf_max_enough n ns : Forall (Forall label_ok) (n :: ns) ->
  wires (n :: ns) < zlen (list_text (n :: ns)) + 3 + 2 * count_commas (list_text (n :: ns)).
Proof.
  intros H. apply Forall_cons_iff in H as [Hn Hns]. pose proof (wires_tail ns Hns). pose proof (wire_text n Hn). pose proof (count_commas_tail ns).
  unfold wires in *. cbn [mbind list_bind]. simpl list_text. rewrite count_commas_app, !zlen_app. pose proof (count_commas_nonneg (text n)). lia.
Qed.

Lemma list_text_app n ns m ms : list_text ((n :: ns) ++ m :: ms) = list_text (n :: ns) ++ 44 :: list_text (m :: ms).
Proof. simpl. unfold list_tail. rewrite bind_app. cbn [mbind list_bind]. by rewrite <- !app_assoc. Qed.

Lemma buffer_length n : zlen (buffer_allocate n) = Z.max 0 (n + 4).
Proof. unfold buffer_allocate, zlen. rewrite length_replicate. lia. Qed.

(** A list as it is in an option. *)
Definition list_of (d : data_string) (ns : list (list label)) : Prop :=
  exists b l n r, ns = (l :: n) :: r /\ d_buf d = Some b /\ d_len d <= zlen b /\ names_at b (d_len d) 0 ns (d_len d).

Lemma list_of_has d ns : list_of d ns -> has_names d = true.
Proof.
  intros (b & l & n & r & -> & Hb & _ & Hns). unfold has_names. rewrite Hb. inversion Hns as [|? ? ? ? ? ? Hn ? ? ]; subst.
  apply name_at_pos in Hn. by rewrite (proj2 (Z.eqb_neq _ _)) by lia.
Qed.
Lemma list_of_labels d ns : list_of d ns -> Forall (Forall label_ok) ns.
Proof. intros (b & l & n & r & _ & _ & _ & Hns). by eapply names_at_labels. Qed.

Lemma uncompress_onto_ok d ns buf len : list_of d ns -> Forall (fun n => zlen (wire n) <= NS_MAXCDNAME) ns ->
  zlen buf = UNCOMPBUF -> 0 <= len -> len + zlen (list_text ns) < UNCOMPBUF ->
  exists buf', uncompress_onto d buf len = Done (buf', zlen (list_text ns)) /\ zlen buf' = UNCOMPBUF /\ at_ buf' len (list_text ns ++ [0]) /\
    forall q k, at_ buf q k -> q + zlen k <= len -> at_ buf' q k.
Proof.
  intros (b & l & n & r & -> & Hb & Hle & Hns) Hw Hz Hl Hfit. unfold uncompress_onto. rewrite Hb. pose proof (zlen_nonneg (list_text ((l :: n) :: r))).
  destruct (uncompress_list_ok b (d_len d) buf len (UNCOMPBUF - len) l n r Hns Hw Hle Hl) as (buf' & E & Hz' & Hat); [lia|lia|right; lia|].
  rewrite (proj2 (Z.ltb_lt _ _)) in E by lia. exists buf'. destruct Hat as [Hat Hk]; [lia|]. split_and!; [done|lia|done|done].
Qed.

(** The concatenation of two lists of domain names has the names of the
    first and then those of the second, but for the case of letters, and they
    are compressed against each other.  There is always room in the buffer that
    [concat_dclists] allocates for the result, provided that the text fits into
    its array of 32 names. *)
Lemma concat_dclists_correct r d1 d2 ns1 ns2 :
  list_of d1 ns1 -> list_of d2 ns2 ->
  Forall (fun n => name_ok n /\ comma_free n /\ zlen (text n) <= NS_MAXCDNAME - 1) (ns1 ++ ns2) ->
  zlen (list_text (ns1 ++ ns2)) < UNCOMPBUF ->
  exists n out ns, concat_dclists r d1 d2 = Done (n, mk_ds (Some out) n (d_terminated r)) /\
    0 < n <= wires (ns1 ++ ns2) /\ same_names (ns1 ++ ns2) ns /\ list_of (mk_ds (Some out) n (d_terminated r)) ns.
Proof.
  intros H1 H2 Hok Hfit. pose proof (list_of_has _ _ H1) as E1. pose proof (list_of_has _ _ H2) as E2.
  pose proof (list_of_labels _ _ H1) as L1. pose proof (list_of_labels _ _ H2) as L2. apply Forall_app in Hok as Hok'. destruct Hok' as [Hok1 Hok2].
  assert (Hw : forall ns, Forall (fun n => name_ok n /\ comma_free n /\ zlen (text n) <= NS_MAXCDNAME - 1) ns -> Forall (fun n => zlen (wire n) <= NS_MAXCDNAME) ns).
  { intros ns Hns. eapply Forall_impl; [|exact Hns]. by intros n [[_ ?] _]. }
  assert (Et : list_text (ns1 ++ ns2) = list_text ns1 ++ 44 :: list_text ns2).
  { destruct H1 as (? & l1 & m1 & r1 & -> & _), H2 as (? & l2 & m2 & r2 & -> & _). apply list_text_app. }
  set (t1 := list_text ns1) in *. set (t2 := list_text ns2) in *. pose proof (zlen_nonneg t2) as Ht2.
  assert (Hlen : zlen (list_text (ns1 ++ ns2)) = zlen t1 + 1 + zlen t2) by (rewrite Et, zlen_app, zlen_cons; lia).
  assert (Ht1 : 0 < zlen t1).
  { subst t1. destruct H1 as (? & l1 & m1 & r1 & -> & _). apply Forall_cons_iff in L1 as [L1 _]. change (list_text ((l1 :: m1) :: r1)) with (text (l1 :: m1) ++ list_tail r1). rewrite zlen_app.
    pose proof (text_length_pos _ L1). pose proof (zlen_nonneg (list_tail r1)). lia. }
  unfold concat_dclists. rewrite E1, E2. set (buf0 := replicate (Z.to_nat UNCOMPBUF) 0).
  assert (Hz0 : zlen buf0 = UNCOMPBUF) by (unfold buf0, zlen; rewrite length_replicate; done).
  destruct (uncompress_onto_ok d1 ns1 buf0 0 H1 (Hw _ Hok1) Hz0) as (buf1 & -> & Hz1 & Hat1 & _); [lia|fold t1; lia|]. dred. fold t1.
  rewrite (proj2 (Z.ltb_ge (zlen t1) 0)), (proj2 (Z.ltb_lt 0 (zlen t1))) by lia. apply at_app in Hat1 as [Hat1 _]. fold t1 in Hat1.
  destruct (wrn_ok buf1 (zlen t1) [44]) as [buf2 Ew]; [lia|change (zlen [44]) with 1; lia|]. rewrite wr_wrn, Ew. dred.
  pose proof (wrn_zlen _ _ _ _ Ew) as Hz2. pose proof (at_append buf1 buf2 0 t1 [44] Hat1 Ew) as Hat2.
  destruct (uncompress_onto_ok d2 ns2 buf2 (zlen t1 + 1) H2 (Hw _ Hok2)) as (buf3 & -> & Hz3 & Hat3 & Hk3); [lia|lia|fold t2; lia|]. dred. fold t2.
  rewrite (proj2 (Z.ltb_ge (zlen t2) 0)) by lia. replace (zlen t1 + 1 + zlen t2) with (zlen (list_text (ns1 ++ ns2))) by lia.
  rewrite (proj2 (Z.eqb_neq (zlen (list_text (ns1 ++ ns2))) 0)) by lia.
  assert (Hat : at_ buf3 0 (list_text (ns1 ++ ns2) ++ [0])).
  { rewrite Et, <- app_assoc. change ((44 :: t2) ++ [0]) with ([44] ++ (t2 ++ [0])). rewrite app_assoc. apply at_app. split.
    - apply Hk3; [done|]. rewrite zlen_app. change (zlen [44]) with 1. lia.
    - rewrite zlen_app. exact Hat3. }
  pose proof Hat as Hat'. apply at_app in Hat' as [Hat' _]. unfold at_ in Hat'. rewrite Hat'. dred.
  set (size := zlen (list_text (ns1 ++ ns2)) + 3 + 2 * count_commas (list_text (ns1 ++ ns2))).
  assert (Hbuf : bytes (buffer_allocate size)) by (apply Forall_replicate; unfold byte; lia).
  pose proof (count_commas_nonneg (list_text (ns1 ++ ns2))) as Hcc.
  destruct (compress_list_ok buf3 (zlen (list_text (ns1 ++ ns2))) (buffer_allocate size) size (ns1 ++ ns2) Hok) as (out & n & -> & Hn);
    [by destruct H1 as (? & ? & ? & ? & -> & _)|done|by left|done|rewrite buffer_length; unfold size; lia|].
  dred. assert (Hmax : wires (ns1 ++ ns2) < size).
  { unfold size. destruct H1 as (? & l1 & m1 & r1 & -> & _). apply (compbuf_max_enough (l1 :: m1) (r1 ++ ns2)). by apply (Forall_app _ ((l1 :: m1) :: r1)).  }
  destruct Hn as [[_ ?]|(Hn & Hnw & _ & Hzo & ns & Hs & Hns)]; [lia|]. rewrite (proj2 (Z.leb_gt n 0)) by lia.
  exists n, out, ns. split; [done|]. split; [lia|]. split; [done|].
  destruct H1 as (? & l1 & m1 & r1 & -> & _). inversion Hs as [|? n1 ? ms En _]; subst. destruct n1 as [|l m]; [done|]. exists out, l, m, ms.
  split_and!; [done|done| |done]. simpl. rewrite Hzo, buffer_length. unfold size in *. lia.
Qed.

(** "a.b" and "c.b". *)
Definition first_list : data_string := mk_ds (Some [1; 97; 1; 98; 0]) 5 false.
Definition second_list : data_string := mk_ds (Some [1; 99; 1; 98; 0]) 5 false.
Lemma lists_are : list_of first_list [[[97]; [98]]] /\ list_of second_list [[[99]; [98]]].
Proof.
  assert (Hl : forall c, 0 <= c < 256 -> label_ok [c]) by (intros c Hc; split; [by apply Forall_singleton|done]).
  split; eexists _, _, _, _; (split_and!; [done|done|done|]); (eapply names_cons; [|..|apply names_nil]).
  1, 3: repeat (eapply name_label; [by vm_compute|apply Hl; lia|]); by apply name_root.
  all: done.
Qed.

(** The second name ends with a pointer into the first one. *)
Example concat_dclists_runs : concat_dclists null_string first_list second_list =
  Done (9, mk_ds (Some [1; 97; 1; 98; 0; 1; 99; 192; 2; 0; 0; 0; 0; 0; 0; 0]) 9 false).
Proof. vm_compute. reflexivity. Qed.
