(* ===== verification/EvalStr.v ===== *)
(** * Data strings as lists of bytes

    What the operations on data strings in Eval.v compute, with strings taken
    as lists of bytes: substrings, changes of case, concatenation, reversal,
    integers and their texts. *)

From stdpp Require Import base tactics list numbers.
From S2P Require Import Prelude Array Convert Name NameOk Expr Eval.

#[local] Open Scope Z_scope.

(** ** Strings and their contents

    The memory after the bytes is not specified, but for the NUL of a
    terminated string. *)
Definition str (d : data_string) (l : list Z) : Prop :=
  bytes (default [] (d_buf d)) /\ zlen l < 2 ^ 32 /\ d_len d = zlen l /\
  exists post, default [] (d_buf d) = l ++ post /\ (d_terminated d = true -> exists r, post = 0 :: r).
Definition nul (t : bool) : list Z := if t then [0] else [].

Lemma str_bytes d l : str d l -> bytes l.
Proof. intros (Hb & _ & _ & post & E & _). rewrite E in Hb. by apply Forall_app in Hb as [? _]. Qed.
Lemma str_len d l : str d l -> d_len d = zlen l.
Proof. by intros (_ & _ & ? & _). Qed.
Lemma str_short d l : str d l -> zlen l < 2 ^ 32.
Proof. by intros (_ & ? & _). Qed.
Lemma str_null : str null_string [].
Proof. split_and!; [done..|]. by exists []. Qed.
Lemma str_new b t : bytes b -> zlen b < 2 ^ 32 -> str (ds_new b t) b.
Proof.
  intros Hb Hl. split_and!; [|done|done|]; simpl.
  - apply Forall_app. split; [done|]. by repeat constructor.
  - eexists. split; [reflexivity|]. intros _. by eexists.
Qed.
Lemma nul_length t : zlen (nul t) = b2z t.
Proof. by destruct t. Qed.

Lemma load_prefix d l post : default [] (d_buf d) = l ++ post -> load d (zlen l) = Done l.
Proof.
  intros E. unfold load. destruct (Z.eqb_spec (zlen l) 0) as [Hz|Hz]; [by destruct l|].
  destruct (d_buf d) as [b|]; simpl in E; [subst b|by destruct l]. apply (rdn_middle []).
Qed.
Lemma load_str d l : str d l -> load d (zlen l) = Done l.
Proof. intros (_ & _ & _ & post & E & _). by eapply load_prefix. Qed.
Lemma ds_bytes_str d l : str d l -> ds_bytes d = Done l.
Proof. intros H. unfold ds_bytes. rewrite (str_len d l H). by apply load_str. Qed.
Lemma load_terminated d l : str d l -> load d (d_len d + b2z (d_terminated d)) = Done (l ++ nul (d_terminated d)).
Proof.
  intros (_ & _ & -> & post & E & Ht). destruct (d_terminated d).
  - destruct (Ht eq_refl) as [r ->]. change (zlen l + b2z true) with (zlen l + zlen [0]). rewrite <- zlen_app.
    apply (load_prefix d (l ++ [0]) r). by rewrite <- app_assoc.
  - simpl. rewrite Z.add_0_r, app_nil_r. by eapply load_prefix.
Qed.

Lemma drop_zlen {A} (l r : list A) n : n <= zlen l -> drop (Z.to_nat n) (l ++ r) = drop (Z.to_nat n) l ++ r.
Proof. intros Hn. unfold zlen in Hn. by rewrite drop_app_le by lia. Qed.
Lemma zlen_take {A} (l : list A) n : 0 <= n <= zlen l -> zlen (take (Z.to_nat n) l) = n.
Proof. unfold zlen. rewrite length_take. lia. Qed.
Lemma zlen_drop {A} (l : list A) n : 0 <= n <= zlen l -> zlen (drop (Z.to_nat n) l) = zlen l - n.
Proof. unfold zlen. rewrite length_drop. lia. Qed.
Lemma take_all_z {A} (l : list A) n : zlen l <= n -> take (Z.to_nat n) l = l.
Proof. intros Hn. apply take_ge. unfold zlen in Hn. lia. Qed.

Lemma nil_length_inv_z {A} (l : list A) : zlen l = 0 -> l = [].
Proof. by destruct l. Qed.

(** ** Parts *)
Lemma advance_ok d l n : str d l -> 0 <= n <= zlen l -> str (advance d n) (drop (Z.to_nat n) l).
Proof.
  intros (Hb & Hs & Hl & post & E & Ht) Hn. unfold advance. split_and!; simpl.
  - destruct (d_buf d); simpl in *; [by apply Forall_drop|done].
  - rewrite zlen_drop; lia.
  - rewrite zlen_drop; lia.
  - exists post. split; [|done]. rewrite <- drop_zlen by lia. rewrite <- E. destruct (d_buf d); simpl; [done|by rewrite drop_nil].
Qed.
Lemma shorten_ok d l n : str d l -> 0 <= n <= zlen l -> str (mk_ds (d_buf d) n false) (take (Z.to_nat n) l).
Proof.
  intros (Hb & Hs & Hl & post & E & Ht) Hn. split_and!; simpl; [done|rewrite zlen_take; lia|by rewrite zlen_take|].
  exists (drop (Z.to_nat n) l ++ post). split; [|done]. by rewrite E, app_assoc, take_drop.
Qed.
Lemma substring_ok d l o n : str d l -> 0 <= o <= zlen l -> 0 <= n ->
  str (substring d o n) (take (Z.to_nat n) (drop (Z.to_nat o) l)).
Proof.
  intros Hd Ho Hn. pose proof (advance_ok d l o Hd Ho) as Ha. unfold substring. rewrite (str_len _ _ Ha). zcase.
  - apply shorten_ok; [done|lia].
  - by rewrite take_all_z.
Qed.
Lemma suffix_ok d l n : str d l -> 0 <= n -> str (suffix d n) (drop (Z.to_nat (zlen l - n)) l).
Proof.
  intros Hd Hn. unfold suffix. rewrite (str_len _ _ Hd). zcase.
  - pose proof (advance_ok d l (zlen l - n) Hd ltac:(lia)) as Ha. pose proof (str_len _ _ Ha) as El. simpl in El.
    rewrite (str_len _ _ Hd) in El. rewrite zlen_drop in El by lia. unfold advance in Ha. rewrite (str_len _ _ Hd) in Ha.
    by replace (zlen l - (zlen l - n)) with n in Ha by lia.
  - replace (Z.to_nat (zlen l - n)) with 0%nat by lia. by rewrite drop_0.
Qed.

(** ** New buffers *)
Lemma allocate_split n : 0 <= n -> buffer_allocate n = replicate (Z.to_nat n) 0 ++ replicate 4 0.
Proof. intros Hn. unfold buffer_allocate. rewrite Z2Nat.inj_add by lia. apply replicate_add. Qed.
Lemma zeros_bytes n : bytes (replicate n 0).
Proof. apply Forall_replicate. unfold byte. lia. Qed.
Lemma wrn_over (pre l post : list Z) src : zlen l = zlen src -> wrn (pre ++ l ++ post) (zlen pre) src = Done (pre ++ src ++ post).
Proof. intros H. apply wrn_middle. unfold zlen in H. lia. Qed.
Lemma wrn_start (l post src : list Z) : zlen l = zlen src -> wrn (l ++ post) 0 src = Done (src ++ post).
Proof. apply (wrn_over []). Qed.
Lemma zlen_blank {A} n (x : A) : 0 <= n -> zlen (replicate (Z.to_nat n) x) = n.
Proof. intros Hn. unfold zlen. rewrite length_replicate. lia. Qed.
Lemma fill_buffer l : wrn (buffer_allocate (zlen l)) 0 l = Done (l ++ replicate 4 0).
Proof.
  pose proof (zlen_nonneg l). rewrite allocate_split by done. apply wrn_start. by rewrite zlen_blank.
Qed.

Lemma map_case_ok f d l : str d l -> (forall c, byte c -> byte (f c)) ->
  exists d', map_case f d = Done d' /\ str d' (f <$> l).
Proof.
  intros Hd Hf. pose proof (str_len _ _ Hd) as El. unfold map_case. rewrite (load_terminated d l Hd). dred. set (t := d_terminated d).
  replace (d_len d + b2z t) with (zlen (l ++ nul t)) by (rewrite zlen_app, nul_length; lia). rewrite fill_buffer. dred.
  eexists. split; [reflexivity|]. rewrite El. rewrite <- !app_assoc. unfold zlen. rewrite Nat2Z.id, take_app_length, drop_app_length.
  pose proof (str_bytes _ _ Hd) as Hb. split_and!; simpl.
  - apply Forall_app. split; [|by destruct t; repeat constructor]. apply Forall_fmap. by eapply Forall_impl.
  - unfold zlen. rewrite length_fmap. apply (str_short _ _ Hd).
  - unfold zlen. by rewrite length_fmap.
  - eexists. split; [reflexivity|]. intros ->. by eexists.
Qed.
Lemma concat_ok d l e k : str d l -> str e k -> zlen l + zlen k < 2 ^ 32 ->
  exists x, concat_strings null_string d e = Done x /\ str x (l ++ k).
Proof.
  intros Hd He Hlen. pose proof (zlen_nonneg l). pose proof (zlen_nonneg k). unfold concat_strings.
  rewrite (ds_bytes_str d l Hd), (load_terminated e k He). dred. rewrite (str_len _ _ Hd), (str_len _ _ He). set (t := d_terminated e).
  unfold u32. rewrite Z.mod_small by lia.
  assert (Ht : 0 <= b2z t) by (by destruct t).
  rewrite allocate_split by lia. replace (Z.to_nat (zlen l + zlen k + b2z t)) with (Z.to_nat (zlen l) + Z.to_nat (zlen k + b2z t))%nat by lia.
  rewrite replicate_add, <- app_assoc. rewrite wrn_start by (by rewrite zlen_blank). dred.
  rewrite (wrn_over l) by (rewrite zlen_blank, zlen_app, nul_length by lia; lia). dred. eexists. split; [reflexivity|].
  pose proof (str_bytes _ _ Hd). pose proof (str_bytes _ _ He). split_and!; simpl.
  - rewrite !Forall_app. split_and!; [done|done|by destruct t; repeat constructor|by repeat constructor].
  - rewrite zlen_app. lia.
  - by rewrite zlen_app.
  - exists (nul t ++ replicate 4 0). by rewrite <- !app_assoc.
Qed.

(** ** Pieces of a width *)
Fixpoint pieces (n w : nat) (l : list Z) : list (list Z) :=
  match n with O => [] | S n' => take w l :: pieces n' w (drop w l) end.
Lemma pieces_join n w l : length l = (n * w)%nat -> mjoin (pieces n w l) = l.
Proof.
  revert l. induction n as [|n IH]; intros l E; simpl in *; [by destruct l|].
  rewrite IH by (rewrite length_drop; lia). apply take_drop.
Qed.
Lemma pieces_width n w l : length l = (n * w)%nat -> Forall (fun p => length p = w) (pieces n w l).
Proof.
  revert l. induction n as [|n IH]; intros l E; simpl in *; constructor; [rewrite length_take; lia|].
  apply IH. rewrite length_drop. lia.
Qed.
Lemma length_pieces n w l : length (pieces n w l) = n.
Proof. revert l. induction n as [|n IH]; intros l; simpl; [done|by rewrite IH]. Qed.
Lemma pieces_snoc n w l c : length l = (n * w)%nat -> length c = w -> pieces (S n) w (l ++ c) = pieces n w l ++ [c].
Proof.
  revert l. induction n as [|n IH]; intros l E Ec.
  - destruct l; [|done]. simpl. by rewrite take_ge by lia.
  - change (pieces (S (S n)) w (l ++ c)) with (take w (l ++ c) :: pieces (S n) w (drop w (l ++ c))). simpl in E.
    rewrite take_app_le, drop_app_le by lia. rewrite IH by (rewrite ?length_drop; lia). done.
Qed.
Lemma pieces_bytes n w l : bytes l -> Forall bytes (pieces n w l).
Proof. revert l. induction n as [|n IH]; intros l Hl; constructor; [by apply Forall_take|by apply IH, Forall_drop]. Qed.

(** ** Reversal *)
Definition reversed (n w : nat) (l : list Z) : list Z := mjoin (reverse (pieces n w l)).

Lemma reversed_snoc n w l c : length l = (n * w)%nat -> length c = w -> reversed (S n) w (l ++ c) = c ++ reversed n w l.
Proof. intros E Ec. unfold reversed. rewrite pieces_snoc by done. by rewrite reverse_app, reverse_singleton. Qed.
Lemma length_reversed n w l : length l = (n * w)%nat -> length (reversed n w l) = (n * w)%nat.
Proof.
  revert l. induction n as [|n IH]; intros l E; [done|].
  rewrite <- (take_drop (n * w) l). simpl in *.
  rewrite (reversed_snoc n w) by (rewrite ?length_take, ?length_drop; lia). rewrite length_app, IH by (rewrite length_take; lia).
  rewrite length_drop. lia.
Qed.
Lemma reversed_bytes n w l : bytes l -> bytes (reversed n w l).
Proof.
  intros Hl. unfold reversed. pose proof (pieces_bytes n w l Hl) as H. rewrite <- (reverse_Permutation (pieces n w l)) in H.
  induction H; [constructor|]. by apply Forall_app.
Qed.

Lemma reverse_loop_ok d w : (0 < w)%nat -> forall n l done_ rest post last,
  default [] (d_buf d) = l ++ last -> d_len d = zlen l + zlen done_ -> length l = (n * w)%nat -> length rest = (n * w)%nat ->
  (l <> [] -> d_buf d <> None) ->
  reverse_loop n (zlen done_) (Z.of_nat w) d (done_ ++ rest ++ post) = Done (done_ ++ reversed n w l ++ post).
Proof.
  intros Hw. induction n as [|n IH]; intros l done_ rest post last E El Hl Hr Hs.
  - destruct rest; [|done]. done.
  - simpl in Hl, Hr. rewrite <- (take_drop (n * w) l) in E, El, Hs |- *. set (a := take (n * w) l) in *. set (c := drop (n * w) l) in *.
    assert (Ha : length a = (n * w)%nat) by (unfold a; rewrite length_take; lia).
    assert (Hc : length c = w) by (unfold c; rewrite length_drop; lia).
    rewrite (reversed_snoc n w a c Ha Hc). cbn [reverse_loop].
    destruct (d_buf d) as [b|] eqn:Eb; [|exfalso; apply Hs; [intros En; apply app_nil in En as [_ ->]; simpl in Hc; lia|done]].
    simpl in E. subst b. rewrite zlen_app in El.
    replace (d_len d - zlen done_ - Z.of_nat w) with (zlen a) by (unfold zlen in *; lia). replace (Z.of_nat w) with (zlen c) by (unfold zlen; lia).
    rewrite <- app_assoc, rdn_middle. dred. rewrite <- (take_drop w rest), <- app_assoc.
    rewrite (wrn_over done_) by (unfold zlen; rewrite length_take; lia). dred.
    replace (done_ ++ c ++ drop w rest ++ post) with ((done_ ++ c) ++ drop w rest ++ post) by (by rewrite <- app_assoc).
    rewrite <- zlen_app. replace (zlen c) with (Z.of_nat w) by (unfold zlen; lia).
    rewrite (IH a (done_ ++ c) (drop w rest) post (c ++ last)); [by rewrite <- !app_assoc| |rewrite zlen_app; lia|done|rewrite length_drop; lia|done].
    simpl. by rewrite <- app_assoc.
Qed.
Lemma reverse_string_ok d l w n : str d l -> 0 < w -> zlen l = Z.of_nat n * w ->
  exists x, reverse_string w d = Done (Some x) /\ str x (reversed n (Z.to_nat w) l).
Proof.
  intros Hd Hw Hn. pose proof (str_len _ _ Hd) as El. pose proof (str_bytes _ _ Hd) as Hb. unfold reverse_string. rewrite El.
  rewrite (proj2 (Z.eqb_neq w 0)) by lia. replace (zlen l mod w) with 0 by (rewrite Hn; symmetry; by apply Z.mod_mul; lia).
  replace (Z.to_nat (zlen l / w)) with n by (rewrite Hn, Z.div_mul; lia). simpl negb. cbv iota.
  assert (Hl : length l = (n * Z.to_nat w)%nat) by (unfold zlen in Hn; nia).
  destruct Hd as (_ & Hs & _ & post & E & _). rewrite allocate_split by apply zlen_nonneg.
  pose proof (reverse_loop_ok d (Z.to_nat w) ltac:(lia) n l [] (replicate (Z.to_nat (zlen l)) 0) (replicate 4 0) post E) as R.
  change (zlen (@nil Z)) with 0 in R. rewrite Z2Nat.id in R by lia. cbn [app] in R.
  rewrite R; [|lia|done|rewrite length_replicate; unfold zlen; lia|intros Hne En; rewrite En in E; simpl in E; by destruct l].
  dred. eexists. split; [reflexivity|]. pose proof (length_reversed n (Z.to_nat w) l Hl) as Hr.
  split_and!; simpl; [apply Forall_app; split; [by apply reversed_bytes|by repeat constructor]|unfold zlen in *; lia|unfold zlen in *; lia|].
  by eexists.
Qed.
Lemma reverse_string_odd d l w : str d l -> 0 < w -> zlen l mod w <> 0 -> reverse_string w d = Done None.
Proof. intros Hd Hw Hm. unfold reverse_string. rewrite (str_len _ _ Hd), (proj2 (Z.eqb_neq w 0)), (proj2 (Z.eqb_neq _ 0)) by lia. done. Qed.

(** ** Integers *)
Section convert.
Context `{HostOrder}.

Lemma encode_ok n w : w = 1 \/ w = 2 \/ w = 4 ->
  exists b, encode_int n w = Done b /\ str (mk_ds (Some b) w false) (be_bytes (Z.to_nat w) n).
Proof.
  intros Hw. exists (be_bytes (Z.to_nat w) n ++ replicate 4 0). split.
  - assert (E : encode_int n w = wrn (buffer_allocate w) 0 (be_bytes (Z.to_nat w) n)).
    { unfold encode_int. destruct Hw as [->|[->| ->]]; cbn [Z.eqb Pos.eqb].
      - change (be_bytes (Z.to_nat 1) n) with [(n / 1) mod 256]. by rewrite Z.div_1_r, wr_wrn.
      - rewrite putUShort_spec by done. change (Z.to_nat 2) with 2%nat.
        rewrite <- (be_bytes_mod 2 n), <- (be_bytes_mod 2 (u32 n)). unfold u32. do 2 f_equal.
        change (2 ^ (8 * Z.of_nat 2)) with (2 ^ 16). change (2 ^ 32) with (2 ^ 16 * 2 ^ 16). rewrite Z.rem_mul_r by done.
        rewrite (Z.mul_comm (2 ^ 16) (_ mod _)), Z.mod_add by done. by rewrite Z.mod_mod.
      - rewrite putULong_spec by done. unfold u32. change (2 ^ 32) with (2 ^ (8 * Z.of_nat 4)). by rewrite be_bytes_mod. }
    rewrite E. replace w with (zlen (be_bytes (Z.to_nat w) n)) at 1 by (rewrite zlen_be_bytes; lia). apply fill_buffer.
  - split_and!; simpl.
    + apply Forall_app. split; [apply bytes_be_bytes|by repeat constructor].
    + rewrite zlen_be_bytes. lia.
    + rewrite zlen_be_bytes. lia.
    + by eexists.
Qed.

(** The number in the first [w] bytes. *)
Lemma extract_ok d l w : str d l -> w = 1 \/ w = 2 \/ w = 4 -> w <= zlen l -> extract_int w d = Done (Some (be_val (take (Z.to_nat w) l))).
Proof.
  intros Hd Hw Hl. pose proof (str_len _ _ Hd) as El. destruct Hd as (Hb & _ & _ & post & E & _). unfold extract_int.
  assert (Et : take (Z.to_nat w) l = take (Z.to_nat w) (l ++ post)) by (unfold zlen in Hl; rewrite take_app_le; [done|lia]). rewrite Et.
  replace (match d_buf d with Some b => b | None => [] end) with (l ++ post) by (by rewrite <- E; destruct (d_buf d)). rewrite E in Hb.
  pose proof (zlen_nonneg post). assert (Hw' : w <= zlen (l ++ post)) by (rewrite zlen_app; lia). clear Et E.
  destruct Hw as [->|[->| ->]]; cbn [Z.eqb Pos.eqb]; rewrite ?El.
  - destruct (l ++ post) as [|x r]; [done|]. change (take (Z.to_nat 1) (x :: r)) with [x].
    assert (E1 : be_val [x] = x) by (cbn [be_val]; change (zlen (@nil Z)) with 0; lia). by rewrite E1.
  - rewrite (proj2 (Z.ltb_ge _ _)), getUShort_spec by (done || lia). done.
  - rewrite (proj2 (Z.ltb_ge _ _)), getULong_spec by (done || lia). done.
Qed.
Lemma extract_short d l w : str d l -> w = 2 \/ w = 4 -> zlen l < w -> extract_int w d = Done None.
Proof.
  intros Hd Hw Hl. unfold extract_int. rewrite (str_len _ _ Hd), (proj2 (Z.ltb_lt _ _)) by done. by destruct Hw as [-> | ->].
Qed.

(** *** Numbers as texts *)
Definition digit (d : Z) : Z := if d <? 10 then 48 + d else 87 + d.
Fixpoint digits (k : nat) (base n : Z) : list Z :=
  match k with O => [] | S k' => digits k' base (n / base) ++ [digit (n mod base)] end.
(** Without leading zeros; numbers have 32 bits. *)
Fixpoint text_of (fuel : nat) (base n : Z) : list Z :=
  match fuel with
  | O => []
  | S f => if n <? base then [digit n] else text_of f base (n / base) ++ [digit (n mod base)]
  end.
Definition number_text (base n : Z) : list Z := text_of 32 base n.

(** [k] is the number of digits. *)
Definition width_of (base n : Z) (k : nat) : Prop := (0 < k)%nat /\ n < base ^ Z.of_nat k /\ base ^ (Z.of_nat k - 1) <= Z.max 1 n.

Lemma rd_digit d : 0 <= d < 16 -> rd h2a d = Done (digit d).
Proof.
  intros Hd. assert (In d (seqZ 0 16)) as Hin by (apply list_elem_of_In, elem_of_seqZ; lia).
  change (seqZ 0 16) with [0;1;2;3;4;5;6;7;8;9;10;11;12;13;14;15] in Hin.
  repeat (destruct Hin as [<-|Hin]; [reflexivity|]). destruct Hin.
Qed.
Lemma length_digits k base n : length (digits k base n) = k.
Proof. revert n. induction k as [|k IH]; intros n; simpl; [done|]. rewrite length_app, IH. simpl. lia. Qed.
Lemma hex_byte d : 0 <= d < 16 -> byte (digit d).
Proof. intros Hd. unfold digit, byte. zcase; lia. Qed.
Lemma digits_bytes k base n : 2 <= base <= 16 -> 0 <= n -> bytes (digits k base n).
Proof.
  intros Hb. revert n. induction k as [|k IH]; intros n Hn; [constructor|]. apply Forall_app. split; [apply IH, Z.div_pos; lia|].
  apply Forall_singleton, hex_byte. pose proof (Z.mod_pos_bound n base). lia.
Qed.
Lemma digits_written base : 2 <= base <= 16 -> forall k n pre old post, 0 <= n -> length old = k ->
  binary_to_ascii_loop k (pre ++ old ++ post) (zlen pre) base n = Done (pre ++ digits k base n ++ post).
Proof.
  intros Hb. induction k as [|k IH]; intros n pre old post Hn Ho; [by destruct old|].
  destruct (exists_last (l := old)) as (old' & y & ->); [by destruct old|]. rewrite length_app in Ho. simpl in Ho. cbn [binary_to_ascii_loop digits].
  rewrite (proj2 (Z.eqb_neq base 0)) by lia. pose proof (Z.mod_pos_bound n base ltac:(lia)). rewrite rd_digit by lia. dred.
  replace (pre ++ (old' ++ [y]) ++ post) with ((pre ++ old') ++ [y] ++ post) by (by rewrite <- !app_assoc).
  replace (zlen pre + Z.of_nat k) with (zlen (pre ++ old')) by (rewrite zlen_app; unfold zlen; lia).
  rewrite wr_wrn, wrn_over by done. dred. rewrite <- app_assoc. rewrite IH by (try apply Z.div_pos; lia). by rewrite <- !app_assoc.
Qed.
Lemma text_digits base : 2 <= base -> forall f k n, 0 <= n -> (k <= f)%nat -> width_of base n k -> text_of f base n = digits k base n.
Proof.
  intros Hb. induction f as [|f IH]; intros k n Hn Hf (Hk & Hlt & Hge); [lia|]. cbn [text_of]. destruct k as [|k]; [lia|].
  replace (Z.of_nat (S k) - 1) with (Z.of_nat k) in Hge by lia. replace (Z.of_nat (S k)) with (Z.succ (Z.of_nat k)) in Hlt by lia.
  rewrite Z.pow_succ_r in Hlt by lia. destruct k as [|k].
  - rewrite (proj2 (Z.ltb_lt n base)) by (simpl in Hlt; lia). simpl. rewrite Z.mod_small by (simpl in Hlt; lia). done.
  - rewrite Nat2Z.inj_succ, Z.pow_succ_r in Hge, Hlt by lia. assert (0 < base ^ Z.of_nat k) by (apply Z.pow_pos_nonneg; lia).
    rewrite (proj2 (Z.ltb_ge n base)) by nia. rewrite (IH (S k)); [done|apply Z.div_pos; lia|lia|].
    assert (base ^ Z.of_nat k <= n / base) by (apply Z.div_le_lower_bound; lia).
    split_and!; [lia|rewrite Nat2Z.inj_succ, Z.pow_succ_r by lia; apply Z.div_lt_upper_bound; lia|].
    replace (Z.of_nat (S k) - 1) with (Z.of_nat k) by lia. lia.
Qed.
Lemma width_bound base n k : 2 <= base -> n < 2 ^ 32 -> width_of base n k -> (k <= 32)%nat.
Proof.
  intros Hb Hn (Hk & _ & Hge). destruct (decide (k <= 32)%nat) as [|N]; [done|]. exfalso.
  assert (2 ^ 32 <= base ^ (Z.of_nat k - 1)); [|lia]. trans (2 ^ (Z.of_nat k - 1)); [apply Z.pow_le_mono_r; lia|apply Z.pow_le_mono_l; lia].
Qed.
Lemma number_text_digits base n k : 2 <= base -> 0 <= n < 2 ^ 32 -> width_of base n k -> number_text base n = digits k base n.
Proof. intros Hb Hn Hk. apply text_digits; [done|lia|eapply width_bound; [done| |done]; lia|done]. Qed.

(** Such numbers are given their own number of digits. *)
Definition plain (base n : Z) : Prop := exists j, base ^ j < 2 ^ 32 /\ n < base ^ j.
Lemma converted_width b p base w n : bytes b -> 2 <= base <= 16 -> get_number b p w = Done (Some n) -> plain base n ->
  exists k, width_of base n k /\ converted_length b p base w = Done (Z.of_nat k).
Proof.
  intros Hb Hbase Hn Hp. destruct (converted_length_digits b p base w n Hb Hbase Hn) as (k & E & Hk & Hlt & Hx). specialize (Hx Hp).
  exists (Z.to_nat k). unfold width_of. rewrite Z2Nat.id by lia. split; [|done]. split_and!; [lia|done|done].
Qed.
Lemma small_plain base n : 2 <= base <= 16 -> n < 65536 -> plain base n.
Proof.
  intros Hb Hn. assert (HB : base = 2 \/ base = 3 \/ base = 4 \/ base = 5 \/ base = 6 \/ base = 7 \/ base = 8 \/ base = 9 \/ base = 10 \/ base = 11 \/
    base = 12 \/ base = 13 \/ base = 14 \/ base = 15 \/ base = 16) by lia.
  repeat destruct HB as [->|HB]; try subst base;
    match goal with |- plain ?b _ => exists (if b <=? 3 then 17 else if b <=? 6 then 11 else 7) end; simpl; split; lia.
Qed.

Lemma get_number_piece pre c post w : bytes (pre ++ c ++ post) -> w = 1 \/ w = 2 \/ w = 4 -> zlen c = w ->
  get_number (pre ++ c ++ post) (zlen pre) w = Done (Some (be_val c)).
Proof.
  intros Hb Hw Hc. pose proof (zlen_nonneg pre). pose proof (zlen_nonneg post). unfold get_number.
  assert (Et : forall m, w = Z.of_nat m -> take m (drop (Z.to_nat (zlen pre)) (pre ++ c ++ post)) = c).
  { intros m ->. unfold zlen in *. rewrite Nat2Z.id, drop_app_length. replace m with (length c) by lia. apply take_app_length. }
  destruct Hw as [->|[->| ->]]; cbn [Z.eqb Pos.eqb].
  - destruct c as [|x [|]]; [done| |exfalso; unfold zlen in Hc; simpl in Hc; lia]. unfold getUChar.
    rewrite (rd_nth 0) by (rewrite !zlen_app; change (zlen [x]) with 1; lia). dred. unfold zlen. rewrite Nat2Z.id, app_nth2, Nat.sub_diag by lia.
    cbn [be_val nth]. change (zlen (@nil Z)) with 0. cbn [app nth]. do 2 f_equal. lia.
  - rewrite getUShort_spec by (done || rewrite ?zlen_app; lia). by rewrite Et.
  - rewrite getULong_spec by (done || rewrite ?zlen_app; lia). by rewrite Et.
Qed.

Lemma text_length base n k : 2 <= base -> 0 <= n < 2 ^ 32 -> width_of base n k -> zlen (number_text base n) = Z.of_nat k.
Proof. intros Hb Hn Hk. rewrite (number_text_digits base n k) by done. unfold zlen. by rewrite length_digits. Qed.
Lemma piece_value c w : bytes c -> w = 1 \/ w = 2 \/ w = 4 -> zlen c = w -> 0 <= be_val c < 2 ^ 32 /\ (w = 1 -> be_val c < 256).
Proof. intros Hb Hw Hc. pose proof (be_val_bound c Hb) as Hv. rewrite Hc in Hv. destruct Hw as [->|[->| ->]]; simpl in Hv; lia. Qed.

Lemma b2a_width_ok base pre c post w : bytes (pre ++ c ++ post) -> w = 1 \/ w = 2 \/ w = 4 -> zlen c = w -> 2 <= base <= 16 ->
  plain base (be_val c) ->
  b2a_width (pre ++ c ++ post) (zlen pre) base w = Done (zlen (number_text base (be_val c))) /\
  converted_length (pre ++ c ++ post) (zlen pre) base w = Done (zlen (number_text base (be_val c))).
Proof.
  intros Hb Hw Hc Hbase Hp. pose proof (get_number_piece pre c post w Hb Hw Hc) as Hg.
  pose proof Hb as Hb'. rewrite !Forall_app in Hb'. destruct Hb' as (_ & Hbc & _). destruct (piece_value c w Hbc Hw Hc) as [Hv H1].
  destruct (converted_width _ _ base w _ Hb Hbase Hg Hp) as (k & Hk & E).
  assert (Ec : converted_length (pre ++ c ++ post) (zlen pre) base w = Done (zlen (number_text base (be_val c)))).
  { rewrite E. f_equal. symmetry. apply text_length; [lia|done|done]. }
  split; [|done]. unfold b2a_width. replace (u32 base) with base by (unfold u32; rewrite Z.mod_small; lia).
  destruct (Z.eqb_spec w 1) as [->|]; [|done]. unfold get_number, getUChar in Hg. simpl in Hg.
  destruct (rd (pre ++ c ++ post) (zlen pre)) as [x| | |] eqn:Ex; try done. dred_in Hg. injection Hg as ->. dred. specialize (H1 eq_refl).
  set (n := be_val c) in *.
  repeat (zcase; [|try exact Ec]); subst; f_equal; symmetry;
    match goal with |- _ = ?k => apply (text_length _ n (Z.to_nat k)) end; try lia; unfold width_of; rewrite ?Z2Nat.id by lia; split_and!; simpl; lia.
Qed.

(** The texts of the pieces with the separator between them. *)
Fixpoint joined (sep : list Z) (ts : list (list Z)) : list Z :=
  match ts with [] => [] | [t] => t | t :: r => t ++ sep ++ joined sep r end.
Lemma encoded_cons sep t u ts : joined sep (t :: u :: ts) = t ++ sep ++ joined sep (u :: ts).
Proof. done. Qed.

Section texts.
Context (base w : Z) (sep : data_string) (sep_text : list Z) (Hsep : str sep sep_text).
Context (Hw : w = 1 \/ w = 2 \/ w = 4) (Hbase : 2 <= base <= 16).
Abbreviation text c := (number_text base (be_val c)).

Lemma b2a_count_ok cs : forall pre post count, bytes (pre ++ mjoin cs ++ post) -> Forall (fun c => zlen c = w) cs ->
  Forall (fun c => plain base (be_val c)) cs -> 0 <= count -> count + zlen (joined sep_text (number_text base ∘ be_val <$> cs)) < 2 ^ 32 ->
  b2a_count (length cs) (pre ++ mjoin cs ++ post) (zlen pre) base w (zlen pre + zlen (mjoin cs)) (d_len sep) count =
    Done (count + zlen (joined sep_text (number_text base ∘ be_val <$> cs))).
Proof.
  induction cs as [|c cs IH]; intros pre post count Hb Hl Hp Hc Hs; [simpl; rewrite zlen_nil; f_equal; lia|].
  inversion Hl as [|? ? Hlc Hl']; subst. inversion Hp as [|? ? Hpc Hp']; subst. cbn [length b2a_count]. rewrite (str_len _ _ Hsep).
  change (mjoin (c :: cs)) with (c ++ mjoin cs) in *. rewrite <- app_assoc in *.
  destruct (b2a_width_ok base pre c (mjoin cs ++ post) (zlen c) Hb Hw eq_refl Hbase Hpc) as [-> _]. dred.
  pose proof (zlen_nonneg (text c)). pose proof (zlen_nonneg sep_text). destruct cs as [|c' cs].
  - simpl in Hs |- *. unfold u32. rewrite Z.mod_small by lia. rewrite app_nil_r, Z.eqb_refl. done.
  - change (number_text base ∘ be_val <$> c :: c' :: cs) with (text c :: (number_text base ∘ be_val <$> c' :: cs)) in *.
    set (ts := number_text base ∘ be_val <$> c' :: cs) in *.
    assert (Ej : joined sep_text (text c :: ts) = text c ++ sep_text ++ joined sep_text ts) by done. rewrite Ej in *. rewrite !zlen_app in *.
    pose proof (zlen_nonneg (joined sep_text ts)). unfold u32. rewrite (Z.mod_small (count + _)) by lia.
    assert (0 < zlen (mjoin (c' :: cs))).
    { inversion Hl' as [|? ? Hlc' _]; subst. change (mjoin (c' :: cs)) with (c' ++ mjoin cs). rewrite zlen_app. pose proof (zlen_nonneg (mjoin cs)). lia. }
    rewrite (proj2 (Z.eqb_neq (zlen pre + zlen c) _)) by lia. rewrite Z.mod_small by lia.
    replace (pre ++ c ++ mjoin (c' :: cs) ++ post) with ((pre ++ c) ++ mjoin (c' :: cs) ++ post) by (by rewrite <- app_assoc).
    replace (zlen pre + zlen c) with (zlen (pre ++ c)) by apply zlen_app.
    replace (zlen pre + (zlen c + zlen (mjoin (c' :: cs)))) with (zlen (pre ++ c) + zlen (mjoin (c' :: cs))) by (rewrite zlen_app; lia).
    rewrite <- (str_len _ _ Hsep), IH; [|by rewrite <- app_assoc|done|done|rewrite (str_len _ _ Hsep); lia|rewrite (str_len _ _ Hsep); fold ts; lia].
    f_equal. rewrite (str_len _ _ Hsep). fold ts. lia.
Qed.

Lemma b2a_piece pre c post o pre2 old post2 : bytes (pre ++ c ++ post) -> zlen c = w -> plain base (be_val c) ->
  o = zlen pre2 -> zlen old = zlen (text c) ->
  binary_to_ascii (pre2 ++ old ++ post2) o (pre ++ c ++ post) (zlen pre) (u32 base) w = Done (zlen (text c), pre2 ++ text c ++ post2).
Proof using Hw Hbase.
  intros Hb Hc Hp -> Ho. destruct (b2a_width_ok base pre c post w Hb Hw Hc Hbase Hp) as [_ El]. pose proof (get_number_piece pre c post w Hb Hw Hc) as Hg.
  unfold binary_to_ascii. replace (u32 base) with base by (unfold u32; rewrite Z.mod_small; lia). rewrite El. dred.
  rewrite (proj2 (Z.ltb_ge 16 base)) by lia. rewrite Hg. dred.
  pose proof Hb as Hb'. rewrite !Forall_app in Hb'. destruct Hb' as (_ & Hbc & _). destruct (piece_value c w Hbc Hw Hc) as [Hv _].
  destruct (converted_width _ _ base w _ Hb Hbase Hg Hp) as (k & Hk & E). rewrite El in E. injection E as E.
  rewrite E, Nat2Z.id. rewrite (digits_written base Hbase k) by (unfold zlen in *; lia). dred. by rewrite (number_text_digits base _ k) by (done || lia).
Qed.

Lemma b2a_write_ok cs : forall pre post done_ rest post2, bytes (pre ++ mjoin cs ++ post) -> Forall (fun c => zlen c = w) cs ->
  Forall (fun c => plain base (be_val c)) cs -> zlen rest = zlen (joined sep_text (number_text base ∘ be_val <$> cs)) ->
  b2a_write (length cs) (pre ++ mjoin cs ++ post) (zlen pre) base w (zlen pre + zlen (mjoin cs)) sep (done_ ++ rest ++ post2) (zlen done_) =
    Done (done_ ++ joined sep_text (number_text base ∘ be_val <$> cs) ++ post2, zlen done_ + zlen rest).
Proof using Hsep Hw Hbase.
  induction cs as [|c cs IH]; intros pre post done_ rest post2 Hb Hl Hp Hr.
  { apply nil_length_inv_z in Hr as ->. simpl. rewrite zlen_nil. do 2 f_equal. lia. }
  apply Forall_cons_iff in Hl as [Hlc Hl']. apply Forall_cons_iff in Hp as [Hpc Hp']. cbn [length b2a_write].
  change (mjoin (c :: cs)) with (c ++ mjoin cs) in *. rewrite <- app_assoc in *.
  pose proof (zlen_nonneg (text c)). pose proof (zlen_nonneg sep_text). destruct cs as [|c' cs].
  - change (joined sep_text (number_text base ∘ be_val <$> [c])) with (text c) in *.
    rewrite (b2a_piece pre c _ (zlen done_) done_ rest post2) by done. dred. simpl mjoin. rewrite app_nil_r, Hlc, Z.eqb_refl. simpl. by rewrite Hr.
  - change (number_text base ∘ be_val <$> c :: c' :: cs) with (text c :: (number_text base ∘ be_val <$> c' :: cs)) in *.
    set (ts := number_text base ∘ be_val <$> c' :: cs) in *.
    assert (Ej : joined sep_text (text c :: ts) = text c ++ sep_text ++ joined sep_text ts) by done. rewrite Ej in *. rewrite !zlen_app in Hr. rewrite (zlen_app c).
    pose proof (zlen_nonneg (joined sep_text ts)).
    rewrite <- (take_drop (Z.to_nat (zlen (text c))) rest), <- app_assoc. set (r1 := take _ rest). set (r2 := drop _ rest).
    assert (Hr1 : zlen r1 = zlen (text c)) by (apply zlen_take; lia). assert (Hr2 : zlen r2 = zlen rest - zlen (text c)) by (apply zlen_drop; lia).
    rewrite (b2a_piece pre c _ (zlen done_) done_ r1) by done. dred.
    assert (0 < zlen (mjoin (c' :: cs))).
    { apply Forall_cons_iff in Hl' as [Hlc' _]. change (mjoin (c' :: cs)) with (c' ++ mjoin cs). rewrite zlen_app. pose proof (zlen_nonneg (mjoin cs)). lia. }
    rewrite (proj2 (Z.eqb_neq (zlen pre + w) _)) by lia. rewrite (ds_bytes_str _ _ Hsep). dred.
    rewrite <- (take_drop (Z.to_nat (zlen sep_text)) r2), <- app_assoc. set (s1 := take _ r2). set (s2 := drop _ r2).
    assert (Hs1 : zlen s1 = zlen sep_text) by (apply zlen_take; lia). assert (Hs2 : zlen s2 = zlen r2 - zlen sep_text) by (apply zlen_drop; lia).
    rewrite (app_assoc done_ (text c)), <- (zlen_app done_ (text c)), (wrn_over (done_ ++ text c) s1) by done. dred. rewrite (str_len _ _ Hsep).
    replace ((done_ ++ text c) ++ sep_text ++ s2 ++ post2) with (((done_ ++ text c) ++ sep_text) ++ s2 ++ post2) by (by rewrite <- app_assoc).
    rewrite <- (zlen_app (done_ ++ text c)).
    replace (pre ++ c ++ mjoin (c' :: cs) ++ post) with ((pre ++ c) ++ mjoin (c' :: cs) ++ post) by (by rewrite <- app_assoc).
    replace (zlen pre + w) with (zlen (pre ++ c)) by (rewrite zlen_app; lia).
    replace (zlen pre + (zlen c + zlen (mjoin (c' :: cs)))) with (zlen (pre ++ c) + zlen (mjoin (c' :: cs))) by (rewrite zlen_app; lia).
    rewrite IH; [|by rewrite <- app_assoc|done|done|fold ts; lia]. fold ts. rewrite !zlen_app, <- !app_assoc. do 2 f_equal. lia.
Qed.
End texts.

(** *** [binary-to-ascii] *)
Lemma pieces_zlen n w l : 0 <= w -> zlen l = Z.of_nat n * w -> Forall (fun c => zlen c = w) (pieces n (Z.to_nat w) l).
Proof.
  intros Hw Hl. assert (El : length l = (n * Z.to_nat w)%nat) by (unfold zlen in Hl; nia).
  eapply Forall_impl; [|by apply pieces_width]. intros c Hc. simpl in Hc. unfold zlen. lia.
Qed.
Lemma b2a_string_ok base w sep st d l n : str sep st -> str d l -> 2 <= base <= 16 -> w = 8 \/ w = 16 \/ w = 32 ->
  zlen l = Z.of_nat n * (w / 8) -> Forall (fun c => plain base (be_val c)) (pieces n (Z.to_nat (w / 8)) l) ->
  let t := joined st (number_text base ∘ be_val <$> pieces n (Z.to_nat (w / 8)) l) in
  bytes t -> zlen t < 2 ^ 32 -> exists x, b2a_string base w sep d = Done (Some x) /\ str x t.
Proof.
  intros Hs Hd Hbase Hw Hl Hp t Hbt Ht. set (len := w / 8) in *. assert (Hlen : len = 1 \/ len = 2 \/ len = 4) by (unfold len; destruct Hw as [->|[->| ->]]; auto).
  set (cs := pieces n (Z.to_nat len) l) in *. assert (Hcs : Forall (fun c => zlen c = len) cs) by (apply pieces_zlen; [lia|done]).
  assert (Hj : mjoin cs = l) by (apply pieces_join; unfold zlen in Hl; nia). pose proof (length_pieces n (Z.to_nat len) l) as Hn. fold cs in Hn.
  unfold b2a_string. fold len. replace ((w =? 8) || (w =? 16) || (w =? 32)) with true by (destruct Hw as [->|[->| ->]]; done). simpl negb. cbv iota.
  rewrite (str_len _ _ Hd). replace (zlen l mod len) with 0 by (rewrite Hl; symmetry; apply Z.mod_mul; lia). simpl negb. cbv iota.
  replace (Z.to_nat (zlen l / len)) with n by (rewrite Hl, Z.div_mul; lia).
  destruct Hd as (Hb & _ & _ & post & E & _). rewrite E in *. rewrite <- Hj in *.
  pose proof (b2a_count_ok base len sep st Hs Hlen Hbase cs [] post 0 Hb Hcs Hp ltac:(lia) Ht) as Ec.
  change (zlen (@nil Z)) with 0 in Ec. cbn [app] in Ec. rewrite !Z.add_0_l, Hn in Ec. rewrite Ec. dred. fold t.
  pose proof (zlen_nonneg t) as Ht0. rewrite allocate_split by lia.
  replace (Z.to_nat (zlen t + 1)) with (Z.to_nat (zlen t) + 1)%nat by lia. rewrite replicate_add, <- app_assoc.
  pose proof (b2a_write_ok base len sep st Hs Hlen Hbase cs [] post [] (replicate (Z.to_nat (zlen t)) 0) (replicate 1 0 ++ replicate 4 0) Hb Hcs Hp) as Ew.
  change (zlen (@nil Z)) with 0 in Ew. cbn [app] in Ew. rewrite !Z.add_0_l, Hn in Ew. rewrite Ew by (by rewrite zlen_blank). dred. fold t.
  rewrite zlen_blank by done. rewrite wr_wrn, (wrn_over t) by done. dred. eexists. split; [reflexivity|]. split_and!; simpl.
  - apply Forall_app. split; [done|by repeat constructor].
  - done.
  - done.
  - eexists. split; [reflexivity|]. intros _. by eexists.
Qed.
Lemma b2a_string_odd base w sep d l : str d l -> (w = 8 \/ w = 16 \/ w = 32 -> zlen l mod (w / 8) <> 0) -> b2a_string base w sep d = Done None.
Proof.
  intros Hd Hw. unfold b2a_string. rewrite (str_len _ _ Hd). destruct ((w =? 8) || (w =? 16) || (w =? 32)) eqn:Ew; [|done]. simpl.
  rewrite (proj2 (Z.eqb_neq _ 0)); [done|]. apply Hw. zbool. lia.
Qed.
End convert.
