(* ===== verification/EvalRef.v ===== *)
(** * What an expression means

    A reference semantics for the expressions without calls, classes, regular
    expressions and lists of domain names: values are booleans, lists of bytes
    and numbers, and there is no state, no memory and no fuel.  The evaluators
    of Eval.v, given fuel in proportion to the height of the expression, return
    exactly this value and change nothing but the log. *)

From stdpp Require Import base tactics list numbers gmap.
From S2P Require Import Prelude Array Convert Name Expr Eval EvalStr.

#[local] Open Scope Z_scope.

(** ** Values *)
Inductive value := VBool (b : bool) | VData (l : list Z) | VNum (n : Z) | VFun (f : nat).
#[local] Instance value_eq_dec : EqDecision value.
Proof. solve_decision. Defined.

Definition contents (d : data_string) : list Z := take (Z.to_nat (d_len d)) (default [] (d_buf d)).
Definition value_of (v : binding_value) : value :=
  match v with
  | binding_boolean b => VBool b
  | binding_data d => VData (contents d)
  | binding_numeric n => VNum n
  | binding_function f _ _ => VFun f
  end.

(** Up to the first NUL. *)
Fixpoint text_before_nul (l : list Z) : list Z :=
  match l with [] => [] | c :: r => if c =? 0 then [] else c :: text_before_nul r end.
Definition upper (c : Z) : Z := if (97 <=? c) && (c <=? 122) then c - 32 else c.
(** The packets around a relayed packet, from the inner to the outer ones. *)
Fixpoint containers (p : packet) : list packet :=
  match p_container p with None => [] | Some q => q :: containers q end.
(** Where the options of the n-th relay are looked up; 0 is the packet of the
    client; a number above the hop limit means the outermost relay if there are
    not as many. *)
Definition relay_context (c : context) (n : Z) : option context :=
  if n =? 0 then Some c
  else
    q ← p ← packet_of c; match containers p !! (Z.to_nat n - 1)%nat with Some q => Some q | None => if n <=? MAX_V6RELAY_HOPS then None else last (containers p) end;
    Some (mk_context (Some q) (lease_of c) (client_of c) (Some (p_options q)) (cfg_options c)).

Section reference.
Context `{Surroundings} (ch : list scope) (os : list option_map).

Definition variable (n : list Z) : option binding_value := mjoin (find_binding ch n).

(** An option that has its value; options with an expression are left out. *)
Definition option_value (o : option_ref) (opts : option nat) : outcome (option (list Z)) :=
  match opts with
  | None => Done None
  | Some i =>
      match os !! i with
      | None => Fault
      | Some m =>
          match (if o_lookup o then m !! (o_universe o, o_code o) else None) with
          | None => Done None
          | Some oc => match d_buf (oc_data oc) with Some _ => Done (Some (contents (oc_data oc))) | None => Fault end
          end
      end
  end.

Definition hardware_value (c : context) : option (list Z) :=
  match client_of c with
  | Some cl => Some (c_hardware cl)
  | None =>
      match packet_of c ≫= p_raw with
      | Some raw =>
          let hlen := nth (Z.to_nat RAW_HLEN) raw 0 in
          if 16 <? hlen then None
          else Some (nth (Z.to_nat RAW_HTYPE) raw 0 :: take (Z.to_nat hlen) (drop (Z.to_nat RAW_CHADDR) raw))
      | None => l_hardware <$> lease_of c
      end
  end.
(** The part of the packet that there is, null if it starts after the end. *)
Definition packet_value (p : packet) (raw : list Z) (o n : Z) : outcome (option (list Z)) :=
  if p_length p <=? o then Done None
  else if 2 ^ 64 <=? o + n then Fault
  else Done (Some (take (Z.to_nat (Z.min n (p_length p - o))) (drop (Z.to_nat o) raw))).
Definition field_value (c : context) (at_ size : Z) : outcome (option (list Z)) :=
  match packet_of c with
  | None => Done None
  | Some p =>
      match p_raw p with
      | None => Fault
      | Some raw => Done (match text_before_nul (take (Z.to_nat size) (drop (Z.to_nat at_) raw)) with [] => None | t => Some t end)
      end
  end.
Definition extract_value (w : Z) (d : option (list Z)) : outcome (option Z) :=
  match d with
  | None => Done None
  | Some l =>
      if zlen l <? w then if w =? 1 then Fault else Done None
      else Done (Some (be_val (take (Z.to_nat w) l)))
  end.
Definition reverse_value (w : Z) (l : list Z) : outcome (option (list Z)) :=
  if w =? 0 then Fault
  else if zlen l mod w =? 0 then Done (Some (reversed (Z.to_nat (zlen l / w)) (Z.to_nat w) l)) else Done None.
(** Numbers that are not below some power of the base that fits 32 bits are
    left out: [converted_length] gives them one digit too many. *)
Definition short_text (base n : Z) : bool := existsb (fun j => (base ^ Z.of_nat j <? 2 ^ 32) && (n <? base ^ Z.of_nat j)) (seq 1 31).
Definition b2a_value (base w : Z) (sep l : list Z) : outcome (option (list Z)) :=
  if ((w =? 8) || (w =? 16) || (w =? 32)) && (zlen l mod (w / 8) =? 0) then
    let ps := pieces (Z.to_nat (zlen l / (w / 8))) (Z.to_nat (w / 8)) l in
    let t := joined sep (number_text base ∘ be_val <$> ps) in
    if (2 <=? base) && (base <=? 16) && forallb (fun p => short_text base (be_val p)) ps && (zlen t <? 2 ^ 32)
    then Done (Some t) else Fault
  else Done None.

Definition mapped {A B} (f : A -> B) (m : outcome (option A)) : outcome (option B) := x ← m; Done (match x with Some x => Some (f x) | None => None end).
Definition any_of (e : expression) (b : outcome (option bool)) (d : outcome (option (list Z))) (n : outcome (option Z))
    : outcome (option value) :=
  match e with
  | expr_variable_reference x => Done (value_of <$> variable x)
  | _ =>
      if is_boolean_expression e then mapped VBool b
      else if is_numeric_expression e then mapped VNum n
      else if is_data_expression e then mapped VData d
      else Fault
  end.

(** Booleans, data and numbers; [None] is null, [Fault] stands for what the
    evaluator does not define. *)
Fixpoint dval (c : context) (e : expression) {struct e} : outcome (option (list Z)) :=
  match e with
  | expr_substring e o n =>
      d ← dval c e; o ← nval c o; n ← nval c n;
      Done (match d, o, n with Some l, Some o, Some n => Some (take (Z.to_nat n) (drop (Z.to_nat o) l)) | _, _, _ => None end)
  | expr_suffix e n =>
      d ← dval c e; n ← nval c n;
      Done (match d, n with Some l, Some n => Some (drop (Z.to_nat (zlen l - n)) l) | _, _ => None end)
  | expr_lcase e => mapped (fmap mklower) (dval c e)
  | expr_ucase e => mapped (fmap upper) (dval c e)
  | expr_option o => option_value o (in_options c)
  | expr_config_option o => option_value o (cfg_options c)
  | expr_hardware => Done (hardware_value c)
  | expr_packet o n =>
      match packet_of c with
      | None => Done None
      | Some p =>
          match p_raw p with
          | None => Done None
          | Some raw => o ← nval c o; n ← nval c n; match o, n with Some o, Some n => packet_value p raw o n | _, _ => Done None end
          end
      end
  | expr_const_data d => Done (Some (contents d))
  | expr_concat x y =>
      d ← dval c x; o ← dval c y;
      match d, o with
      | Some l, Some k => if zlen l + zlen k <? 2 ^ 32 then Done (Some (l ++ k)) else Fault
      | _, _ => Done None
      end
  | expr_encode_int8 e => mapped (be_bytes 1) (nval c e)
  | expr_encode_int16 e => mapped (be_bytes 2) (nval c e)
  | expr_encode_int32 e => mapped (be_bytes 4) (nval c e)
  | expr_binary_to_ascii b w s d =>
      b ← nval c b; w ← nval c w; s ← dval c s; d ← dval c d;
      match b, w, s, d with Some b, Some w, Some s, Some l => b2a_value b w s l | _, _, _, _ => Done None end
  | expr_reverse w d => w ← nval c w; d ← dval c d; match w, d with Some w, Some l => reverse_value w l | _, _ => Done None end
  | expr_leased_address => Done (l_ip_addr <$> lease_of c)
  | expr_pick_first_value car cdr =>
      x ← dval c car;
      match x with Some l => Done (Some l) | None => match cdr with Some e => dval c e | None => Done None end end
  | expr_host_decl_name => Done (lease_of c ≫= l_host)
  | expr_null => Done None
  | expr_variable_reference n => Done (match variable n with Some (binding_data d) => Some (contents d) | _ => None end)
  | expr_filename => field_value c RAW_FILE 128
  | expr_sname => field_value c RAW_SNAME 64
  | expr_v6relay n e =>
      n ← nval c n;
      match n ≫= relay_context c with Some c' => dval c' e | None => Done None end
  | _ => Fault
  end
with nval (c : context) (e : expression) {struct e} : outcome (option Z) :=
  match e with
  | expr_extract_int8 e => d ← dval c e; extract_value 1 d
  | expr_extract_int16 e => d ← dval c e; extract_value 2 d
  | expr_extract_int32 e => d ← dval c e; extract_value 4 d
  | expr_const_int n => Done (Some n)
  | expr_lease_time =>
      Done (match lease_of c with Some l => if l_ends l <? cur_time then None else Some (l_ends l - cur_time) | None => None end)
  | expr_variable_reference n => Done (match variable n with Some (binding_numeric i) => Some i | _ => None end)
  | expr_arith op l r => x ← nval c l; y ← nval c r; Done (x ≫= fun x => y ≫= arith_value op x)
  | expr_client_state => Done (c_state <$> client_of c)
  | _ => Fault
  end.
Fixpoint bval (c : context) (e : expression) {struct e} : outcome (option bool) :=
  match e with
  | expr_equal l r =>
      x ← any_of l (bval c l) (dval c l) (nval c l);
      y ← any_of r (bval c r) (dval c r) (nval c r);
      Done (Some (bool_decide (x = y)))
  | expr_not_equal l r =>
      x ← any_of l (bval c l) (dval c l) (nval c l);
      y ← any_of r (bval c r) (dval c r) (nval c r);
      Done (Some (bool_decide (x <> y)))
  | expr_and l r => x ← bval c l; if default false x then bval c r else Done None
  | expr_or l r =>
      x ← bval c l;
      if default false x then Done (Some true)
      else y ← bval c r; Done (match x, y with None, None => None | _, _ => Some (default false x || default false y) end)
  | expr_not e => mapped negb (bval c e)
  | expr_exists o => x ← option_value o (in_options c); Done (Some (bool_decide (x <> None)))
  | expr_known => Done (p_known <$> packet_of c)
  | expr_static => Done (Some (default false (l_static <$> lease_of c)))
  | expr_variable_exists n => Done (Some (bool_decide (value_of <$> variable n <> None)))
  | expr_variable_reference n => Done (match variable n with Some (binding_boolean b) => Some b | _ => None end)
  | _ => Fault
  end.
Definition meaning (c : context) (e : expression) : outcome (option value) := any_of e (bval c e) (dval c e) (nval c e).
End reference.

(** The depth of the calls. *)
Fixpoint height (e : expression) : nat :=
  match e with
  | expr_equal l r | expr_not_equal l r | expr_and l r | expr_or l r | expr_suffix l r | expr_packet l r | expr_concat l r
  | expr_reverse l r | expr_v6relay l r | expr_arith _ l r => S (Nat.max (height l) (height r))
  | expr_not e | expr_lcase e | expr_ucase e | expr_encode_int8 e | expr_encode_int16 e | expr_encode_int32 e | expr_extract_int8 e
  | expr_extract_int16 e | expr_extract_int32 e => S (height e)
  | expr_substring e o n => S (Nat.max (height e) (Nat.max (height o) (height n)))
  | expr_binary_to_ascii a b c d => S (Nat.max (Nat.max (height a) (height b)) (Nat.max (height c) (height d)))
  | expr_pick_first_value a d => S (Nat.max (height a) (match d with Some d => height d | None => 0%nat end))
  | _ => 1%nat
  end.

(** ** What the evaluators rely on *)
Definition ok_value (v : binding_value) : Prop :=
  match v with binding_data d => str d (contents d) | binding_numeric n => 0 <= n < 2 ^ 64 | _ => True end.
Definition ok_scopes (ch : list scope) : Prop := forall n v, find_binding ch n = Some (Some v) -> ok_value v.
Definition ok_options (os : list option_map) : Prop :=
  forall i m k oc, os !! i = Some m -> m !! k = Some oc -> d_buf (oc_data oc) <> None -> str (oc_data oc) (contents (oc_data oc)).
(** The fixed part of a packet is always there, the length is that of what was received. *)
Definition ok_packet (p : packet) : Prop :=
  forall raw, p_raw p = Some raw -> bytes raw /\ 236 <= zlen raw /\ 0 <= p_length p <= zlen raw /\ zlen raw < 2 ^ 32.
Record ok_context `{Surroundings} (c : context) : Prop := {
  ok_packets : forall p, packet_of c = Some p -> ok_packet p /\ Forall ok_packet (containers p);
  ok_lease : forall l, lease_of c = Some l ->
    bytes (l_ip_addr l) /\ zlen (l_ip_addr l) < 2 ^ 32 /\ bytes (l_hardware l) /\ zlen (l_hardware l) < 2 ^ 32 /\ l_ends l - cur_time < 2 ^ 64 /\
    forall n, l_host l = Some n -> bytes n /\ zlen n < 2 ^ 32;
  ok_client : forall cl, client_of c = Some cl -> bytes (c_hardware cl) /\ zlen (c_hardware cl) < 2 ^ 32 /\ 0 <= c_state cl < 2 ^ 64 }.
(** The constants of an expression. *)
Fixpoint ok_constants (e : expression) : Prop :=
  match e with
  | expr_const_data d => str d (contents d)
  | expr_const_int n => 0 <= n < 2 ^ 64
  | expr_equal l r | expr_not_equal l r | expr_and l r | expr_or l r | expr_suffix l r | expr_packet l r | expr_concat l r
  | expr_reverse l r | expr_v6relay l r | expr_arith _ l r => ok_constants l /\ ok_constants r
  | expr_not e | expr_lcase e | expr_ucase e | expr_encode_int8 e | expr_encode_int16 e | expr_encode_int32 e | expr_extract_int8 e
  | expr_extract_int16 e | expr_extract_int32 e => ok_constants e
  | expr_substring e o n => ok_constants e /\ ok_constants o /\ ok_constants n
  | expr_binary_to_ascii a b c d => ok_constants a /\ ok_constants b /\ ok_constants c /\ ok_constants d
  | expr_pick_first_value a d => ok_constants a /\ match d with Some d => ok_constants d | None => True end
  | _ => True
  end.

(** ** Computations that only log *)
Definition logs (l : list event) (s : state) : state :=
  mk_state (s_locals s) (s_root s) (s_options s) (s_member s) (s_class s) (s_given_star s) (s_lease_star s) (s_log s ++ l).
Lemma logs_nil s : logs [] s = s.
Proof. destruct s. unfold logs. simpl. by rewrite app_nil_r. Qed.
Lemma logs_logs k l s : logs k (logs l s) = logs (l ++ k) s.
Proof. unfold logs. simpl. by rewrite app_assoc. Qed.

Section quiet.
Context `{HostOrder} `{Surroundings} (ch : list scope) (os : list option_map).

Definition quiet {A} (m : ev A) (a : A) : Prop :=
  forall s, chain s = ch -> s_options s = os -> exists l, m s = Done (logs l s, a).

Lemma quiet_ret {A} (a : A) : quiet (ret a) a.
Proof. intros s _ _. exists []. by rewrite logs_nil. Qed.
Lemma quiet_bind {A B} (m : ev A) (k : A -> ev B) a b : quiet m a -> quiet (k a) b -> quiet (bind m k) b.
Proof.
  intros Hm Hk s Hc Ho. destruct (Hm s Hc Ho) as [l E]. unfold bind. rewrite E. dred.
  destruct (Hk (logs l s) Hc Ho) as [l' E']. exists (l ++ l'). by rewrite E', logs_logs.
Qed.
Lemma quiet_lift {A} (m : outcome A) a : m = Done a -> quiet (lift m) a.
Proof. intros -> s _ _. exists []. by rewrite logs_nil. Qed.
Lemma quiet_get {B} (k : state -> ev B) b : (forall s, chain s = ch -> s_options s = os -> quiet (k s) b) -> quiet (bind get k) b.
Proof. intros Hk s Hc Ho. unfold bind, get. dred. by apply Hk. Qed.
Lemma quiet_log x : quiet (log_error x)%ev tt.
Proof. intros s _ _. by exists [x]. Qed.
Lemma quiet_log_ret {A} x (a : A) : quiet (log_error x;;; ret a)%ev a.
Proof. eapply quiet_bind; [apply quiet_log|apply quiet_ret]. Qed.
End quiet.

(** ** Single operations *)
Lemma str_contents d l : str d l -> contents d = l.
Proof. intros (_ & _ & El & post & E & _). unfold contents. rewrite E, El. unfold zlen. by rewrite Nat2Z.id, take_app_length. Qed.

Lemma before_nul_span l r : span (Z.eqb 0) (l ++ 0 :: r) = Done (zlen (text_before_nul l)).
Proof.
  induction l as [|c l IH]; [done|]. cbn [app span text_before_nul]. rewrite (Z.eqb_sym 0 c). destruct (c =? 0); [done|].
  rewrite IH. dred. by rewrite zlen_cons.
Qed.
Lemma before_nul_take l : take (Z.to_nat (zlen (text_before_nul l))) l = text_before_nul l.
Proof.
  unfold zlen. rewrite Nat2Z.id. induction l as [|c l IH]; [done|]. cbn [text_before_nul]. destruct (c =? 0); [done|]. simpl. by rewrite IH.
Qed.

Definition rep (x : binding_value) (v : value) : Prop :=
  match x, v with
  | binding_boolean a, VBool b => a = b
  | binding_data d, VData l => str d l
  | binding_numeric n, VNum m => n = m /\ 0 <= n < 2 ^ 64
  | binding_function f _ _, VFun g => f = g
  | _, _ => False
  end.
Definition represents (r : bool * option binding_value) (v : option value) : Prop :=
  match v with None => r = (false, None) | Some v => exists x, r = (true, Some x) /\ rep x v end.

Lemma ok_value_rep v : ok_value v -> rep v (value_of v).
Proof. destruct v; simpl; auto. Qed.

Lemma eqb_decide (a b : Z) : (a =? b) = bool_decide (a = b).
Proof. destruct (Z.eqb_spec a b); [by rewrite bool_decide_eq_true_2|by rewrite bool_decide_eq_false_2]. Qed.
Lemma decide_ext (P Q : Prop) `{Decision P} `{Decision Q} : (P <-> Q) -> bool_decide P = bool_decide Q.
Proof. apply bool_decide_ext. Qed.

Lemma values_equal_ok x y v w : rep x v -> rep y w -> values_equal x y = Done (bool_decide (v = w)).
Proof.
  intros Hx Hy. destruct x as [a|d|n|f ps ss], v as [a'|l|n'|f']; try done; destruct y as [b|e|m|g qs ts], w as [b'|k|m'|g']; try done; simpl in *; subst.
  - f_equal. destruct a', b'; done.
  - rewrite (str_len _ _ Hx), (str_len _ _ Hy). destruct (Z.eqb_spec (zlen l) (zlen k)) as [Ez|Nz].
    + rewrite (ds_bytes_str _ _ Hx), (load_str _ _ Hy). dred. f_equal. apply bool_decide_ext. naive_solver.
    + f_equal. rewrite bool_decide_eq_false_2; [done|]. by intros [= ->].
  - destruct Hx as [-> _], Hy as [-> _]. rewrite eqb_decide. f_equal. apply bool_decide_ext. naive_solver.
  - f_equal. apply bool_decide_ext. naive_solver.
Qed.
Lemma expressions_equal_ok x y v w : represents x v -> represents y w -> expressions_equal x y = Done (bool_decide (v = w)).
Proof.
  intros Hx Hy. destruct v as [v|], w as [w|]; simpl in Hx, Hy.
  - destruct Hx as (a & -> & Ha), Hy as (b & -> & Hb). simpl. rewrite (values_equal_ok a b v w Ha Hb). f_equal. apply bool_decide_ext. naive_solver.
  - destruct Hx as (a & -> & Ha). by subst.
  - destruct Hy as (b & -> & Hb). by subst.
  - by subst.
Qed.

(** The relays. *)
Lemma containers_eq p : containers p = match p_container p with None => [] | Some q => q :: containers q end.
Proof. by destruct p. Qed.
Lemma climb_ok n : forall p opts i, 0 <= i -> length (containers p) = n ->
  exists q o j, climb p opts i = (q, o, j) /\
    ((i <= Z.of_nat n /\ j = 0 /\ (i = 0 /\ q = p /\ o = opts \/ containers p !! (Z.to_nat i - 1)%nat = Some q /\ 0 < i /\ o = Some (p_options q))) \/
     (Z.of_nat n < i /\ 0 < j /\ (containers p = [] /\ q = p /\ o = opts \/ last (containers p) = Some q /\ o = Some (p_options q)))).
Proof.
  induction n as [|n IH]; intros p opts i Hi Hn; rewrite containers_eq in *; destruct p as [id kn raw len os' cont]; cbn [climb p_container] in *;
    (destruct (Z.eqb_spec i 0) as [->|Hi0]; [eexists _, _, _; split; [reflexivity|]; left; split_and!; [lia|done|by left]|]);
    destruct cont as [q|]; try done; cbn [length] in Hn.
  - eexists _, _, _. split; [reflexivity|]. right. split_and!; [lia|lia|by left].
  - destruct (IH q (Some (p_options q)) (i - 1) ltac:(lia) ltac:(lia)) as (q' & o & j & E & Hc). exists q', o, j. split; [done|].
    replace (Z.to_nat i - 1)%nat with (Z.to_nat (i - 1)) by lia. destruct Hc as [(Hle & -> & Hq)|(Hlt & Hj & Hq)].
    + left. split_and!; [lia|done|]. right. destruct Hq as [(-> & -> & ->)|(Hq & Hi1 & ->)]; [split_and!; [done|lia|done]|].
      split_and!; [|lia|done]. destruct (Z.to_nat (i - 1)) as [|m] eqn:Em; [lia|]. simpl. by replace m with (S m - 1)%nat by lia.
    + right. split_and!; [lia|done|]. right. destruct Hq as [(E0 & -> & ->)|(Hq & ->)]; [by rewrite E0|]. by rewrite last_cons, Hq.
Qed.

Lemma relay_cases p opts n q o j : 0 < n -> p_container p <> None -> climb p opts n = (q, o, j) ->
  let found := match containers p !! (Z.to_nat n - 1)%nat with Some q => Some q | None => if n <=? MAX_V6RELAY_HOPS then None else last (containers p) end in
  if (n <=? MAX_V6RELAY_HOPS) && negb (j =? 0) then found = None
  else found = Some q /\ o = Some (p_options q) /\ q ∈ containers p.
Proof.
  intros Hn Hp Ec. destruct (climb_ok _ p opts n ltac:(lia) eq_refl) as (q' & o' & j' & E & Hj). rewrite Ec in E. injection E as <- <- <-. cbv zeta.
  destruct Hj as [(Hle & -> & [[-> _]|(Hq & _ & ->)])|(Hlt & Hj & Hq)].
  - lia.
  - rewrite andb_false_r, Hq. split_and!; [done|done|]. by eapply list_elem_of_lookup_2.
  - rewrite (lookup_ge_None_2 (containers p)) by lia. rewrite (proj2 (Z.eqb_neq j 0)), andb_true_r by lia. destruct (n <=? MAX_V6RELAY_HOPS); [done|].
    destruct Hq as [(E0 & _)|(Hq & ->)]; [rewrite containers_eq in E0; by destruct (p_container p)|].
    split_and!; [done|done|]. apply last_Some in Hq as [k ->]. set_solver.
Qed.
Lemma containers_tail n : forall p, length (containers p) = n -> forall q, q ∈ containers p -> exists k, containers p = k ++ q :: containers q.
Proof.
  induction n as [|n IH]; intros p Hn q Hq; rewrite containers_eq in *; destruct (p_container p) as [r|]; try done; [by apply not_elem_of_nil in Hq|].
  apply elem_of_cons in Hq as [->|Hq]; [by exists []|]. destruct (IH r) with (q := q) as [k ->]; [by injection Hn|done|]. by exists (r :: k).
Qed.

Section operations.
Context `{HostOrder} `{Surroundings} (ch : list scope) (os : list option_map) (Hch : ok_scopes ch) (Hos : ok_options os).
Abbreviation quiet := (quiet ch os).

Lemma variable_state s n : chain s = ch -> find_binding (chain s) n = match variable ch n with Some v => Some (Some v) | None => find_binding ch n end.
Proof. intros ->. unfold variable. by destruct (find_binding ch n) as [[v|]|]. Qed.
Lemma variable_ok n v : variable ch n = Some v -> ok_value v.
Proof using Hch. unfold variable. destruct (find_binding ch n) as [[w|]|] eqn:E; try done. intros [= ->]. by eapply Hch. Qed.

Lemma option_ok (E : evaluators) c o opts v : option_value os o (Some opts) = Done v ->
  match v with
  | Some l => exists d, quiet (get_option E c null_string opts o) (true, d) /\ str d l
  | None => quiet (get_option E c null_string opts o) (false, null_string)
  end.
Proof using Hos.
  unfold option_value. destruct (os !! opts) as [m|] eqn:Em; [|done]. intros Hv.
  assert (Hl : forall b k, quiet (k (if o_lookup o then m !! (o_universe o, o_code o) else None)) b ->
    quiet (s <~ get; oc <~ lift (lookup_option o opts s); k oc)%ev (b : bool * data_string)).
  { intros b k Hk. apply quiet_get. intros s _ Eo. eapply quiet_bind; [|exact Hk]. apply quiet_lift. unfold lookup_option. by rewrite Eo, Em. }
  unfold get_option. destruct (if o_lookup o then m !! (o_universe o, o_code o) else None) as [oc|] eqn:Eoc.
  - destruct (d_buf (oc_data oc)) as [b|] eqn:Eb; [|done]. injection Hv as <-. exists (oc_data oc). split.
    + apply Hl. unfold evaluate_option_cache. rewrite Eb. apply quiet_ret.
    + destruct (o_lookup o); [|done]. eapply Hos; [done|done|]. by rewrite Eb.
  - injection Hv as <-. apply Hl. apply quiet_ret.
Qed.

Definition data_is (m : ev (bool * data_string)) (v : option (list Z)) : Prop :=
  match v with Some l => exists d, quiet m (true, d) /\ str d l | None => quiet m (false, null_string) end.

Lemma data_new b t v : v = Some b -> bytes b -> zlen b < 2 ^ 32 -> data_is (ret (true, ds_new b t)) v.
Proof. intros -> Hb Hl. exists (ds_new b t). split; [apply quiet_ret|by apply str_new]. Qed.

Lemma short_part l o n : bytes l -> zlen l < 2 ^ 32 ->
  bytes (take n (drop o l)) /\ zlen (take n (drop o l)) < 2 ^ 32.
Proof. intros Hb Hl. split; [by apply Forall_take, Forall_drop|]. unfold zlen in *. rewrite length_take, length_drop. lia. Qed.

Lemma hardware_ok c : ok_context c -> data_is (hardware c null_string) (hardware_value c).
Proof.
  intros Hc. unfold hardware, hardware_value. destruct (client_of c) as [cl|] eqn:Ecl.
  - destruct (ok_client c Hc cl Ecl) as (Hb & Hl & _). exists (mk_ds (Some (c_hardware cl)) (zlen (c_hardware cl)) false). split; [apply quiet_ret|].
    split_and!; [done..|]. exists []. by rewrite app_nil_r.
  - destruct (packet_of c) as [p|] eqn:Ep; cbn [mbind option_bind].
    + destruct (p_raw p) as [raw|] eqn:Er.
      * destruct (ok_packets c Hc p Ep) as [Hp _]. destruct (Hp raw Er) as (Hb & Hl & _ & Hs).
        assert (Hrd : forall i, 0 <= i < 3 -> rd raw i = Done (nth (Z.to_nat i) raw 0)) by (intros i Hi; apply rd_nth; lia).
        pose proof (nth_bytes raw (Z.to_nat RAW_HLEN) Hb) as Hhl. pose proof (nth_bytes raw (Z.to_nat RAW_HTYPE) Hb) as Hht. unfold byte in Hhl.
        destruct (Z.ltb_spec 16 (nth (Z.to_nat RAW_HLEN) raw 0)) as [Hx|Hx].
        -- eapply quiet_bind; [apply quiet_lift, Hrd; done|]. cbv beta. rewrite (proj2 (Z.ltb_lt _ _) Hx). apply quiet_log_ret.
        -- set (a := take (Z.to_nat (nth (Z.to_nat RAW_HLEN) raw 0)) (drop (Z.to_nat RAW_CHADDR) raw)).
           exists (ds_new (nth (Z.to_nat RAW_HTYPE) raw 0 :: a) false). split.
           ++ eapply quiet_bind; [apply quiet_lift, Hrd; done|]. cbv beta. rewrite (proj2 (Z.ltb_ge _ _) Hx).
              eapply quiet_bind; [apply quiet_lift, Hrd; done|]. cbv beta. eapply quiet_bind; [|apply quiet_ret]. apply quiet_lift.
              rewrite rdn_in by (unfold RAW_CHADDR; lia). done.
           ++ apply str_new; [constructor; [done|by apply Forall_take, Forall_drop]|]. rewrite zlen_cons. unfold a, zlen. rewrite length_take, length_drop. lia.
      * destruct (lease_of c) as [l|] eqn:El; [|apply quiet_log_ret]. destruct (ok_lease c Hc l El) as (_ & _ & Hb & Hl & _). by apply data_new.
    + destruct (lease_of c) as [l|] eqn:El; [|apply quiet_log_ret]. destruct (ok_lease c Hc l El) as (_ & _ & Hb & Hl & _). by apply data_new.
Qed.

Lemma packet_part_ok p raw o n v : ok_packet p -> p_raw p = Some raw -> 0 <= o -> 0 <= n ->
  packet_value p raw o n = Done v -> data_is (packet_part p raw o n null_string) v.
Proof.
  intros Hp Er Ho Hn. destruct (Hp raw Er) as (Hb & _ & Hl & Hs). unfold packet_value, packet_part.
  destruct (Z.leb_spec (p_length p) o) as [Hlo|Hlo]; [intros [= <-]; rewrite (proj2 (Z.ltb_ge _ _)) by done; apply quiet_ret|].
  rewrite (proj2 (Z.ltb_lt _ _)) by done. destruct (Z.leb_spec (2 ^ 64) (o + n)) as [|Hon]; [done|]. intros [= <-].
  set (m := Z.min n (p_length p - o)).
  assert (Em : (if p_length p <? u64 (o + n) then u32 (p_length p - o) else u32 n) = m).
  { unfold u64, u32, m. rewrite (Z.mod_small (o + n)) by lia. zcase; rewrite Z.mod_small; lia. }
  rewrite Em. exists (ds_new (take (Z.to_nat m) (drop (Z.to_nat o) raw)) false). split.
  - eapply quiet_bind; [|apply quiet_ret]. apply quiet_lift. by rewrite rdn_in by lia.
  - destruct (short_part raw (Z.to_nat o) (Z.to_nat m) Hb Hs). by apply str_new.
Qed.

Lemma raw_field_ok c at_ size v : ok_context c -> 0 <= at_ -> 0 <= size -> at_ + size <= 236 ->
  field_value c at_ size = Done v -> data_is (raw_field c at_ size null_string) v.
Proof.
  intros Hc Ha Hs Has. unfold field_value, raw_field. destruct (packet_of c) as [p|] eqn:Ep; [|intros [= <-]; apply quiet_ret].
  destruct (p_raw p) as [raw|] eqn:Er; [|done]. destruct (ok_packets c Hc p Ep) as [Hp _]. destruct (Hp raw Er) as (Hb & Hl & _ & Hs32).
  set (f := take (Z.to_nat size) (drop (Z.to_nat at_) raw)). intros [= <-].
  assert (Hq : forall b, quiet (if zlen (text_before_nul f) =? 0 then ret (false, null_string)
      else ret (true, ds_new (take (Z.to_nat (zlen (text_before_nul f))) f) true)) b ->
    quiet (raw <~ lift (Done raw); f <~ lift (rdn raw at_ size); n <~ lift (strlen (f ++ [0]) 0);
      if n =? 0 then ret (false, null_string) else ret (true, ds_new (take (Z.to_nat n) f) true))%ev b).
  { intros b Hb'. eapply quiet_bind; [by apply quiet_lift|]. eapply quiet_bind; [apply quiet_lift; by rewrite rdn_in by lia|].
    eapply quiet_bind; [apply quiet_lift, (before_nul_span f [])|]. exact Hb'. }
  rewrite before_nul_take in Hq. destruct (short_part raw (Z.to_nat at_) (Z.to_nat size) Hb Hs32) as [Hfb Hfl]. fold f in Hfb, Hfl.
  pose proof (before_nul_take f) as Et. destruct (text_before_nul f) as [|x t] eqn:Ef.
  - apply Hq. apply quiet_ret.
  - exists (ds_new (x :: t) true). split; [|apply str_new; rewrite <- Et; [by apply Forall_take|]; unfold zlen in *; rewrite length_take; lia].
    apply Hq. rewrite (proj2 (Z.eqb_neq (zlen (x :: t)) 0)); [apply quiet_ret|]. rewrite zlen_cons. pose proof (zlen_nonneg t). lia.
Qed.

Lemma arith_range op x y v : 0 <= x < 2 ^ 64 -> 0 <= y < 2 ^ 64 -> arith_value op x y = Some v -> 0 <= v < 2 ^ 64.
Proof.
  intros Hx Hy. destruct op; simpl; try (intros [= <-]); try (apply Z.mod_pos_bound; lia).
  - destruct (Z.eqb_spec y 0); [done|]. intros [= <-]. split; [apply Z.div_pos; lia|]. apply Z.div_lt_upper_bound; nia.
  - destruct (Z.eqb_spec y 0); [done|]. intros [= <-]. pose proof (Z.mod_pos_bound x y). lia.
  - by apply land_range.
  - by apply lor_range.
  - by apply lxor_range.
Qed.
Lemma toupper_byte ch' : byte ch' -> byte (upper ch').
Proof. unfold byte, upper. intros Hb. destruct (Z.leb_spec 97 ch'), (Z.leb_spec ch' 122); simpl; lia. Qed.
Lemma mklower_byte ch' : byte ch' -> byte (mklower ch').
Proof. unfold byte, mklower. intros Hb. destruct (Z.leb_spec 65 ch'), (Z.leb_spec ch' 90); simpl; lia. Qed.

Lemma extract_value_ok w d v : w = 1 \/ w = 2 \/ w = 4 -> (forall l, d = Some l -> exists x, str x l) -> extract_value w d = Done v ->
  (forall n, v = Some n -> 0 <= n < 2 ^ 64) /\ (forall x l, d = Some l -> str x l -> extract_int w x = Done v) /\ (d = None -> v = None).
Proof.
  intros Hw Hd. unfold extract_value. destruct d as [l|]; [|intros [= <-]; by split_and!].
  destruct (Hd l eq_refl) as [x0 Hx0]. pose proof (str_bytes _ _ Hx0) as Hb.
  destruct (Z.ltb_spec (zlen l) w) as [Hl|Hl].
  - destruct (Z.eqb_spec w 1); [done|]. intros [= <-]. split_and!; [done| |done]. intros x ? [= <-] Hx. apply (extract_short x l); [done|lia|done].
  - intros [= <-]. split_and!; [|intros x ? [= <-] Hx; by apply extract_ok|done]. intros n [= <-].
    pose proof (be_val_bound (take (Z.to_nat w) l) ltac:(by apply Forall_take)) as Hv. rewrite zlen_take in Hv by lia.
    assert (2 ^ (8 * w) <= 2 ^ 64) by (apply Z.pow_le_mono_r; lia). lia.
Qed.
Lemma reverse_value_ok w d l v : 0 <= w -> str d l -> reverse_value w l = Done v ->
  exists x, reverse_string w d = Done x /\ match v with Some k => exists y, x = Some y /\ str y k | None => x = None end.
Proof.
  intros Hw Hd. unfold reverse_value. destruct (Z.eqb_spec w 0); [done|]. destruct (Z.eqb_spec (zlen l mod w) 0) as [Em|Em]; intros [= <-].
  - pose proof (zlen_nonneg l). destruct (reverse_string_ok d l w (Z.to_nat (zlen l / w)) Hd ltac:(lia)) as (y & Ey & Hy).
    + rewrite Z2Nat.id by (apply Z.div_pos; lia). pose proof (Z.div_mod (zlen l) w ltac:(lia)). lia.
    + exists (Some y). split; [done|]. by exists y.
  - exists None. split; [|done]. apply (reverse_string_odd d l); [done|lia|done].
Qed.
Lemma short_text_plain base n : short_text base n = true -> plain base n.
Proof.
  unfold short_text. rewrite existsb_exists. intros (j & _ & Hj). zbool. exists (Z.of_nat j). lia.
Qed.
Lemma number_text_bytes base n : 2 <= base <= 16 -> 0 <= n -> bytes (number_text base n).
Proof.
  intros Hb. unfold number_text. generalize 32%nat as f. intros f. revert n. induction f as [|f IH]; intros n Hn; [constructor|]. cbn [text_of].
  destruct (Z.ltb_spec n base); [apply Forall_singleton, hex_byte; lia|]. apply Forall_app. split; [apply IH, Z.div_pos; lia|].
  apply Forall_singleton, hex_byte. pose proof (Z.mod_pos_bound n base). lia.
Qed.
Lemma joined_bytes sep ts : bytes sep -> Forall bytes ts -> bytes (joined sep ts).
Proof.
  intros Hs. induction 1 as [|t ts Ht Hts IH]; [constructor|]. destruct ts as [|u ts]; [done|]. rewrite encoded_cons, !Forall_app. by split_and!.
Qed.
Lemma b2a_value_ok base w sep st d l v : str sep st -> str d l -> b2a_value base w st l = Done v ->
  exists x, b2a_string base w sep d = Done x /\ match v with Some k => exists y, x = Some y /\ str y k | None => x = None end.
Proof.
  intros Hs Hd. pose proof (str_bytes _ _ Hs) as Hbs. pose proof (str_bytes _ _ Hd) as Hb. unfold b2a_value.
  set (len := w / 8). destruct (((w =? 8) || (w =? 16) || (w =? 32)) && (zlen l mod len =? 0)) eqn:Ew.
  - apply andb_true_iff in Ew as [Ew Em]. assert (Hw : w = 8 \/ w = 16 \/ w = 32) by (zbool; lia). apply Z.eqb_eq in Em.
    set (ps := pieces (Z.to_nat (zlen l / len)) (Z.to_nat len) l). set (t := joined st (number_text base ∘ be_val <$> ps)).
    destruct ((2 <=? base) && (base <=? 16) && forallb (fun p => short_text base (be_val p)) ps && (zlen t <? 2 ^ 32)) eqn:Ec; [|done].
    rewrite !andb_true_iff in Ec. destruct Ec as [[[H2 H16] Hp] Ht]. intros [= <-]. apply Z.leb_le in H2, H16. apply Z.ltb_lt in Ht.
    pose proof (zlen_nonneg l). assert (Hlen : 0 < len) by (unfold len; destruct Hw as [->|[->| ->]]; done).
    rewrite forallb_forall in Hp.
    destruct (b2a_string_ok base w sep st d l (Z.to_nat (zlen l / len)) Hs Hd ltac:(lia) Hw) as (y & Ey & Hy).
    + fold len. rewrite Z2Nat.id by (apply Z.div_pos; lia). pose proof (Z.div_mod (zlen l) len ltac:(lia)). lia.
    + fold len ps. apply List.Forall_forall. intros p Hin. by apply short_text_plain, Hp.
    + fold len ps t. unfold t. apply joined_bytes; [done|]. apply Forall_fmap. eapply Forall_impl; [by apply pieces_bytes|].
      intros p Hpb. simpl. apply number_text_bytes; [lia|]. pose proof (be_val_bound p Hpb). lia.
    + done.
    + exists (Some y). split; [done|]. by exists y.
  - intros [= <-]. exists None. split; [|done]. apply (b2a_string_odd base w sep d l Hd). intros Hw. fold len.
    apply andb_false_iff in Ew as [Ew|Ew]; [zbool; lia|by apply Z.eqb_neq in Ew].
Qed.

(** ** All expressions *)
Definition has (r : bool * data_string) (v : option (list Z)) : Prop :=
  match v with Some l => exists x, r = (true, x) /\ str x l | None => r = (false, null_string) end.
Lemma data_is_has m v : data_is m v <-> exists r, quiet m r /\ has r v.
Proof.
  destruct v as [l|]; simpl; split.
  - intros (d & Hq & Hd). exists (true, d). split; [done|]. by exists d.
  - intros (r & Hq & d & -> & Hd). by exists d.
  - intros Hq. by exists (false, null_string).
  - by intros (r & Hq & ->).
Qed.
Lemma data_bind {A} (m : ev A) k a w : quiet m a -> data_is (k a) w -> data_is (bind m k) w.
Proof.
  intros Hm Hk. apply data_is_has in Hk as (r & Hk & Hr). apply data_is_has. exists r. split; [|done]. by eapply quiet_bind.
Qed.
Lemma data_bind_data m k v w : data_is m v -> (forall r, has r v -> data_is (k r) w) -> data_is (bind m k) w.
Proof. intros Hm Hk. apply data_is_has in Hm as (r & Hm & Hr). eapply data_bind; [done|by apply Hk]. Qed.
Lemma quiet_bind_data {B} m (k : _ -> ev B) v b : data_is m v -> (forall r, has r v -> quiet (k r) b) -> quiet (bind m k) b.
Proof. intros Hm Hk. apply data_is_has in Hm as (r & Hm & Hr). eapply quiet_bind; [done|by apply Hk]. Qed.
Lemma data_ret r v : has r v -> data_is (ret r) v.
Proof. intros Hr. apply data_is_has. exists r. split; [apply quiet_ret|done]. Qed.
Lemma data_log r v x : has r v -> data_is (log_error x;;; ret r)%ev v.
Proof. intros Hr. apply data_is_has. exists r. split; [apply quiet_log_ret|done]. Qed.

Definition children (e : expression) : list expression :=
  match e with
  | expr_equal l r | expr_not_equal l r | expr_and l r | expr_or l r | expr_suffix l r | expr_packet l r | expr_concat l r
  | expr_reverse l r | expr_v6relay l r | expr_arith _ l r => [l; r]
  | expr_not e | expr_lcase e | expr_ucase e | expr_encode_int8 e | expr_encode_int16 e | expr_encode_int32 e | expr_extract_int8 e
  | expr_extract_int16 e | expr_extract_int32 e => [e]
  | expr_substring e o n => [e; o; n]
  | expr_binary_to_ascii a b c d => [a; b; c; d]
  | expr_pick_first_value a (Some d) => [a; d]
  | expr_pick_first_value a None => [a]
  | _ => []
  end.

Definition boolean_result (v : option bool) : bool * option bool := match v with Some b => (true, Some b) | None => (false, None) end.
Definition B_ok fuel c e : Prop := forall v, bval ch os c e = Done v -> quiet (evaluate_boolean_expression (evaluators_at fuel) c e) (boolean_result v).
Definition D_ok fuel c e : Prop := forall v, dval ch os c e = Done v -> data_is (evaluate_data_expression (evaluators_at fuel) c null_string e) v.
Definition N_ok fuel c e : Prop := forall v, nval ch os c e = Done v ->
  (forall n, v = Some n -> 0 <= n < 2 ^ 64) /\ quiet (evaluate_numeric_expression (evaluators_at fuel) c e) v.
Definition A_ok fuel c e : Prop := forall v, meaning ch os c e = Done v ->
  exists r, quiet (evaluate_expression (evaluators_at fuel) c e) r /\ represents r v.
Definition all_ok fuel e : Prop := forall c, ok_context c -> B_ok fuel c e /\ D_ok fuel c e /\ N_ok fuel c e /\ A_ok fuel c e.

Lemma mapped_Done {A B} (f : A -> B) m v : mapped f m = Done v -> exists w, m = Done w /\ v = match w with Some x => Some (f x) | None => None end.
Proof. unfold mapped. intros Hv. apply bind_Done_inv in Hv as (w & E & [= <-]). by exists w. Qed.

Ltac undo H := let a := fresh "a" in let E := fresh "E" in apply bind_Done_inv in H as (a & E & H); cbv beta in H.

Lemma any_step fuel c e : B_ok fuel c e -> D_ok fuel c e -> N_ok fuel c e -> A_ok (S fuel) c e.
Proof using Hch.
  intros HB HD HN v Hv. change (evaluators_at (S fuel)) with (evaluators_step (evaluators_at fuel)). cbn [evaluate_expression evaluators_step].
  unfold meaning, any_of in Hv.
  assert (Hvar : forall n, e = expr_variable_reference n -> exists r, quiet (expression_step (evaluators_at fuel) c e) r /\ represents r v).
  { intros n ->. injection Hv as <-. cbn [expression_step]. pose proof (variable_ok n) as Hok. unfold variable in *.
    exists (match mjoin (find_binding ch n) with Some v => (true, Some v) | None => (false, None) end). split.
    - apply quiet_get. intros s -> _. destruct (find_binding ch n) as [[w|]|]; apply quiet_ret.
    - destruct (mjoin (find_binding ch n)) as [w|]; simpl; [|done]. exists w. split; [done|]. by apply ok_value_rep, Hok. }
  assert (Hb : (if is_boolean_expression e then mapped VBool (bval ch os c e) else if is_numeric_expression e then mapped VNum (nval ch os c e)
      else if is_data_expression e then mapped VData (dval ch os c e) else Fault) = Done v ->
    exists r, quiet (if is_boolean_expression e then
        '(status, b) <~ evaluate_boolean_expression (evaluators_at fuel) c e; ret (status, if status : bool then Some (binding_boolean (default false b)) else None)
      else if is_numeric_expression e then
        n <~ evaluate_numeric_expression (evaluators_at fuel) c e; ret (match n with Some n => (true, Some (binding_numeric n)) | None => (false, None) end)
      else if is_data_expression e then
        '(status, d) <~ evaluate_data_expression (evaluators_at fuel) c null_string e; ret (status, if status : bool then Some (binding_data d) else None)
      else log_error Opcode;;; ret (false, None))%ev r /\ represents r v).
  { destruct (is_boolean_expression e); [|destruct (is_numeric_expression e); [|destruct (is_data_expression e); [|done]]];
      intros Hm; apply mapped_Done in Hm as (w & E & ->).
    - specialize (HB w E). destruct w as [b|]; eexists; (split; [eapply quiet_bind; [exact HB|apply quiet_ret]|]); [|done]. by exists (binding_boolean b).
    - destruct (HN w E) as [Hr Hq]. eexists. split; [eapply quiet_bind; [exact Hq|apply quiet_ret]|].
      destruct w as [n|]; [|done]. exists (binding_numeric n). split; [done|]. split; [done|by apply Hr].
    - specialize (HD w E). apply data_is_has in HD as (r & Hq & Hr). destruct w as [l|]; [destruct Hr as (x & -> & Hx)|simpl in Hr; subst r];
        eexists; (split; [eapply quiet_bind; [exact Hq|apply quiet_ret]|]); [|done]. by exists (binding_data x). }
  destruct e; try (by apply Hvar with name); try (apply Hb; exact Hv).
Qed.

Section step.
Context (fuel : nat) (c : context) (Hc : ok_context c).
Abbreviation Ev := (evaluators_at fuel).

Lemma variable_bool n : quiet (boolean_step Ev c (expr_variable_reference n))
  (boolean_result (match variable ch n with Some (binding_boolean b) => Some b | _ => None end)).
Proof.
  cbn [boolean_step]. apply quiet_get. intros s Es _. rewrite (variable_state s n Es). unfold variable.
  destruct (find_binding ch n) as [[[b|d|i|f ps ss]|]|]; simpl; try apply quiet_ret; apply quiet_log_ret.
Qed.
Lemma variable_data n : data_is (data_step Ev c null_string (expr_variable_reference n))
  (match variable ch n with Some (binding_data d) => Some (contents d) | _ => None end).
Proof using Hch.
  pose proof (variable_ok n) as Hok. cbn [data_step]. apply data_is_has. unfold variable in *.
  exists (match mjoin (find_binding ch n) with Some (binding_data d) => (true, d) | _ => (false, null_string) end). split.
  - apply quiet_get. intros s -> _. destruct (find_binding ch n) as [[[b|d|i|f ps ss]|]|]; simpl; try apply quiet_ret; apply quiet_log_ret.
  - destruct (find_binding ch n) as [[[b|d|i|f ps ss]|]|]; simpl in *; try done. exists d. split; [done|]. exact (Hok _ eq_refl).
Qed.
Lemma variable_num n : quiet (numeric_step Ev c (expr_variable_reference n)) (match variable ch n with Some (binding_numeric i) => Some i | _ => None end).
Proof.
  cbn [numeric_step]. apply quiet_get. intros s Es _. rewrite (variable_state s n Es). unfold variable.
  destruct (find_binding ch n) as [[[b|d|i|f ps ss]|]|]; simpl; try apply quiet_ret; apply quiet_log_ret.
Qed.

Lemma equal_step l r x y : A_ok fuel c l -> A_ok fuel c r -> meaning ch os c l = Done x -> meaning ch os c r = Done y ->
  forall f : bool -> bool,
  quiet (x <~ evaluate_expression Ev c l; y <~ evaluate_expression Ev c r; b <~ lift (expressions_equal x y); ret (true, Some (f b)))%ev
    (true, Some (f (bool_decide (x = y)))).
Proof.
  intros Hl Hr Ex Ey f. destruct (Hl x Ex) as (a & Qa & Ra), (Hr y Ey) as (b & Qb & Rb). eapply quiet_bind; [exact Qa|]. eapply quiet_bind; [exact Qb|].
  eapply quiet_bind; [apply quiet_lift; by apply expressions_equal_ok|]. apply quiet_ret.
Qed.

Lemma boolean_step_ok e : Forall (all_ok fuel) (children e) -> B_ok (S fuel) c e.
Proof using Hc Hos.
  intros Hs v Hv. change (evaluators_at (S fuel)) with (evaluators_step Ev). cbn [evaluate_boolean_expression evaluators_step].
  destruct e; try done; cbn [children bval] in *.
  - apply Forall_cons in Hs as [Hl [Hr _]%Forall_cons]. undo Hv. undo Hv. injection Hv as <-. cbn [boolean_result boolean_step].
    apply (equal_step e1 e2) with (f := fun b => b); try done; [by apply Hl|by apply Hr].
  - apply Forall_cons in Hs as [Hl [Hr _]%Forall_cons]. undo Hv. undo Hv. injection Hv as <-. cbn [boolean_result boolean_step].
    rewrite bool_decide_not. apply (equal_step e1 e2) with (f := negb); try done; [by apply Hl|by apply Hr].
  - apply Forall_cons in Hs as [Hl [Hr _]%Forall_cons]. undo Hv. destruct (Hl c Hc) as (Hl' & _), (Hr c Hc) as (Hr' & _). cbn [boolean_step].
    eapply quiet_bind; [by apply Hl'|]. destruct a as [[]|]; cbn [boolean_result default from_option id andb] in *.
    + eapply quiet_bind; [by apply Hr'|]. destruct v as [b|]; apply quiet_ret.
    + injection Hv as <-. apply quiet_ret.
    + injection Hv as <-. apply quiet_ret.
  - apply Forall_cons in Hs as [Hl [Hr _]%Forall_cons]. undo Hv. destruct (Hl c Hc) as (Hl' & _), (Hr c Hc) as (Hr' & _). cbn [boolean_step].
    eapply quiet_bind; [by apply Hl'|]. destruct a as [[]|]; cbn [boolean_result default from_option id andb] in *.
    + injection Hv as <-. apply quiet_ret.
    + undo Hv. injection Hv as <-. eapply quiet_bind; [by apply Hr'|]. destruct a as [b|]; apply quiet_ret.
    + undo Hv. injection Hv as <-. eapply quiet_bind; [by apply Hr'|]. destruct a as [b|]; apply quiet_ret.
  - apply Forall_cons in Hs as [Hl _]. apply mapped_Done in Hv as (w & Ew & ->). destruct (Hl c Hc) as (Hl' & _). cbn [boolean_step].
    eapply quiet_bind; [by apply Hl'|]. destruct w as [b|]; apply quiet_ret.
  - undo Hv. injection Hv as <-. cbn [boolean_step]. destruct (in_options c) as [i|]; [|injection E as <-; apply quiet_ret].
    eapply (quiet_bind_data _ _ a); [by apply option_ok|]. intros r Hr. destruct a as [l|]; simpl in Hr.
    + destruct Hr as (x & -> & _). apply quiet_ret.
    + subst r. apply quiet_ret.
  - injection Hv as <-. cbn [boolean_step]. apply quiet_get. intros s Es _. rewrite (variable_state s name Es). unfold variable.
    destruct (find_binding ch name) as [[w|]|]; apply quiet_ret.
  - injection Hv as <-. cbn [boolean_step]. destruct (packet_of c); apply quiet_ret.
  - injection Hv as <-. cbn [boolean_step]. destruct (lease_of c); apply quiet_ret.
  - injection Hv as <-. apply variable_bool.
Qed.

Lemma D_at e : all_ok fuel e -> forall c', ok_context c' -> D_ok fuel c' e.
Proof. intros Ha c' Hc'. by destruct (Ha c' Hc') as (_ & ? & _). Qed.
Lemma N_at e : all_ok fuel e -> N_ok fuel c e.
Proof using Hc. intros Ha. by destruct (Ha c Hc) as (_ & _ & ? & _). Qed.

Lemma case_ok f e v : (forall x, byte x -> byte (f x)) -> all_ok fuel e -> mapped (fmap f) (dval ch os c e) = Done v ->
  data_is (data_case Ev f c null_string e) v.
Proof using Hc.
  intros Hf Ha Hv. apply mapped_Done in Hv as (w & Ew & ->). eapply data_bind_data; [by apply (D_at e Ha c Hc)|]. intros r Hr.
  destruct w as [l|]; simpl in Hr; [destruct Hr as (d & -> & Hd)|subst r; by apply data_ret]. destruct (map_case_ok f d l Hd Hf) as (x & Ex & Hx).
  eapply data_bind; [apply quiet_lift, Ex|]. apply data_ret. by exists x.
Qed.
Lemma encode_step_ok w e v : w = 1 \/ w = 2 \/ w = 4 -> all_ok fuel e -> mapped (be_bytes (Z.to_nat w)) (nval ch os c e) = Done v ->
  data_is (encode Ev w c null_string e) v.
Proof using Hc.
  intros Hw Ha Hv. apply mapped_Done in Hv as (x & Ex & ->). destruct (N_at e Ha x Ex) as [_ Hq]. eapply data_bind; [exact Hq|].
  destruct x as [n|]; [|by apply data_ret]. destruct (encode_ok n w Hw) as (b & Eb & Hb). eapply data_bind; [apply quiet_lift, Eb|].
  apply data_ret. by eexists.
Qed.
Lemma relay_ok n e v : 0 <= n -> all_ok fuel e ->
  (match relay_context c n with Some c' => dval ch os c' e | None => Done None end) = Done v -> data_is (v6relay Ev c n null_string e) v.
Proof using Hc.
  intros Hn Ha Hv.
  assert (Hgo : forall p opts, ok_context (mk_context p (lease_of c) (client_of c) opts (cfg_options c)) ->
    dval ch os (mk_context p (lease_of c) (client_of c) opts (cfg_options c)) e = Done v ->
    data_is ('(s1, d) <~ evaluate_data_expression Ev (mk_context p (lease_of c) (client_of c) opts (cfg_options c)) null_string e;
             ret (s1, if s1 : bool then d else null_string))%ev v).
  { intros p opts Hok Hd. eapply data_bind_data; [by apply (D_at e Ha _ Hok)|]. intros r Hr.
    destruct v as [l|]; simpl in Hr; [destruct Hr as (x & -> & Hx); apply data_ret; by exists x|subst r; by apply data_ret]. }
  unfold v6relay, relay_context in *. destruct (Z.eqb_spec n 0) as [->|Hn0].
  { destruct c as [p l cl io co]. by apply Hgo. }
  pose proof (ok_packets c Hc) as Hps. destruct (packet_of c) as [p|] eqn:Ep; [|injection Hv as <-; by apply data_ret].
  destruct (Hps p eq_refl) as [Hp Hcs]. cbn [mbind option_bind] in Hv.
  destruct (climb p (in_options c) n) as [[q o] j] eqn:Ec. destruct (p_container p) as [q0|] eqn:Eq0.
  - pose proof (relay_cases p (in_options c) n q o j ltac:(lia) ltac:(by rewrite Eq0) Ec) as Hcase.
    destruct ((n <=? MAX_V6RELAY_HOPS) && negb (j =? 0)).
    + rewrite Hcase in Hv. injection Hv as <-. by apply data_ret.
    + destruct Hcase as (Eq & -> & Hq). rewrite Eq in Hv. cbn [mbind option_bind] in Hv. apply Hgo; [|done].
      destruct Hc as [_ H1 H2]. split; [|exact H1|exact H2]. intros p' [= <-].
      destruct (containers_tail _ p eq_refl q Hq) as [k Ek]. rewrite Ek in Hcs. by apply Forall_app in Hcs as [_ [? ?]%Forall_cons].
  - rewrite containers_eq, Eq0 in Hv. simpl in Hv. destruct (n <=? MAX_V6RELAY_HOPS); injection Hv as <-; by apply data_ret.
Qed.

Ltac sub H := let a := fresh "Hsub" in apply Forall_cons in H as [a H].
Ltac see H := let x := fresh "x" in simpl in H; first [destruct H as (x & [= -> ->] & H) | injection H as -> ->].

Lemma nonneg_of a (n : Z) : (forall n, a = Some n -> 0 <= n < 2 ^ 64) -> a = Some n -> 0 <= n.
Proof. intros Ha E. specialize (Ha n E). lia. Qed.

Lemma data_step_ok e : ok_constants e -> Forall (all_ok fuel) (children e) -> D_ok (S fuel) c e.
Proof using Hc Hos Hch.
  intros Hk Hs v Hv. change (evaluators_at (S fuel)) with (evaluators_step Ev). cbn [evaluate_data_expression evaluators_step].
  destruct e; try done; cbn [children dval] in *; try fold (nval ch os) in *.
  - (* substring *)
    sub Hs. sub Hs. sub Hs. undo Hv. undo Hv. undo Hv. injection Hv as <-. cbn [data_step].
    destruct (N_at _ Hsub0 _ E0) as [Ro Qo], (N_at _ Hsub1 _ E1) as [Rn Qn].
    eapply data_bind_data; [by apply (D_at _ Hsub c Hc)|]. intros [s0 d0] Hr. cbv beta iota. eapply data_bind; [exact Qo|]. eapply data_bind; [exact Qn|]. cbv beta.
    destruct a as [l|]; see Hr; [|by destruct a0, a1; apply data_ret]. destruct a0 as [o|]; [|by apply data_ret]. destruct a1 as [n|]; [|by apply data_ret].
    pose proof (nonneg_of _ _ Ro eq_refl). pose proof (nonneg_of _ _ Rn eq_refl). rewrite (str_len _ _ Hr). apply data_ret.
    destruct (Z.ltb_spec o (zlen l)) as [Ho|Ho].
    + eexists. split; [reflexivity|]. apply substring_ok; [done|lia|done].
    + exists null_string. split; [done|]. rewrite drop_ge by (unfold zlen in Ho; lia). rewrite take_nil. apply str_null.
  - (* suffix *)
    sub Hs. sub Hs. undo Hv. undo Hv. injection Hv as <-. cbn [data_step]. destruct (N_at _ Hsub0 _ E0) as [Rn Qn].
    eapply data_bind_data; [by apply (D_at _ Hsub c Hc)|]. intros [s0 d0] Hr. cbv beta iota. eapply data_bind; [exact Qn|]. cbv beta.
    destruct a as [l|]; see Hr; [|by destruct a0; apply data_ret]. destruct a0 as [n|]; [|by apply data_ret].
    pose proof (nonneg_of _ _ Rn eq_refl). apply data_ret. eexists. split; [reflexivity|]. by apply suffix_ok.
  - sub Hs. apply case_ok; [apply mklower_byte|done|done].
  - sub Hs. apply (case_ok toupper); [apply toupper_byte|done|done].
  - cbn [data_step]. destruct (in_options c) as [i|]; [by apply option_ok|]. injection Hv as <-. by apply data_ret.
  - cbn [data_step]. destruct (cfg_options c) as [i|]; [by apply option_ok|]. injection Hv as <-. by apply data_ret.
  - injection Hv as <-. by apply hardware_ok.
  - (* packet *)
    sub Hs. sub Hs. cbn [data_step]. destruct (packet_of c) as [p|] eqn:Ep; [|injection Hv as <-; by apply data_log].
    destruct (p_raw p) as [raw|] eqn:Er; [|injection Hv as <-; by apply data_log]. undo Hv. undo Hv.
    destruct (N_at _ Hsub _ E) as [Ro Qo], (N_at _ Hsub0 _ E0) as [Rn Qn]. eapply data_bind; [exact Qo|]. eapply data_bind; [exact Qn|]. cbv beta.
    destruct a as [o|]; [|injection Hv as <-; by apply data_ret]. destruct a0 as [n|]; [|injection Hv as <-; by apply data_ret].
    pose proof (nonneg_of _ _ Ro eq_refl). pose proof (nonneg_of _ _ Rn eq_refl). destruct (ok_packets c Hc p Ep) as [Hp _]. by apply packet_part_ok.
  - injection Hv as <-. cbn [data_step ok_constants] in *. apply data_ret. by exists d.
  - (* concat *)
    sub Hs. sub Hs. undo Hv. undo Hv. cbn [data_step]. eapply data_bind_data; [by apply (D_at _ Hsub c Hc)|]. intros [s0 d0] Hr. cbv beta iota.
    eapply data_bind_data; [by apply (D_at _ Hsub0 c Hc)|]. intros [s1 d1] Hr'. cbv beta iota.
    destruct a as [l|]; simpl in Hr; [destruct Hr as (x & [= -> ->] & Hx)|injection Hr as -> ->].
    + destruct a0 as [k|]; see Hr'; [|injection Hv as <-; by apply data_ret]. destruct (Z.ltb_spec (zlen l + zlen k) (2 ^ 32)) as [Hlen|]; [|done].
      injection Hv as <-. simpl andb. cbv iota. destruct (concat_ok x l x0 k Hx Hr' Hlen) as (y & Ey & Hy).
      eapply data_bind; [apply quiet_lift, Ey|]. apply data_ret. by exists y.
    + injection Hv as <-. by apply data_ret.
  - sub Hs. apply (encode_step_ok 1); [auto|done|done].
  - sub Hs. apply (encode_step_ok 2); [auto|done|done].
  - sub Hs. apply (encode_step_ok 4); [auto|done|done].
  - (* binary-to-ascii *)
    sub Hs. sub Hs. sub Hs. sub Hs. undo Hv. undo Hv. undo Hv. undo Hv. cbn [data_step].
    destruct (N_at _ Hsub _ E) as [Rb Qb], (N_at _ Hsub0 _ E0) as [Rw Qw]. eapply data_bind; [exact Qb|]. eapply data_bind; [exact Qw|].
    eapply data_bind_data; [by apply (D_at _ Hsub1 c Hc)|]. intros [s2 sep] Hr. cbv beta iota. eapply data_bind_data; [by apply (D_at _ Hsub2 c Hc)|]. intros [s3 d] Hr'. cbv beta iota.
    assert (Hnull : match a, a0, a1, a2 with Some _, Some _, Some _, Some _ => False | _, _, _, _ => True end -> v = None).
    { destruct a, a0, a1, a2; try done; intros _; by injection Hv. }
    destruct a1 as [st|]; simpl in Hr; [destruct Hr as (x & [= -> ->] & Hx)|injection Hr as -> ->];
      (destruct a2 as [l|]; simpl in Hr'; [destruct Hr' as (y & [= -> ->] & Hy)|injection Hr' as -> ->]); simpl andb;
      (destruct a as [b|]; [|rewrite Hnull by (by destruct a0); by apply data_ret]);
      (destruct a0 as [w|]; [|rewrite Hnull by done; by apply data_ret]); try (rewrite Hnull by done; by apply data_ret).
    destruct (b2a_value_ok b w x st y l v Hx Hy Hv) as (z & Ez & Hz). eapply data_bind; [apply quiet_lift, Ez|]. apply data_ret.
    destruct v as [k|]; [destruct Hz as (u & -> & Hu); by exists u|by subst z].
  - (* reverse *)
    sub Hs. sub Hs. undo Hv. undo Hv. cbn [data_step]. destruct (N_at _ Hsub _ E) as [Rw Qw]. eapply data_bind; [exact Qw|].
    eapply data_bind_data; [by apply (D_at _ Hsub0 c Hc)|]. intros [s0 d0] Hr. cbv beta iota. cbv beta.
    destruct a as [w|]; [|injection Hv as <-; by apply data_ret]. destruct a0 as [l|]; see Hr; [|injection Hv as <-; by apply data_ret].
    destruct (reverse_value_ok w x l v (nonneg_of _ _ Rw eq_refl) Hr Hv) as (z & Ez & Hz). eapply data_bind; [apply quiet_lift, Ez|]. apply data_ret.
    destruct v as [k|]; [destruct Hz as (u & -> & Hu); by exists u|by subst z].
  - injection Hv as <-. cbn [data_step]. destruct (lease_of c) as [l|] eqn:El; [|by apply data_log]. destruct (ok_lease c Hc l El) as (Hb & Hl & _). by apply data_new.
  - (* pick-first-value *)
    assert (Hs' : Forall (all_ok fuel) (match cdr with Some d => [d] | None => [] end) /\ all_ok fuel e) by (destruct cdr; by apply Forall_cons in Hs as [? ?]).
    destruct Hs' as [Hs' Hsub]. undo Hv. cbn [data_step]. eapply data_bind_data; [by apply (D_at _ Hsub c Hc)|]. intros [s0 d0] Hr. cbv beta iota.
    destruct a as [l|]; see Hr; [injection Hv as <-; apply data_ret; by exists x|]. destruct cdr as [e'|]; [|injection Hv as <-; by apply data_ret].
    apply Forall_cons in Hs' as [Hs' _]. by apply (D_at _ Hs' c Hc).
  - injection Hv as <-. cbn [data_step]. destruct (lease_of c) as [l|] eqn:El; cbn [mbind option_bind]; [|by apply data_log].
    destruct (ok_lease c Hc l El) as (_ & _ & _ & _ & _ & Hh). destruct (l_host l) as [n|]; [|by apply data_log]. destruct (Hh n eq_refl). by apply data_new.
  - injection Hv as <-. by apply data_ret.
  - by apply raw_field_ok.
  - by apply raw_field_ok.
  - (* v6relay *)
    sub Hs. sub Hs. undo Hv. cbn [data_step]. destruct (N_at _ Hsub _ E) as [Rn Qn]. eapply data_bind; [exact Qn|]. cbv beta.
    destruct a as [n|]; [|injection Hv as <-; by apply data_ret]. apply relay_ok; [by apply (nonneg_of _ _ Rn)|done|done].
  - injection Hv as <-. apply variable_data.
Qed.

Lemma extract_step w e v : w = 1 \/ w = 2 \/ w = 4 -> all_ok fuel e -> (d ← dval ch os c e; extract_value w d) = Done v ->
  (forall n, v = Some n -> 0 <= n < 2 ^ 64) /\ quiet (extract Ev w c e) v.
Proof using Hc.
  intros Hw Ha Hv. undo Hv. pose proof (D_at e Ha c Hc a E) as Hd. apply data_is_has in Hd as ([s0 d] & Hq & Hr).
  destruct (extract_value_ok w a v Hw) as (Hn & Hx & Hnone); [intros l ->; destruct Hr as (x & _ & ?); by exists x|done|]. split; [done|].
  eapply quiet_bind; [exact Hq|]. destruct a as [l|]; see Hr; [|rewrite Hnone by done; apply quiet_ret]. apply quiet_lift. by eapply Hx.
Qed.
Lemma numeric_step_ok e : ok_constants e -> Forall (all_ok fuel) (children e) -> N_ok (S fuel) c e.
Proof using Hc Hch.
  intros Hk Hs v Hv. change (evaluators_at (S fuel)) with (evaluators_step Ev). cbn [evaluate_numeric_expression evaluators_step].
  destruct e; try done; cbn [children nval] in *; try fold (dval ch os) in *; cbn [numeric_step].
  - sub Hs. apply extract_step; [auto|done|done].
  - sub Hs. apply extract_step; [auto|done|done].
  - sub Hs. apply extract_step; [auto|done|done].
  - injection Hv as <-. split; [by intros ? [= <-]|apply quiet_ret].
  - injection Hv as <-. destruct (lease_of c) as [l|] eqn:El; [|split; [done|apply quiet_log_ret]]. destruct (ok_lease c Hc l El) as (_ & _ & _ & _ & Hl & _).
    destruct (Z.ltb_spec (l_ends l) cur_time); (split; [intros n [= <-]; lia|]); [apply quiet_log_ret|apply quiet_ret].
  - sub Hs. sub Hs. undo Hv. undo Hv. injection Hv as <-. destruct (N_at _ Hsub _ E) as [R0 Q0], (N_at _ Hsub0 _ E0) as [R1 Q1]. split.
    + intros n Hn. destruct a as [x|], a0 as [y|]; try done. eapply arith_range; [by apply R0|by apply R1|exact Hn].
    + eapply quiet_bind; [exact Q0|]. eapply quiet_bind; [exact Q1|]. destruct a as [x|], a0 as [y|]; apply quiet_ret.
  - injection Hv as <-. split.
    + intros n Hn. destruct (client_of c) as [cl|] eqn:Ecl; [|done]. injection Hn as <-. by destruct (ok_client c Hc cl Ecl) as (_ & _ & ?).
    + destruct (client_of c); apply quiet_ret.
  - injection Hv as <-. split; [|apply variable_num]. intros n Hn. destruct (variable ch name) as [[]|] eqn:Ev; try done. injection Hn as ->.
    exact (variable_ok _ _ Ev).
Qed.
End step.

Lemma height_pos e : (1 <= height e)%nat.
Proof. destruct e; simpl; lia. Qed.
Lemma height_children e : Forall (fun e' => (height e' < height e)%nat) (children e).
Proof. destruct e; cbn [children height]; try match goal with d : option expression |- _ => destruct d end; rewrite ?Forall_cons, ?Forall_nil; split_and?; try done; lia. Qed.
Lemma constants_children e : ok_constants e -> Forall ok_constants (children e).
Proof. destruct e; cbn [children ok_constants]; intros Hk; try match goal with d : option expression |- _ => destruct d end; rewrite ?Forall_cons, ?Forall_nil; tauto. Qed.

Lemma evaluators_ok n : forall e, (height e <= n)%nat -> ok_constants e -> forall fuel, (2 * n <= fuel)%nat -> forall c, ok_context c ->
  B_ok fuel c e /\ D_ok fuel c e /\ N_ok fuel c e.
Proof using Hch Hos.
  induction n as [|n IH]; intros e He Hk fuel Hf c Hc; [pose proof (height_pos e); lia|]. destruct fuel as [|fuel]; [lia|].
  assert (Hs : Forall (all_ok fuel) (children e)).
  { pose proof (height_children e) as Hh. pose proof (constants_children e Hk) as Hks. rewrite List.Forall_forall in *. intros e' Hin c' Hc'.
    specialize (Hh e' Hin). simpl in Hh. destruct fuel as [|fuel]; [lia|].
    destruct (IH e' ltac:(lia) (Hks e' Hin) (S fuel) ltac:(lia) c' Hc') as (Hb & Hd & Hn).
    destruct (IH e' ltac:(lia) (Hks e' Hin) fuel ltac:(lia) c' Hc') as (Hb' & Hd' & Hn'). split_and!; [done..|]. by apply any_step. }
  split_and!; [by apply boolean_step_ok|by apply data_step_ok|by apply numeric_step_ok].
Qed.
End operations.

(** C14: Whenever the reference semantics gives an expression a meaning, its
    evaluation with fuel for twice its height returns, without an access out
    of bounds, exactly this value, or null, and leaves the state as it is but
    for messages in the log.  Options, packets, leases and variables of the
    state are taken to be well-formed. *)
Theorem evaluate_expression_meaning `{HostOrder} `{Surroundings} fuel c e s v :
  ok_constants e -> ok_context c -> ok_scopes (chain s) -> ok_options (s_options s) -> (2 * height e < fuel)%nat ->
  meaning (chain s) (s_options s) c e = Done v ->
  exists l r, evaluate_expression (evaluators_at fuel) c e s = Done (logs l s, r) /\ represents r v.
Proof.
  intros Hk Hc Hch Hos Hf Hv. destruct fuel as [|fuel]; [lia|].
  destruct (evaluators_ok (chain s) (s_options s) Hch Hos (height e) e ltac:(lia) Hk fuel ltac:(lia) c Hc) as (Hb & Hd & Hn).
  destruct (any_step (chain s) (s_options s) Hch fuel c e Hb Hd Hn v Hv) as (r & Hq & Hr). destruct (Hq s eq_refl eq_refl) as [l E]. by exists l, r.
Qed.

(** The text of the address of a lease. *)
Module RefSample.
#[local] Instance little : HostOrder := false.
#[local] Instance around : Surroundings := {|
  cur_time := 0; regexec := fun _ _ _ => false; gethostname := None; host_lookup := fun _ => None; collection := fun _ => [];
  option_space_encapsulate := fun _ r _ => ret (false, r); parse_vendor_option := fun _ => ret tt |}.
Definition lease : lease := mk_lease false [10; 0; 200; 7] [1; 0; 2; 4; 8; 16; 32] 100 None.
Definition ctx : context := mk_context None (Some lease) None None None.
Definition start : state := mk_state [] (Some []) [] ∅ [] (mk_star [] [] []) (mk_star [] [] []) [].
(** binary-to-ascii (10, 8, ".", leased-address) = "10.0.200.7" *)
Definition test : expression :=
  expr_equal (expr_binary_to_ascii (expr_const_int 10) (expr_const_int 8) (expr_const_data (ds_new [46] true)) expr_leased_address)
    (expr_const_data (ds_new [49; 48; 46; 48; 46; 50; 48; 48; 46; 55] true)).
End RefSample.

Lemma evaluate_expression_meaning_witness : exists l r,
  @evaluate_expression (@evaluators_at RefSample.little RefSample.around 7) RefSample.ctx RefSample.test RefSample.start =
    Done (logs l RefSample.start, r) /\ represents r (Some (VBool true)).
Proof.
  apply (@evaluate_expression_meaning RefSample.little RefSample.around 7 RefSample.ctx RefSample.test RefSample.start).
  - assert (Hn : forall n, (0 <=? n) && (n <? 2 ^ 64) = true -> 0 <= n < 2 ^ 64) by (intros n Hn; apply andb_true_iff in Hn as [? ?]; split; [by apply Z.leb_le|by apply Z.ltb_lt]).
    cbn [ok_constants RefSample.test]. split_and!; try exact I; try (by apply Hn); apply str_new; try done; apply (bool_decide_unpack _); vm_compute; exact I.
  - split; [done| |done]. intros l [= <-]. split_and!; try done; apply (bool_decide_unpack _); vm_compute; exact I.
  - done.
  - intros i m k oc Hi. by destruct i.
  - apply (bool_decide_unpack _). vm_compute. exact I.
  - vm_compute. reflexivity.
Defined.
