(* ===== verification/EvalTotal.v ===== *)
(** * Expressions that always have a value or null

    Most operators return whatever their operands are, and so do most
    statements.  For the expressions and statements made of those, evaluation
    ends without an access out of bounds.  Left out are calls (which may recurse
    for ever), classes, regular expressions, the operators that read or divide
    without a test ([extract-int] of 8 bits, [reverse] and [binary-to-ascii]
    with a computed width, [packet] with computed bounds, [filename] and
    [server-name] of a packet without fixed part), the options of the
    configuration (their expressions may refer to themselves) and [let], whose
    copy of the name never fits. *)

From stdpp Require Import base tactics list numbers gmap.
From S2P Require Import Prelude Array Convert Name Expr Eval EvalStr EvalRef EvalType.

#[local] Open Scope Z_scope.

(** ** Lengths *)

(** No string of the state, of a packet or of an expression is longer. *)
Definition LIMIT : Z := 2 ^ 16.

(** What the string that an expression gives has at most. *)
Fixpoint max_len (e : expression) : Z :=
  match e with
  | expr_substring e _ _ | expr_suffix e _ | expr_lcase e | expr_ucase e | expr_reverse _ e | expr_v6relay _ e => max_len e
  | expr_concat x y => max_len x + max_len y
  | expr_const_data d => zlen (contents d)
  | expr_encode_int8 _ => 1
  | expr_encode_int16 _ => 2
  | expr_encode_int32 _ => 4
  | expr_binary_to_ascii _ _ s d => max_len d * (8 + max_len s)
  | expr_pick_first_value a d => Z.max (max_len a) (match d with Some d => max_len d | None => 0 end)
  | _ => LIMIT
  end.

(** The constants are sound: their bytes are there, with a NUL where there has
    to be one, and numbers have 64 bits. *)
Definition ok_string (d : data_string) : bool :=
  let b := default [] (d_buf d) in
  forallb (fun x => (0 <=? x) && (x <? 256)) b && (0 <=? d_len d) && (d_len d <=? zlen b) && (d_len d <=? LIMIT) &&
  (negb (d_terminated d) || bool_decide (b !! Z.to_nat (d_len d) = Some 0)).
Definition in_range (n : Z) : bool := (0 <=? n) && (n <? 2 ^ 64).

(** All operators have a value, or null, for all operands. *)
Fixpoint total (e : expression) : bool :=
  match e with
  | expr_equal l r | expr_not_equal l r | expr_and l r | expr_or l r | expr_suffix l r | expr_v6relay l r | expr_arith _ l r =>
      total l && total r
  | expr_not e | expr_lcase e | expr_ucase e | expr_encode_int8 e | expr_encode_int16 e | expr_encode_int32 e
  | expr_extract_int16 e | expr_extract_int32 e => total e
  | expr_substring e o n => total e && total o && total n
  | expr_concat l r => total l && total r && (max_len l + max_len r <? 2 ^ 32)
  | expr_packet (expr_const_int o) (expr_const_int n) => in_range o && in_range n && (o + n <? 2 ^ 64)
  | expr_reverse (expr_const_int w) d => in_range w && negb (w =? 0) && total d
  | expr_binary_to_ascii (expr_const_int b) (expr_const_int w) s d =>
      (2 <=? b) && (b <=? 16) && (w =? 8) && total s && total d && (max_len d * (8 + max_len s) <? 2 ^ 32)
  | expr_pick_first_value a d => total a && match d with Some d => total d | None => true end
  | expr_const_data d => ok_string d
  | expr_const_int n => in_range n
  | expr_exists _ | expr_variable_exists _ | expr_known | expr_static | expr_option _ | expr_hardware | expr_leased_address
  | expr_host_decl_name | expr_null | expr_lease_time | expr_client_state | expr_variable_reference _ => true
  | _ => false
  end.

Lemma max_len_nonneg e : 0 <= max_len e.
Proof.
  assert (H : forall n e, (height e <= n)%nat -> 0 <= max_len e).
  { induction n as [|n IH]; intros e' He; [pose proof (height_pos e'); lia|].
    destruct e'; cbn [max_len height] in *; try (by apply IH; lia); try (unfold LIMIT; lia); try apply zlen_nonneg.
    - pose proof (IH e'1 ltac:(lia)). pose proof (IH e'2 ltac:(lia)). lia.
    - pose proof (IH e'3 ltac:(lia)). pose proof (IH e'4 ltac:(lia)). nia.
    - pose proof (IH e' ltac:(lia)). lia. }
  by apply (H (height e)).
Qed.

Lemma in_range_ok n : in_range n = true -> 0 <= n < 2 ^ 64.
Proof. unfold in_range. rewrite andb_true_iff, Z.leb_le, Z.ltb_lt. done. Qed.
Lemma ok_string_str d : ok_string d = true -> str d (contents d) /\ zlen (contents d) <= LIMIT.
Proof.
  unfold ok_string. rewrite !andb_true_iff, !Z.leb_le. intros [[[[Hb H0] Hl] H16] Ht]. unfold str, contents.
  set (b := default [] (d_buf d)) in *. rewrite zlen_take by lia. unfold LIMIT in *. split; [|lia]. split_and!; [|lia|done|].
  - apply Forall_forall. rewrite forallb_forall in Hb. intros x Hx. specialize (Hb x ltac:(by apply list_elem_of_In)).
    apply andb_true_iff in Hb as [?%Z.leb_le ?%Z.ltb_lt]. done.
  - exists (drop (Z.to_nat (d_len d)) b). rewrite take_drop. split; [done|]. intros Et. rewrite Et in Ht. simpl in Ht.
    apply bool_decide_eq_true in Ht. exists (drop (S (Z.to_nat (d_len d))) b). by apply drop_S.
Qed.

Lemma total_constants e : total e = true -> ok_constants e.
Proof.
  assert (H : forall n e, (height e <= n)%nat -> total e = true -> ok_constants e).
  { induction n as [|n IH]; intros e' He Ht; [pose proof (height_pos e'); lia|].
    assert (Hdown : forall e'', (height e'' < height e')%nat -> total e'' = true -> ok_constants e'') by (intros; apply IH; [lia|done]).
    assert (Hnum : forall n, in_range n = true -> ok_constants (expr_const_int n)) by (intros; by apply in_range_ok).
    clear IH He. destruct e'; cbn [total ok_constants height] in *; try exact I; try discriminate Ht.
    all: try (destruct e'1; try discriminate Ht; []).
    all: try (destruct e'2; try discriminate Ht; []).
    all: repeat match goal with d : option expression |- _ => destruct d end.
    all: repeat match goal with H : _ && _ = true |- _ => apply andb_true_iff in H as [? ?] end.
    all: split_and?; try exact I; try (by apply Hnum); try (apply Hdown; [cbn [height] in *; lia|done]).
    - by apply ok_string_str.
    - simpl. rewrite Z.leb_le in *. lia.
    - simpl. rewrite Z.eqb_eq in *. lia. }
  by apply (H (height e)).
Qed.

(** ** What is read *)

(** The options of a packet are data. *)
Definition data_options (os : list option_map) (i : nat) : Prop :=
  exists m, os !! i = Some m /\
    map_Forall (fun _ oc => d_buf (oc_data oc) <> None /\ zlen (contents (oc_data oc)) <= LIMIT) m.
Definition small_packet (p : packet) : Prop := forall raw, p_raw p = Some raw -> zlen raw <= LIMIT.
Record small_context (os : list option_map) (c : context) : Prop := {
  sc_options : forall i, in_options c = Some i -> data_options os i;
  sc_packet : forall p, packet_of c = Some p -> small_packet p /\
    Forall (fun q => small_packet q /\ data_options os (p_options q)) (containers p);
  sc_lease : forall l, lease_of c = Some l -> zlen (l_ip_addr l) <= LIMIT /\ zlen (l_hardware l) <= LIMIT /\
    forall n, l_host l = Some n -> zlen n <= LIMIT;
  sc_client : forall cl, client_of c = Some cl -> zlen (c_hardware cl) <= LIMIT }.
Definition small_value (v : binding_value) : Prop :=
  match v with binding_data d => zlen (contents d) <= LIMIT | _ => True end.
Definition small_scopes (ch : list scope) : Prop := forall n v, find_binding ch n = Some (Some v) -> small_value v.

(** ** Texts of numbers *)
Lemma power_between base : 2 <= base <= 16 -> exists j, j ∈ seq 1 31 /\ 256 <= base ^ Z.of_nat j < 2 ^ 32.
Proof.
  intros Hb.
  assert (H : forallb (fun b => existsb (fun j => (256 <=? b ^ Z.of_nat j) && (b ^ Z.of_nat j <? 2 ^ 32)) (seq 1 31)) (seqZ 2 15) = true)
    by (vm_compute; reflexivity).
  rewrite forallb_forall in H. specialize (H base ltac:(apply list_elem_of_In, elem_of_seqZ; lia)).
  apply existsb_exists in H as (j & Hj & H). exists j. rewrite list_elem_of_In. split; [done|].
  apply andb_true_iff in H as [?%Z.leb_le ?%Z.ltb_lt]. lia.
Qed.
Lemma short_byte base n : 2 <= base <= 16 -> n < 256 -> short_text base n = true.
Proof.
  intros Hb Hn. destruct (power_between base Hb) as (j & Hj & H1 & H2). apply existsb_exists. exists j.
  rewrite <- list_elem_of_In. split; [done|]. apply andb_true_iff. rewrite !Z.ltb_lt. lia.
Qed.
Lemma byte_text_length base n : 2 <= base <= 16 -> 0 <= n < 256 -> zlen (number_text base n) <= 8.
Proof.
  intros Hb Hn.
  assert (H : forallb (fun b => forallb (fun n => zlen (number_text b n) <=? 8) (seqZ 0 256)) (seqZ 2 15) = true)
    by (vm_compute; reflexivity).
  rewrite forallb_forall in H. specialize (H base ltac:(apply list_elem_of_In, elem_of_seqZ; lia)). cbv beta in H.
  rewrite forallb_forall in H. specialize (H n ltac:(apply list_elem_of_In, elem_of_seqZ; lia)). by apply Z.leb_le.
Qed.
Lemma joined_data_length sep ts k : Forall (fun t => zlen t <= k) ts -> zlen (joined sep ts) <= zlen ts * (k + zlen sep).
Proof.
  pose proof (zlen_nonneg sep). induction 1 as [|t ts Ht Hts IH]; [done|]. destruct ts as [|u ts].
  - change (joined sep [t]) with t. rewrite zlen_cons. change (zlen (@nil (list Z))) with 0. pose proof (zlen_nonneg t). lia.
  - rewrite encoded_cons, !zlen_app, zlen_cons. lia.
Qed.

(** ** Total expressions have a meaning *)
Ltac split_all :=
  repeat match goal with
  | H : Forall _ (_ :: _) |- _ => let a := fresh "IH" in apply Forall_cons in H as [a H]
  | H : _ && _ = true |- _ => apply andb_true_iff in H as [? ?]
  | H : _ /\ _ |- _ => destruct H
  end.
Section meaning.
Context `{Hord : HostOrder} `{Surroundings} (ch : list scope) (os : list option_map).
Context (Hsm : small_scopes ch) (Hch : ok_scopes ch) (Hos : ok_options os).

Definition bounded (v : option (list Z)) (n : Z) : Prop := forall l, v = Some l -> zlen l <= n.
Definition has_boolean c e : Prop := exists v, bval ch os c e = Done v.
Definition has_data c e : Prop := exists v, dval ch os c e = Done v /\ bounded v (max_len e).
Definition has_number c e : Prop := exists v, nval ch os c e = Done v.
Definition defined (e : expression) : Prop := forall c, small_context os c -> ok_context c -> total e = true ->
  (typed e TBool = true -> has_boolean c e) /\ (typed e TData = true -> has_data c e) /\ (typed e TNum = true -> has_number c e).

Lemma option_defined o i : data_options os i -> exists v, option_value os o (Some i) = Done v /\ bounded v LIMIT.
Proof.
  intros (m & Hm & Hd). unfold option_value. rewrite Hm.
  destruct (if o_lookup o then m !! (o_universe o, o_code o) else None) as [oc|] eqn:E; [|by eexists].
  destruct (o_lookup o); [|done]. destruct (Hd _ _ E) as [Hb Hl]. simpl in Hl. destruct (d_buf (oc_data oc)) eqn:Eb; [|done].
  eexists. split; [done|]. by intros ? [= <-].
Qed.
Lemma given_defined o c : small_context os c -> exists v, option_value os o (in_options c) = Done v /\ bounded v LIMIT.
Proof.
  intros Hc. destruct (in_options c) as [i|] eqn:Ei; [|by eexists]. apply option_defined. by eapply sc_options.
Qed.
Lemma hardware_bounded c : small_context os c -> bounded (hardware_value c) LIMIT.
Proof.
  intros [_ Hp Hl Hcl] l. unfold hardware_value. destruct (client_of c) as [cl|] eqn:Ecl; [intros [= <-]; by apply Hcl|].
  destruct (packet_of c ≫= p_raw) as [raw|].
  - zcase; [done|]. intros [= <-]. rewrite zlen_cons. unfold zlen. rewrite length_take. unfold LIMIT. lia.
  - destruct (lease_of c) as [x|] eqn:El; [|done]. intros [= <-]. by destruct (Hl x) as (_ & ? & _).
Qed.
Lemma relay_small c n c' : small_context os c -> relay_context c n = Some c' -> small_context os c'.
Proof.
  intros Hc. unfold relay_context. destruct (n =? 0); [by intros [= <-]|]. destruct (packet_of c) as [p|] eqn:Ep; [|done]. cbn [mbind option_bind].
  destruct Hc as [_ Hp Hl Hcl]. destruct (Hp p Ep) as [_ Hcs].
  intros Hq. apply bind_Some in Hq as (q & Hq & Ec'). injection Ec' as <-.
  assert (Hin : q ∈ containers p).
  { destruct (containers p !! _) as [r|] eqn:Er; [injection Hq as <-; by eapply list_elem_of_lookup_2|].
    destruct (n <=? MAX_V6RELAY_HOPS); [done|]. apply last_Some in Hq as [k ->]. set_solver. }
  destruct (containers_tail _ p eq_refl q Hin) as [k Ek]. rewrite Ek in Hcs. apply Forall_app in Hcs as [_ Hcs].
  pose proof (Forall_inv Hcs) as Hq'. apply Forall_inv_tail in Hcs. simpl in Hq'. destruct Hq' as [Hs Ho].
  split; [by intros i [= <-]|intros p' [= <-]; by split|exact Hl|exact Hcl].
Qed.

Lemma relay_good c n c' : ok_context c -> relay_context c n = Some c' -> ok_context c'.
Proof.
  intros Hc. unfold relay_context. destruct (n =? 0); [by intros [= <-]|]. destruct (packet_of c) as [p|] eqn:Ep; [|done]. cbn [mbind option_bind].
  destruct Hc as [Hp Hl Hcl]. destruct (Hp p Ep) as [_ Hcs].
  intros Hq. apply bind_Some in Hq as (q & Hq & Ec'). injection Ec' as <-.
  assert (Hin : q ∈ containers p).
  { destruct (containers p !! _) as [r|] eqn:Er; [injection Hq as <-; by eapply list_elem_of_lookup_2|].
    destruct (n <=? MAX_V6RELAY_HOPS); [done|]. apply last_Some in Hq as [k ->]. set_solver. }
  destruct (containers_tail _ p eq_refl q Hin) as [k Ek]. rewrite Ek in Hcs. apply Forall_app in Hcs as [_ Hcs].
  pose proof (Forall_inv Hcs) as Hq'. apply Forall_inv_tail in Hcs. simpl in Hq'.
  split; [intros p' [= <-]; by split|exact Hl|exact Hcl].
Qed.
Lemma dval_bytes c e l : ok_context c -> ok_constants e -> dval ch os c e = Done (Some l) -> bytes l.
Proof using Hord Hch Hos.
  intros Hc Hk Hv. destruct (evaluators_ok ch os Hch Hos (height e) e ltac:(lia) Hk _ ltac:(done) c Hc) as (_ & Hd & _).
  destruct (Hd _ Hv) as (d & _ & Hs). by eapply str_bytes.
Qed.

Lemma any_defined c e : small_context os c -> ok_context c -> total e = true -> typed e TAny = true -> defined e -> exists v, meaning ch os c e = Done v.
Proof.
  intros Hc Hok Ht Hty Hd. destruct (Hd c Hc Hok Ht) as (Hb & Hda & Hn).
  assert (Hvar : forall n, exists v, Done (value_of <$> variable ch n) = Done v) by (intros n; by eexists).
  assert (Hm : is_boolean_expression e || is_data_expression e || is_numeric_expression e = true -> exists v,
    (if is_boolean_expression e then mapped VBool (bval ch os c e) else if is_numeric_expression e then mapped VNum (nval ch os c e)
     else if is_data_expression e then mapped VData (dval ch os c e) else Fault) = Done v).
  { intros Hi. destruct (is_boolean_expression e) eqn:B; [|destruct (is_numeric_expression e) eqn:N; [|destruct (is_data_expression e) eqn:D; [|done]]].
    - destruct (Hb ltac:(by destruct e)) as [v ->]. by eexists.
    - destruct (Hn ltac:(by destruct e)) as [v ->]. by eexists.
    - destruct (Hda ltac:(by destruct e)) as (v & -> & _). by eexists. }
  unfold meaning, any_of. destruct e; try (by apply Hvar); try discriminate Ht; by apply Hm.
Qed.

(** The cases that compute. *)
Lemma concat_defined c l r : has_data c l -> has_data c r -> (max_len l + max_len r <? 2 ^ 32) = true -> has_data c (expr_concat l r).
Proof.
  intros (v & Ev & Hv) (w & Ew & Hw) Hlen%Z.ltb_lt. unfold has_data. cbn [dval max_len]. rewrite Ev, Ew. dred.
  destruct v as [v|]; [|by eexists]. destruct w as [w|]; [|by eexists]. specialize (Hv v eq_refl). specialize (Hw w eq_refl).
  rewrite (proj2 (Z.ltb_lt _ _)) by lia. eexists. split; [done|]. intros ? [= <-]. rewrite zlen_app. lia.
Qed.
Lemma reverse_defined c w d : (w =? 0) = false -> 0 <= w -> has_data c d -> has_data c (expr_reverse (expr_const_int w) d).
Proof.
  intros Hw H0 (v & Ev & Hv). unfold has_data. cbn [dval nval max_len]. rewrite Ev. dred.
  destruct v as [l|]; [|by eexists]. unfold reverse_value. rewrite Hw. apply Z.eqb_neq in Hw.
  destruct (Z.eqb_spec (zlen l mod w) 0) as [Em|Em]; [|by eexists]. eexists. split; [done|]. intros ? [= <-].
  specialize (Hv l eq_refl). pose proof (zlen_nonneg l). pose proof (Z.div_mod (zlen l) w ltac:(lia)) as Hd.
  assert (0 <= zlen l / w) by (apply Z.div_pos; lia). unfold zlen in *. rewrite length_reversed; nia.
Qed.
Lemma b2a_defined c b s d : 2 <= b <= 16 -> has_data c s -> has_data c d -> ok_context c -> total d = true ->
  max_len d * (8 + max_len s) < 2 ^ 32 -> has_data c (expr_binary_to_ascii (expr_const_int b) (expr_const_int 8) s d).
Proof using Hord Hch Hos.
  intros Hb (v & Ev & Hv) (w & Ew & Hw) Hc Hk Hlen. unfold has_data. cbn [dval nval max_len]. rewrite Ev, Ew. dred.
  destruct v as [t|]; [|by eexists]. destruct w as [l|]; [|by eexists]. pose proof (dval_bytes c d l Hc (total_constants _ Hk) Ew) as Hbl.
  specialize (Hv t eq_refl). specialize (Hw l eq_refl). pose proof (zlen_nonneg l). pose proof (zlen_nonneg t).
  unfold b2a_value. change (8 / 8) with 1. rewrite Z.mod_1_r, Z.div_1_r. cbn [Z.eqb Pos.eqb orb andb].
  set (ps := pieces (Z.to_nat (zlen l)) (Z.to_nat 1) l).
  assert (Hps : Forall (fun p => 0 <= be_val p < 256) ps).
  { pose proof (pieces_zlen (Z.to_nat (zlen l)) 1 l ltac:(lia) ltac:(lia)) as Hwd.
    pose proof (pieces_bytes (Z.to_nat (zlen l)) (Z.to_nat 1) l Hbl) as Hby. fold ps in Hwd, Hby.
    rewrite List.Forall_forall in *. intros p Hin. specialize (Hwd p Hin). specialize (Hby p Hin). cbv beta in Hwd.
    pose proof (be_val_bound p Hby) as Hp. rewrite Hwd in Hp. exact Hp. }
  assert (Ht : zlen (joined t (number_text b ∘ be_val <$> ps)) <= max_len d * (8 + max_len s)).
  { etrans; [apply (joined_data_length _ _ 8)|].
    - apply Forall_fmap. eapply Forall_impl; [exact Hps|]. intros p Hp. simpl. by apply byte_text_length.
    - unfold zlen at 1. rewrite length_fmap. unfold ps. rewrite length_pieces. pose proof (max_len_nonneg d).
      rewrite Z2Nat.id by lia. apply Z.mul_le_mono_nonneg; lia. }
  rewrite (proj2 (Z.leb_le 2 b)), (proj2 (Z.leb_le b 16)), (proj2 (Z.ltb_lt _ _)) by lia.
  assert (Hf : forallb (fun p => short_text b (be_val p)) ps = true).
  { apply forallb_forall. rewrite List.Forall_forall in Hps. intros p Hin. apply short_byte; [done|]. by apply Hps. }
  rewrite Hf. cbn [andb]. eexists. split; [done|]. by intros ? [= <-].
Qed.

Lemma mapped_data {A} (f : A -> list Z) (m : outcome (option A)) n :
  (exists v, m = Done v /\ forall a, v = Some a -> zlen (f a) <= n) -> exists v, mapped f m = Done v /\ bounded v n.
Proof. intros (v & -> & Hv). destruct v as [a|]; eexists; (split; [done|]); intros l [= <-]; by apply Hv. Qed.
Lemma extract_defined w v : w <> 1 -> exists n, extract_value w v = Done n.
Proof.
  intros Hw. unfold extract_value. destruct v as [l|]; [|by eexists]. rewrite (proj2 (Z.eqb_neq w 1)) by done. zcase; by eexists.
Qed.

(** Every operator, given that its operands are defined. *)
Ltac operands :=
  repeat match goal with
  | IH : defined ?e, Hc : small_context os ?c, Hg : ok_context ?c, H : total ?e = true |- _ =>
      let b := fresh "Hb" in let d := fresh "Hd" in let n := fresh "Hn" in
      pose proof (IH c Hc Hg H) as (b & d & n); clear IH
  end;
  repeat match goal with
  | H : ?t = true -> has_boolean _ _, K : ?t = true |- _ => specialize (H K); destruct H as [? H]
  | H : ?t = true -> has_number _ _, K : ?t = true |- _ => specialize (H K); destruct H as [? H]
  | H : ?t = true -> has_data _ _, K : ?t = true |- _ => specialize (H K); destruct H as (? & H & ?)
  | H : ?m = Done _ |- context [?m] => rewrite H; dred
  end.

Lemma boolean_defined c e : Forall defined (children e) -> small_context os c -> ok_context c -> total e = true ->
  typed e TBool = true -> has_boolean c e.
Proof.
  intros IHs Hc Hg Ht Hty. unfold has_boolean.
  assert (Hany : forall e', defined e' -> total e' = true -> typed e' TAny = true -> exists v, any_of ch e' (bval ch os c e') (dval ch os c e') (nval ch os c e') = Done v)
    by (intros; by apply any_defined).
  destruct e; try discriminate Hty; try discriminate Ht; cbn [children total typed fits bval] in *; split_all.
  - destruct (Hany e1) as [v ->]; [done..|]. destruct (Hany e2) as [w ->]; [done..|]. by eexists.
  - destruct (Hany e1) as [v ->]; [done..|]. destruct (Hany e2) as [w ->]; [done..|]. by eexists.
  - operands. destruct (default false x0); by eexists.
  - operands. destruct (default false x0); by eexists.
  - operands. by eexists.
  - destruct (given_defined o c Hc) as (v & -> & _). by eexists.
  - by eexists.
  - by eexists.
  - by eexists.
  - by eexists.
Qed.

Lemma number_defined c e : Forall defined (children e) -> small_context os c -> ok_context c -> total e = true ->
  typed e TNum = true -> has_number c e.
Proof.
  intros IHs Hc Hg Ht Hty. unfold has_number.
  destruct e; try discriminate Hty; try discriminate Ht; cbn [children total typed fits nval] in *; try fold (dval ch os) in *; split_all.
  - operands. by apply extract_defined.
  - operands. by apply extract_defined.
  - by eexists.
  - by eexists.
  - operands. by eexists.
  - by eexists.
  - by eexists.
Qed.

(** The value is there, and its length is to be bounded. *)
Ltac value_of_data :=
  match goal with |- exists v, Done ?r = Done v /\ _ => exists r; split; [done|] end;
  let l := fresh "l" in let Hl := fresh "Hl" in intros l Hl; repeat (case_match; try done); simplify_eq;
  repeat match goal with B : bounded (Some ?l) _ |- _ => specialize (B l eq_refl) end.
Lemma zlen_sub {A} n k (l : list A) : zlen (take n (drop k l)) <= zlen l.
Proof. unfold zlen. rewrite length_take, length_drop. lia. Qed.

Lemma data_defined c e : Forall defined (children e) -> small_context os c -> ok_context c -> total e = true ->
  typed e TData = true -> has_data c e.
Proof.
  intros IHs Hc Hg Ht Hty.
  destruct e; try discriminate Hty; try discriminate Ht; cbn [children total typed fits] in *; split_all.
  1-4: unfold has_data; cbn [dval max_len]; try fold (nval ch os); operands.
  - value_of_data. etrans; [apply zlen_sub|done].
  - value_of_data. rewrite <- (take_ge (drop _ _) (length l0)) by (rewrite length_drop; lia). etrans; [apply zlen_sub|done].
  - apply mapped_data. eexists. split; [done|]. intros a ->; unfold zlen; rewrite length_fmap; match goal with B : bounded (Some _) _ |- _ => by apply B end.
  - apply mapped_data. eexists. split; [done|]. intros a ->; unfold zlen; rewrite length_fmap; match goal with B : bounded (Some _) _ |- _ => by apply B end.
  - apply (given_defined o c Hc).
  - eexists. split; [done|by apply hardware_bounded].
  - (* packet *)
    destruct e1, e2; try discriminate Ht. split_all. unfold has_data. cbn [dval nval max_len]. destruct (packet_of c) as [p|] eqn:Ep; [|by eexists].
    destruct (p_raw p) as [raw|] eqn:Er; [|by eexists]. dred. unfold packet_value. zcase; [by eexists|].
    rewrite (proj2 (Z.leb_gt _ _)) by (by apply Z.ltb_lt). eexists. split; [done|]. intros l [= <-].
    etrans; [apply zlen_sub|]. destruct (sc_packet os c Hc p Ep) as [Hp _]. by apply Hp.
  - eexists. split; [done|]. by intros l [= <-].
  - operands. apply concat_defined; [by eexists..|done].
  - unfold has_data; cbn [dval max_len]; operands. apply mapped_data. eexists. split; [done|]. intros a _. by rewrite zlen_be_bytes.
  - unfold has_data; cbn [dval max_len]; operands. apply mapped_data. eexists. split; [done|]. intros a _. by rewrite zlen_be_bytes.
  - unfold has_data; cbn [dval max_len]; operands. apply mapped_data. eexists. split; [done|]. intros a _. by rewrite zlen_be_bytes.
  - (* binary-to-ascii *)
    destruct e1, e2; try discriminate Ht. split_all. repeat match goal with H : _ = true |- _ => first [apply Z.leb_le in H|apply Z.ltb_lt in H|apply Z.eqb_eq in H] end.
    subst n0. operands. apply b2a_defined; [lia|by eexists..|done|done|done].
  - (* reverse *)
    destruct e1; try discriminate Ht. split_all. operands. apply reverse_defined; [by apply negb_true_iff|by apply in_range_ok|by eexists].
  - eexists. split; [done|]. intros l Hl. destruct (lease_of c) as [x|] eqn:El; [|done]. injection Hl as <-. by destruct (sc_lease os c Hc x El).
  - (* pick-first-value *)
    assert (IHa : defined e /\ match cdr with Some d => defined d | None => True end).
    { destruct cdr; cbn [children] in *; split_all; done. }
    destruct IHa as [IHa IHd]. operands. unfold has_data. cbn [dval max_len]. match goal with H : dval ch os c e = Done _ |- _ => rewrite H end. dred.
    destruct x as [l|].
    + eexists. split; [done|]. intros ? [= <-]. etrans; [|apply Z.le_max_l]. match goal with B : bounded _ _ |- _ => by apply B end.
    + destruct cdr as [d|]; [|by eexists]. operands. eexists. split; [done|]. intros l ->. etrans; [|apply Z.le_max_r].
      match goal with B : bounded (Some l) _ |- _ => by apply B end.
  - eexists. split; [done|]. intros l Hl. destruct (lease_of c) as [x|] eqn:El; [|done]. destruct (sc_lease os c Hc x El) as (_ & _ & Hh). by apply Hh.
  - by eexists.
  - (* v6relay *)
    match goal with IH1 : defined e1, IH2 : defined e2 |- _ => rename IH1 into IHn; rename IH2 into IHe end.
    destruct (IHn c Hc Hg) as (_ & _ & Hn); [done..|]. destruct Hn as [n Hn]; [done|]. unfold has_data. cbn [dval max_len]. fold (nval ch os).
    rewrite Hn. dred. destruct n as [n|]; cbn [mbind option_bind]; [|by eexists].
    destruct (relay_context c n) as [c'|] eqn:Er; [|by eexists].
    destruct (IHe c') as (_ & Hd & _); [by eapply relay_small|by eapply relay_good|done|]. by apply Hd.
  - eexists. split; [done|]. intros l Hl. cbn [max_len]. unfold variable in Hl. destruct (find_binding ch name) as [[w|]|] eqn:Eb; try done.
    destruct w; try done. injection Hl as <-. exact (Hsm _ _ Eb).
Qed.

Lemma all_defined e : defined e.
Proof using All.
  assert (Hn : forall n e, (height e <= n)%nat -> defined e).
  { induction n as [|n IH]; intros e' He; [pose proof (height_pos e'); lia|].
    assert (IHs : Forall defined (children e')).
    { eapply Forall_impl; [apply (height_children e')|]. intros x Hx. simpl in Hx. apply IH. lia. }
    intros c Hc Hg Ht. split_and!; [by apply boolean_defined|by apply data_defined|by apply number_defined]. }
  by apply (Hn (height e)).
Qed.
End meaning.

(** ** Computations that return *)
Section running.
Context `{Hord : HostOrder} `{Hsur : Surroundings} (c : context).

(** What expressions need of a state, and what statements need: the options
    they set are not those of a packet. *)
Record readable (s : state) : Prop := {
  rd_context : ok_context c;
  rd_scopes : ok_scopes (chain s);
  rd_options : ok_options (s_options s);
  rd_small : small_context (s_options s) c;
  rd_values : small_scopes (chain s) }.
Definition writable (s : state) : Prop :=
  exists j m, cfg_options c = Some j /\ s_options s !! j = Some m /\ in_options c <> Some j /\
    forall p q, packet_of c = Some p -> q ∈ containers p -> p_options q <> j.
Definition good (s : state) : Prop := readable s /\ writable s.

Lemma readable_logs l s : readable s -> readable (logs l s).
Proof. by intros []. Qed.
Lemma good_logs l s : good s -> good (logs l s).
Proof. intros [Hr Hw]. split; [by apply readable_logs|done]. Qed.

Definition returns {A} (m : ev A) (Q : A -> Prop) : Prop :=
  forall s, good s -> exists s' a, m s = Done (s', a) /\ good s' /\ Q a.

Lemma returns_ret {A} (a : A) (Q : A -> Prop) : Q a -> returns (ret a) Q.
Proof. intros HQ s Hs. by exists s, a. Qed.
Lemma returns_bind {A B} (m : ev A) (k : A -> ev B) (P : A -> Prop) (Q : B -> Prop) :
  returns m P -> (forall a, P a -> returns (k a) Q) -> returns (bind m k) Q.
Proof.
  intros Hm Hk s Hs. destruct (Hm s Hs) as (s1 & a & E & Hs1 & Ha). destruct (Hk a Ha s1 Hs1) as (s2 & b & E2 & Hs2 & Hb).
  exists s2, b. unfold bind. by rewrite E.
Qed.
Lemma returns_lift {A} (m : outcome A) a (Q : A -> Prop) : m = Done a -> Q a -> returns (lift m) Q.
Proof. intros -> HQ s Hs. by exists s, a. Qed.
Lemma returns_weaken {A} (m : ev A) Q : returns m Q -> returns m (fun _ => True).
Proof. intros Hm s Hs. destruct (Hm s Hs) as (s' & a & E & Hs' & _). by exists s', a. Qed.
Lemma returns_get : returns get good.
Proof. intros s Hs. by exists s, s. Qed.
Lemma returns_modify f (Q : unit -> Prop) : (forall s, good s -> good (f s)) -> Q tt -> returns (modify f) Q.
Proof. intros Hf HQ s Hs. exists (f s), tt. split_and!; auto. Qed.
Lemma returns_log x (Q : unit -> Prop) : Q tt -> returns (modify (log x)) Q.
Proof. intros HQ. apply returns_modify; [|done]. intros s Hs. exact (good_logs [x] s Hs). Qed.
Lemma returns_quiet {A} (m : ev A) (Q : A -> Prop) :
  (forall s, good s -> exists a, quiet (chain s) (s_options s) m a /\ Q a) -> returns m Q.
Proof.
  intros Hm s Hs. destruct (Hm s Hs) as (a & Hq & HQ). destruct (Hq s eq_refl eq_refl) as [l E].
  exists (logs l s), a. split_and!; [done|by apply good_logs|done].
Qed.

(** *** Expressions *)
Lemma expression_defined s e : readable s -> total e = true -> typed e TAny = true ->
  exists v, meaning (chain s) (s_options s) c e = Done v /\ forall l, v = Some (VData l) -> zlen l <= max_len e.
Proof using Hord.
  intros [Hc Hch Hos Hsm Hvs] Ht Hty.
  destruct (any_defined (chain s) (s_options s) c e Hsm Hc Ht Hty) as [v Ev]; [by apply all_defined|].
  exists v. split; [done|]. intros l ->. unfold meaning, any_of in Ev.
  assert (Hvar : forall n, Done (value_of <$> variable (chain s) n) = Done (Some (VData l)) -> zlen l <= LIMIT).
  { intros n Hn. injection Hn as Hn. unfold variable in Hn. destruct (find_binding (chain s) n) as [[w|]|] eqn:Eb; try done.
    destruct w; try done. injection Hn as <-. exact (Hvs _ _ Eb). }
  assert (Hm : (if is_boolean_expression e then mapped VBool (bval (chain s) (s_options s) c e)
      else if is_numeric_expression e then mapped VNum (nval (chain s) (s_options s) c e)
      else if is_data_expression e then mapped VData (dval (chain s) (s_options s) c e) else Fault) = Done (Some (VData l)) ->
    zlen l <= max_len e).
  { destruct (is_boolean_expression e) eqn:B; [|destruct (is_numeric_expression e) eqn:N; [|destruct (is_data_expression e) eqn:D; [|done]]];
      intros Hm; apply mapped_Done in Hm as (w & Ew & Hw); destruct w as [w|]; try done. injection Hw as ->.
    destruct (all_defined (chain s) (s_options s) Hvs Hch Hos e c Hsm Hc Ht) as (_ & Hd & _).
    destruct (Hd ltac:(by destruct e)) as (v & Ev' & Hv). apply Hv. congruence. }
  destruct e; try discriminate Ht; try (by apply (Hvar name)); by apply Hm.
Qed.
Lemma evaluators_good s e : readable s -> total e = true -> forall fuel, (2 * height e <= fuel)%nat ->
  B_ok (chain s) (s_options s) fuel c e /\ D_ok (chain s) (s_options s) fuel c e /\ N_ok (chain s) (s_options s) fuel c e.
Proof using Type.
  intros [Hc Hch Hos _ _] Ht fuel Hf. by apply (evaluators_ok (chain s) (s_options s) Hch Hos (height e)); [lia|apply total_constants|..].
Qed.

Lemma expression_returns s fuel e : readable s -> total e = true -> typed e TAny = true -> (2 * height e < fuel)%nat ->
  exists r, quiet (chain s) (s_options s) (evaluate_expression (evaluators_at fuel) c e) r /\
    (forall x, r.2 = Some x -> ok_value x /\ (max_len e <= LIMIT -> small_value x)).
Proof.
  intros Hs Ht Hty Hf. destruct fuel as [|fuel]; [lia|]. destruct (expression_defined s e Hs Ht Hty) as (v & Ev & Hl).
  destruct (evaluators_good s e Hs Ht fuel ltac:(lia)) as (Hb & Hd & Hn).
  destruct (any_step (chain s) (s_options s) (rd_scopes s Hs) fuel c e Hb Hd Hn v Ev) as (r & Hq & Hr). exists r. split; [done|].
  intros x Hx. destruct v as [v|]; simpl in Hr; [destruct Hr as (y & -> & Hy)|by subst r]. injection Hx as <-.
  destruct y as [b|d|n|f ps ss], v as [b'|l|n'|f']; try done; simpl in *.
  - pose proof (str_contents _ _ Hy) as Ec. rewrite Ec. split; [done|]. intros. specialize (Hl l eq_refl). lia.
  - by destruct Hy as [-> ?].
Qed.

Lemma returns_any fuel e : total e = true -> typed e TAny = true -> (2 * height e < fuel)%nat ->
  returns (evaluate_expression (evaluators_at fuel) c e) (fun r => forall x, r.2 = Some x -> ok_value x /\ (max_len e <= LIMIT -> small_value x)).
Proof using Type. intros Ht Hty Hf. apply returns_quiet. intros s [Hs _]. by apply expression_returns. Qed.
Lemma returns_data fuel e : total e = true -> typed e TData = true -> (2 * height e <= fuel)%nat ->
  returns (evaluate_data_expression (evaluators_at fuel) c null_string e) (fun r => r.1 = true -> exists l, str r.2 l).
Proof using Type.
  intros Ht Hty Hf. apply returns_quiet. intros s [Hs _]. pose proof Hs as [Hc Hch Hos Hsm Hvs].
  destruct (all_defined (chain s) (s_options s) Hvs Hch Hos e c Hsm Hc Ht) as (_ & Hd & _). destruct (Hd Hty) as (v & Ev & _).
  destruct (evaluators_good s e Hs Ht fuel Hf) as (_ & HD & _). specialize (HD v Ev). apply data_is_has in HD as (r & Hq & Hr).
  exists r. split; [done|]. intros Er. destruct v as [l|]; simpl in Hr; [|by subst r]. destruct Hr as (x & -> & Hx). by exists l.
Qed.
Lemma returns_num fuel e : total e = true -> typed e TNum = true -> (2 * height e <= fuel)%nat ->
  returns (evaluate_numeric_expression (evaluators_at fuel) c e) (fun _ => True).
Proof using Type.
  intros Ht Hty Hf. apply returns_quiet. intros s [Hs _]. pose proof Hs as [Hc Hch Hos Hsm Hvs].
  destruct (all_defined (chain s) (s_options s) Hvs Hch Hos e c Hsm Hc Ht) as (_ & _ & Hn). destruct (Hn Hty) as (v & Ev).
  destruct (evaluators_good s e Hs Ht fuel Hf) as (_ & _ & HN). destruct (HN v Ev) as [_ Hq]. by exists v.
Qed.
Lemma returns_bool fuel e : total e = true -> typed e TBool = true -> (2 * height e <= fuel)%nat ->
  returns (evaluate_boolean_expression (evaluators_at fuel) c e) (fun _ => True).
Proof using Type.
  intros Ht Hty Hf. apply returns_quiet. intros s [Hs _]. pose proof Hs as [Hc Hch Hos Hsm Hvs].
  destruct (all_defined (chain s) (s_options s) Hvs Hch Hos e c Hsm Hc Ht) as (Hb & _ & _). destruct (Hb Hty) as (v & Ev).
  destruct (evaluators_good s e Hs Ht fuel Hf) as (HB & _ & _). specialize (HB v Ev). by eexists.
Qed.

(** *** Variables *)
Lemma find_in_assign sc name w n v : find_in (assign_in sc name w) n = Some (Some v) -> find_in sc n = Some (Some v) \/ w = Some v.
Proof.
  induction sc as [|[m x] sc IH]; simpl; [done|]. destruct (same_name name m); simpl.
  - destruct (same_name n m); [intros [= ->]; by right|by left].
  - destruct (same_name n m); [by left|exact IH].
Qed.
Lemma find_in_assigned sc name w n : find_in (assign_in sc name w) n = None -> find_in sc n = None.
Proof.
  induction sc as [|[m x] sc IH]; simpl; [done|]. destruct (same_name name m); simpl; destruct (same_name n m); try done.
Qed.
Lemma find_assign ss name w n v : find_binding (assign ss name w) n = Some (Some v) -> find_binding ss n = Some (Some v) \/ w = Some v.
Proof.
  induction ss as [|sc ss IH]; simpl; [done|]. destruct (find_in sc name) as [y|]; simpl.
  - destruct (find_in (assign_in sc name w) n) as [z|] eqn:E.
    + intros [= ->]. apply find_in_assign in E as [->|]; [by left|by right].
    + apply find_in_assigned in E as ->. by left.
  - destruct (find_in sc n); [by left|exact IH].
Qed.
Lemma find_new ss name n v : find_binding (new_binding ss name) n = Some (Some v) -> find_binding ss n = Some (Some v).
Proof. destruct ss as [|sc ss]; [done|]. simpl. by destruct (same_name n name). Qed.
Lemma find_prefix ss k n v : find_binding (take k ss) n = Some v -> find_binding ss n = Some v.
Proof.
  revert k. induction ss as [|sc ss IH]; intros [|k]; simpl; try done. destruct (find_in sc n); [done|apply IH].
Qed.
Lemma find_set_chain ss s n v : find_binding (chain (set_chain ss s)) n = Some v -> find_binding ss n = Some v.
Proof.
  unfold chain, set_chain. simpl. destruct (s_root s) as [r|]; simpl; [by rewrite take_drop|]. rewrite app_nil_r. apply find_prefix.
Qed.

Lemma good_change s s' : good s -> s_options s' = s_options s ->
  (forall n v, find_binding (chain s') n = Some (Some v) -> find_binding (chain s) n = Some (Some v) \/ (ok_value v /\ small_value v)) ->
  good s'.
Proof.
  intros [[Hc Hch Hos Hsm Hvs] Hw] Ho Hf. split; [|unfold writable; by rewrite Ho].
  split; rewrite ?Ho; try done; intros n v Hv; destruct (Hf n v Hv) as [H|[? ?]]; eauto.
Qed.
Lemma good_assign name w s : good s -> (forall v, w = Some v -> ok_value v /\ small_value v) -> good (assign_value name w s).
Proof.
  intros Hs Hw. apply (good_change s); [done|done|]. intros n v Hv. unfold assign_value in Hv.
  apply find_set_chain, find_assign in Hv as [Hv|Hv]; [by left|right; by apply Hw].
Qed.
Lemma returns_set name (v : ev (option binding_value)) :
  returns v (fun x => forall w, x = Some w -> ok_value w /\ small_value w) -> returns (set_variable c name v) (fun _ => True).
Proof using Type.
  intros Hv. unfold set_variable. eapply returns_bind; [apply returns_get|]. intros s _.
  assert (Hgo : returns
     (modify (fun s => match s_locals s, s_root s with [], Some [] => set_scopes [] (Some [[]]) s | _, _ => s end);;;
      modify (fun s => match find_binding (chain s) name with Some _ => s | None => set_chain (new_binding (chain s) name) s end);;;
      modify (assign_value name None);;;
      x <~ v;
      match x with Some x => modify (assign_value name (Some x)) | None => ret tt end)%ev (fun _ => True)).
  { eapply (returns_bind _ _ (fun _ => True)); [apply returns_modify; [|done]|intros _ _].
    { intros s1 H1. destruct (s_locals s1) as [|? ?] eqn:El; [|done]. destruct (s_root s1) as [[|? ?]|] eqn:Er; try done.
      by apply (good_change s1). }
    eapply (returns_bind _ _ (fun _ => True)); [apply returns_modify; [|done]|intros _ _].
    { intros s1 H1. destruct (find_binding (chain s1) name); [done|]. apply (good_change s1); [done|done|].
      intros n w Hw. left. by apply find_set_chain, find_new in Hw. }
    eapply (returns_bind _ _ (fun _ => True)); [apply returns_modify; [|done]|intros _ _].
    { intros s1 H1. by apply good_assign. }
    eapply returns_bind; [exact Hv|]. intros [x|] Hx; [|by apply returns_ret].
    apply returns_modify; [|done]. intros s1 H1. by apply good_assign. }
  destruct (s_locals s) as [|? ?]; [destruct (s_root s)|]; try exact Hgo. by apply returns_log.
Qed.

(** *** Options *)
Definition ok_cache (oc : option_cache) : Prop := d_buf (oc_data oc) <> None -> str (oc_data oc) (contents (oc_data oc)).
Lemma returns_put o oc : ok_cache oc -> returns (put_option c o oc) (fun _ => True).
Proof using Type.
  intros Hoc s Hs. unfold put_option, save_option. destruct (negb (o_lookup o)); simpl.
  { exists (log Other s), tt. split_and!; [done|exact (good_logs [Other] s Hs)|done]. }
  destruct Hs as [[Hc Hch Hos Hsm Hvs] (j & m & Hj & Hm & Hi & Hq)]. rewrite Hj, Hm. dred.
  eexists _, tt. split; [done|]. split; [|done].
  assert (Hdata : forall i, i <> j -> data_options (s_options s) i -> data_options (<[j := <[(o_universe o, o_code o) := oc]> m]> (s_options s)) i).
  { intros i Hij (m' & Hm' & Hd). exists m'. split; [|done]. by rewrite list_lookup_insert_ne. }
  split; [split; try done|].
  - intros i m' k oc' Hl Hk Hb. simpl in Hl. destruct (decide (i = j)) as [->|Hne].
    + rewrite list_lookup_insert_eq in Hl by (by eapply lookup_lt_Some). injection Hl as <-.
      destruct (decide (k = (o_universe o, o_code o))) as [->|Hk'].
      * rewrite lookup_insert_eq in Hk. injection Hk as <-. by apply Hoc.
      * rewrite lookup_insert_ne in Hk by done. by eapply Hos.
    + rewrite list_lookup_insert_ne in Hl by done. by eapply Hos.
  - destruct Hsm as [Ho Hp Hl Hcl]. split; [|..|exact Hl|exact Hcl].
    + intros i Hin. apply Hdata; [|by apply Ho]. intros ->. by apply Hi.
    + intros p Hp'. destruct (Hp p Hp') as [Hs' Hcs]. split; [done|]. rewrite List.Forall_forall in *. intros q Hin.
      destruct (Hcs q Hin) as [? ?]. split; [done|]. apply Hdata; [|done]. apply (Hq p); [done|]. by apply list_elem_of_In.
  - exists j. eexists. simpl. split; [done|]. rewrite list_lookup_insert_eq by (by eapply lookup_lt_Some). done.
Qed.
Lemma returns_find o : returns (find_option c o) (fun _ => True).
Proof using Type.
  unfold find_option. intros s Hs. pose proof Hs as [_ (j & m & Hj & Hm & _)]. rewrite Hj. destruct (o_lookup o) eqn:El.
  - eexists s, _. split; [|done]. unfold bind, get, lift, lookup_option. dred. by rewrite Hm.
  - exists (log Other s), None. split_and!; [done|exact (good_logs [Other] s Hs)|done].
Qed.
Lemma returns_combine prepend new : o_dclist (oc_option new) = false -> ok_cache new -> returns (combine_option c prepend new) (fun _ => True).
Proof using Type.
  intros Hd Hnew. unfold combine_option. eapply returns_bind; [apply returns_find|]. intros [oc|] _; [|by apply returns_put].
  cbv zeta. rewrite Hd. cbn [andb]. set (e := match oc_expression oc with Some e => Some e | None => _ end).
  assert (Hc : forall l r, exists x, make_concat false l r = Done x) by (intros [l|] [r|]; by eexists).
  assert (exists x, (if prepend then make_concat false (oc_expression new) e else make_concat false e (oc_expression new)) = Done x) as [x Ex]
    by (destruct prepend; apply Hc).
  eapply (returns_bind _ _ (fun _ => True)); [by eapply returns_lift|]. intros [y|] _; [|by apply returns_ret].
  destruct (negb _); [by apply returns_log|]. by apply returns_put.
Qed.

(** *** Statements *)
Fixpoint total_statement (x : statement) {struct x} : bool :=
  match x with
  | statements_statement ss => forallb total_statement ss
  | switch_statement e ss => total e && forallb total_statement ss
  | if_statement e tc fc => total e && forallb total_statement tc && forallb total_statement fc
  | case_statement e | eval_statement e | return_statement e | log_statement _ e => total e
  | set_statement _ e => total e && (max_len e <=? LIMIT)
  | execute_statement _ args => forallb total args
  | supersede_option_statement _ d _ | send_option_statement _ d _ | default_option_statement _ d _ =>
      match d_buf d with Some _ => ok_string d | None => true end
  | append_option_statement o d _ | prepend_option_statement o d _ =>
      negb (o_dclist o) && match d_buf d with Some _ => ok_string d | None => true end
  | on_statement _ _ | define_statement _ _ _ _ | unset_statement _ | default_statement | break_statement | null_statement => true
  | add_statement _ | let_statement _ _ _ | vendor_opt_statement => false
  end.

(** The depth of the calls. *)
Definition most (l : list nat) : nat := foldr Nat.max 0%nat l.
Fixpoint cost (x : statement) {struct x} : nat :=
  match x with
  | statements_statement ss => S (most (map cost ss))
  | switch_statement e ss => Nat.max (2 * height e) (S (most (map cost ss)))
  | if_statement e tc fc => Nat.max (2 * height e) (S (Nat.max (most (map cost tc)) (most (map cost fc))))
  | case_statement e | log_statement _ e => 2 * height e
  | eval_statement e | return_statement e | set_statement _ e => S (2 * height e)
  | execute_statement _ args => most (map (fun e => 2 * height e)%nat args)
  | _ => 0%nat
  end.
Definition costs (ss : list statement) : nat := most (map cost ss).

(** What is asked of statements one after the other. *)
Definition fine (f : nat) (ss : list statement) : Prop :=
  forallb typed_statement ss = true /\ forallb total_statement ss = true /\ (costs ss <= f)%nat.
Lemma fine_cons f x ss : fine f (x :: ss) ->
  typed_statement x = true /\ total_statement x = true /\ (cost x <= f)%nat /\ fine f ss.
Proof.
  unfold fine, costs. simpl. rewrite !andb_true_iff. intros ([? ?] & [? ?] & ?). split_and!; done || lia.
Qed.

Section steps.
Context (f : nat).
Abbreviation Ev := (evaluators_at f).
Hypothesis IHf : forall f', f = S f' -> forall given res ss, fine f' ss ->
  returns (execute_statements Ev c given res ss) (fun _ => True).

Lemma returns_nested given res ss k : (S k <= f)%nat -> fine k ss -> returns (nested (execute_statements Ev c given res ss)) (fun _ => True).
Proof using IHf.
  intros Hf (Hty & Ht & Hc). unfold nested. eapply (returns_bind _ _ (fun _ => True)).
  - destruct f as [|f'] eqn:E; [lia|]. apply (IHf f' eq_refl). split_and!; [done|done|lia].
  - intros [status r] _. by apply returns_ret.
Qed.

Lemma after_default_fine k ss r : fine k ss -> after_default ss = Some r -> fine k r.
Proof.
  induction ss as [|x ss IH]; [done|]. intros Hs%fine_cons. destruct Hs as (_ & _ & _ & Hs).
  destruct x; try (by apply IH). by intros [= <-].
Qed.
Definition found_fine (k : nat) (r : option (list statement)) : Prop := forall ss, r = Some ss -> fine k ss.
Lemma returns_data_case k d ss : (exists l, str d l) -> (k <= f)%nat -> fine k ss ->
  forallb (fun x => match x with case_statement e' => typed e' TData | _ => true end) ss = true ->
  returns (find_data_case Ev c d ss) (found_fine k).
Proof using Type.
  intros [l Hl] Hk. induction ss as [|x ss IH]; intros Hs Hcs; [by apply returns_ret|].
  apply fine_cons in Hs as (_ & Ht & Hx & Hs). cbn [forallb] in Hcs. apply andb_true_iff in Hcs as [Hc1 Hcs]. specialize (IH Hs Hcs).
  destruct x; try exact IH. cbn [total_statement cost find_data_case] in *. eapply returns_bind; [apply returns_data; [done|done|lia]|].
  intros [sub cd] Hcd. simpl in Hcd.
  eapply (returns_bind _ _ (fun _ => True)); [|intros [] _; [by apply returns_ret; intros ? [= <-]|exact IH]].
  destruct sub; [|by apply returns_ret]. destruct (Hcd eq_refl) as [k' Hk']. cbn [andb]. destruct (Z.eqb_spec (d_len cd) (d_len d)) as [El|]; [|by apply returns_ret].
  eapply (returns_bind _ _ (fun _ => True)); [eapply returns_lift; [by apply ds_bytes_str|done]|]. intros y _.
  eapply (returns_bind _ _ (fun _ => True)); [eapply returns_lift; [rewrite El; by apply ds_bytes_str|done]|]. intros z _. by apply returns_ret.
Qed.
Lemma returns_numeric_case k n ss : (k <= f)%nat -> fine k ss ->
  forallb (fun x => match x with case_statement e' => typed e' TNum | _ => true end) ss = true ->
  returns (find_numeric_case Ev c n ss) (found_fine k).
Proof using Type.
  intros Hk. induction ss as [|x ss IH]; intros Hs Hcs; [by apply returns_ret|].
  apply fine_cons in Hs as (_ & Ht & Hx & Hs). cbn [forallb] in Hcs. apply andb_true_iff in Hcs as [Hc1 Hcs]. specialize (IH Hs Hcs).
  destruct x; try exact IH. cbn [total_statement cost find_numeric_case] in *. eapply returns_bind; [apply returns_num; [done|done|lia]|].
  intros m _. destruct (bool_decide _); [apply returns_ret; by intros ? [= <-]|exact IH].
Qed.
Lemma returns_matching e ss k : (2 * height e <= f)%nat -> (k <= f)%nat -> total e = true -> fine k ss ->
  (if is_data_expression e then typed e TData else typed e TNum) = true ->
  forallb (fun x => match x with case_statement e' => if is_data_expression e then typed e' TData else typed e' TNum | _ => true end) ss = true ->
  returns (find_matching_case Ev c e ss) (found_fine k).
Proof using Type.
  intros Hf Hk Ht Hs Hty Hcs. unfold find_matching_case. eapply (returns_bind _ _ (found_fine k)).
  - destruct (is_data_expression e).
    + eapply returns_bind; [by apply returns_data|]. intros [[] d] Hd; [|by apply returns_ret]. apply returns_data_case; [by apply Hd|done..].
    + eapply returns_bind; [by apply returns_num|]. intros [n|] _; [|by apply returns_ret]. by apply returns_numeric_case.
  - intros [r|] Hr; apply returns_ret; [exact Hr|]. intros r Er. by eapply after_default_fine.
Qed.
Lemma returns_arguments args : forallb (fun e => typed e TData) args = true -> forallb total args = true ->
  (most (map (fun e => 2 * height e)%nat args) <= f)%nat -> returns (arguments Ev c args) (fun _ => True).
Proof using Type.
  induction args as [|e args IH]; [intros; by apply returns_ret|]. cbn [forallb map most foldr arguments]. rewrite !andb_true_iff.
  intros [Hty Htys] [Ht Hts] Hf. fold (most (map (fun e => 2 * height e)%nat args)) in Hf.
  eapply returns_bind; [apply returns_data; [done|done|lia]|]. intros [[] d] Hd; [|by apply returns_ret].
  destruct (Hd eq_refl) as [l Hl]. simpl in Hl.
  eapply (returns_bind _ _ (fun _ => True)); [eapply returns_lift; [by apply ds_bytes_str|done]|]. intros b _.
  eapply (returns_bind _ _ (fun _ => True)); [apply IH; [done|done|lia]|]. intros r _. by apply returns_ret.
Qed.

Lemma ok_cache_of o d e : match d_buf d with Some _ => ok_string d | None => true end = true -> ok_cache (mk_cache o d e).
Proof. unfold ok_cache. simpl. destruct (d_buf d) eqn:E; [|done]. intros Hd _. by apply ok_string_str. Qed.
Lemma returns_value e : total e = true -> typed e TAny = true -> max_len e <= LIMIT -> (2 * height e < f)%nat ->
  returns ('(status, v) <~ evaluate_expression Ev c e; ret (if status : bool then v else None))%ev
    (fun x => forall w, x = Some w -> ok_value w /\ small_value w).
Proof using Type.
  intros Ht Hty Hl Hf. eapply returns_bind; [by apply returns_any|]. intros [[] v] Hv; apply returns_ret; [|done].
  intros w Hw. destruct (Hv w Hw). auto.
Qed.

Ltac then_ok := intros; apply returns_ret; done.
Lemma statement_returns given res x : typed_statement x = true -> total_statement x = true -> (cost x <= f)%nat ->
  returns (execute_statement_step Ev c given res x) (fun _ => True).
Proof using IHf.
  assert (Hres : forall A (m : ev A) k, returns m (fun _ => True) -> returns (m;;; ret (k : step_result))%ev (fun _ => True)).
  { intros A m k Hm. eapply returns_bind; [exact Hm|then_ok]. }
  assert (Hput : forall o d e (m : ev unit), ok_cache (mk_cache o d e) -> m = put_option c o (mk_cache o d e) -> returns m (fun _ => True))
    by (intros o d e m Hoc ->; by apply returns_put).
  intros Hty Ht Hc. destruct x; try discriminate Ht; cbn [typed_statement total_statement cost execute_statement_step] in *; split_all.
  - apply (returns_nested _ _ _ (costs ss)); [exact Hc|]. by split_and!.
  - apply Hres. unfold on_events. apply returns_modify; [|done]. intros s Hs. destruct given; [by apply (good_change s); auto|].
    destruct (lease_of c); [by apply (good_change s); auto|done].
  - fold (costs ss) in Hc. assert (Hss : fine (costs ss) ss) by by split_and!.
    eapply returns_bind; [apply (returns_matching _ _ (costs ss)); [lia|lia|done|done|done|done]|].
    intros [r|] Hr; [|then_ok]. apply (returns_nested _ _ _ (costs ss)); [lia|by apply Hr].
  - by apply returns_ret.
  - by apply returns_ret.
  - fold (costs tc) (costs fc) in Hc.
    assert (Htf : fine (Nat.max (costs tc) (costs fc)) tc /\ fine (Nat.max (costs tc) (costs fc)) fc) by (split; split_and!; done || lia).
    eapply returns_bind; [apply returns_bool; [done|done|lia]|]. intros [status b] _.
    eapply returns_nested; [|by destruct (status && default false b); apply Htf]. lia.
  - apply Hres. eapply returns_weaken. apply returns_any; [done|done|lia].
  - eapply returns_bind; [by apply returns_arguments|]. intros [l|] _; (eapply (returns_bind _ _ (fun _ => True)); [|then_ok]); [by apply returns_log|by apply returns_ret].
  - eapply returns_bind; [apply returns_any; [done|done|lia]|]. intros [status v] _. then_ok.
  - by apply returns_ret.
  - apply Hres. by eapply Hput, eq_refl; apply ok_cache_of.
  - apply Hres. by eapply Hput, eq_refl; apply ok_cache_of.
  - eapply returns_bind; [apply returns_find|]. intros [old|] _; apply Hres; [by apply returns_ret|].
    by eapply Hput, eq_refl; apply ok_cache_of.
  - apply Hres, returns_combine; [by apply negb_true_iff|by apply ok_cache_of].
  - apply Hres, returns_combine; [by apply negb_true_iff|by apply ok_cache_of].
  - apply Hres, returns_set, returns_value; [done|done|by apply Z.leb_le|lia].
  - apply Hres, returns_set, returns_ret. by intros w [= <-].
  - apply Hres, returns_modify; [|done]. intros s Hs. by apply good_assign.
  - assert (Hdata : forall k, (forall b : list Z, returns (k b) (fun _ => True)) ->
      returns ('(status, d) <~ evaluate_data_expression Ev c null_string e;
        if status : bool then t <~ lift (ds_bytes d); k t else ret (inl res : step_result))%ev (fun _ => True)).
    { intros k Hk. eapply returns_bind; [apply returns_data; [done|by destruct priority|lia]|]. intros [[] d] Hd; [|then_ok].
      destruct (Hd eq_refl) as [l Hl]. eapply (returns_bind _ _ (fun _ => True)); [eapply returns_lift; [by apply ds_bytes_str|done]|auto]. }
    destruct priority; [done|apply Hdata; intros b; apply Hres; by apply returns_log..].
  - apply Hres. by apply returns_log.
Qed.

Lemma statements_return ss : forall given res, fine f ss -> returns (statements_step Ev c given res ss) (fun _ => True).
Proof using IHf.
  induction ss as [|x ss IH]; intros given res Hs; cbn [statements_step]; [by apply returns_ret|].
  apply fine_cons in Hs as (Hty & Ht & Hx & Hs).
  assert (Hgo : returns (f <~ execute_statement_step Ev c given res x;
      match f with inl res => statements_step Ev c given res ss | inr out => ret out end)%ev (fun _ => True)).
  { eapply returns_bind; [by apply statement_returns|]. intros [r|out] _; [by apply IH|by apply returns_ret]. }
  destruct res as [[v|]|]; [by apply returns_ret|exact Hgo..].
Qed.
End steps.

Lemma execution_returns f : forall given res ss, fine f ss ->
  returns (execute_statements (evaluators_at (S f)) c given res ss) (fun _ => True).
Proof using Type.
  induction f as [|f IH]; intros given res ss Hs; change (evaluators_at (S ?n)) with (evaluators_step (evaluators_at n));
    cbn [execute_statements evaluators_step]; apply statements_return; try done; intros f' [= <-]; exact IH.
Qed.
End running.

(** ** Typed expressions and statements *)



(** ** Samples: a call, and a program of total statements *)
Module TotalSample.
Import Sample.
Definition text (l : list Z) : expression := expr_const_data (ds_new l true).
Definition v_hardware : expression := expr_substring expr_hardware (expr_const_int 1) (expr_const_int 3).
Definition v_text : expression :=
  expr_binary_to_ascii (expr_const_int 10) (expr_const_int 8) (text [46]) (expr_variable_reference [118]).
(** [set v = substring (hardware, 1, 3);
     if binary-to-ascii (10, 8, ".", v) = "7.7.7" { option 12 = concat (v, "x"); log (info, "seen"); }] *)
Definition program : list statement :=
  [set_statement [118] v_hardware;
   if_statement (expr_equal v_text (text [55; 46; 55; 46; 55]))
     [supersede_option_statement (mk_option 0 12 true false) null_string (Some (expr_concat (expr_variable_reference [118]) (text [120])));
      log_statement log_priority_info (text [115; 101; 101; 110])] []].

#[local] Existing Instance around.
#[local] Existing Instance little.

Lemma ctx_raw p raw : packet_of ctx = Some p -> p_raw p = Some raw -> raw = replicate 300 7 /\ p_length p = 300 /\ p_container p = None.
Proof. intros Hp Hr. assert (Ep : Some p = packet_of ctx) by done. revert Ep Hr. by intros [= ->] [= <-]. Qed.
Lemma ctx_ok : ok_context ctx.
Proof.
  split; [|done..]. intros p Hp. assert (Hq : containers p = []) by (by injection Hp as <-). rewrite Hq. split; [|constructor].
  intros raw Hraw. destruct (ctx_raw p raw Hp Hraw) as (-> & -> & _). split; [by apply Forall_replicate|]. by vm_compute.
Qed.
Lemma start_readable : readable ctx start.
Proof.
  assert (Hv : forall n v, find_binding (chain start) n = Some (Some v) -> exists f ps ss, v = binding_function f ps ss).
  { intros n v. unfold chain. simpl. destruct (same_name n [102]); [|done]. intros [= <-]. by eexists _, _, _. }
  split; [apply ctx_ok|..].
  - intros n v Hn. by destruct (Hv n v Hn) as (? & ? & ? & ->).
  - intros i m k oc Hi Hm. assert (m = ∅) as -> by (destruct i as [|[|i]]; [by injection Hi as <-..|by destruct i]). by rewrite lookup_empty in Hm.
  - split; [|..|done|done].
    + intros i [= <-]. exists ∅. split; [done|apply map_Forall_empty].
    + intros p Hp. assert (Hq : containers p = []) by (by injection Hp as <-). rewrite Hq. split; [|constructor].
      intros raw Hraw. destruct (ctx_raw p raw Hp Hraw) as (-> & _). by vm_compute.
  - intros n v Hn. by destruct (Hv n v Hn) as (? & ? & ? & ->).
Qed.
Lemma start_good : good ctx start.
Proof.
  split; [apply start_readable|]. exists 1%nat, ∅. split_and!; [done|done|done|]. intros p q [= <-] Hq. by apply not_elem_of_nil in Hq.
Qed.
End TotalSample.



(** The program sets its option. *)
Example total_sample_runs :
  match execute_statements (@evaluators_at Sample.little Sample.around 12) Sample.ctx false None TotalSample.program Sample.start with
  | Done (s', _) => s_log s' = [Logged log_priority_info [115; 101; 101; 110]] /\ find_binding (chain s') [118] <> None
  | _ => False
  end.
Proof. vm_compute. split; done. Qed.
