(* ===== verification/FailoverQueue.v ===== *)
(** * The queues of updates for a failover peer (server/failover.c)

    A lease whose peer has to be told about it is on the update queue; when
    the update has been sent, it is on the ack queue until the peer has
    acknowledged it.  Both queues are linked by the same member of the lease,
    [next_pending], so that the operations move leases between them in place.
    Reference counts are not modelled.

    Messages to the peer, commits of the lease file and timeouts are listed
    as effects.  The n-th effect, if it is a commit or a message, succeeds or
    fails as an oracle says. *)

From stdpp Require Import base tactics list numbers gmap.
From S2P Require Import Prelude.

#[local] Open Scope Z_scope.

(** ** Data *)

(** What is known of a lease. *)
Record lease_info := mk_info {
  last_xid : Z;
  binding_state : Z;
  desired_binding_state : Z;
  rewind_binding_state : Z;
  tstp : Z;
  atsfp : Z }.
Record node := mk_node {
  next_pending : option nat;
  on_update : bool;   (** [ON_UPDATE_QUEUE] *)
  on_ack : bool;      (** [ON_ACK_QUEUE] *)
  info : lease_info }.
Definition set_next (x : option nat) (n : node) : node := mk_node x (on_update n) (on_ack n) (info n).
Definition set_flags (u a : bool) (n : node) : node := mk_node (next_pending n) u a (info n).
Definition on_info (f : lease_info -> lease_info) (n : node) : node := mk_node (next_pending n) (on_update n) (on_ack n) (f (info n)).
Definition set_xid (x : Z) (l : lease_info) : lease_info :=
  mk_info x (binding_state l) (desired_binding_state l) (rewind_binding_state l) (tstp l) (atsfp l).
Definition set_rewind (l : lease_info) : lease_info :=
  mk_info (last_xid l) (binding_state l) (desired_binding_state l) (binding_state l) (tstp l) (atsfp l).
Definition set_desired (l : lease_info) : lease_info :=
  mk_info (last_xid l) (binding_state l) (binding_state l) (rewind_binding_state l) (tstp l) (atsfp l).

(** The timeouts of the state machine, by the function that is called. *)
Inductive timer := keepalive | startup_timeout | auto_partner_down_timeout | recover_done_timeout | send_contact | failover_timeout
  | pool_rebalance.

Inductive effect :=
  | BndUpd (lease : nat) (xid : Z)
  | BndAck (msg : nat)
  | UpdDone (xid : Z)
  | WriteLease (lease : nat)
  | Commit
  | AckTimer                               (** the timeout of two seconds that sends the acks *)
  | State (xid state flags stos : Z)       (** the other messages of the protocol *)
  | UpdReq (xid : Z)
  | UpdReqAll (xid : Z)
  | RecordState (me stos partner partner_stos : Z)   (** [write_failover_state] *)
  | SetTimer (t : timer) (at_ : Z)
  | CancelTimer (t : timer)
  | PoolBalance                            (** leases change hands between the peers *)
  | PoolCheck
  | FreeExpired (tsfp : Z).                (** expired leases become free from then on *)

Record queues := mk_queues {
  nodes : gmap nat node;
  update_head : option nat;
  update_tail : option nat;
  ack_head : option nat;
  ack_tail : option nat;
  cur_unacked_updates : Z;
  toack : list nat;       (** messages of the peer that have to be acknowledged, [toack_queue_head] *)
  pending_acks : Z;
  link_to_peer : option Z;   (** with the transaction that comes next *)
  send_update_done : option nat;
  updxid : Z;
  effects : list effect }.

Definition set_nodes (m : gmap nat node) (q : queues) : queues :=
  mk_queues m (update_head q) (update_tail q) (ack_head q) (ack_tail q) (cur_unacked_updates q) (toack q) (pending_acks q)
    (link_to_peer q) (send_update_done q) (updxid q) (effects q).
Definition set_update (h t : option nat) (q : queues) : queues :=
  mk_queues (nodes q) h t (ack_head q) (ack_tail q) (cur_unacked_updates q) (toack q) (pending_acks q)
    (link_to_peer q) (send_update_done q) (updxid q) (effects q).
Definition set_ack (h t : option nat) (n : Z) (q : queues) : queues :=
  mk_queues (nodes q) (update_head q) (update_tail q) h t n (toack q) (pending_acks q)
    (link_to_peer q) (send_update_done q) (updxid q) (effects q).
Definition set_toack (l : list nat) (n : Z) (q : queues) : queues :=
  mk_queues (nodes q) (update_head q) (update_tail q) (ack_head q) (ack_tail q) (cur_unacked_updates q) l n
    (link_to_peer q) (send_update_done q) (updxid q) (effects q).
Definition set_link (x : option Z) (q : queues) : queues :=
  mk_queues (nodes q) (update_head q) (update_tail q) (ack_head q) (ack_tail q) (cur_unacked_updates q) (toack q) (pending_acks q)
    x (send_update_done q) (updxid q) (effects q).
Definition set_done (l : option nat) (x : Z) (q : queues) : queues :=
  mk_queues (nodes q) (update_head q) (update_tail q) (ack_head q) (ack_tail q) (cur_unacked_updates q) (toack q) (pending_acks q)
    (link_to_peer q) l x (effects q).
Definition emit (e : effect) (q : queues) : queues :=
  mk_queues (nodes q) (update_head q) (update_tail q) (ack_head q) (ack_tail q) (cur_unacked_updates q) (toack q) (pending_acks q)
    (link_to_peer q) (send_update_done q) (updxid q) (effects q ++ [e]).

Definition node_at (q : queues) (i : nat) : outcome node := match nodes q !! i with Some n => Done n | None => Fault end.
Definition on_node (q : queues) (i : nat) (f : node -> node) : outcome queues :=
  n ← node_at q i; Done (set_nodes (<[i := f n]> (nodes q)) q).
Definition the {A} (x : option A) : outcome A := match x with Some a => Done a | None => Fault end.

(** Loops go along a queue, which has at most as many leases as there are. *)
Definition fuel (q : queues) : nat := S (size (nodes q)).

Section peer.
(** How many updates may be under way, whether the n-th effect succeeds. *)
Context (max_flying : Z) (sends commits : nat -> bool).

(** ** Operations *)
Fixpoint mark_update (n : nat) (h : option nat) (m : gmap nat node) : outcome (gmap nat node) :=
  match h with
  | None => Done m
  | Some i =>
      match n with
      | O => Running
      | S n' => match m !! i with None => Fault | Some x => mark_update n' (next_pending x) (<[i := set_flags true false x]> m) end
      end
  end.
Definition rescind_updates (q : queues) : outcome queues :=
  match ack_tail q with
  | None => Done q
  | Some at_ =>
      m ← mark_update (fuel q) (ack_head q) (nodes q);
      let q := set_nodes m q in
      q ← (match update_head q with Some _ => on_node q at_ (set_next (update_head q)) | None => Done q end);
      let q := set_update (ack_head q) (match update_tail q with None => Some at_ | t => t end) q in
      Done (set_ack None None 0 q)
  end.

(** The lease before the given one, if the walk comes to it. *)
Fixpoint find_before (n : nat) (m : gmap nat node) (h : option nat) (lease : nat) : outcome (option nat) :=
  match h with
  | None => Done None
  | Some i =>
      match n with
      | O => Running
      | S n' =>
          match m !! i with
          | None => Fault
          | Some x => if bool_decide (next_pending x = Some lease) then Done (Some i) else find_before n' m (next_pending x) lease
          end
      end
  end.
Definition commit (q : queues) : queues * bool := (emit Commit q, commits (length (effects q))).

(** The last part of the removal, once the lease is unlinked. *)
Definition ack_queue_left (q : queues) (lease : nat) : outcome queues :=
  q ← on_node q lease (fun n => on_info (set_xid 0) (set_flags (on_update n) false n));
  let q := set_ack (ack_head q) (ack_tail q) (cur_unacked_updates q - 1) q in
  Done (if cur_unacked_updates q =? 0 then (commit q).1 else q).
Definition ack_queue_remove (q : queues) (lease : nat) : outcome queues :=
  n ← node_at q lease;
  if negb (on_ack n) then Done q
  else if bool_decide (ack_head q = Some lease) then
    match next_pending n with
    | Some x => q ← on_node q lease (set_next None); ack_queue_left (set_ack (Some x) (ack_tail q) (cur_unacked_updates q) q) lease
    | None => ack_queue_left (set_ack None None (cur_unacked_updates q) q) lease
    end
  else
    p ← find_before (fuel q) (nodes q) (ack_head q) lease;
    match p with
    | None => Done q
    | Some lp =>
        match next_pending n with
        | Some x => q ← on_node q lp (set_next (Some x)); q ← on_node q lease (set_next None); ack_queue_left q lease
        | None => q ← on_node q lp (set_next None); ack_queue_left (set_ack (ack_head q) (Some lp) (cur_unacked_updates q) q) lease
        end
    end.

(** [dhcp_failover_send_bind_update]: the transaction is never 0; a change of
    state that the peer may come to know cannot be taken back any more, which
    the lease file has to know first. *)
Definition send_bind_update (q : queues) (lease : nat) : outcome (queues * bool) :=
  match link_to_peer q with
  | None => Done (q, false)
  | Some x =>
      let xid := if x =? 0 then 1 else x in
      q ← on_node (set_link (Some (u32 (xid + 1))) q) lease (on_info (set_xid xid));
      n ← node_at q lease;
      q ← (if rewind_binding_state (info n) =? binding_state (info n) then Done q
           else q ← on_node q lease (on_info set_rewind); Done (commit (emit (WriteLease lease) q)).1);
      Done (emit (BndUpd lease xid) q, sends (length (effects q)))
  end.

Definition send_bind_ack (q : queues) (msg : nat) : queues :=
  match link_to_peer q with None => q | Some _ => emit (BndAck msg) q end.
Definition send_acks (q : queues) : queues :=
  let '(q, ok) := commit q in
  if negb ok then q else set_toack [] 0 (foldl send_bind_ack q (toack q)).

(** One turn: the head of the update queue becomes the tail of the ack queue. *)
Definition take_update (q : queues) (lp : nat) : outcome queues :=
  q ← on_node q lp (fun n => set_flags false (on_ack n) n);
  n ← node_at q lp;
  match next_pending n with
  | Some x => on_node (set_update (Some x) (update_tail q) q) lp (set_next None)
  | None => Done (set_update None None q)
  end.
Definition put_ack (q : queues) (lp : nat) : outcome queues :=
  q ← (match ack_head q with
       | Some _ => t ← the (ack_tail q); on_node q t (set_next (Some lp))
       | None => Done (set_ack (Some lp) (ack_tail q) (cur_unacked_updates q) q)
       end);
  q ← on_node (set_ack (ack_head q) (Some lp) (cur_unacked_updates q) q) lp (fun n => set_flags (on_update n) true n);
  Done (set_ack (ack_head q) (ack_tail q) (cur_unacked_updates q + 1) q).
Definition send_one (q : queues) (lp : nat) : outcome (queues * bool) :=
  '(q, ok) ← send_bind_update q lp;
  if negb ok then Done (q, false)
  else q ← take_update q lp; q ← put_ack q lp; Done (q, true).
Fixpoint send_loop (n : nat) (q : queues) : outcome queues :=
  if u32 (cur_unacked_updates q) <? max_flying then
    match update_head q with
    | None => Done q
    | Some lp =>
        match n with
        | O => Running
        | S n' => '(q, ok) ← send_one q lp; if ok : bool then send_loop n' q else Done q
        end
    end
  else Done q.
Definition send_updates (q : queues) : outcome queues :=
  match link_to_peer q with
  | None => Done q
  | Some _ =>
      let q := match toack q with [] => q | _ => send_acks q end in
      send_loop (fuel q) q
  end.

(** [dhcp_failover_queue_update] for a lease of a pool with this peer. *)
Definition put_update (q : queues) (lease : nat) : outcome queues :=
  q ← (match update_head q with
       | Some h => t ← the (update_tail q); q ← on_node q t (set_next (Some lease)); Done (set_update (Some h) (Some lease) q)
       | None => Done (set_update (Some lease) (Some lease) q)
       end);
  on_node q lease (fun n => set_flags true (on_ack n) n).
Definition queue_update (q : queues) (lease : nat) (immediate : bool) : outcome queues :=
  n ← node_at q lease;
  if on_update n then Done q
  else
    q ← (if on_ack n then ack_queue_remove q lease else Done q);
    q ← put_update q lease;
    if immediate then send_updates q else Done q.

(** [dhcp_failover_queue_ack] and the timeout that it sets. *)
Definition queue_ack (q : queues) (msg : nat) : queues :=
  let q := set_toack (toack q ++ [msg]) (pending_acks q + 1) q in
  let q := if max_flying / 2 <=? u32 (pending_acks q) then send_acks q else q in
  if 0 <? pending_acks q then emit AckTimer q else q.
Definition toack_queue_timeout (q : queues) : queues := send_acks q.

Definition send_upd_done (q : queues) : queues :=
  match link_to_peer q with
  | None => q
  | Some _ => let q := emit (UpdDone (updxid q)) q in (commit (set_done (send_update_done q) (u32 (updxid q - 1)) q)).1
  end.

(** [dhcp_failover_process_bind_ack] from [unqueue] on, when the lease is not
    to go to the peer: a rejected update or a second ack comes here at once. *)
Definition bind_ack_unqueue (q : queues) (lease : nat) : outcome queues :=
  q ← ack_queue_remove q lease;
  let q := if bool_decide (send_update_done q = Some lease) then send_upd_done (set_done None (updxid q) q) else q in
  send_updates q.

(** [dhcp_failover_generate_update_queue]: the leases of the pools of this
    peer, in the order of the queues of each pool; the flag is set for those of
    the queue of expired leases. *)
Fixpoint generate_update_queue (everythingp : bool) (ls : list (bool * nat)) (q : queues) : outcome queues :=
  match ls with
  | [] => Done q
  | (expired, l) :: ls =>
      n ← node_at q l;
      q ← (if negb (on_update n) && negb (on_ack n) && (everythingp || (atsfp (info n) <? tstp (info n)) || expired)
           then q ← on_node q l (on_info set_desired); queue_update q l false
           else Done q);
      generate_update_queue everythingp ls q
  end.

(** [dhcp_failover_process_update_request] and [.._all]. *)
Definition process_update_request (everythingp : bool) (ls : list (bool * nat)) (q : queues) (xid : Z) : outcome queues :=
  q ← generate_update_queue everythingp ls (set_done None (updxid q) q);
  match update_tail q with
  | Some t => send_updates (set_done (Some t) xid q)
  | None => Done (send_upd_done (set_done (send_update_done q) xid q))
  end.
End peer.
