(* ===== verification/FailoverQueueList.v ===== *)
(** * The queues of updates are two lists

    The linked structure of FailoverQueue stands for two lists of leases, and
    each operation does to it what it should do to the lists. *)

From stdpp Require Import base tactics list numbers gmap.
From S2P Require Import Prelude FailoverQueue.

#[local] Open Scope Z_scope.

(** ** What the structure stands for

    [U] are the leases on the update queue, [A] those on the ack queue. *)
Fixpoint after (l : list nat) (i : nat) : option nat :=
  match l with [] => None | x :: r => if decide (x = i) then head r else after r i end.
Definition link_of (U A : list nat) (i : nat) : option nat := if decide (i ∈ U) then after U i else after A i.
Definition stands (U A : list nat) (i : nat) (n : node) : Prop :=
  next_pending n = link_of U A i /\ on_update n = bool_decide (i ∈ U) /\ on_ack n = bool_decide (i ∈ A).

Record stands_for (q : queues) (U A : list nat) : Prop := {
  known : forall i, i ∈ U ++ A -> is_Some (nodes q !! i);
  all_stand : map_Forall (stands U A) (nodes q);
  apart : NoDup (U ++ A);
  update_first : update_head q = head U;
  update_last : update_tail q = last U;
  ack_first : ack_head q = head A;
  ack_last : ack_tail q = last A;
  counted : cur_unacked_updates q = zlen A }.

Lemma after_notin l i : i ∉ l -> after l i = None.
Proof.
  induction l as [|x l IH]; [done|]. intros Hi%not_elem_of_cons. simpl. rewrite decide_False by (intros ->; tauto). apply IH. tauto.
Qed.
Lemma after_here l i k : i ∉ l -> after (l ++ i :: k) i = head k.
Proof.
  induction l as [|x l IH]; simpl; [by rewrite decide_True|]. intros Hi%not_elem_of_cons. rewrite decide_False by (intros ->; tauto). apply IH. tauto.
Qed.
Lemma after_app_l l k i : i ∈ l -> last l <> Some i -> after (l ++ k) i = after l i.
Proof.
  induction l as [|x l IH]; [by intros ?%not_elem_of_nil|]. intros Hi Hl. simpl. destruct (decide (x = i)) as [->|N].
  - destruct l as [|y l]; [done|done].
  - apply elem_of_cons in Hi as [->|Hi]; [done|]. destruct l as [|y l]; [by apply not_elem_of_nil in Hi|]. apply IH; [done|]. by rewrite last_cons_cons in Hl.
Qed.
Lemma after_last l i : NoDup l -> last l = Some i -> after l i = None.
Proof. intros Hn Hl. apply last_Some in Hl as [k ->]. rewrite after_here; [done|]. apply NoDup_app in Hn as (_ & Hk & _). intros Hi. apply (Hk i Hi). by left. Qed.
Lemma after_joint l k i : NoDup (l ++ k) -> last l = Some i -> after (l ++ k) i = head k.
Proof.
  intros Hn Hl. apply last_Some in Hl as [l' ->]. rewrite <- app_assoc in *. simpl in *. apply after_here. apply NoDup_app in Hn as (_ & Hk & _). intros Hi. apply (Hk i Hi). by left.
Qed.
Lemma after_app_r l k i : i ∉ l -> after (l ++ k) i = after k i.
Proof. induction l as [|x l IH]; [done|]. intros Hi%not_elem_of_cons. simpl. rewrite decide_False by (intros ->; tauto). apply IH. tauto. Qed.

(** *** Moving leases *)

(** The lists after a lease is taken out. *)
Definition without (l : list nat) (i : nat) : list nat := filter (fun j => j <> i) l.
Lemma without_notin l i : i ∉ l -> without l i = l.
Proof.
  unfold without. induction l as [|x l IH]; [done|]. intros Hi%not_elem_of_cons. rewrite filter_cons_True by (intros ->; tauto). f_equal. apply IH. tauto.
Qed.
Lemma without_split l i k : i ∉ l -> i ∉ k -> without (l ++ i :: k) i = l ++ k.
Proof.
  intros Hl Hk. unfold without. rewrite list.filter_app, filter_cons_False by tauto. fold (without l i) (without k i). by rewrite !without_notin.
Qed.
Lemma in_split (l : list nat) i : NoDup l -> i ∈ l -> exists l1 l2, l = l1 ++ i :: l2 /\ (i ∉ l1) /\ (i ∉ l2).
Proof.
  intros Hn Hi. apply list_elem_of_split in Hi as (l1 & l2 & ->). exists l1, l2. split; [done|]. apply NoDup_app in Hn as (_ & H1 & Hn).
  apply NoDup_cons in Hn as [H2 _]. split; [|done]. intros Hi. apply (H1 i Hi). by left.
Qed.

Lemma on_node_Done q i n f : nodes q !! i = Some n -> on_node q i f = Done (set_nodes (<[i := f n]> (nodes q)) q).
Proof. intros E. unfold on_node, node_at. rewrite E. by dred. Qed.
Lemma length_known (m : gmap nat node) l : NoDup l -> (forall i, i ∈ l -> is_Some (m !! i)) -> (length l <= size m)%nat.
Proof.
  intros Hn Hk. rewrite <- size_dom, <- (size_list_to_set (C := gset nat) l) by done. apply subseteq_size. intros i Hi%elem_of_list_to_set.
  apply elem_of_dom. by apply Hk.
Qed.

(** A walk along a list. *)
Definition chain (m : gmap nat node) (l : list nat) : Prop :=
  forall l1 i l2, l = l1 ++ i :: l2 -> exists n, m !! i = Some n /\ next_pending n = head l2.
Lemma chain_tail m i l : chain m (i :: l) -> chain m l.
Proof. intros Hc l1 j l2 ->. by apply (Hc (i :: l1)). Qed.
Lemma chain_here m i l : chain m (i :: l) -> exists n, m !! i = Some n /\ next_pending n = head l.
Proof. intros Hc. by apply (Hc []). Qed.
Lemma chain_insert m l i n x : chain m l -> m !! i = Some n -> next_pending x = next_pending n -> chain (<[i := x]> m) l.
Proof.
  intros Hc E Ex l1 j l2 El. destruct (Hc l1 j l2 El) as (y & Ey & Hy). destruct (decide (j = i)) as [->|N].
  - exists x. rewrite lookup_insert_eq. split; [done|]. rewrite E in Ey. injection Ey as <-. by rewrite Ex.
  - exists y. by rewrite lookup_insert_ne.
Qed.
Lemma stands_chain q U A : stands_for q U A -> chain (nodes q) U /\ chain (nodes q) A.
Proof.
  intros [Hk Hs Hn _ _ _ _ _]. split; intros l1 i l2 El.
  - destruct (Hk i) as [n E]; [subst U; set_solver|]. exists n. split; [done|]. destruct (Hs i n E) as (-> & _). unfold link_of. rewrite decide_True by set_solver.
    subst U. rewrite after_here; [done|]. apply NoDup_app in Hn as (Hn & _). apply NoDup_app in Hn as (_ & Hn & _). intros Hi. apply (Hn i Hi). by left.
  - destruct (Hk i) as [n E]; [subst A; set_solver|]. exists n. split; [done|]. destruct (Hs i n E) as (-> & _). unfold link_of.
    apply NoDup_app in Hn as (_ & Hd & Hn). rewrite decide_False by (intros Hi; apply (Hd i Hi); set_solver).
    subst A. rewrite after_here; [done|]. apply NoDup_app in Hn as (_ & Hn & _). intros Hi. apply (Hn i Hi). by left.
Qed.

Lemma mark_update_ok l : forall n m, chain m l -> NoDup l -> (length l <= n)%nat ->
  exists m', mark_update n (head l) m = Done m' /\ forall j, m' !! j = if decide (j ∈ l) then set_flags true false <$> m !! j else m !! j.
Proof.
  induction l as [|i l IH]; intros n m Hc Hn Hl.
  - exists m. destruct n; (split; [done|]); intros j; by rewrite decide_False by apply not_elem_of_nil.
  - apply NoDup_cons in Hn as [Hi Hn]. destruct n as [|n]; [simpl in Hl; lia|]. simpl in Hl |- *. destruct (chain_here _ _ _ Hc) as (x & Ex & Hx). rewrite Ex, Hx.
    destruct (IH n (<[i := set_flags true false x]> m)) as (m' & Em & Hm); [eapply chain_insert; [by eapply chain_tail|done|done]|done|lia|].
    exists m'. split; [done|]. intros j. rewrite Hm. destruct (decide (j = i)) as [->|N].
    + rewrite decide_False by done. rewrite decide_True by (by left). by rewrite lookup_insert_eq, Ex.
    + rewrite lookup_insert_ne by done. destruct (decide (j ∈ l)) as [H|H]; [by rewrite decide_True by (by right)|].
      by rewrite decide_False by (rewrite elem_of_cons; tauto).
Qed.
Lemma find_before_ok l1 i l2 : forall n m, chain m (l1 ++ i :: l2) -> NoDup (l1 ++ i :: l2) -> (length (l1 ++ i :: l2) <= n)%nat -> l1 <> [] ->
  find_before n m (head (l1 ++ i :: l2)) i = Done (last l1).
Proof.
  induction l1 as [|x l1 IH]; intros n m Hc Hn Hl Hne; [done|]. destruct n as [|n]; [simpl in Hl; lia|]. simpl in Hl |- *.
  simpl in Hc, Hn. destruct (chain_here _ _ _ Hc) as (y & Ey & Hy). rewrite Ey, Hy. apply NoDup_cons in Hn as [Hx Hn]. destruct l1 as [|z l1].
  - simpl. by rewrite bool_decide_eq_true_2.
  - simpl. rewrite bool_decide_eq_false_2.
    + apply (IH n m); [by eapply chain_tail|done|simpl in *; lia|done].
    + intros [= ->]. simpl in Hn. apply NoDup_cons in Hn as [Hz _]. apply Hz. set_solver.
Qed.

(** ** What the operations do to the lists *)
Lemma link_l U A i : i ∈ U -> link_of U A i = after U i.
Proof. intros Hi. unfold link_of. by rewrite decide_True. Qed.
Lemma link_r U A i : i ∉ U -> link_of U A i = after A i.
Proof. intros Hi. unfold link_of. by rewrite decide_False. Qed.

(** Only the named nodes have changed. *)
Lemma stands_insert (m : gmap nat node) U A U' A' i x : map_Forall (stands U A) m ->
  stands U' A' i x -> (forall j n, j <> i -> stands U A j n -> stands U' A' j n) -> map_Forall (stands U' A') (<[i := x]> m).
Proof.
  intros Hm Hx Ho j n Hj. destruct (decide (j = i)) as [->|N]; [rewrite lookup_insert_eq in Hj; by injection Hj as <-|].
  rewrite lookup_insert_ne in Hj by done. apply Ho; [done|by apply Hm].
Qed.
Lemma head_last {X} (l : list X) : head l = None <-> last l = None.
Proof. destruct l; simpl; [done|]. rewrite last_cons. destruct (last l); split; done. Qed.
Lemma last_elem (l : list nat) x : last l = Some x -> x ∈ l.
Proof. intros H. apply last_Some in H as [k ->]. set_solver. Qed.
Lemma last_skip {X} (l : list X) i x r : last (l ++ i :: x :: r) = last (l ++ x :: r).
Proof. rewrite !last_app. by rewrite last_cons_cons. Qed.
Lemma known_length q U A : stands_for q U A -> (length U < fuel q)%nat /\ (length A < fuel q)%nat.
Proof.
  intros [Hk _ Hn _ _ _ _ _]. apply NoDup_app in Hn as (HU & _ & HA). unfold fuel.
  pose proof (length_known (nodes q) U HU ltac:(set_solver)). pose proof (length_known (nodes q) A HA ltac:(set_solver)). lia.
Qed.

(** *** A lease leaves the ack queue *)
Lemma after_remove l1 i l2 j : NoDup (l1 ++ i :: l2) -> j <> i ->
  after (l1 ++ l2) j = if decide (last l1 = Some j) then head l2 else after (l1 ++ i :: l2) j.
Proof.
  intros Hn Hj. pose proof Hn as Hn'. apply NoDup_app in Hn' as (_ & Hd & Hn'). apply NoDup_cons in Hn' as [Hi _].
  destruct (decide (last l1 = Some j)) as [Hl|Hl].
  - apply after_joint; [|done]. eapply sublist_NoDup; [exact Hn|]. apply sublist_app; [done|]. by apply sublist_cons.
  - destruct (decide (j ∈ l1)) as [Hjl|Hjl]; [by rewrite !after_app_l|]. rewrite !after_app_r by done. simpl. by rewrite decide_False by congruence.
Qed.
Lemma stands_remove U A1 i A2 j n : NoDup (U ++ A1 ++ i :: A2) -> j <> i -> stands U (A1 ++ i :: A2) j n ->
  stands U (A1 ++ A2) j (if decide (last A1 = Some j) then set_next (head A2) n else n).
Proof.
  intros Hn Hj (Hx & Hu & Ha). apply NoDup_app in Hn as (_ & Hd & Hn).
  assert (Hin : bool_decide (j ∈ A1 ++ i :: A2) = bool_decide (j ∈ A1 ++ A2)) by (apply bool_decide_ext; set_solver).
  pose proof (after_remove A1 i A2 j Hn Hj) as Hr. unfold stands. destruct (decide (last A1 = Some j)) as [Hl|Hl]; simpl; rewrite <- Hin; split_and!; try done.
  - rewrite link_r; [done|]. intros HjU. apply (Hd j HjU). apply last_elem in Hl. set_solver.
  - rewrite Hx. unfold link_of. destruct (decide (j ∈ U)); [done|]. by rewrite Hr.
Qed.
Lemma stands_removed U A1 i A2 n f : NoDup (U ++ A1 ++ i :: A2) -> on_update n = bool_decide (i ∈ U) ->
  stands U (A1 ++ A2) i (on_info f (set_flags (on_update n) false (set_next None n))).
Proof.
  intros Hn Hu. apply NoDup_app in Hn as (_ & Hd & Hn). apply NoDup_app in Hn as (_ & Hd2 & Hn). apply NoDup_cons in Hn as [Hi _].
  assert (H1 : i ∉ A1) by (intros H; apply (Hd2 i H); by left). assert (HU : i ∉ U) by (intros H; apply (Hd i H); set_solver).
  unfold stands. simpl. rewrite link_r, after_notin by set_solver. split_and!; [done|done|]. by rewrite bool_decide_eq_false_2 by set_solver.
Qed.

(** What the nodes are when a lease has left the ack queue. *)
Lemma removed_stand (m m' : gmap nat node) U A1 i A2 n : NoDup (U ++ A1 ++ i :: A2) -> map_Forall (stands U (A1 ++ i :: A2)) m -> m !! i = Some n ->
  m' !! i = Some (on_info (set_xid 0) (set_flags (on_update n) false (set_next None n))) ->
  (forall j, j <> i -> m' !! j = (if decide (last A1 = Some j) then set_next (head A2) <$> m !! j else m !! j)) ->
  map_Forall (stands U (A1 ++ A2)) m' /\ (forall j, is_Some (m !! j) -> is_Some (m' !! j)).
Proof.
  intros Hn Hs Ei Hi Ho. split.
  - intros j x Hj. destruct (decide (j = i)) as [->|N].
    + rewrite Hi in Hj. injection Hj as <-. apply stands_removed; [done|]. by destruct (Hs i n Ei) as (_ & ? & _).
    + rewrite Ho in Hj by done. destruct (m !! j) as [y|] eqn:Ey; [|by destruct (decide _)].
      pose proof (stands_remove U A1 i A2 j y Hn N (Hs j y Ey)) as Hy. by destruct (decide (last A1 = Some j)); injection Hj as <-.
  - intros j [y Ey]. destruct (decide (j = i)) as [->|N]; [by rewrite Hi|]. rewrite Ho, Ey by done. by destruct (decide _).
Qed.


(** ** What stays

    An operation that only moves leases. *)
Definition keeps (q q' : queues) : Prop :=
  info <$> nodes q' = info <$> nodes q /\ toack q' = toack q /\ pending_acks q' = pending_acks q /\ link_to_peer q' = link_to_peer q /\
  send_update_done q' = send_update_done q /\ updxid q' = updxid q /\ effects q' = effects q.
Lemma info_insert (m : gmap nat node) i n f : m !! i = Some n -> info (f n) = info n -> info <$> <[i := f n]> m = info <$> m.
Proof. intros E Ef. rewrite fmap_insert, Ef. apply insert_id. by rewrite lookup_fmap, E. Qed.
Lemma keeps_nodes q m : info <$> m = info <$> nodes q -> keeps q (set_nodes m q).
Proof. by split. Qed.
#[global] Instance keeps_trans : Transitive keeps.
Proof. intros x y z (? & ? & ? & ? & ? & ? & ?) (? & ? & ? & ? & ? & ? & ?). unfold keeps. split_and!; by etrans. Qed.

(** [r] is a computation on [q] that moves leases so that the queues are [U'] and [A']. *)
Definition moves (q : queues) (r : outcome queues) (U' A' : list nat) : Prop := exists q', r = Done q' /\ stands_for q' U' A' /\ keeps q q'.

(** *** At the end of a queue *)
Lemma after_snoc l i j : NoDup (l ++ [i]) -> after (l ++ [i]) j = if decide (last l = Some j) then Some i else after l j.
Proof.
  intros Hn. destruct (decide (last l = Some j)) as [Hl|Hl]; [by rewrite (after_joint l [i])|].
  destruct (decide (j ∈ l)) as [Hj|Hj]; [by apply after_app_l|]. rewrite after_app_r by done. rewrite (after_notin l) by done. simpl. by destruct (decide _).
Qed.
Lemma in_snoc (l : list nat) i j : j <> i -> bool_decide (j ∈ l ++ [i]) = bool_decide (j ∈ l).
Proof. intros N. apply bool_decide_ext. rewrite elem_of_app, list_elem_of_singleton. tauto. Qed.

Section put.
Context (m m' : gmap nat node) (U A : list nat) (i : nat) (n : node).
Context (fresh : i ∉ U ++ A) (distinct : NoDup (U ++ A)) (before : map_Forall (stands U A) m) (here : m !! i = Some n).

Lemma fresh_alone : next_pending n = None /\ on_update n = false /\ on_ack n = false.
Proof.
  destruct (before i n here) as (Hx & Hu & Ha). apply not_elem_of_app in fresh as [HU HA].
  rewrite Hx, Hu, Ha. rewrite link_r, after_notin by done. by rewrite !bool_decide_eq_false_2.
Qed.
Lemma put_update_stand : m' !! i = Some (set_flags true (on_ack n) n) ->
  (forall j, j <> i -> m' !! j = (if decide (last U = Some j) then set_next (Some i) <$> m !! j else m !! j)) -> map_Forall (stands (U ++ [i]) A) m'.
Proof.
  intros Hi Ho j x Hj. destruct fresh_alone as (Fx & Fu & Fa). apply not_elem_of_app in fresh as [HU HA]. apply NoDup_app in distinct as (HnU & Hd & HnA).
  assert (Hsn : NoDup (U ++ [i])) by (apply NoDup_app; split_and!; [done|set_solver|apply NoDup_singleton]).
  destruct (decide (j = i)) as [->|N].
  - rewrite Hi in Hj. injection Hj as <-. unfold stands. simpl. rewrite link_l by set_solver. rewrite after_here, Fx, Fa by done.
    rewrite bool_decide_eq_true_2 by set_solver. by rewrite bool_decide_eq_false_2.
  - rewrite Ho in Hj by done. destruct (m !! j) as [y|] eqn:Ey; [|by destruct (decide _)]. destruct (before j y Ey) as (Hx & Hu & Ha).
    unfold stands. rewrite in_snoc by done. destruct (decide (last U = Some j)) as [Hl|Hl]; injection Hj as <-; simpl; split_and!; try done.
    + apply last_elem in Hl as HjU. rewrite link_l by set_solver. rewrite after_snoc by done. by rewrite decide_True.
    + rewrite Hx. unfold link_of. rewrite after_snoc by done. rewrite (decide_False _ _ Hl).
      destruct (decide (j ∈ U)); [by rewrite decide_True by set_solver|rewrite decide_False by set_solver; done].
Qed.
Lemma put_ack_stand : m' !! i = Some (set_flags (on_update n) true n) ->
  (forall j, j <> i -> m' !! j = (if decide (last A = Some j) then set_next (Some i) <$> m !! j else m !! j)) -> map_Forall (stands U (A ++ [i])) m'.
Proof.
  intros Hi Ho j x Hj. destruct fresh_alone as (Fx & Fu & Fa). apply not_elem_of_app in fresh as [HU HA]. apply NoDup_app in distinct as (HnU & Hd & HnA).
  assert (Hsn : NoDup (A ++ [i])) by (apply NoDup_app; split_and!; [done|set_solver|apply NoDup_singleton]).
  destruct (decide (j = i)) as [->|N].
  - rewrite Hi in Hj. injection Hj as <-. unfold stands. simpl. rewrite link_r by done. rewrite after_here, Fx, Fu by done.
    rewrite (bool_decide_eq_true_2 (i ∈ A ++ [i])) by set_solver. by rewrite bool_decide_eq_false_2.
  - rewrite Ho in Hj by done. destruct (m !! j) as [y|] eqn:Ey; [|by destruct (decide _)]. destruct (before j y Ey) as (Hx & Hu & Ha).
    unfold stands. rewrite in_snoc by done. destruct (decide (last A = Some j)) as [Hl|Hl]; injection Hj as <-; simpl; split_and!; try done.
    + apply last_elem in Hl as HjA. rewrite link_r by (intros HjU; by apply (Hd j)). rewrite after_snoc by done. by rewrite decide_True.
    + rewrite Hx. unfold link_of. rewrite after_snoc by done. by rewrite (decide_False _ _ Hl).
Qed.
End put.

Lemma last_some (l : list nat) h : head l = Some h -> exists t, last l = Some t.
Proof. intros H. destruct (last l) as [t|] eqn:E; [by exists t|]. apply head_last in E. congruence. Qed.
Lemma fresh_snoc_l (U A : list nat) i : i ∉ U ++ A -> NoDup (U ++ A) -> NoDup ((U ++ [i]) ++ A).
Proof. intros Hi Hn. rewrite <- app_assoc. simpl. rewrite <- Permutation_middle. by apply NoDup_cons. Qed.
Lemma fresh_snoc_r (U A : list nat) i : i ∉ U ++ A -> NoDup (U ++ A) -> NoDup (U ++ A ++ [i]).
Proof. intros Hi Hn. rewrite app_assoc, Permutation_app_comm. simpl. by apply NoDup_cons. Qed.
Lemma known_insert (m : gmap nat node) k x i : is_Some (m !! i) -> is_Some (<[k := x]> m !! i).
Proof. intros Hi. apply lookup_insert_is_Some'. by right. Qed.

(** The node of the lease [i] is set after that of the last lease [t]. *)
Lemma put_lookup (m : gmap nat node) (l : list nat) t i (f : node -> node) nt j : j <> i -> last l = Some t -> m !! t = Some nt ->
  <[i := f (default nt (m !! i))]> (<[t := set_next (Some i) nt]> m) !! j = (if decide (last l = Some j) then set_next (Some i) <$> m !! j else m !! j).
Proof.
  intros N Hl Et. rewrite lookup_insert_ne by done. rewrite Hl. destruct (decide (t = j)) as [->|Nj].
  - by rewrite decide_True, lookup_insert_eq, Et.
  - by rewrite decide_False, lookup_insert_ne by congruence.
Qed.

Lemma put_update_ok q U A i : stands_for q U A -> is_Some (nodes q !! i) -> i ∉ U ++ A -> moves q (put_update q i) (U ++ [i]) A.
Proof.
  intros [Hk Hs Hn Huf Hul Haf Hal Hcnt] [n En] Hi. unfold put_update, moves. rewrite Huf, Hul. destruct (head U) as [h|] eqn:Eh.
  - destruct (last_some U h Eh) as [t Et]. rewrite Et. assert (HtU : t ∈ U) by by apply last_elem. assert (Nt : t <> i) by (intros ->; set_solver).
    destruct (Hk t) as [nt Ent]; [set_solver|]. simpl the. dred. rewrite (on_node_Done q t _ _ Ent). dred.
    rewrite (on_node_Done _ i n) by (simpl; by rewrite lookup_insert_ne). eexists. split; [reflexivity|]. split.
    + split; simpl; try done.
      * intros j Hj. destruct (decide (j = i)) as [->|N]; [by rewrite lookup_insert_eq|]. apply known_insert, known_insert, Hk. set_solver.
      * eapply (put_update_stand (nodes q) _ U A i n); [done..|by rewrite lookup_insert_eq|]. intros j N.
        pose proof (put_lookup (nodes q) U t i (fun n => set_flags true (on_ack n) n) nt j N Et Ent) as H. rewrite En in H. exact H.
      * by apply fresh_snoc_l.
      * by destruct U.
      * by rewrite last_snoc.
    + split; [|done]. simpl. rewrite info_insert; [by apply info_insert|by rewrite lookup_insert_ne|done].
  - assert (U = []) as -> by by destruct U. dred. rewrite (on_node_Done _ i n) by done. eexists. split; [reflexivity|]. split.
    + split; simpl; try done.
      * intros j Hj. destruct (decide (j = i)) as [->|N]; [by rewrite lookup_insert_eq|]. apply known_insert, Hk. set_solver.
      * eapply (put_update_stand (nodes q) _ [] A i n); [done..|by rewrite lookup_insert_eq|]. intros j N. by rewrite lookup_insert_ne.
      * by apply NoDup_cons.
    + split; [|done]. simpl. by apply info_insert.
Qed.

Lemma put_ack_ok q U A i : stands_for q U A -> is_Some (nodes q !! i) -> i ∉ U ++ A -> moves q (put_ack q i) U (A ++ [i]).
Proof.
  intros [Hk Hs Hn Huf Hul Haf Hal Hcnt] [n En] Hi. unfold put_ack, moves. rewrite Haf, Hal.
  assert (Hc : cur_unacked_updates q + 1 = zlen (A ++ [i])) by (rewrite zlen_app, Hcnt; done).
  destruct (head A) as [h|] eqn:Eh.
  - destruct (last_some A h Eh) as [t Et]. rewrite Et. assert (HtA : t ∈ A) by by apply last_elem. assert (Nt : t <> i) by (intros ->; set_solver).
    destruct (Hk t) as [nt Ent]; [set_solver|]. simpl the. dred. rewrite (on_node_Done q t _ _ Ent). dred.
    rewrite (on_node_Done _ i n) by (simpl; by rewrite lookup_insert_ne). dred. eexists. split; [reflexivity|]. split.
    + split; simpl; try done.
      * intros j Hj. destruct (decide (j = i)) as [->|N]; [by rewrite lookup_insert_eq|]. apply known_insert, known_insert, Hk. set_solver.
      * eapply (put_ack_stand (nodes q) _ U A i n); [done..|by rewrite lookup_insert_eq|]. intros j N.
        pose proof (put_lookup (nodes q) A t i (fun n => set_flags (on_update n) true n) nt j N Et Ent) as H. rewrite En in H. exact H.
      * by apply fresh_snoc_r.
      * rewrite Haf. by destruct A.
      * by rewrite last_snoc.
    + split; [|done]. simpl. rewrite info_insert; [by apply info_insert|by rewrite lookup_insert_ne|done].
  - assert (A = []) as -> by by destruct A. dred. rewrite (on_node_Done _ i n) by done. dred. eexists. split; [reflexivity|]. split.
    + split; simpl; try done.
      * intros j Hj. destruct (decide (j = i)) as [->|N]; [by rewrite lookup_insert_eq|]. apply known_insert, Hk. set_solver.
      * eapply (put_ack_stand (nodes q) _ U [] i n); [done..|by rewrite lookup_insert_eq|]. intros j N. by rewrite lookup_insert_ne.
      * by apply (fresh_snoc_r U []).
    + split; [|done]. simpl. by apply info_insert.
Qed.

(** *** A lease leaves the update queue *)
Lemma take_stand (m : gmap nat node) U A i n : NoDup ((i :: U) ++ A) -> map_Forall (stands (i :: U) A) m -> m !! i = Some n ->
  map_Forall (stands U A) (<[i := set_next None (set_flags false (on_ack n) n)]> m).
Proof.
  intros Hn Hm Ei. simpl in Hn. apply NoDup_cons in Hn as [[HU HA]%not_elem_of_app Hn]. eapply stands_insert; [done| |].
  - destruct (Hm i n Ei) as (_ & _ & Ha). unfold stands. simpl. rewrite link_r, after_notin by done. by rewrite bool_decide_eq_false_2.
  - intros j x N (Hx & Hu & Ha). unfold stands. rewrite Ha, Hu, Hx. split_and!; [|apply bool_decide_ext; set_solver|done].
    unfold link_of. simpl. rewrite (decide_False (P := i = j)) by congruence.
    destruct (decide (j ∈ U)); [by rewrite decide_True by set_solver|by rewrite decide_False by set_solver].
Qed.
Lemma take_update_ok q U A i : stands_for q (i :: U) A -> moves q (take_update q i) U A.
Proof.
  intros Hq. destruct (stands_chain q _ A Hq) as [Hc _]. destruct (chain_here _ _ _ Hc) as (n & En & Hx).
  destruct Hq as [Hk Hs Hn Huf Hul Haf Hal Hcnt]. pose proof (take_stand (nodes q) U A i n Hn Hs En) as Hm.
  unfold take_update, moves. rewrite (on_node_Done q i _ _ En). dred. unfold node_at. simpl. rewrite lookup_insert_eq. dred. simpl. rewrite Hx.
  assert (Hk' : forall (m : gmap nat node) x, (forall j, is_Some (nodes q !! j) -> is_Some (m !! j)) -> forall j, j ∈ U ++ A -> is_Some (<[i := x]> m !! j)).
  { intros m x Hm' j Hj. apply known_insert, Hm', Hk. set_solver. }
  assert (Hn' : NoDup (U ++ A)) by by apply NoDup_cons in Hn as [_ Hn].
  destruct U as [|x U]; cbn [hd_error]; cbv iota.
  - eexists. split; [reflexivity|]. split; [split; simpl; try done; [by apply Hk'|]|].
    + replace (set_flags false (on_ack n) n) with (set_next None (set_flags false (on_ack n) n)); [done|]. destruct n. simpl in Hx |- *. by rewrite Hx.
    + split; [|done]. simpl. by apply info_insert.
  - rewrite (on_node_Done _ i (set_flags false (on_ack n) n)) by (simpl; by rewrite lookup_insert_eq). eexists. split; [reflexivity|].
    split; [split; simpl; try done|].
    + apply Hk'. intros j Hj. by apply known_insert.
    + by rewrite insert_insert_eq.
    + split; [|done]. simpl. rewrite insert_insert_eq. by apply (info_insert _ i n (fun n => set_next None (set_flags false (on_ack n) n))).
Qed.

(** *** The ack queue goes in front of the update queue *)

(** The nodes after the flags are marked and the queues are joined at [t]. *)
Definition rejoined (U A : list nat) (t : nat) (m : gmap nat node) (j : nat) : option node :=
  (fun n => let n := if decide (j ∈ A) then set_flags true false n else n in
            match head U with Some h => if decide (j = t) then set_next (Some h) n else n | None => n end) <$> m !! j.
Lemma rejoined_stand (m m' : gmap nat node) U A t : NoDup (U ++ A) -> map_Forall (stands U A) m -> last A = Some t ->
  (forall j, m' !! j = rejoined U A t m j) -> map_Forall (stands (A ++ U) []) m'.
Proof.
  intros Hn Hs Et Hm j x Hj. rewrite Hm in Hj. unfold rejoined in Hj. destruct (m !! j) as [y|] eqn:Ey; [|done]. injection Hj as <-.
  pose proof Hn as Hn'. apply NoDup_app in Hn' as (HnU & Hd & HnA). destruct (Hs j y Ey) as (Hy & Hu & Ha). unfold stands.
  rewrite (bool_decide_eq_false_2 (j ∈ [])) by apply not_elem_of_nil. destruct (decide (j ∈ A)) as [HjA|HjA].
  - assert (HjU : j ∉ U) by (intros HjU; by apply (Hd j)). rewrite link_r in Hy by done. rewrite link_l by set_solver.
    rewrite (bool_decide_eq_true_2 (j ∈ A ++ U)) by set_solver. destruct (decide (j = t)) as [->|N].
    + rewrite (after_joint A U t) by (done || by rewrite Permutation_app_comm). destruct (head U) as [h|]; [done|]. simpl. split_and!; try done.
      rewrite Hy. by apply after_last.
    + rewrite after_app_l by (done || congruence). destruct (head U); simpl; rewrite Hy; done.
  - assert (Njt : j <> t) by (intros ->; by apply HjA, last_elem).
    assert (Hl : link_of (A ++ U) [] j = link_of U A j).
    { unfold link_of. destruct (decide (j ∈ U)) as [HjU|HjU]; [rewrite decide_True by set_solver; by apply after_app_r|].
      rewrite decide_False by set_solver. by rewrite (after_notin A). }
    rewrite Hl, <- Hy. rewrite <- (bool_decide_ext (j ∈ U) (j ∈ A ++ U)) by set_solver. rewrite <- Hu.
    destruct (head U); [rewrite (decide_False _ _ Njt)|]; (split_and!; [done|done|]); rewrite Ha; by apply bool_decide_eq_false_2.
Qed.
Lemma mark_rejoin U A t (m m1 : gmap nat node) nt : last A = Some t -> m !! t = Some nt ->
  (forall j, m1 !! j = if decide (j ∈ A) then set_flags true false <$> m !! j else m !! j) ->
  m1 !! t = Some (set_flags true false nt) /\
  forall j, (match head U with Some h => <[t := set_next (Some h) (set_flags true false nt)]> m1 | None => m1 end) !! j = rejoined U A t m j.
Proof.
  intros Et Ent Hm. assert (HtA : t ∈ A) by by apply last_elem. assert (E1 : m1 !! t = Some (set_flags true false nt)) by (rewrite Hm, decide_True, Ent by done; done).
  split; [done|]. intros j. unfold rejoined. assert (Hj : m1 !! j = (fun n => if decide (j ∈ A) then set_flags true false n else n) <$> m !! j).
  { rewrite Hm. destruct (decide (j ∈ A)); [done|]. by destruct (m !! j). }
  destruct (head U) as [h|]; [|done]. destruct (decide (j = t)) as [->|N].
  - rewrite lookup_insert_eq, Ent. simpl. by rewrite (decide_True _ _ HtA).
  - by rewrite lookup_insert_ne, Hj by done.
Qed.
Lemma rejoined_info U A t (m m' : gmap nat node) : (forall j, m' !! j = rejoined U A t m j) -> info <$> m' = info <$> m.
Proof.
  intros Hm. apply map_eq. intros j. rewrite !lookup_fmap, Hm. unfold rejoined. destruct (m !! j) as [n|]; [|done]. simpl. f_equal.
  destruct (head U); repeat destruct (decide _); done.
Qed.
Lemma rejoined_known U A t (m m' : gmap nat node) j : (forall j, m' !! j = rejoined U A t m j) -> is_Some (m !! j) -> is_Some (m' !! j).
Proof. intros Hm [n En]. rewrite Hm. unfold rejoined. by rewrite En. Qed.

Lemma rescind_updates_ok q U A : stands_for q U A -> moves q (rescind_updates q) (A ++ U) [].
Proof.
  intros Hq. pose proof (stands_chain q U A Hq) as [_ Hc]. pose proof (known_length q U A Hq) as [_ Hl].
  destruct Hq as [Hk Hs Hn Huf Hul Haf Hal Hcnt]. unfold rescind_updates, moves. rewrite Hal. destruct (last A) as [t|] eqn:Et.
  2: { apply head_last in Et. destruct A; [|done]. exists q. split; [done|]. by split. }
  pose proof Hn as Hn'. apply NoDup_app in Hn' as (_ & _ & HnA).
  destruct (mark_update_ok A (fuel q) (nodes q) Hc HnA ltac:(lia)) as (m & Em & Hm). rewrite Haf, Em. dred.
  destruct (Hk t) as [nt Ent]; [apply last_elem in Et; set_solver|]. destruct (mark_rejoin U A t (nodes q) m nt Et Ent Hm) as [Hmt Hj].
  set (m2 := match head U with Some h => <[t := set_next (Some h) (set_flags true false nt)]> m | None => m end) in Hj.
  assert (E : (match head U with Some _ => on_node (set_nodes m q) t (set_next (head U)) | None => Done (set_nodes m q) end) = Done (set_nodes m2 q)).
  { unfold m2. destruct (head U) as [h|]; [|done]. by rewrite (on_node_Done (set_nodes m q) t _ _ Hmt). }
  change (update_head (set_nodes m q)) with (update_head q). rewrite Huf, E. dred. eexists. split; [reflexivity|].
  split; [split; simpl; try done|split; [|done]].
  - intros i Hi. eapply rejoined_known; [exact Hj|]. apply Hk. set_solver.
  - by eapply rejoined_stand.
  - rewrite app_nil_r. by rewrite Permutation_app_comm.
  - rewrite Haf. by destruct A.
  - rewrite Hul, last_app. destruct (last U); [done|]. by rewrite Et.
  - simpl. by eapply rejoined_info.
Qed.
