(* ===== verification/FailoverQueueOk.v ===== *)
(** * What the queues promise (server/failover.c)

    The specification has the leases whose update is not yet sent and those
    whose update is not yet acknowledged as two lists, and each operation as a
    total function on them; loops go along a list.  The operations of
    FailoverQueue refine it, in any order, without a fault and without running
    out of fuel. *)

From stdpp Require Import base tactics list numbers gmap.
From S2P Require Import Prelude FailoverQueue FailoverQueueList.

#[local] Open Scope Z_scope.

(** ** The specification *)
Record promise := mk_promise {
  infos : gmap nat lease_info;
  unsent : list nat;
  unacked : list nat;
  owed : list nat;     (** the messages of the peer that it has no answer to *)
  link : option Z;
  done_after : option nat;
  done_xid : Z;
  out : list effect }.
Definition p_info (i : nat) (f : lease_info -> lease_info) (p : promise) : promise :=
  mk_promise (alter f i (infos p)) (unsent p) (unacked p) (owed p) (link p) (done_after p) (done_xid p) (out p).
Definition p_lists (U A : list nat) (p : promise) : promise :=
  mk_promise (infos p) U A (owed p) (link p) (done_after p) (done_xid p) (out p).
Definition p_owed (l : list nat) (p : promise) : promise :=
  mk_promise (infos p) (unsent p) (unacked p) l (link p) (done_after p) (done_xid p) (out p).
Definition p_link (x : option Z) (p : promise) : promise :=
  mk_promise (infos p) (unsent p) (unacked p) (owed p) x (done_after p) (done_xid p) (out p).
Definition p_done (l : option nat) (x : Z) (p : promise) : promise :=
  mk_promise (infos p) (unsent p) (unacked p) (owed p) (link p) l x (out p).
Definition p_emit (e : effect) (p : promise) : promise :=
  mk_promise (infos p) (unsent p) (unacked p) (owed p) (link p) (done_after p) (done_xid p) (out p ++ [e]).

Section spec.
Context (max_flying : Z) (sends commits : nat -> bool).

Definition p_commit (p : promise) : promise * bool := (p_emit Commit p, commits (length (out p))).
Definition p_rescind (p : promise) : promise := p_lists (unacked p ++ unsent p) [] p.
Definition p_unack (i : nat) (p : promise) : promise :=
  if decide (i ∈ unacked p) then
    let p := p_info i (set_xid 0) (p_lists (unsent p) (without (unacked p) i) p) in
    match unacked p with [] => (p_commit p).1 | _ => p end
  else p.
Definition p_bind_update (i : nat) (p : promise) : promise * bool :=
  match link p with
  | None => (p, false)
  | Some x =>
      let xid := if x =? 0 then 1 else x in
      let p := p_info i (set_xid xid) (p_link (Some (u32 (xid + 1))) p) in
      let dirty := match infos p !! i with Some l => negb (rewind_binding_state l =? binding_state l) | None => false end in
      let p := if dirty then (p_commit (p_emit (WriteLease i) (p_info i set_rewind p))).1 else p in
      (p_emit (BndUpd i xid) p, sends (length (out p)))
  end.
Definition p_bind_ack (p : promise) (msg : nat) : promise := match link p with None => p | Some _ => p_emit (BndAck msg) p end.
Definition p_send_acks (p : promise) : promise :=
  let '(p, ok) := p_commit p in if negb ok then p else p_owed [] (foldl p_bind_ack p (owed p)).
Fixpoint p_send (l : list nat) (p : promise) : promise :=
  match l with
  | [] => p
  | i :: r =>
      if zlen (unacked p) <? max_flying then
        let '(p, ok) := p_bind_update i p in if ok then p_send r (p_lists r (unacked p ++ [i]) p) else p
      else p
  end.
Definition p_send_updates (p : promise) : promise :=
  match link p with
  | None => p
  | Some _ => let p := match owed p with [] => p | _ => p_send_acks p end in p_send (unsent p) p
  end.
Definition p_queue_update (i : nat) (immediate : bool) (p : promise) : promise :=
  if decide (i ∈ unsent p) then p
  else
    let p := p_unack i p in
    let p := p_lists (unsent p ++ [i]) (unacked p) p in
    if immediate then p_send_updates p else p.
Definition p_queue_ack (msg : nat) (p : promise) : promise :=
  let p := p_owed (owed p ++ [msg]) p in
  let p := if max_flying / 2 <=? u32 (zlen (owed p)) then p_send_acks p else p in
  match owed p with [] => p | _ => p_emit AckTimer p end.
Definition p_upd_done (p : promise) : promise :=
  match link p with
  | None => p
  | Some _ => let p := p_emit (UpdDone (done_xid p)) p in (p_commit (p_done (done_after p) (u32 (done_xid p - 1)) p)).1
  end.
Definition p_bind_ack_unqueue (i : nat) (p : promise) : promise :=
  let p := p_unack i p in
  let p := if decide (done_after p = Some i) then p_upd_done (p_done None (done_xid p) p) else p in
  p_send_updates p.
Definition p_wants (everythingp expired : bool) (i : nat) (p : promise) : bool :=
  match infos p !! i with
  | Some l => bool_decide (i ∉ unsent p ++ unacked p) && (everythingp || (atsfp l <? tstp l) || expired)
  | None => false
  end.
Fixpoint p_generate (everythingp : bool) (ls : list (bool * nat)) (p : promise) : promise :=
  match ls with
  | [] => p
  | (expired, i) :: ls =>
      p_generate everythingp ls
        (if p_wants everythingp expired i p then p_lists (unsent p ++ [i]) (unacked p) (p_info i set_desired p) else p)
  end.
Definition p_update_request (everythingp : bool) (ls : list (bool * nat)) (xid : Z) (p : promise) : promise :=
  let p := p_generate everythingp ls (p_done None (done_xid p) p) in
  match last (unsent p) with
  | Some t => p_send_updates (p_done (Some t) xid p)
  | None => p_upd_done (p_done (done_after p) xid p)
  end.

(** What may happen, one after the other. *)
Inductive event :=
  | Rescinded
  | Queued (lease : nat) (immediate : bool)
  | SendUpdates
  | PeerUpdate (msg : nat)           (** has to be acknowledged *)
  | AckTimeout
  | AckRemoved (lease : nat)
  | AckedByPeer (lease : nat)
  | UpdateRequest (everythingp : bool) (ls : list (bool * nat)) (xid : Z)
  | Connection (x : option Z).       (** made or lost *)
Definition promised (e : event) : promise -> promise :=
  match e with
  | Rescinded => p_rescind
  | Queued i imm => p_queue_update i imm
  | SendUpdates => p_send_updates
  | PeerUpdate m => p_queue_ack m
  | AckTimeout => p_send_acks
  | AckRemoved i => p_unack i
  | AckedByPeer i => p_bind_ack_unqueue i
  | UpdateRequest all ls x => p_update_request all ls x
  | Connection x => p_link x
  end.
Definition performed (e : event) (q : queues) : outcome queues :=
  match e with
  | Rescinded => rescind_updates q
  | Queued i imm => queue_update max_flying sends commits q i imm
  | SendUpdates => send_updates max_flying sends commits q
  | PeerUpdate m => Done (queue_ack max_flying commits q m)
  | AckTimeout => Done (toack_queue_timeout commits q)
  | AckRemoved i => ack_queue_remove commits q i
  | AckedByPeer i => bind_ack_unqueue max_flying sends commits q i
  | UpdateRequest all ls x => process_update_request max_flying sends commits all ls q x
  | Connection x => Done (set_link x q)
  end.
Fixpoint perform (es : list event) (q : queues) : outcome queues :=
  match es with [] => Done q | e :: es => q ← performed e q; perform es q end.
Fixpoint promise_all (es : list event) (p : promise) : promise :=
  match es with [] => p | e :: es => promise_all es (promised e p) end.

(** The leases that an event is about. *)
Definition about (e : event) : list nat :=
  match e with
  | Queued i _ | AckRemoved i | AckedByPeer i => [i]
  | UpdateRequest _ ls _ => ls.*2
  | _ => []
  end.
Definition knows (p : promise) (l : list nat) : Prop := Forall (fun i => is_Some (infos p !! i)) l.

(** ** The refinement *)
Record refines (q : queues) (p : promise) : Prop := {
  r_lists : stands_for q (unsent p) (unacked p);
  r_infos : infos p = info <$> nodes q;
  r_owed : owed p = toack q;
  r_pending : pending_acks q = zlen (owed p);
  r_link : link p = link_to_peer q;
  r_done_after : done_after p = send_update_done q;
  r_done_xid : done_xid p = updxid q;
  r_out : out p = effects q;
  r_flying : zlen (unacked p) <= max_flying }.

(** [r] does what [p'] says. *)
Definition meets (r : outcome queues) (p' : promise) : Prop := exists q', r = Done q' /\ refines q' p'.
Lemma meets_done q p : refines q p -> meets (Done q) p.
Proof. by exists q. Qed.
Lemma meets_bind r f p p' : meets r p -> (forall q, refines q p -> meets (f q) p') -> meets (q ← r; f q) p'.
Proof. intros (q & -> & Hq) Hf. dred. by apply Hf. Qed.

(** The operations that move leases. *)
Lemma moves_meets q p r U A : refines q p -> moves q r U A -> zlen A <= max_flying -> meets r (p_lists U A p).
Proof.
  intros [Hl Hi Ho Hp Hk Ha Hx He Hf] (q' & -> & Hs & Ki & Ko & Kp & Kk & Ka & Kx & Ke) HA. exists q'. split; [done|].
  split; simpl; try done; congruence.
Qed.
Lemma refines_emit e q p : refines q p -> refines (emit e q) (p_emit e p).
Proof. intros [[] Hi Ho Hp Hk Ha Hx He Hf]. split; simpl; try done; congruence. Qed.
Lemma refines_commit q p : refines q p -> refines (commit commits q).1 (p_commit p).1 /\ (commit commits q).2 = (p_commit p).2.
Proof. intros Hq. split; [by apply refines_emit|]. simpl. by rewrite (r_out _ _ Hq). Qed.
Lemma refines_link x q p : refines q p -> refines (set_link x q) (p_link x p).
Proof. intros [[] Hi Ho Hp Hk Ha Hx He Hf]. by split. Qed.
Lemma refines_done l x q p : refines q p -> refines (set_done l x q) (p_done l x p).
Proof. intros [[] Hi Ho Hp Hk Ha Hx He Hf]. by split. Qed.
Lemma refines_owed l q p : refines q p -> refines (set_toack l (zlen l) q) (p_owed l p).
Proof. intros [[] Hi Ho Hp Hk Ha Hx He Hf]. by split. Qed.
Lemma refines_info q p i n f : refines q p -> nodes q !! i = Some n -> refines (set_nodes (<[i := on_info f n]> (nodes q)) q) (p_info i f p).
Proof.
  intros [[Hkn Hs Hn Huf Hul Haf Hal Hc] Hi Ho Hp Hk Ha Hx He Hf] En. split; simpl; try done; [split; simpl; try done|].
  - intros j Hj. by apply known_insert, Hkn.
  - eapply stands_insert; [exact Hs| |done]. by apply (Hs i n En).
  - rewrite fmap_insert, Hi. apply map_eq. intros j. destruct (decide (j = i)) as [->|N].
    + by rewrite lookup_alter_eq, lookup_insert_eq, lookup_fmap, En.
    + by rewrite lookup_alter_ne, lookup_insert_ne by done.
Qed.
Lemma refines_node q p i l : refines q p -> infos p !! i = Some l -> exists n, nodes q !! i = Some n /\ info n = l.
Proof. intros Hq Hi. rewrite (r_infos _ _ Hq), lookup_fmap in Hi. destruct (nodes q !! i) as [n|]; [|done]. injection Hi as <-. by exists n. Qed.
Lemma refines_flags q p i n : refines q p -> nodes q !! i = Some n -> on_update n = bool_decide (i ∈ unsent p) /\ on_ack n = bool_decide (i ∈ unacked p).
Proof. intros Hq En. by destruct (all_stand _ _ _ (r_lists _ _ Hq) i n En) as (_ & ? & ?). Qed.

(** *** A lease leaves the ack queue *)
Lemma ack_queue_left_ok q q1 p A1 i A2 n : refines q p -> unacked p = A1 ++ i :: A2 ->
  nodes q !! i = Some n -> nodes q1 !! i = Some (set_next None n) ->
  (forall j, j <> i -> nodes q1 !! j = (if decide (last A1 = Some j) then set_next (head A2) <$> nodes q !! j else nodes q !! j)) ->
  q1 = set_ack (head (A1 ++ A2)) (last (A1 ++ A2)) (cur_unacked_updates q) (set_nodes (nodes q1) q) ->
  meets (ack_queue_left commits q1 i)
    (let p1 := p_info i (set_xid 0) (p_lists (unsent p) (A1 ++ A2) p) in match A1 ++ A2 with [] => (p_commit p1).1 | _ => p1 end).
Proof.
  intros Hq EA Ei E1 Ho Eq. unfold ack_queue_left. rewrite (on_node_Done q1 i _ _ E1). dred. set (x := on_info (set_xid 0) _).
  set (q2 := set_ack _ _ _ _). pose proof Hq as [[Hk Hs Hn Huf Hul Haf Hal Hcnt] Hi Hoq Hp Hl Ha Hx He Hf]. rewrite EA in *.
  destruct (removed_stand (nodes q) (<[i := x]> (nodes q1)) (unsent p) A1 i A2 n) as [Hms Hmk];
    [done..|by rewrite lookup_insert_eq|intros j N; rewrite lookup_insert_ne by done; by apply Ho|].
  assert (Hsub : sublist (unsent p ++ A1 ++ A2) (unsent p ++ A1 ++ i :: A2)) by (do 2 (apply sublist_app; [done|]); by apply sublist_cons).
  assert (Hcnt' : cur_unacked_updates q - 1 = zlen (A1 ++ A2)) by (rewrite Hcnt; unfold zlen; rewrite !length_app; simpl; lia).
  assert (H2 : refines q2 (p_info i (set_xid 0) (p_lists (unsent p) (A1 ++ A2) p))).
  { subst q2. rewrite Eq. split; simpl; try done; [split; simpl; try done| |].
    - intros j Hj. by apply Hmk, Hk; eapply sublist_subseteq.
    - by eapply sublist_NoDup.
    - apply map_eq. intros j. rewrite Hi, lookup_fmap. destruct (decide (j = i)) as [->|N].
      + by rewrite lookup_alter_eq, lookup_fmap, Ei, lookup_insert_eq.
      + rewrite lookup_alter_ne, lookup_insert_ne, Ho, lookup_fmap by done. by destruct (decide _), (nodes q !! j).
    - lia. }
  assert (Hz : cur_unacked_updates q2 = zlen (A1 ++ A2)) by (subst q2; rewrite Eq; exact Hcnt').
  rewrite Hz. destruct (A1 ++ A2) as [|y r] eqn:Er; [apply meets_done; by apply refines_commit|].
  destruct (Z.eqb_spec (zlen (y :: r)) 0) as [E|E]; [unfold zlen in E; simpl in E; lia|by apply meets_done].
Qed.
Lemma relink_lookup (m : gmap nat node) A1 lp y nx j : last A1 = Some lp -> m !! lp = Some y ->
  <[lp := set_next nx y]> m !! j = (if decide (last A1 = Some j) then set_next nx <$> m !! j else m !! j).
Proof.
  intros Hl Ey. rewrite Hl. destruct (decide (lp = j)) as [->|N]; [by rewrite decide_True, lookup_insert_eq, Ey|].
  by rewrite decide_False, lookup_insert_ne by congruence.
Qed.
Lemma set_next_id n : next_pending n = None -> set_next None n = n.
Proof. destruct n. simpl. by intros ->. Qed.

Lemma ack_queue_remove_ok q p i : refines q p -> is_Some (nodes q !! i) -> meets (ack_queue_remove commits q i) (p_unack i p).
Proof.
  intros Hq [n En]. pose proof (r_lists _ _ Hq) as Hs. destruct (stands_chain _ _ _ Hs) as [_ Hc]. destruct (known_length _ _ _ Hs) as [_ Hlen].
  destruct (refines_flags q p i n Hq En) as [_ Ha]. destruct (all_stand _ _ _ Hs i n En) as (Hnx & _). pose proof (ack_first _ _ _ Hs) as Haf.
  pose proof (ack_last _ _ _ Hs) as Hal. pose proof (apart _ _ _ Hs) as Hn.
  unfold ack_queue_remove, node_at, p_unack. rewrite En. dred. rewrite Ha. destruct (decide (i ∈ unacked p)) as [HiA|HiA].
  2: { rewrite bool_decide_eq_false_2 by done. by apply meets_done. }
  rewrite bool_decide_eq_true_2 by done. simpl negb. cbv iota.
  apply NoDup_app in Hn as (_ & Hd & HnA). destruct (in_split _ i HnA HiA) as (A1 & A2 & EA & H1 & H2). rewrite EA in *.
  assert (HiU : i ∉ unsent p) by (intros HiU; by apply (Hd i HiU)).
  assert (Hin : next_pending n = head A2) by (rewrite Hnx, link_r, after_here by done; done). rewrite Haf, Hin.
  simpl unacked. rewrite without_split by done. destruct (last A1) as [lp|] eqn:Elp.
  - assert (Hlp : lp ∈ A1) by by apply last_elem. assert (Nlp : lp <> i) by (intros ->; done).
    rewrite bool_decide_eq_false_2 by (destruct A1; [done|intros [= ->]; apply H1; by left]).
    rewrite (find_before_ok A1 i A2) by (done || lia || by intros ->). rewrite Elp. dred.
    destruct (known _ _ _ Hs lp) as [y Ey]; [set_solver|]. destruct A2 as [|x A2]; cbn [hd_error]; cbv iota.
    + rewrite (on_node_Done q lp _ _ Ey). dred. eapply (ack_queue_left_ok q _ p A1 i [] n); [done|done|done| | |].
      * simpl. rewrite lookup_insert_ne by done. by rewrite set_next_id.
      * intros j N. simpl. by apply relink_lookup.
      * unfold set_nodes, set_ack. simpl. rewrite Haf, app_nil_r, Elp. by destruct A1.
    + rewrite (on_node_Done q lp _ _ Ey). dred. rewrite (on_node_Done _ i n) by (simpl; by rewrite lookup_insert_ne). dred.
      eapply (ack_queue_left_ok q _ p A1 i (x :: A2) n); [done|done|done|simpl; by rewrite lookup_insert_eq| |].
      * intros j N. simpl. rewrite lookup_insert_ne by done. by apply relink_lookup.
      * rewrite last_skip in Hal. destruct A1 as [|a A1]; [done|]. unfold set_nodes, set_ack. simpl in Haf, Hal |- *. by rewrite Haf, Hal.
  - apply head_last in Elp. destruct A1; [|done]. simpl in Haf, Hal |- *. rewrite bool_decide_eq_true_2 by done. destruct A2 as [|x A2]; cbn [hd_error]; cbv iota.
    + eapply (ack_queue_left_ok q _ p [] i [] n); [done|done|done| |done|done]. simpl. by rewrite set_next_id.
    + rewrite (on_node_Done q i _ _ En). dred. eapply (ack_queue_left_ok q _ p [] i (x :: A2) n); [done|done|done|simpl; by rewrite lookup_insert_eq| |].
      * intros j N. simpl. by rewrite lookup_insert_ne.
      * unfold set_nodes, set_ack. simpl. by rewrite Hal.
Qed.

(** *** Sending *)

(** The same, for a computation that also says whether a message could be sent. *)
Definition meets_ok (r : outcome (queues * bool)) (pb : promise * bool) : Prop := exists q', r = Done (q', pb.2) /\ refines q' pb.1.

Lemma send_bind_update_ok q p i : refines q p -> is_Some (nodes q !! i) -> meets_ok (send_bind_update sends commits q i) (p_bind_update i p).
Proof.
  intros Hq [n En]. unfold send_bind_update, p_bind_update, meets_ok. rewrite (r_link _ _ Hq). destruct (link_to_peer q) as [x|]; [|by exists q].
  set (xid := if x =? 0 then 1 else x). pose proof (refines_link (Some (u32 (xid + 1))) q p Hq) as H1.
  pose proof (refines_info _ _ i n (set_xid xid) H1 En) as H2. rewrite (on_node_Done _ i n) by done. dred.
  set (q1 := set_nodes _ _) in *. set (p1 := p_info i (set_xid xid) _) in *. set (n1 := on_info (set_xid xid) n) in *.
  assert (En1 : nodes q1 !! i = Some n1) by (simpl; by rewrite lookup_insert_eq).
  unfold node_at. rewrite En1. dred. rewrite (r_infos _ _ H2), lookup_fmap, En1. change (info <$> Some n1) with (Some (info n1)). cbv iota.
  destruct (Z.eqb_spec (rewind_binding_state (info n1)) (binding_state (info n1))) as [Ew|Ew]; simpl negb; cbv iota.
  - dred. eexists. split; [|apply refines_emit; exact H2]. cbn [snd]. by rewrite (r_out _ _ H2).
  - rewrite (on_node_Done q1 i n1) by done. dred. pose proof (refines_info q1 p1 i n1 set_rewind H2 En1) as H3.
    eexists. split; [|apply refines_emit, refines_commit, refines_emit; exact H3].
    simpl. by rewrite (r_out _ _ Hq).
Qed.
Lemma p_bind_update_lists i p : unsent (p_bind_update i p).1 = unsent p /\ unacked (p_bind_update i p).1 = unacked p /\ dom (infos (p_bind_update i p).1) = dom (infos p).
Proof.
  unfold p_bind_update. destruct (link p); [|done]. simpl. destruct (alter _ _ _ !! i) as [l|]; [destruct (_ =? _)|]; simpl; by rewrite ?dom_alter_L.
Qed.

Lemma send_one_ok q p i r : refines q p -> unsent p = i :: r -> zlen (unacked p) < max_flying ->
  meets_ok (send_one sends commits q i) (let '(p', ok) := p_bind_update i p in if ok then (p_lists r (unacked p' ++ [i]) p', true) else (p', false)).
Proof.
  intros Hq EU Hlt. destruct (send_bind_update_ok q p i Hq) as (q1 & E1 & H1).
  { apply (known _ _ _ (r_lists _ _ Hq)). rewrite EU. by left. }
  destruct (p_bind_update_lists i p) as (LU & LA & _). unfold send_one. rewrite E1. dred. destruct (p_bind_update i p) as [p1 ok]. simpl in *.
  destruct ok; simpl negb; cbv iota; [|by exists q1]. rewrite EU in LU.
  assert (Hr : zlen (unacked p1) <= max_flying) by (rewrite LA; lia).
  pose proof (r_lists _ _ H1) as Hl. rewrite LU in Hl. pose proof (apart _ _ _ Hl) as Hn. simpl in Hn. apply NoDup_cons in Hn as [Hi _].
  destruct (moves_meets q1 p1 _ r (unacked p1) H1 (take_update_ok q1 r (unacked p1) i Hl) Hr) as (q2 & E2 & H2). rewrite E2. dred.
  assert (Hk2 : is_Some (nodes q2 !! i)).
  { destruct (known _ _ _ Hl i) as [n En]; [by left|]. pose proof (r_infos _ _ H2) as Hin. simpl in Hin. rewrite (r_infos _ _ H1) in Hin.
    apply (f_equal (lookup i)) in Hin. rewrite !lookup_fmap, En in Hin. by destruct (nodes q2 !! i). }
  destruct (moves_meets q2 _ _ r (unacked p1 ++ [i]) H2 (put_ack_ok q2 r (unacked p1) i (r_lists _ _ H2) Hk2 Hi)) as (q3 & E3 & H3).
  { rewrite zlen_app, LA. change (zlen [i]) with 1. lia. }
  rewrite E3. dred. exists q3. by split.
Qed.

Context (width : 0 <= max_flying < 2 ^ 32).
Lemma flying_u32 q p : refines q p -> u32 (cur_unacked_updates q) = zlen (unacked p).
Proof.
  intros Hq. rewrite (counted _ _ _ (r_lists _ _ Hq)). pose proof (r_flying _ _ Hq). unfold u32. rewrite Z.mod_small; [done|]. unfold zlen in *. lia.
Qed.
Lemma send_loop_ok l : forall n q p, refines q p -> unsent p = l -> (length l <= n)%nat -> meets (send_loop max_flying sends commits n q) (p_send l p).
Proof.
  induction l as [|i l IH]; intros n q p Hq EU Hn.
  - assert (Eh : update_head q = None) by by rewrite (update_first _ _ _ (r_lists _ _ Hq)), EU.
    destruct n; cbn [send_loop]; rewrite Eh; destruct (_ <? _); by apply meets_done.
  - destruct n as [|n]; [simpl in Hn; lia|]. cbn [send_loop p_send]. rewrite (flying_u32 q p Hq).
    rewrite (update_first _ _ _ (r_lists _ _ Hq)), EU. destruct (Z.ltb_spec (zlen (unacked p)) max_flying) as [Hlt|]; [|by apply meets_done].
    simpl. destruct (send_one_ok q p i l Hq EU Hlt) as (q1 & E1 & H1). rewrite E1. dred. destruct (p_bind_update i p) as [p1 []]; simpl in *; [|by apply meets_done].
    apply IH; [done|done|lia].
Qed.

Lemma send_acks_ok q p : refines q p -> refines (send_acks commits q) (p_send_acks p).
Proof.
  intros Hq. destruct (refines_commit q p Hq) as [H1 E1]. unfold send_acks, p_send_acks. destruct (commit commits q) as [q1 ok] eqn:Eq, (p_commit p) as [p1 ok'] eqn:Ep.
  simpl in *. subst ok'. destruct ok; simpl; [|done]. rewrite (r_owed _ _ H1). apply (refines_owed []). clear Eq Ep.
  generalize (toack q1). intros l. revert q1 p1 H1. induction l as [|m l IH]; intros q1 p1 H1; [done|]. simpl. apply IH. unfold send_bind_ack, p_bind_ack.
  rewrite (r_link _ _ H1). destruct (link_to_peer q1); [by apply refines_emit|done].
Qed.
Lemma send_updates_ok q p : refines q p -> meets (send_updates max_flying sends commits q) (p_send_updates p).
Proof.
  intros Hq. unfold send_updates, p_send_updates. rewrite (r_link _ _ Hq). destruct (link_to_peer q); [|by apply meets_done]. rewrite (r_owed _ _ Hq).
  assert (Ha : refines (match toack q with [] => q | _ => send_acks commits q end) (match toack q with [] => p | _ => p_send_acks p end)).
  { destruct (toack q); [done|by apply send_acks_ok]. }
  apply send_loop_ok; [done|done|]. destruct (known_length _ _ _ (r_lists _ _ Ha)). lia.
Qed.

(** *** Queueing *)
Lemma knows_node q p i : refines q p -> is_Some (infos p !! i) -> is_Some (nodes q !! i).
Proof. intros Hq [l Hl]. destruct (refines_node q p i l Hq Hl) as (n & En & _). by exists n. Qed.
Lemma in_without l i : i ∉ without l i.
Proof. unfold without. rewrite list_elem_of_filter. tauto. Qed.
Lemma p_unack_lists i p : unsent (p_unack i p) = unsent p /\ unacked (p_unack i p) = without (unacked p) i /\ dom (infos (p_unack i p)) = dom (infos p).
Proof.
  unfold p_unack. destruct (decide _) as [Hi|Hi]; [|by rewrite without_notin]. simpl. destruct (without (unacked p) i) eqn:E; simpl; by rewrite dom_alter_L, ?E.
Qed.
Lemma without_le l i : zlen (without l i) <= zlen l.
Proof. unfold zlen, without. pose proof (length_filter (fun j => j <> i) l). lia. Qed.

Lemma put_update_meets q p i : refines q p -> is_Some (infos p !! i) -> i ∉ unsent p ++ unacked p ->
  meets (put_update q i) (p_lists (unsent p ++ [i]) (unacked p) p).
Proof.
  intros Hq Hk Hi. eapply moves_meets; [done| |by apply r_flying with (q := q)].
  apply put_update_ok; [by apply r_lists|by eapply knows_node|done].
Qed.
Lemma queued_ok q p i imm : refines q p -> is_Some (infos p !! i) ->
  meets (queue_update max_flying sends commits q i imm) (p_queue_update i imm p).
Proof.
  intros Hq Hk. destruct (knows_node q p i Hq Hk) as [n En]. destruct (refines_flags q p i n Hq En) as [Hu Ha].
  unfold queue_update, p_queue_update, node_at. rewrite En. dred. rewrite Hu, Ha. destruct (decide (i ∈ unsent p)) as [HiU|HiU].
  { rewrite bool_decide_eq_true_2 by done. by apply meets_done. }
  rewrite bool_decide_eq_false_2 by done. destruct (p_unack_lists i p) as (LU & LA & Ld). eapply (meets_bind _ _ (p_unack i p)).
  { destruct (decide (i ∈ unacked p)) as [HiA|HiA].
    - rewrite bool_decide_eq_true_2 by done. by apply ack_queue_remove_ok.
    - rewrite bool_decide_eq_false_2 by done. unfold p_unack. rewrite decide_False by done. by apply meets_done. }
  intros q1 H1. eapply meets_bind.
  { apply put_update_meets; [exact H1| |].
    - apply elem_of_dom. rewrite Ld. by apply elem_of_dom.
    - rewrite LU, LA. apply not_elem_of_app. split; [done|apply in_without]. }
  intros q2 H2. destruct imm; [by apply send_updates_ok|by apply meets_done].
Qed.

Lemma queue_ack_ok q p m : refines q p -> refines (queue_ack max_flying commits q m) (p_queue_ack m p).
Proof.
  intros Hq. unfold queue_ack, p_queue_ack. set (q1 := set_toack _ _ q). set (p1 := p_owed _ p).
  assert (H1 : refines q1 p1).
  { subst q1 p1. rewrite (r_pending _ _ Hq), <- (r_owed _ _ Hq). change 1 with (zlen [m]). rewrite <- zlen_app. by apply refines_owed. }
  assert (H2 : refines (if max_flying / 2 <=? u32 (pending_acks q1) then send_acks commits q1 else q1) (if max_flying / 2 <=? u32 (zlen (owed p1)) then p_send_acks p1 else p1)).
  { rewrite (r_pending _ _ H1). destruct (_ <=? _); [by apply send_acks_ok|done]. }
  generalize dependent (if max_flying / 2 <=? u32 (pending_acks q1) then send_acks commits q1 else q1).
  generalize dependent (if max_flying / 2 <=? u32 (zlen (owed p1)) then p_send_acks p1 else p1). intros p2 q2 H2.
  rewrite (r_pending _ _ H2). destruct (owed p2); [done|]. destruct (Z.ltb_spec 0 (zlen (n :: l))) as [|E]; [by apply refines_emit|].
  unfold zlen in E. simpl in E. lia.
Qed.

Lemma send_upd_done_ok q p : refines q p -> refines (send_upd_done commits q) (p_upd_done p).
Proof.
  intros Hq. unfold send_upd_done, p_upd_done. rewrite (r_link _ _ Hq). destruct (link_to_peer q); [|done]. simpl.
  rewrite (r_done_xid _ _ Hq), (r_done_after _ _ Hq). apply (refines_emit Commit), (refines_done (send_update_done q) (u32 (updxid q - 1))), refines_emit, Hq.
Qed.
Lemma bind_ack_unqueue_ok q p i : refines q p -> is_Some (infos p !! i) ->
  meets (bind_ack_unqueue max_flying sends commits q i) (p_bind_ack_unqueue i p).
Proof.
  intros Hq Hk. unfold bind_ack_unqueue, p_bind_ack_unqueue. eapply meets_bind; [apply ack_queue_remove_ok; [done|by eapply knows_node]|].
  intros q1 H1. apply send_updates_ok. rewrite (r_done_after _ _ H1), (r_done_xid _ _ H1).
  destruct (decide (send_update_done q1 = Some i)); [rewrite bool_decide_eq_true_2 by done|by rewrite bool_decide_eq_false_2].
  by apply send_upd_done_ok, refines_done.
Qed.

Lemma p_queue_fresh i p : i ∉ unsent p ++ unacked p -> p_queue_update i false p = p_lists (unsent p ++ [i]) (unacked p) p.
Proof.
  intros [HU HA]%not_elem_of_app. unfold p_queue_update. rewrite decide_False by done. unfold p_unack. by rewrite decide_False.
Qed.
Lemma generate_update_queue_ok all ls : forall q p, refines q p -> knows p ls.*2 ->
  meets (generate_update_queue max_flying sends commits all ls q) (p_generate all ls p).
Proof.
  induction ls as [|[ex i] ls IH]; intros q p Hq Hk; [by apply meets_done|]. apply List.Forall_cons_iff in Hk as [Hi Hk]. cbn [generate_update_queue p_generate].
  destruct (knows_node q p i Hq Hi) as [n En]. destruct (refines_flags q p i n Hq En) as [Hu Ha]. unfold node_at. rewrite En. dred.
  unfold p_wants. rewrite (r_infos _ _ Hq), lookup_fmap, En. change (info <$> Some n) with (Some (info n)). cbv iota.
  assert (Hb : bool_decide (i ∉ unsent p ++ unacked p) = negb (on_update n) && negb (on_ack n)).
  { rewrite Hu, Ha. rewrite (bool_decide_ext _ ((i ∉ unsent p) /\ (i ∉ unacked p))) by apply not_elem_of_app. by rewrite bool_decide_and, !bool_decide_not. }
  rewrite <- Hb. destruct (bool_decide (i ∉ unsent p ++ unacked p)) eqn:Eb; simpl andb; [apply bool_decide_eq_true in Eb|by apply IH].
  destruct (all || _ || ex); [|by apply IH]. rewrite (on_node_Done q i _ _ En). dred. pose proof (refines_info q p i n set_desired Hq En) as H1.
  eapply meets_bind; [|intros q2 H2; apply IH; [exact H2|]].
  - pose proof (p_queue_fresh i (p_info i set_desired p) Eb) as Ef. cbn [p_info unsent unacked] in Ef. rewrite <- Ef. apply queued_ok; [done|]. simpl. rewrite lookup_alter_eq. by apply fmap_is_Some.
  - eapply List.Forall_impl; [|exact Hk]. intros j Hj. simpl. apply elem_of_dom. rewrite dom_alter_L. by apply elem_of_dom.
Qed.
Lemma process_update_request_ok all ls x q p : refines q p -> knows p ls.*2 ->
  meets (process_update_request max_flying sends commits all ls q x) (p_update_request all ls x p).
Proof.
  intros Hq Hk. unfold process_update_request, p_update_request. rewrite <- (r_done_xid _ _ Hq).
  eapply meets_bind; [apply (generate_update_queue_ok all ls _ (p_done None (done_xid p) p)); [by apply refines_done|exact Hk]|]. intros q1 H1. rewrite (update_last _ _ _ (r_lists _ _ H1)).
  destruct (last _); [by apply send_updates_ok, refines_done|]. apply meets_done, send_upd_done_ok. rewrite (r_done_after _ _ H1). by apply refines_done.
Qed.

(** *** Sequences of events *)
Lemma performed_ok e q p : refines q p -> knows p (about e) -> meets (performed e q) (promised e p).
Proof.
  intros Hq Hk. destruct e as [|i imm| |m| |i|i|all ls x|x]; simpl in Hk |- *; try (apply List.Forall_cons_iff in Hk as [Hk _]).
  - eapply moves_meets; [done|by apply rescind_updates_ok, r_lists|]. change (zlen (@nil nat)) with 0. lia.
  - by apply queued_ok.
  - by apply send_updates_ok.
  - by apply meets_done, queue_ack_ok.
  - by apply meets_done, send_acks_ok.
  - apply ack_queue_remove_ok; [done|by eapply knows_node].
  - by apply bind_ack_unqueue_ok.
  - by apply process_update_request_ok.
  - by apply meets_done, refines_link.
Qed.

(** Leases stay known. *)
Lemma p_send_acks_same p : unsent (p_send_acks p) = unsent p /\ unacked (p_send_acks p) = unacked p /\ infos (p_send_acks p) = infos p.
Proof.
  unfold p_send_acks. destruct (p_commit p) as [p1 ok] eqn:E. injection E as <- _. destruct ok; simpl negb; cbv iota; [|done].
  assert (H : forall l p', let r := foldl p_bind_ack p' l in unsent r = unsent p' /\ unacked r = unacked p' /\ infos r = infos p').
  { induction l as [|m l IH]; intros p'; [done|]. simpl. specialize (IH (p_bind_ack p' m)) as (-> & -> & ->). unfold p_bind_ack. by destruct (link p'). }
  specialize (H (owed (p_emit Commit p)) (p_emit Commit p)) as (H1 & H2 & H3). by rewrite <- H1, <- H2, <- H3 at 1.
Qed.
Lemma p_send_dom l : forall p, dom (infos (p_send l p)) = dom (infos p).
Proof.
  induction l as [|i l IH]; intros p; [done|]. simpl. destruct (_ <? _); [|done]. destruct (p_bind_update_lists i p) as (_ & _ & E).
  destruct (p_bind_update i p) as [p1 []]; simpl in E |- *; [|done]. by rewrite IH.
Qed.
Lemma p_send_updates_dom p : dom (infos (p_send_updates p)) = dom (infos p).
Proof.
  unfold p_send_updates. destruct (link p); [|done]. rewrite p_send_dom. destruct (owed p); [done|]. by destruct (p_send_acks_same p) as (_ & _ & ->).
Qed.
Lemma p_upd_done_same p : unsent (p_upd_done p) = unsent p /\ unacked (p_upd_done p) = unacked p /\ infos (p_upd_done p) = infos p.
Proof. unfold p_upd_done. by destruct (link p). Qed.
Lemma p_generate_dom all ls : forall p, dom (infos (p_generate all ls p)) = dom (infos p).
Proof. induction ls as [|[ex i] ls IH]; intros p; [done|]. cbn [p_generate]. rewrite IH. destruct (p_wants _ _ _ _); [|done]. simpl. by rewrite dom_alter_L. Qed.
Lemma promised_dom e p : dom (infos (promised e p)) = dom (infos p).
Proof.
  destruct e as [|i imm| |m| |i|i|all ls x|x]; simpl; try done.
  - unfold p_queue_update. destruct (decide _); [done|]. destruct (p_unack_lists i p) as (_ & _ & <-). destruct imm; by rewrite ?p_send_updates_dom.
  - apply p_send_updates_dom.
  - unfold p_queue_ack. set (p1 := p_owed _ p). assert (E : infos (if max_flying / 2 <=? u32 (zlen (owed p1)) then p_send_acks p1 else p1) = infos p).
    { destruct (_ <=? _); [|done]. by destruct (p_send_acks_same p1) as (_ & _ & ->). }
    revert E. generalize (if max_flying / 2 <=? u32 (zlen (owed p1)) then p_send_acks p1 else p1). intros p2 E. destruct (owed p2); simpl; by rewrite E.
  - by destruct (p_send_acks_same p) as (_ & _ & ->).
  - by destruct (p_unack_lists i p) as (_ & _ & ->).
  - unfold p_bind_ack_unqueue. rewrite p_send_updates_dom. destruct (p_unack_lists i p) as (_ & _ & <-). destruct (decide _); [|done].
    by destruct (p_upd_done_same (p_done None (done_xid (p_unack i p)) (p_unack i p))) as (_ & _ & ->).
  - unfold p_update_request. destruct (last _); [rewrite p_send_updates_dom|destruct (p_upd_done_same (p_done (done_after (p_generate all ls (p_done None (done_xid p) p))) x (p_generate all ls (p_done None (done_xid p) p)))) as (_ & _ & ->)];
      simpl; by rewrite p_generate_dom.
Qed.
Lemma perform_ok es : forall q p, refines q p -> Forall (fun e => knows p (about e)) es -> meets (perform es q) (promise_all es p).
Proof.
  induction es as [|e es IH]; intros q p Hq Hk; [by apply meets_done|]. apply List.Forall_cons_iff in Hk as [He Hk]. cbn [perform promise_all].
  eapply meets_bind; [by apply performed_ok|]. intros q1 H1. apply IH; [done|]. eapply List.Forall_impl; [|exact Hk]. intros e' He'.
  eapply List.Forall_impl; [|exact He']. intros j Hj. simpl in Hj |- *. apply elem_of_dom. rewrite promised_dom. by apply elem_of_dom.
Qed.
End spec.

(** ** Updates are not lost *)
Definition pending (i : nat) (p : promise) : Prop := i ∈ unsent p ++ unacked p.
#[global] Instance pending_dec i p : Decision (pending i p).
Proof. unfold pending. apply _. Defined.
Definition waiting (i : nat) (q : queues) : Prop := exists n, nodes q !! i = Some n /\ on_update n || on_ack n = true.
Definition settles (i : nat) (e : event) : bool :=
  match e with AckRemoved j | AckedByPeer j => bool_decide (j = i) | _ => false end.

Lemma pending_waiting max q p i : refines max q p -> is_Some (infos p !! i) -> (pending i p <-> waiting i q).
Proof.
  intros Hq Hk. destruct (knows_node max q p i Hq Hk) as [n En]. destruct (refines_flags max q p i n Hq En) as [Hu Ha]. unfold pending, waiting.
  rewrite elem_of_app. split.
  - intros Hi. exists n. split; [done|]. rewrite Hu, Ha. apply orb_true_iff. rewrite !bool_decide_eq_true. exact Hi.
  - intros (n' & En' & Hn). rewrite En in En'. injection En' as <-. rewrite Hu, Ha in Hn. apply orb_true_iff in Hn. by rewrite !bool_decide_eq_true in Hn.
Qed.

Section kept.
Context (max_flying : Z) (sends commits : nat -> bool) (i : nat).

Lemma pending_same p p' : unsent p' = unsent p -> unacked p' = unacked p -> pending i p -> pending i p'.
Proof. unfold pending. by intros -> ->. Qed.
Lemma p_send_keeps l : forall p, unsent p = l -> pending i p -> pending i (p_send max_flying sends commits l p).
Proof.
  induction l as [|j l IH]; intros p EU Hp; [done|]. cbn [p_send]. destruct (_ <? _); [|done].
  destruct (p_bind_update_lists sends commits j p) as (LU & LA & _). destruct (p_bind_update sends commits j p) as [p1 ok]. simpl in LU, LA.
  destruct ok; [|by apply (pending_same p p1)]. apply IH; [done|]. unfold pending in *. simpl. rewrite EU in Hp. rewrite LA. set_solver.
Qed.
Lemma p_send_updates_keeps p : pending i p -> pending i (p_send_updates max_flying sends commits p).
Proof.
  intros Hp. unfold p_send_updates. destruct (link p); [|done]. apply p_send_keeps; [done|]. destruct (owed p); [done|].
  destruct (p_send_acks_same commits p) as (E1 & E2 & _). by apply (pending_same p).
Qed.
Lemma p_unack_keeps j p : j <> i -> pending i p -> pending i (p_unack commits j p).
Proof.
  intros N Hp. destruct (p_unack_lists commits j p) as (LU & LA & _). unfold pending in *. rewrite LU, LA. unfold without.
  rewrite elem_of_app, list_elem_of_filter. rewrite elem_of_app in Hp. naive_solver.
Qed.
Lemma p_queued j p : i = j \/ pending i p -> pending i (p_lists (unsent (p_unack commits j p) ++ [j]) (unacked (p_unack commits j p)) (p_unack commits j p)).
Proof.
  intros Hi. unfold pending. simpl. destruct (decide (i = j)) as [->|N]; [set_solver|]. destruct Hi as [Hi|Hi]; [done|].
  assert (H : pending i (p_unack commits j p)) by (apply p_unack_keeps; [congruence|done]). unfold pending in H. set_solver.
Qed.
Lemma p_generate_keeps all ls : forall p, pending i p \/ (all = true /\ i ∈ ls.*2 /\ is_Some (infos p !! i)) -> pending i (p_generate all ls p).
Proof.
  induction ls as [|[ex j] ls IH]; intros p Hp; [destruct Hp as [Hp|(_ & Hi & _)]; [done|by apply not_elem_of_nil in Hi]|].
  cbn [p_generate]. apply IH. destruct (p_wants all ex j p) eqn:Ew.
  - destruct (decide (i = j)) as [->|N]; [left; unfold pending; simpl; set_solver|]. destruct Hp as [Hp|(Ha & Hi & Hk)].
    + left. unfold pending in *. simpl. set_solver.
    + right. split; [done|]. split; [apply elem_of_cons in Hi as [Hi|Hi]; done|]. simpl. by rewrite lookup_alter_ne.
  - destruct Hp as [Hp|(Ha & Hi & [l Hl])]; [by left|]. apply elem_of_cons in Hi as [Hi|Hi]; [|right; by eauto]. simpl in Hi. subst j.
    left. unfold p_wants in Ew. rewrite Hl, Ha in Ew. simpl in Ew. rewrite andb_true_r in Ew. apply bool_decide_eq_false in Ew.
    unfold pending. by destruct (decide (i ∈ unsent p ++ unacked p)).
Qed.
Lemma p_update_request_keeps all ls x p : pending i p \/ (all = true /\ i ∈ ls.*2 /\ is_Some (infos p !! i)) ->
  pending i (p_update_request max_flying sends commits all ls x p).
Proof.
  intros Hp. unfold p_update_request. pose proof (p_generate_keeps all ls (p_done None (done_xid p) p) Hp) as Hg.
  destruct (last _); [by apply p_send_updates_keeps|]. unfold p_upd_done. by destruct (link _).
Qed.
Lemma promised_keeps e p : settles i e = false -> pending i p -> pending i (promised max_flying sends commits e p).
Proof.
  intros He Hp. destruct e as [|j imm| |m| |j|j|all ls x|x]; simpl in He |- *.
  - unfold pending in *. simpl. set_solver.
  - unfold p_queue_update. destruct (decide _); [done|]. destruct imm; [apply p_send_updates_keeps|]; apply p_queued; by right.
  - by apply p_send_updates_keeps.
  - unfold p_queue_ack. set (p1 := p_owed _ p). assert (H : pending i (if max_flying / 2 <=? u32 (zlen (owed p1)) then p_send_acks commits p1 else p1)).
    { destruct (_ <=? _); [|done]. destruct (p_send_acks_same commits p1) as (E1 & E2 & _). by apply (pending_same p1). }
    revert H. generalize (if max_flying / 2 <=? u32 (zlen (owed p1)) then p_send_acks commits p1 else p1). intros p2. by destruct (owed p2).
  - destruct (p_send_acks_same commits p) as (E1 & E2 & _). by apply (pending_same p).
  - apply bool_decide_eq_false in He. by apply p_unack_keeps.
  - apply bool_decide_eq_false in He. apply p_send_updates_keeps. pose proof (p_unack_keeps j p He Hp) as H.
    destruct (decide _); [|done]. unfold p_upd_done. by destruct (link _).
  - apply p_update_request_keeps. by left.
  - done.
Qed.
Lemma promise_all_keeps es : forall p, Forall (fun e => settles i e = false) es -> pending i p -> pending i (promise_all max_flying sends commits es p).
Proof. induction es as [|e es IH]; intros p Hs Hp; [done|]. apply List.Forall_cons_iff in Hs as [He Hs]. by apply IH, promised_keeps. Qed.
Lemma promise_all_dom es : forall p, dom (infos (promise_all max_flying sends commits es p)) = dom (infos p).
Proof. induction es as [|e es IH]; intros p; [done|]. simpl. by rewrite IH, promised_dom. Qed.
End kept.

(** ** What the queues guarantee *)

(** C36: Whatever happens, one thing after the other, the operations on
    the linked queues neither fault nor run out of fuel, and do to the queues,
    to the leases and to the messages and commits what the specification on
    two lists does; never more than [max_flying_updates] updates are under
    way. *)
Theorem queues_refine max_flying sends commits (q : queues) (p : promise) (es : list event) : 0 <= max_flying < 2 ^ 32 -> refines max_flying q p -> Forall (fun e => knows p (about e)) es ->
  exists q', perform max_flying sends commits es q = Done q' /\ refines max_flying q' (promise_all max_flying sends commits es p).
Proof. intros Hw Hq Hk. by apply perform_ok. Qed.

(** C37: An update that is queued stays on one of the queues, to be sent or to
    be acknowledged, through losses of the connection, requests for all updates,
    other updates and their acknowledgements, until its lease is acknowledged
    by the peer or is taken off the queue because an update of the peer for the
    same lease is thought better (the two events of [settles]). *)
Theorem updates_not_lost max_flying sends commits (q : queues) (p : promise) (es : list event) i : 0 <= max_flying < 2 ^ 32 -> refines max_flying q p -> Forall (fun e => knows p (about e)) es ->
  Forall (fun e => settles i e = false) es -> waiting i q -> exists q', perform max_flying sends commits es q = Done q' /\ waiting i q'.
Proof.
  intros Hw Hq Hk Hs Hi. assert (Hki : is_Some (infos p !! i)) by (destruct Hi as (n & En & _); rewrite (r_infos _ _ _ Hq), lookup_fmap, En; done).
  destruct (perform_ok max_flying sends commits Hw es q p Hq Hk) as (q' & E & Hq'). exists q'. split; [done|].
  apply (pending_waiting max_flying q' (promise_all max_flying sends commits es p)); [done| |].
  - apply elem_of_dom. rewrite promise_all_dom. by apply elem_of_dom.
  - apply promise_all_keeps; [done|]. by apply (pending_waiting max_flying q p).
Qed.

(** When the peer asks for everything, each lease of the pools is
    on one of the queues afterwards. *)
Lemma update_request_all_covers max_flying sends commits q p ls xid : 0 <= max_flying < 2 ^ 32 -> refines max_flying q p -> knows p ls.*2 ->
  exists q', process_update_request max_flying sends commits true ls q xid = Done q' /\ Forall (fun i => waiting i q') ls.*2.
Proof.
  intros Hw Hq Hk. destruct (process_update_request_ok max_flying sends commits Hw true ls xid q p Hq Hk) as (q' & E & Hq'). exists q'. split; [done|].
  apply List.Forall_forall. intros i Hi%list_elem_of_In. apply List.Forall_forall with (x := i) in Hk as Hki; [|by apply list_elem_of_In].
  apply (pending_waiting max_flying q' _ i Hq').
  - apply elem_of_dom. pose proof (promised_dom max_flying sends commits (UpdateRequest true ls xid) p) as Hd. simpl in Hd. rewrite Hd. by apply elem_of_dom.
  - apply p_update_request_keeps. right. done.
Qed.

(** ** From the start *)
Definition idle_node (l : lease_info) : node := mk_node None false false l.
Definition idle (ls : gmap nat lease_info) (link : option Z) : queues := mk_queues (idle_node <$> ls) None None None None 0 [] 0 link None 0 [].
Definition p_idle (ls : gmap nat lease_info) (link : option Z) : promise := mk_promise ls [] [] [] link None 0 [].
Lemma idle_refines max_flying ls link : 0 <= max_flying -> refines max_flying (idle ls link) (p_idle ls link).
Proof.
  intros H. split; simpl; try done; [split; simpl; try done|].
  - intros i Hi. by apply not_elem_of_nil in Hi.
  - intros i n Hi. apply lookup_fmap_Some in Hi as (l & <- & Hl). by unfold stands.
  - apply NoDup_nil_2.
  - rewrite <- map_fmap_compose. symmetry. apply map_fmap_id.
Qed.

(** *** Three leases, one of whose states has changed, and two updates under way at most *)
Definition some_info (b r : Z) : lease_info := mk_info 0 b b r 20 10.
Definition three : gmap nat lease_info := {[ 1%nat := some_info 2 2; 2%nat := some_info 2 1; 3%nat := some_info 1 1 ]}.
Definition some_events : list event :=
  [Queued 1 true; Queued 2 true; Queued 3 true; PeerUpdate 7; Connection None; Rescinded; Queued 2 false; Connection (Some 9); SendUpdates; AckedByPeer 1].

Example some_events_run :
  match perform 2 (fun _ => true) (fun _ => true) some_events (idle three (Some 0)) with
  | Done q => (update_head q, ack_head q, ack_tail q, cur_unacked_updates q, link_to_peer q, effects q)
  | _ => (None, None, None, 0, None, [])
  end = (None, Some 2%nat, Some 3%nat, 2, Some 12,
         [BndUpd 1 1; WriteLease 2; Commit; BndUpd 2 2; Commit; BndAck 7;
          BndUpd 1 9; BndUpd 2 10; BndUpd 3 11]).
Proof. vm_compute. reflexivity. Qed.

Example queues_refine_witness :
  exists q', perform 2 (fun _ => true) (fun _ => true) some_events (idle three (Some 0)) = Done q' /\
    refines 2 q' (promise_all 2 (fun _ => true) (fun _ => true) some_events (p_idle three (Some 0))).
Proof.
  apply queues_refine; [lia|by apply idle_refines|]. apply (bool_decide_unpack _). vm_compute. exact I.
Defined.
Example updates_not_lost_witness : exists q q', perform 2 (fun _ => true) (fun _ => true) [Queued 1 true] (idle three (Some 0)) = Done q /\ waiting 1 q /\
  perform 2 (fun _ => true) (fun _ => true) [Connection None; Rescinded; AckedByPeer 2; Connection (Some 9); SendUpdates] q = Done q' /\ waiting 1 q'.
Proof.
  destruct (perform_ok 2 (fun _ => true) (fun _ => true) ltac:(lia) [Queued 1 true] (idle three (Some 0)) (p_idle three (Some 0))) as (q & E & Hq);
    [by apply idle_refines|apply (bool_decide_unpack _); vm_compute; exact I|].
  assert (Hw : waiting 1 q) by (eapply pending_waiting; [exact Hq|vm_compute; eauto|apply (bool_decide_unpack _); vm_compute; exact I]).
  exists q. destruct (updates_not_lost 2 (fun _ => true) (fun _ => true) q _ [Connection None; Rescinded; AckedByPeer 2; Connection (Some 9); SendUpdates] 1
    ltac:(lia) Hq) as (q' & E' & H'); [apply (bool_decide_unpack _); vm_compute; exact I|by repeat constructor|done|].
  by exists q'.
Defined.
