(* ===== verification/Failover.v ===== *)
(** * The state machine of a failover peer (server/failover.c)

    Each of two servers is in one of thirteen states, tells the other one when
    it changes its state, and changes it when the other one does, when the
    connection is made or lost, when an update is complete and when a timeout
    comes.  A state is written to the lease file before it is announced.

    The queues of updates are those of FailoverQueue, and what goes out is part
    of the same list of effects.  Parameters are the leases of the pools, in
    the order in which [dhcp_failover_generate_update_queue] meets them, and the
    leases that balancing the pools moves to the other server.  The timers of
    the pools in partner-down ([FreeExpired]) and the check of the pools
    ([PoolCheck]) are effects only. *)

From stdpp Require Import base tactics list numbers gmap.
From S2P Require Import Prelude LeaseDb FailoverQueue FailoverQueueList FailoverQueueOk.

#[local] Open Scope Z_scope.

(** ** Data *)

(** The numbers of the states on the wire; a peer may send any other number. *)
Definition state_code (s : failover_state) : Z :=
  match s with
  | unknown_state => 0 | startup => 1 | normal => 2 | communications_interrupted => 3 | partner_down => 4 | potential_conflict => 5
  | recover => 6 | paused => 7 | shut_down => 8 | recover_done => 9 | resolution_interrupted => 10 | conflict_done => 11 | recover_wait => 254
  end.
Definition all_states : list failover_state :=
  [unknown_state; startup; normal; communications_interrupted; partner_down; potential_conflict; recover; paused; shut_down; recover_done;
   resolution_interrupted; conflict_done; recover_wait].
Definition state_of_code (n : Z) : option failover_state := List.find (fun s => state_code s =? n) all_states.

Inductive update_request := UPDREQ | UPDREQALL.
#[export] Instance update_request_eq_dec : EqDecision update_request.
Proof. solve_decision. Defined.
Definition FTF_SERVER_STARTUP : Z := 1.

Record failover := mk_failover {
  f_role : failover_role;
  f_mclt : Z;
  auto_partner_down : Z;
  f_me : failover_state;
  f_stos : Z;
  partner_state : Z;
  partner_stos : Z;
  saved_state : failover_state;
  f_service : service_state;
  curUPD : option update_request;
  f_queues : queues }.
Definition set_queues (q : queues) (f : failover) : failover :=
  mk_failover (f_role f) (f_mclt f) (auto_partner_down f) (f_me f) (f_stos f) (partner_state f) (partner_stos f) (saved_state f) (f_service f) (curUPD f) q.
Definition set_me (s : failover_state) (t : Z) (f : failover) : failover :=
  mk_failover (f_role f) (f_mclt f) (auto_partner_down f) s t (partner_state f) (partner_stos f) (saved_state f) (f_service f) (curUPD f) (f_queues f).
Definition set_partner (n t : Z) (f : failover) : failover :=
  mk_failover (f_role f) (f_mclt f) (auto_partner_down f) (f_me f) (f_stos f) n t (saved_state f) (f_service f) (curUPD f) (f_queues f).
Definition set_saved (s : failover_state) (f : failover) : failover :=
  mk_failover (f_role f) (f_mclt f) (auto_partner_down f) (f_me f) (f_stos f) (partner_state f) (partner_stos f) s (f_service f) (curUPD f) (f_queues f).
Definition set_service (s : service_state) (f : failover) : failover :=
  mk_failover (f_role f) (f_mclt f) (auto_partner_down f) (f_me f) (f_stos f) (partner_state f) (partner_stos f) (saved_state f) s (curUPD f) (f_queues f).
Definition set_curUPD (u : option update_request) (f : failover) : failover :=
  mk_failover (f_role f) (f_mclt f) (auto_partner_down f) (f_me f) (f_stos f) (partner_state f) (partner_stos f) (saved_state f) (f_service f) u (f_queues f).

Definition is_state (s : failover_state) (n : Z) : bool := n =? state_code s.
Definition in_states (l : list failover_state) (s : failover_state) : bool := bool_decide (s ∈ l).
Definition link_to (f : failover) : option Z := link_to_peer (f_queues f).
Definition act (e : effect) (f : failover) : failover := set_queues (emit e (f_queues f)) f.
Definition on_queues (f : failover) (r : outcome queues) : outcome failover := q ← r; Done (set_queues q f).

(** The state that counts while a server starts up. *)
Definition effective (f : failover) : failover_state := if bool_decide (f_me f = startup) then saved_state f else f_me f.

(** ** Service *)

(** [dhcp_failover_set_service_state], without the reason that is printed. *)
Definition own_service (s : failover_state) : service_state :=
  match s with
  | unknown_state => not_responding
  | partner_down => service_partner_down
  | normal => cooperating
  | communications_interrupted => not_cooperating
  | resolution_interrupted | potential_conflict | conflict_done => not_responding
  | recover | shut_down | paused | recover_wait | recover_done => not_responding
  | startup => service_startup
  end.
Definition service_for (s : failover_state) (partner : Z) : service_state :=
  if bool_decide (own_service s = not_responding) then not_responding
  else if is_state partner_down partner || is_state potential_conflict partner || is_state conflict_done partner || is_state resolution_interrupted partner then not_responding
  else own_service s.
Definition set_service_state (f : failover) : failover := set_service (service_for (f_me f) (partner_state f)) f.

(** ** Messages *)

(** A message takes the next transaction of the connection. *)
Definition transmit (m : Z -> effect) (f : failover) : failover :=
  match link_to f with
  | None => f
  | Some x => set_queues (emit (m x) (set_link (Some (u32 (x + 1))) (f_queues f))) f
  end.
Definition send_state (f : failover) : failover :=
  transmit (fun x => State x (state_code (effective f)) (if bool_decide (f_service f = service_startup) then FTF_SERVER_STARTUP else 0) (f_stos f)) f.
Definition send_update_request_all (f : failover) : failover :=
  match link_to f with None => f | Some _ => set_curUPD (Some UPDREQALL) (transmit UpdReqAll f) end.
Definition send_update_request (f : failover) : failover :=
  match link_to f with
  | None => f
  | Some _ => if bool_decide (curUPD f = Some UPDREQALL) then send_update_request_all f else set_curUPD (Some UPDREQ) (transmit UpdReq f)
  end.

Section machine.
Context (cur_time max_flying : Z) (sends commits : nat -> bool) (pool_leases : list (bool * nat)) (rebalanced : nat -> list nat).

(** [write_failover_state] (server/db.c) and [commit_leases]. *)
Definition record_state (f : failover) : failover * bool :=
  let written := commits (length (effects (f_queues f))) in
  let f := act (RecordState (state_code (effective f)) (f_stos f) (partner_state f) (partner_stos f)) f in
  if written then let '(q, ok) := commit commits (f_queues f) in (set_queues q f, ok) else (f, false).

(** The leases that balancing moves are queued. *)
Fixpoint queue_all (ls : list nat) (q : queues) : outcome queues :=
  match ls with [] => Done q | i :: ls => q ← queue_update max_flying sends commits q i false; queue_all ls q end.
Definition pool_balance (f : failover) : outcome failover :=
  let f := act PoolBalance (act (CancelTimer pool_rebalance) f) in
  on_queues f (queue_all (rebalanced (length (effects (f_queues f)))) (f_queues f)).

(** ** Changing the state *)
Definition rescinds (s : failover_state) : bool := in_states [normal; potential_conflict; partner_down] s.
Definition stos_for (new : failover_state) (f : failover) : Z :=
  if bool_decide (new = recover) && bool_decide (f_me f = shut_down) && is_state partner_down (partner_state f)
     && bool_decide (update_head (f_queues f) = None) && bool_decide (ack_head (f_queues f) = None)
  then cur_time - f_mclt f
  else if negb (in_states [recover_wait; startup] new) && negb (bool_decide (f_me f = startup)) then cur_time else f_stos f.

(** What is done on entering a state. *)
Definition entered (recover_done_ : failover -> outcome failover) (new : failover_state) (f : failover) : outcome failover :=
  match new with
  | communications_interrupted =>
      Done (if auto_partner_down f =? 0 then f else act (SetTimer auto_partner_down_timeout (cur_time + auto_partner_down f)) f)
  | normal =>
      f ← pool_balance f;
      f ← on_queues f (generate_update_queue max_flying sends commits false pool_leases (f_queues f));
      match update_tail (f_queues f) with
      | Some _ => on_queues f (send_updates max_flying sends commits (f_queues f))
      | None => Done f
      end
  | potential_conflict =>
      Done (if bool_decide (f_role f = primary) || is_state conflict_done (partner_state f) then send_update_request f else f)
  | startup => Done (act (SetTimer startup_timeout (cur_time + 15)) f)
  | recover_wait =>
      if cur_time <? f_stos f + f_mclt f then Done (act (SetTimer recover_done_timeout (s32 (f_stos f + f_mclt f))) f) else recover_done_ f
  | recover => Done (match link_to f with Some _ => send_update_request_all f | None => f end)
  | partner_down => Done (act (FreeExpired (f_stos f + f_mclt f)) f)
  | _ => Done f
  end.
Definition set_state_step (recover_done_ : failover -> outcome failover) (new : failover_state) (f : failover) : outcome (failover * bool) :=
  f ← (if rescinds (f_me f) then f ← on_queues f (rescind_updates (f_queues f)); Done (act (CancelTimer keepalive) f) else Done f);
  let old := f_me f in
  let old_stos := f_stos f in
  let f := set_me new (stos_for new f) (if bool_decide (new = startup) && negb (bool_decide (old = startup)) then set_saved old f else f) in
  let '(f, ok) := record_state f in
  if negb ok then Done (set_me old old_stos f, false)
  else
    let f := if negb (bool_decide (new = startup)) && bool_decide (old = startup) then act (CancelTimer startup_timeout) f else f in
    let f := send_state (set_service_state (act (CancelTimer auto_partner_down_timeout) f)) in
    f ← entered recover_done_ new f;
    Done (f, true).

(** Only [recover_wait] goes on to another state, and that is [recover_done]. *)
Fixpoint set_state_n (n : nat) (new : failover_state) (f : failover) : outcome (failover * bool) :=
  match n with
  | O => Running
  | S n => set_state_step (fun f => '(f, _) ← set_state_n n recover_done f; Done f) new f
  end.
Definition set_state : failover_state -> failover -> outcome (failover * bool) := set_state_n 2.
Definition move_to (s : failover_state) (f : failover) : outcome failover := '(f, _) ← set_state s f; Done f.
Definition recover_done_event (f : failover) : outcome failover := move_to recover_done f.
Definition auto_partner_down_event (f : failover) : outcome failover := move_to partner_down f.

(** ** Signals of the connection *)
Inductive signal := Disconnect | Connect | Startup | ConnectTimeout | OtherSignal.
Definition state_transition (name : signal) (f : failover) : outcome (failover * bool) :=
  match name with
  | Disconnect =>
      let f := set_queues (set_link None (f_queues f)) f in
      let f := act (CancelTimer startup_timeout) (act (CancelTimer failover_timeout) (act (CancelTimer send_contact) f)) in
      let stay f := if bool_decide (f_me f = startup) then set_state (saved_state f) f else Done (f, true) in
      match effective f with
      | conflict_done => f ← on_queues f (rescind_updates (f_queues f)); stay f
      | communications_interrupted | partner_down | paused | recover | recover_done | recover_wait | resolution_interrupted | shut_down => stay f
      | potential_conflict => set_state resolution_interrupted f
      | normal => set_state communications_interrupted f
      | unknown_state => set_state resolution_interrupted f
      | startup => Fatal
      end
  | Connect =>
      match f_me f with
      | communications_interrupted =>
          '(f, ok) ← set_state normal f;
          f ← on_queues f (send_updates max_flying sends commits (f_queues f)); Done (f, ok)
      | resolution_interrupted => set_state potential_conflict f
      | _ => Done (send_state f, match link_to f with Some _ => true | None => false end)
      end
  | Startup => '(f, _) ← set_state startup f; Done (f, true)
  | ConnectTimeout =>
      match f_me f with
      | communications_interrupted | partner_down | resolution_interrupted | paused | startup | shut_down | conflict_done => Done (f, true)
      | normal | recover | recover_wait | recover_done | unknown_state => set_state communications_interrupted f
      | potential_conflict => set_state resolution_interrupted f
      end
  | OtherSignal => Done (f, false)
  end.
Definition startup_timeout_event (f : failover) : outcome failover := '(f, _) ← state_transition Disconnect f; Done f.

(** ** Messages of the peer *)

(** What the peer's new state means for a server, by its own state. *)
Definition react_normal (new : failover_state) (f : failover) : outcome failover :=
  match new with
  | normal => Done (act PoolCheck f)
  | partner_down => move_to (if bool_decide (f_me f = startup) then recover else potential_conflict) f
  | potential_conflict | resolution_interrupted | conflict_done => move_to shut_down f
  | recover | shut_down => move_to partner_down f
  | paused => move_to communications_interrupted f
  | _ => Done f
  end.
Definition react_recover (new : failover_state) (f : failover) : outcome failover :=
  match new with
  | recover | partner_down | communications_interrupted =>
      Done (if bool_decide (f_me f = recover) then send_update_request_all f else f)
  | potential_conflict | resolution_interrupted | conflict_done | normal => move_to potential_conflict f
  | shut_down => move_to partner_down f
  | _ => Done f
  end.
Definition react_potential_conflict (previous : Z) (new : failover_state) (f : failover) : outcome failover :=
  match new with
  | normal => move_to shut_down f
  | conflict_done => Done (if is_state potential_conflict previous then send_update_request f else f)
  | recover => move_to recover f
  | shut_down => move_to partner_down f
  | _ => Done f
  end.
Definition react_conflict_done (new : failover_state) (f : failover) : outcome failover :=
  match new with
  | normal | shut_down => move_to new f
  | potential_conflict | resolution_interrupted => Done f
  | _ => Fatal
  end.
Definition react_partner_down (startupp : bool) (new : failover_state) (f : failover) : outcome failover :=
  if startupp then Done f
  else
    match new with
    | recover | recover_wait => Done f
    | recover_done => move_to normal f
    | normal | potential_conflict | partner_down | communications_interrupted | resolution_interrupted | conflict_done => move_to potential_conflict f
    | _ => Done f
    end.
Definition react_communications_interrupted (new : failover_state) (f : failover) : outcome failover :=
  match new with
  | recover | shut_down => move_to partner_down f
  | normal | communications_interrupted | recover_done | recover_wait =>
      f ← on_queues f (send_updates max_flying sends commits (f_queues f)); move_to normal f
  | potential_conflict | partner_down | resolution_interrupted | conflict_done => move_to potential_conflict f
  | _ => Done f
  end.
Definition react_resolution_interrupted (new : failover_state) (f : failover) : outcome failover :=
  match new with
  | normal | recover | potential_conflict | partner_down | communications_interrupted | resolution_interrupted | conflict_done | recover_done | recover_wait =>
      move_to potential_conflict f
  | shut_down => move_to partner_down f
  | _ => Done f
  end.
Definition react_recover_done (new : failover_state) (f : failover) : outcome failover :=
  match new with
  | recover_done | normal => move_to normal f
  | shut_down => move_to partner_down f
  | _ => Done f
  end.
Definition react (previous : Z) (startupp : bool) (new : failover_state) (f : failover) : outcome failover :=
  match effective f with
  | normal => react_normal new f
  | recover => react_recover new f
  | potential_conflict => react_potential_conflict previous new f
  | conflict_done => react_conflict_done new f
  | partner_down => react_partner_down startupp new f
  | communications_interrupted => react_communications_interrupted new f
  | resolution_interrupted => react_resolution_interrupted new f
  | recover_done => react_recover_done new f
  | recover_wait | shut_down | paused | unknown_state => Done f
  | startup => Fatal
  end.

(** Whether the same state again is looked at. *)
Definition looks_again (s : failover_state) : bool :=
  in_states [partner_down; communications_interrupted; resolution_interrupted; recover; conflict_done] s.
Definition peer_state_changed (new : Z) (flags : Z) (f : failover) : outcome failover :=
  let previous := partner_state f in
  let startupp := negb (Z.land flags FTF_SERVER_STARTUP =? 0) in
  if (previous =? new) && negb (bool_decide (f_me f = unknown_state)) && bool_decide (f_me f = startup) then
    move_to (if bool_decide (saved_state f = resolution_interrupted) then potential_conflict else saved_state f) f
  else if (previous =? new) && negb (bool_decide (f_me f = unknown_state)) && negb (looks_again (f_me f)) then Done f
  else
    let '(f, _) := record_state (set_partner new cur_time f) in
    match state_of_code new with
    | None => move_to shut_down f
    | Some s =>
        f ← react previous startupp s f;
        f ← (if bool_decide (f_me f = startup) && negb (bool_decide (saved_state f = startup)) then move_to (saved_state f) f else Done f);
        Done (set_service_state f)
    end.

(** [dhcp_failover_process_update_done] *)
Definition process_update_done (f : failover) : outcome failover :=
  let f := set_curUPD None f in
  match f_me f with
  | potential_conflict =>
      if is_state conflict_done (partner_state f) then move_to (if bool_decide (f_role f = secondary) then normal else shut_down) f
      else if bool_decide (f_role f = primary) then move_to conflict_done f else Done f
  | recover =>
      if (cur_time <? f_stos f + f_mclt f) && negb (is_state recover (partner_state f)) && negb (is_state recover_done (partner_state f)) then
        f ← move_to recover_wait f; Done (act (SetTimer recover_done_timeout (s32 (f_stos f + f_mclt f))) f)
      else recover_done_event f
  | _ => Done f
  end.

(** The connection is made: the link is there and the state goes out. *)
Definition connected (xid : Z) (f : failover) : failover := send_state (set_queues (set_link (Some xid) (f_queues f)) f).

(** Requests and updates that concern the queues only. *)
Definition on_event (e : event) (f : failover) : outcome failover := on_queues f (performed max_flying sends commits e (f_queues f)).
End machine.
