(* ===== verification/FailoverOk.v ===== *)
(** * The state machine of a failover peer is sound (server/failover.c)

    Every event of [happening] (signals, timeouts, reports of the peer's state,
    what happens to the queues) returns and keeps the queues of updates in
    order; of these only a report of a state which conflict-done does not expect
    can stop the server.  Whether the server answers clients is at all times a function of
    the two states, and a state is announced only once it is on disk. *)

From stdpp Require Import base tactics list numbers gmap.
From S2P Require Import Prelude LeaseDb FailoverQueue FailoverQueueList FailoverQueueOk Failover.

#[local] Open Scope Z_scope.

Create HintDb failover.

(** ** Computations that return *)
Definition gives {A} (r : outcome A) (P : A -> Prop) : Prop := exists a, r = Done a /\ P a.
Lemma gives_done {A} (a : A) (P : A -> Prop) : P a -> gives (Done a) P.
Proof. by exists a. Qed.
Lemma gives_bind {A B} (r : outcome A) (g : A -> outcome B) P Q : gives r P -> (forall a, P a -> gives (g a) Q) -> gives (a ← r; g a) Q.
Proof. intros (a & -> & Ha) Hg. dred. by apply Hg. Qed.
Lemma gives_mono {A} (r : outcome A) (P Q : A -> Prop) : gives r P -> (forall a, P a -> Q a) -> gives r Q.
Proof. intros (a & -> & Ha) H. exists a. auto. Qed.

(** What the queues leave alone. *)
Definition control (f : failover) := (f_role f, f_mclt f, auto_partner_down f, (f_me f, f_stos f), (partner_state f, partner_stos f), saved_state f, f_service f).
Definition served (f : failover) : Prop := f_service f = service_for (f_me f) (partner_state f).
Definition settled (f : failover) : Prop := f_me f = startup -> saved_state f <> startup.

Section machine.
Context (cur_time max_flying : Z) (sends commits : nat -> bool) (pool_leases : list (bool * nat)) (rebalanced : nat -> list nat).
Context (width : 0 <= max_flying < 2 ^ 32).

(** The queues are in order and know the leases of the pools. *)
Definition fit (f : failover) : Prop :=
  exists p, refines max_flying (f_queues f) p /\ knows p pool_leases.*2 /\ forall n, knows p (rebalanced n).

Lemma fit_queues q f : fit (set_queues q f) = (exists p, refines max_flying q p /\ knows p pool_leases.*2 /\ forall n, knows p (rebalanced n)).
Proof. done. Qed.
Lemma fit_same f f' : f_queues f' = f_queues f -> fit f -> fit f'.
Proof. unfold fit. by intros ->. Qed.
Lemma fit_act e f : fit f -> fit (act e f).
Proof. intros (p & Hq & Hk). exists (p_emit e p). split; [by apply refines_emit|done]. Qed.
Lemma fit_link x f : fit f -> fit (set_queues (set_link x (f_queues f)) f).
Proof. intros (p & Hq & Hk). exists (p_link x p). split; [by apply refines_link|done]. Qed.
Lemma fit_transmit m f : fit f -> fit (transmit m f).
Proof. intros Hf. unfold transmit. destruct (link_to f); [|done]. apply (fit_act (m z) (set_queues (set_link (Some (u32 (z + 1))) (f_queues f)) f)). by apply fit_link. Qed.

(** A computation on the queues. *)
Lemma knows_dom p p' l : dom (infos p') = dom (infos p) -> knows p l -> knows p' l.
Proof. intros Hd Hk. eapply List.Forall_impl; [|exact Hk]. intros i Hi. simpl in Hi |- *. apply elem_of_dom. rewrite Hd. by apply elem_of_dom. Qed.
Lemma on_queues_ok f r : (forall p, refines max_flying (f_queues f) p -> knows p pool_leases.*2 -> (forall n, knows p (rebalanced n)) ->
    exists p', meets max_flying r p' /\ dom (infos p') = dom (infos p)) ->
  fit f -> gives (on_queues f r) (fun f' => fit f' /\ control f' = control f).
Proof.
  intros Hr (p & Hq & Hk & Hn). destruct (Hr p Hq Hk Hn) as (p' & (q' & -> & Hq') & Hd). exists (set_queues q' f). split; [done|]. split; [|done].
  exists p'. split; [done|]. split; [by eapply knows_dom|]. intros n. by eapply knows_dom.
Qed.
Lemma on_queues_event e f : (forall p, knows p pool_leases.*2 -> (forall n, knows p (rebalanced n)) -> knows p (about e)) -> fit f ->
  gives (on_queues f (performed max_flying sends commits e (f_queues f))) (fun f' => fit f' /\ control f' = control f).
Proof.
  intros He. apply on_queues_ok. intros p Hq Hk Hn. exists (promised max_flying sends commits e p). split; [|by apply promised_dom].
  apply performed_ok; auto.
Qed.
Lemma queue_all_ok ls : forall q p, refines max_flying q p -> knows p ls ->
  exists p', meets max_flying (queue_all max_flying sends commits ls q) p' /\ dom (infos p') = dom (infos p).
Proof.
  induction ls as [|i ls IH]; intros q p Hq Hk; [exists p; split; [by apply meets_done|done]|]. apply List.Forall_cons_iff in Hk as [Hi Hk]. cbn [queue_all].
  destruct (queued_ok max_flying sends commits width q p i false Hq Hi) as (q1 & -> & H1). dred. pose proof (promised_dom max_flying sends commits (Queued i false) p) as Hd. simpl in Hd.
  destruct (IH q1 _ H1) as (p' & Hp' & Hd'); [by eapply knows_dom|]. exists p'. split; [done|]. by rewrite Hd'.
Qed.
Lemma pool_balance_ok f : fit f -> gives (pool_balance max_flying sends commits rebalanced f) (fun f' => fit f' /\ control f' = control f).
Proof.
  intros Hf. unfold pool_balance. set (f1 := act PoolBalance _). assert (H1 : fit f1) by by do 2 apply fit_act.
  change (control f) with (control f1). apply on_queues_ok; [|done]. intros p Hq _ Hn. by apply queue_all_ok.
Qed.
Lemma generate_ok f : fit f -> gives (on_queues f (generate_update_queue max_flying sends commits false pool_leases (f_queues f))) (fun f' => fit f' /\ control f' = control f).
Proof.
  apply on_queues_ok. intros p Hq Hk _. exists (p_generate false pool_leases p). split; [by apply generate_update_queue_ok|apply p_generate_dom].
Qed.
Lemma send_ok f : fit f -> gives (on_queues f (send_updates max_flying sends commits (f_queues f))) (fun f' => fit f' /\ control f' = control f).
Proof. intros Hf. apply (on_queues_event SendUpdates); [|done]. intros. constructor. Qed.
Lemma rescind_ok f : fit f -> gives (on_queues f (rescind_updates (f_queues f))) (fun f' => fit f' /\ control f' = control f).
Proof. intros Hf. apply (on_queues_event Rescinded); [|done]. intros. constructor. Qed.

Lemma control_transmit m f : control (transmit m f) = control f.
Proof. unfold transmit. by destruct (link_to f). Qed.
Lemma request_all_ok f : fit f -> fit (send_update_request_all f) /\ control (send_update_request_all f) = control f.
Proof.
  intros Hf. unfold send_update_request_all. destruct (link_to f); [|done].
  split; [exact (fit_transmit UpdReqAll f Hf)|exact (control_transmit UpdReqAll f)].
Qed.
Lemma request_ok f : fit f -> fit (send_update_request f) /\ control (send_update_request f) = control f.
Proof.
  intros Hf. unfold send_update_request. destruct (link_to f); [|done]. destruct (bool_decide _); [by apply request_all_ok|].
  split; [exact (fit_transmit UpdReq f Hf)|exact (control_transmit UpdReq f)].
Qed.

(** ** Changing the state *)
Definition keeps_control (f f' : failover) : Prop := fit f' /\ control f' = control f.
Lemma entered_ok rd new f : fit f -> new <> recover_wait ->
  gives (entered cur_time max_flying sends commits pool_leases rebalanced rd new f) (keeps_control f).
Proof.
  intros Hf Hn. unfold keeps_control. destruct new; simpl; try done; try (apply gives_done; done).
  - apply gives_done. by split; [apply fit_act|].
  - eapply gives_bind; [by apply pool_balance_ok|]. intros f1 [H1 E1]. eapply gives_bind; [by apply generate_ok|]. intros f2 [H2 E2].
    destruct (update_tail (f_queues f2)); [|apply gives_done; split; [done|congruence]].
    eapply gives_mono; [by apply send_ok|]. intros f3 [H3 E3]. split; [done|congruence].
  - apply gives_done. destruct (_ =? _); [done|]. by split; [apply fit_act|].
  - apply gives_done. by split; [apply fit_act|].
  - apply gives_done. destruct (_ || _); [by apply request_ok|done].
  - apply gives_done. destruct (link_to f); [by apply request_all_ok|done].
Qed.

(** What has become of the state when the server was to move to [s]. *)
Record moved (s : failover_state) (f f' : failover) (ok : bool) : Prop := {
  m_fit : fit f';
  m_role : f_role f' = f_role f;
  m_partner : partner_state f' = partner_state f;
  m_saved : saved_state f' = if bool_decide (s = startup) && negb (bool_decide (f_me f = startup)) then f_me f else saved_state f;
  m_ok : ok = true -> (f_me f' = s \/ (s = recover_wait /\ f_me f' = recover_done)) /\ served f';
  m_failed : ok = false -> f_me f' = f_me f /\ f_stos f' = f_stos f /\ f_service f' = f_service f }.

Lemma record_ok f : fit f -> fit (record_state commits f).1 /\ control (record_state commits f).1 = control f.
Proof.
  intros Hf. unfold record_state. set (f1 := act _ f). assert (H1 : fit f1) by by apply fit_act. destruct (commits _); [|done].
  split; [|done]. exact (fit_act Commit f1 H1).
Qed.
Lemma rescinded_ok f : fit f ->
  gives (if rescinds (f_me f) then f ← on_queues f (rescind_updates (f_queues f)); Done (act (CancelTimer keepalive) f) else Done f) (keeps_control f).
Proof.
  intros Hf. destruct (rescinds _); [|by apply gives_done]. eapply gives_bind; [by apply rescind_ok|]. intros f1 [H1 E1].
  apply gives_done. by split; [apply fit_act|].
Qed.

(** The step up to what is done on entering the state. *)
Lemma set_state_step_ok rd new f : fit f ->
  (new = recover_wait -> forall g, fit g -> f_me g = recover_wait -> gives (rd g) (fun g' => exists ok, moved recover_done g g' ok)) ->
  gives (set_state_step cur_time max_flying sends commits pool_leases rebalanced rd new f) (fun r => moved new f r.1 r.2).
Proof.
  intros Hf Hrd. unfold set_state_step. eapply gives_bind; [by apply rescinded_ok|]. intros f1 [H1 E1].
  assert (Em : f_me f1 = f_me f) by (unfold control in E1; congruence). assert (Ep : partner_state f1 = partner_state f) by (unfold control in E1; congruence).
  assert (Er : f_role f1 = f_role f) by (unfold control in E1; congruence). assert (Es : saved_state f1 = saved_state f) by (unfold control in E1; congruence).
  assert (Et : f_stos f1 = f_stos f) by (unfold control in E1; congruence). assert (Ev : f_service f1 = f_service f) by (unfold control in E1; congruence).
  set (f2 := set_me new _ _). destruct (record_ok f2) as [H3 E3]; [by eapply fit_same; [|exact H1]; unfold f2; simpl; destruct (_ && _)|].
  assert (E2 : (f_role f2, partner_state f2, f_me f2) = (f_role f1, partner_state f1, new)) by (unfold f2; simpl; by destruct (_ && _)).
  assert (Es2 : saved_state f2 = if bool_decide (new = startup) && negb (bool_decide (f_me f = startup)) then f_me f else saved_state f).
  { unfold f2. simpl. rewrite Em. case_match; simpl; congruence. }
  assert (Ev2 : f_service f2 = f_service f1) by (unfold f2; simpl; by destruct (_ && _)).
  clearbody f2. destruct (record_state commits f2) as [f3 ok]. simpl in H3, E3. unfold control in E3. destruct ok; simpl negb; cbv iota.
  2: { apply gives_done. simpl. split; simpl; [exact H3|congruence|congruence|congruence|done|intros _; split_and!; congruence]. }
  set (f4 := if negb (bool_decide (new = startup)) && bool_decide (f_me f1 = startup) then act (CancelTimer startup_timeout) f3 else f3).
  assert (H4 : fit f4) by (unfold f4; destruct (negb (bool_decide (new = startup)) && bool_decide (f_me f1 = startup)); [by apply fit_act|done]).
  assert (E4 : control f4 = control f3)
    by (unfold f4; by destruct (negb (bool_decide (new = startup)) && bool_decide (f_me f1 = startup))).
  set (f5 := send_state _). assert (H5 : fit f5) by (apply fit_transmit; exact (fit_act (CancelTimer auto_partner_down_timeout) f4 H4)).
  assert (E5 : control f5 = control (set_service_state f4)) by (unfold f5, send_state; rewrite control_transmit; done).
  assert (Hme : f_me f5 = new /\ f_role f5 = f_role f /\ partner_state f5 = partner_state f /\ saved_state f5 = saved_state f2 /\ served f5).
  { unfold served, control in *. simpl in E5. injection E5; intros. injection E4; intros. repeat split; congruence. }
  destruct Hme as (M1 & M2 & M3 & M4 & M5). clearbody f5. destruct (decide (new = recover_wait)) as [->|Hn].
  - eapply gives_bind with (P := fun g => fit g /\ (control g = control f5 \/ exists ok, moved recover_done f5 g ok)).
    + simpl. destruct (_ <? _); [apply gives_done; split; [by apply fit_act|by left]|].
      eapply gives_mono; [by apply Hrd|]. intros g [ok Hg]. split; [by apply Hg|]. right. by exists ok.
    + intros g [Hg [Eg|[ok Mg]]]; apply gives_done; simpl.
      * unfold control, served in *. split; unfold served; intros; try congruence. split; [left|]; congruence.
      * destruct Mg as [_ G1 G2 G3 G4 G5]. simpl in G3. split; intros; try congruence; try done.
        destruct ok; [destruct (G4 eq_refl) as [[?|[? _]] ?]; [split; [by right|done]|done]|].
        destruct (G5 eq_refl) as (? & ? & ?). unfold served in *. split; [left|]; congruence.
  - eapply gives_bind; [by apply entered_ok|]. intros g [Hg Eg]. apply gives_done. simpl. unfold control, served in *.
    split; unfold served; intros; try congruence; try done. split; [left|]; congruence.
Qed.

#[local] Abbreviation set_state' := (set_state cur_time max_flying sends commits pool_leases rebalanced).
#[local] Abbreviation move_to' := (move_to cur_time max_flying sends commits pool_leases rebalanced).
Lemma set_state_ok s f : fit f -> gives (set_state' s f) (fun r => moved s f r.1 r.2).
Proof.
  intros Hf. unfold set_state. cbn [set_state_n]. apply set_state_step_ok; [done|]. intros _ g Hg _.
  eapply gives_bind; [apply set_state_step_ok; [exact Hg|done]|]. intros [g' ok] Hm. apply gives_done. by exists ok.
Qed.
Lemma move_to_ok s f : fit f -> gives (move_to' s f) (fun f' => exists ok, moved s f f' ok).
Proof. intros Hf. unfold move_to. eapply gives_bind; [by apply set_state_ok|]. intros [f' ok] Hm. apply gives_done. by exists ok. Qed.

(** ** Events *)

(** What no event changes, and what is kept. *)
Record onward (f f' : failover) : Prop := {
  o_fit : fit f';
  o_role : f_role f' = f_role f;
  o_partner : partner_state f' = partner_state f;
  o_settled : settled f -> settled f';
  o_served : served f -> served f' }.
Lemma onward_refl f : fit f -> onward f f.
Proof. by split. Qed.
Lemma onward_trans f g h : onward f g -> onward g h -> onward f h.
Proof. intros [] []. split; auto; congruence. Qed.
Lemma onward_control f g : keeps_control f g -> onward f g.
Proof.
  intros [Hg E]. unfold control in E. injection E; intros. split; [done|congruence|congruence| |unfold served; congruence].
  unfold settled. replace (f_me g) with (f_me f) by congruence. by replace (saved_state g) with (saved_state f) by congruence.
Qed.
Lemma onward_moved s f g ok : moved s f g ok -> onward f g.
Proof.
  intros [H1 H2 H3 H4 H5 H6]. split; try done; unfold settled, served in *.
  - intros Hf Hg. rewrite H4. destruct ok.
    + destruct (H5 eq_refl) as [[E|[-> E]] _]; [|congruence]. assert (Es : s = startup) by congruence. rewrite bool_decide_eq_true_2 by done.
      destruct (decide (f_me f = startup)) as [Em|Em]; [rewrite bool_decide_eq_true_2 by done; by apply Hf|by rewrite bool_decide_eq_false_2].
    + destruct (H6 eq_refl) as (E & _). rewrite E in Hg. rewrite (bool_decide_eq_true_2 (f_me f = startup)) by done. rewrite andb_false_r. by apply Hf.
  - intros Hf. destruct ok; [by apply H5|]. destruct (H6 eq_refl) as (E1 & _ & E2). congruence.
Qed.
Lemma move_onward s f : fit f -> gives (move_to' s f) (onward f).
Proof. intros Hf. eapply gives_mono; [by apply move_to_ok|]. intros g [ok Hg]. by eapply onward_moved. Qed.
Lemma set_state_onward s f : fit f -> gives (set_state' s f) (fun r => onward f r.1).
Proof. intros Hf. eapply gives_mono; [by apply set_state_ok|]. intros [g ok] Hg. by eapply onward_moved. Qed.
Lemma gives_onward {A} (r : outcome A) (g : A -> failover) f f1 : onward f f1 -> gives r (fun a => onward f1 (g a)) -> gives r (fun a => onward f (g a)).
Proof. intros H1 Hr. eapply gives_mono; [exact Hr|]. intros a Ha. by eapply onward_trans. Qed.
Lemma act_onward e f : fit f -> onward f (act e f).
Proof. intros Hf. apply onward_control. by split; [apply fit_act|]. Qed.
Lemma request_onward f : fit f -> onward f (send_update_request f).
Proof. intros Hf. apply onward_control. split; by apply request_ok. Qed.
Lemma request_all_onward f : fit f -> onward f (send_update_request_all f).
Proof. intros Hf. apply onward_control. split; by apply request_all_ok. Qed.
Lemma send_onward f : fit f -> gives (on_queues f (send_updates max_flying sends commits (f_queues f))) (onward f).
Proof. intros Hf. eapply gives_mono; [by apply send_ok|]. intros g Hg. by apply onward_control. Qed.

#[local] Hint Resolve move_onward onward_refl act_onward request_onward request_all_onward gives_done : failover.
Ltac each_state := match goal with s : failover_state |- _ => destruct s; try (apply gives_done); eauto with failover end.

(** The states a peer must not report to a server in conflict-done. *)
Definition unexpected (s : failover_state) : bool := negb (in_states [normal; shut_down; potential_conflict; resolution_interrupted] s).
Lemma react_ok previous startupp s f : fit f -> settled f -> (effective f = conflict_done -> unexpected s = false) ->
  gives (react cur_time max_flying sends commits pool_leases rebalanced previous startupp s f) (onward f).
Proof.
  intros Hf Hs Hu. unfold react. destruct (effective f) eqn:Ee; try (apply gives_done; by apply onward_refl).
  - exfalso. unfold effective in Ee. destruct (decide (f_me f = startup)) as [E|E]; [|by rewrite bool_decide_eq_false_2 in Ee].
    rewrite bool_decide_eq_true_2 in Ee by done. by apply Hs.
  - unfold react_normal. each_state.
  - unfold react_communications_interrupted. destruct s; eauto with failover; try (apply gives_done; by apply onward_refl);
      (eapply gives_bind; [by apply send_onward|]; intros g Hg; eapply (gives_onward _ (fun x => x)); [exact Hg|]; apply move_onward; by apply Hg).
  - unfold react_partner_down. destruct startupp; [eauto with failover|]. each_state.
  - unfold react_potential_conflict. each_state. destruct (is_state _ _); eauto with failover.
  - unfold react_recover. each_state; destruct (bool_decide _); eauto with failover.
  - unfold react_recover_done. each_state.
  - unfold react_resolution_interrupted. each_state.
  - specialize (Hu eq_refl). unfold react_conflict_done. destruct s; try (by vm_compute in Hu); eauto with failover; by apply gives_done, onward_refl.
Qed.

(** A message of the peer that the server does not survive. *)
Definition stops (new : Z) (f : failover) : bool :=
  bool_decide (effective f = conflict_done) && negb (bool_decide (f_me f = startup) && (partner_state f =? new)) &&
  match state_of_code new with Some s => unexpected s | None => false end.

Lemma heard_ok new f : fit f -> settled f ->
  let g := (record_state commits (set_partner new cur_time f)).1 in
  fit g /\ settled g /\ f_role g = f_role f /\ partner_state g = new /\ f_me g = f_me f /\ saved_state g = saved_state f /\ f_service g = f_service f.
Proof.
  intros Hf Hs. destruct (record_ok (set_partner new cur_time f)) as [Hg E]; [done|]. simpl. destruct (record_state commits _) as [g ok].
  simpl in Hg, E |- *. unfold control in E. simpl in E. injection E; intros. unfold settled. split_and!; try done.
  replace (f_me g) with (f_me f) by congruence. by replace (saved_state g) with (saved_state f) by congruence.
Qed.
Definition listened (new : Z) (f f' : failover) : Prop :=
  fit f' /\ f_role f' = f_role f /\ settled f' /\ (served f -> served f' \/ (state_of_code new = None /\ f_me f' = f_me f)).
Lemma listened_onward new f f' : settled f -> onward f f' -> listened new f f'.
Proof. intros Hs []. unfold listened. split_and!; auto. Qed.

(** The part of [peer_state_changed] after the new state has been noted. *)
Lemma answer_ok previous startupp s f : fit f -> settled f -> (effective f = conflict_done -> unexpected s = false) ->
  gives (f ← react cur_time max_flying sends commits pool_leases rebalanced previous startupp s f;
         f ← (if bool_decide (f_me f = startup) && negb (bool_decide (saved_state f = startup)) then move_to' (saved_state f) f else Done f);
         Done (set_service_state f)) (fun f' => fit f' /\ f_role f' = f_role f /\ settled f' /\ served f').
Proof.
  intros Hf Hs Hu. eapply gives_bind; [by apply react_ok|]. intros g Hg.
  eapply (gives_bind _ _ (onward f)).
  - destruct (_ && _); [|by apply gives_done]. eapply (gives_onward _ (fun x => x)); [exact Hg|]. apply move_onward, Hg.
  - intros h [H1 H2 _ H4 _]. apply gives_done. split_and!; [exact H1|exact H2|exact (H4 Hs)|done].
Qed.
Lemma peer_state_changed_ok new flags f : fit f -> settled f -> stops new f = false ->
  gives (peer_state_changed cur_time max_flying sends commits pool_leases rebalanced new flags f) (listened new f).
Proof.
  intros Hf Hs Hst. unfold peer_state_changed.
  destruct ((partner_state f =? new) && negb (bool_decide (f_me f = unknown_state)) && bool_decide (f_me f = startup)) eqn:E1.
  { eapply gives_mono; [by apply move_onward|]. intros g Hg. by apply listened_onward. }
  destruct ((partner_state f =? new) && negb (bool_decide (f_me f = unknown_state)) && negb (looks_again (f_me f))) eqn:E2.
  { apply gives_done, listened_onward; [done|by apply onward_refl]. }
  pose proof (heard_ok new f Hf Hs) as Hg. simpl in Hg. destruct (record_state commits (set_partner new cur_time f)) as [g ok]. simpl in Hg.
  destruct Hg as (Hg & Hgs & Er & Ep & Em & Es & Ev). destruct (state_of_code new) as [s|] eqn:En.
  - eapply gives_mono; [apply answer_ok; [exact Hg|exact Hgs|]|].
    + intros Ee. unfold stops in Hst. rewrite En in Hst. assert (Ef : effective f = conflict_done) by (unfold effective in *; by rewrite <- Em, <- Es).
      rewrite bool_decide_eq_true_2 in Hst by done. simpl in Hst. apply andb_false_iff in Hst as [Hst|Hst]; [|done]. exfalso.
      apply negb_false_iff, andb_true_iff in Hst as [Hm Hp]. apply bool_decide_eq_true in Hm. rewrite Hm, Hp in E1. by vm_compute in E1.
    + intros h (H1 & H2 & H3 & H4). unfold listened. split_and!; auto. congruence.
  - eapply gives_mono; [by apply move_to_ok|]. intros h [ok' Hm]. pose proof (onward_moved _ _ _ _ Hm) as [H1 H2 H3 H4 _].
    unfold listened. split_and!; [done|congruence|by apply H4|]. intros Hv. destruct ok'; [left; by apply (m_ok _ _ _ _ Hm)|].
    right. split; [done|]. destruct (m_failed _ _ _ _ Hm eq_refl) as (E & _). congruence.
Qed.
Lemma peer_state_changed_stops new flags f : fit f -> settled f -> stops new f = true ->
  peer_state_changed cur_time max_flying sends commits pool_leases rebalanced new flags f = Fatal.
Proof.
  intros Hf Hs Hst. unfold stops in Hst. apply andb_true_iff in Hst as [Hst Hu]. apply andb_true_iff in Hst as [He Hi].
  apply bool_decide_eq_true in He. destruct (state_of_code new) as [s|] eqn:En; [|done].
  assert (Hc : f_me f = startup /\ saved_state f = conflict_done \/ f_me f = conflict_done).
  { unfold effective in He. destruct (decide (f_me f = startup)); [rewrite bool_decide_eq_true_2 in He by done; by left|].
    rewrite bool_decide_eq_false_2 in He by done. by right. }
  unfold peer_state_changed. rewrite En. pose proof (heard_ok new f Hf Hs) as Hg. simpl in Hg.
  destruct (record_state commits (set_partner new cur_time f)) as [g ok]. simpl in Hg. destruct Hg as (Hg & Hgs & Er & Ep & Em & Es & Ev).
  assert (Heg : effective g = conflict_done) by (unfold effective in *; by rewrite Em, Es).
  assert (Hr : react cur_time max_flying sends commits pool_leases rebalanced (partner_state f) (negb (Z.land flags FTF_SERVER_STARTUP =? 0)) s g = Fatal).
  { unfold react. rewrite Heg. unfold react_conflict_done. destruct s; try done; by vm_compute in Hu. }
  rewrite Hr. destruct Hc as [[Hm Hsv]|Hm]; rewrite Hm in Hi |- *.
  - apply negb_true_iff, andb_false_iff in Hi as [Hi|Hi]; [by vm_compute in Hi|]. rewrite Hi. reflexivity.
  - rewrite (bool_decide_eq_false_2 (conflict_done = startup)) by done. rewrite !andb_false_r. change (looks_again conflict_done) with true. simpl negb.
    rewrite ?andb_false_r. reflexivity.
Qed.

(** *** Signals, completed updates, timeouts *)
Lemma set_link_onward x f : fit f -> onward f (set_queues (set_link x (f_queues f)) f).
Proof. intros Hf. apply onward_control. by split; [apply fit_link|]. Qed.
Lemma state_transition_ok name f : fit f -> settled f ->
  gives (state_transition cur_time max_flying sends commits pool_leases rebalanced name f) (fun r => onward f r.1).
Proof.
  intros Hf Hs. destruct name; simpl.
  - set (g := act (CancelTimer startup_timeout) _).
    assert (Hg : onward f g).
    { eapply onward_trans; [by apply (set_link_onward None)|]. do 3 (eapply onward_trans; [|apply act_onward; repeat apply fit_act; by apply (fit_link None)]). by apply onward_refl, (fit_link None). }
    assert (Hgf : fit g) by apply Hg.
    assert (Hstay : forall h, onward f h -> gives (if bool_decide (f_me h = startup) then set_state' (saved_state h) h else Done (h, true)) (fun r => onward f r.1)).
    { intros h Hh. destruct (bool_decide _); [|by apply gives_done]. eapply gives_onward; [exact Hh|]. apply set_state_onward, Hh. }
    assert (Hset : forall s, gives (set_state' s g) (fun r => onward f r.1)) by (intros s; eapply gives_onward; [exact Hg|by apply set_state_onward]).
    change (effective _) with (effective g). destruct (effective g) eqn:Ee; try apply Hset; try exact (Hstay g Hg).
    + exfalso. unfold effective in Ee. destruct (decide (f_me g = startup)) as [E|E]; [|by rewrite bool_decide_eq_false_2 in Ee].
      rewrite bool_decide_eq_true_2 in Ee by done. by apply (o_settled _ _ Hg Hs).
    + eapply gives_bind; [by apply rescind_ok|]. intros h Hh. apply Hstay. eapply onward_trans; [exact Hg|by apply onward_control].
  - assert (Hsend : forall b, gives (Done (send_state f, b)) (fun r : failover * bool => onward f r.1)).
    { intros b. apply gives_done. apply onward_control. split; [by apply fit_transmit|apply control_transmit]. }
    destruct (f_me f) eqn:Em; try apply Hsend; try (by apply set_state_onward).
    eapply gives_bind; [by apply set_state_onward|]. intros [g ok] Hg. simpl in Hg. eapply gives_bind; [apply send_onward, Hg|]. intros h Hh.
    apply gives_done. by eapply onward_trans.
  - eapply gives_bind; [by apply set_state_onward|]. intros [g ok] Hg. by apply gives_done.
  - destruct (f_me f); try (by apply set_state_onward); by apply gives_done, onward_refl.
  - by apply gives_done, onward_refl.
Qed.
Lemma process_update_done_ok f : fit f -> gives (process_update_done cur_time max_flying sends commits pool_leases rebalanced f) (onward f).
Proof.
  intros Hf. unfold process_update_done. set (g := set_curUPD None f).
  assert (Hg : onward f g) by (apply onward_control; by split). assert (Hgf : fit g) by apply Hg.
  assert (Hmove : forall s, gives (move_to' s g) (onward f)) by (intros s; eapply (gives_onward _ (fun x => x)); [exact Hg|by apply move_onward]).
  change (f_me g) with (f_me f). destruct (f_me f); try (by apply gives_done); repeat case_match; try apply Hmove; try (by apply gives_done).
  eapply gives_bind; [apply Hmove|]. intros h Hh. apply gives_done. eapply onward_trans; [exact Hh|]. apply act_onward, Hh.
Qed.

(** *** A state that cannot be written *)
Definition before_record (f : failover) : list effect := if rescinds (f_me f) then [CancelTimer keepalive] else [].
Lemma rescinded_trace f g : fit f ->
  (if rescinds (f_me f) then f ← on_queues f (rescind_updates (f_queues f)); Done (act (CancelTimer keepalive) f) else Done f) = Done g ->
  effects (f_queues g) = effects (f_queues f) ++ before_record f.
Proof.
  intros (p & Hq & _) E. unfold before_record. destruct (rescinds (f_me f)); [|injection E as <-; by rewrite app_nil_r].
  destruct (rescind_updates_ok _ _ _ (r_lists _ _ _ Hq)) as (q' & Eq & _ & (_ & _ & _ & _ & _ & _ & Ke)). unfold on_queues in E. rewrite Eq in E.
  rewrite !bind_ret in E. injection E as <-. simpl. by rewrite Ke.
Qed.
Lemma record_trace f : let n := length (effects (f_queues f)) in
  (record_state commits f).2 = commits n && commits (S n) /\
  effects (f_queues (record_state commits f).1) = effects (f_queues f) ++
    RecordState (state_code (effective f)) (f_stos f) (partner_state f) (partner_stos f) :: (if commits n then [Commit] else []).
Proof.
  unfold record_state. simpl. destruct (commits _); [|done]. simpl. rewrite length_app. simpl. rewrite Nat.add_1_r. split; [done|]. by rewrite <- app_assoc.
Qed.
Lemma set_state_step_trace rd new f r : fit f -> set_state_step cur_time max_flying sends commits pool_leases rebalanced rd new f = Done r ->
  let n := (length (effects (f_queues f)) + length (before_record f))%nat in
  r.2 = commits n && commits (S n) /\
  (r.2 = false -> exists me stos, effects (f_queues r.1) = effects (f_queues f) ++ before_record f ++
    RecordState me stos (partner_state f) (partner_stos f) :: (if commits n then [Commit] else [])).
Proof.
  intros Hf Hr. unfold set_state_step in Hr. destruct (rescinded_ok f Hf) as (g & Eg & Hg & Ec). rewrite Eg, bind_ret in Hr.
  pose proof (rescinded_trace f g Hf Eg) as Ht. cbv zeta in Hr. set (g2 := set_me new _ _) in Hr.
  assert (E2 : f_queues g2 = f_queues g /\ partner_state g2 = partner_state f /\ partner_stos g2 = partner_stos f).
  { unfold control in Ec. injection Ec; intros. unfold g2. simpl. destruct (_ && _); simpl; split_and!; congruence. }
  destruct E2 as (Eq & Ep & Eps). destruct (record_trace g2) as [R1 R2]. rewrite Eq, Ht, length_app, Ep, Eps in *. clearbody g2.
  destruct (record_state commits g2) as [g3 ok]. simpl in R1, R2. simpl. rewrite <- R1. destruct ok; simpl negb in Hr; cbv iota in Hr.
  - destruct (entered _ _ _ _ _ _ _ _ _); try done. rewrite bind_ret in Hr. by injection Hr as <-.
  - injection Hr as <-. split; [done|]. intros _. exists (state_code (effective g2)), (f_stos g2). simpl. by rewrite R2, <- app_assoc.
Qed.
End machine.

(** ** What may happen to a server, at any time *)
Inductive happening :=
  | Signal (s : signal)
  | Made (xid : Z)                      (** a connection *)
  | StateMessage (new flags : Z)
  | UpdateDone
  | RecoverDone
  | AutoPartnerDown
  | StartupTimeout
  | OnQueues (e : event).
Section happenings.
Context (max_flying : Z) (sends commits : nat -> bool) (pool_leases : list (bool * nat)) (rebalanced : nat -> list nat).
Definition happen (now : Z) (h : happening) (f : failover) : outcome failover :=
  match h with
  | Signal s => '(f, _) ← state_transition now max_flying sends commits pool_leases rebalanced s f; Done f
  | Made xid => Done (connected xid f)
  | StateMessage new flags => peer_state_changed now max_flying sends commits pool_leases rebalanced new flags f
  | UpdateDone => process_update_done now max_flying sends commits pool_leases rebalanced f
  | RecoverDone => recover_done_event now max_flying sends commits pool_leases rebalanced f
  | AutoPartnerDown => auto_partner_down_event now max_flying sends commits pool_leases rebalanced f
  | StartupTimeout => startup_timeout_event now max_flying sends commits pool_leases rebalanced f
  | OnQueues e => on_event max_flying sends commits e f
  end.

(** Queue events are about leases of the pools. *)
Definition pooled (h : happening) : Prop := match h with OnQueues e => about e ⊆ pool_leases.*2 | _ => True end.
Definition fatal_message (h : happening) (f : failover) : bool := match h with StateMessage new _ => stops new f | _ => false end.

(** A failing disk and a state that is none. *)
Definition unwritten (h : happening) (f f' : failover) : Prop :=
  match h with StateMessage new _ => state_of_code new = None /\ f_me f' = f_me f | _ => False end.

Context (width : 0 <= max_flying < 2 ^ 32).
Lemma happen_onward now h f : fit max_flying pool_leases rebalanced f -> settled f -> pooled h -> fatal_message h f = false ->
  gives (happen now h f) (fun f' => fit max_flying pool_leases rebalanced f' /\ f_role f' = f_role f /\ settled f' /\
    (served f -> served f' \/ unwritten h f f')).
Proof.
  intros Hf Hs Hp Hm.
  assert (Hon : forall r, gives r (onward max_flying pool_leases rebalanced f) ->
    gives r (fun f' => fit max_flying pool_leases rebalanced f' /\ f_role f' = f_role f /\ settled f' /\ (served f -> served f' \/ unwritten h f f'))).
  { intros r Hr. eapply gives_mono; [exact Hr|]. intros g []. split_and!; auto. }
  destruct h as [s|x|new fl| | | | |e]; simpl in Hp, Hm |- *.
  - apply Hon. eapply gives_bind; [by apply state_transition_ok|]. intros [g ok] Hg. by apply gives_done.
  - apply Hon, gives_done, onward_control. split; [by apply fit_transmit, fit_link|]. unfold connected, send_state. by rewrite control_transmit.
  - by apply peer_state_changed_ok.
  - by apply Hon, process_update_done_ok.
  - by apply Hon, move_onward.
  - by apply Hon, move_onward.
  - apply Hon. unfold startup_timeout_event. eapply gives_bind; [by apply state_transition_ok|]. intros [g ok] Hg. by apply gives_done.
  - apply Hon. unfold on_event. eapply gives_mono; [apply (on_queues_event max_flying sends commits pool_leases rebalanced width e); [|exact Hf]|].
    + intros p Hk _. apply List.Forall_forall. intros i Hi%list_elem_of_In. eapply List.Forall_forall in Hk; [exact Hk|]. apply list_elem_of_In. by apply Hp.
    + intros g Hg. by apply onward_control.
Qed.
End happenings.

(** ** What the state machine guarantees *)

(** C34: The state machine of a server, in any of its states, with queues in
    order, deals in bounded time with the connect, disconnect, startup and
    connect-timeout signals, a new connection, the report of the peer's state,
    the end of an update, the timeouts of recovery, startup and
    auto-partner-down, and everything that happens to the queues of updates (the
    events of [happening]), and keeps the queues in order.  Of these it is stopped by
    exactly the reports of the peer, to a server in conflict-done, of a state
    other than normal, shut-down, potential-conflict and
    resolution-interrupted.  What a binding update does to the leases, and the
    making of a connection, are not among these events. *)
Theorem failover_runs max_flying sends commits pool_leases rebalanced now h f : 0 <= max_flying < 2 ^ 32 ->
  fit max_flying pool_leases rebalanced f -> settled f -> pooled pool_leases h ->
  if fatal_message h f then happen max_flying sends commits pool_leases rebalanced now h f = Fatal
  else exists f', happen max_flying sends commits pool_leases rebalanced now h f = Done f' /\ fit max_flying pool_leases rebalanced f' /\ settled f'.
Proof.
  intros Hw Hf Hs Hp. destruct (fatal_message h f) eqn:E.
  - destruct h; try done. by apply peer_state_changed_stops.
  - destruct (happen_onward max_flying sends commits pool_leases rebalanced Hw now h f Hf Hs Hp E) as (f' & Ef & H1 & _ & H2 & _). by exists f'.
Qed.

(** Whether and how a server answers clients is, after everything that may
    happen, the function [service_for] of its own state and of the state of
    the peer; the only exception is that the peer reports a number that is no
    state while the lease file cannot be written. *)
Lemma service_follows max_flying sends commits pool_leases rebalanced now h f f' : 0 <= max_flying < 2 ^ 32 ->
  fit max_flying pool_leases rebalanced f -> settled f -> pooled pool_leases h -> served f ->
  happen max_flying sends commits pool_leases rebalanced now h f = Done f' ->
  f_service f' = service_for (f_me f') (partner_state f') \/ unwritten h f f'.
Proof.
  intros Hw Hf Hs Hp Hv E. assert (Hm : fatal_message h f = false).
  { destruct (fatal_message h f) eqn:Em; [|done]. destruct h; try done. simpl in Em, E. by rewrite peer_state_changed_stops in E. }
  destruct (happen_onward max_flying sends commits pool_leases rebalanced Hw now h f Hf Hs Hp Hm) as (g & Eg & _ & _ & _ & H).
  rewrite Eg in E. injection E as <-. by apply H.
Qed.

(** C35: A server moves to a new state exactly if this state could be written to
    the lease file and committed; otherwise it stays in its state, answers
    clients as before, and has sent nothing to the peer. *)
Theorem set_state_durable cur_time max_flying sends commits pool_leases rebalanced s f : 0 <= max_flying < 2 ^ 32 -> fit max_flying pool_leases rebalanced f ->
  let n := (length (effects (f_queues f)) + length (before_record f))%nat in
  exists f' ok, set_state cur_time max_flying sends commits pool_leases rebalanced s f = Done (f', ok) /\ ok = commits n && commits (S n) /\
    fit max_flying pool_leases rebalanced f' /\ partner_state f' = partner_state f /\
    (ok = true -> (f_me f' = s \/ (s = recover_wait /\ f_me f' = recover_done)) /\ served f') /\
    (ok = false -> f_me f' = f_me f /\ f_stos f' = f_stos f /\ f_service f' = f_service f /\
       exists me stos, effects (f_queues f') = effects (f_queues f) ++ before_record f ++
         RecordState me stos (partner_state f) (partner_stos f) :: (if commits n then [Commit] else [])).
Proof.
  intros Hw Hf n. destruct (set_state_ok cur_time max_flying sends commits pool_leases rebalanced Hw s f Hf) as ([f' ok] & E & [H1 _ H2 _ H3 H4]).
  exists f', ok. unfold set_state in E. cbn [set_state_n] in E.
  destruct (set_state_step_trace _ max_flying sends commits pool_leases rebalanced Hw _ s f _ Hf E) as [E1 E2]. simpl in E1, E2, H1, H2, H3, H4.
  split_and!; try done. intros Hok. destruct (H4 Hok) as (? & ? & ?). split_and!; auto.
Qed.

(** *** A server with three leases *)
Definition sample_server (s : failover_state) : failover :=
  mk_failover primary 3600 0 s 0 (state_code potential_conflict) 0 unknown_state (service_for s (state_code potential_conflict)) None (idle three (Some 1)).
Definition sample_pool : list (bool * nat) := [(false, 1%nat); (true, 3%nat)].
Definition sample_moved (n : nat) : list nat := [2%nat].
Lemma sample_fit s : fit 10 sample_pool sample_moved (sample_server s).
Proof.
  exists (p_idle three (Some 1)). split; [by apply idle_refines|]. split; [|intros n]; apply (bool_decide_unpack _); vm_compute; exact I.
Qed.

Example failover_runs_witness :
  (exists f', happen 10 (fun _ => true) (fun _ => true) sample_pool sample_moved 1000 (StateMessage (state_code normal) 0) (sample_server conflict_done) = Done f') /\
  happen 10 (fun _ => true) (fun _ => true) sample_pool sample_moved 1000 (StateMessage (state_code partner_down) 0) (sample_server conflict_done) = Fatal.
Proof.
  split.
  - destruct (failover_runs 10 (fun _ => true) (fun _ => true) sample_pool sample_moved 1000 (StateMessage (state_code normal) 0) (sample_server conflict_done)
      ltac:(lia) (sample_fit _) ltac:(done) I) as (f' & E & _). by exists f'.
  - exact (failover_runs 10 (fun _ => true) (fun _ => true) sample_pool sample_moved 1000 (StateMessage (state_code partner_down) 0) (sample_server conflict_done)
      ltac:(lia) (sample_fit _) ltac:(done) I).
Defined.

Example set_state_durable_witness :
  exists f', set_state 1000 10 (fun _ => true) (fun _ => false) sample_pool sample_moved normal (sample_server conflict_done) = Done (f', false) /\
    f_me f' = conflict_done.
Proof.
  destruct (set_state_durable 1000 10 (fun _ => true) (fun _ => false) sample_pool sample_moved normal (sample_server conflict_done) ltac:(lia) (sample_fit _))
    as (f' & ok & E & -> & _ & _ & _ & H). exists f'. split; [exact E|]. by apply H.
Defined.
