(* ===== verification/FailoverPair.v ===== *)
(** * Two servers find each other again (server/failover.c)

    Two servers, each with the state machine of Failover, and the messages that
    are under way between them, in the order in which they were sent.  The
    servers have no leases to tell each other about, the lease files can be
    written, the clock stands still, both servers have the same MCLT, and
    timeouts come when nothing else is left to do.  Messages are
    received in any order that the two connections allow. *)

From stdpp Require Import base tactics list numbers gmap.
From S2P Require Import Prelude LeaseDb FailoverQueue FailoverQueueList FailoverQueueOk Failover FailoverOk.

#[local] Open Scope Z_scope.

(** ** Data *)
#[export] Instance timer_eq_dec : EqDecision timer.
Proof. solve_decision. Defined.
#[export] Instance effect_eq_dec : EqDecision effect.
Proof. solve_decision. Defined.
#[export] Instance lease_info_eq_dec : EqDecision lease_info.
Proof. solve_decision. Defined.
#[export] Instance node_eq_dec : EqDecision node.
Proof. solve_decision. Defined.
#[export] Instance queues_eq_dec : EqDecision queues.
Proof. solve_decision. Defined.
#[export] Instance failover_eq_dec : EqDecision failover.
Proof. solve_decision. Defined.

(** The primary, the secondary and the messages to each of them. *)
Record pair := mk_pair {
  first : failover;
  second : failover;
  to_first : list effect;
  to_second : list effect }.
#[export] Instance pair_eq_dec : EqDecision pair.
Proof. solve_decision. Defined.

Definition now : Z := 1000000.
Definition mclt_sample : Z := 3600.
Definition always : nat -> bool := fun _ => true.
Definition event_of (m : effect) : option happening :=
  match m with
  | State _ s flags _ => Some (StateMessage s flags)
  | UpdReq x => Some (OnQueues (UpdateRequest false [] x))
  | UpdReqAll x => Some (OnQueues (UpdateRequest true [] x))
  | UpdDone _ => Some UpdateDone
  | _ => None
  end.
Definition messages (es : list effect) : list effect := List.filter (fun e => match event_of e with Some _ => true | None => false end) es.

(** Something happens to a server; its messages are taken out of the effects. *)
Definition forget (f : failover) : failover :=
  let q := f_queues f in
  set_queues (mk_queues (nodes q) (update_head q) (update_tail q) (ack_head q) (ack_tail q) (cur_unacked_updates q) (toack q) (pending_acks q)
    (link_to_peer q) (send_update_done q) (updxid q) []) f.
Definition run (t : Z) (h : happening) (f : failover) : outcome (failover * list effect) :=
  f ← happen 10 always always [] (fun _ => []) t h f; Done (forget f, messages (effects (f_queues f))).
Definition receive (m : effect) (f : failover) : outcome (failover * list effect) :=
  match event_of m with Some h => run now h f | None => Done (f, []) end.

(** ** Steps *)
Definition on_first (p : pair) (rest : list effect) (r : outcome (failover * list effect)) : outcome pair :=
  '(f, ms) ← r; Done (mk_pair f (second p) rest (to_second p ++ ms)).
Definition on_second (p : pair) (rest : list effect) (r : outcome (failover * list effect)) : outcome pair :=
  '(f, ms) ← r; Done (mk_pair (first p) f (to_first p ++ ms) rest).
Definition waiting_out (f : failover) : bool := bool_decide (f_me f = recover_wait).

(** What may come next: a message is received at one end or, when there is
    none, the time of recover-wait is over for a server. *)
Definition next (p : pair) : list (outcome pair) :=
  match to_first p, to_second p with
  | [], [] =>
      (if waiting_out (first p) then [on_first p [] (run (now + 2 * mclt_sample) RecoverDone (first p))] else []) ++
      (if waiting_out (second p) then [on_second p [] (run (now + 2 * mclt_sample) RecoverDone (second p))] else [])
  | m1, m2 =>
      match m1 with m :: r => [on_first p r (receive m (first p))] | [] => [] end ++
      match m2 with m :: r => [on_second p r (receive m (second p))] | [] => [] end
  end.
Definition step (p : pair) (r : outcome pair) : Prop := r ∈ next p.

(** Every run comes to a state with [P], and none is stopped before. *)
Inductive eventually (P : pair -> Prop) (p : pair) : Prop :=
  | ev_now : P p -> eventually P p
  | ev_later : (exists p', step p (Done p')) -> (forall r, step p r -> exists p', r = Done p') -> (forall p', step p (Done p') -> eventually P p') ->
      eventually P p.

Definition reconciled (p : pair) : Prop :=
  f_me (first p) = normal /\ f_me (second p) = normal /\ f_service (first p) = cooperating /\ f_service (second p) = cooperating /\
  to_first p = [] /\ to_second p = [].
#[export] Instance reconciled_dec p : Decision (reconciled p).
Proof. unfold reconciled. apply _. Defined.

(** ** Exploring all runs *)
Definition done_with (r : outcome pair) : option pair := match r with Done p => Some p | _ => None end.
Fixpoint explore (n : nat) (ps : list pair) : bool :=
  match List.filter (fun p => negb (bool_decide (reconciled p))) ps with
  | [] => true
  | ps' =>
      match n with
      | O => false
      | S n =>
          forallb (fun p => match next p with [] => false | _ => true end) ps' &&
          match mapM done_with (flat_map next ps') with
          | Some qs => explore n (remove_dups qs)
          | None => false
          end
      end
  end.
Lemma explore_sound n : forall ps, explore n ps = true -> forall p, p ∈ ps -> eventually reconciled p.
Proof.
  induction n as [|n IH]; intros ps He p Hp; destruct (decide (reconciled p)) as [Hr|Hr]; try (by apply ev_now).
  - simpl in He. assert (Hin : In p (List.filter (fun p => negb (bool_decide (reconciled p))) ps)).
    { apply filter_In. split; [by apply list_elem_of_In|]. by rewrite bool_decide_eq_false_2. }
    by destruct (List.filter _ ps).
  - cbn [explore] in He. assert (Hin : In p (List.filter (fun p => negb (bool_decide (reconciled p))) ps)).
    { apply filter_In. split; [by apply list_elem_of_In|]. by rewrite bool_decide_eq_false_2. }
    destruct (List.filter _ ps) as [|p0 ps'] eqn:Ef; [done|]. rewrite <- Ef in He, Hin. apply andb_true_iff in He as [Hne He].
    destruct (mapM done_with _) as [qs|] eqn:Em; [|done]. rewrite forallb_forall in Hne. specialize (Hne p Hin).
    assert (Hsteps : forall r, step p r -> exists p', r = Done p' /\ eventually reconciled p').
    { intros r Hr'. apply mapM_Some in Em. assert (Hrin : r ∈ flat_map next (List.filter (fun p => negb (bool_decide (reconciled p))) ps)).
      { apply list_elem_of_In, in_flat_map. exists p. split; [done|]. by apply list_elem_of_In. }
      apply list_elem_of_lookup in Hrin as [k Hk]. destruct (Forall2_lookup_l _ _ _ _ _ Em Hk) as (q & Hq & Ed).
      unfold done_with in Ed. destruct r; try done. injection Ed as ->. exists q. split; [done|]. eapply IH; [exact He|].
      apply elem_of_remove_dups. by eapply list_elem_of_lookup_2. }
    apply ev_later.
    + destruct (next p) as [|r l] eqn:En; [done|]. assert (Hr' : step p r) by (unfold step; rewrite En; by left).
      destruct (Hsteps r Hr') as (p' & -> & _). by exists p'.
    + intros r Hr'. destruct (Hsteps r Hr') as (p' & E & _). by exists p'.
    + intros p' Hr'. destruct (Hsteps _ Hr') as (q & [= ->] & Hq). exact Hq.
Qed.

(** ** Where the servers start *)
Inductive history := Running | Restarted.
Definition fresh_server (role : failover_role) (s partner : failover_state) : failover :=
  mk_failover role mclt_sample 0 s 0 (state_code partner) 0 unknown_state not_responding None (idle ∅ None).
Definition server (h : history) (role : failover_role) (s partner : failover_state) : outcome failover :=
  match h with
  | Running => Done (set_service_state (fresh_server role s partner))
  | Restarted => '(f, _) ← run now (Signal Startup) (fresh_server role s partner); Done f
  end.
Definition meet (f g : failover) : outcome pair :=
  '(f, ms) ← run now (Made 1) f; '(g, ns) ← run now (Made 1) g; Done (mk_pair f g ns ms).
Definition start (h1 : history) (s1 p1 : failover_state) (h2 : history) (s2 p2 : failover_state) : outcome pair :=
  f ← server h1 primary s1 p1; g ← server h2 secondary s2 p2; meet f g.

(** The states in which a server may be without a connection, and those from
    which it may restart; a server in normal has last heard of a state of the
    other one with which it stays in normal. *)
Definition calm : list failover_state := [normal; communications_interrupted; recover_done; recover_wait; unknown_state; startup].
Definition may_meet (h : history) (s partner : failover_state) : bool :=
  match s, h with
  | communications_interrupted, _ | partner_down, _ | recover, _ => true
  | normal, Restarted => bool_decide (partner ∈ calm)
  | _, _ => false
  end.
Definition all_sides : list (history * failover_state * failover_state) :=
  List.filter (fun x => may_meet x.1.1 x.1.2 x.2)
    (flat_map (fun h => flat_map (fun s => map (fun p => (h, s, p)) all_states) all_states) [Running; Restarted]).
Definition reconciles (x y : history * failover_state * failover_state) : bool :=
  match start x.1.1 x.1.2 x.2 y.1.1 y.1.2 y.2 with Done p => explore 40 [p] | _ => false end.
Lemma all_states_in s : s ∈ all_states.
Proof. apply (bool_decide_unpack _). by destruct s. Qed.
Lemma all_sides_in h s p : may_meet h s p = true -> (h, s, p) ∈ all_sides.
Proof.
  intros Hm. apply list_elem_of_In, filter_In. split; [|done]. apply in_flat_map. exists h. split; [destruct h; simpl; auto|].
  apply in_flat_map. exists s. split; [apply list_elem_of_In, all_states_in|]. apply in_map, list_elem_of_In, all_states_in.
Qed.
Lemma all_reconcile : forallb (fun x => forallb (reconciles x) all_sides) all_sides = true.
Proof. vm_compute. reflexivity. Qed.

