(* ===== verification/FailoverBind.v ===== *)
(** * Binding updates between failover peers (server/failover.c)

    What a server makes of a binding update of its peer: whether its own update
    of the same lease is better, whether the transition is one that it accepts,
    what the lease is then, and to which of the two servers a client belongs;
    and what it makes of the answer to an update of its own.

    Leases are those of LeaseDb.  The queues of updates and answers are those of
    FailoverQueue; here they are behind the interface [PeerWorld],
    which also says whether an allocation succeeds: without memory for the copy
    of the lease or for a long client identifier an update is refused.  The
    texts of answers are not modelled. *)

From stdpp Require Import base tactics list numbers gmap.
From S2P Require Import Prelude Lease LeaseHash Billing LeaseDb.

#[local] Open Scope Z_scope.

(** ** Load balancing *)
Definition loadb_mx_tbl : list Z :=
  [251; 175; 119; 215; 81; 14; 79; 191; 103; 49; 181; 143; 186; 157; 0; 232; 31; 32; 55; 60;
   152; 58; 17; 237; 174; 70; 160; 144; 220; 90; 57; 223; 59; 3; 18; 140; 111; 166; 203; 196;
   134; 243; 124; 95; 222; 179; 197; 65; 180; 48; 36; 15; 107; 46; 233; 130; 165; 30; 123; 161;
   209; 23; 97; 16; 40; 91; 219; 61; 100; 10; 210; 109; 250; 127; 22; 138; 29; 108; 244; 67;
   207; 9; 178; 204; 74; 98; 126; 249; 167; 116; 34; 77; 193; 200; 121; 5; 20; 113; 71; 35;
   128; 13; 182; 94; 25; 226; 227; 199; 75; 27; 41; 245; 230; 224; 43; 225; 177; 26; 155; 150;
   212; 142; 218; 115; 241; 73; 88; 105; 39; 114; 62; 255; 192; 201; 145; 214; 168; 158; 221; 148;
   154; 122; 12; 84; 82; 163; 44; 139; 228; 236; 205; 242; 217; 11; 187; 146; 159; 64; 86; 239;
   195; 42; 106; 198; 118; 112; 184; 172; 87; 2; 173; 117; 176; 229; 247; 253; 137; 185; 99; 164;
   102; 147; 45; 66; 231; 52; 141; 211; 194; 206; 246; 238; 56; 110; 78; 248; 63; 240; 189; 93;
   92; 51; 53; 183; 19; 171; 72; 50; 33; 104; 101; 69; 8; 252; 83; 120; 76; 135; 85; 54;
   202; 125; 188; 213; 96; 235; 136; 208; 162; 129; 190; 132; 156; 38; 47; 1; 7; 254; 24; 4;
   216; 131; 89; 21; 28; 133; 37; 153; 149; 80; 170; 68; 6; 169; 234; 151].

(** From the last byte of the key to the first. *)
Fixpoint loadb_loop (n : nat) (key : list Z) (hash : Z) : outcome Z :=
  match n with
  | O => Done hash
  | S n => b ← rd key (Z.of_nat n); h ← rd loadb_mx_tbl (Z.lxor hash b); loadb_loop n key h
  end.
Definition loadb_p_hash (key : list Z) (len : Z) : outcome Z := loadb_loop (Z.to_nat len) key (u8 len).

(** The bit of a hash in the hash bucket array, whose bits are for the primary. *)
Definition bucket (hba : list Z) (hbaix : Z) : outcome bool :=
  b ← rd hba (Z.land (Z.shiftr hbaix 3) 31); Done (negb (Z.land b (Z.shiftl 1 (Z.land hbaix 7)) =? 0)).

Record balance := mk_balance { hba : option (list Z); load_balance_max_secs : Z }.

(** The [secs] field, which some clients send in the wrong order. *)
Definition effective_secs (secs_byteorder : bool) (secs : Z) : Z :=
  if secs_byteorder && (255 <? secs) && (Z.land secs 255 =? 0) then u16 (Z.lor (Z.shiftr secs 8) (Z.shiftl secs 8)) else secs.

(** [load_balance_mine]: the [secs] field in host order, the client identifier,
    if there is one, and the hardware address of the packet. *)
Definition load_balance_mine (secs_byteorder : bool) (role : failover_role) (bal : balance) (secs : Z) (client_identifier : option (list Z))
    (chaddr : list Z) (hlen : Z) : outcome bool :=
  if load_balance_max_secs bal <? effective_secs secs_byteorder secs then Done true
  else
    match hba bal with
    | None => Done false
    | Some h =>
        ix ← (match client_identifier with Some d => loadb_p_hash d (zlen d) | None => loadb_p_hash chaddr hlen end);
        hm ← bucket h ix;
        Done (if bool_decide (role = primary) then hm else negb hm)
    end.

(** [peer_wants_lease] for a lease of a pool with this peer. *)
Definition peer_wants_lease (role : failover_role) (bal : balance) (l : ldata) : outcome bool :=
  match hba bal with
  | None => Done false
  | Some h =>
      let id := match uid l with Some u => bytes_of u | None => [] end in
      let go r := ix ← r; hm ← bucket h ix; Done (if bool_decide (role = primary) then negb hm else hm) in
      if negb (zlen id =? 0) then go (loadb_p_hash id (zlen id))
      else if 1 <? zlen (hardware_addr l) then go (loadb_p_hash (drop 1 (hardware_addr l)) (zlen (hardware_addr l) - 1))
      else Done false
  end.

(** [secondary_not_hoarding]: the number of leases that may be held is
    unsigned. *)
Definition secondary_not_hoarding (max_lease_ownership free_leases backup_leases : Z) : bool :=
  let total := free_leases + backup_leases in
  let hold := s32 (u32 (u32 (u32 total * max_lease_ownership) + 50) / 100) in
  let lts := Z.quot (free_leases - backup_leases) 2 in
  - hold <? lts.

(** ** Messages *)
Definition FTB_ASSIGNED_IP_ADDRESS : Z := 4.
Definition FTB_BINDING_STATUS : Z := 8.
Definition FTB_CLIENT_IDENTIFIER : Z := 16.
Definition FTB_CHADDR : Z := 32.
Definition FTB_CLTT : Z := 64.
Definition FTB_IP_FLAGS : Z := 4096.
Definition FTB_LEASE_EXPIRY : Z := 8192.
Definition FTB_POTENTIAL_EXPIRY : Z := 262144.
Definition FTB_STOS : Z := 33554432.
Definition FTB_REJECT_REASON : Z := 2097152.
(** The number of the option, not its bit. *)
Definition FTO_POTENTIAL_EXPIRY : Z := 18.
Definition FTF_IP_FLAG_RESERVE : Z := 1.
Definition FTF_IP_FLAG_BOOTP : Z := 2.
Definition FTR_ILLEGAL_IP_ADDR : Z := 1.
Definition FTR_FATAL_CONFLICT : Z := 2.
Definition FTR_MISSING_BINDINFO : Z := 3.
Definition FTR_MISC_REJECT : Z := 6.
Definition FTR_LESS_CRIT_BIND_INFO : Z := 16.
Definition FTR_IP_NOT_RESERVED : Z := 19.

Record bndupd := mk_bndupd {
  options_present : Z;
  m_xid : Z;
  binding_status : Z;
  ip_flags : Z;
  m_cltt : Z;
  m_expiry : Z;
  m_potential_expiry : Z;
  m_stos : Z;
  m_chaddr : list Z;
  m_client_identifier : list Z }.
Definition present (m : bndupd) (bit : Z) : bool := negb (Z.land (options_present m) bit =? 0).

Definition set_binding_status (v : Z) (m : bndupd) : bndupd :=
  mk_bndupd (options_present m) (m_xid m) v (ip_flags m) (m_cltt m) (m_expiry m) (m_potential_expiry m) (m_stos m) (m_chaddr m) (m_client_identifier m).

(** ** Two updates at the same time *)
Definition failover_lease_is_better (role : failover_role) (l : ldata) (m : bndupd) : outcome bool :=
  let local_state := if binding_state l =? desired_binding_state l then binding_state l else desired_binding_state l in
  let msg_cltt := if present m FTB_CLTT then m_cltt m else 0 in
  let by_role := Done (if binding_status m =? FTS_ACTIVE then false else bool_decide (role = primary)) in
  if local_state =? FTS_ACTIVE then
    if binding_status m =? FTS_ACTIVE then
      Done (if msg_cltt <? cltt l then true else if cltt l <? msg_cltt then false else bool_decide (role = primary))
    else if binding_status m =? FTS_EXPIRED then Done false
    else by_role
  else if bool_decide (local_state ∈ [FTS_FREE; FTS_BACKUP; FTS_EXPIRED; FTS_RELEASED; FTS_ABANDONED; FTS_RESET]) then by_role
  else Fatal.

(** ** Transitions *)
Definition valid_states : list Z := [FTS_FREE; FTS_ACTIVE; FTS_EXPIRED; FTS_RELEASED; FTS_ABANDONED; FTS_RESET; FTS_BACKUP].
Definition is_valid (s : Z) : bool := bool_decide (s ∈ valid_states).

Section now.
Context (cur_time : Z).

Definition normal_binding_state_transition_check (role : failover_role) (l : ldata) (state tsfp : Z) : outcome Z :=
  let old := binding_state l in
  let when_expired := if cur_time <? tsfp then Done old else Done state in
  let free_or_backup := (state =? FTS_FREE) || (state =? FTS_BACKUP) in
  if state =? old then Done state
  else if (old =? FTS_FREE) || (old =? FTS_ABANDONED) then if is_valid state then Done state else Fatal
  else if old =? FTS_ACTIVE then
    if bool_decide (role = primary) then Done (if (state =? FTS_RELEASED) || (state =? FTS_ABANDONED) then state else old)
    else if free_or_backup then when_expired
    else if state =? FTS_EXPIRED then Done (if cur_time <? ends l - 65 then old else state)
    else if is_valid state then Done state else Fatal
  else if (old =? FTS_EXPIRED) || (old =? FTS_RESET) then
    if free_or_backup then when_expired else if is_valid state then Done state else Fatal
  else if old =? FTS_RELEASED then if is_valid state then Done state else Fatal
  else if old =? FTS_BACKUP then if is_valid state then Done state else Fatal
  else Fatal.

Definition conflict_binding_state_transition_check (l : ldata) (state : Z) : outcome Z :=
  let old := binding_state l in
  if state =? old then Done state
  else if old =? FTS_ACTIVE then
    if (state =? FTS_FREE) || (state =? FTS_BACKUP) then Done old
    else if state =? FTS_EXPIRED then Done (if cur_time <? ends l - 65 then old else state)
    else if bool_decide (state ∈ [FTS_RELEASED; FTS_RESET; FTS_ABANDONED]) then Done state
    else Fatal
  else if is_valid old then Done state
  else Fatal.
End now.

(** ** A binding update

    The hardware address: a reason to reject, or the lease with the address and
    whether that has changed. *)
Definition take_chaddr (m : bndupd) (lt : ldata) : Z + (ldata * bool) :=
  if present m FTB_CHADDR then
    if binding_status m =? FTS_ABANDONED then inl FTR_MISC_REJECT
    else if 21 <? zlen (m_chaddr m) then inl FTR_MISC_REJECT
    else inr (set_hardware_addr (m_chaddr m) lt, negb (bool_decide (hardware_addr lt = m_chaddr m)))
  else if bool_decide (binding_status m ∈ [FTS_ACTIVE; FTS_EXPIRED; FTS_RELEASED]) then inl FTR_MISSING_BINDINFO
  else if binding_status m =? FTS_ABANDONED then inr (set_scope None (set_hardware_addr [] lt), true)
  else inr (lt, false).

(** Seven bytes fit into the lease; a buffer on the heap stays there. *)
Definition uid_of (old : option uid_bytes) (id : list Z) : uid_bytes :=
  match old with Some (OnHeap _) => OnHeap id | _ => if 7 <? zlen id then OnHeap id else InBuf id end.
Definition take_uid (m : bndupd) (lt : ldata) : Z + (ldata * bool) :=
  if present m FTB_CLIENT_IDENTIFIER then
    if binding_status m =? FTS_ABANDONED then inl FTR_MISC_REJECT
    else inr (set_uid (Some (uid_of (uid lt) (m_client_identifier m))) lt,
              match uid lt with Some u => negb (bool_decide (bytes_of u = m_client_identifier m)) | None => true end)
  else
    match uid lt with
    | Some _ => if bool_decide (binding_status m ∈ [FTS_RESET; FTS_FREE; FTS_BACKUP]) then inr (lt, false) else inr (set_uid None lt, true)
    | None => inr (lt, false)
    end.
Definition take_times (m : bndupd) (lt : ldata) : ldata :=
  let lt := if present m FTB_STOS then set_starts (m_stos m) lt else lt in
  let lt := if present m FTB_LEASE_EXPIRY then set_ends (m_expiry m) lt else lt in
  if present m FTB_POTENTIAL_EXPIRY then set_atsfp (m_potential_expiry m) (set_tsfp (m_potential_expiry m) lt) else lt.

(** One of the two flags: a lease that is this server's own to give out does
    not get it from the peer. *)
Definition own (role : failover_role) (l : ldata) : bool :=
  (bool_decide (role = primary) && (binding_state l =? FTS_FREE)) || (bool_decide (role = secondary) && (binding_state l =? FTS_BACKUP)).
Definition take_flag (role : failover_role) (l : ldata) (m : bndupd) (bit flag reason : Z) (lt : ldata) : Z + ldata :=
  if negb (Z.land (ip_flags m) bit =? 0) then
    if own role l && negb (has_flag l flag) then inl reason else inr (set_flags (Z.lor (flags lt) flag) lt)
  else inr (set_flags (Z.land (flags lt) (u8 (Z.lnot flag))) lt).
Definition take_flags (role : failover_role) (l : ldata) (m : bndupd) (lt : ldata) : Z + ldata :=
  if present m FTB_IP_FLAGS then
    match take_flag role l m FTF_IP_FLAG_RESERVE RESERVED_LEASE FTR_IP_NOT_RESERVED lt with
    | inl r => inl r
    | inr lt => take_flag role l m FTF_IP_FLAG_BOOTP BOOTP_LEASE FTR_MISC_REJECT lt
    end
  else inr (set_flags (Z.land (flags lt) (u8 (Z.lnot (Z.lor RESERVED_LEASE BOOTP_LEASE)))) lt).

(** ** What the messages ask of the rest of the server

    [peer_memory] tells whether there is memory: for the copy of a lease, and
    for a client identifier that does not fit into it (one that fits the buffer
    that is there is always answered yes). *)
Class PeerWorld (W : Type) := {
  peer_memory : W -> bool * W;
  ack_queue_remove : W -> nat -> bool * W;    (** whether the lease was on the queue *)
  update_done_after : W -> nat -> W;          (** UPDDONE, if it waits for this lease *)
  send_bind_ack : W -> bndupd -> Z -> W;
  queue_ack : W -> bndupd -> W;
  send_updates : W -> leases -> W * leases;
  commit_in_2s : W -> W }.
Class PeerWorldOk (W : Type) `{PeerWorld W} : Prop := { send_kept w s : kept s (send_updates w s).2 }.

Inductive verdict := Rejected (reason : Z) | Acknowledged.

Section peer.
Context `{!LeaseQueueOps ldata} {W : Type} `{!World W} `{!PeerWorld W}.
Context (cur_time : Z) (nosync : bool).

(** The peer, the pools shared with it, what it gets of the clients of a pool,
    and the share of the leases of a pool that it may hold. *)
Context (state : peer) (mine : nat -> bool) (balance_of : nat -> balance) (max_lease_ownership : Z).
Implicit Types (d : db (W := W)).

Definition write (d : db (W := W)) (i : nat) : outcome (bool * db (W := W)) :=
  l ← lease_at d i; let (ok, w) := write_lease (world d) i l in Done (ok, set_world w d).
Definition supersede_and_write (d : db (W := W)) (i : nat) (lease : option ldata) (propogate : bool) : outcome (bool * db (W := W)) :=
  '(ok, _, d) ← supersede_lease cur_time nosync d i lease false propogate false false;
  if ok : bool then write d i else Done (false, d).

Definition leave_ack_queue (d : db (W := W)) (i : nat) : outcome (db (W := W)) :=
  l ← lease_at d i;
  if has_flag l ON_ACK_QUEUE then
    let (found, w) := ack_queue_remove (world d) i in
    let d := set_world w d in
    if found : bool then change d i (fun l => set_flags (Z.land (flags l) (u8 (Z.lnot ON_ACK_QUEUE))) l) else Done d
  else Done d.

Definition pool_wants_back (d : db (W := W)) (l : ldata) : outcome bool :=
  match pool l with
  | None => Done false
  | Some p =>
      pl ← pool_at d p;
      match failover_peer pl with None => Done false | Some pr => peer_wants_lease (i_am pr) (balance_of p) l end
  end.

(** The lease goes to the secondary; the result is for the log. *)
Definition give_to_peer (d : db (W := W)) (i : nat) : outcome (db (W := W)) :=
  d ← change d i (fun l => set_starts cur_time (set_tstp cur_time (set_next_binding_state FTS_BACKUP l)));
  '(_, d) ← supersede_and_write d i None true;
  Done d.
Definition not_hoarding (d : db (W := W)) (i : nat) : outcome bool :=
  l ← lease_at d i;
  match pool l with
  | None => Fault
  | Some p => pl ← pool_at d p; Done (secondary_not_hoarding max_lease_ownership (free_leases pl) (backup_leases pl))
  end.

(** ** [dhcp_failover_send_bind_update]

    The state is the desired one: the other one that is worked out for a
    reserved lease is not sent. *)
Definition bind_update_of (xid : Z) (l : ldata) : bndupd :=
  let ipf := Z.lor (if has_flag l RESERVED_LEASE then FTF_IP_FLAG_RESERVE else 0) (if has_flag l BOOTP_LEASE then FTF_IP_FLAG_BOOTP else 0) in
  let opt (b : bool) bit := if b then bit else 0 in
  mk_bndupd
    (Z.lor FTB_ASSIGNED_IP_ADDRESS (Z.lor FTB_BINDING_STATUS (Z.lor (opt (negb (zlen (uid_key l) =? 0)) FTB_CLIENT_IDENTIFIER)
      (Z.lor (opt (negb (zlen (hardware_addr l) =? 0)) FTB_CHADDR) (Z.lor FTB_LEASE_EXPIRY (Z.lor FTB_POTENTIAL_EXPIRY (Z.lor FTB_STOS
      (Z.lor (opt (negb (cltt l =? 0)) FTB_CLTT) (opt (negb (ipf =? 0)) FTB_IP_FLAGS)))))))))
    xid (u8 (desired_binding_state l)) ipf (u32 (cltt l)) (u32 (ends l)) (u32 (tstp l)) (u32 (starts l)) (hardware_addr l) (uid_key l).
Definition send_bind_update (d : db (W := W)) (i : nat) (xid : Z) : outcome (bndupd * db (W := W)) :=
  l ← lease_at d i;
  d ← (if rewind_binding_state l =? binding_state l then Done d
       else d ← change d i (set_rewind_binding_state (binding_state l));
            '(_, d) ← write d i;
            Done (set_world (commit_leases (world d)).2 d));
  l ← lease_at d i;
  Done (bind_update_of (if xid =? 0 then 1 else xid) l, d).

(** ** [dhcp_failover_process_bind_update] *)
Definition reject (d : db (W := W)) (m : bndupd) (reason : Z) : outcome (verdict * db (W := W)) :=
  Done (Rejected reason, set_world (send_bind_ack (world d) m reason) d).

(** Whether the transition is accepted, and then the lease to install and
    whether the peer should get it back. *)
Definition new_state (l : ldata) (m : bndupd) : outcome Z :=
  if bool_decide (me_state state = normal) then normal_binding_state_transition_check cur_time (i_am state) l (binding_status m) (m_potential_expiry m)
  else conflict_binding_state_transition_check cur_time l (binding_status m).
Definition conclude (d : db (W := W)) (l : ldata) (m : bndupd) (lt : ldata) : outcome (Z + (ldata * bool)) :=
  new ← new_state l m;
  if negb (new =? binding_status m) then Done (inl FTR_FATAL_CONFLICT)
  else if bool_decide (new ∈ [FTS_EXPIRED; FTS_RELEASED; FTS_RESET]) then
    wants ← (if bool_decide (i_am state = primary) && (Z.land (flags lt) (Z.lor RESERVED_LEASE BOOTP_LEASE) =? 0) then pool_wants_back d lt else Done false);
    Done (inr (set_next_binding_state FTS_FREE lt, wants))
  else Done (inr (set_next_binding_state new lt, false)).

Definition install (d : db (W := W)) (i : nat) (m : bndupd) (lt : ldata) (send_to_backup : bool) : outcome (verdict * db (W := W)) :=
  let m := set_binding_status (next_binding_state lt) m in
  d ← change d i (set_rewind_binding_state (next_binding_state lt));
  '(ok, d) ← supersede_and_write d i (Some lt) false;
  if negb ok then reject d m FTR_MISC_REJECT
  else
    let d := set_world (queue_ack (world d) m) d in
    gives ← (if send_to_backup then not_hoarding d i else Done false);
    d ← (if gives : bool then d ← give_to_peer d i; Done (with_world d (send_updates (world d) (lease_store d))) else Done d);
    Done (Acknowledged, d).

(** The names of the last client of the lease. *)
Definition forget_names (d : db (W := W)) (i : nat) : outcome (db (W := W)) :=
  change (with_world d (ddns_removals (world d) (lease_store d) i false)) i (set_scope None).

(** Without memory the update is refused. *)
Definition with_memory (needed : bool) (d : db (W := W)) (m : bndupd) (k : db (W := W) -> outcome (verdict * db (W := W))) :
    outcome (verdict * db (W := W)) :=
  if needed then
    let (ok, w) := peer_memory (world d) in
    let d := set_world w d in
    if ok then k d else reject d m FTR_MISC_REJECT
  else k d.
(** A client identifier that does not fit in the lease itself needs a buffer;
    where the one that the copy has is large enough, no memory is asked for,
    which is the case of a [peer_memory] that succeeds. *)
Definition long_identifier (m : bndupd) : bool := present m FTB_CLIENT_IDENTIFIER && (7 <? zlen (m_client_identifier m)).

(** Once the update is not less critical than the own one. *)
Definition mark_up (d : db (W := W)) (i : nat) (m : bndupd) : outcome (verdict * db (W := W)) :=
  l ← lease_at d i;
  with_memory true d m (fun d =>
  match take_chaddr m (lease_copy l) with
  | inl r => reject d m r
  | inr (lt, chaddr_changed) =>
      match take_uid m lt with
      | inl r => reject d m r
      | inr (lt, ident_changed) =>
          with_memory (long_identifier m) d m (fun d =>
          d ← (if (binding_status m =? FTS_ACTIVE) && (chaddr_changed || ident_changed) then forget_names d i else Done d);
          l ← lease_at d i;
          match take_flags (i_am state) l m (take_times m lt) with
          | inl r => reject d m r
          | inr lt =>
              r ← conclude d l m lt;
              match r with inl r => reject d m r | inr (lt, send_to_backup) => install d i m lt send_to_backup end
          end)
      end
  end).

(** [found] is the lease of the address. *)
Definition process_bind_update (d : db (W := W)) (found : option nat) (m : bndupd) : outcome (verdict * db (W := W)) :=
  let required := Z.lor FTB_ASSIGNED_IP_ADDRESS FTB_BINDING_STATUS in
  if negb (Z.land (options_present m) required =? required) then reject d m FTR_MISSING_BINDINFO
  else
    match found with
    | None => reject d m FTR_ILLEGAL_IP_ADDR
    | Some i =>
        l ← lease_at d i;
        match pool l with
        | None => reject d m FTR_ILLEGAL_IP_ADDR
        | Some p =>
            if negb (mine p) then reject d m FTR_ILLEGAL_IP_ADDR
            else
              better ← (if has_flag l ON_ACK_QUEUE then failover_lease_is_better (i_am state) l m else Done false);
              if better : bool then reject d m FTR_LESS_CRIT_BIND_INFO
              else d ← leave_ack_queue d i; mark_up d i m
        end
    end.

(** ** [dhcp_failover_process_bind_ack]

    [last_xid] is the number of the last update of the lease. *)
Definition unqueue (d : db (W := W)) (i : nat) (send_to_backup : bool) : outcome (db (W := W)) :=
  d ← leave_ack_queue d i;
  let d := set_world (update_done_after (world d) i) d in
  gives ← (if send_to_backup then not_hoarding d i else Done false);
  d ← (if gives : bool then
         d ← give_to_peer d i;
         Done (if bool_decide (me_state state = normal) then set_world (commit_leases (world d)).2 d else d)
       else Done d);
  Done (with_world d (send_updates (world d) (lease_store d))).

(** The peer has agreed that the lease is free. *)
Definition back_to_free (d : db (W := W)) (i : nat) (pot_expire : Z) : outcome (bool * db (W := W)) :=
  d ← change d i (fun l =>
        let n := if bool_decide (i_am state = secondary) && has_flag l RESERVED_LEASE then FTS_BACKUP else FTS_FREE in
        set_rewind_binding_state n (set_desired_binding_state n (set_next_binding_state n (set_atsfp pot_expire (set_tsfp pot_expire l)))));
  '(_, _, d) ← supersede_lease cur_time nosync d i None false false false false;
  '(_, d) ← write d i;
  l ← lease_at d i;
  wants ← (if bool_decide (i_am state = primary) && (Z.land (flags l) (Z.lor RESERVED_LEASE BOOTP_LEASE) =? 0) then pool_wants_back d l else Done false);
  Done (wants, if negb wants && bool_decide (me_state state = normal) then set_world (commit_leases (world d)).2 d else d).
Definition stays (d : db (W := W)) (i : nat) (pot_expire : Z) : outcome (db (W := W)) :=
  d ← change d i (fun l => set_atsfp pot_expire (set_tsfp pot_expire l));
  l ← lease_at d i;
  d ← (if desired_binding_state l =? binding_state l then Done d
       else d ← change d i (set_next_binding_state (desired_binding_state l));
            '(_, _, d) ← supersede_lease cur_time nosync d i None false false false false;
            Done d);
  '(_, d) ← write d i;
  Done (set_world (commit_in_2s (world d)) d).

Definition process_bind_ack (d : db (W := W)) (found : option nat) (last_xid : Z) (m : bndupd) : outcome (db (W := W)) :=
  match found with
  | None => Done d
  | Some i =>
      if present m FTB_REJECT_REASON then unqueue d i false
      else if last_xid =? 0 then unqueue d i false
      else if negb (last_xid =? m_xid m) then Done d
      else
        l ← lease_at d i;
        let pot_expire := if present m FTO_POTENTIAL_EXPIRY then m_potential_expiry m else u32 (tstp l) in
        if bool_decide (desired_binding_state l ∈ [FTS_EXPIRED; FTS_RESET; FTS_RELEASED]) then
          '(wants, d) ← back_to_free d i pot_expire; unqueue d i wants
        else d ← stays d i pot_expire; unqueue d i false
  end.
End peer.
