(* ===== verification/FailoverBindOk.v ===== *)
(** * Binding updates: what two servers make of them

    Each client belongs to exactly one of two servers; of two updates for the
    same lease that meet, at most one is refused; an update never takes a lease
    away from a client that still holds it. *)

From stdpp Require Import base tactics list numbers.
From S2P Require Import Prelude LeaseHash LeaseDb FailoverBind.

#[local] Open Scope Z_scope.

(** ** Load balancing *)
Lemma mx_tbl_byte : Forall byte loadb_mx_tbl.
Proof. repeat (constructor; [unfold byte; lia|]). constructor. Qed.
Lemma mx_tbl_length : zlen loadb_mx_tbl = 256.
Proof. reflexivity. Qed.
Lemma lxor_byte a b : byte a -> byte b -> byte (Z.lxor a b).
Proof.
  unfold byte. intros Ha Hb. assert (H0 : 0 <= Z.lxor a b) by (apply Z.lxor_nonneg; lia). split; [done|].
  destruct (Z.eq_dec (Z.lxor a b) 0) as [->|Hn]; [lia|]. apply (Z.log2_lt_pow2 _ 8); [lia|].
  pose proof (Z.log2_lxor a b ltac:(lia) ltac:(lia)). assert (Hl : forall x, 0 <= x < 256 -> Z.log2 x < 8).
  { intros x Hx. destruct (Z.eq_dec x 0) as [->|]; [done|]. apply Z.log2_lt_pow2; lia. }
  pose proof (Hl a ltac:(lia)). pose proof (Hl b ltac:(lia)). lia.
Qed.
Lemma rd_byte l i : Forall byte l -> 0 <= i < zlen l -> exists b, rd l i = Done b /\ byte b.
Proof.
  intros Hb Hi. unfold zlen in Hi. destruct (lookup_lt_is_Some_2 l (Z.to_nat i)) as [b Eb]; [lia|]. exists b.
  split; [|by eapply Forall_lookup_1]. apply rd_Done. split; [lia|done].
Qed.
Lemma loadb_loop_ok n : forall key hash, Forall byte key -> Z.of_nat n <= zlen key -> byte hash -> exists h, loadb_loop n key hash = Done h /\ byte h.
Proof.
  induction n as [|n IH]; intros key hash Hk Hn Hh; [by exists hash|]. cbn [loadb_loop].
  destruct (rd_byte key (Z.of_nat n) Hk) as (b & -> & Hb); [lia|]. dred.
  pose proof (lxor_byte hash b Hh Hb) as Hx. unfold byte in Hx.
  destruct (rd_byte loadb_mx_tbl (Z.lxor hash b) mx_tbl_byte) as (h & -> & Hh'); [rewrite mx_tbl_length; lia|]. dred. apply IH; [done|lia|done].
Qed.
Lemma loadb_p_hash_ok key len : Forall byte key -> 0 <= len <= zlen key -> exists h, loadb_p_hash key len = Done h /\ byte h.
Proof. intros Hk Hl. apply loadb_loop_ok; [done|lia|]. unfold byte, u8. apply Z.mod_pos_bound. lia. Qed.
Lemma loadb_loop_prefix n : forall key key' hash, (Z.of_nat n <= zlen key) -> (Z.of_nat n <= zlen key') -> take n key = take n key' ->
  loadb_loop n key hash = loadb_loop n key' hash.
Proof.
  induction n as [|n IH]; intros key key' hash H1 H2 Ht; [done|]. cbn [loadb_loop]. unfold zlen in *.
  assert (El : key !! n = key' !! n) by (rewrite <- (lookup_take_lt key (S n)), <- (lookup_take_lt key' (S n)), Ht by lia; done).
  destruct (lookup_lt_is_Some_2 key n) as [b Eb]; [lia|].
  assert (R1 : rd key (Z.of_nat n) = Done b) by (apply rd_Done; split; [lia|by rewrite Nat2Z.id]).
  assert (R2 : rd key' (Z.of_nat n) = Done b) by (apply rd_Done; split; [lia|rewrite Nat2Z.id; by rewrite <- El]).
  rewrite R1, R2. dred. destruct (rd loadb_mx_tbl _) as [h| | |]; try done. rewrite !bind_ret. apply IH; [lia|lia|].
  apply (f_equal (take n)) in Ht. rewrite !take_take in Ht. by replace (n `min` S n)%nat with n in Ht by lia.
Qed.
Lemma bucket_ok h ix : Forall byte h -> zlen h = 32 -> byte ix -> exists b, bucket h ix = Done b.
Proof.
  intros Hh Hl Hi. unfold bucket. destruct (rd_byte h (Z.land (Z.shiftr ix 3) 31) Hh) as (b & -> & _); [|dred; by eexists].
  change 31 with (Z.ones 5). rewrite Z.land_ones by lia. rewrite Hl. apply Z.mod_pos_bound. lia.
Qed.

(** The client as the packet has it. *)
Definition client_hash (client_identifier : option (list Z)) (chaddr : list Z) (hlen : Z) : outcome Z :=
  match client_identifier with Some d => loadb_p_hash d (zlen d) | None => loadb_p_hash chaddr hlen end.
Definition client_ok (client_identifier : option (list Z)) (chaddr : list Z) (hlen : Z) : Prop :=
  (forall d, client_identifier = Some d -> Forall byte d) /\ Forall byte chaddr /\ 0 <= hlen <= zlen chaddr.
Lemma client_hash_ok ci chaddr hlen : client_ok ci chaddr hlen -> exists h, client_hash ci chaddr hlen = Done h /\ byte h.
Proof.
  intros (Hd & Hc & Hl). unfold client_hash. destruct ci as [d|]; [|by apply loadb_p_hash_ok].
  apply loadb_p_hash_ok; [by apply Hd|]. pose proof (zlen_nonneg d). lia.
Qed.
(** A lease that was given to this client. *)
Definition held_by (l : ldata) (client_identifier : option (list Z)) (chaddr : list Z) (hlen : Z) : Prop :=
  match client_identifier with
  | Some d => d <> [] /\ option_map bytes_of (uid l) = Some d
  | None => uid l = None /\ 1 <= hlen /\ exists htype, hardware_addr l = htype :: take (Z.to_nat hlen) chaddr
  end.
Lemma peer_wants_hash role h max l ci chaddr hlen : held_by l ci chaddr hlen -> client_ok ci chaddr hlen ->
  peer_wants_lease role (mk_balance (Some h) max) l =
  (ix ← client_hash ci chaddr hlen; hm ← bucket h ix; Done (if bool_decide (role = primary) then negb hm else hm)).
Proof.
  intros Hl (_ & _ & Hlen). unfold peer_wants_lease, client_hash. simpl. destruct ci as [d|]; simpl in Hl.
  - destruct Hl as [Hd Hu]. destruct (uid l) as [u|]; [|done]. injection Hu as ->. destruct (Z.eqb_spec (zlen d) 0) as [E|_]; [|done].
    destruct d; [done|unfold zlen in E; simpl in E; lia].
  - destruct Hl as (-> & H1 & (ht & ->)). change (zlen (@nil Z)) with 0. simpl negb. cbv iota. rewrite zlen_cons.
    assert (Ht : zlen (take (Z.to_nat hlen) chaddr) = hlen) by (unfold zlen in *; rewrite length_take; lia). rewrite Ht.
    destruct (Z.ltb_spec 1 (hlen + 1)) as [_|E]; [|lia]. replace (hlen + 1 - 1) with hlen by lia. change (drop 1 (ht :: take (Z.to_nat hlen) chaddr)) with (take (Z.to_nat hlen) chaddr).
    unfold loadb_p_hash. rewrite (loadb_loop_prefix (Z.to_nat hlen) (take (Z.to_nat hlen) chaddr) chaddr); [done| | |].
    + rewrite Ht. lia.
    + lia.
    + by rewrite take_take, Nat.min_id.
Qed.

(** C27: Of two servers with the same hash bucket array, each client is served by
    exactly one, until it has waited for longer than the configured time; then
    both serve it.  The server that a lease should go back to is the one that
    serves the client that had it. *)
Theorem client_served_once sb h max secs ci chaddr hlen l :
  Forall byte h -> zlen h = 32 -> client_ok ci chaddr hlen -> held_by l ci chaddr hlen ->
  let bal := mk_balance (Some h) max in
  exists p s, load_balance_mine sb primary bal secs ci chaddr hlen = Done p /\ load_balance_mine sb secondary bal secs ci chaddr hlen = Done s /\
    (effective_secs sb secs <= max ->
       s = negb p /\ peer_wants_lease primary bal l = Done s /\ peer_wants_lease secondary bal l = Done p) /\
    (max < effective_secs sb secs -> p = true /\ s = true).
Proof.
  intros Hh Hl Hc Hb bal. unfold bal. rewrite !(peer_wants_hash _ h max l ci chaddr hlen Hb Hc). unfold load_balance_mine.
  fold (client_hash ci chaddr hlen). cbn [load_balance_max_secs hba].
  destruct (client_hash_ok ci chaddr hlen Hc) as (ix & -> & Hx). dred. destruct (bucket_ok h ix Hh Hl Hx) as [b ->]. dred.
  destruct (Z.ltb_spec max (effective_secs sb secs)); [exists true, true|exists b, (negb b)]; (split; [done|split; [done|split; [|lia]]]); [lia|done].
Qed.

Definition sample_hba : list Z := repeat 255 16 ++ repeat 0 16.
Definition sample_client_lease : ldata :=
  mk_ldata 0 100 10 0 0 0 FTS_ACTIVE FTS_EXPIRED FTS_ACTIVE FTS_FREE 0 None [1; 8; 0; 39; 1; 2; 3] None None None None None None None None None None (Some 0%nat) None.
Lemma client_served_once_witness :
  exists p s, load_balance_mine true primary (mk_balance (Some sample_hba) 3) 0 None [8; 0; 39; 1; 2; 3] 6 = Done p /\
    load_balance_mine true secondary (mk_balance (Some sample_hba) 3) 0 None [8; 0; 39; 1; 2; 3] 6 = Done s /\ s = negb p /\
    peer_wants_lease primary (mk_balance (Some sample_hba) 3) sample_client_lease = Done s.
Proof.
  destruct (client_served_once true sample_hba 3 0 None [8; 0; 39; 1; 2; 3] 6 sample_client_lease) as (p & s & E1 & E2 & H & _).
  - unfold sample_hba. apply (bool_decide_unpack _). by vm_compute.
  - reflexivity.
  - split; [done|]. split; [|done]. apply (bool_decide_unpack _). by vm_compute.
  - split; [done|]. split; [done|]. by exists 1.
  - exists p, s. split; [exact E1|]. split; [exact E2|]. destruct H as (Hs & Hw & _); [vm_compute; discriminate|]. split; [exact Hs|exact Hw].
Defined.

(** ** Two updates that meet *)
Lemma valid_range s : is_valid s = true <-> 1 <= s <= 7.
Proof.
  unfold is_valid, valid_states. rewrite bool_decide_eq_true. split.
  - intros H. repeat (apply elem_of_cons in H as [->|H]; [by vm_compute|]). by apply not_elem_of_nil in H.
  - intros H. assert (s = 1 \/ s = 2 \/ s = 3 \/ s = 4 \/ s = 5 \/ s = 6 \/ s = 7) as [->|[->|[->|[->|[->|[->| ->]]]]]] by lia;
      apply (bool_decide_unpack _); by vm_compute.
Qed.
Lemma land_lor_pow2 a b bit : Z.land b bit = 0 -> Z.land (Z.lor a b) bit = Z.land a bit.
Proof. intros H. rewrite Z.land_lor_distr_l, H. apply Z.lor_0_r. Qed.

(** What the message says of the lease. *)
Lemma update_status xid l : is_valid (desired_binding_state l) = true -> binding_status (bind_update_of xid l) = desired_binding_state l.
Proof. intros H%valid_range. simpl. unfold u8. apply Z.mod_small. lia. Qed.
Lemma update_present xid l :
  present (bind_update_of xid l) FTB_CLTT = negb (cltt l =? 0) /\
  present (bind_update_of xid l) FTB_CHADDR = negb (zlen (hardware_addr l) =? 0) /\
  present (bind_update_of xid l) FTB_CLIENT_IDENTIFIER = negb (zlen (uid_key l) =? 0) /\
  present (bind_update_of xid l) FTB_LEASE_EXPIRY = true /\
  Z.land (options_present (bind_update_of xid l)) (Z.lor FTB_ASSIGNED_IP_ADDRESS FTB_BINDING_STATUS) = Z.lor FTB_ASSIGNED_IP_ADDRESS FTB_BINDING_STATUS.
Proof.
  unfold present, bind_update_of. cbn [options_present]. destruct (zlen (uid_key l) =? 0), (zlen (hardware_addr l) =? 0), (cltt l =? 0), (has_flag l RESERVED_LEASE), (has_flag l BOOTP_LEASE); by vm_compute.
Qed.
Lemma update_cltt xid l : 0 <= cltt l < 2 ^ 32 -> (if present (bind_update_of xid l) FTB_CLTT then m_cltt (bind_update_of xid l) else 0) = cltt l.
Proof.
  intros H. rewrite (proj1 (update_present xid l)). simpl. destruct (Z.eqb_spec (cltt l) 0) as [->|_]; [done|]. unfold u32. apply Z.mod_small. lia.
Qed.

Lemma better_of role l xid l' : is_valid (desired_binding_state l) = true -> is_valid (desired_binding_state l') = true -> 0 <= cltt l' < 2 ^ 32 ->
  failover_lease_is_better role l (bind_update_of xid l') =
  Done (if desired_binding_state l' =? FTS_ACTIVE then
          (desired_binding_state l =? FTS_ACTIVE) && ((cltt l' <? cltt l) || ((cltt l' =? cltt l) && bool_decide (role = primary)))
        else bool_decide (role = primary) && negb ((desired_binding_state l =? FTS_ACTIVE) && (desired_binding_state l' =? FTS_EXPIRED))).
Proof.
  intros Hl Hl' Hc. unfold failover_lease_is_better. rewrite (update_status xid l' Hl'), (update_cltt xid l' Hc).
  assert ((if binding_state l =? desired_binding_state l then binding_state l else desired_binding_state l) = desired_binding_state l) as ->.
  { by destruct (Z.eqb_spec (binding_state l) (desired_binding_state l)). }
  apply valid_range in Hl. destruct (Z.eqb_spec (desired_binding_state l) FTS_ACTIVE) as [Ea|Na].
  - destruct (desired_binding_state l' =? FTS_ACTIVE).
    + f_equal. destruct (Z.ltb_spec (cltt l') (cltt l)); [done|]. destruct (Z.ltb_spec (cltt l) (cltt l')), (Z.eqb_spec (cltt l') (cltt l)); (lia || done).
    + destruct (desired_binding_state l' =? FTS_EXPIRED); simpl; [by rewrite andb_false_r|by rewrite andb_true_r].
  - rewrite bool_decide_true.
    + destruct (desired_binding_state l' =? FTS_ACTIVE); simpl; [done|by rewrite andb_true_r].
    + unfold FTS_ACTIVE in Na. assert (desired_binding_state l = 1 \/ desired_binding_state l = 3 \/ desired_binding_state l = 4 \/ desired_binding_state l = 5 \/ desired_binding_state l = 6 \/ desired_binding_state l = 7)
        as [->|[->|[->|[->|[->| ->]]]]] by lia; apply (bool_decide_unpack _); by vm_compute.
Qed.

(** C26: When both servers have sent an update of the same lease, they never both
    hold on to their own.  Of two active leases exactly the one that was used
    last is kept, the one of the primary if both were used at the same time.
    They both take what the other one sent, and so only change places, exactly
    if the lease is active for the secondary alone, or active for the primary
    and expired for the secondary. *)
Theorem duel_resolved lp ls xp xs :
  is_valid (desired_binding_state lp) = true -> is_valid (desired_binding_state ls) = true -> 0 <= cltt lp < 2 ^ 32 -> 0 <= cltt ls < 2 ^ 32 ->
  exists keep_p keep_s, failover_lease_is_better primary lp (bind_update_of xs ls) = Done keep_p /\
    failover_lease_is_better secondary ls (bind_update_of xp lp) = Done keep_s /\ keep_p && keep_s = false /\
    (desired_binding_state lp = FTS_ACTIVE -> desired_binding_state ls = FTS_ACTIVE -> keep_p = negb (cltt lp <? cltt ls) /\ keep_s = (cltt lp <? cltt ls)) /\
    (keep_p = false /\ keep_s = false <->
       desired_binding_state ls = FTS_ACTIVE /\ desired_binding_state lp <> FTS_ACTIVE \/
       desired_binding_state lp = FTS_ACTIVE /\ desired_binding_state ls = FTS_EXPIRED).
Proof.
  intros Hp Hs Cp Cs. rewrite (better_of _ _ _ _ Hp Hs Cs), (better_of _ _ _ _ Hs Hp Cp). eexists _, _. split; [done|]. split; [done|].
  rewrite (bool_decide_true (primary = primary)), (bool_decide_false (secondary = primary)) by done. unfold FTS_ACTIVE, FTS_EXPIRED.
  destruct (Z.eqb_spec (desired_binding_state ls) 2) as [E1|N1], (Z.eqb_spec (desired_binding_state lp) 2) as [E2|N2], (Z.eqb_spec (desired_binding_state ls) 3) as [E3|N3];
    simpl; rewrite ?andb_false_r, ?orb_false_r, ?andb_true_r; (split; [|split; [|split]]); intros; try lia; try done; try tauto.
Qed.

Lemma duel_resolved_witness :
  exists keep_p keep_s, failover_lease_is_better primary sample_client_lease (bind_update_of 7 (set_cltt 20 sample_client_lease)) = Done keep_p /\
    failover_lease_is_better secondary (set_cltt 20 sample_client_lease) (bind_update_of 9 sample_client_lease) = Done keep_s /\
    keep_p = false /\ keep_s = true.
Proof.
  destruct (duel_resolved sample_client_lease (set_cltt 20 sample_client_lease) 9 7) as (p & s & E1 & E2 & _ & H & _).
  - reflexivity.
  - reflexivity.
  - split; vm_compute; congruence.
  - split; vm_compute; congruence.
  - exists p, s. split; [exact E1|]. split; [exact E2|]. exact (H eq_refl eq_refl).
Defined.
