(* ===== verification/FailoverBindDb.v ===== *)
(** * Binding updates and the lease database

    [process_bind_update], for an update whose status is a binding state, and
    [process_bind_ack] answer, keep the whole database in order, and change no
    other lease; an accepted update is what the lease then is, and the word of
    the peer that a lease is free or expired does not end one that has time left
    (but for a secondary in normal state, which believes the primary). *)

From stdpp Require Import base tactics list numbers gmap.
From S2P Require Import Prelude Lease LeaseHash Billing LeaseDb LeaseDbInv LeaseDbOk LeaseTimer LeaseOps FailoverBind FailoverBindOk.

#[local] Open Scope Z_scope.

(** ** Which transitions are accepted *)

(** Whether a lease that is in use may be taken to be out of use. *)
Definition ends_use (cur_time : Z) (role : failover_role) (in_normal : bool) (l : ldata) (m : bndupd) : bool :=
  if in_normal && bool_decide (role = primary) then bool_decide (binding_status m ∈ [FTS_RELEASED; FTS_ABANDONED])
  else
    bool_decide (binding_status m ∈ [FTS_RELEASED; FTS_ABANDONED; FTS_RESET]) ||
    ((binding_status m =? FTS_EXPIRED) && (ends l - 65 <=? cur_time)) ||
    (in_normal && free_or_backup (binding_status m) && (m_potential_expiry m <=? cur_time)).
Definition grants (cur_time : Z) (role : failover_role) (in_normal : bool) (l : ldata) (m : bndupd) : bool :=
  (binding_status m =? binding_state l) ||
  (if binding_state l =? FTS_ACTIVE then ends_use cur_time role in_normal l m
   else negb (in_normal && bool_decide (binding_state l ∈ [FTS_EXPIRED; FTS_RESET]) && free_or_backup (binding_status m)) || (m_potential_expiry m <=? cur_time)).

Lemma seven (P : Z -> Prop) : P 1 -> P 2 -> P 3 -> P 4 -> P 5 -> P 6 -> P 7 -> forall z, 1 <= z <= 7 -> P z.
Proof. intros ??????? z Hz. assert (z = 1 \/ z = 2 \/ z = 3 \/ z = 4 \/ z = 5 \/ z = 6 \/ z = 7) as [->|[->|[->|[->|[->|[->| ->]]]]]] by lia; done. Qed.

Lemma checks_grant cur_time role (in_normal : bool) l m :
  is_valid (binding_status m) = true -> 1 <= binding_state l <= 7 ->
  (if in_normal then normal_binding_state_transition_check cur_time role l (binding_status m) (m_potential_expiry m)
   else conflict_binding_state_transition_check cur_time l (binding_status m)) =
  Done (if grants cur_time role in_normal l m then binding_status m else binding_state l).
Proof.
  intros Hs%valid_range Hl. unfold grants, ends_use, normal_binding_state_transition_check, conflict_binding_state_transition_check.
  generalize dependent (binding_status m). generalize dependent (binding_state l). intros b Hb s Hs.
  rewrite !Z.ltb_antisym. destruct (ends l - 65 <=? cur_time), (m_potential_expiry m <=? cur_time), in_normal, role; revert s Hs; apply seven; revert b Hb; apply seven; reflexivity.
Qed.

(** ** The client that a message names *)
Record sound_lease (x : ldata) : Prop := {
  sl_static : has_flag x STATIC_LEASE = false;
  sl_uid : forall b, uid x = Some (InBuf b) -> zlen b <= 7;
  sl_uid_bytes : Forall byte (uid_key x);
  sl_hw_bytes : Forall byte (hardware_addr x) }.
Record sound_update (m : bndupd) : Prop := {
  su_status : is_valid (binding_status m) = true;
  su_chaddr : Forall byte (m_chaddr m);
  su_client : Forall byte (m_client_identifier m) }.

(** What stays of the lease while the client is taken over. *)
Definition base (x : ldata) := (has_flag x STATIC_LEASE, billing_class x, pool x).

Lemma take_chaddr_ok m x lt b : take_chaddr m x = inr (lt, b) ->
  base lt = base x /\ ends lt = ends x /\ uid lt = uid x /\ hardware_addr lt = (if present m FTB_CHADDR then m_chaddr m else if binding_status m =? FTS_ABANDONED then [] else hardware_addr x).
Proof.
  unfold take_chaddr. destruct (present m FTB_CHADDR).
  - destruct (binding_status m =? FTS_ABANDONED); [done|]. destruct (21 <? zlen (m_chaddr m)); [done|]. by intros [= <- <-].
  - destruct (bool_decide _); [done|]. destruct (binding_status m =? FTS_ABANDONED); by intros [= <- <-].
Qed.
Lemma take_uid_ok m x lt b : take_uid m x = inr (lt, b) ->
  base lt = base x /\ ends lt = ends x /\ hardware_addr lt = hardware_addr x /\
  (present m FTB_CLIENT_IDENTIFIER = true -> uid_key lt = m_client_identifier m) /\
  (uid_key lt = m_client_identifier m \/ uid_key lt = uid_key x \/ uid_key lt = []) /\
  ((forall b, uid x = Some (InBuf b) -> zlen b <= 7) -> forall b, uid lt = Some (InBuf b) -> zlen b <= 7).
Proof.
  unfold take_uid. destruct (present m FTB_CLIENT_IDENTIFIER).
  - destruct (binding_status m =? FTS_ABANDONED); [done|]. intros [= <- <-]. do 3 (split; [done|]).
    assert (Hk : uid_key (set_uid (Some (uid_of (uid x) (m_client_identifier m))) x) = m_client_identifier m).
    { unfold uid_key, uid_of. simpl. destruct (uid x) as [[|]|], (7 <? zlen (m_client_identifier m)); done. }
    split; [done|]. split; [by left|]. intros _ b'. simpl. unfold uid_of.
    destruct (uid x) as [[|]|], (Z.ltb_spec 7 (zlen (m_client_identifier m))); intros [= <-]; done.
  - destruct (uid x) as [u|] eqn:Eu; [destruct (bool_decide _)|]; intros [= <- <-]; (do 3 (split; [done|])); (split; [done|]); split; auto; rewrite ?Eu; auto.
    intros _ b'. by simpl.
Qed.

Definition new_ends (m : bndupd) (x : ldata) : Z := if present m FTB_LEASE_EXPIRY then m_expiry m else ends x.
Lemma take_times_ok m x : base (take_times m x) = base x /\ ends (take_times m x) = new_ends m x /\ uid (take_times m x) = uid x /\ hardware_addr (take_times m x) = hardware_addr x.
Proof. unfold take_times, new_ends. destruct (present m FTB_STOS), (present m FTB_LEASE_EXPIRY), (present m FTB_POTENTIAL_EXPIRY); done. Qed.

(** The flags in question are not that of static leases. *)
Lemma other_flag f g : Z.land g STATIC_LEASE = 0 -> negb (Z.land (Z.lor f g) STATIC_LEASE =? 0) = negb (Z.land f STATIC_LEASE =? 0).
Proof. intros H. by rewrite land_lor_pow2. Qed.
Lemma flag_kept f g bit : Z.land g bit = bit -> negb (Z.land (Z.land f g) bit =? 0) = negb (Z.land f bit =? 0).
Proof. intros H. by rewrite <- Z.land_assoc, H. Qed.
Lemma take_flag_ok role l m bit flag r x lt : (flag = RESERVED_LEASE \/ flag = BOOTP_LEASE) -> take_flag role l m bit flag r x = inr lt ->
  base lt = base x /\ ends lt = ends x /\ uid lt = uid x /\ hardware_addr lt = hardware_addr x.
Proof.
  intros Hf. unfold take_flag, base, has_flag. destruct (negb (Z.land (ip_flags m) bit =? 0)).
  - destruct (_ && _); [done|]. intros [= <-]. cbn [flags set_flags ends uid hardware_addr billing_class pool]. rewrite other_flag; [done|by destruct Hf as [-> | ->]].
  - intros [= <-]. cbn [flags set_flags ends uid hardware_addr billing_class pool]. rewrite flag_kept; [done|by destruct Hf as [-> | ->]].
Qed.
Lemma take_flags_ok role l m x lt : take_flags role l m x = inr lt ->
  base lt = base x /\ ends lt = ends x /\ uid lt = uid x /\ hardware_addr lt = hardware_addr x.
Proof.
  unfold take_flags. destruct (present m FTB_IP_FLAGS).
  - destruct (take_flag role l m FTF_IP_FLAG_RESERVE RESERVED_LEASE FTR_IP_NOT_RESERVED x) as [|y] eqn:E1; [done|]. intros E2.
    apply take_flag_ok in E1 as (B1 & H1 & U1 & W1); [|by left]. apply take_flag_ok in E2 as (B2 & H2 & U2 & W2); [|by right]. split_and!; congruence.
  - intros [= <-]. unfold base, has_flag. cbn [flags set_flags ends uid hardware_addr billing_class pool]. by rewrite flag_kept.
Qed.

(** ** Load balancing *)
Definition sound_balance (bal : balance) : Prop := forall h, hba bal = Some h -> Forall byte h /\ zlen h = 32.
Lemma peer_wants_ok role bal l : sound_balance bal -> Forall byte (uid_key l) -> Forall byte (hardware_addr l) -> exists b, peer_wants_lease role bal l = Done b.
Proof.
  intros Hb Hu Hw. unfold peer_wants_lease. destruct (hba bal) as [h|] eqn:Eh; [|by eexists]. destruct (Hb h Eh) as [Hh Hl]. fold (uid_key l).
  destruct (negb (zlen (uid_key l) =? 0)).
  - destruct (loadb_p_hash_ok (uid_key l) (zlen (uid_key l)) Hu) as (ix & -> & Hx); [pose proof (zlen_nonneg (uid_key l)); lia|]. dred.
    destruct (bucket_ok h ix Hh Hl Hx) as [b ->]. by eexists.
  - destruct (Z.ltb_spec 1 (zlen (hardware_addr l))) as [H1|]; [|by eexists].
    destruct (loadb_p_hash_ok (drop 1 (hardware_addr l)) (zlen (hardware_addr l) - 1)) as (ix & -> & Hx).
    + by apply Forall_drop.
    + unfold zlen in *. rewrite length_drop. lia.
    + dred. destruct (bucket_ok h ix Hh Hl Hx) as [b ->]. by eexists.
Qed.

Section db.
Context `{!LeaseQueueOps ldata} `{!LeaseQueue ldata} {W : Type} `{!World W} `{!WorldOk W} `{!PeerWorld W} `{!PeerWorldOk W}.
Context (cur_time : Z) (nosync : bool) (state : peer) (mine : nat -> bool) (balance_of : nat -> balance) (max_lease_ownership : Z).
Context (L : gset nat) (off : nat -> Z * Z).
Implicit Types (d : db (W := W)) (ids : nat -> qkind -> list nat).

(** ** Steps that leave the database as it is *)
Definition gentle d d' ids : Prop := wf4 L L L L off d' ids /\ kept (lease_store d) (lease_store d') /\ pools d' = pools d.

Lemma gentle_refl d ids : wf4 L L L L off d ids -> gentle d d ids.
Proof. intros Hw. split; [done|]. split; [apply upto_refl|done]. Qed.
Lemma gentle_trans d1 d2 d3 ids : gentle d1 d2 ids -> gentle d2 d3 ids -> gentle d1 d3 ids.
Proof. intros (_ & K1 & P1) (W2 & K2 & P2). split; [done|]. split; [by eapply upto_trans|congruence]. Qed.
Lemma gentle_calm d d' ids : gentle d d' ids -> calm L L L L off d d' ids.
Proof. intros (Hw & Hk & Hp). split; [done|]. split; [|done]. by apply upto_steady, kept_parts. Qed.
Lemma gentle_states d d' ids : gentle d d' ids -> states_ok L d -> states_ok L d'.
Proof. intros G. eapply calm_states, gentle_calm, G. Qed.
Lemma gentle_lookup d d' ids i l : gentle d d' ids -> lease_store d !! i = Some l ->
  exists l', lease_store d' !! i = Some l' /\ core (data l') = core (data l).
Proof. intros (_ & [_ K] & _) E. destruct (K i l E) as (x & E' & C). by exists (set_data x l). Qed.
Lemma gentle_set_world d ids w : wf4 L L L L off d ids -> gentle d (set_world w d) ids.
Proof. intros []. split; [by split|]. split; [apply upto_refl|done]. Qed.
Lemma gentle_world d ids r : wf4 L L L L off d ids -> kept (lease_store d) r.2 -> gentle d (with_world d r) ids.
Proof. intros Hw Hk. split; [by apply with_world_ok|]. by split. Qed.
Lemma gentle_change d ids i l f : wf4 L L L L off d ids -> lease_store d !! i = Some l -> core (f (data l)) = core (data l) ->
  exists d', change d i f = Done d' /\ gentle d d' ids.
Proof.
  intros Hw E Hf. assert (Hk : kept (lease_store d) (<[i := set_data (f (data l)) l]> (lease_store d))) by (by apply upto_change).
  eexists. split; [by apply change_Done|]. split; [apply wf_upto; [done|by apply kept_parts]|]. by split.
Qed.

Lemma core_sound x x' : core x' = core x -> sound_lease x -> sound_lease x'.
Proof.
  unfold core. intros E [S1 S2 S3 S4]. unfold uid_key in *. assert (uid x' = uid x) as Eu by congruence.
  split; unfold uid_key; rewrite ?Eu; [congruence|done|done|]. by replace (hardware_addr x') with (hardware_addr x) by congruence.
Qed.

Lemma write_ok d ids i l : wf4 L L L L off d ids -> lease_store d !! i = Some l -> exists ok d', write d i = Done (ok, d') /\ gentle d d' ids.
Proof.
  intros Hw E. unfold write. rewrite (lease_at_Done _ _ _ E). dred. destruct (write_lease (world d) i (data l)) as [ok w].
  exists ok, (set_world w d). split; [done|]. by apply gentle_set_world.
Qed.
Lemma leave_ack_queue_ok d ids i l : wf4 L L L L off d ids -> lease_store d !! i = Some l -> exists d', leave_ack_queue d i = Done d' /\ gentle d d' ids.
Proof.
  intros Hw E. unfold leave_ack_queue. rewrite (lease_at_Done _ _ _ E). dred.
  destruct (has_flag (data l) ON_ACK_QUEUE); [|exists d; split; [done|by apply gentle_refl]].
  destruct (ack_queue_remove (world d) i) as [found w]. pose proof (gentle_set_world d ids w Hw) as G1.
  destruct found; [|by eexists]. destruct (gentle_change (set_world w d) ids i l (fun l => set_flags (Z.land (flags l) (u8 (Z.lnot ON_ACK_QUEUE))) l) (proj1 G1) E) as (d2 & E2 & G2).
  - unfold core, has_flag. cbn [flags set_flags binding_state next_binding_state pool uid hardware_addr n_uid n_hw billing_class ends tsfp].
    by rewrite !flag_kept.
  - exists d2. split; [exact E2|]. exact (gentle_trans _ _ _ _ G1 G2).
Qed.
Lemma forget_names_ok d ids i l : wf4 L L L L off d ids -> lease_store d !! i = Some l -> exists d', forget_names d i = Done d' /\ gentle d d' ids.
Proof.
  intros Hw E. unfold forget_names. pose proof (gentle_world d ids _ Hw (ddns_kept (world d) (lease_store d) i false)) as G1.
  destruct (gentle_lookup _ _ _ _ _ G1 E) as (l1 & E1 & _). destruct (gentle_change _ ids i l1 (set_scope None) (proj1 G1) E1 eq_refl) as (d2 & -> & G2).
  exists d2. split; [done|]. by eapply gentle_trans.
Qed.

(** ** Steps that move the lease *)

(** The client of a lease and when it ends. *)
Definition holder (x : ldata) := (uid_key x, hardware_addr x, ends x).

Lemma gentle_holder d d' ids i l : gentle d d' ids -> lease_store d !! i = Some l ->
  exists l', lease_store d' !! i = Some l' /\ holder (data l') = holder (data l) /\ binding_state (data l') = binding_state (data l) /\ pool (data l') = pool (data l) /\
    next_binding_state (data l') = next_binding_state (data l).
Proof.
  intros G E. destruct (calm_lookup _ _ _ _ _ _ _ _ _ _ (gentle_calm _ _ _ G) E) as (l' & E' & _ & V). exists l'. split; [done|].
  destruct (vitals_inv _ _ V) as (-> & -> & _ & -> & He & _ & Hu & Hh). unfold holder. by rewrite He, Hu, Hh.
Qed.
Lemma gentle_but d d' ids i : gentle d d' ids -> steady_but i (lease_store d) (lease_store d').
Proof. intros G. apply steady_any, (gentle_calm _ _ _ G). Qed.

(** A lease moves to the state it is to enter, and is then written. *)
Lemma move_on_ok d ids i l f propogate :
  wf4 L L L L off d ids -> states_ok L d -> i ∈ L -> lease_store d !! i = Some l -> parts (f (data l)) = parts (data l) -> 1 <= next_binding_state (f (data l)) <= 7 ->
  exists d1 ok d' ids' l', change d i f = Done d1 /\ supersede_lease cur_time nosync d1 i None false propogate false false = Done (ok, None, d') /\
    wf4 L L L L off d' ids' /\ states_ok L d' /\ same_peers d d' /\ lease_store d' !! i = Some l' /\
    (cur_time <= ends (f (data l)) \/ (forall pr, following pr (next_binding_state (f (data l))) = next_binding_state (f (data l))) ->
       binding_state (data l') = next_binding_state (f (data l)) /\ holder (data l') = holder (f (data l)) /\ steady_but i (lease_store d) (lease_store d')).
Proof.
  intros Hw Hs Hi E Hp Hn. destruct (change_ok L L L L off d ids i l f Hw E Hp) as (d1 & Ec & W1 & P1 & S1).
  assert (E1 : lease_store d1 !! i = Some (set_data (f (data l)) l)) by (rewrite S1; apply lookup_insert_eq).
  assert (St1 : states_ok L d1).
  { intros j lj Hj Ej. destruct (decide (j = i)) as [->|N]; [by replace lj with (set_data (f (data l)) l) by congruence|].
    rewrite S1, lookup_insert_ne in Ej by done. by apply (Hs j lj). }
  destruct (move_and_expire_ok cur_time nosync L off d1 ids i _ None None false propogate false false W1 St1 Hi E1 eq_refl)
    as (ok & d2 & ids2 & l2 & p & pl & E2 & W2 & St2 & Pe2 & El2 & Ep2 & Hp2 & Harr).
  exists d1, ok, d2, ids2, l2. split; [done|]. split; [exact E2|]. split; [done|]. split; [done|]. split; [intros q plq Eq; apply Pe2; by rewrite P1|]. split; [done|].
  intros Hf. destruct Harr as [Ha Sb]; [destruct Hf as [Hf|Hf]; [by left|right; right; apply Hf]|]. simpl in Ha. split; [apply (ar_state _ _ _ _ Ha)|]. split.
  - unfold holder. by rewrite (ar_uid _ _ _ _ Ha), (ar_hw _ _ _ _ Ha), (ar_ends _ _ _ _ Ha).
  - eapply steady_but_trans; [|exact Sb]. rewrite S1. by eapply insert_steady_but.
Qed.

Lemma give_to_peer_ok d ids i l :
  wf4 L L L L off d ids -> states_ok L d -> i ∈ L -> lease_store d !! i = Some l ->
  exists d' ids' l', give_to_peer cur_time nosync d i = Done d' /\ wf4 L L L L off d' ids' /\ states_ok L d' /\ same_peers d d' /\ lease_store d' !! i = Some l' /\
    binding_state (data l') = FTS_BACKUP /\ holder (data l') = holder (data l) /\ steady_but i (lease_store d) (lease_store d').
Proof.
  intros Hw Hs Hi E. set (f := fun l => set_starts cur_time (set_tstp cur_time (set_next_binding_state FTS_BACKUP l))).
  destruct (move_on_ok d ids i l f true Hw Hs Hi E eq_refl) as (d0 & ok & d1 & ids1 & l1 & Ec & E1 & W1 & S1 & P1 & El1 & H1); [done|].
  destruct H1 as (B1 & Ho1 & Sb1); [by right|]. unfold give_to_peer, supersede_and_write. fold f. rewrite Ec. dred. rewrite E1. dred.
  destruct ok; [|dred; exists d1, ids1, l1; by split_and!]. destruct (write_ok d1 ids1 i l1 W1 El1) as (ok2 & d2 & -> & G2). dred.
  destruct (gentle_holder _ _ _ _ _ G2 El1) as (l2 & E2 & Ho2 & B2 & _). exists d2, ids1, l2. split; [done|]. split; [apply G2|].
  split; [by eapply gentle_states|]. split; [intros p pl Ep; rewrite (proj2 (proj2 G2)); by apply P1|]. split; [done|]. split; [by rewrite B2, B1|]. split; [by rewrite Ho2, Ho1|].
  eapply steady_but_trans; [exact Sb1|]. by eapply gentle_but.
Qed.

Lemma not_hoarding_ok d ids i l : wf4 L L L L off d ids -> i ∈ L -> lease_store d !! i = Some l -> exists b, not_hoarding max_lease_ownership d i = Done b.
Proof.
  intros Hw Hi E. unfold not_hoarding. rewrite (lease_at_Done _ _ _ E). dred.
  destruct (qo_all _ _ _ _ _ (wf_queues _ _ _ _ _ _ _ Hw) i Hi) as (l0 & p & pl & k & E0 & Hp & Ep & _). replace l with l0 by congruence.
  rewrite Hp, (pool_at_Done _ _ _ Ep). dred. by eexists.
Qed.

(** The lease goes to the peer if it should and may. *)
Lemma maybe_give_ok d ids i l (wants : bool) (after : db (W := W) -> db (W := W)) :
  wf4 L L L L off d ids -> states_ok L d -> i ∈ L -> lease_store d !! i = Some l ->
  (forall d ids, wf4 L L L L off d ids -> gentle d (after d) ids) ->
  exists d' ids' l', (gives ← (if wants then not_hoarding max_lease_ownership d i else Done false);
                      if gives : bool then d ← give_to_peer cur_time nosync d i; Done (after d) else Done d) = Done d' /\
    wf4 L L L L off d' ids' /\ states_ok L d' /\ same_peers d d' /\ lease_store d' !! i = Some l' /\
    (binding_state (data l') = binding_state (data l) \/ wants = true /\ binding_state (data l') = FTS_BACKUP) /\
    holder (data l') = holder (data l) /\ steady_but i (lease_store d) (lease_store d').
Proof.
  intros Hw Hs Hi E Hafter. assert (exists b, (if wants then not_hoarding max_lease_ownership d i else Done false) = Done b /\ (b = true -> wants = true)) as (b & -> & Hb).
  { destruct wants; [|by exists false]. destruct (not_hoarding_ok d ids i l Hw Hi E) as [b ->]. by exists b. }
  dred. destruct b; [|exists d, ids, l; split; [done|]; split; [done|]; split; [done|]; split; [intros q plq Eq; eauto|]; split; [done|]; split; [by left|]; split; [done|by apply steady_any]].
  destruct (give_to_peer_ok d ids i l Hw Hs Hi E) as (d1 & ids1 & l1 & -> & W1 & S1 & P1 & E1 & B1 & Ho1 & Sb1). dred.
  pose proof (Hafter d1 ids1 W1) as G2. destruct (gentle_holder _ _ _ _ _ G2 E1) as (l2 & E2 & Ho2 & B2 & _). exists (after d1), ids1, l2.
  split; [done|]. split; [apply G2|]. split; [by eapply gentle_states|]. split; [intros p pl Ep; rewrite (proj2 (proj2 G2)); by apply P1|].
  split; [done|]. split; [right; split; [auto|congruence]|]. split; [congruence|]. eapply steady_but_trans; [exact Sb1|]. by eapply gentle_but.
Qed.

(** What the lease is once the update has been accepted. *)
Definition taken (lt : ldata) (send_to_backup : bool) (x : ldata) : Prop :=
  (binding_state x = next_binding_state lt \/ send_to_backup = true /\ binding_state x = FTS_BACKUP) /\ holder x = holder lt.

Lemma install_ok d ids i l m lt wants :
  wf4 L L L L off d ids -> states_ok L d -> i ∈ L -> lease_store d !! i = Some l -> sample_ok d lt -> has_flag lt STATIC_LEASE = false ->
  exists v d' ids', install cur_time nosync max_lease_ownership d i m lt wants = Done (v, d') /\ wf4 L L L L off d' ids' /\ states_ok L d' /\ same_peers d d' /\
    (v = Rejected FTR_MISC_REJECT \/ v = Acknowledged) /\
    (v = Acknowledged -> exists l', lease_store d' !! i = Some l' /\
       (cur_time <= ends lt \/ (forall pr, following pr (next_binding_state lt) = next_binding_state lt) ->
          taken lt wants (data l') /\ steady_but i (lease_store d) (lease_store d'))).
Proof.
  intros Hw Hs Hi E Hsm Hst. unfold install, supersede_and_write.
  destruct (gentle_change d ids i l (set_rewind_binding_state (next_binding_state lt)) Hw E eq_refl) as (d1 & E1 & G1). rewrite E1. dred.
  destruct (gentle_lookup _ _ _ _ _ G1 E) as (l1 & El1 & _).
  assert (Hsm1 : sample_ok d1 lt). { rewrite (change_Done _ _ _ _ E) in E1. injection E1 as <-. exact Hsm. }
  destruct (supersede_new_ok cur_time nosync L off d1 ids i l1 lt false false false false (proj1 G1) (gentle_states _ _ _ G1 Hs) Hi El1 Hsm1 eq_refl Hst)
    as (ok & lt' & d2 & ids2 & l2 & p & pl & -> & W2 & S2 & P2 & E2 & Ep & Hp & Hmv). dred.
  assert (P12 : same_peers d d2) by (intros q plq Eq; apply P2; by rewrite (proj2 (proj2 G1))).
  assert (exists ok3 d3, (if ok then write d2 i else Done (false, d2)) = Done (ok3, d3) /\ gentle d2 d3 ids2) as (ok3 & d3 & -> & G3).
  { destruct ok; [by eapply write_ok|]. exists false, d2. split; [done|by apply gentle_refl]. }
  dred. set (m' := set_binding_status _ m). destruct ok3; cbn [negb].
  2:{ eexists _, _, ids2. split; [done|]. pose proof (gentle_trans _ _ _ _ G3 (gentle_set_world d3 ids2 (send_bind_ack (world d3) m' FTR_MISC_REJECT) (proj1 G3))) as G4.
      split; [apply G4|]. split; [by eapply gentle_states|]. split; [intros q plq Eq; rewrite (proj2 (proj2 G4)); by apply P12|]. split; [by left|done]. }
  cbv zeta. set (d4 := set_world _ d3). pose proof (gentle_trans _ _ _ _ G3 (gentle_set_world d3 ids2 (queue_ack (world d3) m') (proj1 G3))) as G4. fold d4 in G4.
  destruct (gentle_holder _ _ _ _ _ G4 E2) as (l4 & E4 & Ho4 & B4 & _).
  destruct (maybe_give_ok d4 ids2 i l4 wants (fun d => with_world d (send_updates (world d) (lease_store d))) (proj1 G4) (gentle_states _ _ _ G4 S2) Hi E4)
    as (d5 & ids5 & l5 & E5 & W5 & S5 & P5 & El5 & B5 & Ho5 & Sb5). { intros d' ids' W'. apply gentle_world; [done|]. apply send_kept. }
  destruct (if wants then not_hoarding max_lease_ownership d4 i else Done false) as [gives| | |]; try done. rewrite !bind_ret in E5. rewrite bind_ret. rewrite E5. dred.
  exists Acknowledged, d5, ids5. split; [done|]. split; [done|]. split; [done|]. split.
  { intros q plq Eq. destruct (P12 q plq Eq) as (pl2 & Ep2 & Hp2). rewrite <- (proj2 (proj2 G4)) in Ep2. destruct (P5 q pl2 Ep2) as (pl5 & Ep5 & Hp5). exists pl5. split; [done|congruence]. }
  split; [by right|]. intros _. exists l5. split; [done|]. intros Hc. destruct Hmv as (M1 & _ & M3 & M4 & M5 & _ & Sb2); [destruct Hc; auto|]. split.
  - split; [|rewrite Ho5, Ho4; unfold holder; by rewrite M3, M4, M5]. rewrite B4, M1 in B5. exact B5.
  - eapply steady_but_trans; [by eapply gentle_but|]. eapply steady_but_trans; [exact Sb2|]. eapply steady_but_trans; [|exact Sb5]. by eapply gentle_but.
Qed.

(** ** A binding update *)
Definition granted (s : Z) : Z := if bool_decide (s ∈ [FTS_EXPIRED; FTS_RELEASED; FTS_RESET]) then FTS_FREE else s.
Definition in_normal : bool := bool_decide (me_state state = normal).
Abbreviation grants_now := (grants cur_time (i_am state) in_normal).

Lemma granted_valid s : is_valid s = true -> 1 <= granted s <= 7.
Proof. intros H%valid_range. unfold granted. destruct (bool_decide _); [by vm_compute|done]. Qed.
Lemma granted_settled s pr : is_valid s = true -> s ∉ [FTS_ACTIVE; FTS_ABANDONED] -> following pr (granted s) = granted s.
Proof. intros H%valid_range. revert s H. apply (seven (fun s => s ∉ [FTS_ACTIVE; FTS_ABANDONED] -> following pr (granted s) = granted s)); intros H; try reflexivity; exfalso; apply H; apply (bool_decide_unpack _); by vm_compute. Qed.

Lemma conclude_ok d ids i l m lt :
  wf4 L L L L off d ids -> i ∈ L -> lease_store d !! i = Some l -> pool lt = pool (data l) -> is_valid (binding_status m) = true ->
  (forall p, sound_balance (balance_of p)) -> Forall byte (uid_key lt) -> Forall byte (hardware_addr lt) ->
  exists r, conclude cur_time state balance_of d (data l) m lt = Done r /\
    (grants_now (data l) m = false -> r = inl FTR_FATAL_CONFLICT) /\
    (grants_now (data l) m = true -> exists wants, r = inr (set_next_binding_state (granted (binding_status m)) lt, wants) /\
       (wants = true -> i_am state = primary /\ binding_status m ∈ [FTS_EXPIRED; FTS_RELEASED; FTS_RESET])).
Proof.
  intros Hw Hi E Hp Hv Hb Hu Hh. unfold conclude, new_state. fold in_normal.
  destruct (qo_all _ _ _ _ _ (wf_queues _ _ _ _ _ _ _ Hw) i Hi) as (l0 & p & pl & k & E0 & Hpl & Ep & Hk & _). replace l0 with l in * by congruence.
  rewrite (checks_grant cur_time (i_am state) in_normal (data l) m Hv) by (by eapply queue_of_valid). dred.
  destruct (grants_now (data l) m) eqn:Eg.
  - rewrite Z.eqb_refl. cbn [negb]. unfold granted. case_bool_decide as Hx.
    + assert (exists b, pool_wants_back balance_of d lt = Done b) as [b Eb].
      { unfold pool_wants_back. rewrite Hp, Hpl, (pool_at_Done _ _ _ Ep). dred. destruct (failover_peer pl); [|by eexists]. by apply peer_wants_ok. }
      destruct (bool_decide (i_am state = primary) && _) eqn:Er; [rewrite Eb|]; dred; eexists; (split; [done|split; [done|intros _]]).
      * exists b. split; [done|]. intros _. apply andb_true_iff in Er as [Er%bool_decide_eq_true _]. done.
      * by exists false.
    + eexists. split; [done|]. split; [done|]. intros _. by exists false.
  - assert ((binding_state (data l) =? binding_status m) = false) as ->.
    { unfold grants in Eg. apply orb_false_iff in Eg as [Eg _]. by rewrite Z.eqb_sym. }
    eexists. split; [done|]. split; [done|]. done.
Qed.

(** What has become of the database, and of the lease if the update has been
    accepted. *)
Definition updated d d' (i : nat) (l : lease ldata) (m : bndupd) : Prop :=
  exists l', lease_store d' !! i = Some l' /\
    (cur_time <= new_ends m (data l) \/ binding_status m ∉ [FTS_ACTIVE; FTS_ABANDONED] ->
       (binding_state (data l') = granted (binding_status m) \/
        i_am state = primary /\ binding_status m ∈ [FTS_EXPIRED; FTS_RELEASED; FTS_RESET] /\ binding_state (data l') = FTS_BACKUP) /\
       ends (data l') = new_ends m (data l) /\
       (present m FTB_CHADDR = true -> hardware_addr (data l') = m_chaddr m) /\
       (present m FTB_CLIENT_IDENTIFIER = true -> uid_key (data l') = m_client_identifier m) /\
       steady_but i (lease_store d) (lease_store d')).
Definition answered d d' (i : nat) (l : lease ldata) (m : bndupd) (v : verdict) : Prop :=
  match v with
  | Rejected r => r <> FTR_MISC_REJECT \/ grants_now (data l) m = false -> steady (lease_store d) (lease_store d')
  | Acknowledged => grants_now (data l) m = true /\ updated d d' i l m
  end.

Lemma reject_ok d0 d ids i l m r : gentle d0 d ids -> states_ok L d0 ->
  exists v d', reject d m r = Done (v, d') /\ wf4 L L L L off d' ids /\ states_ok L d' /\ same_peers d0 d' /\ answered d0 d' i l m v.
Proof.
  intros G Hs. unfold reject. eexists (Rejected r), _. split; [done|]. pose proof (gentle_trans _ _ _ _ G (gentle_set_world d ids (send_bind_ack (world d) m r) (proj1 G))) as G2.
  split; [apply G2|]. split; [by eapply gentle_states|]. split; [intros p pl Ep; rewrite (proj2 (proj2 G2)); eauto|]. intros _. apply (gentle_calm _ _ _ G2).
Qed.

Lemma updated_calm d0 d d' i l m lt wants :
  steady (lease_store d0) (lease_store d) -> is_valid (binding_status m) = true ->
  (wants = true -> i_am state = primary /\ binding_status m ∈ [FTS_EXPIRED; FTS_RELEASED; FTS_RESET]) ->
  next_binding_state lt = granted (binding_status m) -> ends lt = new_ends m (data l) ->
  (present m FTB_CHADDR = true -> hardware_addr lt = m_chaddr m) -> (present m FTB_CLIENT_IDENTIFIER = true -> uid_key lt = m_client_identifier m) ->
  (exists l', lease_store d' !! i = Some l' /\
     (cur_time <= ends lt \/ (forall pr, following pr (next_binding_state lt) = next_binding_state lt) -> taken lt wants (data l') /\ steady_but i (lease_store d) (lease_store d'))) ->
  updated d0 d' i l m.
Proof.
  intros Sd Hv Hwants Hn He Hh Hu (l' & E' & Ht). exists l'. split; [done|]. intros Hc.
  destruct Ht as [[Hb Ho] Sb]. { destruct Hc as [Hc|Hc]; [left; by rewrite He|right]. intros pr. rewrite Hn. by apply granted_settled. }
  unfold holder in Ho. assert (uid_key (data l') = uid_key lt /\ hardware_addr (data l') = hardware_addr lt /\ ends (data l') = ends lt) as (-> & -> & ->) by (split_and!; congruence).
  split; [|split; [done|split; [done|split; [done|]]]].
  - destruct Hb as [Hb|[Hx Hb]]; [left; congruence|right]. destruct (Hwants Hx). done.
  - eapply steady_but_trans; [by apply steady_any|done].
Qed.

Lemma with_memory_ok d0 d ids i l m needed k : gentle d0 d ids -> states_ok L d0 ->
  (forall d1, gentle d0 d1 ids -> lease_store d1 = lease_store d ->
    exists v d' ids', k d1 = Done (v, d') /\ wf4 L L L L off d' ids' /\ states_ok L d' /\ same_peers d0 d' /\ answered d0 d' i l m v) ->
  exists v d' ids', with_memory needed d m k = Done (v, d') /\ wf4 L L L L off d' ids' /\ states_ok L d' /\ same_peers d0 d' /\ answered d0 d' i l m v.
Proof.
  intros G Hs Hk. unfold with_memory. destruct needed; [|by apply Hk]. destruct (peer_memory (world d)) as [ok w].
  pose proof (gentle_trans _ _ _ _ G (gentle_set_world d ids w (proj1 G))) as G2. destruct ok; [by apply Hk|].
  destruct (reject_ok d0 _ ids i l m FTR_MISC_REJECT G2 Hs) as (v & d' & H). by exists v, d', ids.
Qed.

Lemma mark_up_ok d0 d ids i l0 l m :
  gentle d0 d ids -> states_ok L d0 -> i ∈ L -> lease_store d0 !! i = Some l0 -> lease_store d !! i = Some l ->
  sound_lease (data l) -> sound_update m -> (forall p, sound_balance (balance_of p)) ->
  core (data l) = core (data l0) ->
  exists v d' ids', mark_up cur_time nosync state balance_of max_lease_ownership d i m = Done (v, d') /\
    wf4 L L L L off d' ids' /\ states_ok L d' /\ same_peers d0 d' /\ answered d0 d' i l0 m v.
Proof.
  intros G Hs Hi E0 E [S1 S2 S3 S4] [U1 U2 U3] Hb Hcore. unfold mark_up. rewrite (lease_at_Done _ _ _ E). dred.
  assert (Hrej : forall d2 r, gentle d0 d2 ids -> exists v d' ids', reject d2 m r = Done (v, d') /\ wf4 L L L L off d' ids' /\ states_ok L d' /\ same_peers d0 d' /\ answered d0 d' i l0 m v).
  { intros d2 r G2. destruct (reject_ok d0 d2 ids i l0 m r G2 Hs) as (v & d' & H). by exists v, d', ids. }
  apply (with_memory_ok d0 d ids); [done|done|]. intros da Ga Sa. rewrite <- Sa in E.
  destruct (take_chaddr m (lease_copy (data l))) as [r|[lt1 cc]] eqn:E1; [by apply Hrej|]. apply take_chaddr_ok in E1 as (B1 & N1 & K1 & H1).
  destruct (take_uid m lt1) as [r|[lt2 ic]] eqn:E2; [by apply Hrej|]. apply take_uid_ok in E2 as (B2 & N2 & H2 & K2 & K2' & L2).
  apply (with_memory_ok d0 da ids); [done|done|]. clear d G Sa. intros d G Sd. rewrite <- Sd in E.
  clear da Ga Sd.
  assert (exists d2, (if (binding_status m =? FTS_ACTIVE) && (cc || ic) then forget_names d i else Done d) = Done d2 /\ gentle d d2 ids) as (d2 & -> & G2).
  { destruct (_ && (cc || ic)); [by apply (forget_names_ok d ids i l (proj1 G))|]. exists d. split; [done|by apply gentle_refl, G]. }
  dred. pose proof (gentle_trans _ _ _ _ G G2) as G02. destruct (gentle_lookup _ _ _ _ _ G2 E) as (l2 & E2 & C2). rewrite (lease_at_Done _ _ _ E2). dred.
  destruct (take_flags (i_am state) (data l2) m (take_times m lt2)) as [r|lt3] eqn:E3; [by apply Hrej|].
  apply take_flags_ok in E3 as (B3 & N3 & K3 & H3). destruct (take_times_ok m lt2) as (B4 & N4 & K4 & H4).
  assert (Hbase : base lt3 = base (data l)) by (rewrite B3, B4, B2, B1; done).
  assert (Hends : ends lt3 = new_ends m (data l0)).
  { rewrite N3, N4. unfold new_ends. destruct (present m FTB_LEASE_EXPIRY); [done|]. rewrite N2, N1. unfold core in Hcore. simpl. congruence. }
  assert (Huid : uid_key lt3 = uid_key lt2) by (unfold uid_key; by rewrite K3, K4).
  assert (Hhw : hardware_addr lt3 = hardware_addr lt1) by (rewrite H3, H4; exact H2).
  assert (Hub : Forall byte (uid_key lt3)).
  { rewrite Huid. destruct K2' as [->|[->| ->]]; [done| |constructor]. unfold uid_key. rewrite K1. exact S3. }
  assert (Hhb : Forall byte (hardware_addr lt3)).
  { rewrite Hhw, H1. destruct (present m FTB_CHADDR); [done|]. destruct (_ =? _); [constructor|done]. }
  assert (Hgr : grants_now (data l2) m = grants_now (data l0) m).
  { assert (Hc2 : core (data l2) = core (data l0)) by congruence. unfold core in Hc2. unfold grants, ends_use.
    replace (binding_state (data l2)) with (binding_state (data l0)) by congruence. by replace (ends (data l2)) with (ends (data l0)) by congruence. }
  destruct (conclude_ok d2 ids i l2 m lt3 (proj1 G02) Hi E2) as (r & -> & Hno & Hyes); [|done..|].
  { unfold base in Hbase. unfold core in C2. congruence. }
  dred. rewrite Hgr in Hno, Hyes. destruct (grants_now (data l0) m) eqn:Eg.
  2:{ rewrite (Hno eq_refl). by apply Hrej. }
  destruct (Hyes eq_refl) as (wants & -> & Hwants). set (lt := set_next_binding_state _ lt3).
  destruct (install_ok d2 ids i l2 m lt wants (proj1 G02) (gentle_states _ _ _ G02 Hs) Hi E2) as (v & d' & ids' & Ei & W' & S' & P' & Hv & Hack).
  - split; [|split; [|by apply granted_valid]].
    + intros b. unfold lt. simpl. rewrite K3, K4. apply L2. rewrite K1. exact S2.
    + intros c Hc. eapply bl_class; [apply (proj1 G02)|exact E2|]. unfold base in Hbase. unfold core in C2.
      assert (billing_class lt3 = Some c) by exact Hc. congruence.
  - unfold base in Hbase. change (has_flag lt3 STATIC_LEASE = false). congruence.
  - exists v, d', ids'. split; [done|]. split; [done|]. split; [done|].
    split. { intros p pl Ep. apply P'. by rewrite (proj2 (proj2 G02)). }
    destruct Hv as [->| ->]; simpl.
    + intros [[]|Hf]; [done|congruence].
    + split; [done|]. apply (updated_calm d0 d2 d' i l0 m lt wants); [apply (gentle_calm _ _ _ G02)|done|done|done|done| | |by apply Hack].
      * intros Hp. change (hardware_addr lt3 = m_chaddr m). rewrite Hhw, H1, Hp. done.
      * intros Hp. change (uid_key lt3 = m_client_identifier m). rewrite Huid. by apply K2.
Qed.

Lemma better_total role l m : is_valid (desired_binding_state l) = true -> exists b, failover_lease_is_better role l m = Done b.
Proof.
  intros H%valid_range. unfold failover_lease_is_better.
  assert ((if binding_state l =? desired_binding_state l then binding_state l else desired_binding_state l) = desired_binding_state l) as ->.
  { by destruct (Z.eqb_spec (binding_state l) (desired_binding_state l)). }
  cbv zeta. generalize (if present m FTB_CLTT then m_cltt m else 0). intros c. revert H. generalize (desired_binding_state l). apply seven; simpl; eauto.
  destruct (binding_status m =? FTS_ACTIVE); [eauto|]. destruct (binding_status m =? FTS_EXPIRED); eauto.
Qed.

(** The database when the update arrives. *)
Record ready d ids : Prop := {
  rd_wf : wf4 L L L L off d ids;
  rd_states : states_ok L d;
  rd_sound : forall i l, i ∈ L -> lease_store d !! i = Some l -> sound_lease (data l);
  rd_sent : forall i l, i ∈ L -> lease_store d !! i = Some l -> has_flag (data l) ON_ACK_QUEUE = true -> is_valid (desired_binding_state (data l)) = true;
  rd_balance : forall p, sound_balance (balance_of p) }.

Abbreviation bind_update := (process_bind_update cur_time nosync state mine balance_of max_lease_ownership).

Lemma found_update_ok d ids i l m : ready d ids -> i ∈ L -> lease_store d !! i = Some l -> sound_update m ->
  exists v d' ids', bind_update d (Some i) m = Done (v, d') /\ wf4 L L L L off d' ids' /\ states_ok L d' /\ same_peers d d' /\
    answered d d' i l m v /\ (v = Acknowledged -> exists p, pool (data l) = Some p /\ mine p = true).
Proof.
  intros [Hw Hs Hsl Hsent Hb] Hi E Hm. unfold process_bind_update.
  assert (Hrej : forall r, exists v d' ids', reject d m r = Done (v, d') /\ wf4 L L L L off d' ids' /\ states_ok L d' /\ same_peers d d' /\
    answered d d' i l m v /\ (v = Acknowledged -> exists p, pool (data l) = Some p /\ mine p = true)).
  { intros r. destruct (reject_ok d d ids i l m r (gentle_refl _ _ Hw) Hs) as (v & d' & Er & H1 & H2 & H3 & H4). exists v, d', ids. unfold reject in Er |- *. split; [done|].
    split; [done|]. split; [done|]. split; [done|]. split; [done|]. intros ->. done. }
  destruct (negb _); [apply Hrej|]. rewrite (lease_at_Done _ _ _ E). dred. destruct (pool (data l)) as [p|] eqn:Hp; [|apply Hrej].
  destruct (mine p) eqn:Hmine; cbn [negb]; [|apply Hrej].
  assert (exists b, (if has_flag (data l) ON_ACK_QUEUE then failover_lease_is_better (i_am state) (data l) m else Done false) = Done b) as [b ->].
  { destruct (has_flag (data l) ON_ACK_QUEUE) eqn:Ef; [|by eexists]. by apply better_total, (Hsent i l). }
  dred. destruct b; [apply Hrej|]. destruct (leave_ack_queue_ok d ids i l Hw E) as (d1 & -> & G1). dred.
  destruct (gentle_lookup _ _ _ _ _ G1 E) as (l1 & E1 & C1).
  destruct (mark_up_ok d d1 ids i l l1 m G1 Hs Hi E E1) as (v & d' & ids' & H1 & H2 & H3 & H4 & H5); [by eapply core_sound; [|by eapply Hsl]|done..|].
  exists v, d', ids'. split; [done|]. split; [done|]. split; [done|]. split; [done|]. split; [done|]. eauto.
Qed.


(** C25: A lease that is in use and has more than the allowance of 65 seconds to
    run stays as it is, with its client, when the peer says that it has expired
    or is free again, except that a secondary in normal state believes the
    primary that it is free once the time that the message gives has come. *)
Theorem running_lease_kept d ids i l m :
  ready d ids -> i ∈ L -> lease_store d !! i = Some l -> sound_update m ->
  binding_state (data l) = FTS_ACTIVE -> binding_status m ∈ [FTS_FREE; FTS_BACKUP; FTS_EXPIRED] -> cur_time < ends (data l) - 65 ->
  (in_normal = false \/ i_am state = primary \/ cur_time < m_potential_expiry m) ->
  exists r d' ids', bind_update d (Some i) m = Done (Rejected r, d') /\ wf4 L L L L off d' ids' /\ states_ok L d' /\ steady (lease_store d) (lease_store d').
Proof.
  intros Hr Hi E Hm Ha Hst Hlt Hor. destruct (found_update_ok d ids i l m Hr Hi E Hm) as (v & d' & ids' & H1 & H2 & H3 & _ & H5 & _).
  assert (Hg : grants_now (data l) m = false).
  { unfold grants, ends_use. rewrite Ha. rewrite (proj2 (Z.leb_gt (ends (data l) - 65) cur_time)) by lia.
    assert (Hn : in_normal && bool_decide (i_am state = primary) = false -> in_normal && (m_potential_expiry m <=? cur_time) = false).
    { intros Hx. destruct in_normal; [|done]. apply Z.leb_gt. destruct Hor as [|[Hp|]]; [done| |lia]. rewrite Hp in Hx. by rewrite bool_decide_true in Hx. }
    destruct (in_normal && bool_decide (i_am state = primary)) eqn:Ep; repeat (apply elem_of_cons in Hst as [->|Hst]; [try reflexivity|]); try (by apply not_elem_of_nil in Hst);
      specialize (Hn eq_refl); destruct in_normal, (m_potential_expiry m <=? cur_time); try done; reflexivity. }
  destruct v as [r|]; [|destruct H5; congruence]. exists r, d', ids'. split; [done|]. split; [done|]. split; [done|]. apply H5. by right.
Qed.

(** ** The answer of the peer *)
Lemma unqueue_ok d ids i l wants :
  wf4 L L L L off d ids -> states_ok L d -> i ∈ L -> lease_store d !! i = Some l ->
  exists d' ids' l', unqueue cur_time nosync state max_lease_ownership d i wants = Done d' /\ wf4 L L L L off d' ids' /\ states_ok L d' /\ same_peers d d' /\
    lease_store d' !! i = Some l' /\ (binding_state (data l') = binding_state (data l) \/ wants = true /\ binding_state (data l') = FTS_BACKUP) /\
    holder (data l') = holder (data l) /\ steady_but i (lease_store d) (lease_store d') /\ (wants = false -> steady (lease_store d) (lease_store d')).
Proof.
  intros Hw Hs Hi E. unfold unqueue. destruct (leave_ack_queue_ok d ids i l Hw E) as (d1 & -> & G1). dred. cbv zeta. set (d2 := set_world _ d1).
  pose proof (gentle_trans _ _ _ _ G1 (gentle_set_world d1 ids (update_done_after (world d1) i) (proj1 G1))) as G2. fold d2 in G2.
  destruct (gentle_holder _ _ _ _ _ G2 E) as (l2 & E2 & Ho2 & B2 & _). set (after := fun d : db (W := W) => if bool_decide (me_state state = normal) then set_world (commit_leases (world d)).2 d else d).
  assert (Hlast : forall d0 ids0, wf4 L L L L off d0 ids0 -> gentle d0 (with_world d0 (send_updates (world d0) (lease_store d0))) ids0) by (intros d0 ids0 W0; apply gentle_world; [done|apply send_kept]).
  destruct (maybe_give_ok d2 ids i l2 wants after (proj1 G2) (gentle_states _ _ _ G2 Hs) Hi E2) as (d3 & ids3 & l3 & E3 & W3 & S3 & P3 & El3 & B3 & Ho3 & Sb3).
  { intros d0 ids0 W0. unfold after. destruct (bool_decide _); [by apply gentle_set_world|by apply gentle_refl]. }
  assert (Hcalm : wants = false -> d3 = d2) by (intros ->; rewrite bind_ret in E3; by injection E3).
  destruct (if wants then not_hoarding max_lease_ownership d2 i else Done false) as [gives| | |]; try done. rewrite !bind_ret in E3. rewrite bind_ret. unfold after in E3. rewrite E3. dred.
  pose proof (Hlast d3 ids3 W3) as G4. destruct (gentle_holder _ _ _ _ _ G4 El3) as (l4 & E4 & Ho4 & B4 & _). eexists _, ids3, l4. split; [done|]. split; [apply G4|].
  split; [by eapply gentle_states|]. split. { intros p pl Ep. rewrite <- (proj2 (proj2 G2)) in Ep. rewrite (proj2 (proj2 G4)). by apply P3. }
  split; [done|]. split; [rewrite B4, <- B2; exact B3|]. split; [congruence|]. split.
  - eapply steady_but_trans; [by eapply gentle_but|]. eapply steady_but_trans; [exact Sb3|]. by eapply gentle_but.
  - intros Hx. etransitivity; [apply (gentle_calm _ _ _ G2)|]. rewrite <- (Hcalm Hx). apply (gentle_calm _ _ _ G4).
Qed.

Lemma written_ok d0 d ids i l : wf4 L L L L off d ids -> states_ok L d -> same_peers d0 d -> lease_store d !! i = Some l ->
  exists ok d' l', write d i = Done (ok, d') /\ wf4 L L L L off d' ids /\ states_ok L d' /\ same_peers d0 d' /\ lease_store d' !! i = Some l' /\
    core (data l') = core (data l) /\ steady (lease_store d) (lease_store d').
Proof.
  intros Hw Hs Hp E. destruct (write_ok d ids i l Hw E) as (ok & d' & -> & G). destruct (gentle_lookup _ _ _ _ _ G E) as (l' & E' & C). exists ok, d', l'.
  split; [done|]. split; [apply G|]. split; [by eapply gentle_states|]. split; [intros p pl Ep; rewrite (proj2 (proj2 G)); by apply Hp|]. split; [done|]. split; [done|]. apply (gentle_calm _ _ _ G).
Qed.

Lemma core_holder x x' : core x' = core x -> holder x' = holder x /\ binding_state x' = binding_state x.
Proof.
  unfold core, holder, uid_key. intros E. replace (uid x') with (uid x) by congruence. split; [|congruence].
  replace (hardware_addr x') with (hardware_addr x) by congruence. by replace (ends x') with (ends x) by congruence.
Qed.

Lemma stays_ok d ids i l pot :
  wf4 L L L L off d ids -> states_ok L d -> i ∈ L -> lease_store d !! i = Some l -> is_valid (desired_binding_state (data l)) = true ->
  exists d' ids' l', stays cur_time nosync d i pot = Done d' /\ wf4 L L L L off d' ids' /\ states_ok L d' /\ same_peers d d' /\ lease_store d' !! i = Some l' /\
    (cur_time <= ends (data l) \/ desired_binding_state (data l) = binding_state (data l) \/ desired_binding_state (data l) ∈ [FTS_FREE; FTS_BACKUP] ->
       binding_state (data l') = desired_binding_state (data l) /\ holder (data l') = holder (data l) /\ steady_but i (lease_store d) (lease_store d')).
Proof.
  intros Hw Hs Hi E Hv%valid_range. unfold stays.
  destruct (change_ok L L L L off d ids i l (fun l => set_atsfp pot (set_tsfp pot l)) Hw E eq_refl) as (d1 & -> & W1 & P1 & S1). dred.
  assert (E1 : lease_store d1 !! i = Some (set_data (set_atsfp pot (set_tsfp pot (data l))) l)) by (rewrite S1; apply lookup_insert_eq).
  set (l1 := set_data _ l) in *. assert (Sb1 : steady_but i (lease_store d) (lease_store d1)) by (rewrite S1; by eapply insert_steady_but).
  assert (St1 : states_ok L d1).
  { intros j lj Hj Ej. destruct (decide (j = i)) as [->|N]; [replace lj with l1 by congruence; by apply (Hs i l)|]. rewrite S1, lookup_insert_ne in Ej by done. by apply (Hs j lj). }
  rewrite (lease_at_Done _ _ _ E1). dred. change (desired_binding_state (data l1)) with (desired_binding_state (data l)). change (binding_state (data l1)) with (binding_state (data l)).
  assert (exists d2 ids2 l2, (if desired_binding_state (data l) =? binding_state (data l) then Done d1
    else d0 ← change d1 i (set_next_binding_state (desired_binding_state (data l))); '(_, _, d0) ← supersede_lease cur_time nosync d0 i None false false false false; Done d0) = Done d2 /\
    wf4 L L L L off d2 ids2 /\ states_ok L d2 /\ same_peers d d2 /\ lease_store d2 !! i = Some l2 /\
    (cur_time <= ends (data l) \/ desired_binding_state (data l) = binding_state (data l) \/ desired_binding_state (data l) ∈ [FTS_FREE; FTS_BACKUP] ->
       binding_state (data l2) = desired_binding_state (data l) /\ holder (data l2) = holder (data l) /\ steady_but i (lease_store d) (lease_store d2)))
    as (d2 & ids2 & l2 & -> & W2 & S2 & P2 & E2 & H2).
  { destruct (Z.eqb_spec (desired_binding_state (data l)) (binding_state (data l))) as [Ed|Nd].
    - exists d1, ids, l1. split; [done|]. split; [done|]. split; [done|]. split; [intros p pl Ep; rewrite P1; eauto|]. split; [done|]. intros _. by rewrite Ed.
    - destruct (move_on_ok d1 ids i l1 (set_next_binding_state (desired_binding_state (data l))) false W1 St1 Hi E1 eq_refl Hv)
        as (d0 & ok & d2 & ids2 & l2 & -> & Em & W2 & S2 & P2 & E2 & H2). dred. rewrite Em. dred. exists d2, ids2, l2. split; [done|]. split; [done|]. split; [done|].
      split; [intros p pl Ep; apply P2; by rewrite P1|]. split; [done|]. intros Hc. destruct H2 as (B2 & Ho2 & Sb2).
      + destruct Hc as [Hc|[Hc|Hc]]; [by left|done|]. right. intros pr. simpl. repeat (apply elem_of_cons in Hc as [->|Hc]; [done|]). by apply not_elem_of_nil in Hc.
      + split; [done|]. split; [done|]. by eapply steady_but_trans. }
  dred. destruct (written_ok d d2 ids2 i l2 W2 S2 P2 E2) as (ok & d3 & l3 & -> & W3 & S3 & P3 & E3 & C3 & Sd3). dred.
  pose proof (gentle_set_world d3 ids2 (commit_in_2s (world d3)) W3) as G4. eexists _, ids2, l3. split; [done|]. split; [apply G4|]. split; [by eapply gentle_states|].
  split; [done|]. split; [done|]. intros Hc. destruct (H2 Hc) as (B2 & Ho2 & Sb2), (core_holder _ _ C3) as [Ho3 B3]. split; [congruence|]. split; [congruence|].
  eapply steady_but_trans; [exact Sb2|]. by apply steady_any.
Qed.

(** The state of a lease that the peer has agreed to be free. *)
Definition free_state (l : ldata) : Z := if bool_decide (i_am state = secondary) && has_flag l RESERVED_LEASE then FTS_BACKUP else FTS_FREE.

Lemma back_to_free_ok d ids i l pot :
  wf4 L L L L off d ids -> states_ok L d -> i ∈ L -> lease_store d !! i = Some l -> sound_lease (data l) -> (forall p, sound_balance (balance_of p)) ->
  exists wants d' ids' l', back_to_free cur_time nosync state balance_of d i pot = Done (wants, d') /\ wf4 L L L L off d' ids' /\ states_ok L d' /\ same_peers d d' /\
    lease_store d' !! i = Some l' /\ (wants = true -> i_am state = primary) /\
    binding_state (data l') = free_state (data l) /\ holder (data l') = holder (data l) /\ steady_but i (lease_store d) (lease_store d').
Proof.
  intros Hw Hs Hi E [_ _ S3 S4] Hb. unfold back_to_free.
  match goal with |- context [change d i ?g] => set (f := g) end.
  assert (Hn : next_binding_state (f (data l)) = free_state (data l)) by done.
  assert (Hfr : free_state (data l) = FTS_FREE \/ free_state (data l) = FTS_BACKUP) by (unfold free_state; destruct (_ && _); auto).
  destruct (move_on_ok d ids i l f false Hw Hs Hi E eq_refl) as (d0 & ok & d1 & ids1 & l1 & -> & Em & W1 & S1 & P1 & E1 & H1).
  { rewrite Hn. by destruct Hfr as [-> | ->]. }
  dred. rewrite Em. dred. destruct H1 as (B1 & Ho1 & Sb1); [right; intros pr; rewrite Hn; by destruct Hfr as [-> | ->]|].
  destruct (written_ok d d1 ids1 i l1 W1 S1 P1 E1) as (ok2 & d2 & l2 & -> & W2 & S2 & P2 & E2 & C2 & Sd2). dred. rewrite (lease_at_Done _ _ _ E2). dred.
  destruct (core_holder _ _ C2) as [Ho2 B2]. assert (Hh : holder (data l2) = holder (data l)) by (rewrite Ho2, Ho1; done).
  assert (exists b, (if bool_decide (i_am state = primary) && (Z.land (flags (data l2)) (Z.lor RESERVED_LEASE BOOTP_LEASE) =? 0) then pool_wants_back balance_of d2 (data l2) else Done false) = Done b /\
    (b = true -> i_am state = primary)) as (wants & -> & Hwants).
  { destruct (bool_decide (i_am state = primary) && _) eqn:Er; [|by exists false]. apply andb_true_iff in Er as [Er%bool_decide_eq_true _].
    unfold pool_wants_back. destruct (qo_all _ _ _ _ _ (wf_queues _ _ _ _ _ _ _ W2) i Hi) as (l0 & p & pl & k & E0 & Hpl & Ep & _). replace l0 with l2 in * by congruence.
    rewrite Hpl, (pool_at_Done _ _ _ Ep). dred. destruct (failover_peer pl) as [pr|]; [|by exists false].
    destruct (peer_wants_ok (i_am pr) (balance_of p) (data l2)) as [b ->]; [done| | |by exists b].
    - unfold holder in Hh. by replace (uid_key (data l2)) with (uid_key (data l)) by congruence.
    - unfold holder in Hh. by replace (hardware_addr (data l2)) with (hardware_addr (data l)) by congruence. }
  dred. eexists wants, _, ids1, l2. split; [done|].
  assert (G3 : gentle d2 (if negb wants && bool_decide (me_state state = normal) then set_world (commit_leases (world d2)).2 d2 else d2) ids1) by (destruct (_ && _); [by apply gentle_set_world|by apply gentle_refl]).
  split; [apply G3|]. split; [by eapply gentle_states|]. split; [intros p pl Ep; rewrite (proj2 (proj2 G3)); by apply P2|].
  split; [by destruct (_ && _)|]. split; [done|]. split; [by rewrite B2, B1|]. split; [done|].
  eapply steady_but_trans; [exact Sb1|]. apply steady_any. etransitivity; [exact Sd2|]. apply (gentle_calm _ _ _ G3).
Qed.

Abbreviation bind_ack := (process_bind_ack cur_time nosync state balance_of max_lease_ownership).

(** The answer is about the last update of the lease. *)
Definition agrees (last_xid : Z) (m : bndupd) : bool := negb (present m FTB_REJECT_REASON) && negb (last_xid =? 0) && (last_xid =? m_xid m).

(** C28: The answer to an update is always dealt with and keeps the database in
    order.  If the peer agrees to the last update of the lease, the lease is then
    in the state that was announced: free (or the secondary's), if it had
    expired, or was released or reset, so that it can be given out only once
    both servers know; the client and the end of the lease stay, and no other
    lease changes.  An answer that refuses, or is about another update, changes
    no lease. *)
Theorem bind_ack_settles d ids found last_xid m :
  ready d ids -> (forall i, found = Some i -> i ∈ L) ->
  (forall i l, found = Some i -> lease_store d !! i = Some l -> last_xid <> 0 -> is_valid (desired_binding_state (data l)) = true) ->
  exists d' ids', bind_ack d found last_xid m = Done d' /\ wf4 L L L L off d' ids' /\ states_ok L d' /\ same_peers d d' /\
    (agrees last_xid m = false -> steady (lease_store d) (lease_store d')) /\
    (forall i l, agrees last_xid m = true -> found = Some i -> lease_store d !! i = Some l -> exists l', lease_store d' !! i = Some l' /\
       (desired_binding_state (data l) ∈ [FTS_EXPIRED; FTS_RESET; FTS_RELEASED] ->
          (binding_state (data l') = free_state (data l) \/ i_am state = primary /\ binding_state (data l') = FTS_BACKUP) /\
          holder (data l') = holder (data l) /\ steady_but i (lease_store d) (lease_store d')) /\
       (desired_binding_state (data l) ∉ [FTS_EXPIRED; FTS_RESET; FTS_RELEASED] ->
          cur_time <= ends (data l) \/ desired_binding_state (data l) = binding_state (data l) \/ desired_binding_state (data l) ∈ [FTS_FREE; FTS_BACKUP] ->
          binding_state (data l') = desired_binding_state (data l) /\ holder (data l') = holder (data l) /\ steady_but i (lease_store d) (lease_store d'))).
Proof.
  intros [Hw Hs Hsl _ Hb] Hf Hv. unfold process_bind_ack. destruct found as [i|].
  2:{ exists d, ids. split; [done|]. split; [done|]. split; [done|]. split; [intros p pl Ep; eauto|]. by split. }
  pose proof (Hf i eq_refl) as Hi. destruct (qo_all _ _ _ _ _ (wf_queues _ _ _ _ _ _ _ Hw) i Hi) as (l & _ & _ & _ & E & _).
  assert (Hun : agrees last_xid m = false -> exists d' ids', unqueue cur_time nosync state max_lease_ownership d i false = Done d' /\ wf4 L L L L off d' ids' /\ states_ok L d' /\ same_peers d d' /\
    steady (lease_store d) (lease_store d')).
  { intros _. destruct (unqueue_ok d ids i l false Hw Hs Hi E) as (d' & ids' & l' & H1 & H2 & H3 & H4 & _ & _ & _ & _ & H5). exists d', ids'. by auto 10. }
  destruct (agrees last_xid m) eqn:Ea.
  2:{ unfold agrees in Ea. destruct (present m FTB_REJECT_REASON); [|destruct (last_xid =? 0); [|destruct (last_xid =? m_xid m); [done|]]]; cbn [negb].
      - destruct (Hun eq_refl) as (d' & ids' & H1 & H2 & H3 & H4 & H5). exists d', ids'. by split_and!.
      - destruct (Hun eq_refl) as (d' & ids' & H1 & H2 & H3 & H4 & H5). exists d', ids'. by split_and!.
      - exists d, ids. split; [done|]. split; [done|]. split; [done|]. split; [intros p pl Ep; eauto|]. by split. }
  unfold agrees in Ea. apply andb_true_iff in Ea as [Ea ->]. apply andb_true_iff in Ea as [Ea1 Ea2]. rewrite (proj1 (negb_true_iff _) Ea1), (proj1 (negb_true_iff _) Ea2). cbn [negb].
  rewrite (lease_at_Done _ _ _ E). dred. cbv zeta. set (pot := if present m FTO_POTENTIAL_EXPIRY then _ else _). case_bool_decide as Hd.
  - destruct (back_to_free_ok d ids i l pot Hw Hs Hi E (Hsl i l Hi E) Hb) as (wants & d1 & ids1 & l1 & -> & W1 & S1 & P1 & E1 & Hwants & B1 & Ho1 & Sb1). dred.
    destruct (unqueue_ok d1 ids1 i l1 wants W1 S1 Hi E1) as (d2 & ids2 & l2 & -> & W2 & S2 & P2 & E2 & B2 & Ho2 & Sb2 & _).
    exists d2, ids2. split; [done|]. split; [done|]. split; [done|]. split; [by etransitivity|]. split; [done|]. intros j lj _ [= <-] Ej. replace lj with l in * by congruence.
    exists l2. split; [done|]. split; [|done]. intros _. split; [|split; [congruence|by eapply steady_but_trans]].
    destruct B2 as [B2|[Hx B2]]; [left; congruence|right; auto].
  - apply negb_true_iff, Z.eqb_neq in Ea2.
    destruct (stays_ok d ids i l pot Hw Hs Hi E (Hv i l eq_refl E Ea2)) as (d1 & ids1 & l1 & -> & W1 & S1 & P1 & E1 & H1). dred.
    destruct (unqueue_ok d1 ids1 i l1 false W1 S1 Hi E1) as (d2 & ids2 & l2 & -> & W2 & S2 & P2 & E2 & B2 & Ho2 & Sb2 & _).
    exists d2, ids2. split; [done|]. split; [done|]. split; [done|]. split; [by etransitivity|]. split; [done|]. intros j lj _ [= <-] Ej. replace lj with l in * by congruence.
    exists l2. split; [done|]. split; [done|]. intros _ Hc. destruct (H1 Hc) as (B1 & Ho1 & Sb1). split; [|split; [congruence|by eapply steady_but_trans]].
    destruct B2 as [B2|[Hx _]]; [congruence|done].
Qed.
End db.
