(* ===== verification/FailoverBindSample.v ===== *)
(** * Two servers and a lease

    The theorems about binding updates at a server whose pool of one lease is
    shared with a peer. *)

From stdpp Require Import base tactics list numbers gmap.
From S2P Require Import Prelude Lease LeaseList LeaseHash LeaseDb LeaseDbInv LeaseDbOk LeaseTimer LeaseOps LeaseSample FailoverBind FailoverBindOk FailoverBindDb.

#[local] Open Scope Z_scope.

#[export] Instance peer_journal : PeerWorld (list journal_entry) := {
  peer_memory w := (true, w);
  ack_queue_remove w i := (true, LeftAckQueue i :: w);
  update_done_after w _ := w;
  send_bind_ack w _ r := Answered r :: w;
  queue_ack w _ := QueuedAck :: w;
  send_updates w s := (SentUpdates :: w, s);
  commit_in_2s w := CommitsSoon :: w }.
#[export] Instance peer_journal_ok : PeerWorldOk (list journal_entry).
Proof. split. intros. apply upto_refl. Qed.

Definition client_hw : list Z := [1; 8; 0; 39; 1; 2; 3].
(** An active lease of a client, as a server with this role has it. *)
Definition server (role : failover_role) (end_ : Z) : db (W := list journal_entry) :=
  shared_loaded role (file_lease FTS_ACTIVE FTS_EXPIRED end_ None client_hw None).
Definition the_peer (role : failover_role) : peer := mk_peer normal 0 1800 cooperating role.
Definition all_mine (p : nat) : bool := true.
Definition no_balance (p : nat) : balance := mk_balance (Some sample_hba) 3.
Definition the_message (status : Z) : bndupd :=
  mk_bndupd (Z.lor FTB_ASSIGNED_IP_ADDRESS (Z.lor FTB_BINDING_STATUS (Z.lor FTB_CHADDR FTB_LEASE_EXPIRY))) 7 status 0 0 100 0 0 client_hw [].

(** The one lease of these servers. *)
Definition only_lease (d : db (W := list journal_entry)) : ldata :=
  match lease_store d !! 1%nat with Some l => data l | None => renewal end.
Lemma server_lease role end_ : (role, end_) ∈ [(secondary, 100); (secondary, 500); (primary, 100)] ->
  dom (lease_store (server role end_)) = {[1%nat]} /\ exists l, lease_store (server role end_) !! 1%nat = Some l /\ data l = only_lease (server role end_) /\
    sound_lease (data l) /\ is_valid (desired_binding_state (data l)) = true /\ binding_state (data l) = FTS_ACTIVE /\ ends (data l) = end_ /\ desired_binding_state (data l) = FTS_ACTIVE.
Proof.
  intros Hin. repeat (apply elem_of_cons in Hin as [[= -> ->]|Hin]; [split; [apply (bool_decide_unpack _); vm_compute; exact I|]; eexists; split; [vm_compute; reflexivity|]; split; [vm_compute; reflexivity|];
    split; [split; [vm_compute; reflexivity|intros b [=]|apply (bool_decide_unpack _); vm_compute; exact I|apply (bool_decide_unpack _); vm_compute; exact I]|split_and!; vm_compute; reflexivity]|]).
  by apply not_elem_of_nil in Hin.
Qed.

Lemma server_ready role end_ : (role, end_) ∈ [(secondary, 100); (secondary, 500); (primary, 100)] ->
  exists L ids, ready no_balance L (fun _ => (0, 0)) (server role end_) ids /\ 1%nat ∈ L.
Proof.
  intros Hin. destruct (server_lease role end_ Hin) as (Hd & l & E & _ & Hs & Hv & _).
  destruct (shared_loaded_wf role FTS_ACTIVE FTS_EXPIRED end_ client_hw) as (L & ids & Hw & Hst & H1); [by vm_compute|by vm_compute|].
  assert (Hone : forall i x, lease_store (server role end_) !! i = Some x -> x = l).
  { intros i x Ex. assert (Hi : i ∈ dom (lease_store (server role end_))) by (apply elem_of_dom; eauto). rewrite Hd, elem_of_singleton in Hi. subst i. congruence. }
  exists L, ids. split; [|done]. split; [done|done| | |].
  - intros i x _ Ex. by rewrite (Hone i x Ex).
  - intros i x _ Ex _. by rewrite (Hone i x Ex).
  - intros p h [= <-]. split; [apply (bool_decide_unpack _); vm_compute; exact I|done].
Qed.

Lemma message_sound status : is_valid status = true -> sound_update (the_message status).
Proof. intros Hv. split; [done| |constructor]. apply (bool_decide_unpack _). vm_compute. exact I. Qed.

Definition verdict_of (r : outcome (verdict * db (W := list journal_entry))) : option verdict := match r with Done (v, _) => Some v | _ => None end.


(** The secondary says that the lease has expired, 70 seconds before it does. *)
Lemma running_lease_kept_witness :
  exists r d', process_bind_update 30 false (the_peer primary) all_mine no_balance 10 (server primary 100) (Some 1%nat) (the_message FTS_EXPIRED) = Done (Rejected r, d') /\
    steady (lease_store (server primary 100)) (lease_store d').
Proof.
  destruct (server_ready primary 100) as (L & ids & Hr & HL); [right; right; by left|].
  destruct (server_lease primary 100) as (_ & l & E & _ & _ & _ & Hb & He & _); [right; right; by left|].
  destruct (running_lease_kept 30 false (the_peer primary) all_mine no_balance 10 L _ _ ids 1 l (the_message FTS_EXPIRED) Hr HL E) as (r & d' & ids' & Eu & _ & _ & Hk).
  - apply message_sound. reflexivity.
  - exact Hb.
  - apply (bool_decide_unpack _). vm_compute. exact I.
  - rewrite He. reflexivity.
  - right. left. reflexivity.
  - exists r, d'. split; [exact Eu|exact Hk].
Defined.

Lemma bind_ack_settles_witness :
  exists d' l', process_bind_ack 50 false (the_peer secondary) no_balance 10 (server secondary 100) (Some 1%nat) 7 (the_message FTS_ACTIVE) = Done d' /\
    lease_store d' !! 1%nat = Some l' /\ binding_state (data l') = FTS_ACTIVE.
Proof.
  destruct (server_ready secondary 100) as (L & ids & Hr & HL); [by left|]. destruct (server_lease secondary 100) as (_ & l & E & _ & _ & Hv & Hb & _ & Hd); [by left|].
  destruct (bind_ack_settles 50 false (the_peer secondary) no_balance 10 L _ _ ids (Some 1%nat) 7 (the_message FTS_ACTIVE) Hr) as (d' & ids' & Eu & _ & _ & _ & _ & Hk).
  - intros i [= <-]. exact HL.
  - intros i x [= <-] Ex _. rewrite E in Ex. injection Ex as <-. exact Hv.
  - destruct (Hk 1%nat l) as (l' & E' & _ & Hl'); [reflexivity|reflexivity|exact E|]. destruct Hl' as (B' & _).
    + rewrite Hd. apply (bool_decide_unpack _). vm_compute. exact I.
    + right. left. by rewrite Hb, Hd.
    + exists d', l'. split; [exact Eu|]. split; [exact E'|]. rewrite B'. exact Hd.
Defined.

(** A status that is no binding state stops a server in normal state. *)
Lemma bad_status_stops :
  process_bind_update 50 false (the_peer secondary) all_mine no_balance 10 (server secondary 100) (Some 1%nat) (the_message 99) = Fatal.
Proof. vm_compute. reflexivity. Qed.
