(* ===== verification/OmapiBuffer.v ===== *)
(** * The buffers of a connection (omapip/buffer.c)

    Bytes that have been read from a socket, or are to be written to it, are in
    a chain of ring buffers.  A connection owns its chains, so that a chain is a
    list of buffers here.  Connections are not signed, and memory is always
    available. *)

From stdpp Require Import base tactics list numbers.
From S2P Require Import Prelude.

#[local] Open Scope Z_scope.

Definition OMAPI_BUF_SIZE : Z := 4048.

Record ring := mk_ring { head : Z; tail : Z; buf : list Z }.

Definition BUFFER_BYTES_FREE (r : ring) : Z := if head r <? tail r then OMAPI_BUF_SIZE - (tail r - head r) else head r - tail r.
Definition BYTES_IN_BUFFER (r : ring) : Z := if head r <? tail r then tail r - head r - 1 else OMAPI_BUF_SIZE - (head r - tail r) - 1.
Definition omapi_buffer_new : ring := mk_ring (OMAPI_BUF_SIZE - 1) 0 (replicate (Z.to_nat OMAPI_BUF_SIZE) 0).

(** The bytes that follow [tail] without wrapping, and those that follow
    [head]. *)
Definition room (r : ring) : Z := if head r <? tail r then OMAPI_BUF_SIZE - tail r else head r - tail r.
Definition first_byte (r : ring) : Z := if head r =? OMAPI_BUF_SIZE - 1 then 0 else head r + 1.
Definition ready_bytes (r : ring) : Z := if tail r <? first_byte r then OMAPI_BUF_SIZE - first_byte r else tail r - first_byte r.

Definition put_ring (r : ring) (data : list Z) : outcome ring :=
  b ← wrn (buf r) (tail r) data;
  let t := u16 (tail r + zlen data) in
  Done (mk_ring (head r) (if t =? OMAPI_BUF_SIZE then 0 else t) b).
Definition get_ring (r : ring) (n : Z) : outcome (list Z * ring) :=
  data ← rdn (buf r) (first_byte r) n;
  Done (data, mk_ring (u16 (first_byte r + n - 1)) (tail r) (buf r)).

Inductive connection_state := Unconnected | Connecting | Connected | Disconnecting | Closed.
#[export] Instance connection_state_eq_dec : EqDecision connection_state.
Proof. solve_decision. Defined.
Record conn := mk_conn {
  inbufs : list ring;
  in_bytes : Z;
  bytes_needed : Z;
  outbufs : list ring;
  out_bytes : Z;
  cstate : connection_state }.
Definition set_in (bufs : list ring) (n : Z) (c : conn) : conn := mk_conn bufs n (bytes_needed c) (outbufs c) (out_bytes c) (cstate c).
Definition set_out (bufs : list ring) (n : Z) (c : conn) : conn := mk_conn (inbufs c) (in_bytes c) (bytes_needed c) bufs n (cstate c).

Inductive result :=
  | R_SUCCESS | R_NOTCONNECTED | R_NOMORE | R_UNEXPECTED | R_NOTYET | R_SHUTTINGDOWN | R_INPROGRESS
  | R_IOERROR | R_INVALIDARG | R_NOCONN | R_NORESOURCES | R_NOSPACE.

(** [omapi_disconnect]; the socket may refuse to be shut down. *)
Definition disconnect (force shutdown : bool) (c : conn) : conn :=
  if negb force && bool_decide (cstate c = Disconnecting) then c
  else if negb force && shutdown && (0 <? out_bytes c) then mk_conn (inbufs c) (in_bytes c) (bytes_needed c) (outbufs c) (out_bytes c) Disconnecting
  else mk_conn [] 0 (bytes_needed c) [] 0 Closed.

(** ** [omapi_connection_copyin]

    [front] are the buffers before the last one, in which there is room or after
    which there will be another one.  Each turn copies a byte at least. *)
Fixpoint copyin_loop (fuel : nat) (front : list ring) (last : ring) (data : list Z) (n : Z) : outcome (list ring * Z) :=
  match data with
  | [] => Done (front ++ [last], n)
  | _ =>
      match fuel with
      | O => Running
      | S fuel =>
          let '(front, last) := if BUFFER_BYTES_FREE last =? 0 then (front ++ [last], omapi_buffer_new) else (front, last) in
          let copy_len := if zlen data <? room last then zlen data else room last in
          last ← put_ring last (take (Z.to_nat copy_len) data);
          copyin_loop fuel front last (drop (Z.to_nat copy_len) data) (u32 (n + copy_len))
      end
  end.
Definition split_last (bufs : list ring) : list ring * ring :=
  match rev bufs with [] => ([], omapi_buffer_new) | r :: front => (rev front, r) end.
Definition copyin (c : conn) (data : list Z) : outcome (result * conn) :=
  if bool_decide (cstate c = Disconnecting) || bool_decide (cstate c = Closed) then Done (R_NOTCONNECTED, c)
  else
    let (front, last) := split_last (outbufs c) in
    '(bufs, n) ← copyin_loop (length data) front last data (out_bytes c);
    Done (R_SUCCESS, set_out bufs n c).

(** ** [omapi_connection_copyout]

    [past] are the buffers that have been emptied. *)
Fixpoint copyout_loop (fuel : nat) (past bufs : list ring) (remaining n : Z) (data : list Z) : outcome (bool * list ring * Z * list Z) :=
  if remaining =? 0 then Done (true, past ++ bufs, n, data)
  else
    match fuel, bufs with
    | O, _ => Running
    | S _, [] => Done (false, past, n, data)
    | S fuel, r :: bufs =>
        '(r, remaining, n, data) ←
          (if BYTES_IN_BUFFER r =? 0 then Done (r, remaining, n, data)
           else
             let this := if remaining <? ready_bytes r then remaining else ready_bytes r in
             '(d, r) ← get_ring r this;
             Done (r, remaining - this, u32 (n - this), data ++ d));
        if BYTES_IN_BUFFER r =? 0 then copyout_loop fuel (past ++ [r]) bufs remaining n data
        else copyout_loop fuel past (r :: bufs) remaining n data
    end.
Fixpoint drop_empty (bufs : list ring) : list ring :=
  match bufs with
  | r :: bufs' => if BYTES_IN_BUFFER r =? 0 then drop_empty bufs' else bufs
  | [] => []
  end.
(** The bytes are only those that the function has stored if it fails. *)
Definition copyout (c : conn) (size : Z) : outcome (result * list Z * conn) :=
  if in_bytes c <? size then Done (R_NOMORE, [], c)
  else
    '(ok, bufs, n, data) ← copyout_loop (Z.to_nat size + length (inbufs c)) [] (inbufs c) size (in_bytes c) [];
    if ok : bool then Done (R_SUCCESS, data, set_in (drop_empty bufs) n c)
    else Done (R_UNEXPECTED, data, set_in bufs n c).

Definition connection_require (c : conn) (bytes : Z) : result * conn :=
  (if bytes <=? in_bytes c then R_SUCCESS else R_NOTYET,
   mk_conn (inbufs c) (in_bytes c) bytes (outbufs c) (out_bytes c) (cstate c)).

(** ** Integers *)
Definition get_uint32 (c : conn) : outcome (result * option Z * conn) :=
  '(r, d, c) ← copyout c 4;
  Done (r, match r with R_SUCCESS => Some (be_val d) | _ => None end, c).
Definition get_uint16 (c : conn) : outcome (result * option Z * conn) :=
  '(r, d, c) ← copyout c 2;
  Done (r, match r with R_SUCCESS => Some (be_val d) | _ => None end, c).
Definition put_uint32 (c : conn) (v : Z) : outcome (result * conn) := copyin c (be_bytes 4 v).
Definition put_uint16 (c : conn) (v : Z) : outcome (result * conn) := copyin c (be_bytes 2 v).

(** ** The socket

    What [read] and [write] may set [errno] to; [EFBIG] stands for [EDQUOT] too,
    [EWOULDBLOCK] for [EAGAIN]. *)
Inductive errno := EWOULDBLOCK | EIO | EINVAL | ECONNRESET | EPIPE | EFBIG | ENOSPC | EOTHER.

(** ** [omapi_connection_reader]

    [avail] are the bytes that the socket has now; a [read] after them fails
    with [e], or the remote end has closed the connection if [e] is [None].  A
    [read] that gets less than it asks for is the last one.  The loop tells how
    a [read] ended that got nothing. *)
Fixpoint reader_loop (fuel : nat) (front : list ring) (last : ring) (n to_read : Z) (avail : list Z) :
    outcome (bool * list ring * Z * list Z) :=
  if to_read =? 0 then Done (false, front ++ [last], n, avail)
  else
    match fuel with
    | O => Running
    | S fuel =>
        let read_len := room last in
        let data := take (Z.to_nat read_len) avail in
        match data with
        | [] => Done (true, front ++ [last], n, avail)
        | _ =>
            last ← put_ring last data;
            let avail := drop (Z.to_nat read_len) avail in
            let n := u32 (n + zlen data) in
            if zlen data <? read_len then Done (false, front ++ [last], n, avail)
            else reader_loop fuel front last n (u32 (to_read - zlen data)) avail
        end
    end.
(** What a [read] that got nothing makes of the call: [None] if it goes on. *)
Definition read_error (shutdown : bool) (e : option errno) (c : conn) : option (result * conn) :=
  match e with
  | None => Some (R_SHUTTINGDOWN, disconnect false shutdown c)
  | Some EWOULDBLOCK => None
  | Some EIO => Some (R_IOERROR, c)
  | Some EINVAL => Some (R_INVALIDARG, c)
  | Some ECONNRESET => Some (R_SHUTTINGDOWN, disconnect true shutdown c)
  | Some _ => Some (R_UNEXPECTED, c)
  end.
(** The result, the bytes that are left, whether [ready] is signalled. *)
Definition reader (shutdown : bool) (c : conn) (avail : list Z) (e : option errno) : outcome (result * list Z * bool * conn) :=
  if (OMAPI_BUF_SIZE - 1 <=? in_bytes c) && (bytes_needed c <? in_bytes c) then Done (R_SUCCESS, avail, false, c)
  else
    let (front, last) := split_last (inbufs c) in
    let '(front, last) := if BUFFER_BYTES_FREE last =? 0 then (front ++ [last], omapi_buffer_new) else (front, last) in
    '(nothing, bufs, n, avail) ← reader_loop (Z.to_nat (BUFFER_BYTES_FREE last)) front last (in_bytes c) (BUFFER_BYTES_FREE last) avail;
    let c := set_in bufs n c in
    match if nothing : bool then read_error shutdown e c else None with
    | Some (r, c) => Done (r, avail, false, c)
    | None => Done (R_SUCCESS, avail, bytes_needed c <=? in_bytes c, c)
    end.

(** ** [omapi_connection_writer]

    [writes] is what becomes of each [write]: the socket takes so many bytes, or
    it fails; it would block after them. *)
Inductive written := Wrote (bytes : Z) | Failed (e : errno).
Definition write_error (e : errno) : result :=
  match e with
  | EWOULDBLOCK => R_INPROGRESS
  | EPIPE => R_NOCONN
  | EFBIG => R_NORESOURCES
  | ENOSPC => R_NOSPACE
  | EIO => R_IOERROR
  | EINVAL => R_INVALIDARG
  | ECONNRESET => R_SHUTTINGDOWN
  | EOTHER => R_UNEXPECTED
  end.
Fixpoint writer_loop (fuel : nat) (past bufs : list ring) (n : Z) (writes : list written) (sent : list Z) :
    outcome (result * list ring * Z * list Z) :=
  if n =? 0 then Done (R_SUCCESS, past ++ bufs, n, sent)
  else
    match fuel, bufs with
    | O, _ => Running
    | S _, [] => Done (R_UNEXPECTED, past, n, sent)
    | S fuel, r :: bufs =>
        if BYTES_IN_BUFFER r =? 0 then writer_loop fuel (past ++ [r]) bufs n writes sent
        else
          let this := ready_bytes r in
          match match writes with [] => Failed EWOULDBLOCK | w :: _ => w end with
          | Failed e => Done (write_error e, past ++ r :: bufs, n, sent)
          | Wrote k =>
              let k := if k <? this then k else this in
              if k =? 0 then Done (R_INPROGRESS, past ++ r :: bufs, n, sent)
              else
                '(d, r) ← get_ring r k;
                let n := u32 (n - k) in
                if negb (k =? this) then Done (R_INPROGRESS, past ++ r :: bufs, n, sent ++ d)
                else if BYTES_IN_BUFFER r =? 0 then writer_loop fuel (past ++ [r]) bufs n (drop 1 writes) (sent ++ d)
                else writer_loop fuel past (r :: bufs) n (drop 1 writes) (sent ++ d)
          end
    end.
Definition writer (c : conn) (writes : list written) : outcome (result * list Z * conn) :=
  if out_bytes c =? 0 then Done (R_SUCCESS, [], c)
  else
    '(r, bufs, n, sent) ← writer_loop (Z.to_nat (out_bytes c) + length (outbufs c)) [] (outbufs c) (out_bytes c) writes [];
    match r with
    | R_SUCCESS =>
        let c := set_out (drop_empty bufs) n c in
        if (n =? 0) && bool_decide (cstate c = Disconnecting) then Done (R_SHUTTINGDOWN, sent, disconnect true true c) else Done (R_SUCCESS, sent, c)
    | _ => Done (r, sent, set_out bufs n c)
    end.
