(* ===== verification/OmapiBufferOk.v ===== *)
(** * The buffers of a connection are a queue of bytes

    A chain of ring buffers stands for a list of bytes: what is put in is
    appended, what is taken out is its beginning; no access leaves a buffer. *)

From stdpp Require Import base tactics list numbers.
From S2P Require Import Prelude OmapiBuffer.

#[local] Open Scope Z_scope.

(** ** One buffer *)
Definition at_ring (r : ring) (j : Z) : Z := (head r + 1 + j) mod OMAPI_BUF_SIZE.
Record ring_holds (r : ring) (c : list Z) : Prop := {
  rh_len : zlen (buf r) = OMAPI_BUF_SIZE;
  rh_head : 0 <= head r < OMAPI_BUF_SIZE;
  rh_tail : 0 <= tail r < OMAPI_BUF_SIZE;
  rh_used : zlen c = BYTES_IN_BUFFER r;
  rh_at : forall j x, c !! j = Some x -> buf r !! Z.to_nat (at_ring r (Z.of_nat j)) = Some x }.

Lemma wrap_low x : 0 <= x < OMAPI_BUF_SIZE -> x mod OMAPI_BUF_SIZE = x.
Proof. intros. by apply Z.mod_small. Qed.
Lemma wrap_high x : OMAPI_BUF_SIZE <= x < 2 * OMAPI_BUF_SIZE -> x mod OMAPI_BUF_SIZE = x - OMAPI_BUF_SIZE.
Proof. intros. replace x with (x - OMAPI_BUF_SIZE + 1 * OMAPI_BUF_SIZE) at 1 by lia. rewrite Z.mod_add by done. apply Z.mod_small. lia. Qed.

Lemma bytes_cases r : 0 <= head r < OMAPI_BUF_SIZE -> 0 <= tail r < OMAPI_BUF_SIZE ->
  (head r < tail r /\ BYTES_IN_BUFFER r = tail r - head r - 1 /\ room r = OMAPI_BUF_SIZE - tail r /\ BUFFER_BYTES_FREE r = OMAPI_BUF_SIZE - (tail r - head r)) \/
  (tail r <= head r /\ BYTES_IN_BUFFER r = OMAPI_BUF_SIZE - (head r - tail r) - 1 /\ room r = head r - tail r /\ BUFFER_BYTES_FREE r = head r - tail r).
Proof. intros Hh Ht. unfold BYTES_IN_BUFFER, room, BUFFER_BYTES_FREE. destruct (Z.ltb_spec (head r) (tail r)); [left|right]; auto. Qed.

Lemma new_holds : ring_holds omapi_buffer_new [].
Proof. split; [by vm_compute..|]. intros j x. by rewrite lookup_nil. Qed.

Lemma wrn_lookup (l k src : list Z) i j : wrn l i src = Done k -> 0 <= i ->
  k !! j = (if bool_decide (i <= Z.of_nat j < i + zlen src) then src !! (j - Z.to_nat i)%nat else l !! j).
Proof.
  unfold wrn. intros E Hi. destruct (_ && _) eqn:B; [|done]. injection E as <-. apply andb_true_iff in B as [_ B%Z.leb_le]. unfold zlen in *.
  assert (Hl : length (take (Z.to_nat i) l) = Z.to_nat i) by (rewrite length_take; lia).
  case_bool_decide as Hj.
  - rewrite lookup_app_r by lia. rewrite Hl, lookup_app_l by lia. done.
  - destruct (decide (j < Z.to_nat i)%nat).
    + rewrite lookup_app_l by lia. by rewrite lookup_take_lt by lia.
    + rewrite lookup_app_r by lia. rewrite lookup_app_r by lia. rewrite lookup_drop. f_equal. lia.
Qed.

Lemma put_ring_ok r c data : ring_holds r c -> 0 < zlen data <= room r ->
  exists r', put_ring r data = Done r' /\ ring_holds r' (c ++ data).
Proof.
  intros [H1 H2 H3 H4 H5] Hd. unfold put_ring. destruct (bytes_cases r H2 H3) as [(Hc & Hb & Hr & _)|(Hc & Hb & Hr & _)]; rewrite Hr in Hd; rewrite Hb in H4.
  - destruct (wrn (buf r) (tail r) data) as [k| | |] eqn:E; try (exfalso; rewrite wrn_in in E by lia; done).
    dred. eexists. split; [done|]. rewrite u16_small by (unfold OMAPI_BUF_SIZE in *; lia).
    assert (Ht : (if tail r + zlen data =? OMAPI_BUF_SIZE then 0 else tail r + zlen data) = tail r + zlen data /\ tail r + zlen data < OMAPI_BUF_SIZE \/
      (if tail r + zlen data =? OMAPI_BUF_SIZE then 0 else tail r + zlen data) = 0 /\ tail r + zlen data = OMAPI_BUF_SIZE) by (destruct (Z.eqb_spec (tail r + zlen data) OMAPI_BUF_SIZE); lia).
    split; cbn [buf head tail].
    + rewrite (wrn_zlen _ _ _ _ E). done.
    + done.
    + unfold OMAPI_BUF_SIZE in *. lia.
    + rewrite zlen_app, H4. unfold BYTES_IN_BUFFER. cbn [buf head tail]. destruct Ht as [[-> Ht]|[-> Ht]]; [rewrite (proj2 (Z.ltb_lt _ _)) by lia; lia|rewrite (proj2 (Z.ltb_ge _ _)) by lia; lia].
    + intros j x Hj. unfold at_ring. cbn [head]. assert (Hjl : Z.of_nat j < zlen c + zlen data) by (apply lookup_lt_Some in Hj; rewrite length_app in Hj; unfold zlen; lia).
      rewrite wrap_low by lia. rewrite (wrn_lookup _ _ _ _ _ E) by lia. case_bool_decide as Hx.
      * rewrite lookup_app_r in Hj by (unfold zlen in *; lia). rewrite <- Hj. f_equal. unfold zlen in *. lia.
      * rewrite lookup_app_l in Hj by (unfold zlen in *; lia). specialize (H5 j x Hj). unfold at_ring in H5. rewrite wrap_low in H5 by lia. exact H5.
  - destruct (wrn (buf r) (tail r) data) as [k| | |] eqn:E; try (exfalso; rewrite wrn_in in E by lia; done).
    dred. eexists. split; [done|]. rewrite u16_small by (unfold OMAPI_BUF_SIZE in *; lia).
    rewrite (proj2 (Z.eqb_neq (tail r + zlen data) OMAPI_BUF_SIZE)) by lia. split; cbn [buf head tail].
    + rewrite (wrn_zlen _ _ _ _ E). done.
    + done.
    + lia.
    + rewrite zlen_app, H4. unfold BYTES_IN_BUFFER. cbn [buf head tail]. rewrite (proj2 (Z.ltb_ge _ _)) by lia. lia.
    + intros j x Hj. unfold at_ring. cbn [head]. assert (Hjl : Z.of_nat j < zlen c + zlen data) by (apply lookup_lt_Some in Hj; rewrite length_app in Hj; unfold zlen; lia).
      assert (Hc2 : Z.of_nat j < zlen c -> buf r !! Z.to_nat ((head r + 1 + Z.of_nat j) mod OMAPI_BUF_SIZE) = Some x).
      { intros Hl. apply H5. rewrite lookup_app_l in Hj by (unfold zlen in *; lia). exact Hj. }
      rewrite (wrn_lookup _ _ _ _ _ E) by lia. destruct (Z.lt_ge_cases (head r + 1 + Z.of_nat j) OMAPI_BUF_SIZE) as [Hw|Hw].
      * rewrite wrap_low in * by lia. rewrite bool_decide_false by lia. apply Hc2. lia.
      * rewrite wrap_high in * by lia. case_bool_decide as Hx; [|apply Hc2; lia].
        rewrite lookup_app_r in Hj by (unfold zlen in *; lia). rewrite <- Hj. f_equal. unfold zlen in *. lia.
Qed.

Lemma first_byte_eq r : 0 <= head r < OMAPI_BUF_SIZE -> first_byte r = (head r + 1) mod OMAPI_BUF_SIZE /\ 0 <= first_byte r < OMAPI_BUF_SIZE.
Proof.
  intros H. unfold first_byte. destruct (Z.eqb_spec (head r) (OMAPI_BUF_SIZE - 1)) as [->|N]; [by vm_compute|]. rewrite wrap_low by lia. lia.
Qed.
Lemma ready_cases r : 0 <= head r < OMAPI_BUF_SIZE -> 0 <= tail r < OMAPI_BUF_SIZE -> BYTES_IN_BUFFER r <> 0 ->
  0 < ready_bytes r <= BYTES_IN_BUFFER r /\ first_byte r + ready_bytes r <= OMAPI_BUF_SIZE.
Proof.
  intros Hh Ht. unfold BYTES_IN_BUFFER, ready_bytes, first_byte. intros Hn.
  destruct (Z.ltb_spec (head r) (tail r)), (Z.eqb_spec (head r) (OMAPI_BUF_SIZE - 1)), (Z.ltb_spec (tail r) 0), (Z.ltb_spec (tail r) (head r + 1)); lia.
Qed.

Lemma get_ring_ok r c n : ring_holds r c -> 0 < n <= ready_bytes r -> BYTES_IN_BUFFER r <> 0 ->
  exists r', get_ring r n = Done (take (Z.to_nat n) c, r') /\ ring_holds r' (drop (Z.to_nat n) c).
Proof.
  intros [H1 H2 H3 H4 H5] Hn Hne. unfold get_ring. destruct (first_byte_eq r H2) as [Ef Hf], (ready_cases r H2 H3 Hne) as [Hr1 Hr2].
  rewrite rdn_in by lia. dred. rewrite u16_small by (unfold OMAPI_BUF_SIZE in *; lia).
  assert (Hpos : forall k, 0 <= k < n -> (head r + 1 + k) mod OMAPI_BUF_SIZE = first_byte r + k).
  { intros k Hk. rewrite <- (Z.add_mod_idemp_l (head r + 1) k) by done. rewrite <- Ef. apply wrap_low. lia. }
  exists (mk_ring (first_byte r + n - 1) (tail r) (buf r)). split.
  - do 2 f_equal. apply list_eq. intros j. destruct (decide (Z.of_nat j < n)) as [Hj|Hj].
    + rewrite !lookup_take_lt by lia. rewrite lookup_drop. destruct (lookup_lt_is_Some_2 c j) as [x Hx]; [unfold zlen in *; lia|].
      rewrite Hx. specialize (H5 j x Hx). unfold at_ring in H5. rewrite Hpos in H5 by lia. rewrite <- H5. f_equal. lia.
    + rewrite !lookup_take_ge by lia. done.
  - split; cbn [buf head tail].
    + done.
    + lia.
    + done.
    + assert (Hl : zlen (drop (Z.to_nat n) c) = zlen c - n) by (unfold zlen in *; rewrite length_drop; lia). rewrite Hl, H4.
      assert (Hff : first_byte r = head r + 1 /\ head r < OMAPI_BUF_SIZE - 1 \/ first_byte r = 0 /\ head r = OMAPI_BUF_SIZE - 1).
      { unfold first_byte. destruct (Z.eqb_spec (head r) (OMAPI_BUF_SIZE - 1)); lia. }
      unfold BYTES_IN_BUFFER in *. cbn [buf head tail]. unfold ready_bytes in Hn.
      destruct (Z.ltb_spec (head r) (tail r)), (Z.ltb_spec (tail r) (first_byte r)), (Z.ltb_spec (first_byte r + n - 1) (tail r)); lia.
    + intros j x Hj. rewrite lookup_drop in Hj. specialize (H5 _ _ Hj). unfold at_ring in *. cbn [head]. rewrite <- H5. do 2 f_equal.
      replace (first_byte r + n - 1 + 1 + Z.of_nat j) with (first_byte r + (n + Z.of_nat j)) by lia. rewrite Ef, Z.add_mod_idemp_l by done. f_equal. lia.
Qed.

(** ** A chain *)
Fixpoint chain_holds (bufs : list ring) (c : list Z) : Prop :=
  match bufs with
  | [] => c = []
  | r :: bufs => exists c1 c2, c = c1 ++ c2 /\ ring_holds r c1 /\ chain_holds bufs c2
  end.

Lemma chain_app bufs1 bufs2 c : chain_holds (bufs1 ++ bufs2) c <-> exists c1 c2, c = c1 ++ c2 /\ chain_holds bufs1 c1 /\ chain_holds bufs2 c2.
Proof.
  revert c. induction bufs1 as [|r bufs1 IH]; intros c; simpl.
  - split; [intros H; by exists [], c|]. by intros (c1 & c2 & -> & -> & H).
  - split.
    + intros (c1 & c2 & -> & Hr & (c3 & c4 & -> & H3 & H4)%IH). exists (c1 ++ c3), c4. rewrite <- app_assoc. split; [done|]. split; [|done]. by exists c1, c3.
    + intros (c1 & c2 & -> & (c3 & c4 & -> & Hr & H4) & H2). exists c3, (c4 ++ c2). rewrite <- app_assoc. split; [done|]. split; [done|]. apply IH. by exists c4, c2.
Qed.
Lemma chain_one r c : ring_holds r c -> chain_holds [r] c.
Proof. intros H. exists c, []. rewrite app_nil_r. by split. Qed.
Lemma chain_snoc bufs r c1 c2 : chain_holds bufs c1 -> ring_holds r c2 -> chain_holds (bufs ++ [r]) (c1 ++ c2).
Proof. intros H1 H2. apply chain_app. exists c1, c2. split; [done|]. split; [done|by apply chain_one]. Qed.
Lemma chain_empty bufs : Forall (fun r => ring_holds r []) bufs -> chain_holds bufs [].
Proof. induction 1 as [|r bufs Hr _ IH]; [done|]. by exists [], []. Qed.

(** The last buffer, or a new one. *)
Lemma split_last_ok bufs c : chain_holds bufs c ->
  exists c1 c2, c = c1 ++ c2 /\ chain_holds (split_last bufs).1 c1 /\ ring_holds (split_last bufs).2 c2.
Proof.
  intros H. unfold split_last. destruct (rev bufs) as [|r front] eqn:E.
  - assert (bufs = []) as -> by (rewrite <- (rev_involutive bufs), E; done). simpl in H. subst c. exists [], []. split; [done|]. split; [done|apply new_holds].
  - assert (Eb : bufs = rev front ++ [r]) by (rewrite <- (rev_involutive bufs), E; done). rewrite Eb in H. apply chain_app in H as (c1 & c2 & -> & H1 & (c3 & c4 & -> & Hr & ->)).
    exists c1, c3. rewrite app_nil_r. by split.
Qed.

Lemma room_positive r c : ring_holds r c -> BUFFER_BYTES_FREE r <> 0 -> 0 < room r.
Proof. intros [_ H2 H3 _ _] Hn. destruct (bytes_cases r H2 H3) as [(? & _ & -> & E)|(? & _ & -> & E)]; lia. Qed.
(** A buffer with room, after the one given or that one itself. *)
Lemma make_room front last c1 c2 : chain_holds front c1 -> ring_holds last c2 ->
  exists front' last' c1' c2', (if BUFFER_BYTES_FREE last =? 0 then (front ++ [last], omapi_buffer_new) else (front, last)) = (front', last') /\
    chain_holds front' c1' /\ ring_holds last' c2' /\ c1 ++ c2 = c1' ++ c2' /\ 0 < room last'.
Proof.
  intros H1 H2. destruct (Z.eqb_spec (BUFFER_BYTES_FREE last) 0) as [E|N].
  - exists (front ++ [last]), omapi_buffer_new, (c1 ++ c2), []. rewrite app_nil_r. split; [done|]. split; [by apply chain_snoc|]. split; [apply new_holds|done].
  - exists front, last, c1, c2. split_and!; [done..|]. by eapply room_positive.
Qed.


Lemma copyin_loop_ok fuel : forall front last data n c1 c2,
  chain_holds front c1 -> ring_holds last c2 -> (length data <= fuel)%nat ->
  exists bufs n', copyin_loop fuel front last data n = Done (bufs, n') /\ chain_holds bufs (c1 ++ c2 ++ data) /\ (n = u32 n -> n' = u32 (n + zlen data)).
Proof.
  induction fuel as [|fuel IH]; intros front last data n c1 c2 H1 H2 Hl.
  - destruct data; [|simpl in Hl; lia]. exists (front ++ [last]), n. rewrite app_nil_r. split; [done|]. split; [by apply chain_snoc|]. rewrite zlen_nil, Z.add_0_r. done.
  - destruct data as [|x data]; [exists (front ++ [last]), n; rewrite app_nil_r; split; [done|]; split; [by apply chain_snoc|]; rewrite zlen_nil, Z.add_0_r; done|].
    cbn [copyin_loop]. set (all := x :: data) in *.
    destruct (make_room front last c1 c2 H1 H2) as (front' & last' & c1' & c2' & -> & H1' & H2' & Ec & Hr).
    set (k := if zlen all <? room last' then zlen all else room last'). assert (Hk : 0 < k <= room last' /\ k <= zlen all).
    { subst k. assert (0 < zlen all) by (subst all; rewrite zlen_cons; pose proof (zlen_nonneg data); lia). destruct (Z.ltb_spec (zlen all) (room last')); lia. }
    assert (Hkl : zlen (take (Z.to_nat k) all) = k) by (unfold zlen in *; rewrite length_take; lia).
    destruct (put_ring_ok last' c2' (take (Z.to_nat k) all) H2') as (last2 & -> & H2''); [rewrite Hkl; lia|]. dred.
    destruct (IH front' last2 (drop (Z.to_nat k) all) (u32 (n + k)) c1' (c2' ++ take (Z.to_nat k) all) H1' H2'') as (bufs & n' & E & Hc & Hn).
    { rewrite length_drop. subst all. simpl in Hl |- *. lia. }
    exists bufs, n'. split; [exact E|]. split.
    + rewrite app_assoc, Ec, <- app_assoc. rewrite <- app_assoc, take_drop in Hc. exact Hc.
    + intros _. rewrite (Hn ltac:(unfold u32; by rewrite Z.mod_mod)), u32_add_u32. f_equal. unfold zlen in *. rewrite length_drop. lia.
Qed.

Lemma drop_empty_ok bufs : forall c, chain_holds bufs c -> chain_holds (drop_empty bufs) c.
Proof.
  induction bufs as [|r bufs IH]; intros c H; [done|]. cbn [drop_empty]. destruct (Z.eqb_spec (BYTES_IN_BUFFER r) 0) as [E|_]; [|done].
  destruct H as (c1 & c2 & -> & Hr & H2). pose proof (rh_used _ _ Hr) as Hu. destruct c1; [by apply IH|]. rewrite zlen_cons in Hu. pose proof (zlen_nonneg c1). lia.
Qed.

Lemma empty_holds r c : ring_holds r c -> BYTES_IN_BUFFER r = 0 -> c = [].
Proof. intros H E. pose proof (rh_used _ _ H) as Hu. destruct c; [done|]. rewrite zlen_cons in Hu. pose proof (zlen_nonneg c). lia. Qed.

Lemma copyout_loop_ok fuel : forall past bufs remaining n data c,
  Forall (fun r => ring_holds r []) past -> chain_holds bufs c -> 0 <= remaining <= zlen c -> (Z.to_nat remaining + length bufs <= fuel)%nat ->
  exists bufs' n', copyout_loop fuel past bufs remaining n data = Done (true, bufs', n', data ++ take (Z.to_nat remaining) c) /\
    chain_holds bufs' (drop (Z.to_nat remaining) c) /\ (n = u32 n -> n' = u32 (n - remaining)).
Proof.
  induction fuel as [|fuel IH]; intros past bufs remaining n data c Hp Hb Hr Hf; cbn [copyout_loop]; destruct (Z.eqb_spec remaining 0) as [->|Hn].
  1,3: exists (past ++ bufs), n; rewrite app_nil_r, drop_0; split; [done|]; split; [apply chain_app; exists [], c; split; [done|]; split; [by apply chain_empty|done]|by rewrite Z.sub_0_r].
  { lia. }
  destruct bufs as [|r bufs]; [simpl in Hb; subst c; unfold zlen in Hr; simpl in Hr; lia|]. simpl in Hf. destruct Hb as (c1 & c2 & -> & H1 & H2).
  destruct (Z.eqb_spec (BYTES_IN_BUFFER r) 0) as [E|Hne].
  - pose proof (empty_holds r c1 H1 E) as ->. dred. rewrite (proj2 (Z.eqb_eq _ _) E). apply IH; [by apply Forall_app; split; [|by constructor]|done|done|lia].
  - destruct (ready_cases r (rh_head _ _ H1) (rh_tail _ _ H1) Hne) as [Hr1 _]. set (k := if remaining <? ready_bytes r then remaining else ready_bytes r).
    assert (Hk : 0 < k <= ready_bytes r /\ k <= remaining) by (subst k; destruct (Z.ltb_spec remaining (ready_bytes r)); lia).
    destruct (get_ring_ok r c1 k H1 (proj1 Hk) Hne) as (r' & -> & H1'). dred. pose proof (rh_used _ _ H1) as Hu. rewrite zlen_app in Hr.
    assert (Hd : drop (Z.to_nat k) c1 ++ c2 = drop (Z.to_nat k) (c1 ++ c2)) by (rewrite drop_app_le by (unfold zlen in *; lia); done).
    assert (Ht : take (Z.to_nat remaining) (c1 ++ c2) = take (Z.to_nat k) c1 ++ take (Z.to_nat (remaining - k)) (drop (Z.to_nat k) c1 ++ c2)).
    { rewrite Hd. rewrite <- (take_app_le c1 c2 (Z.to_nat k)) by (unfold zlen in *; lia). rewrite <- (take_drop (Z.to_nat k) (c1 ++ c2)) at 1.
      rewrite take_app_ge by (rewrite length_take; lia). f_equal. rewrite length_take, length_app. f_equal. unfold zlen in *. lia. }
    assert (Hdd : drop (Z.to_nat remaining) (c1 ++ c2) = drop (Z.to_nat (remaining - k)) (drop (Z.to_nat k) c1 ++ c2)).
    { rewrite Hd, drop_drop. f_equal. lia. }
    assert (Hz : zlen (drop (Z.to_nat k) c1 ++ c2) = zlen c1 + zlen c2 - k) by (rewrite zlen_app; unfold zlen in *; rewrite length_drop; lia).
    rewrite Ht, Hdd, app_assoc. destruct (Z.eqb_spec (BYTES_IN_BUFFER r') 0) as [E'|_].
    + pose proof (empty_holds _ _ H1' E') as Hem. rewrite Hem in *. simpl app in *.
      destruct (IH (past ++ [r']) bufs (remaining - k) (u32 (n - k)) (data ++ take (Z.to_nat k) c1) c2) as (bufs' & n' & -> & H' & Hn'); [by apply Forall_app; split; [|by constructor]|done|lia|lia|].
      exists bufs', n'. split; [done|]. split; [done|]. intros _. rewrite (Hn' ltac:(unfold u32; by rewrite Z.mod_mod)). unfold u32. rewrite Zminus_mod_idemp_l. f_equal. lia.
    + destruct (IH past (r' :: bufs) (remaining - k) (u32 (n - k)) (data ++ take (Z.to_nat k) c1) (drop (Z.to_nat k) c1 ++ c2)) as (bufs' & n' & -> & H' & Hn'); [done|by exists (drop (Z.to_nat k) c1), c2|lia|simpl; lia|].
      exists bufs', n'. split; [done|]. split; [done|]. intros _. rewrite (Hn' ltac:(unfold u32; by rewrite Z.mod_mod)). unfold u32. rewrite Zminus_mod_idemp_l. f_equal. lia.
Qed.

(** ** The socket *)
Lemma zlen_0_nil {A} (l : list A) : zlen l = 0 -> l = [].
Proof. unfold zlen. intros H. apply nil_length_inv. lia. Qed.
Lemma free_room r c : ring_holds r c -> BUFFER_BYTES_FREE r = OMAPI_BUF_SIZE - 1 - zlen c /\ room r <= BUFFER_BYTES_FREE r.
Proof. intros [_ H2 H3 H4 _]. rewrite H4. destruct (bytes_cases r H2 H3) as [(? & -> & -> & ->)|(? & -> & -> & ->)]; lia. Qed.

Lemma reader_loop_ok fuel : forall front last n avail c1 c2,
  chain_holds front c1 -> ring_holds last c2 -> (Z.to_nat (BUFFER_BYTES_FREE last) <= fuel)%nat ->
  exists nothing bufs n' k, reader_loop fuel front last n (BUFFER_BYTES_FREE last) avail = Done (nothing, bufs, n', drop k avail) /\
    chain_holds bufs (c1 ++ c2 ++ take k avail) /\ (k <= length avail)%nat /\ (n = u32 n -> n' = u32 (n + Z.of_nat k)) /\
    (nothing = true -> k = length avail) /\ (BUFFER_BYTES_FREE last <> 0 -> avail <> [] -> (0 < k)%nat).
Proof.
  induction fuel as [|fuel IH]; intros front last n avail c1 c2 H1 H2 Hf; cbn [reader_loop]; destruct (Z.eqb_spec (BUFFER_BYTES_FREE last) 0) as [E|Hn].
  1,3: exists false, (front ++ [last]), n, 0%nat; rewrite drop_0, take_0, app_nil_r; split; [done|]; split; [by apply chain_snoc|]; split; [lia|]; split; [by rewrite Z.add_0_r|]; split; [done|intros; congruence].
  { destruct (free_room last c2 H2). pose proof (room_positive last c2 H2 Hn). lia. }
  pose proof (room_positive last c2 H2 Hn) as Hr. destruct (free_room last c2 H2) as [Hfr Hrf]. set (data := take (Z.to_nat (room last)) avail).
  assert (Hz : zlen data <= room last) by (unfold data, zlen; rewrite length_take; lia).
  destruct data as [|x data0] eqn:Ed.
  { assert (avail = []) as ->. { destruct avail; [done|]. unfold data in Ed. destruct (Z.to_nat (room last)) eqn:Ek; [lia|done]. }
    exists true, (front ++ [last]), n, 0%nat. rewrite app_nil_r. split; [done|]. split; [by apply chain_snoc|]. split; [done|]. split; [by rewrite Z.add_0_r|done]. }
  rewrite <- Ed in *. assert (Hpos : 0 < zlen data) by (rewrite Ed, zlen_cons; pose proof (zlen_nonneg data0); lia).
  destruct (put_ring_ok last c2 data H2) as (last' & Ep & H2'); [lia|]. rewrite Ep. dred.
  destruct (free_room last' _ H2') as [Hfr' _]. rewrite zlen_app in Hfr'.
  destruct (Z.ltb_spec (zlen data) (room last)) as [Hlt|Hge].
  - assert (Hall : length avail = length data /\ (length avail < Z.to_nat (room last))%nat) by (unfold data, zlen in *; rewrite length_take in *; lia).
    assert (Hd : data = avail) by (apply take_ge; lia). exists false, (front ++ [last']), (u32 (n + zlen data)), (length avail).
    rewrite !drop_ge by lia. rewrite take_ge by lia. split; [done|]. split; [rewrite <- Hd; by apply chain_snoc|]. split; [lia|]. split; [intros _; by rewrite Hd|].
    split; [done|]. intros _ _. rewrite <- Hd. unfold zlen in Hpos. lia.
  - assert (Hl : length data = Z.to_nat (room last)) by (unfold zlen in *; lia).
    rewrite (u32_small (BUFFER_BYTES_FREE last - zlen data)) by (unfold OMAPI_BUF_SIZE in *; pose proof (zlen_nonneg c2); lia).
    replace (BUFFER_BYTES_FREE last - zlen data) with (BUFFER_BYTES_FREE last') by lia.
    destruct (IH front last' (u32 (n + zlen data)) (drop (Z.to_nat (room last)) avail) c1 (c2 ++ data) H1 H2') as (nothing & bufs & n' & k & -> & Hc & Hk & Hn' & Hres & _); [lia|].
    exists nothing, bufs, n', (length data + k)%nat. rewrite drop_drop, <- Hl. split; [done|]. split.
    { rewrite <- app_assoc in Hc. replace (take (length data + k) avail) with (data ++ take k (drop (length data) avail)); [rewrite Hl; exact Hc|].
      rewrite Hl. unfold data. by rewrite take_take_drop. }
    rewrite length_drop in Hk, Hres. assert (Hla : (length data <= length avail)%nat) by (unfold data; rewrite length_take; lia).
    split; [lia|]. split; [|split; [intros Hno; specialize (Hres Hno); lia|intros _ _; unfold zlen in Hpos; lia]].
    intros _. rewrite (Hn' ltac:(unfold u32; by rewrite Z.mod_mod)), u32_add_u32. f_equal. unfold zlen. lia.
Qed.

(** A call of [write] that did not take everything. *)
Definition write_stopped (writes : list written) (r : result) : Prop :=
  r = R_INPROGRESS \/ exists e, Failed e ∈ writes /\ r = write_error e.
Definition write_ok (w : written) : Prop := match w with Wrote k => 0 <= k | Failed _ => True end.

Lemma writer_loop_ok fuel : forall past bufs writes sent c,
  Forall (fun r => ring_holds r []) past -> chain_holds bufs c -> zlen c < 2 ^ 32 -> Forall write_ok writes ->
  (length c + length bufs <= fuel)%nat ->
  exists r bufs' k, writer_loop fuel past bufs (zlen c) writes sent = Done (r, bufs', zlen (drop k c), sent ++ take k c) /\
    chain_holds bufs' (drop k c) /\ (k <= length c)%nat /\ (r = R_SUCCESS /\ k = length c \/ write_stopped writes r).
Proof.
  induction fuel as [|fuel IH]; intros past bufs writes sent c Hp Hb Hc Ha Hf; cbn [writer_loop]; destruct (Z.eqb_spec (zlen c) 0) as [E|Hn].
  1,3: apply zlen_0_nil in E; subst c;
    exists R_SUCCESS, (past ++ bufs), 0%nat; rewrite app_nil_r; split; [done|]; split; [apply chain_app; exists [], []; split; [done|]; split; [by apply chain_empty|done]|]; split; [lia|by left].
  { unfold zlen in Hn. lia. }
  destruct bufs as [|r bufs]; [simpl in Hb; subst c; done|]. simpl in Hf. destruct Hb as (c1 & c2 & -> & H1 & H2).
  destruct (Z.eqb_spec (BYTES_IN_BUFFER r) 0) as [E|Hne].
  { pose proof (empty_holds r c1 H1 E) as ->. simpl app in *. apply IH; [by apply Forall_app; split; [|by constructor]|done|done|done|lia]. }
  destruct (ready_cases r (rh_head _ _ H1) (rh_tail _ _ H1) Hne) as [Hr1 _]. pose proof (rh_used _ _ H1) as Hu. cbv zeta.
  assert (Hsame : forall res, write_stopped writes res -> exists r0 bufs' k,
    Done (res, past ++ r :: bufs, zlen (c1 ++ c2), sent) = Done (r0, bufs', zlen (drop k (c1 ++ c2)), sent ++ take k (c1 ++ c2)) /\
    chain_holds bufs' (drop k (c1 ++ c2)) /\ (k <= length (c1 ++ c2))%nat /\ (r0 = R_SUCCESS /\ k = length (c1 ++ c2) \/ write_stopped writes r0)).
  { intros res Hres. exists res, (past ++ r :: bufs), 0%nat. rewrite drop_0, take_0, app_nil_r. split; [done|]. split; [|split; [lia|by right]].
    apply chain_app. exists [], (c1 ++ c2). split; [done|]. split; [by apply chain_empty|]. by exists c1, c2. }
  destruct writes as [|[k0|e] writes].
  { apply Hsame. by left. }
  2:{ apply Hsame. right. exists e. split; [constructor|done]. }
  pose proof (Forall_inv Ha) as Hk0. cbv beta in Hk0. simpl in Hk0. cbn [drop].
  set (w := if k0 <? ready_bytes r then k0 else ready_bytes r).
  assert (Hw : 0 <= w <= ready_bytes r) by (subst w; destruct (Z.ltb_spec k0 (ready_bytes r)); lia).
  destruct (Z.eqb_spec w 0) as [Ew|Nw]; [apply Hsame; by left|].
  destruct (get_ring_ok r c1 w H1 ltac:(lia) Hne) as (r' & -> & H1'). dred.
  assert (Hwl : (Z.to_nat w <= length c1)%nat) by (unfold zlen in *; lia).
  assert (Hd : drop (Z.to_nat w) (c1 ++ c2) = drop (Z.to_nat w) c1 ++ c2) by (by rewrite drop_app_le).
  assert (Ht : take (Z.to_nat w) (c1 ++ c2) = take (Z.to_nat w) c1) by (by rewrite take_app_le).
  assert (Hz : u32 (zlen (c1 ++ c2) - w) = zlen (drop (Z.to_nat w) (c1 ++ c2))).
  { rewrite u32_small; unfold zlen in *; rewrite ?length_drop, length_app in *; lia. }
  rewrite Hz. destruct (Z.eqb_spec w (ready_bytes r)) as [Ewr|Nwr]; cbn [negb].
  2:{ exists R_INPROGRESS, (past ++ r' :: bufs), (Z.to_nat w). rewrite Ht. split; [done|]. split.
      - apply chain_app. exists [], (drop (Z.to_nat w) (c1 ++ c2)). split; [done|]. split; [by apply chain_empty|]. rewrite Hd. by exists (drop (Z.to_nat w) c1), c2.
      - split; [rewrite length_app; lia|right; by left]. }
  assert (Hgo : forall past' bufs', Forall (fun r => ring_holds r []) past' -> chain_holds bufs' (drop (Z.to_nat w) (c1 ++ c2)) -> (length bufs' <= S (length bufs))%nat ->
    exists r0 bufs2 k, writer_loop fuel past' bufs' (zlen (drop (Z.to_nat w) (c1 ++ c2))) writes (sent ++ take (Z.to_nat w) c1) =
      Done (r0, bufs2, zlen (drop k (c1 ++ c2)), sent ++ take k (c1 ++ c2)) /\
      chain_holds bufs2 (drop k (c1 ++ c2)) /\ (k <= length (c1 ++ c2))%nat /\ (r0 = R_SUCCESS /\ k = length (c1 ++ c2) \/ write_stopped (Wrote k0 :: writes) r0)).
  { intros past' bufs' Hp' Hb' Hl'. destruct (IH past' bufs' writes (sent ++ take (Z.to_nat w) c1) (drop (Z.to_nat w) (c1 ++ c2))) as (r0 & bufs2 & k & -> & Hc2 & Hk & Hr0).
    - done.
    - done.
    - unfold zlen in *. rewrite length_drop. lia.
    - exact (Forall_inv_tail Ha).
    - rewrite length_drop, length_app in *. lia.
    - exists r0, bufs2, (Z.to_nat w + k)%nat. rewrite <- Ht. rewrite <- (app_assoc sent), take_take_drop, !drop_drop in *. split; [done|]. split; [done|].
      rewrite length_drop in *. split; [rewrite length_app in *; lia|]. destruct Hr0 as [[-> Hr0]|Hr0]; [left; split; [done|rewrite length_app in *; lia]|right].
      destruct Hr0 as [Hr0|(e & He & Hr0)]; [by left|right; exists e; split; [by constructor|done]]. }
  destruct (Z.eqb_spec (BYTES_IN_BUFFER r') 0) as [E'|_].
  - apply Hgo; [apply Forall_app; split; [done|constructor; [|done]]|rewrite Hd; by rewrite (empty_holds _ _ H1' E')|lia].
    pose proof (empty_holds _ _ H1' E') as Hem. by rewrite Hem in H1'.
  - apply Hgo; [done|rewrite Hd; by exists (drop (Z.to_nat w) c1), c2|simpl; lia].
Qed.

(** ** The specification: two queues of bytes *)
Record queue_conn := mk_q { q_in : list Z; q_out : list Z; q_needed : Z; q_state : connection_state }.
Record conn_holds (c : conn) (q : queue_conn) : Prop := {
  ch_in : chain_holds (inbufs c) (q_in q);
  ch_in_bytes : in_bytes c = zlen (q_in q) /\ zlen (q_in q) < 2 ^ 32;
  ch_out : chain_holds (outbufs c) (q_out q);
  ch_out_bytes : out_bytes c = zlen (q_out q) /\ zlen (q_out q) < 2 ^ 32;
  ch_rest : bytes_needed c = q_needed q /\ cstate c = q_state q }.

Inductive op :=
  | CopyIn (data : list Z) | CopyOut (size : Z) | Reader (shutdown : bool) (avail : list Z) (e : option errno) | Writer (writes : list written)
  | Require_ (n : Z) | Disconnect (force shutdown : bool).
(** The result; the bytes that are taken out, or written, or left on the socket;
    whether [ready] is signalled. *)
Definition observation : Type := result * list Z * bool.
Definition run_op (c : conn) (o : op) : outcome (observation * conn) :=
  match o with
  | CopyIn data => '(r, c) ← copyin c data; Done (r, [], false, c)
  | CopyOut size => '(r, d, c) ← copyout c size; Done (r, d, false, c)
  | Reader shutdown avail e => '(r, rest, ready, c) ← reader shutdown c avail e; Done (r, rest, ready, c)
  | Writer writes => '(r, sent, c) ← writer c writes; Done (r, sent, false, c)
  | Require_ n => let (r, c) := connection_require c n in Done (r, [], false, c)
  | Disconnect force shutdown => Done (R_SUCCESS, [], false, disconnect force shutdown c)
  end.

Definition q_disconnect (force shutdown : bool) (q : queue_conn) : queue_conn :=
  if negb force && bool_decide (q_state q = Disconnecting) then q
  else if negb force && shutdown && (0 <? zlen (q_out q)) then mk_q (q_in q) (q_out q) (q_needed q) Disconnecting
  else mk_q [] [] (q_needed q) Closed.
Definition q_set_in (i : list Z) (q : queue_conn) : queue_conn := mk_q i (q_out q) (q_needed q) (q_state q).
Definition q_set_out (o : list Z) (q : queue_conn) : queue_conn := mk_q (q_in q) o (q_needed q) (q_state q).

Definition sends (q : queue_conn) : Prop := match q_state q with Disconnecting | Closed => False | _ => True end.
Definition q_read_error (shutdown : bool) (e : option errno) (q : queue_conn) : option (result * queue_conn) :=
  match e with
  | None => Some (R_SHUTTINGDOWN, q_disconnect false shutdown q)
  | Some EWOULDBLOCK => None
  | Some ECONNRESET => Some (R_SHUTTINGDOWN, q_disconnect true shutdown q)
  | Some EIO => Some (R_IOERROR, q)
  | Some EINVAL => Some (R_INVALIDARG, q)
  | Some _ => Some (R_UNEXPECTED, q)
  end.

Inductive queue_step (q : queue_conn) : op -> observation -> queue_conn -> Prop :=
  | step_copyin data : sends q -> queue_step q (CopyIn data) (R_SUCCESS, [], false) (q_set_out (q_out q ++ data) q)
  | step_copyin_not data : ~ sends q -> queue_step q (CopyIn data) (R_NOTCONNECTED, [], false) q
  | step_copyout size : size <= zlen (q_in q) ->
      queue_step q (CopyOut size) (R_SUCCESS, take (Z.to_nat size) (q_in q), false) (q_set_in (drop (Z.to_nat size) (q_in q)) q)
  | step_copyout_not size : zlen (q_in q) < size -> queue_step q (CopyOut size) (R_NOMORE, [], false) q
  | step_reader_full shutdown avail e : OMAPI_BUF_SIZE - 1 <= zlen (q_in q) -> q_needed q < zlen (q_in q) ->
      queue_step q (Reader shutdown avail e) (R_SUCCESS, avail, false) q
  | step_reader shutdown avail e k : (k <= length avail)%nat -> (avail <> [] -> (0 < k)%nat) ->
      let q' := q_set_in (q_in q ++ take k avail) q in
      queue_step q (Reader shutdown avail e) (R_SUCCESS, drop k avail, q_needed q <=? zlen (q_in q')) q'
  | step_reader_error shutdown avail e r q' : q_read_error shutdown e (q_set_in (q_in q ++ avail) q) = Some (r, q') ->
      queue_step q (Reader shutdown avail e) (r, [], false) q'
  | step_writer writes k r : (k <= length (q_out q))%nat -> (r = R_SUCCESS /\ k = length (q_out q) \/ write_stopped writes r) ->
      queue_step q (Writer writes) (r, take k (q_out q), false) (q_set_out (drop k (q_out q)) q)
  | step_writer_last writes : q_state q = Disconnecting -> queue_step q (Writer writes) (R_SHUTTINGDOWN, q_out q, false) (q_disconnect true true (q_set_out [] q))
  | step_require n : queue_step q (Require_ n) (if n <=? zlen (q_in q) then R_SUCCESS else R_NOTYET, [], false) (mk_q (q_in q) (q_out q) n (q_state q))
  | step_disconnect force shutdown : queue_step q (Disconnect force shutdown) (R_SUCCESS, [], false) (q_disconnect force shutdown q).

Definition op_ok (o : op) : Prop :=
  match o with CopyOut size => 0 <= size | Writer writes => Forall write_ok writes | _ => True end.
Definition op_size (o : op) : Z := match o with CopyIn data => zlen data | Reader _ avail _ => zlen avail | _ => 0 end.
Definition held (q : queue_conn) : Z := zlen (q_in q) + zlen (q_out q).

Lemma disconnect_ok force shutdown c q : conn_holds c q -> conn_holds (disconnect force shutdown c) (q_disconnect force shutdown q).
Proof.
  intros [H1 H2 H3 [H4 H4'] [H5 H6]]. unfold disconnect, q_disconnect. rewrite H6, H4. destruct (negb force && bool_decide (q_state q = Disconnecting)); [by split|].
  destruct (negb force && shutdown && (0 <? zlen (q_out q))); split; simpl; try done; try by rewrite zlen_nil.
Qed.

Lemma copyin_ok c q data : conn_holds c q -> zlen (q_out q) + zlen data < 2 ^ 32 ->
  exists r c', copyin c data = Done (r, c') /\ exists q', queue_step q (CopyIn data) (r, [], false) q' /\ conn_holds c' q'.
Proof.
  intros [H1 H2 H3 [H4 H4'] [H5 H6]] Hl. unfold copyin. rewrite H6.
  assert (Hs : (bool_decide (q_state q = Disconnecting) || bool_decide (q_state q = Closed)) = false /\ sends q \/
    (bool_decide (q_state q = Disconnecting) || bool_decide (q_state q = Closed)) = true /\ ~ sends q).
  { unfold sends. destruct (q_state q); [by left..|right|right]; by split; [|intros []]. }
  destruct Hs as [[-> Hs]|[-> Hs]].
  - destruct (split_last_ok _ _ H3) as (c1 & c2 & E & Hc1 & Hc2). destruct (split_last (outbufs c)) as [front last]. simpl in Hc1, Hc2.
    destruct (copyin_loop_ok (length data) front last data (out_bytes c) c1 c2 Hc1 Hc2 (le_n _)) as (bufs & n & -> & Hb & Hn). dred.
    eexists _, _. split; [done|]. eexists. split; [by constructor|]. split; simpl; [done|done| | |done].
    + by rewrite E, <- app_assoc.
    + pose proof (zlen_nonneg (q_out q)). pose proof (zlen_nonneg data). rewrite Hn by (rewrite H4, u32_small; lia). rewrite H4, zlen_app, u32_small by lia. lia.
  - eexists _, _. split; [done|]. eexists. split; [by constructor|by split].
Qed.

Lemma copyout_ok c q size : conn_holds c q -> 0 <= size ->
  exists r d c', copyout c size = Done (r, d, c') /\ exists q', queue_step q (CopyOut size) (r, d, false) q' /\ conn_holds c' q'.
Proof.
  intros [H1 [H2 H2'] H3 H4 H5] Hs. unfold copyout. rewrite H2. destruct (Z.ltb_spec (zlen (q_in q)) size) as [Hlt|Hge].
  - eexists _, _, _. split; [done|]. eexists. split; [by constructor|by split].
  - destruct (copyout_loop_ok (Z.to_nat size + length (inbufs c)) [] (inbufs c) size (zlen (q_in q)) [] (q_in q)) as (bufs & n & -> & Hb & Hn); [constructor|done|lia|lia|]. dred.
    eexists _, _, _. split; [done|]. eexists. split; [by constructor|]. split; simpl; [by apply drop_empty_ok| |done..].
    pose proof (zlen_nonneg (q_in q)). rewrite Hn by (rewrite u32_small; lia). rewrite u32_small by lia. unfold zlen in *. rewrite length_drop. lia.
Qed.

Lemma read_error_ok shutdown e c q : conn_holds c q ->
  match read_error shutdown e c with
  | Some (r, c') => exists q', q_read_error shutdown e q = Some (r, q') /\ conn_holds c' q'
  | None => e = Some EWOULDBLOCK
  end.
Proof. intros Hc. destruct e as [[]|]; simpl; try (eexists; split; [reflexivity|]); by try apply disconnect_ok. Qed.

Lemma reader_ok shutdown c q avail e : conn_holds c q -> zlen (q_in q) + zlen avail < 2 ^ 32 ->
  exists r rest ready c', reader shutdown c avail e = Done (r, rest, ready, c') /\ exists q', queue_step q (Reader shutdown avail e) (r, rest, ready) q' /\ conn_holds c' q'.
Proof.
  intros Hc Hl. pose proof Hc as [H1 [H2 H2'] H3 H4 [H5 H6]]. unfold reader. rewrite H2, H5. destruct ((OMAPI_BUF_SIZE - 1 <=? zlen (q_in q)) && (q_needed q <? zlen (q_in q))) eqn:Ef.
  { apply andb_true_iff in Ef as [E1%Z.leb_le E2%Z.ltb_lt]. eexists _, _, _, _. split; [done|]. eexists. split; [by constructor|done]. }
  destruct (split_last_ok _ _ H1) as (c1 & c2 & E & Hc1 & Hc2). destruct (split_last (inbufs c)) as [front last]. simpl in Hc1, Hc2.
  destruct (make_room front last c1 c2 Hc1 Hc2) as (front' & last' & c1' & c2' & -> & H1' & H2'' & Ec & Hr).
  destruct (reader_loop_ok (Z.to_nat (BUFFER_BYTES_FREE last')) front' last' (zlen (q_in q)) avail c1' c2' H1' H2'' (le_n _)) as (nothing & bufs & n & k & -> & Hb & Hk & Hn & Hall & Hpos). dred.
  destruct (free_room _ _ H2'') as [_ Hfree]. pose proof (zlen_nonneg (q_in q)).
  assert (Hq : conn_holds (set_in bufs n c) (q_set_in (q_in q ++ take k avail) q)).
  { split; simpl; [by rewrite E, Ec, <- app_assoc| |done|done|done]. rewrite zlen_app. assert (zlen (take k avail) = Z.of_nat k) as -> by (unfold zlen; rewrite length_take; lia).
    unfold zlen in Hl at 2. rewrite Hn by (rewrite u32_small; lia). rewrite u32_small by lia. lia. }
  assert (Hgo : exists q', queue_step q (Reader shutdown avail e) (R_SUCCESS, drop k avail, bytes_needed (set_in bufs n c) <=? in_bytes (set_in bufs n c)) q' /\ conn_holds (set_in bufs n c) q').
  { eexists. split; [|exact Hq]. rewrite (proj1 (ch_in_bytes _ _ Hq)), (proj1 (ch_rest _ _ Hq)). apply (step_reader q shutdown avail e k); [done|]. apply Hpos. lia. }
  destruct nothing; [|by eexists _, _, _, _].
  pose proof (read_error_ok shutdown e _ _ Hq) as He. destruct (read_error shutdown e (set_in bufs n c)) as [[r c']|]; [|by eexists _, _, _, _].
  destruct He as (q' & He & Hc'). specialize (Hall eq_refl). rewrite drop_ge by lia. rewrite take_ge in He by lia.
  eexists _, _, _, _. split; [done|]. exists q'. split; [by apply step_reader_error|done].
Qed.

Lemma writer_ok c q writes : conn_holds c q -> Forall write_ok writes ->
  exists r sent c', writer c writes = Done (r, sent, c') /\ exists q', queue_step q (Writer writes) (r, sent, false) q' /\ conn_holds c' q'.
Proof.
  intros Hc Ha. pose proof Hc as [H1 H2 H3 [H4 H4'] [H5 H6]]. unfold writer. rewrite H4. destruct (Z.eqb_spec (zlen (q_out q)) 0) as [E|Hn].
  { apply zlen_0_nil in E. eexists _, _, _. split; [done|]. exists (q_set_out (drop 0 (q_out q)) q). split; [|by rewrite drop_0; destruct q].
    replace (@nil Z) with (take 0 (q_out q)) by done. apply step_writer; [lia|left; rewrite E; done]. }
  destruct (writer_loop_ok (Z.to_nat (zlen (q_out q)) + length (outbufs c)) [] (outbufs c) writes [] (q_out q)) as (r & bufs & k & -> & Hb & Hk & Hr); [constructor|done|done|done|unfold zlen; lia|]. dred.
  assert (Hq : forall bufs', chain_holds bufs' (drop k (q_out q)) -> conn_holds (set_out bufs' (zlen (drop k (q_out q))) c) (q_set_out (drop k (q_out q)) q)).
  { intros bufs' Hb'. split; simpl; try done. split; [done|]. unfold zlen in *. rewrite length_drop. lia. }
  destruct Hr as [[-> ->]|Hr].
  - pose proof (Hq _ (drop_empty_ok _ _ Hb)) as Hq'. rewrite drop_ge in * by lia. rewrite take_ge by lia. rewrite zlen_nil in *. change (0 =? 0) with true. rewrite andb_true_l. cbn [cstate set_out]. rewrite H6.
    case_bool_decide as Hd.
    + eexists _, _, _. split; [done|]. eexists. split; [by apply step_writer_last|]. by apply disconnect_ok.
    + eexists _, _, _. split; [done|]. eexists. split; [|exact Hq'].
      pose proof (step_writer q writes (length (q_out q)) R_SUCCESS (le_n _) (or_introl (conj eq_refl eq_refl))) as Hst.
      rewrite take_ge, drop_ge in Hst by lia. exact Hst.
  - exists r, (take k (q_out q)), (set_out bufs (zlen (drop k (q_out q))) c). split.
    + by destruct Hr as [->|([] & _ & ->)].
    + eexists. split; [|by apply Hq]. apply step_writer; [done|by right].
Qed.

Lemma held_step q o obs q' : queue_step q o obs q' -> held q' <= held q + op_size o.
Proof.
  assert (Hd : forall f s q, held (q_disconnect f s q) <= held q).
  { intros f s q0. unfold q_disconnect, held. pose proof (zlen_nonneg (q_in q0)). pose proof (zlen_nonneg (q_out q0)). destruct (negb f && bool_decide _); [done|]. destruct (negb f && s && _); cbn [q_in q_out]; unfold zlen in *; simpl length; lia. }
  assert (Ht : forall k (l : list Z), zlen (take k l) <= zlen l /\ zlen (drop k l) <= zlen l) by (intros k l; unfold zlen; rewrite length_take, length_drop; lia).
  unfold held in *. destruct 1; cbn [op_size q_in q_out q_set_in q_set_out]; rewrite ?zlen_app; try lia.
  - pose proof (zlen_nonneg data). lia.
  - pose proof (Ht (Z.to_nat size) (q_in q)). lia.
  - pose proof (zlen_nonneg avail). lia.
  - subst q'. cbn [q_in q_out q_set_in]. rewrite zlen_app. pose proof (Ht k avail). lia.
  - assert (He : zlen (q_in q') + zlen (q_out q') <= zlen (q_in (q_set_in (q_in q ++ avail) q)) + zlen (q_out q)).
    { destruct e as [[]|]; cbn [q_read_error] in H; simplify_eq; try done; apply (Hd _ _ (q_set_in (q_in q ++ avail) q)). }
    cbn [q_in q_out q_set_in] in He. rewrite zlen_app in He. lia.
  - pose proof (Ht k (q_out q)). lia.
  - etransitivity; [apply Hd|]. cbn [q_in q_out q_set_out]. unfold zlen. simpl length. lia.
  - pose proof (Hd force shutdown q). lia.
Qed.

Lemma run_op_ok c q o : conn_holds c q -> op_ok o -> held q + op_size o < 2 ^ 32 ->
  exists obs c', run_op c o = Done (obs, c') /\ exists q', queue_step q o obs q' /\ conn_holds c' q'.
Proof.
  intros Hc Ho Hh. unfold held in Hh. pose proof (zlen_nonneg (q_in q)). pose proof (zlen_nonneg (q_out q)). destruct o as [data|size|shutdown avail e|writes|n|force shutdown]; cbn [run_op op_size op_ok] in *.
  - destruct (copyin_ok c q data Hc) as (r & c' & -> & q' & Hq); [lia|]. dred. eauto 6.
  - destruct (copyout_ok c q size Hc Ho) as (r & d & c' & -> & q' & Hq). dred. eauto 6.
  - destruct (reader_ok shutdown c q avail e Hc) as (r & rest & ready & c' & -> & q' & Hq); [lia|]. dred. eauto 6.
  - destruct (writer_ok c q writes Hc Ho) as (r & sent & c' & -> & q' & Hq). dred. eauto 6.
  - unfold connection_require. eexists _, _. split; [done|]. eexists. rewrite (proj1 (ch_in_bytes _ _ Hc)). split; [apply step_require|]. destruct Hc as [H1 [H2 H2'] H3 H4 [H5 H6]]. by split.
  - eexists _, _. split; [done|]. eexists. split; [apply step_disconnect|]. by apply disconnect_ok.
Qed.

Fixpoint run_ops (c : conn) (ops : list op) : outcome (list observation * conn) :=
  match ops with
  | [] => Done ([], c)
  | o :: ops => '(obs, c) ← run_op c o; '(rest, c) ← run_ops c ops; Done (obs :: rest, c)
  end.
Inductive queue_steps : queue_conn -> list op -> list observation -> queue_conn -> Prop :=
  | steps_nil q : queue_steps q [] [] q
  | steps_cons q o obs q1 ops rest q2 : queue_step q o obs q1 -> queue_steps q1 ops rest q2 -> queue_steps q (o :: ops) (obs :: rest) q2.

(** C32: The chains of ring buffers of a connection are two queues of bytes:
    whatever is read from the socket, put in, taken out and written, in
    whatever portions, each operation returns, stays within the buffers and
    gives what it would give if the bytes were in two lists; nothing is lost,
    doubled or out of order. *)
Theorem buffers_are_queues ops : forall c q,
  conn_holds c q -> Forall op_ok ops -> held q + foldr Z.add 0 (map op_size ops) < 2 ^ 32 ->
  exists obs c' q', run_ops c ops = Done (obs, c') /\ queue_steps q ops obs q' /\ conn_holds c' q'.
Proof.
  induction ops as [|o ops IH]; intros c q Hc Ho Hh; cbn [run_ops].
  - exists [], c, q. split; [done|]. split; [constructor|done].
  - simpl in Hh. assert (H0 : 0 <= foldr Z.add 0 (map op_size ops)).
    { clear. induction ops as [|o ops IH]; simpl; [done|]. assert (0 <= op_size o) by (destruct o; simpl; try lia; apply zlen_nonneg). lia. }
    destruct (run_op_ok c q o Hc (Forall_inv Ho)) as (obs & c1 & -> & q1 & Hq1 & Hc1); [lia|]. dred. pose proof (held_step _ _ _ _ Hq1).
    destruct (IH c1 q1 Hc1 (Forall_inv_tail Ho)) as (rest & c2 & q2 & -> & Hq2 & Hc2); [lia|]. dred.
    exists (obs :: rest), c2, q2. split; [done|]. split; [by econstructor|done].
Qed.

Definition new_conn : conn := mk_conn [] 0 0 [] 0 Connected.
Lemma new_conn_holds : conn_holds new_conn (mk_q [] [] 0 Connected).
Proof. by split. Qed.
(** Nine thousand bytes go through three buffers. *)
Definition long : list Z := map (fun i => i mod 256) (seqZ 0 9000).
Lemma buffers_are_queues_witness : exists obs c' q',
  run_ops new_conn [CopyIn long; Writer [Wrote 5; Wrote 4000; Wrote 100]; CopyIn long; Reader true [1; 2; 3] (Some EWOULDBLOCK); CopyOut 2; Reader true [4] None] = Done (obs, c') /\
  queue_steps (mk_q [] [] 0 Connected) [CopyIn long; Writer [Wrote 5; Wrote 4000; Wrote 100]; CopyIn long; Reader true [1; 2; 3] (Some EWOULDBLOCK); CopyOut 2; Reader true [4] None] obs q' /\ conn_holds c' q'.
Proof.
  apply (buffers_are_queues [CopyIn long; Writer [Wrote 5; Wrote 4000; Wrote 100]; CopyIn long; Reader true [1; 2; 3] (Some EWOULDBLOCK); CopyOut 2; Reader true [4] None] new_conn (mk_q [] [] 0 Connected)).
  - exact new_conn_holds.
  - repeat constructor; vm_compute; discriminate.
  - vm_compute. reflexivity.
Defined.
