(* ===== verification/FailoverMsg.v ===== *)
(** * Messages between failover peers (server/failover.c, server/stables.c)

    How the messages of the protocol are made of options and written to the
    connection, and which options each of them has.  The connection is that of
    OmapiBuffer. *)

From stdpp Require Import base tactics list numbers gmap strings pretty.
From S2P Require Import Prelude LeaseHash LeaseDb FailoverBind Failover OmapiBuffer.

#[local] Open Scope Z_scope.

(** ** Options *)
Definition FTO_ADDRESSES_TRANSFERRED : Z := 1.
Definition FTO_ASSIGNED_IP_ADDRESS : Z := 2.
Definition FTO_BINDING_STATUS : Z := 3.
Definition FTO_CLIENT_IDENTIFIER : Z := 4.
Definition FTO_CHADDR : Z := 5.
Definition FTO_CLTT : Z := 6.
Definition FTO_REPLY_OPTIONS : Z := 7.
Definition FTO_REQUEST_OPTIONS : Z := 8.
Definition FTO_DDNS : Z := 9.
Definition FTO_DELAYED_SERVICE : Z := 10.
Definition FTO_HBA : Z := 11.
Definition FTO_IP_FLAGS : Z := 12.
Definition FTO_LEASE_EXPIRY : Z := 13.
Definition FTO_MAX_UNACKED : Z := 14.
Definition FTO_MCLT : Z := 15.
Definition FTO_MESSAGE : Z := 16.
Definition FTO_MESSAGE_DIGEST : Z := 17.
Definition FTO_RECEIVE_TIMER : Z := 19.
Definition FTO_PROTOCOL_VERSION : Z := 20.
Definition FTO_REJECT_REASON : Z := 21.
Definition FTO_RELATIONSHIP_NAME : Z := 22.
Definition FTO_SERVER_FLAGS : Z := 23.
Definition FTO_SERVER_STATE : Z := 24.
Definition FTO_STOS : Z := 25.
Definition FTO_TLS_REPLY : Z := 26.
Definition FTO_TLS_REQUEST : Z := 27.
Definition FTO_VENDOR_CLASS : Z := 28.
Definition FTO_VENDOR_OPTIONS : Z := 29.
Definition FTO_MAX : Z := FTO_VENDOR_OPTIONS.
Definition FTB_ADDRESSES_TRANSFERRED : Z := 2.
Definition FTB_REPLY_OPTIONS : Z := 128.
Definition FTB_REQUEST_OPTIONS : Z := 256.
Definition FTB_DDNS : Z := 512.
Definition FTB_DELAYED_SERVICE : Z := 1024.
Definition FTB_HBA : Z := 2048.
Definition FTB_MAX_UNACKED : Z := 16384.
Definition FTB_MCLT : Z := 32768.
Definition FTB_MESSAGE : Z := 65536.
Definition FTB_MESSAGE_DIGEST : Z := 131072.
Definition FTB_RECEIVE_TIMER : Z := 524288.
Definition FTB_PROTOCOL_VERSION : Z := 1048576.
Definition FTB_RELATIONSHIP_NAME : Z := 4194304.
Definition FTB_SERVER_FLAGS : Z := 8388608.
Definition FTB_SERVER_STATE : Z := 16777216.
Definition FTB_TLS_REPLY : Z := 67108864.
Definition FTB_TLS_REQUEST : Z := 134217728.
Definition FTB_VENDOR_CLASS : Z := 268435456.
Definition FTB_VENDOR_OPTIONS : Z := 536870912.
Definition FTM_POOLREQ : Z := 1.
Definition FTM_POOLRESP : Z := 2.
Definition FTM_BNDUPD : Z := 3.
Definition FTM_BNDACK : Z := 4.
Definition FTM_CONNECT : Z := 5.
Definition FTM_CONNECTACK : Z := 6.
Definition FTM_UPDREQALL : Z := 7.
Definition FTM_UPDDONE : Z := 8.
Definition FTM_UPDREQ : Z := 9.
Definition FTM_STATE : Z := 10.
Definition FTM_CONTACT : Z := 11.
Definition FTM_DISCONNECT : Z := 12.
Definition FTM_MAX : Z := FTM_DISCONNECT.
Definition FTR_TIMEMISMATCH : Z := 4.
Definition FTR_INVALID_MCLT : Z := 5.
Definition FTR_DUP_CONNECTION : Z := 7.
Definition FTR_INVALID_PARTNER : Z := 8.
Definition FTR_TLS_UNSUPPORTED : Z := 9.
Definition FTR_TLS_UNCONFIGURED : Z := 10.
Definition FTR_TLS_REQUIRED : Z := 11.
Definition FTR_DIGEST_UNSUPPORTED : Z := 12.
Definition FTR_DIGEST_UNCONFIGURED : Z := 13.
Definition FTR_VERSION_MISMATCH : Z := 14.
Definition FTR_OUTDATED_BIND_INFO : Z := 15.
Definition FTR_NO_TRAFFIC : Z := 17.
Definition FTR_HBA_CONFLICT : Z := 18.
Definition FTR_IP_DIGEST_FAILURE : Z := 20.
Definition FTR_IP_MISSING_DIGEST : Z := 21.
Definition FTR_UNKNOWN : Z := 254.

Inductive ft_type := FT_UINT8 | FT_IPADDR | FT_UINT32 | FT_BYTES | FT_TEXT_OR_BYTES | FT_DDNS | FT_DDNS1 | FT_UINT16 | FT_TEXT | FT_UNDEF | FT_DIGEST.
#[export] Instance ft_type_eq_dec : EqDecision ft_type.
Proof. solve_decision. Defined.
(** The [offset] of a field is its name here. *)
Record failover_option_info := mk_info { code : Z; ftype : ft_type; num_present : Z; offset : string; bit : Z }.
#[local] Open Scope string_scope.
Definition ft_options : list failover_option_info :=
  [mk_info 0 FT_UNDEF 0 "" 0; 
   mk_info FTO_ADDRESSES_TRANSFERRED FT_UINT32 1 "addresses_transferred" FTB_ADDRESSES_TRANSFERRED; 
   mk_info FTO_ASSIGNED_IP_ADDRESS FT_IPADDR 1 "assigned_addr" FTB_ASSIGNED_IP_ADDRESS; 
   mk_info FTO_BINDING_STATUS FT_UINT8 1 "binding_status" FTB_BINDING_STATUS; 
   mk_info FTO_CLIENT_IDENTIFIER FT_BYTES 0 "client_identifier" FTB_CLIENT_IDENTIFIER; 
   mk_info FTO_CHADDR FT_BYTES 0 "chaddr" FTB_CHADDR; 
   mk_info FTO_CLTT FT_UINT32 1 "cltt" FTB_CLTT; 
   mk_info FTO_REPLY_OPTIONS FT_BYTES 0 "reply_options" FTB_REPLY_OPTIONS; 
   mk_info FTO_REQUEST_OPTIONS FT_BYTES 0 "request_options" FTB_REQUEST_OPTIONS; 
   mk_info FTO_DDNS FT_DDNS 1 "ddns" FTB_DDNS; 
   mk_info FTO_DELAYED_SERVICE FT_UINT8 1 "delayed_service" FTB_DELAYED_SERVICE; 
   mk_info FTO_HBA FT_BYTES 0 "hba" FTB_HBA; 
   mk_info FTO_IP_FLAGS FT_UINT16 1 "ip_flags" FTB_IP_FLAGS; 
   mk_info FTO_LEASE_EXPIRY FT_UINT32 1 "expiry" FTB_LEASE_EXPIRY; 
   mk_info FTO_MAX_UNACKED FT_UINT32 1 "max_unacked" FTB_MAX_UNACKED; 
   mk_info FTO_MCLT FT_UINT32 1 "mclt" FTB_MCLT; 
   mk_info FTO_MESSAGE FT_TEXT 0 "message" FTB_MESSAGE; 
   mk_info FTO_MESSAGE_DIGEST FT_BYTES 0 "message_digest" FTB_MESSAGE_DIGEST; 
   mk_info FTO_POTENTIAL_EXPIRY FT_UINT32 1 "potential_expiry" FTB_POTENTIAL_EXPIRY; 
   mk_info FTO_RECEIVE_TIMER FT_UINT32 1 "receive_timer" FTB_RECEIVE_TIMER; 
   mk_info FTO_PROTOCOL_VERSION FT_UINT8 1 "protocol_version" FTB_PROTOCOL_VERSION; 
   mk_info FTO_REJECT_REASON FT_UINT8 1 "reject_reason" FTB_REJECT_REASON; 
   mk_info FTO_RELATIONSHIP_NAME FT_BYTES 0 "relationship_name" FTB_RELATIONSHIP_NAME; 
   mk_info FTO_SERVER_FLAGS FT_UINT8 1 "server_flags" FTB_SERVER_FLAGS; 
   mk_info FTO_SERVER_STATE FT_UINT8 1 "server_state" FTB_SERVER_STATE; 
   mk_info FTO_STOS FT_UINT32 1 "stos" FTB_STOS; 
   mk_info FTO_TLS_REPLY FT_UINT8 1 "tls_reply" FTB_TLS_REPLY; 
   mk_info FTO_TLS_REQUEST FT_UINT8 1 "tls_request" FTB_TLS_REQUEST; 
   mk_info FTO_VENDOR_CLASS FT_BYTES 0 "vendor_class" FTB_VENDOR_CLASS; 
   mk_info FTO_VENDOR_OPTIONS FT_BYTES 0 "vendor_options" FTB_VENDOR_OPTIONS].
#[local] Close Scope string_scope.
Definition bits (l : list Z) : Z := foldr Z.lor 0 l.
Definition update_bits : list Z :=
  [FTB_ASSIGNED_IP_ADDRESS; FTB_BINDING_STATUS; FTB_CLIENT_IDENTIFIER; FTB_CHADDR; FTB_DDNS; FTB_IP_FLAGS; FTB_LEASE_EXPIRY;
   FTB_POTENTIAL_EXPIRY; FTB_STOS; FTB_CLTT; FTB_REQUEST_OPTIONS; FTB_REPLY_OPTIONS].
(** By the type of the message. *)
Definition fto_allowed : list Z :=
  [0; 0; FTB_ADDRESSES_TRANSFERRED;
   bits update_bits;
   bits (update_bits ++ [FTB_REJECT_REASON; FTB_MESSAGE]);
   bits [FTB_RELATIONSHIP_NAME; FTB_MAX_UNACKED; FTB_RECEIVE_TIMER; FTB_VENDOR_CLASS; FTB_PROTOCOL_VERSION; FTB_TLS_REQUEST; FTB_MCLT; FTB_HBA];
   bits [FTB_RELATIONSHIP_NAME; FTB_MAX_UNACKED; FTB_RECEIVE_TIMER; FTB_VENDOR_CLASS; FTB_PROTOCOL_VERSION; FTB_TLS_REPLY; FTB_REJECT_REASON; FTB_MESSAGE];
   0; 0; 0;
   bits [FTB_SERVER_STATE; FTB_SERVER_FLAGS; FTB_STOS];
   0;
   bits [FTB_REJECT_REASON; FTB_MESSAGE]].
Definition ft_sizes (t : ft_type) : Z :=
  match t with
  | FT_UINT8 => 1 | FT_IPADDR => 4 | FT_UINT32 => 4 | FT_BYTES => 1 | FT_TEXT_OR_BYTES => 1 | FT_DDNS => 0 | FT_DDNS1 => 0 | FT_UINT16 => 2
  | FT_TEXT => 1 | FT_UNDEF => 0 | FT_DIGEST => 0
  end.

(** A [failover_message_t] that has been received.  The content of a field is
    the list of its elements: one number, the four bytes of an address, the
    bytes of a text; fields that were not received are absent, their memory is
    zero. *)
Record failover_message := mk_msg { present_bits : Z; msg_time : Z; msg_xid : Z; msg_type : Z; fields : gmap string (list Z) }.
Definition empty_message : failover_message := mk_msg 0 0 0 0 ∅.
Definition number (m : failover_message) (f : string) : Z := match fields m !! f with Some (x :: _) => x | _ => 0 end.
Definition octets (m : failover_message) (f : string) : list Z := default [] (fields m !! f).
Definition address (m : failover_message) (f : string) : list Z := default [0; 0; 0; 0] (fields m !! f).
Definition has_option (m : failover_message) (b : Z) : bool := negb (Z.land (present_bits m) b =? 0).

(** ** [dhcp_failover_make_option]

    The arguments after [obufmax], which are fetched with [va_arg]. *)
Inductive va := Int (n : Z) | Ptr (data : list Z).
Definition va_int (args : list va) : outcome (Z * list va) := match args with Int n :: args => Done (n, args) | _ => Fault end.
Definition va_ptr (args : list va) : outcome (list Z * list va) := match args with Ptr d :: args => Done (d, args) | _ => Fault end.

Fixpoint put_ints (n : nat) (enc : Z -> list Z) (args : list va) : outcome (list Z) :=
  match n with
  | O => Done []
  | S n => '(v, args) ← va_int args; rest ← put_ints n enc args; Done (enc v ++ rest)
  end.
(** An address that has not four bytes gives [null_failover_option]. *)
Fixpoint put_addresses (n : nat) (ilen : Z) (args : list va) : outcome (option (list Z)) :=
  match n with
  | O => Done (Some [])
  | S n =>
      '(iaddr, args) ← va_ptr args;
      if negb (ilen =? 4) then Done None
      else d ← rdn iaddr 0 ilen; rest ← put_addresses n ilen args; Done (option_map (app d) rest)
  end.
Definition put_data (info : failover_option_info) (args : list va) : outcome (option (list Z)) :=
  if bool_decide (ftype info = FT_DDNS) || bool_decide (ftype info = FT_DDNS1) then
    let count := if bool_decide (ftype info = FT_DDNS) then 1 else 2 in
    '(n, args) ← va_int args;
    '(a, args) ← va_int args;
    '(b, args) ← (if count =? 2 then '(b, args) ← va_int args; Done ([u8 b], args) else Done ([], args));
    '(bval, _) ← va_ptr args;
    d ← rdn bval 0 (u32 (u32 (n + count) - count));
    Done (Some (u8 a :: b ++ d))
  else
    '(count, args) ← (if num_present info =? 0 then va_int args else Done (num_present info, args));
    match ftype info with
    | FT_UINT8 => Some <$> put_ints (Z.to_nat count) (fun v => [u8 v]) args
    | FT_UINT16 => Some <$> put_ints (Z.to_nat count) (be_bytes 2) args
    | FT_UINT32 => Some <$> put_ints (Z.to_nat count) (be_bytes 4) args
    | FT_IPADDR => '(ilen, args) ← va_int args; put_addresses (Z.to_nat count) ilen args
    | FT_BYTES | FT_DIGEST | FT_TEXT | FT_TEXT_OR_BYTES => '(p, _) ← va_ptr args; Some <$> rdn p 0 count
    | _ => Fatal
    end.
(** The bytes of the option; [None] is [null_failover_option]. *)
Definition make_option (code : Z) (args : list va) : outcome (option (list Z)) :=
  if (code <? 1) || (FTO_MAX <? code) then Done None
  else
    info ← rd ft_options code;
    if bool_decide (ftype info = FT_UNDEF) then Done None
    else
      d ← put_data info args;
      Done (option_map (fun d => be_bytes 2 code ++ be_bytes 2 (zlen d) ++ d) d).

(** [dhcp_failover_option_printf], with the text that is printed. *)
Definition option_printf (code : Z) (text : list Z) : outcome (option (list Z)) :=
  if 256 <=? zlen text then Fatal else make_option code [Int (zlen text); Ptr text].

(** ** [dhcp_failover_put_message] *)
Inductive put_option := Skip | Null | Option (data : list Z).
Definition option_data (o : put_option) : list Z := match o with Option d => d | _ => [] end.

(** The next write, if the last one was successful. *)
Definition then_put (m : outcome (result * conn)) (f : conn -> outcome (result * conn)) : outcome (result * conn) :=
  '(r, c) ← m; match r with R_SUCCESS => f c | _ => Done (r, c) end.
(** [contact] is the [max_response_delay] of the peer if this is the connection
    to it; the result has the time at which the next contact message is due. *)
Definition put_message (cur_time : Z) (contact : option Z) (c : conn) (msg_type xid : Z) (options : list put_option) :
    outcome (result * conn * option Z) :=
  if existsb (fun o => match o with Null => true | _ => false end) options then Done (R_INVALIDARG, c, None)
  else
    let opbuf := concat (map option_data options) in
    let size := u32 (zlen opbuf) in
    '(r, c) ←
      then_put (put_uint16 c (size + 12)) (fun c =>
      then_put (copyin c [u8 msg_type]) (fun c =>
      then_put (copyin c [12]) (fun c =>
      then_put (put_uint32 c cur_time) (fun c =>
      then_put (put_uint32 c xid) (fun c =>
      if size =? 0 then Done (R_SUCCESS, c) else copyin c opbuf)))));
    match r with
    | R_SUCCESS => Done (r, c, option_map (fun d => cur_time + Z.quot (s32 d) 3) contact)
    | _ => Done (r, disconnect true true c, None)
    end.

(** ** The messages

    A message is its type and the calls that make its options. *)
Inductive option_call := Skipped | Make (code : Z) (args : list va) | Printed (code : Z) (text : list Z).
Definition call_option (o : option_call) : outcome put_option :=
  let given (d : option (list Z)) := match d with Some d => Option d | None => Null end in
  match o with
  | Skipped => Done Skip
  | Make code args => d ← make_option code args; Done (given d)
  | Printed code text => d ← option_printf code text; Done (given d)
  end.
Fixpoint call_options (l : list option_call) : outcome (list put_option) :=
  match l with
  | [] => Done []
  | o :: l => o ← call_option o; l ← call_options l; Done (o :: l)
  end.
Record outgoing := mk_outgoing { out_type : Z; out_options : list option_call }.
Definition send_outgoing (cur_time : Z) (contact : option Z) (c : conn) (xid : Z) (m : outgoing) : outcome (result * conn * option Z) :=
  options ← call_options (out_options m);
  put_message cur_time contact c (out_type m) xid options.

Definition text_of (s : string) : list Z := map (fun a => Z.of_N (Ascii.N_of_ascii a)) (String.list_ascii_of_string s).
#[local] Open Scope string_scope.
Definition reject_reason_print (reason : Z) : string :=
  if ((255 <? reason) || (reason <? 0))%Z then "Reason code out of range."
  else if (reason =? FTR_ILLEGAL_IP_ADDR)%Z then "Illegal IP address (not part of any address pool)."
  else if (reason =? FTR_FATAL_CONFLICT)%Z then "Fatal conflict exists: address in use by other client."
  else if (reason =? FTR_MISSING_BINDINFO)%Z then "Missing binding information."
  else if (reason =? FTR_TIMEMISMATCH)%Z then "Connection rejected, time mismatch too great."
  else if (reason =? FTR_INVALID_MCLT)%Z then "Connection rejected, invalid MCLT."
  else if (reason =? FTR_MISC_REJECT)%Z then "Connection rejected, unknown reason."
  else if (reason =? FTR_DUP_CONNECTION)%Z then "Connection rejected, duplicate connection."
  else if (reason =? FTR_INVALID_PARTNER)%Z then "Connection rejected, invalid failover partner."
  else if (reason =? FTR_TLS_UNSUPPORTED)%Z then "TLS not supported."
  else if (reason =? FTR_TLS_UNCONFIGURED)%Z then "TLS supported but not configured."
  else if (reason =? FTR_TLS_REQUIRED)%Z then "TLS required but not supported by partner."
  else if (reason =? FTR_DIGEST_UNSUPPORTED)%Z then "Message digest not supported."
  else if (reason =? FTR_DIGEST_UNCONFIGURED)%Z then "Message digest not configured."
  else if (reason =? FTR_VERSION_MISMATCH)%Z then "Protocol version mismatch."
  else if (reason =? FTR_OUTDATED_BIND_INFO)%Z then "Outdated binding information."
  else if (reason =? FTR_LESS_CRIT_BIND_INFO)%Z then "Less critical binding information."
  else if (reason =? FTR_NO_TRAFFIC)%Z then "No traffic within sufficient time."
  else if (reason =? FTR_HBA_CONFLICT)%Z then "Hash bucket assignment conflict."
  else if (reason =? FTR_IP_NOT_RESERVED)%Z then "IP not reserved on this server."
  else if (reason =? FTR_IP_DIGEST_FAILURE)%Z then "Message digest failed to compare."
  else if (reason =? FTR_IP_MISSING_DIGEST)%Z then "Missing message digest."
  else if (reason =? FTR_UNKNOWN)%Z then "Unknown Error."
  else "Undefined-" +:+ pretty reason +:+ ": This reason code is not defined in the protocol standard.".
Definition PACKAGE_VERSION : string := "4.3.6-P1".
Definition vendor_class : list Z := text_of ("isc-" +:+ PACKAGE_VERSION).
#[local] Close Scope string_scope.
Definition DHCP_FAILOVER_VERSION : Z := 1.

(** What the messages take from a [dhcp_failover_state_t]. *)
Record peer := mk_peer { peer_name : list Z; max_flying_updates : Z; max_response_delay : Z; peer_mclt : Z; peer_hba : option (list Z) }.

Definition contact_message : outgoing := mk_outgoing FTM_CONTACT [].
Definition poolreq_message : outgoing := mk_outgoing FTM_POOLREQ [].
Definition update_request_message : outgoing := mk_outgoing FTM_UPDREQ [].
Definition update_request_all_message : outgoing := mk_outgoing FTM_UPDREQALL [].
Definition update_done_message : outgoing := mk_outgoing FTM_UPDDONE [].
Definition poolresp_message (leases : Z) : outgoing := mk_outgoing FTM_POOLRESP [Make FTO_ADDRESSES_TRANSFERRED [Int leases]].
Definition state_message (state server_flags stos : Z) : outgoing :=
  mk_outgoing FTM_STATE [Make FTO_SERVER_STATE [Int state]; Make FTO_SERVER_FLAGS [Int server_flags]; Make FTO_STOS [Int stos]].
Definition connect_message (p : peer) : outgoing :=
  mk_outgoing FTM_CONNECT
    [Make FTO_RELATIONSHIP_NAME [Int (zlen (peer_name p)); Ptr (peer_name p)];
     Make FTO_MAX_UNACKED [Int (max_flying_updates p)];
     Make FTO_RECEIVE_TIMER [Int (max_response_delay p)];
     Printed FTO_VENDOR_CLASS vendor_class;
     Make FTO_PROTOCOL_VERSION [Int DHCP_FAILOVER_VERSION];
     Make FTO_TLS_REQUEST [Int 0; Int 0];
     Make FTO_MCLT [Int (peer_mclt p)];
     match peer_hba p with Some h => Make FTO_HBA [Int 32; Ptr h] | None => Skipped end].
(** The answer to [m]; a [reason] of 0 accepts. *)
Definition connectack_message (m : failover_message) (p : option peer) (reason : Z) (errmsg : option (list Z)) : outgoing :=
  let of_peer (f : peer -> option_call) := match p with Some p => f p | None => Skipped end in
  mk_outgoing FTM_CONNECTACK
    [match p with
     | Some p => Make FTO_RELATIONSHIP_NAME [Int (zlen (peer_name p)); Ptr (peer_name p)]
     | None =>
         if has_option m FTB_RELATIONSHIP_NAME
         then Make FTO_RELATIONSHIP_NAME [Int (zlen (octets m "relationship_name")); Ptr (octets m "relationship_name")] else Skipped
     end;
     of_peer (fun p => Make FTO_MAX_UNACKED [Int (max_flying_updates p)]);
     of_peer (fun p => Make FTO_RECEIVE_TIMER [Int (max_response_delay p)]);
     Printed FTO_VENDOR_CLASS vendor_class;
     Make FTO_PROTOCOL_VERSION [Int DHCP_FAILOVER_VERSION];
     if has_option m FTB_TLS_REQUEST then Make FTO_TLS_REPLY [Int 0; Int 0] else Skipped;
     if negb (reason =? 0) then Make FTO_REJECT_REASON [Int reason] else Skipped;
     match errmsg with
     | Some t => if negb (reason =? 0) then Make FTO_MESSAGE [Int (zlen t); Ptr t] else Skipped
     | None => Skipped
     end].
(** The text of a refusal, if none is given. *)
Definition refusal_text (reason : Z) (message : option (list Z)) : option (list Z) :=
  match message with Some t => Some t | None => if negb (reason =? 0) then Some (text_of (reject_reason_print reason)) else None end.
Definition disconnect_message (reason : Z) (message : option (list Z)) : outgoing :=
  mk_outgoing FTM_DISCONNECT
    [Make FTO_REJECT_REASON [Int reason];
     match refusal_text reason message with Some t => Make FTO_MESSAGE [Int (zlen t); Ptr t] | None => Skipped end].
(** The lease at [ip_addr]. *)
Definition bind_update_message (ip_addr : list Z) (l : ldata) : outgoing :=
  let ipf := Z.lor (if has_flag l RESERVED_LEASE then FTF_IP_FLAG_RESERVE else 0) (if has_flag l BOOTP_LEASE then FTF_IP_FLAG_BOOTP else 0) in
  mk_outgoing FTM_BNDUPD
    [Make FTO_ASSIGNED_IP_ADDRESS [Int (zlen ip_addr); Ptr ip_addr];
     Make FTO_BINDING_STATUS [Int (desired_binding_state l)];
     if negb (zlen (uid_key l) =? 0) then Make FTO_CLIENT_IDENTIFIER [Int (zlen (uid_key l)); Ptr (uid_key l)] else Skipped;
     if negb (zlen (hardware_addr l) =? 0) then Make FTO_CHADDR [Int (zlen (hardware_addr l)); Ptr (hardware_addr l)] else Skipped;
     Make FTO_LEASE_EXPIRY [Int (ends l)];
     Make FTO_POTENTIAL_EXPIRY [Int (tstp l)];
     Make FTO_STOS [Int (starts l)];
     if negb (cltt l =? 0) then Make FTO_CLTT [Int (cltt l)] else Skipped;
     if negb (ipf =? 0) then Make FTO_IP_FLAGS [Int ipf] else Skipped].
Definition bind_ack_message (m : failover_message) (reason : Z) (message : option (list Z)) : outgoing :=
  mk_outgoing FTM_BNDACK
    [Make FTO_ASSIGNED_IP_ADDRESS [Int 4; Ptr (address m "assigned_addr")];
     if negb (reason =? 0) then Make FTO_REJECT_REASON [Int reason] else Skipped;
     match refusal_text reason message with
     | Some t => if negb (reason =? 0) then Make FTO_MESSAGE [Int (zlen t); Ptr t] else Skipped
     | None => Skipped
     end].

(** What the machine of Failover sends, as messages with their transaction. *)
Definition effect_message (e : FailoverQueue.effect) : option (Z * outgoing) :=
  match e with
  | FailoverQueue.State xid state server_flags stos => Some (xid, state_message state server_flags stos)
  | FailoverQueue.UpdReq xid => Some (xid, update_request_message)
  | FailoverQueue.UpdReqAll xid => Some (xid, update_request_all_message)
  | FailoverQueue.UpdDone xid => Some (xid, update_done_message)
  | _ => None
  end.
