(* ===== verification/FailoverMsgOk.v ===== *)
(** * What is sent between failover peers

    The options of a message as pairs of a code and a value, the bytes that
    stand for them, and that the calls that make a message produce these bytes.
    The messages of the code satisfy what this asks for. *)

From stdpp Require Import base tactics list numbers gmap strings.
From S2P Require Import Prelude LeaseHash LeaseDb FailoverBind Failover OmapiBuffer OmapiBufferOk FailoverMsg.

#[local] Open Scope Z_scope.

(** ** Options *)
Definition info_of (code : Z) : failover_option_info := nth (Z.to_nat code) ft_options (mk_info 0 FT_UNDEF 0 "" 0).
Definition type_of (code : Z) : ft_type := ftype (info_of code).
(** The options that can be made: all but the DDNS option, whose entry in the
    table nothing can satisfy. *)
Definition sendable_code (code : Z) : bool := (1 <=? code) && (code <=? FTO_MAX) && negb (code =? FTO_DDNS).

Definition item : Type := Z * list Z.
Definition numbers_below (b : Z) (v : list Z) : Prop := match v with [x] => 0 <= x < b | _ => False end.
Definition wf_value (t : ft_type) (v : list Z) : Prop :=
  match t with
  | FT_UINT8 => numbers_below 256 v
  | FT_UINT16 => numbers_below 65536 v
  | FT_UINT32 => numbers_below (2 ^ 32) v
  | FT_IPADDR => bytes v /\ zlen v = 4
  | FT_BYTES | FT_TEXT => bytes v
  | _ => False
  end.
Definition wire_data (t : ft_type) (v : list Z) : list Z :=
  match t with
  | FT_UINT16 => be_bytes 2 (hd 0 v)
  | FT_UINT32 => be_bytes 4 (hd 0 v)
  | _ => v
  end.
Definition wire (i : item) : list Z :=
  let d := wire_data (type_of i.1) i.2 in be_bytes 2 i.1 ++ be_bytes 2 (zlen d) ++ d.
Definition item_ok (i : item) : Prop := sendable_code i.1 = true /\ wf_value (type_of i.1) i.2.

(** ** The calls that make options *)
Definition value_of (t : ft_type) (args : list va) : list Z :=
  match t, args with
  | FT_UINT8, Int n :: _ => [u8 n]
  | FT_UINT16, Int n :: _ => [u16 n]
  | FT_UINT32, Int n :: _ => [u32 n]
  | _, Int _ :: Ptr p :: _ => p
  | _, _ => []
  end.
Definition args_ok (t : ft_type) (args : list va) : Prop :=
  match t, args with
  | (FT_UINT8 | FT_UINT16 | FT_UINT32), Int _ :: _ => True
  | FT_IPADDR, Int n :: Ptr p :: _ => n = 4 /\ zlen p = 4 /\ bytes p
  | (FT_BYTES | FT_TEXT), Int n :: Ptr p :: _ => n = zlen p /\ bytes p
  | _, _ => False
  end.
Definition items_of (o : option_call) : list item :=
  match o with
  | Skipped => []
  | Make code args => [(code, value_of (type_of code) args)]
  | Printed code text => [(code, text)]
  end.
Definition call_ok (o : option_call) : Prop :=
  match o with
  | Skipped => True
  | Make code args => sendable_code code = true /\ args_ok (type_of code) args
  | Printed code text => sendable_code code = true /\ bytes text /\ zlen text < 256 /\ (type_of code = FT_BYTES \/ type_of code = FT_TEXT)
  end.
Definition outgoing_items (m : outgoing) : list item := concat (map items_of (out_options m)).

(** What the table says about these options. *)
Definition row_ok (n : nat) (i : failover_option_info) : bool :=
  (bit i =? 2 ^ Z.of_nat n) &&
  match ftype i with
  | FT_UINT8 | FT_UINT16 | FT_UINT32 | FT_IPADDR => num_present i =? 1
  | FT_BYTES | FT_TEXT => num_present i =? 0
  | _ => false
  end.
Lemma table_ok n : sendable_code (Z.of_nat n) = true ->
  exists i, ft_options !! n = Some i /\ i = info_of (Z.of_nat n) /\ row_ok n i = true.
Proof.
  intros Hn. assert (Hl : (n < 30)%nat). { unfold sendable_code, FTO_MAX, FTO_VENDOR_OPTIONS in Hn. zbool. lia. }
  do 30 (destruct n as [|n]; [eexists; split; [reflexivity|split; [reflexivity|]]; vm_compute in Hn; vm_compute; congruence|]). lia.
Qed.
Lemma code_info code : sendable_code code = true -> rd ft_options code = Done (info_of code) /\ row_ok (Z.to_nat code) (info_of code) = true /\ 1 <= code < 30.
Proof.
  intros Hc. assert (Hb : 1 <= code < 30). { unfold sendable_code, FTO_MAX, FTO_VENDOR_OPTIONS in Hc. zbool. lia. }
  destruct (table_ok (Z.to_nat code)) as (i & Hi & E & Hr); [by rewrite Z2Nat.id by lia|]. rewrite Z2Nat.id in E by lia. subst i.
  split; [|done]. apply rd_Done. split; [lia|done].
Qed.

Lemma rdn_whole (p : list Z) n : n = zlen p -> rdn p 0 n = Done p.
Proof.
  intros ->. rewrite rdn_in by (pose proof (zlen_nonneg p); lia). unfold zlen. rewrite Nat2Z.id. simpl. by rewrite drop_0, firstn_all.
Qed.

Lemma put_one enc n args : put_ints (Z.to_nat 1) enc (Int n :: args) = Done (enc n).
Proof. change (Z.to_nat 1) with 1%nat. cbn [put_ints va_int]. dred. by rewrite app_nil_r. Qed.
Lemma u8_idem n : u8 (u8 n) = u8 n.
Proof. unfold u8. by rewrite Z.mod_mod. Qed.

Lemma put_data_ok code args : sendable_code code = true -> args_ok (type_of code) args ->
  put_data (info_of code) args = Done (Some (wire_data (type_of code) (value_of (type_of code) args))).
Proof.
  intros Hc Ha. destruct (code_info code Hc) as (_ & Hr & _). unfold row_ok, type_of in *. apply andb_true_iff in Hr as [_ Hr]. unfold put_data.
  destruct (ftype (info_of code)); try done; rewrite !bool_decide_eq_false_2 by done; cbn [orb];
    apply Z.eqb_eq in Hr; rewrite Hr; destruct args as [|[n|p] args]; try done; cbn [Z.eqb]; dred; cbn [wire_data value_of hd va_int]; dred.
  - destruct args as [|[n'|p] args]; try done. destruct Ha as (-> & Hp & _). change (Z.to_nat 1) with 1%nat. cbn [put_addresses va_ptr]. dred.
    change (negb (4 =? 4)) with false. cbv iota. rewrite rdn_whole by done. dred. simpl option_map. by rewrite app_nil_r.
  - rewrite put_one. dred. by rewrite <- (be_bytes_mod 4).
  - destruct args as [|[n'|p] args]; try done. destruct Ha as [-> _]. cbn [va_ptr]. dred. by rewrite rdn_whole.
  - rewrite put_one. dred. by rewrite <- (be_bytes_mod 2).
  - destruct args as [|[n'|p] args]; try done. destruct Ha as [-> _]. cbn [va_ptr]. dred. by rewrite rdn_whole.
Qed.

Lemma make_option_ok code args : sendable_code code = true -> args_ok (type_of code) args ->
  make_option code args = Done (Some (wire (code, value_of (type_of code) args))).
Proof.
  intros Hc Ha. destruct (code_info code Hc) as (Hi & Hr & Hb). unfold make_option.
  rewrite (proj2 (Z.ltb_ge code 1)) by lia. rewrite (proj2 (Z.ltb_ge FTO_MAX code)) by (unfold FTO_MAX, FTO_VENDOR_OPTIONS; lia). cbn [orb].
  rewrite Hi. dred. rewrite bool_decide_eq_false_2.
  - by rewrite put_data_ok.
  - intros E. unfold row_ok in Hr. rewrite E in Hr. by rewrite andb_false_r in Hr.
Qed.

Lemma call_option_ok o : call_ok o -> exists p, call_option o = Done p /\ p <> Null /\ option_data p = concat (map wire (items_of o)).
Proof.
  destruct o as [|code args|code text]; cbn [call_ok call_option items_of map concat].
  - intros _. by exists Skip.
  - intros [Hc Ha]. rewrite make_option_ok by done. dred. eexists. split; [done|]. split; [done|]. by rewrite app_nil_r.
  - intros (Hc & Hb & Hl & Ht). unfold option_printf. rewrite (proj2 (Z.leb_gt _ _)) by done.
    rewrite make_option_ok; [|done|by destruct Ht as [-> | ->]]. dred. eexists. split; [done|]. split; [done|]. rewrite app_nil_r. by destruct Ht as [-> | ->].
Qed.
Lemma call_options_ok l : Forall call_ok l ->
  exists ps, call_options l = Done ps /\ existsb (fun o => match o with Null => true | _ => false end) ps = false /\
    concat (map option_data ps) = concat (map wire (concat (map items_of l))).
Proof.
  induction 1 as [|o l Ho _ IH]; cbn [call_options]; [by exists []|]. destruct (call_option_ok o Ho) as (p & -> & Hn & Hd), IH as (ps & -> & Hs & Hc). dred.
  exists (p :: ps). split; [done|]. simpl. rewrite Hd, Hc, map_app, concat_app. split; [by destruct p|done].
Qed.

Lemma items_ok o : call_ok o -> Forall item_ok (items_of o).
Proof.
  assert (Hu : forall n, 0 <= u8 n < 256 /\ 0 <= u16 n < 65536 /\ 0 <= u32 n < 2 ^ 32) by (intros n; unfold u8, u16, u32; repeat split; apply Z.mod_pos_bound; done).
  destruct o as [|code args|code text]; cbn [call_ok items_of]; [constructor|intros [Hc Ha]|intros (Hc & Hb & _ & Ht)];
    (constructor; [split; cbn [fst snd]; [done|]|done]).
  - destruct (type_of code); destruct args as [|[n|p] [|[n'|p'] args]]; try done; cbn [wf_value value_of numbers_below args_ok] in *; try apply (Hu n); tauto.
  - by destruct Ht as [-> | ->].
Qed.

(** ** The message *)
Definition frame (m : outgoing) (time xid : Z) : list Z :=
  let d := concat (map wire (outgoing_items m)) in
  be_bytes 2 (zlen d + 12) ++ [out_type m; 12] ++ be_bytes 4 time ++ be_bytes 4 xid ++ d.
Definition payload_size (m : outgoing) : Z := zlen (concat (map wire (outgoing_items m))).
Record outgoing_ok (m : outgoing) : Prop := {
  oo_type : 1 <= out_type m <= FTM_MAX;
  oo_calls : Forall call_ok (out_options m);
  oo_once : NoDup (outgoing_items m).*1;
  oo_size : payload_size m + 12 <= 2048 }.

Lemma zlen_frame m time xid : zlen (frame m time xid) = payload_size m + 12.
Proof. unfold frame, payload_size. rewrite !zlen_app, !zlen_be_bytes. change (zlen [out_type m; 12]) with 2. lia. Qed.

Lemma copyin_sends c q data : conn_holds c q -> sends q -> zlen (q_out q) + zlen data < 2 ^ 32 ->
  exists c', copyin c data = Done (R_SUCCESS, c') /\ conn_holds c' (q_set_out (q_out q ++ data) q).
Proof.
  intros Hc Hs Hl. destruct (copyin_ok c q data Hc Hl) as (r & c' & E & q' & Hq & Hc'). exists c'. inversion Hq; subst; [by rewrite E|done].
Qed.

Lemma send_calls_ok cur_time contact c q xid m :
  conn_holds c q -> sends q -> 0 <= out_type m < 256 -> Forall call_ok (out_options m) -> zlen (q_out q) + zlen (frame m cur_time xid) < 2 ^ 32 ->
  exists c' t, send_outgoing cur_time contact c xid m = Done (R_SUCCESS, c', t) /\ conn_holds c' (q_set_out (q_out q ++ frame m cur_time xid) q).
Proof.
  intros Hc Hs Ht Hcalls Hl. rewrite zlen_frame in Hl. unfold payload_size in *. pose proof (zlen_nonneg (q_out q)).
  destruct (call_options_ok _ Hcalls) as (ps & Eps & Hn & Hd). unfold send_outgoing. rewrite Eps. dred. unfold put_message. rewrite Hn. fold (outgoing_items m) in Hd. rewrite Hd.
  unfold frame. set (d := concat (map wire (outgoing_items m))) in *. pose proof (zlen_nonneg d). rewrite u32_small by lia. cbv zeta.
  assert (Hput : forall c q data k f, conn_holds c q -> sends q -> zlen (q_out q) + zlen data < 2 ^ 32 ->
    (forall c', conn_holds c' (q_set_out (q_out q ++ data) q) -> exists c2, f c' = Done (R_SUCCESS, c2) /\ conn_holds c2 k) ->
    exists c2, then_put (copyin c data) f = Done (R_SUCCESS, c2) /\ conn_holds c2 k).
  { clear. intros c q data k f Hc Hs Hl Hf. destruct (copyin_sends c q data Hc Hs Hl) as (c' & -> & Hc'). unfold then_put. dred. by apply Hf. }
  unfold put_uint16, put_uint32.
  assert (Hall : exists c2, then_put (copyin c (be_bytes 2 (zlen d + 12))) (fun c => then_put (copyin c [u8 (out_type m)]) (fun c => then_put (copyin c [12])
      (fun c => then_put (copyin c (be_bytes 4 cur_time)) (fun c => then_put (copyin c (be_bytes 4 xid)) (fun c => if zlen d =? 0 then Done (R_SUCCESS, c) else copyin c d))))) = Done (R_SUCCESS, c2) /\
      conn_holds c2 (q_set_out (q_out q ++ be_bytes 2 (zlen d + 12) ++ [out_type m; 12] ++ be_bytes 4 cur_time ++ be_bytes 4 xid ++ d) q)).
  { do 5 (eapply Hput; [eassumption|exact Hs|cbn [q_out q_set_out]; rewrite ?zlen_app, ?zlen_be_bytes; try change (zlen [_]) with 1; lia|clear dependent c; intros c Hc]).
    assert (Hu : u8 (out_type m) = out_type m) by (unfold u8; by apply Z.mod_small). rewrite Hu in Hc.
    destruct (Z.eqb_spec (zlen d) 0) as [E|_].
    - apply zlen_0_nil in E. exists c. split; [done|]. cbn [q_out q_set_out q_in q_needed q_state] in Hc. rewrite <- !app_assoc in Hc. replace (be_bytes 4 xid ++ d) with (be_bytes 4 xid) by (by rewrite E, app_nil_r). exact Hc.
    - destruct (copyin_sends c _ d Hc Hs) as (c2 & -> & Hc2); [cbn [q_out q_set_out]; rewrite ?zlen_app, ?zlen_be_bytes; change (zlen [out_type m]) with 1; change (zlen [12]) with 1; lia|].
      exists c2. split; [done|]. cbn [q_out q_set_out q_in q_needed q_state] in Hc2. rewrite <- !app_assoc in Hc2. exact Hc2. }
  destruct Hall as (c2 & -> & Hc2). dred. eexists _, _. split; [done|exact Hc2].
Qed.

Lemma send_outgoing_ok cur_time contact c q xid m :
  conn_holds c q -> sends q -> outgoing_ok m -> zlen (q_out q) + zlen (frame m cur_time xid) < 2 ^ 32 ->
  exists c' t, send_outgoing cur_time contact c xid m = Done (R_SUCCESS, c', t) /\ conn_holds c' (q_set_out (q_out q ++ frame m cur_time xid) q).
Proof. intros Hc Hs [Ht Hcalls _ _] Hl. apply send_calls_ok; try done. unfold FTM_MAX, FTM_DISCONNECT in Ht. lia. Qed.

(** Whether it can be sent or not. *)
Lemma send_total cur_time contact c q xid m :
  conn_holds c q -> 0 <= out_type m < 256 -> Forall call_ok (out_options m) -> zlen (q_out q) + zlen (frame m cur_time xid) < 2 ^ 32 ->
  exists r c' t q', send_outgoing cur_time contact c xid m = Done (r, c', t) /\ conn_holds c' q'.
Proof.
  intros Hc Ht Hcalls Hl. assert (Hdec : sends q \/ ~ sends q) by (unfold sends; destruct (q_state q); tauto). destruct Hdec as [Hs|Hs].
  { destruct (send_calls_ok cur_time contact c q xid m Hc Hs Ht Hcalls Hl) as (c' & t & E & Hc'). by eexists _, _, _, _. }
  destruct (call_options_ok _ Hcalls) as (ps & Eps & Hn & _). unfold send_outgoing. rewrite Eps. dred. unfold put_message. rewrite Hn. unfold then_put at 1, put_uint16 at 1.
  rewrite zlen_frame in Hl. unfold payload_size in Hl. pose proof (zlen_nonneg (concat (map wire (outgoing_items m)))).
  destruct (copyin_ok c q (be_bytes 2 (u32 (zlen (concat (map option_data ps))) + 12)) Hc) as (r & c' & E & q' & Hq & Hc'); [rewrite zlen_be_bytes; lia|]. rewrite E. dred.
  inversion Hq; subst; [by exfalso; apply Hs|].
  eexists _, _, _, _. split; [reflexivity|]. by eapply disconnect_ok.
Qed.

Lemma wire_size i n : item_ok i -> zlen i.2 <= n -> 4 <= n -> zlen (wire i) <= 4 + n.
Proof.
  intros Hi Hn H4. unfold wire. rewrite !zlen_app, !zlen_be_bytes. assert (zlen (wire_data (type_of i.1) i.2) <= n); [|lia].
  destruct (type_of i.1); cbn [wire_data]; rewrite ?zlen_be_bytes; lia.
Qed.
Lemma payload_bound m n : Forall call_ok (out_options m) -> 4 <= n -> Forall (fun i => zlen i.2 <= n) (outgoing_items m) -> payload_size m <= (4 + n) * zlen (outgoing_items m).
Proof.
  intros Hcalls Hn Hall. unfold payload_size. assert (Hi : Forall item_ok (outgoing_items m)).
  { unfold outgoing_items. clear Hall. induction Hcalls as [|o os Ho1 _ IH]; [constructor|]. cbn [map concat]. apply Forall_app. split; [by apply items_ok|done]. }
  revert Hall. induction Hi as [|i items Hi _ IH]; intros Hall; [unfold zlen; simpl; lia|]. cbn [map concat]. rewrite zlen_app, zlen_cons. pose proof (wire_size i n Hi (Forall_inv Hall) Hn). specialize (IH (Forall_inv_tail Hall)). lia.
Qed.

(** ** The messages of the code *)
Record peer_ok (p : peer) : Prop := {
  po_name : bytes (peer_name p) /\ zlen (peer_name p) <= 255;
  po_hba : match peer_hba p with Some h => bytes h /\ zlen h = 32 | None => True end }.
Definition text_ok (t : list Z) : Prop := bytes t /\ zlen t <= 1000.

Lemma text_bytes s : bytes (text_of s).
Proof.
  unfold text_of. apply Forall_forall. intros x Hx. apply list_elem_of_fmap in Hx as (a & -> & _). unfold byte. pose proof (Ascii.N_ascii_bounded a). lia.
Qed.

Lemma connectack_calls m p reason errmsg :
  match p with Some p => peer_ok p | None => True end -> bytes (octets m "relationship_name") -> match errmsg with Some t => bytes t | None => True end ->
  Forall call_ok (out_options (connectack_message m p reason errmsg)).
Proof.
  intros Hp Hn He. assert (Hv : call_ok (Printed FTO_VENDOR_CLASS vendor_class)).
  { split; [done|]. split; [apply text_bytes|]. split; [done|by left]. }
  unfold connectack_message. cbn [out_options]. repeat constructor; try exact Hv; try done.
  - destruct p as [p|]; [split; [done|split; [done|apply (po_name _ Hp)]]|]. destruct (has_option m FTB_RELATIONSHIP_NAME); [by split|done].
  - by destruct p.
  - by destruct p.
  - by destruct (has_option m FTB_TLS_REQUEST).
  - by destruct (negb (reason =? 0)).
  - destruct errmsg as [t|]; [|done]. by destruct (negb (reason =? 0)).
Qed.
