(* ===== verification/FailoverLink.v ===== *)
(** * Receiving failover messages (server/failover.c)

    What a connection between two servers does when bytes have arrived: the
    length of a message is awaited, then the message; its options are read, a
    connect message is matched with a failover peer, and the message is handed
    to the state machine.  The connection is that of OmapiBuffer; the state
    machine, the timeout of contact messages and the texts of the log are
    parameters.  The results of most reads are not looked at by the code: a
    variable keeps its value then, and reading a local variable that has none
    is a [Fault]. *)

From stdpp Require Import base tactics list numbers gmap strings.
From S2P Require Import Prelude LeaseHash LeaseDb FailoverBind Failover OmapiBuffer FailoverMsg.

#[local] Open Scope Z_scope.

Definition DHCP_FAILOVER_MIN_MESSAGE_SIZE : Z := 12.
Definition DHCP_FAILOVER_MAX_MESSAGE_SIZE : Z := 2048.

Inductive flink_state := flink_start | flink_message_length_wait | flink_message_wait | flink_disconnected.
#[export] Instance flink_state_eq_dec : EqDecision flink_state.
Proof. solve_decision. Defined.
Record link := mk_link {
  lstate : flink_state;
  imsg : option failover_message;
  state_object : option nat;      (** the failover peer, by its place in the list *)
  imsg_len : Z;
  imsg_count : Z;
  imsg_payoff : Z }.
Definition set_lstate (v : flink_state) (l : link) : link := mk_link v (imsg l) (state_object l) (imsg_len l) (imsg_count l) (imsg_payoff l).
Definition set_imsg (v : option failover_message) (l : link) : link := mk_link (lstate l) v (state_object l) (imsg_len l) (imsg_count l) (imsg_payoff l).
Definition set_object (v : option nat) (l : link) : link := mk_link (lstate l) (imsg l) v (imsg_len l) (imsg_count l) (imsg_payoff l).
Definition set_len (v : Z) (l : link) : link := mk_link (lstate l) (imsg l) (state_object l) v (imsg_count l) (imsg_payoff l).
Definition set_count (v : Z) (l : link) : link := mk_link (lstate l) (imsg l) (state_object l) (imsg_len l) v (imsg_payoff l).
Definition set_payoff (v : Z) (l : link) : link := mk_link (lstate l) (imsg l) (state_object l) (imsg_len l) (imsg_count l) v.

Definition set_field (f : string) (v : list Z) (m : failover_message) : failover_message :=
  mk_msg (present_bits m) (msg_time m) (msg_xid m) (msg_type m) (<[f := v]> (fields m)).
Definition add_bits (b : Z) (m : failover_message) : failover_message :=
  mk_msg (Z.lor (present_bits m) b) (msg_time m) (msg_xid m) (msg_type m) (fields m).
Definition set_header (type time xid : Z) (m : failover_message) : failover_message := mk_msg (present_bits m) time xid type (fields m).

(** ** Reads *)

(** The bytes, or nothing if the read fails. *)
Definition fetch (c : conn) (n : Z) : outcome (option (list Z) * conn) :=
  '(r, d, c) ← copyout c n; Done (match r with R_SUCCESS => Some d | _ => None end, c).
Definition fetch16 (c : conn) : outcome (option Z * conn) := '(_, v, c) ← get_uint16 c; Done (v, c).
Definition fetch32 (c : conn) : outcome (option Z * conn) := '(_, v, c) ← get_uint32 c; Done (v, c).
Definition skip (c : conn) (n : Z) : outcome conn := '(_, _, c) ← copyout c n; Done c.
(** A local variable that a read may have set. *)
Definition used {A} (v : option A) : outcome A := match v with Some x => Done x | None => Fault end.

(** ** [do_a_failover_option]

    [false] is a protocol error.  Memory that a read leaves alone is zero. *)
Definition zeros_for (n : Z) : list Z := replicate (Z.to_nat n) 0.
Fixpoint read_numbers (n : nat) (t : ft_type) (c : conn) (count : Z) (acc : list Z) : outcome (option (list Z) * Z * conn) :=
  match n with
  | O => Done (Some acc, count, c)
  | S n =>
      match t with
      | FT_UINT32 => '(v, c) ← fetch32 c; read_numbers n t c (u32 (count + 4)) (acc ++ [default 0 v])
      | FT_UINT16 => '(v, c) ← fetch16 c; read_numbers n t c (u32 (count + 2)) (acc ++ [default 0 v])
      | _ => Done (None, count, c)
      end
  end.
(** The data of an option with [op_count] elements of [op_size] bytes. *)
Definition read_elements (t : ft_type) (op_size op_count option_len : Z) (c : conn) (count : Z) : outcome (option (list Z) * Z * conn) :=
  if (op_size =? 1) || bool_decide (t = FT_IPADDR) then
    '(d, c) ← fetch c option_len;
    Done (Some (default (zeros_for (op_size * op_count)) d), u32 (count + option_len), c)
  else read_numbers (Z.to_nat op_count) t c count [].
Definition read_ddns (t : ft_type) (option_len : Z) (c : conn) (count : Z) : outcome (option (list Z) * Z * conn) :=
  let op_count := if bool_decide (t = FT_DDNS1) then 1 else 2 in
  '(codes, c) ← fetch c op_count;
  let codes := default (zeros_for op_count) codes ++ (if op_count =? 1 then [0] else []) in
  let rest := u32 (option_len - op_count) in
  '(d, c) ← fetch c rest;
  Done (Some (codes ++ default (zeros_for rest) d), u32 (count + op_count), c).
(** How the content of the option is read; [None] is a protocol error. *)
Definition read_option (info : failover_option_info) (option_len : Z) (c : conn) (count : Z) : outcome (option (list Z) * Z * conn) :=
  let t := ftype info in
  let op_size := ft_sizes t in
  if negb (num_present info =? 0) then
    if negb (option_len =? u32 (op_size * num_present info)) then Done (None, count, c)
    else read_elements t op_size (num_present info) option_len c count
  else if bool_decide (t = FT_DDNS) || bool_decide (t = FT_DDNS1) then read_ddns t option_len c count
  else if (1 <? op_size) && negb (option_len mod op_size =? 0) then Done (None, count, c)
  else if op_size =? 0 then Fault
  else read_elements t op_size (option_len / op_size) option_len c count.

Definition do_a_failover_option (c : conn) (l : link) : outcome (bool * conn * link) :=
  m ← used (imsg l);
  if imsg_len l <? u32 (imsg_count l + 2) then Done (false, c, l)
  else if FTM_MAX <? msg_type m then Done (false, c, l)
  else
    '(code, c) ← fetch16 c;
    let l := set_count (u32 (imsg_count l + 2)) l in
    if imsg_len l <? u32 (imsg_count l + 2) then Done (false, c, l)
    else
      '(option_len, c) ← fetch16 c;
      let l := set_count (u32 (imsg_count l + 2)) l in
      option_len ← used option_len;
      if imsg_len l <? u32 (imsg_count l + option_len) then Done (false, c, l)
      else
        let skipped := c ← skip c option_len; Done (true, c, set_count (u32 (imsg_count l + option_len)) l) in
        code ← used code;
        if FTO_MAX <? code then skipped
        else
          info ← rd ft_options code;
          if bool_decide (ftype info = FT_UNDEF) then skipped
          else if bool_decide (ftype info = FT_DIGEST) then
            let l := set_count (u32 (imsg_count l + option_len)) l in
            if negb (imsg_count l =? imsg_len l) then Done (false, c, l) else c ← skip c option_len; Done (true, c, l)
          else if has_option m (bit info) then Done (false, c, l)
          else
            allowed ← rd fto_allowed (msg_type m);
            if negb (bit info =? 0) && (Z.land allowed (bit info) =? 0) then skipped
            else
              '(v, count, c) ← read_option info option_len c (imsg_count l);
              let l := set_count count l in
              match v with
              | None => Done (false, c, l)
              | Some v => Done (true, c, set_imsg (Some (add_bits (bit info) (set_field (offset info) v m))) l)
              end.
Fixpoint read_options (fuel : nat) (c : conn) (l : link) : outcome (bool * conn * link) :=
  if imsg_len l <=? imsg_count l then Done (true, c, l)
  else
    match fuel with
    | O => Running
    | S fuel => '(ok, c, l) ← do_a_failover_option c l; if ok : bool then read_options fuel c l else Done (false, c, l)
    end.

(** The header, after the length, and what it has that is not understood. *)
Definition read_header (c : conn) (l : link) : outcome (conn * link) :=
  m ← used (imsg l);
  let l := set_count (u32 (imsg_count l + 2)) l in
  '(type, c) ← fetch c 1;
  '(payoff, c) ← fetch c 1;
  let l := set_payoff (match payoff with Some (b :: _) => b | _ => imsg_payoff l end) l in
  '(time, c) ← fetch32 c;
  '(xid, c) ← fetch32 c;
  let m := set_header (match type with Some (b :: _) => b | _ => msg_type m end) (default (msg_time m) time) (default (msg_xid m) xid) m in
  let l := set_count (u32 (imsg_count l + 10)) (set_imsg (Some m) l) in
  if imsg_payoff l =? imsg_count l then Done (c, l)
  else c ← skip c (u32 (imsg_payoff l - imsg_count l)); Done (c, set_count (imsg_payoff l) l).

(** ** [dhcp_failover_link_signal], for "ready" *)
Section link_signal.
Context {W : Type} (cur_time : Z).
(** The state machine and the timeout; whether this is the connection to the
    peer, whose [max_response_delay] counts then; whether the socket can be shut
    down. *)
Context (shutdown : bool) (message : nat -> failover_message -> conn -> W -> outcome (conn * W)) (contact_timeout : Z -> W -> W) (contact : W -> option Z).

Record receiver := mk_receiver { r_link : link; r_conn : conn; r_peers : list peer; r_world : W }.
Definition set_link (l : link) (s : receiver) : receiver := mk_receiver l (r_conn s) (r_peers s) (r_world s).
Definition set_both (l : link) (c : conn) (s : receiver) : receiver := mk_receiver l c (r_peers s) (r_world s).

(** The signal ends, or goes on to the next part. *)
Inductive turn := Stop (r : result) (s : receiver) | Next (s : receiver).
Definition and_next (m : outcome turn) (f : receiver -> outcome turn) : outcome turn :=
  t ← m; match t with Stop r s => Done (Stop r s) | Next s => f s end.

Definition flink_fail (s : receiver) : outcome turn :=
  Done (Stop R_UNEXPECTED (set_both (set_lstate flink_disconnected (set_imsg None (r_link s))) (disconnect true true (r_conn s)) s)).
(** [omapi_connection_require]: the signal ends if the bytes are not there. *)
Definition require (n : Z) (s : receiver) : turn :=
  let (r, c) := connection_require (r_conn s) n in
  let s := set_both (r_link s) c s in
  match r with R_SUCCESS => Next s | _ => Stop R_SUCCESS s end.

Definition message_length (s : receiver) : outcome turn :=
  let l := set_imsg (Some empty_message) (set_lstate flink_message_wait (r_link s)) in
  '(len, c) ← fetch16 (r_conn s);
  let l := set_count 0 (set_len (default (imsg_len l) len) l) in
  let s := set_both l c s in
  if (imsg_len l <? DHCP_FAILOVER_MIN_MESSAGE_SIZE) || (DHCP_FAILOVER_MAX_MESSAGE_SIZE <? imsg_len l) then flink_fail s
  else Done (require (imsg_len l - 2) s).

(** The last peer of that name. *)
Definition match_by_name (p : peer) (name : list Z) : bool := bool_decide (peer_name p = name).
Definition find_state (peers : list peer) (name : list Z) : option nat :=
  foldl (fun found '(i, p) => if match_by_name p name then Some i else found) None (imap pair peers).
Definition take_hba (h : list Z) (p : peer) : peer := mk_peer (peer_name p) (max_flying_updates p) (max_response_delay p) (peer_mclt p) (Some h).

(** The peer that a connect message comes from, or why there is none. *)
Definition associate (m : failover_message) (s : receiver) : option nat * Z * string + receiver :=
  if negb (has_option m FTB_RELATIONSHIP_NAME) then inl (None, FTR_INVALID_PARTNER, "missing relationship-name")
  else
    match find_state (r_peers s) (octets m "relationship_name") with
    | None => inl (None, FTR_INVALID_PARTNER, "unknown failover relationship name")
    | Some i =>
        if (msg_time m <? cur_time) && (60 <? cur_time - msg_time m) || (cur_time <? msg_time m) && (60 <? msg_time m - cur_time)
        then inl (Some i, FTR_TIMEMISMATCH, "time offset too large")
        else if negb (has_option m FTB_HBA) || negb (zlen (octets m "hba") =? 32) then inl (Some i, FTR_HBA_CONFLICT, "invalid HBA")
        else
          let l := r_link s in
          inr (mk_receiver (set_object (match state_object l with None => Some i | Some j => Some j end) l) (r_conn s)
                 (alter (take_hba (octets m "hba")) i (r_peers s)) (r_world s))
    end.
Definition bad_connect (m : failover_message) (i : option nat) (reason : Z) (errmsg : string) (s : receiver) : outcome turn :=
  let p := match i with Some i => r_peers s !! i | None => None end in
  '(_, c, timeout) ← send_outgoing cur_time (contact (r_world s)) (r_conn s) (msg_xid m) (connectack_message m p reason (Some (text_of errmsg)));
  let w := match timeout with Some t => contact_timeout t (r_world s) | None => r_world s end in
  Done (Stop R_SUCCESS (mk_receiver (set_lstate flink_disconnected (r_link s)) (disconnect false shutdown c) (r_peers s) w)).

Definition deliver (m : failover_message) (s : receiver) : outcome turn :=
  match state_object (r_link s) with
  | None => Done (Stop R_INVALIDARG (set_both (set_lstate flink_disconnected (r_link s)) (disconnect true true (r_conn s)) s))
  | Some i =>
      '(c, w) ← message i m (r_conn s) (r_world s);
      Done (require 2 (mk_receiver (set_imsg None (set_lstate flink_message_length_wait (r_link s))) c (r_peers s) w))
  end.
Definition read_message (s : receiver) : outcome turn :=
  '(c, l) ← read_header (r_conn s) (r_link s);
  '(ok, c, l) ← read_options (Z.to_nat (imsg_len l)) c l;
  let s := set_both l c s in
  if negb ok then flink_fail s
  else
    m ← used (imsg l);
    if msg_type m =? FTM_CONNECT then
      match associate m s with
      | inl (i, reason, errmsg) => bad_connect m i reason errmsg s
      | inr s => deliver m s
      end
    else deliver m s.

(** A turn of the loop for each message. *)
Fixpoint messages (fuel : nat) (s : receiver) : outcome (result * receiver) :=
  match fuel with
  | O => Running
  | S fuel => t ← and_next (message_length s) read_message; match t with Stop r s => Done (r, s) | Next s => messages fuel s end
  end.
Definition ready (s : receiver) : outcome (result * receiver) :=
  let fuel := Z.to_nat (in_bytes (r_conn s) + 1) in
  match lstate (r_link s) with
  | flink_start =>
      match require 2 (set_link (set_lstate flink_message_length_wait (r_link s)) s) with
      | Stop r s => Done (r, s)
      | Next s => messages fuel s
      end
  | flink_message_length_wait => messages fuel s
  | flink_message_wait => t ← read_message s; match t with Stop r s => Done (r, s) | Next s => messages fuel s end
  | flink_disconnected => Fatal
  end.
End link_signal.
