(* ===== verification/FailoverLinkOk.v ===== *)
(** * What is received between failover peers

    The options of a message are read as they were written, messages are taken
    from the stream of bytes one after another however it is cut, and a message
    with any contents is read safely. *)

From stdpp Require Import base tactics list numbers gmap strings.
From S2P Require Import Prelude LeaseHash LeaseDb FailoverBind Failover OmapiBuffer OmapiBufferOk FailoverMsg FailoverMsgOk FailoverLink.

#[local] Open Scope Z_scope.

(** ** Reads *)
Lemma fetch_any c q n : conn_holds c q -> 0 <= n ->
  exists d c', fetch c n = Done (d, c') /\
    (n <= zlen (q_in q) /\ d = Some (take (Z.to_nat n) (q_in q)) /\ conn_holds c' (q_set_in (drop (Z.to_nat n) (q_in q)) q) \/
     zlen (q_in q) < n /\ d = None /\ conn_holds c' q).
Proof.
  intros Hc Hn. destruct (copyout_ok c q n Hc Hn) as (r & d & c' & E & q' & Hq & Hc'). unfold fetch. rewrite E. dred.
  inversion Hq; subst; eexists _, _; (split; [done|]); [left|right]; done.
Qed.
Lemma fetch_ok c q d rest : conn_holds c q -> q_in q = d ++ rest ->
  exists c', fetch c (zlen d) = Done (Some d, c') /\ conn_holds c' (q_set_in rest q).
Proof.
  intros Hc E. destruct (fetch_any c q (zlen d) Hc (zlen_nonneg d)) as (o & c' & Ef & [(_ & -> & Hc')|(Hl & _)]).
  - exists c'. rewrite E in Ef, Hc'. unfold zlen in *. rewrite Nat2Z.id, take_app_length in Ef. rewrite Nat2Z.id, drop_app_length in Hc'. by split.
  - rewrite E, zlen_app in Hl. pose proof (zlen_nonneg rest). lia.
Qed.
Lemma fetch16_fetch c : fetch16 c = '(d, c) ← fetch c 2; Done (option_map be_val d, c).
Proof. unfold fetch16, get_uint16, fetch. destruct (copyout c 2) as [[[r d] c']| | |]; try done. dred. by destruct r. Qed.
Lemma fetch32_fetch c : fetch32 c = '(d, c) ← fetch c 4; Done (option_map be_val d, c).
Proof. unfold fetch32, get_uint32, fetch. destruct (copyout c 4) as [[[r d] c']| | |]; try done. dred. by destruct r. Qed.
Lemma skip_fetch c n : skip c n = '(_, c) ← fetch c n; Done c.
Proof. unfold skip, fetch. destruct (copyout c n) as [[[r d] c']| | |]; try done. Qed.

Lemma fetch16_ok c q v rest : conn_holds c q -> q_in q = be_bytes 2 v ++ rest ->
  exists c', fetch16 c = Done (Some (u16 v), c') /\ conn_holds c' (q_set_in rest q).
Proof.
  intros Hc E. destruct (fetch_ok c q _ _ Hc E) as (c' & Ef & Hc'). exists c'. rewrite zlen_be_bytes in Ef. change (Z.of_nat 2) with 2 in Ef.
  rewrite fetch16_fetch, Ef. dred. cbn [option_map]. by rewrite be_val_be_bytes.
Qed.
Lemma fetch32_ok c q v rest : conn_holds c q -> q_in q = be_bytes 4 v ++ rest ->
  exists c', fetch32 c = Done (Some (u32 v), c') /\ conn_holds c' (q_set_in rest q).
Proof.
  intros Hc E. destruct (fetch_ok c q _ _ Hc E) as (c' & Ef & Hc'). exists c'. rewrite zlen_be_bytes in Ef. change (Z.of_nat 4) with 4 in Ef.
  rewrite fetch32_fetch, Ef. dred. cbn [option_map]. by rewrite be_val_be_bytes.
Qed.
Lemma skip_ok c q d rest : conn_holds c q -> q_in q = d ++ rest -> exists c', skip c (zlen d) = Done c' /\ conn_holds c' (q_set_in rest q).
Proof. intros Hc E. destruct (fetch_ok c q _ _ Hc E) as (c' & Ef & Hc'). exists c'. rewrite skip_fetch, Ef. by split. Qed.

(** ** One option *)
Definition allowed_for (type code : Z) : bool := negb (Z.land (nth (Z.to_nat type) fto_allowed 0) (bit (info_of code)) =? 0).
Definition take_item (m : failover_message) (i : item) : failover_message :=
  if allowed_for (msg_type m) i.1 then add_bits (bit (info_of i.1)) (set_field (offset (info_of i.1)) i.2 m) else m.

Lemma allowed_read type : 0 <= type <= FTM_MAX -> rd fto_allowed type = Done (nth (Z.to_nat type) fto_allowed 0).
Proof.
  intros Ht. apply rd_Done. split; [lia|]. unfold FTM_MAX, FTM_DISCONNECT in Ht. assert (Hl : (Z.to_nat type < 13)%nat) by lia.
  rewrite (nth_lookup fto_allowed). destruct (lookup_lt_is_Some_2 fto_allowed (Z.to_nat type)) as [x Hx]; [exact Hl|]. by rewrite Hx.
Qed.

Lemma read_option_ok code v c q rest count : item_ok (code, v) -> conn_holds c q ->
  q_in q = wire_data (type_of code) v ++ rest -> zlen (wire_data (type_of code) v) <= 2048 -> 0 <= count <= 4096 ->
  exists c', read_option (info_of code) (zlen (wire_data (type_of code) v)) c count = Done (Some v, count + zlen (wire_data (type_of code) v), c') /\
    conn_holds c' (q_set_in rest q).
Proof.
  intros [Hcode Hv] Hc E Hl Hn. cbn [fst snd] in *. destruct (code_info code Hcode) as (_ & Hr & _). unfold row_ok, type_of in *. apply andb_true_iff in Hr as [_ Hr].
  unfold read_option. assert (Hu : forall k, 0 <= k <= 2048 -> u32 (count + k) = count + k) by (intros; apply u32_small; lia).
  destruct (ftype (info_of code)) eqn:Et; try done; apply Z.eqb_eq in Hr; rewrite Hr; cbn [ft_sizes Z.eqb negb wire_data] in *.
  - (* FT_UINT8 *) destruct v as [|x [|? ?]]; [done| |done]. change (1 =? u32 (1 * 1)) with true. cbn [negb]. unfold read_elements. cbn [Z.eqb orb].
    destruct (fetch_ok c q [x] rest Hc E) as (c' & Ef & Hc'). change (zlen [x]) with 1 in *. rewrite Ef. dred. simpl default. rewrite Hu by lia. by eexists.
  - (* FT_IPADDR *) destruct Hv as [_ Hz]. rewrite Hz in *. change (4 =? u32 (4 * 1)) with true. cbn [negb]. unfold read_elements. rewrite bool_decide_eq_true_2 by done. rewrite orb_true_r.
    destruct (fetch_ok c q v rest Hc E) as (c' & Ef & Hc'). rewrite Hz in Ef. rewrite Ef. dred. simpl default. rewrite Hu by lia. by eexists.
  - (* FT_UINT32 *) destruct v as [|x [|? ?]]; [done| |done]. cbn [hd wf_value numbers_below] in *. rewrite zlen_be_bytes in *. change (Z.of_nat 4) with 4 in *. change (4 =? u32 (4 * 1)) with true. cbn [negb].
    unfold read_elements. cbn [Z.eqb orb]. rewrite bool_decide_eq_false_2 by done. change (Z.to_nat 1) with 1%nat. cbn [read_numbers].
    destruct (fetch32_ok c q x rest Hc E) as (c' & -> & Hc'). dred. simpl default. rewrite (u32_small x) by done. rewrite Hu by lia. by eexists.
  - (* FT_BYTES *) rewrite !bool_decide_eq_false_2 by done. cbn [orb]. change (1 <? 1) with false. cbn [andb]. unfold read_elements. cbn [Z.eqb orb].
    destruct (fetch_ok c q v rest Hc E) as (c' & -> & Hc'). dred. simpl default. rewrite Hu by (pose proof (zlen_nonneg v); lia). by eexists.
  - (* FT_UINT16 *) destruct v as [|x [|? ?]]; [done| |done]. cbn [hd wf_value numbers_below] in *. rewrite zlen_be_bytes in *. change (Z.of_nat 2) with 2 in *. change (2 =? u32 (2 * 1)) with true. cbn [negb].
    unfold read_elements. cbn [Z.eqb orb]. rewrite bool_decide_eq_false_2 by done. change (Z.to_nat 1) with 1%nat. cbn [read_numbers].
    destruct (fetch16_ok c q x rest Hc E) as (c' & -> & Hc'). dred. simpl default. rewrite (u16_small x) by done. rewrite Hu by lia. by eexists.
  - (* FT_TEXT *) rewrite !bool_decide_eq_false_2 by done. cbn [orb]. change (1 <? 1) with false. cbn [andb]. unfold read_elements. cbn [Z.eqb orb].
    destruct (fetch_ok c q v rest Hc E) as (c' & -> & Hc'). dred. simpl default. rewrite Hu by (pose proof (zlen_nonneg v); lia). by eexists.
Qed.

Lemma do_option_ok i c q l m rest : item_ok i -> conn_holds c q -> q_in q = wire i ++ rest -> imsg l = Some m -> 0 <= msg_type m <= FTM_MAX ->
  has_option m (bit (info_of i.1)) = false -> 0 <= imsg_count l -> imsg_count l + zlen (wire i) <= imsg_len l <= 2048 ->
  exists c', do_a_failover_option c l = Done (true, c', set_count (imsg_count l + zlen (wire i)) (set_imsg (Some (take_item m i)) l)) /\
    conn_holds c' (q_set_in rest q).
Proof.
  intros Hi Hc E Em Ht Hnot Hn Hl. destruct i as [code v]. pose proof Hi as [Hcode _]. cbn [fst snd] in *. destruct (code_info code Hcode) as (Hinfo & Hr & Hb).
  unfold wire in *. cbn [fst snd] in *. set (d := wire_data (type_of code) v) in *. pose proof (zlen_nonneg d) as Hd. rewrite !zlen_app, !zlen_be_bytes in *. change (Z.of_nat 2) with 2 in *.
  rewrite <- !app_assoc in E. unfold do_a_failover_option. rewrite Em. cbn [used]. dred. rewrite u32_small by lia. rewrite (proj2 (Z.ltb_ge _ _)) by lia. rewrite (proj2 (Z.ltb_ge _ _)) by lia.
  destruct (fetch16_ok c q code _ Hc E) as (c1 & -> & Hc1). dred. cbn [imsg_count imsg_len set_count]. rewrite !(u32_small (imsg_count l + 2 + 2)) by lia. rewrite (proj2 (Z.ltb_ge _ _)) by lia.
  destruct (fetch16_ok c1 _ (zlen d) _ Hc1 eq_refl) as (c2 & -> & Hc2). dred. rewrite !u16_small by lia. cbn [used]. dred. cbn [imsg_count imsg_len set_count].
  rewrite !(u32_small (imsg_count l + 2 + 2 + zlen d)) by lia. rewrite (proj2 (Z.ltb_ge _ _)) by lia. rewrite (proj2 (Z.ltb_ge FTO_MAX code)) by (unfold FTO_MAX, FTO_VENDOR_OPTIONS; lia).
  rewrite Hinfo. dred. unfold row_ok in Hr. apply andb_true_iff in Hr as [Hbit Hr]. apply Z.eqb_eq in Hbit. rewrite Z2Nat.id in Hbit by lia.
  rewrite bool_decide_eq_false_2 by (intros Ex; by rewrite Ex in Hr). rewrite bool_decide_eq_false_2 by (intros Ex; by rewrite Ex in Hr). rewrite Hnot, allowed_read by done. dred.
  rewrite (proj2 (Z.eqb_neq (bit (info_of code)) 0)) by (rewrite Hbit; pose proof (Z.pow_pos_nonneg 2 code); lia). cbn [negb andb].
  unfold take_item, allowed_for. cbn [fst snd]. destruct (Z.land (nth (Z.to_nat (msg_type m)) fto_allowed 0) (bit (info_of code)) =? 0); cbn [negb].
  - destruct (skip_ok c2 _ d rest Hc2 eq_refl) as (c3 & -> & Hc3). dred. exists c3. split; [|done]. do 2 f_equal. unfold set_count, set_imsg. cbn. f_equal; [done|lia].
  - destruct (read_option_ok code v c2 _ rest (imsg_count l + 2 + 2) Hi Hc2 eq_refl) as (c3 & Er & Hc3); [fold d; lia|lia|]. fold d in Er. cbn [imsg_count set_count]. rewrite Er. dred. exists c3. split; [|done].
    do 2 f_equal. unfold set_count, set_imsg. cbn. f_equal. fold d. lia.
Qed.

(** ** A message *)
Lemma has_option_bit m n : 0 <= n -> has_option m (2 ^ n) = Z.testbit (present_bits m) n.
Proof.
  intros Hn. unfold has_option. destruct (Z.eqb_spec (Z.land (present_bits m) (2 ^ n)) 0) as [E|E]; cbn [negb].
  - pose proof (f_equal (fun z => Z.testbit z n) E) as Eb. cbv beta in Eb. rewrite Z.land_spec, Z.pow2_bits_true, andb_true_r, Z.bits_0 in Eb by done. done.
  - symmetry. destruct (Z.testbit (present_bits m) n) eqn:Eb; [done|]. exfalso. apply E. apply Z.bits_inj'. intros k Hk. rewrite Z.land_spec, Z.bits_0.
    destruct (decide (k = n)) as [->|Hne]; [by rewrite Eb|]. rewrite (Z.pow2_bits_false n k) by congruence. by rewrite andb_false_r.
Qed.
Lemma item_bit i : item_ok i -> bit (info_of i.1) = 2 ^ i.1 /\ 0 <= i.1.
Proof.
  intros [Hc _]. destruct (code_info _ Hc) as (_ & Hr & Hb). unfold row_ok in Hr. apply andb_true_iff in Hr as [Hr _]. apply Z.eqb_eq in Hr. rewrite Z2Nat.id in Hr by lia. split; [done|lia].
Qed.
Lemma take_item_type m i : msg_type (take_item m i) = msg_type m.
Proof. unfold take_item. by destruct (allowed_for _ _). Qed.
Lemma take_item_other m i j : item_ok i -> item_ok j -> i.1 <> j.1 -> has_option (take_item m i) (bit (info_of j.1)) = has_option m (bit (info_of j.1)).
Proof.
  intros Hi Hj Hne. destruct (item_bit i Hi) as [Ei Hi0], (item_bit j Hj) as [Ej Hj0]. rewrite Ej, !has_option_bit by done. unfold take_item. destruct (allowed_for _ _); [|done].
  rewrite Ei. cbn [present_bits add_bits set_field]. rewrite Z.lor_spec, Z.pow2_bits_false by done. by rewrite orb_false_r.
Qed.

Lemma read_options_ok items : forall fuel c q l m rest, Forall item_ok items -> NoDup items.*1 -> conn_holds c q ->
  q_in q = concat (map wire items) ++ rest -> imsg l = Some m -> 0 <= msg_type m <= FTM_MAX ->
  Forall (fun i => has_option m (bit (info_of i.1)) = false) items ->
  0 <= imsg_count l -> imsg_count l + zlen (concat (map wire items)) = imsg_len l -> imsg_len l <= 2048 -> (length items <= fuel)%nat ->
  exists c', read_options fuel c l = Done (true, c', set_count (imsg_len l) (set_imsg (Some (foldl take_item m items)) l)) /\ conn_holds c' (q_set_in rest q).
Proof.
  induction items as [|i items IH]; intros fuel c q l m rest Hi Hnd Hc E Em Ht Hnot Hn Hl Hmax Hf.
  - simpl in Hl, E. rewrite zlen_nil, Z.add_0_r in Hl. exists c. split.
    + assert (Er : read_options fuel c l = Done (true, c, l)) by (destruct fuel; cbn [read_options]; by rewrite (proj2 (Z.leb_le _ _)) by lia).
      rewrite Er. do 2 f_equal. destruct l. cbn in *. by subst.
    + subst rest. by destruct q.
  - destruct fuel as [|fuel]; [simpl in Hf; lia|]. simpl in Hf. cbn [map concat] in *. rewrite zlen_app in Hl. rewrite <- app_assoc in E. cbn [read_options].
    assert (Hw : 4 <= zlen (wire i)) by (unfold wire; rewrite !zlen_app, !zlen_be_bytes; pose proof (zlen_nonneg (wire_data (type_of i.1) i.2)); lia).
    pose proof (zlen_nonneg (concat (map wire items))). rewrite (proj2 (Z.leb_gt _ _)) by lia. pose proof (Forall_inv Hi) as Hi0. pose proof (Forall_inv Hnot) as Hnot0. cbv beta in Hnot0.
    destruct (do_option_ok i c q l m _ Hi0 Hc E Em Ht Hnot0 Hn) as (c1 & -> & Hc1); [lia|]. dred.
    rewrite fmap_cons in Hnd. apply NoDup_cons in Hnd as [Hni Hnd].
    destruct (IH fuel c1 _ (set_count (imsg_count l + zlen (wire i)) (set_imsg (Some (take_item m i)) l)) (take_item m i) rest (Forall_inv_tail Hi) Hnd Hc1 eq_refl eq_refl) as (c2 & Er & Hc2).
    + by rewrite take_item_type.
    + apply Forall_forall. intros j Hj. rewrite Forall_forall in Hnot. pose proof (Forall_inv_tail Hi) as Hit. rewrite Forall_forall in Hit. rewrite take_item_other; [|done|by apply Hit|].
      * apply Hnot. by right.
      * intros Ej. apply Hni. rewrite Ej. by apply list_elem_of_fmap_2.
    + cbn [imsg_count set_count]. lia.
    + cbn [imsg_count imsg_len set_count set_imsg]. lia.
    + done.
    + lia.
    + exists c2. split; [|done]. exact Er.
Qed.

Record posted := mk_posted { p_message : outgoing; p_time : Z; p_xid : Z }.
Definition frame_of (p : posted) : list Z := frame (p_message p) (p_time p) (p_xid p).
Definition body (p : posted) : list Z :=
  [out_type (p_message p); 12] ++ be_bytes 4 (p_time p) ++ be_bytes 4 (p_xid p) ++ concat (map wire (outgoing_items (p_message p))).
(** The message that the other side gets. *)
Definition received (p : posted) : failover_message :=
  foldl take_item (mk_msg 0 (u32 (p_time p)) (u32 (p_xid p)) (out_type (p_message p)) ∅) (outgoing_items (p_message p)).

Lemma frame_body p : frame_of p = be_bytes 2 (zlen (frame_of p)) ++ body p.
Proof. unfold frame_of at 2. rewrite zlen_frame. done. Qed.
Lemma zlen_body p : zlen (body p) = zlen (frame_of p) - 2.
Proof. pose proof (f_equal zlen (frame_body p)) as E. rewrite zlen_app, zlen_be_bytes in E. lia. Qed.
Lemma zlen_frame_of p : outgoing_ok (p_message p) -> 12 <= zlen (frame_of p) <= 2048.
Proof. intros Ho. unfold frame_of. rewrite zlen_frame. pose proof (oo_size _ Ho). unfold payload_size in *. pose proof (zlen_nonneg (concat (map wire (outgoing_items (p_message p))))). lia. Qed.

Lemma read_header_ok c q l p rest : conn_holds c q -> q_in q = body p ++ rest -> imsg l = Some empty_message -> imsg_count l = 0 ->
  exists c', read_header c l = Done (c', set_count 12 (set_imsg (Some (mk_msg 0 (u32 (p_time p)) (u32 (p_xid p)) (out_type (p_message p)) ∅)) (set_payoff 12 l))) /\
    conn_holds c' (q_set_in (concat (map wire (outgoing_items (p_message p))) ++ rest) q).
Proof.
  intros Hc E Em En. unfold body in E. rewrite <- !app_assoc in E. unfold read_header. rewrite Em. cbn [used]. dred.
  destruct (fetch_ok c q [out_type (p_message p)] _ Hc E) as (c1 & E1 & Hc1). change (zlen [out_type (p_message p)]) with 1 in E1. rewrite E1. dred.
  destruct (fetch_ok c1 _ [12] _ Hc1 eq_refl) as (c2 & E2 & Hc2). change (zlen [12]) with 1 in E2. rewrite E2. dred.
  destruct (fetch32_ok c2 _ _ _ Hc2 eq_refl) as (c3 & -> & Hc3). dred. destruct (fetch32_ok c3 _ _ _ Hc3 eq_refl) as (c4 & -> & Hc4). dred.
  exists c4. split; [|exact Hc4]. destruct l as [ls im so len cnt pay]. cbn in *. subst. reflexivity.
Qed.

(** The peer that a message is for and the peers after it: a connect message is
    to come from a known peer, with a clock that agrees and the buckets of the
    load balancing, and makes the peer that of the connection if it had none;
    any other message needs one. *)
Definition takes (cur_time : Z) (object : option nat) (peers : list peer) (p : posted) : option (nat * list peer) :=
  if out_type (p_message p) =? FTM_CONNECT then
    match associate cur_time (received p) (mk_receiver (mk_link flink_message_wait None object 0 0 0) new_conn peers tt) with
    | inr s => match state_object (r_link s) with Some i => Some (i, r_peers s) | None => None end
    | inl _ => None
    end
  else match object with Some i => Some (i, peers) | None => None end.

Lemma associate_takes {W} cur_time p (s : receiver (W := W)) i peers :
  out_type (p_message p) = FTM_CONNECT -> takes cur_time (state_object (r_link s)) (r_peers s) p = Some (i, peers) ->
  associate cur_time (received p) s = inr (mk_receiver (set_object (Some i) (r_link s)) (r_conn s) peers (r_world s)).
Proof.
  intros Et. unfold takes. rewrite Et, Z.eqb_refl. unfold associate. cbn [r_peers r_link state_object].
  destruct (negb _); [done|]. destruct (find_state _ _) as [j|]; [|done]. destruct (_ || _); [done|]. destruct (_ || _); [done|].
  cbn [r_link state_object set_object r_peers]. destruct (state_object (r_link s)); by intros [= -> <-].
Qed.

Lemma read_message_ok {W} cur_time shutdown message contact_timeout contact (s : receiver (W := W)) q p i peers rest :
  conn_holds (r_conn s) q -> outgoing_ok (p_message p) -> takes cur_time (state_object (r_link s)) (r_peers s) p = Some (i, peers) -> q_in q = body p ++ rest ->
  imsg (r_link s) = Some empty_message -> imsg_count (r_link s) = 0 -> imsg_len (r_link s) = zlen (frame_of p) ->
  exists c l, read_message cur_time shutdown message contact_timeout contact s = deliver message (received p) (mk_receiver l c peers (r_world s)) /\
    conn_holds c (q_set_in rest q) /\ state_object l = Some i.
Proof.
  intros Hc Ho Htk E Em En El. pose proof (zlen_frame_of _ Ho) as Hz. pose proof (oo_type _ Ho) as Ht. unfold read_message.
  destruct (read_header_ok _ q _ p rest Hc E Em En) as (c1 & -> & Hc1). dred.
  assert (Hall : Forall item_ok (outgoing_items (p_message p))).
  { unfold outgoing_items. pose proof (oo_calls _ Ho) as Hcalls. induction Hcalls as [|o os Ho1 _ IH]; [constructor|]. cbn [map concat]. apply Forall_app. split; [by apply items_ok|done]. }
  destruct (read_options_ok (outgoing_items (p_message p)) (Z.to_nat (zlen (frame_of p))) c1 _
    (set_count 12 (set_imsg (Some (mk_msg 0 (u32 (p_time p)) (u32 (p_xid p)) (out_type (p_message p)) ∅)) (set_payoff 12 (r_link s)))) _ rest Hall (oo_once _ Ho) Hc1 eq_refl eq_refl) as (c2 & Er & Hc2).
  - cbn [msg_type]. lia.
  - by apply Forall_forall.
  - done.
  - cbn [imsg_count set_count imsg_len set_imsg set_payoff]. rewrite El. unfold frame_of. rewrite zlen_frame. unfold payload_size. lia.
  - cbn [imsg_len set_count set_imsg set_payoff]. lia.
  - assert (Hlen : forall items, Forall item_ok items -> Z.of_nat (length items) <= zlen (concat (map wire items))).
    { clear. intros items. induction items as [|i items IH]; intros Hi; [done|]. cbn [map concat length]. rewrite zlen_app. specialize (IH (Forall_inv_tail Hi)).
      assert (4 <= zlen (wire i)) by (unfold wire; rewrite !zlen_app, !zlen_be_bytes; pose proof (zlen_nonneg (wire_data (type_of i.1) i.2)); lia). lia. }
    specialize (Hlen _ Hall). unfold frame_of. rewrite zlen_frame. unfold payload_size. lia.
  - cbn [imsg_len set_count set_imsg set_payoff] in *. rewrite El in *. rewrite Er. dred. cbn [negb r_link set_both imsg set_count set_imsg used]. dred.
    assert (Etype : forall items m, msg_type (foldl take_item m items) = msg_type m).
    { clear. intros items. induction items as [|i items IH]; intros m; [done|]. simpl. rewrite IH. apply take_item_type. }
    rewrite Etype. cbn [msg_type]. destruct (Z.eqb_spec (out_type (p_message p)) FTM_CONNECT) as [Ec|Hnc].
    + set (s1 := set_both _ c2 s). pose proof (associate_takes cur_time p s1 i peers Ec Htk) as Ea. unfold received in Ea. rewrite Ea.
      eexists _, _. split; [done|]. by split.
    + unfold takes in Htk. rewrite (proj2 (Z.eqb_neq _ _)) in Htk by done. destruct (state_object (r_link s)) as [j|] eqn:Eo; [|done]. injection Htk as -> <-.
      eexists _, _. split; [done|]. by split.
Qed.

(** ** The stream *)
Definition whole (ps : list posted) : list Z := concat (map frame_of ps).
Definition postable (p : posted) : Prop := outgoing_ok (p_message p) /\ out_type (p_message p) <> FTM_CONNECT.

(** The peers take all of the messages. *)
Fixpoint accepted (cur_time : Z) (object : option nat) (peers : list peer) (ps : list posted) : Prop :=
  match ps with
  | [] => True
  | p :: ps => outgoing_ok (p_message p) /\
      match takes cur_time object peers p with Some (i, peers) => accepted cur_time (Some i) peers ps | None => False end
  end.
Lemma accepted_ok cur_time ps : forall object peers, accepted cur_time object peers ps -> Forall (fun p => outgoing_ok (p_message p)) ps.
Proof.
  induction ps as [|p ps IH]; intros object peers Ha; [constructor|]. destruct Ha as [Ho Ha].
  destruct (takes _ _ _ _) as [[i peers']|]; [|done]. constructor; [done|by eapply IH].
Qed.
(** Without connect messages that is to have a peer. *)
Lemma postable_accepted cur_time i peers ps : Forall postable ps -> accepted cur_time (Some i) peers ps.
Proof.
  induction 1 as [|p ps [Ho Hn] _ IH]; [done|]. split; [done|]. unfold takes. by rewrite (proj2 (Z.eqb_neq _ _)).
Qed.

Lemma app_prefix {A} (l1 l2 a b : list A) : l1 ++ l2 = a ++ b -> (length a <= length l1)%nat -> exists t, l1 = a ++ t /\ t ++ l2 = b.
Proof.
  revert l1. induction a as [|x a IH]; intros l1 E Hl; [by exists l1|]. destruct l1 as [|y l1]; [simpl in Hl; lia|].
  simpl in *. injection E as -> E. destruct (IH l1 E) as (t & -> & Ht); [lia|]. by exists t.
Qed.

Section stream.
Context {W : Type} (cur_time : Z) (shutdown : bool) (message : nat -> failover_message -> conn -> W -> outcome (conn * W))
  (contact_timeout : Z -> W -> W) (contact : W -> option Z) (log : W -> list failover_message).
(** The state machine always returns; it reads nothing from the connection, and
    does not close it. *)
Definition handles : Prop := forall i m c w q, conn_holds c q ->
  exists c' w' q', message i m c w = Done (c', w') /\ conn_holds c' q' /\ q_in q' = q_in q /\ log w' = log w ++ [m].
Context (Hmessage : handles).
Abbreviation receiver := (receiver (W := W)).
Abbreviation read_message := (read_message cur_time shutdown message contact_timeout contact).
Abbreviation messages := (messages cur_time shutdown message contact_timeout contact).
Abbreviation ready := (ready cur_time shutdown message contact_timeout contact).

(** The bytes that have come and those that will come are the rest of the
    stream. *)
Inductive synced (s : receiver) (q : queue_conn) (future : list Z) (ps : list posted) : Prop :=
  | synced_start : lstate (r_link s) = flink_start -> q_in q ++ future = whole ps -> synced s q future ps
  | synced_length : lstate (r_link s) = flink_message_length_wait -> q_needed q = 2 -> q_in q ++ future = whole ps -> synced s q future ps
  | synced_message p ps' : ps = p :: ps' -> lstate (r_link s) = flink_message_wait -> imsg (r_link s) = Some empty_message -> imsg_count (r_link s) = 0 ->
      imsg_len (r_link s) = zlen (frame_of p) -> q_needed q = zlen (body p) -> q_in q ++ future = body p ++ whole ps' -> synced s q future ps.
Record in_step (s : receiver) (q : queue_conn) (future : list Z) (ps : list posted) : Prop := {
  is_conn : conn_holds (r_conn s) q;
  is_synced : synced s q future ps;
  is_accepted : accepted cur_time (state_object (r_link s)) (r_peers s) ps }.
(** Not enough has come for anything to happen. *)
Definition idle (s : receiver) (q : queue_conn) : Prop :=
  match lstate (r_link s) with flink_start => q_in q = [] /\ q_needed q <= 1 | _ => zlen (q_in q) < q_needed q end.

Lemma require_ok n (s : receiver) q : conn_holds (r_conn s) q ->
  exists c, require n s = (if n <=? zlen (q_in q) then Next (set_both (r_link s) c s) else Stop R_SUCCESS (set_both (r_link s) c s)) /\
    conn_holds c (mk_q (q_in q) (q_out q) n (q_state q)).
Proof.
  intros [H1 [H2 H2'] H3 H4 [H5 H6]]. unfold require, connection_require. rewrite H2.
  exists (mk_conn (inbufs (r_conn s)) (zlen (q_in q)) n (outbufs (r_conn s)) (out_bytes (r_conn s)) (cstate (r_conn s))).
  split; [by destruct (n <=? zlen (q_in q))|by split].
Qed.

Lemma deliver_ok m (s : receiver) q i : conn_holds (r_conn s) q -> state_object (r_link s) = Some i ->
  exists s' q', deliver message m s = Done (if 2 <=? zlen (q_in q) then Next s' else Stop R_SUCCESS s') /\ conn_holds (r_conn s') q' /\ q_in q' = q_in q /\ q_needed q' = 2 /\
    lstate (r_link s') = flink_message_length_wait /\ state_object (r_link s') = Some i /\ r_peers s' = r_peers s /\ log (r_world s') = log (r_world s) ++ [m].
Proof.
  intros Hc Ho. unfold deliver. rewrite Ho. destruct (Hmessage i m (r_conn s) (r_world s) q Hc) as (c & w & q1 & -> & Hc1 & Ein & Hl). dred.
  set (s1 := mk_receiver _ _ _ _). destruct (require_ok 2 s1 q1 Hc1) as (c2 & -> & Hc2). rewrite Ein.
  eexists _, _. split; [by destruct (2 <=? zlen (q_in q))|]. split; [exact Hc2|]. done.
Qed.

Lemma message_length_ok (s : receiver) q future p ps : conn_holds (r_conn s) q -> outgoing_ok (p_message p) -> 2 <= zlen (q_in q) -> q_in q ++ future = whole (p :: ps) ->
  exists c l t, message_length s = Done (if zlen (body p) <=? zlen t then Next (set_both l c s) else Stop R_SUCCESS (set_both l c s)) /\
    t ++ future = body p ++ whole ps /\ conn_holds c (mk_q t (q_out q) (zlen (body p)) (q_state q)) /\
    lstate l = flink_message_wait /\ imsg l = Some empty_message /\ imsg_count l = 0 /\ imsg_len l = zlen (frame_of p) /\ state_object l = state_object (r_link s) /\ zlen t = zlen (q_in q) - 2.
Proof.
  intros Hc Ho Hl E. pose proof (zlen_frame_of p Ho) as Hz. unfold whole in E. cbn [map concat] in E. rewrite frame_body, <- app_assoc in E.
  destruct (app_prefix _ _ _ _ E) as (t & Et & Er). { rewrite length_be_bytes. unfold zlen in Hl. lia. }
  unfold message_length. destruct (fetch16_ok (r_conn s) q _ t Hc Et) as (c & -> & Hc1). dred. cbn [from_option id imsg_len set_len set_count]. rewrite u16_small by lia.
  rewrite (proj2 (Z.ltb_ge (zlen (frame_of p)) DHCP_FAILOVER_MIN_MESSAGE_SIZE)) by (unfold DHCP_FAILOVER_MIN_MESSAGE_SIZE; lia).
  rewrite (proj2 (Z.ltb_ge DHCP_FAILOVER_MAX_MESSAGE_SIZE (zlen (frame_of p)))) by (unfold DHCP_FAILOVER_MAX_MESSAGE_SIZE; lia). cbn [orb].
  set (s1 := set_both _ c s). destruct (require_ok (zlen (frame_of p) - 2) s1 _ Hc1) as (c2 & -> & Hc2). rewrite <- zlen_body in *. cbn [q_in q_set_in] in *.
  exists c2, (r_link s1), t. split; [by destruct (zlen (body p) <=? zlen t)|]. split; [done|]. split; [done|]. do 5 (split; [done|]). rewrite Et, zlen_app, zlen_be_bytes. lia.
Qed.

(** What a signal leaves. *)
Definition went_on (s : receiver) (future : list Z) (ps : list posted) (s' : receiver) : Prop :=
  exists q' ps1 ps2, ps = ps1 ++ ps2 /\ in_step s' q' future ps2 /\ idle s' q' /\ log (r_world s') = log (r_world s) ++ map received ps1.

Lemma whole_nil ps : Forall (fun p => outgoing_ok (p_message p)) ps -> zlen (whole ps) < 12 -> ps = [].
Proof.
  intros Hp Hl. destruct ps as [|p ps]; [done|]. unfold whole in Hl. cbn [map concat] in Hl. rewrite zlen_app in Hl. pose proof (zlen_frame_of p (Forall_inv Hp)).
  pose proof (zlen_nonneg (concat (map frame_of ps))). lia.
Qed.

Lemma after_message fuel (s : receiver) q future p ps :
  (forall (s1 : receiver) q1, conn_holds (r_conn s1) q1 -> accepted cur_time (state_object (r_link s1)) (r_peers s1) ps -> lstate (r_link s1) = flink_message_length_wait -> q_needed q1 = 2 ->
    2 <= zlen (q_in q1) -> zlen (q_in q1) <= zlen (q_in q) -> q_in q1 ++ future = whole ps -> exists s', messages fuel s1 = Done (R_SUCCESS, s') /\ went_on s1 future ps s') ->
  conn_holds (r_conn s) q -> accepted cur_time (state_object (r_link s)) (r_peers s) (p :: ps) -> imsg (r_link s) = Some empty_message -> imsg_count (r_link s) = 0 ->
  imsg_len (r_link s) = zlen (frame_of p) -> zlen (body p) <= zlen (q_in q) -> q_in q ++ future = body p ++ whole ps ->
  exists s', (t ← read_message s; match t with Stop r s => Done (r, s) | Next s => messages fuel s end) = Done (R_SUCCESS, s') /\ went_on s future (p :: ps) s'.
Proof.
  intros Hnext Hc [Hok Ha] Em En El Hl E. destruct (app_prefix _ _ _ _ E) as (t & Et & Er); [unfold zlen in Hl; lia|].
  destruct (takes _ _ _ _) as [[i peers]|] eqn:Htk; [|done].
  destruct (read_message_ok cur_time shutdown message contact_timeout contact s q p i peers t Hc Hok Htk Et Em En El) as (c & l & -> & Hc1 & Ho1).
  destruct (deliver_ok (received p) (mk_receiver l c peers (r_world s)) _ i Hc1 Ho1) as (s1 & q1 & -> & Hc2 & Ein & Hneed & Hst & Ho2 & Hpe & Hlog). cbn [q_in q_set_in r_world r_peers] in *. subst t.
  rewrite <- Ho2, <- Hpe in Ha.
  destruct (Z.leb_spec 2 (zlen (q_in q1))) as [H2|H2]; dred.
  - destruct (Hnext s1 q1) as (s' & -> & q' & ps1 & ps2 & -> & Hin & Hidle & Hlog'); try done.
    { rewrite Et, zlen_app. pose proof (zlen_nonneg (body p)). lia. }
    exists s'. split; [done|]. exists q', (p :: ps1), ps2. split; [done|]. split; [done|]. split; [done|]. rewrite Hlog', Hlog. cbn [map]. by rewrite <- app_assoc.
  - exists s1. split; [done|]. exists q1, [p], ps. split; [done|]. split; [split; [done|by apply synced_length|done]|]. split; [unfold idle; rewrite Hst; lia|done].
Qed.

Lemma messages_ok fuel : forall (s : receiver) q future ps,
  conn_holds (r_conn s) q -> accepted cur_time (state_object (r_link s)) (r_peers s) ps -> lstate (r_link s) = flink_message_length_wait ->
  2 <= zlen (q_in q) -> zlen (q_in q) < Z.of_nat fuel -> q_in q ++ future = whole ps ->
  exists s', messages fuel s = Done (R_SUCCESS, s') /\ went_on s future ps s'.
Proof.
  induction fuel as [|fuel IH]; intros s q future ps Hc Ha Hst H2 Hf E; [lia|]. cbn [FailoverLink.messages]. unfold and_next.
  destruct ps as [|p ps]. { apply (f_equal zlen) in E. rewrite zlen_app in E. unfold whole in E. simpl in E. rewrite zlen_nil in E. pose proof (zlen_nonneg future). lia. }
  destruct (message_length_ok s q future p ps Hc (proj1 Ha) H2 E) as (c & l & t & -> & Er & Hc1 & Hst1 & Em & En & El & Ho1 & Hz).
  destruct (Z.leb_spec (zlen (body p)) (zlen t)) as [Hl|Hl]; dred.
  - apply (after_message fuel (set_both l c s) (mk_q t (q_out q) (zlen (body p)) (q_state q)) future p ps); try done.
    + intros s1 q1 Hc2 Ho2 Hst2 Hneed H2' Hle E2. cbn [q_in] in Hle. apply (IH s1 q1); try done. lia.
    + cbn [r_link r_peers set_both]. by rewrite Ho1.
  - eexists. split; [done|]. eexists _, [], (p :: ps). split; [done|]. split; [split; [exact Hc1| |cbn [r_link r_peers set_both]; by rewrite Ho1]|].
    + eapply synced_message; done.
    + split; [unfold idle; cbn [r_link set_both q_in q_needed]; rewrite Hst1; done|]. simpl. by rewrite app_nil_r.
Qed.

Lemma ready_ok (s : receiver) q future ps : in_step s q future ps -> (lstate (r_link s) = flink_start \/ q_needed q <= zlen (q_in q)) ->
  exists s', ready s = Done (R_SUCCESS, s') /\ went_on s future ps s'.
Proof.
  intros [Hc Hs Ha] Hr. unfold ready. rewrite (proj1 (ch_in_bytes _ _ Hc)).
  assert (Hfuel : zlen (q_in q) < Z.of_nat (Z.to_nat (zlen (q_in q) + 1))) by (pose proof (zlen_nonneg (q_in q)); lia).
  destruct Hs as [Hst E|Hst Hneed E|p ps' -> Hst Em En El Hneed E]; rewrite Hst.
  - set (s1 := set_link _ s). destruct (require_ok 2 s1 q Hc) as (c & -> & Hc1). destruct (Z.leb_spec 2 (zlen (q_in q))) as [H2|H2].
    + destruct (messages_ok _ (set_both (r_link s1) c s1) _ future ps Hc1 Ha eq_refl H2 Hfuel E) as (s' & Em & Hw). exists s'. by split.
    + eexists. split; [done|]. eexists _, [], ps. split; [done|]. split; [split; [exact Hc1|by apply synced_length|done]|]. split; [done|]. simpl. by rewrite app_nil_r.
  - destruct Hr as [Hr|Hr]; [congruence|]. apply (messages_ok _ s q); try done. lia.
  - destruct Hr as [Hr|Hr]; [congruence|]. apply (after_message _ s q); try done; [|lia]. intros s1 q1 Hc1 Ha1 Hst1 Hn1 H2 Hle E1.
    apply (messages_ok _ s1 q1); try done. lia.
Qed.

(** Reading from the socket and signalling, as the bytes come in portions. *)
Fixpoint pump (portions : list (list Z)) (pending : list Z) (s : receiver) : outcome (list Z * receiver) :=
  match portions with
  | [] => Done (pending, s)
  | data :: portions =>
      '(_, rest, signalled, c) ← reader shutdown (r_conn s) (pending ++ data) (Some EWOULDBLOCK);
      let s := set_both (r_link s) c s in
      s ← (if signalled : bool then '(_, s) ← ready s; Done s else Done s);
      pump portions rest s
  end.

Lemma in_step_read (s : receiver) q data future ps c q' k : in_step s q (data ++ future) ps -> (k <= length data)%nat ->
  conn_holds c q' -> q' = q_set_in (q_in q ++ take k data) q -> in_step (set_both (r_link s) c s) q' (drop k data ++ future) ps.
Proof.
  intros [Hc Hs Ha] Hk Hc' ->. split; [done| |done].
  assert (Ef : (q_in q ++ take k data) ++ drop k data ++ future = q_in q ++ data ++ future) by (rewrite <- app_assoc, (app_assoc (take k data)), take_drop; done).
  destruct Hs as [Hst E|Hst Hneed E|p ps' -> Hst Em En El Hneed E]; rewrite <- Ef in E.
  - by apply synced_start.
  - by apply synced_length.
  - by eapply synced_message.
Qed.

Lemma in_step_size (s : receiver) q future ps : in_step s q future ps -> zlen (q_in q) + zlen future <= zlen (whole ps).
Proof.
  intros [_ Hs _]. destruct Hs as [_ E|_ _ E|p ps' -> _ _ _ _ _ E]; apply (f_equal zlen) in E; rewrite !zlen_app in E; [lia..|].
  unfold whole. cbn [map concat]. rewrite zlen_app. fold (whole ps'). rewrite zlen_body in E. lia.
Qed.
Lemma in_step_later (s : receiver) q future ps1 ps2 : in_step s q future ps2 -> zlen (whole ps2) <= zlen (whole (ps1 ++ ps2)).
Proof. intros _. unfold whole. rewrite map_app, concat_app, zlen_app. pose proof (zlen_nonneg (concat (map frame_of ps1))). lia. Qed.

Lemma pump_ok portions : forall (s : receiver) q pending ps, in_step s q (pending ++ concat portions) ps -> idle s q -> zlen (whole ps) < 2 ^ 32 ->
  exists rest s', pump portions pending s = Done (rest, s') /\ went_on s rest ps s'.
Proof.
  induction portions as [|data portions IH]; intros s q pending ps Hs Hidle Hz; cbn [pump].
  - cbn [concat] in Hs. rewrite app_nil_r in Hs. exists pending, s. split; [done|]. exists q, [], ps. split; [done|]. split; [done|]. split; [done|]. simpl. by rewrite app_nil_r.
  - cbn [concat] in Hs. rewrite app_assoc in Hs. pose proof (in_step_size _ _ _ _ Hs) as Hsz. rewrite zlen_app in Hsz. pose proof (zlen_nonneg (concat portions)).
    destruct (reader_ok shutdown (r_conn s) q (pending ++ data) (Some EWOULDBLOCK) (is_conn _ _ _ _ Hs)) as (r & rest & signalled & c & -> & q1 & Hstep & Hc1); [lia|]. dred.
    assert (Hlate : forall s1 q2 ps1 ps2, in_step s1 q2 (rest ++ concat portions) ps2 -> idle s1 q2 -> ps = ps1 ++ ps2 -> log (r_world s1) = log (r_world s) ++ map received ps1 ->
      exists rest' s', pump portions rest s1 = Done (rest', s') /\ went_on s rest' ps s').
    { intros s1 q2 ps1 ps2 Hs1 Hidle1 Eps Hlog. pose proof (in_step_later _ _ _ ps1 _ Hs1) as Hlater. rewrite <- Eps in Hlater.
      destruct (IH s1 q2 rest ps2 Hs1 Hidle1) as (rest' & s' & Ep & q' & ps3 & ps4 & -> & Hs' & Hidle' & Hlog'); [lia|].
      exists rest', s'. split; [exact Ep|]. exists q', (ps1 ++ ps3), ps4. split; [by rewrite <- app_assoc|]. split; [done|]. split; [done|].
      by rewrite Hlog', Hlog, map_app, app_assoc. }
    inversion Hstep as [| | | |? ? ? Hfull Hneed|? ? ? k Hk Hpos q'|? ? ? ? ? Herr| | | |]; subst; clear Hstep.
    + exfalso. unfold idle in Hidle. destruct (lstate (r_link s)); try lia. destruct Hidle as [E _]. rewrite E in Hfull. by vm_compute in Hfull.
    + pose proof (in_step_read s q (pending ++ data) (concat portions) ps c _ k Hs Hk Hc1 eq_refl) as Hs1. cbn [q_in q_set_in] in *.
      set (s1 := set_both (r_link s) c s) in *. set (q1 := q_set_in _ q) in *.
      destruct (Z.leb_spec (q_needed q) (zlen (q_in q ++ take k (pending ++ data)))) as [Hr|Hr]; dred.
      * destruct (ready_ok s1 q1 _ ps Hs1 (or_intror Hr)) as (s2 & -> & q2 & ps1 & ps2 & E & Hs2 & Hidle2 & Hlog2). dred. by apply (Hlate s2 q2 ps1 ps2).
      * apply (Hlate s1 q1 [] ps); try done; [|simpl; by rewrite app_nil_r]. unfold idle in *. cbn [r_link set_both s1]. subst s1 q1. cbn [r_link set_both q_in q_needed q_set_in].
        destruct (lstate (r_link s)); try done. destruct Hidle as [_ H1]. split; [|done]. apply zlen_0_nil. pose proof (zlen_nonneg (q_in q ++ take k (pending ++ data))). lia.
    + done.
Qed.

Lemma nothing_left (s : receiver) q ps : in_step s q [] ps -> idle s q -> ps = [].
Proof.
  intros [Hc Hs Ha] Hidle. pose proof (accepted_ok _ _ _ _ Ha) as Hp. unfold idle in Hidle. destruct Hs as [Hst E|Hst Hneed E|p ps' -> Hst Em En El Hneed E]; rewrite Hst in Hidle; rewrite app_nil_r in E.
  - destruct Hidle as [Hn _]. apply whole_nil; [done|]. rewrite <- E, Hn. done.
  - apply whole_nil; [done|]. rewrite <- E. lia.
  - exfalso. rewrite E, zlen_app, Hneed in Hidle. pose proof (zlen_nonneg (whole ps')). lia.
Qed.
End stream.

(** ** From one server to the other *)
Fixpoint post_all (contact : option Z) (c : conn) (ps : list posted) : outcome conn :=
  match ps with
  | [] => Done c
  | p :: ps => '(_, c, _) ← send_outgoing (p_time p) contact c (p_xid p) (p_message p); post_all contact c ps
  end.
Lemma post_all_ok contact ps : forall c q, conn_holds c q -> sends q -> Forall (fun p => outgoing_ok (p_message p)) ps -> zlen (q_out q) + zlen (whole ps) < 2 ^ 32 ->
  exists c', post_all contact c ps = Done c' /\ conn_holds c' (q_set_out (q_out q ++ whole ps) q).
Proof.
  induction ps as [|p ps IH]; intros c q Hc Hs Hp Hl; cbn [post_all].
  - exists c. split; [done|]. unfold whole. cbn. rewrite app_nil_r. by destruct q.
  - unfold whole in Hl. cbn [map concat] in Hl. rewrite zlen_app in Hl. pose proof (zlen_nonneg (concat (map frame_of ps))). fold (whole ps) in *.
    destruct (send_outgoing_ok (p_time p) contact c q (p_xid p) (p_message p) Hc Hs (Forall_inv Hp)) as (c1 & t & -> & Hc1); [fold (frame_of p); lia|]. dred.
    destruct (IH c1 _ Hc1 Hs (Forall_inv_tail Hp)) as (c2 & -> & Hc2); [cbn [q_out q_set_out]; rewrite zlen_app; fold (frame_of p); lia|].
    exists c2. split; [done|]. unfold whole. cbn [map concat]. cbn [q_out q_set_out q_in q_needed q_state] in Hc2. rewrite <- app_assoc in Hc2. exact Hc2.
Qed.

(** C29: The messages that one server puts on its connection are handed to the
    state machine of the other one exactly as they were made, once each and in
    order, however the bytes are cut into portions on the way; with the last
    byte the last message has been handed over.  The first of them may be a
    connect message, which gives the connection its peer; the messages are to be
    taken, that is, connect messages come from a known peer, with a clock within
    a minute and with the buckets of the load balancing, and the others come
    when there is a peer.  The state machine is one that returns and does not
    close the connection. *)
Theorem messages_cross {W} cur_time shutdown message contact_timeout contact (log : W -> list failover_message) c0 q0 ps (s : receiver (W := W)) q portions contact0 :
  handles message log ->
  conn_holds c0 q0 -> sends q0 -> q_out q0 = [] -> zlen (whole ps) < 2 ^ 32 ->
  conn_holds (r_conn s) q -> accepted cur_time (state_object (r_link s)) (r_peers s) ps ->
  lstate (r_link s) = flink_start -> q_in q = [] -> q_needed q = 0 ->
  exists c1 q1, post_all contact0 c0 ps = Done c1 /\ conn_holds c1 q1 /\
    (concat portions = q_out q1 ->
     exists rest s' ps1 ps2, pump cur_time shutdown message contact_timeout contact portions [] s = Done (rest, s') /\ ps = ps1 ++ ps2 /\
       log (r_world s') = log (r_world s) ++ map received ps1 /\ (rest = [] -> ps2 = [])).
Proof.
  intros Hm Hc0 Hs0 Hout Hz Hc Ha Hst Hin Hneed. pose proof (accepted_ok _ _ _ _ Ha) as Hp.
  destruct (post_all_ok contact0 ps c0 q0 Hc0 Hs0 Hp) as (c1 & Ep & Hc1); [rewrite Hout, zlen_nil; lia|].
  eexists c1, _. split; [done|]. split; [exact Hc1|]. cbn [q_out q_set_out]. rewrite Hout. simpl app. intros E.
  destruct (pump_ok cur_time shutdown message contact_timeout contact log Hm portions s q [] ps) as (rest & s' & -> & q' & ps1 & ps2 & -> & Hs' & Hidle & Hlog).
  - split; [done| |done]. apply synced_start; [done|]. by rewrite Hin, E.
  - unfold idle. rewrite Hst, Hneed. done.
  - done.
  - exists rest, s', ps1, ps2. do 3 (split; [done|]). intros ->. by eapply nothing_left.
Qed.
