(* ===== verification/FailoverLinkSafe.v ===== *)
(** * A failover message with any contents is read safely

    Whatever the bytes of a message are, if its payload does not begin before
    the end of the header, the message is either handed to the state machine or
    the connection is given up; no variable is read that was not set, and no
    more than the message is read. *)

From stdpp Require Import base tactics list numbers gmap strings.
From S2P Require Import Prelude LeaseHash LeaseDb FailoverBind Failover OmapiBuffer OmapiBufferOk FailoverMsg FailoverMsgOk FailoverLink FailoverLinkOk.

#[local] Open Scope Z_scope.

(** The connection after [n] bytes of [q] have been read. *)
Definition at_byte (q : queue_conn) (n : Z) : queue_conn := q_set_in (drop (Z.to_nat n) (q_in q)) q.

Lemma fetch_at c q n k : conn_holds c (at_byte q n) -> 0 <= n -> 0 <= k -> n + k <= zlen (q_in q) ->
  exists d c', fetch c k = Done (Some d, c') /\ d = take (Z.to_nat k) (drop (Z.to_nat n) (q_in q)) /\ conn_holds c' (at_byte q (n + k)).
Proof.
  intros Hc Hn Hk Hl. destruct (fetch_any c _ k Hc Hk) as (d & c' & -> & [(_ & -> & Hc')|(Hs & _)]).
  - eexists _, _. split; [done|]. split; [done|]. unfold at_byte in *. cbn [q_in q_set_in] in Hc'. rewrite drop_drop in Hc'. rewrite Z2Nat.inj_add by lia. exact Hc'.
  - unfold at_byte, zlen in *. cbn [q_in q_set_in] in Hs. rewrite length_drop in Hs. lia.
Qed.
Lemma skip_from c q n k : conn_holds c (at_byte q n) -> 0 <= n -> 0 <= k -> n + k <= zlen (q_in q) -> exists c', skip c k = Done c' /\ conn_holds c' (at_byte q (n + k)).
Proof. intros Hc Hn Hk Hl. destruct (fetch_at c q n k Hc Hn Hk Hl) as (d & c' & E & _ & Hc'). exists c'. rewrite skip_fetch, E. by split. Qed.
Lemma bytes_part q n k : bytes (q_in q) -> bytes (take (Z.to_nat k) (drop (Z.to_nat n) (q_in q))).
Proof. intros Hb. by apply Forall_take, Forall_drop. Qed.
Lemma fetch16_at c q n : conn_holds c (at_byte q n) -> bytes (q_in q) -> 0 <= n -> n + 2 <= zlen (q_in q) ->
  exists v c', fetch16 c = Done (Some v, c') /\ 0 <= v < 65536 /\ conn_holds c' (at_byte q (n + 2)).
Proof.
  intros Hc Hb Hn Hl. destruct (fetch_at c q n 2 Hc Hn ltac:(lia) Hl) as (d & c' & E & Ed & Hc'). rewrite fetch16_fetch, E. dred. cbn [option_map]. eexists _, _. split; [done|]. split; [|done].
  pose proof (be_val_bound d) as H. rewrite Ed in H at 1. specialize (H (bytes_part q n 2 Hb)). assert (zlen d = 2) as Ez by (subst d; unfold zlen in *; rewrite length_take, length_drop; lia). by rewrite Ez in H.
Qed.
Lemma fetch32_at c q n : conn_holds c (at_byte q n) -> 0 <= n -> n + 4 <= zlen (q_in q) -> exists v c', fetch32 c = Done (Some v, c') /\ conn_holds c' (at_byte q (n + 4)).
Proof. intros Hc Hn Hl. destruct (fetch_at c q n 4 Hc Hn ltac:(lia) Hl) as (d & c' & E & _ & Hc'). rewrite fetch32_fetch, E. dred. cbn [option_map]. by eexists _, _. Qed.

(** ** Options *)
Definition any_row_ok (i : failover_option_info) : bool :=
  match ftype i with
  | FT_UINT8 | FT_UINT16 | FT_UINT32 | FT_IPADDR | FT_DDNS => num_present i =? 1
  | FT_BYTES | FT_TEXT => num_present i =? 0
  | FT_UNDEF => true
  | _ => false
  end && (negb (bool_decide (offset i = "relationship_name")) || bool_decide (ftype i = FT_BYTES)).
Lemma rows_ok code : 0 <= code <= FTO_MAX -> exists i, rd ft_options code = Done i /\ any_row_ok i = true.
Proof.
  unfold FTO_MAX, FTO_VENDOR_OPTIONS. intros Hc. assert (Hl : (Z.to_nat code < length ft_options)%nat) by (vm_compute length; lia).
  destruct (lookup_lt_is_Some_2 ft_options _ Hl) as [i Hi]. exists i. split; [apply rd_Done; split; [lia|done]|].
  assert (Hall : Forall (fun i => any_row_ok i = true) ft_options) by (repeat constructor). rewrite Forall_lookup in Hall. by eapply Hall.
Qed.

(** What reading the content of an option leaves. *)
Definition content_read (q : queue_conn) (i : failover_option_info) (count option_len : Z) (r : option (list Z) * Z * conn) : Prop :=
  let '(v, count', c') := r in
  v <> None -> count' = count + option_len /\ conn_holds c' (at_byte q (count' - 2)) /\
    (ftype i = FT_BYTES -> bytes (default [] v) /\ zlen (default [] v) <= 2048).
Lemma read_option_any i option_len c q count : any_row_ok i = true -> ftype i <> FT_UNDEF -> 0 <= option_len ->
  conn_holds c (at_byte q (count - 2)) -> bytes (q_in q) -> 2 <= count -> count + option_len <= 2048 -> count - 2 + option_len <= zlen (q_in q) ->
  exists r, read_option i option_len c count = Done r /\ content_read q i count option_len r.
Proof.
  intros [Hr _]%andb_true_iff Hu Hn Hc Hb Hcount Hmax Hl. unfold read_option.
  assert (Hfetch : exists d c', fetch c option_len = Done (Some d, c') /\ conn_holds c' (at_byte q (count + option_len - 2)) /\ bytes d /\ zlen d <= 2048).
  { destruct (fetch_at c q (count - 2) option_len Hc ltac:(lia) Hn Hl) as (d & c' & E & Ed & Hc'). assert (bytes d /\ zlen d <= 2048) by (subst d; split; [by apply bytes_part|unfold zlen; rewrite length_take; lia]). replace (count - 2 + option_len) with (count + option_len - 2) in Hc' by lia. eauto. }
  assert (Hnone : exists r, Done (@None (list Z), count, c) = Done r /\ content_read q i count option_len r) by (eexists; split; [done|]; by intros []).
  destruct (ftype i) eqn:Et; try done; apply Z.eqb_eq in Hr; rewrite Hr; cbn [ft_sizes Z.eqb negb];
    try (match goal with |- context [option_len =? ?x] => destruct (Z.eqb_spec option_len x) as [El|_] end; cbn [negb]; [|exact Hnone]);
    try (rewrite !bool_decide_eq_false_2 by done; cbn [orb]; change (1 <? 1) with false; cbn [andb]); unfold read_elements; cbn [Z.eqb Pos.eqb orb].
  all: try (destruct Hfetch as (d & c' & -> & Hc' & Hd); dred; rewrite ?u32_small by lia; eexists; split; [done|]; intros _; split; [done|]; split; [exact Hc'|intros _; exact Hd]).
  - change (u32 (4 * 1)) with 4 in El. subst option_len. rewrite bool_decide_eq_false_2 by done. change (Z.to_nat 1) with 1%nat. cbn [read_numbers].
    destruct (fetch32_at c q (count - 2) Hc) as (v & c' & -> & Hc'); [lia..|]. dred. rewrite u32_small by lia. eexists. split; [done|]. intros _. split; [done|]. replace (count + 4 - 2) with (count - 2 + 4) by lia. split; [done|congruence].
  - change (Z.to_nat 1) with 1%nat. rewrite bool_decide_eq_false_2 by done. cbn [read_numbers]. exact Hnone.
  - change (u32 (2 * 1)) with 2 in El. subst option_len. rewrite bool_decide_eq_false_2 by done. change (Z.to_nat 1) with 1%nat. cbn [read_numbers].
    destruct (fetch16_at c q (count - 2) Hc Hb) as (v & c' & -> & _ & Hc'); [lia..|]. dred. rewrite u32_small by lia. eexists. split; [done|]. intros _. split; [done|]. replace (count + 2 - 2) with (count - 2 + 2) by lia. split; [done|congruence].
Qed.

(** The link between two options, or at the end. *)
Record reading (q : queue_conn) (l0 : link) (c : conn) (l : link) : Prop := {
  rg_imsg : exists m, imsg l = Some m /\ 0 <= msg_type m < 256 /\ bytes (octets m "relationship_name") /\ zlen (octets m "relationship_name") <= 2048;
  rg_len : imsg_len l = imsg_len l0;
  rg_object : state_object l = state_object l0;
  rg_count : 12 <= imsg_count l <= imsg_len l0;
  rg_conn : conn_holds c (at_byte q (imsg_count l - 2)) }.

Lemma do_option_any q l0 c l : bytes (q_in q) -> imsg_len l0 - 2 <= zlen (q_in q) -> imsg_len l0 <= 2048 -> reading q l0 c l ->
  exists ok c' l', do_a_failover_option c l = Done (ok, c', l') /\ imsg_len l' = imsg_len l0 /\ (ok = true -> reading q l0 c' l' /\ imsg_count l < imsg_count l').
Proof.
  intros Hb Hl Hmax [(m & Em & Ht & Hname) El Eo Hn Hc]. unfold do_a_failover_option. rewrite Em. cbn [used]. dred. rewrite El. rewrite u32_small by lia.
  destruct (Z.ltb_spec (imsg_len l0) (imsg_count l + 2)) as [|H2]; [by eexists _, _, _|]. destruct (Z.ltb_spec FTM_MAX (msg_type m)) as [|Htm]; [by eexists _, _, _|].
  destruct (fetch16_at c q _ Hc Hb) as (code & c1 & -> & Hcode & Hc1); [lia..|]. dred. cbn [imsg_count imsg_len set_count]. rewrite ?El. rewrite !(u32_small (imsg_count l + 2 + 2)) by lia.
  destruct (Z.ltb_spec (imsg_len l0) (imsg_count l + 2 + 2)) as [|H4]; [by eexists _, _, _|].
  destruct (fetch16_at c1 q _ Hc1 Hb) as (n & c2 & -> & Hlen & Hc2); [lia..|]. dred. cbn [used imsg_count imsg_len set_count]. dred. rewrite ?El. rewrite !(u32_small (imsg_count l + 2 + 2 + n)) by lia.
  destruct (Z.ltb_spec (imsg_len l0) (imsg_count l + 2 + 2 + n)) as [|Hn4]; [by eexists _, _, _|].
  replace (imsg_count l - 2 + 2 + 2) with (imsg_count l + 2 + 2 - 2) in Hc2 by lia.
  assert (Hskip : exists ok c' l', (c ← skip c2 n; Done (true, c, set_count (imsg_count l + 2 + 2 + n) (set_count (imsg_count l + 2 + 2) (set_count (imsg_count l + 2) l)))) = Done (ok, c', l') /\ imsg_len l' = imsg_len l0 /\
    (ok = true -> reading q l0 c' l' /\ imsg_count l < imsg_count l')).
  { destruct (skip_from c2 q _ n Hc2) as (c3 & -> & Hc3); [lia..|]. dred. eexists _, _, _. split; [done|]. split; [done|]. intros _. cbn [imsg_count set_count]. split; [|lia].
    split; cbn [imsg imsg_len state_object imsg_count set_count]; [by exists m|done|done|lia|]. by replace (imsg_count l + 2 + 2 + n - 2) with (imsg_count l + 2 + 2 - 2 + n) by lia. }
  destruct (Z.ltb_spec FTO_MAX code) as [|Hmaxc]; [exact Hskip|]. destruct (rows_ok code) as (i & -> & Hi); [lia|]. dred.
  case_bool_decide as Hund; [exact Hskip|]. case_bool_decide as Hdig; [unfold any_row_ok in Hi; by rewrite Hdig in Hi|].
  destruct (has_option m (bit i)); [by eexists _, _, _|]. rewrite allowed_read by lia. dred. destruct (negb (bit i =? 0) && _); [exact Hskip|].
  destruct (read_option_any i n c2 q (imsg_count l + 2 + 2) Hi Hund) as ([[v count] c3] & -> & Hread); [lia|done|done|lia..|]. dred.
  destruct v as [v|]; [|by eexists _, _, _]. destruct (Hread ltac:(done)) as (-> & Hc3 & Hv). eexists _, _, _. split; [done|]. split; [done|]. intros _.
  cbn [imsg_count set_count set_imsg]. split; [|lia]. split; cbn [imsg imsg_len state_object imsg_count set_count set_imsg]; [|done|done|lia|exact Hc3].
  eexists. split; [done|]. split; [done|]. unfold octets. cbn [fields add_bits set_field]. unfold any_row_ok in Hi. apply andb_true_iff in Hi as [_ Hi].
  destruct (decide (offset i = "relationship_name")) as [Eo'|Ne].
  - rewrite Eo', lookup_insert_eq. cbn [from_option id]. apply Hv. rewrite Eo', bool_decide_eq_true_2 in Hi by done. by apply bool_decide_eq_true in Hi.
  - rewrite lookup_insert_ne by done. exact Hname.
Qed.

Lemma read_options_any q l0 : bytes (q_in q) -> imsg_len l0 - 2 <= zlen (q_in q) -> imsg_len l0 <= 2048 ->
  forall fuel c l, reading q l0 c l -> imsg_len l0 - imsg_count l <= Z.of_nat fuel ->
  exists ok c' l', read_options fuel c l = Done (ok, c', l') /\ (ok = true -> reading q l0 c' l' /\ imsg_count l' = imsg_len l0).
Proof.
  intros Hb Hl Hmax. induction fuel as [|fuel IH]; intros c l Hr Hf; pose proof (rg_count _ _ _ _ Hr); pose proof (rg_len _ _ _ _ Hr) as El; cbn [read_options]; destruct (Z.leb_spec (imsg_len l) (imsg_count l)) as [Hle|Hgt].
  1,3: eexists _, _, _; split; [done|]; intros _; split; [done|lia].
  { lia. }
  destruct (do_option_any q l0 c l Hb Hl Hmax Hr) as (ok & c1 & l1 & -> & El1 & Hok). dred. destruct ok; [|by eexists _, _, _].
  destruct (Hok eq_refl) as [Hr1 Hlt]. apply IH; [done|lia].
Qed.

(** ** The message *)
Lemma read_header_any q c l b : bytes (q_in q) -> 12 <= imsg_len l <= 2048 -> imsg_len l - 2 <= zlen (q_in q) -> q_in q !! 1%nat = Some b -> 12 <= b ->
  imsg l = Some empty_message -> imsg_count l = 0 -> conn_holds c q ->
  exists c' l', read_header c l = Done (c', l') /\ imsg_len l' = imsg_len l /\ state_object l' = state_object l /\ imsg_count l' = b /\
    (exists m, imsg l' = Some m /\ 0 <= msg_type m < 256 /\ octets m "relationship_name" = []) /\ (exists q', conn_holds c' q' /\ q_out q' = q_out q) /\
    (b <= imsg_len l -> conn_holds c' (at_byte q (b - 2))).
Proof.
  intros Hb Hlen Hl Hbyte H12 Em En Hc. assert (Hc0 : conn_holds c (at_byte q 0)) by (unfold at_byte; rewrite drop_0; by destruct q).
  unfold read_header. rewrite Em. cbn [used]. dred.
  destruct (fetch_at c q 0 1 Hc0) as (d0 & c1 & -> & Ed0 & Hc1); [lia..|]. dred. destruct (fetch_at c1 q _ 1 Hc1) as (d1 & c2 & -> & Ed1 & Hc2); [lia..|]. dred.
  destruct (fetch32_at c2 q _ Hc2) as (tm & c3 & -> & Hc3); [lia..|]. dred. destruct (fetch32_at c3 q _ Hc3) as (xid & c4 & -> & Hc4); [lia..|]. dred.
  assert (Hd1 : exists r, d1 = b :: r). { subst d1. change (Z.to_nat (0 + 1)) with 1%nat. change (Z.to_nat 1) with 1%nat. rewrite (drop_S _ b 1) by done. by eexists. }
  destruct Hd1 as [r1 ->]. assert (Hbb : byte b) by (eapply Forall_lookup_1; [exact Hb|exact Hbyte]).
  assert (Hd0 : exists t r0, d0 = t :: r0 /\ byte t).
  { assert (Hbd : bytes d0) by (subst d0; by apply bytes_part). assert (Hl0 : length d0 = 1%nat) by (subst d0; unfold zlen in *; rewrite length_take, length_drop; lia).
    destruct d0 as [|t r0]; [done|]. exists t, r0. split; [done|exact (Forall_inv Hbd)]. }
  destruct Hd0 as (t & r0 & -> & Ht). cbn [imsg_count imsg_payoff set_count set_payoff set_imsg from_option id]. rewrite En. change (u32 (u32 (0 + 2) + 10)) with 12.
  unfold byte in *. destruct (Z.eqb_spec b 12) as [->|Hne]; dred.
  - eexists _, _. split; [done|]. do 2 (split; [done|]). split; [done|]. split; [by eexists|]. split; [by eexists|]. intros _. exact Hc4.
  - destruct (fetch_any c4 _ (u32 (b - 12)) Hc4) as (o & c5 & Ef & Hc5); [unfold u32; apply Z.mod_pos_bound; lia|]. rewrite skip_fetch, Ef. dred. rewrite u32_small in Hc5 by lia.
    eexists _, _. split; [done|]. do 2 (split; [done|]). split; [done|]. split; [by eexists|].
    destruct Hc5 as [(_ & _ & Hc5)|(Hs & _ & Hc5)]; (split; [eexists; split; [exact Hc5|done]|]); intros Hble.
    + unfold at_byte in *. cbn [q_in q_set_in] in Hc5. rewrite drop_drop in Hc5. replace (Z.to_nat (b - 2)) with (Z.to_nat (0 + 1 + 1 + 4 + 4) + Z.to_nat (b - 12))%nat by lia. exact Hc5.
    + exfalso. unfold at_byte, zlen in *. cbn [q_in q_set_in] in Hs. rewrite length_drop in Hs. lia.
Qed.

Lemma items_few l : (length (concat (map items_of l)) <= length l)%nat.
Proof. induction l as [|o l IH]; simpl; [done|]. rewrite length_app. assert (length (items_of o) <= 1)%nat by (destruct o; simpl; lia). lia. Qed.
Definition small_call (o : option_call) : Prop := Forall (fun i => zlen i.2 <= 2048) (items_of o).
Lemma call_size m n time xid : Forall call_ok (out_options m) -> Forall small_call (out_options m) -> (length (out_options m) <= n)%nat ->
  zlen (frame m time xid) <= 2052 * Z.of_nat n + 12.
Proof.
  intros Hcalls Hs Hn. rewrite zlen_frame. pose proof (items_few (out_options m)) as Hf. fold (outgoing_items m) in Hf.
  assert (Hall : Forall (fun i => zlen i.2 <= 2048) (outgoing_items m)) by (unfold outgoing_items; apply Forall_concat, Forall_map; exact Hs).
  pose proof (payload_bound m 2048 Hcalls ltac:(lia) Hall). unfold zlen in *. nia.
Qed.

Lemma connectack_small m p reason errmsg : match p with Some p => peer_ok p | None => True end -> zlen (octets m "relationship_name") <= 2048 -> zlen errmsg <= 2048 ->
  Forall small_call (out_options (connectack_message m p reason (Some errmsg))).
Proof.
  intros Hp Hl Ht. assert (Hv : small_call (Printed FTO_VENDOR_CLASS vendor_class)) by (constructor; [by vm_compute|done]).
  assert (Hone : forall code n, type_of code = FT_UINT32 \/ type_of code = FT_UINT8 -> small_call (Make code [Int n])).
  { intros code n Hc. constructor; [|done]. cbn [snd]. by destruct Hc as [-> | ->]. }
  assert (Hskip : small_call Skipped) by constructor.
  unfold connectack_message. cbn [out_options]. repeat (apply Forall_cons_2; [|]); try exact Hv; try done.
  - destruct p as [p|].
    + constructor; [|done]. cbn [snd]. change (type_of FTO_RELATIONSHIP_NAME) with FT_BYTES. cbn [value_of]. pose proof (proj2 (po_name _ Hp)). lia.
    + destruct (has_option m FTB_RELATIONSHIP_NAME); [|exact Hskip]. constructor; [|done]. done.
  - destruct p as [p|]; [|exact Hskip]. apply Hone. by left.
  - destruct p as [p|]; [|exact Hskip]. apply Hone. by left.
  - destruct (has_option m FTB_TLS_REQUEST); [|exact Hskip]. constructor; [|done]. done.
  - destruct (negb (reason =? 0)); [|exact Hskip]. apply Hone. by right.
  - destruct (negb (reason =? 0)); [|exact Hskip]. constructor; [|done]. done.
Qed.

Section safe.
Context {W : Type} (cur_time : Z) (shutdown : bool) (message : nat -> failover_message -> conn -> W -> outcome (conn * W))
  (contact_timeout : Z -> W -> W) (contact : W -> option Z).
(** The state machine always returns. *)
Definition returns : Prop := forall i m c w q, conn_holds c q -> exists c' w' q', message i m c w = Done (c', w') /\ conn_holds c' q'.
Abbreviation receiver := (receiver (W := W)).

Definition given_up (t : turn (W := W)) : Prop := match t with Stop _ s => lstate (r_link s) = flink_disconnected | Next _ => False end.

Lemma bad_connect_returns m i reason errmsg (s : receiver) q : conn_holds (r_conn s) q -> zlen (q_out q) + 32768 < 2 ^ 32 -> Forall peer_ok (r_peers s) ->
  bytes (octets m "relationship_name") -> zlen (octets m "relationship_name") <= 2048 -> zlen (text_of errmsg) <= 2048 ->
  exists t, bad_connect cur_time shutdown contact_timeout contact m i reason errmsg s = Done t /\ given_up t.
Proof.
  intros Hc Hout Hp Hn Hl Ht. unfold bad_connect. set (p := match i with Some i => _ | None => _ end).
  assert (Hpo : match p with Some p => peer_ok p | None => True end).
  { subst p. destruct i as [i|]; [|done]. destruct (r_peers s !! i) as [p|] eqn:Ep; [|done]. by eapply Forall_lookup_1. }
  pose proof (connectack_calls m p reason (Some (text_of errmsg)) Hpo Hn (text_bytes errmsg)) as Hcalls.
  pose proof (call_size _ 8 cur_time (msg_xid m) Hcalls (connectack_small m p reason (text_of errmsg) Hpo Hl Ht) (le_n _)).
  destruct (send_total cur_time (contact (r_world s)) (r_conn s) q (msg_xid m) (connectack_message m p reason (Some (text_of errmsg))) Hc ltac:(done) Hcalls) as (r & c' & t & q' & -> & _); [lia|]. dred. eexists. split; [reflexivity|done].
Qed.

Lemma deliver_returns m (s : receiver) q : returns -> conn_holds (r_conn s) q -> exists t, deliver message m s = Done t.
Proof.
  intros Hm Hc. unfold deliver. destruct (state_object (r_link s)) as [i|]; [|by eexists]. destruct (Hm i m (r_conn s) (r_world s) q Hc) as (c' & w' & q' & -> & _). dred. by eexists.
Qed.

(** C30: A message with any contents, of any length that is accepted, is read
    without a fault if its payload begins after the header: no variable is read
    that was not set, and no byte past the message if the payload begins within
    it; then it is handed over, or the connection is given up. *)
Theorem read_message_safe (s : receiver) q b :
  returns -> conn_holds (r_conn s) q -> bytes (q_in q) -> imsg (r_link s) = Some empty_message -> imsg_count (r_link s) = 0 ->
  12 <= imsg_len (r_link s) <= 2048 -> imsg_len (r_link s) - 2 <= zlen (q_in q) -> q_in q !! 1%nat = Some b -> 12 <= b ->
  Forall peer_ok (r_peers s) -> zlen (q_out q) + 32768 < 2 ^ 32 ->
  exists t, read_message cur_time shutdown message contact_timeout contact s = Done t /\
    (given_up t \/
     exists m l c peers, deliver message m (mk_receiver l c peers (r_world s)) = Done t /\
       (b <= imsg_len (r_link s) -> conn_holds c (at_byte q (imsg_len (r_link s) - 2)))).
Proof.
  intros Hm Hc Hb Em En Hlen Hl Hbyte H12 Hp Hout. unfold read_message.
  destruct (read_header_any q _ _ b Hb Hlen Hl Hbyte H12 Em En Hc) as (c1 & l1 & -> & El & Eo & Ecount & (m1 & Em1 & Ht1 & Hn1) & (q1 & Hc1 & Eout1) & Hat). dred.
  assert (Hread : exists ok c2 l2, read_options (Z.to_nat (imsg_len l1)) c1 l1 = Done (ok, c2, l2) /\
    (ok = true -> exists m2 q2, imsg l2 = Some m2 /\ bytes (octets m2 "relationship_name") /\ zlen (octets m2 "relationship_name") <= 2048 /\ conn_holds c2 q2 /\ q_out q2 = q_out q /\
      (b <= imsg_len (r_link s) -> conn_holds c2 (at_byte q (imsg_len (r_link s) - 2))))).
  { destruct (Z.leb_spec b (imsg_len (r_link s))) as [Hle|Hgt].
    - destruct (read_options_any q (r_link s) Hb Hl (proj2 Hlen) (Z.to_nat (imsg_len l1)) c1 l1) as (ok & c2 & l2 & E & Hok).
      + split; [exists m1; rewrite Hn1; split; [done|]; split; [done|]; split; [done|by vm_compute]|done|done|lia|]. rewrite Ecount. by apply Hat.
      + lia.
      + exists ok, c2, l2. split; [done|]. intros Hok1. destruct (Hok Hok1) as [[(m2 & Em2 & _ & Hname & Hnl) _ _ _ Hc2] Ec2]. rewrite Ec2 in Hc2. exists m2, (at_byte q (imsg_len (r_link s) - 2)). by split_and!.
    - exists true, c1, l1. split; [|].
      + destruct (Z.to_nat (imsg_len l1)); cbn [read_options]; by rewrite (proj2 (Z.leb_le _ _)) by lia.
      + intros _. exists m1, q1. rewrite Hn1. split_and!; try done. lia. }
  destruct Hread as (ok & c2 & l2 & -> & Hok). dred. destruct ok; cbn [negb].
  2:{ eexists. split; [done|]. by left. }
  destruct (Hok eq_refl) as (m2 & q2 & Em2 & Hname & Hnl & Hc2 & Eout & Hat2). cbn [r_link set_both]. rewrite Em2. cbn [used]. dred.
  assert (Hdeliver : forall s2 : receiver, r_conn s2 = c2 -> r_world s2 = r_world s -> exists t, deliver message m2 s2 = Done t /\
    (given_up t \/ exists m l c peers, deliver message m (mk_receiver l c peers (r_world s)) = Done t /\ (b <= imsg_len (r_link s) -> conn_holds c (at_byte q (imsg_len (r_link s) - 2))))).
  { intros [l3 c3 peers3 w3] E3 Ew. cbn in E3, Ew. subst. destruct (deliver_returns m2 (mk_receiver l3 c2 peers3 (r_world s)) q2 Hm Hc2) as [t Et]. exists t. split; [done|]. right. eauto 8. }
  destruct (msg_type m2 =? FTM_CONNECT); [|by apply Hdeliver].
  assert (Hbad : forall i reason errmsg, zlen (text_of errmsg) <= 2048 -> exists t, bad_connect cur_time shutdown contact_timeout contact m2 i reason errmsg (set_both l2 c2 s) = Done t /\ given_up t).
  { intros i reason errmsg Hz. apply (bad_connect_returns m2 i reason errmsg (set_both l2 c2 s) q2); try done. by rewrite Eout. }
  unfold associate. destruct (negb (has_option m2 FTB_RELATIONSHIP_NAME)).
  { destruct (Hbad None FTR_INVALID_PARTNER "missing relationship-name"%string ltac:(by vm_compute)) as (t & -> & Hg). eauto. }
  destruct (find_state _ _) as [i|].
  2:{ destruct (Hbad None FTR_INVALID_PARTNER "unknown failover relationship name"%string ltac:(by vm_compute)) as (t & -> & Hg). eauto. }
  destruct ((msg_time m2 <? cur_time) && _ || _).
  { destruct (Hbad (Some i) FTR_TIMEMISMATCH "time offset too large"%string ltac:(by vm_compute)) as (t & -> & Hg). eauto. }
  destruct (negb (has_option m2 FTB_HBA) || _).
  { destruct (Hbad (Some i) FTR_HBA_CONFLICT "invalid HBA"%string ltac:(by vm_compute)) as (t & -> & Hg). eauto. }
  by apply Hdeliver.
Qed.
End safe.
