(* ===== verification/FailoverSent.v ===== *)
(** * The messages of a server reach its peer

    Every message that the server makes is one that its peer reads; a binding
    update is the same for both; a server that answers a sequence of updates. *)

From stdpp Require Import base tactics list numbers gmap strings pretty.
From S2P Require Import Prelude LeaseHash LeaseDb LeaseSample FailoverBind Failover OmapiBuffer OmapiBufferOk FailoverMsg FailoverMsgOk FailoverLink FailoverLinkOk FailoverLinkSafe.

#[local] Open Scope Z_scope.

(** ** The messages *)
Definition short (n : Z) (t : list Z) : Prop := bytes t /\ zlen t <= n.

Inductive made : outgoing -> Prop :=
  | made_contact : made contact_message
  | made_poolreq : made poolreq_message
  | made_request : made update_request_message
  | made_request_all : made update_request_all_message
  | made_done : made update_done_message
  | made_poolresp n : made (poolresp_message n)
  | made_state s f t : made (state_message s f t)
  | made_connect p : peer_ok p -> made (connect_message p)
  | made_connectack m p reason errmsg : match p with Some p => peer_ok p | None => True end -> short 1000 (octets m "relationship_name") ->
      match errmsg with Some t => short 255 t | None => True end -> made (connectack_message m p reason errmsg)
  | made_disconnect reason message : match message with Some t => short 255 t | None => True end -> made (disconnect_message reason message)
  | made_bind_update ip_addr l : bytes ip_addr -> zlen ip_addr = 4 -> short 1500 (uid_key l) -> short 255 (hardware_addr l) -> made (bind_update_message ip_addr l)
  | made_bind_ack m reason message : bytes (address m "assigned_addr") -> zlen (address m "assigned_addr") = 4 ->
      match message with Some t => short 255 t | None => True end -> made (bind_ack_message m reason message).

Lemma reason_text_short reason : short 255 (text_of (reject_reason_print reason)).
Proof.
  split; [apply text_bytes|]. destruct ((255 <? reason) || (reason <? 0)) eqn:E.
  - unfold reject_reason_print. rewrite E. by vm_compute.
  - apply orb_false_iff in E as [H1%Z.ltb_ge H2%Z.ltb_ge].
    assert (Hall : forallb (fun n => zlen (text_of (reject_reason_print n)) <=? 255) (seqZ 0 256) = true) by (by vm_compute).
    rewrite forallb_forall in Hall. apply Z.leb_le, Hall. apply list_elem_of_In, elem_of_seqZ. lia.
Qed.
Lemma refusal_short reason message : match message with Some t => short 255 t | None => True end ->
  match refusal_text reason message with Some t => short 255 t | None => True end.
Proof. destruct message as [t|]; [done|]. intros _. cbn [refusal_text]. destruct (negb (reason =? 0)); [apply reason_text_short|done]. Qed.

Lemma some_short t : match t with Some t => short 255 t | None => True end -> match t with Some t => zlen t <= 255 | None => True end.
Proof. destruct t as [t|]; [by intros []|done]. Qed.

(** No option is repeated. *)
Definition codes_of (o : option_call) : list Z := match o with Skipped => [] | Make code _ => [code] | Printed code _ => [code] end.
Fixpoint distinct (l : list Z) : bool := match l with [] => true | x :: l => forallb (fun y => negb (x =? y)) l && distinct l end.
Lemma distinct_NoDup l : distinct l = true -> NoDup l.
Proof.
  induction l as [|x l IH]; simpl; [constructor|]. intros [Hx Hl]%andb_true_iff. constructor; [|by apply IH]. intros Hin%list_elem_of_In.
  rewrite forallb_forall in Hx. specialize (Hx _ Hin). by rewrite Z.eqb_refl in Hx.
Qed.
Lemma items_codes m : (outgoing_items m).*1 = concat (map codes_of (out_options m)).
Proof. unfold outgoing_items. induction (out_options m) as [|o l IH]; [done|]. cbn [map concat]. rewrite fmap_app, IH. by destruct o. Qed.
Lemma zlen_wire i : zlen (wire i) = 4 + zlen (wire_data (type_of i.1) i.2).
Proof. unfold wire. rewrite !zlen_app, !zlen_be_bytes. lia. Qed.

Definition cost (o : option_call) : Z :=
  match o with Skipped => 0 | Make _ (Int _ :: Ptr p :: _) => 8 + zlen p | Make _ _ => 8 | Printed _ text => 8 + zlen text end.
Lemma call_cost o : zlen (concat (map wire (items_of o))) <= cost o.
Proof.
  destruct o as [|code args|code text]; cbn [items_of map concat]; [done|rewrite app_nil_r, zlen_wire; cbn [fst snd]..].
  - assert (Hz : forall v : list Z, 0 <= zlen v) by (intros; apply zlen_nonneg).
    destruct (type_of code); destruct args as [|[n|p] [|[n'|p'] args]]; cbn [value_of wire_data cost]; rewrite ?zlen_be_bytes; change (Z.of_nat 2) with 2; change (Z.of_nat 4) with 4; try change (zlen [u8 n]) with 1; rewrite ?zlen_nil; try specialize (Hz p'); lia.
  - cbn [cost]. pose proof (zlen_nonneg text). destruct (type_of code); cbn [wire_data]; rewrite ?zlen_be_bytes; lia.
Qed.
Lemma payload_cost m : payload_size m <= foldr Z.add 0 (map cost (out_options m)).
Proof.
  unfold payload_size, outgoing_items. induction (out_options m) as [|o l IH]; [done|]. cbn [map concat foldr]. rewrite map_app, concat_app, zlen_app. pose proof (call_cost o). lia.
Qed.

Ltac calls := repeat (apply Forall_cons_2; [|]); try exact (Forall_nil_2 _).
Lemma made_ok m : made m -> outgoing_ok m.
Proof.
  intros Hm. assert (Hcalls : Forall call_ok (out_options m)).
  { destruct Hm as [| | | | |n|s f t|p [[Hn _] Hh]|m p reason errmsg Hp [Hn _] He|reason message Ht|ip l Hip Hl [Hu _] [Hw _]|m reason message Ha Hl Ht]; try by repeat constructor.
    - assert (Hv : call_ok (Printed FTO_VENDOR_CLASS vendor_class)) by (split; [done|]; split; [apply text_bytes|]; split; [done|by left]).
      unfold connect_message. cbn [out_options]. calls; try exact Hv; try done. destruct (peer_hba p) as [h|]; [|done]. destruct Hh as [Hb Hz]. by split.
    - apply connectack_calls; [done|done|]. destruct errmsg; [by destruct He|done].
    - pose proof (refusal_short reason message Ht) as Hr. unfold disconnect_message. cbn [out_options]. calls; [done|]. destruct (refusal_text reason message) as [t|]; [|done]. split; [done|]. split; [done|apply Hr].
    - unfold bind_update_message. cbn [out_options]. calls; try done.
      + destruct (negb (zlen (uid_key l) =? 0)); [|done]. by split.
      + destruct (negb (zlen (hardware_addr l) =? 0)); [|done]. by split.
      + by destruct (negb (cltt l =? 0)).
      + by destruct (negb (_ =? 0)).
    - pose proof (refusal_short reason message Ht) as Hr. unfold bind_ack_message. cbn [out_options]. calls; [done|by destruct (negb (reason =? 0))|].
      destruct (refusal_text reason message) as [t|]; [|done]. destruct (negb (reason =? 0)); [|done]. split; [done|]. split; [done|apply Hr]. }
  split; [by destruct Hm|exact Hcalls| |].
  - rewrite items_codes. apply distinct_NoDup. destruct Hm as [| | | | |n|s f t|p _|m p reason errmsg _ _ _|reason message _|ip l _ _ _ _|m reason message _ _ _]; try reflexivity.
    + unfold connect_message. cbn [out_options map]. by destruct (peer_hba p).
    + unfold connectack_message. cbn [out_options map]. destruct p; [|destruct (has_option m FTB_RELATIONSHIP_NAME)]; destruct (has_option m FTB_TLS_REQUEST), errmsg, (negb (reason =? 0)); reflexivity.
    + unfold disconnect_message. cbn [out_options map]. by destruct (refusal_text reason message).
    + unfold bind_update_message. cbn [out_options map]. destruct (negb (zlen (uid_key l) =? 0)), (negb (zlen (hardware_addr l) =? 0)), (negb (cltt l =? 0)), (negb (_ =? 0)); reflexivity.
    + unfold bind_ack_message. cbn [out_options map]. destruct (refusal_text reason message), (negb (reason =? 0)); reflexivity.
  - pose proof (payload_cost m) as Hcost. assert (Hv : zlen vendor_class = 12) by (by vm_compute).
    destruct Hm as [| | | | |n|s f t|p [[_ Hn] Hh]|m p reason errmsg Hp [_ Hn] He|reason message Ht|ip l _ Hl [_ Hu] [_ Hw]|m reason message _ Hl Ht]; try (cbn [map foldr cost out_options] in Hcost; unfold contact_message, poolreq_message in *; simpl in Hcost; lia).
    + unfold connect_message in *. cbn [map foldr cost out_options] in Hcost. destruct (peer_hba p) as [h|]; cbn [cost] in Hcost; [destruct Hh as [_ Hh]|]; lia.
    + unfold connectack_message in *. cbn [map foldr cost out_options] in Hcost. apply some_short in He.
      destruct p; [destruct (po_name _ Hp) as [_ Hpn]|destruct (has_option m FTB_RELATIONSHIP_NAME)]; destruct (has_option m FTB_TLS_REQUEST), errmsg as [t|], (negb (reason =? 0)); cbn [cost] in Hcost; lia.
    + pose proof (some_short _ (refusal_short reason message Ht)) as Hr. unfold disconnect_message in *. cbn [map foldr cost out_options] in Hcost. destruct (refusal_text reason message); cbn [cost] in Hcost; lia.
    + unfold bind_update_message in *. cbn [map foldr cost out_options] in Hcost.
      destruct (negb (zlen (uid_key l) =? 0)), (negb (zlen (hardware_addr l) =? 0)), (negb (cltt l =? 0)), (negb (_ =? 0)); cbn [cost] in Hcost; lia.
    + pose proof (some_short _ (refusal_short reason message Ht)) as Hr. unfold bind_ack_message in *. cbn [map foldr cost out_options] in Hcost.
      destruct (refusal_text reason message), (negb (reason =? 0)); cbn [cost] in Hcost; lia.
Qed.

(** What the state machine sends is read as it was meant. *)
Lemma effect_crosses e xid m time : effect_message e = Some (xid, m) ->
  made m /\ let r := received (mk_posted m time xid) in msg_type r = out_type m /\ msg_xid r = u32 xid /\
  match e with
  | FailoverQueue.State _ state flags stos => number r "server_state" = u8 state /\ number r "server_flags" = u8 flags /\ number r "stos" = u32 stos
  | _ => present_bits r = 0
  end.
Proof. destruct e; intros [= <- <-]; (split; [constructor|]); repeat split. Qed.

(** ** Binding updates *)

(** A received message as the update of FailoverBind. *)
Definition bndupd_of (m : failover_message) : bndupd :=
  mk_bndupd (present_bits m) (msg_xid m) (number m "binding_status") (number m "ip_flags") (number m "cltt") (number m "expiry") (number m "potential_expiry")
    (number m "stos") (octets m "chaddr") (octets m "client_identifier").

Lemma update_fields ip st ex po ss u h ct fl xid time (bu bh bc bf : bool) :
  let bit_if (b : bool) x := if b then x else 0 in
  let m := foldl take_item (mk_msg 0 time xid FTM_BNDUPD ∅)
    ((FTO_ASSIGNED_IP_ADDRESS, ip) :: (FTO_BINDING_STATUS, [st]) :: (if bu then [(FTO_CLIENT_IDENTIFIER, u)] else []) ++ (if bh then [(FTO_CHADDR, h)] else []) ++
     (FTO_LEASE_EXPIRY, [ex]) :: (FTO_POTENTIAL_EXPIRY, [po]) :: (FTO_STOS, [ss]) :: (if bc then [(FTO_CLTT, [ct])] else []) ++ (if bf then [(FTO_IP_FLAGS, [fl])] else [])) in
  address m "assigned_addr" = ip /\
  bndupd_of m =
    mk_bndupd
      (Z.lor FTB_ASSIGNED_IP_ADDRESS (Z.lor FTB_BINDING_STATUS (Z.lor (bit_if bu FTB_CLIENT_IDENTIFIER) (Z.lor (bit_if bh FTB_CHADDR)
        (Z.lor FTB_LEASE_EXPIRY (Z.lor FTB_POTENTIAL_EXPIRY (Z.lor FTB_STOS (Z.lor (bit_if bc FTB_CLTT) (bit_if bf FTB_IP_FLAGS)))))))))
      xid st (if bf then fl else 0) (if bc then ct else 0) ex po ss (if bh then h else []) (if bu then u else []).
Proof. destruct bu, bh, bc, bf; vm_compute; by split. Qed.

(** C31: A binding update is the same for the peer as for the server that sends
    it: the message that is made for a lease is read back, option by option, as
    the update that the models of both servers exchange, with the address of
    the lease; and it is a message that the peer reads. *)
Theorem bind_update_crosses ip l time xid : bytes ip -> zlen ip = 4 -> short 1500 (uid_key l) -> short 255 (hardware_addr l) ->
  let p := mk_posted (bind_update_message ip l) time xid in
  postable p /\ address (received p) "assigned_addr" = ip /\ bndupd_of (received p) = bind_update_of (u32 xid) l.
Proof.
  intros Hb Hl Hu Hh p. split; [split; [by apply made_ok, made_bind_update|done]|].
  set (ipf := Z.lor (if has_flag l RESERVED_LEASE then FTF_IP_FLAG_RESERVE else 0) (if has_flag l BOOTP_LEASE then FTF_IP_FLAG_BOOTP else 0)).
  pose proof (update_fields ip (u8 (desired_binding_state l)) (u32 (ends l)) (u32 (tstp l)) (u32 (starts l)) (uid_key l) (hardware_addr l) (u32 (cltt l)) (u16 ipf) (u32 xid) (u32 time)
    (negb (zlen (uid_key l) =? 0)) (negb (zlen (hardware_addr l) =? 0)) (negb (cltt l =? 0)) (negb (ipf =? 0))) as [Hip Hf].
  assert (Ei : outgoing_items (bind_update_message ip l) =
    (FTO_ASSIGNED_IP_ADDRESS, ip) :: (FTO_BINDING_STATUS, [u8 (desired_binding_state l)]) :: (if negb (zlen (uid_key l) =? 0) then [(FTO_CLIENT_IDENTIFIER, uid_key l)] else []) ++
     (if negb (zlen (hardware_addr l) =? 0) then [(FTO_CHADDR, hardware_addr l)] else []) ++ (FTO_LEASE_EXPIRY, [u32 (ends l)]) :: (FTO_POTENTIAL_EXPIRY, [u32 (tstp l)]) ::
     (FTO_STOS, [u32 (starts l)]) :: (if negb (cltt l =? 0) then [(FTO_CLTT, [u32 (cltt l)])] else []) ++ (if negb (ipf =? 0) then [(FTO_IP_FLAGS, [u16 ipf])] else [])).
  { unfold outgoing_items, bind_update_message. cbn [out_options map concat]. fold ipf. rewrite app_nil_r.
    by destruct (negb (zlen (uid_key l) =? 0)), (negb (zlen (hardware_addr l) =? 0)), (negb (cltt l =? 0)), (negb (ipf =? 0)). }
  unfold received. subst p. cbn [p_message p_time p_xid]. rewrite Ei. change (out_type (bind_update_message ip l)) with FTM_BNDUPD.
  split; [exact Hip|]. rewrite Hf. unfold bind_update_of. fold ipf.
  assert (Eu : (if negb (zlen (uid_key l) =? 0) then uid_key l else []) = uid_key l) by (destruct (Z.eqb_spec (zlen (uid_key l)) 0) as [E|_]; [by rewrite (zlen_0_nil _ E)|done]).
  assert (Eh : (if negb (zlen (hardware_addr l) =? 0) then hardware_addr l else []) = hardware_addr l) by (destruct (Z.eqb_spec (zlen (hardware_addr l)) 0) as [E|_]; [by rewrite (zlen_0_nil _ E)|done]).
  assert (Ec : (if negb (cltt l =? 0) then u32 (cltt l) else 0) = u32 (cltt l)) by (by destruct (Z.eqb_spec (cltt l) 0) as [->|_]).
  assert (Ef : (if negb (ipf =? 0) then u16 ipf else 0) = ipf) by (unfold ipf; by destruct (has_flag l RESERVED_LEASE), (has_flag l BOOTP_LEASE)).
  by rewrite Eu, Eh, Ec, Ef.
Qed.

(** ** Examples *)
Lemma renewal_short : short 1500 (uid_key renewal) /\ short 255 (hardware_addr renewal).
Proof. split; (split; [vm_compute; repeat constructor; discriminate|by vm_compute]). Qed.
Lemma bind_update_crosses_witness :
  let p := mk_posted (bind_update_message [10; 0; 0; 1] renewal) 1000 7 in
  postable p /\ address (received p) "assigned_addr" = [10; 0; 0; 1] /\ bndupd_of (received p) = bind_update_of (u32 7) renewal.
Proof.
  apply (bind_update_crosses [10; 0; 0; 1] renewal 1000 7).
  - by repeat constructor.
  - done.
  - apply renewal_short.
  - apply renewal_short.
Defined.

(** A state machine that keeps what it gets. *)
Definition keep (i : nat) (m : failover_message) (c : conn) (w : list failover_message) : outcome (conn * list failover_message) := Done (c, w ++ [m]).
Lemma keep_handles : handles keep id.
Proof. intros i m c w q Hc. by exists c, (w ++ [m]), q. Qed.
Lemma keep_returns : returns keep.
Proof. intros i m c w q Hc. by exists c, (w ++ [m]), q. Qed.

Definition three : list posted :=
  [mk_posted (bind_update_message [10; 0; 0; 1] renewal) 1000 7; mk_posted (state_message 2 0 990) 1000 8; mk_posted update_done_message 1001 9].
(** The first message of the connecting server tells who it is. *)
Definition partner : peer := mk_peer [102; 111; 111] 10 60 3600 (Some (replicate 32 170)).
Definition four : list posted := mk_posted (connect_message partner) 1000 6 :: three.
Definition cut : list (list Z) := [take 1 (whole four); take 20 (drop 1 (whole four)); drop 21 (whole four)].
Definition waiting (bufs : list ring) (n needed : Z) (state : flink_state) (m : option failover_message) (object : option nat) (len : Z) (peers : list peer) :
  receiver (W := list failover_message) := mk_receiver (mk_link state m object len 0 0) (mk_conn bufs n needed [] 0 Connected) peers [].
(** A server that has been called, and knows two peers. *)
Definition called : receiver := waiting [] 0 0 flink_start None None 0 [mk_peer [98; 97; 114] 10 60 3600 None; mk_peer [102; 111; 111] 10 60 3600 None].

Lemma three_postable : Forall postable three.
Proof.
  assert (Hp : forall m time xid, made m -> out_type m <> FTM_CONNECT -> postable (mk_posted m time xid)) by (intros m time xid Hm Hn; split; [by apply made_ok|done]).
  unfold three. repeat (apply Forall_cons_2; [|]); try apply Forall_nil_2; (apply Hp; [|done]); try constructor; try apply renewal_short; by repeat constructor.
Qed.
Lemma partner_taken : takes 1010 None (r_peers called) (mk_posted (connect_message partner) 1000 6) =
  Some (1%nat, [mk_peer [98; 97; 114] 10 60 3600 None; partner]).
Proof. vm_compute. reflexivity. Qed.
Lemma four_accepted : accepted 1010 (state_object (r_link called)) (r_peers called) four.
Proof.
  split.
  - apply made_ok, made_connect. split; [split; [by repeat constructor|by vm_compute]|split; [by apply Forall_replicate|by vm_compute]].
  - cbn [called waiting r_link state_object]. rewrite partner_taken. apply postable_accepted, three_postable.
Qed.

Lemma messages_cross_witness :
  exists c1 q1, post_all None new_conn four = Done c1 /\ conn_holds c1 q1 /\
    (concat cut = q_out q1 ->
     exists rest s' ps1 ps2, pump 1010 true keep (fun _ w => w) (fun _ => None) cut [] called = Done (rest, s') /\ four = ps1 ++ ps2 /\
       id (r_world s') = id (r_world called) ++ map received ps1 /\ (rest = [] -> ps2 = [])).
Proof.
  apply (messages_cross 1010 true keep (fun _ w => w) (fun _ => None) id new_conn (mk_q [] [] 0 Connected) four called (mk_q [] [] 0 Connected) cut None).
  - exact keep_handles.
  - exact new_conn_holds.
  - exact I.
  - reflexivity.
  - vm_compute. reflexivity.
  - exact new_conn_holds.
  - exact four_accepted.
  - reflexivity.
  - reflexivity.
  - reflexivity.
Defined.
Lemma four_arrive : exists s', pump 1010 true keep (fun _ w => w) (fun _ => None) cut [] called = Done ([], s') /\ r_world s' = map received four.
Proof.
  eexists. split; [vm_compute; reflexivity|]. vm_compute. reflexivity.
Qed.

(** Bytes that have come. *)
Definition come (data : list Z) : list ring := match put_ring omapi_buffer_new data with Done r => [r] | _ => [] end.
Lemma come_holds data needed : 0 < zlen data < OMAPI_BUF_SIZE -> conn_holds (mk_conn (come data) (zlen data) needed [] 0 Connected) (mk_q data [] needed Connected).
Proof.
  intros Hl. destruct (put_ring_ok omapi_buffer_new [] data new_holds) as (r & E & Hr).
  { change (room omapi_buffer_new) with (OMAPI_BUF_SIZE - 1). lia. }
  unfold come. rewrite E. split; cbn; [exists data, []; rewrite app_nil_r; by split|split; [done|unfold OMAPI_BUF_SIZE in Hl; lia]|done|done|done].
Qed.

(** The payload begins two bytes after the header and has an unknown option. *)
Definition odd_message : list Z := [3; 14; 0; 0; 3; 232; 0; 0; 0; 7; 1; 2; 0; 99; 0; 0].
Definition reading_odd : receiver := waiting (come odd_message) 16 16 flink_message_wait (Some empty_message) (Some 0%nat) 18 [].
Lemma read_message_safe_witness :
  exists t, read_message 1000 true keep (fun _ w => w) (fun _ => None) reading_odd = Done t /\
    (given_up t \/
     exists m l c peers, deliver keep m (mk_receiver l c peers (r_world reading_odd)) = Done t /\
       (14 <= imsg_len (r_link reading_odd) -> conn_holds c (at_byte (mk_q odd_message [] 16 Connected) (imsg_len (r_link reading_odd) - 2)))).
Proof.
  apply (read_message_safe 1000 true keep (fun _ w => w) (fun _ => None) reading_odd (mk_q odd_message [] 16 Connected) 14).
  - exact keep_returns.
  - apply (come_holds odd_message 16). done.
  - by repeat constructor.
  - reflexivity.
  - reflexivity.
  - done.
  - done.
  - reflexivity.
  - done.
  - constructor.
  - done.
Defined.

(** The payload offset is not checked: with an offset of zero the options begin
    before the header, and a variable is read that was not set. *)
Lemma payload_offset_unchecked :
  read_message 1000 true keep (fun _ w => w) (fun _ => None)
    (waiting (come [10; 0; 0; 0; 3; 232; 0; 0; 0; 7]) 10 10 flink_message_wait (Some empty_message) (Some 0%nat) 12 []) = Fault.
Proof. vm_compute. reflexivity. Qed.

(** A connect message from an unknown peer is refused; if the answer has not
    been written when more bytes are read, the server stops. *)
Definition unknown_peer : peer := mk_peer [97; 98] 10 60 3600 None.
Lemma refused_connect_stops :
  pump 1000 true keep (fun _ w => w) (fun _ => None)
    [frame (connect_message unknown_peer) 1000 1; replicate 100 0] [] (waiting [] 0 0 flink_start None None 0 []) = Fatal.
Proof. vm_compute. reflexivity. Qed.
